(* ===== verification/_CoqProject ===== *)
-Q . S2P
Prelude.v
FsmPage.v
FreeSpace.v
Sinval.v
TransamDefs.v
SlruInterface.v
Slru.v
SlruRefinement.v
Clog.v
CsnLog.v
Transam.v
Snapshot.v
HeapTuple.v
LockDefs.v
LockMgr.v
LockTable.v
Deadlock.v
DeadlockOrder.v
DeadlockSpec.v
DeadlockCheck.v
LwLock.v
LwWord.v
LwLockSpec.v
LwQueue.v
LwWakeup.v
LwProgress.v
LwVar.v
LwReach.v
LwCorrect.v
ComboCid.v
MultiXact.v
MultiXactStore.v
HeapVisibility.v
VisibilitySpec.v
HeapManager.v
HeapLock.v
HeapMultiXact.v
XLogPos.v
XLogDefs.v
XLogInsert.v
XLogWriter.v
XLogInv.v
XLogPages.v
XLogBackend.v
XLogTickets.v
XLogReserve.v
XLogScan.v
XLogDump.v
XLogAdvance.v
XLogProgress.v
XLogReach.v
XLogDecode.v
XLogReader.v
XLogReadBack.v
XLogReadSafe.v
XLogCorrect.v
XLogWait.v
BufWord.v
BufDefs.v
BufMgr.v
BufInv.v
BufPin.v
BufPage.v
BufHeader.v
BufStep.v
BufIO.v
BufReach.v
BufCorrect.v
