(* ===== verification/Prelude.v ===== *)
(** * The storage kernel of openGauss: transactions, visibility, locks, buffers, the log

    This library models the part of openGauss (sources under [src/], paths below without
    that prefix) that decides which versions of a row a transaction sees and which
    transactions have happened, and the stores this rests on.

    ** The program's parts and how they interact

    - A transaction ends by setting two status bits for itself and its subtransactions in
      the commit log (clog.cpp) and its commit sequence number, CSN, in the CSN log
      (csnlog.cpp). Both logs, and the two logs of multixacts (multixact.cpp: sets of
      transactions that lock or update one row), are arrays of 8 kB pages in the SLRU page
      cache (slru.cpp) in front of segment files.
    - transam.cpp answers "did it commit", "what is its CSN" from the logs through small
      caches; snapmgr.cpp compares the CSN with that of a snapshot, waiting for
      transactions that are just committing.
    - A row version has a header (htup.h) with the inserting and the deleting (or locking)
      transaction, or a multixact. heapam_visibility.cpp decides with the above whether a
      snapshot sees the version, whether it may be updated and whether VACUUM may remove
      it, and caches what it learnt in hint bits of the header. combocid.cpp lets one
      command id field stand for two. heapam.cpp computes the new xmax when a row is locked
      or updated and freezes old rows.
    - The free space map (fsmpage.cpp, freespace.cpp) tells an insertion which block of a
      table has room.
    - Every change is first described by a record in the write-ahead log (xlog.cpp). A
      backend reserves space for its record by one atomic addition, copies it into a ring of
      page buffers in shared memory, and reports it in a table of entries; the WAL writer
      writes and syncs the pages as far as all records have been reported, and sets the
      buffers up for new pages. A commit waits until its record is flushed, asleep on a
      semaphore that the main loop of the WAL writer (walwriter.cpp) posts. After a crash,
      recovery reads the log record by record and decodes it (xlogreader.cpp).
    - The pages of tables are used in shared buffers (bufmgr.cpp). A backend pins the buffer
      of a block, locks its contents, changes the page and marks it dirty; who needs a buffer
      takes one that is not pinned, writes it out after the log, and gives it another block.
      One 64-bit word holds the pins, the flags and the lock on the buffer's header.
    - Before a transaction uses a table it takes a lock of one of eight modes (lock.cpp),
      waiting in a queue (proc.cpp) while others hold or await conflicting modes; a process
      that has waited for a while looks for a deadlock and may rearrange queues
      (deadlock.cpp).
    - Below all of this, shared structures are guarded by lightweight locks (lwlock.cpp): a
      word changed by atomic operations, and a queue of sleeping threads.
    - Changes of the catalogs reach the caches of the other backends through a ring buffer
      of invalidation messages (sinvaladt.cpp).

    ** Files

    - Prelude.v: results and errors ([res]), the state monad [M] with [post] (returns, and
      the postcondition holds), machine integers, arrays, automation.
    - FsmPage.v, FreeSpace.v: the free space map, within a page and across pages.
    - Sinval.v: the ring buffer, one writer and many readers interleaved.
    - LockDefs.v, LockMgr.v: lock modes, the lock table and its queues; LockTable.v: its
      invariant, all processes as a step relation [lstep], and the theorems.
    - Deadlock.v: deadlock.cpp; DeadlockOrder.v, DeadlockSpec.v: the sorting of queues, the
      search for cycles; DeadlockCheck.v: the waits-for relation and the theorems.
    - LwLock.v: lwlock.cpp, one atomic access per step ([lw_run]), and any number of threads
      interleaved ([lw_step]). Invariants: LwWord.v, LwLockSpec.v (the word and the
      holders), LwQueue.v (the queue), LwWakeup.v, LwProgress.v, LwVar.v (who will be
      woken); LwReach.v: all together; LwCorrect.v: the theorems.
    - XLogPos.v: positions in the log; XLogDefs.v: records, pages and the shared structures.
      XLogInsert.v: a backend's part of xlog.cpp; XLogWriter.v: the WAL writer's part,
      start-up, and the whole system as a step relation [wal_step]. XLogInv.v: its invariant,
      kept by each kind of step: XLogPages.v, XLogBackend.v (copying), XLogTickets.v (the
      status table), XLogReserve.v, XLogScan.v, XLogDump.v (writing and syncing),
      XLogAdvance.v (page buffers), XLogReach.v (all of them, and start-up); XLogProgress.v:
      the WAL writer's rounds end, the last one with nothing left to write. XLogDecode.v: the
      decoder of xlogreader.cpp, with its theorems; XLogReader.v: the rest of it;
      XLogReadBack.v: it reads what was written; XLogReadSafe.v: what it does on any pages;
      XLogCorrect.v: the theorems on the whole log, with an example that runs it. XLogWait.v:
      the locks and semaphores on which backends wait for the WAL writer and its main loop, as
      a layer ([wait_step]) over [wal_step], and the theorem that waiting ends.
    - BufWord.v: the state word of a buffer; BufDefs.v: the buffer and a backend's state;
      BufMgr.v: the functions of bufmgr.cpp, one atomic access per step ([run], [begin]).
      BufInv.v: the invariant, and what one backend leaves to the others ([guar]); kept by
      each step: BufPin.v (pins, the header lock), BufPage.v (content lock, page, file),
      BufHeader.v (under the header lock), BufStep.v, BufIO.v (I/O and errors); BufReach.v:
      any number of backends; BufCorrect.v: the theorems, with examples that run the code.
    - TransamDefs.v: xids, CSN words (transam.h, c.h, snapshot.h).
    - SlruInterface.v: the contract of the page cache, as classes [SlruOps] and [SlruSpec],
      and its simplest implementation [page_store]. Slru.v: slru.cpp, which is shown to be
      another. SlruRefinement.v: what the cache guarantees.
    - Clog.v, CsnLog.v: the two logs, for any implementation of the contract.
    - Transam.v: transam.cpp over both logs. Snapshot.v: the xid tests of snapmgr.cpp.
    - HeapTuple.v, ComboCid.v: row headers and combo command ids.
    - MultiXact.v: multixact.cpp over the contract; MultiXactStore.v: the same on the code
      of slru.cpp, with checkpoint and restart.
    - HeapVisibility.v: heapam_visibility.cpp over an interface [xact_mgr];
      VisibilitySpec.v: the abstract account ([XactMgrSpec]: a verdict for every xid) and
      the theorems; HeapManager.v: the interface implemented by Transam.v and Snapshot.v.
    - HeapLock.v: tuple locks, xmax computation and freezing of heapam.cpp, over an
      interface [LockMgrSpec]; HeapMultiXact.v: both interfaces implemented with the
      multixact logs, which composes all of the above.

    State is a record per component, with the fields of the C structs; an operation is a
    definition with the name of the C function, its loops are auxiliary fixpoints. Ghost
    state is named as such in the file that has it: the history of what other backends
    could see of a log ([trace], [ctrace]), the locks held, the pages created, the records of
    the write-ahead log in the order of their space ([m_log]), the entries freed
    ([retired]), the pages that the page cache has written with the flush position at that
    time ([page_writes]), the owner of a buffer's header lock, the backends that have it pinned, and
    what clients have last written to each block.

    ** What the theorems show

    - Atomicity: at every instant of a commit, other backends see the tree of
      transactions committed as a whole or not at all (Clog, CsnLog, Transam).
    - Snapshot isolation: a snapshot sees what committed with a smaller CSN, whatever
      caches and hint bits say, at any later time (Snapshot, VisibilitySpec); over the code
      of the logs (HeapMultiXact). VACUUM removes nothing a snapshot can see; UPDATE
      proceeds only on a row that is free. Locking and freezing a row change no snapshot's
      view (HeapLock). Any sequence of visibility tests, with the hint bits they set, leaves
      the answers of all tests as they were.
    - Functional behaviour of the logs' operations on every branch, their invariants,
      round trips (set and get, create and read members, checkpoint and restart), and that
      every loop ends.
    - The page cache refines a map of pages; in every sequence of calls it flushes the WAL
      before it writes a page, and it loses nothing on a failed write (SlruRefinement).
    - The free space map: searches return, and return only blocks with the space; after a
      vacuum they miss none; recording and reading, truncation, and the addressing are
      right within 32 bits (FsmPage, FreeSpace).
    - Invalidation messages: no reader misses one unless it is told to reset, none is
      overwritten unread, a reader with messages has its flag set, insertion ends (Sinval).
    - Locks: conflicting modes are held only within one lock group or query, whoever waits
      has to, the counts are exact, a deadlock found before sleeping is one (LockTable). The
      deadlock check returns; what it calls a deadlock is one, what it leaves behind is
      none, and it causes none elsewhere (DeadlockCheck, for processes without groups).
    - Lightweight locks, in every interleaving: an exclusive holder is alone, the word
      counts the holders, nobody sleeps on a free lock or on a variable that has changed
      (LwCorrect).
    - The write-ahead log, in every interleaving of any number of backends and the WAL
      writer: the records tile the reserved space, what a reader finds in the synced files
      is these records byte by byte up to the flush position, whoever has waited for a flush
      finds his record there, the PANICs about buffers and positions cannot happen, the
      rounds of the WAL writer end (XLogCorrect). A backend that waits for a flush or for page
      buffers, wherever it is in its wait, can always be woken by the main loop of the WAL
      writer once its position is published or all of the log is reported (XLogWait). The
      reader accepts only records with the right checksum and returns; if it reads none it
      stays where it was, if the decoder rejects the record it has moved on (XLogReadSafe).
      The decoder returns on every record, and the pieces of one it accepts tile it, as far
      as the lengths it does not check are sane (XLogDecode).
    - A shared buffer, in every interleaving of any number of backends, with I/O errors at any
      point: whoever has been given a block finds it, with its last contents, until it
      releases it; no change is lost when the buffer is written, recycled or read again (the
      buffer and the files refine a map of blocks); the log is on disk before the page; the
      reference count is exact; a cleanup lock is held alone; one backend at a time does I/O;
      the PANICs cannot happen (BufCorrect).
    - Where the code does not do what it means to, the theorem states what it does
      (HeapLock.conflict_branches_swapped, DeadlockCheck.group_soft_deadlock_missed,
      LwCorrect.lw_timeout_lost_wakeup, FreeSpace.update_map_never_ends,
      CsnLog.nested_lookup_without_lock, MultiXact.truncate_releases_unheld,
      BufCorrect.meta_buffer_recycled, XLogDecode.decode_unchecked).

    ** Bounds and fuel

    Integers are [Z]; where the code computes in a machine width the wrap-around is written
    out ([u8], [u32], [u64], [i32]). Loops whose bound is not structural take fuel and the
    theorems prove that it is enough: the victim search of the cache (one round and two per
    slot), the chains of parents in the CSN log (the xid bounds the length), waiting loops
    (any fuel: the theorem is about each), the retry of the xmax computation (one), the FSM
    page (12 levels) and its repair (one), the FSM search (three pages per descent, 10002
    descents, the code's own valve), the room in the ring buffer (two clean-ups), the search
    for a cycle and the choice of constraints (MaxBackends + 2: the code's own limits), the
    sorting of a queue (its length), the pages of a record that is read and the headers of
    one that is decoded (its length in bytes), the page buffers set up at start-up (one round more than there are).

    The theorems on the write-ahead log are for a log that stays below 2^62 bytes and does
    not begin in segment 0, for fewer than 2^30 backends (the counter of records has 31
    bits), any segment size the code allows and any number of buffers ([WalGeometryOk]). The
    checksum is a parameter; reading back needs that its values have 32 bits. Those on a
    shared buffer are for fewer than 2^32 backends, the width of the reference count.

    ** Not modelled

    - Operating system I/O below the files, DSS and DMS (shared storage clusters), the
      meaning of WAL records to redo. In the files on the logs of transactions the write-ahead log
      appears as a flush position.
    - Of the write-ahead log: segment switches, group insertion on ARM, backends that write
      the log themselves because the WAL writer is not up or a record is longer than the
      ring of buffers ([CopySelfFlush] stops there), the suspension of insertions
      ([StartSuspendWalInsert]: no step stores WAL_COPY_SUSPEND, so that the branch of
      [ReserveXLogInsertLocation] for it is not taken), failing system calls, archiving, DCF
      and uwal, checkpoints and redo. In [wal_step] a waiting backend tests again at any time,
      and whether the idle WAL writer syncs is open: these runs include those of the code,
      whose sleeping, wake-ups and main loop are in XLogWait.v ([wait_reach_wal]). There the
      lock of the waiters is the contract of [LWLockAcquireOrWait] and [LWLockRelease] (their
      code is in LwLock.v), and time is a choice: the timed wait may time out. A backend's
      accesses to shared memory are sequentially consistent.
    - Of the buffer manager: the table that maps blocks to buffers and the choice of a victim
      (a buffer may be looked at for any block at any time, and nothing else has the block it
      is given), strategies, extending a relation, repairing a page that was read, local
      buffers, bulk I/O, NVM, segment pages, double write, incremental checkpoints, recovery
      and standbys. A page that is written is written whole.
    - Concurrency inside the page cache and the free space map: one backend at a time.
      Other backends do appear where the code is about them: in the histories of the logs,
      in group commit, while waiting for a multixact or for a committing transaction.
    - The proc array (which xids run) is a parameter with its laws; in the files other than
      those on lwlock.cpp, lightweight locks appear as the list of those held.
    - Of lightweight locks: weak memory (accesses are sequentially consistent), the list of
      the locks a thread holds, the victims of the deadlock monitor.
    - Of the lock manager: the backend-local table, the fast path and prepared
      transactions; of the deadlock check: its limits on time and stack, and the reports.
    - Parser, optimizer, executor, replication, undo store and memory tables: other
      subsystems. The remaining functions of clog.cpp and csnlog.cpp (truncation, redo) and
      the two functions of freespace.cpp for replay are the next to be modelled. *)

From stdpp Require Export base numbers list gmap option tactics sorting.
From Stdlib Require Export ZArith Lia.
From stdpp Require Export list.

#[global] Open Scope Z_scope.

(** ** Results of fallible code

    [ereport(ERROR, ...)] unwinds to the caller's handler, [ereport(PANIC,
    ...)] takes the whole server down; a loop whose bound is not structural is
    given fuel, and [NoFuel] is the value of a loop that has run out of it (the
    theorems prove it away). *)

Inductive elevel : Type :=
| ERROR
| FATAL
| PANIC.

#[global] Instance elevel_eq_dec : EqDecision elevel.
Proof. solve_decision. Defined.

Inductive res (A : Type) : Type :=
| Ok (a : A)
| Ereport (l : elevel)
| NoFuel.
Arguments Ok {A} a.
Arguments Ereport {A} l.
Arguments NoFuel {A}.

#[global] Instance res_ret : MRet res := @Ok.
#[global] Instance res_bind : MBind res := λ A B k m,
  match m with
  | Ok a => k a
  | Ereport l => Ereport l
  | NoFuel => NoFuel
  end.

#[global] Instance res_eq_dec {A} `{EqDecision A} : EqDecision (res A).
Proof. solve_decision. Defined.

(** A run that neither raised nor ran out of fuel. *)
Definition is_ok {A} (m : res A) : Prop := ∃ a, m = Ok a.

Lemma is_ok_Ok {A} (a : A) : is_ok (Ok a).
Proof. by exists a. Qed.

Lemma bind_Ok {A B} (m : res A) (k : A → res B) b :
  m ≫= k = Ok b ↔ ∃ a, m = Ok a ∧ k a = Ok b.
Proof.
  destruct m; cbn; split; [intros; eauto | by intros (? & [= ->] & ?) | done
    | by intros (? & ? & ?) | done | by intros (? & ? & ?)].
Qed.

Lemma bind_Ok_l {A B} (a : A) (k : A → res B) : Ok a ≫= k = k a.
Proof. done. Qed.

(** ** Stateful code

    [M S A]: a computation over the (shared) state [S]. An error does not roll
    the state back: what was written before [ereport] stays written. *)

Definition M (S A : Type) : Type := S → res A * S.

#[global] Instance M_ret {S} : MRet (M S) := λ A a s, (Ok a, s).
#[global] Instance M_bind {S} : MBind (M S) := λ A B k m s,
  match m s with
  | (Ok a, s') => k a s'
  | (Ereport l, s') => (Ereport l, s')
  | (NoFuel, s') => (NoFuel, s')
  end.

Definition gets {S A} (f : S → A) : M S A := λ s, (Ok (f s), s).
Definition modify {S} (f : S → S) : M S unit := λ s, (Ok tt, f s).
Definition raise {S A} (l : elevel) : M S A := λ s, (Ereport l, s).
Definition nofuel {S A} : M S A := λ s, (NoFuel, s).
Definition skip {S} : M S unit := λ s, (Ok tt, s).

(** [for (i = 0; i < n; i++) body(xs[i])]. *)
Fixpoint for_each {S A} (f : A → M S unit) (xs : list A) : M S unit :=
  match xs with
  | [] => skip
  | x :: xs => f x ≫= λ _, for_each f xs
  end.

(** [runs m s a s']: [m], started in [s], returns [a] and leaves [s']. *)
Definition runs {S A} (m : M S A) (s : S) (a : A) (s' : S) : Prop := m s = (Ok a, s').

Lemma runs_ret {S A} (a : A) (s : S) : runs (mret a) s a s.
Proof. done. Qed.

Lemma runs_gets {S A} (f : S → A) (s : S) : runs (gets f) s (f s) s.
Proof. done. Qed.

Lemma runs_modify {S} (f : S → S) (s : S) : runs (modify f) s tt (f s).
Proof. done. Qed.

Lemma runs_skip {S} (s : S) : runs skip s tt s.
Proof. done. Qed.

Lemma runs_bind {S A B} (m : M S A) (k : A → M S B) s a s' b s'' :
  runs m s a s' → runs (k a) s' b s'' → runs (m ≫= k) s b s''.
Proof. unfold runs, mbind, M_bind. by intros ->. Qed.

Lemma runs_bind_inv {S A B} (m : M S A) (k : A → M S B) s b s'' :
  runs (m ≫= k) s b s'' → ∃ a s', runs m s a s' ∧ runs (k a) s' b s''.
Proof.
  unfold runs, mbind, M_bind. destruct (m s) as [[a|l|] s']; [|done..]. eauto.
Qed.

Lemma runs_det {S A} (m : M S A) s a s' a2 s2 :
  runs m s a s' → runs m s a2 s2 → a = a2 ∧ s' = s2.
Proof. unfold runs. intros -> [= -> ->]. done. Qed.

Lemma runs_for_each_one {S A} (f : A → M S unit) x s s' :
  runs (for_each f [x]) s tt s' → runs (f x) s tt s'.
Proof.
  intros ([] & s1 & H & [= ->])%runs_bind_inv. done.
Qed.

(** [post m s Q]: [m], started in [s], returns (it neither raises nor runs out of
    fuel) and [Q] holds of the result and the state it leaves. *)
Definition post {S A} (m : M S A) (s : S) (Q : A → S → Prop) : Prop :=
  ∃ a s', runs m s a s' ∧ Q a s'.

Lemma post_runs {S A} (m : M S A) s a s' (Q : A → S → Prop) :
  runs m s a s' → Q a s' → post m s Q.
Proof. intros. by exists a, s'. Qed.

Lemma post_ret {S A} (a : A) (s : S) (Q : A → S → Prop) : Q a s → post (mret a) s Q.
Proof. intros. by exists a, s. Qed.

Lemma post_gets {S A} (f : S → A) (s : S) (Q : A → S → Prop) : Q (f s) s → post (gets f) s Q.
Proof. intros. by exists (f s), s. Qed.

Lemma post_modify {S} (f : S → S) (s : S) (Q : unit → S → Prop) : Q tt (f s) → post (modify f) s Q.
Proof. intros. by exists tt, (f s). Qed.

Lemma post_skip {S} (s : S) (Q : unit → S → Prop) : Q tt s → post skip s Q.
Proof. intros. by exists tt, s. Qed.

Lemma post_bind {S A B} (m : M S A) (k : A → M S B) s (Q : B → S → Prop) :
  post m s (λ a s', post (k a) s' Q) → post (m ≫= k) s Q.
Proof.
  intros (a & s' & Hm & b & s'' & Hk & HQ). exists b, s''. split; [|done]. by eapply runs_bind.
Qed.

Lemma post_mono {S A} (m : M S A) s (Q Q' : A → S → Prop) :
  post m s Q → (∀ a s', Q a s' → Q' a s') → post m s Q'.
Proof. intros (a & s' & Hm & HQ) H. exists a, s'. by split; [|apply H]. Qed.

(** [wpost m s Q]: [m] does not raise, and [Q] holds if it returns; it may run out
    of fuel. *)
Definition wpost {S A} (m : M S A) (s : S) (Q : A → S → Prop) : Prop :=
  match m s with
  | (Ok a, s') => Q a s'
  | (Ereport _, _) => False
  | (NoFuel, _) => True
  end.

Lemma wpost_post {S A} (m : M S A) s (Q : A → S → Prop) : post m s Q → wpost m s Q.
Proof. intros (a & s' & Hm & HQ). unfold wpost, runs in *. by rewrite Hm. Qed.

Lemma wpost_bind {S A B} (m : M S A) (k : A → M S B) s (Q : B → S → Prop) :
  wpost m s (λ a s', wpost (k a) s' Q) → wpost (m ≫= k) s Q.
Proof. unfold wpost, mbind, M_bind. by destruct (m s) as [[a|l|] s']. Qed.

Lemma wpost_mono {S A} (m : M S A) s (Q Q' : A → S → Prop) :
  wpost m s Q → (∀ a s', Q a s' → Q' a s') → wpost m s Q'.
Proof. unfold wpost. destruct (m s) as [[a|l|] s']; auto. Qed.

Lemma wpost_runs {S A} (m : M S A) s a s' (Q : A → S → Prop) : wpost m s Q → runs m s a s' → Q a s'.
Proof. unfold wpost, runs. intros H Hr. by rewrite Hr in H. Qed.

(** ** Automation *)

Create HintDb kernel.
#[export] Hint Resolve is_ok_Ok runs_ret runs_gets runs_modify runs_skip : kernel.
Create Rewrite HintDb kernel_rw.
#[export] Hint Rewrite @bind_Ok_l : kernel_rw.

(** Boolean tests on [Z], as the C code writes them, to propositions. *)
Ltac bool_to_prop :=
  repeat match goal with
  | H : (_ && _)%bool = true |- _ => apply andb_true_iff in H; destruct H
  | H : (_ || _)%bool = false |- _ => apply orb_false_iff in H; destruct H
  | H : negb _ = true |- _ => apply negb_true_iff in H
  | H : negb _ = false |- _ => apply negb_false_iff in H
  | H : (_ =? _) = true |- _ => apply Z.eqb_eq in H
  | H : (_ =? _) = false |- _ => apply Z.eqb_neq in H
  | H : (_ <? _) = true |- _ => apply Z.ltb_lt in H
  | H : (_ <? _) = false |- _ => apply Z.ltb_ge in H
  | H : (_ <=? _) = true |- _ => apply Z.leb_le in H
  | H : (_ <=? _) = false |- _ => apply Z.leb_gt in H
  | H : (_ >=? _) = _ |- _ => rewrite Z.geb_leb in H
  | H : (_ >? _) = _ |- _ => rewrite Z.gtb_ltb in H
  end.

(** Split on the first [if] or [match] on a boolean that the goal or a
    hypothesis scrutinises. *)
Ltac case_bool :=
  match goal with
  | |- context [if ?b then _ else _] =>
      match type of b with bool => destruct b eqn:? end
  | H : context [if ?b then _ else _] |- _ =>
      match type of b with bool => destruct b eqn:? end
  end.

(** Peel the binds off a hypothesis [m = Ok r]. *)
Ltac inv_bind :=
  repeat match goal with
  | H : (_ ≫= _) = Ok _ |- _ =>
      apply bind_Ok in H; destruct H as (? & ? & H); cbn beta in H
  | H : mret _ = Ok _ |- _ => injection H as H
  | H : Ok _ = Ok _ |- _ => injection H as H
  | H : Ereport _ = Ok _ |- _ => discriminate H
  | H : NoFuel = Ok _ |- _ => discriminate H
  end.

(** The same for a run of stateful code. *)
Ltac inv_runs :=
  repeat match goal with
  | H : runs (_ ≫= _) _ _ _ |- _ =>
      apply runs_bind_inv in H; destruct H as (? & ? & ? & H); cbn beta in H
  | H : runs (mret _) _ _ _ |- _ => injection H; clear H; intros; subst
  | H : runs (gets _) _ _ _ |- _ => injection H; clear H; intros; subst
  | H : runs (modify _) _ _ _ |- _ => injection H; clear H; intros; subst
  | H : runs skip _ _ _ |- _ => injection H; clear H; intros; subst
  | H : runs (raise _) _ _ _ |- _ => discriminate H
  | H : runs nofuel _ _ _ |- _ => discriminate H
  end.

(** ** Machine integers *)

Definition u8 (z : Z) : Z := z mod 2 ^ 8.
Definition u32 (z : Z) : Z := z mod 2 ^ 32.
Definition u64 (z : Z) : Z := z mod 2 ^ 64.
(** Conversion to a signed 32-bit [int]. *)
Definition i32 (z : Z) : Z := let r := u32 z in if r <? 2 ^ 31 then r else r - 2 ^ 32.
(** [~x] on an unsigned [w]-bit integer. *)
Definition lnotw (w x : Z) : Z := Z.land (Z.lnot x) (Z.ones w).

Lemma u8_range z : 0 ≤ u8 z < 256.
Proof. unfold u8. apply Z.mod_pos_bound. lia. Qed.

Lemma u64_small z : 0 ≤ z < 2 ^ 64 → u64 z = z.
Proof. intros. unfold u64. by apply Z.mod_small. Qed.

Lemma i32_small z : 0 ≤ z < 2 ^ 31 → i32 z = z.
Proof.
  intros. unfold i32, u32. rewrite Z.mod_small by lia. cbv zeta. by rewrite (proj2 (Z.ltb_lt _ _)) by lia.
Qed.

Lemma testbit_small z n i : 0 ≤ z < 2 ^ n → 0 ≤ n ≤ i → Z.testbit z i = false.
Proof.
  intros Hz Hi. rewrite <- (Z.mod_small z (2 ^ n)) by lia.
  apply Z.mod_pow2_bits_high. lia.
Qed.

(** Setting a flag bit above a small field is an addition. *)
Lemma lor_flag_add b x : 0 ≤ x < 2 ^ b → 0 ≤ b → Z.lor (2 ^ b) x = 2 ^ b + x.
Proof.
  intros Hx Hb. symmetry. rewrite Z.add_nocarry_lxor.
  - apply Z.bits_inj'. intros i Hi. rewrite Z.lxor_spec, Z.lor_spec.
    destruct (decide (i = b)) as [->|Hne].
    + rewrite (testbit_small x b b) by lia. by rewrite Z.pow2_bits_true.
    + rewrite Z.pow2_bits_false by done. by destruct (Z.testbit x i).
  - apply Z.bits_inj'. intros i Hi. rewrite Z.land_spec, Z.bits_0.
    destruct (decide (i = b)) as [->|Hne].
    + by rewrite (testbit_small x b b), andb_false_r by lia.
    + by rewrite Z.pow2_bits_false.
Qed.

Lemma land_mask_mod x b : 0 ≤ b → Z.land x (2 ^ b - 1) = x mod 2 ^ b.
Proof.
  intros. rewrite <- Z.land_ones by done. f_equal. rewrite Z.ones_equiv. lia.
Qed.

(** [x & (1 << b)] is the flag itself when bit [b] is set, else 0. *)
Lemma land_flag x b :
  0 ≤ b → Z.land x (2 ^ b) = if Z.testbit x b then 2 ^ b else 0.
Proof.
  intros Hb. apply Z.bits_inj'. intros i Hi. rewrite Z.land_spec.
  destruct (decide (i = b)) as [->|Hne].
  - rewrite Z.pow2_bits_true by done. rewrite andb_true_r.
    destruct (Z.testbit x b); [by rewrite Z.pow2_bits_true | by rewrite Z.bits_0].
  - rewrite (Z.pow2_bits_false b i) by done. rewrite andb_false_r.
    destruct (Z.testbit x b); [by rewrite Z.pow2_bits_false | by rewrite Z.bits_0].
Qed.

(** ** Exhaustive checks on small ranges of integers *)

Definition zrange (n : nat) : list Z := Z.of_nat <$> seq 0 n.

Lemma zrange_forallb (n : nat) (P : Z → bool) :
  forallb P (zrange n) = true → ∀ z, 0 ≤ z < Z.of_nat n → P z = true.
Proof.
  rewrite forallb_forall. intros H z Hz. apply H.
  apply list_elem_of_In, list_elem_of_fmap. exists (Z.to_nat z).
  split; [lia|]. apply elem_of_seq. lia.
Qed.

(** ** Arrays

    C arrays as lists indexed by [Z]; the indices the code computes are shown
    to be in range where a theorem needs it. *)

Definition aget {A} (d : A) (l : list A) (i : Z) : A := default d (l !! Z.to_nat i).
Definition aset {A} (l : list A) (i : Z) (x : A) : list A := <[Z.to_nat i := x]> l.

Lemma aget_aset_eq {A} (d : A) l i x :
  0 ≤ i < Z.of_nat (length l) → aget d (aset l i x) i = x.
Proof. intros. unfold aget, aset. rewrite list_lookup_insert_eq by lia. done. Qed.

Lemma aget_aset_ne {A} (d : A) l i j x :
  0 ≤ i → 0 ≤ j → i ≠ j → aget d (aset l i x) j = aget d l j.
Proof. intros. unfold aget, aset. rewrite list_lookup_insert_ne by lia. done. Qed.

Lemma length_aset {A} (l : list A) i x : length (aset l i x) = length l.
Proof. apply length_insert. Qed.

Lemma aset_Forall {A} (P : A → Prop) l i x : Forall P l → P x → Forall P (aset l i x).
Proof. intros. by apply Forall_insert. Qed.

Lemma aget_replicate {A} (d : A) n i : aget d (replicate n d) i = d.
Proof. unfold aget. destruct (replicate n d !! _) eqn:E; [|done]. by apply lookup_replicate in E as [-> _]. Qed.

Lemma aget_Forall {A} (P : A → Prop) d l i : Forall P l → P d → P (aget d l i).
Proof.
  intros Hl Hd. unfold aget. destruct (l !! Z.to_nat i) eqn:E; [|done].
  by eapply Forall_lookup_1 in E.
Qed.

(** The longest prefix of [l] on which [f] holds, and the rest. *)
Fixpoint span {A} (f : A → bool) (l : list A) : list A * list A :=
  match l with
  | [] => ([], [])
  | x :: l' => if f x then let '(a, b) := span f l' in (x :: a, b) else ([], l)
  end.

Lemma span_app {A} (f : A → bool) l : (span f l).1 ++ (span f l).2 = l.
Proof.
  induction l as [|x l IH]; cbn; [done|]. destruct (f x); [|done].
  destruct (span f l); cbn in *. by rewrite IH.
Qed.

Lemma span_prefix {A} (f : A → bool) l : Forall (λ x, f x = true) (span f l).1.
Proof.
  induction l as [|x l IH]; cbn; [constructor|]. destruct (f x) eqn:E; [|constructor].
  destruct (span f l); cbn in *. by constructor.
Qed.

Lemma span_elem {A} (f : A → bool) l x : x ∈ l ↔ x ∈ (span f l).1 ∨ x ∈ (span f l).2.
Proof. rewrite <- elem_of_app. by rewrite span_app. Qed.

(** A prefix of a list is a prefix of its extensions. *)
Lemma take_prefix_app {A} (P : list A → Prop) l1 l2 :
  (∃ k, P (take k l1)) → ∃ k, P (take k (l1 ++ l2)).
Proof.
  intros [k Hk]. destruct (decide (k ≤ length l1)%nat).
  - exists k. by rewrite take_app_le.
  - exists (length l1). rewrite take_app_length. by rewrite take_ge in Hk by lia.
Qed.

(** Block size of the storage layer ([src/include/pg_config.h]). *)
Definition BLCKSZ : Z := 8192.
