(* ===== verification/FsmPage.v ===== *)
(** * One page of the free space map

    [src/gausskernel/storage/freespace/fsmpage.cpp]: a page of the free space map is a
    binary tree in an array; a leaf ("slot") is the category of the free space of a heap
    page (or of the root of a lower page), an inner node the maximum of its children.
    The last leaves of the bottom level are missing. Modelled: setting and reading a slot,
    the search, truncation, and the reconstruction of a torn page.

    An access to [fp_nodes] out of bounds is an error ([PANIC]), so that the theorems, which
    say that the operations return, also say that there is none. The search runs under the
    lock of the buffer; that others may change the page while a shared lock is exchanged
    for an exclusive one is not modelled. *)

From S2P Require Import Prelude.

Definition SizeOfPageHeaderData : Z := 24.
Definition MAXALIGN (len : Z) : Z := Z.land (len + 7) (lnotw 64 7).
(** [offsetof(FSMPageData, fp_nodes)]: the size of an [int]. *)
Definition fp_nodes_offset : Z := 4.
Definition NodesPerPage : Z := BLCKSZ - MAXALIGN SizeOfPageHeaderData - fp_nodes_offset.
Definition NonLeafNodesPerPage : Z := BLCKSZ / 2 - 1.
Definition LeafNodesPerPage : Z := NodesPerPage - NonLeafNodesPerPage.

Record FSMPageData := { fp_next_slot : Z; fp_nodes : list Z }.

Definition leftchild (x : Z) : Z := 2 * x + 1.
Definition parentof (x : Z) : Z := Z.quot (x - 1) 2.

Definition rightneighbor (x : Z) : Z :=
  let x := x + 1 in
  if Z.land (x + 1) x =? 0 then parentof x else x.

Definition with_nodes (l : list Z) (p : FSMPageData) : FSMPageData := {| fp_next_slot := fp_next_slot p; fp_nodes := l |}.
Definition with_next (n : Z) (p : FSMPageData) : FSMPageData := {| fp_next_slot := n; fp_nodes := fp_nodes p |}.

Definition in_page (n : Z) : bool := (0 <=? n) && (n <? NodesPerPage).
Definition node (n : Z) : M FSMPageData Z :=
  if in_page n then gets (λ p, aget 0 (fp_nodes p) n) else raise PANIC.
Definition set_node (n v : Z) : M FSMPageData unit :=
  if in_page n then modify (λ p, with_nodes (aset (fp_nodes p) n v) p) else raise PANIC.

(** The maximum of the children there are. *)
Definition max_child (lchild : Z) (newvalue : Z) : M FSMPageData Z :=
  if lchild + 1 <? NodesPerPage then r ← node (lchild + 1); mret (Z.max newvalue r) else mret newvalue.

Fixpoint rebuild_loop (nodenos : list Z) (changed : bool) : M FSMPageData bool :=
  match nodenos with
  | [] => mret changed
  | nodeno :: nodenos =>
      let lchild := leftchild nodeno in
      newvalue ← (if lchild <? NodesPerPage then node lchild else mret 0);
      newvalue ← max_child lchild newvalue;
      old ← node nodeno;
      if old =? newvalue then rebuild_loop nodenos changed
      else set_node nodeno newvalue ≫= λ _, rebuild_loop nodenos true
  end.

Definition fsm_rebuild_page : M FSMPageData bool :=
  rebuild_loop (reverse (seqZ 0 NonLeafNodesPerPage)) false.

(** The [do] loop; [fuel] bounds the number of levels. *)
Fixpoint propagate (fuel : nat) (nodeno : Z) : M FSMPageData unit :=
  match fuel with
  | O => nofuel
  | S fuel =>
      let nodeno := parentof nodeno in
      let lchild := leftchild nodeno in
      newvalue ← node lchild;
      newvalue ← max_child lchild newvalue;
      oldvalue ← node nodeno;
      if oldvalue =? newvalue then skip
      else
        set_node nodeno newvalue ≫= λ _,
        if 0 <? nodeno then propagate fuel nodeno else skip
  end.

Definition tree_depth : nat := 12.

Definition fsm_set_avail (slot value : Z) : M FSMPageData bool :=
  let nodeno := NonLeafNodesPerPage + slot in
  oldvalue ← node nodeno;
  root ← node 0;
  if (oldvalue =? value) && (value <=? root) then mret false
  else
    set_node nodeno value ≫= λ _,
    propagate tree_depth nodeno ≫= λ _,
    root ← node 0;
    (if root <? value then fsm_rebuild_page ≫= λ _, skip else skip) ≫= λ _,
    mret true.

Definition fsm_get_avail (slot : Z) : M FSMPageData Z := node (NonLeafNodesPerPage + slot).
Definition fsm_get_max_avail : M FSMPageData Z := node 0.

Fixpoint clear_loop (nodenos : list Z) (changed : bool) : M FSMPageData bool :=
  match nodenos with
  | [] => mret changed
  | n :: nodenos => v ← node n; set_node n 0 ≫= λ _, clear_loop nodenos (changed || negb (v =? 0))
  end.

Definition fsm_truncate_avail (nslots : Z) : M FSMPageData bool :=
  changed ← clear_loop (seqZ (NonLeafNodesPerPage + nslots) (LeafNodesPerPage - nslots)) false;
  (if changed : bool then fsm_rebuild_page ≫= λ _, skip else skip) ≫= λ _,
  mret changed.

(** ** The search *)

(** To the right and up, until a node has enough. *)
Fixpoint climb (fuel : nat) (minvalue nodeno : Z) : M FSMPageData Z :=
  match fuel with
  | O => nofuel
  | S fuel =>
      if 0 <? nodeno then
        v ← node nodeno;
        if minvalue <=? v then mret nodeno else climb fuel minvalue (parentof (rightneighbor nodeno))
      else mret nodeno
  end.

Definition has_enough (minvalue childnodeno : Z) : M FSMPageData bool :=
  if childnodeno <? NodesPerPage then v ← node childnodeno; mret (minvalue <=? v) else mret false.

(** Down to a leaf; [None] if neither child has what the parent promised. *)
Fixpoint descend (fuel : nat) (minvalue nodeno : Z) : M FSMPageData (option Z) :=
  match fuel with
  | O => nofuel
  | S fuel =>
      if nodeno <? NonLeafNodesPerPage then
        let childnodeno := leftchild nodeno in
        left_ ← has_enough minvalue childnodeno;
        if left_ : bool then descend fuel minvalue childnodeno
        else
          let childnodeno := childnodeno + 1 in
          right_ ← has_enough minvalue childnodeno;
          if right_ : bool then descend fuel minvalue childnodeno else mret None
      else mret (Some nodeno)
  end.

(** The buffer that holds the page. *)
Record fsm_buffer := {
  fsm_page : FSMPageData;
  lock_exclusive : bool;
  marked_dirty : bool;
  marked_hint : bool;
  fsm_page_lsn : Z;
}.
Definition on_fsm {A} (m : M FSMPageData A) : M fsm_buffer A := λ b,
  let '(r, p) := m (fsm_page b) in
  (r, {| fsm_page := p; lock_exclusive := lock_exclusive b; marked_dirty := marked_dirty b;
         marked_hint := marked_hint b; fsm_page_lsn := fsm_page_lsn b |}).

(** Whether the relation is in a segment file, and [GetXLogInsertEndRecPtr()]. *)
Record fsm_env := { IsSegmentFileNode : bool; XLogInsertEnd : Z }.

Definition mark_repaired (env : fsm_env) (b : fsm_buffer) : fsm_buffer :=
  if IsSegmentFileNode env
  then {| fsm_page := fsm_page b; lock_exclusive := lock_exclusive b; marked_dirty := true;
          marked_hint := marked_hint b; fsm_page_lsn := XLogInsertEnd env |}
  else {| fsm_page := fsm_page b; lock_exclusive := lock_exclusive b; marked_dirty := marked_dirty b;
          marked_hint := true; fsm_page_lsn := fsm_page_lsn b |}.
Definition lock_exclusively (b : fsm_buffer) : fsm_buffer :=
  {| fsm_page := fsm_page b; lock_exclusive := true; marked_dirty := marked_dirty b; marked_hint := marked_hint b;
     fsm_page_lsn := fsm_page_lsn b |}.

(** From [restart]. *)
Fixpoint search_loop (fuel : nat) (env : fsm_env) (minvalue : Z) (advancenext : bool) : M fsm_buffer Z :=
  match fuel with
  | O => nofuel
  | S fuel =>
      root ← on_fsm (node 0);
      if root <? minvalue then mret (-1)
      else
        target ← gets (λ b, fp_next_slot (fsm_page b));
        let target := if (target <? 0) || (LeafNodesPerPage <=? target) then 0 else target in
        nodeno ← on_fsm (climb (S tree_depth) minvalue (target + NonLeafNodesPerPage));
        leaf ← on_fsm (descend (S tree_depth) minvalue nodeno);
        match leaf with
        | Some nodeno =>
            let slot := (nodeno - NonLeafNodesPerPage) mod 2 ^ 16 in
            on_fsm (modify (with_next (slot + (if advancenext then 1 else 0)))) ≫= λ _,
            mret slot
        | None =>
            modify lock_exclusively ≫= λ _,
            on_fsm fsm_rebuild_page ≫= λ _,
            modify (mark_repaired env) ≫= λ _,
            search_loop fuel env minvalue advancenext
        end
  end.

(** A page is repaired at most once. *)
Definition fsm_search_avail (env : fsm_env) (minvalue : Z) (advancenext : bool) : M fsm_buffer Z :=
  search_loop 2 env minvalue advancenext.

(** ** The tree *)

Lemma Nodes_eq : NodesPerPage = 8164.
Proof. done. Qed.
Lemma NonLeaf_eq : NonLeafNodesPerPage = 4095.
Proof. done. Qed.
Lemma Leaf_eq : LeafNodesPerPage = 4069.
Proof. done. Qed.

(** [lia] with the sizes of the page. *)
Ltac flia := unfold leftchild in *; rewrite ?Nodes_eq, ?NonLeaf_eq, ?Leaf_eq in *; lia.

Definition val (p : FSMPageData) (n : Z) : Z := aget 0 (fp_nodes p) n.

Record page_wf (p : FSMPageData) : Prop := {
  wf_length : Z.of_nat (length (fp_nodes p)) = NodesPerPage;
  wf_bytes : Forall (λ v, 0 ≤ v < 256) (fp_nodes p);
}.
Definition consistent p (n : Z) : Prop := val p n = Z.max (val p (leftchild n)) (val p (leftchild n + 1)).

(** Every inner node is the maximum of its children. *)
Definition fsm_ok p : Prop := page_wf p ∧ ∀ n, 0 ≤ n < NonLeafNodesPerPage → consistent p n.

(** A write leaves the leaves and the next slot alone. *)
Definition same_leaves p p' : Prop :=
  fp_next_slot p' = fp_next_slot p ∧ ∀ n, NonLeafNodesPerPage ≤ n → val p' n = val p n.

Lemma parent_spec x : 1 ≤ x → 0 ≤ parentof x < x ∧ (x = leftchild (parentof x) ∨ x = leftchild (parentof x) + 1).
Proof.
  intros Hx. unfold parentof, leftchild. rewrite Z.quot_div_nonneg by lia.
  Z.to_euclidean_division_equations. lia.
Qed.

Lemma parent_unique x m : 1 ≤ x → x = leftchild m ∨ x = leftchild m + 1 → m = parentof x.
Proof. intros Hx Hm. destruct (parent_spec x Hx) as (? & [|]); flia. Qed.

Lemma val_range p n : page_wf p → 0 ≤ val p n < 256.
Proof. intros [_ Hb]. by apply (aget_Forall (λ v, 0 ≤ v < 256)). Qed.

Lemma val_out p n : page_wf p → NodesPerPage ≤ n → val p n = 0.
Proof.
  intros [Hl _] Hn. unfold val, aget. rewrite lookup_ge_None_2; [done|]. flia.
Qed.

Definition put (n v : Z) p : FSMPageData := with_nodes (aset (fp_nodes p) n v) p.

Lemma put_wf n v p : page_wf p → 0 ≤ v < 256 → page_wf (put n v p).
Proof. intros [H1 H2] Hv. split; cbn; [by rewrite length_aset|by apply aset_Forall]. Qed.

Lemma val_put_eq n v p : page_wf p → 0 ≤ n < NodesPerPage → val (put n v p) n = v.
Proof. intros [Hl _] Hn. apply aget_aset_eq. lia. Qed.

Lemma val_put_ne n v p m : 0 ≤ n → 0 ≤ m → n ≠ m → val (put n v p) m = val p m.
Proof. intros. by apply aget_aset_ne. Qed.

Lemma in_page_true n : 0 ≤ n < NodesPerPage → in_page n = true.
Proof. intros. unfold in_page. rewrite (proj2 (Z.leb_le _ _)), (proj2 (Z.ltb_lt _ _)) by lia. done. Qed.

Lemma post_node n p (Q : Z → FSMPageData → Prop) : 0 ≤ n < NodesPerPage → Q (val p n) p → post (node n) p Q.
Proof. intros Hn HQ. unfold node. rewrite in_page_true by done. by apply post_gets. Qed.

Lemma post_set_node n v p (Q : unit → FSMPageData → Prop) :
  0 ≤ n < NodesPerPage → Q tt (put n v p) → post (set_node n v) p Q.
Proof. intros Hn HQ. unfold set_node. rewrite in_page_true by done. by apply post_modify. Qed.

Lemma post_max_child l v p (Q : Z → FSMPageData → Prop) :
  page_wf p → 0 ≤ l → 0 ≤ v → Q (Z.max v (val p (l + 1))) p → post (max_child l v) p Q.
Proof.
  intros Hw Hl Hv HQ. unfold max_child. destruct (Z.ltb_spec (l + 1) NodesPerPage) as [Hlt|Hge].
  - apply post_bind, post_node; [lia|]. by apply post_ret.
  - rewrite (val_out p (l + 1)), Z.max_l in HQ by done. by apply post_ret.
Qed.

(** ** Setting a slot *)

(** Writing node [q] disturbs only its parent. *)
Lemma put_consistent p q v m :
  page_wf p → 0 ≤ q < NonLeafNodesPerPage → 0 ≤ m < NonLeafNodesPerPage → m ≠ q → (1 ≤ q → m ≠ parentof q) →
  consistent p m → consistent (put q v p) m.
Proof.
  intros Hw Hq Hm Hne Hpar Hc. unfold consistent in *.
  assert (∀ c, c = leftchild m ∨ c = leftchild m + 1 → val (put q v p) c = val p c) as Hch.
  { intros c Hc'. apply val_put_ne; [flia|flia|]. intros ->. apply Hpar; [flia|]. apply parent_unique; [flia|done]. }
  rewrite (Hch (leftchild m)), (Hch (leftchild m + 1)), val_put_ne by first [flia|auto]. done.
Qed.

Lemma put_made p q :
  page_wf p → 0 ≤ q < NonLeafNodesPerPage →
  consistent (put q (Z.max (val p (leftchild q)) (val p (leftchild q + 1))) p) q.
Proof. intros Hw Hq. unfold consistent. rewrite val_put_eq by (done || flia). by rewrite !val_put_ne by flia. Qed.

Lemma put_leaves p q v : 0 ≤ q < NonLeafNodesPerPage → same_leaves p (put q v p).
Proof. intros Hq. split; [done|]. intros n Hn. apply val_put_ne; flia. Qed.

Lemma same_leaves_trans p1 p2 p3 : same_leaves p1 p2 → same_leaves p2 p3 → same_leaves p1 p3.
Proof. intros [E1 H1] [E2 H2]. split; [congruence|]. intros n Hn. by rewrite H2, H1. Qed.

Lemma max_range p a b : page_wf p → 0 ≤ Z.max (val p a) (val p b) < 256.
Proof. intros Hw. pose proof (val_range p a Hw). pose proof (val_range p b Hw). lia. Qed.

Lemma propagate_post fuel : ∀ n p,
  page_wf p → 1 ≤ n < NodesPerPage → n < 2 ^ Z.of_nat (S fuel) - 1 →
  post (propagate fuel n) p (λ _ p', page_wf p' ∧ same_leaves p p' ∧
    ((∀ m, 0 ≤ m < NonLeafNodesPerPage → m ≠ parentof n → consistent p m) → fsm_ok p')).
Proof.
  induction fuel as [|fuel IH]; intros n p Hw Hn Hf; [cbn in Hf; lia|].
  cbn [propagate]. destruct (parent_spec n) as ((Hq0 & Hqn) & Hch); [lia|]. set (q := parentof n) in *.
  assert (0 ≤ q < NonLeafNodesPerPage) as Hq by flia.
  apply post_bind, post_node; [flia|]. apply post_bind, post_max_child; [done|flia|by apply val_range|].
  apply post_bind, post_node; [flia|]. set (nv := Z.max _ _). destruct (Z.eqb_spec (val p q) nv) as [He|He].
  { apply post_skip. split_and!; [done|done|]. intros Hm. split; [done|]. intros m Hm'.
    destruct (decide (m = q)) as [->|]; [done|auto]. }
  apply post_bind, post_set_node; [flia|]. pose proof (max_range p (leftchild q) (leftchild q + 1) Hw) as Hnv.
  pose proof (put_wf q nv p Hw Hnv) as Hw'. pose proof (put_leaves p q nv Hq) as Hl.
  pose proof (put_made p q Hw Hq) as Hmade. fold nv in Hmade.
  destruct (Z.ltb_spec 0 q) as [Hpos|Hz].
  - eapply post_mono; [apply IH; [done|flia|rewrite !Nat2Z.inj_succ, !Z.pow_succ_r in * by lia; flia]|].
    intros _ p' (Hw2 & Hl2 & Hok). split_and!; [done|by eapply same_leaves_trans|]. intros Hm. apply Hok. intros m Hm' Hne.
    destruct (decide (m = q)) as [->|]; [done|]. apply put_consistent; try done. by apply Hm.
  - apply post_skip. split_and!; [done|done|]. intros Hm. split; [done|]. intros m Hm'.
    destruct (decide (m = q)) as [->|]; [done|]. apply put_consistent; try done; [lia|]. by apply Hm.
Qed.

Lemma rebuild_loop_post k : ∀ p changed,
  Z.of_nat k ≤ NonLeafNodesPerPage → page_wf p → (∀ n, Z.of_nat k ≤ n < NonLeafNodesPerPage → consistent p n) →
  post (rebuild_loop (reverse (seqZ 0 (Z.of_nat k))) changed) p
    (λ r p', fsm_ok p' ∧ same_leaves p p' ∧ (r = false → changed = false ∧ p' = p)).
Proof.
  induction k as [|k IH]; intros p changed Hk Hw Hc.
  { apply post_ret. split_and!; try done. }
  rewrite Nat2Z.inj_succ, <- Z.add_1_r, seqZ_app, reverse_app by lia.
  replace (seqZ (0 + Z.of_nat k) 1) with [Z.of_nat k] by (unfold seqZ; cbn; f_equal; lia). rewrite reverse_singleton. cbn [app].
  set (q := Z.of_nat k) in *. assert (0 ≤ q < NonLeafNodesPerPage) as Hq by lia. cbn [rebuild_loop].
  apply post_bind. assert (post (if leftchild q <? NodesPerPage then node (leftchild q) else mret 0) p
    (λ r p', r = val p (leftchild q) ∧ p' = p)) as (r & p1 & Hr & -> & ->).
  { destruct (Z.ltb_spec (leftchild q) NodesPerPage); [apply post_node; [flia|done]|apply post_ret]. by rewrite val_out. }
  eapply post_runs; [exact Hr|]. apply post_bind, post_max_child; [done|flia|by apply val_range|].
  apply post_bind, post_node; [flia|]. set (nv := Z.max _ _). pose proof (put_made p q Hw Hq) as Hmade. fold nv in Hmade.
  destruct (Z.eqb_spec (val p q) nv) as [He|He].
  { apply IH; [lia|done|]. intros n Hn. destruct (decide (n = q)) as [->|]; [done|]. apply Hc. lia. }
  apply post_bind, post_set_node; [flia|].
  eapply post_mono; [apply IH; [lia|apply put_wf; [done|by apply max_range]|]|].
  - intros n Hn. destruct (decide (n = q)) as [->|]; [done|]. apply put_consistent; try done; [lia| |apply Hc; lia].
    intros Hq1 ->. destruct (parent_spec q Hq1). lia.
  - intros r p' (Hok & Hl & Hf). split_and!; [done|eapply same_leaves_trans; [by apply put_leaves|done]|].
    by intros [? _]%Hf.
Qed.

Lemma rebuild_post p :
  page_wf p → post fsm_rebuild_page p (λ r p', fsm_ok p' ∧ same_leaves p p' ∧ (r = false → p' = p)).
Proof.
  intros Hw. pose proof (rebuild_loop_post (Z.to_nat NonLeafNodesPerPage) p false) as H.
  rewrite Z2Nat.id in H by flia. eapply post_mono; [apply H; [lia|done|lia]|].
  intros r p' (? & ? & Hr). split_and!; [done..|]. by intros [_ ?]%Hr.
Qed.

(** The value of a slot. *)
Definition avail p (slot : Z) : Z := val p (NonLeafNodesPerPage + slot).

Lemma same_leaves_avail p p' s : same_leaves p p' → 0 ≤ s → avail p' s = avail p s.
Proof. intros [_ H] Hs. apply H. lia. Qed.

Lemma below_root p n : fsm_ok p → 0 ≤ n < NodesPerPage → val p n ≤ val p 0.
Proof.
  intros [Hw Hc] Hn. assert (0 ≤ n) as H0 by lia. revert Hn.
  apply (Zlt_0_ind (λ n, 0 ≤ n < NodesPerPage → val p n ≤ val p 0)); [|done]. clear n H0. intros n IH H0 Hn.
  destruct (decide (n = 0)) as [->|]; [done|]. destruct (parent_spec n) as (Hq & Hch); [lia|].
  specialize (IH (parentof n)). rewrite (Hc (parentof n)) in IH by (unfold leftchild in Hch; flia).
  specialize (IH ltac:(lia) ltac:(lia)). destruct Hch as [Hch|Hch]; rewrite <- Hch in IH; lia.
Qed.

(** Writing a leaf disturbs only its parent. *)
Lemma put_leaf_consistent p n v m :
  NonLeafNodesPerPage ≤ n → 0 ≤ m < NonLeafNodesPerPage → m ≠ parentof n → consistent p m → consistent (put n v p) m.
Proof.
  intros Hn Hm Hne Hc. unfold consistent in *.
  rewrite (val_put_ne n v p m), (val_put_ne n v p (leftchild m)), (val_put_ne n v p (leftchild m + 1)); try done; try flia;
    intros E; apply Hne, parent_unique; flia.
Qed.

(** The tail of [fsm_set_avail]: the check of the root. *)
Lemma check_root_post p value slot :
  page_wf p → 0 ≤ slot < LeafNodesPerPage → avail p slot = value →
  post (if val p 0 <? value then fsm_rebuild_page ≫= λ _, skip else skip) p
    (λ _ p', page_wf p' ∧ same_leaves p p' ∧ value ≤ val p' 0 ∧ (fsm_ok p → fsm_ok p')).
Proof.
  intros Hw Hs Ha. destruct (Z.ltb_spec (val p 0) value) as [Hlt|Hge]; [|by apply post_skip].
  apply post_bind. eapply post_mono; [by apply rebuild_post|]. intros r p' (Hok & Hl & _). apply post_skip.
  split_and!; try done; [apply Hok|]. rewrite <- Ha, <- (same_leaves_avail _ _ slot Hl) by lia. apply below_root; [done|flia].
Qed.

Lemma set_store_post p slot value :
  page_wf p → 0 ≤ slot < LeafNodesPerPage → 0 ≤ value < 256 →
  post (set_node (NonLeafNodesPerPage + slot) value ≫= λ _, propagate tree_depth (NonLeafNodesPerPage + slot) ≫= λ _,
        root ← node 0; (if root <? value then fsm_rebuild_page ≫= λ _, skip else skip) ≫= λ _, mret true) p
    (λ r p', r = true ∧ page_wf p' ∧ fp_next_slot p' = fp_next_slot p ∧ avail p' slot = value ∧
       (∀ s, 0 ≤ s < LeafNodesPerPage → s ≠ slot → avail p' s = avail p s) ∧ value ≤ val p' 0 ∧ (fsm_ok p → fsm_ok p')).
Proof.
  intros Hw Hs Hv. set (n := NonLeafNodesPerPage + slot). assert (0 ≤ n < NodesPerPage) as Hn by (subst n; flia).
  apply post_bind, post_set_node; [done|]. pose proof (put_wf n value p Hw Hv) as Hw1.
  assert (avail (put n value p) slot = value) as Ha by by apply val_put_eq.
  apply post_bind. eapply post_mono; [apply propagate_post; [done|subst n; flia|change (2 ^ Z.of_nat _) with 8192; subst n; flia]|].
  intros _ p1 (Hw2 & Hl & Hok1). apply post_bind, post_node; [flia|]. apply post_bind.
  pose proof (same_leaves_avail _ _ slot Hl ltac:(lia)) as Ha1. rewrite Ha in Ha1.
  eapply post_mono; [by apply (check_root_post _ _ slot)|]. intros _ p2 (Hw3 & Hl3 & Hv3 & Hok3). apply post_ret.
  pose proof (same_leaves_trans _ _ _ Hl Hl3) as Hl4. split_and!; try done.
  - apply Hl4.
  - by rewrite (same_leaves_avail _ _ slot Hl4) by lia.
  - intros s Hs' Hne. rewrite (same_leaves_avail _ _ s Hl4) by lia. apply val_put_ne; subst n; flia.
  - intros [_ Hc]. apply Hok3, Hok1. intros m Hm Hne. apply put_leaf_consistent; try done; [subst n; flia|by apply Hc].
Qed.

Lemma set_avail_post p slot value :
  page_wf p → 0 ≤ slot < LeafNodesPerPage → 0 ≤ value < 256 →
  post (fsm_set_avail slot value) p (λ r p', page_wf p' ∧ fp_next_slot p' = fp_next_slot p ∧
    avail p' slot = value ∧ (∀ s, 0 ≤ s < LeafNodesPerPage → s ≠ slot → avail p' s = avail p s) ∧ value ≤ val p' 0 ∧
    (fsm_ok p → fsm_ok p' ∧ r = negb (avail p slot =? value))).
Proof.
  intros Hw Hs Hv. unfold fsm_set_avail. apply post_bind, post_node; [flia|]. apply post_bind, post_node; [flia|].
  fold (avail p slot). assert (fsm_ok p → avail p slot ≤ val p 0) as Hroot by (intros Hok; apply below_root; [done|flia]).
  destruct ((avail p slot =? value) && (value <=? val p 0)) eqn:E.
  { bool_to_prop. apply post_ret. split_and!; try done. intros Hok. split; [done|]. by rewrite (proj2 (Z.eqb_eq _ _)). }
  eapply post_mono; [by apply set_store_post|]. intros r p' (-> & H1 & H2 & H3 & H4 & H5 & H6). split_and!; try done.
  intros Hok. split; [by apply H6|]. specialize (Hroot Hok). destruct (Z.eqb_spec (avail p slot) value) as [He|]; [|done].
  cbn [andb] in E. bool_to_prop. lia.
Qed.

(** [fsm_set_avail] on any page, torn or not: the slot has the new value, no other slot
    changes, the root is at least the value, and no access is out of bounds. On a page
    whose inner nodes are right it keeps them right, and reports truly whether it changed
    the page. *)
Theorem fsm_set_avail_spec p slot value :
  page_wf p → 0 ≤ slot < LeafNodesPerPage → 0 ≤ value < 256 →
  post (fsm_set_avail slot value) p (λ r p', page_wf p' ∧ fp_next_slot p' = fp_next_slot p ∧
    avail p' slot = value ∧ (∀ s, 0 ≤ s < LeafNodesPerPage → s ≠ slot → avail p' s = avail p s) ∧ value ≤ val p' 0 ∧
    (fsm_ok p → fsm_ok p' ∧ r = negb (avail p slot =? value))).
Proof. apply set_avail_post. Qed.

(** ** Truncation *)

Lemma clear_loop_post ns : ∀ p changed,
  page_wf p → Forall (λ n, NonLeafNodesPerPage ≤ n < NodesPerPage) ns →
  post (clear_loop ns changed) p (λ r p', page_wf p' ∧ fp_next_slot p' = fp_next_slot p ∧
    (∀ n, 0 ≤ n → val p' n = if decide (n ∈ ns) then 0 else val p n) ∧
    (r = false ↔ changed = false ∧ ∀ n, n ∈ ns → val p n = 0)).
Proof.
  induction ns as [|n ns IH]; intros p changed Hw Hns; cbn [clear_loop].
  { apply post_ret. split_and!; try done. split; [|by intros [? _]]. intros ->. split; [done|]. by intros n ?%elem_of_nil. }
  apply Forall_cons in Hns as [Hn Hns]. apply post_bind, post_node; [flia|]. apply post_bind, post_set_node; [flia|].
  eapply post_mono; [apply IH; [by apply put_wf|done]|]. intros r p' (Hw' & Hx & Hval & Hr).
  assert (∀ k, 0 ≤ k → val (put n 0 p) k = if decide (k = n) then 0 else val p k) as Hput.
  { intros k Hk. case_decide as E; [subst; apply val_put_eq; [done|flia]|apply val_put_ne; flia]. }
  split_and!; try done.
  - intros k Hk. rewrite Hval, Hput by done. destruct (decide (k ∈ ns)) as [Hin|Hin].
    { rewrite decide_True; [done|by right]. }
    destruct (decide (k = n)) as [->|Hne]; [rewrite decide_True; [done|by left]|].
    rewrite decide_False; [done|]. by intros [?|?]%elem_of_cons.
  - rewrite Hr, orb_false_iff, negb_false_iff, Z.eqb_eq. split.
    + intros [[-> Hn0] Hall]. split; [done|]. intros k [->|Hk]%elem_of_cons; [done|].
      specialize (Hall k Hk). rewrite Forall_forall in Hns. rewrite Hput in Hall by (specialize (Hns k Hk); flia). by case_decide; subst.
    + intros [-> Hall]. split; [split; [done|apply Hall; by left]|]. intros k Hk. rewrite Forall_forall in Hns.
      rewrite Hput by (specialize (Hns k Hk); flia). case_decide; [done|]. apply Hall. by right.
Qed.

Lemma truncate_avail_post p nslots :
  fsm_ok p → 0 ≤ nslots < LeafNodesPerPage →
  post (fsm_truncate_avail nslots) p (λ r p', fsm_ok p' ∧ fp_next_slot p' = fp_next_slot p ∧
    (∀ s, 0 ≤ s < LeafNodesPerPage → avail p' s = if nslots <=? s then 0 else avail p s) ∧
    (r = false ↔ ∀ s, nslots ≤ s < LeafNodesPerPage → avail p s = 0)).
Proof.
  intros [Hw Hc] Hs. unfold fsm_truncate_avail. apply post_bind.
  set (ns := seqZ _ _). assert (∀ n, n ∈ ns ↔ NonLeafNodesPerPage + nslots ≤ n < NodesPerPage) as Hns.
  { intros n. subst ns. rewrite elem_of_seqZ. flia. }
  eapply post_mono; [apply clear_loop_post; [done|apply Forall_forall; intros n ?%Hns; flia]|].
  intros r p1 (Hw1 & Hx & Hval & Hr). apply post_bind.
  assert (r = false ↔ ∀ s, nslots ≤ s < LeafNodesPerPage → avail p s = 0) as Hr'.
  { rewrite Hr. split.
    - intros [_ H] s Hs'. apply H, Hns. flia.
    - intros H. split; [done|]. intros n Hn%Hns. replace n with (NonLeafNodesPerPage + (n - NonLeafNodesPerPage)) by lia. apply H. flia. }
  assert (∀ s, 0 ≤ s < LeafNodesPerPage → avail p1 s = if nslots <=? s then 0 else avail p s) as Ha.
  { intros s Hs'. unfold avail. rewrite Hval by flia. case_decide as E; rewrite Hns in E.
    - rewrite (proj2 (Z.leb_le _ _)) by lia. done.
    - rewrite (proj2 (Z.leb_gt _ _)) by flia. done. }
  destruct r.
  - apply post_bind. eapply post_mono; [by apply rebuild_post|]. intros r p2 (Hok & Hl & _). apply post_skip, post_ret.
    split_and!; try done; [by rewrite (proj1 Hl)|]. intros s Hs'. rewrite (same_leaves_avail _ _ s Hl) by lia. by apply Ha.
  - apply post_skip, post_ret. split_and!; try done. split; [done|]. intros n Hn.
    assert (∀ k, 0 ≤ k → val p1 k = val p k) as Hsame.
    { intros k Hk. rewrite Hval by done. case_decide as E; [|done]. symmetry. by apply (proj1 Hr eq_refl). }
    unfold consistent. rewrite !Hsame by flia. by apply Hc.
Qed.

(** [fsm_truncate_avail] empties the slots from [nslots] on and keeps the others; on a
    page whose inner nodes are right they are right after it; it returns whether one of
    the slots was not empty. *)
Theorem fsm_truncate_avail_spec p nslots :
  fsm_ok p → 0 ≤ nslots < LeafNodesPerPage →
  post (fsm_truncate_avail nslots) p (λ r p', fsm_ok p' ∧ fp_next_slot p' = fp_next_slot p ∧
    (∀ s, 0 ≤ s < LeafNodesPerPage → avail p' s = if nslots <=? s then 0 else avail p s) ∧
    (r = false ↔ ∀ s, nslots ≤ s < LeafNodesPerPage → avail p s = 0)).
Proof. apply truncate_avail_post. Qed.

(** ** Levels

    The nodes of height [h] (leaves have height 0, the root 12) are those from
    [level h - 1] on, as many as [level h]; node [x] covers the [2 ^ h] leaves from
    [first h x] on (some of which may be missing). *)

Definition level (h : nat) : Z := 2 ^ (12 - Z.of_nat h).
Definition at_height (h : nat) (x : Z) : Prop := level h ≤ x + 1 < 2 * level h.
Definition width (h : nat) : Z := 2 ^ Z.of_nat h.
Definition first (h : nat) (x : Z) : Z := (x + 1) * width h - 1.

Lemma level_S h : (h < 12)%nat → level h = 2 * level (S h).
Proof.
  intros Hh. unfold level. replace (12 - Z.of_nat h) with (Z.succ (12 - Z.of_nat (S h))) by lia.
  apply Z.pow_succ_r. lia.
Qed.
Lemma width_S h : width (S h) = 2 * width h.
Proof. unfold width. rewrite Nat2Z.inj_succ. apply Z.pow_succ_r. lia. Qed.
Lemma level_width h : (h ≤ 12)%nat → level h * width h = 4096.
Proof. intros Hh. unfold level, width. rewrite <- Z.pow_add_r by lia. by replace (12 - Z.of_nat h + Z.of_nat h) with 12 by lia. Qed.
Lemma level_pos h : (h ≤ 12)%nat → 1 ≤ level h.
Proof. intros Hh. unfold level. pose proof (Z.pow_pos_nonneg 2 (12 - Z.of_nat h)). lia. Qed.
Lemma width_pos h : 1 ≤ width h.
Proof. unfold width. pose proof (Z.pow_pos_nonneg 2 (Z.of_nat h)). lia. Qed.

Lemma level_le h : (1 ≤ h ≤ 12)%nat → 2 * level h ≤ 4096.
Proof. intros Hh. pose proof (level_width h). pose proof (level_pos h). destruct h as [|h]; [lia|]. rewrite width_S in *. pose proof (width_pos h). nia. Qed.

Lemma height_inner h x : (1 ≤ h ≤ 12)%nat → at_height h x → 0 ≤ x < NonLeafNodesPerPage.
Proof. intros Hh Hx. pose proof (level_le h Hh). pose proof (level_pos h). unfold at_height in Hx. flia. Qed.
Lemma height_leaf x : at_height 0 x → NonLeafNodesPerPage ≤ x < 8191.
Proof. unfold at_height. change (level 0) with 4096. flia. Qed.

(** The trick with [x & (x + 1)]. *)
Lemma pow2_trick k n : 0 ≤ k → 2 ^ k < n ≤ 2 ^ (k + 1) → (Z.land n (n - 1) =? 0) = (n =? 2 ^ (k + 1)).
Proof.
  intros Hk Hn. destruct (Z.eqb_spec n (2 ^ (k + 1))) as [->|Hne].
  - rewrite land_mask_mod, Z.mod_same by lia. done.
  - apply Z.eqb_neq. intros E. assert (2 ^ (k + 1) = 2 * 2 ^ k) as Hp by (rewrite Z.pow_add_r by lia; lia).
    assert (∀ a, 2 ^ k ≤ a < 2 ^ (k + 1) → Z.testbit a k = true) as Hbit.
    { intros a Ha. apply Z.testbit_true; [done|]. by rewrite <- (Z.div_unique a (2 ^ k) 1 (a - 2 ^ k)) by lia. }
    assert (Z.testbit (Z.land n (n - 1)) k = true) as Ht by (rewrite Z.land_spec, !Hbit by lia; done).
    by rewrite E, Z.bits_0 in Ht.
Qed.

Lemma rightneighbor_spec h x :
  (h ≤ 12)%nat → at_height h x → rightneighbor x = if x =? 2 * level h - 2 then level h - 1 else x + 1.
Proof.
  intros Hh Hx. unfold rightneighbor. cbv zeta. pose proof (level_pos h Hh). unfold at_height in Hx.
  replace (Z.land (x + 1 + 1) (x + 1)) with (Z.land (x + 2) (x + 2 - 1)) by (f_equal; lia).
  assert (2 ^ (12 - Z.of_nat h + 1) = 2 * level h) as E by (unfold level; rewrite Z.pow_add_r by lia; lia).
  rewrite (pow2_trick (12 - Z.of_nat h)) by (rewrite ?E; fold (level h); lia). rewrite E.
  destruct (Z.eqb_spec (x + 2) (2 * level h)), (Z.eqb_spec x (2 * level h - 2)); try lia.
  unfold parentof. rewrite Z.quot_div_nonneg by lia. symmetry. apply (Z.div_unique _ _ _ 0); lia.
Qed.

(** One step of the climb, from an inner position: the same leaves and those to the right
    of them, or the next ones, or, from the last, the first. *)
Lemma climb_step h x :
  (h < 12)%nat → at_height h x →
  let y := parentof (rightneighbor x) in
  at_height (S h) y ∧
  (first (S h) y = first h x ∨ first (S h) y = first h x + width h ∨
   first h x + width h = 8191 ∧ first (S h) y = 4095).
Proof.
  intros Hh Hx y. assert (rightneighbor x = if x =? 2 * level h - 2 then level h - 1 else x + 1) as E
    by (apply rightneighbor_spec; [lia|done]). pose proof (level_S h Hh) as Hl. pose proof (level_pos (S h) Hh) as Hp.
  pose proof (level_width h ltac:(lia)) as Hlw. unfold at_height, first in *. rewrite width_S.
  assert (1 ≤ rightneighbor x) as H1 by (rewrite E; case_bool; lia).
  destruct (parent_spec (rightneighbor x) H1) as (_ & Hch). fold y in Hch. unfold leftchild in Hch. rewrite E in Hch.
  destruct (Z.eqb_spec x (2 * level h - 2)) as [->|Hne].
  - assert (y = level (S h) - 1) as -> by lia. split; [lia|]. right. right. nia.
  - split; [lia|]. destruct Hch as [Hch|Hch]; [right; left|left]; nia.
Qed.

Lemma child_step h x :
  (h < 12)%nat → at_height (S h) x →
  at_height h (leftchild x) ∧ first h (leftchild x) = first (S h) x ∧
  at_height h (leftchild x + 1) ∧ first h (leftchild x + 1) = first (S h) x + width h.
Proof.
  intros Hh Hx. pose proof (level_S h Hh). unfold at_height, first, leftchild in *. rewrite width_S. split_and!; lia.
Qed.

(** ** The search *)

Section Search.
Context (p : FSMPageData) (minvalue : Z).
Hypothesis Hw : page_wf p.

(** What a node covers it bounds. *)
Lemma cover_le h : ∀ x j, (h ≤ 12)%nat → fsm_ok p → at_height h x → first h x ≤ j < first h x + width h → val p j ≤ val p x.
Proof using Hw.
  induction h as [|h IH]; intros x j Hh Hok Hx Hj.
  { unfold first, width in Hj. cbn in Hj. by assert (j = x) as -> by lia. }
  destruct (child_step h x) as (Hl & El & Hr & Er); [lia|done|]. rewrite width_S in Hj.
  destruct Hok as [_ Hc]. rewrite (Hc x) by (by apply (height_inner (S h)); [lia|]). apply Z.max_le_iff.
  destruct (decide (j < first (S h) x + width h)); [left; apply IH|right; apply IH]; try done; lia.
Qed.

(** Between the start [t] and the leaves of [x], to the right and around, nothing has
    enough. *)
Definition searched (t : Z) (h : nat) (x : Z) : Prop :=
  (t ≤ first h x ∧ ∀ j, t ≤ j < first h x → val p j < minvalue) ∨
  ((∀ j, t ≤ j < 8191 → val p j < minvalue) ∧ ∀ j, 4095 ≤ j < first h x → val p j < minvalue).

Lemma searched_step t h x :
  fsm_ok p → (h < 12)%nat → at_height h x → val p x < minvalue → searched t h x → searched t (S h) (parentof (rightneighbor x)).
Proof using Hw.
  intros Hok Hh Hx Hlt Hs. destruct (climb_step h x Hh Hx) as (_ & Hf). unfold searched in *.
  assert (∀ j, first h x ≤ j < first h x + width h → val p j < minvalue) as Hnone.
  { intros j Hj. pose proof (cover_le h x j ltac:(lia) Hok Hx Hj). lia. }
  set (y := parentof _) in *. pose proof (width_pos h). destruct Hf as [->|[->|[Hend ->]]]; [done|..].
  - destruct Hs as [[Hle Hs]|[Hs1 Hs2]]; [left; split; [lia|]|right; split; [done|]]; intros j Hj;
      destruct (decide (j < first h x)); [apply Hs; lia|apply Hnone; lia|apply Hs2; lia|apply Hnone; lia].
  - right. split; [|lia]. intros j Hj. destruct Hs as [[Hle Hs]|[Hs1 Hs2]]; [|by apply Hs1].
    destruct (decide (j < first h x)); [apply Hs; lia|apply Hnone; lia].
Qed.

Lemma climb_post f : ∀ h x t,
  (h ≤ 12)%nat → (12 < h + f)%nat → at_height h x → x < NodesPerPage → minvalue ≤ val p 0 →
  (h = 0%nat ∨ 1 ≤ minvalue) → (fsm_ok p → searched t h x) →
  post (climb f minvalue x) p (λ y p', p' = p ∧ minvalue ≤ val p y ∧ y < NodesPerPage ∧ ∃ h', (h' ≤ 12)%nat ∧ at_height h' y ∧
    (h' = 0%nat ∨ 1 ≤ minvalue) ∧ (fsm_ok p → searched t h' y)).
Proof using Hw.
  induction f as [|f IH]; intros h x t Hh Hf Hx Hn Hroot Hz Hs; [lia|]. cbn [climb].
  pose proof (level_pos h Hh) as Hlp. destruct (Z.ltb_spec 0 x) as [Hpos|Hx0].
  - apply post_bind, post_node; [lia|]. destruct (Z.leb_spec minvalue (val p x)) as [Hle|Hlt].
    { apply post_ret. split_and!; try done. by exists h. }
    assert (h < 12)%nat as Hh'.
    { destruct (decide (h = 12%nat)) as [->|]; [|lia]. unfold at_height in Hx. change (level 12) with 1 in Hx. lia. }
    destruct (climb_step h x Hh' Hx) as (Hy & _). pose proof (height_inner (S h) _ ltac:(lia) Hy) as Hyr.
    apply (IH (S h)); [lia|lia|done|flia|done|right|].
    + pose proof (val_range p x Hw). lia.
    + intros Hok. apply searched_step; auto.
  - unfold at_height in Hx. assert (x = 0) as -> by lia. apply post_ret. split_and!; try done. by exists h.
Qed.

Lemma post_has_enough n (Q : bool → FSMPageData → Prop) :
  0 ≤ n → (Q (bool_decide (n < NodesPerPage ∧ minvalue ≤ val p n)) p) → post (has_enough minvalue n) p Q.
Proof.
  intros Hn HQ. unfold has_enough. destruct (Z.ltb_spec n NodesPerPage) as [Hlt|Hge].
  - apply post_bind, post_node; [lia|]. apply post_ret. destruct (Z.leb_spec minvalue (val p n)).
    + by rewrite bool_decide_true in HQ.
    + rewrite bool_decide_false in HQ; [done|lia].
  - apply post_ret. rewrite bool_decide_false in HQ; [done|lia].
Qed.

(** Down to the leftmost leaf that has enough; on a torn page perhaps to none. *)
Lemma descend_post f : ∀ h x,
  (h ≤ 12)%nat → (h < f)%nat → at_height h x → x < NodesPerPage → minvalue ≤ val p x → (h = 0%nat ∨ 1 ≤ minvalue) →
  post (descend f minvalue x) p (λ r p', p' = p ∧
    (∀ j, r = Some j → NonLeafNodesPerPage ≤ j < NodesPerPage ∧ minvalue ≤ val p j) ∧
    (fsm_ok p → ∃ j, r = Some j ∧ first h x ≤ j ∧ ∀ i, first h x ≤ i < j → val p i < minvalue)).
Proof using Hw.
  induction f as [|f IH]; intros h x Hh Hf Hx Hn Hv Hz; [lia|]. cbn [descend]. destruct h as [|h].
  { pose proof (height_leaf x Hx). rewrite (proj2 (Z.ltb_ge _ _)) by lia. apply post_ret. split_and!; try done.
    - intros j [= <-]. split; [lia|done].
    - intros _. exists x. unfold first, width. cbn. split_and!; [done|lia|lia]. }
  destruct Hz as [|H1]; [done|]. pose proof (height_inner (S h) x ltac:(lia) Hx) as Hxr. rewrite (proj2 (Z.ltb_lt _ _)) by lia.
  destruct (child_step h x) as (Hl & El & Hr & Er); [lia|done|]. pose proof (width_pos h).
  apply post_bind, post_has_enough; [flia|]. case_bool_decide as Hgl.
  { eapply post_mono; [apply (IH h); [lia|lia|done|lia|lia|by right]|]. intros r p' (-> & H2 & H3). split_and!; try done.
    intros Hok. destruct (H3 Hok) as (j & -> & Hj & Hi). rewrite El in *. by exists j. }
  apply post_bind, post_has_enough; [flia|]. case_bool_decide as Hgr.
  { eapply post_mono; [apply (IH h); [lia|lia|done|lia|lia|by right]|]. intros r p' (-> & H2 & H3). split_and!; try done.
    intros Hok. destruct (H3 Hok) as (j & -> & Hj & Hi). rewrite Er in *. exists j. split_and!; [done|lia|].
    intros i Hi'. destruct (decide (i < first (S h) x + width h)); [|apply Hi; lia].
    assert (val p (leftchild x) < minvalue) as Hlt.
    { destruct (decide (leftchild x < NodesPerPage)); [lia|]. rewrite val_out; [lia|done|lia]. }
    pose proof (cover_le h (leftchild x) i ltac:(lia) Hok Hl). lia. }
  apply post_ret. split_and!; [done|done|]. intros [_ Hc]. specialize (Hc x Hxr). unfold consistent in Hc.
  assert (∀ c, ¬ (c < NodesPerPage ∧ minvalue ≤ val p c) → val p c < minvalue) as Hno.
  { intros c Hc'. destruct (decide (c < NodesPerPage)); [lia|]. rewrite val_out; [lia|done|lia]. }
  apply Hno in Hgl, Hgr. lia.
Qed.
End Search.

(** Where the search starts. *)
Definition start_slot p : Z :=
  if (fp_next_slot p <? 0) || (LeafNodesPerPage <=? fp_next_slot p) then 0 else fp_next_slot p.

Lemma start_range p : 0 ≤ start_slot p < LeafNodesPerPage.
Proof. unfold start_slot. destruct (Z.ltb_spec (fp_next_slot p) 0), (Z.leb_spec LeafNodesPerPage (fp_next_slot p)); cbn; flia. Qed.

(** [slot] has enough, and none between the start and it, to the right and around, has. *)
Definition next_with p (minvalue slot : Z) : Prop :=
  0 ≤ slot < LeafNodesPerPage ∧ minvalue ≤ avail p slot ∧
  ((start_slot p ≤ slot ∧ ∀ i, start_slot p ≤ i < slot → avail p i < minvalue) ∨
   ((∀ i, start_slot p ≤ i < LeafNodesPerPage → avail p i < minvalue) ∧ ∀ i, 0 ≤ i < slot → avail p i < minvalue)).

Lemma post_on_fsm {A} (m : M FSMPageData A) b (Q : A → fsm_buffer → Prop) :
  post m (fsm_page b) (λ a p, Q a {| fsm_page := p; lock_exclusive := lock_exclusive b; marked_dirty := marked_dirty b;
                                     marked_hint := marked_hint b; fsm_page_lsn := fsm_page_lsn b |}) →
  post (on_fsm m) b Q.
Proof.
  intros (a & p & Hr & HQ). eexists a, _. split; [|exact HQ]. unfold runs, on_fsm in *. by rewrite Hr.
Qed.

Definition set_page (p : FSMPageData) (b : fsm_buffer) : fsm_buffer := {|
  fsm_page := p; lock_exclusive := lock_exclusive b; marked_dirty := marked_dirty b;
  marked_hint := marked_hint b; fsm_page_lsn := fsm_page_lsn b |}.

(** One round: nothing has enough, a slot is found, or the page is torn. *)
Lemma search_round fuel env minvalue (advancenext : bool) b (Q : Z → fsm_buffer → Prop) :
  let p := fsm_page b in
  page_wf p → 0 ≤ minvalue →
  (val p 0 < minvalue → Q (-1) b) →
  (∀ slot, minvalue ≤ val p 0 → 0 ≤ slot < LeafNodesPerPage → minvalue ≤ avail p slot → (fsm_ok p → next_with p minvalue slot) →
     Q slot (set_page (with_next (slot + (if advancenext then 1 else 0)) p) b)) →
  (¬ fsm_ok p → ∀ p', fsm_ok p' → same_leaves p p' →
     post (search_loop fuel env minvalue advancenext) (mark_repaired env (set_page p' (lock_exclusively b))) Q) →
  post (search_loop (S fuel) env minvalue advancenext) b Q.
Proof.
  intros p Hw Hmin Hnone Hfound Htorn. cbn [search_loop].
  assert (set_page p b = b) as Hid by (subst p; by destruct b).
  apply post_bind, post_on_fsm, post_node; [flia|]. fold p. fold (set_page p b). rewrite Hid.
  destruct (Z.ltb_spec (val p 0) minvalue) as [Hlt|Hge]; [by apply post_ret, Hnone|].
  apply post_bind, post_gets. fold p. fold (start_slot p). pose proof (start_range p) as Hst.
  set (t := start_slot p + NonLeafNodesPerPage). assert (NonLeafNodesPerPage ≤ t < NodesPerPage) as Ht by (subst t; flia).
  apply post_bind, post_on_fsm. fold p.
  eapply post_mono; [apply (climb_post p minvalue Hw _ 0 t t); [lia|unfold tree_depth; lia| |lia|done|by left|]|].
  { unfold at_height. change (level 0) with 4096. flia. }
  { intros _. left. unfold first, width. cbn. split; [lia|lia]. }
  intros y p1 (-> & Hy & Hyn & h & Hh & Hat & Hz & Hs). fold (set_page p b). rewrite Hid.
  apply post_bind, post_on_fsm. fold p.
  eapply post_mono; [apply (descend_post p minvalue Hw _ h y); try done; unfold tree_depth; lia|].
  intros r p1 (-> & Hsome & Hleft). fold (set_page p b). rewrite Hid. destruct r as [j|].
  - destruct (Hsome j eq_refl) as [Hj Hjv]. rewrite Z.mod_small by flia. set (slot := j - NonLeafNodesPerPage).
    apply post_bind, post_on_fsm, post_modify, post_ret. fold p.
    assert (avail p slot = val p j) as Ha by (unfold avail; f_equal; subst slot; lia).
    apply Hfound; [done|subst slot; flia|by rewrite Ha|]. intros Hok. split_and!; [subst slot; flia|subst slot; flia|by rewrite Ha|].
    destruct (Hleft Hok) as (j' & [= <-] & Hfj & Hi).
    assert (∀ i, avail p i = val p (i + NonLeafNodesPerPage)) as Hav by (intros i; unfold avail; f_equal; lia).
    destruct (Hs Hok) as [[Hle Hs1]|[Hs1 Hs2]]; [left|right]; split.
    + subst slot t. lia.
    + intros i Hi'. rewrite Hav. destruct (decide (i + NonLeafNodesPerPage < first h y)); [apply Hs1|apply Hi]; subst slot t; lia.
    + intros i Hi'. rewrite Hav. apply Hs1. subst t. flia.
    + intros i Hi'. rewrite Hav. destruct (decide (i + NonLeafNodesPerPage < first h y)); [apply Hs2|apply Hi]; subst slot t; flia.
  - assert (¬ fsm_ok p) as Hbad by (intros Hok; by destruct (Hleft Hok) as (? & ? & _)).
    apply post_bind, post_modify, post_bind, post_on_fsm. eapply post_mono; [by apply rebuild_post|].
    intros r p' (Hok & Hl & _). apply post_bind, post_modify. by apply Htorn.
Qed.

Lemma none_enough p minvalue : fsm_ok p → val p 0 < minvalue → ∀ s, 0 ≤ s < LeafNodesPerPage → avail p s < minvalue.
Proof. intros Hok Hlt s Hs. assert (avail p s ≤ val p 0); [|lia]. apply below_root; [done|flia]. Qed.

(** [fsm_search_avail] on a page whose inner nodes are right: it returns -1 iff no slot
    has [minvalue]; otherwise it returns the first slot that has, to the right of the next
    slot and wrapping around, and moves the next slot there (or behind it). Nothing else
    of the page changes, and no access is out of bounds. *)
Theorem fsm_search_avail_spec env minvalue advancenext b :
  fsm_ok (fsm_page b) → 0 ≤ minvalue →
  post (fsm_search_avail env minvalue advancenext) b (λ r b',
    (r = -1 ∧ b' = b ∧ ∀ s, 0 ≤ s < LeafNodesPerPage → avail (fsm_page b) s < minvalue) ∨
    (next_with (fsm_page b) minvalue r ∧
     b' = set_page (with_next (r + (if advancenext then 1 else 0)) (fsm_page b)) b)).
Proof.
  intros Hok Hmin. apply search_round; [apply Hok|done|..].
  - intros Hlt. left. split_and!; try done. by apply none_enough.
  - intros slot _ _ _ Hn. right. split; [by apply Hn|done].
  - done.
Qed.

(** On any page. *)
Lemma search_avail_post env minvalue advancenext b :
  page_wf (fsm_page b) → 0 ≤ minvalue →
  post (fsm_search_avail env minvalue advancenext) b (λ r b', page_wf (fsm_page b') ∧
    (∀ s, 0 ≤ s < LeafNodesPerPage → avail (fsm_page b') s = avail (fsm_page b) s) ∧
    (fsm_ok (fsm_page b) → fsm_ok (fsm_page b') ∧ val (fsm_page b') 0 = val (fsm_page b) 0) ∧
    (r ≠ -1 → 0 ≤ r < LeafNodesPerPage ∧ minvalue ≤ avail (fsm_page b) r) ∧
    (r = -1 → val (fsm_page b) 0 < minvalue ∨
       fsm_ok (fsm_page b') ∧ ∀ s, 0 ≤ s < LeafNodesPerPage → avail (fsm_page b) s < minvalue)).
Proof.
  intros Hw Hmin. apply search_round; [done|done|..].
  - intros Hlt. split_and!; try done. by left.
  - intros slot _ Hs Ha _. split_and!; try done; [by destruct Hw| |lia].
    intros [[? ?] ?]. by repeat split.
  - intros Hbad p' Hok Hl. set (b1 := mark_repaired env _).
    assert (fsm_page b1 = p') as E by (unfold b1, mark_repaired; by destruct (IsSegmentFileNode env)).
    apply search_round; rewrite ?E; [apply Hok|done|..].
    + intros Hlt. rewrite ?E. split_and!; try done; [apply Hok|intros s Hs; by apply same_leaves_avail, Hs|].
      intros _. right. split; [done|]. intros s Hs. rewrite <- (same_leaves_avail _ _ s Hl) by lia. by apply none_enough.
    + intros slot _ Hs Ha _. cbn [set_page fsm_page]. split_and!; try done.
      * destruct Hok as [[? ?] _]. by split.
      * intros s Hs'. change (avail (with_next _ p') s) with (avail p' s). by apply same_leaves_avail, Hs'.
      * intros _. rewrite <- (same_leaves_avail _ _ slot Hl) by lia. by split.
      * lia.
    + done.
Qed.

(** [fsm_search_avail] on any page, torn or not, returns after at most one repair: the
    slots keep their values, a slot it returns has at least [minvalue], and -1 means that
    the root has less, or that the page was repaired and no slot has [minvalue]. *)
Theorem fsm_search_repairs env minvalue advancenext b :
  page_wf (fsm_page b) → 0 ≤ minvalue →
  post (fsm_search_avail env minvalue advancenext) b (λ r b', page_wf (fsm_page b') ∧
    (∀ s, 0 ≤ s < LeafNodesPerPage → avail (fsm_page b') s = avail (fsm_page b) s) ∧
    (r ≠ -1 → 0 ≤ r < LeafNodesPerPage ∧ minvalue ≤ avail (fsm_page b) r) ∧
    (r = -1 → val (fsm_page b) 0 < minvalue ∨
       fsm_ok (fsm_page b') ∧ ∀ s, 0 ≤ s < LeafNodesPerPage → avail (fsm_page b) s < minvalue)).
Proof.
  intros Hw Hmin. eapply post_mono; [by apply search_avail_post|]. intros r b' (? & ? & _ & ? & ?). done.
Qed.

(** The root of a page whose inner nodes are right is one of its slots, if it is not 0. *)
Lemma inner_slot p f : ∀ n, (fsm_ok p) → 0 ≤ n < NonLeafNodesPerPage → NonLeafNodesPerPage < (n + 1) * 2 ^ Z.of_nat f → val p n ≠ 0 →
  ∃ s, 0 ≤ s < LeafNodesPerPage ∧ avail p s = val p n.
Proof.
  induction f as [|f IH]; intros n Hok Hn Hf Hv; [rewrite Z.pow_0_r in Hf; lia|]. destruct Hok as [Hw Hc].
  pose proof (Hc n Hn) as Hcn. unfold consistent in Hcn.
  assert (∃ c, (c = leftchild n ∨ c = leftchild n + 1) ∧ val p c = val p n) as (c & Hch & Heq).
  { destruct (Z.max_spec (val p (leftchild n)) (val p (leftchild n + 1))) as [[_ E]|[_ E]]; rewrite E in Hcn; eauto. }
  rewrite Nat2Z.inj_succ, Z.pow_succ_r in Hf by lia. rewrite <- Heq in Hv |- *. destruct (decide (c < NonLeafNodesPerPage)) as [Hlt|Hge].
  - apply IH; [done|flia| |done]. assert (0 < 2 ^ Z.of_nat f) by lia. assert (2 * n + 2 ≤ c + 1) by flia. nia.
  - exists (c - NonLeafNodesPerPage). assert (c < NodesPerPage).
    { destruct (decide (c < NodesPerPage)); [done|]. rewrite val_out in Hv; [done|done|lia]. }
    split; [flia|]. unfold avail. f_equal. lia.
Qed.

Lemma root_slot p : fsm_ok p → ∃ s, 0 ≤ s < LeafNodesPerPage ∧ val p 0 ≤ avail p s.
Proof.
  intros Hok. destruct (decide (val p 0 = 0)) as [->|Hne].
  - exists 0. split; [flia|]. apply val_range, Hok.
  - destruct (inner_slot p 12 0) as (s & Hs & E); [done|flia|rewrite NonLeaf_eq; lia|done|]. exists s. split; [done|lia].
Qed.

(** ** A concrete page *)

Definition empty_fsm : FSMPageData := {| fp_next_slot := 0; fp_nodes := replicate (Z.to_nat NodesPerPage) 0 |}.
Definition in_buffer (p : FSMPageData) : fsm_buffer :=
  {| fsm_page := p; lock_exclusive := false; marked_dirty := false; marked_hint := false; fsm_page_lsn := 0 |}.
Definition fsm_demo_env : fsm_env := {| IsSegmentFileNode := false; XLogInsertEnd := 100 |}.

Lemma empty_val n : val empty_fsm n = 0.
Proof. apply aget_replicate. Qed.

Lemma empty_ok : fsm_ok empty_fsm.
Proof.
  split; [split; cbn [empty_fsm fp_nodes]|].
  - rewrite length_replicate. flia.
  - by apply Forall_replicate.
  - intros n _. unfold consistent. by rewrite !empty_val.
Qed.

(** Slot 5 has 7, all others nothing. *)
Lemma one_slot : ∃ p, fsm_ok p ∧ fp_next_slot p = 0 ∧ avail p 5 = 7 ∧ ∀ s, 0 ≤ s < LeafNodesPerPage → s ≠ 5 → avail p s = 0.
Proof.
  destruct (set_store_post empty_fsm 5 7) as (r & p & _ & _ & _ & Hn & Ha & Ho & _ & Hok); [apply empty_ok|done|done|].
  exists p. split_and!; [apply Hok, empty_ok|done|done|]. intros s Hs Hne. rewrite Ho by done. apply empty_val.
Qed.

Lemma fsm_set_avail_spec_witness : post (fsm_set_avail 5 7) empty_fsm (λ r p', r = true ∧ fsm_ok p' ∧ avail p' 5 = 7).
Proof.
  eapply post_mono; [apply (fsm_set_avail_spec empty_fsm 5 7)|].
  - apply empty_ok.
  - done.
  - done.
  - intros r p' (_ & _ & Ha & _ & _ & Hok). destruct (Hok empty_ok) as [Hok' ->]. split_and!; [|done|done].
    unfold avail. by rewrite empty_val.
Defined.

Lemma fsm_truncate_avail_spec_witness : ∃ p, avail p 5 = 7 ∧ post (fsm_truncate_avail 3) p (λ r p', r = true ∧ avail p' 5 = 0).
Proof.
  destruct one_slot as (p & Hok & _ & Ha & _). exists p. split; [done|].
  eapply post_mono; [apply (fsm_truncate_avail_spec p 3)|].
  - done.
  - done.
  - intros r p' (_ & _ & Hs & Hr). split; [|by rewrite Hs].
    destruct r; [done|]. by rewrite (proj1 Hr eq_refl 5) in Ha.
Defined.

Lemma fsm_search_avail_spec_witness :
  ∃ p, avail p 5 = 7 ∧ post (fsm_search_avail fsm_demo_env 3 true) (in_buffer p) (λ r b', r = 5 ∧ fp_next_slot (fsm_page b') = 6).
Proof.
  destruct one_slot as (p & Hok & Hn & Ha & Ho). exists p. split; [done|].
  eapply post_mono; [apply (fsm_search_avail_spec fsm_demo_env 3 true (in_buffer p))|].
  - done.
  - done.
  - intros r b' [(_ & _ & Hnone)|((Hr & Hge & _) & ->)].
    + specialize (Hnone 5 ltac:(done)). cbn [in_buffer fsm_page] in Hnone. lia.
    + cbn [in_buffer fsm_page] in Hge. destruct (decide (r = 5)) as [->|Hne]; [done|]. rewrite Ho in Hge by done. lia.
Defined.

(** A torn page: the root promises 9, and there is nothing. *)
Lemma fsm_search_repairs_witness :
  post (fsm_search_avail fsm_demo_env 3 false) (in_buffer (put 0 9 empty_fsm)) (λ r b', r = -1 ∧ fsm_ok (fsm_page b')).
Proof.
  assert (page_wf (put 0 9 empty_fsm)) as Hw by (apply put_wf; [apply empty_ok|done]).
  assert (∀ s, 0 ≤ s → avail (put 0 9 empty_fsm) s = 0) as Ha.
  { intros s Hs. unfold avail. rewrite val_put_ne by flia. apply empty_val. }
  eapply post_mono; [apply (fsm_search_repairs fsm_demo_env 3 false (in_buffer (put 0 9 empty_fsm)))|].
  - done.
  - done.
  - intros r b' (_ & _ & Hr & Hm). cbn [in_buffer fsm_page] in *. destruct (decide (r = -1)) as [->|Hne].
    + split; [done|]. destruct (Hm eq_refl) as [Hlt|[Hok _]]; [|done].
      rewrite val_put_eq in Hlt by (apply empty_ok || done). lia.
    + destruct (Hr Hne) as [Hs Hge]. rewrite Ha in Hge by lia. lia.
Defined.
