(* ===== verification/FreeSpace.v ===== *)
(** * The free space map of a relation

    [src/gausskernel/storage/freespace/freespace.cpp]: the pages of FsmPage.v form a tree of
    three levels; a slot of a bottom page is the category of the free space of a heap
    block, a slot of an upper page the root of the page below. The tree is stored in one
    fork of the relation, in depth-first order.

    Modelled: the categories, the addresses, reading and extending the fork, recording and
    searching, the bulk update, truncation and vacuum; not the two functions for WAL replay
    ([XLogRecordPageWithFreeSpace], [XLogBlockTruncateRelFSM]). The state is the fork (absent, or
    its blocks) and this backend's cached size of it. [ReadBufferExtended] and the smgr are
    the accesses to that list; a block that cannot be read comes back zeroed
    ([RBM_ZERO_ON_ERROR]), that is, new. One backend runs at a time: the races the comments
    describe (a parent updated with stale information) are not modelled. *)

From S2P Require Import Prelude FsmPage.

(** ** Categories *)

Definition FSM_CATEGORIES : Z := 256.
Definition FSM_CAT_STEP : Z := BLCKSZ / FSM_CATEGORIES.
Definition SizeOfHeapPageHeaderData : Z := 40.
Definition sizeof_ItemIdData : Z := 4.
Definition MaxHeapTupleSize : Z := BLCKSZ - MAXALIGN (SizeOfHeapPageHeaderData + sizeof_ItemIdData).
Definition MaxFSMRequestSize : Z := MaxHeapTupleSize.

Definition fsm_space_avail_to_cat (avail : Z) : Z :=
  if MaxFSMRequestSize <=? avail then 255
  else
    let cat := avail / FSM_CAT_STEP in
    let cat := if 254 <? cat then 254 else cat in
    u8 cat.

Definition fsm_space_cat_to_avail (cat : Z) : Z :=
  if cat =? 255 then MaxFSMRequestSize else cat * FSM_CAT_STEP.

Definition fsm_space_needed_to_cat {S} (needed : Z) : M S Z :=
  if MaxFSMRequestSize <? needed then raise ERROR
  else if needed =? 0 then mret 1
  else
    let cat := (needed + FSM_CAT_STEP - 1) / FSM_CAT_STEP in
    let cat := if 255 <? cat then 255 else cat in
    mret (u8 cat).

(** ** Addresses *)

Definition InvalidBlockNumber : Z := 2 ^ 32 - 1.
Definition MaxBlockNumber : Z := 2 ^ 32 - 2.
Definition SlotsPerFSMPage : Z := LeafNodesPerPage.
Definition FSM_TREE_DEPTH : Z := if 1626 <=? SlotsPerFSMPage then 3 else 4.
Definition FSM_ROOT_LEVEL : Z := FSM_TREE_DEPTH - 1.
Definition FSM_BOTTOM_LEVEL : Z := 0.

(** [level] is a name of FsmPage.v. *)
Record FSMAddress := { fsm_level : Z; logpageno : Z }.

Definition g_fsm_root_address : FSMAddress := {| fsm_level := FSM_ROOT_LEVEL; logpageno := 0 |}.

(** The first loop of [fsm_logical_to_physical]; [leafno] is an [int], [SlotsPerFSMPage] a
    [size_t]. *)
Fixpoint first_leaf (l : nat) (leafno : Z) : Z :=
  match l with
  | O => leafno
  | S l => first_leaf l (i32 (leafno * SlotsPerFSMPage))
  end.

Fixpoint count_pages (l : nat) (leafno pages : Z) : Z :=
  match l with
  | O => pages
  | S l => count_pages l (i32 (u64 leafno / SlotsPerFSMPage)) (u32 (pages + u32 (u32 leafno + 1)))
  end.

Definition fsm_logical_to_physical (addr : FSMAddress) : Z :=
  let leafno := first_leaf (Z.to_nat (fsm_level addr)) (logpageno addr) in
  let pages := count_pages (Z.to_nat FSM_TREE_DEPTH) leafno 0 in
  let pages := u32 (pages - u32 (fsm_level addr)) in
  u32 (pages - 1).

(** The address and the slot. *)
Definition fsm_get_location (heapblk : Z) : FSMAddress * Z :=
  ({| fsm_level := FSM_BOTTOM_LEVEL; logpageno := i32 (heapblk / SlotsPerFSMPage) |},
   (heapblk mod SlotsPerFSMPage) mod 2 ^ 16).

Definition fsm_get_heap_blk (addr : FSMAddress) (slot : Z) : Z :=
  u32 (u32 (logpageno addr) * SlotsPerFSMPage + slot).

Definition fsm_get_parent (child : FSMAddress) : FSMAddress * Z :=
  ({| fsm_level := fsm_level child + 1; logpageno := i32 (u64 (logpageno child) / SlotsPerFSMPage) |},
   (u64 (logpageno child) mod SlotsPerFSMPage) mod 2 ^ 16).

Definition fsm_get_child (parent : FSMAddress) (slot : Z) : FSMAddress :=
  {| fsm_level := fsm_level parent - 1; logpageno := i32 (logpageno parent * SlotsPerFSMPage + slot) |}.

Definition fsm_get_lastblckno (addr : FSMAddress) : Z := fsm_get_heap_blk addr (SlotsPerFSMPage - 1).

Definition FreeSpaceMapCalTruncBlkNo (relBlkNo : Z) : Z := fsm_logical_to_physical (fsm_get_location relBlkNo).1.

(** ** The fork *)

(** [blk_new]: [PageIsNew]. *)
Record fsm_block := { blk_new : bool; blk_buf : fsm_buffer }.
Record fsm_rel := { fsm_fork : option (list fsm_block); smgr_fsm_nblocks : Z }.

(** What the code finds outside of the map: [fs_page] as for a page, whether the tablespace
    has room ([STORAGE_SPACE_OPERATION]) for so many bytes, whether a truncated page is
    logged whole and the LSN of that record. *)
Record fsm_storage := {
  fs_page : fsm_env;
  fs_space : Z → bool;
  fs_log_image : bool;
  fs_image_lsn : Z;
}.

Definition with_fork (f : option (list fsm_block)) (st : fsm_rel) : fsm_rel :=
  {| fsm_fork := f; smgr_fsm_nblocks := smgr_fsm_nblocks st |}.
Definition with_nblocks (n : Z) (st : fsm_rel) : fsm_rel := {| fsm_fork := fsm_fork st; smgr_fsm_nblocks := n |}.

Definition fork_size (st : fsm_rel) : Z := Z.of_nat (length (default [] (fsm_fork st))).

Definition smgrexists : M fsm_rel bool := gets (λ st, match fsm_fork st with Some _ => true | None => false end).
Definition smgrnblocks : M fsm_rel Z := λ st,
  match fsm_fork st with
  | Some blocks => (Ok (fork_size st), st)
  | None => (Ereport ERROR, st)
  end.
Definition smgrcreate : M fsm_rel unit := modify (with_fork (Some [])).

(** [PageInit] clears the page. *)
Definition PageInit (b : fsm_block) : fsm_block := {|
  blk_new := false;
  blk_buf := {| fsm_page := empty_fsm; lock_exclusive := lock_exclusive (blk_buf b);
                marked_dirty := marked_dirty (blk_buf b); marked_hint := marked_hint (blk_buf b); fsm_page_lsn := 0 |};
|}.
Definition zeroed_block : fsm_block := {| blk_new := true; blk_buf := in_buffer empty_fsm |}.

Definition append_block (b : fsm_block) : M fsm_rel unit :=
  modify (λ st, with_fork (Some (default [] (fsm_fork st) ++ [b])) st).

(** The loop of [fsm_extend]: a segment gives zeroed blocks, a file is extended with
    initialised ones. *)
Definition extend_loop (env : fsm_storage) (n : nat) : M fsm_rel unit :=
  for_each (λ _, append_block (if IsSegmentFileNode (fs_page env) then zeroed_block else PageInit zeroed_block)) (seq 0 n).

Definition fsm_extend (env : fsm_storage) (fsm_nblocks : Z) : M fsm_rel unit :=
  n ← gets smgr_fsm_nblocks;
  there ← smgrexists;
  (if ((n =? 0) || (n =? InvalidBlockNumber)) && negb there then smgrcreate else skip) ≫= λ _,
  fsm_nblocks_now ← smgrnblocks;
  (if fsm_nblocks_now <? fsm_nblocks
   then if fs_space env (BLCKSZ * (fsm_nblocks - fsm_nblocks_now)) then skip else raise ERROR
   else skip) ≫= λ _,
  extend_loop env (Z.to_nat (fsm_nblocks - fsm_nblocks_now)) ≫= λ _,
  modify (with_nblocks (Z.max fsm_nblocks fsm_nblocks_now)).

(** A block of the fork, by number; a read past the end is an error. *)
Definition on_block {A} (blkno : Z) (m : M fsm_buffer A) : M fsm_rel A := λ st,
  match default [] (fsm_fork st) !! Z.to_nat blkno with
  | Some b =>
      let '(r, buf) := m (blk_buf b) in
      (r, with_fork (Some (aset (default [] (fsm_fork st)) blkno {| blk_new := blk_new b; blk_buf := buf |})) st)
  | None => (Ereport ERROR, st)
  end.

Definition init_block (blkno : Z) : M fsm_rel unit := λ st,
  match default [] (fsm_fork st) !! Z.to_nat blkno with
  | Some b => (Ok tt, if blk_new b then with_fork (Some (aset (default [] (fsm_fork st)) blkno (PageInit b))) st else st)
  | None => (Ereport ERROR, st)
  end.

(** The block read, or [None] for [InvalidBuffer]. *)
Definition fsm_readbuf (env : fsm_storage) (addr : FSMAddress) (extend : bool) : M fsm_rel (option Z) :=
  let blkno := fsm_logical_to_physical addr in
  n ← gets smgr_fsm_nblocks;
  (if (n =? InvalidBlockNumber) || (n <=? blkno) then
     there ← smgrexists;
     if there : bool then k ← smgrnblocks; modify (with_nblocks k) else modify (with_nblocks 0)
   else skip) ≫= λ _,
  n ← gets smgr_fsm_nblocks;
  if (n <=? blkno) && negb extend then mret None
  else
    (if n <=? blkno then fsm_extend env (u32 (blkno + 1)) else skip) ≫= λ _,
    init_block blkno ≫= λ _,
    mret (Some blkno).

(** [LockBuffer(buf, BUFFER_LOCK_SHARE)] and [BUFFER_LOCK_UNLOCK]. *)
Definition not_exclusive (b : fsm_buffer) : fsm_buffer := {|
  fsm_page := fsm_page b; lock_exclusive := false; marked_dirty := marked_dirty b;
  marked_hint := marked_hint b; fsm_page_lsn := fsm_page_lsn b |}.

(** What callers do with [fsm_set_avail]. *)
Definition set_and_mark (env : fsm_storage) (slot value : Z) : M fsm_buffer unit :=
  changed ← on_fsm (fsm_set_avail slot value);
  if changed : bool then modify (mark_repaired (fs_page env)) else skip.

Definition fsm_set_and_search (env : fsm_storage) (addr : FSMAddress) (slot newValue minValue : Z) (search : bool) : M fsm_rel Z :=
  buf ← fsm_readbuf env addr true;
  match buf with
  | None => raise PANIC
  | Some buf =>
      on_block buf (
        modify lock_exclusively ≫= λ _,
        set_and_mark env slot newValue ≫= λ _,
        newslot ← (if negb (minValue =? 0) && search
                   then fsm_search_avail (fs_page env) minValue (fsm_level addr =? FSM_BOTTOM_LEVEL) else mret (-1));
        modify not_exclusive ≫= λ _,
        mret newslot)
  end.

(** Reading and searching one page for [fsm_search]: the slot, and the maximum if there is
    none. *)
Definition search_page (env : fsm_storage) (addr : FSMAddress) (min_cat : Z) : M fsm_rel (Z * Z) :=
  buf ← fsm_readbuf env addr false;
  match buf with
  | Some buf =>
      on_block buf (
        modify not_exclusive ≫= λ _,
        slot ← fsm_search_avail (fs_page env) min_cat (fsm_level addr =? FSM_BOTTOM_LEVEL);
        max_avail ← (if slot =? -1 then on_fsm fsm_get_max_avail else mret 0);
        modify not_exclusive ≫= λ _,
        mret (slot, max_avail))
  | None => mret (-1, 0)
  end.

Fixpoint fsm_search_loop (fuel : nat) (env : fsm_storage) (min_cat restarts : Z) (addr : FSMAddress) : M fsm_rel Z :=
  match fuel with
  | O => nofuel
  | S fuel =>
      found ← search_page env addr min_cat;
      let '(slot, max_avail) := found in
      if negb (slot =? -1) then
        if fsm_level addr =? FSM_BOTTOM_LEVEL then mret (fsm_get_heap_blk addr slot)
        else fsm_search_loop fuel env min_cat restarts (fsm_get_child addr slot)
      else if fsm_level addr =? FSM_ROOT_LEVEL then mret InvalidBlockNumber
      else
        let '(parent, parentslot) := fsm_get_parent addr in
        fsm_set_and_search env parent parentslot max_avail 0 true ≫= λ _,
        if 10000 <? restarts then mret InvalidBlockNumber
        else fsm_search_loop fuel env min_cat (restarts + 1) g_fsm_root_address
  end.

(** At most 10002 descents of at most three pages. *)
Definition search_fuel : nat := Z.to_nat (FSM_TREE_DEPTH * 10002).

Definition fsm_search (env : fsm_storage) (min_cat : Z) : M fsm_rel Z :=
  fsm_search_loop search_fuel env min_cat 0 g_fsm_root_address.

(** ** The interface *)

Definition GetPageWithFreeSpace (env : fsm_storage) (spaceNeeded : Z) : M fsm_rel Z :=
  min_cat ← fsm_space_needed_to_cat spaceNeeded;
  fsm_search env min_cat.

Definition RecordAndGetPageWithFreeSpace (env : fsm_storage) (oldPage oldSpaceAvail spaceNeeded : Z) : M fsm_rel Z :=
  let old_cat := fsm_space_avail_to_cat oldSpaceAvail in
  search_cat ← fsm_space_needed_to_cat spaceNeeded;
  let '(addr, slot) := fsm_get_location oldPage in
  search_slot ← fsm_set_and_search env addr slot old_cat search_cat true;
  if negb (search_slot =? -1) then mret (fsm_get_heap_blk addr search_slot) else fsm_search env search_cat.

Definition RecordPageWithFreeSpace (env : fsm_storage) (heapBlk spaceAvail : Z) : M fsm_rel unit :=
  let new_cat := fsm_space_avail_to_cat spaceAvail in
  let '(addr, slot) := fsm_get_location heapBlk in
  fsm_set_and_search env addr slot new_cat 0 true ≫= λ _, skip.

Definition GetRecordedFreeSpace (env : fsm_storage) (heapBlk : Z) : M fsm_rel Z :=
  let '(addr, slot) := fsm_get_location heapBlk in
  buf ← fsm_readbuf env addr false;
  match buf with
  | None => mret 0
  | Some buf => cat ← on_block buf (on_fsm (fsm_get_avail slot)); mret (fsm_space_cat_to_avail cat)
  end.

(** The recursion ends at the root; [fuel] is the number of levels. *)
Fixpoint fsm_update_recursive (fuel : nat) (env : fsm_storage) (addr : FSMAddress) (new_cat : Z) (search : bool) : M fsm_rel unit :=
  match fuel with
  | O => nofuel
  | S fuel =>
      if fsm_level addr =? FSM_ROOT_LEVEL then skip
      else
        let '(parent, parentslot) := fsm_get_parent addr in
        fsm_set_and_search env parent parentslot new_cat 0 search ≫= λ _,
        fsm_update_recursive fuel env parent new_cat search
  end.

Fixpoint update_map_loop (fuel : nat) (env : fsm_storage) (new_cat : Z) (search : bool) (blockNum endBlkNum : Z) : M fsm_rel unit :=
  match fuel with
  | O => nofuel
  | S fuel =>
      if endBlkNum <? blockNum then skip
      else
        let addr := (fsm_get_location blockNum).1 in
        fsm_update_recursive (Z.to_nat FSM_TREE_DEPTH) env addr new_cat search ≫= λ _,
        let lastBlkOnPage := fsm_get_lastblckno addr in
        if endBlkNum <=? lastBlkOnPage then skip
        else update_map_loop fuel env new_cat search (u32 (lastBlkOnPage + 1)) endBlkNum
  end.

(** [fuel] bounds the number of bottom pages between the two blocks. *)
Definition UpdateFreeSpaceMap (fuel : nat) (env : fsm_storage) (startBlkNum endBlkNum freespace : Z) (search : bool) : M fsm_rel unit :=
  update_map_loop fuel env (fsm_space_avail_to_cat freespace) search startBlkNum endBlkNum.

(** ** Truncation and vacuum *)

Definition smgrtruncate (nblocks : Z) : M fsm_rel unit :=
  modify (λ st, with_fork (take (Z.to_nat nblocks) <$> fsm_fork st) st).

(** The page is dirty, and logged whole if need be. *)
Definition mark_truncated (env : fsm_storage) (b : fsm_buffer) : fsm_buffer := {|
  fsm_page := fsm_page b; lock_exclusive := lock_exclusive b; marked_dirty := true; marked_hint := marked_hint b;
  fsm_page_lsn := if fs_log_image env then fs_image_lsn env else fsm_page_lsn b |}.

(** The new size of the fork, or [None] if there is nothing to do. *)
Definition truncate_tail (env : fsm_storage) (addr : FSMAddress) (slot : Z) : M fsm_rel (option Z) :=
  if 0 <? slot then
    buf ← fsm_readbuf env addr false;
    match buf with
    | None => mret None
    | Some buf =>
        on_block buf (
          modify lock_exclusively ≫= λ _,
          on_fsm (fsm_truncate_avail slot) ≫= λ _,
          modify (mark_truncated env) ≫= λ _,
          modify not_exclusive) ≫= λ _,
        mret (Some (u32 (fsm_logical_to_physical addr + 1)))
    end
  else
    let new_nfsmblocks := fsm_logical_to_physical addr in
    n ← smgrnblocks;
    mret (if n <=? new_nfsmblocks then None else Some new_nfsmblocks).

Definition FreeSpaceMapTruncateRel (env : fsm_storage) (nblocks : Z) : M fsm_rel unit :=
  there ← smgrexists;
  if negb there then skip
  else
    let '(first_removed_address, first_removed_slot) := fsm_get_location nblocks in
    new_nfsmblocks ← truncate_tail env first_removed_address first_removed_slot;
    match new_nfsmblocks with
    | None => skip
    | Some n => smgrtruncate n ≫= λ _, modify (with_nblocks n)
    end.

(** The loop over the children; [vacuum] is [fsm_vacuum_page] one level down. *)
Fixpoint vacuum_slots (vacuum : FSMAddress → M fsm_rel (Z * bool)) (env : fsm_storage) (addr : FSMAddress) (buf : Z)
    (slots : list Z) (eof : bool) : M fsm_rel unit :=
  match slots with
  | [] => skip
  | slot :: slots =>
      child ← (if negb eof then vacuum (fsm_get_child addr slot) else mret (0, eof));
      let '(child_avail, eof) := child in
      old ← on_block buf (on_fsm (fsm_get_avail slot));
      (if negb (old =? child_avail) then
         on_block buf (
           modify lock_exclusively ≫= λ _,
           set_and_mark env slot child_avail ≫= λ _,
           modify not_exclusive)
       else skip) ≫= λ _,
      vacuum_slots vacuum env addr buf slots eof
  end.

(** The maximum of the page, and whether it is past the end of the fork. *)
Fixpoint fsm_vacuum_page (fuel : nat) (env : fsm_storage) (addr : FSMAddress) : M fsm_rel (Z * bool) :=
  match fuel with
  | O => nofuel
  | S fuel =>
      buf ← fsm_readbuf env addr false;
      match buf with
      | None => mret (0, true)
      | Some buf =>
          (if FSM_BOTTOM_LEVEL <? fsm_level addr
           then vacuum_slots (fsm_vacuum_page fuel env) env addr buf (seqZ 0 SlotsPerFSMPage) false
           else skip) ≫= λ _,
          max_avail ← on_block buf (on_fsm fsm_get_max_avail);
          on_block buf (on_fsm (modify (with_next 0))) ≫= λ _,
          mret (max_avail, false)
      end
  end.

Definition FreeSpaceMapVacuum (env : fsm_storage) : M fsm_rel unit :=
  fsm_vacuum_page (Z.to_nat FSM_TREE_DEPTH) env g_fsm_root_address ≫= λ _, skip.

(** ** Categories are safe *)

Lemma Slots_eq : SlotsPerFSMPage = 4069.
Proof. done. Qed.
Lemma MaxRequest_eq : MaxFSMRequestSize = 8144.
Proof. done. Qed.

(** [lia] with the constants of the map and divisions. *)
Ltac slia := rewrite ?Slots_eq, ?MaxRequest_eq, ?Leaf_eq in *; Z.to_euclidean_division_equations; lia.

Lemma avail_cat_range avail : 0 ≤ avail < BLCKSZ → 0 ≤ fsm_space_avail_to_cat avail < 256.
Proof. intros _. unfold fsm_space_avail_to_cat. case_bool; [lia|apply u8_range]. Qed.

Lemma avail_cat_eq avail :
  0 ≤ avail < BLCKSZ → fsm_space_avail_to_cat avail = if 8144 <=? avail then 255 else avail / 32.
Proof.
  intros Ha. unfold fsm_space_avail_to_cat. rewrite MaxRequest_eq. case_bool; [done|]. bool_to_prop.
  change FSM_CAT_STEP with 32. rewrite (proj2 (Z.ltb_ge _ _)) by slia. unfold u8. rewrite Z.mod_small by slia. done.
Qed.

Lemma cat_bounds avail :
  0 ≤ avail < BLCKSZ → avail - 48 < fsm_space_cat_to_avail (fsm_space_avail_to_cat avail) ≤ avail.
Proof.
  intros Ha. rewrite avail_cat_eq by done. change BLCKSZ with 8192 in Ha. unfold fsm_space_cat_to_avail. rewrite MaxRequest_eq.
  change FSM_CAT_STEP with 32. destruct (Z.leb_spec 8144 avail); [cbn; lia|]. rewrite (proj2 (Z.eqb_neq _ _)) by slia. slia.
Qed.

(** The category asked for, when the request is not an error. *)
Definition needed_cat (needed : Z) : Z := if needed =? 0 then 1 else (needed + 31) / 32.

Lemma needed_cat_runs {S} needed (s : S) :
  0 ≤ needed ≤ MaxFSMRequestSize → runs (fsm_space_needed_to_cat needed) s (needed_cat needed) s ∧ 1 ≤ needed_cat needed < 256.
Proof.
  intros Hn. unfold fsm_space_needed_to_cat, needed_cat. rewrite (proj2 (Z.ltb_ge _ _)) by lia.
  destruct (Z.eqb_spec needed 0) as [->|Hne]; [by split|]. change FSM_CAT_STEP with 32.
  replace (needed + 32 - 1) with (needed + 31) by lia. rewrite (proj2 (Z.ltb_ge _ _)) by slia.
  unfold u8. rewrite Z.mod_small by slia. split; [done|slia].
Qed.

(** The rounding of the categories is on the safe side: a block whose recorded category is
    at least the one asked for has the space needed, and what is read back of a recorded
    amount is at most that amount and less by less than 48 bytes; a request of more than
    an empty page is an error. *)
Theorem categories_safe {S} needed avail (s : S) :
  0 ≤ needed → 0 ≤ avail < BLCKSZ →
  (∀ c, fsm_space_needed_to_cat needed s = (Ok c, s) → c ≤ fsm_space_avail_to_cat avail → needed ≤ avail) ∧
  avail - 48 < fsm_space_cat_to_avail (fsm_space_avail_to_cat avail) ≤ avail ∧
  (MaxFSMRequestSize < needed → fsm_space_needed_to_cat needed s = (Ereport ERROR, s)).
Proof.
  intros Hn Ha. split_and!; [|by apply cat_bounds..|].
  - rewrite avail_cat_eq by done. change BLCKSZ with 8192 in Ha. intros c Hc Hle. destruct (decide (needed ≤ MaxFSMRequestSize)) as [Hle'|Hgt].
    + destruct (needed_cat_runs needed s ltac:(lia)) as [Hr _]. unfold runs in Hr. rewrite Hr in Hc. injection Hc as <-.
      unfold needed_cat in Hle. destruct (Z.eqb_spec needed 0), (Z.leb_spec 8144 avail); slia.
    + unfold fsm_space_needed_to_cat in Hc. by rewrite (proj2 (Z.ltb_lt _ _)) in Hc by lia.
  - intros Hgt. unfold fsm_space_needed_to_cat. by rewrite (proj2 (Z.ltb_lt _ _)) by lia.
Qed.

(** ** Addresses are depth first *)

Definition valid_addr (a : FSMAddress) : Prop :=
  (fsm_level a = 0 ∧ 0 ≤ logpageno a < 4069 * 4069) ∨ (fsm_level a = 1 ∧ 0 ≤ logpageno a < 4069) ∨
  (fsm_level a = 2 ∧ logpageno a = 0).

(** The number of pages before [a] in depth-first order. *)
Definition phys (a : FSMAddress) : Z :=
  if fsm_level a =? 0 then logpageno a + logpageno a / 4069 + 2
  else if fsm_level a =? 1 then logpageno a * 4070 + 1 else 0.

Lemma u32_small z : 0 ≤ z < 2 ^ 32 → u32 z = z.
Proof. intros. unfold u32. by apply Z.mod_small. Qed.

Lemma count_step l n pages :
  0 ≤ n < 2 ^ 31 → 0 ≤ pages → pages + n + 1 < 2 ^ 32 →
  count_pages (S l) n pages = count_pages l (n / 4069) (pages + n + 1).
Proof.
  intros Hn Hp Hs. cbn [count_pages]. rewrite Slots_eq, (u64_small n), (i32_small (n / 4069)), (u32_small n), (u32_small (n + 1)), u32_small by slia.
  f_equal. lia.
Qed.

Lemma count_three n : 0 ≤ n < 4069 * 4069 → count_pages 3 n 0 = n + n / 4069 + n / 4069 / 4069 + 3.
Proof. intros Hn. rewrite !count_step by slia. cbn [count_pages]. lia. Qed.

Lemma sub_level k l : 0 ≤ l ≤ 2 → l < k < 2 ^ 32 → u32 (u32 (k - u32 l) - 1) = k - l - 1.
Proof. intros Hl Hk. rewrite (u32_small l), (u32_small (k - l)), u32_small by lia. done. Qed.

Lemma physical_eq a : valid_addr a → fsm_logical_to_physical a = phys a.
Proof.
  destruct a as [l n]. unfold fsm_logical_to_physical, phys. change (Z.to_nat FSM_TREE_DEPTH) with 3%nat. cbn [fsm_level logpageno].
  intros [[Hl Hn]|[[Hl Hn]|[Hl Hn]]]; cbn [fsm_level logpageno] in *; subst l; change (Z.to_nat 0) with 0%nat; change (Z.to_nat 1) with 1%nat;
    change (Z.to_nat 2) with 2%nat; cbn [first_leaf Z.eqb Pos.eqb]; cbv zeta; rewrite ?Slots_eq.
  - rewrite count_three, sub_level by slia. slia.
  - rewrite i32_small, count_three, sub_level by slia. slia.
  - subst n. done.
Qed.

Lemma phys_inj a b : valid_addr a → valid_addr b → phys a = phys b → a = b.
Proof.
  destruct a as [l n], b as [l' n']. unfold valid_addr, phys. cbn [fsm_level logpageno].
  intros Ha Hb. assert (n = n' ∧ l = l' ∨ phys {| fsm_level := l; logpageno := n |} ≠ phys {| fsm_level := l'; logpageno := n' |}) as H.
  { unfold phys. cbn [fsm_level logpageno]. destruct Ha as [[-> ?]|[[-> ?]|[-> ?]]], Hb as [[-> ?]|[[-> ?]|[-> ?]]]; cbn [Z.eqb Pos.eqb]; slia. }
  intros E. by destruct H as [[-> ->]|H].
Qed.

(** The address and slot of a heap block, without the conversions. *)
Definition leaf (n : Z) : FSMAddress := {| fsm_level := 0; logpageno := n |}.
Definition child (a : FSMAddress) (s : Z) : FSMAddress := {| fsm_level := fsm_level a - 1; logpageno := logpageno a * 4069 + s |}.

Lemma location_eq b : 0 ≤ b < 2 ^ 32 → fsm_get_location b = (leaf (b / 4069), b mod 4069).
Proof.
  intros Hb. unfold fsm_get_location, leaf. rewrite Slots_eq, i32_small by slia. f_equal. apply Z.mod_small. slia.
Qed.

Lemma leaf_valid n : 0 ≤ n < 4069 * 4069 → valid_addr (leaf n).
Proof. intros. by left. Qed.

Lemma heap_blk_eq n s : 0 ≤ n < 2 ^ 31 → 0 ≤ s → n * 4069 + s < 2 ^ 32 → fsm_get_heap_blk (leaf n) s = n * 4069 + s.
Proof. intros Hn Hs Hb. unfold fsm_get_heap_blk. cbn [leaf logpageno]. rewrite Slots_eq, (u32_small n), u32_small by lia. done. Qed.

Lemma child_eq a s : valid_addr a → 1 ≤ fsm_level a → 0 ≤ s < 4069 → fsm_get_child a s = child a s ∧ valid_addr (child a s).
Proof.
  intros Ha Hl Hs. unfold fsm_get_child, child, valid_addr in *. cbn [fsm_level logpageno]. rewrite Slots_eq.
  rewrite i32_small by lia. split; [done|lia].
Qed.

Lemma parent_eq a s : valid_addr a → 1 ≤ fsm_level a → 0 ≤ s < 4069 → fsm_get_parent (child a s) = (a, s).
Proof.
  intros Ha Hl Hs. destruct a as [l n]. unfold fsm_get_parent, child, valid_addr in *. cbn [fsm_level logpageno] in *.
  rewrite Slots_eq, u64_small by lia. rewrite i32_small by slia. f_equal; [f_equal; slia|]. rewrite (Z.mod_small _ (2 ^ 16)); slia.
Qed.

Lemma child_inj a s a' s' :
  valid_addr a → 1 ≤ fsm_level a → 0 ≤ s < 4069 → valid_addr a' → 1 ≤ fsm_level a' → 0 ≤ s' < 4069 →
  child a s = child a' s' → a = a' ∧ s = s'.
Proof. intros H1 H2 H3 H4 H5 H6 E. apply (f_equal fsm_get_parent) in E. rewrite !parent_eq in E by done. by injection E. Qed.

Lemma root_no_child a s : valid_addr a → g_fsm_root_address ≠ child a s.
Proof. intros Ha E. apply (f_equal fsm_level) in E. change (2 = fsm_level a - 1) in E. unfold valid_addr in Ha. lia. Qed.

(** The subtree of a page occupies the blocks from its own on. *)
Definition subtree_size (l : Z) : Z := if l =? 0 then 1 else if l =? 1 then 4070 else 4069 * 4070 + 1.

Lemma phys_child a s :
  valid_addr a → 1 ≤ fsm_level a → 0 ≤ s < 4069 → phys (child a s) = phys a + 1 + s * subtree_size (fsm_level a - 1).
Proof.
  intros Ha Hl Hs. destruct a as [l n]. unfold valid_addr, phys, child, subtree_size in *. cbn [fsm_level logpageno] in *.
  destruct Ha as [[-> ?]|[[-> ?]|[-> ->]]]; [lia| |]; change (1 - 1) with 0; change (2 - 1) with 1; cbn [Z.eqb Pos.eqb]; slia.
Qed.

(** The addresses: the location of a heap block leads back to it; the parent of a child is
    the page and the slot it was reached from; the fork is laid out depth first (a child
    is as many blocks behind its parent as there are pages in the subtrees before it) and
    no two pages share a block. None of the 32-bit computations overflows. *)
Theorem fsm_address_roundtrip b a a' s :
  0 ≤ b ≤ MaxBlockNumber → valid_addr a → valid_addr a' → 1 ≤ fsm_level a → 0 ≤ s < SlotsPerFSMPage →
  fsm_get_heap_blk (fsm_get_location b).1 (fsm_get_location b).2 = b ∧
  fsm_get_parent (fsm_get_child a s) = (a, s) ∧
  fsm_logical_to_physical (fsm_get_child a s) = fsm_logical_to_physical a + 1 + s * subtree_size (fsm_level a - 1) ∧
  (fsm_logical_to_physical a = fsm_logical_to_physical a' → a = a').
Proof.
  unfold MaxBlockNumber. rewrite Slots_eq. intros Hb Ha Ha' Hl Hs. destruct (child_eq a s) as [-> Hv]; [done..|].
  rewrite location_eq, !physical_eq by first [done|lia]. cbn [fst snd]. split_and!.
  - rewrite heap_blk_eq by slia. slia.
  - by apply parent_eq.
  - by apply phys_child.
  - by apply phys_inj.
Qed.

(** ** The pages of the fork *)

#[global] Instance FSMAddress_eq_dec : EqDecision FSMAddress.
Proof. solve_decision. Defined.

Definition blocks (st : fsm_rel) : list fsm_block := default [] (fsm_fork st).

(** What a page of the tree holds: nothing if it is past the end or new. *)
Definition page_of (st : fsm_rel) (a : FSMAddress) : FSMPageData :=
  match blocks st !! Z.to_nat (phys a) with
  | Some b => if blk_new b then empty_fsm else fsm_page (blk_buf b)
  | None => empty_fsm
  end.

(** The page is in the fork. *)
Definition there (st : fsm_rel) (a : FSMAddress) : Prop := phys a < fork_size st.

(** The fork of a relation of [MaxBlockNumber + 1] blocks. *)
Definition max_fsm_blocks : Z := phys (leaf (MaxBlockNumber / 4069)) + 1.

Record fsm_wf (st : fsm_rel) : Prop := {
  wf_pages : Forall (λ b, page_wf (fsm_page (blk_buf b))) (blocks st);
  wf_cached : smgr_fsm_nblocks st = InvalidBlockNumber ∨ 0 ≤ smgr_fsm_nblocks st ≤ fork_size st;
  wf_size : fork_size st ≤ max_fsm_blocks;
  wf_beyond : ∀ n s, 0 ≤ n < 4069 * 4069 → 0 ≤ s < 4069 → MaxBlockNumber < n * 4069 + s → avail (page_of st (leaf n)) s = 0;
}.

(** Every page has its inner nodes right. *)
Definition tree_ok (st : fsm_rel) : Prop := ∀ a, valid_addr a → fsm_ok (page_of st a).

(** The recorded category of a heap block. *)
Definition recorded (st : fsm_rel) (b : Z) : Z := avail (page_of st (leaf (b / 4069))) (b mod 4069).

Lemma phys_nonneg a : valid_addr a → 0 ≤ phys a.
Proof. unfold phys, valid_addr. intros Ha. repeat case_bool; bool_to_prop; slia. Qed.

Lemma page_of_wf st a : fsm_wf st → page_wf (page_of st a).
Proof.
  intros [Hp _ _ _]. unfold page_of. destruct (blocks st !! _) as [b|] eqn:E; [|apply empty_ok].
  destruct (blk_new b); [apply empty_ok|]. by apply (Forall_lookup_1 _ _ _ _ Hp) in E.
Qed.

Lemma not_there_empty st a : valid_addr a → ¬ there st a → page_of st a = empty_fsm.
Proof.
  intros Ha Ht. unfold page_of, there, fork_size in *. pose proof (phys_nonneg a Ha).
  rewrite lookup_ge_None_2; [done|]. unfold blocks. lia.
Qed.

(** [st] with the buffer of [a] replaced. *)
Definition put_buf (a : FSMAddress) (buf : fsm_buffer) (st : fsm_rel) : fsm_rel :=
  with_fork (Some (aset (blocks st) (phys a) {| blk_new := false; blk_buf := buf |})) st.

(** The page of [a] is in the fork, initialised, in [buf]. *)
Definition ready (st : fsm_rel) (a : FSMAddress) (buf : fsm_buffer) : Prop :=
  blocks st !! Z.to_nat (phys a) = Some {| blk_new := false; blk_buf := buf |}.

Lemma ready_page st a buf : ready st a buf → page_of st a = fsm_page buf.
Proof. intros H. unfold page_of. unfold ready in H. by rewrite H. Qed.

Lemma ready_there st a buf : valid_addr a → ready st a buf → there st a.
Proof.
  intros Ha H. apply lookup_lt_Some in H. pose proof (phys_nonneg a Ha). unfold there, fork_size. unfold blocks in H. lia.
Qed.

Lemma put_page st a buf buf' a' :
  valid_addr a → valid_addr a' → ready st a buf → page_of (put_buf a buf' st) a' = if decide (a' = a) then fsm_page buf' else page_of st a'.
Proof.
  intros Ha Ha' Hr. apply lookup_lt_Some in Hr. unfold page_of, put_buf. cbn. unfold aset. case_decide as E.
  - subst a'. by rewrite list_lookup_insert_eq.
  - rewrite list_lookup_insert_ne; [done|]. intros E'. apply E, phys_inj; [done..|].
    pose proof (phys_nonneg a Ha). pose proof (phys_nonneg a' Ha'). lia.
Qed.

Lemma put_size a buf st : fsm_fork st ≠ None → fork_size (put_buf a buf st) = fork_size st.
Proof. unfold fork_size, put_buf, blocks. cbn. rewrite length_aset. by destruct (fsm_fork st). Qed.

Lemma ready_fork st a buf : ready st a buf → fsm_fork st ≠ None.
Proof. unfold ready, blocks. intros H E. by rewrite E in H. Qed.

Lemma put_ready a buf buf' st : ready st a buf → ready (put_buf a buf' st) a buf'.
Proof. intros Hr%lookup_lt_Some. unfold ready, put_buf. cbn. by apply list_lookup_insert_eq. Qed.

Lemma put_rel_wf a buf buf' st :
  fsm_wf st → valid_addr a → ready st a buf → page_wf (fsm_page buf') →
  (∀ n s, a = leaf n → 0 ≤ s < 4069 → MaxBlockNumber < n * 4069 + s → avail (fsm_page buf') s = 0) →
  fsm_wf (put_buf a buf' st).
Proof.
  intros [H1 H2 H3 H4] Ha Hr Hw Hb. pose proof (put_size a buf' st (ready_fork _ _ _ Hr)) as Hsz. split.
  - cbn. by apply aset_Forall.
  - by rewrite Hsz.
  - by rewrite Hsz.
  - intros n s Hn Hs Hgt. rewrite (put_page st a buf) by first [done|by apply leaf_valid].
    case_decide as E; [by apply (Hb n)|by apply H4].
Qed.

Lemma post_on_block {A} a buf (m : M fsm_buffer A) st (Q : A → fsm_rel → Prop) :
  ready st a buf → post m buf (λ r buf', Q r (put_buf a buf' st)) → post (on_block (phys a) m) st Q.
Proof.
  intros Hr (r & buf' & Hm & HQ). exists r, (put_buf a buf' st). split; [|done].
  unfold runs, on_block. unfold ready, blocks in Hr. rewrite Hr. cbn. unfold runs in Hm. by rewrite Hm.
Qed.

(** ** Reading a page *)

Definition same_pages (st st' : fsm_rel) : Prop := ∀ a, page_of st' a = page_of st a.

(** Initialised pages stay where they are. *)
Definition keeps_ready (st st' : fsm_rel) : Prop := ∀ a buf, ready st a buf → ready st' a buf.

Lemma same_pages_wf st st' :
  fsm_wf st → same_pages st st' → Forall (λ b, page_wf (fsm_page (blk_buf b))) (blocks st') →
  (smgr_fsm_nblocks st' = InvalidBlockNumber ∨ 0 ≤ smgr_fsm_nblocks st' ≤ fork_size st') → fork_size st' ≤ max_fsm_blocks →
  fsm_wf st'.
Proof. intros [_ _ _ H4] Hs H1 H2 H3. split; [done..|]. intros n s Hn Hs' Hgt. rewrite Hs. by apply H4. Qed.

Definition with_appended (new : list fsm_block) (st : fsm_rel) : fsm_rel := with_fork (Some (blocks st ++ new)) st.

Lemma extend_loop_post env n : ∀ k st,
  fsm_fork st ≠ None →
  post (for_each (λ _, append_block (if IsSegmentFileNode (fs_page env) then zeroed_block else PageInit zeroed_block)) (seq k n)) st
    (λ _ st', ∃ new, length new = n ∧ Forall (λ b, fsm_page (blk_buf b) = empty_fsm) new ∧ st' = with_appended new st).
Proof.
  induction n as [|n IH]; intros k st Hf; cbn [seq for_each].
  { apply post_skip. exists []. split_and!; [done|done|]. unfold with_appended, blocks. rewrite app_nil_r.
    destruct st as [[f|] c]; done. }
  apply post_bind, post_modify. eapply post_mono; [by apply IH|]. intros _ st' (new & Hl & Hn & ->).
  exists ((if IsSegmentFileNode (fs_page env) then zeroed_block else PageInit zeroed_block) :: new). split_and!; [cbn; by f_equal| |].
  - constructor; [|done]. by destruct (IsSegmentFileNode (fs_page env)).
  - unfold with_appended, blocks. cbn. by rewrite <- app_assoc.
Qed.

Lemma appended_pages new st : Forall (λ b, fsm_page (blk_buf b) = empty_fsm) new → same_pages st (with_appended new st).
Proof.
  intros Hn a. unfold page_of, with_appended. cbn. rewrite lookup_app.
  destruct (blocks st !! Z.to_nat (phys a)) as [b|] eqn:E; [done|].
  destruct (new !! _) as [b|] eqn:E'; [|done]. apply (Forall_lookup_1 _ _ _ _ Hn) in E'. by destruct (blk_new b).
Qed.

Lemma appended_size new st : fork_size (with_appended new st) = fork_size st + Z.of_nat (length new).
Proof. unfold fork_size, with_appended, blocks. cbn. rewrite length_app. lia. Qed.

(** The room that reading [a] with extension needs. *)
Definition room (env : fsm_storage) (st : fsm_rel) (a : FSMAddress) : Prop :=
  there st a ∨ phys a < max_fsm_blocks ∧ fs_space env (BLCKSZ * (phys a + 1 - fork_size st)) = true.

Lemma fsm_extend_post env k st :
  fsm_wf st → smgr_fsm_nblocks st = fork_size st → fork_size st < k ≤ max_fsm_blocks → fs_space env (BLCKSZ * (k - fork_size st)) = true →
  post (fsm_extend env k) st (λ _ st', fsm_wf st' ∧ fork_size st' = k ∧ same_pages st st' ∧ keeps_ready st st').
Proof.
  intros Hwf Hc Hk Hsp. unfold fsm_extend. apply post_bind, post_gets, post_bind, post_gets, post_bind.
  set (st1 := with_fork (Some (blocks st)) st).
  assert (fork_size st1 = fork_size st ∧ same_pages st st1) as [Hsz1 Hsame1] by done.
  eapply (post_runs _ _ tt st1).
  { unfold st1, blocks. destruct st as [[f|] c]; cbn [fsm_fork smgr_fsm_nblocks default] in *.
    - rewrite andb_false_r. done.
    - unfold fork_size in Hc. cbn in Hc. subst c. done. }
  apply post_bind. eapply (post_runs _ _ (fork_size st) st1); [by unfold runs, smgrnblocks|].
  rewrite (proj2 (Z.ltb_lt _ _)), Hsp by lia. apply post_bind, post_skip, post_bind.
  eapply post_mono; [by apply extend_loop_post|]. intros _ st2 (new & Hl & Hn & ->). apply post_modify.
  rewrite Z.max_l by lia. pose proof (appended_pages new st1 Hn) as Hsame2. pose proof (appended_size new st1) as Hsz2.
  assert (fork_size (with_appended new st1) = k) as Hsz3 by lia.
  assert (keeps_ready st (with_nblocks k (with_appended new st1))) as Hkeep by (intros a buf; apply (lookup_app_l_Some (blocks st))).
  split_and!; [|done|done|done]. apply (same_pages_wf st); [done|done| | |].
  - cbn. apply Forall_app. split; [apply Hwf|]. eapply Forall_impl; [done|]. intros b Hb. cbn in Hb. rewrite Hb. apply empty_ok.
  - right. cbn. change (fork_size (with_nblocks k (with_appended new st1))) with (fork_size (with_appended new st1)).
    assert (0 ≤ fork_size st) by (unfold fork_size; lia). lia.
  - change (fork_size (with_nblocks k (with_appended new st1))) with (fork_size (with_appended new st1)). lia.
Qed.

Lemma init_block_post a st :
  fsm_wf st → valid_addr a → there st a →
  post (init_block (phys a)) st (λ _ st', fsm_wf st' ∧ fork_size st' = fork_size st ∧ same_pages st st' ∧ keeps_ready st st' ∧ ∃ buf, ready st' a buf).
Proof.
  intros Hwf Ha Ht. pose proof (phys_nonneg a Ha) as H0.
  destruct (lookup_lt_is_Some_2 (blocks st) (Z.to_nat (phys a))) as [b Hb].
  { unfold there, fork_size in Ht. unfold blocks. lia. }
  destruct b as [new buf]. destruct new eqn:En.
  - set (b' := PageInit {| blk_new := true; blk_buf := buf |}). set (st' := with_fork (Some (aset (blocks st) (phys a) b')) st).
    eapply (post_runs _ _ tt st'); [unfold runs, init_block; unfold blocks in Hb; by rewrite Hb|].
    assert (fork_size st' = fork_size st) as Hsz by (unfold fork_size, st'; cbn; by rewrite length_aset).
    assert (same_pages st st') as Hsame.
    { intros a'. unfold page_of. change (blocks st') with (<[Z.to_nat (phys a) := b']> (blocks st)).
      destruct (decide (Z.to_nat (phys a') = Z.to_nat (phys a))) as [->|Hne].
      - rewrite list_lookup_insert_eq by (by apply lookup_lt_Some in Hb). by rewrite Hb.
      - by rewrite list_lookup_insert_ne. }
    split_and!; [|done|done| |].
    + apply (same_pages_wf st); [done|done| |rewrite Hsz; apply Hwf..]. cbn. apply aset_Forall; [apply Hwf|apply empty_ok].
    + intros a' buf' Hr. unfold ready in *. change (blocks st') with (<[Z.to_nat (phys a) := b']> (blocks st)).
      rewrite list_lookup_insert_ne; [done|]. intros E. rewrite <- E, Hb in Hr. done.
    + exists (blk_buf b'). unfold ready, st'. cbn. unfold aset. apply list_lookup_insert_eq. by apply lookup_lt_Some in Hb.
  - eapply (post_runs _ _ tt st); [unfold runs, init_block; unfold blocks in Hb; by rewrite Hb|].
    split_and!; [done|done|done|intros a' buf' H; exact H|]. by exists buf.
Qed.

(** The cached size is refreshed when it may be stale. *)
Lemma refresh_post a st :
  fsm_wf st →
  post (if (smgr_fsm_nblocks st =? InvalidBlockNumber) || (smgr_fsm_nblocks st <=? phys a) then
          there ← smgrexists; if there : bool then k ← smgrnblocks; modify (with_nblocks k) else modify (with_nblocks 0)
        else skip) st
    (λ _ st1, fsm_fork st1 = fsm_fork st ∧ (phys a < smgr_fsm_nblocks st1 ≤ fork_size st ∨ smgr_fsm_nblocks st1 = fork_size st)).
Proof.
  intros Hwf. destruct ((smgr_fsm_nblocks st =? InvalidBlockNumber) || (smgr_fsm_nblocks st <=? phys a)) eqn:E.
  - apply post_bind, post_gets. destruct (fsm_fork st) as [f|] eqn:Ef.
    + apply post_bind. eapply post_runs; [unfold runs, smgrnblocks; by rewrite Ef|]. apply post_modify. split; [done|]. by right.
    + apply post_modify. split; [done|]. right. cbn. unfold fork_size. by rewrite Ef.
  - bool_to_prop. apply post_skip. split; [done|]. left. destruct Hwf as [_ [Hc|Hc] _ _]; [done|lia].
Qed.

(** [fsm_readbuf] changes no page; it gives the page, initialised, unless it is past the end
    and not asked for. *)
Lemma readbuf_post env a (extend : bool) st :
  fsm_wf st → valid_addr a → (extend = true → room env st a) →
  post (fsm_readbuf env a extend) st (λ r st', fsm_wf st' ∧ same_pages st st' ∧ keeps_ready st st' ∧
    ((r = Some (phys a) ∧ fork_size st' = Z.max (fork_size st) (phys a + 1) ∧ (extend = false → there st a) ∧ ∃ buf, ready st' a buf) ∨
     (r = None ∧ extend = false ∧ fork_size st' = fork_size st ∧ ¬ there st a))).
Proof.
  intros Hwf Ha Hroom. unfold fsm_readbuf. rewrite physical_eq by done. cbv zeta. pose proof (phys_nonneg a Ha) as H0.
  apply post_bind, post_gets, post_bind.
  destruct (refresh_post a st Hwf) as ([] & st1 & Hr & Hf & Hn).
  eapply post_runs; [exact Hr|].
  assert (blocks st1 = blocks st) as Hb by (unfold blocks; by rewrite Hf).
  assert (fork_size st1 = fork_size st) as Hsz by (unfold fork_size; by rewrite Hf).
  assert (same_pages st st1) as Hsame by (intros a'; unfold page_of; by rewrite Hb).
  assert (keeps_ready st st1) as Hkeep by (intros a' buf; unfold ready; by rewrite Hb).
  assert (fsm_wf st1) as Hwf1.
  { apply (same_pages_wf st); try done; [rewrite Hb; apply Hwf|right; rewrite Hsz|rewrite Hsz; apply Hwf].
    assert (0 ≤ fork_size st) by (unfold fork_size; lia). lia. }
  apply post_bind, post_gets. destruct (Z.leb_spec (smgr_fsm_nblocks st1) (phys a)) as [Hle|Hgt].
  - destruct Hn as [?|Hn]; [lia|]. rewrite Hn in Hle. assert (¬ there st a) as Hnt by (unfold there; lia).
    destruct extend; cbn [negb andb].
    + destruct (Hroom eq_refl) as [?|[Hmax Hsp]]; [done|]. assert (max_fsm_blocks < 2 ^ 32) by done.
      rewrite u32_small by lia. apply post_bind. eapply post_mono; [apply fsm_extend_post; rewrite ?Hsz; first [done|lia]|].
      intros _ st2 (Hwf2 & Hsz2 & Hsame2 & Hk2). apply post_bind. eapply post_mono; [apply init_block_post; try done; unfold there; lia|].
      intros _ st3 (Hwf3 & Hsz3 & Hsame3 & Hk3 & Hrd). apply post_ret. split_and!; [done| | |].
      { intros a'. by rewrite Hsame3, Hsame2. }
      { intros a' buf ?%Hkeep%Hk2. by apply Hk3. }
      left. split_and!; [done|lia|done|done].
    + apply post_ret. split_and!; [done|done|done|]. by right.
  - apply post_bind, post_skip. apply post_bind. assert (there st a) as Ht by (unfold there; lia).
    eapply post_mono; [apply init_block_post; [done|done|unfold there in *; lia]|].
    intros _ st3 (Hwf3 & Hsz3 & Hsame3 & Hk3 & Hrd). apply post_ret. split_and!; [done| | |].
    { intros a'. by rewrite Hsame3. }
    { intros a' buf ?%Hkeep. by apply Hk3. }
    left. unfold there in Ht. split_and!; [done|lia|done|done].
Qed.

(** ** Setting a slot of the tree *)

Lemma mark_page env b : fsm_page (mark_repaired env b) = fsm_page b.
Proof. unfold mark_repaired. by destruct (IsSegmentFileNode env). Qed.

(** [p'] is [p] with a slot set. *)
Record slot_set (p : FSMPageData) (slot v : Z) (p' : FSMPageData) : Prop := {
  ss_wf : page_wf p';
  ss_slots : ∀ s, 0 ≤ s < 4069 → avail p' s = if decide (s = slot) then v else avail p s;
  ss_ok : fsm_ok p → fsm_ok p';
}.

Lemma set_and_mark_post env slot v buf :
  page_wf (fsm_page buf) → 0 ≤ slot < 4069 → 0 ≤ v < 256 →
  post (set_and_mark env slot v) buf (λ _ buf', slot_set (fsm_page buf) slot v (fsm_page buf')).
Proof.
  intros Hw Hs Hv. unfold set_and_mark. apply post_bind, post_on_fsm.
  eapply post_mono; [by apply set_avail_post|]. intros r p' (Hw' & _ & Ha & Ho & _ & Hok).
  assert (slot_set (fsm_page buf) slot v p') as Hset.
  { split; [done| |by intros [? _]%Hok]. intros s Hs'. case_decide as E; [by subst|by apply Ho]. }
  destruct r; [apply post_modify; by rewrite mark_page|by apply post_skip].
Qed.

(** [st'] is [st] with a slot of [a] set. *)
Record tree_set (st : fsm_rel) (a : FSMAddress) (slot v : Z) (st' : fsm_rel) : Prop := {
  ts_wf : fsm_wf st';
  ts_size : fork_size st' = Z.max (fork_size st) (phys a + 1);
  ts_slots : ∀ a' s, valid_addr a' → 0 ≤ s < 4069 →
    avail (page_of st' a') s = if decide (a' = a ∧ s = slot) then v else avail (page_of st a') s;
  ts_ok : tree_ok st → tree_ok st';
}.

Lemma tree_set_put st st1 a slot v buf buf' :
  fsm_wf st1 → valid_addr a → same_pages st st1 → fork_size st1 = Z.max (fork_size st) (phys a + 1) → ready st1 a buf →
  0 ≤ slot < 4069 → (∀ n, a = leaf n → MaxBlockNumber < n * 4069 + slot → v = 0) →
  slot_set (fsm_page buf) slot v (fsm_page buf') → tree_set st a slot v (put_buf a buf' st1).
Proof.
  intros Hwf Ha Hsame Hsz Hr Hslot Hb [Hw Hs Hok]. rewrite <- (ready_page st1 a buf Hr) in Hs, Hok. split.
  - apply (put_rel_wf a buf); try done. intros n s -> Hs' Hgt. rewrite Hs by done. case_decide as E; [subst; by eapply Hb|].
    apply Hwf; [|done|done]. unfold valid_addr in Ha. cbn in Ha. lia.
  - by rewrite (put_size _ _ _ (ready_fork _ _ _ Hr)).
  - intros a' s Ha' Hs'. rewrite (put_page st1 a buf) by done. destruct (decide (a' = a)) as [->|Hne].
    + rewrite Hs, Hsame by done. destruct (decide (s = slot)) as [->|Hne]; [by rewrite decide_True|].
      rewrite decide_False; [done|]. by intros [_ ?].
    + rewrite Hsame, decide_False; [done|]. by intros [? _].
  - intros Htree a' Ha'. rewrite (put_page st1 a buf) by done. case_decide as E; [apply Hok|]; rewrite Hsame; by apply Htree.
Qed.

Lemma set_and_search_post env a slot v minValue (search : bool) st :
  fsm_wf st → valid_addr a → room env st a → 0 ≤ slot < 4069 → 0 ≤ v < 256 → 0 ≤ minValue →
  (∀ n, a = leaf n → MaxBlockNumber < n * 4069 + slot → v = 0) →
  post (fsm_set_and_search env a slot v minValue search) st (λ r st', tree_set st a slot v st' ∧
    (r ≠ -1 → 0 ≤ r < 4069 ∧ minValue ≤ avail (page_of st' a) r ∧ minValue ≠ 0)).
Proof.
  intros Hwf Ha Hroom Hslot Hv Hmin Hb. unfold fsm_set_and_search. apply post_bind.
  eapply post_mono; [by apply readbuf_post|]. intros r st1 (Hwf1 & Hsame & Hkeep & [(-> & Hsz & _ & buf & Hr)|(_ & ? & _)]); [|done].
  assert (page_wf (fsm_page buf)) as Hw by (rewrite <- (ready_page _ _ _ Hr); by apply page_of_wf).
  eapply post_on_block; [done|]. apply post_bind, post_modify. apply post_bind.
  eapply post_mono; [by apply set_and_mark_post|]. intros [] buf1 Hset. change (fsm_page (lock_exclusively buf)) with (fsm_page buf) in Hset.
  apply post_bind.
  assert (post (if negb (minValue =? 0) && search then fsm_search_avail (fs_page env) minValue (fsm_level a =? FSM_BOTTOM_LEVEL) else mret (-1)) buf1
    (λ r buf2, slot_set (fsm_page buf) slot v (fsm_page buf2) ∧ (r ≠ -1 → 0 ≤ r < 4069 ∧ minValue ≤ avail (fsm_page buf2) r ∧ minValue ≠ 0))) as Hpost.
  { destruct (negb (minValue =? 0) && search) eqn:E; [|by apply post_ret].
    bool_to_prop. destruct Hset as [Hw1 Hs1 Hok1]. eapply post_mono; [by apply search_avail_post|]. rewrite Leaf_eq.
    intros r buf2 (Hw2 & Hs2 & Hok2 & Hr2 & _). split; [split; [done| |]|].
    - intros s Hs. rewrite Hs2 by done. by apply Hs1.
    - intros Hok. by apply Hok2, Hok1.
    - intros [Hr' Hge]%Hr2. by rewrite Hs2. }
  eapply post_mono; [exact Hpost|]. intros r buf2 [Hset2 Hr2]. cbv beta in Hset2. apply post_bind, post_modify, post_ret.
  split; [by eapply tree_set_put|]. rewrite (put_page st1 a buf), decide_True by done. done.
Qed.

(** ** The search of the tree *)

(** The slots are the same, and so are the roots of pages whose inner nodes are right. *)
Record same_tree (st st' : fsm_rel) : Prop := {
  st_wf : fsm_wf st';
  st_size : fork_size st' = fork_size st;
  st_slots : ∀ a s, valid_addr a → 0 ≤ s < 4069 → avail (page_of st' a) s = avail (page_of st a) s;
  st_ok : tree_ok st → tree_ok st' ∧ ∀ a, valid_addr a → val (page_of st' a) 0 = val (page_of st a) 0;
}.

Lemma same_pages_tree st st' : fsm_wf st' → fork_size st' = fork_size st → same_pages st st' → same_tree st st'.
Proof.
  intros Hwf Hsz Hs. split; [done|done| |].
  - intros a s _ _. by rewrite Hs.
  - intros Hok. split; [intros a Ha|intros a Ha]; rewrite Hs; [by apply Hok|done].
Qed.

(** Replacing a buffer by one with the same slots. *)
Lemma same_tree_put st st1 a buf buf' :
  fsm_wf st1 → valid_addr a → same_pages st st1 → fork_size st1 = fork_size st → ready st1 a buf →
  page_wf (fsm_page buf') → (∀ s, 0 ≤ s < 4069 → avail (fsm_page buf') s = avail (fsm_page buf) s) →
  (fsm_ok (fsm_page buf) → fsm_ok (fsm_page buf') ∧ val (fsm_page buf') 0 = val (fsm_page buf) 0) →
  same_tree st (put_buf a buf' st1).
Proof.
  intros Hwf Ha Hsame Hsz Hr Hw Hs Hok. rewrite <- (ready_page st1 a buf Hr) in Hs, Hok.
  assert (∀ a', valid_addr a' → page_of (put_buf a buf' st1) a' = if decide (a' = a) then fsm_page buf' else page_of st a') as Hput.
  { intros a' Ha'. by rewrite (put_page st1 a buf), Hsame. }
  split.
  - apply (put_rel_wf a buf); try done. intros n s -> Hs' Hgt. rewrite Hs by done. apply Hwf; [|done|done].
    unfold valid_addr in Ha. cbn in Ha. lia.
  - by rewrite (put_size _ _ _ (ready_fork _ _ _ Hr)).
  - intros a' s Ha' Hs'. rewrite Hput by done. case_decide as E; [|done]. subst. by rewrite Hs, Hsame.
  - rewrite Hsame in Hok. intros Htree. destruct (Hok (Htree a Ha)) as [Hok' Hroot].
    split; intros a' Ha'; rewrite Hput by done; case_decide as E; subst; try done. by apply Htree.
Qed.

Lemma same_tree_trans st1 st2 st3 : same_tree st1 st2 → same_tree st2 st3 → same_tree st1 st3.
Proof.
  intros [W1 Z1 S1 O1] [W2 Z2 S2 O2]. split; [done|congruence| |].
  - intros a s Ha Hs. by rewrite S2, S1.
  - intros Hok. destruct (O1 Hok) as [Hok2 R1]. destruct (O2 Hok2) as [Hok3 R2]. split; [done|]. intros a Ha. by rewrite R2, R1.
Qed.

Lemma search_page_post env a min_cat st :
  fsm_wf st → valid_addr a → 1 ≤ min_cat →
  post (search_page env a min_cat) st (λ r st', same_tree st st' ∧ 0 ≤ r.2 < 256 ∧
    (r.1 ≠ -1 → there st a ∧ 0 ≤ r.1 < 4069 ∧ min_cat ≤ avail (page_of st a) r.1) ∧
    (r.1 = -1 → tree_ok st → val (page_of st a) 0 < min_cat)).
Proof.
  intros Hwf Ha Hmin. unfold search_page. apply post_bind. eapply post_mono; [by apply readbuf_post|].
  intros r st1 (Hwf1 & Hsame & Hkeep & [(-> & Hsz & Ht & buf & Hr)|(-> & _ & Hsz & Hnt)]).
  - specialize (Ht eq_refl). unfold there in Ht. rewrite Z.max_l in Hsz by lia.
    assert (page_wf (fsm_page buf)) as Hw by (rewrite <- (ready_page _ _ _ Hr); by apply page_of_wf).
    assert (page_of st a = fsm_page buf) as Hpg by (by rewrite <- Hsame; apply ready_page).
    eapply post_on_block; [done|]. apply post_bind, post_modify, post_bind.
    eapply post_mono; [apply search_avail_post; [done|lia]|]. rewrite Leaf_eq.
    intros slot buf1 (Hw1 & Hs1 & Hok1 & Hfound & Hnone). change (fsm_page (not_exclusive buf)) with (fsm_page buf) in *.
    assert (post (if slot =? -1 then on_fsm fsm_get_max_avail else mret 0) buf1 (λ mx buf2, 0 ≤ mx < 256 ∧ fsm_page buf2 = fsm_page buf1)) as Hmx.
    { destruct (slot =? -1); [|by apply post_ret]. apply post_on_fsm, post_node; [flia|]. split; [by apply val_range|done]. }
    apply post_bind. eapply post_mono; [exact Hmx|]. intros mx buf2 (Hmx' & Hp2).
    apply post_bind, post_modify, post_ret. cbn [fst snd]. split_and!; try lia.
    + apply (same_tree_put st st1 a buf); try done; change (fsm_page (not_exclusive buf2)) with (fsm_page buf2); by rewrite ?Hp2.
    + rewrite Hpg. intros ?%Hfound. unfold there. split; [lia|done].
    + rewrite Hpg. intros E Htree. destruct (Hnone E) as [|[_ Hlow]]; [done|].
      assert (fsm_ok (fsm_page buf)) as Hok by (rewrite <- Hpg; by apply Htree).
      (* the page was right, so it was not repaired *)
      destruct (decide (val (fsm_page buf) 0 < min_cat)) as [|Hge]; [done|]. exfalso.
      destruct (root_slot (fsm_page buf) Hok) as (s & Hs & Heq). specialize (Hlow s Hs). lia.
  - apply post_ret. cbn [fst snd]. split_and!; try done; [by apply same_pages_tree|].
    intros _ _. rewrite not_there_empty by done. rewrite empty_val. lia.
Qed.

(** A parent address is the one a child was reached from. *)
Lemma valid_parent a :
  valid_addr a → fsm_level a ≠ 2 → ∃ p s, valid_addr p ∧ 1 ≤ fsm_level p ∧ 0 ≤ s < 4069 ∧ a = child p s.
Proof.
  intros Ha Hl. exists {| fsm_level := fsm_level a + 1; logpageno := logpageno a / 4069 |}, (logpageno a mod 4069).
  destruct a as [l n]. unfold valid_addr, child in *. cbn [fsm_level logpageno] in *. split_and!; [slia..|].
  f_equal; slia.
Qed.

(** Recorded categories are slots of the bottom level. *)
Lemma recorded_slot st n s : 0 ≤ n → 0 ≤ s < 4069 → recorded st (n * 4069 + s) = avail (page_of st (leaf n)) s.
Proof. intros Hn Hs. unfold recorded. f_equal; [f_equal; f_equal|]; slia. Qed.

Lemma recorded_valid b : 0 ≤ b ≤ MaxBlockNumber → valid_addr (leaf (b / 4069)) ∧ 0 ≤ b mod 4069 < 4069.
Proof. unfold MaxBlockNumber. intros Hb. split; [apply leaf_valid|]; slia. Qed.

Definition same_recorded (st st' : fsm_rel) : Prop := ∀ b, 0 ≤ b ≤ MaxBlockNumber → recorded st' b = recorded st b.

Lemma same_tree_recorded st st' : same_tree st st' → same_recorded st st'.
Proof. intros [_ _ Hs _] b Hb. destruct (recorded_valid b Hb). by apply Hs. Qed.

Lemma tree_set_recorded st a slot v st' : 1 ≤ fsm_level a → tree_set st a slot v st' → same_recorded st st'.
Proof.
  intros Hl [_ _ Hs _] b Hb. destruct (recorded_valid b Hb). unfold recorded. rewrite Hs by done.
  rewrite decide_False; [done|]. intros [<- _]. cbn in Hl. lia.
Qed.

(** What a search leaves, and what it may answer. *)
Record searched (min_cat : Z) (st : fsm_rel) (b : Z) (st' : fsm_rel) : Prop := {
  se_wf : fsm_wf st';
  se_size : fork_size st' = fork_size st;
  se_recorded : same_recorded st st';
  se_ok : tree_ok st → tree_ok st';
  se_found : b ≠ InvalidBlockNumber → 0 ≤ b ≤ MaxBlockNumber ∧ min_cat ≤ recorded st b;
}.

Lemma searched_after min_cat st1 st2 b st3 :
  fork_size st2 = fork_size st1 → same_recorded st1 st2 → (tree_ok st1 → tree_ok st2) → searched min_cat st2 b st3 → searched min_cat st1 b st3.
Proof.
  intros Hz Hr Hok [W Z R O F]. split; [done|congruence| |auto|].
  - intros b' Hb. by rewrite R, Hr.
  - intros [Hb Hge]%F. split; [done|]. by rewrite <- Hr.
Qed.

(** A slot of a bottom page that has something is that of a heap block. *)
Lemma found_leaf n slot min_cat st :
  fsm_wf st → valid_addr (leaf n) → 0 ≤ slot < 4069 → 1 ≤ min_cat → min_cat ≤ avail (page_of st (leaf n)) slot →
  fsm_get_heap_blk (leaf n) slot = n * 4069 + slot ∧ 0 ≤ n * 4069 + slot ≤ MaxBlockNumber ∧ min_cat ≤ recorded st (n * 4069 + slot).
Proof.
  intros Hwf Hv Hs Hm Hge. assert (0 ≤ n < 4069 * 4069) as Hn by (unfold valid_addr in Hv; cbn in Hv; lia).
  assert (n * 4069 + slot ≤ MaxBlockNumber) as Hb.
  { destruct (decide (n * 4069 + slot ≤ MaxBlockNumber)); [done|]. rewrite (wf_beyond st Hwf n slot) in Hge by lia. lia. }
  split_and!; [unfold MaxBlockNumber in Hb; apply heap_blk_eq; lia|lia|done|]. rewrite recorded_slot by lia. done.
Qed.

Lemma search_loop_post env min_cat fuel : ∀ restarts a st,
  fsm_wf st → valid_addr a → 1 ≤ min_cat → 0 ≤ restarts ≤ 10001 →
  (∀ p s, valid_addr p → 1 ≤ fsm_level p → 0 ≤ s < 4069 → a = child p s → there st p) →
  3 * (10001 - restarts) + fsm_level a < Z.of_nat fuel →
  post (fsm_search_loop fuel env min_cat restarts a) st (searched min_cat st).
Proof.
  induction fuel as [|fuel IH]; intros restarts a st Hwf Ha Hm Hrs Hpar Hf; [unfold valid_addr in Ha; lia|].
  cbn [fsm_search_loop]. apply post_bind. eapply post_mono; [by apply search_page_post|].
  intros [slot mx] st1 (Htree & Hmx & Hfound & _). cbn [fst snd] in *.
  pose proof (st_wf _ _ Htree) as Hwf1. pose proof (st_size _ _ Htree) as Hsz.
  assert (∀ b st3, searched min_cat st1 b st3 → searched min_cat st b st3) as Hafter.
  { intros b st3. apply searched_after; [done|by apply same_tree_recorded|]. intros Hok. by apply (st_ok _ _ Htree). }
  destruct (Z.eqb_spec slot (-1)) as [->|Hne]; cbn [negb].
  - change FSM_ROOT_LEVEL with 2. destruct (Z.eqb_spec (fsm_level a) 2) as [Hl|Hl].
    { apply post_ret, Hafter. by split. }
    destruct (valid_parent a Ha Hl) as (p & s & Hp & Hpl & Hs & ->). rewrite parent_eq by done.
    assert (there st1 p) as Hth by (unfold there in *; rewrite Hsz; by eapply Hpar).
    apply post_bind. eapply post_mono; [apply set_and_search_post; try done|].
    { by left. }
    { intros n ->. cbn in Hpl. lia. }
    intros r st2 [Hset _].
    assert (∀ b st3, searched min_cat st2 b st3 → searched min_cat st1 b st3) as Hafter2.
    { intros b st3. apply searched_after; [|by eapply tree_set_recorded|apply Hset].
      rewrite (ts_size _ _ _ _ _ Hset). unfold there in Hth. lia. }
    pose proof (ts_wf _ _ _ _ _ Hset) as Hwf2.
    destruct (Z.ltb_spec 10000 restarts) as [Hgt|Hle].
    { apply post_ret, Hafter, Hafter2. by split. }
    eapply post_mono; [apply IH; try done; try lia|].
    + by right; right.
    + intros p' s' Hp' Hl' Hs' E. by destruct (root_no_child p' s').
    + unfold valid_addr in Ha. cbn [g_fsm_root_address fsm_level]. change FSM_ROOT_LEVEL with 2. lia.
    + intros b st3 Hse. by apply Hafter, Hafter2.
  - destruct (Hfound Hne) as (Hth & Hs & Hge). change FSM_BOTTOM_LEVEL with 0.
    destruct (Z.eqb_spec (fsm_level a) 0) as [Hl|Hl].
    + destruct a as [l n]. cbn in Hl. subst l. fold (leaf n) in *.
      destruct (found_leaf n slot min_cat st) as (-> & Hb & Hrec); [done..|]. apply post_ret. split; try done.
      * by apply same_tree_recorded.
      * intros Hok. by apply (st_ok _ _ Htree).
    + assert (1 ≤ fsm_level a) by (unfold valid_addr in Ha; lia). destruct (child_eq a slot) as [-> Hv]; [done|done|lia|].
      eapply post_mono; [apply IH; try done|intros b st3; apply Hafter].
      * intros p' s' Hp' Hl' Hs' E. apply child_inj in E as [<- _]; [|done..]. unfold there in *. lia.
      * cbn [child fsm_level]. lia.
Qed.

Lemma search_fuel_eq : Z.of_nat search_fuel = 30006.
Proof. unfold search_fuel. by rewrite Z2Nat.id. Qed.

Lemma fsm_search_post env min_cat st : fsm_wf st → 1 ≤ min_cat → post (fsm_search env min_cat) st (searched min_cat st).
Proof.
  intros Hwf Hm. apply search_loop_post; [done|by right; right|done|lia| |rewrite search_fuel_eq; done].
  intros p s Hp Hl Hs E. by destruct (root_no_child p s).
Qed.

Lemma cat_enough needed c : 0 ≤ needed ≤ MaxFSMRequestSize → needed_cat needed ≤ c → needed ≤ fsm_space_cat_to_avail c.
Proof.
  intros Hn Hc. unfold fsm_space_cat_to_avail, needed_cat in *. change FSM_CAT_STEP with 32.
  destruct (Z.eqb_spec c 255); [lia|]. destruct (Z.eqb_spec needed 0); slia.
Qed.

(** [GetPageWithFreeSpace] returns on every map, however wrong its upper levels (at most
    10002 descents): a block it returns is a block number whose recorded space is what was
    asked for or more; no recorded space changes, and what was right in the pages stays
    right. *)
Theorem get_page_sound env needed st :
  fsm_wf st → 0 ≤ needed ≤ MaxFSMRequestSize →
  post (GetPageWithFreeSpace env needed) st (λ b st', fsm_wf st' ∧ same_recorded st st' ∧ (tree_ok st → tree_ok st') ∧
    (b ≠ InvalidBlockNumber → 0 ≤ b ≤ MaxBlockNumber ∧ needed ≤ fsm_space_cat_to_avail (recorded st b))).
Proof.
  intros Hwf Hn. destruct (needed_cat_runs needed st Hn) as [Hr Hc]. apply post_bind. eapply post_runs; [exact Hr|].
  eapply post_mono; [apply fsm_search_post; [done|lia]|]. intros b st' [W Z R O F]. split_and!; try done.
  intros [Hb Hge]%F. split; [done|]. by apply cat_enough.
Qed.

(** ** Recording *)

Lemma location_room env st b :
  0 ≤ b ≤ MaxBlockNumber → (∀ n, fs_space env n = true) → room env st (leaf (b / 4069)).
Proof.
  intros Hb Hsp. right. split; [|apply Hsp]. unfold max_fsm_blocks, phys, MaxBlockNumber in *. cbn [leaf fsm_level logpageno Z.eqb]. slia.
Qed.

(** The map with one recorded category changed. *)
Record recorded_set (st : fsm_rel) (b cat : Z) (st' : fsm_rel) : Prop := {
  rs_wf : fsm_wf st';
  rs_ok : tree_ok st → tree_ok st';
  rs_cats : ∀ b', 0 ≤ b' ≤ MaxBlockNumber → recorded st' b' = if decide (b' = b) then cat else recorded st b';
}.

Lemma tree_set_leaf st b cat st' :
  0 ≤ b ≤ MaxBlockNumber → tree_set st (leaf (b / 4069)) (b mod 4069) cat st' → recorded_set st b cat st'.
Proof.
  intros Hb [W _ S O]. split; [done|done|]. intros b' Hb'. destruct (recorded_valid b' Hb'). unfold recorded. rewrite S by done.
  case_decide as E.
  - destruct E as [[= E1] E2]. rewrite decide_True; [done|]. slia.
  - rewrite decide_False; [done|]. intros ->. by apply E.
Qed.

Lemma record_slot_post env b cat minValue st :
  fsm_wf st → 0 ≤ b ≤ MaxBlockNumber → (∀ n, fs_space env n = true) → 0 ≤ cat < 256 → 0 ≤ minValue →
  post (fsm_set_and_search env (leaf (b / 4069)) (b mod 4069) cat minValue true) st (λ r st', recorded_set st b cat st' ∧
    (r ≠ -1 → 0 ≤ r < 4069 ∧ 1 ≤ minValue ≤ avail (page_of st' (leaf (b / 4069))) r)).
Proof.
  intros Hwf Hb Hsp Hc Hm. destruct (recorded_valid b Hb) as [Hv Hs].
  eapply post_mono; [apply set_and_search_post; try done; [by apply location_room|]|].
  { intros n [= <-]. unfold MaxBlockNumber in *. slia. }
  intros r st' [Hset Hr]. split; [by apply tree_set_leaf|]. intros Hne. destruct (Hr Hne) as (? & ? & ?). split; [done|lia].
Qed.

Lemma get_recorded_post env b st :
  fsm_wf st → 0 ≤ b ≤ MaxBlockNumber →
  post (GetRecordedFreeSpace env b) st (λ r st', r = fsm_space_cat_to_avail (recorded st b) ∧ fsm_wf st' ∧ same_recorded st st').
Proof.
  intros Hwf Hb. destruct (recorded_valid b Hb) as [Hv Hs]. unfold GetRecordedFreeSpace.
  rewrite location_eq by (unfold MaxBlockNumber in Hb; lia). apply post_bind. eapply post_mono; [by apply readbuf_post|].
  intros r st1 (Hwf1 & Hsame & Hkeep & [(-> & Hsz & Ht & buf & Hr)|(-> & _ & Hsz & Hnt)]).
  - apply post_bind. eapply post_on_block; [done|]. apply post_on_fsm, post_node; [flia|]. apply post_ret. split_and!.
    + unfold recorded. by rewrite <- Hsame, (ready_page _ _ _ Hr).
    + apply (put_rel_wf _ buf); try done; cbn [fsm_page]; rewrite <- (ready_page _ _ _ Hr).
      * by apply page_of_wf.
      * intros n s [= <-]. apply Hwf1. unfold MaxBlockNumber in Hb. slia.
    + intros b' Hb'. destruct (recorded_valid b' Hb'). unfold recorded. rewrite (put_page st1 _ buf) by done. cbn [fsm_page].
      rewrite <- (ready_page _ _ _ Hr). case_decide as E; [rewrite E|]; by rewrite Hsame.
  - apply post_ret. split_and!; [|done|intros b' _; unfold recorded; by rewrite Hsame].
    unfold recorded. rewrite not_there_empty by done. by unfold avail; rewrite empty_val.
Qed.

(** What [RecordPageWithFreeSpace] records for a heap block, [GetRecordedFreeSpace] reads
    back: at most the amount recorded, less by less than 48 bytes; the space recorded for
    every other block stays (the fork is created or extended as needed). *)
Theorem record_get_roundtrip env b avail_ st :
  fsm_wf st → 0 ≤ b ≤ MaxBlockNumber → 0 ≤ avail_ < BLCKSZ → (∀ n, fs_space env n = true) →
  post (RecordPageWithFreeSpace env b avail_ ≫= λ _, GetRecordedFreeSpace env b) st (λ r st', fsm_wf st' ∧
    r = fsm_space_cat_to_avail (fsm_space_avail_to_cat avail_) ∧ avail_ - 48 < r ≤ avail_ ∧
    ∀ b', 0 ≤ b' ≤ MaxBlockNumber → b' ≠ b → recorded st' b' = recorded st b').
Proof.
  intros Hwf Hb Ha Hsp. apply post_bind. unfold RecordPageWithFreeSpace.
  rewrite location_eq by (unfold MaxBlockNumber in Hb; lia). apply post_bind.
  eapply post_mono; [apply record_slot_post; try done; by apply avail_cat_range|]. intros r st1 [[W _ C] _]. apply post_skip.
  eapply post_mono; [by apply get_recorded_post|]. intros r' st2 (-> & W2 & R2). rewrite C, decide_True by done.
  split_and!; try done; [apply cat_bounds; done..|]. intros b' Hb' Hne. by rewrite R2, C, decide_False.
Qed.

(** [RecordAndGetPageWithFreeSpace] records the space of the old block, and no other, and
    what it returns has the space needed according to the map after that: the old block
    is not returned unless it has it. *)
Theorem record_and_get_sound env old avail_ needed st :
  fsm_wf st → 0 ≤ old ≤ MaxBlockNumber → 0 ≤ avail_ < BLCKSZ → 0 ≤ needed ≤ MaxFSMRequestSize → (∀ n, fs_space env n = true) →
  post (RecordAndGetPageWithFreeSpace env old avail_ needed) st (λ b st', recorded_set st old (fsm_space_avail_to_cat avail_) st' ∧
    (b ≠ InvalidBlockNumber → 0 ≤ b ≤ MaxBlockNumber ∧ needed ≤ fsm_space_cat_to_avail (recorded st' b) ∧ (b = old → needed ≤ avail_))).
Proof.
  intros Hwf Hb Ha Hn Hsp. destruct (needed_cat_runs needed st Hn) as [Hr Hc]. unfold RecordAndGetPageWithFreeSpace.
  apply post_bind. eapply post_runs; [exact Hr|]. rewrite location_eq by (unfold MaxBlockNumber in Hb; lia).
  apply post_bind. eapply post_mono; [apply record_slot_post; try done; [by apply avail_cat_range|lia]|].
  intros r st1 [Hset Hr1]. assert (∀ b, 0 ≤ b ≤ MaxBlockNumber → needed_cat needed ≤ recorded st1 b →
    needed ≤ fsm_space_cat_to_avail (recorded st1 b) ∧ (b = old → needed ≤ avail_)) as Hfin.
  { intros b Hb' Hge. pose proof (cat_enough _ _ Hn Hge) as Hen. split; [done|]. intros ->.
    rewrite (rs_cats _ _ _ _ Hset), decide_True in Hen by done. pose proof (cat_bounds avail_ Ha). lia. }
  destruct (Z.eqb_spec r (-1)) as [->|Hne]; cbn [negb].
  - eapply post_mono; [apply fsm_search_post; [apply Hset|lia]|]. intros b st2 [W2 Z2 R2 O2 F2]. split.
    + destruct Hset as [W O C]. split; [done|auto|]. intros b' Hb'. by rewrite R2, C.
    + intros [Hb' Hge]%F2. destruct (Hfin b Hb' Hge). by rewrite R2.
  - destruct (Hr1 Hne) as [Hr' Hge]. destruct (recorded_valid old Hb) as [Hv _]. pose proof (rs_wf _ _ _ _ Hset).
    destruct (found_leaf (old / 4069) r (needed_cat needed) st1) as (-> & Hb' & Hrec); [done..|lia|lia|].
    apply post_ret. split; [done|]. intros _. split; [done|]. by apply Hfin.
Qed.

(** ** Vacuum *)

(** [a'] is in the subtree of [a]. *)
Definition below (a' a : FSMAddress) : Prop :=
  (fsm_level a = fsm_level a' ∧ logpageno a' = logpageno a) ∨
  (fsm_level a = fsm_level a' + 1 ∧ logpageno a' / 4069 = logpageno a) ∨
  (fsm_level a = fsm_level a' + 2 ∧ logpageno a' / 4069 / 4069 = logpageno a).

Ltac below_tac := unfold below, valid_addr, child in *; cbn [fsm_level logpageno] in *; slia.

Lemma below_refl a : below a a.
Proof. by left. Qed.
Lemma below_child a s a' : valid_addr a → 1 ≤ fsm_level a → 0 ≤ s < 4069 → valid_addr a' → below a' (child a s) → below a' a.
Proof. intros. below_tac. Qed.
Lemma below_trans_child a' s a : valid_addr a' → valid_addr a → 1 ≤ fsm_level a' → 0 ≤ s < 4069 → below a' a → below (child a' s) a.
Proof. intros. below_tac. Qed.
Lemma not_below_child a s : ¬ below a (child a s).
Proof. below_tac. Qed.
Lemma below_disjoint a s s' a' : 0 ≤ s < 4069 → 0 ≤ s' < 4069 → below a' (child a s) → below a' (child a s') → s = s'.
Proof. intros. below_tac. Qed.
Lemma below_inv a' a :
  valid_addr a → valid_addr a' → below a' a → a' = a ∨ 1 ≤ fsm_level a ∧ ∃ s, 0 ≤ s < 4069 ∧ below a' (child a s).
Proof.
  intros Ha Ha' Hb. destruct (decide (fsm_level a' = fsm_level a)) as [E|Hne].
  - left. destruct a, a'. unfold below in Hb. cbn in *. f_equal; lia.
  - right. split; [below_tac|].
    destruct (decide (fsm_level a = fsm_level a' + 1)); [exists (logpageno a' mod 4069)|exists (logpageno a' / 4069 mod 4069)]; below_tac.
Qed.

(** The slots of [a] are the roots of its children. *)
Definition exact (st : fsm_rel) (a : FSMAddress) : Prop :=
  ∀ s, 0 ≤ s < 4069 → avail (page_of st a) s = val (page_of st (child a s)) 0.

(** [a]'s subtree has been vacuumed between [st] and [st']. *)
Record vacuumed (st : fsm_rel) (a : FSMAddress) (st' : fsm_rel) : Prop := {
  va_wf : fsm_wf st';
  va_ok : tree_ok st';
  va_size : fork_size st' = fork_size st;
  va_leaves : ∀ n s, 0 ≤ n < 4069 * 4069 → 0 ≤ s < 4069 → avail (page_of st' (leaf n)) s = avail (page_of st (leaf n)) s;
  va_frame : ∀ a', valid_addr a' → ¬ below a' a → page_of st' a' = page_of st a' ∧ ∀ buf, ready st a' buf → ready st' a' buf;
  va_exact : ∀ a', valid_addr a' → below a' a → 1 ≤ fsm_level a' → exact st' a';
}.

(** The children are later in the fork. *)
Lemma there_child st a s : valid_addr a → 1 ≤ fsm_level a → 0 ≤ s < 4069 → there st (child a s) → there st a.
Proof.
  intros Ha Hl Hs. unfold there. rewrite phys_child by done. unfold subtree_size. repeat case_bool; lia.
Qed.
Lemma there_before st a s s' :
  valid_addr a → 1 ≤ fsm_level a → 0 ≤ s ≤ s' → s' < 4069 → there st (child a s') → there st (child a s).
Proof.
  intros Ha Hl Hs Hs'. unfold there. rewrite !phys_child by (done || lia). unfold subtree_size. repeat case_bool; nia.
Qed.
Lemma there_below st a a' : valid_addr a → valid_addr a' → below a' a → there st a' → there st a.
Proof.
  intros Ha Ha' Hb. destruct (below_inv a' a Ha Ha' Hb) as [->|(Hl & s & Hs & Hb')]; [done|]. intros Ht.
  destruct (child_eq a s Ha Hl Hs) as [_ Hv]. apply (there_child st a s Ha Hl Hs).
  destruct (below_inv a' _ Hv Ha' Hb') as [->|(Hl2 & s2 & Hs2 & Hb2)]; [done|].
  destruct (child_eq _ s2 Hv Hl2 Hs2) as [_ Hv2]. apply (there_child st _ s2 Hv Hl2 Hs2).
  assert (a' = child (child a s) s2) as ->; [|done]. destruct (below_inv a' _ Hv2 Ha' Hb2) as [->|[? _]]; [done|].
  unfold valid_addr in Ha. cbn in *. lia.
Qed.

(** Nothing is to be done past the end. *)
Lemma vacuumed_none st st' a :
  valid_addr a → fsm_wf st' → tree_ok st → same_pages st st' → keeps_ready st st' → fork_size st' = fork_size st → ¬ there st a →
  vacuumed st a st'.
Proof.
  intros Ha Hwf Hok Hsame Hkeep Hsz Ht. split; try done.
  - intros a' Ha'. rewrite Hsame. by apply Hok.
  - intros n s Hn Hs. by rewrite Hsame.
  - intros a' Ha' _. split; [done|]. intros buf. apply Hkeep.
  - intros a' Ha' Hb Hl s Hs. destruct (child_eq a' s Ha' Hl Hs) as [_ Hv]. rewrite !Hsame, !not_there_empty; try done.
    + unfold avail. by rewrite !empty_val.
    + intros Hc. by apply Ht, (there_below st a a' Ha Ha' Hb), (there_child st a' s).
    + intros Hc. by apply Ht, (there_below st a a' Ha Ha' Hb).
Qed.

(** The loop has done the slots before [k]. *)
Record vacuum_inv (st0 : fsm_rel) (a : FSMAddress) (k : Z) (st : fsm_rel) : Prop := {
  vi_wf : fsm_wf st;
  vi_ok : tree_ok st;
  vi_size : fork_size st = fork_size st0;
  vi_leaves : ∀ n s, 0 ≤ n < 4069 * 4069 → 0 ≤ s < 4069 → avail (page_of st (leaf n)) s = avail (page_of st0 (leaf n)) s;
  vi_frame : ∀ a', valid_addr a' → ¬ below a' a → page_of st a' = page_of st0 a' ∧ ∀ buf, ready st0 a' buf → ready st a' buf;
  vi_ready : ∃ buf, ready st a buf;
  vi_done : ∀ s, 0 ≤ s < k → avail (page_of st a) s = val (page_of st (child a s)) 0;
  vi_exact : ∀ s, 0 ≤ s < k → ∀ a', valid_addr a' → below a' (child a s) → 1 ≤ fsm_level a' → exact st a';
}.

Lemma vacuumed_inv st0 a k st st' :
  valid_addr a → 1 ≤ fsm_level a → 0 ≤ k < 4069 → vacuum_inv st0 a k st → vacuumed st (child a k) st' →
  vacuum_inv st0 a k st' ∧ ∀ a', valid_addr a' → below a' (child a k) → 1 ≤ fsm_level a' → exact st' a'.
Proof.
  intros Ha Hl Hk [W O Z L F R D E] [W' O' Z' L' F' E']. split; [|done]. destruct (child_eq a k Ha Hl Hk) as [_ Hvk].
  pose proof (F' a Ha (not_below_child a k)) as [Epage Hready].
  assert (∀ s, 0 ≤ s < k → ∀ a', valid_addr a' → below a' (child a s) → page_of st' a' = page_of st a') as Hother.
  { intros s Hs a' Ha' Hb. apply F'; [done|]. intros Hb'. assert (s = k); [|lia]. apply (below_disjoint a s k a'); try done; lia. }
  split; try done.
  - congruence.
  - intros n s Hn Hs. by rewrite L', L.
  - intros a' Ha' Hnb. destruct (F' a' Ha') as [E1 E2].
    { intros Hb. by apply Hnb, (below_child a k). }
    destruct (F a' Ha' Hnb) as [E3 E4]. split; [congruence|]. intros buf ?%E4. by apply E2.
  - destruct R as [buf Hr]. eauto.
  - intros s Hs. destruct (child_eq a s Ha Hl ltac:(lia)) as [_ Hv]. rewrite Epage, (Hother s Hs) by (done || apply below_refl). by apply D.
  - intros s Hs a' Ha' Hb Hl' s2 Hs2. destruct (child_eq a' s2 Ha' Hl' Hs2) as [_ Hv2]. destruct (child_eq a s Ha Hl ltac:(lia)) as [_ Hv].
    rewrite !(Hother s Hs); try done; [by apply (E s Hs a')|]. by apply below_trans_child.
Qed.

Lemma put_same st a buf : ready st a buf → put_buf a buf st = st.
Proof.
  intros Hr. unfold put_buf, aset. unfold ready in Hr. rewrite list_insert_id by done. unfold blocks in *.
  destruct st as [[f|] c]; [done|]. by destruct (Z.to_nat (phys a)).
Qed.

Lemma vacuum_inv_put st0 a k st buf buf' :
  valid_addr a → 1 ≤ fsm_level a → 0 ≤ k < 4069 → vacuum_inv st0 a k st → ready st a buf →
  slot_set (fsm_page buf) k (val (page_of st (child a k)) 0) (fsm_page buf') →
  (∀ a', valid_addr a' → below a' (child a k) → 1 ≤ fsm_level a' → exact st a') →
  vacuum_inv st0 a (k + 1) (put_buf a buf' st).
Proof.
  intros Ha Hl Hk [W O Z L F R D E] Hr [Sw Ss Sok] Ek. rewrite <- (ready_page st a buf Hr) in Ss, Sok.
  assert (∀ a', valid_addr a' → page_of (put_buf a buf' st) a' = if decide (a' = a) then fsm_page buf' else page_of st a') as Hput
    by (intros a' Ha'; by apply (put_page st a buf)).
  assert (∀ s a', 0 ≤ s < 4069 → valid_addr a' → below a' (child a s) → page_of (put_buf a buf' st) a' = page_of st a') as Hbelow.
  { intros s a' Hs Ha' Hb. rewrite Hput, decide_False; [done| |done]. intros ->. by apply not_below_child in Hb. }
  split.
  - apply (put_rel_wf a buf); try done. intros n s ->. cbn in Hl. lia.
  - intros a' Ha'. rewrite Hput by done. case_decide as Ea; [apply Sok|]; by apply O.
  - rewrite (put_size _ _ _ (ready_fork _ _ _ Hr)). done.
  - intros n s Hn Hs. rewrite Hput, decide_False; [by apply L| |by apply leaf_valid]. intros <-. cbn in Hl. lia.
  - intros a' Ha' Hnb. assert (a' ≠ a) as Hne by (intros ->; apply Hnb, below_refl). destruct (F a' Ha' Hnb) as [F1 F2]. split.
    + by rewrite Hput, decide_False.
    + intros b Hb%F2. unfold ready, put_buf. cbn. unfold aset. rewrite list_lookup_insert_ne; [done|].
      intros Ep. apply Hne, phys_inj; [done..|]. pose proof (phys_nonneg a Ha). pose proof (phys_nonneg a' Ha'). lia.
  - exists buf'. by eapply put_ready.
  - intros s Hs. destruct (child_eq a s Ha Hl ltac:(lia)) as [_ Hv].
    rewrite Hput, decide_True, Ss, (Hbelow s) by (done || lia || apply below_refl).
    case_decide as Es; [by subst|]. apply D. lia.
  - intros s Hs a' Ha' Hb Hl' s2 Hs2. destruct (child_eq a' s2 Ha' Hl' Hs2) as [_ Hv2]. destruct (child_eq a s Ha Hl ltac:(lia)) as [_ Hv].
    rewrite !(Hbelow s); try done; try lia; [|by apply below_trans_child]. destruct (decide (s = k)) as [->|Hne].
    + by apply (Ek a').
    + apply (E s ltac:(lia) a'); done.
Qed.

(** One slot of the loop, the maximum of the child at hand. *)
Lemma vacuum_slot_post {A} env st0 a k st child_avail (next : M fsm_rel A) (Q : A → fsm_rel → Prop) :
  valid_addr a → 1 ≤ fsm_level a → 0 ≤ k < 4069 → vacuum_inv st0 a k st → child_avail = val (page_of st (child a k)) 0 →
  (∀ a', valid_addr a' → below a' (child a k) → 1 ≤ fsm_level a' → exact st a') →
  (∀ st', vacuum_inv st0 a (k + 1) st' → post next st' Q) →
  post (old ← on_block (phys a) (on_fsm (fsm_get_avail k));
        (if negb (old =? child_avail) then
           on_block (phys a) (modify lock_exclusively ≫= λ _, set_and_mark env k child_avail ≫= λ _, modify not_exclusive)
         else skip) ≫= λ _, next) st Q.
Proof.
  intros Ha Hl Hk Hinv -> Hek Hnext. destruct (vi_ready _ _ _ _ Hinv) as [buf Hr]. pose proof (vi_wf _ _ _ _ Hinv) as Hwf.
  assert (page_wf (fsm_page buf)) as Hw by (rewrite <- (ready_page _ _ _ Hr); by apply page_of_wf).
  apply post_bind, (post_on_block a buf); [done|]. apply post_on_fsm, post_node; [flia|]. fold (set_page (fsm_page buf) buf).
  assert (set_page (fsm_page buf) buf = buf) as -> by by destruct buf. rewrite (put_same st a buf Hr). fold (avail (fsm_page buf) k).
  apply post_bind. destruct (Z.eqb_spec (avail (fsm_page buf) k) (val (page_of st (child a k)) 0)) as [He|He]; cbn [negb].
  - apply post_skip, Hnext. rewrite <- (put_same st a buf Hr). apply (vacuum_inv_put st0 a k st buf buf); try done.
    split; [done| |done]. intros s Hs. case_decide; by subst.
  - apply (post_on_block a buf); [done|]. apply post_bind, post_modify, post_bind.
    eapply post_mono; [apply set_and_mark_post; [done|done|]|].
    { apply val_range, page_of_wf, Hwf. }
    intros [] buf' Hset. apply post_modify, Hnext. by apply (vacuum_inv_put st0 a k st buf).
Qed.

Section VacuumLoop.
Context (vacuum : FSMAddress → M fsm_rel (Z * bool)) (env : fsm_storage) (a : FSMAddress).
Hypothesis Ha : valid_addr a.
Hypothesis Hl : 1 ≤ fsm_level a.
(** The recursive call. *)
Hypothesis Hvac : ∀ s st, 0 ≤ s < 4069 → fsm_wf st → tree_ok st →
  post (vacuum (child a s)) st (λ r st', vacuumed st (child a s) st' ∧
    r.1 = val (page_of st' (child a s)) 0 ∧ (r.2 = true → ¬ there st (child a s))).

Lemma vacuum_slots_post st0 n : ∀ k st (eof : bool),
  0 ≤ k → k + Z.of_nat n = 4069 → vacuum_inv st0 a k st → (eof = true → ∀ s, k ≤ s < 4069 → ¬ there st (child a s)) →
  post (vacuum_slots vacuum env a (phys a) (seqZ k (Z.of_nat n)) eof) st (λ _ st', vacuum_inv st0 a 4069 st').
Proof using Ha Hl Hvac.
  induction n as [|n IH]; intros k st eof Hk Hn Hinv Heof.
  { apply post_skip. by replace 4069 with k by lia. }
  rewrite seqZ_cons by lia. replace (Z.pred (Z.of_nat (S n))) with (Z.of_nat n) by lia. cbn [vacuum_slots].
  destruct (child_eq a k) as [-> Hv]; [done..|lia|]. apply post_bind. destruct eof; cbn [negb].
  - apply post_ret. assert (¬ there st (child a k)) as Ht by (apply Heof; [done|lia]).
    apply (vacuum_slot_post env st0); try done; [lia|by rewrite not_there_empty, empty_val| |].
    + intros a' Ha' Hb Hl'. apply (va_exact st (child a k)); [|done..].
      apply vacuumed_none; try done; [apply Hinv..|]. intros a1 b H. exact H.
    + intros st' Hinv'. apply IH; [lia|lia|by rewrite Z.add_1_r in Hinv'|]. intros _ s Hs.
      unfold there in *. rewrite (vi_size _ _ _ _ Hinv'), <- (vi_size _ _ _ _ Hinv). apply Heof; [done|lia].
  - eapply post_mono; [apply Hvac; [lia|apply Hinv..]|]. intros [mx eof] st1 (Hva & Hmx & Hend). cbn [fst snd] in *.
    destruct (vacuumed_inv st0 a k st st1) as [Hinv1 Hek]; [done|done|lia|done|done|].
    apply (vacuum_slot_post env st0); try done; [lia|]. intros st' Hinv'. apply IH; [lia|lia|by rewrite Z.add_1_r in Hinv'|].
    intros Ht s Hs. specialize (Hend Ht). contradict Hend. unfold there in Hend. rewrite (vi_size _ _ _ _ Hinv'), <- (vi_size _ _ _ _ Hinv) in Hend.
    apply (there_before st a k s); try done; lia.
Qed.
End VacuumLoop.

(** The page is left with its next slot reset. *)
Lemma vacuum_finish st0 a k st buf buf' :
  valid_addr a → (1 ≤ fsm_level a → k = 4069) → vacuum_inv st0 a k st → ready st a buf →
  fsm_page buf' = with_next 0 (fsm_page buf) →
  vacuumed st0 a (put_buf a buf' st) ∧ val (page_of (put_buf a buf' st) a) 0 = val (fsm_page buf) 0.
Proof.
  intros Ha Hk [W O Z L F R D E] Hr Hp. pose proof (ready_page st a buf Hr) as Hpg.
  assert (∀ a', valid_addr a' → page_of (put_buf a buf' st) a' = if decide (a' = a) then with_next 0 (page_of st a') else page_of st a') as Hput.
  { intros a' Ha'. rewrite (put_page st a buf), Hp by done. case_decide as Ea; [|done]. subst. by rewrite Hpg. }
  assert (∀ a' n, valid_addr a' → val (page_of (put_buf a buf' st) a') n = val (page_of st a') n) as Hval
    by (intros a' n Ha'; rewrite Hput by done; by case_decide).
  split; [|by rewrite Hval, Hpg]. split.
  - apply (put_rel_wf a buf); try done; rewrite Hp, <- Hpg.
    + destruct (page_of_wf st a W). by split.
    + intros n s ->. change (avail (with_next 0 ?p) s) with (avail p s). apply W. unfold valid_addr in Ha. cbn in Ha. lia.
  - intros a' Ha'. rewrite Hput by done. destruct (O a' Ha') as [[? ?] ?]. case_decide; by repeat split.
  - by rewrite (put_size _ _ _ (ready_fork _ _ _ Hr)).
  - intros n s Hn Hs. unfold avail. rewrite Hval by by apply leaf_valid. by apply L.
  - intros a' Ha' Hnb. assert (a' ≠ a) as Hne by (intros ->; apply Hnb, below_refl). destruct (F a' Ha' Hnb) as [F1 F2]. split.
    + by rewrite Hput, decide_False.
    + intros b Hb%F2. unfold ready, put_buf. cbn. unfold aset. rewrite list_lookup_insert_ne; [done|].
      intros Ep. apply Hne, phys_inj; [done..|]. pose proof (phys_nonneg a Ha). pose proof (phys_nonneg a' Ha'). lia.
  - intros a' Ha' Hb Hl' s Hs. destruct (child_eq a' s Ha' Hl' Hs) as [_ Hv]. unfold avail. rewrite !Hval by done.
    destruct (below_inv a' a Ha Ha' Hb) as [->|(Hl & s' & Hs' & Hb')].
    + apply D. rewrite Hk by done. done.
    + apply (E s'); try done. by rewrite Hk.
Qed.

Lemma vacuum_start st a st1 :
  tree_ok st → fsm_wf st1 → same_pages st st1 → keeps_ready st st1 → fork_size st1 = fork_size st → (∃ buf, ready st1 a buf) → vacuum_inv st a 0 st1.
Proof.
  intros Hok Hwf Hsame Hkeep Hsz Hr. split; try done.
  - intros a' Ha'. rewrite Hsame. by apply Hok.
  - intros n s _ _. by rewrite Hsame.
  - intros a' _ _. split; [done|]. intros buf. apply Hkeep.
  - lia.
  - lia.
Qed.

Lemma vacuum_page_post env f : ∀ a st,
  fsm_wf st → tree_ok st → valid_addr a → fsm_level a < Z.of_nat f →
  post (fsm_vacuum_page f env a) st (λ r st', vacuumed st a st' ∧ r.1 = val (page_of st' a) 0 ∧ (r.2 = true → ¬ there st a)).
Proof.
  induction f as [|f IH]; intros a st Hwf Hok Ha Hf; [unfold valid_addr in Ha; lia|]. cbn [fsm_vacuum_page].
  apply post_bind. eapply post_mono; [by apply readbuf_post|].
  intros r st1 (Hwf1 & Hsame & Hkeep & [(-> & Hsz & Ht & Hr)|(-> & _ & Hsz & Hnt)]).
  - specialize (Ht eq_refl). unfold there in Ht. rewrite Z.max_l in Hsz by lia.
    pose proof (vacuum_start st a st1 Hok Hwf1 Hsame Hkeep Hsz Hr) as Hinv. change FSM_BOTTOM_LEVEL with 0. rewrite Slots_eq.
    apply post_bind. assert (post (if 0 <? fsm_level a then vacuum_slots (fsm_vacuum_page f env) env a (phys a) (seqZ 0 4069) false else skip) st1
      (λ _ st2, ∃ k, (1 ≤ fsm_level a → k = 4069) ∧ vacuum_inv st a k st2)) as Hloop.
    { destruct (Z.ltb_spec 0 (fsm_level a)) as [Hl|Hl]; [|apply post_skip; exists 0; split; [lia|done]].
      eapply post_mono; [apply (vacuum_slots_post _ env a Ha ltac:(lia)) with (st0 := st) (n := 4069%nat); try done|].
      - intros s st' Hs Hwf' Hok'. destruct (child_eq a s Ha ltac:(lia) Hs) as [_ Hv]. apply IH; [done..|]. cbn. lia.
      - intros [] st2 Hinv2. by exists 4069. }
    eapply post_mono; [exact Hloop|]. intros [] st2 (k & Hk & Hinv2). destruct (vi_ready _ _ _ _ Hinv2) as [buf Hrd].
    apply post_bind, (post_on_block a buf); [done|]. apply post_on_fsm, post_node; [flia|]. fold (set_page (fsm_page buf) buf).
    assert (set_page (fsm_page buf) buf = buf) as -> by by destruct buf. rewrite (put_same st2 a buf Hrd).
    apply post_bind, (post_on_block a buf); [done|]. apply post_on_fsm, post_modify, post_ret. cbn [fst snd].
    fold (set_page (with_next 0 (fsm_page buf)) buf).
    destruct (vacuum_finish st a k st2 buf (set_page (with_next 0 (fsm_page buf)) buf)) as [Hva Hv]; [done..|].
    split_and!; [done|by rewrite Hv|done].
  - apply post_ret. cbn [fst snd]. split_and!; [by apply vacuumed_none| |done]. by rewrite Hsame, not_there_empty, empty_val.
Qed.

(** ** The search after a vacuum *)

Definition all_exact (st : fsm_rel) : Prop := ∀ a, valid_addr a → 1 ≤ fsm_level a → exact st a.

Lemma root_valid : valid_addr g_fsm_root_address.
Proof. by right; right. Qed.

Lemma vacuum_exact st st' : vacuumed st g_fsm_root_address st' → all_exact st'.
Proof.
  intros [_ _ _ _ _ E] a Ha Hl. apply E; [done| |done]. unfold below, valid_addr in *. change (fsm_level g_fsm_root_address) with 2.
  change (logpageno g_fsm_root_address) with 0. slia.
Qed.

Lemma vacuum_recorded st a st' : vacuumed st a st' → same_recorded st st'.
Proof. intros [_ _ _ L _ _] b Hb. unfold recorded, MaxBlockNumber in *. apply L; slia. Qed.

Lemma same_tree_exact st st' : tree_ok st → same_tree st st' → all_exact st → all_exact st'.
Proof.
  intros Hok [_ _ S O] He a Ha Hl s Hs. destruct (child_eq a s Ha Hl Hs) as [_ Hv]. rewrite S by done.
  rewrite (proj2 (O Hok)) by done. by apply He.
Qed.

(** A page is bounded by its slot in its parent. *)
Lemma root_bounds_child st a s :
  tree_ok st → all_exact st → valid_addr a → 1 ≤ fsm_level a → 0 ≤ s < 4069 → val (page_of st (child a s)) 0 ≤ val (page_of st a) 0.
Proof. intros Hok He Ha Hl Hs. rewrite <- He by done. apply below_root; [by apply Hok|flia]. Qed.

Lemma root_bounds st b :
  tree_ok st → all_exact st → 0 ≤ b ≤ MaxBlockNumber → recorded st b ≤ val (page_of st g_fsm_root_address) 0.
Proof.
  intros Hok He Hb. destruct (recorded_valid b Hb) as [Hv Hs]. set (mid := {| fsm_level := 1; logpageno := b / 4069 / 4069 |}).
  assert (valid_addr mid) as Hm by (right; left; unfold MaxBlockNumber in Hb; cbn; slia).
  assert (recorded st b ≤ val (page_of st (leaf (b / 4069))) 0) as H1 by (apply below_root; [by apply Hok|flia]).
  assert (leaf (b / 4069) = child mid (b / 4069 mod 4069)) as E1 by (unfold leaf, child; cbn; f_equal; slia).
  assert (mid = child g_fsm_root_address (b / 4069 / 4069)) as E2 by done.
  pose proof (root_bounds_child st mid (b / 4069 mod 4069) Hok He Hm) as H2.
  pose proof (root_bounds_child st g_fsm_root_address (b / 4069 / 4069) Hok He root_valid) as H3.
  rewrite <- E1 in H2. rewrite <- E2 in H3. specialize (H2 ltac:(cbn; lia) ltac:(slia)).
  specialize (H3 ltac:(done) ltac:(unfold MaxBlockNumber in Hb; slia)). lia.
Qed.

(** On a map whose slots are the roots of the pages below, the search does not fail on its
    way down. *)
Lemma search_finds env min_cat restarts fuel : ∀ a st,
  fsm_wf st → tree_ok st → all_exact st → valid_addr a → 1 ≤ min_cat → min_cat ≤ val (page_of st a) 0 → fsm_level a < Z.of_nat fuel →
  post (fsm_search_loop fuel env min_cat restarts a) st (λ b _, b ≠ InvalidBlockNumber).
Proof.
  induction fuel as [|fuel IH]; intros a st Hwf Hok He Ha Hm Hv Hf; [unfold valid_addr in Ha; lia|].
  cbn [fsm_search_loop]. apply post_bind. eapply post_mono; [by apply search_page_post|].
  intros [slot mx] st1 (Htree & _ & Hfound & Hfail). cbn [fst snd] in *.
  destruct (Z.eqb_spec slot (-1)) as [->|Hne]; cbn [negb]; [specialize (Hfail eq_refl Hok); lia|].
  destruct (Hfound Hne) as (_ & Hs & Hge). change FSM_BOTTOM_LEVEL with 0. destruct (Z.eqb_spec (fsm_level a) 0) as [Hl|Hl].
  - destruct a as [l n]. cbn in Hl. subst l. fold (leaf n) in *.
    destruct (found_leaf n slot min_cat st) as (-> & Hb & _); [done..|]. apply post_ret. unfold MaxBlockNumber, InvalidBlockNumber in *. lia.
  - assert (1 ≤ fsm_level a) as Hl1 by (unfold valid_addr in Ha; lia). destruct (child_eq a slot) as [-> Hvc]; [done|done|lia|].
    destruct (st_ok _ _ Htree Hok) as [Hok1 Hroots]. apply IH; try done.
    + apply Htree.
    + by apply (same_tree_exact st).
    + by rewrite Hroots, <- He.
    + cbn. lia.
Qed.

(** C23: After [FreeSpaceMapVacuum] the search misses nothing: [GetPageWithFreeSpace] gives up
    only if no heap block has the category asked for. The vacuum visits every page of the
    fork, changes no recorded category, and returns. *)
Theorem vacuum_then_search env needed st :
  fsm_wf st → tree_ok st → 0 ≤ needed ≤ MaxFSMRequestSize →
  post (FreeSpaceMapVacuum env ≫= λ _, GetPageWithFreeSpace env needed) st (λ b st', fsm_wf st' ∧ same_recorded st st' ∧
    ∃ c, runs (fsm_space_needed_to_cat needed) st c st ∧
      (b = InvalidBlockNumber ↔ ∀ b', 0 ≤ b' ≤ MaxBlockNumber → recorded st b' < c)).
Proof.
  intros Hwf Hok Hn. apply post_bind. unfold FreeSpaceMapVacuum. apply post_bind.
  eapply post_mono; [apply vacuum_page_post; [done..|apply root_valid|done]|]. intros r st1 (Hva & _). apply post_skip.
  pose proof (vacuum_exact _ _ Hva) as He. pose proof (vacuum_recorded _ _ _ Hva) as Hrec1. pose proof (va_ok _ _ _ Hva) as Hok1.
  destruct (needed_cat_runs needed st1 Hn) as [Hr Hc]. apply post_bind. eapply post_runs; [exact Hr|].
  destruct (fsm_search_post env (needed_cat needed) st1) as (b & st2 & Hs & [W Z R O F]); [apply Hva|lia|].
  eapply post_runs; [exact Hs|]. split_and!; [done|intros b' Hb'; by rewrite R, Hrec1|].
  exists (needed_cat needed). split; [by apply needed_cat_runs|]. split.
  - intros -> b' Hb'. pose proof (root_bounds st1 b' Hok1 He Hb') as Hle. rewrite Hrec1 in Hle by done.
    destruct (decide (needed_cat needed ≤ val (page_of st1 g_fsm_root_address) 0)) as [Hge|]; [|lia].
    destruct (search_finds env (needed_cat needed) 0 search_fuel g_fsm_root_address st1) as (b2 & st3 & Hs2 & Hb2);
      [apply Hva|done|done|apply root_valid|lia|done|rewrite search_fuel_eq; done|]. by destruct (runs_det _ _ _ _ _ _ Hs Hs2).
  - intros Hnone. destruct (decide (b = InvalidBlockNumber)) as [|Hne]; [done|]. destruct (F Hne) as [Hb Hge].
    rewrite Hrec1 in Hge by done. specialize (Hnone b Hb). lia.
Qed.

(** ** Truncation *)

Definition truncated (n : Z) (st : fsm_rel) : fsm_rel := with_nblocks n (with_fork (take (Z.to_nat n) <$> fsm_fork st) st).

Lemma truncated_blocks n st : blocks (truncated n st) = take (Z.to_nat n) (blocks st).
Proof. unfold blocks, truncated. cbn. destruct (fsm_fork st); [done|]. by destruct (Z.to_nat n). Qed.

Lemma truncated_page n st a :
  valid_addr a → 0 ≤ n → page_of (truncated n st) a = if decide (phys a < n) then page_of st a else empty_fsm.
Proof.
  intros Ha Hn. unfold page_of. rewrite truncated_blocks. pose proof (phys_nonneg a Ha). case_decide.
  - by rewrite lookup_take_lt by lia.
  - by rewrite lookup_take_ge by lia.
Qed.

Lemma truncated_wf n st : fsm_wf st → tree_ok st → 0 ≤ n ≤ fork_size st → fsm_wf (truncated n st) ∧ tree_ok (truncated n st).
Proof.
  intros [H1 H2 H3 H4] Hok Hn. assert (fork_size (truncated n st) = n) as Hsz.
  { change (fork_size (truncated n st)) with (Z.of_nat (length (blocks (truncated n st)))). rewrite truncated_blocks, length_take.
    unfold fork_size in Hn. fold (blocks st) in Hn. lia. }
  split; [split|].
  - rewrite truncated_blocks. by apply Forall_take.
  - right. rewrite Hsz. cbn. lia.
  - lia.
  - intros m s Hm Hs Hgt. rewrite truncated_page by (done || lia || by apply leaf_valid). case_decide; [by apply H4|].
    unfold avail. by rewrite empty_val.
  - intros a Ha. rewrite truncated_page by (done || lia). case_decide; [by apply Hok|apply empty_ok].
Qed.

Lemma phys_leaf_mono m n : 0 ≤ m ≤ n → phys (leaf m) ≤ phys (leaf n).
Proof. intros. unfold phys. cbn [leaf fsm_level logpageno Z.eqb]. slia. Qed.
Lemma phys_leaf_lt m n : 0 ≤ m < n → phys (leaf m) < phys (leaf n).
Proof. intros. unfold phys. cbn [leaf fsm_level logpageno Z.eqb]. slia. Qed.

(** The tail of the last page that remains, in [buf], has been emptied. *)
Lemma truncate_page_post env a slot st buf :
  fsm_wf st → tree_ok st → valid_addr a → ready st a buf → 0 ≤ slot < 4069 →
  post (on_block (phys a) (modify lock_exclusively ≫= λ _, on_fsm (fsm_truncate_avail slot) ≫= λ _,
          modify (mark_truncated env) ≫= λ _, modify not_exclusive)) st
    (λ _ st', fsm_wf st' ∧ tree_ok st' ∧ fork_size st' = fork_size st ∧
      ∀ a' s, valid_addr a' → 0 ≤ s < 4069 → avail (page_of st' a') s = if decide (a' = a ∧ slot ≤ s) then 0 else avail (page_of st a') s).
Proof.
  intros Hwf Hok Ha Hr Hs. pose proof (ready_page _ _ _ Hr) as Hpg.
  assert (fsm_ok (fsm_page buf)) as Hokp by (rewrite <- Hpg; by apply Hok).
  apply (post_on_block a buf); [done|]. apply post_bind, post_modify, post_bind, post_on_fsm.
  eapply post_mono; [apply truncate_avail_post; [done|flia]|]. rewrite Leaf_eq. cbn [lock_exclusively fsm_page].
  intros r p' (Hok' & _ & Hav & _). apply post_bind, post_modify, post_modify. set (buf' := not_exclusive _).
  assert (fsm_page buf' = p') as Hp' by done.
  assert (∀ s, 0 ≤ s < 4069 → avail p' s = if decide (slot ≤ s) then 0 else avail (page_of st a) s) as Hslots.
  { intros s Hs'. rewrite Hav, Hpg by done. destruct (Z.leb_spec slot s); case_decide; done || lia. }
  split_and!.
  - apply (put_rel_wf a buf); try done; rewrite Hp'; [apply Hok'|]. intros n s -> Hs' Hgt. rewrite Hslots by done. case_decide; [done|].
    apply Hwf; [|done|done]. unfold valid_addr in Ha. cbn in Ha. lia.
  - intros a' Ha'. rewrite (put_page st a buf) by done. case_decide; [by rewrite Hp'|by apply Hok].
  - apply put_size. by eapply ready_fork.
  - intros a' s Ha' Hs'. rewrite (put_page st a buf) by done. destruct (decide (a' = a)) as [->|Hne].
    + rewrite Hp', Hslots by done. destruct (decide (slot ≤ s)); [by rewrite decide_True|]. rewrite decide_False; [done|]. by intros [_ ?].
    + rewrite decide_False; [done|]. by intros [? _].
Qed.

(** The state from which the tail of the fork is cut. *)
Definition tail_cut (q slot : Z) (st st1 : fsm_rel) : Prop :=
  fsm_wf st1 ∧ tree_ok st1 ∧ fork_size st1 = fork_size st ∧
  ∀ n s, 0 ≤ n < 4069 * 4069 → 0 ≤ s < 4069 →
    avail (page_of st1 (leaf n)) s = if decide (n = q ∧ 0 < slot ≤ s) then 0 else avail (page_of st (leaf n)) s.

Lemma truncate_tail_post env q slot st :
  fsm_wf st → tree_ok st → fsm_fork st ≠ None → 0 ≤ q < 4069 * 4069 → 0 ≤ slot < 4069 →
  post (truncate_tail env (leaf q) slot) st (λ r st1,
    (r = None ∧ same_pages st st1 ∧ fsm_wf st1 ∧ ¬ there st (leaf q)) ∨
    (r = Some (phys (leaf q) + (if 0 <? slot then 1 else 0)) ∧ there st (leaf q) ∧ tail_cut q slot st st1)).
Proof.
  intros Hwf Hok Hf Hq Hs. pose proof (leaf_valid q Hq) as Hv. pose proof (phys_nonneg _ Hv) as H0. unfold truncate_tail.
  destruct (Z.ltb_spec 0 slot) as [Hpos|Hz].
  - apply post_bind. eapply post_mono; [by apply readbuf_post|].
    intros r st1 (Hwf1 & Hsame & _ & [(-> & Hsz & Ht & buf & Hr)|(-> & _ & Hsz & Hnt)]); [|apply post_ret; left; done].
    specialize (Ht eq_refl). apply post_bind. assert (tree_ok st1) as Hok1 by (intros a Ha; rewrite Hsame; by apply Hok).
    eapply post_mono; [by apply (truncate_page_post env (leaf q) slot st1 buf)|]. intros _ st2 (Hwf2 & Hok2 & Hsz2 & Hav).
    apply post_ret. right. rewrite physical_eq by done. assert (phys (leaf q) + 1 < 2 ^ 32) as Hlt.
    { unfold phys. cbn [leaf fsm_level logpageno Z.eqb]. slia. }
    rewrite u32_small by lia. split_and!; [done|done|]. split_and!; [done|done|unfold there in Ht; lia|]. intros n s Hn Hs'.
    rewrite Hav, Hsame by (done || by apply leaf_valid). destruct (decide (n = q ∧ 0 < slot ≤ s)) as [[-> ?]|Hno].
    + rewrite decide_True; [done|]. split; [done|lia].
    + rewrite decide_False; [done|]. intros [[= ->] ?]. apply Hno. split; [done|lia].
  - assert (slot = 0) as -> by lia. apply post_bind. eapply post_runs; [unfold runs, smgrnblocks; by destruct (fsm_fork st)|].
    apply post_ret. rewrite physical_eq by done. destruct (Z.leb_spec (fork_size st) (phys (leaf q))) as [Hle|Hgt].
    + left. split_and!; try done. unfold there. lia.
    + right. split_and!; [f_equal; lia|done|]. split_and!; try done. intros n s _ _. rewrite decide_False; [done|lia].
Qed.

(** After [FreeSpaceMapTruncateRel] to [nblocks] heap blocks the space recorded for the
    blocks that remain is what it was, and nothing is recorded for the removed ones,
    whether or not their part of the map existed. *)
Theorem truncate_map_spec env nblocks st :
  fsm_wf st → tree_ok st → 0 ≤ nblocks ≤ MaxBlockNumber →
  post (FreeSpaceMapTruncateRel env nblocks) st (λ _ st', fsm_wf st' ∧ tree_ok st' ∧
    ∀ b, 0 ≤ b ≤ MaxBlockNumber → recorded st' b = if b <? nblocks then recorded st b else 0).
Proof.
  intros Hwf Hok Hn. unfold FreeSpaceMapTruncateRel. apply post_bind, post_gets.
  set (q := nblocks / 4069). set (slot := nblocks mod 4069). assert (0 ≤ q < 4069 * 4069 ∧ 0 ≤ slot < 4069 ∧ nblocks = q * 4069 + slot) as (Hq & Hs & Hqs)
    by (subst q slot; unfold MaxBlockNumber in Hn; slia).
  (* what is recorded past the end *)
  assert (∀ st1 b, same_pages st st1 → ¬ there st (leaf q) → 0 ≤ b ≤ MaxBlockNumber → recorded st1 b = if b <? nblocks then recorded st b else 0) as Hend.
  { intros st1 b Hsame Hnt Hb. unfold recorded. rewrite Hsame. destruct (Z.ltb_spec b nblocks); [done|].
    destruct (recorded_valid b Hb) as [Hv _]. rewrite not_there_empty; [unfold avail; by rewrite empty_val|done|].
    unfold there in *. pose proof (phys_leaf_mono q (b / 4069)) as Hm. specialize (Hm ltac:(slia)). lia. }
  destruct (fsm_fork st) as [f|] eqn:Ef; cbn [negb].
  - rewrite location_eq by (unfold MaxBlockNumber in Hn; lia). fold q slot. apply post_bind.
    eapply post_mono; [apply truncate_tail_post; try done; by rewrite Ef|].
    intros r st1 [(-> & Hsame & Hwf1 & Hnt)|(-> & Ht & Hwf1 & Hok1 & Hsz & Hav)].
    + apply post_skip. split_and!; [done|intros a Ha; rewrite Hsame; by apply Hok|]. intros b Hb. by apply Hend.
    + set (n := phys (leaf q) + _). pose proof (phys_nonneg _ (leaf_valid q Hq)) as H0.
      assert (0 ≤ n ≤ fork_size st1) as Hnr by (unfold there in Ht; subst n; case_bool; lia).
      apply post_bind, post_modify, post_modify. fold (truncated n st1).
      destruct (truncated_wf n st1 Hwf1 Hok1 Hnr) as [Hwf2 Hok2]. split_and!; [done|done|].
      intros b Hb. destruct (recorded_valid b Hb) as [Hv Hbs]. unfold recorded. rewrite truncated_page by (done || lia).
      assert (0 ≤ b / 4069 < 4069 * 4069) as Hbq by (unfold MaxBlockNumber in Hb; slia).
      pose proof (phys_leaf_lt (b / 4069) q) as Hlt. pose proof (phys_leaf_lt q (b / 4069)) as Hgt.
      pose proof (Z.div_mod b 4069 ltac:(lia)) as Hbm. clearbody q slot.
      generalize dependent (b / 4069). generalize dependent (b mod 4069). intros bs Hbs bq Hv Hbq Hlt Hgt Hbm.
      assert (bq = q → phys (leaf bq) = phys (leaf q)) as Heq by by intros ->.
      specialize (Hav bq bs Hbq Hbs). destruct (decide (bq = q ∧ 0 < slot ≤ bs)), (decide (phys (leaf bq) < n)) as [E|E]; rewrite ?Hav;
        destruct (Z.ltb_spec b nblocks); try done; subst n; destruct (Z.ltb_spec 0 slot); try lia; unfold avail; by rewrite ?empty_val.
  - apply post_skip. split_and!; try done. intros b Hb. apply Hend; try done. unfold there.
    assert (fork_size st = 0) by (unfold fork_size; by rewrite Ef). pose proof (phys_nonneg _ (leaf_valid q Hq)). lia.
Qed.

(** ** The bulk update *)

Lemma update_recursive_post env new_cat search f : ∀ a st,
  fsm_wf st → valid_addr a → phys a < max_fsm_blocks → (∀ n, fs_space env n = true) → 0 ≤ new_cat < 256 → 2 - fsm_level a < Z.of_nat f →
  post (fsm_update_recursive f env a new_cat search) st (λ _ st', fsm_wf st' ∧ same_recorded st st' ∧ (tree_ok st → tree_ok st')).
Proof.
  induction f as [|f IH]; intros a st Hwf Ha Hmax Hsp Hc Hf; [unfold valid_addr in Ha; lia|]. cbn [fsm_update_recursive].
  change FSM_ROOT_LEVEL with 2. destruct (Z.eqb_spec (fsm_level a) 2) as [Hl|Hl]; [by apply post_skip|].
  destruct (valid_parent a Ha Hl) as (p & s & Hp & Hpl & Hs & ->). rewrite parent_eq by done.
  assert (phys p < max_fsm_blocks) as Hpm by (rewrite phys_child in Hmax by done; unfold subtree_size in Hmax; repeat case_bool; lia).
  apply post_bind. eapply post_mono; [apply set_and_search_post; try done|].
  - right. by rewrite Hsp.
  - intros n ->. cbn in Hpl. lia.
  - intros r st1 [Hset _]. eapply post_mono; [apply IH; try done; [apply Hset|]|].
    + cbn [child fsm_level] in *. lia.
    + intros _ st2 (Hwf2 & Hrec & Hok). pose proof (tree_set_recorded _ _ _ _ _ Hpl Hset) as Hrec1. split_and!; [done| |].
      * intros b Hb. by rewrite Hrec, Hrec1.
      * intros ?. by apply Hok, Hset.
Qed.

(** The last block of a bottom page; on the last one the computation wraps around. *)
Lemma last_block n :
  0 ≤ n < 4069 * 4069 → fsm_get_lastblckno (leaf n) = if n * 4069 + 4068 <? 2 ^ 32 then n * 4069 + 4068 else (n * 4069 + 4068) mod 2 ^ 32.
Proof.
  intros Hn. unfold fsm_get_lastblckno, fsm_get_heap_blk. cbn [leaf logpageno]. rewrite Slots_eq, (u32_small n) by lia.
  replace (n * 4069 + (4069 - 1)) with (n * 4069 + 4068) by lia. destruct (Z.ltb_spec (n * 4069 + 4068) (2 ^ 32)); [by apply u32_small; lia|done].
Qed.

Definition last_page : Z := MaxBlockNumber / 4069.

(** [UpdateFreeSpaceMap] up to a block that is not on the last bottom page of the map
    returns, after one round per bottom page; it changes no recorded category and keeps the
    inner nodes of pages right. *)
Theorem update_map_terminates env start end_ freespace search st fuel :
  fsm_wf st → 0 ≤ start → end_ < last_page * 4069 → 0 ≤ freespace < BLCKSZ → (∀ n, fs_space env n = true) →
  end_ / 4069 - start / 4069 + 1 < Z.of_nat fuel → 0 < Z.of_nat fuel →
  post (UpdateFreeSpaceMap fuel env start end_ freespace search) st (λ _ st', fsm_wf st' ∧ same_recorded st st' ∧ (tree_ok st → tree_ok st')).
Proof.
  intros Hwf Hst Hend Hfs Hsp Hf H0. unfold UpdateFreeSpaceMap. pose proof (avail_cat_range freespace Hfs) as Hc.
  revert start st Hwf Hst Hf. change last_page with 1055533 in Hend. induction fuel as [|fuel IH]; intros start st Hwf Hst Hf; [lia|].
  cbn [update_map_loop]. destruct (Z.ltb_spec end_ start) as [|Hle]; [by apply post_skip|].
  rewrite location_eq by lia. cbn [fst]. assert (0 ≤ start / 4069 < 1055533) as Hq by slia.
  apply post_bind. eapply post_mono; [apply update_recursive_post; try done|].
  { apply leaf_valid. lia. }
  { unfold max_fsm_blocks, phys. cbn [leaf fsm_level logpageno Z.eqb]. change (MaxBlockNumber / 4069) with 1055533. slia. }
  intros _ st1 (Hwf1 & Hrec1 & Hok1). rewrite last_block by lia. rewrite (proj2 (Z.ltb_lt _ _)) by slia.
  destruct (Z.leb_spec end_ (start / 4069 * 4069 + 4068)) as [Hlast|Hmore]; [by apply post_skip|].
  rewrite u32_small by slia. eapply post_mono; [apply IH; [|done|slia|slia]|].
  - slia.
  - intros _ st2 (Hwf2 & Hrec2 & Hok2). split_and!; [done| |auto]. intros b Hb. by rewrite Hrec2, Hrec1.
Qed.

(** [UpdateFreeSpaceMap] up to a block on the last bottom page of the map (the last 3518
    of the [2 ^ 32 - 1] blocks a relation can have) never returns: the number of the last
    block of that page wraps around, is less than the end, and the loop starts over. *)
Theorem update_map_never_ends env start end_ freespace search :
  0 ≤ start ≤ end_ → last_page * 4069 ≤ end_ ≤ MaxBlockNumber →
  ∀ fuel st st', UpdateFreeSpaceMap fuel env start end_ freespace search st ≠ (Ok tt, st').
Proof.
  intros Hst Hend fuel. unfold UpdateFreeSpaceMap. change last_page with 1055533 in Hend. unfold MaxBlockNumber in Hend.
  revert start Hst. induction fuel as [|fuel IH]; intros start Hst st st'; [done|]. cbn [update_map_loop].
  rewrite (proj2 (Z.ltb_ge _ _)) by lia. rewrite location_eq by lia. cbn [fst].
  assert (0 ≤ start / 4069 ≤ 1055533) as Hq by slia. rewrite last_block by lia.
  intros ([] & st1 & _ & Hk)%runs_bind_inv. set (last := if _ <? _ then _ else _) in Hk.
  assert (0 ≤ last < end_) as Hlast by (subst last; destruct (Z.ltb_spec (start / 4069 * 4069 + 4068) (2 ^ 32)); slia).
  rewrite (proj2 (Z.leb_gt _ _)) in Hk by lia. rewrite u32_small in Hk by lia. by apply (IH (last + 1)) in Hk; [|lia].
Qed.

(** ** A concrete map *)

Definition no_map : fsm_rel := {| fsm_fork := None; smgr_fsm_nblocks := InvalidBlockNumber |}.
Definition demo_storage : fsm_storage :=
  {| fs_page := fsm_demo_env; fs_space := λ _, true; fs_log_image := false; fs_image_lsn := 0 |}.

Lemma no_map_page a : page_of no_map a = empty_fsm.
Proof. unfold page_of. by destruct (Z.to_nat (phys a)). Qed.

Lemma no_map_ok : fsm_wf no_map ∧ tree_ok no_map ∧ ∀ b, recorded no_map b = 0.
Proof.
  split_and!; [split|..]; try done.
  - by left.
  - intros. rewrite no_map_page. unfold avail. by rewrite empty_val.
  - intros a _. rewrite no_map_page. apply empty_ok.
  - intros b. unfold recorded, avail. by rewrite no_map_page, empty_val.
Qed.

(** Block 5 has 200 bytes (category 6), no other block has any. *)
Lemma one_block : ∃ st, fsm_wf st ∧ tree_ok st ∧ recorded st 5 = 6 ∧ ∀ b, 0 ≤ b ≤ MaxBlockNumber → b ≠ 5 → recorded st b = 0.
Proof.
  destruct no_map_ok as (Hwf & Hok & Hrec).
  destruct (record_slot_post demo_storage 5 6 0 no_map) as (r & st & _ & [W O C] & _); [done..|]. exists st. split_and!; [done|by apply O| |].
  - by rewrite C.
  - intros b Hb Hne. by rewrite C, decide_False.
Qed.

Lemma categories_safe_witness : fsm_space_avail_to_cat 200 = 6 ∧ 152 < fsm_space_cat_to_avail (fsm_space_avail_to_cat 200) ≤ 200.
Proof. split; [done|]. destruct (categories_safe 100 200 tt) as (_ & H & _); [done|done|exact H]. Defined.

Lemma fsm_address_roundtrip_witness :
  fsm_get_heap_blk (fsm_get_location 12345).1 (fsm_get_location 12345).2 = 12345 ∧
  fsm_get_parent (fsm_get_child g_fsm_root_address 3) = (g_fsm_root_address, 3).
Proof.
  destruct (fsm_address_roundtrip 12345 g_fsm_root_address (leaf 7) 3) as (H1 & H2 & _); [done|apply root_valid|by apply leaf_valid|done|done|].
  by split.
Defined.

Lemma get_page_sound_witness :
  ∃ st, recorded st 5 = 6 ∧ post (GetPageWithFreeSpace demo_storage 100) st (λ b _, b = 5 ∨ b = InvalidBlockNumber).
Proof.
  destruct one_block as (st & Hwf & Hok & H5 & Hrest). exists st. split; [done|].
  eapply post_mono; [apply (get_page_sound demo_storage 100 st)|].
  - done.
  - done.
  - intros b st' (_ & _ & _ & Hb). destruct (decide (b = InvalidBlockNumber)) as [|Hne]; [by right|]. left.
    destruct (Hb Hne) as [Hr Hge]. destruct (decide (b = 5)) as [|Hn5]; [done|]. rewrite Hrest in Hge by done. done.
Defined.

Lemma record_get_roundtrip_witness :
  post (RecordPageWithFreeSpace demo_storage 5 200 ≫= λ _, GetRecordedFreeSpace demo_storage 5) no_map (λ r _, r = 192).
Proof.
  eapply post_mono; [apply (record_get_roundtrip demo_storage 5 200 no_map)|].
  - apply no_map_ok.
  - done.
  - done.
  - done.
  - by intros r st' (_ & -> & _).
Defined.

Lemma record_and_get_sound_witness :
  ∃ st, recorded st 5 = 6 ∧ post (RecordAndGetPageWithFreeSpace demo_storage 7 40 100) st
    (λ b st', recorded st' 7 = 1 ∧ (b = 5 ∨ b = InvalidBlockNumber)).
Proof.
  destruct one_block as (st & Hwf & Hok & H5 & Hrest). exists st. split; [done|].
  eapply post_mono; [apply (record_and_get_sound demo_storage 7 40 100 st)|].
  - done.
  - done.
  - done.
  - done.
  - done.
  - intros b st' [[_ _ C] Hb]. split; [by rewrite C|]. destruct (decide (b = InvalidBlockNumber)) as [|Hne]; [by right|]. left.
    destruct (Hb Hne) as (Hr & Hge & H7). destruct (decide (b = 7)) as [E|Hn7]; [by apply H7 in E|].
    destruct (decide (b = 5)) as [|Hn5]; [done|]. rewrite C, decide_False, Hrest in Hge by done. done.
Defined.

Lemma vacuum_then_search_witness :
  ∃ st, recorded st 5 = 6 ∧
    post (FreeSpaceMapVacuum demo_storage ≫= λ _, GetPageWithFreeSpace demo_storage 100) st (λ b _, b ≠ InvalidBlockNumber).
Proof.
  destruct one_block as (st & Hwf & Hok & H5 & _). exists st. split; [done|].
  eapply post_mono; [apply (vacuum_then_search demo_storage 100 st)|].
  - done.
  - done.
  - done.
  - intros b st' (_ & _ & c & Hc & Hiff) E. rewrite Hiff in E. specialize (E 5 ltac:(done)).
    destruct (needed_cat_runs 100 st ltac:(done)) as [Hr _]. destruct (runs_det _ _ _ _ _ _ Hc Hr) as [-> _].
    rewrite H5 in E. done.
Defined.

Lemma truncate_map_spec_witness :
  ∃ st, recorded st 5 = 6 ∧ post (FreeSpaceMapTruncateRel demo_storage 3) st (λ _ st', recorded st' 5 = 0).
Proof.
  destruct one_block as (st & Hwf & Hok & H5 & _). exists st. split; [done|].
  eapply post_mono; [apply (truncate_map_spec demo_storage 3 st)|].
  - done.
  - done.
  - done.
  - intros _ st' (_ & _ & Hrec). by rewrite Hrec.
Defined.

Lemma update_map_terminates_witness :
  ∃ st, recorded st 5 = 6 ∧ post (UpdateFreeSpaceMap 10 demo_storage 5 9000 300 true) st (λ _ st', recorded st' 5 = 6).
Proof.
  destruct one_block as (st & Hwf & Hok & H5 & _). exists st. split; [done|].
  eapply post_mono; [apply (update_map_terminates demo_storage 5 9000 300 true st 10)|].
  - done.
  - done.
  - done.
  - done.
  - done.
  - done.
  - done.
  - intros _ st' (_ & Hrec & _). by rewrite Hrec.
Defined.

Lemma update_map_never_ends_witness :
  ¬ ∃ fuel st', UpdateFreeSpaceMap fuel demo_storage (MaxBlockNumber - 1) MaxBlockNumber 300 true no_map = (Ok tt, st').
Proof.
  intros (fuel & st' & H). revert H. apply (update_map_never_ends demo_storage (MaxBlockNumber - 1) MaxBlockNumber 300 true); done.
Defined.
