(* ===== verification/Sinval.v ===== *)
(** * Shared cache invalidation

    [src/gausskernel/storage/ipc/sinvaladt.cpp]: backends tell each other through a
    circular buffer which catalogue entries have changed. Every backend reads all messages
    in order; one that falls too far behind is reset, and must then drop its caches.

    Modelled: all functions of the file (registering and leaving, inserting, reading,
    cleaning up), as they run alone; and a system of any number of readers and one writer
    at a time ([SInvalWriteLock]), in which the parts of [SIGetDataEntries] and
    [SIInsertDataEntries] interleave as their locks allow: [hasMessages] is tested, set and
    cleared without a lock, [maxMsgNum] is read between. A clean-up excludes readers
    ([SInvalReadLock]). A writer fills buffer entries that no reader looks at, so writing
    them and advancing [maxMsgNum] is one step, and so is what a reader does after it has
    fetched [maxMsgNum]. Memory is sequentially consistent.

    Auxiliary: the history of all messages ever sent, and how often the counters were
    reduced. *)

From S2P Require Import Prelude.

Definition MAXNUMMESSAGES : Z := 4096.
Definition MSGNUMWRAPAROUND : Z := MAXNUMMESSAGES * 262144.
Definition CLEANUP_MIN : Z := MAXNUMMESSAGES / 2.
Definition CLEANUP_QUANTUM : Z := MAXNUMMESSAGES / 16.
Definition SIG_THRESHOLD : Z := MAXNUMMESSAGES / 2.
Definition WRITE_QUANTUM : Z := 64.

(** [proc] is a pointer, 0 for [NULL]. *)
Record ProcState := {
  procPid : Z;
  proc : Z;
  nextMsgNum : Z;
  resetState : bool;
  signaled : bool;
  hasMessages : bool;
  sendOnly : bool;
  nextLXID : Z;
}.

Definition with_next_msg (n : Z) (p : ProcState) : ProcState := {| procPid := procPid p; proc := proc p; nextMsgNum := n;
  resetState := resetState p; signaled := signaled p; hasMessages := hasMessages p; sendOnly := sendOnly p; nextLXID := nextLXID p |}.
Definition with_reset (r : bool) (p : ProcState) : ProcState := {| procPid := procPid p; proc := proc p; nextMsgNum := nextMsgNum p;
  resetState := r; signaled := signaled p; hasMessages := hasMessages p; sendOnly := sendOnly p; nextLXID := nextLXID p |}.
Definition with_signaled (s : bool) (p : ProcState) : ProcState := {| procPid := procPid p; proc := proc p; nextMsgNum := nextMsgNum p;
  resetState := resetState p; signaled := s; hasMessages := hasMessages p; sendOnly := sendOnly p; nextLXID := nextLXID p |}.
Definition with_has (h : bool) (p : ProcState) : ProcState := {| procPid := procPid p; proc := proc p; nextMsgNum := nextMsgNum p;
  resetState := resetState p; signaled := signaled p; hasMessages := h; sendOnly := sendOnly p; nextLXID := nextLXID p |}.

(** The state of an entry nobody has used. *)
Definition no_proc : ProcState := {| procPid := 0; proc := 0; nextMsgNum := 0; resetState := false; signaled := false;
  hasMessages := false; sendOnly := false; nextLXID := 0 |}.

Section Sinval.
Context {msg : Type} `{!Inhabited msg}.

Record SharedInvalidationMessageEx := { si_msg : msg; si_lsn : Z }.

Record SISeg := {
  minMsgNum : Z;
  maxMsgNum : Z;
  nextThreshold : Z;
  lastBackend : Z;
  lastreserveBackend : Z;
  maxBackends : Z;
  maxreserveBackends : Z;
  buffer : list SharedInvalidationMessageEx;
  procState : list ProcState;
}.

Definition no_msg : SharedInvalidationMessageEx := {| si_msg := inhabitant; si_lsn := 0 |}.

Definition with_counters (mn mx th : Z) (s : SISeg) : SISeg := {|
  minMsgNum := mn; maxMsgNum := mx; nextThreshold := th; lastBackend := lastBackend s; lastreserveBackend := lastreserveBackend s;
  maxBackends := maxBackends s; maxreserveBackends := maxreserveBackends s; buffer := buffer s; procState := procState s |}.
Definition with_last (l lr : Z) (s : SISeg) : SISeg := {|
  minMsgNum := minMsgNum s; maxMsgNum := maxMsgNum s; nextThreshold := nextThreshold s; lastBackend := l; lastreserveBackend := lr;
  maxBackends := maxBackends s; maxreserveBackends := maxreserveBackends s; buffer := buffer s; procState := procState s |}.
Definition with_buffer (b : list SharedInvalidationMessageEx) (mx : Z) (s : SISeg) : SISeg := {|
  minMsgNum := minMsgNum s; maxMsgNum := mx; nextThreshold := nextThreshold s; lastBackend := lastBackend s;
  lastreserveBackend := lastreserveBackend s; maxBackends := maxBackends s; maxreserveBackends := maxreserveBackends s;
  buffer := b; procState := procState s |}.
Definition with_procs (ps : list ProcState) (s : SISeg) : SISeg := {|
  minMsgNum := minMsgNum s; maxMsgNum := maxMsgNum s; nextThreshold := nextThreshold s; lastBackend := lastBackend s;
  lastreserveBackend := lastreserveBackend s; maxBackends := maxBackends s; maxreserveBackends := maxreserveBackends s;
  buffer := buffer s; procState := ps |}.

Definition state_of (s : SISeg) (i : Z) : ProcState := aget no_proc (procState s) i.
Definition set_state (i : Z) (p : ProcState) (s : SISeg) : SISeg := with_procs (aset (procState s) i p) s.

(** With a thread pool, [MAX_SESSION_SLOT_COUNT] and [GLOBAL_RESERVE_SESSION_NUM]; without,
    [MaxBackends] for both. *)
Definition CreateSharedInvalidationState (maxb maxres : Z) : SISeg := {|
  minMsgNum := 0; maxMsgNum := 0; nextThreshold := CLEANUP_MIN; lastBackend := 0; lastreserveBackend := 0;
  maxBackends := maxb; maxreserveBackends := maxres;
  buffer := replicate (Z.to_nat MAXNUMMESSAGES) no_msg;
  procState := replicate (Z.to_nat maxb) no_proc |}.

(** ** Registering *)

(** Mark myself active, with all extant messages already read. *)
Definition activate (i pid pr : Z) (only : bool) (s : SISeg) : SISeg :=
  set_state i {| procPid := pid; proc := pr; nextMsgNum := maxMsgNum s; resetState := false; signaled := false;
                 hasMessages := false; sendOnly := only; nextLXID := nextLXID (state_of s i) |} s.

Definition free_entry (s : SISeg) : option Z :=
  snd <$> list_find (λ i, procPid (state_of s i) = 0) (seqZ 0 (lastreserveBackend s)).

(** The backend id and the next local transaction id. *)
Definition SharedInvalReserveBackendInit (pid pr : Z) (only : bool) : M SISeg (Z * Z) :=
  free ← gets free_entry;
  last ← gets lastreserveBackend;
  maxres ← gets maxreserveBackends;
  index ← (match free with
           | Some i => mret i
           | None =>
               if last <? maxres then modify (λ s, with_last (lastBackend s) (last + 1) s) ≫= λ _, mret last
               else raise FATAL
           end);
  modify (λ s, if lastBackend s <? lastreserveBackend s then with_last (lastreserveBackend s) (lastreserveBackend s) s else s) ≫= λ _,
  lxid ← gets (λ s, nextLXID (state_of s index));
  modify (activate index pid pr only) ≫= λ _,
  mret (index + 1, lxid).

Definition SharedInvalWorkSessionInit (index pid pr : Z) (only : bool) : M SISeg Z :=
  s ← gets id;
  if (index <? maxreserveBackends s) || (maxBackends s <=? index) then raise FATAL
  else if negb (procPid (state_of s index) =? 0) then raise FATAL
  else
    (if lastBackend s <? index + 1 then modify (λ s, with_last (index + 1) (lastreserveBackend s) s) else skip) ≫= λ _,
    modify (activate index pid pr only) ≫= λ _,
    mret (nextLXID (state_of s index)).

(** The backend id, unless a pool worker attaches a session, and the next local transaction id. *)
Definition SharedInvalBackendInit (pool worksession : bool) (index pid pr : Z) (only : bool) : M SISeg (option Z * Z) :=
  if pool && worksession then lxid ← SharedInvalWorkSessionInit index pid pr only; mret (None, lxid)
  else b ← SharedInvalReserveBackendInit pid pr only; mret (Some b.1, b.2).

(** [for (i = last; i > 0; i--) if (procState[i - 1].procPid != 0) break;] *)
Fixpoint last_active (s : SISeg) (i : nat) : Z :=
  match i with
  | O => 0
  | S i' => if procPid (state_of s (Z.of_nat i')) =? 0 then last_active s i' else Z.of_nat i
  end.

Definition deactivate (i lxid : Z) (s : SISeg) : SISeg :=
  let p := state_of s i in
  set_state i {| procPid := 0; proc := 0; nextMsgNum := 0; resetState := false; signaled := false;
                 hasMessages := hasMessages p; sendOnly := sendOnly p; nextLXID := lxid |} s.

Definition CleanupWorkSessionInvalidation (index lxid : Z) : M SISeg unit :=
  modify (deactivate index lxid) ≫= λ _,
  modify (λ s, with_last (last_active s (Z.to_nat (lastBackend s))) (lastreserveBackend s) s).

(** [session]: the index of a session still attached to a pool worker. *)
Definition CleanupInvalidationState (session : option Z) (MyBackendId lxid : Z) : M SISeg unit :=
  (if session is Some index then CleanupWorkSessionInvalidation index lxid else skip) ≫= λ _,
  modify (deactivate (MyBackendId - 1) lxid) ≫= λ _,
  modify (λ s, with_last (last_active s (Z.to_nat (lastBackend s))) (lastreserveBackend s) s) ≫= λ _,
  modify (λ s, with_last (lastBackend s) (last_active s (Z.to_nat (lastreserveBackend s))) s).

Definition BackendIdGetProc (backendID : Z) : M SISeg Z :=
  gets (λ s, if (0 <? backendID) && (backendID <=? lastreserveBackend s) then proc (state_of s (backendID - 1)) else 0).

(** ** Cleaning up *)

Record cleanup_acc := { ca_procs : list ProcState; ca_min : Z; ca_minsig : Z; ca_needSig : option Z }.

(** One entry of the first loop of [SICleanupQueue]. *)
Definition cleanup_one (lowbound maxres i : Z) (acc : cleanup_acc) : cleanup_acc :=
  let stateP := aget no_proc (ca_procs acc) i in
  let n := nextMsgNum stateP in
  if (procPid stateP =? 0) || resetState stateP || sendOnly stateP then acc
  else if n <? lowbound then
    {| ca_procs := aset (ca_procs acc) i (with_reset true stateP); ca_min := ca_min acc;
       ca_minsig := ca_minsig acc; ca_needSig := ca_needSig acc |}
  else
    let furthest := (i <? maxres) && (n <? ca_minsig acc) && negb (signaled stateP) in
    {| ca_procs := ca_procs acc; ca_min := Z.min n (ca_min acc);
       ca_minsig := if furthest then n else ca_minsig acc; ca_needSig := if furthest then Some i else ca_needSig acc |}.

Definition cleanup_scan (s : SISeg) (lowbound : Z) : cleanup_acc :=
  foldl (λ acc i, cleanup_one lowbound (maxreserveBackends s) i acc)
    {| ca_procs := procState s; ca_min := maxMsgNum s; ca_minsig := maxMsgNum s - SIG_THRESHOLD; ca_needSig := None |}
    (seqZ 0 (lastBackend s)).

(** The counters of the active entries below [last], reduced. *)
Definition reduce_procs (last : Z) (ps : list ProcState) : list ProcState :=
  imap (λ i p, if (Z.of_nat i <? last) && negb (procPid p =? 0) then with_next_msg (i32 (nextMsgNum p - MSGNUMWRAPAROUND)) p else p) ps.

Definition reduce_counters (s : SISeg) : SISeg :=
  if MSGNUMWRAPAROUND <=? minMsgNum s then
    with_procs (reduce_procs (lastBackend s) (procState s))
      (with_counters (minMsgNum s - MSGNUMWRAPAROUND) (maxMsgNum s - MSGNUMWRAPAROUND) (nextThreshold s) s)
  else s.

Definition set_threshold (s : SISeg) : SISeg :=
  let numMsgs := maxMsgNum s - minMsgNum s in
  with_counters (minMsgNum s) (maxMsgNum s)
    (if numMsgs <? CLEANUP_MIN then CLEANUP_MIN else (numMsgs / CLEANUP_QUANTUM + 1) * CLEANUP_QUANTUM) s.

(** The entry of the backend that is sent a catch-up signal, if any. *)
Definition SICleanupQueue (minFree : Z) : M SISeg (option Z) :=
  s ← gets id;
  let acc := cleanup_scan s (maxMsgNum s - MAXNUMMESSAGES + minFree) in
  modify (λ s, with_counters (ca_min acc) (maxMsgNum s) (nextThreshold s) (with_procs (ca_procs acc) s)) ≫= λ _,
  modify reduce_counters ≫= λ _,
  modify set_threshold ≫= λ _,
  match ca_needSig acc with
  | Some i => modify (λ s, set_state i (with_signaled true (state_of s i)) s) ≫= λ _, mret (Some i)
  | None => mret None
  end.

(** ** Inserting *)

(** Whether the buffer must be cleaned before [nthistime] more messages. *)
Definition must_clean (s : SISeg) (nthistime : Z) : bool :=
  let numMsgs := maxMsgNum s - minMsgNum s in
  (MAXNUMMESSAGES <? numMsgs + nthistime) || (nextThreshold s <=? numMsgs).

(** The [for (;;)] loop. *)
Fixpoint make_room (fuel : nat) (nthistime : Z) : M SISeg unit :=
  match fuel with
  | O => nofuel
  | S fuel =>
      full ← gets (λ s, must_clean s nthistime);
      if full : bool then SICleanupQueue nthistime ≫= λ _, make_room fuel nthistime else skip
  end.

(** The messages into their slots of the circular buffer, from number [max] on. *)
Fixpoint fill (b : list SharedInvalidationMessageEx) (max : Z) (data : list msg) (lsn : Z) : list SharedInvalidationMessageEx :=
  match data with
  | [] => b
  | m :: data => fill (aset b (max mod MAXNUMMESSAGES) {| si_msg := m; si_lsn := lsn |}) (max + 1) data lsn
  end.

(** Fill in the messages and make them visible. *)
Definition publish (data : list msg) (lsn : Z) (s : SISeg) : SISeg :=
  with_buffer (fill (buffer s) (maxMsgNum s) data lsn) (maxMsgNum s + Z.of_nat (length data)) s.

(** Tell one backend. *)
Definition kick (i : Z) (s : SISeg) : SISeg :=
  let stateP := state_of s i in
  if negb (procPid stateP =? 0) then set_state i (with_has true stateP) s else s.

Definition kick_all (s : SISeg) : SISeg := foldl (λ s i, kick i s) s (seqZ 0 (lastBackend s)).

(** Groups of at most [WRITE_QUANTUM] messages; [fuel] bounds the number of groups and of
    the clean-ups before each. *)
Fixpoint SIInsertDataEntries (fuel : nat) (data : list msg) (lsn : Z) : M SISeg unit :=
  match fuel with
  | O => nofuel
  | S fuel =>
      match data with
      | [] => skip
      | _ =>
          let now := take (Z.to_nat WRITE_QUANTUM) data in
          make_room 2 (Z.of_nat (length now)) ≫= λ _,
          modify (publish now lsn) ≫= λ _,
          modify kick_all ≫= λ _,
          SIInsertDataEntries fuel (drop (Z.to_nat WRITE_QUANTUM) data) lsn
      end
  end.

(** ** Reading *)

(** The copying loop: at most [fuel] messages up to number [max]; a standby reading at an
    LSN stops before messages of later records. *)
Fixpoint copy_msgs (fuel : nat) (s : SISeg) (next max read_lsn : Z) : list msg :=
  match fuel with
  | O => []
  | S fuel =>
      let e := aget no_msg (buffer s) (next mod MAXNUMMESSAGES) in
      if (next <? max) && negb (negb (read_lsn =? 0) && negb (si_lsn e =? 0) && (read_lsn <? si_lsn e))
      then si_msg e :: copy_msgs fuel s (next + 1) max read_lsn
      else []
  end.

(** What [SIGetDataEntries] does once it has fetched [max]: [None] for a reset. *)
Definition read_upto (i datasize max read_lsn : Z) (s : SISeg) : option (list msg) * SISeg :=
  let stateP := state_of s i in
  if resetState stateP then
    (None, set_state i (with_signaled false (with_reset false (with_next_msg max stateP))) s)
  else
    let data := copy_msgs (Z.to_nat datasize) s (nextMsgNum stateP) max read_lsn in
    let stateP := with_next_msg (nextMsgNum stateP + Z.of_nat (length data)) stateP in
    (Some data, set_state i (if max <=? nextMsgNum stateP then with_signaled false stateP else with_has true stateP) s).

Definition clear_flag (i : Z) (s : SISeg) : SISeg := set_state i (with_has false (state_of s i)) s.

Definition run_read (i datasize max read_lsn : Z) : M SISeg (option (list msg)) := λ s,
  let '(r, s') := read_upto i datasize max read_lsn s in (Ok r, s').

(** [Some data], or [None] for -1. *)
Definition SIGetDataEntries (i datasize read_lsn : Z) : M SISeg (option (list msg)) :=
  has ← gets (λ s, hasMessages (state_of s i));
  if negb has then mret (Some [])
  else
    modify (clear_flag i) ≫= λ _,
    max ← gets maxMsgNum;
    run_read i datasize max read_lsn.
End Sinval.

Arguments SISeg : clear implicits.
Arguments SharedInvalidationMessageEx : clear implicits.

Definition InvalidLocalTransactionId : Z := 0.

(** The id, and the counter after it; the second round is never followed by a third. *)
Fixpoint next_lxid (fuel : nat) (counter : Z) : res (Z * Z) :=
  match fuel with
  | O => NoFuel
  | S fuel =>
      let result := counter in
      let counter := u32 (counter + 1) in
      if result =? InvalidLocalTransactionId then next_lxid fuel counter else Ok (result, counter)
  end.

Definition GetNextLocalTransactionId (counter : Z) : res (Z * Z) := next_lxid 2 counter.

(** ** The system *)

(** Where a backend is in [SIGetDataEntries]. *)
Inductive reader_pc : Type :=
| Idle
| Cleared
| Fetched (max : Z).

Section System.
Context {msg : Type} `{!Inhabited msg}.
Implicit Types s : SISeg msg.

(** Of a backend: its program counter, where in the history it began (or was reset), and
    what it has been given since. *)
Record reader := { rd_pc : reader_pc; rd_start : Z; rd_seen : list msg }.
Definition no_reader : reader := {| rd_pc := Idle; rd_start := 0; rd_seen := [] |}.

(** [writer]: the writer has published and tells the backends from this one on. *)
Record sys := {
  seg : SISeg msg;
  hist : list msg;
  base : Z;
  writer : option Z;
  readers : list reader;
}.

Definition reader_of (x : sys) (i : Z) : reader := aget no_reader (readers x) i.
Definition set_reader (i : Z) (r : reader) (x : sys) : list reader := aset (readers x) i r.
Definition with_pc (c : reader_pc) (r : reader) : reader := {| rd_pc := c; rd_start := rd_start r; rd_seen := rd_seen r |}.
Definition all_idle (x : sys) : Prop := Forall (λ r, rd_pc r = Idle) (readers x).

(** The reader after [read_upto] has given it [r]. *)
Definition given (x : sys) (m : Z) (r : option (list msg)) (rd : reader) : reader :=
  match r with
  | Some data => {| rd_pc := Idle; rd_start := rd_start rd; rd_seen := rd_seen rd ++ data |}
  | None => {| rd_pc := Idle; rd_start := base x + m; rd_seen := [] |}
  end.

Inductive step : sys → sys → Prop :=
| step_attach x pid pr only i lxid s' :
    writer x = None → pid ≠ 0 → runs (SharedInvalReserveBackendInit pid pr only) (seg x) (i + 1, lxid) s' →
    step x {| seg := s'; hist := hist x; base := base x; writer := None;
              readers := set_reader i {| rd_pc := Idle; rd_start := Z.of_nat (length (hist x)); rd_seen := [] |} x |}
| step_session x pid pr only i lxid s' :
    writer x = None → pid ≠ 0 → runs (SharedInvalWorkSessionInit i pid pr only) (seg x) lxid s' →
    step x {| seg := s'; hist := hist x; base := base x; writer := None;
              readers := set_reader i {| rd_pc := Idle; rd_start := Z.of_nat (length (hist x)); rd_seen := [] |} x |}
| step_leave x i lxid s' :
    writer x = None → rd_pc (reader_of x i) = Idle → 0 ≤ i → runs (CleanupInvalidationState None (i + 1) lxid) (seg x) tt s' →
    step x {| seg := s'; hist := hist x; base := base x; writer := None; readers := readers x |}
| step_leave_session x i lxid s' :
    writer x = None → rd_pc (reader_of x i) = Idle → 0 ≤ i → runs (CleanupWorkSessionInvalidation i lxid) (seg x) tt s' →
    step x {| seg := s'; hist := hist x; base := base x; writer := None; readers := readers x |}
| step_clean x minFree r s' :
    writer x = None → all_idle x → 0 ≤ minFree ≤ WRITE_QUANTUM → runs (SICleanupQueue minFree) (seg x) r s' →
    step x {| seg := s'; hist := hist x; base := base x + (maxMsgNum (seg x) - maxMsgNum s'); writer := None; readers := readers x |}
| step_publish x data lsn :
    writer x = None → Z.of_nat (length data) ≤ WRITE_QUANTUM → must_clean (seg x) (Z.of_nat (length data)) = false →
    step x {| seg := publish data lsn (seg x); hist := hist x ++ data; base := base x; writer := Some 0; readers := readers x |}
| step_kick x i :
    writer x = Some i → i < lastBackend (seg x) →
    step x {| seg := kick i (seg x); hist := hist x; base := base x; writer := Some (i + 1); readers := readers x |}
| step_written x i :
    writer x = Some i → lastBackend (seg x) ≤ i →
    step x {| seg := seg x; hist := hist x; base := base x; writer := None; readers := readers x |}
| step_clear x i :
    0 ≤ i → procPid (state_of (seg x) i) ≠ 0 → sendOnly (state_of (seg x) i) = false → hasMessages (state_of (seg x) i) = true →
    rd_pc (reader_of x i) = Idle →
    step x {| seg := clear_flag i (seg x); hist := hist x; base := base x; writer := writer x;
              readers := set_reader i (with_pc Cleared (reader_of x i)) x |}
| step_fetch x i :
    0 ≤ i → rd_pc (reader_of x i) = Cleared →
    step x {| seg := seg x; hist := hist x; base := base x; writer := writer x;
              readers := set_reader i (with_pc (Fetched (maxMsgNum (seg x))) (reader_of x i)) x |}
| step_read x i m datasize read_lsn r s' :
    0 ≤ i → rd_pc (reader_of x i) = Fetched m → read_upto i datasize m read_lsn (seg x) = (r, s') →
    step x {| seg := s'; hist := hist x; base := base x; writer := writer x;
              readers := set_reader i (given x m r (reader_of x i)) x |}.

(** After [CreateSharedInvalidationState]. *)
Definition initial (maxb maxres : Z) : sys := {|
  seg := CreateSharedInvalidationState maxb maxres; hist := []; base := 0; writer := None;
  readers := replicate (Z.to_nat maxb) no_reader |}.

(** ** The invariant *)

(** The messages from number [a] up to [b] of a history. *)
Definition slice (h : list msg) (a b : Z) : list msg := take (Z.to_nat (b - a)) (drop (Z.to_nat a) h).

(** The backend has been told, or is going to be. *)
Definition told (w : option Z) (i : Z) (p : ProcState) : Prop := hasMessages p = true ∨ ∃ k, w = Some k ∧ k ≤ i.

Definition receives (p : ProcState) : bool := negb (procPid p =? 0) && negb (sendOnly p).

Record backend_ok (mn mx bs : Z) (h : list msg) (w : option Z) (i : Z) (p : ProcState) (r : reader) : Prop := {
  bk_position : resetState p = false → mn ≤ nextMsgNum p ≤ mx ∧ 0 ≤ rd_start r ≤ bs + nextMsgNum p ∧
    rd_seen r = slice h (rd_start r) (bs + nextMsgNum p);
  bk_told : match rd_pc r with
    | Idle => resetState p = true ∨ nextMsgNum p < mx → told w i p
    | Cleared => True
    | Fetched m => mn ≤ m ≤ mx ∧ (resetState p = false → nextMsgNum p ≤ m) ∧ (m < mx → told w i p)
    end;
}.

Record seg_ok (bs : Z) (h : list msg) (s : SISeg msg) : Prop := {
  so_min : 0 ≤ minMsgNum s < MSGNUMWRAPAROUND;
  so_max : minMsgNum s ≤ maxMsgNum s ≤ minMsgNum s + MAXNUMMESSAGES;
  so_hist : Z.of_nat (length h) = bs + maxMsgNum s;
  so_base : 0 ≤ bs;
  so_buffer : Z.of_nat (length (buffer s)) = MAXNUMMESSAGES;
  so_msgs : ∀ k, minMsgNum s ≤ k < maxMsgNum s → Some (si_msg (aget no_msg (buffer s) (k mod MAXNUMMESSAGES))) = h !! Z.to_nat (bs + k);
  so_procs : Z.of_nat (length (procState s)) = maxBackends s;
  so_reserve : 0 ≤ lastreserveBackend s ≤ maxreserveBackends s ∧ maxreserveBackends s ≤ maxBackends s;
  so_last : 0 ≤ lastBackend s ≤ maxBackends s;
  so_active : ∀ i, 0 ≤ i → procPid (state_of s i) ≠ 0 → i < lastBackend s ∧ (i < maxreserveBackends s → i < lastreserveBackend s);
}.

Record sys_inv (x : sys) : Prop := {
  iv_seg : seg_ok (base x) (hist x) (seg x);
  iv_readers : length (readers x) = length (procState (seg x));
  iv_idle : ∀ i, 0 ≤ i → rd_pc (reader_of x i) ≠ Idle → receives (state_of (seg x) i) = true;
  iv_backend : ∀ i, 0 ≤ i → receives (state_of (seg x) i) = true →
    backend_ok (minMsgNum (seg x)) (maxMsgNum (seg x)) (base x) (hist x) (writer x) i (state_of (seg x) i) (reader_of x i);
}.

Lemma slice_app h d a b : 0 ≤ a → b ≤ Z.of_nat (length h) → slice (h ++ d) a b = slice h a b.
Proof.
  intros Ha Hb. unfold slice. destruct (decide (b ≤ a)).
  - by replace (Z.to_nat (b - a)) with 0%nat by lia.
  - rewrite drop_app_le by lia. rewrite take_app_le; [done|]. rewrite length_drop. lia.
Qed.

Lemma slice_slice h a b c : 0 ≤ a ≤ b → b ≤ c → slice h a b ++ slice h b c = slice h a c.
Proof.
  intros Ha Hb. unfold slice. replace (Z.to_nat (c - a)) with (Z.to_nat (b - a) + Z.to_nat (c - b))%nat by lia.
  rewrite <- take_take_drop. f_equal. rewrite drop_drop. f_equal. f_equal. lia.
Qed.

Lemma slice_nil h a : slice h a a = [].
Proof. unfold slice. by rewrite Z.sub_diag. Qed.

Lemma slice_cons h a b x : 0 ≤ a < b → h !! Z.to_nat a = Some x → slice h a b = x :: slice h (a + 1) b.
Proof.
  intros Ha Hx. unfold slice. rewrite (drop_S h x (Z.to_nat a) Hx).
  replace (Z.to_nat (b - a)) with (S (Z.to_nat (b - (a + 1)))) by lia. cbn [take]. by replace (Z.to_nat (a + 1)) with (S (Z.to_nat a)) by lia.
Qed.

Lemma active_range s i : 0 ≤ i → procPid (state_of s i) ≠ 0 → i < Z.of_nat (length (procState s)).
Proof.
  intros Hi Hp. destruct (decide (i < Z.of_nat (length (procState s)))) as [|Hge]; [done|]. contradict Hp.
  unfold state_of, aget. by rewrite lookup_ge_None_2 by lia.
Qed.

Lemma receives_active p : receives p = true → procPid p ≠ 0 ∧ sendOnly p = false.
Proof. unfold receives. intros H. bool_to_prop. done. Qed.

Lemma state_set s i p j :
  0 ≤ i < Z.of_nat (length (procState s)) → 0 ≤ j → state_of (set_state i p s) j = if decide (j = i) then p else state_of s j.
Proof.
  intros Hi Hj. unfold state_of, set_state. cbn. case_decide as E; [subst; by apply aget_aset_eq|by apply aget_aset_ne; [lia|lia|]].
Qed.

Lemma reader_set x i r j sg h b w :
  0 ≤ i < Z.of_nat (length (readers x)) → 0 ≤ j →
  reader_of {| seg := sg; hist := h; base := b; writer := w; readers := set_reader i r x |} j = if decide (j = i) then r else reader_of x j.
Proof.
  intros Hi Hj. unfold reader_of, set_reader. cbn. case_decide as E; [subst; by apply aget_aset_eq|by apply aget_aset_ne; [lia|lia|]].
Qed.

Lemma seg_ok_set bs h s i p :
  seg_ok bs h s → 0 ≤ i < Z.of_nat (length (procState s)) → procPid p = procPid (state_of s i) → seg_ok bs h (set_state i p s).
Proof.
  intros [H1 H2 H3 H4 H5 H6 H7 H8 H9 H10] Hi Hp. split; try done.
  - cbn. by rewrite length_aset.
  - intros j Hj. rewrite state_set by done. case_decide as E; [subst; rewrite Hp|]; by apply H10.
Qed.

(** A reader changes only its own entry. *)
Lemma inv_local x i p rd :
  sys_inv x → 0 ≤ i → receives (state_of (seg x) i) = true → receives p = true → procPid p = procPid (state_of (seg x) i) →
  backend_ok (minMsgNum (seg x)) (maxMsgNum (seg x)) (base x) (hist x) (writer x) i p rd →
  sys_inv {| seg := set_state i p (seg x); hist := hist x; base := base x; writer := writer x; readers := set_reader i rd x |}.
Proof.
  intros [H1 H2 H3 H4] Hi Hrec Hp Hpid Hbk. destruct (receives_active _ Hrec) as [Hact _].
  pose proof (active_range _ _ Hi Hact) as Hrange. split; cbn [seg hist base writer].
  - by apply seg_ok_set.
  - unfold set_reader. cbn. by rewrite !length_aset.
  - intros j Hj. rewrite reader_set, state_set by lia. case_decide; [done|by apply H3].
  - intros j Hj. rewrite reader_set, state_set by lia. case_decide; [by subst|by apply H4].
Qed.

Lemma same_state_set s i : set_state i (state_of s i) s = s.
Proof.
  unfold set_state, state_of, aset, aget. destruct s as [? ? ? ? ? ? ? ? ps]. cbn. unfold with_procs. cbn. f_equal.
  destruct (ps !! Z.to_nat i) eqn:E; cbn; [by apply list_insert_id|]. apply list_insert_ge. by apply lookup_ge_None.
Qed.

Lemma clear_preserves x i :
  sys_inv x → 0 ≤ i → receives (state_of (seg x) i) = true → rd_pc (reader_of x i) = Idle →
  sys_inv {| seg := clear_flag i (seg x); hist := hist x; base := base x; writer := writer x;
             readers := set_reader i (with_pc Cleared (reader_of x i)) x |}.
Proof.
  intros H Hi Hrec Hpc. apply inv_local; try done. pose proof (iv_backend _ H i Hi Hrec) as [Hp _]. split; [exact Hp|done].
Qed.

Lemma fetch_preserves x i :
  sys_inv x → 0 ≤ i → rd_pc (reader_of x i) = Cleared →
  sys_inv {| seg := seg x; hist := hist x; base := base x; writer := writer x;
             readers := set_reader i (with_pc (Fetched (maxMsgNum (seg x))) (reader_of x i)) x |}.
Proof.
  intros H Hi Hpc. assert (receives (state_of (seg x) i) = true) as Hrec by (apply (iv_idle _ H); [done|by rewrite Hpc]).
  rewrite <- (same_state_set (seg x) i) at 1. apply inv_local; try done.
  pose proof (iv_backend _ H i Hi Hrec) as [Hp _]. pose proof (so_max _ _ _ (iv_seg _ H)). split; [exact Hp|]. cbn. split_and!; try lia.
  intros Hr. destruct (Hp Hr). lia.
Qed.

(** What is copied is the next part of the history. *)
Lemma copy_msgs_slice bs h s n : ∀ next max read_lsn,
  seg_ok bs h s → minMsgNum s ≤ next ≤ max → max ≤ maxMsgNum s →
  let data := copy_msgs n s next max read_lsn in
  next + Z.of_nat (length data) ≤ max ∧ (length data ≤ n)%nat ∧ data = slice h (bs + next) (bs + next + Z.of_nat (length data)) ∧
  (read_lsn = 0 → length data = Nat.min n (Z.to_nat (max - next))).
Proof.
  induction n as [|n IH]; intros next max lsn H Hn Hm; cbv zeta; cbn [copy_msgs].
  { cbn [length]. rewrite !Z.add_0_r, slice_nil. split_and!; try done; lia. }
  destruct (Z.ltb_spec next max) as [Hlt|Hge]; cbn [andb].
  2:{ cbn [length]. rewrite !Z.add_0_r, slice_nil. split_and!; try done; lia. }
  pose proof (so_msgs _ _ _ H next ltac:(lia)) as Hmsg. pose proof (so_base _ _ _ H). pose proof (so_min _ _ _ H).
  set (e := aget no_msg (buffer s) (next mod MAXNUMMESSAGES)) in *.
  destruct (negb (lsn =? 0) && negb (si_lsn e =? 0) && (lsn <? si_lsn e)) eqn:Estop; cbn [negb].
  - cbn [length]. rewrite !Z.add_0_r, slice_nil. split_and!; try done; try lia.
  - specialize (IH (next + 1) max lsn H ltac:(lia) Hm). cbv zeta in IH. destruct IH as (L1 & L2 & L3 & L4).
    cbn [length]. split_and!; try lia.
    + rewrite (slice_cons h (bs + next) _ (si_msg e)) by (lia || done). f_equal. rewrite L3 at 1. f_equal; lia.
Qed.

Lemma read_preserves x i m datasize read_lsn r s' :
  sys_inv x → 0 ≤ i → rd_pc (reader_of x i) = Fetched m → read_upto i datasize m read_lsn (seg x) = (r, s') →
  sys_inv {| seg := s'; hist := hist x; base := base x; writer := writer x; readers := set_reader i (given x m r (reader_of x i)) x |}.
Proof.
  intros H Hi Hpc. assert (receives (state_of (seg x) i) = true) as Hrec by (apply (iv_idle _ H); [done|by rewrite Hpc]).
  pose proof (iv_backend _ H i Hi Hrec) as [Hp Ht]. rewrite Hpc in Ht. destruct Ht as (Hm & Hnm & Htold).
  pose proof (iv_seg _ H) as Hseg. pose proof (so_base _ _ _ Hseg). pose proof (so_min _ _ _ Hseg).
  unfold read_upto. destruct (resetState (state_of (seg x) i)) eqn:Er; intros [= <- <-]; apply inv_local; try done.
  - split; cbn.
    + intros _. split_and!; try lia. by rewrite slice_nil.
    + intros [?|Hlt]; [done|]. by apply Htold.
  - repeat case_bool; done.
  - repeat case_bool; done.
  - destruct (Hp eq_refl) as (Hpos & Hst & Hseen). specialize (Hnm eq_refl).
    destruct (copy_msgs_slice (base x) (hist x) (seg x) (Z.to_nat datasize) (nextMsgNum (state_of (seg x) i)) m read_lsn) as (L1 & L2 & L3 & _);
      [done|lia|lia|]. set (data := copy_msgs _ _ _ _ _) in *. split.
    + assert (nextMsgNum (state_of (seg x) i) + Z.of_nat (length data) ≤ maxMsgNum (seg x)) by lia.
      destruct (m <=? _); cbn; intros _; (split_and!; [lia|lia|lia|lia|]); rewrite Hseen; rewrite L3 at 1; rewrite slice_slice by lia; f_equal; lia.
    + cbn [given rd_pc]. cbn [with_next_msg nextMsgNum]. destruct (Z.leb_spec m (nextMsgNum (state_of (seg x) i) + Z.of_nat (length data))) as [Hle|Hgt]; cbn.
      * intros [?|Hlt]; [congruence|]. apply Htold. lia.
      * intros _. by left.
Qed.

Lemma length_fill (data : list msg) lsn : ∀ b max, length (fill b max data lsn) = length b.
Proof. induction data as [|m data IH]; intros b max; cbn; [done|]. by rewrite IH, length_aset. Qed.

Lemma fill_spec (data : list msg) lsn : ∀ b max k,
  Z.of_nat (length b) = MAXNUMMESSAGES → 0 ≤ max → 0 ≤ k → max + Z.of_nat (length data) - MAXNUMMESSAGES ≤ k < max + Z.of_nat (length data) →
  si_msg (aget no_msg (fill b max data lsn) (k mod MAXNUMMESSAGES)) =
  if k <? max then si_msg (aget no_msg b (k mod MAXNUMMESSAGES)) else default (si_msg no_msg) (data !! Z.to_nat (k - max)).
Proof.
  induction data as [|m data IH]; intros b max k Hb Hmax Hk0 Hk; cbn [fill length] in *; [by rewrite (proj2 (Z.ltb_lt _ _)) by lia|].
  rewrite IH by (rewrite ?length_aset; lia). unfold MAXNUMMESSAGES in *.
  pose proof (Z.mod_pos_bound k 4096). pose proof (Z.mod_pos_bound max 4096).
  destruct (Z.ltb_spec k (max + 1)), (Z.ltb_spec k max); try lia.
  - rewrite aget_aset_ne; [done|lia|lia|]. intros E. assert (k = max); [|lia]. Z.to_euclidean_division_equations. lia.
  - assert (k = max) as -> by lia. rewrite aget_aset_eq by lia. by rewrite Z.sub_diag.
  - by replace (Z.to_nat (k - max)) with (S (Z.to_nat (k - (max + 1)))) by lia.
Qed.

Lemma publish_seg_ok bs h s data lsn :
  seg_ok bs h s → must_clean s (Z.of_nat (length data)) = false → seg_ok bs (h ++ data) (publish data lsn s).
Proof.
  intros [H1 H2 H3 H4 H5 H6 H7 H8 H9 H10] Hc. unfold must_clean in Hc. bool_to_prop. split; cbn; try done; try lia.
  - rewrite length_app. lia.
  - by rewrite length_fill.
  - intros k Hk. rewrite fill_spec by lia. destruct (Z.ltb_spec k (maxMsgNum s)).
    + rewrite H6, lookup_app_l by lia. done.
    + rewrite lookup_app_r by lia. replace (Z.to_nat (bs + k) - length h)%nat with (Z.to_nat (k - maxMsgNum s)) by lia.
      destruct (data !! _) eqn:E; [done|]. apply lookup_ge_None in E. lia.
Qed.

Lemma publish_preserves x data lsn :
  sys_inv x → must_clean (seg x) (Z.of_nat (length data)) = false →
  sys_inv {| seg := publish data lsn (seg x); hist := hist x ++ data; base := base x; writer := Some 0; readers := readers x |}.
Proof.
  intros [H1 H2 H3 H4] Hc. pose proof (so_hist _ _ _ H1) as Hh. split; cbn [seg hist base writer]; [by apply publish_seg_ok|done|done|].
  intros i Hi Hrec. destruct (H4 i Hi Hrec) as [Hp Ht]. assert (∀ p, told (Some 0) i p) as Htold by (intros p; right; by exists 0).
  change (reader_of _ i) with (reader_of x i). change (state_of (publish data lsn (seg x)) i) with (state_of (seg x) i).
  cbn [publish with_buffer minMsgNum maxMsgNum]. split.
  - intros Hr. destruct (Hp Hr) as (? & ? & Hs). split_and!; try lia. by rewrite slice_app by lia.
  - destruct (rd_pc (reader_of x i)); [done|done|]. destruct Ht as (? & ? & _). split_and!; auto; lia.
Qed.

Definition kicked (p : ProcState) : ProcState := if procPid p =? 0 then p else with_has true p.

Lemma state_kick s i j : 0 ≤ i → 0 ≤ j → state_of (kick i s) j = if decide (j = i) then kicked (state_of s j) else state_of s j.
Proof.
  intros Hi Hj. unfold kick, kicked. destruct (Z.eqb_spec (procPid (state_of s i)) 0) as [E|E]; cbn [negb].
  - case_decide; [subst; by rewrite E|done].
  - pose proof (active_range s i Hi E). rewrite state_set by lia. case_decide; [|done]. subst. by rewrite (proj2 (Z.eqb_neq _ _)).
Qed.

Lemma kicked_same p : procPid (kicked p) = procPid p ∧ receives (kicked p) = receives p ∧ nextMsgNum (kicked p) = nextMsgNum p ∧
  resetState (kicked p) = resetState p ∧ (receives p = true → hasMessages (kicked p) = true).
Proof.
  unfold kicked, receives. destruct (Z.eqb_spec (procPid p) 0) as [E|E]; cbn; [rewrite E; done|]. by rewrite (proj2 (Z.eqb_neq _ _)).
Qed.

Lemma kick_seg_ok bs h s i : 0 ≤ i → seg_ok bs h s → seg_ok bs h (kick i s).
Proof.
  intros Hi H. unfold kick. destruct (Z.eqb_spec (procPid (state_of s i)) 0) as [E|E]; cbn [negb]; [done|].
  apply seg_ok_set; [done| |done]. pose proof (active_range s i Hi E). lia.
Qed.

Lemma kick_procs s i : length (procState (kick i s)) = length (procState s).
Proof. unfold kick. case_bool; [cbn; by rewrite length_aset|done]. Qed.

Lemma kick_counters s i : maxMsgNum (kick i s) = maxMsgNum s ∧ minMsgNum (kick i s) = minMsgNum s ∧ lastBackend (kick i s) = lastBackend s.
Proof. unfold kick. by case_bool. Qed.

Lemma kick_preserves x i :
  sys_inv x → 0 ≤ i → writer x = Some i →
  sys_inv {| seg := kick i (seg x); hist := hist x; base := base x; writer := Some (i + 1); readers := readers x |}.
Proof.
  intros [H1 H2 H3 H4] Hi Hw. destruct (kick_counters (seg x) i) as (Emax & Emin & _). split; cbn [seg hist base writer].
  - by apply kick_seg_ok.
  - cbn. by rewrite kick_procs.
  - intros j Hj Hpc. rewrite state_kick by done. case_decide; [rewrite (proj1 (proj2 (kicked_same _)))|]; by apply H3.
  - intros j Hj. rewrite Emax, Emin, state_kick by done. change (reader_of _ j) with (reader_of x j). rewrite Hw in H4.
    destruct (kicked_same (state_of (seg x) j)) as (_ & Er & En & Es & Eh). case_decide as E.
    + rewrite Er. intros Hr. destruct (H4 j Hj Hr) as [Hpos Ht]. split; rewrite En, Es; [done|].
      assert (∀ w, told w j (kicked (state_of (seg x) j))) as Htold by (intros w; left; auto). destruct (rd_pc _); [done|done|]. destruct Ht as (? & ? & _). auto.
    + intros Hr. destruct (H4 j Hj Hr) as [Hpos Ht]. split; [done|].
      assert (told (Some i) j (state_of (seg x) j) → told (Some (i + 1)) j (state_of (seg x) j)) as Htold.
      { intros [|(k & [= <-] & Hk)]; [by left|right]. exists (i + 1). split; [done|lia]. }
      destruct (rd_pc _); [auto|done|]. destruct Ht as (? & ? & ?). auto.
Qed.

Lemma written_preserves x i :
  sys_inv x → writer x = Some i → lastBackend (seg x) ≤ i →
  sys_inv {| seg := seg x; hist := hist x; base := base x; writer := None; readers := readers x |}.
Proof.
  intros [H1 H2 H3 H4] Hw Hl. split; try done. cbn [seg hist base writer]. intros j Hj Hr. rewrite Hw in H4.
  destruct (H4 j Hj Hr) as [Hpos Ht]. split; [done|].
  assert (told (Some i) j (state_of (seg x) j) → told None j (state_of (seg x) j)) as Htold.
  { intros [|(k & [= <-] & Hk)]; [by left|]. destruct (receives_active _ Hr) as [Ha _]. destruct (so_active _ _ _ H1 j Hj Ha). lia. }
  change (reader_of _ j) with (reader_of x j). destruct (rd_pc _); [auto|done|]. destruct Ht as (? & ? & ?). auto.
Qed.

(** *** Registering and leaving *)

Lemma seg_ok_last bs h s l lr :
  seg_ok bs h s → 0 ≤ l ≤ maxBackends s → 0 ≤ lr ≤ maxreserveBackends s →
  (∀ i, 0 ≤ i → procPid (state_of s i) ≠ 0 → i < l ∧ (i < maxreserveBackends s → i < lr)) → seg_ok bs h (with_last l lr s).
Proof. intros [H1 H2 H3 H4 H5 H6 H7 H8 H9 H10] Hl Hlr Ha. split; try done. cbn. lia. Qed.

Lemma activate_preserves x i pid pr only s1 :
  sys_inv x → seg_ok (base x) (hist x) s1 → procState s1 = procState (seg x) → minMsgNum s1 = minMsgNum (seg x) → maxMsgNum s1 = maxMsgNum (seg x) →
  0 ≤ i < Z.of_nat (length (procState s1)) → i < lastBackend s1 → (i < maxreserveBackends s1 → i < lastreserveBackend s1) →
  writer x = None →
  sys_inv {| seg := activate i pid pr only s1; hist := hist x; base := base x; writer := None;
             readers := set_reader i {| rd_pc := Idle; rd_start := Z.of_nat (length (hist x)); rd_seen := [] |} x |}.
Proof.
  intros [H1 H2 H3 H4] Hs1 Eps Emin Emax Hi Hl Hres Hw.
  assert (∀ j, state_of s1 j = state_of (seg x) j) as Est by (intros j; unfold state_of; by rewrite Eps).
  pose proof Hs1 as [A1 A2 A3 A4 A5 A6 A7 A8 A9 A10]. rewrite Hw in H4.
  assert (0 ≤ i < Z.of_nat (length (readers x))) as Hi' by (by rewrite H2, <- Eps).
  split; cbn [seg hist base writer].
  - split; try done.
    + cbn. by rewrite length_aset.
    + intros j Hj. unfold activate. rewrite state_set by done. case_decide; [by subst|]. by apply A10.
  - unfold set_reader, activate, set_state. cbn. rewrite !length_aset. congruence.
  - intros j Hj. rewrite reader_set by done. unfold activate. rewrite state_set by done. case_decide; [done|].
    rewrite Est. by apply H3.
  - intros j Hj. rewrite reader_set by done. unfold activate. rewrite state_set by done. case_decide as E.
    + intros _. cbn. split; cbn.
      * intros _. split_and!; try lia. by rewrite A3, slice_nil.
      * intros [?|?]; [done|lia].
    + rewrite Est. intros Hr. change (minMsgNum (set_state i _ s1)) with (minMsgNum s1). change (maxMsgNum (set_state i _ s1)) with (maxMsgNum s1).
      rewrite Emin, Emax. by apply H4.
Qed.

Lemma attach_preserves x pid pr only i lxid s' :
  sys_inv x → writer x = None → pid ≠ 0 → runs (SharedInvalReserveBackendInit pid pr only) (seg x) (i + 1, lxid) s' →
  sys_inv {| seg := s'; hist := hist x; base := base x; writer := None;
             readers := set_reader i {| rd_pc := Idle; rd_start := Z.of_nat (length (hist x)); rd_seen := [] |} x |}.
Proof.
  intros H Hw Hpid Hr. pose proof (iv_seg _ H) as Hs. pose proof Hs as [A1 A2 A3 A4 A5 A6 A7 A8 A9 A10].
  unfold SharedInvalReserveBackendInit in Hr. inv_runs.
  assert (∃ lr, x7 = with_last (lastBackend (seg x)) lr (seg x) ∧ 0 ≤ x6 < lr ∧ lastreserveBackend (seg x) ≤ lr ≤ maxreserveBackends (seg x)) as (lr & -> & Hx6 & Hlr).
  { unfold free_entry in H3. destruct (list_find _ _) as [[k j]|] eqn:Ef; cbn in H3.
    - injection H3 as <- <-. apply list_find_Some in Ef as (Hk & _). apply lookup_seqZ in Hk as [-> Hk].
      exists (lastreserveBackend (seg x)). split_and!; try lia. by destruct (seg x).
    - destruct (Z.ltb_spec (lastreserveBackend (seg x)) (maxreserveBackends (seg x))); [|done]. inv_runs.
      exists (lastreserveBackend (seg x) + 1). split_and!; try lia. done. }
  assert (x6 = i) as -> by lia. assert (∀ l, lastBackend (seg x) ≤ l → l ≤ maxBackends (seg x) → i < l → sys_inv {|
    seg := activate i pid pr only (with_last l lr (seg x)); hist := hist x; base := base x; writer := None;
    readers := set_reader i {| rd_pc := Idle; rd_start := Z.of_nat (length (hist x)); rd_seen := [] |} x |}) as Hfin.
  { intros l Hl1 Hl2 Hl3. apply activate_preserves; try done; cbn; [|lia|lia].
    apply seg_ok_last; [done|lia|lia|]. intros j Hj Ha. destruct (A10 j Hj Ha). lia. }
  cbn [lastBackend lastreserveBackend with_last]. destruct (Z.ltb_spec (lastBackend (seg x)) lr).
  - change (with_last lr lr (with_last ?a ?b ?c)) with (with_last lr lr c). apply Hfin; lia.
  - apply Hfin; lia.
Qed.

Lemma session_preserves x pid pr only i lxid s' :
  sys_inv x → writer x = None → pid ≠ 0 → runs (SharedInvalWorkSessionInit i pid pr only) (seg x) lxid s' →
  sys_inv {| seg := s'; hist := hist x; base := base x; writer := None;
             readers := set_reader i {| rd_pc := Idle; rd_start := Z.of_nat (length (hist x)); rd_seen := [] |} x |}.
Proof.
  intros H Hw Hpid Hr. pose proof (iv_seg _ H) as Hs. pose proof Hs as [A1 A2 A3 A4 A5 A6 A7 A8 A9 A10].
  unfold SharedInvalWorkSessionInit in Hr. inv_runs. unfold id in *.
  destruct ((i <? maxreserveBackends (seg x)) || (maxBackends (seg x) <=? i)) eqn:Eb; [done|]. bool_to_prop.
  destruct (negb _); [done|]. inv_runs.
  assert (∃ l, x1 = with_last l (lastreserveBackend (seg x)) (seg x) ∧ lastBackend (seg x) ≤ l ≤ maxBackends (seg x) ∧ i < l) as (l & -> & Hl & Hil).
  { destruct (Z.ltb_spec (lastBackend (seg x)) (i + 1)); inv_runs.
    - exists (i + 1). split_and!; lia || done.
    - exists (lastBackend (seg x)). split_and!; try lia. by destruct (seg x). }
  apply activate_preserves; try done; cbn; [|lia|lia].
  apply seg_ok_last; [done|lia|lia|]. intros j Hj Ha. destruct (A10 j Hj Ha). lia.
Qed.

Lemma last_active_spec s n :
  0 ≤ last_active s n ≤ Z.of_nat n ∧ ∀ i, 0 ≤ i < Z.of_nat n → procPid (state_of s i) ≠ 0 → i < last_active s n.
Proof.
  induction n as [|n [IH1 IH2]]; cbn [last_active]; [split; lia|].
  destruct (Z.eqb_spec (procPid (state_of s (Z.of_nat n))) 0) as [E|E]; [|split; lia]. split; [lia|].
  intros i Hi Ha. destruct (decide (i = Z.of_nat n)) as [->|]; [done|]. apply IH2; [lia|done].
Qed.

Lemma state_deactivate s i lxid j :
  0 ≤ i → 0 ≤ j → (j ≠ i → state_of (deactivate i lxid s) j = state_of s j) ∧ (j = i → procPid (state_of (deactivate i lxid s) j) = 0).
Proof.
  intros Hi Hj. unfold deactivate, state_of, set_state. cbn. split; [intros; apply aget_aset_ne; lia|]. intros ->.
  destruct (decide (i < Z.of_nat (length (procState s)))); [by rewrite aget_aset_eq by lia|].
  unfold aget, aset. rewrite list_insert_ge, lookup_ge_None_2 by lia. done.
Qed.

(** The entry is cleared and the last ones recomputed. *)
Lemma leave_preserves x i lxid l lr :
  sys_inv x → writer x = None → 0 ≤ i → rd_pc (reader_of x i) = Idle →
  0 ≤ l ≤ maxBackends (seg x) → 0 ≤ lr ≤ maxreserveBackends (seg x) →
  (∀ j, 0 ≤ j → procPid (state_of (deactivate i lxid (seg x)) j) ≠ 0 → j < l ∧ (j < maxreserveBackends (seg x) → j < lr)) →
  sys_inv {| seg := with_last l lr (deactivate i lxid (seg x)); hist := hist x; base := base x; writer := None; readers := readers x |}.
Proof.
  intros [H1 H2 H3 H4] Hw Hi Hpc Hl Hlr Ha. rewrite Hw in H4. set (s1 := deactivate i lxid (seg x)) in *.
  assert (∀ j, 0 ≤ j → (j ≠ i → state_of s1 j = state_of (seg x) j) ∧ (j = i → procPid (state_of s1 j) = 0)) as Hst
    by (intros j Hj; by apply state_deactivate).
  assert (∀ j, 0 ≤ j → receives (state_of s1 j) = true → j ≠ i ∧ state_of s1 j = state_of (seg x) j) as Hother.
  { intros j Hj [Hp _]%receives_active. destruct (Hst j Hj) as [E1 E2].
    destruct (decide (j = i)) as [->|]; [by rewrite E2 in Hp|]. auto. }
  assert (seg_ok (base x) (hist x) (with_last (lastBackend (seg x)) (lastreserveBackend (seg x)) s1)) as Hs1.
  { destruct H1 as [A1 A2 A3 A4 A5 A6 A7 A8 A9 A10]. split; try done.
    - cbn. by rewrite length_aset.
    - intros j Hj Hp. change (state_of (with_last _ _ s1) j) with (state_of s1 j) in Hp. apply A10; [done|].
      destruct (Hst j Hj) as [E1 E2]. destruct (decide (j = i)) as [->|]; [by rewrite E2 in Hp|]. by rewrite <- E1. }
  split; cbn [seg hist base writer].
  - change (with_last l lr s1) with (with_last l lr (with_last (lastBackend (seg x)) (lastreserveBackend (seg x)) s1)). by apply seg_ok_last.
  - cbn. by rewrite length_aset.
  - intros j Hj Hne. change (state_of (with_last l lr s1) j) with (state_of s1 j). change (reader_of _ j) with (reader_of x j) in Hne.
    assert (j ≠ i) by (intros ->; done). rewrite (proj1 (Hst j Hj)) by done. by apply H3.
  - intros j Hj Hr. change (state_of (with_last l lr s1) j) with (state_of s1 j) in *. destruct (Hother j Hj Hr) as [Hne ->].
    rewrite (proj2 (Hother j Hj Hr)) in Hr. by apply H4.
Qed.

(** Recomputing the last entries after clearing one. *)
Lemma last_after x i lxid :
  sys_inv x → 0 ≤ i → let s1 := deactivate i lxid (seg x) in
  let l := last_active s1 (Z.to_nat (lastBackend s1)) in let lr := last_active s1 (Z.to_nat (lastreserveBackend s1)) in
  0 ≤ l ≤ maxBackends (seg x) ∧ 0 ≤ lr ≤ maxreserveBackends (seg x) ∧
  ∀ j, 0 ≤ j → procPid (state_of s1 j) ≠ 0 → j < l ∧ (j < maxreserveBackends (seg x) → j < lr ∧ j < lastreserveBackend (seg x)).
Proof.
  intros H Hi s1 l lr. destruct (iv_seg _ H) as [A1 A2 A3 A4 A5 A6 A7 A8 A9 A10].
  destruct (last_active_spec s1 (Z.to_nat (lastBackend s1))) as [L1 L2]. destruct (last_active_spec s1 (Z.to_nat (lastreserveBackend s1))) as [R1 R2].
  assert (lastBackend s1 = lastBackend (seg x)) as E1 by done. assert (lastreserveBackend s1 = lastreserveBackend (seg x)) as E2 by done.
  rewrite E1, E2 in *. split_and!; [unfold l; rewrite E1; lia..|unfold lr; rewrite E2; lia|unfold lr; rewrite E2; lia|]. intros j Hj Hp.
  assert (procPid (state_of (seg x) j) ≠ 0) as Hp'.
  { destruct (state_deactivate (seg x) i lxid j Hi Hj) as [D1 D2]. fold s1 in D1, D2. destruct (decide (j = i)) as [->|]; [by rewrite D2 in Hp|]. by rewrite <- D1. }
  destruct (A10 j Hj Hp') as [B1 B2]. unfold l, lr. rewrite E1, E2. split; [apply L2; [lia|done]|]. intros Hm. split; [|auto]. apply R2; [|done].
  specialize (B2 Hm). lia.
Qed.

(** *** Cleaning up *)

Definition relevant (p : ProcState) : bool := receives p && negb (resetState p).
Definition scanned (lowbound : Z) (p : ProcState) : ProcState :=
  if relevant p && (nextMsgNum p <? lowbound) then with_reset true p else p.

Lemma not_relevant p : (procPid p =? 0) || resetState p || sendOnly p = negb (relevant p).
Proof. unfold relevant, receives. destruct (procPid p =? 0), (resetState p), (sendOnly p); done. Qed.

(** The scan of the entries below [n]. *)
Record scan_spec (s : SISeg msg) (lowbound n : Z) (acc : cleanup_acc) : Prop := {
  sc_length : length (ca_procs acc) = length (procState s);
  sc_procs : ∀ i, 0 ≤ i → aget no_proc (ca_procs acc) i = if i <? n then scanned lowbound (state_of s i) else state_of s i;
  sc_min : ca_min acc ≤ maxMsgNum s;
  sc_below : ∀ i, 0 ≤ i < n → relevant (state_of s i) = true → lowbound ≤ nextMsgNum (state_of s i) → ca_min acc ≤ nextMsgNum (state_of s i);
  sc_above : ∀ L, L ≤ maxMsgNum s → (∀ i, 0 ≤ i → relevant (state_of s i) = true → lowbound ≤ nextMsgNum (state_of s i) → L ≤ nextMsgNum (state_of s i)) →
    L ≤ ca_min acc;
  sc_sig : ∀ i, ca_needSig acc = Some i → 0 ≤ i < n;
}.

Lemma scan_step s lowbound n acc :
  0 ≤ n → n < Z.of_nat (length (procState s)) → scan_spec s lowbound n acc →
  scan_spec s lowbound (n + 1) (cleanup_one lowbound (maxreserveBackends s) n acc).
Proof.
  intros Hn Hlen [H1 H2 H3 H4 H5 H6]. unfold cleanup_one. rewrite H2, Z.ltb_irrefl by done. rewrite not_relevant.
  destruct (relevant (state_of s n)) eqn:Er; cbn [negb]; [destruct (Z.ltb_spec (nextMsgNum (state_of s n)) lowbound) as [Hlt|Hge]|].
  - split; cbn; try done.
    + by rewrite length_aset.
    + intros i Hi. destruct (decide (i = n)) as [->|Hne].
      * rewrite aget_aset_eq by lia. rewrite (proj2 (Z.ltb_lt _ _)) by lia. unfold scanned. by rewrite Er, (proj2 (Z.ltb_lt _ _)) by lia.
      * rewrite aget_aset_ne, H2 by lia. destruct (Z.ltb_spec i n), (Z.ltb_spec i (n + 1)); done || lia.
    + intros i Hi Hr Hge. destruct (decide (i = n)) as [->|Hne]; [lia|]. apply H4; [lia|done|done].
    + intros i ?%H6. lia.
  - split; cbn; try done.
    + intros i Hi. rewrite H2 by done. destruct (decide (i = n)) as [->|Hne]; [|destruct (Z.ltb_spec i n), (Z.ltb_spec i (n + 1)); done || lia].
      rewrite Z.ltb_irrefl, (proj2 (Z.ltb_lt _ _)) by lia. unfold scanned. by rewrite Er, (proj2 (Z.ltb_ge _ _)) by lia.
    + lia.
    + intros i Hi Hr Hge'. destruct (decide (i = n)) as [->|Hne]; [lia|]. specialize (H4 i ltac:(lia) Hr Hge'). lia.
    + intros L HL Hall. specialize (H5 L HL Hall). specialize (Hall n Hn Er Hge). lia.
    + intros i. case_bool; [intros [= <-]; lia|]. intros ?%H6. lia.
  - split; try done.
    + intros i Hi. rewrite H2 by done. destruct (decide (i = n)) as [->|Hne]; [|destruct (Z.ltb_spec i n), (Z.ltb_spec i (n + 1)); done || lia].
      rewrite Z.ltb_irrefl, (proj2 (Z.ltb_lt _ _)) by lia. unfold scanned. by rewrite Er.
    + intros i Hi Hr Hge'. destruct (decide (i = n)) as [->|Hne]; [congruence|]. apply H4; [lia|done|done].
    + intros i ?%H6. lia.
Qed.

Lemma cleanup_scan_spec s lowbound :
  0 ≤ lastBackend s ≤ Z.of_nat (length (procState s)) → scan_spec s lowbound (lastBackend s) (cleanup_scan s lowbound).
Proof.
  intros Hl. unfold cleanup_scan. set (acc0 := {| ca_procs := _ |}).
  assert (∀ n : nat, Z.of_nat n ≤ lastBackend s → scan_spec s lowbound (Z.of_nat n)
    (foldl (λ acc i, cleanup_one lowbound (maxreserveBackends s) i acc) acc0 (seqZ 0 (Z.of_nat n)))) as Hall.
  { induction n as [|n IH]; intros Hn.
    - split; cbn; try done; try lia. intros i Hi. by rewrite (proj2 (Z.ltb_ge _ _)) by lia.
    - rewrite Nat2Z.inj_succ, <- Z.add_1_r, seqZ_app, foldl_app by lia.
      replace (seqZ (0 + Z.of_nat n) 1) with [Z.of_nat n] by (unfold seqZ; cbn; f_equal; lia). cbn [foldl].
      apply scan_step; [lia|lia|]. apply IH. lia. }
  specialize (Hall (Z.to_nat (lastBackend s))). rewrite Z2Nat.id in Hall by lia. by apply Hall.
Qed.

(** The segment after the scan, before the counters are reduced. *)
Definition after_scan (s : SISeg msg) (lowbound : Z) : SISeg msg :=
  with_counters (ca_min (cleanup_scan s lowbound)) (maxMsgNum s) (nextThreshold s) (with_procs (ca_procs (cleanup_scan s lowbound)) s).

Definition reduced (s : SISeg msg) : Z := if MSGNUMWRAPAROUND <=? minMsgNum s then MSGNUMWRAPAROUND else 0.

Lemma state_reduce s i :
  0 ≤ i → state_of (reduce_counters s) i =
    if (MSGNUMWRAPAROUND <=? minMsgNum s) && (i <? lastBackend s) && negb (procPid (state_of s i) =? 0)
    then with_next_msg (i32 (nextMsgNum (state_of s i) - MSGNUMWRAPAROUND)) (state_of s i) else state_of s i.
Proof.
  intros Hi. unfold reduce_counters. destruct (MSGNUMWRAPAROUND <=? minMsgNum s); [|done]. cbn [andb]. unfold state_of, aget. cbn.
  unfold reduce_procs. rewrite list_lookup_imap. destruct (procState s !! Z.to_nat i) as [p|] eqn:E; cbn.
  - by rewrite Z2Nat.id by done.
  - by destruct (i <? lastBackend s).
Qed.

Lemma reduce_counters_of s :
  minMsgNum (reduce_counters s) = minMsgNum s - reduced s ∧ maxMsgNum (reduce_counters s) = maxMsgNum s - reduced s ∧
  buffer (reduce_counters s) = buffer s ∧ lastBackend (reduce_counters s) = lastBackend s ∧
  length (procState (reduce_counters s)) = length (procState s).
Proof.
  unfold reduce_counters, reduced. case_bool; [|split_and!; done || lia]. cbn. unfold reduce_procs. by rewrite length_imap.
Qed.

Lemma mod_reduced s k : (k + reduced s) mod MAXNUMMESSAGES = k mod MAXNUMMESSAGES.
Proof.
  unfold reduced. case_bool; [|by rewrite Z.add_0_r]. unfold MSGNUMWRAPAROUND. rewrite Z.mul_comm. by rewrite Z_mod_plus_full.
Qed.

(** The new minimum: not less than the old one, and far enough up. *)
Lemma new_min x minFree (lb := maxMsgNum (seg x) - MAXNUMMESSAGES + minFree) :
  sys_inv x → 0 ≤ minFree ≤ WRITE_QUANTUM →
  minMsgNum (seg x) ≤ ca_min (cleanup_scan (seg x) lb) ≤ maxMsgNum (seg x) ∧ lb ≤ ca_min (cleanup_scan (seg x) lb) ∧
  scan_spec (seg x) lb (lastBackend (seg x)) (cleanup_scan (seg x) lb).
Proof.
  intros H Hm. pose proof (iv_seg _ H) as Hs. pose proof (so_max _ _ _ Hs). unfold WRITE_QUANTUM, MAXNUMMESSAGES in *.
  pose proof (cleanup_scan_spec (seg x) lb) as Hsc. rewrite (so_procs _ _ _ Hs) in Hsc. specialize (Hsc (so_last _ _ _ Hs)). split_and!; [|apply Hsc| |done].
  - apply (sc_above _ _ _ _ Hsc); [lia|]. intros i Hi Hr _. unfold relevant in Hr. bool_to_prop.
    destruct (iv_backend _ H i Hi) as [Hp _]; [done|]. destruct Hp; [done|lia].
  - apply (sc_above _ _ _ _ Hsc); [lia|]. intros i Hi Hr Hge. done.
Qed.

(** What a clean-up does to the segment. *)
Record cleaned (x : sys) (minFree : Z) (s' : SISeg msg) : Prop := {
  cl_ok : seg_ok (base x + (maxMsgNum (seg x) - maxMsgNum s')) (hist x) s';
  cl_length : length (procState s') = length (procState (seg x));
  cl_room : maxMsgNum s' - minMsgNum s' ≤ MAXNUMMESSAGES - minFree;
  cl_threshold : maxMsgNum s' - minMsgNum s' < nextThreshold s';
  cl_procs : ∀ i, 0 ≤ i → receives (state_of s' i) = receives (state_of (seg x) i) ∧
    (receives (state_of (seg x) i) = true → hasMessages (state_of s' i) = hasMessages (state_of (seg x) i) ∧
       (resetState (state_of s' i) = true → resetState (state_of (seg x) i) = true ∨ nextMsgNum (state_of (seg x) i) < maxMsgNum (seg x)) ∧
       (resetState (state_of s' i) = false → resetState (state_of (seg x) i) = false ∧ minMsgNum s' ≤ nextMsgNum (state_of s' i) ∧
          nextMsgNum (state_of s' i) = nextMsgNum (state_of (seg x) i) - (maxMsgNum (seg x) - maxMsgNum s')));
}.

(** Entries after the scan and the reduction of the counters. *)
Lemma cleaned_proc x minFree i (lb := maxMsgNum (seg x) - MAXNUMMESSAGES + minFree)
    (s1 := after_scan (seg x) lb) (p' := state_of (reduce_counters s1) i) (p := state_of (seg x) i) :
  sys_inv x → 0 ≤ minFree ≤ WRITE_QUANTUM → 0 ≤ i →
  procPid p' = procPid p ∧ sendOnly p' = sendOnly p ∧ hasMessages p' = hasMessages p ∧
  (receives p = true →
     resetState p' = resetState p || (nextMsgNum p <? lb) ∧
     (resetState p' = false → nextMsgNum p' = nextMsgNum p - reduced s1 ∧ minMsgNum s1 ≤ nextMsgNum p ≤ maxMsgNum (seg x))).
Proof.
  intros H Hm Hi. destruct (new_min x minFree H Hm) as (Hmin & Hlb & Hsc). fold lb in Hmin, Hlb, Hsc. pose proof (iv_seg _ H) as Hs.
  assert (state_of s1 i = if i <? lastBackend (seg x) then scanned lb p else p) as E1 by (by apply (sc_procs _ _ _ _ Hsc)).
  assert (receives p = true → i < lastBackend (seg x)) as Hlast.
  { intros [Ha _]%receives_active. by apply (so_active _ _ _ Hs). }
  unfold p'. rewrite state_reduce by done. change (lastBackend s1) with (lastBackend (seg x)). change (minMsgNum s1) with (ca_min (cleanup_scan (seg x) lb)).
  set (c := (_ <=? _) && _ && _). unfold reduced. change (minMsgNum s1) with (ca_min (cleanup_scan (seg x) lb)).
  assert (procPid (state_of s1 i) = procPid p ∧ sendOnly (state_of s1 i) = sendOnly p ∧ hasMessages (state_of s1 i) = hasMessages p ∧
    nextMsgNum (state_of s1 i) = nextMsgNum p) as (Q1 & Q2 & Q3 & Q4).
  { rewrite E1. unfold scanned. by repeat case_bool. }
  split_and!; [destruct c; cbn; done..|]. intros Hr. specialize (Hlast Hr). rewrite (proj2 (Z.ltb_lt _ _)) in E1 by done.
  assert (resetState (state_of s1 i) = resetState p || (nextMsgNum p <? lb)) as Q5.
  { rewrite E1. unfold scanned, relevant. rewrite Hr. destruct (resetState p) eqn:Er, (nextMsgNum p <? lb); cbn; by rewrite ?Er. }
  split; [by destruct c|]. intros Hres. assert (resetState p = false ∧ lb ≤ nextMsgNum p) as [Er Hge].
  { assert (resetState (state_of s1 i) = false) as Q6 by (by destruct c). rewrite Q5 in Q6. bool_to_prop. done. }
  destruct (iv_backend _ H i Hi Hr) as [Hpos _]. destruct (Hpos Er) as (Hn & _). fold p in Hn.
  assert (ca_min (cleanup_scan (seg x) lb) ≤ nextMsgNum p) as Hle.
  { apply (sc_below _ _ _ _ Hsc); [lia| |done]. unfold relevant. fold p. by rewrite Hr, Er. }
  split; [|lia]. pose proof (so_max _ _ _ Hs). pose proof (so_min _ _ _ Hs). subst c.
  rewrite (proj2 (Z.ltb_lt i _)) by done. rewrite Q1, Q4. apply receives_active in Hr as [Ha _]. rewrite (proj2 (Z.eqb_neq _ _)) by done.
  rewrite !andb_true_r. destruct (Z.leb_spec MSGNUMWRAPAROUND (ca_min (cleanup_scan (seg x) lb))); cbn; [|rewrite Q4; lia].
  rewrite i32_small; [done|]. unfold MSGNUMWRAPAROUND, MAXNUMMESSAGES in *. lia.
Qed.

Lemma threshold_gt s : maxMsgNum s - minMsgNum s < nextThreshold (set_threshold s).
Proof.
  unfold set_threshold. cbn. change CLEANUP_MIN with 2048. change CLEANUP_QUANTUM with 256.
  destruct (Z.ltb_spec (maxMsgNum s - minMsgNum s) 2048); [lia|]. Z.to_euclidean_division_equations. lia.
Qed.

Lemma cleaned_seg_ok x minFree (s2 := reduce_counters (after_scan (seg x) (maxMsgNum (seg x) - MAXNUMMESSAGES + minFree))) :
  sys_inv x → 0 ≤ minFree ≤ WRITE_QUANTUM → seg_ok (base x + (maxMsgNum (seg x) - maxMsgNum s2)) (hist x) (set_threshold s2).
Proof.
  intros H Hm. destruct (new_min x minFree H Hm) as (Hmin & Hlb & Hsc). pose proof (cleaned_proc x minFree) as Hproc.
  set (lb := maxMsgNum (seg x) - MAXNUMMESSAGES + minFree) in *. set (s1 := after_scan (seg x) lb) in *.
  destruct (reduce_counters_of s1) as (Emin & Emax & Ebuf & Elast & Elen). fold s2 in Emin, Emax, Ebuf, Elast, Elen.
  change (minMsgNum s1) with (ca_min (cleanup_scan (seg x) lb)) in *. change (maxMsgNum s1) with (maxMsgNum (seg x)) in *.
  pose proof (iv_seg _ H) as [A1 A2 A3 A4 A5 A6 A7 A8 A9 A10].
  assert (0 ≤ reduced s1 ∧ (reduced s1 = 0 ∨ reduced s1 = MSGNUMWRAPAROUND ∧ MSGNUMWRAPAROUND ≤ ca_min (cleanup_scan (seg x) lb)) ∧
    ca_min (cleanup_scan (seg x) lb) - reduced s1 < MSGNUMWRAPAROUND) as (R1 & R2 & R3).
  { unfold reduced. change (minMsgNum s1) with (ca_min (cleanup_scan (seg x) lb)). unfold MSGNUMWRAPAROUND, MAXNUMMESSAGES in *. case_bool; bool_to_prop; lia. }
  assert (length (ca_procs (cleanup_scan (seg x) lb)) = length (procState (seg x))) as Elen1 by apply Hsc.
  assert (maxBackends s2 = maxBackends (seg x) ∧ maxreserveBackends s2 = maxreserveBackends (seg x) ∧ lastreserveBackend s2 = lastreserveBackend (seg x))
    as (M1 & M2 & M3) by (unfold s2, reduce_counters; by case_bool).
  split; cbn [set_threshold with_counters minMsgNum maxMsgNum buffer procState maxBackends maxreserveBackends lastBackend lastreserveBackend];
    rewrite ?M1, ?M2, ?M3, ?Elast; try done; try lia.
  - by rewrite Ebuf.
  - intros k Hk. rewrite Ebuf, <- (mod_reduced s1 k). change (buffer s1) with (buffer (seg x)). rewrite A6 by lia. f_equal. lia.
  - rewrite Elen. by rewrite <- A7; cbn; rewrite Elen1.
  - intros i Hi. change (state_of (set_threshold s2) i) with (state_of s2 i). destruct (Hproc i H Hm Hi) as (Q & _).
    change (procPid (state_of s2 i) = procPid (state_of (seg x) i)) in Q. rewrite Q. by apply A10.
Qed.

Lemma clean_post x minFree :
  sys_inv x → 0 ≤ minFree ≤ WRITE_QUANTUM → post (SICleanupQueue minFree) (seg x) (λ _ s', cleaned x minFree s').
Proof.
  intros H Hm. unfold SICleanupQueue. apply post_bind, post_gets. unfold id. set (lb := maxMsgNum (seg x) - MAXNUMMESSAGES + minFree).
  apply post_bind, post_modify. fold (after_scan (seg x) lb). apply post_bind, post_modify, post_bind, post_modify.
  set (s2 := reduce_counters (after_scan (seg x) lb)). pose proof (cleaned_seg_ok x minFree H Hm) as Hok. cbv zeta in Hok. fold lb s2 in Hok.
  destruct (new_min x minFree H Hm) as (Hmin & Hlb & Hsc). fold lb in Hmin, Hlb, Hsc.
  destruct (reduce_counters_of (after_scan (seg x) lb)) as (Emin & Emax & _ & _ & Elen). fold s2 in Emin, Emax, Elen.
  change (minMsgNum (after_scan (seg x) lb)) with (ca_min (cleanup_scan (seg x) lb)) in *. change (maxMsgNum (after_scan (seg x) lb)) with (maxMsgNum (seg x)) in *.
  assert (cleaned x minFree (set_threshold s2)) as Hcl.
  { split; [done| | |exact (threshold_gt s2)|].
    - change (length (procState s2) = length (procState (seg x))). rewrite Elen. apply Hsc.
    - change (maxMsgNum s2 - minMsgNum s2 ≤ MAXNUMMESSAGES - minFree). lia.
    - intros i Hi. change (state_of (set_threshold s2) i) with (state_of s2 i). change (minMsgNum (set_threshold s2)) with (minMsgNum s2).
      change (maxMsgNum (set_threshold s2)) with (maxMsgNum s2).
      destruct (cleaned_proc x minFree i H Hm Hi) as (Q1 & Q2 & Q3 & Q4). fold lb s2 in Q1, Q2, Q3, Q4.
      split; [unfold receives; by rewrite Q1, Q2|]. intros Hr. destruct (Q4 Hr) as [Q5 Q6]. split_and!; [done|..].
      + rewrite Q5. intros [?|Hlt]%orb_true_iff; [by left|right]. bool_to_prop. unfold WRITE_QUANTUM, MAXNUMMESSAGES in *. lia.
      + intros Hres. destruct (Q6 Hres) as (E & Hge & Hle).
        change (minMsgNum (after_scan (seg x) lb)) with (ca_min (cleanup_scan (seg x) lb)) in Hge. rewrite Hres in Q5. symmetry in Q5. apply orb_false_iff in Q5 as [? _]. rewrite E. split_and!; [done|lia|lia]. }
  destruct (ca_needSig (cleanup_scan (seg x) lb)) as [k|] eqn:Es; [|by apply post_ret].
  apply post_bind, post_modify, post_ret. apply (sc_sig _ _ _ _ Hsc) in Es.
  assert (0 ≤ k < Z.of_nat (length (procState (set_threshold s2)))) as Hk.
  { rewrite (cl_length _ _ _ Hcl). pose proof (so_last _ _ _ (iv_seg _ H)). rewrite (so_procs _ _ _ (iv_seg _ H)). lia. }
  destruct Hcl as [C1 C2 C3 C4 C5]. split; try done.
  - by apply seg_ok_set.
  - cbn. by rewrite length_aset.
  - intros i Hi. rewrite state_set by done. case_decide; [subst k|]; by apply C5.
Qed.

Lemma clean_preserves x minFree s' :
  sys_inv x → writer x = None → all_idle x → cleaned x minFree s' →
  sys_inv {| seg := s'; hist := hist x; base := base x + (maxMsgNum (seg x) - maxMsgNum s'); writer := None; readers := readers x |}.
Proof.
  intros [H1 H2 H3 H4] Hw Hidle [C1 C2 C3 C4 C5]. rewrite Hw in H4.
  assert (∀ i, rd_pc (reader_of x i) = Idle) as Hpc by (intros i; by apply (aget_Forall (λ r, rd_pc r = Idle))).
  split; cbn [seg hist base writer]; [done|by rewrite C2| |].
  - intros i Hi Hne. by specialize (Hpc i).
  - intros i Hi. destruct (C5 i Hi) as [-> Hp]. intros Hr. destruct (Hp Hr) as (Eh & Hres & Hpos). destruct (H4 i Hi Hr) as [Bp Bt].
    change (reader_of _ i) with (reader_of x i). rewrite (Hpc i) in Bt. split.
    + intros Er. destruct (Hpos Er) as (Er0 & Hge & En). destruct (Bp Er0) as (Hn & Hst & Hseen). rewrite En. split_and!; try lia.
      rewrite Hseen. f_equal. lia.
    + rewrite Hpc. intros Hneed. assert (told None i (state_of (seg x) i)) as Ht.
      { apply Bt. destruct (resetState (state_of s' i)) eqn:Er; [by apply Hres|]. destruct Hneed as [?|Hlt]; [done|]. right.
        destruct (Hpos eq_refl) as (_ & _ & En). lia. }
      destruct Ht as [Ht|(k & ? & _)]; [left; by rewrite Eh|done].
Qed.

(** *** Every step *)

Lemma leaves_preserves x i lxid s' :
  sys_inv x → writer x = None → 0 ≤ i → rd_pc (reader_of x i) = Idle →
  runs (CleanupWorkSessionInvalidation i lxid) (seg x) tt s' ∨ runs (CleanupInvalidationState None (i + 1) lxid) (seg x) tt s' →
  sys_inv {| seg := s'; hist := hist x; base := base x; writer := None; readers := readers x |}.
Proof.
  intros H Hw Hi Hpc Hr. destruct (last_after x i lxid H Hi) as (L1 & L2 & L3). pose proof (so_reserve _ _ _ (iv_seg _ H)) as Hres.
  destruct Hr as [Hr|Hr].
  - unfold CleanupWorkSessionInvalidation in Hr. inv_runs. apply leave_preserves; try done; [cbn; lia|].
    intros j Hj Hp. destruct (L3 j Hj Hp) as [? Hm]. split; [done|]. intros ?. by apply Hm.
  - unfold CleanupInvalidationState in Hr. inv_runs. replace (i + 1 - 1) with i by lia.
    set (s1 := deactivate i lxid (seg x)) in *. cbn [lastBackend lastreserveBackend with_last].
    assert (∀ l lr n, last_active (with_last l lr s1) n = last_active s1 n) as E.
    { intros l lr n. induction n as [|n IH]; cbn [last_active]; [done|]. change (state_of (with_last l lr s1) (Z.of_nat n)) with (state_of s1 (Z.of_nat n)). by rewrite IH. }
    rewrite E. change (with_last ?l ?lr (with_last _ _ s1)) with (with_last l lr s1). apply leave_preserves; try done.
    intros j Hj Hp. destruct (L3 j Hj Hp) as [? Hm]. split; [done|]. intros ?. by apply Hm.
Qed.

Definition writer_ok (x : sys) : Prop := ∀ k, writer x = Some k → 0 ≤ k.

Lemma step_preserves x y : step x y → sys_inv x ∧ writer_ok x → sys_inv y ∧ writer_ok y.
Proof.
  intros Hst [H Hk]. destruct Hst; (split; [|cbn; intros k; try done; try (by apply Hk)]).
  - by eapply attach_preserves.
  - by eapply session_preserves.
  - eapply leaves_preserves; eauto.
  - eapply leaves_preserves; eauto.
  - eapply clean_preserves; [done..|]. edestruct clean_post as (? & ? & Hr' & Hc); [done..|].
    match goal with Hr : runs (SICleanupQueue _) _ r s' |- _ => destruct (runs_det _ _ _ _ _ _ Hr Hr') as [_ ->] end. exact Hc.
  - by apply publish_preserves.
  - intros [= <-]. lia.
  - apply kick_preserves; auto.
  - cbn. intros [= <-]. specialize (Hk i ltac:(done)). lia.
  - by eapply written_preserves.
  - apply clear_preserves; try done. unfold receives. rewrite (proj2 (Z.eqb_neq _ _)) by done. by rewrite H2.
  - by apply fetch_preserves.
  - by eapply read_preserves.
Qed.

Lemma initial_inv maxb maxres : 0 ≤ maxres ≤ maxb → sys_inv (initial maxb maxres) ∧ writer_ok (initial maxb maxres).
Proof.
  intros Hm. split; [|done].
  assert (∀ i, state_of (CreateSharedInvalidationState (msg := msg) maxb maxres) i = no_proc) as Est.
  { intros i. unfold state_of, CreateSharedInvalidationState. cbn. by apply (aget_Forall (λ p, p = no_proc)); [apply Forall_replicate|]. }
  split; cbn [seg hist base writer initial].
  - split; cbn -[MAXNUMMESSAGES]; try (unfold MSGNUMWRAPAROUND, MAXNUMMESSAGES; lia).
    + by rewrite length_replicate.
    + rewrite length_replicate. lia.
    + intros i Hi. by rewrite Est.
  - cbn. by rewrite !length_replicate.
  - intros i Hi Hne. contradict Hne. unfold reader_of. by apply (aget_Forall (λ r, rd_pc r = Idle)); [apply Forall_replicate|].
  - intros i Hi. by rewrite Est.
Qed.

Lemma reachable_inv maxb maxres x : 0 ≤ maxres ≤ maxb → rtc step (initial maxb maxres) x → sys_inv x ∧ writer_ok x.
Proof.
  intros Hm Hx. pose proof (initial_inv maxb maxres Hm) as H0. induction Hx as [|x y z Hst _ IH]; [done|]. by apply IH, (step_preserves x).
Qed.
(** *** The functions as sequences of steps *)

Lemma room_after_clean x minFree s' : cleaned x minFree s' → must_clean s' minFree = false.
Proof.
  intros [_ _ H1 H2 _]. unfold must_clean. apply orb_false_iff. split; [apply Z.ltb_ge|apply Z.leb_gt]; lia.
Qed.

(** One clean-up makes room: the loop of [SIInsertDataEntries] ends in its second round. *)
Lemma make_room_steps x n :
  sys_inv x → writer x = None → all_idle x → 0 ≤ n ≤ WRITE_QUANTUM →
  ∃ x', runs (make_room 2 n) (seg x) tt (seg x') ∧ rtc step x x' ∧ must_clean (seg x') n = false ∧
    hist x' = hist x ∧ writer x' = None ∧ readers x' = readers x.
Proof.
  intros H Hw Hidle Hn. cbn [make_room]. destruct (must_clean (seg x) n) eqn:E.
  - destruct (clean_post x n H Hn) as (r & s' & Hr & Hc). pose proof (room_after_clean _ _ _ Hc) as Hroom.
    exists {| seg := s'; hist := hist x; base := base x + (maxMsgNum (seg x) - maxMsgNum s'); writer := None; readers := readers x |}.
    split_and!; [|by eapply rtc_once, step_clean|done..].
    eapply runs_bind; [apply runs_gets|]. rewrite E. eapply runs_bind; [exact Hr|]. eapply runs_bind; [apply runs_gets|]. by rewrite Hroom.
  - exists x. split_and!; [|done..]. eapply runs_bind; [apply runs_gets|]. by rewrite E.
Qed.

Definition kicked_upto (x : sys) (n : nat) : SISeg msg := foldl (λ s i, kick i s) (seg x) (seqZ 0 (Z.of_nat n)).

Lemma kick_steps x n :
  writer x = Some 0 → Z.of_nat n ≤ lastBackend (seg x) → lastBackend (kicked_upto x n) = lastBackend (seg x) ∧
  rtc step x {| seg := kicked_upto x n; hist := hist x; base := base x; writer := Some (Z.of_nat n); readers := readers x |}.
Proof.
  intros Hw. induction n as [|n IH]; intros Hn.
  - split; [done|]. destruct x. cbn in *. by subst.
  - destruct IH as [IH1 IH2]; [lia|]. assert (kicked_upto x (S n) = kick (Z.of_nat n) (kicked_upto x n)) as E.
    { unfold kicked_upto. rewrite Nat2Z.inj_succ, <- Z.add_1_r, seqZ_app, foldl_app by lia.
      by replace (seqZ (0 + Z.of_nat n) 1) with [Z.of_nat n] by (unfold seqZ; cbn; f_equal; lia). }
    rewrite E. split; [by rewrite (proj2 (proj2 (kick_counters _ _)))|]. eapply rtc_r; [exact IH2|].
    replace (Z.of_nat (S n)) with (Z.of_nat n + 1) by lia.
    apply (step_kick {| seg := kicked_upto x n; hist := hist x; base := base x; writer := Some (Z.of_nat n); readers := readers x |}); [done|cbn; lia].
Qed.

Lemma rtc_inv x y : rtc step x y → sys_inv x ∧ writer_ok x → sys_inv y ∧ writer_ok y.
Proof. induction 1 as [|x y z Hst _ IH]; [done|]. intros H. by apply IH, (step_preserves x). Qed.

(** Publishing a group and telling everyone. *)
Lemma publish_steps x data lsn :
  sys_inv x → writer x = None → Z.of_nat (length data) ≤ WRITE_QUANTUM → must_clean (seg x) (Z.of_nat (length data)) = false →
  ∃ x', kick_all (publish data lsn (seg x)) = seg x' ∧ rtc step x x' ∧ hist x' = hist x ++ data ∧ writer x' = None ∧ readers x' = readers x.
Proof.
  intros H Hw Hd Hc. pose proof (so_last _ _ _ (iv_seg _ H)) as Hl.
  set (x1 := {| seg := publish data lsn (seg x); hist := hist x ++ data; base := base x; writer := Some 0; readers := readers x |}).
  destruct (kick_steps x1 (Z.to_nat (lastBackend (seg x)))) as [E Hs]; [done|cbn; lia|].
  exists {| seg := kicked_upto x1 (Z.to_nat (lastBackend (seg x))); hist := hist x ++ data; base := base x; writer := None; readers := readers x |}.
  split_and!; [unfold kicked_upto; by rewrite Z2Nat.id by lia| |done..].
  eapply rtc_l; [by apply step_publish|]. eapply rtc_r; [exact Hs|]. rewrite Z2Nat.id by lia.
  apply (step_written {| seg := kicked_upto x1 (Z.to_nat (lastBackend (seg x))); hist := hist x ++ data; base := base x;
    writer := Some (lastBackend (seg x)); readers := readers x |} (lastBackend (seg x))); [done|]. cbn [seg]. rewrite E. cbn. lia.
Qed.

Lemma insert_steps fuel lsn : ∀ x data,
  sys_inv x ∧ writer_ok x → writer x = None → all_idle x → (length data < fuel)%nat →
  ∃ x', runs (SIInsertDataEntries fuel data lsn) (seg x) tt (seg x') ∧ rtc step x x' ∧
    hist x' = hist x ++ data ∧ writer x' = None ∧ readers x' = readers x.
Proof.
  induction fuel as [|fuel IH]; intros x data H Hw Hidle Hf; [lia|]. cbn [SIInsertDataEntries].
  destruct data as [|d data']; [exists x; rewrite app_nil_r; split_and!; by try apply runs_skip|].
  set (data := d :: data') in *. set (now := take (Z.to_nat WRITE_QUANTUM) data) in *.
  assert (0 ≤ Z.of_nat (length now) ≤ WRITE_QUANTUM) as Hnow by (unfold now, WRITE_QUANTUM; rewrite length_take; lia).
  destruct (make_room_steps x (Z.of_nat (length now))) as (x1 & R1 & S1 & Hroom & E1 & W1 & Rd1); [apply H|done..|].
  destruct (publish_steps x1 now lsn) as (x2 & R2 & S2 & E2 & W2 & Rd2); [by apply (rtc_inv x)|done|lia|done|].
  destruct (IH x2 (drop (Z.to_nat WRITE_QUANTUM) data)) as (x3 & R3 & S3 & E3 & W3 & Rd3).
  - by apply (rtc_inv x); [etrans|].
  - done.
  - unfold all_idle. by rewrite Rd2, Rd1.
  - rewrite length_drop. unfold data, WRITE_QUANTUM in *. cbn in *. lia.
  - exists x3. split_and!; [|by do 2 (etrans; [eassumption|])| |done|congruence].
    + eapply runs_bind; [exact R1|]. eapply runs_bind; [apply runs_modify|]. eapply runs_bind; [apply runs_modify|]. by rewrite R2.
    + rewrite E3, E2, E1, <- app_assoc. unfold now. by rewrite take_drop.
Qed.
(** What a backend gets when no writer is at work. *)
Definition next_messages (x : sys) (i datasize : Z) : option (list msg) :=
  let p := state_of (seg x) i in
  if resetState p then None
  else Some (slice (hist x) (base x + nextMsgNum p) (Z.min (base x + nextMsgNum p + datasize) (Z.of_nat (length (hist x))))).

Lemma slice_empty (h : list msg) a b : b ≤ a → slice h a b = [].
Proof. intros H. unfold slice. by replace (Z.to_nat (b - a)) with 0%nat by lia. Qed.

Lemma idle_told x i :
  sys_inv x → writer x = None → 0 ≤ i → receives (state_of (seg x) i) = true → rd_pc (reader_of x i) = Idle →
  resetState (state_of (seg x) i) = true ∨ nextMsgNum (state_of (seg x) i) < maxMsgNum (seg x) → hasMessages (state_of (seg x) i) = true.
Proof.
  intros H Hw Hi Hr Hpc Hneed. destruct (iv_backend _ H i Hi Hr) as [_ Ht]. rewrite Hpc, Hw in Ht. destruct (Ht Hneed) as [|(k & ? & _)]; done.
Qed.

Lemma get_steps x i datasize :
  sys_inv x ∧ writer_ok x → writer x = None → 0 ≤ i → receives (state_of (seg x) i) = true → rd_pc (reader_of x i) = Idle → 0 ≤ datasize →
  ∃ x', runs (SIGetDataEntries i datasize 0) (seg x) (next_messages x i datasize) (seg x') ∧ rtc step x x'.
Proof.
  intros H Hw Hi Hr Hpc Hn. destruct (receives_active _ Hr) as [Ha Hso]. pose proof (iv_seg _ (proj1 H)) as Hs.
  pose proof (so_hist _ _ _ Hs) as Hh. unfold SIGetDataEntries. destruct (hasMessages (state_of (seg x) i)) eqn:Eh.
  - set (x1 := {| seg := clear_flag i (seg x); hist := hist x; base := base x; writer := writer x;
                  readers := set_reader i (with_pc Cleared (reader_of x i)) x |}).
    assert (step x x1) as S1 by (by apply step_clear). destruct (step_preserves _ _ S1 H) as [I1 _].
    pose proof (active_range _ _ Hi Ha) as Hrange. pose proof (iv_readers _ (proj1 H)) as Hlen.
    assert (reader_of x1 i = with_pc Cleared (reader_of x i)) as Er1 by (unfold x1; rewrite reader_set by lia; by rewrite decide_True).
    set (x2 := {| seg := seg x1; hist := hist x1; base := base x1; writer := writer x1;
                  readers := set_reader i (with_pc (Fetched (maxMsgNum (seg x1))) (reader_of x1 i)) x1 |}).
    assert (step x1 x2) as S2 by (apply step_fetch; [done|by rewrite Er1]).
    assert (length (readers x1) = length (readers x)) as El by (cbn; unfold set_reader; by rewrite length_aset).
    assert (rd_pc (reader_of x2 i) = Fetched (maxMsgNum (seg x))) as Er2 by (unfold x2; rewrite reader_set by lia; by rewrite decide_True).
    destruct (read_upto i datasize (maxMsgNum (seg x)) 0 (seg x2)) as [r s'] eqn:Erd.
    pose proof (step_read x2 i _ datasize 0 r s' Hi Er2 Erd) as S3. eexists. split; [|eapply rtc_l; [exact S1|]; eapply rtc_l; [exact S2|]; by apply rtc_once].
    cbn [seg]. eapply runs_bind; [apply runs_gets|]. rewrite Eh. cbn [negb]. eapply runs_bind; [apply runs_modify|].
    eapply runs_bind; [apply runs_gets|]. unfold run_read, runs. change (maxMsgNum (clear_flag i (seg x))) with (maxMsgNum (seg x)).
    change (clear_flag i (seg x)) with (seg x2). rewrite Erd. do 2 f_equal. change (seg x2) with (clear_flag i (seg x)) in Erd.
    unfold read_upto in Erd. assert (state_of (clear_flag i (seg x)) i = with_has false (state_of (seg x) i)) as Est
      by (unfold clear_flag; rewrite state_set by lia; by rewrite decide_True).
    rewrite Est in Erd. cbn [resetState with_has nextMsgNum] in Erd. unfold next_messages. destruct (resetState (state_of (seg x) i)) eqn:Er; [by injection Erd as <- _|].
    injection Erd as <- _. f_equal. destruct (iv_backend _ (proj1 H) i Hi Hr) as [Hp _]. destruct (Hp Er) as (Hpos & _).
    destruct (copy_msgs_slice (base x) (hist x) (seg x1) (Z.to_nat datasize) (nextMsgNum (state_of (seg x) i)) (maxMsgNum (seg x)) 0) as (_ & _ & L3 & L4).
    + apply I1.
    + done.
    + cbn. lia.
    + change (clear_flag i (seg x)) with (seg x1). rewrite L3. f_equal. rewrite L4 by done. lia.
  - exists x. split; [|done]. eapply runs_bind; [apply runs_gets|]. rewrite Eh. cbn [negb]. unfold next_messages.
    pose proof (idle_told x i (proj1 H) Hw Hi Hr Hpc) as Ht. rewrite Eh in Ht. destruct (resetState _); [by discriminate Ht; left|].
    destruct (decide (nextMsgNum (state_of (seg x) i) < maxMsgNum (seg x))); [by discriminate Ht; right|]. rewrite slice_empty by lia. done.
Qed.

(** ** What the file promises *)

(** C24: the promise of the circular buffer, for any number of backends that register, read
    and leave while writers insert and clean up. In every reachable state, a backend that
    receives messages and has not been told to reset has been given, since it registered
    or was last reset, exactly the messages sent since, in order and without gaps; those
    it has not read are all still in the buffer, and copying from its position up to
    [maxMsgNum] gives precisely them. *)
Theorem sinval_no_loss maxb maxres x i :
  0 ≤ maxres ≤ maxb → rtc step (initial maxb maxres) x → 0 ≤ i →
  receives (state_of (seg x) i) = true → resetState (state_of (seg x) i) = false →
  let n := nextMsgNum (state_of (seg x) i) in
  0 ≤ rd_start (reader_of x i) ≤ base x + n ∧ base x + n ≤ Z.of_nat (length (hist x)) ∧
  rd_seen (reader_of x i) = slice (hist x) (rd_start (reader_of x i)) (base x + n) ∧
  copy_msgs (Z.to_nat (maxMsgNum (seg x) - n)) (seg x) n (maxMsgNum (seg x)) 0 = slice (hist x) (base x + n) (Z.of_nat (length (hist x))).
Proof.
  intros Hm Hx Hi Hr Er n. destruct (reachable_inv _ _ _ Hm Hx) as [H _]. pose proof (iv_seg _ H) as Hs. pose proof (so_hist _ _ _ Hs).
  destruct (iv_backend _ H i Hi Hr) as [Hp _]. destruct (Hp Er) as (Hpos & Hst & Hseen). fold n in Hpos, Hst, Hseen.
  destruct (copy_msgs_slice (base x) (hist x) (seg x) (Z.to_nat (maxMsgNum (seg x) - n)) n (maxMsgNum (seg x)) 0 Hs) as (_ & _ & L3 & L4); [lia|lia|].
  split_and!; [lia|lia|lia|done|]. rewrite L3. f_equal. rewrite L4 by done. lia.
Qed.

(** C25: no wake-up is lost. Although [hasMessages] is set, tested and cleared without a
    common lock, whenever no writer is between publishing and telling the backends, a
    backend that is not inside [SIGetDataEntries] and has something to read, or has to
    reset, finds the flag set. *)
Theorem sinval_no_lost_wakeup maxb maxres x i :
  0 ≤ maxres ≤ maxb → rtc step (initial maxb maxres) x → writer x = None → 0 ≤ i →
  receives (state_of (seg x) i) = true → rd_pc (reader_of x i) = Idle →
  resetState (state_of (seg x) i) = true ∨ base x + nextMsgNum (state_of (seg x) i) < Z.of_nat (length (hist x)) →
  hasMessages (state_of (seg x) i) = true.
Proof.
  intros Hm Hx Hw Hi Hr Hpc Hneed. destruct (reachable_inv _ _ _ Hm Hx) as [H _]. apply idle_told; try done.
  pose proof (so_hist _ _ _ (iv_seg _ H)). destruct Hneed; [by left|right; lia].
Qed.

(** run alone, inserting always succeeds, however far behind the readers are. With fuel for the
    messages [SIInsertDataEntries] returns, the wait-for-room loop ending after at most one
    clean-up per group; it is a sequence of steps of the system, appends all of the
    messages to the history in order, and keeps the message counters within 31 bits. *)
Theorem insert_returns maxb maxres x data lsn fuel :
  0 ≤ maxres ≤ maxb → rtc step (initial maxb maxres) x → writer x = None → all_idle x → (length data < fuel)%nat →
  ∃ x', runs (SIInsertDataEntries fuel data lsn) (seg x) tt (seg x') ∧ rtc step x x' ∧ hist x' = hist x ++ data ∧ writer x' = None ∧
    0 ≤ minMsgNum (seg x') ≤ maxMsgNum (seg x') ∧ maxMsgNum (seg x') < 2 ^ 31.
Proof.
  intros Hm Hx Hw Hidle Hf. pose proof (reachable_inv _ _ _ Hm Hx) as H.
  destruct (insert_steps fuel lsn x data H Hw Hidle Hf) as (x' & R & S & E & W & _). exists x'. split_and!; try done.
  all: destruct (rtc_inv _ _ S H) as [H' _]; destruct (iv_seg _ H') as [A1 A2 _ _ _ _ _ _ _ _]; unfold MSGNUMWRAPAROUND, MAXNUMMESSAGES in *; lia.
Qed.

(** reading, where no record position limits it and no writer is at work: a backend
    marked for reset gets -1; every other gets precisely the next messages of the history
    that it has not had, as many as it asked for or all there are. *)
Theorem get_entries_spec maxb maxres x i datasize :
  0 ≤ maxres ≤ maxb → rtc step (initial maxb maxres) x → writer x = None → 0 ≤ i →
  receives (state_of (seg x) i) = true → rd_pc (reader_of x i) = Idle → 0 ≤ datasize →
  ∃ x', runs (SIGetDataEntries i datasize 0) (seg x) (next_messages x i datasize) (seg x') ∧ rtc step x x'.
Proof. intros Hm Hx. intros. apply get_steps; try done. by eapply reachable_inv. Qed.
End System.

Lemma next_lxid_valid counter :
  0 ≤ counter < 2 ^ 32 → ∃ lxid c, GetNextLocalTransactionId counter = Ok (lxid, c) ∧ lxid ≠ InvalidLocalTransactionId ∧ 0 ≤ c < 2 ^ 32.
Proof.
  intros Hc. unfold GetNextLocalTransactionId, InvalidLocalTransactionId. cbn [next_lxid]. change InvalidLocalTransactionId with 0.
  assert (∀ z, 0 ≤ u32 z < 2 ^ 32) as Hu by (intros z; unfold u32; apply Z.mod_pos_bound; lia).
  destruct (Z.eqb_spec counter 0) as [->|]; [by exists 1, 2|]. exists counter, (u32 (counter + 1)). auto.
Qed.

(** ** A run *)

(** One backend registers, a writer sends three messages and tells it. *)
Definition demo_attached : sys (msg := Z) :=
  let x := initial 4 4 in
  {| seg := snd (SharedInvalReserveBackendInit 7 1 false (seg x)); hist := []; base := 0; writer := None;
     readers := set_reader 0 {| rd_pc := Idle; rd_start := 0; rd_seen := [] |} x |}.
Definition demo_published : sys (msg := Z) :=
  {| seg := publish [10; 20; 30] 0 (seg demo_attached); hist := [10; 20; 30]; base := 0; writer := Some 0; readers := readers demo_attached |}.
Definition demo_kicked : sys (msg := Z) :=
  {| seg := kick 0 (seg demo_published); hist := [10; 20; 30]; base := 0; writer := Some 1; readers := readers demo_attached |}.
Definition demo : sys (msg := Z) :=
  {| seg := seg demo_kicked; hist := [10; 20; 30]; base := 0; writer := None; readers := readers demo_attached |}.

Lemma demo_reachable : rtc step (initial 4 4) demo.
Proof.
  eapply (rtc_l _ _ demo_attached).
  { apply (step_attach (initial 4 4) 7 1 false 0 0); [done|done|by vm_compute]. }
  eapply (rtc_l _ _ demo_published). { apply (step_publish demo_attached [10; 20; 30] 0); [done|by vm_compute|by vm_compute]. }
  eapply (rtc_l _ _ demo_kicked). { apply (step_kick demo_published 0); [done|by vm_compute]. }
  apply rtc_once, (step_written demo_kicked 1); [done|by vm_compute].
Qed.

Lemma demo_receives : receives (state_of (seg demo) 0) = true ∧ resetState (state_of (seg demo) 0) = false ∧
  rd_pc (reader_of demo 0) = Idle ∧ nextMsgNum (state_of (seg demo) 0) = 0 ∧ maxMsgNum (seg demo) = 3.
Proof. by vm_compute. Qed.

Lemma demo_idle : all_idle demo.
Proof. unfold all_idle. by repeat constructor. Qed.

Lemma sinval_no_loss_witness : copy_msgs 3 (seg demo) 0 3 0 = [10; 20; 30].
Proof.
  destruct demo_receives as (Hr & Es & _ & En & Em).
  destruct (sinval_no_loss 4 4 demo 0) as (_ & _ & _ & E); [lia|exact demo_reachable|lia|exact Hr|exact Es|].
  rewrite En, Em in E. exact E.
Defined.

Lemma sinval_no_lost_wakeup_witness : hasMessages (state_of (seg demo) 0) = true.
Proof.
  destruct demo_receives as (Hr & Es & Hpc & En & Em).
  apply (sinval_no_lost_wakeup 4 4); [lia|exact demo_reachable|done|lia|exact Hr|exact Hpc|]. right. rewrite En. done.
Defined.

Lemma insert_returns_witness : ∃ x', runs (SIInsertDataEntries 3 [40; 50] 0) (seg demo) tt (seg x') ∧ hist x' = [10; 20; 30; 40; 50].
Proof.
  destruct (insert_returns 4 4 demo [40; 50] 0 3) as (x' & R & _ & E & _); [lia|exact demo_reachable|done|exact demo_idle|cbn; lia|].
  exists x'. split; [exact R|exact E].
Defined.

Lemma get_entries_spec_witness : ∃ s', runs (SIGetDataEntries 0 2 0) (seg demo) (Some [10; 20]) s'.
Proof.
  destruct demo_receives as (Hr & Es & Hpc & En & Em).
  destruct (get_entries_spec 4 4 demo 0 2) as (x' & R & _); [lia|exact demo_reachable|done|lia|exact Hr|exact Hpc|lia|].
  exists (seg x'). unfold next_messages in R. rewrite Es, En in R. exact R.
Defined.
