(* ===== verification/TransamDefs.v ===== *)
(** * Transaction ids and commit sequence numbers

    The macros of [src/include/access/transam.h] (and the 64-bit xid
    comparisons of [src/include/c.h]): special xids, the short xids of tuple
    headers, and the 64-bit words of the CSN log, in which one word is either a
    commit sequence number, a status mark, or (with bit 63) the xid of the
    parent of a subtransaction, possibly with the commit-in-progress bit 62. *)

From S2P Require Import Prelude.

(** ** Transaction ids *)

Definition InvalidTransactionId : Z := 0.
Definition BootstrapTransactionId : Z := 1.
Definition FrozenTransactionId : Z := 2.
Definition FirstNormalTransactionId : Z := 3.
Definition MaxTransactionId : Z := 0xFFFFFFFFFFFFFFF.
Definition MaxShortTransactionId : Z := 0xFFFFFFFF.

Definition TransactionIdIsValid (xid : Z) : bool := negb (xid =? InvalidTransactionId).
Definition TransactionIdIsNormal (xid : Z) : bool := FirstNormalTransactionId <=? xid.
Definition TransactionIdEquals (id1 id2 : Z) : bool := id1 =? id2.
Definition TransactionIdPrecedes (id1 id2 : Z) : bool := id1 <? id2.
Definition TransactionIdPrecedesOrEquals (id1 id2 : Z) : bool := id1 <=? id2.
Definition TransactionIdFollows (id1 id2 : Z) : bool := id2 <? id1.
Definition TransactionIdFollowsOrEquals (id1 id2 : Z) : bool := id2 <=? id1.

(** Tuple headers store xids in 32 bits, relative to the page's [pd_xid_base]. *)
Definition ShortTransactionIdToNormal (base xid : Z) : Z :=
  if TransactionIdIsNormal xid then u64 (xid + base) else xid.

(** The two [AssertMacro]s are the range in which the conversion is lossless;
    the cast truncates outside it. *)
Definition NormalTransactionIdToShort (base xid : Z) : Z :=
  if TransactionIdIsNormal xid then u32 (u64 (xid - base)) else u32 xid.

(** ** Commit sequence numbers *)

Definition InvalidCommitSeqNo : Z := 0.
Definition COMMITSEQNO_INPROGRESS : Z := 0x0.
Definition COMMITSEQNO_ABORTED : Z := 0x1.
Definition COMMITSEQNO_FROZEN : Z := 0x2.
Definition COMMITSEQNO_FIRST_NORMAL : Z := 0x3.
Definition COMMITSEQNO_COMMIT_INPROGRESS : Z := 2 ^ 62.
Definition COMMITSEQNO_SUBTRANS_BIT : Z := 2 ^ 63.
Definition MAX_COMMITSEQNO : Z := 2 ^ 60 - 1.
Definition COMMITSEQNO_RESERVE_MASK : Z := lnotw 64 MAX_COMMITSEQNO.

Definition COMMITSEQNO_IS_INPROGRESS (csn : Z) : bool :=
  Z.land csn MAX_COMMITSEQNO =? COMMITSEQNO_INPROGRESS.
Definition COMMITSEQNO_IS_ABORTED (csn : Z) : bool := csn =? COMMITSEQNO_ABORTED.
Definition COMMITSEQNO_IS_FROZEN (csn : Z) : bool := csn =? COMMITSEQNO_FROZEN.
Definition COMMITSEQNO_IS_COMMITTED (csn : Z) : bool :=
  (COMMITSEQNO_FROZEN <=? Z.land csn MAX_COMMITSEQNO)
  && (Z.land csn COMMITSEQNO_RESERVE_MASK =? 0).
Definition COMMITSEQNO_IS_COMMITTING (csn : Z) : bool :=
  Z.land csn COMMITSEQNO_COMMIT_INPROGRESS =? COMMITSEQNO_COMMIT_INPROGRESS.
Definition COMMITSEQNO_IS_SUBTRANS (csn : Z) : bool :=
  Z.land csn COMMITSEQNO_SUBTRANS_BIT =? COMMITSEQNO_SUBTRANS_BIT.
Definition GET_COMMITSEQNO (csn : Z) : Z := Z.land csn MAX_COMMITSEQNO.
Definition GET_PARENTXID (csn : Z) : Z := Z.land csn MAX_COMMITSEQNO.

Inductive TransactionIdStatus : Type :=
| XID_COMMITTED
| XID_ABORTED
| XID_INPROGRESS.

#[global] Instance TransactionIdStatus_eq_dec : EqDecision TransactionIdStatus.
Proof. solve_decision. Defined.

(** ** The mode the node runs in *)

(** Thread and instance flags the transaction logs test. *)
Record node_env := {
  InRecovery : bool;
  RecoveryInProgress : bool;
  SS_STANDBY_MODE : bool;
  useLocalSnapshot : bool;
  IsRoachStandbyCluster : bool;
  IsBootstrapProcessingMode : bool;
  IS_MULTI_DISASTER_RECOVER_MODE : bool;
}.

(** ** Snapshots *)

(** The single-node server is built without [ENABLE_MULTIPLE_NODES], so there
    is no [SNAPSHOT_NOW_NO_SYNC]. *)
Inductive SnapshotSatisfiesMethod : Type :=
| SNAPSHOT_MVCC
| SNAPSHOT_VERSION_MVCC
| SNAPSHOT_DELTA
| SNAPSHOT_LOST
| SNAPSHOT_NOW
| SNAPSHOT_SELF
| SNAPSHOT_ANY
| SNAPSHOT_TOAST
| SNAPSHOT_DIRTY
| SNAPSHOT_HISTORIC_MVCC
| SNAPSHOT_DECODE_MVCC.

#[global] Instance SnapshotSatisfiesMethod_eq_dec : EqDecision SnapshotSatisfiesMethod.
Proof. solve_decision. Defined.

(** The members visibility decisions read. [gtm_local]: [gtm_snapshot_type] is
    [GTM_SNAPSHOT_TYPE_LOCAL]. *)
Record SnapshotData := {
  satisfies : SnapshotSatisfiesMethod;
  snap_xmin : Z;
  snap_xmax : Z;
  xip : list Z;
  subxip : list Z;
  snapshotcsn : Z;
  prepared_array : list Z;
  takenDuringRecovery : bool;
  curcid : Z;
  gtm_local : bool;
}.

Definition IsVersionMVCCSnapshot (snapshot : SnapshotData) : bool :=
  bool_decide (satisfies snapshot = SNAPSHOT_VERSION_MVCC)
  || bool_decide (satisfies snapshot = SNAPSHOT_DELTA)
  || bool_decide (satisfies snapshot = SNAPSHOT_LOST).

Definition IsMVCCSnapshot (snapshot : SnapshotData) : bool :=
  bool_decide (satisfies snapshot = SNAPSHOT_MVCC)
  || bool_decide (satisfies snapshot = SNAPSHOT_HISTORIC_MVCC)
  || bool_decide (satisfies snapshot = SNAPSHOT_DECODE_MVCC)
  || IsVersionMVCCSnapshot snapshot.

(** ** The words of the CSN log *)

Lemma committing_testbit csn : COMMITSEQNO_IS_COMMITTING csn = Z.testbit csn 62.
Proof.
  unfold COMMITSEQNO_IS_COMMITTING, COMMITSEQNO_COMMIT_INPROGRESS.
  rewrite land_flag by lia. by destruct (Z.testbit csn 62).
Qed.

Lemma subtrans_testbit csn : COMMITSEQNO_IS_SUBTRANS csn = Z.testbit csn 63.
Proof.
  unfold COMMITSEQNO_IS_SUBTRANS, COMMITSEQNO_SUBTRANS_BIT.
  rewrite land_flag by lia. by destruct (Z.testbit csn 63).
Qed.

Lemma get_mod csn : Z.land csn MAX_COMMITSEQNO = csn mod 2 ^ 60.
Proof. apply (land_mask_mod csn 60). lia. Qed.

(** A plain commit sequence number: no reserved bit, at least [FROZEN]. *)
Lemma committed_spec csn :
  0 ≤ csn < 2 ^ 64 →
  COMMITSEQNO_IS_COMMITTED csn = true ↔ COMMITSEQNO_FROZEN ≤ csn < 2 ^ 60.
Proof.
  intros Hr. unfold COMMITSEQNO_IS_COMMITTED. rewrite andb_true_iff, get_mod.
  assert (Z.land csn COMMITSEQNO_RESERVE_MASK = 0 ↔ csn < 2 ^ 60) as Hmask.
  { change COMMITSEQNO_RESERVE_MASK with (Z.shiftl (Z.ones 4) 60). split.
    - intros H0. destruct (decide (csn < 2 ^ 60)); [done|]. exfalso.
      assert (csn / 2 ^ 60 = 0) as Hd.
      { rewrite <- (Z.mod_small (csn / 2 ^ 60) (2 ^ 4)).
        2:{ split; [apply Z.div_pos; lia | apply Z.div_lt_upper_bound; lia]. }
        rewrite <- Z.land_ones by lia. rewrite <- Z.shiftr_div_pow2 by lia.
        replace (Z.ones 4) with (Z.shiftr (Z.shiftl (Z.ones 4) 60) 60) by done.
        by rewrite <- Z.shiftr_land, H0. }
      assert (1 ≤ csn / 2 ^ 60) by (apply Z.div_le_lower_bound; lia). lia.
    - intros Hlt. apply Z.bits_inj'. intros i Hi. rewrite Z.land_spec, Z.bits_0.
      destruct (decide (i < 60)).
      + by rewrite Z.shiftl_spec_low, andb_false_r.
      + by rewrite (testbit_small csn 60) by lia. }
  rewrite Z.eqb_eq, Hmask, Z.leb_le.
  split; intros [H1 H2]; split; try lia; rewrite Z.mod_small in * by lia; lia.
Qed.

Lemma committed_not_committing csn :
  0 ≤ csn < 2 ^ 60 → COMMITSEQNO_IS_COMMITTING csn = false.
Proof. intros. rewrite committing_testbit. apply (testbit_small _ 60); lia. Qed.

Lemma committed_not_subtrans csn :
  0 ≤ csn < 2 ^ 60 → COMMITSEQNO_IS_SUBTRANS csn = false.
Proof. intros. rewrite subtrans_testbit. apply (testbit_small _ 60); lia. Qed.

(** The marks the code writes: [SUBTRANS | parent], the same with
    [COMMIT_INPROGRESS], and [COMMIT_INPROGRESS | csn]. *)
Definition subtrans_mark (parent : Z) : Z := Z.lor COMMITSEQNO_SUBTRANS_BIT parent.

Lemma subtrans_mark_add p :
  0 ≤ p < 2 ^ 60 → subtrans_mark p = 2 ^ 63 + p.
Proof. intros. apply (lor_flag_add 63); lia. Qed.

Lemma subtrans_mark_parent p :
  0 ≤ p < 2 ^ 60 → GET_PARENTXID (subtrans_mark p) = p.
Proof.
  intros. unfold GET_PARENTXID. rewrite get_mod, subtrans_mark_add by done.
  replace (2 ^ 63 + p) with (p + 8 * 2 ^ 60) by lia.
  rewrite Z.mod_add by lia. by apply Z.mod_small.
Qed.

Lemma subtrans_mark_is_subtrans p : COMMITSEQNO_IS_SUBTRANS (subtrans_mark p) = true.
Proof.
  rewrite subtrans_testbit. unfold subtrans_mark. by rewrite Z.lor_spec.
Qed.

Lemma subtrans_mark_not_committing p :
  0 ≤ p < 2 ^ 60 → COMMITSEQNO_IS_COMMITTING (subtrans_mark p) = false.
Proof.
  intros. rewrite committing_testbit. unfold subtrans_mark. rewrite Z.lor_spec.
  by rewrite (testbit_small p 60) by lia.
Qed.

Lemma lor_inprogress_committing c :
  COMMITSEQNO_IS_COMMITTING (Z.lor c COMMITSEQNO_COMMIT_INPROGRESS) = true.
Proof.
  rewrite committing_testbit, Z.lor_spec. apply orb_true_r.
Qed.

Lemma lor_inprogress_subtrans c :
  COMMITSEQNO_IS_SUBTRANS (Z.lor c COMMITSEQNO_COMMIT_INPROGRESS)
  = COMMITSEQNO_IS_SUBTRANS c.
Proof.
  rewrite !subtrans_testbit, Z.lor_spec. apply orb_false_r.
Qed.

Lemma lor_inprogress_get c :
  Z.land (Z.lor c COMMITSEQNO_COMMIT_INPROGRESS) MAX_COMMITSEQNO = Z.land c MAX_COMMITSEQNO.
Proof.
  apply Z.bits_inj'. intros i Hi. rewrite !Z.land_spec, Z.lor_spec.
  destruct (decide (i = 62)) as [->|Hne].
  - by rewrite !andb_false_r.
  - unfold COMMITSEQNO_COMMIT_INPROGRESS.
    by rewrite (Z.pow2_bits_false 62 i), orb_false_r by done.
Qed.

(** The encodings can be told apart and decoded: the parent of a
    subtransaction survives both flags, and a word with either flag is neither
    a committed nor an aborted one. *)
Lemma csn_word_cases p :
  0 ≤ p < 2 ^ 60 →
  let w := subtrans_mark p in
  let w' := Z.lor w COMMITSEQNO_COMMIT_INPROGRESS in
  GET_PARENTXID w = p ∧ GET_PARENTXID w' = p ∧
  COMMITSEQNO_IS_SUBTRANS w = true ∧ COMMITSEQNO_IS_SUBTRANS w' = true ∧
  COMMITSEQNO_IS_COMMITTING w = false ∧ COMMITSEQNO_IS_COMMITTING w' = true.
Proof.
  intros Hp. cbv zeta. rewrite lor_inprogress_subtrans, !subtrans_mark_is_subtrans.
  rewrite lor_inprogress_committing, subtrans_mark_not_committing by done.
  unfold GET_PARENTXID at 2. rewrite lor_inprogress_get.
  change (Z.land (subtrans_mark p) MAX_COMMITSEQNO) with (GET_PARENTXID (subtrans_mark p)).
  rewrite !subtrans_mark_parent by done. done.
Qed.

#[export] Hint Rewrite lor_inprogress_committing lor_inprogress_subtrans
  subtrans_mark_is_subtrans : kernel_rw.
#[export] Hint Rewrite subtrans_mark_parent subtrans_mark_not_committing
  using lia : kernel_rw.

(** ** Short xids *)

Lemma short_xid_roundtrip base xid :
  0 ≤ base → base + MaxShortTransactionId < 2 ^ 64 →
  (xid = InvalidTransactionId ∨ xid = BootstrapTransactionId ∨ xid = FrozenTransactionId ∨
   base + FirstNormalTransactionId ≤ xid ≤ base + MaxShortTransactionId) →
  ShortTransactionIdToNormal base (NormalTransactionIdToShort base xid) = xid.
Proof.
  intros Hb Hmax Hx.
  unfold ShortTransactionIdToNormal, NormalTransactionIdToShort, TransactionIdIsNormal,
    u64, u32, FirstNormalTransactionId, MaxShortTransactionId, InvalidTransactionId,
    BootstrapTransactionId, FrozenTransactionId in *.
  destruct Hx as [->|[->|[->|Hx]]]; [done..|].
  destruct (Z.leb_spec 3 xid); [|lia].
  rewrite (Z.mod_small (xid - base)) by lia.
  rewrite (Z.mod_small (xid - base)) by lia.
  destruct (Z.leb_spec 3 (xid - base)); [|lia].
  rewrite Z.mod_small by lia. lia.
Qed.
