(* ===== verification/SlruInterface.v ===== *)
(** * What the SLRU buffer cache promises to the logs kept in it

    The commit log and the CSN log are files of 8 kB pages accessed through the
    SLRU cache of [src/gausskernel/storage/access/transam/slru.cpp]. A client
    asks for a page, is given the number of the buffer slot that holds it, reads
    and writes cells of the buffer in place and finally sets [page_dirty].
    [SlruOps] are these operations (the partition [ClogCtl(pageno)] /
    [CsnlogCtl(pageno)] is chosen by the page number, so every operation takes
    it), [SlruSpec] is the contract: a page store whose logical content is
    independent of which pages are buffered. [page_store], a plain map, is the
    simplest implementation; [Slru.v] shows that the code of [slru.cpp] is one.

    [slru_at st p s]: slot [s] holds page [p], and the only thing that may be
    out of date on disk without a dirty mark is that slot. [slru_ok st]: nothing
    is; a client that writes and does not mark the slot dirty loses it, and with
    it every later guarantee. *)

From S2P Require Import Prelude.

Class SlruOps (S : Type) : Type := {
  SimpleLruReadPage : Z → bool → M S Z;
  SimpleLruReadPage_ReadOnly : Z → M S Z;
  SimpleLruZeroPage : Z → M S Z;
  page_get : S → Z → Z → Z → Z;
  page_set : Z → Z → Z → Z → S → S;
  mark_dirty : Z → Z → S → S;
  group_lsn : S → Z → Z → Z → Z;
  set_group_lsn : Z → Z → Z → Z → S → S;
  (** Control data of the partition of a page: [latest_page_number] and
      [force_check_first_xid]. *)
  set_latest_page_number : Z → Z → S → S;
  set_force_check_first_xid : Z → bool → S → S;
}.

Class SlruSpec (S : Type) `{SlruOps S} (ncells : Z) : Type := {
  slru_view : S → Z → option (list Z);
  slru_ok : S → Prop;
  slru_at : S → Z → Z → Prop;
  (** Every page has [ncells] cells. *)
  slru_view_length : ∀ st p pg, slru_ok st → slru_view st p = Some pg →
    Z.of_nat (length pg) = ncells;
  (** A page that exists can be read; reading changes no page. *)
  slru_read : ∀ st p w, slru_ok st → is_Some (slru_view st p) →
    ∃ s st', runs (SimpleLruReadPage p w) st s st' ∧ slru_ok st' ∧ slru_at st' p s ∧
             ∀ q, slru_view st' q = slru_view st q;
  slru_read_only : ∀ st p, slru_ok st → is_Some (slru_view st p) →
    ∃ s st', runs (SimpleLruReadPage_ReadOnly p) st s st' ∧ slru_ok st' ∧ slru_at st' p s ∧
             ∀ q, slru_view st' q = slru_view st q;
  (** A page that is not buffered is zeroed; one that is, is left alone. *)
  slru_zero : ∀ st p, slru_ok st → 0 ≤ p →
    ∃ s st', runs (SimpleLruZeroPage p) st s st' ∧ slru_ok st' ∧ slru_at st' p s ∧
      (slru_view st' p = Some (replicate (Z.to_nat ncells) 0) ∨
       (is_Some (slru_view st p) ∧ slru_view st' p = slru_view st p)) ∧
      ∀ q, q ≠ p → slru_view st' q = slru_view st q;
  slru_at_view : ∀ st p s, slru_at st p s → is_Some (slru_view st p);
  slru_at_length : ∀ st p s pg, slru_at st p s → slru_view st p = Some pg →
    Z.of_nat (length pg) = ncells;
  slru_get : ∀ st p s pg off, slru_at st p s → slru_view st p = Some pg →
    0 ≤ off < ncells → page_get st p s off = aget 0 pg off;
  slru_set : ∀ st p s pg off v, slru_at st p s → slru_view st p = Some pg →
    0 ≤ off < ncells →
    slru_at (page_set p s off v st) p s ∧
    slru_view (page_set p s off v st) p = Some (aset pg off v) ∧
    ∀ q, q ≠ p → slru_view (page_set p s off v st) q = slru_view st q;
  slru_dirty : ∀ st p s, slru_at st p s →
    slru_ok (mark_dirty p s st) ∧ ∀ q, slru_view (mark_dirty p s st) q = slru_view st q;
  slru_dirty_at : ∀ st p s, slru_at st p s → slru_at (mark_dirty p s st) p s;
  slru_lsn : ∀ st p s i v, slru_at st p s →
    slru_at (set_group_lsn p s i v st) p s ∧
    ∀ q, slru_view (set_group_lsn p s i v st) q = slru_view st q;
  slru_latest : ∀ st p v, slru_ok st →
    slru_ok (set_latest_page_number p v st) ∧
    ∀ q, slru_view (set_latest_page_number p v st) q = slru_view st q;
  slru_force_check : ∀ st p b, slru_ok st →
    slru_ok (set_force_check_first_xid p b st) ∧
    ∀ q, slru_view (set_force_check_first_xid p b st) q = slru_view st q;
}.

(** ** The contract is satisfiable

    The plainest implementation, a page store with no cache at all: the slot of
    a page is its number. *)

Record page_store (ncells : Z) := {
  ps_pages : gmap Z (list Z);
  ps_lsn : gmap (Z * Z) Z;
}.
Arguments ps_pages {ncells} _.
Arguments ps_lsn {ncells} _.

Section PageStore.
Context {ncells : Z}.
Implicit Types st : page_store ncells.

Definition ps_update (p : Z) (pg : list Z) st : page_store ncells :=
  {| ps_pages := <[p := pg]> (ps_pages st); ps_lsn := ps_lsn st |}.

Definition ps_read (p : Z) : M (page_store ncells) Z := λ st,
  match ps_pages st !! p with
  | Some _ => (Ok p, st)
  | None => (Ereport ERROR, st)
  end.

#[export] Instance page_store_ops : SlruOps (page_store ncells) := {
  SimpleLruReadPage p _ := ps_read p;
  SimpleLruReadPage_ReadOnly := ps_read;
  SimpleLruZeroPage p := λ st, (Ok p, ps_update p (replicate (Z.to_nat ncells) 0) st);
  page_get st p _ off := aget 0 (default [] (ps_pages st !! p)) off;
  page_set p _ off v st := ps_update p (aset (default [] (ps_pages st !! p)) off v) st;
  mark_dirty _ _ st := st;
  group_lsn st p _ i := default 0 (ps_lsn st !! (p, i));
  set_group_lsn p _ i v st := {| ps_pages := ps_pages st; ps_lsn := <[(p, i) := v]> (ps_lsn st) |};
  set_latest_page_number _ _ st := st;
  set_force_check_first_xid _ _ st := st;
}.

Definition ps_ok st : Prop :=
  ∀ p pg, ps_pages st !! p = Some pg → Z.of_nat (length pg) = ncells.

Lemma ps_update_ok st p pg : ps_ok st → Z.of_nat (length pg) = ncells → ps_ok (ps_update p pg st).
Proof.
  intros Hok Hl q pg'. cbn. destruct (decide (q = p)) as [->|Hne].
  - rewrite lookup_insert_eq. by intros [= ->].
  - rewrite lookup_insert_ne by done. apply Hok.
Qed.

Lemma ps_read_ok st p :
  ps_ok st → is_Some (ps_pages st !! p) →
  ∃ s st', runs (ps_read p) st s st' ∧ ps_ok st' ∧
    (ps_ok st' ∧ is_Some (ps_pages st' !! p)) ∧ ∀ q, ps_pages st' !! q = ps_pages st !! q.
Proof.
  intros Hok [pg Hp]. exists p, st. unfold runs, ps_read. rewrite Hp. eauto 10.
Qed.

#[local] Obligation Tactic := idtac.
#[export] Program Instance page_store_spec `{!TCEq (0 <=? ncells) true} :
    SlruSpec (page_store ncells) ncells := {
  slru_view st p := ps_pages st !! p;
  slru_ok := ps_ok;
  slru_at st p _ := ps_ok st ∧ is_Some (ps_pages st !! p);
}.
Next Obligation. intros ? st p pg Hok. apply Hok. Qed.
Next Obligation. intros ? st p ?. apply ps_read_ok. Qed.
Next Obligation. intros ? st p. apply ps_read_ok. Qed.
Next Obligation.
  intros Hn st p Hok _. apply TCEq_eq, Z.leb_le in Hn.
  eexists p, _. split; [done|].
  assert (ps_ok (ps_update p (replicate (Z.to_nat ncells) 0) st)) as Hok'.
  { apply ps_update_ok; [done|]. rewrite length_replicate. lia. }
  cbn. rewrite lookup_insert_eq. split_and!; try done; [by left|].
  intros q Hq. by rewrite lookup_insert_ne.
Qed.
Next Obligation. intros ? st p ? [_ ?]. done. Qed.
Next Obligation. intros ? st p ? pg [Hok _]. apply Hok. Qed.
Next Obligation. intros ? st p ? pg off _ Hp _. cbn. by rewrite Hp. Qed.
Next Obligation.
  intros ? st p ? pg off v [Hok _] Hp _. cbn. rewrite Hp, lookup_insert_eq. cbn.
  split_and!; try done.
  - apply ps_update_ok; [done|]. rewrite length_aset. by eapply Hok.
  - intros q Hq. by rewrite lookup_insert_ne.
Qed.
Next Obligation. intros ? st p ? [Hok _]. done. Qed.
Next Obligation. intros ? st p ? Hat. done. Qed.
Next Obligation. intros ? st p ? i v Hat. done. Qed.
Next Obligation. intros ? st p v Hok. done. Qed.
Next Obligation. intros ? st p b Hok. done. Qed.

End PageStore.
