(* ===== verification/Slru.v ===== *)
(** * The SLRU buffer cache

    [src/gausskernel/storage/access/transam/slru.cpp] and [slru.h]: the pages of the
    commit log, the CSN log and the multixact logs are kept in segment files of 2048
    pages, with a small set of buffers in shared memory in front of them. A slot of the
    cache is chosen by the bank of the page and, within the bank, by least recent use;
    a dirty page is written before its slot is reused, and the write-ahead log is
    flushed before the page.

    A state is one partition (one [SlruCtl]) with the files under it. Modelled: finding a
    page, the victim, reads, writes, zeroing, flush, truncation and initialisation, with
    failing reads and writes. The locks are left to the callers; the operations are those
    of a backend that nobody interferes with, so an I/O that is still marked as in
    progress has failed. Not modelled: fsync, DSS and DMS.

    The state has two auxiliary parts, which no operation reads. [page_writes] is the
    history of the writes to the files, each with the position to which the write-ahead
    log was flushed when it happened. [initialized]: the pages that were created by [SimpleLruZeroPage] (or
    were there at startup) and not truncated. The callers may only ask for these ("the
    page number must correspond to an already-initialized page"). The end of the file
    shows that the code meets the contract of [SlruInterface.v]. *)

From S2P Require Import Prelude SlruInterface.

Module Slru.

Definition SLRU_PAGES_PER_SEGMENT : Z := 2048.
Definition SLRU_BANK_BITSHIFT : Z := 4.
Definition SLRU_BANK_SIZE : Z := Z.shiftl 1 SLRU_BANK_BITSHIFT.
Definition SlotGetBankNumber (slotno : Z) : Z := Z.shiftr slotno SLRU_BANK_BITSHIFT.
Definition MAX_FLUSH_BUFFERS : Z := 16.

Inductive SlruPageStatus : Type :=
| SLRU_PAGE_EMPTY
| SLRU_PAGE_READ_IN_PROGRESS
| SLRU_PAGE_VALID
| SLRU_PAGE_WRITE_IN_PROGRESS.

#[global] Instance SlruPageStatus_eq_dec : EqDecision SlruPageStatus.
Proof. solve_decision. Defined.

(** The entries of the arrays of [SlruSharedData] for one slot. *)
Record slru_slot := {
  page_buffer : list Z;
  page_status : SlruPageStatus;
  page_dirty : bool;
  page_number : Z;
  page_lru_count : Z;
}.

Definition no_slot : slru_slot := {|
  page_buffer := []; page_status := SLRU_PAGE_EMPTY; page_dirty := false; page_number := 0; page_lru_count := 0 |}.

(** What does not change: the control structure, whether the server is in recovery,
    whether a write of a page succeeds. *)
Record SlruCtlData := {
  enable_banks : bool;
  bank_mask : Z;
  slru_partition_num : Z;
  lsn_groups_per_page : Z;
  InRecovery : bool;
  write_succeeds : Z → bool;
}.

(** A [write()] of a page: what was written, the LSNs recorded for the slot, and how
    far the write-ahead log was flushed at that moment. *)
Record page_write := {
  pw_page : Z;
  pw_data : list Z;
  pw_lsns : list Z;
  pw_flushed : Z;
}.

Record slru (ncells : Z) := {
  ctl : SlruCtlData;
  slots : list slru_slot;
  bank_cur_lru_count : list Z;
  cur_lru_count : Z;
  group_lsns : list Z;
  latest_page_number : Z;
  force_check_first_xid : bool;
  (** The segment files, each a sequence of pages. *)
  segments : gmap Z (list (list Z));
  (** How far the write-ahead log is flushed. *)
  wal_flushed : Z;
  initialized : gset Z;
  (** The writes so far, the latest first. *)
  page_writes : list page_write;
}.
Arguments ctl {ncells} _.
Arguments slots {ncells} _.
Arguments bank_cur_lru_count {ncells} _.
Arguments cur_lru_count {ncells} _.
Arguments group_lsns {ncells} _.
Arguments latest_page_number {ncells} _.
Arguments force_check_first_xid {ncells} _.
Arguments segments {ncells} _.
Arguments wal_flushed {ncells} _.
Arguments initialized {ncells} _.
Arguments page_writes {ncells} _.

Section Slru.
Context {ncells : Z}.
Implicit Types (st : slru ncells) (sl : slru_slot).

Definition zero_page : list Z := replicate (Z.to_nat ncells) 0.

(** *** Updates of the state *)

Definition with_slots (l : list slru_slot) st : slru ncells :=
  {| ctl := ctl st; slots := l; bank_cur_lru_count := bank_cur_lru_count st; cur_lru_count := cur_lru_count st;
     group_lsns := group_lsns st; latest_page_number := latest_page_number st;
     force_check_first_xid := force_check_first_xid st; segments := segments st; wal_flushed := wal_flushed st;
     initialized := initialized st; page_writes := page_writes st |}.
Definition with_counts (b : list Z) (c : Z) st : slru ncells :=
  {| ctl := ctl st; slots := slots st; bank_cur_lru_count := b; cur_lru_count := c;
     group_lsns := group_lsns st; latest_page_number := latest_page_number st;
     force_check_first_xid := force_check_first_xid st; segments := segments st; wal_flushed := wal_flushed st;
     initialized := initialized st; page_writes := page_writes st |}.
Definition with_lsns (l : list Z) st : slru ncells :=
  {| ctl := ctl st; slots := slots st; bank_cur_lru_count := bank_cur_lru_count st; cur_lru_count := cur_lru_count st;
     group_lsns := l; latest_page_number := latest_page_number st;
     force_check_first_xid := force_check_first_xid st; segments := segments st; wal_flushed := wal_flushed st;
     initialized := initialized st; page_writes := page_writes st |}.
Definition with_latest (p : Z) st : slru ncells :=
  {| ctl := ctl st; slots := slots st; bank_cur_lru_count := bank_cur_lru_count st; cur_lru_count := cur_lru_count st;
     group_lsns := group_lsns st; latest_page_number := p;
     force_check_first_xid := force_check_first_xid st; segments := segments st; wal_flushed := wal_flushed st;
     initialized := initialized st; page_writes := page_writes st |}.
Definition with_force (b : bool) st : slru ncells :=
  {| ctl := ctl st; slots := slots st; bank_cur_lru_count := bank_cur_lru_count st; cur_lru_count := cur_lru_count st;
     group_lsns := group_lsns st; latest_page_number := latest_page_number st;
     force_check_first_xid := b; segments := segments st; wal_flushed := wal_flushed st;
     initialized := initialized st; page_writes := page_writes st |}.
Definition with_segments (f : gmap Z (list (list Z))) st : slru ncells :=
  {| ctl := ctl st; slots := slots st; bank_cur_lru_count := bank_cur_lru_count st; cur_lru_count := cur_lru_count st;
     group_lsns := group_lsns st; latest_page_number := latest_page_number st;
     force_check_first_xid := force_check_first_xid st; segments := f; wal_flushed := wal_flushed st;
     initialized := initialized st; page_writes := page_writes st |}.
Definition with_flushed (l : Z) st : slru ncells :=
  {| ctl := ctl st; slots := slots st; bank_cur_lru_count := bank_cur_lru_count st; cur_lru_count := cur_lru_count st;
     group_lsns := group_lsns st; latest_page_number := latest_page_number st;
     force_check_first_xid := force_check_first_xid st; segments := segments st; wal_flushed := l;
     initialized := initialized st; page_writes := page_writes st |}.
Definition with_initialized (i : gset Z) st : slru ncells :=
  {| ctl := ctl st; slots := slots st; bank_cur_lru_count := bank_cur_lru_count st; cur_lru_count := cur_lru_count st;
     group_lsns := group_lsns st; latest_page_number := latest_page_number st;
     force_check_first_xid := force_check_first_xid st; segments := segments st; wal_flushed := wal_flushed st;
     initialized := i; page_writes := page_writes st |}.
Definition with_writes (l : list page_write) st : slru ncells :=
  {| ctl := ctl st; slots := slots st; bank_cur_lru_count := bank_cur_lru_count st; cur_lru_count := cur_lru_count st;
     group_lsns := group_lsns st; latest_page_number := latest_page_number st;
     force_check_first_xid := force_check_first_xid st; segments := segments st; wal_flushed := wal_flushed st;
     initialized := initialized st; page_writes := l |}.

Definition slot st (slotno : Z) : slru_slot := aget no_slot (slots st) slotno.
Definition set_slot (slotno : Z) sl st : slru ncells := with_slots (aset (slots st) slotno sl) st.
Definition the_slot (slotno : Z) : M (slru ncells) slru_slot := gets (λ st, slot st slotno).
Definition upd_slot (slotno : Z) (f : slru_slot → slru_slot) : M (slru ncells) unit :=
  modify (λ st, set_slot slotno (f (slot st slotno)) st).

Definition set_status (s : SlruPageStatus) sl : slru_slot :=
  {| page_buffer := page_buffer sl; page_status := s; page_dirty := page_dirty sl;
     page_number := page_number sl; page_lru_count := page_lru_count sl |}.
Definition set_dirty (d : bool) sl : slru_slot :=
  {| page_buffer := page_buffer sl; page_status := page_status sl; page_dirty := d;
     page_number := page_number sl; page_lru_count := page_lru_count sl |}.
Definition set_buffer (b : list Z) sl : slru_slot :=
  {| page_buffer := b; page_status := page_status sl; page_dirty := page_dirty sl;
     page_number := page_number sl; page_lru_count := page_lru_count sl |}.
Definition set_lru (c : Z) sl : slru_slot :=
  {| page_buffer := page_buffer sl; page_status := page_status sl; page_dirty := page_dirty sl;
     page_number := page_number sl; page_lru_count := c |}.
Definition set_number (p : Z) sl : slru_slot :=
  {| page_buffer := page_buffer sl; page_status := page_status sl; page_dirty := page_dirty sl;
     page_number := p; page_lru_count := page_lru_count sl |}.

Definition is_empty sl : bool := bool_decide (page_status sl = SLRU_PAGE_EMPTY).
Definition is_valid sl : bool := bool_decide (page_status sl = SLRU_PAGE_VALID).
Definition reading sl : bool := bool_decide (page_status sl = SLRU_PAGE_READ_IN_PROGRESS).
Definition writing sl : bool := bool_decide (page_status sl = SLRU_PAGE_WRITE_IN_PROGRESS).

(** *** Banks *)

Definition num_slots st : Z := Z.of_nat (length (slots st)).
Definition SimpleLruGetBankno (c : SlruCtlData) (pageno : Z) : Z :=
  Z.land (pageno / slru_partition_num c) (bank_mask c).
(** The slots where a page may be: [bankstart] to [bankend - 1]. *)
Definition bank_slots st (pageno : Z) : list Z :=
  if enable_banks (ctl st)
  then seqZ (SimpleLruGetBankno (ctl st) pageno * SLRU_BANK_SIZE) SLRU_BANK_SIZE
  else seqZ 0 (num_slots st).

Definition SlruRecentlyUsed (slotno : Z) : M (slru ncells) unit := modify (λ st,
  if enable_banks (ctl st) then
    let bankno := SlotGetBankNumber slotno in
    let count := aget 0 (bank_cur_lru_count st) bankno in
    if count =? page_lru_count (slot st slotno) then st
    else
      let count := i32 (count + 1) in
      set_slot slotno (set_lru count (slot st slotno))
        (with_counts (aset (bank_cur_lru_count st) bankno count) (cur_lru_count st) st)
  else
    let count := cur_lru_count st in
    if count =? page_lru_count (slot st slotno) then st
    else
      let count := i32 (count + 1) in
      set_slot slotno (set_lru count (slot st slotno)) (with_counts (bank_cur_lru_count st) count st)).

Definition SimpleLruZeroLSNs (slotno : Z) : M (slru ncells) unit := modify (λ st,
  let n := lsn_groups_per_page (ctl st) in
  if 0 <? n then
    with_lsns (fold_left (λ l i, aset l i 0) (seqZ (slotno * n) n) (group_lsns st)) st
  else st).

(** Nobody else has an I/O on the slot, so one that is in progress has failed. *)
Definition SimpleLruWaitIO (slotno : Z) : M (slru ncells) unit :=
  upd_slot slotno (λ sl,
    if reading sl then set_status SLRU_PAGE_EMPTY sl
    else if writing sl then set_dirty true (set_status SLRU_PAGE_VALID sl)
    else sl).

(** *** Files *)

Definition disk_page st (pageno : Z) : option (list Z) :=
  segments st !! (pageno / SLRU_PAGES_PER_SEGMENT) ≫= λ pages,
  pages !! Z.to_nat (pageno mod SLRU_PAGES_PER_SEGMENT).

(** No file, or a page beyond its end: an error, or zeros in recovery. *)
Definition SlruPhysicalReadPage (pageno slotno : Z) : M (slru ncells) bool := λ st,
  match disk_page st pageno with
  | Some pg => (Ok true, set_slot slotno (set_buffer pg (slot st slotno)) st)
  | None => if InRecovery (ctl st)
            then (Ok true, set_slot slotno (set_buffer zero_page (slot st slotno)) st)
            else (Ok false, st)
  end.

(** The largest LSN of the slot's groups. *)
Definition max_lsn st (slotno : Z) : Z :=
  let n := lsn_groups_per_page (ctl st) in
  let at_ i := aget 0 (group_lsns st) (slotno * n + i) in
  fold_left (λ m i, if m <? at_ i then at_ i else m) (seqZ 1 (n - 1)) (at_ 0).

(** Writing past the end of a file fills the gap with zeros. *)
Definition write_at (pages : list (list Z)) (i : nat) (pg : list Z) : list (list Z) :=
  if (i <? length pages)%nat then <[i := pg]> pages
  else pages ++ replicate (i - length pages) zero_page ++ [pg].

(** [XLogWaitFlush]: it returns when the write-ahead log is flushed up to [lsn]. *)
Definition wait_flush (lsn : Z) : M (slru ncells) unit := modify (λ st,
  with_flushed (Z.max (wal_flushed st) lsn) st).

(** The write-WAL-before-data rule: wait for the largest LSN of the slot. *)
Definition honor_wal (slotno : Z) : M (slru ncells) unit :=
  n ← gets (λ st, lsn_groups_per_page (ctl st));
  if 0 <? n then
    lsn ← gets (λ st, max_lsn st slotno);
    if lsn =? 0 then skip else wait_flush lsn
  else skip.

(** The file of the page is open afterwards, and created if need be; [fdata] are the
    segments a flush has open. *)
Definition open_segment (segno : Z) (fdata : option (list Z)) : M (slru ncells) (option (list Z)) :=
  modify (λ st, with_segments (<[segno := default [] (segments st !! segno)]> (segments st)) st) ≫= λ _,
  mret match fdata with
       | Some open_ => if bool_decide (segno ∈ open_) then fdata
                       else if Z.of_nat (length open_) <? MAX_FLUSH_BUFFERS then Some (open_ ++ [segno])
                       else fdata
       | None => None
       end.

(** The LSNs recorded for a slot. *)
Definition slot_lsns st (slotno : Z) : list Z :=
  let n := lsn_groups_per_page (ctl st) in
  map (λ i, aget 0 (group_lsns st) (slotno * n + i)) (seqZ 0 n).

(** [write(fd, shared->page_buffer[slotno], BLCKSZ)]; a write that fails leaves the file
    as it was. *)
Definition write_buffer (pageno slotno : Z) : M (slru ncells) bool := λ st,
  let segno := pageno / SLRU_PAGES_PER_SEGMENT in
  let rpageno := Z.to_nat (pageno mod SLRU_PAGES_PER_SEGMENT) in
  let pg := page_buffer (slot st slotno) in
  if write_succeeds (ctl st) pageno then
    (Ok true,
     with_writes ({| pw_page := pageno; pw_data := pg; pw_lsns := slot_lsns st slotno; pw_flushed := wal_flushed st |}
                  :: page_writes st)
       (with_segments (<[segno := write_at (default [] (segments st !! segno)) rpageno pg]> (segments st)) st))
  else (Ok false, st).

(** The result says whether the write succeeded. *)
Definition SlruPhysicalWritePage (pageno slotno : Z) (fdata : option (list Z))
    : M (slru ncells) (bool * option (list Z)) :=
  honor_wal slotno ≫= λ _,
  fdata ← open_segment (pageno / SLRU_PAGES_PER_SEGMENT) fdata;
  ok ← write_buffer pageno slotno;
  mret (ok, fdata).

Definition SlruInternalWritePage (slotno : Z) (fdata : option (list Z)) : M (slru ncells) (option (list Z)) :=
  sl ← the_slot slotno;
  let pageno := page_number sl in
  (if writing sl then SimpleLruWaitIO slotno else skip) ≫= λ _,
  sl ← the_slot slotno;
  if negb (page_dirty sl) || negb (is_valid sl) || negb (page_number sl =? pageno) then mret fdata
  else
    upd_slot slotno (set_status SLRU_PAGE_WRITE_IN_PROGRESS) ≫= λ _,
    upd_slot slotno (set_dirty false) ≫= λ _,
    '(ok, fdata) ← SlruPhysicalWritePage pageno slotno fdata;
    sl ← the_slot slotno;
    if negb ((page_number sl =? pageno) && writing sl) then raise PANIC
    else
      (if ok : bool then skip else upd_slot slotno (set_dirty true)) ≫= λ _,
      upd_slot slotno (set_status SLRU_PAGE_VALID) ≫= λ _,
      if ok : bool then mret fdata else raise ERROR.

Definition SimpleLruWritePage (slotno : Z) : M (slru ncells) unit :=
  SlruInternalWritePage slotno None ≫= λ _, skip.

(** *** Choosing a slot *)

(** The first of the slots that satisfies [f]. *)
Fixpoint search st (f : slru_slot → bool) (slotnos : list Z) : option Z :=
  match slotnos with
  | [] => None
  | s :: slotnos => if f (slot st s) then Some s else search st f slotnos
  end.

Definition holds_page (pageno : Z) sl : bool := (page_number sl =? pageno) && negb (is_empty sl).

Record victims := {
  best_valid_slot : Z; best_valid_delta : Z; best_valid_page_number : Z;
  best_invalid_slot : Z; best_invalid_delta : Z; best_invalid_page_number : Z;
}.
Definition no_victims : victims := {|
  best_valid_slot := 0; best_valid_delta := -1; best_valid_page_number := 0;
  best_invalid_slot := 0; best_invalid_delta := -1; best_invalid_page_number := 0 |}.

Definition better_valid (slotno delta pageno : Z) (v : victims) : victims :=
  if (best_valid_delta v <? delta) || ((delta =? best_valid_delta v) && (pageno <? best_valid_page_number v))
  then {| best_valid_slot := slotno; best_valid_delta := delta; best_valid_page_number := pageno;
          best_invalid_slot := best_invalid_slot v; best_invalid_delta := best_invalid_delta v;
          best_invalid_page_number := best_invalid_page_number v |}
  else v.
(** The tie is broken with [best_valid_page_number], as in the code. *)
Definition better_invalid (slotno delta pageno : Z) (v : victims) : victims :=
  if (best_invalid_delta v <? delta) || ((delta =? best_invalid_delta v) && (pageno <? best_valid_page_number v))
  then {| best_valid_slot := best_valid_slot v; best_valid_delta := best_valid_delta v;
          best_valid_page_number := best_valid_page_number v;
          best_invalid_slot := slotno; best_invalid_delta := delta; best_invalid_page_number := pageno |}
  else v.

(** The loop over the bank: an empty slot ([inl]), or the best of the others. *)
Fixpoint scan_bank (slotnos : list Z) (cur_count : Z) (v : victims) : M (slru ncells) (Z + victims) :=
  match slotnos with
  | [] => mret (inr v)
  | s :: slotnos =>
      sl ← the_slot s;
      if is_empty sl then mret (inl s)
      else
        let delta := i32 (cur_count - page_lru_count sl) in
        (if delta <? 0 then upd_slot s (set_lru cur_count) else skip) ≫= λ _,
        let delta := if delta <? 0 then 0 else delta in
        latest ← gets latest_page_number;
        if page_number sl =? latest then scan_bank slotnos cur_count v
        else if is_valid sl then scan_bank slotnos cur_count (better_valid s delta (page_number sl) v)
        else scan_bank slotnos cur_count (better_invalid s delta (page_number sl) v)
  end.

(** [(shared->bank_cur_lru_count[bankno])++], with the old value. *)
Definition next_count (bankno : Z) : M (slru ncells) Z := λ st,
  if enable_banks (ctl st) then
    let count := aget 0 (bank_cur_lru_count st) bankno in
    (Ok count, with_counts (aset (bank_cur_lru_count st) bankno (i32 (count + 1))) (cur_lru_count st) st)
  else (Ok (cur_lru_count st), with_counts (bank_cur_lru_count st) (i32 (cur_lru_count st + 1)) st).

(** Every round but the last settles a failed I/O or writes a dirty page. *)
Fixpoint select_loop (fuel : nat) (pageno : Z) : M (slru ncells) Z :=
  match fuel with
  | O => nofuel
  | Datatypes.S fuel =>
      found ← gets (λ st, search st (holds_page pageno) (seqZ 0 (num_slots st)));
      match found with
      | Some s => mret s
      | None =>
          bankno ← gets (λ st, SimpleLruGetBankno (ctl st) pageno);
          cur_count ← next_count bankno;
          bank ← gets (λ st, bank_slots st pageno);
          r ← scan_bank bank cur_count no_victims;
          match r with
          | inl s => mret s
          | inr v =>
              if best_valid_delta v <? 0 then
                SimpleLruWaitIO (best_invalid_slot v) ≫= λ _, select_loop fuel pageno
              else
                sl ← the_slot (best_valid_slot v);
                if negb (page_dirty sl) then mret (best_valid_slot v)
                else
                  SlruInternalWritePage (best_valid_slot v) None ≫= λ _,
                  select_loop fuel pageno
          end
      end
  end.

Definition SlruSelectLRUPage (pageno : Z) : M (slru ncells) Z := λ st,
  select_loop (1 + 2 * length (slots st)) pageno st.

(** *** The operations *)

Definition freeable sl : bool := is_empty sl || (is_valid sl && negb (page_dirty sl)).

(** [continue] after a wait; a failed I/O is settled by the first. *)
Fixpoint read_loop (fuel : nat) (pageno : Z) (write_ok : bool) : M (slru ncells) Z :=
  match fuel with
  | O => nofuel
  | Datatypes.S fuel =>
      s ← SlruSelectLRUPage pageno;
      sl ← the_slot s;
      if holds_page pageno sl then
        if reading sl || (writing sl && negb write_ok)
        then SimpleLruWaitIO s ≫= λ _, read_loop fuel pageno write_ok
        else SlruRecentlyUsed s ≫= λ _, mret s
      else if negb (freeable sl) then raise PANIC
      else
        upd_slot s (set_number pageno) ≫= λ _,
        upd_slot s (set_status SLRU_PAGE_READ_IN_PROGRESS) ≫= λ _,
        upd_slot s (set_dirty false) ≫= λ _,
        ok ← SlruPhysicalReadPage pageno s;
        SimpleLruZeroLSNs s ≫= λ _,
        sl ← the_slot s;
        if negb ((page_number sl =? pageno) && reading sl && negb (page_dirty sl)) then raise PANIC
        else
          upd_slot s (set_status (if ok : bool then SLRU_PAGE_VALID else SLRU_PAGE_EMPTY)) ≫= λ _,
          if ok : bool then SlruRecentlyUsed s ≫= λ _, mret s
          else raise ERROR
  end.

Definition SimpleLruReadPage (pageno : Z) (write_ok : bool) : M (slru ncells) Z := read_loop 2 pageno write_ok.

Definition execSimpleLruReadPageReadOnly (pageno : Z) : M (slru ncells) Z :=
  found ← gets (λ st, search st (λ sl, (page_number sl =? pageno) && negb (is_empty sl) && negb (reading sl))
                        (bank_slots st pageno));
  match found with
  | Some s => SlruRecentlyUsed s ≫= λ _, mret s
  | None => SimpleLruReadPage pageno true
  end.

Definition SimpleLruReadPage_ReadOnly (pageno : Z) : M (slru ncells) Z := execSimpleLruReadPageReadOnly pageno.

(** The slot, and whether the page was zeroed ([*pBZeroPage]). *)
Fixpoint zero_loop (fuel : nat) (pageno : Z) : M (slru ncells) (Z * bool) :=
  match fuel with
  | O => nofuel
  | Datatypes.S fuel =>
      s ← SlruSelectLRUPage pageno;
      sl ← the_slot s;
      if holds_page pageno sl then
        if reading sl then SimpleLruWaitIO s ≫= λ _, zero_loop fuel pageno
        else SlruRecentlyUsed s ≫= λ _, mret (s, false)
      else if negb (freeable sl) then raise PANIC
      else
        upd_slot s (set_number pageno) ≫= λ _,
        upd_slot s (set_status SLRU_PAGE_VALID) ≫= λ _,
        upd_slot s (set_dirty true) ≫= λ _,
        SlruRecentlyUsed s ≫= λ _,
        upd_slot s (set_buffer zero_page) ≫= λ _,
        SimpleLruZeroLSNs s ≫= λ _,
        modify (with_latest pageno) ≫= λ _,
        mret (s, true)
  end.

(** The page becomes one that may be asked for. *)
Definition SimpleLruZeroPage (pageno : Z) : M (slru ncells) (Z * bool) :=
  r ← zero_loop 2 pageno;
  modify (λ st, with_initialized ({[pageno]} ∪ initialized st) st) ≫= λ _,
  mret r.

(** The number of files a flush has opened. *)
Fixpoint flush_loop (slotnos : list Z) (fdata : option (list Z)) : M (slru ncells) Z :=
  match slotnos with
  | [] => mret (Z.of_nat (length (default [] fdata)))
  | s :: slotnos =>
      sl ← the_slot s;
      banks ← gets (λ st, enable_banks (ctl st));
      if banks && is_empty sl then flush_loop slotnos fdata
      else fdata ← SlruInternalWritePage s fdata; flush_loop slotnos fdata
  end.

Definition SimpleLruFlush : M (slru ncells) Z := λ st, flush_loop (seqZ 0 (num_slots st)) (Some []) st.

(** The scan of a truncation, up to the first slot after which it starts again
    ([true]). *)
Fixpoint truncate_scan (slotnos : list Z) (cutoffPage : Z) (isCsnLogCtl : bool) : M (slru ncells) bool :=
  match slotnos with
  | [] => mret false
  | s :: slotnos =>
      sl ← the_slot s;
      if is_empty sl then truncate_scan slotnos cutoffPage isCsnLogCtl
      else if cutoffPage <=? page_number sl then truncate_scan slotnos cutoffPage isCsnLogCtl
      else if is_valid sl && negb (page_dirty sl) then
        upd_slot s (set_status SLRU_PAGE_EMPTY) ≫= λ _, truncate_scan slotnos cutoffPage isCsnLogCtl
      else if is_valid sl then
        if isCsnLogCtl then
          upd_slot s (set_status SLRU_PAGE_EMPTY) ≫= λ _, truncate_scan slotnos cutoffPage isCsnLogCtl
        else SlruInternalWritePage s None ≫= λ _, mret true
      else SimpleLruWaitIO s ≫= λ _, mret true
  end.

(** From [restart]; [false] is the return at an apparent wraparound. *)
Fixpoint truncate_loop (fuel : nat) (cutoffPage : Z) (isPart isCsnLogCtl : bool) : M (slru ncells) bool :=
  match fuel with
  | O => nofuel
  | Datatypes.S fuel =>
      latest ← gets latest_page_number;
      if (latest <? cutoffPage) && negb isPart then mret false
      else
        slotnos ← gets (λ st, seqZ 0 (num_slots st));
        again ← truncate_scan slotnos cutoffPage isCsnLogCtl;
        if again : bool then truncate_loop fuel cutoffPage isPart isCsnLogCtl else mret true
  end.

(** [SlruScanDirCbDeleteCutoff] on every file of the directory. *)
Definition SlruScanDirCbDeleteCutoff (cutoffPage : Z) : M (slru ncells) unit := modify (λ st,
  with_segments (filter (λ f, cutoffPage ≤ f.1 * SLRU_PAGES_PER_SEGMENT) (segments st)) st).

(** For a log with one partition; the pages before the cutoff may no longer be asked
    for. *)
Definition SimpleLruTruncate (cutoffPage : Z) (isPart isCsnLogCtl : bool) : M (slru ncells) unit := λ st,
  let cutoffPage := cutoffPage - cutoffPage mod SLRU_PAGES_PER_SEGMENT in
  (done_ ← truncate_loop (1 + 2 * length (slots st)) cutoffPage isPart isCsnLogCtl;
   if done_ : bool then
     SlruScanDirCbDeleteCutoff cutoffPage ≫= λ _,
     modify (λ st, with_initialized (filter (λ p, cutoffPage ≤ p) (initialized st)) st)
   else skip) st.

(** Shared memory as [SimpleLruInit] sets it up, over the files found. *)
Definition SimpleLruInit (nslots nlsns : Z) (enableBank : bool) (partitionNum : Z) (recovery : bool)
    (succeeds : Z → bool) (files : gmap Z (list (list Z))) (pages : gset Z) : slru ncells := {|
  ctl := {| enable_banks := enableBank; bank_mask := nslots / SLRU_BANK_SIZE - 1; slru_partition_num := partitionNum;
            lsn_groups_per_page := nlsns; InRecovery := recovery; write_succeeds := succeeds |};
  slots := replicate (Z.to_nat nslots) {| page_buffer := zero_page; page_status := SLRU_PAGE_EMPTY;
                                          page_dirty := false; page_number := 0; page_lru_count := 0 |};
  bank_cur_lru_count := replicate (Z.to_nat (nslots / SLRU_BANK_SIZE)) 0;
  cur_lru_count := 0;
  group_lsns := replicate (Z.to_nat (nslots * nlsns)) 0;
  latest_page_number := 0;
  force_check_first_xid := false;
  segments := files; wal_flushed := 0; initialized := pages; page_writes := [] |}.

(** *** The contents of the log *)

Definition valid_at st (s p : Z) : Prop :=
  0 ≤ s < num_slots st ∧ page_status (slot st s) = SLRU_PAGE_VALID ∧ page_number (slot st s) = p.

Definition slru_view st (p : Z) : option (list Z) :=
  if decide (p ∈ initialized st) then
    match search st (holds_page p) (seqZ 0 (num_slots st)) with
    | Some s => Some (page_buffer (slot st s))
    | None => disk_page st p
    end
  else None.

(** [x] is the slot that may differ from its page on disk without being marked
    dirty. *)
Record slru_inv (x : option Z) st : Prop := {
  inv_banks : if enable_banks (ctl st)
    then 0 ≤ bank_mask (ctl st) ∧ num_slots st = SLRU_BANK_SIZE * (bank_mask (ctl st) + 1)
    else 2 ≤ num_slots st;
  inv_writes : ∀ p, write_succeeds (ctl st) p = true;
  inv_status : ∀ s, 0 ≤ s < num_slots st →
    page_status (slot st s) = SLRU_PAGE_EMPTY ∨ page_status (slot st s) = SLRU_PAGE_VALID;
  inv_page : ∀ s p, valid_at st s p → p ∈ initialized st ∧ s ∈ bank_slots st p ∧
    Z.of_nat (length (page_buffer (slot st s))) = ncells;
  inv_clean : ∀ s p, valid_at st s p → x ≠ Some s → page_dirty (slot st s) = false →
    disk_page st p = Some (page_buffer (slot st s));
  inv_unique : ∀ s s' p, valid_at st s p → valid_at st s' p → s = s';
  inv_known : ∀ p, p ∈ initialized st → 0 ≤ p ∧
    ((∃ s, valid_at st s p) ∨ ∃ pg, disk_page st p = Some pg ∧ Z.of_nat (length pg) = ncells);
}.

Lemma slot_set_slot st s sl s' :
  0 ≤ s < num_slots st → 0 ≤ s' → slot (set_slot s sl st) s' = if decide (s' = s) then sl else slot st s'.
Proof.
  unfold num_slots. intros Hs Hs'. unfold slot, set_slot. cbn. case_decide as He.
  - subst. by apply aget_aset_eq.
  - apply aget_aset_ne; [lia..|]. by intros ->.
Qed.

Lemma num_set_slot st s sl : num_slots (set_slot s sl st) = num_slots st.
Proof. unfold num_slots. cbn. by rewrite length_aset. Qed.

Lemma search_Some st f l s : search st f l = Some s → s ∈ l ∧ f (slot st s) = true.
Proof.
  induction l as [|s0 l IH]; cbn; [done|]. destruct (f (slot st s0)) eqn:E.
  - intros [= <-]. split; [by left|done].
  - intros H. split; [right|]; by apply IH.
Qed.

Lemma search_None st f l s : search st f l = None → s ∈ l → f (slot st s) = false.
Proof.
  induction l as [|s0 l IH]; cbn; [by intros _ H%elem_of_nil|]. destruct (f (slot st s0)) eqn:E; [done|].
  intros H [-> |Hin]%elem_of_cons; [done|by apply IH].
Qed.

Lemma search_ext st st' f l :
  (∀ s, s ∈ l → f (slot st' s) = f (slot st s)) → search st' f l = search st f l.
Proof.
  induction l as [|s l IH]; intros H; cbn; [done|]. rewrite (H s) by left. rewrite IH; [done|].
  intros s' Hs'. apply H. by right.
Qed.

Lemma all_slots st s : s ∈ seqZ 0 (num_slots st) ↔ 0 ≤ s < num_slots st.
Proof. rewrite elem_of_seqZ. lia. Qed.

Lemma bank_in_range x st p s : slru_inv x st → s ∈ bank_slots st p → 0 ≤ s < num_slots st.
Proof.
  intros H. pose proof (inv_banks _ _ H) as Hb. unfold bank_slots. destruct (enable_banks (ctl st)).
  - intros Hs%elem_of_seqZ. destruct Hb as [Hm Hn]. rewrite Hn.
    assert (0 ≤ SimpleLruGetBankno (ctl st) p ≤ bank_mask (ctl st)).
    { unfold SimpleLruGetBankno. split; [apply Z.land_nonneg; by right|]. apply Z.ldiff_le; [done|].
      apply Z.bits_inj'. intros i Hi. rewrite Z.ldiff_spec, Z.land_spec, Z.bits_0.
      by destruct (Z.testbit _ i), (Z.testbit _ i). }
    change SLRU_BANK_SIZE with 16 in *. lia.
  - by intros Hs%elem_of_seqZ.
Qed.

(** A page is buffered iff the search finds it. *)
Lemma holds_valid x st p s :
  slru_inv x st → 0 ≤ s < num_slots st → holds_page p (slot st s) = true ↔ valid_at st s p.
Proof.
  intros H Hs. unfold holds_page, is_empty, valid_at.
  rewrite andb_true_iff, Z.eqb_eq, negb_true_iff, bool_decide_eq_false.
  destruct (inv_status _ _ H s Hs) as [->| ->]; intuition congruence.
Qed.

Lemma search_page x st p : slru_inv x st →
  match search st (holds_page p) (seqZ 0 (num_slots st)) with
  | Some s => valid_at st s p
  | None => ∀ s, ¬ valid_at st s p
  end.
Proof.
  intros H. destruct (search _ _ _) as [s|] eqn:E.
  - apply search_Some in E as [Hs%all_slots Hh]. by apply (holds_valid x).
  - intros s Hv. pose proof Hv as (Hs & _). apply all_slots in Hs. pose proof (search_None _ _ _ _ E Hs) as Hf.
    apply all_slots in Hs. apply (holds_valid x) in Hv; [congruence|done|done].
Qed.

Lemma view_buffered x st s p : slru_inv x st → valid_at st s p → slru_view st p = Some (page_buffer (slot st s)).
Proof.
  intros H Hv. unfold slru_view. rewrite decide_True by by apply (inv_page _ _ H s).
  pose proof (search_page x st p H) as Hs. destruct (search _ _ _) as [s'|]; [|by destruct (Hs s)].
  by rewrite (inv_unique _ _ H s' s p).
Qed.

Lemma view_disk x st p : slru_inv x st → p ∈ initialized st → (∀ s, ¬ valid_at st s p) → slru_view st p = disk_page st p.
Proof.
  intros H Hp Hn. unfold slru_view. rewrite decide_True by done.
  pose proof (search_page x st p H) as Hs. destruct (search _ _ _) as [s'|]; [|done]. by destruct (Hn s').
Qed.

Lemma view_none st p : p ∉ initialized st → slru_view st p = None.
Proof. intros H. unfold slru_view. by rewrite decide_False. Qed.

(** *** Steps that change only counters and LSNs *)

Definition same_slot sl sl' : Prop :=
  page_buffer sl' = page_buffer sl ∧ page_status sl' = page_status sl ∧ page_dirty sl' = page_dirty sl ∧
  page_number sl' = page_number sl.

Record quiet st st' : Prop := {
  q_ctl : ctl st' = ctl st;
  q_num : num_slots st' = num_slots st;
  q_slot : ∀ s, 0 ≤ s < num_slots st → same_slot (slot st s) (slot st' s);
  q_segments : segments st' = segments st;
  q_initialized : initialized st' = initialized st;
}.

#[local] Instance quiet_refl : Reflexive quiet.
Proof. intros st. by split. Qed.
#[local] Instance quiet_trans : Transitive quiet.
Proof.
  intros st1 st2 st3 [C1 N1 S1 G1 I1] [C2 N2 S2 G2 I2]. split; try congruence.
  intros s Hs. destruct (S1 s Hs) as (? & ? & ? & ?). destruct (S2 s) as (? & ? & ? & ?); [lia|].
  unfold same_slot. split_and!; congruence.
Qed.

Lemma quiet_valid st st' s p : quiet st st' → valid_at st' s p ↔ valid_at st s p.
Proof.
  intros Hq. unfold valid_at. rewrite (q_num _ _ Hq). split; intros (Hs & Hv & Hp).
  all: destruct (q_slot _ _ Hq s Hs) as (_ & E1 & _ & E2); split_and!; try apply Hs; congruence.
Qed.

Lemma quiet_disk st st' p : quiet st st' → disk_page st' p = disk_page st p.
Proof. intros Hq. unfold disk_page. by rewrite (q_segments _ _ Hq). Qed.

Lemma quiet_bank st st' p : quiet st st' → bank_slots st' p = bank_slots st p.
Proof. intros Hq. unfold bank_slots. by rewrite (q_ctl _ _ Hq), (q_num _ _ Hq). Qed.

Lemma quiet_inv x st st' : quiet st st' → slru_inv x st → slru_inv x st'.
Proof.
  intros Hq H. pose proof (λ s p, quiet_valid st st' s p Hq) as Hv.
  split.
  - rewrite (q_ctl _ _ Hq), (q_num _ _ Hq). apply H.
  - rewrite (q_ctl _ _ Hq). apply H.
  - intros s Hs. rewrite (q_num _ _ Hq) in Hs. destruct (q_slot _ _ Hq s Hs) as (_ & -> & _). by apply H.
  - intros s p Hs%Hv. pose proof Hs as (Hr & _). destruct (q_slot _ _ Hq s Hr) as (-> & _).
    rewrite (q_initialized _ _ Hq), (quiet_bank _ _ _ Hq). by apply H.
  - intros s p Hs%Hv Hx. pose proof Hs as (Hr & _). destruct (q_slot _ _ Hq s Hr) as (-> & _ & -> & _).
    rewrite (quiet_disk _ _ _ Hq). by apply H.
  - intros s s' p Hs%Hv Hs'%Hv. by eapply H.
  - intros p. rewrite (q_initialized _ _ Hq), (quiet_disk _ _ _ Hq). setoid_rewrite Hv. apply H.
Qed.

Lemma quiet_view x st st' p : slru_inv x st → quiet st st' → slru_view st' p = slru_view st p.
Proof.
  intros H Hq. pose proof (quiet_inv _ _ _ Hq H) as H'.
  destruct (decide (p ∈ initialized st)) as [Hp|Hp].
  2: { rewrite !view_none; [done|done|by rewrite (q_initialized _ _ Hq)]. }
  pose proof (search_page x st p H) as Hs. destruct (search _ _ _) as [s|].
  - rewrite (view_buffered x _ s p H Hs), (view_buffered x st' s p H') by (by apply (quiet_valid st)).
    destruct Hs as (Hr & _). by destruct (q_slot _ _ Hq s Hr) as (-> & _).
  - rewrite (view_disk x _ p H), (view_disk x st' p H'), (quiet_disk st); try done.
    + by rewrite (q_initialized _ _ Hq).
    + intros s Hv%(quiet_valid st); [by destruct (Hs s)|done].
Qed.

Lemma quiet_counts b c st : quiet st (with_counts b c st).
Proof. by split. Qed.
Lemma quiet_lsns l st : quiet st (with_lsns l st).
Proof. by split. Qed.
Lemma quiet_latest p st : quiet st (with_latest p st).
Proof. by split. Qed.
Lemma quiet_force b st : quiet st (with_force b st).
Proof. by split. Qed.
Lemma quiet_flushed l st : quiet st (with_flushed l st).
Proof. by split. Qed.
Lemma quiet_set_slot s sl st : 0 ≤ s < num_slots st → same_slot (slot st s) sl → quiet st (set_slot s sl st).
Proof.
  intros Hs Hsl. split; try done; [by rewrite num_set_slot|]. intros s' Hs'.
  rewrite slot_set_slot by lia. by case_decide; [subst|].
Qed.

Lemma recently_used_quiet s st : 0 ≤ s < num_slots st → post (SlruRecentlyUsed s) st (λ _ st', quiet st st').
Proof.
  intros Hs. apply post_modify. cbv zeta. destruct (enable_banks _), (_ =? _); try reflexivity.
  all: etransitivity; [apply quiet_counts|]; by apply quiet_set_slot.
Qed.

Lemma zero_lsns_quiet s st : post (SimpleLruZeroLSNs s) st (λ _ st', quiet st st').
Proof. apply post_modify. cbv zeta. destruct (0 <? _); [apply quiet_lsns|reflexivity]. Qed.

Lemma next_count_quiet b st : post (next_count b) st (λ _ st', quiet st st').
Proof. unfold next_count, post, runs. destruct (enable_banks _); eexists _, _; (split; [done|]); apply quiet_counts. Qed.

(** *** The victim *)

Lemma delta_nonneg d : 0 ≤ (if d <? 0 then 0 else d).
Proof. destruct (Z.ltb_spec d 0); lia. Qed.

(** The best valid slot so far is one of the bank's. *)
Definition candidate st (ok : Z → Prop) (v : victims) : Prop :=
  0 ≤ best_valid_delta v → ok (best_valid_slot v) ∧ valid_at st (best_valid_slot v) (page_number (slot st (best_valid_slot v))).

(** An empty slot, or, of slots that are all valid, one that does not hold the latest page. *)
Definition scan_outcome st (ok : Z → Prop) (l : list Z) (v : victims) (r : Z + victims) : Prop :=
  match r with
  | inl s => ok s ∧ 0 ≤ s < num_slots st ∧ page_status (slot st s) = SLRU_PAGE_EMPTY
  | inr v' => candidate st ok v' ∧ (∀ s, s ∈ l → page_status (slot st s) = SLRU_PAGE_VALID) ∧
      (0 ≤ best_valid_delta v ∨ (∃ s, s ∈ l ∧ page_number (slot st s) ≠ latest_page_number st) →
       0 ≤ best_valid_delta v')
  end.

Lemma candidate_quiet st st' ok v : quiet st st' → candidate st' ok v ↔ candidate st ok v.
Proof.
  intros Hq. unfold candidate, valid_at. rewrite (q_num _ _ Hq).
  split; intros H Hp; destruct (H Hp) as (? & Hr & ? & _); destruct (q_slot _ _ Hq _ Hr) as (_ & E & _ & _).
  all: split_and!; try done; try lia; congruence.
Qed.

(** The rest of the scan, in the state the first slot left. *)
Lemma scan_outcome_cons st st1 ok s l v v1 r :
  quiet st st1 → latest_page_number st1 = latest_page_number st → (∀ s0, s0 ∈ s :: l → 0 ≤ s0 < num_slots st) →
  page_status (slot st s) = SLRU_PAGE_VALID →
  (0 ≤ best_valid_delta v ∨ page_number (slot st s) ≠ latest_page_number st → 0 ≤ best_valid_delta v1) →
  scan_outcome st1 ok l v1 r → scan_outcome st ok (s :: l) v r.
Proof.
  intros Hq Hlat Hl Hs Hle. assert (∀ s0, 0 ≤ s0 < num_slots st → page_status (slot st1 s0) = page_status (slot st s0) ∧
            page_number (slot st1 s0) = page_number (slot st s0)) as Hsame.
  { intros s0 Hs0. by destruct (q_slot _ _ Hq s0 Hs0) as (_ & ? & _ & ?). }
  destruct r as [s1|v']; cbn; rewrite ?(q_num _ _ Hq).
  - intros (? & Hr & He). split_and!; [done|lia..|]. by destruct (Hsame _ Hr) as [<- _].
  - rewrite (candidate_quiet st st1), Hlat by done. intros (Hc & Hv & H2). split_and!; [done| |].
    + intros s0 [-> |Hin]%elem_of_cons; [done|]. destruct (Hsame s0) as [<- _]; [apply Hl; by right|]. by apply Hv.
    + intros Hex. apply H2. destruct Hex as [Hp|(s0 & [-> |Hin]%elem_of_cons & Hne)]; [by left; apply Hle; left|by left; apply Hle; right|].
      right. exists s0. split; [done|]. by destruct (Hsame s0) as [_ ->]; [apply Hl; right|].
Qed.

Lemma scan_bank_post l c v st (ok : Z → Prop) :
  (∀ s, s ∈ l → ok s ∧ 0 ≤ s < num_slots st ∧
     (page_status (slot st s) = SLRU_PAGE_EMPTY ∨ page_status (slot st s) = SLRU_PAGE_VALID)) →
  candidate st ok v →
  post (scan_bank l c v) st (λ r st', quiet st st' ∧ scan_outcome st ok l v r).
Proof.
  revert v st. induction l as [|s l IH]; intros v st Hl Hv; cbn [scan_bank].
  { apply post_ret. split; [reflexivity|]. split_and!; [done|by intros s []%elem_of_nil|].
    intros [?|(s & []%elem_of_nil & _)]; done. }
  destruct (Hl s) as (Hok & Hr & Hst); [by left|].
  apply post_bind, post_gets. unfold is_empty. destruct Hst as [Hst|Hst]; rewrite Hst.
  { rewrite bool_decide_eq_true_2 by done. by apply post_ret. }
  rewrite bool_decide_eq_false_2 by done. set (d := i32 _). apply post_bind.
  assert (∃ st1, runs (if d <? 0 then upd_slot s (set_lru c) else skip) st tt st1 ∧ quiet st st1 ∧
            latest_page_number st1 = latest_page_number st) as (st1 & Hrun & Hq & Hlat).
  { destruct (d <? 0); eexists; (split; [done|]); (split; [|done]); [|reflexivity]. by apply quiet_set_slot. }
  eapply post_runs; [exact Hrun|]. set (d' := if d <? 0 then 0 else d). assert (0 ≤ d') as Hd by apply delta_nonneg.
  apply post_bind, post_gets. rewrite Hlat.
  assert (∀ v1, candidate st ok v1 →
    (0 ≤ best_valid_delta v ∨ page_number (slot st s) ≠ latest_page_number st → 0 ≤ best_valid_delta v1) →
    post (scan_bank l c v1) st1 (λ r st', quiet st st' ∧ scan_outcome st ok (s :: l) v r)) as Hrest.
  { intros v1 Hv1 Hle. eapply post_mono; [apply IH; [|by apply (candidate_quiet st)]|].
    - intros s0 Hs0. destruct (Hl s0) as (? & Hr0 & ?); [by right|]. rewrite (q_num _ _ Hq).
      by destruct (q_slot _ _ Hq s0 Hr0) as (_ & -> & _).
    - intros r st' [Hq1 Ho]. split; [by etransitivity|]. eapply scan_outcome_cons; try done. intros s0 Hs0. by apply Hl. }
  destruct (Z.eqb_spec (page_number (slot st s)) (latest_page_number st)) as [Hlp|Hlp].
  { apply Hrest; [done|]. by intros [?|?]. }
  unfold is_valid. rewrite Hst, bool_decide_eq_true_2 by done.
  apply Hrest; unfold better_valid; destruct ((_ <? _) || _) eqn:Hb; cbn; try done.
  apply orb_false_iff in Hb as [Hb%Z.ltb_ge _]. lia.
Qed.

(** *** Writing a page *)

Lemma write_at_same pages i pg : write_at pages i pg !! i = Some pg.
Proof.
  unfold write_at. destruct (Nat.ltb_spec i (length pages)); [by apply list_lookup_insert_eq|].
  rewrite lookup_app_r, lookup_app_r by (rewrite ?length_replicate; lia).
  rewrite length_replicate. by replace (i - length pages - (i - length pages))%nat with 0%nat by lia.
Qed.

Lemma write_at_other pages i j pg x : i ≠ j → pages !! j = Some x → write_at pages i pg !! j = Some x.
Proof.
  intros Hne Hx. pose proof (lookup_lt_Some _ _ _ Hx). unfold write_at.
  destruct (i <? length pages)%nat; [by rewrite list_lookup_insert_ne|by rewrite lookup_app_l].
Qed.

(** The slot has become clean, its page is on disk, and so is every page that was. *)
Record written (s : Z) st st' : Prop := {
  w_ctl : ctl st' = ctl st;
  w_num : num_slots st' = num_slots st;
  w_initialized : initialized st' = initialized st;
  w_latest : latest_page_number st' = latest_page_number st;
  w_slot : ∀ s', 0 ≤ s' < num_slots st →
    slot st' s' = if decide (s' = s) then set_dirty false (slot st s) else slot st s';
  w_disk : disk_page st' (page_number (slot st s)) = Some (page_buffer (slot st s));
  w_other : ∀ q pg, 0 ≤ q → disk_page st q = Some pg → q ≠ page_number (slot st s) → disk_page st' q = Some pg;
}.

Lemma valid_slot_eq s st st' s' q :
  written s st st' → valid_at st' s' q ↔ valid_at st s' q.
Proof.
  intros Hw. unfold valid_at. rewrite (w_num _ _ _ Hw).
  split; intros (Hr & H1 & H2); rewrite (w_slot _ _ _ Hw s' Hr) in *; case_decide; subst; by split_and!; try lia.
Qed.

Lemma written_buffer s st st' s' :
  written s st st' → 0 ≤ s' < num_slots st → page_buffer (slot st' s') = page_buffer (slot st s').
Proof. intros Hw Hs. rewrite (w_slot _ _ _ Hw s' Hs). by case_decide; subst. Qed.

Lemma written_disk s p st st' q pg :
  slru_inv None st → valid_at st s p → written s st st' → 0 ≤ q → disk_page st q = Some pg → (∀ s', ¬ valid_at st s' q) →
  disk_page st' q = Some pg.
Proof.
  intros H Hv Hw Hq Hd Hn. apply (w_other _ _ _ Hw); [done..|]. destruct Hv as (Hr & Hs & Hp).
  intros ->. destruct (Hn s). by split_and!; try apply Hr.
Qed.

Lemma written_inv s p st st' : slru_inv None st → valid_at st s p → written s st st' → slru_inv None st'.
Proof.
  intros H Hv Hw. pose proof (λ s' q, valid_slot_eq s st st' s' q Hw) as Hve.
  assert (∀ q, bank_slots st' q = bank_slots st q) as Hb.
  { intros q. unfold bank_slots. by rewrite (w_ctl _ _ _ Hw), (w_num _ _ _ Hw). }
  split.
  - rewrite (w_ctl _ _ _ Hw), (w_num _ _ _ Hw). apply H.
  - rewrite (w_ctl _ _ _ Hw). apply H.
  - rewrite (w_num _ _ _ Hw). intros s' Hs'. rewrite (w_slot _ _ _ Hw s' Hs'). case_decide; subst; by apply H.
  - intros s' q Hs'%Hve. pose proof Hs' as (Hr & _).
    rewrite (w_initialized _ _ _ Hw), Hb, (written_buffer s st) by done. by apply H.
  - intros s' q Hs'%Hve _. pose proof Hs' as (Hr & _ & Hq). rewrite (w_slot _ _ _ Hw s' Hr).
    case_decide as Hd; [subst; intros _; apply (w_disk _ _ _ Hw)|]. intros Hcl.
    apply (w_other _ _ _ Hw); [apply (inv_known _ _ H), (inv_page _ _ H _ _ Hs')|by apply (inv_clean _ _ H)|].
    intros He. apply Hd. apply (inv_unique _ _ H s' s q Hs'). destruct Hv as (? & ? & ?). split_and!; try done; try lia.
  - intros s1 s2 q H1%Hve H2%Hve. by apply (inv_unique _ _ H s1 s2 q).
  - intros q. rewrite (w_initialized _ _ _ Hw). setoid_rewrite Hve. intros Hq.
    destruct (inv_known _ _ H q Hq) as [H0 Hk]. split; [done|].
    pose proof (search_page None st q H) as Hs. destruct (search _ _ _) as [s'|]; [left; by exists s'|right].
    destruct Hk as [[s' Hs']|(pg & Hpg & Hl)]; [by destruct (Hs s')|]. exists pg. split; [|done].
    by eapply written_disk.
Qed.

Lemma written_view s p st st' q :
  slru_inv None st → valid_at st s p → written s st st' → slru_view st' q = slru_view st q.
Proof.
  intros H Hv Hw. pose proof (written_inv _ _ _ _ H Hv Hw) as H'.
  destruct (decide (q ∈ initialized st)) as [Hq|Hq].
  2: { rewrite !view_none; [done|done|by rewrite (w_initialized _ _ _ Hw)]. }
  pose proof (search_page None st q H) as Hs. destruct (search _ _ _) as [s'|].
  - rewrite (view_buffered None _ s' q H Hs), (view_buffered None st' s' q H') by (by apply (valid_slot_eq s st)).
    destruct Hs as [Hr _]. by rewrite (written_buffer s st).
  - assert (∀ s', ¬ valid_at st' s' q) as Hs2 by (intros s' Hv'%(valid_slot_eq s st); [by destruct (Hs s')|done]).
    rewrite (view_disk None _ q H Hq Hs), (view_disk None st' q H'); [|by rewrite (w_initialized _ _ _ Hw)|done].
    destruct (inv_known _ _ H q Hq) as [H0 [[s' Hs']|(pg & Hpg & _)]]; [by destruct (Hs s')|].
    rewrite Hpg. by apply (written_disk s p st).
Qed.

(** What a write of a page does to the files. *)
Lemma disk_segments st st' p file pg :
  0 ≤ p → segments st' = <[p / SLRU_PAGES_PER_SEGMENT := write_at file (Z.to_nat (p mod SLRU_PAGES_PER_SEGMENT)) pg]> (segments st) →
  file = default [] (segments st !! (p / SLRU_PAGES_PER_SEGMENT)) →
  disk_page st' p = Some pg ∧
  ∀ q pg', 0 ≤ q → disk_page st q = Some pg' → q ≠ p → disk_page st' q = Some pg'.
Proof.
  intros Hp Hseg ->. unfold disk_page. rewrite Hseg. split.
  { rewrite lookup_insert_eq. cbn. apply write_at_same. }
  intros q pg' Hq Hd Hne. destruct (decide (q / SLRU_PAGES_PER_SEGMENT = p / SLRU_PAGES_PER_SEGMENT)) as [He|He];
    [|by rewrite lookup_insert_ne]. rewrite He, lookup_insert_eq. rewrite He in Hd. cbn.
  destruct (segments st !! _) as [pages|]; [|done]. cbn in *. apply write_at_other; [|done].
  unfold SLRU_PAGES_PER_SEGMENT in *. pose proof (Z.mod_pos_bound q 2048). pose proof (Z.mod_pos_bound p 2048).
  pose proof (Z.div_mod q 2048). pose proof (Z.div_mod p 2048). lia.
Qed.

(** The state after the wait for the write-ahead log. *)
Definition wal_first (s : Z) st : slru ncells :=
  if 0 <? lsn_groups_per_page (ctl st) then
    (if max_lsn st s =? 0 then st else with_flushed (Z.max (wal_flushed st) (max_lsn st s)) st)
  else st.

Lemma honor_wal_run s st : honor_wal s st = (Ok tt, wal_first s st).
Proof. unfold honor_wal, wal_first, mbind, M_bind, gets. destruct (0 <? _); [|done]. by destruct (_ =? 0). Qed.

Lemma wal_first_same s st :
  ctl (wal_first s st) = ctl st ∧ slots (wal_first s st) = slots st ∧ group_lsns (wal_first s st) = group_lsns st ∧
  segments (wal_first s st) = segments st ∧ initialized (wal_first s st) = initialized st ∧
  latest_page_number (wal_first s st) = latest_page_number st ∧ page_writes (wal_first s st) = page_writes st.
Proof. unfold wal_first. by destruct (0 <? _), (max_lsn st s =? 0). Qed.

(** The files after a write of [pg]. *)
Definition files_after (p : Z) (pg : list Z) (ok : bool) st : gmap Z (list (list Z)) :=
  let file := default [] (segments st !! (p / SLRU_PAGES_PER_SEGMENT)) in
  <[p / SLRU_PAGES_PER_SEGMENT :=
      if ok then write_at file (Z.to_nat (p mod SLRU_PAGES_PER_SEGMENT)) pg else file]> (segments st).

(** The history after a write from slot [s]. *)
Definition writes_after (p s : Z) (ok : bool) st : list page_write :=
  if ok then {| pw_page := p; pw_data := page_buffer (slot st s); pw_lsns := slot_lsns st s;
                pw_flushed := wal_flushed (wal_first s st) |} :: page_writes st
  else page_writes st.

Definition after_write (p s : Z) (ok : bool) st : slru ncells :=
  with_writes (writes_after p s ok st) (with_segments (files_after p (page_buffer (slot st s)) ok st) (wal_first s st)).

Lemma physical_write_run p s fdata st :
  ∃ fd, SlruPhysicalWritePage p s fdata st =
    (Ok (write_succeeds (ctl st) p, fd), after_write p s (write_succeeds (ctl st) p) st).
Proof.
  unfold SlruPhysicalWritePage, open_segment, modify, mbind, M_bind. rewrite honor_wal_run. eexists.
  destruct (wal_first_same s st) as (E1 & E2 & E3 & E4 & _ & _ & E7). unfold write_buffer. cbn.
  rewrite E1, E4, E7. unfold slot_lsns. cbn. rewrite E1, E3. unfold slot. cbn. rewrite E2. fold (slot st s).
  unfold after_write, writes_after, files_after. rewrite lookup_insert_eq. cbn.
  destruct (write_succeeds (ctl st) p); [by rewrite insert_insert_eq|]. unfold mret, M_ret, with_segments, with_writes. cbn. by rewrite E7.
Qed.

Lemma physical_write_post p s fdata st (Q : bool * option (list Z) → slru ncells → Prop) :
  (∀ p, write_succeeds (ctl st) p = true) → 0 ≤ p →
  (∀ fd st', ctl st' = ctl st → slots st' = slots st → initialized st' = initialized st →
     latest_page_number st' = latest_page_number st → disk_page st' p = Some (page_buffer (slot st s)) →
     (∀ q pg, 0 ≤ q → disk_page st q = Some pg → q ≠ p → disk_page st' q = Some pg) → Q (true, fd) st') →
  post (SlruPhysicalWritePage p s fdata) st Q.
Proof.
  intros Hok Hp HQ. destruct (physical_write_run p s fdata st) as [fd Hr]. rewrite Hok in Hr.
  eexists _, _. split; [exact Hr|]. destruct (wal_first_same s st) as (E1 & E2 & _ & _ & E5 & E6 & _).
  destruct (disk_segments st (after_write p s true st) p _ (page_buffer (slot st s)) Hp eq_refl eq_refl) as [D1 D2].
  by apply HQ.
Qed.

Lemma internal_write_post s p fdata st (Q : option (list Z) → slru ncells → Prop) :
  slru_inv None st → valid_at st s p → (∀ fd st', written s st st' → Q fd st') →
  post (SlruInternalWritePage s fdata) st Q.
Proof.
  intros H Hv HQ. pose proof Hv as (Hr & Hst & Hp). unfold SlruInternalWritePage.
  apply post_bind, post_gets. unfold writing. rewrite Hst, bool_decide_eq_false_2 by done.
  apply post_bind, post_skip, post_bind, post_gets. unfold is_valid. rewrite Hst, bool_decide_eq_true_2, Z.eqb_refl by done.
  destruct (page_dirty (slot st s)) eqn:Hd; cbn [negb orb].
  2: { apply post_ret, HQ. split; try done.
    - intros s' Hs'. case_decide; [subst s'|done]. by destruct (slot st s); cbn in *; subst.
    - rewrite Hp. by apply (inv_clean _ _ H). }
  apply post_bind, post_modify, post_bind, post_modify. rewrite Hp. set (st2 := set_slot s (set_dirty false _) _).
  assert (∀ s', 0 ≤ s' < num_slots st → slot st2 s' =
     if decide (s' = s) then set_dirty false (set_status SLRU_PAGE_WRITE_IN_PROGRESS (slot st s)) else slot st s') as Hs2.
  { intros s' Hs'. subst st2. rewrite slot_set_slot by (rewrite ?num_set_slot; lia).
    case_decide; rewrite slot_set_slot by lia; [by rewrite decide_True|by rewrite decide_False]. }
  assert (num_slots st2 = num_slots st) as Hn2 by (subst st2; by rewrite !num_set_slot).
  apply post_bind, physical_write_post; [apply (inv_writes _ _ H)|by apply (inv_known _ _ H), (inv_page _ _ H s)|].
  intros fd st3 Hc3 Hsl3 Hi3 Hla3 Hd3 Ho3. apply post_bind, post_gets.
  assert (∀ s', slot st3 s' = slot st2 s') as Hs3 by (intros; unfold slot; by rewrite Hsl3).
  assert (num_slots st3 = num_slots st) as Hn3 by (unfold num_slots in *; by rewrite Hsl3).
  rewrite Hs3, Hs2, decide_True by done. cbn [page_number page_status set_status set_dirty].
  rewrite bool_decide_eq_true_2, Hp, Z.eqb_refl by done. cbn [andb negb].
  apply post_bind, post_skip, post_bind, post_modify, post_ret, HQ. split; try done.
  - by rewrite num_set_slot.
  - intros s' Hs'. rewrite slot_set_slot by (rewrite ?Hn3; lia). rewrite !Hs3.
    case_decide as He; [|by rewrite Hs2, decide_False]. rewrite Hs2, decide_True by done.
    destruct (slot st s); cbn in *; by subst.
  - rewrite Hp. change (disk_page (set_slot s _ st3)) with (disk_page st3). rewrite Hd3, Hs2, decide_True by done. done.
  - rewrite Hp. intros q pg Hq Hdq Hne. by apply Ho3.
Qed.

(** *** A slot for a page *)

Definition dirty_slots st : list Z := filter (λ s, page_dirty (slot st s) = true) (seqZ 0 (num_slots st)).

Lemma filter_shorter {A} (P P' : A → Prop) `{!∀ x, Decision (P x), !∀ x, Decision (P' x)} (l : list A) x :
  (∀ y, y ∈ l → P' y → P y) → x ∈ l → P x → ¬ P' x → (length (filter P' l) < length (filter P l))%nat.
Proof.
  intros HP Hx Hy Hn. assert (∀ k, (∀ y, y ∈ k → P' y → P y) → (length (filter P' k) ≤ length (filter P k))%nat) as Hle.
  { intros k. induction k as [|a k IH]; intros Hk; [done|]. rewrite !filter_cons.
    assert (length (filter P' k) ≤ length (filter P k))%nat by (apply IH; intros; apply Hk; [by right|done]).
    destruct (decide (P' a)) as [Ha|], (decide (P a)) as [|Hna]; cbn; try lia. destruct Hna. apply Hk; [by left|done]. }
  apply list_elem_of_split in Hx as (l1 & l2 & ->). rewrite !filter_app, !filter_cons, !length_app.
  rewrite decide_False, decide_True by done. cbn.
  pose proof (Hle l1 ltac:(intros y ?; apply HP; set_solver)). pose proof (Hle l2 ltac:(intros y ?; apply HP; set_solver)). lia.
Qed.

Lemma dirty_written s st st' :
  0 ≤ s < num_slots st → page_dirty (slot st s) = true → written s st st' →
  (length (dirty_slots st') < length (dirty_slots st))%nat.
Proof.
  intros Hr Hd Hw. unfold dirty_slots. rewrite (w_num _ _ _ Hw). apply (filter_shorter _ _ _ s).
  - intros y Hy%all_slots. rewrite (w_slot _ _ _ Hw y Hy). by case_decide.
  - by apply all_slots.
  - done.
  - rewrite (w_slot _ _ _ Hw s Hr), decide_True by done. done.
Qed.

Lemma dirty_same st st' :
  num_slots st' = num_slots st → (∀ s, 0 ≤ s < num_slots st → page_dirty (slot st' s) = page_dirty (slot st s)) →
  length (dirty_slots st') = length (dirty_slots st).
Proof.
  intros Hn Hd. unfold dirty_slots. rewrite Hn. setoid_rewrite <- all_slots in Hd.
  induction (seqZ 0 (num_slots st)) as [|s l IH]; [done|]. rewrite !filter_cons, (Hd s) by left.
  case_decide; cbn; rewrite IH; try done; intros s' Hs'; apply Hd; by right.
Qed.

Lemma dirty_quiet st st' : quiet st st' → length (dirty_slots st') = length (dirty_slots st).
Proof. intros Hq. apply dirty_same; [apply Hq|]. intros s Hs. by destruct (q_slot _ _ Hq s Hs) as (_ & _ & -> & _). Qed.

(** Nothing that a client can see has changed. *)
Record kept st st' : Prop := {
  k_inv : slru_inv None st';
  k_ctl : ctl st' = ctl st;
  k_num : num_slots st' = num_slots st;
  k_initialized : initialized st' = initialized st;
  k_view : ∀ q, slru_view st' q = slru_view st q;
}.

#[local] Instance kept_trans : Transitive kept.
Proof.
  intros st1 st2 st3 [I1 C1 N1 J1 V1] [I2 C2 N2 J2 V2]. split; congruence.
Qed.

Lemma kept_quiet st st' : slru_inv None st → quiet st st' → kept st st'.
Proof.
  intros H Hq. split; [by eapply quiet_inv|apply Hq|apply Hq|apply Hq|]. intros q. by apply (quiet_view None).
Qed.

Lemma kept_written s p st st' : slru_inv None st → valid_at st s p → written s st st' → kept st st'.
Proof.
  intros H Hv Hw. split; [by eapply written_inv|apply Hw|apply Hw|apply Hw|]. intros q. by eapply written_view.
Qed.

Definition selected st (p s : Z) : Prop :=
  valid_at st s p ∨ ((∀ s', ¬ valid_at st s' p) ∧ s ∈ bank_slots st p ∧ freeable (slot st s) = true).

(** A bank has two slots. *)
Lemma bank_two x st p : slru_inv x st → ∃ s1 s2, s1 ∈ bank_slots st p ∧ s2 ∈ bank_slots st p ∧ s1 ≠ s2.
Proof.
  intros H. pose proof (inv_banks _ _ H) as Hb. unfold bank_slots. destruct (enable_banks _).
  - set (a := _ * SLRU_BANK_SIZE). change SLRU_BANK_SIZE with 16. exists a, (a + 1). rewrite !elem_of_seqZ. lia.
  - exists 0, 1. rewrite !elem_of_seqZ. lia.
Qed.

Lemma select_loop_post fuel p st :
  slru_inv None st → (length (dirty_slots st) < fuel)%nat →
  post (select_loop fuel p) st (λ s st', kept st st' ∧ selected st' p s).
Proof.
  revert st. induction fuel as [|fuel IH]; intros st H Hf; [lia|]. cbn [select_loop].
  apply post_bind, post_gets. pose proof (search_page None st p H) as Hs. destruct (search _ _ _) as [s|].
  { apply post_ret. split; [by apply kept_quiet|by left]. }
  apply post_bind, post_gets, post_bind. eapply post_mono; [apply next_count_quiet|]. intros c st1 Hq1. cbn beta in Hq1.
  pose proof (quiet_inv _ _ _ Hq1 H) as H1. apply post_bind, post_gets, post_bind.
  eapply post_mono; [apply (scan_bank_post _ _ _ _ (λ s, s ∈ bank_slots st1 p))|].
  { intros s Hin. pose proof (bank_in_range _ _ _ _ H1 Hin). split_and!; try done; try lia. by apply (inv_status _ _ H1). }
  { intros Hv. done. }
  intros r st2 [Hq2 Ho]. pose proof (quiet_inv _ _ _ Hq2 H1) as H2.
  assert (quiet st st2) as Hq by (by etransitivity). pose proof (kept_quiet _ _ H Hq) as Hk.
  assert (∀ s', ¬ valid_at st2 s' p) as Hn by (intros s' Hv%(quiet_valid st); [by destruct (Hs s')|done]).
  destruct r as [s|v]; cbn in Ho.
  { destruct Ho as (Hin & Hr & He). apply post_ret. split; [done|right]. split_and!; [done|by rewrite (quiet_bank st1)|].
    unfold freeable, is_empty. destruct (q_slot _ _ Hq2 s Hr) as (_ & -> & _). by rewrite He. }
  destruct Ho as (Hc & Hall & Hbest). assert (0 ≤ best_valid_delta v) as Hpos.
  { apply Hbest. right. destruct (bank_two _ _ p H1) as (s1 & s2 & B1 & B2 & Hne).
    destruct (decide (page_number (slot st1 s1) = latest_page_number st1)) as [E1|]; [|by exists s1].
    destruct (decide (page_number (slot st1 s2) = latest_page_number st1)) as [E2|]; [|by exists s2].
    destruct Hne. apply (inv_unique _ _ H1 s1 s2 (latest_page_number st1)).
    all: split; [by eapply bank_in_range|split; [by apply Hall|done]]. }
  destruct (Hc Hpos) as [Hin Hv%(quiet_valid st1 st2)]; [|done]. set (s := best_valid_slot v) in *.
  rewrite (proj2 (Z.ltb_ge _ _)) by done. apply post_bind, post_gets. destruct (page_dirty (slot st2 s)) eqn:Hd; cbn [negb].
  - apply post_bind, (internal_write_post s (page_number (slot st1 s))); [done..|]. intros fd st3 Hw.
    pose proof (kept_written _ _ _ _ H2 Hv Hw) as Hk3.
    eapply post_mono; [apply IH; [apply Hk3|]|intros s' st4 [Hk4 ?]; split; [by etransitivity; [etransitivity|]|done]].
    pose proof (dirty_written s st2 st3 ltac:(apply Hv) Hd Hw). rewrite (dirty_quiet st st2) in * by done. lia.
  - apply post_ret. split; [done|right]. split_and!; [done|by rewrite (quiet_bank st1)|].
    unfold freeable, is_valid. destruct Hv as (_ & -> & _). rewrite Hd. cbn. apply orb_true_r.
Qed.

Lemma select_post p st :
  slru_inv None st → post (SlruSelectLRUPage p) st (λ s st', kept st st' ∧ selected st' p s).
Proof.
  intros H. apply (select_loop_post (1 + 2 * length (slots st)) p st H).
  assert (length (dirty_slots st) ≤ length (seqZ 0 (num_slots st)))%nat as Hl by apply length_filter.
  rewrite length_seqZ in Hl. unfold num_slots in Hl. lia.
Qed.

(** *** Putting a page into a slot *)

Record placed (s p : Z) (pg : list Z) (d : bool) st st' : Prop := {
  pl_ctl : ctl st' = ctl st;
  pl_num : num_slots st' = num_slots st;
  pl_initialized : initialized st' = {[p]} ∪ initialized st;
  pl_segments : segments st' = segments st;
  pl_other : ∀ s', 0 ≤ s' < num_slots st → s' ≠ s → same_slot (slot st s') (slot st' s');
  pl_status : page_status (slot st' s) = SLRU_PAGE_VALID;
  pl_number : page_number (slot st' s) = p;
  pl_buffer : page_buffer (slot st' s) = pg;
  pl_dirty : page_dirty (slot st' s) = d;
}.

Section Placed.
Context (s p : Z) (pg : list Z) (d : bool) (st st' : slru ncells).
Hypothesis Hinv : slru_inv None st.
Hypothesis Hpl : placed s p pg d st st'.
Hypothesis Hbank : s ∈ bank_slots st p.
Hypothesis Hfree : freeable (slot st s) = true.
Hypothesis Hnew : ∀ s', ¬ valid_at st s' p.
Hypothesis Hlen : Z.of_nat (length pg) = ncells.
Hypothesis Hp : 0 ≤ p.
Hypothesis Hdisk : d = false → disk_page st p = Some pg.

Lemma placed_valid s' q : valid_at st' s' q ↔ (s' = s ∧ q = p) ∨ (s' ≠ s ∧ valid_at st s' q).
Proof.
  pose proof (bank_in_range _ _ _ _ Hinv Hbank) as Hr. unfold valid_at. rewrite (pl_num _ _ _ _ _ _ Hpl).
  destruct (decide (s' = s)) as [->|Hne].
  - rewrite (pl_status _ _ _ _ _ _ Hpl), (pl_number _ _ _ _ _ _ Hpl). split.
    + intros (_ & _ & <-). by left.
    + intros [[_ ->]|[]]; done.
  - split.
    + intros (Hr' & H1 & H2). right. destruct (pl_other _ _ _ _ _ _ Hpl s' Hr' Hne) as (_ & E1 & _ & E2).
      split_and!; try done; try lia; congruence.
    + intros [[]|(_ & Hr' & H1 & H2)]; [done|]. destruct (pl_other _ _ _ _ _ _ Hpl s' Hr' Hne) as (_ & E1 & _ & E2).
      split_and!; try lia; congruence.
Qed.

Lemma placed_disk q : disk_page st' q = disk_page st q.
Proof. unfold disk_page. by rewrite (pl_segments _ _ _ _ _ _ Hpl). Qed.

(** The page that the slot held before is on disk. *)
Lemma placed_victim q : valid_at st s q → disk_page st q = Some (page_buffer (slot st s)).
Proof.
  intros Hv. apply (inv_clean _ _ Hinv); [done..|]. destruct Hv as (_ & Hs & _).
  unfold freeable, is_empty, is_valid in Hfree. rewrite Hs in Hfree. by destruct (page_dirty (slot st s)).
Qed.

Lemma placed_inv : slru_inv None st'.
Proof.
  pose proof (λ s' q, proj1 (placed_valid s' q)) as Hv.
  assert (∀ q, bank_slots st' q = bank_slots st q) as Hb.
  { intros q. unfold bank_slots. by rewrite (pl_ctl _ _ _ _ _ _ Hpl), (pl_num _ _ _ _ _ _ Hpl). }
  split.
  - rewrite (pl_ctl _ _ _ _ _ _ Hpl), (pl_num _ _ _ _ _ _ Hpl). apply Hinv.
  - rewrite (pl_ctl _ _ _ _ _ _ Hpl). apply Hinv.
  - rewrite (pl_num _ _ _ _ _ _ Hpl). intros s' Hs'. destruct (decide (s' = s)) as [->|Hne].
    + right. apply Hpl.
    + destruct (pl_other _ _ _ _ _ _ Hpl s' Hs' Hne) as (_ & -> & _). by apply Hinv.
  - intros s' q [[-> ->]|[Hne Hs']]%Hv; rewrite Hb, (pl_initialized _ _ _ _ _ _ Hpl).
    + rewrite (pl_buffer _ _ _ _ _ _ Hpl). split_and!; [set_solver|done..].
    + pose proof Hs' as (Hr & _). destruct (pl_other _ _ _ _ _ _ Hpl s' Hr Hne) as (-> & _).
      destruct (inv_page _ _ Hinv s' q Hs') as (? & ? & ?). split_and!; [set_solver|done..].
  - intros s' q [[-> ->]|[Hne Hs']]%Hv _; rewrite placed_disk.
    + rewrite (pl_buffer _ _ _ _ _ _ Hpl), (pl_dirty _ _ _ _ _ _ Hpl). done.
    + pose proof Hs' as (Hr & _). destruct (pl_other _ _ _ _ _ _ Hpl s' Hr Hne) as (-> & _ & -> & _). by apply Hinv.
  - intros s1 s2 q [[-> ->]|[Hne1 H1]]%Hv [[-> Hq]|[Hne2 H2]]%Hv; try done.
    + by destruct (Hnew s2).
    + subst q. by destruct (Hnew s1).
    + by apply (inv_unique _ _ Hinv s1 s2 q).
  - intros q. rewrite (pl_initialized _ _ _ _ _ _ Hpl), placed_disk. intros Hq.
    destruct (decide (q = p)) as [->|Hqp]; [split; [done|left]; exists s; apply placed_valid; by left|].
    destruct (inv_known _ _ Hinv q) as [H0 [[s' Hs']|Hk]]; [set_solver|..]; (split; [done|]); [|by right].
    destruct (decide (s' = s)) as [->|Hne]; [right|left; exists s'; apply placed_valid; by right].
    exists (page_buffer (slot st s)). split; [by apply placed_victim|by apply (inv_page _ _ Hinv s q)].
Qed.

Lemma placed_view q : slru_view st' q = if decide (q = p) then Some pg else slru_view st q.
Proof.
  case_decide as Hq.
  { subst q. rewrite (view_buffered None st' s p placed_inv) by (apply placed_valid; by left).
    by rewrite (pl_buffer _ _ _ _ _ _ Hpl). }
  destruct (decide (q ∈ initialized st)) as [Hi|Hi].
  2: { rewrite !view_none; [done|done|]. rewrite (pl_initialized _ _ _ _ _ _ Hpl). set_solver. }
  assert (q ∈ initialized st') as Hi' by (rewrite (pl_initialized _ _ _ _ _ _ Hpl); set_solver).
  pose proof (search_page None st q Hinv) as Hs. destruct (search _ _ _) as [s'|].
  - rewrite (view_buffered None st s' q Hinv Hs). destruct (decide (s' = s)) as [->|Hne].
    + rewrite (view_disk None st' q placed_inv), placed_disk; [by apply placed_victim|done|].
      intros s' [[_ ->]|[Hne Hv]]%placed_valid; [done|]. by destruct Hne; apply (inv_unique _ _ Hinv s' s q).
    + rewrite (view_buffered None st' s' q placed_inv) by (apply placed_valid; by right).
      pose proof Hs as (Hr & _). by destruct (pl_other _ _ _ _ _ _ Hpl s' Hr Hne) as (-> & _).
  - rewrite (view_disk None st q Hinv Hi Hs), (view_disk None st' q placed_inv Hi'), placed_disk; [done|].
    intros s' [[_ ->]|[_ Hv]]%placed_valid; [done|by destruct (Hs s')].
Qed.

End Placed.

(** *** The operations keep the contents *)

Lemma kept_refl st : slru_inv None st → kept st st.
Proof. intros H. by split. Qed.

(** A page that is buffered is marked as used. *)
Lemma touch_post s p st (Q : Z → slru ncells → Prop) :
  slru_inv None st → valid_at st s p → (∀ st', kept st st' → valid_at st' s p → Q s st') →
  post (SlruRecentlyUsed s ≫= λ _, mret s) st Q.
Proof.
  intros H Hv HQ. apply post_bind. eapply post_mono; [apply recently_used_quiet, Hv|]. intros [] st' Hq. cbn beta in Hq.
  apply post_ret, HQ; [by apply kept_quiet|by apply (quiet_valid st)].
Qed.

Lemma selected_holds st p s :
  slru_inv None st → selected st p s → 0 ≤ s < num_slots st ∧
    if holds_page p (slot st s) then valid_at st s p
    else (∀ s', ¬ valid_at st s' p) ∧ s ∈ bank_slots st p ∧ freeable (slot st s) = true.
Proof.
  intros H [Hv|Hn].
  - pose proof Hv as (Hr & _). split; [done|]. by rewrite (proj2 (holds_valid None st p s H Hr) Hv).
  - assert (0 ≤ s < num_slots st) as Hr by (by eapply bank_in_range; [|apply Hn]). split; [done|].
    destruct (holds_page p (slot st s)) eqn:E; [|done]. apply (holds_valid None) in E; [|done..]. by destruct (proj1 Hn s).
Qed.

Lemma valid_not_busy st s p : valid_at st s p → reading (slot st s) = false ∧ writing (slot st s) = false.
Proof. intros (_ & Hs & _). unfold reading, writing. rewrite Hs. by rewrite !bool_decide_eq_false_2. Qed.

(** [st'] is [st] with [sl] in slot [s], up to counters. *)
Definition holding (s : Z) sl st st' : Prop := quiet (set_slot s sl st) st'.

Lemma holding_start s st : 0 ≤ s < num_slots st → holding s (slot st s) st st.
Proof.
  intros Hs. split; try done; [by rewrite num_set_slot|]. intros s' Hs'. rewrite num_set_slot in Hs'.
  rewrite slot_set_slot by lia. by case_decide; subst.
Qed.

Lemma holding_quiet s sl st st1 st2 : holding s sl st st1 → quiet st1 st2 → holding s sl st st2.
Proof. unfold holding. intros. by etransitivity. Qed.

Lemma holding_slot s sl st st' : 0 ≤ s < num_slots st → holding s sl st st' → same_slot sl (slot st' s) ∧ num_slots st' = num_slots st.
Proof.
  intros Hs Hh. split; [|by rewrite (q_num _ _ Hh), num_set_slot].
  pose proof (q_slot _ _ Hh s) as Hq. rewrite num_set_slot, slot_set_slot, decide_True in Hq by lia. by apply Hq.
Qed.

Lemma holding_set s sl sl' f st st' :
  0 ≤ s < num_slots st → holding s sl st st' → same_slot (f sl) sl' → holding s (f sl) st (set_slot s sl' st').
Proof.
  intros Hs Hh Hsl. destruct (holding_slot _ _ _ _ Hs Hh) as [_ Hn]. split; try apply Hh.
  - by rewrite !num_set_slot.
  - rewrite num_set_slot. intros s' Hs'. rewrite !slot_set_slot by lia. case_decide as He; [done|].
    pose proof (q_slot _ _ Hh s') as Hq. rewrite num_set_slot, slot_set_slot, decide_False in Hq by lia. by apply Hq.
Qed.

Lemma holding_upd s sl f st st' (Q : unit → slru ncells → Prop) :
  0 ≤ s < num_slots st → holding s sl st st' → (∀ a b, same_slot a b → same_slot (f a) (f b)) →
  (∀ st2, holding s (f sl) st st2 → Q tt st2) → post (upd_slot s f) st' Q.
Proof.
  intros Hs Hh Hf HQ. apply post_modify, HQ, holding_set; [done..|]. apply Hf. by eapply holding_slot.
Qed.

Lemma same_set_status t a b : same_slot a b → same_slot (set_status t a) (set_status t b).
Proof. by intros (? & ? & ? & ?). Qed.
Lemma same_set_number q a b : same_slot a b → same_slot (set_number q a) (set_number q b).
Proof. by intros (? & ? & ? & ?). Qed.
Lemma same_set_dirty t a b : same_slot a b → same_slot (set_dirty t a) (set_dirty t b).
Proof. by intros (? & ? & ? & ?). Qed.
Lemma same_set_buffer t a b : same_slot a b → same_slot (set_buffer t a) (set_buffer t b).
Proof. by intros (? & ? & ? & ?). Qed.

Lemma known_same p (X : gset Z) : p ∈ X → {[p]} ∪ X = X.
Proof. set_solver. Qed.

(** The auxiliary set is updated last. *)
Lemma holding_placed s sl st st1 st2 :
  0 ≤ s < num_slots st → holding s sl st st1 → page_status sl = SLRU_PAGE_VALID →
  st2 = with_initialized ({[page_number sl]} ∪ initialized st1) st1 →
  placed s (page_number sl) (page_buffer sl) (page_dirty sl) st st2.
Proof.
  intros Hs Hh Hv ->. destruct (holding_slot _ _ _ _ Hs Hh) as [(E1 & E2 & E3 & E4) Hn].
  split; try done; try apply Hh.
  - cbn. by rewrite (q_initialized _ _ Hh).
  - intros s' Hs' Hne. pose proof (q_slot _ _ Hh s') as Hq.
    rewrite num_set_slot, slot_set_slot, decide_False in Hq by lia. by apply Hq.
  - cbn. by rewrite <- Hv.
Qed.

Lemma with_initialized_same st : with_initialized (initialized st) st = st.
Proof. by destruct st. Qed.

Lemma view_known st p : is_Some (slru_view st p) → p ∈ initialized st.
Proof.
  intros Hp. destruct (decide (p ∈ initialized st)); [done|]. rewrite view_none in Hp by done. by destruct Hp.
Qed.

(** Filling the slot with a page from disk. *)
Lemma load_post p s pg st (Q : Z → slru ncells → Prop) :
  slru_inv None st → 0 ≤ s < num_slots st → disk_page st p = Some pg →
  (∀ sl st', holding s sl st st' → page_status sl = SLRU_PAGE_VALID → page_number sl = p → page_buffer sl = pg →
     page_dirty sl = false → post (SlruRecentlyUsed s ≫= λ _, mret s) st' Q) →
  post (upd_slot s (set_number p) ≫= λ _,
        upd_slot s (set_status SLRU_PAGE_READ_IN_PROGRESS) ≫= λ _,
        upd_slot s (set_dirty false) ≫= λ _,
        ok ← SlruPhysicalReadPage p s;
        SimpleLruZeroLSNs s ≫= λ _,
        sl ← the_slot s;
        if negb ((page_number sl =? p) && reading sl && negb (page_dirty sl)) then raise PANIC
        else
          upd_slot s (set_status (if ok : bool then SLRU_PAGE_VALID else SLRU_PAGE_EMPTY)) ≫= λ _,
          if ok : bool then SlruRecentlyUsed s ≫= λ _, mret s
          else raise ERROR) st Q.
Proof.
  intros H Hr Hpg HQ.
  apply post_bind, (holding_upd _ (slot st s) _ st); [done|by apply holding_start|apply same_set_number|]. intros st2 H2.
  apply post_bind, (holding_upd _ _ _ st _ _ Hr H2); [apply same_set_status|]. intros st3 H3.
  apply post_bind, (holding_upd _ _ _ st _ _ Hr H3); [apply same_set_dirty|]. intros st4 H4. apply post_bind.
  assert (disk_page st4 p = Some pg) as Hd4 by (unfold disk_page in *; by rewrite (q_segments _ _ H4)).
  unfold SlruPhysicalReadPage at 1, post at 1, runs at 1. rewrite Hd4. eexists _, _. split; [done|].
  pose proof (holding_set s _ _ (set_buffer pg) _ _ Hr H4 (same_set_buffer pg _ _ (proj1 (holding_slot _ _ _ _ Hr H4)))) as H5.
  apply post_bind. eapply post_mono; [apply zero_lsns_quiet|]. intros [] st6 Hq6. cbn beta in Hq6.
  pose proof (holding_quiet _ _ _ _ _ H5 Hq6) as H6. destruct (holding_slot _ _ _ _ Hr H6) as [(_ & E2 & E3 & E4) _].
  apply post_bind, post_gets. unfold reading. rewrite E2, E3, E4. cbn. rewrite Z.eqb_refl. cbn [negb].
  apply post_bind, (holding_upd _ _ _ st _ _ Hr H6); [apply same_set_status|]. intros st7 H7. by eapply HQ.
Qed.

Lemma read_post p w st (Q : Z → slru ncells → Prop) :
  slru_inv None st → is_Some (slru_view st p) →
  (∀ s st', kept st st' → valid_at st' s p → Q s st') → post (SimpleLruReadPage p w) st Q.
Proof.
  intros H Hi%view_known HQ. unfold SimpleLruReadPage. cbn [read_loop]. apply post_bind.
  eapply post_mono; [by apply select_post|]. intros s st1 [Hk1 Hsel]. pose proof (k_inv _ _ Hk1) as H1.
  destruct (selected_holds _ _ _ H1 Hsel) as [Hr Hcase]. apply post_bind, post_gets. destruct (holds_page p (slot st1 s)).
  { destruct (valid_not_busy _ _ _ Hcase) as [-> ->]. cbn. eapply touch_post; [done..|].
    intros st2 Hk2. apply HQ. by etransitivity. }
  destruct Hcase as (Hn & Hb & Hf). rewrite Hf. cbn [negb].
  assert (p ∈ initialized st1) as Hi1 by (by rewrite (k_initialized _ _ Hk1)).
  destruct (inv_known _ _ H1 p Hi1) as [H0 [[s' Hs']|(pg & Hpg & Hlen)]]; [by destruct (Hn s')|].
  apply (load_post p s pg); [done..|]. intros sl st7 H7 Hv <- <- Hd.
  pose proof (holding_placed _ _ _ _ st7 Hr H7 Hv) as Hpl. rewrite (q_initialized _ _ H7) in Hpl. cbn in Hpl.
  rewrite known_same in Hpl by done. specialize (Hpl ltac:(rewrite <- (with_initialized_same st7) at 1; by rewrite (q_initialized _ _ H7))).
  rewrite Hd in Hpl. pose proof (placed_inv _ _ _ _ _ _ H1 Hpl Hb Hf Hn Hlen H0 ltac:(done)) as H7'.
  eapply touch_post; [done|by apply (placed_valid _ _ _ _ _ _ H1 Hpl Hb); left|].
  intros st8 Hk8. apply HQ. etransitivity; [|exact Hk8]. etransitivity; [exact Hk1|].
  split; [done|apply Hpl|apply Hpl| |].
  - rewrite (pl_initialized _ _ _ _ _ _ Hpl). by apply known_same.
  - intros q. rewrite (placed_view _ _ _ _ _ _ H1 Hpl) by done. case_decide; [subst q|done]. by rewrite (view_disk None st1).
Qed.

Lemma read_only_post p st (Q : Z → slru ncells → Prop) :
  slru_inv None st → is_Some (slru_view st p) →
  (∀ s st', kept st st' → valid_at st' s p → Q s st') → post (SimpleLruReadPage_ReadOnly p) st Q.
Proof.
  intros H Hp HQ. unfold SimpleLruReadPage_ReadOnly, execSimpleLruReadPageReadOnly. apply post_bind, post_gets.
  destruct (search _ _ _) as [s|] eqn:E; [|by apply read_post].
  apply search_Some in E as [Hin [Hh _]%andb_true_iff]. eapply touch_post; [done| |by apply HQ].
  apply (holds_valid None); [done|by eapply bank_in_range|done].
Qed.

(** A page is created: it is zero, unless it was buffered. *)
Lemma zero_post p st (Q : Z * bool → slru ncells → Prop) :
  slru_inv None st → 0 ≤ p → 0 ≤ ncells →
  (∀ s z st', slru_inv None st' → ctl st' = ctl st → initialized st' = {[p]} ∪ initialized st → valid_at st' s p →
     (slru_view st' p = Some zero_page ∨ (is_Some (slru_view st p) ∧ slru_view st' p = slru_view st p)) →
     (∀ q, q ≠ p → slru_view st' q = slru_view st q) → Q (s, z) st') →
  post (SimpleLruZeroPage p) st Q.
Proof.
  intros H H0 Hc HQ. unfold SimpleLruZeroPage. cbn [zero_loop]. apply post_bind, post_bind.
  eapply post_mono; [by apply select_post|]. intros s st1 [Hk1 Hsel]. pose proof (k_inv _ _ Hk1) as H1.
  destruct (selected_holds _ _ _ H1 Hsel) as [Hr Hcase]. apply post_bind, post_gets. destruct (holds_page p (slot st1 s)).
  { destruct (valid_not_busy _ _ _ Hcase) as [-> _]. apply post_bind.
    eapply post_mono; [apply recently_used_quiet, Hr|]. intros [] st2 Hq2. cbn beta in Hq2. apply post_ret, post_bind, post_modify, post_ret.
    pose proof (kept_trans _ _ _ Hk1 (kept_quiet _ _ H1 Hq2)) as Hk. pose proof (proj2 (quiet_valid st1 st2 s p Hq2) Hcase) as Hv.
    destruct (inv_page _ _ (k_inv _ _ Hk) s p Hv) as (Hi & _). rewrite known_same, with_initialized_same by done.
    apply HQ; [apply Hk|apply Hk| |done| |].
    - rewrite <- (k_initialized _ _ Hk). by rewrite known_same.
    - right. rewrite <- (k_view _ _ Hk). split; [|done]. by rewrite (view_buffered None _ s p (k_inv _ _ Hk) Hv).
    - intros q _. apply Hk. }
  destruct Hcase as (Hn & Hb & Hf). rewrite Hf. cbn [negb].
  apply post_bind, (holding_upd _ (slot st1 s) _ st1); [done|by apply holding_start|apply same_set_number|]. intros st2 H2.
  apply post_bind, (holding_upd _ _ _ st1 _ _ Hr H2); [apply same_set_status|]. intros st3 H3.
  apply post_bind, (holding_upd _ _ _ st1 _ _ Hr H3); [apply same_set_dirty|]. intros st4 H4.
  destruct (holding_slot _ _ _ _ Hr H4) as [_ Hn4].
  apply post_bind. eapply post_mono; [apply recently_used_quiet; by rewrite Hn4|]. intros [] st5 Hq5. cbn beta in Hq5.
  pose proof (holding_quiet _ _ _ _ _ H4 Hq5) as H5.
  apply post_bind, (holding_upd _ _ _ st1 _ _ Hr H5); [apply same_set_buffer|]. intros st6 H6.
  apply post_bind. eapply post_mono; [apply zero_lsns_quiet|]. intros [] st7 Hq7. cbn beta in Hq7.
  pose proof (holding_quiet _ _ _ _ _ H6 Hq7) as H7. pose proof (holding_quiet _ _ _ _ _ H7 (quiet_latest p _)) as H8.
  apply post_bind, post_modify, post_ret, post_bind, post_modify, post_ret.
  pose proof (holding_placed _ _ _ _ _ Hr H8 eq_refl eq_refl) as Hpl. cbn [set_buffer set_dirty set_status set_number page_number page_buffer page_dirty] in Hpl.
  assert (Z.of_nat (length zero_page) = ncells) as Hlen by (unfold zero_page; rewrite length_replicate; lia).
  pose proof (placed_inv _ _ _ _ _ _ H1 Hpl Hb Hf Hn Hlen H0 ltac:(done)) as H9.
  apply HQ; [done| | | | |].
  - rewrite (pl_ctl _ _ _ _ _ _ Hpl). apply Hk1.
  - rewrite (pl_initialized _ _ _ _ _ _ Hpl). by rewrite (k_initialized _ _ Hk1).
  - apply (placed_valid _ _ _ _ _ _ H1 Hpl Hb). by left.
  - left. rewrite (placed_view _ _ _ _ _ _ H1 Hpl) by done. by rewrite decide_True.
  - intros q Hq. rewrite (placed_view _ _ _ _ _ _ H1 Hpl) by done. rewrite decide_False by done. apply Hk1.
Qed.

(** *** Cells of a buffer *)

Definition cell_get st (s off : Z) : Z := aget 0 (page_buffer (slot st s)) off.
Definition cell_set (s off v : Z) st : slru ncells :=
  set_slot s (set_buffer (aset (page_buffer (slot st s)) off v) (slot st s)) st.
Definition make_dirty (s : Z) st : slru ncells := set_slot s (set_dirty true (slot st s)) st.
Definition lsn_get st (s i : Z) : Z := aget 0 (group_lsns st) (s * lsn_groups_per_page (ctl st) + i).
Definition lsn_set (s i v : Z) st : slru ncells :=
  with_lsns (aset (group_lsns st) (s * lsn_groups_per_page (ctl st) + i) v) st.

(** The slot at hand may differ from the disk. *)
Definition at_slot st (p s : Z) : Prop := slru_inv (Some s) st ∧ valid_at st s p.

Lemma inv_exempt s st : slru_inv None st → slru_inv (Some s) st.
Proof. intros H. split; try apply H. intros s' p Hv _. by apply (inv_clean _ _ H). Qed.

(** Changing the buffer and the mark of a slot that is exempt, or becomes dirty. *)
Lemma inv_set_slot x s p sl st :
  slru_inv (Some s) st → valid_at st s p → page_status sl = SLRU_PAGE_VALID → page_number sl = p →
  Z.of_nat (length (page_buffer sl)) = ncells → (x = Some s ∨ page_dirty sl = true) →
  slru_inv x (set_slot s sl st) ∧ valid_at (set_slot s sl st) s p ∧
  slru_view (set_slot s sl st) p = Some (page_buffer sl) ∧
  ∀ q, q ≠ p → slru_view (set_slot s sl st) q = slru_view st q.
Proof.
  intros H Hv Hst Hp Hlen Hx. pose proof Hv as (Hr & _). set (st' := set_slot s sl st).
  assert (∀ s', 0 ≤ s' < num_slots st → slot st' s' = if decide (s' = s) then sl else slot st s') as Hs
    by (intros; apply slot_set_slot; lia).
  assert (num_slots st' = num_slots st) as Hn by apply num_set_slot.
  assert (∀ s' q, valid_at st' s' q ↔ valid_at st s' q) as Hve.
  { intros s' q. unfold valid_at. rewrite Hn. split; intros (Hr' & H1 & H2).
    all: specialize (Hs s' Hr'); destruct Hv as (_ & V1 & V2).
    all: destruct (decide (s' = s)) as [He|He]; [rewrite He in *|]; rewrite Hs in *.
    all: split; [done|split; congruence]. }
  assert (∀ q, bank_slots st' q = bank_slots st q) as Hb by (intros q; unfold bank_slots; by rewrite Hn).
  assert (slru_inv x st') as H'.
  { split; try apply H.
    - rewrite Hn. apply H.
    - rewrite Hn. intros s' Hs'. rewrite Hs by done. case_decide; [by right|by apply H].
    - intros s' q Hv'%Hve. rewrite Hb. pose proof Hv' as (Hr' & _). rewrite Hs by done.
      destruct (inv_page _ _ H s' q Hv') as (? & ? & ?). by case_decide.
    - intros s' q Hv'%Hve Hxs. pose proof Hv' as (Hr' & _). rewrite Hs by done. case_decide as He.
      + subst s'. intros Hd. destruct Hx as [->|Hx]; [done|congruence].
      + change (disk_page st') with (disk_page st). apply (inv_clean _ _ H); [done|]. by intros [= ->].
    - intros s1 s2 q H1%Hve H2%Hve. by apply (inv_unique _ _ H s1 s2 q).
    - intros q. setoid_rewrite Hve. apply (inv_known _ _ H). }
  split_and!; [done|by apply Hve| |].
  - rewrite (view_buffered x st' s p H') by (by apply Hve). by rewrite Hs, decide_True.
  - intros q Hq. destruct (decide (q ∈ initialized st)) as [Hi|Hi]; [|by rewrite !view_none].
    pose proof (search_page (Some s) st q H) as Hse. destruct (search _ _ _) as [s'|].
    + rewrite (view_buffered x st' s' q H') by (by apply Hve). rewrite (view_buffered _ st s' q H Hse).
      pose proof Hse as (Hr' & _ & Hq'). rewrite Hs by done. rewrite decide_False; [done|]. intros ->. destruct Hv as (_ & _ & ?). congruence.
    + rewrite (view_disk x st' q H' Hi) by (intros s' Hv'%Hve; by destruct (Hse s')).
      by rewrite (view_disk _ st q H Hi Hse).
Qed.

End Slru.
End Slru.

(** ** The cache meets the contract *)

Import Slru.

Section Instance.
Context {ncells : Z}.
Implicit Types st : slru ncells.

#[export] Instance slru_ops : SlruOps (slru ncells) := {
  SlruInterface.SimpleLruReadPage := Slru.SimpleLruReadPage;
  SlruInterface.SimpleLruReadPage_ReadOnly := Slru.SimpleLruReadPage_ReadOnly;
  SlruInterface.SimpleLruZeroPage p := '(s, _) ← Slru.SimpleLruZeroPage p; mret s;
  page_get st p s off := cell_get st s off;
  page_set p s off v st := cell_set s off v st;
  mark_dirty p s st := make_dirty s st;
  group_lsn st p s i := lsn_get st s i;
  set_group_lsn p s i v st := lsn_set s i v st;
  set_latest_page_number _ p st := with_latest p st;
  set_force_check_first_xid _ b st := with_force b st;
}.

Lemma at_slot_quiet p s st st' : quiet st st' → at_slot st p s → at_slot st' p s ∧ ∀ q, Slru.slru_view st' q = Slru.slru_view st q.
Proof.
  intros Hq [H Hv]. split; [split; [by eapply quiet_inv|by apply (quiet_valid st)]|]. intros q. by apply (quiet_view (Some s)).
Qed.

Lemma ok_quiet st st' : quiet st st' → slru_inv None st → slru_inv None st' ∧ ∀ q, Slru.slru_view st' q = Slru.slru_view st q.
Proof. intros Hq H. split; [by eapply quiet_inv|]. intros q. by apply (quiet_view None). Qed.

#[local] Obligation Tactic := idtac.
#[export] Program Instance slru_spec `{!TCEq (0 <=? ncells) true} : SlruSpec (slru ncells) ncells := {
  SlruInterface.slru_view := Slru.slru_view;
  slru_ok := slru_inv None;
  slru_at := at_slot;
}.
Next Obligation.
  intros ? st p pg H Hv. pose proof (view_known st p ltac:(by rewrite Hv)) as Hi.
  pose proof (search_page None st p H) as Hs. destruct (search _ _ _) as [s|].
  - rewrite (view_buffered None st s p H Hs) in Hv. injection Hv as <-. by apply (inv_page _ _ H s p).
  - rewrite (view_disk None st p H Hi Hs) in Hv. destruct (inv_known _ _ H p Hi) as [_ [[s Hs']|(pg' & Hd & Hl)]]; [by destruct (Hs s)|congruence].
Qed.
Next Obligation.
  intros ? st p w H Hp. apply (read_post p w st (λ s st', _ ∧ _)); [done..|]. intros s st' Hk Hv.
  split_and!; [apply Hk|split; [apply inv_exempt, Hk|done]|apply Hk].
Qed.
Next Obligation.
  intros ? st p H Hp. apply (read_only_post p st (λ s st', _ ∧ _)); [done..|]. intros s st' Hk Hv.
  split_and!; [apply Hk|split; [apply inv_exempt, Hk|done]|apply Hk].
Qed.
Next Obligation.
  intros Hn st p H Hp. apply TCEq_eq, Z.leb_le in Hn.
  apply (post_bind _ _ st (λ s st', _ ∧ _)), zero_post; [done..|]. intros s z st' H' _ _ Hv Hz Ho. apply post_ret.
  split_and!; [done|split; [by apply inv_exempt|done]|done..].
Qed.
Next Obligation. intros ? st p s [H Hv]. by rewrite (view_buffered _ _ s p H Hv). Qed.
Next Obligation.
  intros ? st p s pg [H Hv] Hpg. rewrite (view_buffered _ _ s p H Hv) in Hpg. injection Hpg as <-. by apply (inv_page _ _ H s p).
Qed.
Next Obligation.
  intros ? st p s pg off [H Hv] Hpg _. rewrite (view_buffered _ _ s p H Hv) in Hpg. by injection Hpg as <-.
Qed.
Next Obligation.
  intros ? st p s pg off v [H Hv] Hpg _. rewrite (view_buffered _ _ s p H Hv) in Hpg. injection Hpg as <-.
  destruct (inv_set_slot (Some s) s p (set_buffer (aset (page_buffer (slot st s)) off v) (slot st s)) st) as (? & ? & ? & ?);
    try done; try apply Hv; [|by left]. cbn. rewrite length_aset. by apply (inv_page _ _ H s p).
Qed.
Next Obligation.
  intros ? st p s [H Hv].
  destruct (inv_set_slot None s p (set_dirty true (slot st s)) st) as (? & ? & Hp & ?);
    try done; try apply Hv; [by apply (inv_page _ _ H s p)|by right|].
  split; [done|]. intros q. destruct (decide (q = p)) as [->|]; [|auto].
  etrans; [exact Hp|]. by rewrite (view_buffered _ _ s p H Hv).
Qed.
Next Obligation.
  intros ? st p s [H Hv].
  destruct (inv_set_slot None s p (set_dirty true (slot st s)) st) as (? & ? & _ & _);
    try done; try apply Hv; [by apply (inv_page _ _ H s p)|by right|]. split; [by apply inv_exempt|done].
Qed.
Next Obligation. intros ? st p s i v. apply at_slot_quiet, quiet_lsns. Qed.
Next Obligation. intros ? st p v. apply ok_quiet, quiet_latest. Qed.
Next Obligation. intros ? st p b. apply ok_quiet, quiet_force. Qed.

End Instance.
