(* ===== verification/SlruRefinement.v ===== *)
(** * What the SLRU cache guarantees

    [Slru.v] models the cache of [slru.cpp] and shows that it meets the contract of
    [SlruInterface.v]. This file states what follows for a log kept in it: its results
    are those of a plain page store whatever is evicted in between; a victim is always
    found; the write-ahead log is flushed before a page; a write that fails loses
    nothing; a flush makes the files complete; a truncation removes the pages before
    the cutoff and no other. *)

From S2P Require Import Prelude SlruInterface Slru.

Import Slru.

(** [m] raises an error of the level; [Q] holds of the state it leaves. *)
Definition fails {S A} (m : M S A) (s : S) (l : elevel) (Q : S → Prop) : Prop :=
  ∃ s', m s = (Ereport l, s') ∧ Q s'.

Lemma fails_bind {S A B} (m : M S A) (k : A → M S B) s l (Q : S → Prop) :
  post m s (λ a s', fails (k a) s' l Q) → fails (m ≫= k) s l Q.
Proof. intros (a & s1 & Hr & s2 & Hk & HQ). exists s2. unfold mbind, M_bind. unfold runs in Hr. by rewrite Hr. Qed.

Lemma fails_raise {S A} (s : S) l (Q : S → Prop) : Q s → fails (raise l : M S A) s l Q.
Proof. intros H. by exists s. Qed.

Section Cache.
Context {ncells : Z}.
Implicit Types st : slru ncells.

(** ** Writing *)

(** The largest group LSN is one. *)
Lemma max_lsn_ge st s i : 0 ≤ i < lsn_groups_per_page (ctl st) → lsn_get st s i ≤ max_lsn st s.
Proof.
  unfold lsn_get, max_lsn. set (n := lsn_groups_per_page (ctl st)). set (f := λ i, aget 0 (group_lsns st) (s * n + i)).
  intros Hi. change (f i ≤ fold_left (λ m i, if m <? f i then f i else m) (seqZ 1 (n - 1)) (f 0)).
  assert (∀ l m, m ≤ fold_left (λ m i, if m <? f i then f i else m) l m ∧
    ∀ j, j ∈ l → f j ≤ fold_left (λ m i, if m <? f i then f i else m) l m) as Hf.
  { induction l as [|j l IH]; intros m; cbn; [split; [done|by intros j ?%elem_of_nil]|].
    destruct (IH (if m <? f j then f j else m)) as [IH1 IH2]. destruct (Z.ltb_spec m (f j)).
    - split; [lia|]. intros k [-> |Hk]%elem_of_cons; [lia|auto].
    - split; [lia|]. intros k [-> |Hk]%elem_of_cons; [lia|auto]. }
  destruct (Hf (seqZ 1 (n - 1)) (f 0)) as [H0 H1]. destruct (decide (i = 0)) as [->|Hne]; [done|].
  apply H1, elem_of_seqZ. lia.
Qed.

Lemma wal_first_flushed s st i :
  0 ≤ wal_flushed st → 0 ≤ i < lsn_groups_per_page (ctl st) → lsn_get st s i ≤ wal_flushed (wal_first s st).
Proof.
  intros H0 Hi. pose proof (max_lsn_ge st s i Hi). unfold wal_first.
  destruct (Z.ltb_spec 0 (lsn_groups_per_page (ctl st))); [|lia].
  destruct (Z.eqb_spec (max_lsn st s) 0); cbn; lia.
Qed.

(** A write, whatever its outcome: the slot is dirty afterwards iff it failed. *)
Lemma write_page_run st s p :
  valid_at st s p → page_dirty (slot st s) = true →
  let ok := write_succeeds (ctl st) p in
  ∃ st', SimpleLruWritePage s st = (if ok then Ok tt else Ereport ERROR, st') ∧
    slot st' s = set_dirty (negb ok) (slot st s) ∧
    (∀ s', 0 ≤ s' < num_slots st → s' ≠ s → slot st' s' = slot st s') ∧
    num_slots st' = num_slots st ∧ initialized st' = initialized st ∧
    segments st' = files_after p (page_buffer (slot st s)) ok st ∧
    page_writes st' = writes_after p s ok st.
Proof.
  intros (Hr & Hst & Hp) Hd ok.
  assert (writing (slot st s) = false ∧ is_valid (slot st s) = true) as [Hw Hv]
    by (unfold writing, is_valid; by rewrite Hst).
  set (st2 := set_slot s (set_dirty false (set_status SLRU_PAGE_WRITE_IN_PROGRESS (slot st s)))
                (set_slot s (set_status SLRU_PAGE_WRITE_IN_PROGRESS (slot st s)) st)).
  assert (slot (set_slot s (set_status SLRU_PAGE_WRITE_IN_PROGRESS (slot st s)) st) s =
    set_status SLRU_PAGE_WRITE_IN_PROGRESS (slot st s)) as E1 by (rewrite slot_set_slot by lia; by rewrite decide_True).
  assert (slot st2 s = set_dirty false (set_status SLRU_PAGE_WRITE_IN_PROGRESS (slot st s))) as E2
    by (unfold st2; rewrite slot_set_slot by (rewrite ?num_set_slot; lia); by rewrite decide_True).
  destruct (physical_write_run p s None st2) as [fd Hph]. change (ctl st2) with (ctl st) in Hph. fold ok in Hph.
  set (st3 := after_write p s ok st2) in Hph.
  destruct (wal_first_same s st2) as (_ & W2 & _ & _ & W4 & _ & _).
  assert (∀ s', slot st3 s' = slot st2 s') as E3 by (intros; unfold slot, st3; cbn; by rewrite W2).
  assert (num_slots st3 = num_slots st) as N3 by (unfold num_slots, st3; cbn; rewrite W2; cbn; by rewrite !length_aset).
  set (st4 := if ok then st3 else set_slot s (set_dirty true (slot st3 s)) st3).
  assert (slot st4 s = set_dirty (negb ok) (slot st3 s) ∧ num_slots st4 = num_slots st) as [E4 N4].
  { subst st4. destruct ok; cbn [negb]; [by rewrite E3, E2|]. rewrite num_set_slot, slot_set_slot by lia. by rewrite decide_True. }
  exists (set_slot s (set_status SLRU_PAGE_VALID (slot st4 s)) st4). split.
  { unfold SimpleLruWritePage, SlruInternalWritePage, the_slot, upd_slot, mbind, M_bind, gets, modify, skip, mret, M_ret.
    rewrite Hw. cbv zeta. rewrite Hd, Hv, Z.eqb_refl. cbn [negb orb]. rewrite E1. fold st2. rewrite Hp, Hph. rewrite E3, E2.
    cbn [page_number set_dirty set_status]. rewrite Hp, Z.eqb_refl. unfold writing. cbn [page_status set_dirty set_status].
    rewrite bool_decide_eq_true_2 by done. cbn [andb negb]. subst st4. by destruct ok. }
  assert (∀ s', 0 ≤ s' < num_slots st → s' ≠ s → slot st4 s' = slot st s') as E5.
  { intros s' Hs' Hne. etrans; [|etrans; [apply (E3 s')|]].
    - subst st4. destruct ok; [done|]. rewrite slot_set_slot by lia. by rewrite decide_False.
    - unfold st2. rewrite slot_set_slot, decide_False, slot_set_slot, decide_False; rewrite ?num_set_slot; lia || done. }
  rewrite num_set_slot. split_and!.
  - rewrite slot_set_slot, decide_True, E4, E3, E2 by lia. by destruct ok, (slot st s); cbn in *; subst.
  - intros s' Hs' Hne. rewrite slot_set_slot, decide_False by lia. by apply E5.
  - done.
  - subst st4. destruct ok; cbn; by rewrite W4.
  - transitivity (segments st3); [by subst st4; destruct ok|]. unfold st3, after_write. cbn. unfold files_after.
    by rewrite E2.
  - transitivity (page_writes st3); [by subst st4; destruct ok|]. unfold st3, after_write. cbn.
    unfold writes_after, wal_first. rewrite E2. change (max_lsn st2 s) with (max_lsn st s).
    change (ctl st2) with (ctl st). change (slot_lsns st2 s) with (slot_lsns st s).
    destruct ok; [|done]. by destruct (0 <? _), (max_lsn st s =? 0).
Qed.

Lemma failed_files_disk st st' p pg q :
  segments st' = files_after p pg false st → disk_page st' q = disk_page st q.
Proof.
  intros Hs. unfold disk_page. rewrite Hs. unfold files_after.
  destruct (decide (q / SLRU_PAGES_PER_SEGMENT = p / SLRU_PAGES_PER_SEGMENT)) as [->|He]; [|by rewrite lookup_insert_ne].
  rewrite lookup_insert_eq. by destruct (segments st !! _).
Qed.

(** ** Flushing *)

(** The slot has nothing that is not on disk. *)
Definition clean st (s : Z) : Prop := page_status (slot st s) = SLRU_PAGE_VALID → page_dirty (slot st s) = false.

Lemma clean_written s st st' s' : written s st st' → 0 ≤ s' < num_slots st → (s' = s ∨ clean st s') → clean st' s'.
Proof.
  intros Hw Hr Hc. unfold clean. rewrite (w_slot _ _ _ Hw s' Hr). case_decide; [done|]. by destruct Hc.
Qed.

Lemma empty_write_post s fdata st (Q : option (list Z) → slru ncells → Prop) :
  page_status (slot st s) = SLRU_PAGE_EMPTY → Q fdata st → post (SlruInternalWritePage s fdata) st Q.
Proof.
  intros He HQ. unfold SlruInternalWritePage. apply post_bind, post_gets. unfold writing, is_valid. rewrite He.
  apply post_bind, post_skip, post_bind, post_gets. rewrite He, !bool_decide_eq_false_2, orb_true_r by done. by apply post_ret.
Qed.

Lemma flush_loop_post l fdata st (Q : Z → slru ncells → Prop) :
  slru_inv None st → (∀ s, s ∈ l → 0 ≤ s < num_slots st) →
  (∀ n st', kept st st' → (∀ s, 0 ≤ s < num_slots st → s ∈ l ∨ clean st s → clean st' s) → Q n st') →
  post (flush_loop l fdata) st Q.
Proof.
  revert fdata st. induction l as [|s l IH]; intros fdata st H Hl HQ; cbn [flush_loop].
  { apply post_ret, HQ; [by apply kept_refl|]. by intros s _ [?%elem_of_nil|]. }
  assert (0 ≤ s < num_slots st) as Hr by (apply Hl; left).
  apply post_bind, post_gets, post_bind, post_gets. destruct (inv_status _ _ H s Hr) as [He|Hv].
  - assert (post (flush_loop l fdata) st Q) as Hrest.
    { apply IH; [done|by intros s' Hs'; apply Hl; right|]. intros n st' Hk Hc. apply HQ; [done|].
      intros s' Hr' [[-> |Hin]%elem_of_cons|Hcl]; apply Hc; auto. right. unfold clean. by rewrite He. }
    unfold is_empty. rewrite He, bool_decide_eq_true_2 by done. destruct (enable_banks (ctl st)); [done|].
    cbn [andb]. apply post_bind. by apply empty_write_post.
  - unfold is_empty. rewrite Hv, bool_decide_eq_false_2, andb_false_r by done. apply post_bind.
    eapply internal_write_post; [done|by split|]. intros fd st1 Hw.
    pose proof (kept_written s (page_number (slot st s)) st st1 H ltac:(by split) Hw) as Hk1.
    apply IH; [apply Hk1|intros s' Hs'; rewrite (k_num _ _ Hk1); apply Hl; by right|].
    intros n st2 Hk2 Hc2. apply HQ; [by eapply kept_trans|]. intros s' Hr' Hs'. apply Hc2; [by rewrite (k_num _ _ Hk1)|].
    destruct Hs' as [[-> |Hin]%elem_of_cons|Hcl]; [right; eapply clean_written; eauto|by left|right; eapply clean_written; eauto].
Qed.

(** After a flush every page that may be asked for is in the files. *)
Lemma flush_post st (Q : Z → slru ncells → Prop) :
  slru_inv None st →
  (∀ n st', kept st st' → (∀ p, p ∈ initialized st → disk_page st' p = slru_view st p) → Q n st') →
  post SimpleLruFlush st Q.
Proof.
  intros H HQ. change (post (flush_loop (seqZ 0 (num_slots st)) (Some [])) st Q).
  apply flush_loop_post; [done|by intros s ?%all_slots|]. intros n st' Hk Hc. apply HQ; [done|]. intros p Hp.
  pose proof (k_inv _ _ Hk) as H'. rewrite <- (k_view _ _ Hk). rewrite <- (k_initialized _ _ Hk) in Hp.
  pose proof (search_page None st' p H') as Hs. destruct (search _ _ _) as [s|].
  - rewrite (view_buffered None st' s p H' Hs). apply (inv_clean _ _ H' s p Hs); [done|].
    destruct Hs as (Hr & Hv & _). rewrite (k_num _ _ Hk) in Hr. apply Hc; [done|left; by apply all_slots|done].
  - by rewrite (view_disk None st' p H' Hp Hs).
Qed.

(** A cache that starts over the files shows what they hold. *)
Lemma init_view nslots nlsns banks parts rec ok files pages p :
  p ∈ pages →
  slru_view (SimpleLruInit (ncells := ncells) nslots nlsns banks parts rec ok files pages) p =
  disk_page (SimpleLruInit (ncells := ncells) nslots nlsns banks parts rec ok files pages) p.
Proof.
  intros Hp. unfold slru_view. rewrite decide_True by done. destruct (search _ _ _) as [s|] eqn:E; [|done].
  apply search_Some in E as [Hs Hh]. unfold holds_page, is_empty, slot, SimpleLruInit in Hh. cbn [slots] in Hh.
  apply elem_of_seqZ in Hs. unfold num_slots in Hs. cbn [slots SimpleLruInit] in Hs. rewrite length_replicate in Hs.
  unfold aget in Hh. rewrite lookup_replicate_2 in Hh by lia. cbn in Hh. by rewrite andb_false_r in Hh.
Qed.

Definition good_slots (nslots : Z) (banks : bool) : Prop :=
  if banks then 0 < nslots ∧ nslots mod SLRU_BANK_SIZE = 0 else 2 ≤ nslots.

Lemma init_inv nslots nlsns banks parts rec ok files pages :
  good_slots nslots banks → (∀ p, ok p = true) →
  let st := SimpleLruInit (ncells := ncells) nslots nlsns banks parts rec ok files pages in
  (∀ p, p ∈ pages → 0 ≤ p ∧ ∃ pg, disk_page st p = Some pg ∧ Z.of_nat (length pg) = ncells) →
  slru_inv None st.
Proof.
  intros Hn Hok st Hp.
  assert (∀ s, 0 ≤ s < num_slots st → page_status (slot st s) = SLRU_PAGE_EMPTY) as He.
  { intros s Hs. unfold num_slots, st, slot, SimpleLruInit in *. cbn [slots] in *. rewrite length_replicate in Hs.
    unfold aget. by rewrite lookup_replicate_2 by lia. }
  assert (∀ s p, ¬ valid_at st s p) as Hv by (intros s p (Hr & Hv & _); rewrite He in Hv; done).
  split; try (by intros; exfalso; eapply Hv).
  - unfold good_slots in Hn. cbn [ctl SimpleLruInit enable_banks bank_mask st]. unfold num_slots, st. cbn [slots SimpleLruInit].
    rewrite length_replicate. change SLRU_BANK_SIZE with 16 in *. destruct banks; [|lia].
    destruct Hn as [Hn Hm]. pose proof (Z.div_mod nslots 16). lia.
  - done.
  - intros s Hs. left. by apply He.
  - intros p Hi. destruct (Hp p Hi) as [? ?]. auto.
Qed.

(** ** Truncation *)

(** A clean page leaves the cache. *)
Lemma empty_kept s p st :
  slru_inv None st → valid_at st s p → page_dirty (slot st s) = false →
  kept st (set_slot s (set_status SLRU_PAGE_EMPTY (slot st s)) st).
Proof.
  intros H Hv Hd. pose proof Hv as (Hr & _). set (st' := set_slot s _ st).
  assert (∀ s', 0 ≤ s' < num_slots st → slot st' s' = if decide (s' = s) then set_status SLRU_PAGE_EMPTY (slot st s) else slot st s') as Hs
    by (intros; apply slot_set_slot; lia).
  assert (num_slots st' = num_slots st) as Hn by apply num_set_slot.
  assert (∀ s' q, valid_at st' s' q ↔ s' ≠ s ∧ valid_at st s' q) as Hve.
  { intros s' q. unfold valid_at. rewrite Hn. split.
    - intros (Hr' & H1). rewrite (Hs s' Hr') in H1. case_decide; [by destruct H1|done].
    - intros (Hne & Hr' & H1). rewrite (Hs s' Hr'). by rewrite decide_False. }
  assert (∀ q, bank_slots st' q = bank_slots st q) as Hb by (intros q; unfold bank_slots; by rewrite Hn).
  assert (slru_inv None st') as H'.
  { split; try apply H.
    - rewrite Hn. apply H.
    - rewrite Hn. intros s' Hs'. rewrite Hs by done. case_decide; [by left|by apply H].
    - intros s' q [Hne Hv']%Hve. rewrite Hb. pose proof Hv' as (Hr' & _). rewrite Hs, decide_False by done. by apply (inv_page _ _ H).
    - intros s' q [Hne Hv']%Hve Hxs. pose proof Hv' as (Hr' & _). rewrite Hs, decide_False by done. by apply (inv_clean _ _ H).
    - intros s1 s2 q [_ H1]%Hve [_ H2]%Hve. by apply (inv_unique _ _ H s1 s2 q).
    - intros q Hq. destruct (inv_known _ _ H q Hq) as [Hq0 [[s' Hv']|Hdisk]]; split; auto. destruct (decide (s' = s)) as [->|Hne].
      + right. exists (page_buffer (slot st s)). split; [by apply (inv_clean _ _ H)|by apply (inv_page _ _ H s q)].
      + left. exists s'. by apply Hve. }
  split; [done..|]. intros q. destruct (decide (q ∈ initialized st)) as [Hi|Hi]; [|by rewrite !view_none].
  pose proof (search_page None st q H) as Hse. destruct (search _ _ _) as [s'|].
  - rewrite (view_buffered None st s' q H Hse). destruct (decide (s' = s)) as [->|Hne].
    + rewrite (view_disk None st' q H' Hi); [by apply (inv_clean _ _ H)|]. intros s' [Hne Hv']%Hve.
      by apply Hne, (inv_unique _ _ H s' s q).
    + rewrite (view_buffered None st' s' q H') by (by apply Hve). destruct Hse as (Hr' & _). by rewrite Hs, decide_False.
  - rewrite (view_disk None st' q H' Hi), (view_disk None st q H Hi Hse); [done|]. intros s' [_ Hv']%Hve. by apply (Hse s').
Qed.

(** The slot holds no page before the cutoff. *)
Definition gone (c : Z) st (s : Z) : Prop := page_status (slot st s) = SLRU_PAGE_VALID → c ≤ page_number (slot st s).

(** The scan either finishes, or has written a dirty page. *)
Lemma truncate_scan_post c l st (Q : bool → slru ncells → Prop) :
  slru_inv None st → (∀ s, s ∈ l → 0 ≤ s < num_slots st) →
  (∀ again st', kept st st' → latest_page_number st' = latest_page_number st →
     (if again : bool then (length (dirty_slots st') < length (dirty_slots st))%nat
      else length (dirty_slots st') = length (dirty_slots st) ∧
           ∀ s, 0 ≤ s < num_slots st → s ∈ l ∨ gone c st s → gone c st' s) → Q again st') →
  post (truncate_scan l c false) st Q.
Proof.
  revert st. induction l as [|s l IH]; intros st H Hl HQ; cbn [truncate_scan].
  { apply post_ret, HQ; [by apply kept_refl|done|]. split; [done|]. by intros s _ [?%elem_of_nil|]. }
  assert (0 ≤ s < num_slots st) as Hr by (apply Hl; left).
  assert (gone c st s → post (truncate_scan l c false) st Q) as Hskip.
  { intros Hg. apply IH; [done|by intros s' Hs'; apply Hl; right|]. intros again st' Hk Hla Hc. apply HQ; [done..|].
    destruct again; [done|]. destruct Hc as [Hd Hc]. split; [done|]. intros s' Hr' [[-> |Hin]%elem_of_cons|Hcl]; apply Hc; auto. }
  apply post_bind, post_gets. destruct (inv_status _ _ H s Hr) as [He|Hv].
  { unfold is_empty. rewrite He, bool_decide_eq_true_2 by done. apply Hskip. unfold gone. by rewrite He. }
  assert (valid_at st s (page_number (slot st s))) as Hva by by split.
  unfold is_empty, is_valid. rewrite Hv, bool_decide_eq_false_2, bool_decide_eq_true_2 by done.
  destruct (Z.leb_spec c (page_number (slot st s))); [by apply Hskip; intros _|].
  destruct (page_dirty (slot st s)) eqn:Hd; cbn [negb andb].
  - apply post_bind. eapply internal_write_post; [done..|]. intros fd st1 Hw. apply post_ret, HQ; [by eapply kept_written|apply Hw|].
    by eapply dirty_written.
  - apply post_bind, post_modify. pose proof (empty_kept s _ st H Hva Hd) as Hk1. set (st1 := set_slot s _ st) in *.
    assert (∀ s', 0 ≤ s' < num_slots st → slot st1 s' = if decide (s' = s) then set_status SLRU_PAGE_EMPTY (slot st s) else slot st s') as Hs
      by (intros; apply slot_set_slot; lia).
    apply IH; [apply Hk1|intros s' Hs'; rewrite (k_num _ _ Hk1); apply Hl; by right|].
    intros again st2 Hk2 Hla Hc. apply HQ; [by eapply kept_trans|done|].
    assert (length (dirty_slots st1) = length (dirty_slots st)) as <-.
    { apply dirty_same; [apply Hk1|]. intros s' Hs'. rewrite Hs by done. by case_decide; subst. }
    destruct again; [done|]. destruct Hc as [? Hc]. split; [done|]. intros s' Hr' Hs'. apply Hc; [by rewrite (k_num _ _ Hk1)|].
    unfold gone. rewrite Hs by done. destruct (decide (s' = s)) as [->|Hne]; [by right|].
    destruct Hs' as [[|]%elem_of_cons|]; by auto.
Qed.

Lemma truncate_loop_post fuel c part st (Q : bool → slru ncells → Prop) :
  slru_inv None st → (length (dirty_slots st) < fuel)%nat → (c ≤ latest_page_number st ∨ part = true) →
  (∀ st', kept st st' → (∀ s, 0 ≤ s < num_slots st → gone c st' s) → Q true st') →
  post (truncate_loop fuel c part false) st Q.
Proof.
  revert st. induction fuel as [|fuel IH]; intros st H Hf Hc HQ; [lia|]. cbn [truncate_loop].
  apply post_bind, post_gets.
  assert ((latest_page_number st <? c) && negb part = false) as ->.
  { destruct Hc as [Hc| ->]; [|apply andb_false_r]. by rewrite (proj2 (Z.ltb_ge _ _) Hc). }
  apply post_bind, post_gets, post_bind, truncate_scan_post; [done|by intros s ?%all_slots|].
  intros [|] st1 Hk Hla Hd.
  - apply IH; [apply Hk|lia|by rewrite Hla|]. intros st2 Hk2 Hg. apply HQ; [by eapply kept_trans|].
    intros s Hs. apply Hg. by rewrite (k_num _ _ Hk).
  - apply post_ret, HQ; [done|]. intros s Hs. apply Hd; [done|]. left. by apply all_slots.
Qed.

(** Deleting the segments before a segment boundary. *)
Lemma deleted_disk c st st' q :
  segments st' = filter (λ f, c ≤ f.1 * SLRU_PAGES_PER_SEGMENT) (segments st) → c mod SLRU_PAGES_PER_SEGMENT = 0 →
  c ≤ q → disk_page st' q = disk_page st q.
Proof.
  intros Hs Hc Hq. unfold disk_page. rewrite Hs, map_lookup_filter. destruct (segments st !! _) as [pages|]; [|done]. cbn.
  rewrite option_guard_True; [done|]. unfold SLRU_PAGES_PER_SEGMENT in *. cbn.
  pose proof (Z.div_mod q 2048). pose proof (Z.div_mod c 2048). pose proof (Z.mod_pos_bound q 2048). lia.
Qed.

(** What is left by a truncation. *)
Record truncated (c : Z) st st' : Prop := {
  tr_ctl : ctl st' = ctl st;
  tr_slots : slots st' = slots st;
  tr_segments : segments st' = filter (λ f, c ≤ f.1 * SLRU_PAGES_PER_SEGMENT) (segments st);
  tr_initialized : initialized st' = filter (λ p, c ≤ p) (initialized st);
}.

Lemma truncated_valid c st st' s q : truncated c st st' → valid_at st' s q ↔ valid_at st s q.
Proof. intros [_ Hs _ _]. unfold valid_at, num_slots, slot. by rewrite Hs. Qed.

Lemma truncated_inv c st st' :
  slru_inv None st → c mod SLRU_PAGES_PER_SEGMENT = 0 → (∀ s, 0 ≤ s < num_slots st → gone c st s) →
  truncated c st st' → slru_inv None st'.
Proof.
  intros H Hc Hg Ht. pose proof (λ s q, truncated_valid c st st' s q Ht) as Hve. destruct Ht as [T1 T2 T3 T4].
  assert (num_slots st' = num_slots st) as Hn by (unfold num_slots; by rewrite T2).
  assert (∀ s, slot st' s = slot st s) as Hs by (intros; unfold slot; by rewrite T2).
  assert (∀ q, bank_slots st' q = bank_slots st q) as Hb by (intros q; unfold bank_slots; by rewrite T1, Hn).
  assert (∀ s q, valid_at st s q → c ≤ q) as Hq by (intros s q (Hr & Hv & <-); by apply Hg).
  split.
  - rewrite T1, Hn. apply H.
  - rewrite T1. apply H.
  - rewrite Hn. intros s. rewrite Hs. apply H.
  - intros s q Hv%Hve. rewrite Hb, Hs, T4. destruct (inv_page _ _ H s q Hv) as (? & ? & ?).
    split_and!; try done. apply elem_of_filter. split; [by apply (Hq s)|done].
  - intros s q Hv%Hve ?. rewrite Hs, (deleted_disk c st st' q T3 Hc (Hq s q Hv)). by apply (inv_clean _ _ H).
  - intros s1 s2 q H1%Hve H2%Hve. by apply (inv_unique _ _ H s1 s2 q).
  - intros q. rewrite T4, elem_of_filter. intros [Hcq Hi]. rewrite (deleted_disk c st st' q T3 Hc Hcq).
    setoid_rewrite Hve. by apply (inv_known _ _ H).
Qed.

Lemma truncated_view c st st' q :
  slru_inv None st → c mod SLRU_PAGES_PER_SEGMENT = 0 → (∀ s, 0 ≤ s < num_slots st → gone c st s) →
  truncated c st st' → slru_view st' q = if decide (c ≤ q) then slru_view st q else None.
Proof.
  intros H Hc Hg Ht. pose proof (truncated_inv c st st' H Hc Hg Ht) as H'. pose proof (λ s q, truncated_valid c st st' s q Ht) as Hve.
  destruct Ht as [T1 T2 T3 T4]. case_decide as Hcq; [|apply view_none; rewrite T4, elem_of_filter; by intros [? ?]].
  destruct (decide (q ∈ initialized st)) as [Hi|Hi]; [|rewrite !view_none; [done..|rewrite T4, elem_of_filter; by intros [? ?]]].
  assert (q ∈ initialized st') as Hi' by (rewrite T4; by apply elem_of_filter).
  pose proof (search_page None st q H) as Hse. destruct (search _ _ _) as [s|].
  - rewrite (view_buffered None st s q H Hse), (view_buffered None st' s q H') by by apply Hve. unfold slot. by rewrite T2.
  - rewrite (view_disk None st q H Hi Hse), (view_disk None st' q H' Hi'); [by apply (deleted_disk c)|].
    intros s ?%Hve. by apply (Hse s).
Qed.

Definition segment_start (p : Z) : Z := p - p mod SLRU_PAGES_PER_SEGMENT.

Lemma segment_start_mod p : segment_start p mod SLRU_PAGES_PER_SEGMENT = 0.
Proof. unfold segment_start. rewrite Zminus_mod_idemp_r, Z.sub_diag. done. Qed.

Lemma truncate_post c part st (Q : unit → slru ncells → Prop) :
  slru_inv None st → (segment_start c ≤ latest_page_number st ∨ part = true) →
  (∀ st', slru_inv None st' → (∀ q, slru_view st' q = if decide (segment_start c ≤ q) then slru_view st q else None) →
     (∀ f, is_Some (segments st' !! f) → segment_start c ≤ f * SLRU_PAGES_PER_SEGMENT) → Q tt st') →
  post (SimpleLruTruncate c part false) st Q.
Proof.
  intros H Hc HQ. apply (post_bind (truncate_loop (1 + 2 * length (slots st)) (segment_start c) part false) _ st Q).
  apply truncate_loop_post; [done| |done|].
  { unfold dirty_slots. pose proof (length_filter (λ s, page_dirty (slot st s) = true) (seqZ 0 (num_slots st))) as Hl.
    rewrite length_seqZ in Hl. unfold num_slots in *. lia. }
  intros st1 Hk Hg. apply post_bind, post_modify, post_modify. set (st2 := with_initialized _ _).
  assert (truncated (segment_start c) st1 st2) as Ht by by split.
  rewrite <- (k_num _ _ Hk) in Hg. pose proof (segment_start_mod c) as Hm. pose proof (k_inv _ _ Hk) as H1.
  apply HQ; [by eapply truncated_inv| |].
  - intros q. rewrite (truncated_view _ st1 st2 q H1 Hm Hg Ht). by rewrite (k_view _ _ Hk).
  - intros f [pages Hf]. rewrite (tr_segments _ _ _ Ht) in Hf. by apply map_lookup_filter_Some in Hf as [_ ?].
Qed.
End Cache.

(** ** Clients *)

(** What a log does with its pages: read a cell, change one and mark the page dirty,
    append a page. *)
Inductive slru_command : Type :=
| Load (p off : Z)
| Store (p off v : Z)
| Create (p : Z).

Definition exec {S} `{SlruOps S} (c : slru_command) : M S Z :=
  match c with
  | Load p off =>
      s ← SlruInterface.SimpleLruReadPage_ReadOnly p;
      gets (λ st, page_get st p s off)
  | Store p off v =>
      s ← SlruInterface.SimpleLruReadPage p true;
      modify (page_set p s off v) ≫= λ _,
      modify (mark_dirty p s) ≫= λ _,
      mret v
  | Create p =>
      s ← SlruInterface.SimpleLruZeroPage p;
      modify (mark_dirty p s) ≫= λ _,
      mret 0
  end.

Fixpoint exec_all {S} `{SlruOps S} (cs : list slru_command) : M S (list Z) :=
  match cs with
  | [] => mret []
  | c :: cs => r ← exec c; rs ← exec_all cs; mret (r :: rs)
  end.

(** Pages are created once, and used after that. *)
Fixpoint legal (ncells : Z) (known : gset Z) (cs : list slru_command) : Prop :=
  match cs with
  | [] => True
  | (Load p off) :: cs => p ∈ known ∧ 0 ≤ off < ncells ∧ legal ncells known cs
  | Store p off _ :: cs => p ∈ known ∧ 0 ≤ off < ncells ∧ legal ncells known cs
  | Create p :: cs => 0 ≤ p ∧ (p ∉ known) ∧ legal ncells ({[p]} ∪ known) cs
  end.

#[export] Instance legal_dec ncells known cs : Decision (legal ncells known cs).
Proof. revert known. induction cs as [|[] cs IH]; intros known; cbn; apply _. Defined.

(** Two implementations of the contract cannot be told apart. *)
Section Independence.
Context {S1 S2 : Type} {n : Z} `{O1 : SlruOps S1, O2 : SlruOps S2}.
Context `{!SlruSpec S1 n, !SlruSpec S2 n}.

Record agree (known : gset Z) (st1 : S1) (st2 : S2) : Prop := {
  a_ok1 : slru_ok st1;
  a_ok2 : slru_ok st2;
  a_view : ∀ p, SlruInterface.slru_view st1 p = SlruInterface.slru_view st2 p;
  a_known : ∀ p, is_Some (SlruInterface.slru_view st1 p) ↔ p ∈ known;
}.

Lemma load_contract {S} `{SlruSpec S n} (st : S) p off pg :
  slru_ok st → SlruInterface.slru_view st p = Some pg → 0 ≤ off < n →
  post (exec (Load p off)) st (λ r st', r = aget 0 pg off ∧ slru_ok st' ∧
    ∀ q, SlruInterface.slru_view st' q = SlruInterface.slru_view st q).
Proof.
  intros Hok Hp Ho. destruct (slru_read_only st p Hok ltac:(by rewrite Hp)) as (s & st1 & Hr & Hok1 & Hat & Hv).
  apply post_bind. eapply post_runs; [done|]. apply post_gets. split_and!; [|done..].
  apply slru_get; [done|by rewrite Hv|done].
Qed.

Lemma store_contract {S} `{SlruSpec S n} (st : S) p off v pg :
  slru_ok st → SlruInterface.slru_view st p = Some pg → 0 ≤ off < n →
  post (exec (Store p off v)) st (λ r st', r = v ∧ slru_ok st' ∧
    ∀ q, SlruInterface.slru_view st' q = if decide (q = p) then Some (aset pg off v) else SlruInterface.slru_view st q).
Proof.
  intros Hok Hp Ho. destruct (slru_read st p true Hok ltac:(by rewrite Hp)) as (s & st1 & Hr & Hok1 & Hat & Hv).
  apply post_bind. eapply post_runs; [done|].
  destruct (slru_set st1 p s pg off v Hat ltac:(by rewrite Hv) Ho) as (Hat2 & Hp2 & Hv2).
  destruct (slru_dirty _ _ _ Hat2) as [Hok3 Hv3].
  apply post_bind, post_modify, post_bind, post_modify, post_ret. split_and!; [done..|].
  intros q. rewrite Hv3. case_decide as Hq; [by subst q|]. by rewrite Hv2.
Qed.

Lemma create_contract {S} `{SlruSpec S n} (st : S) p :
  slru_ok st → SlruInterface.slru_view st p = None → 0 ≤ p →
  post (exec (Create p)) st (λ r st', r = 0 ∧ slru_ok st' ∧
    ∀ q, SlruInterface.slru_view st' q =
      if decide (q = p) then Some (replicate (Z.to_nat n) 0) else SlruInterface.slru_view st q).
Proof.
  intros Hok Hp Hp0. destruct (slru_zero st p Hok Hp0) as (s & st1 & Hr & Hok1 & Hat & Hz & Hv).
  apply post_bind. eapply post_runs; [done|]. destruct (slru_dirty _ _ _ Hat) as [Hok3 Hv3].
  apply post_bind, post_modify, post_ret. split_and!; [done..|]. intros q. rewrite Hv3.
  case_decide as Hq; [subst q|by apply Hv]. destruct Hz as [?|[[? Hx] _]]; [done|]. by rewrite Hp in Hx.
Qed.

(** Both run, with one result and views changed in the same way. *)
Lemma agree_step {A} (m1 : M S1 A) (m2 : M S2 A) known st1 st2 (r : A) (f : Z → option (option (list Z))) :
  let change (v : option (list Z)) q := default v (f q) in
  (∀ p, f p = None ∨ ∃ pg, f p = Some (Some pg)) →
  agree known st1 st2 →
  post m1 st1 (λ r' st', r' = r ∧ slru_ok st' ∧ ∀ q, SlruInterface.slru_view st' q = change (SlruInterface.slru_view st1 q) q) →
  post m2 st2 (λ r' st', r' = r ∧ slru_ok st' ∧ ∀ q, SlruInterface.slru_view st' q = change (SlruInterface.slru_view st2 q) q) →
  ∀ known', (∀ p, p ∈ known' ↔ p ∈ known ∨ is_Some (f p)) →
  ∃ st1' st2', runs m1 st1 r st1' ∧ runs m2 st2 r st2' ∧ agree known' st1' st2'.
Proof.
  intros change Hf Ha (r1 & st1' & H1 & -> & Hok1 & Hv1) (r2 & st2' & H2 & -> & Hok2 & Hv2) known' Hk.
  exists st1', st2'. split_and!; [done..|]. split; [done..| |].
  - intros p. rewrite Hv1, Hv2. unfold change. destruct (f p); [done|]. apply Ha.
  - intros p. rewrite Hv1, Hk, <- (a_known _ _ _ Ha). unfold change.
    destruct (Hf p) as [-> |[pg ->]]; cbn; unfold is_Some; naive_solver.
Qed.

Lemma exec_agree known st1 st2 c cs :
  agree known st1 st2 → legal n known (c :: cs) →
  ∃ r st1' st2' known', runs (exec c) st1 r st1' ∧ runs (exec c) st2 r st2' ∧ agree known' st1' st2' ∧ legal n known' cs.
Proof.
  intros Ha Hl. pose proof (a_ok1 _ _ _ Ha) as Hok1. pose proof (a_ok2 _ _ _ Ha) as Hok2.
  assert (∀ p, p ∈ known → ∃ pg, SlruInterface.slru_view st1 p = Some pg ∧ SlruInterface.slru_view st2 p = Some pg) as Hp.
  { intros p Hp. apply (a_known _ _ _ Ha) in Hp as [pg Hp]. exists pg. by rewrite <- (a_view _ _ _ Ha). }
  destruct c as [p off|p off v|p]; cbn [legal] in Hl.
  - destruct Hl as (Hin & Ho & Hl). destruct (Hp p Hin) as (pg & E1 & E2). exists (aget 0 pg off).
    destruct (agree_step (exec (Load p off)) (exec (Load p off)) known st1 st2 (aget 0 pg off) (λ _, None)) with (known' := known)
      as (st1' & st2' & ? & ? & ?); [by left|done|by apply load_contract..| |by eauto 10]. intros q. naive_solver.
  - destruct Hl as (Hin & Ho & Hl). destruct (Hp p Hin) as (pg & E1 & E2). exists v.
    destruct (agree_step (exec (Store p off v)) (exec (Store p off v)) known st1 st2 v
      (λ q, if decide (q = p) then Some (Some (aset pg off v)) else None)) with (known' := known) as (st1' & st2' & ? & ? & ?);
      [intros q; case_decide; eauto|done| | | |by eauto 10].
    1,2: eapply post_mono; [by apply store_contract|]; intros r st' (? & ? & Hv); split_and!; [done..|]; intros q; rewrite Hv; by case_decide.
    intros q. case_decide; [subst; split; [by left|done]|naive_solver].
  - destruct Hl as (H0 & Hin & Hl). exists 0.
    assert (SlruInterface.slru_view st1 p = None) as E1.
    { apply eq_None_not_Some. by rewrite (a_known _ _ _ Ha). }
    assert (SlruInterface.slru_view st2 p = None) as E2 by by rewrite <- (a_view _ _ _ Ha).
    destruct (agree_step (exec (Create p)) (exec (Create p)) known st1 st2 0
      (λ q, if decide (q = p) then Some (Some (replicate (Z.to_nat n) 0)) else None)) with (known' := {[p]} ∪ known)
      as (st1' & st2' & ? & ? & ?); [intros q; case_decide; eauto|done| | | |by eauto 10].
    1,2: eapply post_mono; [by apply create_contract|]; intros r st' (? & ? & Hv); split_and!; [done..|]; intros q; rewrite Hv; by case_decide.
    intros q. rewrite elem_of_union, elem_of_singleton. case_decide; subst; naive_solver.
Qed.

Lemma exec_all_agree known st1 st2 cs :
  agree known st1 st2 → legal n known cs →
  ∃ out st1' st2' known', runs (exec_all cs) st1 out st1' ∧ runs (exec_all cs) st2 out st2' ∧ agree known' st1' st2'.
Proof.
  revert known st1 st2. induction cs as [|c cs IH]; intros known st1 st2 Ha Hl.
  { exists [], st1, st2, known. eauto using runs_ret. }
  destruct (exec_agree _ _ _ _ _ Ha Hl) as (r & st1' & st2' & known' & R1 & R2 & Ha' & Hl').
  destruct (IH _ _ _ Ha' Hl') as (out & st1'' & st2'' & known'' & R1' & R2' & Ha'').
  exists (r :: out), st1'', st2'', known''. split_and!; [| |done].
  all: eapply runs_bind; [done|]; eapply runs_bind; [done|]; apply runs_ret.
Qed.

End Independence.

(** ** Theorems *)

Section Theorems.
Context {ncells : Z}.
Implicit Types st : slru ncells.

Lemma view_is_Some st p : slru_inv None st → is_Some (Slru.slru_view st p) ↔ p ∈ initialized st.
Proof.
  intros H. split; [apply view_known|]. intros Hi. pose proof (search_page None st p H) as Hs.
  destruct (search _ _ _) as [s|]; [by rewrite (view_buffered None st s p H Hs)|].
  rewrite (view_disk None st p H Hi Hs). destruct (inv_known _ _ H p Hi) as [_ [[s Hv]|(pg & -> & _)]]; [by destruct (Hs s)|done].
Qed.

Lemma view_length st p pg : slru_inv None st → Slru.slru_view st p = Some pg → Z.of_nat (length pg) = ncells.
Proof.
  intros H Hpg. pose proof (search_page None st p H) as Hs. destruct (search _ _ _) as [s|].
  - rewrite (view_buffered None st s p H Hs) in Hpg. injection Hpg as <-. by apply (inv_page _ _ H s p).
  - pose proof (view_known st p ltac:(by rewrite Hpg)) as Hp. rewrite (view_disk None st p H Hp Hs) in Hpg.
    destruct (inv_known _ _ H p Hp) as [_ [[s Hv]|(pg' & ? & ?)]]; [by destruct (Hs s)|congruence].
Qed.

(** A cache over the files of one that was flushed. *)
Lemma flushed_restart st st' nslots nlsns banks parts rec ok :
  slru_inv None st → kept st st' → (∀ p, p ∈ initialized st → disk_page st' p = Slru.slru_view st p) →
  good_slots nslots banks → (∀ p, ok p = true) →
  let st2 : slru ncells := SimpleLruInit nslots nlsns banks parts rec ok (segments st') (initialized st') in
  slru_inv None st2 ∧ ∀ p, Slru.slru_view st2 p = Slru.slru_view st p.
Proof.
  intros H Hk Hd Hg Hok st2. assert (initialized st' = initialized st) as Hi by apply Hk.
  assert (∀ p, disk_page st2 p = disk_page st' p) as Hd2 by done. split.
  - apply init_inv; [done..|]. intros p Hp. fold st2. rewrite Hi in Hp. rewrite Hd2, (Hd p Hp).
    split; [by apply (inv_known _ _ H)|]. destruct (proj2 (view_is_Some st p H) Hp) as [pg Hpg].
    exists pg. split; [done|]. by apply (view_length st p).
  - intros p. destruct (decide (p ∈ initialized st)) as [Hp|Hp].
    + unfold st2. rewrite init_view by (by rewrite Hi). fold st2. by rewrite Hd2, Hd.
    + rewrite !view_none; [done..|]. cbn. by rewrite Hi.
Qed.

(** C8: Whatever a log does with its pages (reading cells, changing them and marking the
    page dirty, appending pages), it gets from the cache, with its evictions and writes
    to the files in between, the results it would get from a plain map of pages; no
    operation fails, and the two still agree afterwards. *)
Theorem slru_refines_store st (ps : page_store ncells) cs :
  0 ≤ ncells → slru_inv None st → (∀ p, ps_pages ps !! p = Slru.slru_view st p) →
  legal ncells (initialized st) cs →
  ∃ out st' ps', runs (exec_all cs) st out st' ∧ runs (exec_all cs) ps out ps' ∧ slru_inv None st' ∧
    ∀ p, ps_pages ps' !! p = Slru.slru_view st' p.
Proof.
  intros Hn H Hv Hl. assert (TCEq (0 <=? ncells) true) as Htc by (apply TCEq_eq; lia).
  destruct (exec_all_agree (n := ncells) (initialized st) st ps cs) as (out & st' & ps' & known' & R1 & R2 & Ha); [|done|].
  - split; [done| |by intros p; symmetry; apply Hv|intros p; by apply view_is_Some].
    intros p pg Hp. rewrite Hv in Hp. by apply (slru_view_length (ncells := ncells) st p).
  - exists out, st', ps'. split_and!; [done..|apply Ha|]. intros p. symmetry. apply Ha.
Qed.

(** The search for a slot ends, also when every slot of the bank is taken and dirty:
    the result holds the page, or is a slot of the page's bank that may be overwritten,
    and no page of the log has changed. *)
Theorem select_slot_terminates st p :
  slru_inv None st →
  ∃ s st', runs (SlruSelectLRUPage p) st s st' ∧ 0 ≤ s < num_slots st ∧
    (valid_at st' s p ∨ (s ∈ bank_slots st p ∧ freeable (slot st' s) = true ∧ ∀ s', ¬ valid_at st' s' p)) ∧
    slru_inv None st' ∧ ∀ q, Slru.slru_view st' q = Slru.slru_view st q.
Proof.
  intros H. destruct (select_post p st H) as (s & st' & Hr & Hk & Hs). exists s, st'.
  destruct (selected_holds st' p s (k_inv _ _ Hk) Hs) as [Hrange _]. rewrite (k_num _ _ Hk) in Hrange.
  assert (bank_slots st' p = bank_slots st p) as Hb by (unfold bank_slots; by rewrite (k_ctl _ _ Hk), (k_num _ _ Hk)).
  split_and!; [done|apply Hrange|apply Hrange| |apply Hk|apply Hk]. destruct Hs as [Hs|(Hn & Hi & Hf)]; [by left|right]. by rewrite <- Hb.
Qed.

(** *** Calls in any order

    What the clients of the cache do, whatever it returns: the operations of slru.cpp, and
    the updates of a buffer and of the LSNs by the clients, with any arguments. *)
Inductive slru_call : Type :=
| Call_read (p : Z) (write_ok : bool)
| Call_readonly (p : Z)
| Call_zero (p : Z)
| Call_write (s : Z)
| Call_flush
| Call_truncate (cutoff : Z) (isPart isCsnLogCtl : bool)
| Call_cell (s off v : Z)
| Call_dirty (s : Z)
| Call_lsn (s i v : Z).

Definition ignore {A} (m : M (slru ncells) A) st : slru ncells := (m st).2.

Definition run_call (c : slru_call) : slru ncells → slru ncells :=
  match c with
  | Call_read p wok => ignore (SimpleLruReadPage p wok)
  | Call_readonly p => ignore (SimpleLruReadPage_ReadOnly p)
  | Call_zero p => ignore (SimpleLruZeroPage p)
  | Call_write s => ignore (SimpleLruWritePage s)
  | Call_flush => ignore SimpleLruFlush
  | Call_truncate c part csn => ignore (SimpleLruTruncate c part csn)
  | Call_cell s off v => cell_set s off v
  | Call_dirty s => make_dirty s
  | Call_lsn s i v => lsn_set s i v
  end.

Definition run_calls (cs : list slru_call) st : slru ncells := fold_left (λ st c, run_call c st) cs st.

(** The write came after the log. *)
Definition wal_honored (w : page_write) : Prop := ∀ l, l ∈ pw_lsns w → l ≤ pw_flushed w.

Section Calls.
(** The files at the beginning. *)
Context (st0 : slru ncells).

(** Every write came after the log, and what is in the files is what was there, the zeros
    of a gap, or was written by one of these writes. *)
Record io_ok st : Prop := {
  io_flushed : 0 ≤ wal_flushed st;
  io_rule : Forall wal_honored (page_writes st);
  io_files : ∀ q pg, disk_page st q = Some pg →
    disk_page st0 q = Some pg ∨ pg = zero_page (ncells := ncells) ∨
    ∃ w, w ∈ page_writes st ∧ pw_page w = q ∧ pw_data w = pg;
}.

Definition same_io st st' : Prop :=
  wal_flushed st' = wal_flushed st ∧ page_writes st' = page_writes st ∧ segments st' = segments st.

Lemma same_io_ok st st' : same_io st st' → io_ok st → io_ok st'.
Proof.
  intros (E1 & E2 & E3) [H1 H2 H3]. split; [by rewrite E1|by rewrite E2|].
  intros q pg. unfold disk_page. rewrite E2, E3. apply H3.
Qed.

Definition keeps {A} (m : M (slru ncells) A) : Prop := ∀ st, io_ok st → io_ok (m st).2.

Lemma io_keeps_bind {A B} (m : M (slru ncells) A) (k : A → M (slru ncells) B) :
  keeps m → (∀ a, keeps (k a)) → keeps (m ≫= k).
Proof.
  intros Hm Hk st Hst. specialize (Hm st Hst). unfold mbind, M_bind.
  destruct (m st) as [[a|l|] st']; [by apply Hk|done..].
Qed.

Lemma io_keeps_modify f : (∀ st, same_io st (f st)) → keeps (modify f).
Proof. intros Hf st. by apply same_io_ok. Qed.

Lemma io_keeps_gets {A} (f : slru ncells → A) : keeps (gets f).
Proof. by intros st. Qed.
Lemma io_keeps_ret {A} (a : A) : keeps (mret a).
Proof. by intros st. Qed.
Lemma io_keeps_skip : keeps skip.
Proof. by intros st. Qed.
Lemma io_keeps_raise {A} l : keeps (A := A) (raise l).
Proof. by intros st. Qed.
Lemma io_keeps_nofuel {A} : keeps (A := A) nofuel.
Proof. by intros st. Qed.
Lemma keeps_upd s f : keeps (upd_slot s f).
Proof. by apply io_keeps_modify. Qed.
Lemma keeps_wait_io s : keeps (SimpleLruWaitIO s).
Proof. apply keeps_upd. Qed.
Lemma keeps_used s : keeps (SlruRecentlyUsed s).
Proof. apply io_keeps_modify. intros st. cbv zeta. by destruct (enable_banks _), (_ =? _). Qed.
Lemma keeps_zero_lsns s : keeps (SimpleLruZeroLSNs s).
Proof. apply io_keeps_modify. intros st. cbv zeta. by destruct (0 <? _). Qed.
Lemma keeps_count b : keeps (next_count b).
Proof. intros st. unfold next_count. destruct (enable_banks _); by apply same_io_ok. Qed.
Lemma keeps_physical_read p s : keeps (SlruPhysicalReadPage p s).
Proof.
  intros st. unfold SlruPhysicalReadPage. destruct (disk_page st p); [by apply same_io_ok|].
  destruct (InRecovery _); [by apply same_io_ok|done].
Qed.

(** A page of a file after a write: the one written, one that was there, or zeros. *)
Lemma write_at_lookup (file : list (list Z)) i pg j x :
  write_at (ncells := ncells) file i pg !! j = Some x →
  (j = i ∧ x = pg) ∨ file !! j = Some x ∨ x = zero_page (ncells := ncells).
Proof.
  unfold write_at. destruct (Nat.ltb_spec i (length file)) as [Hi|Hi].
  - intros [(-> & -> & _)|[_ ?]]%list_lookup_insert_Some; auto.
  - intros [?|[Hle H]]%lookup_app_Some; [auto|].
    apply lookup_app_Some in H as [[? _]%lookup_replicate|[Hge H]]; [auto|].
    rewrite length_replicate in *. apply list_lookup_singleton_Some in H as [H ->]. left. split; [lia|done].
Qed.

Lemma after_write_file p s ok st q pg :
  disk_page (after_write p s ok st) q = Some pg →
  (ok = true ∧ q = p ∧ pg = page_buffer (slot st s)) ∨ disk_page st q = Some pg ∨ pg = zero_page (ncells := ncells).
Proof.
  unfold disk_page, after_write. cbn. unfold files_after.
  destruct (decide (q / SLRU_PAGES_PER_SEGMENT = p / SLRU_PAGES_PER_SEGMENT)) as [He|He].
  2: { rewrite lookup_insert_ne by done. auto. }
  rewrite He, lookup_insert_eq. cbn. assert (∀ x, default [] (segments st !! (p / SLRU_PAGES_PER_SEGMENT)) !! x = Some pg →
    segments st !! (p / SLRU_PAGES_PER_SEGMENT) ≫= (λ pages, pages !! x) = Some pg) as Hdef.
  { intros x. by destruct (segments st !! _). }
  destruct ok; [|intros Hx; right; left; by apply Hdef].
  intros [[Hi ->]|[Hx| ->]]%write_at_lookup; [left|right; left; by apply Hdef|by right; right].
  split_and!; try done. unfold SLRU_PAGES_PER_SEGMENT in *.
  pose proof (Z.mod_pos_bound q 2048). pose proof (Z.mod_pos_bound p 2048).
  pose proof (Z.div_mod q 2048). pose proof (Z.div_mod p 2048). lia.
Qed.

(** The wait for the log comes first, so the write is honest. *)
Lemma keeps_physical_write p s fdata : keeps (SlruPhysicalWritePage p s fdata).
Proof.
  intros st Hst. destruct (physical_write_run p s fdata st) as [fd ->]. cbn [snd].
  set (ok := write_succeeds _ _). pose proof (io_flushed _ Hst) as H0. split.
  - change (0 ≤ wal_flushed (wal_first s st)). unfold wal_first. destruct (0 <? _); [|done]. destruct (_ =? 0); [done|cbn; lia].
  - change (Forall wal_honored (writes_after p s ok st)). unfold writes_after. destruct ok; [|apply Hst].
    constructor; [|apply Hst]. intros l Hl. cbn in Hl. unfold slot_lsns in Hl.
    apply list_elem_of_fmap in Hl as (i & -> & Hi%elem_of_seqZ). apply wal_first_flushed; [done|lia].
  - intros q pg [(Hok & -> & ->)|[Hd| ->]]%after_write_file; [|destruct (io_files _ Hst q pg Hd) as [?|[?|(w & Hw & ?)]]|]; auto.
    + right; right. change (page_writes (after_write p s ok st)) with (writes_after p s ok st). rewrite Hok.
      eexists. split; [by left|done].
    + right; right. exists w. split; [|done]. change (page_writes (after_write p s ok st)) with (writes_after p s ok st).
      unfold writes_after. destruct ok; [by right|done].
Qed.

Create HintDb slru_io.
Hint Resolve io_keeps_gets io_keeps_ret io_keeps_skip io_keeps_raise io_keeps_nofuel keeps_upd keeps_wait_io keeps_used
  keeps_zero_lsns keeps_count keeps_physical_read keeps_physical_write : slru_io.

(** Through the branches of an operation. *)
Ltac keep :=
  repeat match goal with
  | |- keeps (_ ≫= _) => apply io_keeps_bind; [|intros ?]
  | |- keeps (if ?b then _ else _) => destruct b
  | |- keeps (match ?x with _ => _ end) => destruct x
  | |- _ => solve [eauto with slru_io]
  end.

Lemma keeps_internal_write s fdata : keeps (SlruInternalWritePage s fdata).
Proof. unfold SlruInternalWritePage, the_slot. keep. Qed.
Hint Resolve keeps_internal_write : slru_io.

Lemma keeps_scan l c v : keeps (scan_bank l c v).
Proof. revert v. induction l as [|s l IH]; intros v; cbn [scan_bank]; unfold the_slot; cbv zeta; keep. Qed.
Hint Resolve keeps_scan : slru_io.

Lemma keeps_select_loop fuel p : keeps (select_loop fuel p).
Proof. induction fuel as [|fuel IH]; cbn [select_loop]; unfold the_slot; keep. Qed.

Lemma keeps_select p : keeps (SlruSelectLRUPage p).
Proof. intros st. apply keeps_select_loop. Qed.
Hint Resolve keeps_select : slru_io.

Lemma keeps_read_loop fuel p wok : keeps (read_loop fuel p wok).
Proof. induction fuel as [|fuel IH]; cbn [read_loop]; unfold the_slot; keep. Qed.

Lemma keeps_read p wok : keeps (SimpleLruReadPage p wok).
Proof. apply keeps_read_loop. Qed.
Hint Resolve keeps_read : slru_io.

Lemma keeps_readonly p : keeps (SimpleLruReadPage_ReadOnly p).
Proof. unfold SimpleLruReadPage_ReadOnly, execSimpleLruReadPageReadOnly. keep. Qed.

Lemma keeps_zero_loop fuel p : keeps (zero_loop fuel p).
Proof. induction fuel as [|fuel IH]; cbn [zero_loop]; unfold the_slot; keep. by apply io_keeps_modify. Qed.

Lemma keeps_zero p : keeps (SimpleLruZeroPage p).
Proof. apply io_keeps_bind; [apply keeps_zero_loop|]. intros r. keep. by apply io_keeps_modify. Qed.

Lemma keeps_flush : keeps SimpleLruFlush.
Proof.
  assert (∀ l fdata, keeps (flush_loop l fdata)) as Hl; [|intros st; apply Hl].
  induction l as [|s l IH]; intros fdata; cbn [flush_loop]; unfold the_slot; keep.
Qed.

Lemma keeps_truncate_scan l c csn : keeps (truncate_scan l c csn).
Proof. induction l as [|s l IH]; cbn [truncate_scan]; unfold the_slot; keep. Qed.
Hint Resolve keeps_truncate_scan : slru_io.

Lemma keeps_truncate_loop fuel c part csn : keeps (truncate_loop fuel c part csn).
Proof. induction fuel as [|fuel IH]; cbn [truncate_loop]; keep. Qed.

(** Removing files. *)
Lemma keeps_delete c : keeps (SlruScanDirCbDeleteCutoff c).
Proof.
  intros st [H1 H2 H3]. split; [done..|]. intros q pg Hd. apply H3. revert Hd. unfold disk_page. cbn.
  destruct (filter _ _ !! _) as [pages|] eqn:E; [|done]. by apply map_lookup_filter_Some in E as [-> _].
Qed.

Lemma keeps_truncate c part csn : keeps (SimpleLruTruncate c part csn).
Proof.
  intros st. apply io_keeps_bind; [apply keeps_truncate_loop|]. intros []; [|apply io_keeps_skip].
  apply io_keeps_bind; [apply keeps_delete|]. intros _. by apply io_keeps_modify.
Qed.

Lemma run_call_io c st : io_ok st → io_ok (run_call c st).
Proof.
  destruct c; cbn [run_call]; first
    [apply keeps_read|apply keeps_readonly|apply keeps_zero|apply io_keeps_bind; [apply keeps_internal_write|intros ?; apply io_keeps_skip]
    |apply keeps_flush|apply keeps_truncate|by apply same_io_ok].
Qed.

Lemma run_calls_io cs st : io_ok st → io_ok (run_calls cs st).
Proof. revert st. induction cs as [|c cs IH]; intros st Hst; [done|]. by apply IH, run_call_io. Qed.

End Calls.

(** C32: Write-ahead logging of the transaction logs. Start the cache over any files and
    call its operations, and update its buffers and their LSNs, in any order and with any
    arguments, also when reads and writes fail. Whenever a page was written to a file, the
    write-ahead log had already been flushed, before the write, up to every LSN recorded for
    the page; and whatever the files hold comes from such a write (or was there, or is the
    zeros of a gap). The write of a dirty page is such a write: it puts the buffer into the
    file, leaves the slot clean and every other page of the files as it was. *)
Theorem wal_before_data nslots nlsns banks parts rec succeeds files pages cs :
  let st0 : slru ncells := SimpleLruInit nslots nlsns banks parts rec succeeds files pages in
  let st := run_calls cs st0 in
  (∀ w l, w ∈ page_writes st → l ∈ pw_lsns w → l ≤ pw_flushed w) ∧
  (∀ q pg, disk_page st q = Some pg →
     disk_page st0 q = Some pg ∨ pg = zero_page (ncells := ncells) ∨
     ∃ w, w ∈ page_writes st ∧ pw_page w = q ∧ pw_data w = pg) ∧
  (∀ s p, valid_at st s p → page_dirty (slot st s) = true → write_succeeds (ctl st) p = true → 0 ≤ p →
     ∃ st' f, runs (SimpleLruWritePage s) st tt st' ∧
       page_writes st' = {| pw_page := p; pw_data := page_buffer (slot st s); pw_lsns := slot_lsns st s;
                            pw_flushed := f |} :: page_writes st ∧
       (∀ l, l ∈ slot_lsns st s → l ≤ f) ∧
       disk_page st' p = Some (page_buffer (slot st s)) ∧ slot st' s = set_dirty false (slot st s) ∧
       ∀ q pg, 0 ≤ q → q ≠ p → disk_page st q = Some pg → disk_page st' q = Some pg).
Proof.
  intros st0 st. assert (io_ok st0 st) as Hst by (apply run_calls_io; split; [done|constructor|auto]). split_and!.
  - intros w l Hw. pose proof (io_rule _ _ Hst) as Hf. rewrite Forall_forall in Hf. by apply Hf.
  - apply Hst.
  - intros s p Hv Hd Hok Hp. destruct (write_page_run st s p Hv Hd) as (st' & Hr & Hs & _ & _ & _ & Hg & Hf).
    pose proof (run_call_io st0 (Call_write s) st Hst) as Hst'. cbn [run_call] in Hst'. unfold ignore in Hst'.
    rewrite Hr in Hst'. cbn [snd] in Hst'. rewrite Hok in *. cbn [writes_after] in Hf.
    destruct (disk_segments st st' p _ (page_buffer (slot st s)) Hp Hg eq_refl) as [D1 D2].
    eexists st', _. split_and!; [done|exact Hf| |done..|auto].
    pose proof (io_rule _ _ Hst') as Hall. rewrite Hf in Hall. by apply Forall_cons in Hall as [Hw _].
Qed.

(** If the write fails the operation reports an error, the page stays in its slot with
    the same contents and dirty, so it will be written again, and nothing else has
    changed in the cache or in the files. *)
Theorem failed_write_keeps_page st s p :
  valid_at st s p → page_dirty (slot st s) = true → write_succeeds (ctl st) p = false →
  ∃ st', SimpleLruWritePage s st = (Ereport ERROR, st') ∧
    (∀ s', 0 ≤ s' < num_slots st → slot st' s' = slot st s') ∧
    (∀ q, disk_page st' q = disk_page st q) ∧ ∀ q, Slru.slru_view st' q = Slru.slru_view st q.
Proof.
  intros Hv Hd Hok. destruct (write_page_run st s p Hv Hd) as (st' & Hr & Hs & Ho & Hn & Hi & Hg & _).
  rewrite Hok in *. exists st'.
  assert (∀ s', 0 ≤ s' < num_slots st → slot st' s' = slot st s') as Hsl.
  { intros s' Hs'. destruct (decide (s' = s)) as [->|Hne]; [|by apply Ho]. rewrite Hs. by destruct (slot st s); cbn in *; subst. }
  assert (∀ q, disk_page st' q = disk_page st q) as Hdk by (intros q; by eapply failed_files_disk).
  split_and!; [done..|]. intros q. unfold Slru.slru_view. rewrite Hi, Hn, Hdk. case_decide; [|done].
  rewrite (search_ext st st') by (intros s' Hs'%all_slots; by rewrite Hsl).
  destruct (search st _ _) as [s'|] eqn:E; [|done]. apply search_Some in E as [Hs'%all_slots _]. by rewrite Hsl.
Qed.

(** After a flush the log survives the loss of shared memory: a cache that starts over
    the files as they are then, of whatever size, satisfies the invariant and shows every
    page as it was. *)
Theorem flush_then_restart st nslots nlsns banks parts rec :
  slru_inv None st → good_slots nslots banks →
  ∃ n st', runs SimpleLruFlush st n st' ∧
    let st2 : slru ncells := SimpleLruInit nslots nlsns banks parts rec (write_succeeds (ctl st)) (segments st') (initialized st') in
    slru_inv None st2 ∧ ∀ p, Slru.slru_view st2 p = Slru.slru_view st p.
Proof.
  intros H Hg. assert (post SimpleLruFlush st (λ n st', kept st st' ∧ ∀ p, p ∈ initialized st → disk_page st' p = Slru.slru_view st p))
    as (n & st' & Hr & Hk & Hd) by (by apply flush_post). exists n, st'. split; [done|].
  apply flushed_restart; try done. apply (inv_writes _ _ H).
Qed.

(** A truncation ends, removes every page before the segment of the cutoff, from the
    cache and from the files, and keeps every other page; the invariant still holds. If
    the cutoff lies beyond the latest page of an unpartitioned log, which would be a
    wraparound, nothing is removed at all. *)
Theorem truncate_keeps_recent st c part :
  slru_inv None st →
  ∃ st', runs (SimpleLruTruncate c part false) st tt st' ∧ slru_inv None st' ∧
    if decide (segment_start c ≤ latest_page_number st ∨ part = true) then
      (∀ q, Slru.slru_view st' q = if decide (segment_start c ≤ q) then Slru.slru_view st q else None) ∧
      (∀ f, is_Some (segments st' !! f) → segment_start c ≤ f * SLRU_PAGES_PER_SEGMENT)
    else st' = st.
Proof.
  intros H. case_decide as Hc.
  - destruct (truncate_post c part st (λ _ st', slru_inv None st' ∧
      (∀ q, Slru.slru_view st' q = if decide (segment_start c ≤ q) then Slru.slru_view st q else None) ∧
      (∀ f, is_Some (segments st' !! f) → segment_start c ≤ f * SLRU_PAGES_PER_SEGMENT)) H Hc) as ([] & st' & ? & ? & ? & ?);
      [done|]. by exists st'.
  - exists st. split_and!; [|done..]. unfold runs, SimpleLruTruncate. cbv zeta. fold (segment_start c).
    cbn [truncate_loop Nat.add]. unfold mbind, M_bind, gets, modify, skip, mret, M_ret.
    assert ((latest_page_number st <? segment_start c) && negb part = true) as ->; [|done].
    destruct part; [by destruct Hc; right|]. rewrite andb_true_r. apply Z.ltb_lt. lia.
Qed.

End Theorems.

(** ** Instances *)

(** One bank of 16 slots with 4 cells per page, over an empty directory; 18 pages are
    appended, so that two have been evicted, the first is
    changed, and a page of the next segment is appended. *)
Definition cold : slru 4 := SimpleLruInit 16 2 true 1 false (λ _, true) ∅ ∅.
Definition commands : list slru_command :=
  Create 0 :: Store 0 1 7 :: map Create (seqZ 1 17) ++ [Load 0 1; Store 0 2 9; Load 0 2; Create 2049].
Definition no_pages : page_store 4 := {| ps_pages := ∅; ps_lsn := ∅ |}.
Definition warm : slru 4 := (exec_all commands cold).2.

Lemma cold_inv : slru_inv None cold.
Proof. apply init_inv; [split; [lia|reflexivity]|done|]. by intros p ?%elem_of_empty. Qed.

Lemma commands_legal : legal 4 ∅ commands.
Proof. apply (bool_decide_unpack _). vm_compute. exact I. Qed.

Lemma warm_inv : slru_inv None warm.
Proof.
  destruct (exec_all_agree (n := 4) ∅ cold no_pages commands) as (out & st & ps & k & R & _ & Ha);
    [|apply commands_legal|].
  - split; [apply cold_inv|by intros p pg|done|].
    intros p. change (is_Some (Slru.slru_view cold p) ↔ p ∈ (∅ : gset Z)). by rewrite view_is_Some by apply cold_inv.
  - unfold warm. unfold runs in R. rewrite R. apply Ha.
Qed.

Lemma slru_refines_store_witness :
  (∃ out st' ps', runs (exec_all commands) cold out st' ∧
     runs (exec_all commands) no_pages out ps' ∧ slru_inv None st' ∧
     ∀ p, ps_pages ps' !! p = Slru.slru_view st' p) ∧
  (exec_all commands cold).1 = Ok ([0; 7] ++ replicate 17 0 ++ [7; 9; 9; 0]).
Proof.
  split; [|vm_compute; reflexivity].
  apply (slru_refines_store cold no_pages commands); [lia|apply cold_inv| |apply commands_legal].
  intros p. symmetry. apply view_none. by intros ?%elem_of_empty.
Defined.

Lemma select_slot_terminates_witness :
  ∃ s st', runs (SlruSelectLRUPage 40) warm s st' ∧ 0 ≤ s < num_slots warm ∧
    (valid_at st' s 40 ∨ (s ∈ bank_slots warm 40 ∧ freeable (slot st' s) = true ∧ ∀ s', ¬ valid_at st' s' 40)) ∧
    slru_inv None st' ∧ ∀ q, Slru.slru_view st' q = Slru.slru_view warm q.
Proof. apply (select_slot_terminates warm 40 warm_inv). Defined.

(** Page 5 is dirty in slot 3, with LSNs 70 and 90 recorded for it. *)
Definition dirty_page (ok : bool) : slru 4 :=
  with_lsns (aset (aset (replicate 32 0) 6 70) 7 90)
    (set_slot 3 {| page_buffer := [1; 2; 3; 4]; page_status := SLRU_PAGE_VALID; page_dirty := true; page_number := 5; page_lru_count := 0 |}
      (SimpleLruInit 16 2 true 1 false (λ _, ok) ∅ {[5]})).

Lemma dirty_page_valid ok : valid_at (dirty_page ok) 3 5.
Proof. split; [change (num_slots (dirty_page ok)) with 16; lia|done]. Qed.

(** Page 5 is created, two LSNs are recorded for it, and it is written: the log was at 90. *)
Definition wal_calls : list slru_call :=
  [Call_zero 5; Call_cell 0 1 7; Call_lsn 0 0 70; Call_lsn 0 1 90; Call_write 0; Call_lsn 0 0 120; Call_flush].

Lemma wal_before_data_witness :
  let st := run_calls wal_calls cold in
  page_writes st = [{| pw_page := 5; pw_data := [0; 7; 0; 0]; pw_lsns := [70; 90]; pw_flushed := 90 |}] ∧
  ∀ w l, w ∈ page_writes st → l ∈ pw_lsns w → l ≤ pw_flushed w.
Proof.
  split; [vm_compute; reflexivity|].
  destruct (wal_before_data (ncells := 4) 16 2 true 1 false (λ _, true) ∅ ∅ wal_calls) as [H _]. exact H.
Defined.

Lemma failed_write_keeps_page_witness :
  ∃ st', SimpleLruWritePage 3 (dirty_page false) = (Ereport ERROR, st') ∧
    (∀ s', 0 ≤ s' < num_slots (dirty_page false) → slot st' s' = slot (dirty_page false) s') ∧
    (∀ q, disk_page st' q = disk_page (dirty_page false) q) ∧
    ∀ q, Slru.slru_view st' q = Slru.slru_view (dirty_page false) q.
Proof. apply (failed_write_keeps_page (dirty_page false) 3 5 (dirty_page_valid false)); done. Defined.

Lemma flush_then_restart_witness :
  ∃ n st', runs SimpleLruFlush warm n st' ∧
    let st2 : slru 4 := SimpleLruInit 32 2 true 1 false (write_succeeds (ctl warm)) (segments st') (initialized st') in
    slru_inv None st2 ∧ ∀ p, Slru.slru_view st2 p = Slru.slru_view warm p.
Proof. apply (flush_then_restart warm 32 2 true 1 false warm_inv). split; [lia|reflexivity]. Defined.

Lemma truncate_keeps_recent_witness :
  ∃ st', runs (SimpleLruTruncate 2100 false false) warm tt st' ∧ slru_inv None st' ∧
    (∀ q, Slru.slru_view st' q = if decide (2048 ≤ q) then Slru.slru_view warm q else None) ∧
    (∀ f, is_Some (segments st' !! f) → 2048 ≤ f * SLRU_PAGES_PER_SEGMENT).
Proof.
  assert (latest_page_number warm = 2049) as Hl by (vm_compute; reflexivity).
  destruct (truncate_keeps_recent warm 2100 false warm_inv) as (st' & Hr & Hi & Ht). exists st'.
  rewrite decide_True in Ht by (left; rewrite Hl; vm_compute; discriminate). exact (conj Hr (conj Hi Ht)).
Defined.
