(* ===== verification/Clog.v ===== *)
(** * The commit log

    [src/gausskernel/storage/access/transam/clog.cpp]: two status bits per
    transaction, four transactions per byte, in the pages of the SLRU cache.
    Modelled: reading a status, setting the bits of one transaction, of a set of
    transactions on one page, and of a whole transaction tree that may span
    pages ([CLogSetTreeStatus] and what it calls).

    The state is the page store plus a ghost history [trace]: the store as other
    backends can see it, recorded each time the exclusive bank lock of a page is
    released (between acquire and release nobody else looks at the page). *)

From S2P Require Import Prelude TransamDefs SlruInterface.

(** ** Layout *)

Definition CLOG_BITS_PER_XACT : Z := 2.
Definition CLOG_XACTS_PER_BYTE : Z := 4.
Definition CLOG_XACTS_PER_PAGE : Z := BLCKSZ * CLOG_XACTS_PER_BYTE.
Definition CLOG_XACT_BITMASK : Z := Z.shiftl 1 CLOG_BITS_PER_XACT - 1.
Definition CLOG_XACTS_PER_LSN_GROUP : Z := 32.
Definition THRESHOLD_SUBTRANS_CLOG_OPT : Z := 5.

Definition TransactionIdToPage (xid : Z) : Z := xid / CLOG_XACTS_PER_PAGE.
Definition TransactionIdToPgIndex (xid : Z) : Z := xid mod CLOG_XACTS_PER_PAGE.
Definition TransactionIdToByte (xid : Z) : Z := TransactionIdToPgIndex xid / CLOG_XACTS_PER_BYTE.
Definition TransactionIdToBIndex (xid : Z) : Z := xid mod CLOG_XACTS_PER_BYTE.
(** [GetLSNIndex], relative to the slot. *)
Definition GetLSNIndex (xid : Z) : Z :=
  (xid mod CLOG_XACTS_PER_PAGE) / CLOG_XACTS_PER_LSN_GROUP.

Definition CLOG_XID_STATUS_IN_PROGRESS : Z := 0.
Definition CLOG_XID_STATUS_COMMITTED : Z := 1.
Definition CLOG_XID_STATUS_ABORTED : Z := 2.
Definition CLOG_XID_STATUS_SUB_COMMITTED : Z := 3.

Definition XLogRecPtrIsInvalid (lsn : Z) : bool := lsn =? 0.

(** ** Environment *)

(** What a backend that could not get the bank lock at once has put in its
    [PGPROC] for the group leader. *)
Record group_member := {
  gm_xid : Z;
  gm_subxids : list Z;
  gm_status : Z;
  gm_lsn : Z;
  gm_page : Z;
}.

(** Thread and session state the functions read, and the outcome of the
    attempt to get the lock without waiting. [bank_lock]: which of the SLRU bank
    locks guards a page ([SimpleLruGetBankLock]). [clog_group]: [None] when the group
    list is headed by a member of another page (the update is declined); else
    the members that come after and before ours in the list when its leader
    walks it. *)
Record clog_env := {
  clog_node :> node_env;
  pgxact_xid : Z;
  proc_subxids : list Z;
  lock_is_free : bool;
  bank_lock : Z → Z;
  clog_group : option (list group_member * list group_member);
}.

Section Clog.
Context {S : Type} `{!SlruOps S}.

Record clog_state := {
  store : S;
  trace : list S;
}.

Definition with_store (f : S → S) (w : clog_state) : clog_state :=
  {| store := f (store w); trace := trace w |}.

(** Run an operation of the page store. *)
Definition slru {A} (m : M S A) : M clog_state A := λ w,
  let '(r, s) := m (store w) in (r, {| store := s; trace := trace w |}).

Definition LWLockAcquire_bank (pageno : Z) : M clog_state unit := skip.
Definition LWLockRelease_bank (pageno : Z) : M clog_state unit :=
  modify (λ w, {| store := store w; trace := trace w ++ [store w] |}).

(** ** One transaction *)

Definition CLogSetStatusBit (env : clog_env) (xid status lsn slotno : Z) : M clog_state unit :=
  let byteno := TransactionIdToByte xid in
  let pageno := TransactionIdToPage xid in
  let bshift := TransactionIdToBIndex xid * CLOG_BITS_PER_XACT in
  byteptr ← gets (λ w, page_get (store w) pageno slotno byteno);
  let curval := Z.land (Z.shiftr byteptr bshift) CLOG_XACT_BITMASK in
  if InRecovery env && (status =? CLOG_XID_STATUS_SUB_COMMITTED)
     && (curval =? CLOG_XID_STATUS_COMMITTED)
  then skip
  else if SS_STANDBY_MODE env then skip
  else if negb ((curval =? 0)
                || ((curval =? CLOG_XID_STATUS_SUB_COMMITTED)
                    && negb (status =? CLOG_XID_STATUS_IN_PROGRESS))
                || (curval =? status)
                || ((curval =? CLOG_XID_STATUS_COMMITTED)
                    && (status =? CLOG_XID_STATUS_SUB_COMMITTED)))
  then raise PANIC
  else
    let byteval := u8 (Z.land byteptr
      (lnotw 32 (Z.shiftl (Z.shiftl 1 CLOG_BITS_PER_XACT - 1) bshift))) in
    let byteval := u8 (Z.lor byteval (Z.shiftl status bshift)) in
    modify (with_store (page_set pageno slotno byteno byteval)) ≫= λ _,
    if negb (XLogRecPtrIsInvalid lsn) then
      let lsnindex := GetLSNIndex xid in
      cur ← gets (λ w, group_lsn (store w) pageno slotno lsnindex);
      if cur <? lsn
      then modify (with_store (set_group_lsn pageno slotno lsnindex lsn))
      else skip
    else skip.

(** The status and an LSN late enough that flushing up to it has flushed the
    commit record. *)
Definition CLogGetStatus (xid : Z) : M clog_state (Z * Z) :=
  let pageno := TransactionIdToPage xid in
  let byteno := TransactionIdToByte xid in
  let bshift := TransactionIdToBIndex xid * CLOG_BITS_PER_XACT in
  slotno ← slru (SimpleLruReadPage_ReadOnly pageno);
  byteptr ← gets (λ w, page_get (store w) pageno slotno byteno);
  let status := Z.land (Z.shiftr byteptr bshift) CLOG_XACT_BITMASK in
  lsn ← gets (λ w, group_lsn (store w) pageno slotno (GetLSNIndex xid));
  mret (status, lsn).

(** ** One page *)

Definition CLogSetPageStatusInternal (env : clog_env) (xid : Z) (subxids : list Z)
    (status lsn pageno : Z) : M clog_state unit :=
  if negb ((status =? CLOG_XID_STATUS_COMMITTED) || (status =? CLOG_XID_STATUS_ABORTED)
           || ((status =? CLOG_XID_STATUS_SUB_COMMITTED) && negb (TransactionIdIsValid xid)))
  then raise PANIC
  else
    slotno ← slru (SimpleLruReadPage pageno (XLogRecPtrIsInvalid lsn));
    (if TransactionIdIsValid xid then
       (if status =? CLOG_XID_STATUS_COMMITTED then
          for_each (λ sub, CLogSetStatusBit env sub CLOG_XID_STATUS_SUB_COMMITTED lsn slotno) subxids
        else skip) ≫= λ _,
       CLogSetStatusBit env xid status lsn slotno
     else skip) ≫= λ _,
    for_each (λ sub, CLogSetStatusBit env sub status lsn slotno) subxids ≫= λ _,
    modify (with_store (mark_dirty pageno slotno)).

(** The walk of the group leader (or, for a follower, of the leader on its
    behalf) over the list of members, ours among them; the lock is exchanged
    when the next member's page is in another bank. *)
Fixpoint clog_group_walk (env : clog_env) (prevPageno : Z) (members : list group_member)
    : M clog_state unit :=
  match members with
  | [] => LWLockRelease_bank prevPageno
  | m :: members =>
      let thisPageno := gm_page m in
      (if negb (thisPageno =? prevPageno) && negb (bank_lock env prevPageno =? bank_lock env thisPageno)
       then LWLockRelease_bank prevPageno ≫= λ _, LWLockAcquire_bank thisPageno
       else skip) ≫= λ _,
      CLogSetPageStatusInternal env (gm_xid m) (gm_subxids m) (gm_status m) (gm_lsn m) (gm_page m)
      ≫= λ _, clog_group_walk env thisPageno members
  end.

Definition CLogGroupUpdateXidStatus (env : clog_env) (xid status lsn pageno : Z)
    : M clog_state bool :=
  match clog_group env with
  | None => mret false
  | Some (after, before) =>
      let me := {| gm_xid := xid; gm_subxids := proc_subxids env; gm_status := status;
                   gm_lsn := lsn; gm_page := pageno |} in
      let members := after ++ me :: before in
      let leader_page := gm_page (default me (head (reverse members))) in
      LWLockAcquire_bank leader_page ≫= λ _,
      clog_group_walk env leader_page members ≫= λ _,
      mret true
  end.

Definition CLogSetPageStatus (env : clog_env) (xid : Z) (subxids : list Z)
    (status lsn pageno : Z) (all_xact_same_page : bool) : M clog_state unit :=
  let locked :=
    LWLockAcquire_bank pageno ≫= λ _,
    CLogSetPageStatusInternal env xid subxids status lsn pageno ≫= λ _,
    LWLockRelease_bank pageno in
  if all_xact_same_page && (xid =? pgxact_xid env)
     && (Z.of_nat (length subxids) <=? THRESHOLD_SUBTRANS_CLOG_OPT)
     && bool_decide (subxids = proc_subxids env)
  then
    if lock_is_free env then
      CLogSetPageStatusInternal env xid subxids status lsn pageno ≫= λ _,
      LWLockRelease_bank pageno
    else
      done ← CLogGroupUpdateXidStatus env xid status lsn pageno;
      if (done : bool) then skip else locked
  else locked.

(** ** Several pages *)

Definition on_page (pageno : Z) (xid : Z) : bool := TransactionIdToPage xid =? pageno.

(** The [while] loop of [set_status_by_pages]: one round per run of subxids on
    the same page. *)
Fixpoint set_status_loop (fuel : nat) (env : clog_env) (pageno : Z) (subxids : list Z)
    (status lsn : Z) : M clog_state unit :=
  match fuel with
  | O => nofuel
  | Datatypes.S fuel =>
      let '(chunk, rest) := span (on_page pageno) subxids in
      CLogSetPageStatus env InvalidTransactionId chunk status lsn pageno false ≫= λ _,
      match rest with
      | [] => skip
      | next :: _ => set_status_loop fuel env (TransactionIdToPage next) rest status lsn
      end
  end.

Definition set_status_by_pages (env : clog_env) (subxids : list Z) (status lsn : Z)
    : M clog_state unit :=
  match subxids with
  | [] => skip
  | x :: _ => set_status_loop (length subxids) env (TransactionIdToPage x) subxids status lsn
  end.

Definition CLogSetTreeStatus (env : clog_env) (xid : Z) (subxids : list Z) (status lsn : Z)
    : M clog_state unit :=
  let pageno := TransactionIdToPage xid in
  if negb ((status =? CLOG_XID_STATUS_COMMITTED) || (status =? CLOG_XID_STATUS_ABORTED))
  then raise PANIC
  else
    let '(first, rest) := span (on_page pageno) subxids in
    match rest with
    | [] => CLogSetPageStatus env xid subxids status lsn pageno true
    | _ :: _ =>
        (if status =? CLOG_XID_STATUS_COMMITTED
         then set_status_by_pages env rest CLOG_XID_STATUS_SUB_COMMITTED lsn
         else skip) ≫= λ _,
        CLogSetPageStatus env xid first status lsn pageno false ≫= λ _,
        set_status_by_pages env rest status lsn
    end.

(** ** Startup *)

Definition StartupCLOG (nextXid : Z) : M clog_state unit :=
  let pageno := TransactionIdToPage nextXid in
  LWLockAcquire_bank pageno ≫= λ _,
  modify (with_store (set_latest_page_number pageno pageno)) ≫= λ _,
  LWLockRelease_bank pageno.

(** [memset_s(byteptr + 1, BLCKSZ - byteno - 1, 0, ...)] is the [for_each]. *)
Definition TrimCLOG (env : clog_env) (nextXid : Z) : M clog_state unit :=
  if SS_STANDBY_MODE env then skip
  else
    let pageno := TransactionIdToPage nextXid in
    LWLockAcquire_bank pageno ≫= λ _,
    modify (with_store (set_latest_page_number pageno pageno)) ≫= λ _,
    (if negb (TransactionIdToPgIndex nextXid =? 0) then
       let byteno := TransactionIdToByte nextXid in
       let bshift := TransactionIdToBIndex nextXid * CLOG_BITS_PER_XACT in
       slotno ← slru (SimpleLruReadPage pageno false);
       byteptr ← gets (λ w, page_get (store w) pageno slotno byteno);
       modify (with_store (page_set pageno slotno byteno
         (u8 (Z.land byteptr (Z.shiftl 1 bshift - 1))))) ≫= λ _,
       for_each (λ off, modify (with_store (page_set pageno slotno off 0)))
         (seqZ (byteno + 1) (BLCKSZ - byteno - 1)) ≫= λ _,
       modify (with_store (mark_dirty pageno slotno))
     else modify (with_store (set_force_check_first_xid pageno true))) ≫= λ _,
    LWLockRelease_bank pageno.

End Clog.
Arguments clog_state : clear implicits.

(** ** The status bits of a byte *)

Section Bits.

Lemma land3_bits x y :
  Z.testbit x 0 = Z.testbit y 0 → Z.testbit x 1 = Z.testbit y 1 →
  Z.land x 3 = Z.land y 3.
Proof.
  intros H0 H1. apply Z.bits_inj'. intros i Hi. rewrite !Z.land_spec.
  destruct (decide (i = 0)) as [->|]; [by rewrite H0|].
  destruct (decide (i = 1)) as [->|]; [by rewrite H1|].
  assert (Z.testbit 3 i = false) as -> by (apply (testbit_small 3 2); lia).
  by rewrite !andb_false_r.
Qed.

Lemma u8_testbit x i : 0 ≤ i < 8 → Z.testbit (u8 x) i = Z.testbit x i.
Proof. intros. apply Z.mod_pow2_bits_low. lia. Qed.

(** The byte [CLogSetStatusBit] writes. *)
Definition set_bits (b sh st : Z) : Z :=
  u8 (Z.lor (u8 (Z.land b (lnotw 32 (Z.shiftl 3 sh)))) (Z.shiftl st sh)).

Lemma set_bits_testbit b sh st i :
  0 ≤ st < 4 → 0 ≤ sh ≤ 6 → 0 ≤ i < 8 →
  Z.testbit (set_bits b sh st) i =
    if (sh <=? i) && (i <? sh + 2) then Z.testbit st (i - sh) else Z.testbit b i.
Proof.
  intros Hst Hsh Hi. unfold set_bits, lnotw. rewrite u8_testbit, Z.lor_spec by lia.
  rewrite u8_testbit, !Z.land_spec, Z.lnot_spec, Z.ones_spec_low by lia.
  rewrite !Z.shiftl_spec by lia. rewrite andb_true_r.
  destruct (Z.leb_spec sh i); cbn.
  - destruct (Z.ltb_spec i (sh + 2)); cbn.
    + assert (Z.testbit 3 (i - sh) = true) as ->.
      { assert (i - sh = 0 ∨ i - sh = 1) as [->| ->] by lia; done. }
      by rewrite andb_false_r.
    + rewrite (testbit_small st 2), (testbit_small 3 2) by lia.
      by rewrite andb_true_r, orb_false_r.
  - rewrite !(Z.testbit_neg_r _ (i - sh)) by lia. by rewrite andb_true_r, orb_false_r.
Qed.

Lemma set_bits_same b sh st :
  0 ≤ st < 4 → sh ∈ [0; 2; 4; 6] → Z.land (Z.shiftr (set_bits b sh st) sh) 3 = st.
Proof.
  intros Hst Hsh. transitivity (Z.land st 3).
  2:{ change 3 with (2 ^ 2 - 1). rewrite land_mask_mod by lia. by apply Z.mod_small. }
  assert (0 ≤ sh ≤ 6) by (set_unfold; lia).
  apply land3_bits; rewrite Z.shiftr_spec, set_bits_testbit by lia.
  - replace ((sh <=? 0 + sh) && (0 + sh <? sh + 2)) with true by lia.
    by replace (0 + sh - sh) with 0 by lia.
  - replace ((sh <=? 1 + sh) && (1 + sh <? sh + 2)) with true by lia.
    by replace (1 + sh - sh) with 1 by lia.
Qed.

Lemma set_bits_other b sh st sh' :
  0 ≤ st < 4 → sh ∈ [0; 2; 4; 6] → sh' ∈ [0; 2; 4; 6] → sh ≠ sh' →
  Z.land (Z.shiftr (set_bits b sh st) sh') 3 = Z.land (Z.shiftr b sh') 3.
Proof.
  intros Hst Hsh Hsh' Hne.
  assert (0 ≤ sh ≤ 6) by (set_unfold; lia). assert (0 ≤ sh' ≤ 6) by (set_unfold; lia).
  assert (sh + 2 ≤ sh' ∨ sh' + 2 ≤ sh) as Hd by (set_unfold; lia).
  apply land3_bits; rewrite !Z.shiftr_spec, set_bits_testbit by lia.
  - by replace ((sh <=? 0 + sh') && (0 + sh' <? sh + 2)) with false by lia.
  - by replace ((sh <=? 1 + sh') && (1 + sh' <? sh + 2)) with false by lia.
Qed.

Lemma trim_bits b sh sh' :
  sh ∈ [0; 2; 4; 6] → sh' ∈ [0; 2; 4; 6] →
  Z.land (Z.shiftr (u8 (Z.land b (Z.shiftl 1 sh - 1))) sh') 3
  = if sh <=? sh' then 0 else Z.land (Z.shiftr b sh') 3.
Proof.
  intros Hsh Hsh'. assert (0 ≤ sh ≤ 6) by (set_unfold; lia).
  assert (0 ≤ sh' ≤ 6) by (set_unfold; lia).
  assert (sh ≤ sh' ∨ sh' + 2 ≤ sh) as Hd by (set_unfold; lia).
  assert (∀ i, 0 ≤ i < 8 → Z.testbit (u8 (Z.land b (Z.shiftl 1 sh - 1))) i
    = if i <? sh then Z.testbit b i else false) as Hbit.
  { intros i Hi. rewrite u8_testbit by done. rewrite Z.shiftl_1_l, Z.sub_1_r, <- Z.ones_equiv.
    rewrite Z.land_spec. destruct (Z.ltb_spec i sh).
    - by rewrite Z.ones_spec_low, andb_true_r by lia.
    - by rewrite Z.ones_spec_high, andb_false_r by lia. }
  destruct (Z.leb_spec sh sh').
  - change 0 with (Z.land 0 3). apply land3_bits; rewrite Z.shiftr_spec, Hbit, Z.bits_0 by lia.
    + by rewrite (proj2 (Z.ltb_ge _ _)) by lia.
    + by rewrite (proj2 (Z.ltb_ge _ _)) by lia.
  - apply land3_bits; rewrite !Z.shiftr_spec, Hbit by lia.
    + by rewrite (proj2 (Z.ltb_lt _ _)) by lia.
    + by rewrite (proj2 (Z.ltb_lt _ _)) by lia.
Qed.

End Bits.

(** ** The log as a map from xids to statuses *)

Definition status_in (pg : list Z) (xid : Z) : Z :=
  Z.land (Z.shiftr (aget 0 pg (TransactionIdToByte xid))
            (TransactionIdToBIndex xid * CLOG_BITS_PER_XACT)) CLOG_XACT_BITMASK.

(** Which changes of status [CLogSetStatusBit] accepts, and what it leaves. *)
Definition transition_legal (cur status : Z) : bool :=
  (cur =? 0)
  || ((cur =? CLOG_XID_STATUS_SUB_COMMITTED) && negb (status =? CLOG_XID_STATUS_IN_PROGRESS))
  || (cur =? status)
  || ((cur =? CLOG_XID_STATUS_COMMITTED) && (status =? CLOG_XID_STATUS_SUB_COMMITTED)).

Definition new_status (env : clog_env) (cur status : Z) : Z :=
  if InRecovery env && (status =? CLOG_XID_STATUS_SUB_COMMITTED)
     && (cur =? CLOG_XID_STATUS_COMMITTED)
  then cur else status.

Lemma xid_byte_range xid : 0 ≤ TransactionIdToByte xid < BLCKSZ.
Proof.
  unfold TransactionIdToByte, TransactionIdToPgIndex, CLOG_XACTS_PER_PAGE,
    CLOG_XACTS_PER_BYTE, BLCKSZ. Z.div_mod_to_equations. lia.
Qed.

Lemma xid_bshift_range xid : TransactionIdToBIndex xid * CLOG_BITS_PER_XACT ∈ [0; 2; 4; 6].
Proof.
  unfold TransactionIdToBIndex, CLOG_XACTS_PER_BYTE, CLOG_BITS_PER_XACT.
  pose proof (Z.mod_pos_bound xid 4). set_unfold. lia.
Qed.

(** Page, byte and position in the byte identify the transaction. *)
Lemma xid_location_inj x y :
  0 ≤ x → 0 ≤ y →
  TransactionIdToPage x = TransactionIdToPage y →
  TransactionIdToByte x = TransactionIdToByte y →
  TransactionIdToBIndex x = TransactionIdToBIndex y → x = y.
Proof.
  unfold TransactionIdToPage, TransactionIdToByte, TransactionIdToPgIndex,
    TransactionIdToBIndex, CLOG_XACTS_PER_PAGE, CLOG_XACTS_PER_BYTE, BLCKSZ.
  intros. Z.div_mod_to_equations. lia.
Qed.

Lemma status_in_range pg xid : 0 ≤ status_in pg xid < 4.
Proof.
  unfold status_in. change CLOG_XACT_BITMASK with (2 ^ 2 - 1). rewrite land_mask_mod by lia.
  by apply Z.mod_pos_bound.
Qed.

Lemma status_in_set pg x y st :
  0 ≤ x → 0 ≤ y → 0 ≤ st < 4 → Z.of_nat (length pg) = BLCKSZ →
  TransactionIdToPage x = TransactionIdToPage y →
  status_in (aset pg (TransactionIdToByte x)
    (set_bits (aget 0 pg (TransactionIdToByte x))
       (TransactionIdToBIndex x * CLOG_BITS_PER_XACT) st)) y
  = if decide (y = x) then st else status_in pg y.
Proof.
  intros Hx Hy Hst Hlen Hpage. unfold status_in.
  pose proof (xid_byte_range x). pose proof (xid_byte_range y).
  destruct (decide (TransactionIdToByte y = TransactionIdToByte x)) as [Hb|Hb].
  - rewrite Hb, aget_aset_eq by lia. destruct (decide (y = x)) as [->|Hne].
    + apply set_bits_same; [done | apply xid_bshift_range].
    + apply set_bits_other; [done | apply xid_bshift_range..|].
      intros Heq. apply Hne. apply xid_location_inj; try done.
      unfold CLOG_BITS_PER_XACT in Heq. lia.
  - rewrite aget_aset_ne by lia. destruct (decide (y = x)) as [->|]; done.
Qed.

Section ClogProofs.
Context {S : Type} `{!SlruOps S} `{!SlruSpec S BLCKSZ}.
Implicit Types (w : clog_state S) (env : clog_env).

Definition clog_status (s : S) (xid : Z) : option Z :=
  (λ pg, status_in pg xid) <$> slru_view s (TransactionIdToPage xid).

(** The log [s] read as a map [σ]. *)
Definition clog_is (s : S) (σ : Z → option Z) : Prop :=
  ∀ y, 0 ≤ y → clog_status s y = σ y.

(** [xs] set to [status], and when that is accepted. *)
Definition set_all (env : clog_env) (status : Z) (xs : list Z) (σ : Z → option Z) : Z → option Z :=
  λ y, if decide (y ∈ xs) then (λ c, new_status env c status) <$> σ y else σ y.

Definition can_set (status : Z) (xs : list Z) (σ : Z → option Z) : Prop :=
  ∀ y, y ∈ xs → 0 ≤ y ∧ ∃ c, σ y = Some c ∧ transition_legal c status = true.

Lemma clog_is_ext s σ σ' : (∀ y, σ y = σ' y) → clog_is s σ → clog_is s σ'.
Proof. intros Heq Hs y Hy. rewrite Hs by done. apply Heq. Qed.

Lemma clog_is_view s s' σ :
  (∀ q, slru_view s' q = slru_view s q) → clog_is s σ → clog_is s' σ.
Proof. intros Hv Hs y Hy. unfold clog_status. rewrite Hv. by apply Hs. Qed.

Lemma clog_status_page s y c :
  clog_status s y = Some c → is_Some (slru_view s (TransactionIdToPage y)).
Proof. unfold clog_status. destruct (slru_view s _); [eauto|done]. Qed.

Lemma clog_status_range s y c : clog_status s y = Some c → 0 ≤ c < 4.
Proof.
  unfold clog_status. destruct (slru_view s _); [|done]. intros [= <-]. apply status_in_range.
Qed.

Lemma new_status_legal env c st :
  transition_legal c st = true → transition_legal (new_status env c st) st = true.
Proof.
  unfold new_status, transition_legal. intros H. case_bool; [done|].
  by rewrite (Z.eqb_refl st), orb_true_r.
Qed.

Lemma new_status_idemp env c st : new_status env (new_status env c st) st = new_status env c st.
Proof.
  unfold new_status. destruct (InRecovery env && _ && (c =? _)) eqn:E; [by rewrite E|].
  case_bool; done.
Qed.

Lemma set_status_bit_runs env xid status lsn slotno w c :
  SS_STANDBY_MODE env = false → 0 ≤ xid → 0 ≤ status < 4 →
  slru_at (store w) (TransactionIdToPage xid) slotno →
  clog_status (store w) xid = Some c → transition_legal c status = true →
  ∃ w', runs (CLogSetStatusBit env xid status lsn slotno) w tt w' ∧
    trace w' = trace w ∧ slru_at (store w') (TransactionIdToPage xid) slotno ∧
    ∀ y, 0 ≤ y → clog_status (store w') y =
      if decide (y = xid) then Some (new_status env c status) else clog_status (store w) y.
Proof.
  intros Hss Hx Hst Hat Hc Hleg.
  unfold clog_status in Hc. destruct (slru_view (store w) _) as [pg|] eqn:Hv; [|done].
  cbn in Hc. injection Hc as Hc.
  pose proof (slru_at_length _ _ _ _ Hat Hv) as Hlen.
  pose proof (slru_get _ _ _ _ (TransactionIdToByte xid) Hat Hv (xid_byte_range xid)) as Hget.
  unfold runs, CLogSetStatusBit, mbind, M_bind, gets, modify, skip. rewrite Hget.
  fold (status_in pg xid). rewrite Hc. unfold new_status.
  destruct (InRecovery env && _ && _) eqn:Hrec.
  { eexists. split; [done|]. repeat split; [done|]. intros y Hy.
    destruct (decide (y = xid)) as [->|]; [|done]. unfold clog_status. rewrite Hv. cbn.
    by rewrite Hc. }
  rewrite Hss. fold (transition_legal c status). rewrite Hleg.
  change (Z.shiftl 1 CLOG_BITS_PER_XACT - 1) with 3. fold (set_bits (aget 0 pg (TransactionIdToByte xid))
    (TransactionIdToBIndex xid * CLOG_BITS_PER_XACT) status). cbn [negb].
  set (b' := set_bits _ _ _).
  destruct (slru_set _ _ _ _ _ b' Hat Hv (xid_byte_range xid)) as (Hat' & Hv' & Hoth).
  set (s1 := page_set _ _ _ b' (store w)) in *.
  assert (∀ y, 0 ≤ y → clog_status s1 y =
      if decide (y = xid) then Some status else clog_status (store w) y) as Hst1.
  { intros y Hy. unfold clog_status.
    destruct (decide (TransactionIdToPage y = TransactionIdToPage xid)) as [Hp|Hp].
    - rewrite Hp, Hv', Hv. cbn. unfold b'. rewrite status_in_set by done.
      by destruct (decide (y = xid)).
    - rewrite Hoth by done. destruct (decide (y = xid)) as [->|]; done. }
  destruct (XLogRecPtrIsInvalid lsn); cbn [negb].
  { eexists. split; [done|]. by repeat split. }
  destruct (slru_lsn _ _ _ (GetLSNIndex xid) lsn Hat') as (Hat2 & Hv2).
  case_bool; eexists; (split; [done|]); repeat split; try done.
  intros y Hy. cbn. unfold clog_status. rewrite Hv2. by apply Hst1.
Qed.

Lemma set_all_cons env status x xs σ y :
  set_all env status xs (set_all env status [x] σ) y = set_all env status (x :: xs) σ y.
Proof.
  unfold set_all. destruct (decide (y ∈ xs)), (decide (y ∈ [x])), (decide (y ∈ x :: xs));
    set_unfold; try tauto.
  destruct (σ y); cbn; [|done]. by rewrite new_status_idemp.
Qed.

Lemma can_set_after env status xs ys σ :
  can_set status xs σ → can_set status xs (set_all env status ys σ).
Proof.
  intros H y Hy. destruct (H y Hy) as (? & c & Hc & Hl). split; [done|].
  unfold set_all. rewrite Hc. case_decide; [|by exists c]. exists (new_status env c status).
  split; [done|]. by apply new_status_legal.
Qed.

Lemma set_bits_list_runs env status lsn slotno p xs w σ :
  SS_STANDBY_MODE env = false → 0 ≤ status < 4 →
  slru_at (store w) p slotno → clog_is (store w) σ →
  can_set status xs σ → Forall (λ x, TransactionIdToPage x = p) xs →
  ∃ w', runs (for_each (λ x, CLogSetStatusBit env x status lsn slotno) xs) w tt w' ∧
    trace w' = trace w ∧ slru_at (store w') p slotno ∧
    clog_is (store w') (set_all env status xs σ).
Proof.
  intros Hss Hst. revert w σ. induction xs as [|x xs IH]; intros w σ Hat Hσ Hcan Hp.
  { exists w. split; [done|]. split; [done|]. split; [done|].
    eapply clog_is_ext; [|done]. intros y. unfold set_all.
    destruct (decide (y ∈ [])); [set_solver|done]. }
  destruct (Hcan x) as (Hx & c & Hc & Hl); [left|].
  apply Forall_cons_1 in Hp as [Hpx Hp]. subst p.
  destruct (set_status_bit_runs env x status lsn slotno w c) as (w1 & Hr & Ht & Hat1 & Hs1);
    try done; [by rewrite Hσ|].
  assert (clog_is (store w1) (set_all env status [x] σ)) as Hσ1.
  { intros y Hy. rewrite Hs1 by done. unfold set_all.
    destruct (decide (y = x)) as [->|], (decide (_ ∈ [x])); set_unfold; try tauto.
    - by rewrite Hc.
    - by apply Hσ. }
  destruct (IH w1 _ Hat1 Hσ1) as (w2 & Hr2 & Ht2 & Hat2 & Hs2); [|done|].
  { apply can_set_after. intros y Hy. apply Hcan. by right. }
  exists w2. split; [by eapply runs_bind|]. split; [congruence|]. split; [done|].
  eapply clog_is_ext; [|done]. intros y. apply set_all_cons.
Qed.

(** The xids a call of [CLogSetPageStatusInternal] is about. *)
Definition all_xids (xid : Z) (subxids : list Z) : list Z :=
  if TransactionIdIsValid xid then xid :: subxids else subxids.

Definition status_kind_ok (xid status : Z) : Prop :=
  status = CLOG_XID_STATUS_COMMITTED ∨ status = CLOG_XID_STATUS_ABORTED ∨
  (status = CLOG_XID_STATUS_SUB_COMMITTED ∧ xid = InvalidTransactionId).

Lemma commit_legal_sub c :
  transition_legal c CLOG_XID_STATUS_COMMITTED = true →
  transition_legal c CLOG_XID_STATUS_SUB_COMMITTED = true.
Proof.
  unfold transition_legal, CLOG_XID_STATUS_COMMITTED, CLOG_XID_STATUS_SUB_COMMITTED,
    CLOG_XID_STATUS_IN_PROGRESS. lia.
Qed.

Lemma sub_then_commit_legal env c :
  transition_legal (new_status env c CLOG_XID_STATUS_SUB_COMMITTED)
    CLOG_XID_STATUS_COMMITTED = true.
Proof.
  unfold new_status. case_bool; [|done]. bool_to_prop. by subst.
Qed.

Lemma can_set_after_sub env xs ys σ :
  can_set CLOG_XID_STATUS_COMMITTED xs σ →
  can_set CLOG_XID_STATUS_COMMITTED xs (set_all env CLOG_XID_STATUS_SUB_COMMITTED ys σ).
Proof.
  intros Hcan y Hy. destruct (Hcan y Hy) as (? & c & Hc & ?). split; [done|].
  unfold set_all. rewrite Hc. case_decide; [|by exists c].
  eexists; split; [done|]. apply sub_then_commit_legal.
Qed.

(** Sub-committing the children first changes nothing in the end. *)
Lemma sub_commit_then_commit env xid subs σ y :
  set_all env CLOG_XID_STATUS_COMMITTED subs
    (set_all env CLOG_XID_STATUS_COMMITTED [xid]
       (set_all env CLOG_XID_STATUS_SUB_COMMITTED subs σ)) y
  = set_all env CLOG_XID_STATUS_COMMITTED (xid :: subs) σ y.
Proof.
  unfold set_all, new_status, CLOG_XID_STATUS_COMMITTED, CLOG_XID_STATUS_SUB_COMMITTED.
  destruct (decide (y ∈ subs)), (decide (y ∈ [xid])), (decide (y ∈ xid :: subs));
    set_unfold; try tauto; destruct (σ y); cbn; try done;
    rewrite ?andb_false_r; cbn; try done.
Qed.

(** The first half of [CLogSetPageStatusInternal]: the main transaction, after
    its children on the page have been sub-committed. *)
Lemma main_xact_runs env xid subs status lsn slotno p w σ :
  SS_STANDBY_MODE env = false → 0 ≤ status < 4 →
  slru_at (store w) p slotno → clog_is (store w) σ →
  can_set status (xid :: subs) σ →
  Forall (λ x, TransactionIdToPage x = p) (xid :: subs) →
  ∃ w' σ', runs ((if status =? CLOG_XID_STATUS_COMMITTED then
          for_each (λ sub, CLogSetStatusBit env sub CLOG_XID_STATUS_SUB_COMMITTED lsn slotno) subs
        else skip) ≫= λ _, CLogSetStatusBit env xid status lsn slotno) w tt w' ∧
     trace w' = trace w ∧ slru_at (store w') p slotno ∧
     clog_is (store w') σ' ∧ can_set status subs σ' ∧
     ∀ y, set_all env status subs σ' y = set_all env status (xid :: subs) σ y.
Proof.
  intros Hss Hst Hat Hσ Hcan [Hpx Hps]%Forall_cons_1.
  assert (can_set status subs σ) as Hcs by (intros y Hy; apply Hcan; by right).
  assert (can_set status [xid] σ) as Hcx.
  { intros y ->%list_elem_of_singleton. apply Hcan. left. }
  assert (∃ w1 σ1, runs (if status =? CLOG_XID_STATUS_COMMITTED then
          for_each (λ sub, CLogSetStatusBit env sub CLOG_XID_STATUS_SUB_COMMITTED lsn slotno) subs
        else skip) w tt w1 ∧ trace w1 = trace w ∧ slru_at (store w1) p slotno ∧
     clog_is (store w1) σ1 ∧ can_set status subs σ1 ∧ can_set status [xid] σ1 ∧
     ∀ y, set_all env status subs (set_all env status [xid] σ1) y
          = set_all env status (xid :: subs) σ y)
    as (w1 & σ1 & Hr1 & Ht1 & Hat1 & Hσ1 & Hc1 & Hx1 & Heq1).
  { destruct (status =? CLOG_XID_STATUS_COMMITTED) eqn:Hcm.
    - apply Z.eqb_eq in Hcm. subst status.
      destruct (set_bits_list_runs env CLOG_XID_STATUS_SUB_COMMITTED lsn slotno p subs w σ)
        as (w2 & Hr2 & Ht2 & Hat2 & Hσ2); try done.
      { intros y Hy. destruct (Hcs y Hy) as (? & c & ? & ?). split; [done|].
        exists c. split; [done|]. by apply commit_legal_sub. }
      exists w2, (set_all env CLOG_XID_STATUS_SUB_COMMITTED subs σ).
      split_and!; try done; [..|apply sub_commit_then_commit].
      all: apply can_set_after_sub; done.
    - exists w, σ. split_and!; try done. intros y. apply set_all_cons. }
  destruct (set_bits_list_runs env status lsn slotno p [xid] w1 σ1)
    as (w2 & Hr2 & Ht2 & Hat2 & Hσ2); try done; [by constructor|].
  exists w2, (set_all env status [xid] σ1). split_and!; try done.
  - eapply runs_bind; [done|]. by apply runs_for_each_one in Hr2.
  - congruence.
  - by apply can_set_after.
Qed.

Lemma page_internal_runs env xid subs status lsn p w σ :
  SS_STANDBY_MODE env = false → status_kind_ok xid status →
  slru_ok (store w) → is_Some (slru_view (store w) p) → clog_is (store w) σ →
  can_set status (all_xids xid subs) σ →
  Forall (λ x, TransactionIdToPage x = p) (all_xids xid subs) →
  ∃ w', runs (CLogSetPageStatusInternal env xid subs status lsn p) w tt w' ∧
    trace w' = trace w ∧ slru_ok (store w') ∧
    clog_is (store w') (set_all env status (all_xids xid subs) σ).
Proof.
  intros Hss Hk Hok Hp Hσ Hcan Hpage.
  assert (0 ≤ status < 4) as Hst by (by destruct Hk as [->|[->|[-> _]]]).
  destruct (slru_read (store w) p (XLogRecPtrIsInvalid lsn) Hok Hp)
    as (slotno & s1 & Hr1 & _ & Hat1 & Hv1).
  set (w1 := {| store := s1; trace := trace w |}).
  assert (clog_is (store w1) σ) as Hσ1 by (by eapply clog_is_view).
  assert (∃ w2 σ2, runs (if TransactionIdIsValid xid then
       (if status =? CLOG_XID_STATUS_COMMITTED then
          for_each (λ sub, CLogSetStatusBit env sub CLOG_XID_STATUS_SUB_COMMITTED lsn slotno) subs
        else skip) ≫= λ _, CLogSetStatusBit env xid status lsn slotno
     else skip) w1 tt w2 ∧ trace w2 = trace w ∧ slru_at (store w2) p slotno ∧
     clog_is (store w2) σ2 ∧ can_set status subs σ2 ∧
     Forall (λ x, TransactionIdToPage x = p) subs ∧
     ∀ y, set_all env status subs σ2 y = set_all env status (all_xids xid subs) σ y)
    as (w2 & σ2 & Hr2 & Ht2 & Hat2 & Hσ2 & Hcan2 & Hps & Heq).
  { unfold all_xids in *. destruct (TransactionIdIsValid xid).
    - destruct (main_xact_runs env xid subs status lsn slotno p w1 σ)
        as (w2 & σ2 & Hr & Ht & Hrest); try done.
      exists w2, σ2. split_and!; try done; try apply Hrest.
      by apply Forall_cons_1 in Hpage as [].
    - exists w1, σ. by split_and!. }
  destruct (set_bits_list_runs env status lsn slotno p subs w2 σ2)
    as (w3 & Hr3 & Ht3 & Hat3 & Hσ3); try done.
  destruct (slru_dirty _ _ _ Hat3) as (Hok4 & Hv4).
  exists (with_store (mark_dirty p slotno) w3). split_and!; [|cbn; congruence|done|].
  - unfold CLogSetPageStatusInternal.
    replace (negb _) with false by (by destruct Hk as [->|[->|[-> ->]]]).
    eapply (runs_bind _ _ _ slotno w1); [unfold runs, slru; by rewrite Hr1|].
    eapply runs_bind; [done|]. by eapply runs_bind.
  - eapply clog_is_view; [done|]. by eapply clog_is_ext.
Qed.

(** ** One page, with the locks *)

Lemma set_all_app env status xs ys σ y :
  set_all env status (xs ++ ys) σ y = set_all env status ys (set_all env status xs σ) y.
Proof.
  unfold set_all. destruct (decide (y ∈ xs)), (decide (y ∈ ys)), (decide (y ∈ xs ++ ys));
    rewrite elem_of_app in *; try tauto.
  destruct (σ y); cbn; [|done]. by rewrite new_status_idemp.
Qed.

Lemma set_all_ext env status xs σ σ' y :
  σ y = σ' y → set_all env status xs σ y = set_all env status xs σ' y.
Proof. unfold set_all. intros ->. done. Qed.

Lemma set_all_notin env status xs σ y : y ∉ xs → set_all env status xs σ y = σ y.
Proof. intros. unfold set_all. by rewrite decide_False. Qed.

Definition gm_all (m : group_member) : list Z := all_xids (gm_xid m) (gm_subxids m).

Definition apply_member (env : clog_env) (σ : Z → option Z) (m : group_member) : Z → option Z :=
  set_all env (gm_status m) (gm_all m) σ.

(** Each member can do its own update when its turn comes. *)
Fixpoint members_ok (env : clog_env) (σ : Z → option Z) (ms : list group_member) : Prop :=
  match ms with
  | [] => True
  | m :: ms =>
      status_kind_ok (gm_xid m) (gm_status m) ∧ gm_all m ≠ [] ∧
      can_set (gm_status m) (gm_all m) σ ∧
      Forall (λ x, TransactionIdToPage x = gm_page m) (gm_all m) ∧
      members_ok env (apply_member env σ m) ms
  end.

Lemma can_set_page s σ status xs p :
  clog_is s σ → can_set status xs σ → xs ≠ [] →
  Forall (λ x, TransactionIdToPage x = p) xs → is_Some (slru_view s p).
Proof.
  intros Hσ Hcan Hne Hp. destruct xs as [|x xs]; [done|].
  apply Forall_cons_1 in Hp as [<- _].
  destruct (Hcan x) as (Hx & c & Hc & _); [left|].
  apply (clog_status_page s x c). by rewrite Hσ.
Qed.

(** The leader's walk: every member's update is made, in the order of the list,
    and other backends only ever see the effect of whole members. *)
Lemma group_walk_runs env ms prev w σ :
  SS_STANDBY_MODE env = false → slru_ok (store w) → clog_is (store w) σ →
  members_ok env σ ms →
  ∃ w' tr, runs (clog_group_walk env prev ms) w tt w' ∧ slru_ok (store w') ∧
    clog_is (store w') (foldl (apply_member env) σ ms) ∧ trace w' = trace w ++ tr ∧
    Forall (λ s, ∃ k, clog_is s (foldl (apply_member env) σ (take k ms))) tr.
Proof.
  intros Hss. revert prev w σ. induction ms as [|m ms IH]; intros prev w σ Hok Hσ Hms.
  { eexists _, [store w]. split; [done|]. split_and!; try done.
    constructor; [|done]. by exists 0%nat. }
  destruct Hms as (Hk & Hne & Hcan & Hpg & Hms). cbn [clog_group_walk].
  assert (∃ w1 tr1, runs (if negb (gm_page m =? prev)
       && negb (bank_lock env prev =? bank_lock env (gm_page m))
       then LWLockRelease_bank prev ≫= λ _, LWLockAcquire_bank (gm_page m)
       else skip) w tt w1 ∧ store w1 = store w ∧ trace w1 = trace w ++ tr1 ∧
       Forall (λ s, s = store w) tr1) as (w1 & tr1 & Hr1 & Hs1 & Ht1 & Htr1).
  { case_bool; [exists {| store := store w; trace := trace w ++ [store w] |}, [store w]
      | exists w, []]; split_and!; try done; [by repeat constructor | by rewrite app_nil_r]. }
  destruct (page_internal_runs env (gm_xid m) (gm_subxids m) (gm_status m) (gm_lsn m)
    (gm_page m) w1 σ) as (w2 & Hr2 & Ht2 & Hok2 & Hσ2); try done; [by rewrite Hs1| |by rewrite Hs1|].
  { rewrite Hs1. by eapply can_set_page. }
  destruct (IH (gm_page m) w2 _ Hok2 Hσ2 Hms) as (w3 & tr3 & Hr3 & Hok3 & Hσ3 & Ht3 & Htr3).
  exists w3, (tr1 ++ tr3). split_and!; try done.
  - eapply runs_bind; [done|]. by eapply runs_bind.
  - by rewrite Ht3, Ht2, Ht1, app_assoc.
  - apply Forall_app. split.
    + eapply Forall_impl; [exact Htr1|]. intros s ->. by exists 0%nat.
    + eapply Forall_impl; [exact Htr3|]. intros s [k Hk']. by exists (Datatypes.S k).
Qed.

(** What [CLogSetPageStatus] promises for the xids [xs] it was called for, with
    [others] updated on behalf of a group: all of [xs] change at once. *)
Definition page_outcome (env : clog_env) (status : Z) (xs others : list Z) (σ σ' : Z → option Z)
    (tr : list S) : Prop :=
  (∀ y, y ∈ xs → σ' y = set_all env status xs σ y) ∧
  (∀ y, y ∉ xs → y ∉ others → σ' y = σ y) ∧
  Forall (λ s, ∃ τ, clog_is s τ ∧
    ((∀ y, y ∈ xs → τ y = σ y) ∨ (∀ y, y ∈ xs → τ y = set_all env status xs σ y))) tr.

Lemma page_status_locked_runs env xid subs status lsn p w σ :
  SS_STANDBY_MODE env = false → status_kind_ok xid status →
  slru_ok (store w) → clog_is (store w) σ →
  all_xids xid subs ≠ [] → can_set status (all_xids xid subs) σ →
  Forall (λ x, TransactionIdToPage x = p) (all_xids xid subs) →
  ∃ w', runs (CLogSetPageStatus env xid subs status lsn p false) w tt w' ∧
    slru_ok (store w') ∧ clog_is (store w') (set_all env status (all_xids xid subs) σ) ∧
    trace w' = trace w ++ [store w'].
Proof.
  intros Hss Hk Hok Hσ Hne Hcan Hpg.
  destruct (page_internal_runs env xid subs status lsn p w σ) as (w1 & Hr & Ht & Hok1 & Hσ1);
    try done; [by eapply can_set_page|].
  exists {| store := store w1; trace := trace w1 ++ [store w1] |}.
  split_and!; try done; [|cbn; by rewrite Ht].
  unfold CLogSetPageStatus. cbn [andb]. eapply runs_bind; [done|]. by eapply runs_bind.
Qed.

(** The members of the group other than us. *)
Definition group_xids (env : clog_env) : list Z :=
  match clog_group env with
  | None => []
  | Some (after, before) => (after ++ before) ≫= gm_all
  end.

(** Every member of the group can do its update, and no transaction is updated
    by two members. *)
Definition group_ok (env : clog_env) (xid : Z) (subs : list Z) (status lsn p : Z)
    (σ : Z → option Z) : Prop :=
  ∀ after before, clog_group env = Some (after, before) →
    members_ok env σ (after ++ {| gm_xid := xid; gm_subxids := subs; gm_status := status;
                                  gm_lsn := lsn; gm_page := p |} :: before) ∧
    ∀ y, y ∈ all_xids xid subs → y ∉ group_xids env.

Lemma apply_members_notin env ms σ y :
  y ∉ ms ≫= gm_all → foldl (apply_member env) σ ms y = σ y.
Proof.
  revert σ. induction ms as [|m ms IH]; intros σ Hy; [done|]. cbn.
  rewrite IH; [|intros H; apply Hy; cbn; apply elem_of_app; by right].
  apply set_all_notin. intros H. apply Hy. cbn. apply elem_of_app. by left.
Qed.

Lemma bind_take_notin (ms : list group_member) k y :
  y ∉ ms ≫= gm_all → y ∉ take k ms ≫= gm_all.
Proof.
  intros Hy H. apply Hy. apply list_elem_of_bind in H as (m & Hm & Hin).
  apply list_elem_of_bind. exists m. split; [done|]. by eapply elem_of_take in Hin as (?&?%list_elem_of_lookup_2&?).
Qed.

(** Our own transactions change in one step of the walk. *)
Lemma apply_members_ours env after before me σ k y :
  y ∉ (after ++ before) ≫= gm_all →
  foldl (apply_member env) σ (take k (after ++ me :: before)) y
  = if decide (k ≤ length after)%nat then σ y else set_all env (gm_status me) (gm_all me) σ y.
Proof.
  rewrite bind_app, elem_of_app. intros Hy.
  rewrite take_app, foldl_app. destruct (decide (k ≤ length after)%nat) as [Hk|Hk].
  - replace (k - length after)%nat with 0%nat by lia. cbn.
    apply apply_members_notin, bind_take_notin. tauto.
  - replace (k - length after)%nat with (Datatypes.S (k - length after - 1)) by lia. cbn.
    rewrite apply_members_notin by (apply bind_take_notin; tauto).
    unfold apply_member. apply set_all_ext. apply apply_members_notin, bind_take_notin. tauto.
Qed.

Lemma page_outcome_locked env status xs others σ s :
  clog_is s (set_all env status xs σ) →
  page_outcome env status xs others σ (set_all env status xs σ) [s].
Proof.
  intros Hs. split_and!; [done | intros; by apply set_all_notin |].
  constructor; [|constructor]. eauto.
Qed.

Lemma page_outcome_group env status xs σ after before me tr :
  clog_group env = Some (after, before) → gm_status me = status → gm_all me = xs →
  (∀ y, y ∈ xs → y ∉ group_xids env) →
  Forall (λ s, ∃ k, clog_is s (foldl (apply_member env) σ (take k (after ++ me :: before)))) tr →
  page_outcome env status xs (group_xids env) σ
    (foldl (apply_member env) σ (after ++ me :: before)) tr.
Proof.
  unfold group_xids. intros -> <- <- Hd Htr. split_and!.
  - intros y Hy. rewrite <- (firstn_all (after ++ me :: before)).
    rewrite apply_members_ours by auto. rewrite decide_False; [done|].
    rewrite length_app. cbn. lia.
  - intros y Hy Ho. apply apply_members_notin. rewrite bind_app in *.
    cbn. rewrite elem_of_app in *. rewrite elem_of_app. tauto.
  - eapply Forall_impl; [exact Htr|]. intros s [k Hk]. eexists. split; [exact Hk|].
    destruct (decide (k ≤ length after)%nat); [left|right]; intros y Hy;
      rewrite apply_members_ours by auto; by case_decide.
Qed.

Lemma page_status_runs env xid subs status lsn p same w σ :
  SS_STANDBY_MODE env = false → status_kind_ok xid status →
  slru_ok (store w) → clog_is (store w) σ →
  all_xids xid subs ≠ [] → can_set status (all_xids xid subs) σ →
  Forall (λ x, TransactionIdToPage x = p) (all_xids xid subs) →
  group_ok env xid subs status lsn p σ →
  ∃ w' σ' tr, runs (CLogSetPageStatus env xid subs status lsn p same) w tt w' ∧
    slru_ok (store w') ∧ clog_is (store w') σ' ∧ trace w' = trace w ++ tr ∧
    page_outcome env status (all_xids xid subs) (group_xids env) σ σ' tr.
Proof.
  intros Hss Hk Hok Hσ Hne Hcan Hpg Hgrp.
  destruct (page_status_locked_runs env xid subs status lsn p w σ)
    as (w1 & Hr1 & Hok1 & Hσ1 & Ht1); try done.
  unfold CLogSetPageStatus in *. cbn [andb] in Hr1.
  pose proof (page_outcome_locked env status (all_xids xid subs) (group_xids env) σ _ Hσ1) as Hout.
  destruct (same && _ && _ && _) eqn:Hfast; [|by eauto 10].
  destruct (lock_is_free env); [by eauto 10|].
  apply andb_true_iff in Hfast as [_ Hsub]. apply bool_decide_eq_true in Hsub.
  unfold CLogGroupUpdateXidStatus.
  destruct (clog_group env) as [[after before]|] eqn:Hg.
  2:{ exists w1. eexists _, _. split_and!; try done. }
  destruct (Hgrp _ _ Hg) as [Hms Hdis]. rewrite <- Hsub.
  set (me := {| gm_xid := xid; gm_subxids := subs; gm_status := status; gm_lsn := lsn;
                gm_page := p |}) in *.
  destruct (group_walk_runs env (after ++ me :: before)
    (gm_page (default me (head (reverse (after ++ me :: before))))) w σ)
    as (w2 & tr & Hr2 & Hok2 & Hσ2 & Ht2 & Htr2); try done.
  exists w2. eexists _, tr. split_and!; try done.
  - eapply (runs_bind _ _ _ true w2); [|done]. eapply runs_bind; [done|]. by eapply runs_bind.
  - by eapply page_outcome_group.
Qed.

(** ** Several pages *)

Lemma can_set_app status xs ys σ :
  can_set status (xs ++ ys) σ ↔ can_set status xs σ ∧ can_set status ys σ.
Proof.
  unfold can_set. setoid_rewrite elem_of_app. split; [auto|].
  intros [H1 H2] y [Hy|Hy]; auto.
Qed.

(** The loop works through the list from the left, one page at a time, and is
    never out of fuel: a round consumes at least one subxid. *)
Lemma set_status_loop_runs env status lsn fuel pageno subs w σ :
  SS_STANDBY_MODE env = false → status_kind_ok InvalidTransactionId status →
  slru_ok (store w) → clog_is (store w) σ →
  (∃ x, head subs = Some x ∧ TransactionIdToPage x = pageno) →
  (length subs ≤ fuel)%nat → can_set status subs σ →
  ∃ w' tr, runs (set_status_loop fuel env pageno subs status lsn) w tt w' ∧
    slru_ok (store w') ∧ clog_is (store w') (set_all env status subs σ) ∧
    trace w' = trace w ++ tr ∧
    Forall (λ s, ∃ k, clog_is s (set_all env status (take k subs) σ)) tr.
Proof.
  intros Hss Hk. revert pageno subs w σ.
  induction fuel as [|fuel IH]; intros pageno subs w σ Hok Hσ (x & Hx & Hpx) Hlen Hcan.
  { destruct subs; cbn in *; [done|lia]. }
  destruct subs as [|x' xs]; [done|]. injection Hx as ->.
  cbn [set_status_loop]. pose proof (span_app (on_page pageno) (x :: xs)) as Happ.
  pose proof (span_prefix (on_page pageno) (x :: xs)) as Hpre.
  assert ((span (on_page pageno) (x :: xs)).1 ≠ []) as Hnil.
  { cbn. unfold on_page at 1. rewrite Hpx, Z.eqb_refl. by destruct (span _ xs). }
  destruct (span (on_page pageno) (x :: xs)) as [chunk rest]. cbn [fst snd] in *.
  rewrite <- Happ in Hcan, Hlen |- *. apply can_set_app in Hcan as [Hc1 Hc2].
  destruct (page_status_locked_runs env InvalidTransactionId chunk status lsn pageno w σ)
    as (w1 & Hr1 & Hok1 & Hσ1 & Ht1); try done.
  { eapply Forall_impl; [exact Hpre|]. intros y. apply Z.eqb_eq. }
  assert (clog_is (store w1) (set_all env status (take (length chunk) (chunk ++ rest)) σ)) as Hs1.
  { rewrite take_app_length. done. }
  destruct rest as [|next rest].
  { exists w1, [store w1]. split_and!; try done.
    - by eapply runs_bind.
    - by rewrite app_nil_r.
    - constructor; [by eauto|constructor]. }
  destruct (IH (TransactionIdToPage next) (next :: rest) w1 _ Hok1 Hσ1)
    as (w2 & tr & Hr2 & Hok2 & Hσ2 & Ht2 & Htr2).
  { by eexists. }
  { rewrite length_app in Hlen. destruct chunk; [done|]. cbn in *. lia. }
  { by apply can_set_after. }
  exists w2, ([store w1] ++ tr). split_and!; try done.
  - by eapply runs_bind.
  - eapply clog_is_ext; [|done]. intros y. by rewrite set_all_app.
  - by rewrite Ht2, Ht1, app_assoc.
  - apply Forall_app. split; [constructor; [by eauto|constructor]|].
    eapply Forall_impl; [exact Htr2|]. intros s [k Hk']. exists (length chunk + k)%nat.
    rewrite take_app_add. eapply clog_is_ext; [|exact Hk']. intros y. by rewrite set_all_app.
Qed.

Lemma set_status_by_pages_runs env status lsn subs w σ :
  SS_STANDBY_MODE env = false → status_kind_ok InvalidTransactionId status →
  slru_ok (store w) → clog_is (store w) σ → can_set status subs σ →
  ∃ w' tr, runs (set_status_by_pages env subs status lsn) w tt w' ∧
    slru_ok (store w') ∧ clog_is (store w') (set_all env status subs σ) ∧
    trace w' = trace w ++ tr ∧
    Forall (λ s, ∃ k, clog_is s (set_all env status (take k subs) σ)) tr.
Proof.
  intros Hss Hk Hok Hσ Hcan. destruct subs as [|x xs].
  - exists w, []. rewrite app_nil_r. split_and!; try done.
  - apply set_status_loop_runs; try done. by eexists.
Qed.

(** ** A transaction tree *)

(** When a tree may be given a status: the caller's side of the contract. *)
Definition tree_pre (env : clog_env) (xid : Z) (subs : list Z) (status lsn : Z) (s : S) : Prop :=
  SS_STANDBY_MODE env = false ∧ xid ≠ InvalidTransactionId ∧ (xid ∉ subs) ∧
  (status = CLOG_XID_STATUS_COMMITTED ∨ status = CLOG_XID_STATUS_ABORTED) ∧
  slru_ok s ∧ can_set status (xid :: subs) (clog_status s) ∧
  group_ok env xid subs status lsn (TransactionIdToPage xid) (clog_status s).

(** What other backends may find while the tree [xid], [subs] goes from [σ] to
    [status]: before the main transaction has changed, children at most marked
    sub-committed (when committing); after it, every child changed or (when
    committing) still marked sub-committed. *)
Definition tree_phase (env : clog_env) (xid : Z) (subs : list Z) (status : Z)
    (σ : Z → option Z) (s : S) : Prop :=
  let sub y := (λ c, new_status env c CLOG_XID_STATUS_SUB_COMMITTED) <$> σ y in
  let commit := status = CLOG_XID_STATUS_COMMITTED in
  (clog_status s xid = σ xid ∧
   ∀ y, y ∈ subs → clog_status s y = σ y ∨ (commit ∧ clog_status s y = sub y)) ∨
  (clog_status s xid = Some status ∧
   ∀ y, y ∈ subs → clog_status s y = Some status ∨
     (commit ∧ clog_status s y = sub y) ∨ (¬ commit ∧ clog_status s y = σ y)).

Lemma new_status_main env c st : st ≠ CLOG_XID_STATUS_SUB_COMMITTED → new_status env c st = st.
Proof. intros. unfold new_status. by rewrite (proj2 (Z.eqb_neq _ _)), andb_false_r by done. Qed.

Lemma set_all_main env st xs σ y :
  st ≠ CLOG_XID_STATUS_SUB_COMMITTED → is_Some (σ y) →
  set_all env st xs σ y = if decide (y ∈ xs) then Some st else σ y.
Proof.
  intros Hst [c Hc]. unfold set_all. rewrite Hc. case_decide; [|done].
  cbn. by rewrite new_status_main.
Qed.

Lemma set_all_is_Some env st xs σ y : is_Some (σ y) → is_Some (set_all env st xs σ y).
Proof. intros [c Hc]. unfold set_all. rewrite Hc. case_decide; cbn; eauto. Qed.

(** The final state of a tree on several pages, and its phases. *)
Section MultiPage.
Context (env : clog_env) (xid : Z) (first rest : list Z) (status : Z) (s0 : S).
Let σ := clog_status s0.
Hypothesis Hx0 : 0 ≤ xid.
Hypothesis Hx : xid ∉ first ++ rest.
Hypothesis Hstatus : status = CLOG_XID_STATUS_COMMITTED ∨ status = CLOG_XID_STATUS_ABORTED.
Hypothesis Hcan : can_set status (xid :: first ++ rest) σ.

Let σ1 := if decide (status = CLOG_XID_STATUS_COMMITTED)
          then set_all env CLOG_XID_STATUS_SUB_COMMITTED rest σ else σ.
Let σ2 := set_all env status (xid :: first) σ1.

Lemma status_not_sub : status ≠ CLOG_XID_STATUS_SUB_COMMITTED.
Proof using All. by destruct Hstatus as [-> | ->]. Qed.

Lemma known y : y ∈ xid :: first ++ rest → 0 ≤ y ∧ is_Some (σ y).
Proof using All. intros (? & c & ? & _)%Hcan. eauto. Qed.

Lemma known1 y : y ∈ xid :: first ++ rest → is_Some (σ1 y).
Proof using All.
  intros [_ Hs]%known. unfold σ1. case_decide; [by apply set_all_is_Some|done].
Qed.

Lemma known2 y : y ∈ xid :: first ++ rest → is_Some (σ2 y).
Proof using All. intros Hs%known1. by apply set_all_is_Some. Qed.

Lemma phase_subcommit k s :
  status = CLOG_XID_STATUS_COMMITTED →
  clog_is s (set_all env CLOG_XID_STATUS_SUB_COMMITTED (take k rest) σ) →
  tree_phase env xid (first ++ rest) status σ s.
Proof using All.
  intros Hc Hs. left. split.
  - rewrite Hs by done. apply set_all_notin. intros (i & Hi & _)%elem_of_take.
    apply Hx, elem_of_app. right. by eapply list_elem_of_lookup_2.
  - intros y Hy. destruct (known y) as [Hy0 _]; [by right|]. rewrite Hs by done.
    unfold set_all. case_decide; [by right|by left].
Qed.

Lemma phase_main k s :
  clog_is s (set_all env status (take k rest) σ2) →
  tree_phase env xid (first ++ rest) status σ s.
Proof using All.
  intros Hs. right.
  assert (∀ y, y ∈ xid :: first ++ rest → clog_status s y =
    if decide (y ∈ take k rest) then Some status
    else if decide (y ∈ xid :: first) then Some status else σ1 y) as Hall.
  { intros y Hy. rewrite Hs by apply (known y Hy).
    rewrite set_all_main by (try apply status_not_sub; by apply known2).
    case_decide; [done|]. unfold σ2.
    by rewrite set_all_main by (try apply status_not_sub; by apply known1). }
  split.
  - rewrite Hall by left. case_decide; [done|]. rewrite decide_True; [done|left].
  - intros y Hy. rewrite Hall by (by right). case_decide; [by left|]. case_decide; [by left|].
    right. unfold σ1. destruct (decide (status = CLOG_XID_STATUS_COMMITTED)); [left|right; done].
    split; [done|]. unfold set_all. rewrite decide_True; [done|].
    apply elem_of_app in Hy as [Hy|Hy]; [|done]. exfalso. by auto using list_elem_of_further.
Qed.

Lemma multi_final s :
  clog_is s (set_all env status rest σ2) →
  ∀ y, 0 ≤ y → clog_status s y =
    if decide (y ∈ xid :: first ++ rest) then Some status else σ y.
Proof using All.
  intros Hs y Hy. rewrite Hs by done. case_decide as Hin.
  - rewrite set_all_main by (try apply status_not_sub; by apply known2).
    case_decide; [done|]. unfold σ2.
    rewrite set_all_main by (try apply status_not_sub; by apply known1).
    rewrite decide_True; [done|]. rewrite app_comm_cons in Hin.
    apply elem_of_app in Hin as [|]; done.
  - rewrite app_comm_cons, elem_of_app in Hin. rewrite set_all_notin by tauto.
    unfold σ2. rewrite set_all_notin by tauto. unfold σ1.
    case_decide; [|done]. by rewrite set_all_notin by tauto.
Qed.

End MultiPage.

Lemma clog_is_self s : clog_is s (clog_status s).
Proof. intros y _. done. Qed.

Lemma valid_all_xids xid subs : xid ≠ InvalidTransactionId → all_xids xid subs = xid :: subs.
Proof.
  intros Hx. unfold all_xids, TransactionIdIsValid. by rewrite (proj2 (Z.eqb_neq _ _)).
Qed.

(** A tree on several pages: children elsewhere are sub-committed, then the
    main page is set in one go, then the children elsewhere. *)
Lemma tree_multi_page_runs env xid first rest status lsn w :
  tree_pre env xid (first ++ rest) status lsn (store w) →
  Forall (λ x, TransactionIdToPage x = TransactionIdToPage xid) first →
  ∃ w' tr, runs ((if status =? CLOG_XID_STATUS_COMMITTED
         then set_status_by_pages env rest CLOG_XID_STATUS_SUB_COMMITTED lsn
         else skip) ≫= λ _,
        CLogSetPageStatus env xid first status lsn (TransactionIdToPage xid) false ≫= λ _,
        set_status_by_pages env rest status lsn) w tt w' ∧
    slru_ok (store w') ∧ trace w' = trace w ++ tr ∧
    (∀ y, 0 ≤ y → clog_status (store w') y =
      if decide (y ∈ xid :: first ++ rest) then Some status else clog_status (store w) y) ∧
    Forall (tree_phase env xid (first ++ rest) status (clog_status (store w))) tr.
Proof.
  intros (Hss & Hxv & Hxn & Hst & Hok & Hcan & _) Hfirst.
  set (σ := clog_status (store w)) in *.
  assert (can_set status (xid :: first) σ ∧ can_set status rest σ) as [Hcf Hcr].
  { by rewrite app_comm_cons, can_set_app in Hcan. }
  assert (0 ≤ xid) as Hx0 by (by destruct (Hcan xid) as [? _]; [left|]).
  set (σ1 := if decide (status = CLOG_XID_STATUS_COMMITTED)
          then set_all env CLOG_XID_STATUS_SUB_COMMITTED rest σ else σ).
  assert (∃ w1 tr1, runs (if status =? CLOG_XID_STATUS_COMMITTED
         then set_status_by_pages env rest CLOG_XID_STATUS_SUB_COMMITTED lsn else skip) w tt w1 ∧
      slru_ok (store w1) ∧ clog_is (store w1) σ1 ∧ trace w1 = trace w ++ tr1 ∧
      (∀ xs, can_set status xs σ → can_set status xs σ1) ∧
      Forall (tree_phase env xid (first ++ rest) status σ) tr1)
    as (w1 & tr1 & Hr1 & Hok1 & Hσ1 & Ht1 & Hmono & Htr1).
  { unfold σ1. destruct (decide (status = CLOG_XID_STATUS_COMMITTED)) as [->|Hne].
    - destruct (set_status_by_pages_runs env CLOG_XID_STATUS_SUB_COMMITTED lsn rest w σ)
        as (w1 & tr1 & Hr & Hok1 & Hσ1 & Ht & Htr); try done; [by right; right| |].
      { intros y Hy. destruct (Hcr y Hy) as (? & c & ? & ?). split; [done|].
        exists c. split; [done|]. by apply commit_legal_sub. }
      exists w1, tr1. split_and!; try done; [intros; by apply can_set_after_sub|].
      eapply Forall_impl; [exact Htr|]. intros s [k Hk]. by eapply phase_subcommit.
    - rewrite (proj2 (Z.eqb_neq _ _)) by done. exists w, []. rewrite app_nil_r.
      split_and!; try done. }
  rewrite <- (valid_all_xids xid first Hxv) in Hcf.
  destruct (page_status_locked_runs env xid first status lsn (TransactionIdToPage xid) w1 σ1)
    as (w2 & Hr2 & Hok2 & Hσ2 & Ht2); try done.
  { unfold status_kind_ok. tauto. }
  { by rewrite valid_all_xids. }
  { by apply Hmono. }
  { rewrite valid_all_xids by done. by constructor. }
  rewrite valid_all_xids in Hσ2 by done.
  destruct (set_status_by_pages_runs env status lsn rest w2 _ Hss
    ltac:(unfold status_kind_ok; tauto) Hok2 Hσ2) as (w3 & tr3 & Hr3 & Hok3 & Hσ3 & Ht3 & Htr3).
  { apply can_set_after. by apply Hmono. }
  exists w3, (tr1 ++ [store w2] ++ tr3). split_and!; try done.
  - eapply runs_bind; [done|]. by eapply runs_bind.
  - by rewrite Ht3, Ht2, Ht1, <- !app_assoc.
  - by apply (multi_final env xid first rest status (store w)).
  - rewrite !Forall_app. split_and!; [done| |].
    + constructor; [|constructor]. by apply (phase_main env _ _ _ _ _ Hx0 Hxn Hst Hcan 0).
    + eapply Forall_impl; [exact Htr3|]. intros s [k Hk].
      by apply (phase_main env _ _ _ _ _ Hx0 Hxn Hst Hcan k).
Qed.

(** A tree on one page changes in one step. *)
Lemma tree_one_page_runs env xid subs status lsn w :
  tree_pre env xid subs status lsn (store w) →
  Forall (λ x, TransactionIdToPage x = TransactionIdToPage xid) subs →
  ∃ w' tr, runs (CLogSetPageStatus env xid subs status lsn (TransactionIdToPage xid) true) w tt w' ∧
    slru_ok (store w') ∧ trace w' = trace w ++ tr ∧
    (∀ y, 0 ≤ y → y ∉ group_xids env → clog_status (store w') y =
      if decide (y ∈ xid :: subs) then Some status else clog_status (store w) y) ∧
    (∀ y, y ∈ xid :: subs → clog_status (store w') y = Some status) ∧
    Forall (tree_phase env xid subs status (clog_status (store w))) tr.
Proof.
  intros (Hss & Hxv & Hxn & Hst & Hok & Hcan & Hgrp) Hpg.
  set (σ := clog_status (store w)) in *.
  assert (status ≠ CLOG_XID_STATUS_SUB_COMMITTED) as Hns by (by destruct Hst as [-> | ->]).
  pose proof (valid_all_xids xid subs Hxv) as Hall.
  destruct (page_status_runs env xid subs status lsn (TransactionIdToPage xid) true w σ)
    as (w' & σ' & tr & Hr & Hok' & Hσ' & Ht & Hin & Hout & Htr);
    rewrite ?Hall; try done; [unfold status_kind_ok; tauto | by constructor |].
  rewrite Hall in *.
  assert (∀ y, y ∈ xid :: subs → 0 ≤ y ∧ set_all env status (xid :: subs) σ y = Some status) as Hset.
  { intros y Hy. destruct (Hcan y Hy) as (? & c & Hc & _). split; [done|].
    rewrite set_all_main by (by eauto). by rewrite decide_True. }
  exists w', tr. split_and!; try done.
  - intros y Hy Hng. rewrite Hσ' by done. case_decide as Hyin; [|by apply Hout].
    rewrite Hin by done. by apply Hset.
  - intros y Hy. destruct (Hset y Hy) as [? <-]. rewrite Hσ' by done. by apply Hin.
  - eapply Forall_impl; [exact Htr|]. intros s (τ & Hs & [Hτ|Hτ]); [left|right].
    + split; [|intros y Hy; left]; (rewrite Hs; [apply Hτ|apply Hset]);
        try (by left); by right.
    + assert (∀ y, y ∈ xid :: subs → clog_status s y = Some status) as Hy.
      { intros y Hy. destruct (Hset y Hy) as [? <-]. rewrite Hs by done. by apply Hτ. }
      split; [apply Hy; left|]. intros y ?. left. apply Hy. by right.
Qed.

Lemma tree_status_runs env xid subs status lsn w :
  tree_pre env xid subs status lsn (store w) →
  ∃ w' tr, runs (CLogSetTreeStatus env xid subs status lsn) w tt w' ∧
    slru_ok (store w') ∧ trace w' = trace w ++ tr ∧
    (∀ y, 0 ≤ y → y ∉ group_xids env → clog_status (store w') y =
      if decide (y ∈ xid :: subs) then Some status else clog_status (store w) y) ∧
    (∀ y, y ∈ xid :: subs → clog_status (store w') y = Some status) ∧
    Forall (tree_phase env xid subs status (clog_status (store w))) tr.
Proof.
  intros Hpre. unfold CLogSetTreeStatus.
  replace (negb _) with false by (by destruct Hpre as (_ & _ & _ & [-> | ->] & _)).
  pose proof (span_app (on_page (TransactionIdToPage xid)) subs) as Happ.
  pose proof (span_prefix (on_page (TransactionIdToPage xid)) subs) as Hfirst.
  destruct (span _ subs) as [first rest]. cbn [fst snd] in *.
  assert (Forall (λ x, TransactionIdToPage x = TransactionIdToPage xid) first) as Hf.
  { eapply Forall_impl; [exact Hfirst|]. intros y. apply Z.eqb_eq. }
  destruct rest as [|r rest].
  - rewrite app_nil_r in Happ. subst first. by apply tree_one_page_runs.
  - rewrite <- Happ in Hpre |- *.
    destruct (tree_multi_page_runs env xid first (r :: rest) status lsn w Hpre Hf)
      as (w' & tr & Hr & Hok & Ht & Hfin & Htr).
    exists w', tr. split_and!; try done; [by auto|].
    intros y Hy. rewrite Hfin; [by rewrite decide_True|].
    destruct Hpre as (_ & _ & _ & _ & _ & Hcan & _). by apply (Hcan y Hy).
Qed.

(** ** Reading *)

Lemma get_status_runs xid w c :
  slru_ok (store w) → clog_status (store w) xid = Some c →
  ∃ lsn w', runs (CLogGetStatus xid) w (c, lsn) w' ∧ slru_ok (store w') ∧
    trace w' = trace w ∧ ∀ y, clog_status (store w') y = clog_status (store w) y.
Proof.
  intros Hok Hc. pose proof (clog_status_page _ _ _ Hc) as Hp.
  destruct (slru_read_only _ _ Hok Hp) as (slotno & s1 & Hr & Hok1 & Hat & Hv).
  unfold clog_status in Hc. destruct Hp as [pg Hpg]. rewrite Hpg in Hc. injection Hc as Hc.
  pose proof (slru_get s1 _ _ pg (TransactionIdToByte xid) Hat ltac:(by rewrite Hv)
    (xid_byte_range xid)) as Hget.
  set (w1 := {| store := s1; trace := trace w |}).
  eexists _, w1. split_and!; try done.
  - eapply (runs_bind _ _ _ slotno w1); [unfold runs, slru; by rewrite Hr|].
    unfold runs, mbind, M_bind, gets. cbn [store w1]. rewrite Hget. subst c. reflexivity.
  - intros y. unfold clog_status. cbn. by rewrite Hv.
Qed.

(** ** Trimming *)

Definition set_zero (pg : list Z) (offs : list Z) : list Z := foldl (λ pg off, aset pg off 0) pg offs.

Lemma set_zero_length pg offs : length (set_zero pg offs) = length pg.
Proof.
  revert pg. induction offs as [|o offs IH]; intros pg; [done|]. cbn.
  by rewrite IH, length_aset.
Qed.

Lemma set_zero_get pg offs i :
  0 ≤ i < Z.of_nat (length pg) → Forall (λ o, 0 ≤ o) offs →
  aget 0 (set_zero pg offs) i = if decide (i ∈ offs) then 0 else aget 0 pg i.
Proof.
  intros Hi Ho. revert pg Hi. induction Ho as [|o offs Ho0 Ho IH]; intros pg Hi; cbn.
  { rewrite decide_False; [done|apply not_elem_of_nil]. }
  rewrite IH by (by rewrite length_aset).
  destruct (decide (i ∈ offs)) as [Hin|Hn].
  { rewrite decide_True; [done|by right]. }
  destruct (decide (i = o)) as [->|Hne].
  - rewrite aget_aset_eq by done. rewrite decide_True; [done|left].
  - rewrite aget_aset_ne by lia. rewrite decide_False; [done|].
    rewrite elem_of_cons. tauto.
Qed.

Lemma zero_bytes_runs p slotno offs w pg :
  slru_at (store w) p slotno → slru_view (store w) p = Some pg →
  Forall (λ o, 0 ≤ o < BLCKSZ) offs →
  ∃ w', runs (for_each (λ off, modify (with_store (page_set p slotno off 0))) offs) w tt w' ∧
    trace w' = trace w ∧ slru_at (store w') p slotno ∧
    slru_view (store w') p = Some (set_zero pg offs) ∧
    ∀ q, q ≠ p → slru_view (store w') q = slru_view (store w) q.
Proof.
  intros Hat Hv Ho. revert w pg Hat Hv. induction Ho as [|o offs Ho0 Ho IH]; intros w pg Hat Hv.
  { exists w. by split_and!. }
  destruct (slru_set _ _ _ _ o 0 Hat Hv Ho0) as (Hat1 & Hv1 & Hoth1).
  destruct (IH (with_store (page_set p slotno o 0) w) _ Hat1 Hv1)
    as (w' & Hr & Ht & Hat2 & Hv2 & Hoth2).
  exists w'. split_and!; try done. intros q Hq. rewrite Hoth2 by done. by apply Hoth1.
Qed.

(** The page [TrimCLOG] leaves. *)
Definition trimmed (nextXid : Z) (pg : list Z) : list Z :=
  let byteno := TransactionIdToByte nextXid in
  set_zero (aset pg byteno (u8 (Z.land (aget 0 pg byteno)
    (Z.shiftl 1 (TransactionIdToBIndex nextXid * CLOG_BITS_PER_XACT) - 1))))
    (seqZ (byteno + 1) (BLCKSZ - byteno - 1)).

Lemma trimmed_status nextXid pg y :
  Z.of_nat (length pg) = BLCKSZ → 0 ≤ nextXid → 0 ≤ y →
  TransactionIdToPage y = TransactionIdToPage nextXid →
  status_in (trimmed nextXid pg) y =
    if nextXid <=? y then CLOG_XID_STATUS_IN_PROGRESS else status_in pg y.
Proof.
  intros Hlen Hn Hy Hpage. unfold status_in, trimmed.
  pose proof (xid_byte_range nextXid). pose proof (xid_byte_range y).
  rewrite set_zero_get.
  2:{ rewrite length_aset. lia. }
  2:{ apply Forall_forall. intros o Ho%elem_of_seqZ. lia. }
  assert (nextXid ≤ y ↔ TransactionIdToByte nextXid < TransactionIdToByte y ∨
    (TransactionIdToByte nextXid = TransactionIdToByte y ∧
     TransactionIdToBIndex nextXid ≤ TransactionIdToBIndex y)) as Hcmp.
  { clear - Hn Hy Hpage. unfold TransactionIdToPage, TransactionIdToByte, TransactionIdToPgIndex,
      TransactionIdToBIndex, CLOG_XACTS_PER_PAGE, CLOG_XACTS_PER_BYTE, BLCKSZ in *.
    Z.div_mod_to_equations. lia. }
  case_decide as Hin; rewrite elem_of_seqZ in Hin.
  - rewrite (proj2 (Z.leb_le _ _)) by lia. by rewrite Z.shiftr_0_l.
  - destruct (decide (TransactionIdToByte y = TransactionIdToByte nextXid)) as [Hb|Hb].
    + rewrite Hb, aget_aset_eq by lia. rewrite trim_bits by apply xid_bshift_range.
      unfold CLOG_BITS_PER_XACT in *.
      destruct (Z.leb_spec nextXid y), (Z.leb_spec (TransactionIdToBIndex nextXid * 2)
        (TransactionIdToBIndex y * 2)); try done; lia.
    + rewrite aget_aset_ne by lia. rewrite (proj2 (Z.leb_gt _ _)) by lia. done.
Qed.

Lemma trim_page_runs env nextXid w pg :
  SS_STANDBY_MODE env = false → TransactionIdToPgIndex nextXid ≠ 0 →
  slru_ok (store w) → slru_view (store w) (TransactionIdToPage nextXid) = Some pg →
  ∃ w', runs (TrimCLOG env nextXid) w tt w' ∧ slru_ok (store w') ∧
    slru_view (store w') (TransactionIdToPage nextXid) = Some (trimmed nextXid pg) ∧
    ∀ q, q ≠ TransactionIdToPage nextXid → slru_view (store w') q = slru_view (store w) q.
Proof.
  intros Hss Hidx Hok Hv. set (p := TransactionIdToPage nextXid) in *.
  destruct (slru_latest _ p p Hok) as [Hok1 Hv1].
  destruct (slru_read _ p false Hok1) as (slotno & s2 & Hr2 & Hok2 & Hat2 & Hv2).
  { rewrite Hv1. eauto. }
  assert (slru_view s2 p = Some pg) as Hp2 by (by rewrite Hv2, Hv1).
  pose proof (slru_get _ _ _ _ _ Hat2 Hp2 (xid_byte_range nextXid)) as Hget.
  set (b := u8 (Z.land (aget 0 pg (TransactionIdToByte nextXid))
    (Z.shiftl 1 (TransactionIdToBIndex nextXid * CLOG_BITS_PER_XACT) - 1))).
  destruct (slru_set _ _ _ _ _ b Hat2 Hp2 (xid_byte_range nextXid)) as (Hat3 & Hp3 & Hv3).
  pose proof (xid_byte_range nextXid) as Hbr.
  destruct (zero_bytes_runs p slotno (seqZ (TransactionIdToByte nextXid + 1)
    (BLCKSZ - TransactionIdToByte nextXid - 1))
    {| store := page_set p slotno (TransactionIdToByte nextXid) b s2; trace := trace w |} _ Hat3 Hp3)
    as (w4 & Hr4 & Ht4 & Hat4 & Hp4 & Hv4).
  { apply Forall_forall. intros o Ho%elem_of_seqZ. lia. }
  destruct (slru_dirty _ _ _ Hat4) as [Hok5 Hv5].
  eexists. split.
  - unfold TrimCLOG. rewrite Hss. eapply runs_bind; [done|]. eapply runs_bind; [done|].
    eapply runs_bind; [|done]. rewrite (proj2 (Z.eqb_neq _ _)) by done. cbn [negb].
    eapply (runs_bind _ _ _ slotno {| store := s2; trace := trace w |});
      [unfold runs, slru; cbn [store with_store]; fold p; by rewrite Hr2|].
    eapply runs_bind; [done|]. cbn [store]. fold p. rewrite Hget. eapply runs_bind; [done|].
    eapply runs_bind; [exact Hr4|]. done.
  - split; [exact Hok5|]. split; [cbn; by rewrite Hv5|].
    intros q Hq. cbn. rewrite Hv5, Hv4, Hv3, Hv2, Hv1 by done. done.
Qed.

(** ** The properties of the commit log *)

(** The two phases of a commit that starts with the tree in progress. *)
Definition commit_phase (xid : Z) (subs : list Z) (s : S) : Prop :=
  (clog_status s xid = Some CLOG_XID_STATUS_IN_PROGRESS ∧
   ∀ y, y ∈ subs → clog_status s y = Some CLOG_XID_STATUS_IN_PROGRESS ∨
                   clog_status s y = Some CLOG_XID_STATUS_SUB_COMMITTED) ∨
  (clog_status s xid = Some CLOG_XID_STATUS_COMMITTED ∧
   ∀ y, y ∈ subs → clog_status s y = Some CLOG_XID_STATUS_COMMITTED ∨
                   clog_status s y = Some CLOG_XID_STATUS_SUB_COMMITTED).

Lemma commit_phase_cases env xid subs σ s :
  (∀ y, y ∈ xid :: subs → σ y = Some CLOG_XID_STATUS_IN_PROGRESS) →
  tree_phase env xid subs CLOG_XID_STATUS_COMMITTED σ s → commit_phase xid subs s.
Proof.
  intros Hprog Hs.
  assert (∀ y, y ∈ subs → σ y = Some CLOG_XID_STATUS_IN_PROGRESS) as Hsub.
  { intros y Hy. apply Hprog. by right. }
  assert (∀ y, y ∈ subs → (λ c, new_status env c CLOG_XID_STATUS_SUB_COMMITTED) <$>
    σ y = Some CLOG_XID_STATUS_SUB_COMMITTED) as Hmark.
  { intros y Hy. rewrite Hsub by done. cbn. unfold new_status. by rewrite andb_false_r. }
  destruct Hs as [[Hx Hy]|[Hx Hy]]; [left|right]; rewrite Hx; (split; [try done; apply Hprog; left|]).
  - intros y Hin. destruct (Hy y Hin) as [->|[_ ->]]; rewrite ?Hmark, ?Hsub by done; auto.
  - intros y Hin. destruct (Hy y Hin) as [->|[[_ ->]|[Hno _]]]; rewrite ?Hmark by done; auto.
    by destruct Hno.
Qed.

(** Commit is atomic for every observer. Whenever the status of a
    transaction tree all of whose members are in progress is set to committed,
    [CLogSetTreeStatus] succeeds, and at every instant at which another backend
    can look at the log either the main transaction is still in progress and
    each child is in progress or sub-committed, or the main transaction is
    committed and each child is committed or sub-committed (and thus takes its
    parent's status); in the end all are committed. This covers trees on one
    page, with or without a group update by another backend, and trees on any
    number of pages. *)
Theorem commit_tree_atomic env xid subs lsn w :
  tree_pre env xid subs CLOG_XID_STATUS_COMMITTED lsn (store w) →
  (∀ y, y ∈ xid :: subs → clog_status (store w) y = Some CLOG_XID_STATUS_IN_PROGRESS) →
  ∃ w' tr,
    runs (CLogSetTreeStatus env xid subs CLOG_XID_STATUS_COMMITTED lsn) w tt w' ∧
    trace w' = trace w ++ tr ∧
    (∀ y, y ∈ xid :: subs → clog_status (store w') y = Some CLOG_XID_STATUS_COMMITTED) ∧
    Forall (commit_phase xid subs) tr.
Proof.
  intros Hpre Hprog.
  destruct (tree_status_runs env xid subs _ lsn w Hpre) as (w' & tr & Hr & _ & Ht & _ & Hfin & Htr).
  exists w', tr. split_and!; try done. eapply Forall_impl; [exact Htr|]. intros s.
  by apply commit_phase_cases.
Qed.

(** [CLogSetTreeStatus] does exactly its job: for a tree whose members may
    change to [status] it returns (the page loop ends), every member then has
    that status, and no other transaction's status has changed, except those of
    backends whose own update was made on their behalf by the group leader. *)
Theorem set_tree_status_spec env xid subs status lsn w :
  tree_pre env xid subs status lsn (store w) →
  ∃ w', runs (CLogSetTreeStatus env xid subs status lsn) w tt w' ∧ slru_ok (store w') ∧
    (∀ y, y ∈ xid :: subs → clog_status (store w') y = Some status) ∧
    (∀ y, 0 ≤ y → y ∉ xid :: subs → y ∉ group_xids env →
       clog_status (store w') y = clog_status (store w) y).
Proof.
  intros Hpre.
  destruct (tree_status_runs env xid subs status lsn w Hpre) as (w' & tr & Hr & ? & _ & Hoth & Hfin & _).
  exists w'. split_and!; try done. intros y Hy Hn Hg. rewrite Hoth by done.
  by rewrite decide_False.
Qed.

(** Set/get round trip: what [CLogSetTreeStatus] has set,
    [CLogGetStatus] returns, for the main transaction and for every child. *)
Theorem set_get_status_roundtrip env xid subs status lsn w y :
  tree_pre env xid subs status lsn (store w) → y ∈ xid :: subs →
  ∃ l w', runs (CLogSetTreeStatus env xid subs status lsn ≫= λ _, CLogGetStatus y) w (status, l) w'.
Proof.
  intros Hpre Hy.
  destruct (tree_status_runs env xid subs status lsn w Hpre) as (w1 & tr & Hr & Hok & _ & _ & Hfin & _).
  destruct (get_status_runs y w1 status Hok (Hfin y Hy)) as (l & w2 & Hr2 & _).
  exists l, w2. by eapply runs_bind.
Qed.

(** The log never rewrites history: asked for a change of status that is
    not one of those a transaction can make (in progress to anything,
    sub-committed to a final status, a status to itself, and the sub-commit mark
    over a commit), [CLogSetStatusBit] raises PANIC and has written nothing. *)
Theorem illegal_status_change_panics env xid status lsn slotno w c :
  SS_STANDBY_MODE env = false →
  slru_at (store w) (TransactionIdToPage xid) slotno →
  clog_status (store w) xid = Some c → transition_legal c status = false →
  CLogSetStatusBit env xid status lsn slotno w = (Ereport PANIC, w).
Proof.
  intros Hss Hat Hc Hill. destruct (clog_status_page _ _ _ Hc) as [pg Hpg].
  unfold clog_status in Hc. rewrite Hpg in Hc. injection Hc as Hc.
  unfold CLogSetStatusBit, mbind, M_bind, gets.
  rewrite (slru_get _ _ _ _ _ Hat Hpg (xid_byte_range xid)).
  fold (status_in pg xid). rewrite Hc, Hss. fold (transition_legal c status). rewrite Hill.
  destruct (InRecovery env && _ && _) eqn:Hrec; [|done]. exfalso.
  unfold transition_legal, CLOG_XID_STATUS_COMMITTED, CLOG_XID_STATUS_SUB_COMMITTED,
    CLOG_XID_STATUS_IN_PROGRESS in *. bool_to_prop. lia.
Qed.

(** At the end of recovery [TrimCLOG] leaves every xid from [nextXid] to
    the end of its page in progress and every other status as it was, whatever
    replay had left there. *)
Theorem trim_clog_spec env nextXid w :
  SS_STANDBY_MODE env = false → 0 ≤ nextXid → TransactionIdToPgIndex nextXid ≠ 0 →
  slru_ok (store w) → is_Some (slru_view (store w) (TransactionIdToPage nextXid)) →
  ∃ w', runs (TrimCLOG env nextXid) w tt w' ∧ slru_ok (store w') ∧
    ∀ y, 0 ≤ y → clog_status (store w') y =
      if (TransactionIdToPage y =? TransactionIdToPage nextXid) && (nextXid <=? y)
      then Some CLOG_XID_STATUS_IN_PROGRESS else clog_status (store w) y.
Proof.
  intros Hss Hn Hidx Hok [pg Hv].
  destruct (trim_page_runs env nextXid w pg) as (w' & Hr & Hok' & Hv' & Hoth); try done.
  exists w'. split_and!; try done. intros y Hy. unfold clog_status.
  destruct (Z.eqb_spec (TransactionIdToPage y) (TransactionIdToPage nextXid)) as [Hp|Hp].
  - rewrite Hp, Hv', Hv. cbn [andb fmap option_fmap option_map].
    rewrite trimmed_status; [by case_bool| |done..]. exact (slru_view_length _ _ _ Hok Hv).
  - cbn [andb]. by rewrite Hoth.
Qed.

End ClogProofs.

(** ** A tree on two pages *)

Section ClogWitness.

Definition primary : node_env := {|
  InRecovery := false; RecoveryInProgress := false; SS_STANDBY_MODE := false;
  useLocalSnapshot := false; IsRoachStandbyCluster := false;
  IsBootstrapProcessingMode := false; IS_MULTI_DISASTER_RECOVER_MODE := false |}.

Definition demo_env : clog_env := {|
  clog_node := primary; pgxact_xid := 32766;
  proc_subxids := [32767; 32768; 32769]; lock_is_free := false; bank_lock := id;
  clog_group := None |}.

Definition demo_store : page_store BLCKSZ :=
  {| ps_pages := {[ 0 := replicate (Z.to_nat BLCKSZ) 0; 1 := replicate (Z.to_nat BLCKSZ) 0 ]}; ps_lsn := ∅ |}.

Definition demo_state : clog_state (page_store BLCKSZ) := {| store := demo_store; trace := [] |}.

Lemma demo_ok : slru_ok demo_store.
Proof.
  intros p pg. cbn. intros [[_ <-]|[_ [_ <-]%lookup_singleton_Some]]%lookup_insert_Some; done.
Qed.

Lemma demo_in_progress y :
  y ∈ [32766; 32767; 32768; 32769] → 0 ≤ y ∧ clog_status demo_store y = Some 0.
Proof. intros Hy. set_unfold. destruct_or!; subst; by vm_compute. Qed.

Lemma demo_pre status :
  status = CLOG_XID_STATUS_COMMITTED ∨ status = CLOG_XID_STATUS_ABORTED →
  tree_pre demo_env 32766 [32767; 32768; 32769] status 77 demo_store.
Proof.
  intros Hst. split_and!; try done; [|apply demo_ok|].
  - set_unfold. lia.
  - intros y [Hy Hc]%demo_in_progress. split; [done|]. eauto.
Qed.

Lemma commit_tree_atomic_witness :
  ∃ w' tr, runs (CLogSetTreeStatus demo_env 32766 [32767; 32768; 32769]
      CLOG_XID_STATUS_COMMITTED 77) demo_state tt w' ∧ trace w' = tr ∧
    clog_status (store w') 32769 = Some CLOG_XID_STATUS_COMMITTED.
Proof.
  destruct (commit_tree_atomic demo_env 32766 [32767; 32768; 32769] 77 demo_state)
    as (w' & tr & Hr & Ht & Hfin & _).
  - apply demo_pre. by left.
  - intros y Hy. by apply demo_in_progress.
  - exists w', tr. split; [exact Hr|]. split; [exact Ht|]. apply Hfin. by do 3 right; left.
Defined.

Lemma set_tree_status_spec_witness :
  ∃ w', runs (CLogSetTreeStatus demo_env 32766 [32767; 32768; 32769]
      CLOG_XID_STATUS_ABORTED 77) demo_state tt w' ∧
    clog_status (store w') 32768 = Some CLOG_XID_STATUS_ABORTED ∧
    clog_status (store w') 32770 = Some CLOG_XID_STATUS_IN_PROGRESS.
Proof.
  destruct (set_tree_status_spec demo_env 32766 [32767; 32768; 32769] CLOG_XID_STATUS_ABORTED 77
    demo_state) as (w' & Hr & _ & Hfin & Hoth).
  - apply demo_pre. by right.
  - exists w'. split; [exact Hr|]. split; [apply Hfin; by do 2 right; left|].
    rewrite Hoth; [by vm_compute | lia | set_unfold; lia | set_unfold; lia].
Defined.

Lemma set_get_status_roundtrip_witness :
  ∃ l w', runs (CLogSetTreeStatus demo_env 32766 [32767; 32768; 32769]
      CLOG_XID_STATUS_COMMITTED 77 ≫= λ _, CLogGetStatus 32768) demo_state
      (CLOG_XID_STATUS_COMMITTED, l) w'.
Proof.
  apply set_get_status_roundtrip; [apply demo_pre; by left | by do 2 right; left].
Defined.

(** Aborting what is committed. *)
Lemma illegal_status_change_panics_witness :
  let w := {| store := page_set 0 0 0 64 demo_store; trace := [] |} in
  CLogSetStatusBit demo_env 3 CLOG_XID_STATUS_ABORTED 0 0 w = (Ereport PANIC, w).
Proof.
  apply (illegal_status_change_panics demo_env 3 CLOG_XID_STATUS_ABORTED 0 0 _
    CLOG_XID_STATUS_COMMITTED); [done| |by vm_compute|done].
  apply (slru_set demo_store 0 0 (replicate (Z.to_nat BLCKSZ) 0) 0 64); [|done|unfold BLCKSZ; lia].
  split; [apply demo_ok|by eexists].
Defined.

Lemma trim_clog_spec_witness :
  ∃ w', runs (TrimCLOG demo_env 5) {| store := page_set 0 0 1 255 demo_store; trace := [] |} tt w' ∧
    clog_status (store w') 4 = Some CLOG_XID_STATUS_SUB_COMMITTED ∧
    clog_status (store w') 5 = Some CLOG_XID_STATUS_IN_PROGRESS.
Proof.
  destruct (trim_clog_spec demo_env 5 {| store := page_set 0 0 1 255 demo_store; trace := [] |})
    as (w' & Hr & _ & Hst); [done|lia|done| |by eexists|].
  - apply ps_update_ok; [apply demo_ok|by vm_compute].
  - exists w'. split; [exact Hr|]. split; (rewrite Hst by lia); vm_compute; reflexivity.
Defined.

End ClogWitness.
