(* ===== verification/CsnLog.v ===== *)
(** * The CSN log

    [src/gausskernel/storage/access/transam/csnlog.cpp]: one 64-bit word per
    transaction, holding its commit sequence number, or its parent when it is a
    subtransaction, or a commit-in-progress mark. Modelled: recording the CSN of
    a transaction tree, the parent of a subtransaction, the lookups (raw, and
    nested through the parents), the search of the topmost transaction, and the
    extension of the log.

    Words are written under the bank lock in shared mode, so another backend can
    look at the log after every single word: the ghost history [ctrace] records
    the store after each of them. [held] is the bank lock the thread holds and
    [unlocked] the pages it looked at without holding their lock. *)

From S2P Require Import Prelude TransamDefs SlruInterface.

(** ** Layout *)

Definition CSNLOG_XACTS_PER_PAGE : Z := BLCKSZ / 8.
Definition TransactionIdToCSNPage (xid : Z) : Z := xid / CSNLOG_XACTS_PER_PAGE.
Definition TransactionIdToCSNPgIndex (xid : Z) : Z := xid mod CSNLOG_XACTS_PER_PAGE.
Definition CSNLOG_BATCH_SIZE : Z := 32.

(** ** Environment and state *)

(** A backend as the proc array shows it: its xid and those of its running
    subtransactions. *)
Record proc_entry := { pe_xid : Z; pe_subxids : list Z }.

Record csn_env := {
  csn_node :> node_env;
  NUM_CSNLOG_PARTITIONS : Z;
  bank_mask : Z;
  procs : list proc_entry;
  TransactionXmin : Z;
  sn_recent_global_xmin : Z;
}.

Definition CSNBufHashPartition (env : csn_env) (hashcode : Z) : Z :=
  hashcode mod NUM_CSNLOG_PARTITIONS env.

(** [SimpleLruGetBankLock(CsnlogCtl(pageno), pageno)]: the partition and the
    bank in it. *)
Definition csn_bank_lock (env : csn_env) (pageno : Z) : Z * Z :=
  (CSNBufHashPartition env pageno,
   Z.land (pageno / NUM_CSNLOG_PARTITIONS env) (bank_mask env)).

Section CsnLog.
Context {S : Type} `{!SlruOps S}.

Record csn_state := {
  cstore : S;
  ctrace : list S;
  held : option (Z * Z);
  unlocked : list Z;
  lastExtendCSNLogpage : Z;
  startExtendCSNLogpage : Z;
  xlogMaxCSN : Z;
}.

Definition with_cstore (s : S) (w : csn_state) : csn_state :=
  {| cstore := s; ctrace := ctrace w; held := held w; unlocked := unlocked w;
     lastExtendCSNLogpage := lastExtendCSNLogpage w;
     startExtendCSNLogpage := startExtendCSNLogpage w; xlogMaxCSN := xlogMaxCSN w |}.
Definition with_held (l : option (Z * Z)) (w : csn_state) : csn_state :=
  {| cstore := cstore w; ctrace := ctrace w; held := l; unlocked := unlocked w;
     lastExtendCSNLogpage := lastExtendCSNLogpage w;
     startExtendCSNLogpage := startExtendCSNLogpage w; xlogMaxCSN := xlogMaxCSN w |}.
Definition with_vars (last start maxcsn : Z) (w : csn_state) : csn_state :=
  {| cstore := cstore w; ctrace := ctrace w; held := held w; unlocked := unlocked w;
     lastExtendCSNLogpage := last; startExtendCSNLogpage := start; xlogMaxCSN := maxcsn |}.
(** Another backend may look. *)
Definition observe (w : csn_state) : csn_state :=
  {| cstore := cstore w; ctrace := ctrace w ++ [cstore w]; held := held w;
     unlocked := unlocked w; lastExtendCSNLogpage := lastExtendCSNLogpage w;
     startExtendCSNLogpage := startExtendCSNLogpage w; xlogMaxCSN := xlogMaxCSN w |}.

(** Run an operation of the page store. *)
Definition cslru {A} (m : M S A) : M csn_state A := λ w,
  let '(r, s) := m (cstore w) in (r, with_cstore s w).

Definition CSN_LWLOCK_ACQUIRE (env : csn_env) (pageno : Z) : M csn_state unit :=
  modify (with_held (Some (csn_bank_lock env pageno))).
Definition CSN_LWLOCK_RELEASE (env : csn_env) (pageno : Z) : M csn_state unit :=
  modify (with_held None).

(** The page is looked up in the buffers of its bank: note when the bank lock
    is not the one held. *)
Definition note_lookup (env : csn_env) (pageno : Z) : M csn_state unit :=
  modify (λ w, if decide (held w = Some (csn_bank_lock env pageno)) then w else
    {| cstore := cstore w; ctrace := ctrace w; held := held w;
       unlocked := unlocked w ++ [pageno]; lastExtendCSNLogpage := lastExtendCSNLogpage w;
       startExtendCSNLogpage := startExtendCSNLogpage w; xlogMaxCSN := xlogMaxCSN w |}).

(** [SimpleLruReadPage_ReadOnly] takes the bank lock itself. *)
Definition read_page_lock (env : csn_env) (pageno : Z) : M csn_state Z :=
  CSN_LWLOCK_ACQUIRE env pageno ≫= λ _, cslru (SimpleLruReadPage_ReadOnly pageno).

(** [PG_TRY]: an ERROR is handled, anything else goes on. *)
Definition pg_try {A} (m h : M csn_state A) : M csn_state A := λ w,
  match m w with
  | (Ereport ERROR, w') => h w'
  | r => r
  end.

(** ** Recording *)

Definition CSNLogSetCSN (xid csn slotno : Z) : M csn_state bool :=
  let pageno := TransactionIdToCSNPage xid in
  let entryno := TransactionIdToCSNPgIndex xid in
  value ← gets (λ w, page_get (cstore w) pageno slotno entryno);
  if (COMMITSEQNO_IS_COMMITTED value && COMMITSEQNO_IS_ABORTED csn)
     || (COMMITSEQNO_IS_ABORTED value && COMMITSEQNO_IS_COMMITTED csn)
  then raise PANIC
  else if negb (COMMITSEQNO_IS_ABORTED value) then
    modify (λ w, observe (with_cstore (page_set pageno slotno entryno csn (cstore w)) w)) ≫= λ _,
    mret true
  else mret false.

Definition ZeroCSNLOGPage (pageno : Z) : M csn_state Z := cslru (SimpleLruZeroPage pageno).

(** What is written for a subtransaction. *)
Definition sub_csn (csn topxid : Z) : Z :=
  if Z.land csn COMMITSEQNO_COMMIT_INPROGRESS =? COMMITSEQNO_COMMIT_INPROGRESS
  then Z.lor (Z.lor COMMITSEQNO_SUBTRANS_BIT topxid) COMMITSEQNO_COMMIT_INPROGRESS
  else csn.

Fixpoint set_subxids (subxids : list Z) (csn topxid slotno : Z) (modified : bool)
    : M csn_state bool :=
  match subxids with
  | [] => mret modified
  | sub :: subxids =>
      m ← CSNLogSetCSN sub (sub_csn csn topxid) slotno;
      set_subxids subxids csn topxid slotno (m || modified)
  end.

Definition CSNLogSetPageStatus (env : csn_env) (xid : Z) (subxids : list Z) (csn pageno topxid : Z)
    : M csn_state unit :=
  if SS_STANDBY_MODE env then skip
  else
    slotno ← pg_try (read_page_lock env pageno)
      (if RecoveryInProgress env
       then ZeroCSNLOGPage pageno ≫= λ _, read_page_lock env pageno
       else raise ERROR);
    m1 ← (if TransactionIdIsValid xid then CSNLogSetCSN xid csn slotno else mret false);
    modified ← set_subxids subxids csn topxid slotno m1;
    (if (modified : bool)
     then modify (λ w, with_cstore (mark_dirty pageno slotno (cstore w)) w) else skip) ≫= λ _,
    CSN_LWLOCK_RELEASE env pageno.

Definition on_csn_page (pageno : Z) (xid : Z) : bool := TransactionIdToCSNPage xid =? pageno.

(** The [for (;;)] loop of [CSNLogSetCommitSeqNo]. *)
Fixpoint csn_set_loop (fuel : nat) (env : csn_env) (xid : Z) (subxids : list Z)
    (csn pageno topxid : Z) : M csn_state unit :=
  match fuel with
  | O => nofuel
  | Datatypes.S fuel =>
      let '(chunk, rest) := span (on_csn_page pageno) subxids in
      CSNLogSetPageStatus env xid chunk csn pageno topxid ≫= λ _,
      match rest with
      | [] => skip
      | next :: _ =>
          csn_set_loop fuel env InvalidTransactionId rest csn (TransactionIdToCSNPage next) topxid
      end
  end.

Definition UpdateXLogMaxCSN (xlogCSN : Z) : M csn_state unit :=
  modify (λ w, if xlogMaxCSN w <? xlogCSN
    then with_vars (lastExtendCSNLogpage w) (startExtendCSNLogpage w) xlogCSN w else w).

Definition CSNLogSetCommitSeqNo (env : csn_env) (xid : Z) (subxids : list Z) (csn : Z)
    : M csn_state unit :=
  if (useLocalSnapshot env || IsRoachStandbyCluster env) && (csn <=? COMMITSEQNO_ABORTED)
  then skip
  else
    csn ← (if (csn =? InvalidCommitSeqNo) || (xid =? BootstrapTransactionId) then
             if IsBootstrapProcessingMode env then mret COMMITSEQNO_FROZEN else raise ERROR
           else mret csn);
    csn_set_loop (Datatypes.S (length subxids)) env xid subxids csn (TransactionIdToCSNPage xid) xid
    ≫= λ _,
    if IS_MULTI_DISASTER_RECOVER_MODE env && COMMITSEQNO_IS_COMMITTED csn
    then UpdateXLogMaxCSN csn else skip.

Definition SubTransSetParent (env : csn_env) (xid parent : Z) : M csn_state unit :=
  if SS_STANDBY_MODE env then skip
  else
    let pageno := TransactionIdToCSNPage xid in
    let entryno := TransactionIdToCSNPgIndex xid in
    let newcsn := Z.lor COMMITSEQNO_SUBTRANS_BIT parent in
    slotno ← read_page_lock env pageno;
    ptr ← gets (λ w, page_get (cstore w) pageno slotno entryno);
    (if negb (ptr =? newcsn) && negb (ptr =? Z.lor newcsn COMMITSEQNO_COMMIT_INPROGRESS)
     then modify (λ w, observe (with_cstore (page_set pageno slotno entryno newcsn (cstore w)) w))
          ≫= λ _, modify (λ w, with_cstore (mark_dirty pageno slotno (cstore w)) w)
     else skip) ≫= λ _,
    CSN_LWLOCK_RELEASE env pageno.

(** ** Lookups *)

Definition InternalGetCommitSeqNo (env : csn_env) (xid : Z) : M csn_state Z :=
  let pageno := TransactionIdToCSNPage xid in
  let entryno := TransactionIdToCSNPgIndex xid in
  if negb (TransactionIdIsNormal xid) && (xid =? InvalidTransactionId)
  then mret COMMITSEQNO_ABORTED
  else if negb (TransactionIdIsNormal xid)
          && ((xid =? FrozenTransactionId) || (xid =? BootstrapTransactionId))
  then mret COMMITSEQNO_FROZEN
  else
    note_lookup env pageno ≫= λ _,
    slotno ← cslru (SimpleLruReadPage_ReadOnly pageno);
    gets (λ w, page_get (cstore w) pageno slotno entryno).

Definition CSNLogGetCommitSeqNo (env : csn_env) (xid : Z) : M csn_state Z :=
  let pageno := TransactionIdToCSNPage xid in
  CSN_LWLOCK_ACQUIRE env pageno ≫= λ _,
  csn ← InternalGetCommitSeqNo env xid;
  CSN_LWLOCK_RELEASE env pageno ≫= λ _, mret csn.

Definition need_relock (env : csn_env) (xid parentXid : Z) : bool :=
  negb (CSNBufHashPartition env (TransactionIdToCSNPage xid)
        =? CSNBufHashPartition env (TransactionIdToCSNPage parentXid)).

Fixpoint RecursiveGetCommitSeqNo (fuel : nat) (env : csn_env) (xid : Z) : M csn_state Z :=
  match fuel with
  | O => nofuel
  | Datatypes.S fuel =>
      csn ← InternalGetCommitSeqNo env xid;
      if COMMITSEQNO_IS_SUBTRANS csn && COMMITSEQNO_IS_COMMITTING csn then
        let parentXid := GET_PARENTXID csn in
        (if need_relock env xid parentXid then
           CSN_LWLOCK_RELEASE env (TransactionIdToCSNPage xid) ≫= λ _,
           CSN_LWLOCK_ACQUIRE env (TransactionIdToCSNPage parentXid)
         else skip) ≫= λ _,
        csn ← RecursiveGetCommitSeqNo fuel env parentXid;
        (if need_relock env xid parentXid then
           CSN_LWLOCK_RELEASE env (TransactionIdToCSNPage parentXid) ≫= λ _,
           CSN_LWLOCK_ACQUIRE env (TransactionIdToCSNPage xid)
         else skip) ≫= λ _,
        mret csn
      else mret csn
  end.

Definition CSNLogGetNestCommitSeqNo (fuel : nat) (env : csn_env) (xid : Z) : M csn_state Z :=
  let pageno := TransactionIdToCSNPage xid in
  CSN_LWLOCK_ACQUIRE env pageno ≫= λ _,
  csn ← RecursiveGetCommitSeqNo fuel env xid;
  CSN_LWLOCK_RELEASE env pageno ≫= λ _, mret csn.

Definition SubTransGetTopParentXidFromProcs (ps : list proc_entry) (xid : Z) : Z :=
  match List.find (λ p, existsb (Z.eqb xid) (rev (pe_subxids p))) ps with
  | Some p => pe_xid p
  | None => InvalidTransactionId
  end.

(** The parent and the status [*status] is set to, when it is. *)
Definition SubTransGetParent (env : csn_env) (xid : Z) (force_wait_parent : bool)
    : M csn_state (Z * option TransactionIdStatus) :=
  csn ← CSNLogGetCommitSeqNo env xid;
  if COMMITSEQNO_IS_SUBTRANS csn then mret (GET_PARENTXID csn, None)
  else
    let status := if COMMITSEQNO_IS_ABORTED csn then Some XID_ABORTED
                  else if COMMITSEQNO_IS_COMMITTED csn then Some XID_COMMITTED else None in
    if force_wait_parent
    then mret (SubTransGetTopParentXidFromProcs (procs env) xid, status)
    else mret (InvalidTransactionId, status).

(** One round of the [while] loop per unit of fuel. *)
Fixpoint topmost_loop (fuel : nat) (env : csn_env) (parentXid previousXid : Z) : M csn_state Z :=
  match fuel with
  | O => nofuel
  | Datatypes.S fuel =>
      if TransactionIdIsValid parentXid then
        let previousXid := parentXid in
        if TransactionIdPrecedes parentXid (TransactionXmin env) then mret previousXid
        else
          r ← SubTransGetParent env parentXid false;
          if negb (TransactionIdPrecedes r.1 previousXid) then raise ERROR
          else topmost_loop fuel env r.1 previousXid
      else mret previousXid
  end.

Definition SubTransGetTopmostTransaction (fuel : nat) (env : csn_env) (xid : Z) : M csn_state Z :=
  topmost_loop fuel env xid xid.

(** ** Extension *)

Definition StartupCSNLOG (nextXid : Z) : M csn_state unit :=
  modify (λ w, with_vars (TransactionIdToCSNPage (u64 (nextXid - 1))) 0 (xlogMaxCSN w) w).

Definition zero_locked (env : csn_env) (pageno : Z) : M csn_state unit :=
  CSN_LWLOCK_ACQUIRE env pageno ≫= λ _,
  ZeroCSNLOGPage pageno ≫= λ _,
  CSN_LWLOCK_RELEASE env pageno.

(** The extension of the log to hold [newestXact] ([PGXC] is defined in every
    build). The [while] loop counts from [lastExtendPage + 1] to
    [newExtendPage - 1], in that order. *)
Definition ExtendCSNLOG (env : csn_env) (newestXact : Z) : M csn_state unit :=
  if negb (TransactionIdIsValid newestXact) then skip
  else
    let pageno := TransactionIdToCSNPage newestXact in
    start ← gets startExtendCSNLogpage;
    if pageno <? start then raise ERROR
    else
      lastExtendPage ← gets lastExtendCSNLogpage;
      let lastExtendTransactionId := u64 ((lastExtendPage + 1) * CSNLOG_XACTS_PER_PAGE - 1) in
      if TransactionIdPrecedes lastExtendTransactionId newestXact then
        lastExtendPage ←
          (let xmin := sn_recent_global_xmin env in
           let OldestUsedPage := TransactionIdToCSNPage xmin in
           if TransactionIdIsNormal xmin && (lastExtendPage <? OldestUsedPage) then
             CSN_LWLOCK_ACQUIRE env OldestUsedPage ≫= λ _,
             ZeroCSNLOGPage OldestUsedPage ≫= λ _,
             modify (λ w, with_vars (lastExtendCSNLogpage w) OldestUsedPage (xlogMaxCSN w) w) ≫= λ _,
             CSN_LWLOCK_RELEASE env OldestUsedPage ≫= λ _,
             mret OldestUsedPage
           else mret lastExtendPage);
        let newExtendPage := Z.land (pageno + CSNLOG_BATCH_SIZE) (Z.lnot (CSNLOG_BATCH_SIZE - 1)) in
        if newExtendPage <=? lastExtendPage then raise ERROR
        else
          for_each (zero_locked env) (seqZ (lastExtendPage + 1) (newExtendPage - 1 - lastExtendPage))
          ≫= λ _,
          modify (λ w, with_vars (newExtendPage - 1) (startExtendCSNLogpage w) (xlogMaxCSN w) w)
      else skip.

End CsnLog.
Arguments csn_state : clear implicits.

(** ** The log as a map from xids to words *)

Lemma csn_index_range xid : 0 ≤ TransactionIdToCSNPgIndex xid < CSNLOG_XACTS_PER_PAGE.
Proof. apply Z.mod_pos_bound. done. Qed.

Lemma csn_location_inj x y :
  TransactionIdToCSNPage x = TransactionIdToCSNPage y →
  TransactionIdToCSNPgIndex x = TransactionIdToCSNPgIndex y → x = y.
Proof.
  unfold TransactionIdToCSNPage, TransactionIdToCSNPgIndex.
  change CSNLOG_XACTS_PER_PAGE with 1024. intros. Z.div_mod_to_equations. lia.
Qed.

(** Which word replaces which: an aborted entry stays, and a committed one
    cannot be aborted nor an aborted one committed. *)
Definition merge_csn (old new : Z) : Z := if COMMITSEQNO_IS_ABORTED old then old else new.
Definition csn_change_ok (old new : Z) : bool :=
  negb ((COMMITSEQNO_IS_COMMITTED old && COMMITSEQNO_IS_ABORTED new)
        || (COMMITSEQNO_IS_ABORTED old && COMMITSEQNO_IS_COMMITTED new)).

Definition csn_write (σ : Z → option Z) (xv : Z * Z) : Z → option Z :=
  λ y, if decide (y = xv.1) then (λ old, merge_csn old xv.2) <$> σ y else σ y.

Definition can_write (W : list (Z * Z)) (σ : Z → option Z) : Prop :=
  NoDup W.*1 ∧
  ∀ x v, (x, v) ∈ W → 0 ≤ x ∧ ∃ old, σ x = Some old ∧ csn_change_ok old v = true.

(** The words a call writes, in order. *)
Definition csn_writes (xid : Z) (subxids : list Z) (csn topxid : Z) : list (Z * Z) :=
  (if TransactionIdIsValid xid then [(xid, csn)] else []) ++
  ((λ s, (s, sub_csn csn topxid)) <$> subxids).

Lemma csn_write_ext σ σ' xv y : σ y = σ' y → csn_write σ xv y = csn_write σ' xv y.
Proof. unfold csn_write. intros ->. done. Qed.

Lemma csn_writes_notin W σ y : y ∉ W.*1 → foldl csn_write σ W y = σ y.
Proof.
  revert σ. induction W as [|[x v] W IH]; intros σ Hy; [done|]. cbn in *.
  rewrite not_elem_of_cons in Hy. destruct Hy as [Hne Hy].
  rewrite IH by done. unfold csn_write. by rewrite decide_False.
Qed.

Lemma csn_writes_in W σ x v :
  NoDup W.*1 → (x, v) ∈ W → foldl csn_write σ W x = (λ old, merge_csn old v) <$> σ x.
Proof.
  revert σ. induction W as [|[x' v'] W IH]; intros σ Hnd Hin; [by apply elem_of_nil in Hin|].
  cbn in *. apply NoDup_cons in Hnd as [Hn Hnd]. apply elem_of_cons in Hin as [[= <- <-]|Hin].
  - rewrite csn_writes_notin by done. unfold csn_write. by rewrite decide_True.
  - rewrite IH by done. unfold csn_write. rewrite decide_False; [done|].
    cbn. intros ->. apply Hn. apply list_elem_of_fmap. by exists (x', v).
Qed.

Lemma can_write_app W1 W2 σ :
  can_write (W1 ++ W2) σ → can_write W1 σ ∧ can_write W2 (foldl csn_write σ W1).
Proof.
  intros [Hnd Hok]. rewrite fmap_app in Hnd. apply NoDup_app in Hnd as (Hn1 & Hd & Hn2).
  split; (split; [done|]); intros x v Hin.
  - apply Hok, elem_of_app. by left.
  - rewrite csn_writes_notin; [apply Hok, elem_of_app; by right|].
    intros Hx. apply (Hd x Hx). apply list_elem_of_fmap. by exists (x, v).
Qed.

Lemma can_write_cons x v W σ :
  can_write ((x, v) :: W) σ →
  (0 ≤ x ∧ ∃ old, σ x = Some old ∧ csn_change_ok old v = true) ∧ can_write W (csn_write σ (x, v)).
Proof.
  intros Hc. split; [destruct Hc as [_ Hok]; apply Hok; left|].
  by apply (can_write_app [(x, v)] W σ).
Qed.

Section CsnProofs.
Context {S : Type} `{!SlruOps S} `{!SlruSpec S CSNLOG_XACTS_PER_PAGE}.
Implicit Types (w : csn_state S) (env : csn_env).

Definition csn_word (s : S) (xid : Z) : option Z :=
  (λ pg, aget 0 pg (TransactionIdToCSNPgIndex xid)) <$> slru_view s (TransactionIdToCSNPage xid).

Definition csn_is (s : S) (σ : Z → option Z) : Prop := ∀ y, 0 ≤ y → csn_word s y = σ y.

Lemma csn_is_ext s σ σ' : (∀ y, σ y = σ' y) → csn_is s σ → csn_is s σ'.
Proof. intros Heq Hs y Hy. rewrite Hs by done. apply Heq. Qed.

Lemma csn_is_view s s' σ :
  (∀ q, slru_view s' q = slru_view s q) → csn_is s σ → csn_is s' σ.
Proof. intros Hv Hs y Hy. unfold csn_word. rewrite Hv. by apply Hs. Qed.

Lemma csn_is_self s : csn_is s (csn_word s).
Proof. intros y _. done. Qed.

Lemma csn_word_page s y c :
  csn_word s y = Some c → is_Some (slru_view s (TransactionIdToCSNPage y)).
Proof. unfold csn_word. destruct (slru_view s _); [eauto|done]. Qed.

Lemma csn_word_get s y slotno c :
  slru_at s (TransactionIdToCSNPage y) slotno → csn_word s y = Some c →
  page_get s (TransactionIdToCSNPage y) slotno (TransactionIdToCSNPgIndex y) = c.
Proof.
  intros Hat Hc. destruct (csn_word_page _ _ _ Hc) as [pg Hpg].
  rewrite (slru_get _ _ _ _ _ Hat Hpg (csn_index_range y)).
  unfold csn_word in Hc. rewrite Hpg in Hc. by injection Hc.
Qed.

Lemma csn_word_set s x slotno v y :
  slru_at s (TransactionIdToCSNPage x) slotno → is_Some (csn_word s x) →
  let s' := page_set (TransactionIdToCSNPage x) slotno (TransactionIdToCSNPgIndex x) v s in
  slru_at s' (TransactionIdToCSNPage x) slotno ∧
  csn_word s' y = if decide (y = x) then Some v else csn_word s y.
Proof.
  intros Hat [c Hc] s'. destruct (csn_word_page _ _ _ Hc) as [pg Hpg].
  pose proof (csn_index_range x) as Hx. pose proof (csn_index_range y) as Hy.
  destruct (slru_set _ _ _ _ _ v Hat Hpg Hx) as (Hat' & Hv & Hoth). fold s' in Hat', Hv, Hoth.
  split; [done|]. unfold csn_word.
  destruct (decide (TransactionIdToCSNPage y = TransactionIdToCSNPage x)) as [Hp|Hp].
  - rewrite Hp, Hv, Hpg. cbn. pose proof (slru_at_length _ _ _ _ Hat Hpg) as Hl.
    destruct (decide (y = x)) as [->|Hne]; [by rewrite aget_aset_eq by lia|].
    rewrite aget_aset_ne; [done|lia..|]. intros Heq. by apply Hne, csn_location_inj.
  - rewrite Hoth by done. rewrite decide_False; [done|]. by intros ->.
Qed.

(** ** Writing *)

(** What a stretch of writes to one page does: from [w], with slot [slotno]
    locked, to [w'], reporting [m] when something was written. *)
Record wrote (p slotno : Z) (W : list (Z * Z)) (σ : Z → option Z) (m : bool) w w' : Prop := {
  wrote_at : slru_at (cstore w') p slotno;
  wrote_is : csn_is (cstore w') (foldl csn_write σ W);
  wrote_clean : m = false → w' = w;
  wrote_trace : ∃ tr, ctrace w' = ctrace w ++ tr ∧
    Forall (λ s, ∃ k, csn_is s (foldl csn_write σ (take k W))) tr;
}.

Lemma set_csn_runs xid csn slotno w σ old :
  slru_at (cstore w) (TransactionIdToCSNPage xid) slotno → csn_is (cstore w) σ →
  0 ≤ xid → σ xid = Some old → csn_change_ok old csn = true →
  ∃ m w', runs (CSNLogSetCSN xid csn slotno) w m w' ∧
    wrote (TransactionIdToCSNPage xid) slotno [(xid, csn)] σ m w w'.
Proof.
  intros Hat Hσ Hx Hold Hok.
  assert (csn_word (cstore w) xid = Some old) as Hw by (by rewrite Hσ).
  pose proof (csn_word_get _ _ _ _ Hat Hw) as Hget.
  assert (∀ y, csn_write σ (xid, csn) y = if decide (y = xid) then Some (merge_csn old csn) else σ y)
    as Hcw.
  { intros y. unfold csn_write. cbn. case_decide; [subst; by rewrite Hold|done]. }
  unfold CSNLogSetCSN.
  unfold csn_change_ok in Hok. apply negb_true_iff in Hok.
  destruct (COMMITSEQNO_IS_ABORTED old) eqn:Hab.
  - eexists _, _. split; [unfold runs, mbind, M_bind, gets; rewrite Hget, Hab, Hok; done|].
    split; [done| |done|exists []; rewrite app_nil_r; split; [done|constructor]].
    intros y Hy. cbn. rewrite Hcw, Hσ by done. unfold merge_csn. rewrite Hab.
    case_decide; by subst.
  - eexists _, _. split; [unfold runs, mbind, M_bind, gets; rewrite Hget, Hab, Hok; reflexivity|].
    set (s' := page_set _ _ _ _ _).
    assert (csn_is s' (csn_write σ (xid, csn))) as Hs'.
    { intros y Hy. rewrite Hcw. unfold s'.
      destruct (csn_word_set (cstore w) xid slotno csn y Hat ltac:(by eauto)) as [_ ->].
      unfold merge_csn. rewrite Hab. case_decide; [done|]. by apply Hσ. }
    split; [|done|done|].
    + by apply (csn_word_set (cstore w) xid slotno csn xid Hat); eauto.
    + exists [s']. split; [done|]. constructor; [|constructor]. by exists 1%nat.
Qed.

Lemma wrote_app p slotno W1 W2 σ m1 m2 w w1 w2 :
  wrote p slotno W1 σ m1 w w1 → wrote p slotno W2 (foldl csn_write σ W1) m2 w1 w2 →
  wrote p slotno (W1 ++ W2) σ (m2 || m1) w w2.
Proof.
  intros [Hat1 Hs1 Hc1 (tr1 & Ht1 & Htr1)] [Hat2 Hs2 Hc2 (tr2 & Ht2 & Htr2)]. split.
  - done.
  - by rewrite foldl_app.
  - intros [? ?]%orb_false_iff. by rewrite Hc2, Hc1.
  - exists (tr1 ++ tr2). split; [by rewrite Ht2, Ht1, app_assoc|]. apply Forall_app. split.
    + eapply Forall_impl; [exact Htr1|]. intros s Hk.
      by apply (take_prefix_app (λ W, csn_is s (foldl csn_write σ W))).
    + eapply Forall_impl; [exact Htr2|]. intros s [k Hk]. exists (length W1 + k)%nat.
      by rewrite take_app_add, foldl_app.
Qed.

Lemma wrote_nil p slotno σ w :
  slru_at (cstore w) p slotno → csn_is (cstore w) σ → wrote p slotno [] σ false w w.
Proof.
  intros. split; try done. exists []. rewrite app_nil_r. split; [done|constructor].
Qed.


Lemma set_subxids_runs p slotno subs csn topxid m0 w0 w W σ :
  wrote p slotno W σ m0 w0 w → Forall (λ x, TransactionIdToCSNPage x = p) subs →
  can_write ((λ s, (s, sub_csn csn topxid)) <$> subs) (foldl csn_write σ W) →
  ∃ m w', runs (set_subxids subs csn topxid slotno m0) w m w' ∧
    wrote p slotno (W ++ ((λ s, (s, sub_csn csn topxid)) <$> subs)) σ m w0 w'.
Proof.
  revert m0 w W. induction subs as [|x subs IH]; intros m0 w W Hw Hp Hcan.
  { exists m0, w. cbn. rewrite app_nil_r. done. }
  apply Forall_cons_1 in Hp as [<- Hp]. cbn in Hcan.
  apply can_write_cons in Hcan as [(Hx & old & Hold & Hok) Hcan].
  destruct (set_csn_runs x (sub_csn csn topxid) slotno w _ old (wrote_at _ _ _ _ _ _ _ Hw)
    (wrote_is _ _ _ _ _ _ _ Hw) Hx Hold Hok) as (m1 & w1 & Hr1 & Hw1).
  pose proof (wrote_app _ _ _ _ _ _ _ _ _ _ Hw Hw1) as Hw2.
  destruct (IH (m1 || m0) w1 _ Hw2) as (m & w' & Hr & Hw').
  { done. }
  { by rewrite foldl_app. }
  exists m, w'. split; [by eapply runs_bind|]. by rewrite <- app_assoc in Hw'.
Qed.

Lemma read_page_lock_runs env p w :
  slru_ok (cstore w) → is_Some (slru_view (cstore w) p) →
  ∃ slotno s', runs (read_page_lock env p) w slotno
      (with_cstore s' (with_held (Some (csn_bank_lock env p)) w)) ∧
    slru_ok s' ∧ slru_at s' p slotno ∧ ∀ q, slru_view s' q = slru_view (cstore w) q.
Proof.
  intros Hok Hp. destruct (slru_read_only _ _ Hok Hp) as (slotno & s' & Hr & Hok' & Hat & Hv).
  exists slotno, s'. split; [|done]. eapply runs_bind; [done|].
  unfold runs, cslru. cbn [cstore with_held]. by rewrite Hr.
Qed.

Lemma csn_page_runs env xid subs csn p topxid w σ :
  SS_STANDBY_MODE env = false → slru_ok (cstore w) → csn_is (cstore w) σ →
  can_write (csn_writes xid subs csn topxid) σ → csn_writes xid subs csn topxid ≠ [] →
  Forall (λ x, TransactionIdToCSNPage x.1 = p) (csn_writes xid subs csn topxid) →
  ∃ w' tr, runs (CSNLogSetPageStatus env xid subs csn p topxid) w tt w' ∧ slru_ok (cstore w') ∧
    csn_is (cstore w') (foldl csn_write σ (csn_writes xid subs csn topxid)) ∧
    ctrace w' = ctrace w ++ tr ∧
    Forall (λ s, ∃ k, csn_is s (foldl csn_write σ (take k (csn_writes xid subs csn topxid)))) tr.
Proof.
  intros Hss Hok Hσ Hcan Hne Hp.
  assert (is_Some (slru_view (cstore w) p)) as Hpage.
  { destruct (csn_writes xid subs csn topxid) as [|[x v] W] eqn:HW; [done|].
    apply Forall_cons_1 in Hp as [<- _].
    apply can_write_cons in Hcan as [(? & c & Hc & _) _].
    apply (csn_word_page (cstore w) x c). by rewrite Hσ. }
  destruct (read_page_lock_runs env p w Hok Hpage) as (slotno & s1 & Hr1 & Hok1 & Hat1 & Hv1).
  set (w1 := with_cstore s1 (with_held (Some (csn_bank_lock env p)) w)) in *.
  assert (csn_is (cstore w1) σ) as Hσ1 by (by eapply csn_is_view).
  pose proof (wrote_nil p slotno σ w1 Hat1 Hσ1) as Hw1.
  unfold csn_writes in *. apply Forall_app in Hp as [Hpx Hps].
  apply can_write_app in Hcan as [Hcx Hcs].
  assert (∃ m w2, runs (if TransactionIdIsValid xid then CSNLogSetCSN xid csn slotno else mret false)
      w1 m w2 ∧ wrote p slotno (if TransactionIdIsValid xid then [(xid, csn)] else []) σ m w1 w2)
    as (m2 & w2 & Hr2 & Hw2).
  { destruct (TransactionIdIsValid xid); [|by exists false, w1].
    apply Forall_cons_1 in Hpx as [<- _]. apply can_write_cons in Hcx as [(? & c & ? & ?) _].
    eapply set_csn_runs; try done. }
  destruct (set_subxids_runs p slotno subs csn topxid m2 w1 w2 _ σ Hw2) as (m3 & w3 & Hr3 & Hw3).
  { rewrite Forall_fmap in Hps. done. }
  { done. }
  destruct Hw3 as [Hat3 Hs3 Hc3 (tr & Ht3 & Htr3)].
  set (w4 := if m3 then with_cstore (mark_dirty p slotno (cstore w3)) w3 else w3).
  exists (with_held None w4), tr. split_and!; try done.
  - unfold CSNLogSetPageStatus. rewrite Hss.
    eapply runs_bind; [unfold runs, pg_try; by rewrite Hr1|].
    eapply runs_bind; [exact Hr2|]. eapply runs_bind; [exact Hr3|].
    eapply (runs_bind _ _ _ tt w4); [|done]. subst w4. by destruct m3.
  - subst w4. destruct m3; [by apply slru_dirty|]. by rewrite Hc3.
  - subst w4. destruct m3; [|done]. cbn. eapply csn_is_view; [|done].
    by apply (slru_dirty _ _ _ Hat3).
  - subst w4. destruct m3; done.
Qed.

Lemma csn_set_loop_runs env csn topxid fuel xid subs p w σ :
  SS_STANDBY_MODE env = false → slru_ok (cstore w) → csn_is (cstore w) σ →
  can_write (csn_writes xid subs csn topxid) σ →
  (length (csn_writes xid subs csn topxid) ≤ fuel)%nat →
  (∃ y v, head (csn_writes xid subs csn topxid) = Some (y, v) ∧ TransactionIdToCSNPage y = p) →
  ∃ w' tr, runs (csn_set_loop fuel env xid subs csn p topxid) w tt w' ∧ slru_ok (cstore w') ∧
    csn_is (cstore w') (foldl csn_write σ (csn_writes xid subs csn topxid)) ∧
    ctrace w' = ctrace w ++ tr ∧
    Forall (λ s, ∃ k, csn_is s (foldl csn_write σ (take k (csn_writes xid subs csn topxid)))) tr.
Proof.
  intros Hss. revert xid subs p w σ.
  induction fuel as [|fuel IH]; intros xid subs p w σ Hok Hσ Hcan Hlen (y & v & Hy & Hp).
  { by destruct (csn_writes xid subs csn topxid); [|cbn in *; lia]. }
  cbn [csn_set_loop]. pose proof (span_app (on_csn_page p) subs) as Happ.
  pose proof (span_prefix (on_csn_page p) subs) as Hpre.
  assert (Forall (λ x, TransactionIdToCSNPage x.1 = p) (csn_writes xid (span (on_csn_page p) subs).1 csn topxid)
    ∧ csn_writes xid (span (on_csn_page p) subs).1 csn topxid ≠ []) as [Hpg Hne].
  { unfold csn_writes in *. rewrite Forall_app, Forall_fmap.
    destruct (TransactionIdIsValid xid); cbn in Hy.
    - injection Hy as -> ->. split; [|done]. split; [by repeat constructor|].
      eapply Forall_impl; [exact Hpre|]. intros x. apply Z.eqb_eq.
    - destruct subs as [|x subs]; [done|]. injection Hy as -> _. split.
      + split; [done|]. eapply Forall_impl; [exact Hpre|]. intros x. apply Z.eqb_eq.
      + cbn. unfold on_csn_page at 1. rewrite Hp, Z.eqb_refl. by destruct (span _ subs). }
  destruct (span (on_csn_page p) subs) as [chunk rest]. cbn [fst snd] in *.
  assert (csn_writes xid subs csn topxid = csn_writes xid chunk csn topxid ++
    csn_writes InvalidTransactionId rest csn topxid) as HW.
  { unfold csn_writes. cbn. rewrite <- Happ, fmap_app. by rewrite app_assoc. }
  rewrite HW in *. apply can_write_app in Hcan as [Hc1 Hc2].
  destruct (csn_page_runs env xid chunk csn p topxid w σ) as (w1 & tr1 & Hr1 & Hok1 & Hs1 & Ht1 & Htr1);
    try done.
  set (W1 := csn_writes xid chunk csn topxid) in *.
  assert (Forall (λ s, ∃ k, csn_is s (foldl csn_write σ
    (take k (W1 ++ csn_writes InvalidTransactionId rest csn topxid)))) tr1) as Htr1'.
  { eapply Forall_impl; [exact Htr1|]. intros s Hk.
    by apply (take_prefix_app (λ W, csn_is s (foldl csn_write σ W))). }
  destruct rest as [|next rest].
  { exists w1, tr1. cbn in Htr1' |- *. rewrite app_nil_r in *. split_and!; try done. by eapply runs_bind. }
  destruct (IH InvalidTransactionId (next :: rest) (TransactionIdToCSNPage next) w1 _ Hok1 Hs1 Hc2)
    as (w2 & tr2 & Hr2 & Hok2 & Hs2 & Ht2 & Htr2).
  { rewrite length_app in Hlen. destruct W1; [done|]. cbn in Hlen |- *. lia. }
  { by eexists _, _. }
  exists w2, (tr1 ++ tr2). split_and!; try done.
  - by eapply runs_bind.
  - by rewrite foldl_app.
  - by rewrite Ht2, Ht1, app_assoc.
  - apply Forall_app. split; [done|]. eapply Forall_impl; [exact Htr2|].
    intros s [k Hk]. exists (length W1 + k)%nat. by rewrite take_app_add, foldl_app.
Qed.


(** ** A transaction tree *)

(** The caller's side: a primary (not bootstrapping), a transaction that may get
    a CSN, words that may be replaced. *)
Definition csn_pre env (xid : Z) (subs : list Z) (csn : Z) (s : S) : Prop :=
  SS_STANDBY_MODE env = false ∧
  (useLocalSnapshot env || IsRoachStandbyCluster env) && (csn <=? COMMITSEQNO_ABORTED) = false ∧
  csn ≠ InvalidCommitSeqNo ∧ xid ≠ InvalidTransactionId ∧ xid ≠ BootstrapTransactionId ∧
  slru_ok s ∧ can_write (csn_writes xid subs csn xid) (csn_word s).

Lemma csn_set_commit_runs env xid subs csn w :
  csn_pre env xid subs csn (cstore w) →
  ∃ w' tr, runs (CSNLogSetCommitSeqNo env xid subs csn) w tt w' ∧ slru_ok (cstore w') ∧
    csn_is (cstore w') (foldl csn_write (csn_word (cstore w)) (csn_writes xid subs csn xid)) ∧
    ctrace w' = ctrace w ++ tr ∧
    Forall (λ s, ∃ k, csn_is s (foldl csn_write (csn_word (cstore w))
                                  (take k (csn_writes xid subs csn xid)))) tr.
Proof.
  intros (Hss & Hloc & Hcsn & Hx & Hxb & Hok & Hcan).
  assert (TransactionIdIsValid xid = true) as Hv.
  { unfold TransactionIdIsValid. by rewrite (proj2 (Z.eqb_neq _ _)). }
  destruct (csn_set_loop_runs env csn xid (Datatypes.S (length subs)) xid subs
    (TransactionIdToCSNPage xid) w _ Hss Hok (csn_is_self _) Hcan)
    as (w1 & tr & Hr & Hok1 & Hs1 & Ht & Htr).
  { unfold csn_writes. rewrite Hv. cbn. by rewrite length_fmap. }
  { unfold csn_writes. rewrite Hv. by eexists _, _. }
  set (w2 := if IS_MULTI_DISASTER_RECOVER_MODE env && COMMITSEQNO_IS_COMMITTED csn
    then if xlogMaxCSN w1 <? csn
         then with_vars (lastExtendCSNLogpage w1) (startExtendCSNLogpage w1) csn w1 else w1
    else w1).
  assert (cstore w2 = cstore w1 ∧ ctrace w2 = ctrace w1) as [Hc2 Ht2].
  { subst w2. case_bool; [|done]. case_bool; done. }
  exists w2, tr. rewrite Hc2, Ht2. split_and!; try done.
  unfold CSNLogSetCommitSeqNo. rewrite Hloc.
  rewrite (proj2 (Z.eqb_neq csn _)), (proj2 (Z.eqb_neq xid _)) by done. cbn [orb].
  eapply runs_bind; [done|]. eapply runs_bind; [exact Hr|]. subst w2. by case_bool.
Qed.

(** ** Nested lookups *)

(** The word of a transaction, special xids included. *)
Definition raw_csn (σ : Z → option Z) (xid : Z) : option Z :=
  if xid =? InvalidTransactionId then Some COMMITSEQNO_ABORTED
  else if (xid =? FrozenTransactionId) || (xid =? BootstrapTransactionId)
  then Some COMMITSEQNO_FROZEN else σ xid.

Fixpoint nested_csn (fuel : nat) (σ : Z → option Z) (xid : Z) : option Z :=
  match fuel with
  | O => None
  | Datatypes.S fuel =>
      csn ← raw_csn σ xid;
      if COMMITSEQNO_IS_SUBTRANS csn && COMMITSEQNO_IS_COMMITTING csn
      then nested_csn fuel σ (GET_PARENTXID csn) else Some csn
  end.

(** Nothing but the buffers and the lock bookkeeping changes. *)
Definition same_log w w' : Prop :=
  slru_ok (cstore w') ∧ (∀ q, slru_view (cstore w') q = slru_view (cstore w) q) ∧
  ctrace w' = ctrace w ∧ lastExtendCSNLogpage w' = lastExtendCSNLogpage w ∧
  startExtendCSNLogpage w' = startExtendCSNLogpage w ∧ xlogMaxCSN w' = xlogMaxCSN w.

Lemma same_log_refl w : slru_ok (cstore w) → same_log w w.
Proof. intros. unfold same_log. by split_and!. Qed.

Lemma same_log_trans w1 w2 w3 : same_log w1 w2 → same_log w2 w3 → same_log w1 w3.
Proof.
  intros (_ & Hv1 & ? & ? & ? & ?) (? & Hv2 & ? & ? & ? & ?). unfold same_log.
  split_and!; congruence.
Qed.

Lemma same_log_held l w w' : same_log w w' → same_log w (with_held l w').
Proof. done. Qed.

Lemma same_log_held_l l w w' : same_log (with_held l w) w' → same_log w w'.
Proof. done. Qed.

Lemma same_log_word w w' y : same_log w w' → csn_word (cstore w') y = csn_word (cstore w) y.
Proof. intros (_ & Hv & _). unfold csn_word. by rewrite Hv. Qed.

Lemma raw_csn_ext σ σ' x : (∀ y, σ y = σ' y) → raw_csn σ x = raw_csn σ' x.
Proof. intros H. unfold raw_csn. by rewrite H. Qed.

Lemma internal_get_runs env xid w c :
  slru_ok (cstore w) → 0 ≤ xid → raw_csn (csn_word (cstore w)) xid = Some c →
  ∃ w', runs (InternalGetCommitSeqNo env xid) w c w' ∧ same_log w w'.
Proof.
  intros Hok Hx Hc. unfold InternalGetCommitSeqNo, raw_csn, TransactionIdIsNormal,
    FirstNormalTransactionId, InvalidTransactionId, FrozenTransactionId, BootstrapTransactionId in *.
  destruct (Z.eqb_spec xid 0) as [->|H0]; [exists w; injection Hc as <-; by split; [|apply same_log_refl]|].
  rewrite andb_false_r.
  destruct ((xid =? 2) || (xid =? 1)) eqn:Hsp.
  { replace (negb _ && true) with true by lia. exists w. injection Hc as <-.
    by split; [|apply same_log_refl]. }
  rewrite andb_false_r.
  set (w1 := if decide (held w = Some (csn_bank_lock env (TransactionIdToCSNPage xid))) then w else
    {| cstore := cstore w; ctrace := ctrace w; held := held w;
       unlocked := unlocked w ++ [TransactionIdToCSNPage xid];
       lastExtendCSNLogpage := lastExtendCSNLogpage w;
       startExtendCSNLogpage := startExtendCSNLogpage w; xlogMaxCSN := xlogMaxCSN w |}).
  assert (same_log w w1) as Hl1 by (subst w1; unfold same_log; case_decide; by split_and!).
  assert (cstore w1 = cstore w) as Hcs by (subst w1; by case_decide).
  destruct (slru_read_only (cstore w1) (TransactionIdToCSNPage xid)) as (slotno & s2 & Hr2 & Hok2 & Hat2 & Hv2).
  { apply Hl1. }
  { rewrite Hcs. by eapply csn_word_page. }
  exists (with_cstore s2 w1). split.
  - eapply runs_bind; [done|]. eapply (runs_bind _ _ _ slotno (with_cstore s2 w1)).
    { fold w1. unfold runs, cslru. by rewrite Hr2. }
    unfold runs, gets. cbn [cstore with_cstore]. do 2 f_equal.
    apply csn_word_get; [done|]. unfold csn_word. by rewrite Hv2, Hcs.
  - eapply same_log_trans; [done|]. unfold same_log. by split_and!.
Qed.

Lemma recursive_get_runs env fuel xid w c :
  slru_ok (cstore w) → 0 ≤ xid → nested_csn fuel (csn_word (cstore w)) xid = Some c →
  ∃ w', runs (RecursiveGetCommitSeqNo fuel env xid) w c w' ∧ same_log w w'.
Proof.
  revert xid w. induction fuel as [|fuel IH]; intros xid w Hok Hx Hc; [done|].
  cbn [nested_csn] in Hc. destruct (raw_csn _ xid) as [v|] eqn:Hv; [|done]. cbn in Hc.
  destruct (internal_get_runs env xid w v Hok Hx Hv) as (w1 & Hr1 & Hl1).
  cbn [RecursiveGetCommitSeqNo].
  destruct (COMMITSEQNO_IS_SUBTRANS v && COMMITSEQNO_IS_COMMITTING v) eqn:Hsub.
  2:{ injection Hc as <-. exists w1. split; [|done]. eapply runs_bind; [exact Hr1|]. by rewrite Hsub. }
  set (w2 := if need_relock env xid (GET_PARENTXID v)
    then with_held (Some (csn_bank_lock env (TransactionIdToCSNPage (GET_PARENTXID v)))) (with_held None w1)
    else w1).
  assert (same_log w w2) as Hl2 by (subst w2; by case_bool).
  assert (nested_csn fuel (csn_word (cstore w2)) (GET_PARENTXID v) = Some c) as Hc2.
  { rewrite <- Hc. clear -Hl2. generalize (GET_PARENTXID v). induction fuel as [|fuel IH]; intros x; [done|].
    cbn. rewrite (raw_csn_ext _ (csn_word (cstore w))) by (intros; by apply same_log_word).
    destruct (raw_csn _ x); [|done]. cbn. case_bool; [apply IH|done]. }
  destruct (IH (GET_PARENTXID v) w2) as (w3 & Hr3 & Hl3); [apply Hl2| |done|].
  { unfold GET_PARENTXID. rewrite get_mod. apply Z.mod_pos_bound. done. }
  set (w4 := if need_relock env xid (GET_PARENTXID v)
    then with_held (Some (csn_bank_lock env (TransactionIdToCSNPage xid))) (with_held None w3)
    else w3).
  exists w4. split.
  - eapply runs_bind; [exact Hr1|]. rewrite Hsub.
    eapply (runs_bind _ _ _ tt w2); [subst w2; by case_bool|].
    eapply runs_bind; [exact Hr3|].
    eapply (runs_bind _ _ _ tt w4); [subst w4; by case_bool|done].
  - subst w4. assert (same_log w w3) by (by eapply same_log_trans). by case_bool.
Qed.

Lemma nest_get_runs env fuel xid w c :
  slru_ok (cstore w) → 0 ≤ xid → nested_csn fuel (csn_word (cstore w)) xid = Some c →
  ∃ w', runs (CSNLogGetNestCommitSeqNo fuel env xid) w c w' ∧ same_log w w'.
Proof.
  intros Hok Hx Hc.
  destruct (recursive_get_runs env fuel xid
    (with_held (Some (csn_bank_lock env (TransactionIdToCSNPage xid))) w) c) as (w1 & Hr & Hl); try done.
  exists (with_held None w1). split; [|done].
  eapply runs_bind; [done|]. by eapply runs_bind.
Qed.

Lemma get_csn_runs env xid w c :
  slru_ok (cstore w) → 0 ≤ xid → raw_csn (csn_word (cstore w)) xid = Some c →
  ∃ w', runs (CSNLogGetCommitSeqNo env xid) w c w' ∧ same_log w w'.
Proof.
  intros Hok Hx Hc.
  destruct (internal_get_runs env xid
    (with_held (Some (csn_bank_lock env (TransactionIdToCSNPage xid))) w) c) as (w1 & Hr & Hl); try done.
  exists (with_held None w1). split; [|done].
  eapply runs_bind; [done|]. by eapply runs_bind.
Qed.

(** ** Well-formed logs *)

(** A subtransaction comes after its parent, which the log knows. *)
Definition csn_wf (σ : Z → option Z) : Prop :=
  ∀ x v, 0 ≤ x → σ x = Some v → COMMITSEQNO_IS_SUBTRANS v = true →
    0 < GET_PARENTXID v < x ∧ is_Some (raw_csn σ (GET_PARENTXID v)).

Lemma raw_csn_cases σ x v :
  raw_csn σ x = Some v → COMMITSEQNO_IS_SUBTRANS v = true → σ x = Some v.
Proof.
  unfold raw_csn. case_bool; [by intros [= <-]|]. case_bool; [by intros [= <-]|done].
Qed.

Lemma raw_csn_write σ xv y : is_Some (raw_csn σ y) → is_Some (raw_csn (csn_write σ xv) y).
Proof.
  unfold raw_csn. do 2 (case_bool; [done|]). unfold csn_write. case_decide; [|done].
  by rewrite fmap_is_Some.
Qed.

Lemma csn_wf_ext σ σ' : (∀ y, 0 ≤ y → σ y = σ' y) → csn_wf σ → csn_wf σ'.
Proof.
  intros Heq Hwf x v Hx Hv Hs. destruct (Hwf x v) as [Hp Hr]; [done|by rewrite Heq|done|].
  split; [done|]. unfold raw_csn in *. by rewrite <- Heq by lia.
Qed.

Lemma csn_write_wf σ x v :
  csn_wf σ → (COMMITSEQNO_IS_SUBTRANS v = true → 0 < GET_PARENTXID v < x ∧
    is_Some (raw_csn σ (GET_PARENTXID v))) → csn_wf (csn_write σ (x, v)).
Proof.
  intros Hwf Hv y u Hy Hu Hs.
  assert (0 < GET_PARENTXID u < y ∧ is_Some (raw_csn σ (GET_PARENTXID u))) as [? ?].
  { unfold csn_write in Hu. cbn in Hu. case_decide as Hyx; [|by apply (Hwf y u)]. subst y.
    destruct (σ x) as [old|] eqn:Hold; [|done]. injection Hu as Hu.
    unfold merge_csn in Hu. destruct (COMMITSEQNO_IS_ABORTED old); subst u; [by apply (Hwf x old)|auto]. }
  split; [done|]. by apply raw_csn_write.
Qed.

Lemma csn_writes_wf W σ :
  csn_wf σ → Forall (λ xv, COMMITSEQNO_IS_SUBTRANS xv.2 = true → 0 < GET_PARENTXID xv.2 < xv.1 ∧
    is_Some (raw_csn σ (GET_PARENTXID xv.2))) W → csn_wf (foldl csn_write σ W).
Proof.
  revert σ. induction W as [|[x v] W IH]; intros σ Hwf HW; [done|].
  apply Forall_cons_1 in HW as [Hv HW]. cbn. apply IH; [by apply csn_write_wf|].
  eapply Forall_impl; [exact HW|]. intros [x' v'] Hv' Hs. destruct (Hv' Hs). split; [done|].
  by apply raw_csn_write.
Qed.

(** On a well-formed log the walk to the parents ends. *)
Lemma nested_csn_total σ x :
  csn_wf σ → 0 ≤ x → is_Some (raw_csn σ x) →
  ∃ n c, ∀ fuel, (n ≤ fuel)%nat → nested_csn fuel σ x = Some c.
Proof.
  intros Hwf. induction (Z.lt_wf 0 x) as [x _ IH]. intros Hx [v Hv].
  destruct (COMMITSEQNO_IS_SUBTRANS v && COMMITSEQNO_IS_COMMITTING v) eqn:Hs.
  - destruct (Hwf x v Hx) as [Hlt Hp]; [by bool_to_prop; apply raw_csn_cases|by bool_to_prop|].
    destruct (IH (GET_PARENTXID v)) as (n & c & Hn); [lia..|done|].
    exists (Datatypes.S n), c. intros [|fuel] Hf; [lia|]. cbn. rewrite Hv. cbn. rewrite Hs.
    apply Hn. lia.
  - exists 1%nat, v. intros [|fuel] Hf; [lia|]. cbn. rewrite Hv. cbn. by rewrite Hs.
Qed.

(** ** The topmost transaction *)

Definition csn_parent (σ : Z → option Z) (x p : Z) : Prop :=
  ∃ v, raw_csn σ x = Some v ∧ COMMITSEQNO_IS_SUBTRANS v = true ∧ p = GET_PARENTXID v.

(** [SubTransGetParent] without the search of the proc array. *)
Lemma get_parent_runs env x w v :
  slru_ok (cstore w) → 0 ≤ x → raw_csn (csn_word (cstore w)) x = Some v →
  ∃ w' st, runs (SubTransGetParent env x false) w
      (if COMMITSEQNO_IS_SUBTRANS v then GET_PARENTXID v else InvalidTransactionId, st) w' ∧
    same_log w w'.
Proof.
  intros Hok Hx Hv. destruct (get_csn_runs env x w v Hok Hx Hv) as (w1 & Hr1 & Hl1).
  destruct (COMMITSEQNO_IS_SUBTRANS v) eqn:Hs; exists w1; eexists; (split; [|done]);
    (eapply runs_bind; [exact Hr1|]); cbn beta; rewrite Hs; done.
Qed.

Lemma get_parentxid_nonneg v : 0 ≤ GET_PARENTXID v.
Proof. unfold GET_PARENTXID. rewrite get_mod. by apply Z.mod_pos_bound. Qed.

Lemma topmost_loop_runs env σ fuel x prev w :
  csn_wf σ → slru_ok (cstore w) → csn_is (cstore w) σ → 0 < x →
  is_Some (raw_csn σ x) → (Z.to_nat x < fuel)%nat →
  ∃ t w', runs (topmost_loop fuel env x prev) w t w' ∧ same_log w w' ∧ 0 < t ∧
    rtc (csn_parent σ) x t ∧
    (t < TransactionXmin env ∨ ∀ p, ¬ csn_parent σ t p).
Proof.
  intros Hwf. revert x prev w. induction fuel as [|fuel IH]; intros x prev w Hok Hσ Hx [v Hv] Hf; [lia|].
  cbn [topmost_loop]. unfold TransactionIdIsValid. rewrite (proj2 (Z.eqb_neq x InvalidTransactionId)).
  2:{ unfold InvalidTransactionId. lia. }
  cbn [negb]. destruct (TransactionIdPrecedes x (TransactionXmin env)) eqn:Hmin.
  { exists x, w. split_and!; [done|by apply same_log_refl|done|done|]. left. by apply Z.ltb_lt. }
  assert (raw_csn (csn_word (cstore w)) x = Some v) as Hv'.
  { rewrite <- Hv. unfold raw_csn. by rewrite Hσ by lia. }
  destruct (get_parent_runs env x w v Hok ltac:(lia) Hv') as (w1 & st & Hr1 & Hl1).
  destruct (COMMITSEQNO_IS_SUBTRANS v) eqn:Hs.
  - destruct (Hwf x v) as [Hp Hpk]; [lia|by apply raw_csn_cases|done|].
    destruct (IH (GET_PARENTXID v) x w1) as (t & w' & Hr & Hl & Ht & Hrtc & Hend);
      [apply Hl1| |lia|done|lia|].
    { intros y Hy. rewrite (same_log_word w) by done. by apply Hσ. }
    exists t, w'. split_and!; [|by eapply same_log_trans|done| |done].
    + eapply runs_bind; [exact Hr1|]. cbn [fst].
      unfold TransactionIdPrecedes. rewrite (proj2 (Z.ltb_lt _ _)) by lia. done.
    + eapply rtc_l; [|done]. by exists v.
  - destruct fuel as [|fuel]; [lia|].
    exists x, w1. split_and!; try done.
    + eapply runs_bind; [exact Hr1|]. cbn [fst].
      unfold TransactionIdPrecedes. rewrite (proj2 (Z.ltb_lt _ _)) by (unfold InvalidTransactionId; lia).
      done.
    + right. intros p (v' & Hv1 & Hs' & _). congruence.
Qed.

(** Whatever the log holds, the loop ends. *)
Lemma topmost_loop_ends env fuel x prev w :
  slru_ok (cstore w) → 0 ≤ x →
  (∀ y, FirstNormalTransactionId ≤ y ≤ x → is_Some (csn_word (cstore w) y)) → (Z.to_nat x < fuel)%nat →
  (topmost_loop fuel env x prev w).1 ≠ NoFuel.
Proof.
  revert x prev w. induction fuel as [|fuel IH]; intros x prev w Hok Hx Hall Hf; [lia|].
  cbn [topmost_loop]. destruct (TransactionIdIsValid x) eqn:Hval; [|done].
  destruct (TransactionIdPrecedes x (TransactionXmin env)); [done|].
  assert (is_Some (raw_csn (csn_word (cstore w)) x)) as [v Hv].
  { unfold raw_csn, TransactionIdIsValid, InvalidTransactionId, FrozenTransactionId,
      BootstrapTransactionId, FirstNormalTransactionId in *. do 2 (case_bool; [by eauto|]). apply Hall. lia. }
  destruct (get_parent_runs env x w v Hok Hx Hv) as (w1 & st & Hr1 & Hl1).
  set (p := if COMMITSEQNO_IS_SUBTRANS v then _ else _) in *.
  unfold mbind, M_bind. rewrite Hr1. cbn [fst].
  destruct (TransactionIdPrecedes p x) eqn:Hlt; [|done]. cbn [negb].
  apply Z.ltb_lt in Hlt. assert (0 ≤ p) as Hp.
  { subst p. case_bool; [apply get_parentxid_nonneg|done]. }
  apply IH; [apply Hl1|done| |lia].
  intros y Hy. rewrite (same_log_word w) by done. apply Hall. lia.
Qed.

(** ** Extension *)

Lemma new_extend_page p :
  Z.land (p + CSNLOG_BATCH_SIZE) (Z.lnot (CSNLOG_BATCH_SIZE - 1)) = (p / 32 + 1) * 32.
Proof.
  change (CSNLOG_BATCH_SIZE - 1) with (Z.ones 5). rewrite <- Z.ldiff_land.
  rewrite Z.ldiff_ones_r, Z.shiftl_mul_pow2, Z.shiftr_div_pow2 by lia.
  unfold CSNLOG_BATCH_SIZE. change (2 ^ 5) with 32. Z.div_mod_to_equations. lia.
Qed.

Lemma zero_locked_runs env p w :
  slru_ok (cstore w) → 0 ≤ p →
  ∃ s', runs (zero_locked env p) w tt (with_cstore s' (with_held None w)) ∧ slru_ok s' ∧
    is_Some (slru_view s' p) ∧ ∀ q, q ≠ p → slru_view s' q = slru_view (cstore w) q.
Proof.
  intros Hok Hp. destruct (slru_zero _ p Hok Hp) as (slotno & s' & Hr & Hok' & Hat & _ & Hoth).
  exists s'. split_and!; try done; [|by eapply slru_at_view].
  eapply runs_bind; [done|]. eapply (runs_bind _ _ _ slotno (with_cstore s' (with_held
    (Some (csn_bank_lock env p)) w))); [|done].
  unfold runs, ZeroCSNLOGPage, cslru. cbn [cstore with_held]. by rewrite Hr.
Qed.

Lemma zero_pages_runs env ps w :
  slru_ok (cstore w) → Forall (λ p, 0 ≤ p) ps →
  ∃ w', runs (for_each (zero_locked env) ps) w tt w' ∧ slru_ok (cstore w') ∧
    (∀ q, q ∈ ps ∨ is_Some (slru_view (cstore w) q) → is_Some (slru_view (cstore w') q)) ∧
    (∀ q, q ∉ ps → slru_view (cstore w') q = slru_view (cstore w) q) ∧
    startExtendCSNLogpage w' = startExtendCSNLogpage w ∧ xlogMaxCSN w' = xlogMaxCSN w.
Proof.
  intros Hok Hps. revert w Hok. induction Hps as [|p ps Hp Hps IH]; intros w Hok.
  { exists w. split_and!; try done. intros q [Hq|Hq]; [by apply elem_of_nil in Hq|done]. }
  destruct (zero_locked_runs env p w Hok Hp) as (s1 & Hr1 & Hok1 & Hs1 & Hv1).
  destruct (IH (with_cstore s1 (with_held None w)) Hok1) as (w' & Hr & Hok' & Hin & Hout & Hst & Hmx).
  exists w'. split_and!; try done; [by eapply runs_bind| |].
  - intros q Hq. apply Hin. cbn. destruct (decide (q = p)) as [->|Hne]; [by right|].
    rewrite Hv1 by done. destruct Hq as [Hq|Hq]; [|by right].
    apply elem_of_cons in Hq as [|]; [done|by left].
  - intros q [Hne Hq]%not_elem_of_cons. rewrite Hout by done. by apply Hv1.
Qed.

(** The first page an extension to hold [newestXact] makes. *)
Definition extend_from env (last : Z) : Z :=
  if TransactionIdIsNormal (sn_recent_global_xmin env)
     && (last <? TransactionIdToCSNPage (sn_recent_global_xmin env))
  then TransactionIdToCSNPage (sn_recent_global_xmin env) else last + 1.

Definition jump_page env (last : Z) : Z :=
  if TransactionIdIsNormal (sn_recent_global_xmin env)
     && (last <? TransactionIdToCSNPage (sn_recent_global_xmin env))
  then TransactionIdToCSNPage (sn_recent_global_xmin env) else last.

Definition extend_to (newestXact : Z) : Z := (TransactionIdToCSNPage newestXact / 32 + 1) * 32.

Lemma extend_to_gt x : TransactionIdToCSNPage x < extend_to x.
Proof. unfold extend_to. Z.div_mod_to_equations. lia. Qed.

(** The jump to the page of the global xmin. *)
Lemma extend_jump_runs env last w :
  slru_ok (cstore w) → 0 ≤ last →
  ∃ w', runs (let xmin := sn_recent_global_xmin env in
           let OldestUsedPage := TransactionIdToCSNPage xmin in
           if TransactionIdIsNormal xmin && (last <? OldestUsedPage) then
             CSN_LWLOCK_ACQUIRE env OldestUsedPage ≫= λ _,
             ZeroCSNLOGPage OldestUsedPage ≫= λ _,
             modify (λ w, with_vars (lastExtendCSNLogpage w) OldestUsedPage (xlogMaxCSN w) w) ≫= λ _,
             CSN_LWLOCK_RELEASE env OldestUsedPage ≫= λ _,
             mret OldestUsedPage
           else mret last) w
      (jump_page env last) w' ∧
    slru_ok (cstore w') ∧
    (∀ q, q ≤ last → slru_view (cstore w') q = slru_view (cstore w) q) ∧
    (∀ q, extend_from env last ≤ q ≤ jump_page env last → is_Some (slru_view (cstore w') q)) ∧
    last ≤ jump_page env last.
Proof.
  intros Hok Hlast. cbv zeta. unfold extend_from, jump_page.
  set (op := TransactionIdToCSNPage (sn_recent_global_xmin env)).
  destruct (TransactionIdIsNormal _ && (last <? op)) eqn:Hj.
  2:{ exists w. split_and!; try done. lia. }
  bool_to_prop. destruct (slru_zero _ op Hok ltac:(lia)) as (slotno & s' & Hr & Hok' & Hat & _ & Hoth).
  eexists. split.
  - eapply runs_bind; [done|].
    eapply (runs_bind _ _ _ slotno (with_cstore s' (with_held (Some (csn_bank_lock env op)) w))).
    { unfold runs, ZeroCSNLOGPage, cslru. cbn [cstore with_held]. by rewrite Hr. }
    eapply runs_bind; [done|]. eapply runs_bind; done.
  - cbn [cstore with_held with_vars with_cstore]. split_and!; [done| | |lia].
    + intros q Hq. apply Hoth. lia.
    + intros q Hq. replace q with op by lia. by eapply slru_at_view.
Qed.

Lemma extend_runs env newestXact w :
  slru_ok (cstore w) → 0 < newestXact < 2 ^ 60 → 0 ≤ lastExtendCSNLogpage w < 2 ^ 50 →
  startExtendCSNLogpage w ≤ TransactionIdToCSNPage newestXact →
  lastExtendCSNLogpage w < TransactionIdToCSNPage newestXact →
  jump_page env (lastExtendCSNLogpage w) < extend_to newestXact →
  ∃ w', runs (ExtendCSNLOG env newestXact) w tt w' ∧ slru_ok (cstore w') ∧
    lastExtendCSNLogpage w' = extend_to newestXact - 1 ∧
    (∀ q, q ≤ lastExtendCSNLogpage w → slru_view (cstore w') q = slru_view (cstore w) q) ∧
    (∀ q, extend_from env (lastExtendCSNLogpage w) ≤ q < extend_to newestXact →
       is_Some (slru_view (cstore w') q)).
Proof.
  intros Hok Hx Hlast Hstart Hlt Hjump. set (last := lastExtendCSNLogpage w) in *.
  destruct (extend_jump_runs env last w Hok ltac:(lia)) as (w1 & Hr1 & Hok1 & Hold1 & Hnew1 & Hle1).
  set (jp := jump_page env last) in *.
  destruct (zero_pages_runs env (seqZ (jp + 1) (extend_to newestXact - 1 - jp)) w1 Hok1)
    as (w2 & Hr2 & Hok2 & Hin2 & Hout2 & _ & _).
  { apply Forall_forall. intros q Hq%elem_of_seqZ. lia. }
  eexists. split.
  - unfold ExtendCSNLOG, TransactionIdIsValid.
    rewrite (proj2 (Z.eqb_neq newestXact InvalidTransactionId)) by (unfold InvalidTransactionId; lia).
    cbn [negb]. eapply runs_bind; [apply runs_gets|].
    rewrite (proj2 (Z.ltb_ge _ _)) by lia. eapply runs_bind; [apply runs_gets|].
    change (lastExtendCSNLogpage w) with last.
    rewrite u64_small by (change CSNLOG_XACTS_PER_PAGE with 1024; lia).
    unfold TransactionIdPrecedes. rewrite (proj2 (Z.ltb_lt _ _)).
    2:{ unfold TransactionIdToCSNPage in Hlt. change CSNLOG_XACTS_PER_PAGE with 1024 in *.
        clear -Hlt Hx. Z.div_mod_to_equations. lia. }
    eapply runs_bind; [exact Hr1|]. rewrite new_extend_page. fold (extend_to newestXact).
    rewrite (proj2 (Z.leb_gt _ _)) by lia. eapply runs_bind; [exact Hr2|]. apply runs_modify.
  - cbn [cstore with_vars lastExtendCSNLogpage]. split_and!; [done|done| |].
    + intros q Hq. rewrite Hout2 by (rewrite elem_of_seqZ; lia). by apply Hold1.
    + intros q Hq. apply Hin2. destruct (decide (q ≤ jp)); [right; apply Hnew1; lia|left].
      apply elem_of_seqZ. lia.
Qed.

(** ** The properties of the CSN log *)

Lemma csn_writes_main xid subs csn top :
  xid ≠ InvalidTransactionId → (xid, csn) ∈ csn_writes xid subs csn top.
Proof.
  intros Hx. unfold csn_writes, TransactionIdIsValid. rewrite (proj2 (Z.eqb_neq _ _)) by done. left.
Qed.

Lemma csn_writes_sub xid subs csn top y :
  y ∈ subs → (y, sub_csn csn top) ∈ csn_writes xid subs csn top.
Proof.
  intros Hy. apply elem_of_app. right. apply list_elem_of_fmap. by exists y.
Qed.

Lemma csn_writes_fst xid subs csn top y :
  xid ≠ InvalidTransactionId → y ∈ (csn_writes xid subs csn top).*1 → y ∈ xid :: subs.
Proof.
  intros Hx. unfold csn_writes, TransactionIdIsValid. rewrite (proj2 (Z.eqb_neq _ _)) by done.
  rewrite fmap_app, <- list_fmap_compose. cbn. rewrite !elem_of_cons.
  intros [->|Hy]; [by left|right]. apply list_elem_of_fmap in Hy as (z & -> & Hz). done.
Qed.

Lemma csn_set_commit_words env xid subs csn w :
  csn_pre env xid subs csn (cstore w) →
  ∃ w', runs (CSNLogSetCommitSeqNo env xid subs csn) w tt w' ∧ slru_ok (cstore w') ∧
    csn_word (cstore w') xid = (λ old, merge_csn old csn) <$> csn_word (cstore w) xid ∧
    (∀ y, y ∈ subs → csn_word (cstore w') y =
       (λ old, merge_csn old (sub_csn csn xid)) <$> csn_word (cstore w) y) ∧
    (∀ y, 0 ≤ y → y ∉ xid :: subs → csn_word (cstore w') y = csn_word (cstore w) y).
Proof.
  intros Hpre. destruct (csn_set_commit_runs env xid subs csn w Hpre) as (w' & tr & Hr & Hok & Hs & _ & _).
  destruct Hpre as (_ & _ & _ & Hx & _ & _ & Hnd & Hcan).
  exists w'. split_and!; try done.
  - pose proof (csn_writes_main xid subs csn xid Hx) as Hin.
    rewrite Hs by apply (Hcan _ _ Hin). by apply csn_writes_in.
  - intros y Hy. pose proof (csn_writes_sub xid subs csn xid y Hy) as Hin.
    rewrite Hs by apply (Hcan _ _ Hin). by apply csn_writes_in.
  - intros y Hy Hn. rewrite Hs by done. apply csn_writes_notin.
    intros Hin. by apply Hn, (csn_writes_fst xid subs csn xid y).
Qed.

(** [CSNLogSetCommitSeqNo] records exactly what it was asked to: the call
    returns (its page loop ends), the main transaction's word becomes [csn],
    each child's becomes [csn], or, while the commit is only announced, the mark
    that refers readers to the main transaction; an entry that was aborted stays
    aborted, and no other word changes. *)
Theorem csn_set_commit_spec env xid subs csn w :
  csn_pre env xid subs csn (cstore w) →
  ∃ w', runs (CSNLogSetCommitSeqNo env xid subs csn) w tt w' ∧ slru_ok (cstore w') ∧
    csn_word (cstore w') xid = (λ old, merge_csn old csn) <$> csn_word (cstore w) xid ∧
    (∀ y, y ∈ subs → csn_word (cstore w') y =
       (λ old, merge_csn old (sub_csn csn xid)) <$> csn_word (cstore w) y) ∧
    (∀ y, 0 ≤ y → y ∉ xid :: subs → csn_word (cstore w') y = csn_word (cstore w) y).
Proof. apply csn_set_commit_words. Qed.

Lemma not_aborted_committing c : merge_csn (Z.lor c COMMITSEQNO_COMMIT_INPROGRESS) = id.
Proof.
  unfold merge_csn. replace (COMMITSEQNO_IS_ABORTED _) with false; [done|].
  symmetry. apply Z.eqb_neq. intros Heq.
  pose proof (lor_inprogress_committing c) as Hc. rewrite Heq in Hc. done.
Qed.

(** How readers resolve a tree that is being stamped. *)
Lemma stamp_lookup τ xid subs csn c :
  COMMITSEQNO_FROZEN ≤ csn < 2 ^ 60 → 2 < xid < 2 ^ 60 → (∀ y, y ∈ subs → 2 < y) →
  (c = Z.lor csn COMMITSEQNO_COMMIT_INPROGRESS ∨ c = csn) → τ xid = Some c →
  (∀ y, y ∈ subs → τ y = Some (Z.lor (subtrans_mark xid) COMMITSEQNO_COMMIT_INPROGRESS) ∨ τ y = Some c) →
  ∀ y, y ∈ xid :: subs → nested_csn 2 τ y = Some c.
Proof.
  unfold COMMITSEQNO_FROZEN. intros Hcsn Hx Hsubs Hc Hwx Hws.
  assert (∀ y, 2 < y → raw_csn τ y = τ y) as Hraw.
  { intros y Hy. unfold raw_csn, InvalidTransactionId, FrozenTransactionId, BootstrapTransactionId.
    rewrite !(proj2 (Z.eqb_neq _ _)) by lia. done. }
  assert (COMMITSEQNO_IS_SUBTRANS c = false) as Hns.
  { destruct Hc as [-> | ->]; [rewrite lor_inprogress_subtrans|]; apply committed_not_subtrans; lia. }
  assert (∀ f y, 2 < y → τ y = Some c → nested_csn (Datatypes.S f) τ y = Some c) as Hdirect.
  { intros f y Hy Hyc. cbn [nested_csn]. rewrite Hraw, Hyc by done. cbn. by rewrite Hns. }
  destruct (csn_word_cases xid ltac:(lia)) as (_ & Hpar & _ & Hsub & _ & Hcom).
  intros y [->|Hy]%elem_of_cons; [apply Hdirect; [lia|done]|].
  destruct (Hws y Hy) as [Hm|Hm]; [|apply Hdirect; auto].
  cbn [nested_csn]. rewrite Hraw, Hm by auto. cbn [mbind option_bind]. rewrite Hsub, Hcom, Hpar. cbn [andb].
  apply (Hdirect 0%nat); [lia|done].
Qed.

(** The map after [k] of the words have been written. *)
Lemma stamp_prefix σ xid subs csn k :
  COMMITSEQNO_FROZEN ≤ csn < 2 ^ 60 → 2 < xid < 2 ^ 60 → NoDup (csn_writes xid subs csn xid).*1 →
  σ xid = Some (Z.lor csn COMMITSEQNO_COMMIT_INPROGRESS) →
  (∀ y, y ∈ subs → σ y = Some (Z.lor (subtrans_mark xid) COMMITSEQNO_COMMIT_INPROGRESS)) →
  let τ := foldl csn_write σ (take k (csn_writes xid subs csn xid)) in
  ∃ c, (c = Z.lor csn COMMITSEQNO_COMMIT_INPROGRESS ∧ k = 0%nat ∨ c = csn) ∧ τ xid = Some c ∧
    ∀ y, y ∈ subs → τ y = Some (Z.lor (subtrans_mark xid) COMMITSEQNO_COMMIT_INPROGRESS) ∨ τ y = Some c.
Proof.
  intros Hcsn Hx Hnd Hwx Hws. unfold COMMITSEQNO_FROZEN in Hcsn.
  assert (sub_csn csn xid = csn) as Hsub.
  { unfold sub_csn. fold (COMMITSEQNO_IS_COMMITTING csn). by rewrite committed_not_committing by lia. }
  destruct k as [|k].
  { rewrite firstn_O. cbn. eexists. split; [by left|]. split; [done|]. intros y Hy. left. by apply Hws. }
  exists csn. split; [by right|].
  assert (NoDup (take (Datatypes.S k) (csn_writes xid subs csn xid)).*1) as Hnd'.
  { rewrite fmap_take. eapply sublist_NoDup; [done|]. apply sublist_take. }
  assert ((xid, csn) ∈ take (Datatypes.S k) (csn_writes xid subs csn xid)) as Hin.
  { unfold csn_writes, TransactionIdIsValid, InvalidTransactionId.
    rewrite (proj2 (Z.eqb_neq _ _)) by lia. left. }
  split. { rewrite (csn_writes_in _ _ _ csn), Hwx by done. cbn. by rewrite not_aborted_committing. }
  intros y Hy.
  destruct (decide (y ∈ (take (Datatypes.S k) (csn_writes xid subs csn xid)).*1)) as [Hyin|Hyn].
  - right. apply list_elem_of_fmap in Hyin as ([y' v] & -> & Hyin). cbn in *.
    assert (v = csn) as ->.
    { apply elem_of_take in Hyin as (i & Hi%list_elem_of_lookup_2 & _).
      apply elem_of_app in Hi as [Hi|Hi].
      { case_bool; [|by apply elem_of_nil in Hi]. by apply list_elem_of_singleton in Hi as [= -> ->]. }
      apply list_elem_of_fmap in Hi as (z & [= -> ->] & _). done. }
    rewrite (csn_writes_in _ _ _ csn), Hws by done. cbn. by rewrite not_aborted_committing.
  - left. rewrite csn_writes_notin by done. by apply Hws.
Qed.

(** C27: The CSN of a tree appears atomically. Once the commit of a tree has been
    announced (the main transaction's word is [csn] with the commit-in-progress
    bit, every child refers to it), the call that stamps the final [csn] leaves,
    after every single word it writes, a log in which the nested lookup of
    every child gives the very word of the main transaction: all of them still
    committing, or all of them committed with [csn]. *)
Theorem csn_stamp_atomic env xid subs csn w :
  csn_pre env xid subs csn (cstore w) → COMMITSEQNO_FROZEN ≤ csn < 2 ^ 60 → 2 < xid < 2 ^ 60 →
  (∀ y, y ∈ subs → 2 < y) →
  csn_word (cstore w) xid = Some (Z.lor csn COMMITSEQNO_COMMIT_INPROGRESS) →
  (∀ y, y ∈ subs → csn_word (cstore w) y
                   = Some (Z.lor (subtrans_mark xid) COMMITSEQNO_COMMIT_INPROGRESS)) →
  ∃ w' tr, runs (CSNLogSetCommitSeqNo env xid subs csn) w tt w' ∧ ctrace w' = ctrace w ++ tr ∧
    Forall (λ s, ∃ c, (c = Z.lor csn COMMITSEQNO_COMMIT_INPROGRESS ∨ c = csn) ∧
      ∀ y, y ∈ xid :: subs → nested_csn 2 (csn_word s) y = Some c) tr ∧
    ∀ y, y ∈ xid :: subs → nested_csn 2 (csn_word (cstore w')) y = Some csn.
Proof.
  intros Hpre Hcsn Hx Hsubs Hwx Hws.
  destruct (csn_set_commit_runs env xid subs csn w Hpre) as (w' & tr & Hr & _ & Hs & Ht & Htr).
  destruct Hpre as (_ & _ & _ & Hxv & _ & _ & Hnd & _).
  exists w', tr. split_and!; try done.
  - eapply Forall_impl; [exact Htr|]. intros s [k Hk].
    destruct (stamp_prefix _ xid subs csn k Hcsn Hx Hnd Hwx Hws) as (c & Hc & Hcx & Hcs).
    exists c. split; [destruct Hc as [[? _]|?]; auto|].
    apply (stamp_lookup _ xid subs csn c); try done.
    + destruct Hc as [[? _]|?]; auto.
    + by rewrite Hk by lia.
    + intros y Hy. rewrite Hk by (specialize (Hsubs y Hy); lia). auto.
  - destruct (stamp_prefix _ xid subs csn (length (csn_writes xid subs csn xid)) Hcsn Hx Hnd Hwx Hws)
      as (c & [[_ Hz]| ->] & Hcx & Hcs).
    { pose proof (csn_writes_main xid subs csn xid Hxv) as Hin.
      destruct (csn_writes xid subs csn xid); [by apply elem_of_nil in Hin|done]. }
    rewrite firstn_all in Hcx, Hcs.
    apply (stamp_lookup _ xid subs csn csn); auto.
    + by rewrite Hs by lia.
    + intros y Hy. rewrite Hs by (specialize (Hsubs y Hy); lia). auto.
Qed.

(** The parent is recorded, unless it already is, possibly with the
    commit-in-progress mark. *)
Definition parent_word (parent old : Z) : Z :=
  if (old =? subtrans_mark parent) || (old =? Z.lor (subtrans_mark parent) COMMITSEQNO_COMMIT_INPROGRESS)
  then old else subtrans_mark parent.

Lemma set_parent_runs env xid parent w old :
  SS_STANDBY_MODE env = false → slru_ok (cstore w) → csn_word (cstore w) xid = Some old →
  ∃ w', runs (SubTransSetParent env xid parent) w tt w' ∧ slru_ok (cstore w') ∧
    ∀ y, csn_word (cstore w') y =
      if decide (y = xid) then Some (parent_word parent old) else csn_word (cstore w) y.
Proof.
  intros Hss Hok Hold.
  destruct (read_page_lock_runs env (TransactionIdToCSNPage xid) w Hok (csn_word_page _ _ _ Hold))
    as (slotno & s1 & Hr1 & Hok1 & Hat1 & Hv1).
  set (w1 := with_cstore s1 _) in *.
  assert (∀ y, csn_word s1 y = csn_word (cstore w) y) as Hw1 by (intros y; unfold csn_word; by rewrite Hv1).
  pose proof (csn_word_get s1 xid slotno old Hat1 ltac:(by rewrite Hw1)) as Hget.
  unfold SubTransSetParent. rewrite Hss. fold (subtrans_mark parent). unfold parent_word.
  destruct (_ || _) eqn:Hsame.
  - exists (with_held None w1). split_and!; [|done|].
    + eapply runs_bind; [exact Hr1|]. eapply runs_bind; [done|]. cbn beta.
      change (cstore w1) with s1. rewrite Hget, <- negb_orb, Hsame. done.
    + intros y. cbn. rewrite Hw1. by case_decide; subst.
  - set (s2 := page_set (TransactionIdToCSNPage xid) slotno (TransactionIdToCSNPgIndex xid)
      (subtrans_mark parent) s1).
    assert (∀ y, slru_at s2 (TransactionIdToCSNPage xid) slotno ∧ csn_word s2 y =
      if decide (y = xid) then Some (subtrans_mark parent) else csn_word s1 y) as Hs2.
    { intros y. apply csn_word_set; [done|]. rewrite Hw1. eauto. }
    destruct (slru_dirty _ _ _ (proj1 (Hs2 0))) as [Hok3 Hv3].
    eexists. split_and!.
    + eapply runs_bind; [exact Hr1|]. eapply runs_bind; [done|]. cbn beta.
      change (cstore w1) with s1. rewrite Hget, <- negb_orb, Hsame. cbn [negb].
      eapply runs_bind; [|done]. eapply runs_bind; done.
    + exact Hok3.
    + intros y. unfold csn_word at 1. cbn [cstore with_held with_cstore observe]. rewrite Hv3.
      fold (csn_word s2 y). rewrite (proj2 (Hs2 y)). case_decide; [done|]. apply Hw1.
Qed.

(** One operation of a backend on the log. *)
Inductive csn_step env : csn_state S → csn_state S → Prop :=
| step_commit xid subs csn w w' :
    csn_pre env xid subs csn (cstore w) → 0 < xid < 2 ^ 60 → COMMITSEQNO_IS_SUBTRANS csn = false →
    is_Some (csn_word (cstore w) xid) → (∀ y, y ∈ subs → xid < y) →
    runs (CSNLogSetCommitSeqNo env xid subs csn) w tt w' → csn_step env w w'
| step_parent xid parent w w' :
    SS_STANDBY_MODE env = false → 0 < parent < xid → parent < 2 ^ 60 →
    is_Some (csn_word (cstore w) xid) → is_Some (raw_csn (csn_word (cstore w)) parent) →
    runs (SubTransSetParent env xid parent) w tt w' → csn_step env w w'
| step_lookup fuel xid c w w' :
    0 ≤ xid → nested_csn fuel (csn_word (cstore w)) xid = Some c →
    runs (CSNLogGetNestCommitSeqNo fuel env xid) w c w' → csn_step env w w'.

Definition csn_inv w : Prop := slru_ok (cstore w) ∧ csn_wf (csn_word (cstore w)).

Lemma subtrans_mark_wf σ xid parent c :
  0 < parent < xid → parent < 2 ^ 60 → is_Some (raw_csn σ parent) →
  c = subtrans_mark parent ∨ c = Z.lor (subtrans_mark parent) COMMITSEQNO_COMMIT_INPROGRESS →
  0 < GET_PARENTXID c < xid ∧ is_Some (raw_csn σ (GET_PARENTXID c)).
Proof.
  intros Hp Hb Hs Hc. destruct (csn_word_cases parent ltac:(lia)) as (H1 & H2 & _).
  destruct Hc as [-> | ->]; by rewrite ?H1, ?H2.
Qed.

Lemma step_commit_inv env xid subs csn w w' :
  csn_inv w → csn_pre env xid subs csn (cstore w) → 0 < xid < 2 ^ 60 →
  COMMITSEQNO_IS_SUBTRANS csn = false → is_Some (csn_word (cstore w) xid) → (∀ y, y ∈ subs → xid < y) →
  runs (CSNLogSetCommitSeqNo env xid subs csn) w tt w' → csn_inv w'.
Proof.
  intros [Hok Hwf] Hpre Hx Hns Hk Hsub Hr.
  destruct (csn_set_commit_runs env xid subs csn w Hpre) as (w2 & tr & Hr2 & Hok2 & Hs2 & _).
  destruct (runs_det _ _ _ _ _ _ Hr Hr2) as [_ ->]. split; [done|].
  eapply csn_wf_ext; [intros y Hy; symmetry; by apply Hs2|]. apply csn_writes_wf; [done|].
  apply Forall_app. split.
  { case_bool; [|constructor]. apply Forall_singleton. cbn. congruence. }
  apply Forall_fmap, Forall_forall. intros y Hy. cbn. unfold sub_csn. case_bool; [|congruence].
  intros _. apply (subtrans_mark_wf _ y xid); [|lia| |by right].
  - specialize (Hsub y Hy). lia.
  - unfold raw_csn. by repeat case_bool.
Qed.

Lemma step_parent_inv env xid parent w w' :
  csn_inv w → SS_STANDBY_MODE env = false → 0 < parent < xid → parent < 2 ^ 60 →
  is_Some (csn_word (cstore w) xid) → is_Some (raw_csn (csn_word (cstore w)) parent) →
  runs (SubTransSetParent env xid parent) w tt w' → csn_inv w'.
Proof.
  intros [Hok Hwf] Hss Hp Hpb [old Hold] Hk Hr.
  destruct (set_parent_runs env xid parent w old Hss Hok Hold) as (w2 & Hr2 & Hok2 & Hs2).
  destruct (runs_det _ _ _ _ _ _ Hr Hr2) as [_ ->]. split; [done|].
  assert (∀ y, is_Some (raw_csn (csn_word (cstore w)) y) → is_Some (raw_csn (csn_word (cstore w2)) y)) as Hkeep.
  { intros y. unfold raw_csn. do 2 (case_bool; [done|]). rewrite Hs2. case_decide; by eauto. }
  intros y v Hy Hv Hs. rewrite Hs2 in Hv. case_decide; subst.
  - injection Hv as <-. unfold parent_word in *. case_bool.
    + apply (subtrans_mark_wf _ xid parent); [done|done|by apply Hkeep|]. lia.
    + apply (subtrans_mark_wf _ xid parent); [done|done|by apply Hkeep|by left].
  - destruct (Hwf y v Hy Hv Hs). auto.
Qed.

(** The log stays well-formed: whatever sequence of commits, announcements,
    parent links and lookups is executed, in every reachable log every
    subtransaction entry points to a smaller xid the log knows, and the buffer
    cache is consistent. *)
Theorem csn_log_invariant env w w' :
  rtc (csn_step env) w w' → csn_inv w → csn_inv w'.
Proof.
  induction 1 as [w|w1 w2 w3 Hstep _ IH]; [done|]. intros Hinv. apply IH.
  destruct Hstep as [xid subs csn w w'|xid parent w w'|fuel xid c w w' Hx Hc Hr].
  - by eapply step_commit_inv.
  - by eapply step_parent_inv.
  - destruct Hinv as [Hok Hwf]. destruct (nest_get_runs env fuel xid w c Hok Hx Hc) as (w2 & Hr2 & Hl).
    destruct (runs_det _ _ _ _ _ _ Hr Hr2) as [_ ->]. split; [apply Hl|].
    eapply csn_wf_ext; [intros y Hy; symmetry; by apply same_log_word|done].
Qed.

(** Nested lookups end: on a well-formed log the recursion of
    [CSNLogGetNestCommitSeqNo] returns, with the same answer for every
    sufficient depth, and changes no word of the log. *)
Theorem nested_lookup_terminates env xid w :
  csn_inv w → 0 ≤ xid → is_Some (raw_csn (csn_word (cstore w)) xid) →
  ∃ n c, ∀ fuel, (n ≤ fuel)%nat →
    ∃ w', runs (CSNLogGetNestCommitSeqNo fuel env xid) w c w' ∧ same_log w w'.
Proof.
  intros [Hok Hwf] Hx Hk. destruct (nested_csn_total _ _ Hwf Hx Hk) as (n & c & Hn).
  exists n, c. intros fuel Hf. by apply nest_get_runs, Hn.
Qed.

(** [SubTransGetTopmostTransaction] on a well-formed log returns an
    ancestor-or-self of [xid] that is either older than [TransactionXmin] or has
    no parent. *)
Theorem topmost_transaction_spec env fuel xid w :
  csn_inv w → 0 < xid → is_Some (raw_csn (csn_word (cstore w)) xid) → (Z.to_nat xid < fuel)%nat →
  ∃ t w', runs (SubTransGetTopmostTransaction fuel env xid) w t w' ∧ same_log w w' ∧
    rtc (csn_parent (csn_word (cstore w))) xid t ∧
    (t < TransactionXmin env ∨ ∀ p, ¬ csn_parent (csn_word (cstore w)) t p).
Proof.
  intros [Hok Hwf] Hx Hk Hf.
  destruct (topmost_loop_runs env _ fuel xid xid w Hwf Hok (csn_is_self _) Hx Hk Hf)
    as (t & w' & Hr & Hl & _ & Hrtc & Hend).
  by exists t, w'.
Qed.

(** The search of the topmost transaction ends on every log, however
    corrupted its parent links are: a link that does not go to a smaller xid is
    reported instead of followed. *)
Theorem topmost_transaction_ends env fuel xid w :
  slru_ok (cstore w) → 0 ≤ xid →
  (∀ y, FirstNormalTransactionId ≤ y ≤ xid → is_Some (csn_word (cstore w) y)) →
  (Z.to_nat xid < fuel)%nat →
  (SubTransGetTopmostTransaction fuel env xid w).1 ≠ NoFuel.
Proof. apply topmost_loop_ends. Qed.

(** [ExtendCSNLOG] makes room: when the new xid is beyond the last page, the
    call returns, records the end of the batch as the last page, and all pages
    from the oldest one still needed to the end of the batch exist (that of the
    new xid among them unless the global xmin is beyond it), while the pages that
    were there are untouched. *)
Theorem extend_csnlog_spec env newestXact w :
  slru_ok (cstore w) → 0 < newestXact < 2 ^ 60 → 0 ≤ lastExtendCSNLogpage w < 2 ^ 50 →
  startExtendCSNLogpage w ≤ TransactionIdToCSNPage newestXact →
  lastExtendCSNLogpage w < TransactionIdToCSNPage newestXact →
  jump_page env (lastExtendCSNLogpage w) < extend_to newestXact →
  ∃ w', runs (ExtendCSNLOG env newestXact) w tt w' ∧ slru_ok (cstore w') ∧
    TransactionIdToCSNPage newestXact ≤ lastExtendCSNLogpage w' ∧
    (∀ y, TransactionIdToCSNPage y ≤ lastExtendCSNLogpage w →
       csn_word (cstore w') y = csn_word (cstore w) y) ∧
    (∀ y, extend_from env (lastExtendCSNLogpage w) ≤ TransactionIdToCSNPage y ≤ lastExtendCSNLogpage w' →
       is_Some (csn_word (cstore w') y)).
Proof.
  intros Hok Hx Hlast Hstart Hlt Hj.
  destruct (extend_runs env newestXact w) as (w' & Hr & Hok' & Hl & Hold & Hnew); try done.
  pose proof (extend_to_gt newestXact).
  exists w'. split_and!; try done; [lia| |].
  - intros y Hy. unfold csn_word. by rewrite Hold.
  - intros y Hy. unfold csn_word. rewrite fmap_is_Some. apply Hnew. lia.
Qed.

(** ** Which locks lookups hold *)

Lemma internal_get_locked env xid w c w' :
  held w = Some (csn_bank_lock env (TransactionIdToCSNPage xid)) →
  runs (InternalGetCommitSeqNo env xid) w c w' → held w' = held w ∧ unlocked w' = unlocked w.
Proof.
  intros Hh Hr. unfold InternalGetCommitSeqNo in Hr.
  case_bool; [inv_runs; done|]. case_bool; [inv_runs; done|].
  apply runs_bind_inv in Hr as ([] & w1 & Hr1 & Hr). unfold note_lookup, runs, modify in Hr1.
  rewrite decide_True in Hr1 by done. injection Hr1 as <-.
  apply runs_bind_inv in Hr as (slotno & w2 & Hr2 & Hr). inv_runs.
  unfold runs, cslru in Hr2. destruct (SimpleLruReadPage_ReadOnly _ _) as [r s1].
  injection Hr2 as _ <-. done.
Qed.

Lemma recursive_get_locked env fuel xid w c w' :
  (∀ x v, need_relock env x (GET_PARENTXID v) = false →
     csn_bank_lock env (TransactionIdToCSNPage (GET_PARENTXID v))
     = csn_bank_lock env (TransactionIdToCSNPage x)) →
  held w = Some (csn_bank_lock env (TransactionIdToCSNPage xid)) →
  runs (RecursiveGetCommitSeqNo fuel env xid) w c w' → held w' = held w ∧ unlocked w' = unlocked w.
Proof.
  intros Hbank. revert xid w c w'. induction fuel as [|fuel IH]; intros xid w c w' Hh Hr; [done|].
  cbn [RecursiveGetCommitSeqNo] in Hr. apply runs_bind_inv in Hr as (v & w1 & Hr1 & Hr).
  destruct (internal_get_locked env xid w v w1 Hh Hr1) as [Hh1 Hu1].
  cbn beta in Hr. case_bool; [|inv_runs; done].
  apply runs_bind_inv in Hr as ([] & w2 & Hr2 & Hr). apply runs_bind_inv in Hr as (c3 & w3 & Hr3 & Hr).
  cbn beta in Hr. destruct (need_relock env xid (GET_PARENTXID v)) eqn:Hn; inv_runs.
  - unfold CSN_LWLOCK_RELEASE, CSN_LWLOCK_ACQUIRE in *. inv_runs.
    apply IH in Hr3 as [_ Hu3]; [|done]. cbn in *. split; congruence.
  - apply IH in Hr3 as [? ?]; [split; congruence|]. rewrite (Hbank xid) by done. congruence.
Qed.

(** Lookups look only at pages whose bank lock they hold, provided that
    pages of one partition are in one bank. (Without the proviso they do not:
    [RecursiveGetCommitSeqNo] exchanges locks only when the partition changes,
    while locks are per bank; the last theorem of the file shows a lookup that
    goes wrong.) *)
Theorem nested_lookup_locked env fuel xid w c w' :
  (∀ p q, CSNBufHashPartition env p = CSNBufHashPartition env q →
     csn_bank_lock env p = csn_bank_lock env q) →
  runs (CSNLogGetNestCommitSeqNo fuel env xid) w c w' → unlocked w' = unlocked w.
Proof.
  intros Hbank Hr. unfold CSNLogGetNestCommitSeqNo in Hr.
  apply runs_bind_inv in Hr as ([] & w1 & [= <-] & Hr).
  apply runs_bind_inv in Hr as (c2 & w2 & Hr2 & Hr). unfold CSN_LWLOCK_RELEASE in Hr. inv_runs.
  apply recursive_get_locked in Hr2 as [_ Hu]; [done| |done].
  intros x v Hn. apply Hbank. unfold need_relock in Hn. bool_to_prop. done.
Qed.

End CsnProofs.

(** ** Concrete logs *)

Section CsnWitness.

Definition csn_primary : node_env := {|
  InRecovery := false; RecoveryInProgress := false; SS_STANDBY_MODE := false;
  useLocalSnapshot := false; IsRoachStandbyCluster := false;
  IsBootstrapProcessingMode := false; IS_MULTI_DISASTER_RECOVER_MODE := false |}.

(** The default number of partitions, sixteen banks in each. *)
Definition csn_demo_env : csn_env := {|
  csn_node := csn_primary; NUM_CSNLOG_PARTITIONS := 512; bank_mask := 15; procs := [];
  TransactionXmin := 3; sn_recent_global_xmin := 0 |}.

Definition empty_page : list Z := replicate (Z.to_nat CSNLOG_XACTS_PER_PAGE) 0.

Definition csn_demo_state (pages : gmap Z (list Z)) : csn_state (page_store CSNLOG_XACTS_PER_PAGE) := {|
  cstore := {| ps_pages := pages; ps_lsn := ∅ |}; ctrace := []; held := None; unlocked := [];
  lastExtendCSNLogpage := 1; startExtendCSNLogpage := 0; xlogMaxCSN := 0 |}.

(** Transaction 1023 and its children 1024 and 1025, on two pages: fresh,
    announced with CSN 77. *)
Definition fresh : gmap Z (list Z) := {[ 0 := empty_page; 1 := empty_page ]}.
Definition child_mark : Z := Z.lor (subtrans_mark 1023) COMMITSEQNO_COMMIT_INPROGRESS.
Definition announced : gmap Z (list Z) :=
  {[ 0 := aset empty_page 1023 (Z.lor 77 COMMITSEQNO_COMMIT_INPROGRESS);
     1 := aset (aset empty_page 0 child_mark) 1 child_mark ]}.

Lemma two_pages_ok pages i j p0 p1 :
  pages = {[ i := p0; j := p1 ]} → Z.of_nat (length p0) = 1024 → Z.of_nat (length p1) = 1024 →
  slru_ok (cstore (csn_demo_state pages)).
Proof.
  intros -> H0 H1 p pg. cbn. by intros [[_ <-]|[_ [_ <-]%lookup_singleton_Some]]%lookup_insert_Some.
Qed.

Lemma demo_can_write pages csn :
  (∀ x, x ∈ [1023; 1024; 1025] → ∃ old, csn_word (cstore (csn_demo_state pages)) x = Some old ∧
     COMMITSEQNO_IS_ABORTED old = false) → COMMITSEQNO_IS_ABORTED csn = false →
  COMMITSEQNO_IS_ABORTED (sub_csn csn 1023) = false →
  can_write (csn_writes 1023 [1024; 1025] csn 1023) (csn_word (cstore (csn_demo_state pages))).
Proof.
  intros Hold Hc Hc'. split.
  { cbn. repeat constructor; set_unfold; lia. }
  intros x v Hin.
  assert (x ∈ [1023; 1024; 1025] ∧ COMMITSEQNO_IS_ABORTED v = false) as [Hx Hv].
  { cbn in Hin. set_unfold. destruct Hin as [[= -> ->]|[[= -> ->]|[[= -> ->]|[]]]]; auto. }
  destruct (Hold x Hx) as (old & Ho & Ha). split; [set_unfold; lia|].
  exists old. split; [done|]. unfold csn_change_ok. rewrite Hv, Ha. by rewrite andb_false_r.
Qed.

Lemma announced_pre : csn_pre csn_demo_env 1023 [1024; 1025] 77 (cstore (csn_demo_state announced)).
Proof.
  split_and!; try done; [by eapply two_pages_ok|]. apply demo_can_write; try done.
  intros x Hx. set_unfold. destruct Hx as [->|[->|[->|[]]]]; eexists; split; vm_compute; reflexivity.
Qed.

Lemma fresh_pre csn :
  COMMITSEQNO_IS_ABORTED csn = false → COMMITSEQNO_IS_ABORTED (sub_csn csn 1023) = false → 1 < csn →
  csn_pre csn_demo_env 1023 [1024; 1025] csn (cstore (csn_demo_state fresh)).
Proof.
  intros H1 H2 H3. split_and!; try done; [unfold InvalidCommitSeqNo; lia|by eapply two_pages_ok|].
  apply demo_can_write; try done.
  intros x Hx. set_unfold. destruct Hx as [->|[->|[->|[]]]]; eexists; split; vm_compute; reflexivity.
Qed.

Lemma csn_set_commit_spec_witness :
  ∃ w', runs (CSNLogSetCommitSeqNo csn_demo_env 1023 [1024; 1025] (Z.lor 77 COMMITSEQNO_COMMIT_INPROGRESS))
      (csn_demo_state fresh) tt w' ∧ csn_word (cstore w') 1025 = Some child_mark.
Proof.
  destruct (csn_set_commit_spec csn_demo_env 1023 [1024; 1025] (Z.lor 77 COMMITSEQNO_COMMIT_INPROGRESS)
    (csn_demo_state fresh)) as (w' & Hr & _ & _ & Hsub & _).
  - by apply fresh_pre.
  - exists w'. split; [exact Hr|]. rewrite Hsub; [vm_compute; reflexivity|set_unfold; lia].
Defined.

Lemma csn_stamp_atomic_witness :
  ∃ w', runs (CSNLogSetCommitSeqNo csn_demo_env 1023 [1024; 1025] 77) (csn_demo_state announced) tt w' ∧
    nested_csn 2 (csn_word (cstore w')) 1024 = Some 77.
Proof.
  destruct (csn_stamp_atomic csn_demo_env 1023 [1024; 1025] 77 (csn_demo_state announced))
    as (w' & tr & Hr & _ & _ & Hfin).
  - apply announced_pre.
  - unfold COMMITSEQNO_FROZEN. lia.
  - lia.
  - intros y Hy. set_unfold. lia.
  - vm_compute. reflexivity.
  - intros y Hy. set_unfold. destruct Hy as [->|[->|[]]]; vm_compute; reflexivity.
  - exists w'. split; [exact Hr|]. apply Hfin. set_unfold. lia.
Defined.

Lemma fresh_inv : csn_inv (csn_demo_state fresh).
Proof.
  split; [by eapply two_pages_ok|]. intros x v Hx Hv Hs. exfalso.
  unfold csn_word in Hv. cbn in Hv.
  destruct (fresh !! TransactionIdToCSNPage x) as [pg|] eqn:Hp; [|done]. injection Hv as <-.
  assert (pg = empty_page) as ->.
  { unfold fresh in Hp. apply lookup_insert_Some in Hp as [[_ <-]|[_ [_ <-]%lookup_singleton_Some]]; done. }
  unfold aget, empty_page in Hs. destruct (replicate _ 0 !! _) as [z|] eqn:Hz; [|done].
  apply lookup_replicate in Hz as [-> _]. done.
Qed.

Lemma csn_log_invariant_witness :
  ∃ w', runs (SubTransSetParent csn_demo_env 1024 1023) (csn_demo_state fresh) tt w' ∧ csn_inv w'.
Proof.
  destruct (set_parent_runs csn_demo_env 1024 1023 (csn_demo_state fresh) 0) as (w' & Hr & _);
    [done|apply fresh_inv|done|].
  exists w'. split; [exact Hr|].
  apply (csn_log_invariant csn_demo_env (csn_demo_state fresh)); [|apply fresh_inv].
  eapply rtc_l; [|apply rtc_refl].
  apply (step_parent csn_demo_env 1024 1023); [done|lia|lia|by eexists|by eexists|exact Hr].
Defined.

Lemma nested_lookup_terminates_witness :
  ∃ n c, ∀ fuel, (n ≤ fuel)%nat →
    ∃ w', runs (CSNLogGetNestCommitSeqNo fuel csn_demo_env 1024) (csn_demo_state fresh) c w' ∧
      same_log (csn_demo_state fresh) w'.
Proof.
  apply nested_lookup_terminates; [apply fresh_inv|lia|by eexists].
Defined.

Lemma topmost_transaction_spec_witness :
  ∃ t w', runs (SubTransGetTopmostTransaction 1025 csn_demo_env 1024) (csn_demo_state fresh) t w' ∧
    rtc (csn_parent (csn_word (cstore (csn_demo_state fresh)))) 1024 t.
Proof.
  destruct (topmost_transaction_spec csn_demo_env 1025 1024 (csn_demo_state fresh))
    as (t & w' & Hr & _ & Hrtc & _); [apply fresh_inv|lia|by eexists|lia|].
  exists t, w'. split; [exact Hr|exact Hrtc].
Defined.

(** Transaction 10 is its own parent. *)
Lemma topmost_transaction_ends_witness :
  let w := csn_demo_state {[ 0 := aset empty_page 10 (subtrans_mark 10); 1 := empty_page ]} in
  (SubTransGetTopmostTransaction 11 csn_demo_env 10 w).1 ≠ NoFuel.
Proof.
  apply topmost_transaction_ends; [by eapply two_pages_ok|lia| |lia].
  intros y Hy. unfold csn_word. replace (TransactionIdToCSNPage y) with 0; [by eexists|].
  unfold TransactionIdToCSNPage, FirstNormalTransactionId in *. change CSNLOG_XACTS_PER_PAGE with 1024.
  rewrite Z.div_small; lia.
Defined.

Lemma extend_csnlog_spec_witness :
  ∃ w', runs (ExtendCSNLOG csn_demo_env 2048) (csn_demo_state fresh) tt w' ∧
    is_Some (csn_word (cstore w') 2048).
Proof.
  destruct (extend_csnlog_spec csn_demo_env 2048 (csn_demo_state fresh))
    as (w' & Hr & _ & Hl & _ & Hnew); [by eapply two_pages_ok|lia|cbn; lia|done..|].
  exists w'. split; [exact Hr|]. apply Hnew. split; [done|exact Hl].
Defined.

Lemma nested_lookup_locked_witness :
  let env := {| csn_node := csn_primary; NUM_CSNLOG_PARTITIONS := 512; bank_mask := 0; procs := [];
                TransactionXmin := 3; sn_recent_global_xmin := 0 |} in
  unlocked (CSNLogGetNestCommitSeqNo 2 env 1024 (csn_demo_state announced)).2 = [].
Proof.
  intros env.
  apply (nested_lookup_locked env 2 1024 (csn_demo_state announced)
    (Z.lor 77 COMMITSEQNO_COMMIT_INPROGRESS)); [|vm_compute; reflexivity].
  intros p q Hpq. unfold csn_bank_lock. cbn [bank_mask env]. by rewrite Hpq, !Z.land_0_r.
Defined.

(** With the default 512 partitions, a child on page 512 (partition 0, bank 1)
    of a transaction on page 0 (partition 0, bank 0): the lookup reaches page 0
    holding only the lock of bank 1. *)
Theorem nested_lookup_without_lock :
  let mark := Z.lor (subtrans_mark 3) COMMITSEQNO_COMMIT_INPROGRESS in
  let w := csn_demo_state {[ 0 := aset empty_page 3 77; 512 := aset empty_page 0 mark ]} in
  unlocked (CSNLogGetNestCommitSeqNo 2 csn_demo_env 524288 w).2 = [0].
Proof. vm_compute. reflexivity. Qed.

End CsnWitness.
