(* ===== verification/Transam.v ===== *)
(** * Transaction status, as the rest of the server asks for it

    [src/gausskernel/storage/access/transam/transam.cpp]: the questions
    [TransactionIdDidCommit] / [TransactionIdDidAbort] /
    [TransactionIdGetCommitSeqNo] / [TransactionIdGetStatus], answered from the
    commit log and the CSN log through single-entry caches, and the completion
    of a transaction tree in both logs.

    The state is the commit log, the CSN log and the caches of the thread. *)

From S2P Require Import Prelude TransamDefs SlruInterface Clog CsnLog.

(** The single-entry caches ([knl_t_xact_context]). *)
Record fetch_cache := {
  cachedFetchXid : Z;
  cachedFetchXidStatus : Z;
  cachedCommitLSN : Z;
  latestFetchXid : Z;
  latestFetchXidStatus : Z;
  cachedFetchCSNXid : Z;
  cachedFetchCSN : Z;
  latestFetchCSNXid : Z;
  latestFetchCSN : Z;
}.

(** What the questions read besides the logs. [recentGlobalXmin n]: the value of
    the atomic read on the [n]-th try. [slru_open_failed]: the cause the cache
    recorded for a failed read. [GetReplicationSlotCatalogXmin]: the oldest xmin
    of the replication slots. *)
Record xact_env := {
  e_clog : clog_env;
  e_csn : csn_env;
  GTM_LITE_MODE : bool;
  DMS_worker : bool;
  IS_CN_DISASTER_RECOVER_MODE : bool;
  slru_open_failed : bool;
  recentGlobalXmin : nat → Z;
  recentLocalXmin : Z;
  RecentXmin : Z;
  GetReplicationSlotCatalogXmin : Z;
  globalRecycleXid : Z;
  startupMaxXid : Z;
  read_uncommitted : bool;
}.

Section Transam.
Context {S1 S2 : Type} `{!SlruOps S1} `{!SlruOps S2}.

Record xact_state := {
  clog : clog_state S1;
  csnlog : csn_state S2;
  cache : fetch_cache;
}.

Definition on_clog {A} (m : M (clog_state S1) A) : M xact_state A := λ w,
  let '(r, c) := m (clog w) in (r, {| clog := c; csnlog := csnlog w; cache := cache w |}).
Definition on_csnlog {A} (m : M (csn_state S2) A) : M xact_state A := λ w,
  let '(r, c) := m (csnlog w) in (r, {| clog := clog w; csnlog := c; cache := cache w |}).
Definition on_cache (f : fetch_cache → fetch_cache) : M xact_state unit :=
  modify (λ w, {| clog := clog w; csnlog := csnlog w; cache := f (cache w) |}).

(** ** The caches *)

Definition set_latest (xid status : Z) (c : fetch_cache) : fetch_cache :=
  {| cachedFetchXid := cachedFetchXid c; cachedFetchXidStatus := cachedFetchXidStatus c;
     cachedCommitLSN := cachedCommitLSN c; latestFetchXid := xid; latestFetchXidStatus := status;
     cachedFetchCSNXid := cachedFetchCSNXid c; cachedFetchCSN := cachedFetchCSN c;
     latestFetchCSNXid := latestFetchCSNXid c; latestFetchCSN := latestFetchCSN c |}.
Definition set_cached (xid status lsn : Z) (c : fetch_cache) : fetch_cache :=
  {| cachedFetchXid := xid; cachedFetchXidStatus := status;
     cachedCommitLSN := lsn; latestFetchXid := latestFetchXid c;
     latestFetchXidStatus := latestFetchXidStatus c;
     cachedFetchCSNXid := cachedFetchCSNXid c; cachedFetchCSN := cachedFetchCSN c;
     latestFetchCSNXid := latestFetchCSNXid c; latestFetchCSN := latestFetchCSN c |}.
Definition set_latest_csn (xid csn : Z) (c : fetch_cache) : fetch_cache :=
  {| cachedFetchXid := cachedFetchXid c; cachedFetchXidStatus := cachedFetchXidStatus c;
     cachedCommitLSN := cachedCommitLSN c; latestFetchXid := latestFetchXid c;
     latestFetchXidStatus := latestFetchXidStatus c;
     cachedFetchCSNXid := cachedFetchCSNXid c; cachedFetchCSN := cachedFetchCSN c;
     latestFetchCSNXid := xid; latestFetchCSN := csn |}.
Definition set_cached_csn (xid csn : Z) (c : fetch_cache) : fetch_cache :=
  {| cachedFetchXid := cachedFetchXid c; cachedFetchXidStatus := cachedFetchXidStatus c;
     cachedCommitLSN := cachedCommitLSN c; latestFetchXid := latestFetchXid c;
     latestFetchXidStatus := latestFetchXidStatus c;
     cachedFetchCSNXid := xid; cachedFetchCSN := csn;
     latestFetchCSNXid := latestFetchCSNXid c; latestFetchCSN := latestFetchCSN c |}.

Definition SetLatestFetchState (transactionId result : Z) : M xact_state unit :=
  on_cache (set_latest_csn transactionId result).

(** ** Commit sequence numbers *)

Definition GetCSNByCLog (transactionId : Z) (isCommit : bool) : M xact_state Z :=
  if isCommit then mret COMMITSEQNO_FROZEN
  else
    r ← on_clog (CLogGetStatus transactionId);
    if r.1 =? CLOG_XID_STATUS_COMMITTED then mret COMMITSEQNO_FROZEN else mret COMMITSEQNO_ABORTED.

Definition FetchCSNFromCache (env : xact_env) (transactionId : Z) (snapshot : option SnapshotData)
    (isMvcc : bool) : M xact_state Z :=
  c ← gets cache;
  let TRY_USE_CACHE :=
    SetLatestFetchState (cachedFetchCSNXid c) (cachedFetchCSN c) ≫= λ _, mret (cachedFetchCSN c) in
  if negb (TransactionIdEquals transactionId (cachedFetchCSNXid c)) then mret InvalidCommitSeqNo
  else match snapshot with
  | None => TRY_USE_CACHE
  | Some sn =>
      if IsVersionMVCCSnapshot sn || bool_decide (satisfies sn = SNAPSHOT_DECODE_MVCC)
      then mret InvalidCommitSeqNo
      else if negb isMvcc || GTM_LITE_MODE env then TRY_USE_CACHE
      else if IsMVCCSnapshot sn && negb (TransactionIdPrecedes transactionId (snap_xmin sn))
              && (cachedFetchCSN c =? COMMITSEQNO_FROZEN)
      then mret InvalidCommitSeqNo
      else TRY_USE_CACHE
  end.

(** The xid below which transactions are looked up in the commit log. *)
Definition clog_horizon (env : xact_env) (snapshot : option SnapshotData) (isMvcc : bool)
    (retry_times : nat) : Z :=
  match snapshot with
  | Some sn =>
      if bool_decide (satisfies sn = SNAPSHOT_DECODE_MVCC) then GetReplicationSlotCatalogXmin env
      else if negb isMvcc || GTM_LITE_MODE env then
        if negb (TransactionIdIsValid (recentGlobalXmin env retry_times)) then recentLocalXmin env
        else recentGlobalXmin env retry_times
      else if IsMVCCSnapshot sn then snap_xmin sn
      else RecentXmin env
  | None =>
      if negb isMvcc || GTM_LITE_MODE env then
        if negb (TransactionIdIsValid (recentGlobalXmin env retry_times)) then recentLocalXmin env
        else recentGlobalXmin env retry_times
      else RecentXmin env
  end.

(** [PG_TRY] around the CSN log. *)
Definition xact_try {A} (m h : M xact_state A) : M xact_state A := λ w,
  match m w with
  | (Ereport ERROR, w') => h w'
  | r => r
  end.

(** The two rounds of [RETRY]: [tries] is how many more are allowed. *)
Fixpoint fetch_csn (fuel : nat) (env : xact_env) (transactionId : Z) (isCommit isMvcc isNest : bool)
    (snapshot : option SnapshotData) (retry_times tries : nat) : M xact_state Z :=
  let xid := clog_horizon env snapshot isMvcc retry_times in
  if negb (IS_MULTI_DISASTER_RECOVER_MODE (e_csn env))
     && match snapshot with None => true | Some sn => negb (IsVersionMVCCSnapshot sn) end
     && TransactionIdPrecedes transactionId xid
  then GetCSNByCLog transactionId isCommit
  else
    xact_try
      (on_csnlog (if isNest then CSNLogGetNestCommitSeqNo fuel (e_csn env) transactionId
                  else CSNLogGetCommitSeqNo (e_csn env) transactionId))
      (if (IS_CN_DISASTER_RECOVER_MODE env || IS_MULTI_DISASTER_RECOVER_MODE (e_csn env))
          && slru_open_failed env
       then GetCSNByCLog transactionId isCommit
       else match tries with
       | Datatypes.S tries =>
           if GTM_LITE_MODE env || DMS_worker env
           then fetch_csn fuel env transactionId isCommit isMvcc isNest snapshot
                  (Datatypes.S retry_times) tries
           else raise ERROR
       | O => raise ERROR
       end).

Definition TransactionIdGetCommitSeqNo (fuel : nat) (env : xact_env) (transactionId : Z)
    (isCommit isMvcc isNest : bool) (snapshot : option SnapshotData) : M xact_state Z :=
  cacheCsn ← FetchCSNFromCache env transactionId snapshot isMvcc;
  if negb (cacheCsn =? InvalidCommitSeqNo) then mret cacheCsn
  else if negb (TransactionIdIsNormal transactionId) then
    c ← gets cache;
    SetLatestFetchState InvalidTransactionId (latestFetchCSN c) ≫= λ _,
    if TransactionIdEquals transactionId BootstrapTransactionId
       || TransactionIdEquals transactionId FrozenTransactionId
    then mret COMMITSEQNO_FROZEN else mret COMMITSEQNO_ABORTED
  else
    result ← fetch_csn fuel env transactionId isCommit isMvcc isNest snapshot 0 1;
    (if COMMITSEQNO_IS_COMMITTED result || COMMITSEQNO_IS_ABORTED result
     then on_cache (set_cached_csn transactionId result) else skip) ≫= λ _,
    SetLatestFetchState transactionId result ≫= λ _,
    mret result.

(** [miss_global_xmin] and [gtm_gloabl_xmin] never change in this function. *)
Definition TransactionIdGetCommitSeqNoForGSClean (fuel : nat) (env : xact_env) (transactionId : Z)
    : M xact_state Z :=
  let xid := recentGlobalXmin env 0 in
  let xid := if negb (TransactionIdIsValid xid) then recentLocalXmin env else xid in
  if TransactionIdPrecedes transactionId xid then mret COMMITSEQNO_FROZEN
  else on_csnlog (CSNLogGetNestCommitSeqNo fuel (e_csn env) transactionId).

(** ** Commit and abort *)

Definition TransactionLogFetch (transactionId : Z) : M xact_state Z :=
  c ← gets cache;
  if TransactionIdEquals transactionId (cachedFetchXid c) then
    on_cache (set_latest (cachedFetchXid c) (cachedFetchXidStatus c)) ≫= λ _,
    mret (cachedFetchXidStatus c)
  else if negb (TransactionIdIsNormal transactionId) then
    on_cache (set_latest InvalidTransactionId (latestFetchXidStatus c)) ≫= λ _,
    if TransactionIdEquals transactionId BootstrapTransactionId then mret CLOG_XID_STATUS_COMMITTED
    else if TransactionIdEquals transactionId FrozenTransactionId then mret CLOG_XID_STATUS_COMMITTED
    else mret CLOG_XID_STATUS_ABORTED
  else
    r ← on_clog (CLogGetStatus transactionId);
    let '(xidstatus, xidlsn) := r in
    (if negb (xidstatus =? CLOG_XID_STATUS_IN_PROGRESS)
        && negb (xidstatus =? CLOG_XID_STATUS_SUB_COMMITTED)
     then on_cache (set_cached transactionId xidstatus xidlsn) else skip) ≫= λ _,
    on_cache (set_latest transactionId xidstatus) ≫= λ _,
    mret xidstatus.

(** On a node without DMS; the recursion follows the parents. *)
Fixpoint TransactionIdDidCommit (fuel : nat) (env : xact_env) (transactionId : Z) : M xact_state bool :=
  match fuel with
  | O => nofuel
  | Datatypes.S fuel =>
      xidstatus ← TransactionLogFetch transactionId;
      if xidstatus =? CLOG_XID_STATUS_COMMITTED then mret true
      else if xidstatus =? CLOG_XID_STATUS_SUB_COMMITTED then
        if TransactionIdPrecedes transactionId (TransactionXmin (e_csn env)) then mret false
        else
          r ← on_csnlog (SubTransGetParent (e_csn env) transactionId false);
          if negb (TransactionIdIsValid r.1) then
            mret (bool_decide (r.2 = Some XID_COMMITTED))
          else TransactionIdDidCommit fuel env r.1
      else mret false
  end.

Fixpoint TransactionIdDidAbort (fuel : nat) (env : xact_env) (transactionId : Z) : M xact_state bool :=
  match fuel with
  | O => nofuel
  | Datatypes.S fuel =>
      xidstatus ← TransactionLogFetch transactionId;
      if xidstatus =? CLOG_XID_STATUS_ABORTED then mret true
      else if xidstatus =? CLOG_XID_STATUS_SUB_COMMITTED then
        if TransactionIdPrecedes transactionId (TransactionXmin (e_csn env)) then mret true
        else
          r ← on_csnlog (SubTransGetParent (e_csn env) transactionId false);
          if negb (TransactionIdIsValid r.1) then
            if bool_decide (r.2 = Some XID_COMMITTED) then mret false else mret true
          else TransactionIdDidAbort fuel env r.1
      else mret false
  end.

Definition UHeapTransactionIdDidCommit (fuel : nat) (env : xact_env) (transactionId : Z)
    : M xact_state bool :=
  if transactionId =? FrozenTransactionId then mret true
  else if TransactionIdIsNormal transactionId
          && TransactionIdPrecedes transactionId (globalRecycleXid env)
          && negb (RecoveryInProgress (e_clog env))
  then mret true
  else TransactionIdDidCommit fuel env transactionId.

Definition LatestFetchTransactionIdDidAbort (env : xact_env) (transactionId : Z) : M xact_state bool :=
  c ← gets cache;
  if negb (TransactionIdIsValid (startupMaxXid env))
     || TransactionIdPrecedes transactionId (startupMaxXid env)
     || (read_uncommitted env || useLocalSnapshot (e_csn env))
  then mret true
  else if negb (TransactionIdEquals transactionId (latestFetchXid c)) then mret true
  else if (latestFetchXidStatus c =? CLOG_XID_STATUS_ABORTED)
          || (latestFetchXidStatus c =? CLOG_XID_STATUS_SUB_COMMITTED)
  then mret true
  else mret (TransactionIdEquals transactionId (latestFetchCSNXid c)
             && COMMITSEQNO_IS_ABORTED (latestFetchCSN c)).

Definition LatestFetchCSNDidAbort (env : xact_env) (transactionId : Z) : M xact_state bool :=
  c ← gets cache;
  if read_uncommitted env || useLocalSnapshot (e_csn env) then mret true
  else if negb (TransactionIdEquals transactionId (latestFetchCSNXid c)) then mret true
  else mret (COMMITSEQNO_IS_ABORTED (latestFetchCSN c)).

Definition TransactionIdIsKnownCompleted (transactionId : Z) : M xact_state bool :=
  gets (λ w, TransactionIdEquals transactionId (cachedFetchXid (cache w))
             || TransactionIdEquals transactionId (cachedFetchCSNXid (cache w))).

(** ** Completion of a tree *)

(** [UpdateCSNLogAtTransactionEND] (procarray.cpp) of the single-node server. *)
Definition UpdateCSNLogAtTransactionEND (env : xact_env) (xid : Z) (subXids : list Z) (csn : Z)
    (isCommit : bool) : M xact_state unit :=
  if TransactionIdIsNormal xid && isCommit
  then on_csnlog (CSNLogSetCommitSeqNo (e_csn env) xid subXids
         (Z.land csn (lnotw 64 COMMITSEQNO_COMMIT_INPROGRESS)))
  else skip.

Definition TransactionIdAsyncCommitTree (env : xact_env) (xid : Z) (xids : list Z) (lsn csn : Z)
    : M xact_state unit :=
  on_clog (CLogSetTreeStatus (e_clog env) xid xids CLOG_XID_STATUS_COMMITTED lsn) ≫= λ _,
  if RecoveryInProgress (e_clog env) then
    if 0 <? csn then on_csnlog (CSNLogSetCommitSeqNo (e_csn env) xid xids csn) else skip
  else UpdateCSNLogAtTransactionEND env xid xids csn true.

Definition TransactionIdCommitTree (env : xact_env) (xid : Z) (xids : list Z) (csn : Z)
    : M xact_state unit :=
  TransactionIdAsyncCommitTree env xid xids 0 csn.

Definition TransactionIdAbortTree (env : xact_env) (xid : Z) (xids : list Z) : M xact_state unit :=
  on_clog (CLogSetTreeStatus (e_clog env) xid xids CLOG_XID_STATUS_ABORTED 0) ≫= λ _,
  on_csnlog (CSNLogSetCommitSeqNo (e_csn env) xid xids COMMITSEQNO_ABORTED).

Definition TransactionIdGetCommitLSN (xid : Z) : M xact_state Z :=
  c ← gets cache;
  if TransactionIdEquals xid (cachedFetchXid c) then mret (cachedCommitLSN c)
  else if negb (TransactionIdIsNormal xid) then mret 0
  else r ← on_clog (CLogGetStatus xid); mret r.2.

Definition TransactionIdGetStatus (fuel : nat) (env : xact_env) (transactionId : Z)
    : M xact_state TransactionIdStatus :=
  csn ← TransactionIdGetCommitSeqNo fuel env transactionId false true true None;
  if COMMITSEQNO_IS_COMMITTED csn then mret XID_COMMITTED
  else if COMMITSEQNO_IS_ABORTED csn then mret XID_ABORTED
  else mret XID_INPROGRESS.

End Transam.
Arguments xact_state : clear implicits.

(** ** What the answers mean

    The logs read as maps: [σ] from xids to commit-log statuses, [κ] from xids
    to CSN words. *)

Definition raw_status (σ : Z → option Z) (xid : Z) : option Z :=
  if TransactionIdIsNormal xid then σ xid
  else if (xid =? BootstrapTransactionId) || (xid =? FrozenTransactionId)
  then Some CLOG_XID_STATUS_COMMITTED else Some CLOG_XID_STATUS_ABORTED.

(** The status that decides a transaction's fate: its own, or that of the
    nearest ancestor that is not merely sub-committed. A sub-committed
    transaction older than [xmin], or one whose parent link is gone, is settled
    by its CSN word. *)
Fixpoint fate (fuel : nat) (σ κ : Z → option Z) (xmin xid : Z) : option Z :=
  match fuel with
  | O => None
  | S fuel =>
      st ← raw_status σ xid;
      if st =? CLOG_XID_STATUS_SUB_COMMITTED then
        if xid <? xmin then Some CLOG_XID_STATUS_ABORTED
        else
          v ← raw_csn κ xid;
          let parent := if COMMITSEQNO_IS_SUBTRANS v then GET_PARENTXID v else InvalidTransactionId in
          if parent =? InvalidTransactionId then
            Some (if negb (COMMITSEQNO_IS_SUBTRANS v) && COMMITSEQNO_IS_COMMITTED v
                  then CLOG_XID_STATUS_COMMITTED else CLOG_XID_STATUS_ABORTED)
          else fate fuel σ κ xmin parent
      else Some st
  end.

Lemma raw_status_ext σ σ' x : (∀ y, 0 ≤ y → σ y = σ' y) → 0 ≤ x → raw_status σ x = raw_status σ' x.
Proof. intros Heq Hx. unfold raw_status. case_bool; [|done]. by apply Heq. Qed.

Lemma fate_ext fuel σ σ' κ κ' xmin x :
  (∀ y, 0 ≤ y → σ y = σ' y) → (∀ y, 0 ≤ y → κ y = κ' y) → 0 ≤ x →
  fate fuel σ κ xmin x = fate fuel σ' κ' xmin x.
Proof.
  intros Hσ Hκ. revert x. induction fuel as [|fuel IH]; intros x Hx; [done|]. cbn [fate].
  rewrite (raw_status_ext σ σ') by done. destruct (raw_status σ' x) as [st|]; [|done]. cbn.
  case_bool; [|done]. case_bool; [done|].
  assert (raw_csn κ x = raw_csn κ' x) as -> by (unfold raw_csn; by rewrite Hκ).
  destruct (raw_csn κ' x) as [v|]; [|done]. cbn. case_bool; [done|]. apply IH.
  case_bool; [apply get_parentxid_nonneg|done].
Qed.

Lemma fate_more fuel fuel' σ κ xmin x c :
  fate fuel σ κ xmin x = Some c → (fuel ≤ fuel')%nat → fate fuel' σ κ xmin x = Some c.
Proof.
  revert fuel' x. induction fuel as [|fuel IH]; intros fuel' x Hc Hle; [done|].
  destruct fuel' as [|fuel']; [lia|]. cbn [fate] in *.
  destruct (raw_status σ x) as [st|]; [|done]. cbn in *. case_bool; [|done]. case_bool; [done|].
  destruct (raw_csn κ x) as [v|]; [|done]. cbn in *. case_bool; [done|].
  apply IH; [done|lia].
Qed.

Lemma raw_status_cases σ x st :
  raw_status σ x = Some st → TransactionIdIsNormal x = true ∧ σ x = Some st ∨
    TransactionIdIsNormal x = false ∧
    (st = CLOG_XID_STATUS_COMMITTED ∨ st = CLOG_XID_STATUS_ABORTED).
Proof.
  unfold raw_status. case_bool; [by left|]. right. split; [done|]. case_bool; simplify_eq; auto.
Qed.

Section TransamProofs.
Context {S1 S2 : Type} `{!SlruOps S1} `{!SlruOps S2}
        `{!SlruSpec S1 BLCKSZ} `{!SlruSpec S2 CSNLOG_XACTS_PER_PAGE}.
Implicit Types (w : xact_state S1 S2) (env : xact_env).

Definition σ_of w : Z → option Z := clog_status (store (clog w)).
Definition κ_of w : Z → option Z := csn_word (cstore (csnlog w)).

(** The status cache holds the final status of the transaction it names. *)
Definition cache_ok w : Prop :=
  cachedFetchXid (cache w) ≠ InvalidTransactionId →
  raw_status (σ_of w) (cachedFetchXid (cache w)) = Some (cachedFetchXidStatus (cache w)) ∧
  (cachedFetchXidStatus (cache w) = CLOG_XID_STATUS_COMMITTED ∨
   cachedFetchXidStatus (cache w) = CLOG_XID_STATUS_ABORTED).

Definition xact_ok w : Prop :=
  slru_ok (store (clog w)) ∧ slru_ok (cstore (csnlog w)) ∧ cache_ok w.

(** A question changes neither log. *)
Definition same_logs w w' : Prop :=
  (∀ y, σ_of w' y = σ_of w y) ∧ (∀ y, κ_of w' y = κ_of w y) ∧
  trace (clog w') = trace (clog w) ∧ ctrace (csnlog w') = ctrace (csnlog w).

Lemma same_logs_refl w : same_logs w w.
Proof. done. Qed.

Lemma same_logs_trans w1 w2 w3 : same_logs w1 w2 → same_logs w2 w3 → same_logs w1 w3.
Proof.
  intros (Ha & Hb & ? & ?) (Hc & Hd & ? & ?).
  split_and!; [intros y; by rewrite Hc|intros y; by rewrite Hd|congruence|congruence].
Qed.

Lemma cache_ok_ext w w' :
  (∀ y, σ_of w' y = σ_of w y) →
  cachedFetchXid (cache w') = cachedFetchXid (cache w) →
  cachedFetchXidStatus (cache w') = cachedFetchXidStatus (cache w) → cache_ok w → cache_ok w'.
Proof.
  unfold cache_ok. intros Hσ -> -> Hok Hx. destruct (Hok Hx) as [Hs ?]. split; [|done].
  rewrite <- Hs. unfold raw_status. by rewrite Hσ.
Qed.

Lemma on_clog_runs {A} (m : M (clog_state S1) A) w a c :
  runs m (clog w) a c → runs (on_clog m) w a {| clog := c; csnlog := csnlog w; cache := cache w |}.
Proof. unfold runs, on_clog. by intros ->. Qed.

Lemma on_csnlog_runs {A} (m : M (csn_state S2) A) w a c :
  runs m (csnlog w) a c → runs (on_csnlog m) w a {| clog := clog w; csnlog := c; cache := cache w |}.
Proof. unfold runs, on_csnlog. by intros ->. Qed.

Lemma clog_get_runs x w st :
  xact_ok w → σ_of w x = Some st →
  ∃ lsn w', runs (on_clog (CLogGetStatus x)) w (st, lsn) w' ∧ xact_ok w' ∧ same_logs w w' ∧
    cache w' = cache w.
Proof.
  intros (Hok1 & Hok2 & Hc) Hst. destruct (get_status_runs x (clog w) st Hok1 Hst)
    as (lsn & c' & Hr & Hok' & Ht & Heq).
  exists lsn. eexists. split; [by apply on_clog_runs|]. unfold xact_ok, same_logs.
  split_and!; try done. by apply (cache_ok_ext w).
Qed.

(** Changing the caches only. *)
Lemma on_cache_runs f w :
  (cachedFetchXid (f (cache w)) = cachedFetchXid (cache w) ∧
   cachedFetchXidStatus (f (cache w)) = cachedFetchXidStatus (cache w)) → xact_ok w →
  ∃ w', runs (on_cache f) w tt w' ∧ xact_ok w' ∧ same_logs w w' ∧ cache w' = f (cache w).
Proof.
  intros [Hx Hs] (H1 & H2 & H3). eexists. split; [apply runs_modify|]. unfold xact_ok, same_logs.
  split_and!; try done. by apply (cache_ok_ext w).
Qed.

Definition status_final (st : Z) : bool :=
  negb (st =? CLOG_XID_STATUS_IN_PROGRESS) && negb (st =? CLOG_XID_STATUS_SUB_COMMITTED).

(** A final status is cached. *)
Lemma store_status_runs x st lsn w :
  xact_ok w → TransactionIdIsNormal x = true → σ_of w x = Some st →
  ∃ w', runs (if status_final st then on_cache (set_cached x st lsn) else skip) w tt w' ∧
    xact_ok w' ∧ same_logs w w'.
Proof.
  intros (H1 & H2 & H3) Hn Hst. unfold status_final. case_bool; [|by exists w].
  eexists. split; [apply runs_modify|]. split; [|done]. unfold xact_ok. split_and!; try done.
  intros _. cbn. unfold raw_status. rewrite Hn. split; [done|].
  apply clog_status_range in Hst. unfold CLOG_XID_STATUS_IN_PROGRESS, CLOG_XID_STATUS_SUB_COMMITTED,
    CLOG_XID_STATUS_COMMITTED, CLOG_XID_STATUS_ABORTED in *. lia.
Qed.

(** The status of a valid xid, through the cache. *)
Lemma log_fetch_runs x w st :
  xact_ok w → 0 < x → raw_status (σ_of w) x = Some st →
  ∃ w', runs (TransactionLogFetch x) w st w' ∧ xact_ok w' ∧ same_logs w w'.
Proof.
  intros Hok Hx Hst. unfold TransactionLogFetch.
  destruct (TransactionIdEquals x (cachedFetchXid (cache w))) eqn:Heq.
  { assert (cachedFetchXidStatus (cache w) = st) as Hcs.
    { apply Z.eqb_eq in Heq. destruct Hok as (_ & _ & Hc).
      destruct Hc as [Hcs _]; [unfold InvalidTransactionId; lia|]. rewrite <- Heq, Hst in Hcs. congruence. }
    destruct (on_cache_runs (set_latest (cachedFetchXid (cache w)) (cachedFetchXidStatus (cache w))) w)
      as (w1 & Hr1 & Hok1 & Hs1 & _); try done.
    exists w1. split; [|done]. eapply runs_bind; [done|]. cbn beta. rewrite Heq.
    eapply runs_bind; [exact Hr1|]. by rewrite Hcs. }
  destruct (TransactionIdIsNormal x) eqn:Hn; unfold raw_status in Hst; rewrite Hn in Hst.
  - destruct (clog_get_runs x w st Hok Hst) as (lsn & w1 & Hr1 & Hok1 & Hs1 & _).
    destruct (store_status_runs x st lsn w1 Hok1 Hn) as (w2 & Hr2 & Hok2 & Hs2).
    { by rewrite (proj1 Hs1). }
    destruct (on_cache_runs (set_latest x st) w2) as (w3 & Hr3 & Hok3 & Hs3 & _); try done.
    exists w3. split; [|split; [done|by repeat (eapply same_logs_trans; [done|])]].
    eapply runs_bind; [done|]. cbn beta. rewrite Heq. cbn [negb].
    eapply runs_bind; [exact Hr1|]. cbn beta iota. eapply runs_bind; [exact Hr2|].
    by eapply runs_bind.
  - destruct (on_cache_runs (set_latest InvalidTransactionId (latestFetchXidStatus (cache w))) w)
      as (w1 & Hr1 & Hok1 & Hs1 & _); try done.
    exists w1. split; [|done]. eapply runs_bind; [done|]. cbn beta. rewrite Heq. cbn [negb].
    eapply runs_bind; [exact Hr1|]. unfold TransactionIdEquals.
    destruct (x =? BootstrapTransactionId), (x =? FrozenTransactionId); cbn in Hst;
      injection Hst as <-; done.
Qed.

Lemma xact_get_parent_runs env x w v :
  xact_ok w → 0 ≤ x → raw_csn (κ_of w) x = Some v →
  ∃ w' st, runs (on_csnlog (SubTransGetParent (e_csn env) x false)) w
      (if COMMITSEQNO_IS_SUBTRANS v then GET_PARENTXID v else InvalidTransactionId, st) w' ∧
    xact_ok w' ∧ same_logs w w' ∧
    (st = Some XID_COMMITTED ↔ negb (COMMITSEQNO_IS_SUBTRANS v) && COMMITSEQNO_IS_COMMITTED v = true).
Proof.
  intros (H1 & H2 & H3) Hx Hv. destruct (get_csn_runs (e_csn env) x (csnlog w) v H2 Hx Hv) as (c1 & Hr1 & Hl1).
  assert (xact_ok {| clog := clog w; csnlog := c1; cache := cache w |} ∧
    same_logs w {| clog := clog w; csnlog := c1; cache := cache w |}) as [Hok Hs].
  { split; [unfold xact_ok; split_and!; try done; apply Hl1|]. unfold same_logs.
    split_and!; try done; [|apply Hl1]. intros y. by apply same_log_word. }
  destruct (COMMITSEQNO_IS_SUBTRANS v) eqn:Hs'.
  - exists {| clog := clog w; csnlog := c1; cache := cache w |}, None. split_and!; try done.
    apply on_csnlog_runs. eapply runs_bind; [exact Hr1|]. cbn beta. by rewrite Hs'.
  - eexists {| clog := clog w; csnlog := c1; cache := cache w |}, _. split_and!; try done.
    + apply on_csnlog_runs. eapply runs_bind; [exact Hr1|]. cbn beta. by rewrite Hs'.
    + cbn [negb andb]. destruct (COMMITSEQNO_IS_ABORTED v) eqn:Ha.
      * apply Z.eqb_eq in Ha. subst v. done.
      * destruct (COMMITSEQNO_IS_COMMITTED v); done.
Qed.

(** One round of either question: the status, and the parent when the status is
    sub-committed. *)
Lemma fetch_step fuel env x w c :
  xact_ok w → 0 < x → fate (S fuel) (σ_of w) (κ_of w) (TransactionXmin (e_csn env)) x = Some c →
  ∃ st w1, runs (TransactionLogFetch x) w st w1 ∧ xact_ok w1 ∧ same_logs w w1 ∧
    ((st ≠ CLOG_XID_STATUS_SUB_COMMITTED ∧ c = st) ∨
     (st = CLOG_XID_STATUS_SUB_COMMITTED ∧ TransactionIdPrecedes x (TransactionXmin (e_csn env)) = true ∧
      c = CLOG_XID_STATUS_ABORTED) ∨
     (st = CLOG_XID_STATUS_SUB_COMMITTED ∧ TransactionIdPrecedes x (TransactionXmin (e_csn env)) = false ∧
      ∃ p st2 w2, runs (on_csnlog (SubTransGetParent (e_csn env) x false)) w1 (p, st2) w2 ∧
        xact_ok w2 ∧ same_logs w w2 ∧
        ((TransactionIdIsValid p = false ∧ c = if bool_decide (st2 = Some XID_COMMITTED)
            then CLOG_XID_STATUS_COMMITTED else CLOG_XID_STATUS_ABORTED) ∨
         (TransactionIdIsValid p = true ∧ 0 < p ∧
          fate fuel (σ_of w2) (κ_of w2) (TransactionXmin (e_csn env)) p = Some c)))).
Proof.
  intros Hok Hx Hc. cbn [fate] in Hc.
  destruct (raw_status (σ_of w) x) as [st|] eqn:Hst; [|done]. cbn [mbind option_bind] in Hc.
  destruct (log_fetch_runs x w st Hok Hx Hst) as (w1 & Hr1 & Hok1 & Hs1).
  exists st, w1. split_and!; try done.
  destruct (Z.eqb_spec st CLOG_XID_STATUS_SUB_COMMITTED) as [->|Hne]; [right|left; split; congruence].
  unfold TransactionIdPrecedes.
  destruct (x <? TransactionXmin (e_csn env)) eqn:Hmin; [left; split_and!; congruence|right].
  destruct (raw_csn (κ_of w) x) as [v|] eqn:Hv; [|done]. cbn [mbind option_bind] in Hc.
  destruct (xact_get_parent_runs env x w1 v Hok1 ltac:(lia)) as (w2 & st2 & Hr2 & Hok2 & Hs2 & Hst2).
  { rewrite <- Hv. apply raw_csn_ext. apply Hs1. }
  set (parent := if COMMITSEQNO_IS_SUBTRANS v then _ else _) in *.
  pose proof (same_logs_trans _ _ _ Hs1 Hs2) as Hs12.
  split_and!; try done. exists parent, st2, w2. split_and!; try done. unfold TransactionIdIsValid.
  destruct (Z.eqb_spec parent InvalidTransactionId) as [Hp|Hp]; [left|right]; (split; [done|]).
  - injection Hc as <-.
    destruct (negb (COMMITSEQNO_IS_SUBTRANS v) && _); case_bool_decide as Hd; try done.
    + by destruct Hd; apply Hst2.
    + by apply Hst2 in Hd.
  - assert (0 < parent) as Hpos.
    { unfold InvalidTransactionId in *. assert (0 ≤ parent); [|lia].
      subst parent. case_bool; [apply get_parentxid_nonneg|done]. }
    split; [done|]. rewrite <- Hc. apply fate_ext; [intros y _; apply Hs12..|lia].
Qed.

(** Both questions are answered by the fate of the transaction. *)
Lemma did_commit_runs fuel env x w c :
  xact_ok w → 0 < x → fate fuel (σ_of w) (κ_of w) (TransactionXmin (e_csn env)) x = Some c →
  ∃ w', runs (TransactionIdDidCommit fuel env x) w (c =? CLOG_XID_STATUS_COMMITTED) w' ∧
    xact_ok w' ∧ same_logs w w'.
Proof.
  revert x w. induction fuel as [|fuel IH]; intros x w Hok Hx Hc; [done|].
  destruct (fetch_step fuel env x w c Hok Hx Hc) as (st & w1 & Hr1 & Hok1 & Hs1 &
    [[Hne ->]|[(-> & Hmin & ->)|(-> & Hmin & p & st2 & w2 & Hr2 & Hok2 & Hs2 & Hend)]]);
    cbn [TransactionIdDidCommit].
  - exists w1. split; [|done]. eapply runs_bind; [exact Hr1|]. cbn beta.
    rewrite (proj2 (Z.eqb_neq _ _) Hne). by case_bool.
  - exists w1. split; [|done]. eapply runs_bind; [exact Hr1|]. cbn beta. by rewrite Hmin.
  - assert (∃ w3, runs (if negb (TransactionIdIsValid p) then mret (bool_decide (st2 = Some XID_COMMITTED))
      else TransactionIdDidCommit fuel env p) w2 (c =? CLOG_XID_STATUS_COMMITTED) w3 ∧
      xact_ok w3 ∧ same_logs w w3) as (w3 & Hr3 & Hok3 & Hs3).
    { destruct Hend as [[-> ->]|(-> & Hp & Hf)]; cbn [negb].
      - exists w2. split; [|done]. by case_bool_decide.
      - destruct (IH p w2 Hok2 Hp Hf) as (w3 & ? & ? & ?). exists w3. split_and!; try done.
        by eapply same_logs_trans. }
    exists w3. split; [|done]. eapply runs_bind; [exact Hr1|]. cbn beta. rewrite Hmin. cbn.
    by eapply runs_bind.
Qed.

Lemma did_abort_runs fuel env x w c :
  xact_ok w → 0 < x → fate fuel (σ_of w) (κ_of w) (TransactionXmin (e_csn env)) x = Some c →
  ∃ w', runs (TransactionIdDidAbort fuel env x) w (c =? CLOG_XID_STATUS_ABORTED) w' ∧
    xact_ok w' ∧ same_logs w w'.
Proof.
  revert x w. induction fuel as [|fuel IH]; intros x w Hok Hx Hc; [done|].
  destruct (fetch_step fuel env x w c Hok Hx Hc) as (st & w1 & Hr1 & Hok1 & Hs1 &
    [[Hne ->]|[(-> & Hmin & ->)|(-> & Hmin & p & st2 & w2 & Hr2 & Hok2 & Hs2 & Hend)]]);
    cbn [TransactionIdDidAbort].
  - exists w1. split; [|done]. eapply runs_bind; [exact Hr1|]. cbn beta.
    rewrite (proj2 (Z.eqb_neq _ _) Hne). by case_bool.
  - exists w1. split; [|done]. eapply runs_bind; [exact Hr1|]. cbn beta. by rewrite Hmin.
  - assert (∃ w3, runs (if negb (TransactionIdIsValid p)
      then if bool_decide (st2 = Some XID_COMMITTED) then mret false else mret true
      else TransactionIdDidAbort fuel env p) w2 (c =? CLOG_XID_STATUS_ABORTED) w3 ∧
      xact_ok w3 ∧ same_logs w w3) as (w3 & Hr3 & Hok3 & Hs3).
    { destruct Hend as [[-> ->]|(-> & Hp & Hf)]; cbn [negb].
      - exists w2. split; [|done]. by case_bool_decide.
      - destruct (IH p w2 Hok2 Hp Hf) as (w3 & ? & ? & ?). exists w3. split_and!; try done.
        by eapply same_logs_trans. }
    exists w3. split; [|done]. eapply runs_bind; [exact Hr1|]. cbn beta. rewrite Hmin. cbn.
    by eapply runs_bind.
Qed.

(** ** Fates in a tree *)

(** Every child of the tree [xid], [subs] has a parent link into the tree. *)
Definition tree_links (κ : Z → option Z) (xid : Z) (subs : list Z) : Prop :=
  2 < xid ∧ ∀ y, y ∈ subs → 2 < y ∧ ∃ v, κ y = Some v ∧ COMMITSEQNO_IS_SUBTRANS v = true ∧
    GET_PARENTXID v ∈ xid :: subs ∧ GET_PARENTXID v < y.

(** In every intermediate state of a commit the whole tree shares one fate. *)
Lemma tree_fate σ κ xmin xid subs st :
  tree_links κ xid subs → (∀ y, y ∈ subs → xmin ≤ y) →
  st ≠ CLOG_XID_STATUS_SUB_COMMITTED → σ xid = Some st →
  (∀ y, y ∈ subs → σ y = Some st ∨ σ y = Some CLOG_XID_STATUS_SUB_COMMITTED) →
  ∀ y fuel, y ∈ xid :: subs → y < Z.of_nat fuel → fate fuel σ κ xmin y = Some st.
Proof.
  intros [Hx Hlinks] Hmin Hne Hσx Hσs y fuel. revert y. induction fuel as [|fuel IH]; intros y Hy Hf.
  { exfalso. apply elem_of_cons in Hy as [->|Hy]; [lia|]. apply Hlinks in Hy. lia. }
  assert (2 < y) as H2 by (apply elem_of_cons in Hy as [->|Hy]; [done|by destruct (Hlinks y Hy)]).
  assert (raw_status σ y = σ y) as Hraw.
  { unfold raw_status, TransactionIdIsNormal, FirstNormalTransactionId. by rewrite (proj2 (Z.leb_le _ _)) by lia. }
  cbn [fate]. rewrite Hraw.
  assert (σ y = Some st ∨ (y ∈ subs ∧ σ y = Some CLOG_XID_STATUS_SUB_COMMITTED)) as [->|[Hin ->]].
  { apply elem_of_cons in Hy as [->|Hy]; [by left|]. destruct (Hσs y Hy); auto. }
  { cbn. by rewrite (proj2 (Z.eqb_neq _ _) Hne). }
  cbn [mbind option_bind]. rewrite Z.eqb_refl, (proj2 (Z.ltb_ge _ _)) by auto.
  destruct (Hlinks y Hin) as (_ & v & Hv & Hs & Hp & Hlt).
  assert (raw_csn κ y = Some v) as ->.
  { unfold raw_csn, InvalidTransactionId, FrozenTransactionId, BootstrapTransactionId.
    by rewrite !(proj2 (Z.eqb_neq _ _)) by lia. }
  cbn [mbind option_bind]. rewrite Hs.
  assert (2 < GET_PARENTXID v) by (apply elem_of_cons in Hp as [->|Hp]; [done|by destruct (Hlinks _ Hp)]).
  rewrite (proj2 (Z.eqb_neq _ _)) by (unfold InvalidTransactionId; lia). apply IH; [done|lia].
Qed.

(** The fate of every transaction is decided by finitely many look-ups. *)
Lemma fate_total σ κ xmin x :
  csn_wf κ → 0 < x →
  (∀ y, 0 < y ≤ x → is_Some (raw_status σ y) ∧ is_Some (raw_csn κ y)) →
  ∃ n c, ∀ fuel, (n ≤ fuel)%nat → fate fuel σ κ xmin x = Some c.
Proof.
  intros Hwf. induction (Z.lt_wf 0 x) as [x _ IH]. intros Hx Hall.
  destruct (Hall x ltac:(lia)) as [[st Hst] [v Hv]].
  assert (∀ c, fate 1 σ κ xmin x = Some c → ∃ n c, ∀ fuel, (n ≤ fuel)%nat → fate fuel σ κ xmin x = Some c)
    as Hdone.
  { intros c Hc. exists 1%nat, c. intros fuel Hf. by eapply fate_more. }
  destruct (Z.eqb_spec st CLOG_XID_STATUS_SUB_COMMITTED) as [->|Hne].
  2:{ apply (Hdone st). cbn [fate]. rewrite Hst. cbn. by rewrite (proj2 (Z.eqb_neq _ _) Hne). }
  destruct (x <? xmin) eqn:Hmin.
  { eapply Hdone. cbn [fate]. rewrite Hst. cbn. by rewrite Hmin. }
  destruct (COMMITSEQNO_IS_SUBTRANS v) eqn:Hs.
  2:{ eapply Hdone. cbn [fate]. rewrite Hst. cbn. rewrite Hmin, Hv. cbn. by rewrite Hs. }
  destruct (Hwf x v) as [Hp _]; [lia|by apply raw_csn_cases|done|].
  destruct (IH (GET_PARENTXID v)) as (n & c & Hn); [lia|lia|intros y Hy; apply Hall; lia|].
  exists (S n), c. intros [|fuel] Hf; [lia|]. cbn [fate]. rewrite Hst. cbn. rewrite Hmin, Hv. cbn. rewrite Hs.
  rewrite (proj2 (Z.eqb_neq _ _)) by (unfold InvalidTransactionId; lia). apply Hn. lia.
Qed.

(** ** The properties of transaction status *)

(** C3: To every observer a transaction tree commits in one instant. While
    [TransactionIdAsyncCommitTree] sets the commit log, whatever instant another
    backend picks to ask [TransactionIdDidCommit], its answers for the main
    transaction and for all of its subtransactions, at any depth, agree: all
    false before the instant the main transaction's bits change, all true after
    it. (The observer has its own caches; the CSN log, in which the
    subtransactions' parents are found, is not touched in this phase.) *)
Theorem did_commit_atomic env xid subs lsn w :
  tree_pre (e_clog env) xid subs CLOG_XID_STATUS_COMMITTED lsn (store (clog w)) →
  (∀ y, y ∈ xid :: subs → σ_of w y = Some CLOG_XID_STATUS_IN_PROGRESS) →
  tree_links (κ_of w) xid subs → (∀ y, y ∈ subs → TransactionXmin (e_csn env) ≤ y) →
  ∃ w' tr,
    runs (on_clog (CLogSetTreeStatus (e_clog env) xid subs CLOG_XID_STATUS_COMMITTED lsn)) w tt w' ∧
    trace (clog w') = trace (clog w) ++ tr ∧
    Forall (λ s, ∀ wo, xact_ok wo → store (clog wo) = s → (∀ y, κ_of wo y = κ_of w y) →
      ∃ b, ∀ y fuel, y ∈ xid :: subs → y < Z.of_nat fuel →
        ∃ wo', runs (TransactionIdDidCommit fuel env y) wo b wo') tr.
Proof.
  intros Hpre Hprog Hlinks Hmin.
  destruct (tree_status_runs _ xid subs _ lsn (clog w) Hpre) as (c' & tr & Hr & _ & Ht & _ & _ & Htr).
  eexists _, tr. split_and!; [by apply on_clog_runs|done|].
  eapply Forall_impl; [exact Htr|]. intros s Hs%commit_phase_cases wo Hok Hstore Hκ; [|done].
  assert (tree_links (κ_of wo) xid subs) as Hl.
  { destruct Hlinks as [? Hl]. split; [done|]. intros y Hy. by rewrite Hκ; apply Hl. }
  assert (∀ y, y ∈ xid :: subs → 0 < y) as Hpos.
  { destruct Hl as [? Hl]. intros y [->|Hy]%elem_of_cons; [lia|]. destruct (Hl y Hy). lia. }
  destruct Hs as [[Hx Hs]|[Hx Hs]]; rewrite <- Hstore in Hx, Hs.
  - exists false. intros y fuel Hy Hf.
    destruct (did_commit_runs fuel env y wo CLOG_XID_STATUS_IN_PROGRESS) as (wo' & Hro & _);
      [done|auto|by eapply tree_fate|]. by exists wo'.
  - exists true. intros y fuel Hy Hf.
    destruct (did_commit_runs fuel env y wo CLOG_XID_STATUS_COMMITTED) as (wo' & Hro & _);
      [done|auto|by eapply tree_fate|]. by exists wo'.
Qed.

(** [TransactionIdDidCommit] and [TransactionIdDidAbort] always return, and
    they never both say yes: there is one fate of the transaction that both
    report, and neither changes a log or invalidates the caches. *)
Theorem did_commit_did_abort_exclusive env x w :
  xact_ok w → csn_wf (κ_of w) → 0 < x →
  (∀ y, 0 < y ≤ x → is_Some (raw_status (σ_of w) y) ∧ is_Some (raw_csn (κ_of w) y)) →
  ∃ n committed aborted, (committed && aborted)%bool = false ∧
    ∀ fuel, (n ≤ fuel)%nat →
      (∃ w', runs (TransactionIdDidCommit fuel env x) w committed w' ∧ xact_ok w' ∧ same_logs w w') ∧
      (∃ w', runs (TransactionIdDidAbort fuel env x) w aborted w' ∧ xact_ok w' ∧ same_logs w w').
Proof.
  intros Hok Hwf Hx Hall.
  destruct (fate_total _ _ (TransactionXmin (e_csn env)) x Hwf Hx Hall) as (n & c & Hn).
  exists n, (c =? CLOG_XID_STATUS_COMMITTED), (c =? CLOG_XID_STATUS_ABORTED). split.
  { unfold CLOG_XID_STATUS_COMMITTED, CLOG_XID_STATUS_ABORTED. lia. }
  intros fuel Hf. split; [apply did_commit_runs|apply did_abort_runs]; auto.
Qed.

(** The status cache is transparent: [TransactionLogFetch] returns what the
    commit log says (special xids included), from the cache or not, and what it
    leaves in the cache is again the final status of the xid it names. *)
Theorem log_fetch_transparent x w st :
  xact_ok w → 0 < x → raw_status (σ_of w) x = Some st →
  ∃ w', runs (TransactionLogFetch x) w st w' ∧ xact_ok w' ∧ same_logs w w'.
Proof. apply log_fetch_runs. Qed.

(** *** Completion *)

Lemma on_both_logs {A} (m1 : M (clog_state S1) unit) (m2 : M (csn_state S2) A) w c1 c2 a :
  runs m1 (clog w) tt c1 → runs m2 (csnlog w) a c2 →
  runs (on_clog m1 ≫= λ _, on_csnlog m2) w a {| clog := c1; csnlog := c2; cache := cache w |}.
Proof.
  intros H1 H2. eapply runs_bind; [by apply on_clog_runs|].
  exact (on_csnlog_runs m2 {| clog := c1; csnlog := csnlog w; cache := cache w |} a c2 H2).
Qed.

(** The CSN that ends up in the log. *)
Definition recorded_csn env (csn : Z) : Z :=
  if RecoveryInProgress (e_clog env) then csn
  else Z.land csn (lnotw 64 COMMITSEQNO_COMMIT_INPROGRESS).

(** A completed commit is in both logs: after [TransactionIdAsyncCommitTree]
    returns, on the primary or during redo, the main transaction and all its
    children are committed in the commit log and carry the commit sequence
    number (without the in-progress bit) in the CSN log, and other transactions
    have kept status and CSN (but for the members of a group update). *)
Theorem async_commit_tree_spec env xid subs lsn csn w :
  tree_pre (e_clog env) xid subs CLOG_XID_STATUS_COMMITTED lsn (store (clog w)) →
  csn_pre (e_csn env) xid subs (recorded_csn env csn) (cstore (csnlog w)) →
  0 < csn → TransactionIdIsNormal xid = true →
  ∃ w', runs (TransactionIdAsyncCommitTree env xid subs lsn csn) w tt w' ∧
    (∀ y, y ∈ xid :: subs → σ_of w' y = Some CLOG_XID_STATUS_COMMITTED) ∧
    κ_of w' xid = (λ old, merge_csn old (recorded_csn env csn)) <$> κ_of w xid ∧
    (∀ y, y ∈ subs → κ_of w' y = (λ old, merge_csn old (sub_csn (recorded_csn env csn) xid)) <$> κ_of w y) ∧
    (∀ y, 0 ≤ y → y ∉ xid :: subs → y ∉ group_xids (e_clog env) →
       σ_of w' y = σ_of w y ∧ κ_of w' y = κ_of w y).
Proof.
  intros Hpre1 Hpre2 Hcsn Hn.
  destruct (tree_status_runs _ _ _ _ _ _ Hpre1) as (c1 & tr & Hr1 & _ & _ & Hoth1 & Hfin & _).
  destruct (csn_set_commit_words _ _ _ _ _ Hpre2) as (c2 & Hr2 & _ & Hx & Hs & Hoth2).
  exists {| clog := c1; csnlog := c2; cache := cache w |}. split_and!; try done.
  - unfold TransactionIdAsyncCommitTree, UpdateCSNLogAtTransactionEND.
    rewrite (proj2 (Z.ltb_lt 0 csn)) by done. rewrite Hn. unfold recorded_csn in Hr2. cbn [andb].
    destruct (RecoveryInProgress _); by apply on_both_logs.
  - intros y Hy Hni Hg. split; [|by apply Hoth2]. unfold σ_of. cbn. rewrite Hoth1 by done.
    by rewrite decide_False.
Qed.

(** A completed abort is in both logs: after [TransactionIdAbortTree] the
    whole tree is aborted in the commit log and its CSN words are [ABORTED], so
    no later commit can revive it. *)
Theorem abort_tree_spec env xid subs w :
  tree_pre (e_clog env) xid subs CLOG_XID_STATUS_ABORTED 0 (store (clog w)) →
  csn_pre (e_csn env) xid subs COMMITSEQNO_ABORTED (cstore (csnlog w)) →
  ∃ w', runs (TransactionIdAbortTree env xid subs) w tt w' ∧
    (∀ y, y ∈ xid :: subs → σ_of w' y = Some CLOG_XID_STATUS_ABORTED) ∧
    (∀ y, y ∈ xid :: subs → κ_of w' y = (λ _, COMMITSEQNO_ABORTED) <$> κ_of w y).
Proof.
  intros Hpre1 Hpre2.
  destruct (tree_status_runs _ _ _ _ _ _ Hpre1) as (c1 & tr & Hr1 & _ & _ & _ & Hfin & _).
  destruct (csn_set_commit_words _ _ _ _ _ Hpre2) as (c2 & Hr2 & _ & Hx & Hs & _).
  exists {| clog := c1; csnlog := c2; cache := cache w |}. split_and!; try done.
  { by apply on_both_logs. }
  assert (∀ old, merge_csn old COMMITSEQNO_ABORTED = COMMITSEQNO_ABORTED) as Hm.
  { intros old. unfold merge_csn. case_bool; [|done]. by apply Z.eqb_eq. }
  intros y [->|Hy]%elem_of_cons; unfold κ_of in *; cbn [csnlog].
  - rewrite Hx. by apply option_fmap_ext.
  - rewrite Hs by done. by apply option_fmap_ext.
Qed.

(** *** Commit sequence numbers *)

(** What the CSN cache may hold for a transaction that committed with [c]. *)
Definition csn_cache_for (x c : Z) w : Prop :=
  cachedFetchCSNXid (cache w) = x → cachedFetchCSN (cache w) = c ∨ cachedFetchCSN (cache w) = COMMITSEQNO_FROZEN.

Lemma csn_log_get_runs env x w v :
  xact_ok w → 0 ≤ x → raw_csn (κ_of w) x = Some v →
  ∃ w', runs (on_csnlog (CSNLogGetCommitSeqNo (e_csn env) x)) w v w' ∧ xact_ok w' ∧ same_logs w w' ∧
    cache w' = cache w.
Proof.
  intros (H1 & H2 & H3) Hx Hv. destruct (get_csn_runs (e_csn env) x (csnlog w) v H2 Hx Hv) as (c1 & Hr1 & Hl1).
  eexists. split; [by apply on_csnlog_runs|]. unfold xact_ok, same_logs. split_and!; try done; try apply Hl1.
  intros y. by apply same_log_word.
Qed.

(** The look-up behind the cache: below the snapshot's xmin the commit log
    answers (with [FROZEN]), above it the CSN log. *)
Lemma fetch_csn_runs fuel env x isCommit sn w c tries :
  xact_ok w → 2 < x → satisfies sn = SNAPSHOT_MVCC → GTM_LITE_MODE env = false →
  IS_MULTI_DISASTER_RECOVER_MODE (e_csn env) = false →
  σ_of w x = Some CLOG_XID_STATUS_COMMITTED → κ_of w x = Some c →
  ∃ w', runs (fetch_csn fuel env x isCommit true false (Some sn) 0 tries) w
      (if x <? snap_xmin sn then COMMITSEQNO_FROZEN else c) w' ∧
    xact_ok w' ∧ same_logs w w' ∧ cache w' = cache w.
Proof.
  intros Hok Hx Hsat Hlite Hdr Hσ Hκ.
  assert (∀ t, (fetch_csn fuel env x isCommit true false (Some sn) 0 t : M (xact_state S1 S2) Z) =
    if x <? snap_xmin sn then GetCSNByCLog x isCommit else
    xact_try (on_csnlog (CSNLogGetCommitSeqNo (e_csn env) x))
      (if (IS_CN_DISASTER_RECOVER_MODE env || IS_MULTI_DISASTER_RECOVER_MODE (e_csn env)) && slru_open_failed env
       then GetCSNByCLog x isCommit
       else match t with
       | S tries => if GTM_LITE_MODE env || DMS_worker env
           then fetch_csn fuel env x isCommit true false (Some sn) 1 tries else raise ERROR
       | O => raise ERROR end)) as Hunf.
  { intros t. destruct t; cbn [fetch_csn]; unfold clog_horizon, IsVersionMVCCSnapshot, IsMVCCSnapshot;
      rewrite Hsat, Hlite, Hdr; reflexivity. }
  rewrite Hunf. destruct (x <? snap_xmin sn).
  - unfold GetCSNByCLog. destruct isCommit; [by exists w|].
    destruct (clog_get_runs x w _ Hok Hσ) as (lsn & w1 & Hr1 & Hok1 & Hs1 & Hc1).
    exists w1. split; [|done]. eapply runs_bind; [exact Hr1|]. done.
  - destruct (csn_log_get_runs env x w c Hok ltac:(lia)) as (w1 & Hr1 & Hok1 & Hs1 & Hc1).
    { unfold raw_csn, InvalidTransactionId, FrozenTransactionId, BootstrapTransactionId.
      by rewrite !(proj2 (Z.eqb_neq _ _)) by lia. }
    exists w1. split; [|done]. unfold runs, xact_try. by rewrite Hr1.
Qed.

(** The cache answers or declines. *)
Lemma csn_cache_runs env x sn w c :
  xact_ok w → 2 < x → satisfies sn = SNAPSHOT_MVCC → GTM_LITE_MODE env = false →
  COMMITSEQNO_FROZEN ≤ c → csn_cache_for x c w →
  ∃ r w', runs (FetchCSNFromCache env x (Some sn) true) w r w' ∧ xact_ok w' ∧ same_logs w w' ∧
    csn_cache_for x c w' ∧
    (r = InvalidCommitSeqNo ∨ r = c ∨ (r = COMMITSEQNO_FROZEN ∧ x < snap_xmin sn)).
Proof.
  intros Hok Hx Hsat Hlite Hc Hcache. unfold FetchCSNFromCache.
  destruct (TransactionIdEquals x (cachedFetchCSNXid (cache w))) eqn:Heq.
  2:{ exists InvalidCommitSeqNo, w. split; [|by auto using same_logs_refl].
      eapply runs_bind; [done|]. cbn beta. by rewrite Heq. }
  pose proof (Hcache ltac:(symmetry; by apply Z.eqb_eq)) as Hval.
  assert (IsVersionMVCCSnapshot sn || bool_decide (satisfies sn = SNAPSHOT_DECODE_MVCC) = false
    ∧ IsMVCCSnapshot sn = true) as [Hk1 Hk2].
  { unfold IsVersionMVCCSnapshot, IsMVCCSnapshot. by rewrite Hsat. }
  destruct (negb (TransactionIdPrecedes x (snap_xmin sn)) && (cachedFetchCSN (cache w) =? COMMITSEQNO_FROZEN))
    eqn:Hdecl.
  { exists InvalidCommitSeqNo, w. split; [|by auto using same_logs_refl].
    eapply runs_bind; [done|]. cbn beta. rewrite Heq, Hlite. cbn [negb].
    rewrite Hk1, Hk2. cbn [orb andb]. by rewrite Hdecl. }
  destruct (on_cache_runs (set_latest_csn (cachedFetchCSNXid (cache w)) (cachedFetchCSN (cache w))) w)
    as (w1 & Hr1 & Hok1 & Hs1 & Hc1); try done.
  exists (cachedFetchCSN (cache w)), w1. split_and!; try done.
  - eapply runs_bind; [done|]. cbn beta. rewrite Heq, Hlite. cbn [negb].
    rewrite Hk1, Hk2. cbn [orb andb]. rewrite Hdecl.
    by eapply runs_bind.
  - unfold csn_cache_for. by rewrite Hc1.
  - right. destruct Hval as [->|Hf]; [by left|]. rewrite Hf in *. right. split; [done|].
    unfold TransactionIdPrecedes in Hdecl. rewrite Z.eqb_refl, andb_true_r in Hdecl. bool_to_prop. done.
Qed.

(** The whole look-up, for a transaction that committed with CSN [c]. *)
Lemma get_commit_csn_runs fuel env x isCommit sn w c :
  xact_ok w → 2 < x → satisfies sn = SNAPSHOT_MVCC → GTM_LITE_MODE env = false →
  IS_MULTI_DISASTER_RECOVER_MODE (e_csn env) = false →
  σ_of w x = Some CLOG_XID_STATUS_COMMITTED → κ_of w x = Some c → COMMITSEQNO_FROZEN ≤ c < 2 ^ 60 →
  csn_cache_for x c w →
  ∃ r w', runs (TransactionIdGetCommitSeqNo fuel env x isCommit true false (Some sn)) w r w' ∧
    (r = c ∨ (r = COMMITSEQNO_FROZEN ∧ x < snap_xmin sn)) ∧
    xact_ok w' ∧ same_logs w w' ∧ csn_cache_for x c w'.
Proof.
  intros Hok Hx Hsat Hlite Hdr Hσ Hκ Hc Hcache.
  destruct (csn_cache_runs env x sn w c) as (r1 & w1 & Hr1 & Hok1 & Hs1 & Hcache1 & Hr); try done; [lia|].
  unfold TransactionIdGetCommitSeqNo.
  destruct (Z.eqb_spec r1 InvalidCommitSeqNo) as [->|Hne].
  2:{ exists r1, w1. split_and!; try done; [|tauto]. eapply runs_bind; [exact Hr1|]. cbn beta.
      by rewrite (proj2 (Z.eqb_neq _ _) Hne). }
  destruct (fetch_csn_runs fuel env x isCommit sn w1 c 1) as (w2 & Hr2 & Hok2 & Hs2 & Hc2); try done.
  { by rewrite (proj1 Hs1). }
  { destruct Hs1 as (_ & Hk & _). by rewrite Hk. }
  set (r := if x <? snap_xmin sn then COMMITSEQNO_FROZEN else c) in *.
  assert (r = c ∨ (r = COMMITSEQNO_FROZEN ∧ x < snap_xmin sn)) as Hrc.
  { subst r. destruct (Z.ltb_spec x (snap_xmin sn)); auto. }
  destruct (on_cache_runs (set_cached_csn x r) w2) as (w3 & Hr3 & Hok3 & Hs3 & Hc3); try done.
  destruct (on_cache_runs (set_latest_csn x r) w3) as (w4 & Hr4 & Hok4 & Hs4 & Hc4); try done.
  exists r, w4. split_and!; try done.
  - eapply runs_bind; [exact Hr1|]. cbn beta. rewrite Z.eqb_refl. cbn [negb].
    unfold TransactionIdIsNormal, FirstNormalTransactionId. rewrite (proj2 (Z.leb_le _ _)) by lia. cbn [negb].
    eapply runs_bind; [exact Hr2|]. cbn beta.
    assert (COMMITSEQNO_IS_COMMITTED r = true) as ->.
    { apply committed_spec; destruct Hrc as [->|[-> _]]; unfold COMMITSEQNO_FROZEN in *; lia. }
    cbn [orb]. eapply runs_bind; [exact Hr3|]. by eapply runs_bind.
  - repeat (eapply same_logs_trans; [done|]). done.
  - unfold csn_cache_for. rewrite Hc4, Hc3. cbn. tauto.
Qed.

(** The CSN of a committed transaction, as a snapshot gets it: whatever the
    single-entry cache holds from earlier look-ups (a [FROZEN] stand-in obtained
    for an older horizon included), [TransactionIdGetCommitSeqNo] returns the CSN
    the transaction committed with, or, only below the snapshot's xmin, [FROZEN];
    and the cache still satisfies the same condition afterwards. *)
Theorem get_commit_csn_spec fuel env x isCommit sn w c :
  xact_ok w → 2 < x → satisfies sn = SNAPSHOT_MVCC → GTM_LITE_MODE env = false →
  IS_MULTI_DISASTER_RECOVER_MODE (e_csn env) = false →
  σ_of w x = Some CLOG_XID_STATUS_COMMITTED → κ_of w x = Some c → COMMITSEQNO_FROZEN ≤ c < 2 ^ 60 →
  csn_cache_for x c w →
  ∃ r w', runs (TransactionIdGetCommitSeqNo fuel env x isCommit true false (Some sn)) w r w' ∧
    (r = c ∨ (r = COMMITSEQNO_FROZEN ∧ x < snap_xmin sn)) ∧
    xact_ok w' ∧ same_logs w w' ∧ csn_cache_for x c w'.
Proof. apply get_commit_csn_runs. Qed.

End TransamProofs.

(** ** Concrete states *)

Section TransamWitness.

Definition xact_demo_env : xact_env := {|
  e_clog := demo_env; e_csn := csn_demo_env; GTM_LITE_MODE := false; DMS_worker := false;
  IS_CN_DISASTER_RECOVER_MODE := false; slru_open_failed := false; recentGlobalXmin := λ _, 3;
  recentLocalXmin := 3; RecentXmin := 3; GetReplicationSlotCatalogXmin := 0; globalRecycleXid := 0;
  startupMaxXid := 0; read_uncommitted := false |}.

Definition no_cache : fetch_cache := {|
  cachedFetchXid := 0; cachedFetchXidStatus := 0; cachedCommitLSN := 0; latestFetchXid := 0;
  latestFetchXidStatus := 0; cachedFetchCSNXid := 0; cachedFetchCSN := 0; latestFetchCSNXid := 0;
  latestFetchCSN := 0 |}.

(** Transaction 32766 with children 32767 and 32768, and 32769, a child of
    32768, on two pages of either log, all in progress. *)
Definition linked : gmap Z (list Z) :=
  {[ 31 := aset empty_page 1023 (subtrans_mark 32766);
     32 := aset (aset empty_page 0 (subtrans_mark 32766)) 1 (subtrans_mark 32768) ]}.

Definition xact_demo (c : page_store BLCKSZ) (pages : gmap Z (list Z))
  : xact_state (page_store BLCKSZ) (page_store CSNLOG_XACTS_PER_PAGE) := {|
  clog := {| store := c; trace := [] |}; csnlog := csn_demo_state pages; cache := no_cache |}.

Lemma tree_cases y : y ∈ [32766; 32767; 32768; 32769] → y = 32766 ∨ y = 32767 ∨ y = 32768 ∨ y = 32769.
Proof. set_unfold. lia. Qed.

Lemma linked_csn_pre csn :
  COMMITSEQNO_IS_COMMITTED csn = true ∨ csn = COMMITSEQNO_ABORTED →
  COMMITSEQNO_IS_COMMITTING csn = false → csn ≠ 0 →
  csn_pre csn_demo_env 32766 [32767; 32768; 32769] csn (cstore (csn_demo_state linked)).
Proof.
  intros Hc Hn Hz. split_and!; try done; [by eapply two_pages_ok|].
  assert (sub_csn csn 32766 = csn) as Hsub.
  { unfold sub_csn. fold (COMMITSEQNO_IS_COMMITTING csn). by rewrite Hn. }
  split; [cbn; repeat constructor; set_unfold; lia|]. intros x v Hin.
  assert (x ∈ [32766; 32767; 32768; 32769] ∧ v = csn) as [Hx ->].
  { unfold csn_writes in Hin. cbn in Hin. rewrite Hsub in Hin. set_unfold.
    destruct Hin as [[= -> ->]|[[= -> ->]|[[= -> ->]|[[= -> ->]|[]]]]]; split; auto; lia. }
  split; [apply tree_cases in Hx; lia|].
  assert (∃ old, csn_word (cstore (csn_demo_state linked)) x = Some old ∧
    COMMITSEQNO_IS_ABORTED old = false ∧ COMMITSEQNO_IS_COMMITTED old = false) as (old & Ho & Ha & Hcm).
  { apply tree_cases in Hx as [->|[->|[->| ->]]]; eexists;
      (split; [vm_compute; reflexivity|split; vm_compute; reflexivity]). }
  exists old. split; [done|]. unfold csn_change_ok. by rewrite Ha, Hcm.
Qed.

Lemma did_commit_atomic_witness :
  ∃ w' tr, runs (on_clog (CLogSetTreeStatus demo_env 32766 [32767; 32768; 32769]
      CLOG_XID_STATUS_COMMITTED 77)) (xact_demo demo_store linked) tt w' ∧
    trace (clog w') = trace (clog (xact_demo demo_store linked)) ++ tr.
Proof.
  destruct (did_commit_atomic xact_demo_env 32766 [32767; 32768; 32769] 77 (xact_demo demo_store linked))
    as (w' & tr & Hr & Ht & _).
  - apply demo_pre. by left.
  - intros y Hy. by apply demo_in_progress.
  - split; [lia|]. intros y Hy. assert (y = 32767 ∨ y = 32768 ∨ y = 32769) as [->|[->| ->]] by (set_unfold; lia);
      (split; [lia|]); eexists; (split; [vm_compute; reflexivity|]); (split; [vm_compute; reflexivity|]);
      (split; [|vm_compute; reflexivity]).
    + by left.
    + by left.
    + by do 2 right; left.
  - intros y Hy. set_unfold. cbn. lia.
  - exists w', tr. split; [exact Hr|exact Ht].
Defined.

Lemma demo_small_known y : 0 < y ≤ 5 →
  is_Some (raw_status (clog_status demo_store) y) ∧
  is_Some (raw_csn (csn_word (cstore (csn_demo_state fresh))) y).
Proof.
  intros Hy. assert (y = 1 ∨ y = 2 ∨ y = 3 ∨ y = 4 ∨ y = 5) as Hc by lia.
  destruct_or!; subst; split; eexists; vm_compute; reflexivity.
Qed.

Lemma demo_xact_ok : xact_ok (xact_demo demo_store fresh).
Proof. split_and!; [apply demo_ok|by eapply two_pages_ok|done]. Qed.

Lemma did_commit_did_abort_exclusive_witness :
  ∃ n committed aborted, (committed && aborted)%bool = false ∧ ∀ fuel, (n ≤ fuel)%nat →
    ∃ w', runs (TransactionIdDidCommit fuel xact_demo_env 5) (xact_demo demo_store fresh) committed w'.
Proof.
  destruct (did_commit_did_abort_exclusive xact_demo_env 5 (xact_demo demo_store fresh))
    as (n & c & a & Hca & Hf).
  - apply demo_xact_ok.
  - apply fresh_inv.
  - lia.
  - apply demo_small_known.
  - exists n, c, a. split; [exact Hca|]. intros fuel Hn. destruct (Hf fuel Hn) as [(w' & Hr & _) _].
    exists w'. exact Hr.
Defined.

Lemma log_fetch_transparent_witness :
  ∃ w', runs (TransactionLogFetch 5) (xact_demo demo_store fresh) CLOG_XID_STATUS_IN_PROGRESS w'.
Proof.
  destruct (log_fetch_transparent 5 (xact_demo demo_store fresh) CLOG_XID_STATUS_IN_PROGRESS)
    as (w' & Hr & _); [apply demo_xact_ok|lia|vm_compute; reflexivity|].
  exists w'. exact Hr.
Defined.

Lemma async_commit_tree_spec_witness :
  ∃ w', runs (TransactionIdAsyncCommitTree xact_demo_env 32766 [32767; 32768; 32769] 77 1000)
      (xact_demo demo_store linked) tt w' ∧ κ_of w' 32769 = Some 1000.
Proof.
  destruct (async_commit_tree_spec xact_demo_env 32766 [32767; 32768; 32769] 77 1000
    (xact_demo demo_store linked)) as (w' & Hr & _ & _ & Hs & _).
  - apply demo_pre. by left.
  - apply linked_csn_pre; [by left|done|done].
  - lia.
  - done.
  - exists w'. split; [exact Hr|]. rewrite Hs; [vm_compute; reflexivity|by do 2 right; left].
Defined.

Lemma abort_tree_spec_witness :
  ∃ w', runs (TransactionIdAbortTree xact_demo_env 32766 [32767; 32768; 32769])
      (xact_demo demo_store linked) tt w' ∧ σ_of w' 32768 = Some CLOG_XID_STATUS_ABORTED.
Proof.
  destruct (abort_tree_spec xact_demo_env 32766 [32767; 32768; 32769] (xact_demo demo_store linked))
    as (w' & Hr & Hst & _).
  - destruct (demo_pre CLOG_XID_STATUS_ABORTED ltac:(by right)) as (? & ? & ? & ? & ? & ? & _). by split_and!.
  - apply linked_csn_pre; [by right|done|done].
  - exists w'. split; [exact Hr|]. apply Hst. by do 2 right; left.
Defined.

(** Transaction 3, committed with CSN 50. *)
Definition committed3 : xact_state (page_store BLCKSZ) (page_store CSNLOG_XACTS_PER_PAGE) :=
  xact_demo (page_set 0 0 0 64 demo_store) {[ 0 := aset empty_page 3 50; 1 := empty_page ]}.

Definition demo_snapshot (xmin csn : Z) : SnapshotData := {|
  satisfies := SNAPSHOT_MVCC; snap_xmin := xmin; snap_xmax := 100; xip := []; subxip := [];
  snapshotcsn := csn; prepared_array := []; takenDuringRecovery := false; curcid := 0; gtm_local := false |}.

Lemma committed3_ok : xact_ok committed3.
Proof.
  split_and!; [|by eapply two_pages_ok|done]. apply ps_update_ok; [apply demo_ok|by vm_compute].
Qed.

Lemma get_commit_csn_spec_witness :
  ∃ r w', runs (TransactionIdGetCommitSeqNo 1 xact_demo_env 3 false true false (Some (demo_snapshot 3 60)))
      committed3 r w' ∧ r = 50.
Proof.
  destruct (get_commit_csn_spec 1 xact_demo_env 3 false (demo_snapshot 3 60) committed3 50)
    as (r & w' & Hr & Hv & _); try done.
  - apply committed3_ok.
  - exists r, w'. split; [exact Hr|]. destruct Hv as [Hv|[_ Hlt]]; [exact Hv|]. cbn in Hlt. lia.
Defined.

End TransamWitness.
