(* ===== verification/Snapshot.v ===== *)
(** * Which transactions a snapshot sees

    [src/common/backend/utils/time/snapmgr.cpp]: [XidVisibleInSnapshot] and its
    variants, which compare a transaction's commit sequence number with that of
    the snapshot, wait for a transaction that is just committing, and settle one
    that has died while committing. Modelled for a node without DMS. *)

From S2P Require Import Prelude TransamDefs SlruInterface Clog CsnLog Transam.

Section Snapshot.
Context {S1 S2 : Type} `{!SlruOps S1} `{!SlruOps S2}.

(** Thread state, and what visibility takes from elsewhere:
    [SyncWaitXidEnd xid] blocks until [xid] has ended, during which other
    backends change the logs in ways this code does not control (it is an
    arbitrary computation here); [TransactionIdIsInProgress] searches the proc
    array. *)
Record vis_env := {
  v_xact :> xact_env;
  xc_maintenance_mode : bool;
  bInAbortTransaction : bool;
  hotStandbyRecycleXid : Z;
  SyncWaitXidEnd : Z → M (xact_state S1 S2) unit;
  TransactionIdIsInProgress : Z → M (xact_state S1 S2) bool;
}.

(** Whether the xid is visible, the status [*hintstatus] is set to, and whether
    [*sync] was set. *)
Record visible_result := mkvis { visible : bool; hintstatus : TransactionIdStatus; sync : bool }.

Definition TransactionIdIsPreparedAtSnapshot (xid : Z) (snapshot : SnapshotData) : bool :=
  existsb (Z.eqb xid) (prepared_array snapshot).

(** The result and [*sync]. *)
Definition IsXidVisibleInGtmLiteLocalSnapshot (fuel : nat) (env : vis_env) (xid : Z)
    (snapshot : SnapshotData) (hint_status : TransactionIdStatus) (xmin_equal_xmax : bool)
    : M (xact_state S1 S2) (bool * bool) :=
  if bool_decide (hint_status = XID_ABORTED) || xmin_equal_xmax then mret (false, false)
  else if negb (bInAbortTransaction env) && TransactionIdIsPreparedAtSnapshot xid snapshot then
    if bool_decide (hint_status = XID_COMMITTED) then mret (true, false)
    else if xc_maintenance_mode env then mret (false, false)
    else
      SyncWaitXidEnd env xid ≫= λ _,
      r ← TransactionIdDidCommit fuel env xid;
      mret (r, true)
  else mret (false, false).

(** [defence_errlevel()] is ERROR in a build without assertions. *)
Definition RecheckXidFinish (env : vis_env) (xid csn : Z) : M (xact_state S1 S2) unit :=
  r ← TransactionIdIsInProgress env xid;
  if (r : bool) then raise ERROR else skip.

(** The rounds of [loop]: [looped] once [tries] is 0. *)
Fixpoint xid_visible_loop (fuel : nat) (env : vis_env) (xid : Z) (snapshot : SnapshotData)
    (tries : nat) (synced : bool) : M (xact_state S1 S2) visible_result :=
  csn ← TransactionIdGetCommitSeqNo fuel env xid false true false (Some snapshot);
  if COMMITSEQNO_IS_COMMITTED csn then
    mret (mkvis (csn <? snapshotcsn snapshot) XID_COMMITTED synced)
  else if COMMITSEQNO_IS_COMMITTING csn then
    if SS_STANDBY_MODE (e_csn env) then raise FATAL
    else match tries with
    | O =>
        if takenDuringRecovery snapshot then mret (mkvis false XID_INPROGRESS synced)
        else
          RecheckXidFinish env xid csn ≫= λ _,
          on_csnlog (CSNLogSetCommitSeqNo (e_csn env) xid [] COMMITSEQNO_ABORTED) ≫= λ _,
          SetLatestFetchState xid COMMITSEQNO_ABORTED ≫= λ _,
          mret (mkvis false XID_ABORTED synced)
    | Datatypes.S tries =>
        if negb (COMMITSEQNO_IS_SUBTRANS csn) && (snapshotcsn snapshot <=? GET_COMMITSEQNO csn)
        then mret (mkvis false XID_INPROGRESS synced)
        else
          let parentXid := if COMMITSEQNO_IS_SUBTRANS csn then GET_PARENTXID csn
                           else InvalidTransactionId in
          if xc_maintenance_mode env || bInAbortTransaction env
          then mret (mkvis false XID_INPROGRESS synced)
          else
            SyncWaitXidEnd env (if TransactionIdIsValid parentXid then parentXid else xid) ≫= λ _,
            xid_visible_loop fuel env xid snapshot tries true
    end
  else
    mret (mkvis false (if csn =? COMMITSEQNO_ABORTED then XID_ABORTED else XID_INPROGRESS) synced).

Definition XidVisibleInSnapshot (fuel : nat) (env : vis_env) (xid : Z) (snapshot : SnapshotData)
    : M (xact_state S1 S2) visible_result :=
  xid_visible_loop fuel env xid snapshot 1 false.

Definition XidVisibleInDecodeSnapshot (fuel : nat) (env : vis_env) (xid : Z) (snapshot : SnapshotData)
    : M (xact_state S1 S2) visible_result :=
  csn ← TransactionIdGetCommitSeqNo fuel env xid false true false (Some snapshot);
  if COMMITSEQNO_IS_COMMITTED csn then
    mret (mkvis (csn <? snapshotcsn snapshot) XID_COMMITTED false)
  else
    mret (mkvis false (if csn =? COMMITSEQNO_ABORTED then XID_ABORTED else XID_INPROGRESS) false).

(** The result, and whether the caller has waited (and its buffer lock been
    released meanwhile), which the code does not report. *)
Fixpoint committed_visible_loop (fuel : nat) (env : vis_env) (xid : Z) (snapshot : SnapshotData)
    (tries : nat) (waited : bool) : M (xact_state S1 S2) (bool * bool) :=
  csn ← TransactionIdGetCommitSeqNo fuel env xid true true false (Some snapshot);
  if COMMITSEQNO_IS_COMMITTING csn then
    if SS_STANDBY_MODE (e_csn env) then raise FATAL
    else match tries with
    | O =>
        on_csnlog (CSNLogSetCommitSeqNo (e_csn env) xid [] COMMITSEQNO_FROZEN) ≫= λ _,
        SetLatestFetchState xid COMMITSEQNO_FROZEN ≫= λ _,
        mret (true, waited)
    | Datatypes.S tries =>
        if negb (COMMITSEQNO_IS_SUBTRANS csn) && (snapshotcsn snapshot <=? GET_COMMITSEQNO csn)
        then mret (false, waited)
        else
          let parentXid := if COMMITSEQNO_IS_SUBTRANS csn then GET_PARENTXID csn
                           else InvalidTransactionId in
          if xc_maintenance_mode env || bInAbortTransaction env then mret (false, waited)
          else
            SyncWaitXidEnd env (if TransactionIdIsValid parentXid then parentXid else xid) ≫= λ _,
            committed_visible_loop fuel env xid snapshot tries true
    end
  else if negb (COMMITSEQNO_IS_COMMITTED csn) then mret (true, waited)
  else mret (csn <? snapshotcsn snapshot, waited).

Definition CommittedXidVisibleInSnapshot (fuel : nat) (env : vis_env) (xid : Z)
    (snapshot : SnapshotData) : M (xact_state S1 S2) (bool * bool) :=
  if (negb (GTM_LITE_MODE env) || gtm_local snapshot) && TransactionIdPrecedes xid (snap_xmin snapshot)
  then mret (true, false)
  else committed_visible_loop fuel env xid snapshot 1 false.

Definition CommittedXidVisibleInDecodeSnapshot (fuel : nat) (env : vis_env) (xid : Z)
    (snapshot : SnapshotData) : M (xact_state S1 S2) bool :=
  csn ← TransactionIdGetCommitSeqNo fuel env xid true true false (Some snapshot);
  if COMMITSEQNO_IS_COMMITTING csn then mret false
  else if negb (COMMITSEQNO_IS_COMMITTED csn) then mret true
  else mret (csn <? snapshotcsn snapshot).

(** [TransactionIdOlderThanAllUndo] is in knl_uvisibility.h. *)
Definition TransactionIdOlderThanAllUndo (env : vis_env) (xid : Z) : bool :=
  if RecoveryInProgress (e_clog env) then xid <? hotStandbyRecycleXid env
  else xid <? globalRecycleXid env.

(** [*hintstatus] is left alone when the xid is older than all undo. *)
Definition UHeapXidVisibleInSnapshot (fuel : nat) (env : vis_env) (xid : Z) (snapshot : SnapshotData)
    (hint : TransactionIdStatus) : M (xact_state S1 S2) visible_result :=
  if TransactionIdOlderThanAllUndo env xid then
    r ← CommittedXidVisibleInSnapshot fuel env xid snapshot;
    mret (mkvis (fst r) hint (snd r))
  else XidVisibleInSnapshot fuel env xid snapshot.

End Snapshot.
Arguments vis_env : clear implicits.

Section SnapshotProofs.
Context {S1 S2 : Type} `{!SlruOps S1} `{!SlruOps S2}
        `{!SlruSpec S1 BLCKSZ} `{!SlruSpec S2 CSNLOG_XACTS_PER_PAGE}.
Implicit Types (w : xact_state S1 S2) (env : vis_env S1 S2) (sn : SnapshotData).

(** An MVCC snapshot taken properly: every transaction below its xmin that
    committed did so before it. *)
Definition snapshot_for sn (x c : Z) : Prop :=
  satisfies sn = SNAPSHOT_MVCC ∧ COMMITSEQNO_FROZEN < snapshotcsn sn ∧
  (x < snap_xmin sn → c < snapshotcsn sn).

(** A node on which commit sequence numbers decide. *)
Definition csn_node_ok env : Prop :=
  GTM_LITE_MODE env = false ∧ IS_MULTI_DISASTER_RECOVER_MODE (e_csn env) = false.

(** Transaction [x] is committed, with [c], in both logs. *)
Definition committed_with w (x c : Z) : Prop :=
  2 < x ∧ σ_of w x = Some CLOG_XID_STATUS_COMMITTED ∧ κ_of w x = Some c ∧
  COMMITSEQNO_FROZEN ≤ c < 2 ^ 60 ∧ csn_cache_for x c w.

(** The CSN of a committed transaction decides as the true one would. *)
Lemma committed_csn_runs fuel env x isCommit sn w c :
  xact_ok w → csn_node_ok env → snapshot_for sn x c → committed_with w x c →
  ∃ r w', runs (TransactionIdGetCommitSeqNo fuel env x isCommit true false (Some sn)) w r w' ∧
    COMMITSEQNO_IS_COMMITTED r = true ∧ COMMITSEQNO_IS_COMMITTING r = false ∧
    (r <? snapshotcsn sn) = (c <? snapshotcsn sn) ∧
    xact_ok w' ∧ same_logs w w' ∧ committed_with w' x c.
Proof.
  intros Hok [Hlite Hdr] (Hsat & Hfr & Hbelow) (Hx & Hσ & Hκ & Hc & Hcache).
  destruct (get_commit_csn_runs fuel env x isCommit sn w c) as (r & w' & Hr & Hv & Hok' & Hs & Hcache');
    try done.
  exists r, w'. unfold COMMITSEQNO_FROZEN in *.
  assert (2 ≤ r < 2 ^ 60) as Hrange by (destruct Hv as [->|[-> _]]; lia).
  split_and!; try done.
  - apply committed_spec; unfold COMMITSEQNO_FROZEN; lia.
  - apply committed_not_committing. lia.
  - destruct Hv as [->|[-> Hlt]]; [done|]. specialize (Hbelow Hlt). lia.
  - destruct Hs as (Hs1 & Hk & _). unfold committed_with. by rewrite Hs1, Hk.
Qed.

(** A snapshot sees exactly the transactions that committed before it. For a
    transaction committed with CSN [c], [XidVisibleInSnapshot] returns without
    waiting, whatever its cache holds, that it is visible iff [c] is smaller
    than the CSN of the snapshot, with the hint "committed"; the logs are
    unchanged. *)
Theorem xid_visible_iff_committed_before fuel env x sn w c :
  xact_ok w → csn_node_ok env → snapshot_for sn x c → committed_with w x c →
  ∃ w', runs (XidVisibleInSnapshot fuel env x sn) w
      (mkvis (c <? snapshotcsn sn) XID_COMMITTED false) w' ∧
    xact_ok w' ∧ same_logs w w' ∧ committed_with w' x c.
Proof.
  intros Hok Hn Hsn Hcw.
  destruct (committed_csn_runs fuel env x false sn w c) as (r & w' & Hr & Hcm & _ & Hlt & ? & ? & ?); try done.
  exists w'. split_and!; try done. unfold XidVisibleInSnapshot. cbn [xid_visible_loop].
  eapply runs_bind; [exact Hr|]. cbn beta. by rewrite Hcm, Hlt.
Qed.

(** The variant for xids hinted as committed. *)
Lemma committed_visible_runs fuel env x sn w c :
  xact_ok w → csn_node_ok env → snapshot_for sn x c → committed_with w x c →
  ∃ w', runs (CommittedXidVisibleInSnapshot fuel env x sn) w (c <? snapshotcsn sn, false) w' ∧
    xact_ok w' ∧ same_logs w w' ∧ committed_with w' x c.
Proof.
  intros Hok Hn Hsn Hcw. unfold CommittedXidVisibleInSnapshot. destruct Hn as [Hlite Hn]. rewrite Hlite.
  cbn [negb orb andb]. destruct (TransactionIdPrecedes x (snap_xmin sn)) eqn:Hp.
  - exists w. apply Z.ltb_lt in Hp. destruct Hsn as (_ & _ & Hbelow).
    rewrite (proj2 (Z.ltb_lt _ _) (Hbelow Hp)). by split_and!; try done; apply same_logs_refl.
  - destruct (committed_csn_runs fuel env x true sn w c) as (r1 & w1 & Hr1 & Hcm1 & Hcg1 & Hlt1 & ? & ? & ?);
      [done|done|done|done|].
    exists w1. split_and!; try done. cbn [committed_visible_loop]. eapply runs_bind; [exact Hr1|]. cbn beta.
    by rewrite Hcg1, Hcm1, Hlt1.
Qed.

(** [CommittedXidVisibleInSnapshot], the variant for xids already hinted as
    committed, with its range check on xmin, gives the same answer as
    [XidVisibleInSnapshot], without waiting either. *)
Theorem committed_xid_visible_agrees fuel env x sn w c :
  xact_ok w → csn_node_ok env → snapshot_for sn x c → committed_with w x c →
  ∃ b w1 w2, runs (CommittedXidVisibleInSnapshot fuel env x sn) w (b, false) w1 ∧
    runs (XidVisibleInSnapshot fuel env x sn) w (mkvis b XID_COMMITTED false) w2.
Proof.
  intros Hok Hn Hsn Hcw. exists (c <? snapshotcsn sn).
  destruct (committed_csn_runs fuel env x false sn w c) as (r & w2 & Hr & Hcm & _ & Hlt & _); try done.
  destruct (committed_visible_runs fuel env x sn w c) as (w1 & Hr1 & _); try done.
  exists w1, w2. split; [done|]. unfold XidVisibleInSnapshot. cbn [xid_visible_loop].
  eapply runs_bind; [exact Hr|]. cbn beta. by rewrite Hcm, Hlt.
Qed.

(** *** Transactions that are not (yet) committed *)

(** What the look-up returns for a transaction at or above the snapshot's xmin
    that is not cached: its word. *)
Lemma uncached_csn_runs fuel env x isCommit sn w v :
  xact_ok w → csn_node_ok env → satisfies sn = SNAPSHOT_MVCC → 2 < x → snap_xmin sn ≤ x →
  cachedFetchCSNXid (cache w) ≠ x → κ_of w x = Some v →
  ∃ w', runs (TransactionIdGetCommitSeqNo fuel env x isCommit true false (Some sn)) w v w' ∧
    xact_ok w' ∧ same_logs w w'.
Proof.
  intros Hok [Hlite Hdr] Hsat Hx Hmin Hnc Hv.
  destruct (csn_log_get_runs env x w v Hok ltac:(lia)) as (w1 & Hr1 & Hok1 & Hs1 & Hc1).
  { unfold raw_csn, InvalidTransactionId, FrozenTransactionId, BootstrapTransactionId.
    by rewrite !(proj2 (Z.eqb_neq _ _)) by lia. }
  assert (∃ w2, runs (if COMMITSEQNO_IS_COMMITTED v || COMMITSEQNO_IS_ABORTED v
     then on_cache (set_cached_csn x v) else skip) w1 tt w2 ∧ xact_ok w2 ∧ same_logs w1 w2)
    as (w2 & Hr2 & Hok2 & Hs2).
  { case_bool; [|by exists w1]. destruct (on_cache_runs (set_cached_csn x v) w1) as (w2 & ? & ? & ? & _); try done.
    by exists w2. }
  destruct (on_cache_runs (set_latest_csn x v) w2) as (w3 & Hr3 & Hok3 & Hs3 & _); try done.
  exists w3. split; [|split; [done|by repeat (eapply same_logs_trans; [done|])]].
  unfold TransactionIdGetCommitSeqNo. eapply (runs_bind _ _ _ InvalidCommitSeqNo w).
  { unfold FetchCSNFromCache. eapply runs_bind; [done|]. cbn beta.
    unfold TransactionIdEquals. by rewrite (proj2 (Z.eqb_neq _ _)). }
  cbn beta. rewrite Z.eqb_refl. cbn [negb]. unfold TransactionIdIsNormal, FirstNormalTransactionId.
  rewrite (proj2 (Z.leb_le _ _)) by lia. cbn [negb].
  eapply (runs_bind _ _ _ v w1).
  { cbn [fetch_csn]. rewrite Hdr. unfold clog_horizon, IsVersionMVCCSnapshot, IsMVCCSnapshot.
    rewrite Hsat, Hlite. cbn [negb andb orb bool_decide].
    replace (TransactionIdPrecedes x _) with false by (symmetry; by apply Z.ltb_ge).
    unfold runs, xact_try. rewrite andb_false_r. by rewrite Hr1. }
  cbn beta. eapply runs_bind; [exact Hr2|]. by eapply runs_bind.
Qed.

(** The caller's side for a transaction that may still be running. *)
Definition running_pre env sn w (x v : Z) : Prop :=
  xact_ok w ∧ csn_node_ok env ∧ satisfies sn = SNAPSHOT_MVCC ∧ 2 < x ∧ snap_xmin sn ≤ x ∧
  cachedFetchCSNXid (cache w) ≠ x ∧ κ_of w x = Some v.

Lemma running_csn_runs fuel env x isCommit sn w v :
  running_pre env sn w x v →
  ∃ w', runs (TransactionIdGetCommitSeqNo fuel env x isCommit true false (Some sn)) w v w' ∧
    xact_ok w' ∧ same_logs w w'.
Proof. intros (? & ? & ? & ? & ? & ? & ?). by apply uncached_csn_runs. Qed.

(** Words that hide the transaction at once: neither committed nor committing,
    or an announced CSN that is not before the snapshot. *)
Definition hides (v snapcsn : Z) : bool :=
  negb (COMMITSEQNO_IS_COMMITTED v) &&
  (negb (COMMITSEQNO_IS_COMMITTING v) ||
   (negb (COMMITSEQNO_IS_SUBTRANS v) && (snapcsn <=? GET_COMMITSEQNO v))).

Lemma hidden_runs fuel env x sn w v :
  running_pre env sn w x v → SS_STANDBY_MODE (e_csn env) = false → hides v (snapshotcsn sn) = true →
  ∃ w', runs (XidVisibleInSnapshot fuel env x sn) w
      (mkvis false (if v =? COMMITSEQNO_ABORTED then XID_ABORTED else XID_INPROGRESS) false) w' ∧
    xact_ok w' ∧ same_logs w w'.
Proof.
  intros Hpre Hss Hh. destruct (running_csn_runs fuel env x false sn w v Hpre) as (w' & Hr & Hok & Hs).
  exists w'. split; [|done]. unfold XidVisibleInSnapshot. cbn [xid_visible_loop].
  eapply runs_bind; [exact Hr|]. cbn beta. unfold hides in Hh. apply andb_true_iff in Hh as [Hc Hh].
  apply negb_true_iff in Hc. rewrite Hc. destruct (COMMITSEQNO_IS_COMMITTING v) eqn:Hcg; [|done].
  cbn [negb orb] in Hh. rewrite Hss, Hh.
  destruct (Z.eqb_spec v COMMITSEQNO_ABORTED) as [->|]; done.
Qed.

(** A transaction that is in progress or aborted, or whose announced CSN is
    not before the snapshot, is invisible at once: [XidVisibleInSnapshot] does
    not wait, does not touch the logs, and reports "aborted" exactly when the CSN
    log says so. *)
Theorem xid_invisible_without_wait fuel env x sn w v :
  running_pre env sn w x v → SS_STANDBY_MODE (e_csn env) = false → hides v (snapshotcsn sn) = true →
  ∃ w', runs (XidVisibleInSnapshot fuel env x sn) w
      (mkvis false (if v =? COMMITSEQNO_ABORTED then XID_ABORTED else XID_INPROGRESS) false) w' ∧
    xact_ok w' ∧ same_logs w w'.
Proof. apply hidden_runs. Qed.

(** What a snapshot sees does not change under it: a transaction that was
    running when the snapshot looked at it first (its word [v] then was 0 or its
    announced CSN), and that has since committed with a CSN not before the
    snapshot, is invisible at both times. *)
Theorem snapshot_repeatable fuel env x sn w1 w2 v c :
  running_pre env sn w1 x v → SS_STANDBY_MODE (e_csn env) = false →
  (v = COMMITSEQNO_INPROGRESS ∨ v = Z.lor c COMMITSEQNO_COMMIT_INPROGRESS) →
  xact_ok w2 → committed_with w2 x c → snapshot_for sn x c → snapshotcsn sn ≤ c →
  ∃ h1 h2 w1' w2', runs (XidVisibleInSnapshot fuel env x sn) w1 (mkvis false h1 false) w1' ∧
    runs (XidVisibleInSnapshot fuel env x sn) w2 (mkvis false h2 false) w2'.
Proof.
  intros Hpre Hss Hv Hok2 Hcw Hsn Hle.
  assert (0 ≤ c < 2 ^ 60) as Hc by (destruct Hcw as (_ & _ & _ & ? & _); unfold COMMITSEQNO_FROZEN in *; lia).
  assert (hides v (snapshotcsn sn) = true) as Hh.
  { unfold hides. destruct Hv as [->| ->]; [done|].
    rewrite lor_inprogress_committing, lor_inprogress_subtrans, committed_not_subtrans by done. cbn [negb orb andb].
    unfold GET_COMMITSEQNO. rewrite lor_inprogress_get, get_mod, Z.mod_small by done.
    rewrite (proj2 (Z.leb_le _ _)) by done. rewrite andb_true_r.
    unfold COMMITSEQNO_IS_COMMITTED. rewrite negb_andb. apply orb_true_iff. right.
    apply negb_true_iff, Z.eqb_neq. intros Habs.
    assert (Z.testbit (Z.land (Z.lor c COMMITSEQNO_COMMIT_INPROGRESS) COMMITSEQNO_RESERVE_MASK) 62 = false) as Hb
      by (rewrite Habs; apply Z.bits_0).
    rewrite Z.land_spec, Z.lor_spec in Hb. cbn in Hb. by rewrite orb_true_r in Hb. }
  destruct (hidden_runs fuel env x sn w1 v Hpre Hss Hh) as (w1' & Hr1 & _).
  destruct (committed_csn_runs fuel env x false sn w2 c) as (r & w2' & Hr & Hcm & _ & Hlt & _); try done.
  { apply Hpre. }
  eexists _, XID_COMMITTED, w1', w2'. split; [exact Hr1|].
  unfold XidVisibleInSnapshot. cbn [xid_visible_loop]. eapply runs_bind; [exact Hr|]. cbn beta.
  rewrite Hcm, Hlt. by rewrite (proj2 (Z.ltb_ge _ _)).
Qed.

(** A transaction that died while committing is settled as aborted: when the
    wait for it has ended and its word still says "committing" although it no
    longer runs, [XidVisibleInSnapshot] writes [ABORTED] into the CSN log and
    reports it, so that everyone later agrees. *)
Theorem committing_settled_aborted fuel env x sn w v w1 v1 :
  running_pre env sn w x v → SS_STANDBY_MODE (e_csn env) = false →
  COMMITSEQNO_IS_COMMITTED v = false → COMMITSEQNO_IS_COMMITTING v = true →
  COMMITSEQNO_IS_SUBTRANS v = false → GET_COMMITSEQNO v < snapshotcsn sn →
  takenDuringRecovery sn = false → xc_maintenance_mode env = false → bInAbortTransaction env = false →
  (∀ w', same_logs w w' → runs (SyncWaitXidEnd env x) w' tt w1) →
  running_pre env sn w1 x v1 → COMMITSEQNO_IS_COMMITTED v1 = false → COMMITSEQNO_IS_COMMITTING v1 = true →
  (∀ w', same_logs w1 w' → runs (TransactionIdIsInProgress env x) w' false w') →
  (∀ s, slru_ok s → csn_word s x = Some v1 → csn_pre (e_csn env) x [] COMMITSEQNO_ABORTED s) →
  ∃ w', runs (XidVisibleInSnapshot fuel env x sn) w (mkvis false XID_ABORTED true) w' ∧
    κ_of w' x = Some COMMITSEQNO_ABORTED.
Proof.
  intros Hpre Hss Hc Hcg Hns Hlt Hrec Hmm Hab Hwait Hpre1 Hc1 Hcg1 Hdead Habort.
  destruct (running_csn_runs fuel env x false sn w v Hpre) as (wa & Hra & _ & Hsa).
  destruct (running_csn_runs fuel env x false sn w1 v1 Hpre1) as (wb & Hrb & Hokb & Hsb).
  assert (κ_of wb x = Some v1) as Hkb.
  { destruct Hsb as (_ & Hk & _). rewrite Hk. apply Hpre1. }
  destruct (csn_set_commit_words (e_csn env) x [] COMMITSEQNO_ABORTED (csnlog wb)) as (c & Hrc & _ & Hcx & _).
  { apply Habort; [apply Hokb|done]. }
  eexists. split.
  - unfold XidVisibleInSnapshot. cbn [xid_visible_loop]. eapply runs_bind; [exact Hra|]. cbn beta.
    rewrite Hc, Hcg, Hss, Hns, Hmm, Hab. cbn [negb andb orb].
    rewrite (proj2 (Z.leb_gt _ _)) by done. cbn [TransactionIdIsValid].
    eapply runs_bind; [by apply Hwait|]. eapply runs_bind; [exact Hrb|]. cbn beta.
    rewrite Hc1, Hcg1, Hrec. eapply runs_bind.
    { unfold RecheckXidFinish. eapply runs_bind; [by apply Hdead|]. done. }
    eapply runs_bind; [by apply on_csnlog_runs|]. eapply runs_bind; [apply runs_modify|]. done.
  - unfold κ_of in *. cbn. rewrite Hcx, Hkb. cbn. unfold merge_csn. case_bool; [|done].
    f_equal. by apply Z.eqb_eq.
Qed.

End SnapshotProofs.

(** ** Concrete snapshots *)

Section SnapshotWitness.

(** Transaction 3 has announced CSN 50 and not finished. *)
Definition committing3 : xact_state (page_store BLCKSZ) (page_store CSNLOG_XACTS_PER_PAGE) :=
  xact_demo demo_store
    {[ 0 := aset empty_page 3 (Z.lor 50 COMMITSEQNO_COMMIT_INPROGRESS); 1 := empty_page ]}.

Definition vis_demo_env : vis_env (page_store BLCKSZ) (page_store CSNLOG_XACTS_PER_PAGE) := {|
  v_xact := xact_demo_env; xc_maintenance_mode := false; bInAbortTransaction := false;
  hotStandbyRecycleXid := 0; SyncWaitXidEnd := λ _ _, (Ok tt, committing3);
  TransactionIdIsInProgress := λ _, mret false |}.

Lemma committed3_with : committed_with committed3 3 50.
Proof. split_and!; try done. Qed.

Lemma xid_visible_iff_committed_before_witness :
  ∃ w', runs (XidVisibleInSnapshot 1 vis_demo_env 3 (demo_snapshot 3 60)) committed3
      (mkvis true XID_COMMITTED false) w'.
Proof.
  destruct (xid_visible_iff_committed_before 1 vis_demo_env 3 (demo_snapshot 3 60) committed3 50)
    as (w' & Hr & _).
  - apply committed3_ok.
  - done.
  - split_and!; [done|done|cbn; lia].
  - apply committed3_with.
  - exists w'. exact Hr.
Defined.

(** The boundary: a transaction whose CSN equals that of the snapshot is not
    visible to it. *)
Theorem own_csn_not_visible :
  ∃ w', runs (XidVisibleInSnapshot 1 vis_demo_env 3 (demo_snapshot 3 50)) committed3
      (mkvis false XID_COMMITTED false) w'.
Proof. eexists. vm_compute. reflexivity. Qed.

Lemma committed_xid_visible_agrees_witness :
  ∃ b w1, runs (CommittedXidVisibleInSnapshot 1 vis_demo_env 3 (demo_snapshot 3 60)) committed3 b w1.
Proof.
  destruct (committed_xid_visible_agrees 1 vis_demo_env 3 (demo_snapshot 3 60) committed3 50)
    as (b & w1 & _ & Hr & _).
  - apply committed3_ok.
  - done.
  - split_and!; [done|done|cbn; lia].
  - apply committed3_with.
  - exists (b, false), w1. exact Hr.
Defined.

Lemma fresh_running sn :
  satisfies sn = SNAPSHOT_MVCC → snap_xmin sn = 3 → running_pre vis_demo_env sn (xact_demo demo_store fresh) 3 0.
Proof. intros ? Hm. split_and!; try done; [apply demo_xact_ok|lia]. Qed.

Lemma xid_invisible_without_wait_witness :
  ∃ w', runs (XidVisibleInSnapshot 1 vis_demo_env 3 (demo_snapshot 3 60)) (xact_demo demo_store fresh)
      (mkvis false XID_INPROGRESS false) w'.
Proof.
  destruct (xid_invisible_without_wait 1 vis_demo_env 3 (demo_snapshot 3 60) (xact_demo demo_store fresh) 0)
    as (w' & Hr & _).
  - by apply fresh_running.
  - done.
  - done.
  - exists w'. exact Hr.
Defined.

Lemma snapshot_repeatable_witness :
  ∃ h1 h2 w1' w2',
    runs (XidVisibleInSnapshot 1 vis_demo_env 3 (demo_snapshot 3 40)) (xact_demo demo_store fresh)
      (mkvis false h1 false) w1' ∧
    runs (XidVisibleInSnapshot 1 vis_demo_env 3 (demo_snapshot 3 40)) committed3 (mkvis false h2 false) w2'.
Proof.
  apply (snapshot_repeatable 1 vis_demo_env 3 (demo_snapshot 3 40) (xact_demo demo_store fresh) committed3 0 50).
  - by apply fresh_running.
  - done.
  - by left.
  - apply committed3_ok.
  - apply committed3_with.
  - split_and!; [done|done|cbn; lia].
  - cbn. lia.
Defined.

Lemma committing3_running sn :
  satisfies sn = SNAPSHOT_MVCC → snap_xmin sn = 3 →
  running_pre vis_demo_env sn committing3 3 (Z.lor 50 COMMITSEQNO_COMMIT_INPROGRESS).
Proof.
  intros ? Hm. split_and!; try done; [|lia]. split_and!; [apply demo_ok|by eapply two_pages_ok|done].
Qed.

Lemma committing_settled_aborted_witness :
  ∃ w', runs (XidVisibleInSnapshot 1 vis_demo_env 3 (demo_snapshot 3 60)) committing3
      (mkvis false XID_ABORTED true) w' ∧ κ_of w' 3 = Some COMMITSEQNO_ABORTED.
Proof.
  apply (committing_settled_aborted 1 vis_demo_env 3 (demo_snapshot 3 60) committing3
    (Z.lor 50 COMMITSEQNO_COMMIT_INPROGRESS) committing3 (Z.lor 50 COMMITSEQNO_COMMIT_INPROGRESS)); try done.
  - by apply committing3_running.
  - by apply committing3_running.
  - intros s Hok Hs. split_and!; try done. split; [cbn; constructor; [apply not_elem_of_nil|constructor]|].
    intros x v Hin. cbn in Hin. apply list_elem_of_singleton in Hin as [= -> ->].
    split; [lia|]. eexists. split; [exact Hs|]. vm_compute. reflexivity.
Defined.

End SnapshotWitness.
