(* ===== verification/HeapTuple.v ===== *)
(** * Heap tuple headers

    The header of a heap tuple and the flag bits and accessors of
    [src/include/access/htup.h], as the visibility tests, the combo command ids
    ([ComboCid.v]) and tuple locking use them. *)

From S2P Require Import Prelude TransamDefs.

(** ** Flag bits *)

Definition HEAP_COMBOCID : Z := 0x0020.
Definition HEAP_XMAX_EXCL_LOCK : Z := 0x0040.
Definition HEAP_XMAX_SHARED_LOCK : Z := 0x0080.
Definition HEAP_XMAX_KEYSHR_LOCK : Z := Z.lor HEAP_XMAX_EXCL_LOCK HEAP_XMAX_SHARED_LOCK.
Definition HEAP_LOCK_MASK : Z :=
  Z.lor (Z.lor HEAP_XMAX_EXCL_LOCK HEAP_XMAX_SHARED_LOCK) HEAP_XMAX_KEYSHR_LOCK.
Definition HEAP_XMIN_COMMITTED : Z := 0x0100.
Definition HEAP_XMIN_INVALID : Z := 0x0200.
Definition HEAP_XMIN_FROZEN : Z := Z.lor HEAP_XMIN_INVALID HEAP_XMIN_COMMITTED.
Definition HEAP_XMAX_COMMITTED : Z := 0x0400.
Definition HEAP_XMAX_INVALID : Z := 0x0800.
Definition HEAP_XMAX_IS_MULTI : Z := 0x1000.
Definition HEAP_XMAX_LOCK_ONLY : Z := 0x0800.

(** [mask & bit], used as a condition. *)
Definition flag (mask bit : Z) : bool := negb (Z.land mask bit =? 0).

(** ** Headers *)

(** Fixed part of the header; [t_xmin] and [t_xmax] are 32-bit, relative to the
    page. *)
Record HeapTupleHeaderData := {
  t_xmin : Z;
  t_xmax : Z;
  t_cid : Z;
  t_ctid : Z * Z;
  t_infomask2 : Z;
  t_infomask : Z;
}.

(** What the code reads of the page header. *)
Record HeapPageHeaderData := {
  pd_xid_base : Z;
  pd_multi_base : Z;
}.

Record HeapTupleData := {
  t_self : Z * Z;
  t_xid_base : Z;
  t_multi_base : Z;
  t_data : HeapTupleHeaderData;
}.

Definition set_infomask (h : HeapTupleHeaderData) (m : Z) : HeapTupleHeaderData :=
  {| t_xmin := t_xmin h; t_xmax := t_xmax h; t_cid := t_cid h; t_ctid := t_ctid h;
     t_infomask2 := t_infomask2 h; t_infomask := m |}.

Definition HEAP_XMAX_IS_LOCKED_ONLY (infomask infomask2 : Z) : bool :=
  flag infomask2 HEAP_XMAX_LOCK_ONLY || flag infomask HEAP_XMAX_SHARED_LOCK
  || (Z.land infomask (Z.lor HEAP_XMAX_IS_MULTI HEAP_LOCK_MASK) =? HEAP_XMAX_EXCL_LOCK).

Definition HeapTupleHeaderXminCommitted (h : HeapTupleHeaderData) : bool :=
  flag (t_infomask h) HEAP_XMIN_COMMITTED.
Definition HeapTupleHeaderXminInvalid (h : HeapTupleHeaderData) : bool :=
  Z.land (t_infomask h) (Z.lor HEAP_XMIN_COMMITTED HEAP_XMIN_INVALID) =? HEAP_XMIN_INVALID.
Definition HeapTupleHeaderXminFrozen (h : HeapTupleHeaderData) : bool :=
  Z.land (t_infomask h) HEAP_XMIN_FROZEN =? HEAP_XMIN_FROZEN.

Definition HeapTupleHeaderGetXmin (page : HeapPageHeaderData) (h : HeapTupleHeaderData) : Z :=
  ShortTransactionIdToNormal (pd_xid_base page) (t_xmin h).
Definition HeapTupleHeaderGetXmax (page : HeapPageHeaderData) (h : HeapTupleHeaderData) : Z :=
  ShortTransactionIdToNormal
    (if flag (t_infomask h) HEAP_XMAX_IS_MULTI then pd_multi_base page else pd_xid_base page)
    (t_xmax h).
Definition HeapTupleHeaderGetRawXmax := HeapTupleHeaderGetXmax.

Definition HeapTupleGetRawXmin (tup : HeapTupleData) : Z :=
  ShortTransactionIdToNormal (t_xid_base tup) (t_xmin (t_data tup)).
Definition HeapTupleGetRawXmax (tup : HeapTupleData) : Z :=
  ShortTransactionIdToNormal
    (if flag (t_infomask (t_data tup)) HEAP_XMAX_IS_MULTI then t_multi_base tup else t_xid_base tup)
    (t_xmax (t_data tup)).

Definition HeapTupleCopyBaseFromPage (tup : HeapTupleData) (page : HeapPageHeaderData)
    : HeapTupleData :=
  {| t_self := t_self tup; t_xid_base := pd_xid_base page; t_multi_base := pd_multi_base page;
     t_data := t_data tup |}.

Definition HeapTupleHeaderGetRawCommandId (h : HeapTupleHeaderData) : Z := t_cid h.

Definition HeapTupleHeaderSetCmin (h : HeapTupleHeaderData) (cid : Z) : HeapTupleHeaderData :=
  {| t_xmin := t_xmin h; t_xmax := t_xmax h; t_cid := cid; t_ctid := t_ctid h;
     t_infomask2 := t_infomask2 h;
     t_infomask := Z.land (t_infomask h) (lnotw 16 HEAP_COMBOCID) |}.

Definition HeapTupleHeaderSetCmax (h : HeapTupleHeaderData) (cid : Z) (iscombo : bool)
    : HeapTupleHeaderData :=
  {| t_xmin := t_xmin h; t_xmax := t_xmax h; t_cid := cid; t_ctid := t_ctid h;
     t_infomask2 := t_infomask2 h;
     t_infomask := if iscombo then Z.lor (t_infomask h) HEAP_COMBOCID
                   else Z.land (t_infomask h) (lnotw 16 HEAP_COMBOCID) |}.

(** ** Facts on flags *)

Lemma flag_lor m a b : flag (Z.lor m a) b = flag m b || flag a b.
Proof.
  unfold flag. rewrite Z.land_lor_distr_l, <- negb_andb. f_equal.
  apply eq_iff_eq_true. rewrite andb_true_iff, !Z.eqb_eq. apply Z.lor_eq_0_iff.
Qed.

Lemma land_bit m b : 0 ≤ b → Z.land m (2 ^ b) = if flag m (2 ^ b) then 2 ^ b else 0.
Proof.
  intros Hb. unfold flag. rewrite land_flag by done. destruct (Z.testbit m b); [|done].
  destruct (Z.eqb_spec (2 ^ b) 0); [|done]. exfalso.
  assert (0 < 2 ^ b) by (apply Z.pow_pos_nonneg; lia). lia.
Qed.

Lemma xmin_invalid_flags h :
  HeapTupleHeaderXminInvalid h
  = negb (flag (t_infomask h) HEAP_XMIN_COMMITTED) && flag (t_infomask h) HEAP_XMIN_INVALID.
Proof.
  unfold HeapTupleHeaderXminInvalid. rewrite Z.land_lor_distr_r.
  change HEAP_XMIN_COMMITTED with (2 ^ 8). change HEAP_XMIN_INVALID with (2 ^ 9).
  rewrite !land_bit by done. by destruct (flag _ _), (flag _ _).
Qed.

Lemma xmin_frozen_flags h :
  HeapTupleHeaderXminFrozen h
  = flag (t_infomask h) HEAP_XMIN_COMMITTED && flag (t_infomask h) HEAP_XMIN_INVALID.
Proof.
  unfold HeapTupleHeaderXminFrozen, HEAP_XMIN_FROZEN. rewrite Z.land_lor_distr_r.
  change HEAP_XMIN_COMMITTED with (2 ^ 8). change HEAP_XMIN_INVALID with (2 ^ 9).
  rewrite !land_bit by done. by destruct (flag _ _), (flag _ _).
Qed.

(** Clearing [HEAP_COMBOCID], and setting it, decide it. *)
Lemma flag_clear_combo m : flag (Z.land m (lnotw 16 HEAP_COMBOCID)) HEAP_COMBOCID = false.
Proof. unfold flag. by rewrite <- Z.land_assoc, Z.land_0_r. Qed.

Lemma flag_set_combo m : flag (Z.lor m HEAP_COMBOCID) HEAP_COMBOCID = true.
Proof. rewrite flag_lor. by rewrite orb_true_r. Qed.

(** A bit that is not among those of [b] does not change what [b] selects. *)
Lemma land_lor_disjoint m a b : Z.land a b = 0 → Z.land (Z.lor m a) b = Z.land m b.
Proof. intros H. by rewrite Z.land_lor_distr_l, H, Z.lor_0_r. Qed.
