(* ===== verification/LockDefs.v ===== *)
(** * Lock modes and masks

    The modes of the heavyweight lock manager, the table that says which of them conflict
    ([src/gausskernel/storage/lmgr/lock.cpp], [src/include/storage/lock/lock.h]), and bit
    masks over modes. *)

From S2P Require Import Prelude HeapTuple.

Definition NoLock : Z := 0.
Definition AccessShareLock : Z := 1.
Definition RowShareLock : Z := 2.
Definition RowExclusiveLock : Z := 3.
Definition ShareUpdateExclusiveLock : Z := 4.
Definition ShareLock : Z := 5.
Definition ShareRowExclusiveLock : Z := 6.
Definition ExclusiveLock : Z := 7.
Definition AccessExclusiveLock : Z := 8.

Definition LOCKBIT_ON (lockmode : Z) : Z := Z.shiftl 1 lockmode.
Definition mask_of (modes : list Z) : Z := foldr (λ m acc, Z.lor (LOCKBIT_ON m) acc) 0 modes.

Definition LockConflicts : list Z := [
  0;
  mask_of [AccessExclusiveLock];
  mask_of [ExclusiveLock; AccessExclusiveLock];
  mask_of [ShareLock; ShareRowExclusiveLock; ExclusiveLock; AccessExclusiveLock];
  mask_of [ShareUpdateExclusiveLock; ShareLock; ShareRowExclusiveLock; ExclusiveLock; AccessExclusiveLock];
  mask_of [RowExclusiveLock; ShareUpdateExclusiveLock; ShareRowExclusiveLock; ExclusiveLock; AccessExclusiveLock];
  mask_of [RowExclusiveLock; ShareUpdateExclusiveLock; ShareLock; ShareRowExclusiveLock; ExclusiveLock;
           AccessExclusiveLock];
  mask_of [RowShareLock; RowExclusiveLock; ShareUpdateExclusiveLock; ShareLock; ShareRowExclusiveLock;
           ExclusiveLock; AccessExclusiveLock];
  mask_of [AccessShareLock; RowShareLock; RowExclusiveLock; ShareUpdateExclusiveLock; ShareLock;
           ShareRowExclusiveLock; ExclusiveLock; AccessExclusiveLock] ].

Definition DoLockModesConflict (mode1 mode2 : Z) : bool :=
  flag (aget 0 LockConflicts mode1) (LOCKBIT_ON mode2).

Definition MAX_LOCKMODES : Z := 10.
Definition numLockModes : Z := AccessExclusiveLock.
Definition LOCKBIT_OFF (lockmode : Z) : Z := lnotw 32 (LOCKBIT_ON lockmode).

(** [lockMethodTable->conflictTab[lockmode]]; both lock methods share the table. *)
Definition conflictTab (lockmode : Z) : Z := aget 0 LockConflicts lockmode.

(** ** Masks as sets *)

Definition valid_mode (m : Z) : Prop := 1 ≤ m ≤ numLockModes.

(** A mask of lock modes: no bit but those of modes. *)
Definition mask_ok (x : Z) : Prop := 0 ≤ x ∧ ∀ i, 0 ≤ i → Z.testbit x i = true → valid_mode i.

Lemma testbit_lockbit m i : 0 ≤ m → 0 ≤ i → Z.testbit (LOCKBIT_ON m) i = bool_decide (i = m).
Proof.
  intros Hm Hi. unfold LOCKBIT_ON. rewrite Z.shiftl_1_l. case_bool_decide; [subst; by apply Z.pow2_bits_true|by apply Z.pow2_bits_false].
Qed.

Lemma flag_lockbit x m : 0 ≤ m → flag x (LOCKBIT_ON m) = Z.testbit x m.
Proof.
  intros Hm. unfold flag, LOCKBIT_ON. rewrite Z.shiftl_1_l, land_flag by done. destruct (Z.testbit x m); [|done].
  apply negb_true_iff, Z.eqb_neq. pose proof (Z.pow_pos_nonneg 2 m). lia.
Qed.

Lemma testbit_on x m i : 0 ≤ m → 0 ≤ i → Z.testbit (Z.lor x (LOCKBIT_ON m)) i = Z.testbit x i || bool_decide (i = m).
Proof. intros. by rewrite Z.lor_spec, testbit_lockbit. Qed.

Lemma testbit_off x m i :
  0 ≤ m → 0 ≤ i < 32 → Z.testbit (Z.land x (LOCKBIT_OFF m)) i = Z.testbit x i && negb (bool_decide (i = m)).
Proof.
  intros Hm Hi. unfold LOCKBIT_OFF, lnotw. rewrite !Z.land_spec, Z.lnot_spec, testbit_lockbit, Z.testbit_ones_nonneg by lia.
  rewrite (proj2 (Z.ltb_lt i 32)) by lia. by rewrite andb_true_r.
Qed.

Lemma land_zero x y : 0 ≤ x → (Z.land x y = 0 ↔ ∀ i, 0 ≤ i → Z.testbit x i = true → Z.testbit y i = false).
Proof.
  intros Hx. split.
  - intros H i Hi Hb. pose proof (Z.land_spec x y i) as E. rewrite H, Z.bits_0, Hb in E. by destruct (Z.testbit y i).
  - intros H. apply Z.bits_inj'. intros i Hi. rewrite Z.land_spec, Z.bits_0. destruct (Z.testbit x i) eqn:E; [|done]. by rewrite H.
Qed.

Lemma mask_ok_on x m : mask_ok x → valid_mode m → mask_ok (Z.lor x (LOCKBIT_ON m)).
Proof.
  intros [H1 H2] Hm. unfold valid_mode in Hm. split.
  - apply Z.lor_nonneg. split; [done|]. unfold LOCKBIT_ON. rewrite Z.shiftl_1_l. apply Z.pow_nonneg. lia.
  - intros i Hi. rewrite testbit_on by lia. intros [?|?]%orb_true_iff; [by apply H2|]. case_bool_decide; [by subst|done].
Qed.

Lemma mask_ok_off x m : mask_ok x → valid_mode m → mask_ok (Z.land x (LOCKBIT_OFF m)).
Proof.
  intros [H1 H2] Hm. split; [by apply Z.land_nonneg; left|]. intros i Hi. rewrite Z.land_spec. intros [? _]%andb_true_iff. by apply H2.
Qed.

Lemma testbit_off_ok x m i :
  mask_ok x → valid_mode m → 0 ≤ i → Z.testbit (Z.land x (LOCKBIT_OFF m)) i = Z.testbit x i && negb (bool_decide (i = m)).
Proof.
  intros [H1 H2] Hm Hi. unfold valid_mode, numLockModes, AccessExclusiveLock in *. destruct (decide (i < 32)); [apply testbit_off; lia|].
  rewrite Z.land_spec. destruct (Z.testbit x i) eqn:E; [|done]. specialize (H2 i Hi E). lia.
Qed.

Lemma mask_zero x : mask_ok x → (x = 0 ↔ ∀ i, valid_mode i → Z.testbit x i = false).
Proof.
  intros [H1 H2]. split; [intros -> i _; apply Z.bits_0|]. intros H. apply Z.bits_inj'. intros i Hi. rewrite Z.bits_0.
  destruct (Z.testbit x i) eqn:E; [|done]. rewrite <- E. by apply H, H2.
Qed.

(** ** Conflicts *)

Definition conflict (m m' : Z) : bool := Z.testbit (conflictTab m) m'.

Lemma conflictTab_ok m : valid_mode m → mask_ok (conflictTab m).
Proof.
  intros Hm. assert (m = 1 ∨ m = 2 ∨ m = 3 ∨ m = 4 ∨ m = 5 ∨ m = 6 ∨ m = 7 ∨ m = 8) as Hcases
    by (unfold valid_mode, numLockModes, AccessExclusiveLock in Hm; lia).
  assert (∀ x, Z.land x (Z.lnot 510) = 0 → 0 ≤ x → mask_ok x) as Hall.
  { intros x Hx H0. split; [done|]. intros i Hi Hb. pose proof (Z.land_spec x (Z.lnot 510) i) as E. rewrite Hx, Z.bits_0, Hb, Z.lnot_spec in E by done.
    unfold valid_mode, numLockModes, AccessExclusiveLock. destruct (decide (i = 0)) as [->|]; [done|]. destruct (decide (i < 9)); [lia|].
    rewrite (Z.bits_above_log2 510 i) in E; [done|lia|]. change (Z.log2 510) with 8. lia. }
  destruct Hcases as [->|[->|[->|[->|[->|[->|[->| ->]]]]]]]; apply Hall; done.
Qed.

Lemma conflict_sym m m' : valid_mode m → valid_mode m' → conflict m m' = conflict m' m.
Proof.
  unfold valid_mode, numLockModes, AccessExclusiveLock. intros Hm Hm'.
  assert (forallb (λ a, forallb (λ b, eqb (conflict a b) (conflict b a)) (zrange 9)) (zrange 9) = true) as H by done.
  pose proof (zrange_forallb 9 _ H m ltac:(lia)) as H1. cbv beta in H1. pose proof (zrange_forallb 9 _ H1 m' ltac:(lia)) as H2. by apply eqb_prop in H2.
Qed.

(** No mode of [y] conflicts with the request. *)
Lemma no_conflict m y : valid_mode m → (Z.land (conflictTab m) y = 0 ↔ ∀ i, valid_mode i → Z.testbit y i = true → conflict m i = false).
Proof.
  intros Hm. destruct (conflictTab_ok m Hm) as [H1 H2]. rewrite land_zero by done. unfold conflict, valid_mode in *. split.
  - intros H i Hi Hy. destruct (Z.testbit (conflictTab m) i) eqn:E; [|done]. rewrite (H i) in Hy; [done|lia|done].
  - intros H i Hi Hc. destruct (Z.testbit y i) eqn:E; [|done]. rewrite H in Hc; [done|by apply H2|done].
Qed.

Lemma conflict_exists m y : valid_mode m → Z.land (conflictTab m) y ≠ 0 → ∃ i, valid_mode i ∧ Z.testbit y i = true ∧ conflict m i = true.
Proof.
  intros Hm Hne. destruct (decide (Exists (λ i, Z.testbit y i = true ∧ conflict m i = true) (seqZ 1 numLockModes))) as [Hex|Hno].
  - apply Exists_exists in Hex as (i & Hi%elem_of_seqZ & ? & ?). exists i. unfold valid_mode. split_and!; [lia|lia|done|done].
  - contradict Hne. apply no_conflict; [done|]. intros i Hi Hb. destruct (conflict m i) eqn:E; [|done]. contradict Hno. apply Exists_exists.
    exists i. split; [apply elem_of_seqZ; unfold valid_mode in Hi; lia|done].
Qed.

(** ** Counting *)

Fixpoint count {A} (f : A → bool) (l : list A) : Z :=
  match l with [] => 0 | x :: l => (if f x then 1 else 0) + count f l end.

Section Count.
Context {A : Type}.
Implicit Types (f g : A → bool) (l : list A).

Lemma count_nonneg f l : 0 ≤ count f l.
Proof. induction l as [|x l IH]; cbn; [lia|]. destruct (f x); lia. Qed.

Lemma count_app f l l' : count f (l ++ l') = count f l + count f l'.
Proof. induction l as [|x l IH]; cbn; [lia|]. rewrite IH. lia. Qed.

Lemma count_ext f g l : (∀ x, x ∈ l → f x = g x) → count f l = count g l.
Proof.
  induction l as [|x l IH]; intros H; cbn; [done|]. rewrite (H x) by by left. rewrite IH; [done|]. intros y Hy. apply H. by right.
Qed.

Lemma count_or f g l : (∀ x, x ∈ l → f x = true → g x = false) → count (λ x, f x || g x) l = count f l + count g l.
Proof.
  induction l as [|x l IH]; intros H; cbn; [done|]. rewrite IH by (intros; apply H; [by right|done]).
  pose proof (H x ltac:(by left)). destruct (f x), (g x); cbn; try lia; naive_solver.
Qed.

(** A weaker condition counts more, strictly if something satisfies only it. *)
Lemma count_lt f g l : (∀ x, x ∈ l → f x = true → g x = true) → (count f l < count g l ↔ ∃ x, x ∈ l ∧ g x = true ∧ f x = false).
Proof.
  induction l as [|x l IH]; intros H; cbn; [split; [lia|]; intros (x & []%not_elem_of_nil & _)|].
  assert (count f l ≤ count g l) as Hle.
  { destruct (decide (count f l ≤ count g l)) as [|Hn]; [done|]. clear IH. exfalso. apply Hn. clear Hn.
    assert (∀ y, y ∈ l → f y = true → g y = true) as H' by (intros; apply H; [by right|done]). clear H. induction l as [|y l IH]; cbn; [lia|].
    pose proof (H' y ltac:(by left)) as Hy. assert (count f l ≤ count g l) by (apply IH; intros; apply H'; [by right|done]).
    destruct (f y), (g y); try lia; naive_solver. }
  pose proof (H x ltac:(by left)) as Hx. specialize (IH ltac:(intros; apply H; [by right|done])).
  split.
  - intros Hlt. destruct (f x) eqn:Ef, (g x) eqn:Eg; [|naive_solver|exists x; split; [by left|done]|].
    all: destruct (proj1 IH ltac:(lia)) as (y & Hy & ?); exists y; split; [by right|done].
  - intros (y & Hy & Hg & Hf). apply elem_of_cons in Hy as [->|Hy]; [rewrite Hf, Hg; lia|].
    assert (count f l < count g l) by (apply IH; by exists y). destruct (f x), (g x); try lia; naive_solver.
Qed.

Lemma count_pos f l : 0 < count f l ↔ ∃ x, x ∈ l ∧ f x = true.
Proof.
  assert (count (λ _ : A, false) l = 0) as E by (induction l; cbn; lia). rewrite <- E at 1.
  rewrite (count_lt (λ _, false) f) by done. naive_solver.
Qed.

Lemma count_zero f l : count f l = 0 ↔ ∀ x, x ∈ l → f x = false.
Proof.
  split.
  - intros H x Hx. destruct (f x) eqn:E; [|done]. assert (0 < count f l); [|lia]. apply count_pos. eauto.
  - intros H. pose proof (count_nonneg f l). assert (¬ 0 < count f l); [|lia]. intros (x & Hx & Hf)%count_pos. by rewrite H in Hf.
Qed.

Lemma count_perm f l l' : l ≡ₚ l' → count f l = count f l'.
Proof. induction 1; cbn; lia. Qed.

Lemma filter_ne_all `{!EqDecision A} (p : A) l : p ∉ l → filter (λ q, q ≠ p) l = l.
Proof.
  induction l as [|x l IH]; intros Hp; [done|]. apply not_elem_of_cons in Hp as [Hne Hp]. rewrite filter_cons, decide_True by congruence. by rewrite IH.
Qed.

Lemma count_remove `{!EqDecision A} f (p : A) l : NoDup l → p ∈ l → count f l = count f (filter (λ q, q ≠ p) l) + if f p then 1 else 0.
Proof.
  induction l as [|x l IH]; intros Hnd Hp; [by apply not_elem_of_nil in Hp|]. apply NoDup_cons in Hnd as [Hx Hnd]. cbn [count].
  rewrite filter_cons. apply elem_of_cons in Hp as [->|Hp].
  - rewrite decide_False by (intros E; by apply E). rewrite filter_ne_all by done. lia.
  - rewrite decide_True by (intros ->; done). cbn [count]. rewrite IH by done. lia.
Qed.
End Count.

(** Setting the bits of the modes that satisfy [g]. *)
Lemma testbit_collect g (l : list Z) : ∀ acc k, 0 ≤ k → Forall (λ i, 0 ≤ i) l →
  Z.testbit (foldl (λ acc i, if g i : bool then Z.lor acc (LOCKBIT_ON i) else acc) acc l) k = Z.testbit acc k || (bool_decide (k ∈ l) && g k).
Proof.
  induction l as [|i l IH]; intros acc k Hk Hl; cbn [foldl].
  - rewrite bool_decide_eq_false_2 by apply not_elem_of_nil. by rewrite orb_false_r.
  - apply Forall_cons in Hl as [Hi Hl]. rewrite IH by done. assert (bool_decide (k ∈ i :: l) = bool_decide (k = i) || bool_decide (k ∈ l)) as ->
      by (repeat case_bool_decide; set_solver).
    destruct (g i) eqn:Eg; [rewrite testbit_on by done|]; repeat case_bool_decide; subst; rewrite ?Eg; by repeat destruct (Z.testbit _ _).
Qed.
