(* ===== verification/LockMgr.v ===== *)
(** * The heavyweight lock manager: grants and wait queues

    [src/gausskernel/storage/lmgr/lock.cpp] and the wait queues of [proc.cpp]: a [LOCK] in
    shared memory has a [PROCLOCK] for every process that holds or awaits it, counts and
    masks of the modes granted and requested, and a queue of waiting processes.

    Modelled: [SetupLockInTable], [LockCheckConflicts], [GrantLock], [UnGrantLock],
    [CleanUpLock], [ProcWakeup], [ProcLockWakeup], [RemoveFromWaitQueue], [ProcSleep] up to
    the moment the process sleeps, and what [LockAcquireExtendedXC], [LockRelease] and
    [LockReleaseAll] do with the shared table, each under the partition lock and hence
    without interruption. Lock groups and the threads of one streaming query, which do not
    conflict with each other, are part of it.

    Not modelled: the backend-local table of counts ([LOCALLOCK]), the fast path, signals
    (so that [STATUS_FOUND_NEED_CANCEL] is [STATUS_FOUND]), who is reported as the blocker,
    and two-phase commit.

    A process is a number, a pointer to a [PROCLOCK] the pair of its lock and process. *)

From S2P Require Import Prelude HeapTuple LockDefs.

Definition STATUS_OK : Z := 0.
Definition STATUS_ERROR : Z := -1.
Definition STATUS_FOUND : Z := 1.
Definition STATUS_WAITING : Z := 2.

(** [myProc] is the [tag]; [releaseMask] is an argument of [release_modes]. *)
Record PROCLOCK := { myProc : Z; groupLeader : Z; holdMask : Z }.

Record LOCK := {
  grantMask : Z;
  waitMask : Z;
  procLocks : list PROCLOCK;
  waitProcs : list Z;
  requested : list Z;
  nRequested : Z;
  granted : list Z;
  nGranted : Z;
}.

(** What the lock manager keeps of a process; [waitProcLock] is the one of [waitLock]. *)
Record PGPROC := {
  lockGroupLeader : option Z;
  lockGroupMembers : list Z;
  waitLock : option Z;
  waitLockMode : Z;
  waitStatus : Z;
  heldLocks : Z;
}.

Abbreviation procmap := (gmap Z PGPROC).
Definition no_pgproc : PGPROC := {| lockGroupLeader := None; lockGroupMembers := []; waitLock := None;
  waitLockMode := 0; waitStatus := STATUS_OK; heldLocks := 0 |}.
Definition proc_of (ps : procmap) (p : Z) : PGPROC := default no_pgproc (ps !! p).

Definition with_wait (w : option Z) (st : Z) (p : PGPROC) : PGPROC := {| lockGroupLeader := lockGroupLeader p;
  lockGroupMembers := lockGroupMembers p; waitLock := w; waitLockMode := waitLockMode p; waitStatus := st; heldLocks := heldLocks p |}.
Definition with_request (l m : Z) (p : PGPROC) : PGPROC := {| lockGroupLeader := lockGroupLeader p;
  lockGroupMembers := lockGroupMembers p; waitLock := Some l; waitLockMode := m; waitStatus := STATUS_WAITING; heldLocks := heldLocks p |}.
Definition with_heldLocks (h : Z) (p : PGPROC) : PGPROC := {| lockGroupLeader := lockGroupLeader p;
  lockGroupMembers := lockGroupMembers p; waitLock := waitLock p; waitLockMode := waitLockMode p; waitStatus := waitStatus p; heldLocks := h |}.

Definition upd_proc (p : Z) (f : PGPROC → PGPROC) (ps : procmap) : procmap := <[p := f (proc_of ps p)]> ps.

(** The leader of the process's lock group, itself without one. *)
Definition leader_of (ps : procmap) (p : Z) : Z := default p (lockGroupLeader (proc_of ps p)).

Definition new_lock : LOCK := {| grantMask := 0; waitMask := 0; procLocks := []; waitProcs := [];
  requested := replicate (Z.to_nat MAX_LOCKMODES) 0; nRequested := 0;
  granted := replicate (Z.to_nat MAX_LOCKMODES) 0; nGranted := 0 |}.

Definition holds (o : PROCLOCK) (i : Z) : bool := flag (holdMask o) (LOCKBIT_ON i).
Definition no_proclock : PROCLOCK := {| myProc := 0; groupLeader := 0; holdMask := 0 |}.

(** The [PROCLOCK] of a process; [is_proc] is the comparison of pointers. *)
Definition is_proc (p : Z) (o : PROCLOCK) : Prop := myProc o = p.
#[global] Instance is_proc_dec p o : Decision (is_proc p o).
Proof. unfold is_proc. apply _. Defined.
Definition find_proclock (p : Z) (lk : LOCK) : option PROCLOCK := snd <$> list_find (is_proc p) (procLocks lk).
Definition proclock_of (p : Z) (lk : LOCK) : PROCLOCK := default no_proclock (find_proclock p lk).

Definition with_hold (h : Z) (o : PROCLOCK) : PROCLOCK := {| myProc := myProc o; groupLeader := groupLeader o; holdMask := h |}.
Definition with_proclocks (ls : list PROCLOCK) (lk : LOCK) : LOCK := {| grantMask := grantMask lk; waitMask := waitMask lk; procLocks := ls;
  waitProcs := waitProcs lk; requested := requested lk; nRequested := nRequested lk; granted := granted lk; nGranted := nGranted lk |}.
Definition with_queue (q : list Z) (wm : Z) (lk : LOCK) : LOCK := {| grantMask := grantMask lk; waitMask := wm; procLocks := procLocks lk;
  waitProcs := q; requested := requested lk; nRequested := nRequested lk; granted := granted lk; nGranted := nGranted lk |}.
Definition with_requested (m d : Z) (lk : LOCK) : LOCK := {| grantMask := grantMask lk; waitMask := waitMask lk; procLocks := procLocks lk;
  waitProcs := waitProcs lk; requested := aset (requested lk) m (aget 0 (requested lk) m + d); nRequested := nRequested lk + d;
  granted := granted lk; nGranted := nGranted lk |}.
Definition with_granted (m d : Z) (lk : LOCK) : LOCK := {| grantMask := grantMask lk; waitMask := waitMask lk; procLocks := procLocks lk;
  waitProcs := waitProcs lk; requested := requested lk; nRequested := nRequested lk;
  granted := aset (granted lk) m (aget 0 (granted lk) m + d); nGranted := nGranted lk + d |}.
Definition with_masks (gm wm : Z) (lk : LOCK) : LOCK := {| grantMask := gm; waitMask := wm; procLocks := procLocks lk;
  waitProcs := waitProcs lk; requested := requested lk; nRequested := nRequested lk; granted := granted lk; nGranted := nGranted lk |}.

Definition upd_proclock (p : Z) (f : PROCLOCK → PROCLOCK) (lk : LOCK) : LOCK :=
  with_proclocks ((λ o, if decide (is_proc p o) then f o else o) <$> procLocks lk) lk.
Definition del_proclock (p : Z) (lk : LOCK) : LOCK := with_proclocks (filter (λ o, ¬ is_proc p o) (procLocks lk)) lk.

(** ** Streaming queries *)

(** The top consumer [m_pid] and the producer threads; an entry may be empty. *)
Record StreamNodeGroup := { m_pid : Z; m_streamArray : list (option Z) }.
#[global] Instance StreamNodeGroup_eq_dec : EqDecision StreamNodeGroup.
Proof. solve_decision. Defined.

Definition inNodeGroup (g : StreamNodeGroup) (pid1 pid2 : Z) : bool :=
  if pid1 =? pid2 then false
  else if (pid1 =? m_pid g) || (pid2 =? m_pid g)
  then existsb (λ s, match s with Some tid => (tid =? pid2) || (tid =? pid1) | None => false end) (tail (m_streamArray g))
  else false.

(** Of a session: the groups of its cursors and that of its own query. *)
Record stream_session := { cursorNodeGroupList : list StreamNodeGroup; global_obj : option StreamNodeGroup }.
Definition has_backend_cursor_stream (s : stream_session) : bool := negb (bool_decide (cursorNodeGroupList s = [])).

Definition IsInSameTransaction (s : stream_session) (proc1 proc2 : Z) : bool :=
  (has_backend_cursor_stream s && existsb (λ g, inNodeGroup g proc1 proc2) (cursorNodeGroupList s)) ||
  match global_obj s with Some g => inNodeGroup g proc1 proc2 | None => false end.

(** The running thread: its process, whether it is the top consumer or a producer of a
    streaming query, and its session. *)
Record thread := { t_proc : Z; t_stream : bool; t_sess : stream_session }.

Definition IsInSameLockGroup (a b : PROCLOCK) : bool := negb (myProc a =? myProc b) && (groupLeader a =? groupLeader b).

(** ** Conflicts and grants *)

(** The modes that others hold: [otherLocks]. *)
Definition other_locks (c : thread) (ps : procmap) (p : Z) (lk : LOCK) : Z :=
  let pl := proclock_of p lk in
  let inLockGroup := negb (groupLeader pl =? t_proc c) || bool_decide (is_Some (lockGroupLeader (proc_of ps (t_proc c)))) in
  let mine o := (negb inLockGroup && IsInSameTransaction (t_sess c) (myProc o) p) || (inLockGroup && IsInSameLockGroup pl o) in
  let myHolding i :=
    (if holds pl i then 1 else 0) +
    (if t_stream c || has_backend_cursor_stream (t_sess c) || inLockGroup
     then count (λ o, mine o && holds o i) (procLocks lk) else 0) in
  foldl (λ acc i, if myHolding i <? aget 0 (granted lk) i then Z.lor acc (LOCKBIT_ON i) else acc) 0 (seqZ 1 numLockModes).

Definition LockCheckConflicts (c : thread) (ps : procmap) (lockmode p : Z) (lk : LOCK) : Z :=
  if Z.land (conflictTab lockmode) (grantMask lk) =? 0 then STATUS_OK
  else if Z.land (conflictTab lockmode) (other_locks c ps p lk) =? 0 then STATUS_OK
  else STATUS_FOUND.

Definition GrantLock (p lockmode : Z) (lk : LOCK) : LOCK :=
  let lk := with_granted lockmode 1 lk in
  let gm := Z.lor (grantMask lk) (LOCKBIT_ON lockmode) in
  let wm := if aget 0 (granted lk) lockmode =? aget 0 (requested lk) lockmode
            then Z.land (waitMask lk) (LOCKBIT_OFF lockmode) else waitMask lk in
  upd_proclock p (λ o, with_hold (Z.lor (holdMask o) (LOCKBIT_ON lockmode)) o) (with_masks gm wm lk).

Definition UnGrantLock (p lockmode : Z) (lk : LOCK) : bool * LOCK :=
  let lk := with_granted lockmode (-1) (with_requested lockmode (-1) lk) in
  let gm := if aget 0 (granted lk) lockmode =? 0 then Z.land (grantMask lk) (LOCKBIT_OFF lockmode) else grantMask lk in
  let lk := with_masks gm (waitMask lk) lk in
  let wakeupNeeded := negb (Z.land (conflictTab lockmode) (waitMask lk) =? 0) in
  (wakeupNeeded, upd_proclock p (λ o, with_hold (Z.land (holdMask o) (LOCKBIT_OFF lockmode)) o) lk).

(** ** Waking up *)

Definition lock_procs : Type := LOCK * procmap.

(** Off the queue, with the status it has been waiting for. *)
Definition ProcWakeup (p st : Z) (x : lock_procs) : lock_procs :=
  (with_queue (filter (λ q, q ≠ p) (waitProcs x.1)) (waitMask x.1) x.1, upd_proc p (with_wait None st) x.2).

Fixpoint wakeup_loop (c : thread) (queue : list Z) (aheadRequests : Z) (x : lock_procs) : lock_procs :=
  match queue with
  | [] => x
  | p :: queue =>
      let lockmode := waitLockMode (proc_of x.2 p) in
      if (Z.land (conflictTab lockmode) aheadRequests =? 0) && (LockCheckConflicts c x.2 lockmode p x.1 =? STATUS_OK)
      then wakeup_loop c queue aheadRequests (ProcWakeup p STATUS_OK (GrantLock p lockmode x.1, x.2))
      else wakeup_loop c queue (Z.lor aheadRequests (LOCKBIT_ON lockmode)) x
  end.

Definition ProcLockWakeup (c : thread) (x : lock_procs) : lock_procs := wakeup_loop c (waitProcs x.1) 0 x.

(** [None]: the lock object has been removed. *)
Definition CleanUpLock (c : thread) (p : Z) (wakeupNeeded : bool) (x : lock_procs) : option LOCK * procmap :=
  let lk := if holdMask (proclock_of p x.1) =? 0 then del_proclock p x.1 else x.1 in
  if nRequested lk =? 0 then (None, x.2)
  else if wakeupNeeded then let y := ProcLockWakeup c (lk, x.2) in (Some y.1, y.2)
  else (Some lk, x.2).

Definition RemoveFromWaitQueue (c : thread) (p : Z) (x : lock_procs) : option LOCK * procmap :=
  let lockmode := waitLockMode (proc_of x.2 p) in
  let lk := with_requested lockmode (-1) (with_queue (filter (λ q, q ≠ p) (waitProcs x.1)) (waitMask x.1) x.1) in
  let lk := if aget 0 (granted lk) lockmode =? aget 0 (requested lk) lockmode
            then with_masks (grantMask lk) (Z.land (waitMask lk) (LOCKBIT_OFF lockmode)) lk else lk in
  CleanUpLock c p true (lk, upd_proc p (with_wait None STATUS_ERROR) x.2).

(** ** Going to sleep *)

(** Where [ProcSleep] finds that the process belongs in the queue. *)
Inductive place : Type :=
| AtTail
| Before (q : Z)
| GrantNow
| DeadlockBefore (q : Z).

Fixpoint find_place (c : thread) (ps : procmap) (lockmode p myHeldLocks : Z) (lk : LOCK) (queue : list Z) (aheadRequests : Z) : place :=
  match queue with
  | [] => AtTail
  | q :: queue =>
      let leader := lockGroupLeader (proc_of ps p) in
      let qmode := waitLockMode (proc_of ps q) in
      if bool_decide (is_Some leader) && bool_decide (leader = lockGroupLeader (proc_of ps q))
      then find_place c ps lockmode p myHeldLocks lk queue aheadRequests
      else if negb (Z.land (conflictTab qmode) myHeldLocks =? 0) then
        if negb (Z.land (conflictTab lockmode) (heldLocks (proc_of ps q)) =? 0) then DeadlockBefore q
        else if (Z.land (conflictTab lockmode) aheadRequests =? 0) && (LockCheckConflicts c ps lockmode p lk =? STATUS_OK)
        then GrantNow
        else Before q
      else find_place c ps lockmode p myHeldLocks lk queue (Z.lor aheadRequests (LOCKBIT_ON qmode))
  end.

(** [SHMQueueInsertBefore]. *)
Fixpoint insert_before (q p : Z) (queue : list Z) : list Z :=
  match queue with
  | [] => [p]
  | x :: rest => if x =? q then p :: queue else x :: insert_before q p rest
  end.

Definition insert_at (pl : place) (p : Z) (queue : list Z) : list Z :=
  match pl with Before q | DeadlockBefore q => insert_before q p queue | _ => queue ++ [p] end.

(** The locks of the whole group. *)
Definition my_held_locks (ps : procmap) (p : Z) (lk : LOCK) : Z :=
  let mine := heldLocks (proc_of ps p) in
  match lockGroupLeader (proc_of ps p) with
  | Some leader => foldl (λ acc o, if groupLeader o =? leader then Z.lor acc (holdMask o) else acc) mine (procLocks lk)
  | None => mine
  end.

Inductive sleep_result : Type :=
| SleepGranted
| SleepWaiting
| SleepError
| SleepCorrupted.

Definition ProcSleep (c : thread) (l lockmode p : Z) (x : lock_procs) : sleep_result * (option LOCK * procmap) :=
  let lk := x.1 in
  let ps := x.2 in
  let myHeldLocks := my_held_locks ps p lk in
  let pl := if myHeldLocks =? 0 then AtTail else find_place c ps lockmode p myHeldLocks lk (waitProcs lk) 0 in
  let granted_now := (SleepGranted, (Some (GrantLock p lockmode lk), ps)) in
  match pl with
  | GrantNow => granted_now
  | _ =>
      if t_stream c && (LockCheckConflicts c ps lockmode p lk =? STATUS_OK) then granted_now
      else if waitStatus (proc_of ps p) =? STATUS_WAITING then (SleepCorrupted, (Some lk, ps))
      else
        let lk' := with_queue (insert_at pl p (waitProcs lk)) (Z.lor (waitMask lk) (LOCKBIT_ON lockmode)) lk in
        let ps' := upd_proc p (with_request l lockmode) ps in
        match pl with
        | DeadlockBefore _ => (SleepError, RemoveFromWaitQueue c p (lk', ps'))
        | _ => (SleepWaiting, (Some lk', ps'))
        end
  end.

(** ** Acquiring *)

Inductive setup_result : Type :=
| SetupOk (lk : LOCK)
| SetupNull (lk : option LOCK)
| SetupHeld (lk : LOCK).

(** [room_lock], [room_proclock]: the hash tables have room for a new entry. *)
Definition SetupLockInTable (room_lock room_proclock : bool) (ps : procmap) (p lockmode : Z) (lko : option LOCK) : setup_result :=
  match (match lko with Some lk => Some lk | None => if room_lock then Some new_lock else None end) with
  | None => SetupNull None
  | Some lk =>
      let proclocked :=
        match find_proclock p lk with
        | Some _ => Some lk
        | None =>
            if room_proclock
            then Some (with_proclocks (procLocks lk ++ [{| myProc := p; groupLeader := leader_of ps p; holdMask := 0 |}]) lk)
            else None
        end in
      match proclocked with
      | None => SetupNull (if nRequested lk =? 0 then None else Some lk)
      | Some lk =>
          let lk := with_requested lockmode 1 lk in
          if holds (proclock_of p lk) lockmode then SetupHeld lk else SetupOk lk
      end
  end.

Inductive acquire_result : Type :=
| LOCKACQUIRE_OK
| LOCKACQUIRE_NOT_AVAIL
| AcquireWaiting
| AcquireDeadlock
| AcquireHeld
| AcquireCorrupted.

(** What [LockAcquireExtendedXC] does with the shared table, for the running thread, up to
    where the process sleeps. *)
Definition LockAcquire (c : thread) (room_lock room_proclock dontWait : bool) (l lockmode : Z) (lko : option LOCK) (ps : procmap) :
    acquire_result * (option LOCK * procmap) :=
  let p := t_proc c in
  match SetupLockInTable room_lock room_proclock ps p lockmode lko with
  | SetupNull lko => (LOCKACQUIRE_NOT_AVAIL, (lko, ps))
  | SetupHeld lk => (AcquireHeld, (Some lk, ps))
  | SetupOk lk =>
      let status :=
        if negb (Z.land (conflictTab lockmode) (waitMask lk) =? 0) then STATUS_FOUND else LockCheckConflicts c ps lockmode p lk in
      if status =? STATUS_OK then (LOCKACQUIRE_OK, (Some (GrantLock p lockmode lk), ps))
      else if dontWait then
        let lk := if holdMask (proclock_of p lk) =? 0 then del_proclock p lk else lk in
        (LOCKACQUIRE_NOT_AVAIL, (Some (with_requested lockmode (-1) lk), ps))
      else
        let ps := upd_proc p (with_heldLocks (holdMask (proclock_of p lk))) ps in
        let '(r, y) := ProcSleep c l lockmode p (lk, ps) in
        (match r with SleepGranted => LOCKACQUIRE_OK | SleepWaiting => AcquireWaiting
                    | SleepError => AcquireDeadlock | SleepCorrupted => AcquireCorrupted end, y)
  end.

(** ** Releasing *)

(** The modes of [releaseMask], one after the other; whether someone may have to be woken. *)
Fixpoint ungrant_modes (p : Z) (modes : list Z) (lk : LOCK) : bool * LOCK :=
  match modes with
  | [] => (false, lk)
  | m :: modes =>
      let '(w, lk) := UnGrantLock p m lk in
      let '(w', lk) := ungrant_modes p modes lk in
      (w || w', lk)
  end.

(** One lock of [LockReleaseAll]. *)
Definition release_modes (c : thread) (p : Z) (modes : list Z) (x : lock_procs) : option LOCK * procmap :=
  let '(wakeupNeeded, lk) := ungrant_modes p modes x.1 in
  CleanUpLock c p wakeupNeeded (lk, x.2).

(** The process holds the mode no longer; [false] if it did not. *)
Definition LockRelease (c : thread) (lockmode : Z) (x : lock_procs) : bool * (option LOCK * procmap) :=
  let p := t_proc c in
  if holds (proclock_of p x.1) lockmode
  then
    let '(wakeupNeeded, lk) := UnGrantLock p lockmode x.1 in
    (true, CleanUpLock c p wakeupNeeded (lk, x.2))
  else (false, (Some x.1, x.2)).
