(* ===== verification/LockTable.v ===== *)
(** * The lock table: invariants and theorems

    The invariant of a lock object ([lock_ok]), that every operation of [LockMgr.v] keeps
    it, and the system of all processes that acquire, wait for and release locks. *)

From S2P Require Import Prelude HeapTuple LockDefs LockMgr.

(** The test of the goal, by name. *)
Ltac case_if H := match goal with |- context [if ?b then _ else _] => destruct b eqn:H end.

(** ** Entries of a lock *)

Lemma holds_testbit o i : 0 ≤ i → holds o i = Z.testbit (holdMask o) i.
Proof. apply flag_lockbit. Qed.

Lemma find_proclock_spec p lk o : NoDup (myProc <$> procLocks lk) → (find_proclock p lk = Some o ↔ o ∈ procLocks lk ∧ myProc o = p).
Proof.
  intros Hnd. unfold find_proclock. split.
  - intros ([i o'] & Hf & E)%fmap_Some. cbn in E. subst. apply list_find_Some in Hf as (Hi & Hp & _). split; [by eapply list_elem_of_lookup_2|done].
  - intros [Ho Hp]. destruct (list_find (is_proc p) (procLocks lk)) as [[i o']|] eqn:E; cbn.
    + apply list_find_Some in E as (Hi & Hp' & _). apply list_elem_of_lookup in Ho as [j Hj]. f_equal.
      assert (i = j) as ->; [|congruence]. eapply NoDup_lookup; [exact Hnd|rewrite list_lookup_fmap, Hi; done|].
      rewrite list_lookup_fmap, Hj. cbn. unfold is_proc in Hp'. congruence.
    + apply list_find_None in E. rewrite Forall_forall in E. by destruct (E o).
Qed.

Lemma proclock_of_eq p lk o : NoDup (myProc <$> procLocks lk) → o ∈ procLocks lk → myProc o = p → proclock_of p lk = o.
Proof. intros Hnd Ho Hp. unfold proclock_of. by rewrite (proj2 (find_proclock_spec p lk o Hnd)). Qed.

Lemma find_proclock_none p lk : find_proclock p lk = None ↔ p ∉ myProc <$> procLocks lk.
Proof.
  unfold find_proclock. rewrite fmap_None, list_find_None, Forall_forall, list_elem_of_fmap. unfold is_proc. naive_solver.
Qed.

(** Changing the entry of one process. *)
Definition upd_list (p : Z) (f : PROCLOCK → PROCLOCK) (ls : list PROCLOCK) : list PROCLOCK :=
  (λ o, if decide (is_proc p o) then f o else o) <$> ls.

Lemma elem_upd_list p f ls o' :
  o' ∈ upd_list p f ls ↔ ∃ o, o ∈ ls ∧ o' = if decide (is_proc p o) then f o else o.
Proof. unfold upd_list. rewrite list_elem_of_fmap. naive_solver. Qed.

Lemma procs_upd_list p f ls : (∀ o, myProc (f o) = myProc o) → myProc <$> upd_list p f ls = myProc <$> ls.
Proof.
  intros Hf. unfold upd_list. rewrite <- list_fmap_compose. apply list_fmap_ext. intros i o _. cbn. by destruct (decide _).
Qed.

Lemma count_upd_list g p f ls o :
  NoDup (myProc <$> ls) → o ∈ ls → myProc o = p →
  count g (upd_list p f ls) = count g ls + (if g (f o) then 1 else 0) - (if g o then 1 else 0).
Proof.
  induction ls as [|x ls IH]; intros Hnd Ho Hp; [by apply not_elem_of_nil in Ho|]. cbn [fmap list_fmap] in Hnd. apply NoDup_cons in Hnd as [Hx Hnd].
  unfold upd_list. cbn [fmap list_fmap count]. fold (upd_list p f ls). apply elem_of_cons in Ho as [->|Ho].
  - rewrite decide_True by done. replace (count g (upd_list p f ls)) with (count g ls); [lia|].
    unfold upd_list. clear IH. induction ls as [|y ls IH]; cbn; [done|]. rewrite decide_False.
    2:{ intros E. apply Hx. cbn. unfold is_proc in E. rewrite Hp, <- E. by left. }
    rewrite IH; [done| |].
    + cbn in Hx. rewrite not_elem_of_cons in Hx. apply Hx.
    + cbn in Hnd. by apply NoDup_cons in Hnd as [_ ?].
  - rewrite decide_False.
    2:{ intros E. apply Hx. unfold is_proc in E. rewrite E, <- Hp. apply list_elem_of_fmap. by exists o. }
    rewrite IH by done. lia.
Qed.

(** ** The invariant of a lock *)

Definition holders (lk : LOCK) (m : Z) : Z := count (λ o, holds o m) (procLocks lk).
Definition waiters (lk : LOCK) (ps : procmap) (m : Z) : Z := count (λ q, waitLockMode (proc_of ps q) =? m) (waitProcs lk).

(** A request that is neither granted nor queued: within [LockAcquire]. *)
Definition pending := option (Z * Z).
Definition pends (pd : pending) (m : Z) : Z := match pd with Some (_, m') => if m =? m' then 1 else 0 | None => 0 end.

(** [total] of the counts of the valid modes. *)
Definition total (f : Z → Z) : Z := foldr (λ m acc, f m + acc) 0 (seqZ 1 numLockModes).

(** [ex]: the process whose entry may be unused for the moment. *)
Record lock_ok (l : Z) (ex : option Z) (pd : pending) (lk : LOCK) (ps : procmap) : Prop := {
  lo_procs : NoDup (myProc <$> procLocks lk);
  lo_leader : ∀ o, o ∈ procLocks lk → groupLeader o = leader_of ps (myProc o);
  lo_hold : ∀ o, o ∈ procLocks lk → mask_ok (holdMask o);
  lo_lengths : Z.of_nat (length (requested lk)) = MAX_LOCKMODES ∧ Z.of_nat (length (granted lk)) = MAX_LOCKMODES;
  lo_granted : ∀ m, valid_mode m → aget 0 (granted lk) m = holders lk m;
  lo_requested : ∀ m, valid_mode m → aget 0 (requested lk) m = holders lk m + waiters lk ps m + pends pd m;
  lo_total : nGranted lk = total (aget 0 (granted lk)) ∧ nRequested lk = total (aget 0 (requested lk));
  lo_grantMask : mask_ok (grantMask lk) ∧ ∀ m, valid_mode m → (Z.testbit (grantMask lk) m = true ↔ 0 < holders lk m);
  lo_waitMask : mask_ok (waitMask lk) ∧ ∀ m, valid_mode m →
    (0 < waiters lk ps m → Z.testbit (waitMask lk) m = true) ∧ (Z.testbit (waitMask lk) m = true → 0 < waiters lk ps m + pends pd m);
  lo_queue : NoDup (waitProcs lk);
  lo_waiting : ∀ p, p ∈ waitProcs lk ↔ waitLock (proc_of ps p) = Some l;
  lo_waiter : ∀ p, p ∈ waitProcs lk → valid_mode (waitLockMode (proc_of ps p)) ∧ waitStatus (proc_of ps p) = STATUS_WAITING ∧
    ∃ o, o ∈ procLocks lk ∧ myProc o = p ∧ holds o (waitLockMode (proc_of ps p)) = false ∧ heldLocks (proc_of ps p) = holdMask o;
  lo_used : ∀ o, o ∈ procLocks lk → holdMask o ≠ 0 ∨ myProc o ∈ waitProcs lk ∨ ex = Some (myProc o);
  lo_pend : ∀ p m, pd = Some (p, m) → valid_mode m ∧ waitLock (proc_of ps p) = None ∧
    ∃ o, o ∈ procLocks lk ∧ myProc o = p ∧ holds o m = false;
}.

(** Group leaders lead their own group. *)
Definition groups_ok (ps : procmap) : Prop := ∀ p g, lockGroupLeader (proc_of ps p) = Some g → lockGroupLeader (proc_of ps g) = Some g.

Lemma same_irrefl s p : IsInSameTransaction s p p = false.
Proof.
  assert (∀ g, inNodeGroup g p p = false) as E by (intros g; unfold inNodeGroup; by rewrite Z.eqb_refl).
  unfold IsInSameTransaction. apply orb_false_iff. split; [|by destruct (global_obj s)]. apply andb_false_iff. right. induction (cursorNodeGroupList s); cbn; by rewrite ?E.
Qed.

Section Spec.
(** The session of every process. *)
Variable session : Z → stream_session.

(** Processes whose locks never conflict: of one lock group, or one finds the other in a
    group of threads of its own session. *)
Definition same_query (p q : Z) : Prop := IsInSameTransaction (session p) q p = true.
Definition friends (ps : procmap) (p q : Z) : Prop := leader_of ps p = leader_of ps q ∨ same_query p q ∨ same_query q p.

(** The promise of the lock manager. *)
Definition lock_safe (lk : LOCK) (ps : procmap) : Prop := ∀ o o' m m',
  o ∈ procLocks lk → o' ∈ procLocks lk → myProc o ≠ myProc o' → valid_mode m → valid_mode m' →
  holds o m = true → holds o' m' = true → conflict m m' = true → friends ps (myProc o) (myProc o').

(** A mode that the process may not have: held by a process of another group, or asked for
    by one that is ahead in the queue. *)
Definition blocked (lk : LOCK) (ps : procmap) (ahead : list Z) (p m : Z) : Prop :=
  (∃ o i, o ∈ procLocks lk ∧ leader_of ps (myProc o) ≠ leader_of ps p ∧ valid_mode i ∧ holds o i = true ∧ conflict m i = true) ∨
  (∃ q, q ∈ ahead ∧ conflict m (waitLockMode (proc_of ps q)) = true).

(** Nobody in the queue could have the lock. *)
Definition queue_blocked (lk : LOCK) (ps : procmap) : Prop := ∀ pre p post,
  waitProcs lk = pre ++ p :: post → blocked lk ps pre p (waitLockMode (proc_of ps p)).

(** What [LockCheckConflicts] ignores. *)
Definition in_group (c : thread) (ps : procmap) (p : Z) : bool :=
  negb (leader_of ps p =? t_proc c) || bool_decide (is_Some (lockGroupLeader (proc_of ps (t_proc c)))).
Definition ignored (c : thread) (ps : procmap) (p q : Z) : bool :=
  if in_group c ps p then leader_of ps p =? leader_of ps q else (t_stream c || has_backend_cursor_stream (t_sess c)) && IsInSameTransaction (t_sess c) q p.

Lemma other_locks_spec l ex pd lk ps c p o i :
  lock_ok l ex pd lk ps → o ∈ procLocks lk → myProc o = p → valid_mode i →
  (Z.testbit (other_locks c ps p lk) i = true ↔
   ∃ o', o' ∈ procLocks lk ∧ myProc o' ≠ p ∧ ignored c ps p (myProc o') = false ∧ holds o' i = true).
Proof.
  intros H Ho Hp Hi. unfold other_locks. rewrite (proclock_of_eq p lk o (lo_procs _ _ _ _ _ H) Ho Hp).
  rewrite (lo_leader _ _ _ _ _ H o Ho), Hp. fold (in_group c ps p).
  rewrite testbit_collect; [|unfold valid_mode in Hi; lia|apply Forall_forall; intros j Hj%elem_of_seqZ; lia].
  rewrite Z.bits_0, orb_false_l, bool_decide_eq_true_2 by (apply elem_of_seqZ; unfold valid_mode in Hi; lia). rewrite andb_true_l.
  rewrite (lo_granted _ _ _ _ _ H i Hi). rewrite Z.ltb_lt. unfold holders.
  set (own := λ o', bool_decide (myProc o' = p) && holds o' i). set (ign := λ o', negb (bool_decide (myProc o' = p)) && ignored c ps p (myProc o') && holds o' i).
  assert (count own (procLocks lk) = if holds o i then 1 else 0) as E1.
  { pose proof (lo_procs _ _ _ _ _ H) as Hnd. clear -Ho Hp Hnd. unfold own. induction (procLocks lk) as [|x ls IH]; [by apply not_elem_of_nil in Ho|].
    cbn [fmap list_fmap] in Hnd. apply NoDup_cons in Hnd as [Hx Hnd]. cbn [count]. apply elem_of_cons in Ho as [->|Ho].
    - rewrite bool_decide_eq_true_2, andb_true_l by done. assert (count (λ o', bool_decide (myProc o' = p) && holds o' i) ls = 0) as ->; [|lia].
      apply count_zero. intros y Hy. rewrite bool_decide_eq_false_2; [done|]. intros E. apply Hx. rewrite Hp, <- E. apply list_elem_of_fmap. by exists y.
    - rewrite bool_decide_eq_false_2, andb_false_l; [by apply IH|]. intros E. apply Hx. rewrite E, <- Hp. apply list_elem_of_fmap. by exists o. }
  match goal with |- ?a + ?b < _ ↔ _ => assert (a + b = count (λ o', own o' || ign o') (procLocks lk)) as -> end.
  { rewrite count_or by (intros x _; unfold own, ign; case_bool_decide; by destruct (holds x i)). rewrite E1. f_equal.
    unfold ign, ignored. destruct (in_group c ps p) eqn:Eg.
    - rewrite orb_true_r. apply count_ext. intros x Hx. cbn [negb andb orb]. f_equal. unfold IsInSameLockGroup.
      rewrite (lo_leader _ _ _ _ _ H o Ho), (lo_leader _ _ _ _ _ H x Hx), Hp. f_equal. f_equal. destruct (Z.eqb_spec p (myProc x)); case_bool_decide; congruence.
    - rewrite orb_false_r. destruct (t_stream c || has_backend_cursor_stream (t_sess c)); cbn [andb negb].
      + apply count_ext. intros x Hx. rewrite orb_false_r. f_equal. case_bool_decide as E; [by rewrite E, same_irrefl|done].
      + symmetry. apply count_zero. intros x Hx. by rewrite andb_false_r. }
  rewrite count_lt by (intros x _; unfold own, ign; by destruct (holds x i); rewrite ?andb_false_r).
  unfold own, ign. split; intros (x & Hx & Hr); exists x; (split; [done|]).
  - destruct Hr as [Hh Hf]. rewrite Hh, !andb_true_r in Hf. case_bool_decide; [done|]. split_and!; try done.
  - destruct Hr as (Hne & Hig & Hh). rewrite Hh, Hig. by rewrite bool_decide_eq_false_2.
Qed.

Lemma check_ok l ex pd lk ps c p o m :
  lock_ok l ex pd lk ps → o ∈ procLocks lk → myProc o = p → valid_mode m →
  (LockCheckConflicts c ps m p lk = STATUS_OK ↔
   ∀ o' i, o' ∈ procLocks lk → myProc o' ≠ p → ignored c ps p (myProc o') = false → valid_mode i → holds o' i = true → conflict m i = false).
Proof.
  intros H Ho Hp Hm. unfold LockCheckConflicts. destruct (lo_grantMask _ _ _ _ _ H) as [_ Hg].
  destruct (Z.eqb_spec (Z.land (conflictTab m) (grantMask lk)) 0) as [E|E].
  - split; [|done]. intros _ o' i Ho' _ _ Hi Hh. apply (proj1 (no_conflict m _ Hm) E i Hi). apply Hg; [done|]. apply count_pos. by exists o'.
  - destruct (Z.eqb_spec (Z.land (conflictTab m) (other_locks c ps p lk)) 0) as [E'|E'].
    + split; [|done]. intros _ o' i Ho' Hne Hig Hi Hh. apply (proj1 (no_conflict m _ Hm) E' i Hi).
      apply (other_locks_spec _ _ _ _ _ _ _ _ _ H Ho Hp Hi). by exists o'.
    + split; [done|]. intros Hall. contradict E'. apply no_conflict; [done|]. intros i Hi Hb.
      apply (other_locks_spec _ _ _ _ _ _ _ _ _ H Ho Hp Hi) in Hb as (o' & ? & ? & ? & ?). by apply (Hall o').
Qed.

Lemma check_found l ex pd lk ps c p o m :
  lock_ok l ex pd lk ps → o ∈ procLocks lk → myProc o = p → valid_mode m → groups_ok ps →
  LockCheckConflicts c ps m p lk ≠ STATUS_OK →
  ∃ o' i, o' ∈ procLocks lk ∧ leader_of ps (myProc o') ≠ leader_of ps p ∧ valid_mode i ∧ holds o' i = true ∧ conflict m i = true.
Proof.
  intros H Ho Hp Hm Hgr Hst. unfold LockCheckConflicts in Hst.
  destruct (Z.land (conflictTab m) (grantMask lk) =? 0); [done|].
  destruct (Z.eqb_spec (Z.land (conflictTab m) (other_locks c ps p lk)) 0) as [E'|E']; [done|]. clear Hst.
  destruct (conflict_exists m _ Hm E') as (i & Hi & Hb & Hc). apply (other_locks_spec _ _ _ _ _ _ _ _ _ H Ho Hp Hi) in Hb as (o' & Ho' & Hne & Hig & Hh).
  exists o', i. split_and!; try done. intros El. unfold ignored, in_group in Hig.
  destruct (Z.eqb_spec (leader_of ps p) (t_proc c)) as [Et|Et]; cbn [negb orb] in Hig; [|by rewrite El, Z.eqb_refl in Hig].
  case_bool_decide as Hs; [by rewrite El, Z.eqb_refl in Hig|]. apply Hne.
  assert (∀ q, leader_of ps q = t_proc c → q = t_proc c) as Hq.
  { intros q Eq. unfold leader_of in Eq. destruct (lockGroupLeader (proc_of ps q)) as [g|] eqn:Eg; cbn in Eq; [|done].
    apply Hgr in Eg. rewrite Eq in Eg. exfalso. apply Hs. by rewrite Eg. }
  rewrite (Hq p Et). apply Hq. congruence.
Qed.

(** Only for itself does a thread look at its session. *)
Lemma not_in_group c ps p : groups_ok ps → in_group c ps p = false → p = t_proc c.
Proof.
  intros Hgr [E1%negb_false_iff E2]%orb_false_iff. apply Z.eqb_eq in E1. apply bool_decide_eq_false in E2. unfold leader_of in E1.
  destruct (lockGroupLeader (proc_of ps p)) as [g|] eqn:Eg; cbn in E1; [|done]. apply Hgr in Eg. rewrite E1 in Eg. exfalso. apply E2. by rewrite Eg.
Qed.

Lemma ignored_friends c ps p q : groups_ok ps → t_sess c = session (t_proc c) → ignored c ps p q = true → friends ps p q.
Proof.
  intros Hg Hs. unfold ignored, friends, same_query. destruct (in_group c ps p) eqn:E; [intros ?%Z.eqb_eq; by left|]. apply not_in_group in E as ->; [|done].
  rewrite <- Hs. intros [_ ?]%andb_true_iff. right. by left.
Qed.

Lemma friends_sym ps p q : friends ps p q → friends ps q p.
Proof. unfold friends. intros [?|[?|?]]; [left; congruence|right; by right|right; by left]. Qed.
End Spec.

(** ** Elementary changes *)

Lemma total_ext f g : (∀ m, valid_mode m → f m = g m) → total f = total g.
Proof.
  intros H. unfold total. assert (∀ m, m ∈ seqZ 1 numLockModes → valid_mode m) as Hv by (intros m Hm%elem_of_seqZ; unfold valid_mode; lia).
  induction (seqZ 1 numLockModes) as [|m ls IH]; cbn; [done|]. rewrite H, IH; [done| |]; intros; apply Hv; by constructor.
Qed.

Lemma total_upd f m d : valid_mode m → total (λ i, if decide (i = m) then f i + d else f i) = total f + d.
Proof.
  intros Hm. unfold total. assert (NoDup (seqZ 1 numLockModes)) as Hnd by apply NoDup_seqZ.
  assert (m ∈ seqZ 1 numLockModes) as Hin by (apply elem_of_seqZ; unfold valid_mode in Hm; lia).
  assert (∀ ls, m ∉ ls → foldr (λ i acc, (if decide (i = m) then f i + d else f i) + acc) 0 ls = foldr (λ i acc, f i + acc) 0 ls) as Hout.
  { induction ls as [|x ls IH]; intros Hx; cbn; [done|]. apply not_elem_of_cons in Hx as [Hx1 Hx2]. by rewrite decide_False, IH by congruence. }
  induction (seqZ 1 numLockModes) as [|x ls IH]; [by apply not_elem_of_nil in Hin|]. cbn. apply NoDup_cons in Hnd as [Hx Hnd].
  destruct (decide (x = m)) as [->|Hne]; [rewrite Hout by done; lia|]. apply elem_of_cons in Hin as [?|Hin]; [congruence|]. rewrite IH by done. lia.
Qed.

Lemma total_aset (a : list Z) m d : valid_mode m → Z.of_nat (length a) = MAX_LOCKMODES → total (aget 0 (aset a m (aget 0 a m + d))) = total (aget 0 a) + d.
Proof.
  intros Hm Hl. rewrite <- (total_upd _ m d Hm). apply total_ext. intros i Hi. unfold valid_mode, numLockModes, AccessExclusiveLock, MAX_LOCKMODES in *.
  case_decide; [subst; apply aget_aset_eq; lia|apply aget_aset_ne; lia].
Qed.

Lemma aget_count (a : list Z) m d i : valid_mode m → valid_mode i → Z.of_nat (length a) = MAX_LOCKMODES →
  aget 0 (aset a m (aget 0 a m + d)) i = aget 0 a i + if decide (i = m) then d else 0.
Proof.
  intros Hm Hi Hl. unfold valid_mode, numLockModes, AccessExclusiveLock, MAX_LOCKMODES in *.
  case_decide; [subst; apply aget_aset_eq; lia|rewrite aget_aset_ne by lia; lia].
Qed.

Lemma proc_of_upd p f ps q : proc_of (upd_proc p f ps) q = if decide (q = p) then f (proc_of ps p) else proc_of ps q.
Proof. unfold proc_of, upd_proc. case_decide; [subst; by rewrite lookup_insert_eq|by rewrite lookup_insert_ne by congruence]. Qed.

Lemma leader_of_upd p f ps q : (∀ x, lockGroupLeader (f x) = lockGroupLeader x) → leader_of (upd_proc p f ps) q = leader_of ps q.
Proof. intros Hf. unfold leader_of. rewrite proc_of_upd. case_decide; [subst; by rewrite Hf|done]. Qed.

Lemma groups_ok_upd p f ps : (∀ x, lockGroupLeader (f x) = lockGroupLeader x) → groups_ok ps → groups_ok (upd_proc p f ps).
Proof.
  intros Hf H q g. rewrite !proc_of_upd. repeat case_decide; subst; rewrite ?Hf; eauto.
Qed.

Definition set_hold (p h : Z) (lk : LOCK) : list PROCLOCK := upd_list p (with_hold h) (procLocks lk).

Lemma holds_lor o h m i : 0 ≤ m → 0 ≤ i → holds (with_hold (Z.lor h (LOCKBIT_ON m)) o) i = Z.testbit h i || bool_decide (i = m).
Proof. intros. rewrite holds_testbit by done. cbn. by apply testbit_on. Qed.

Lemma grant_ok l lk ps p m : lock_ok l (Some p) (Some (p, m)) lk ps → lock_ok l None None (GrantLock p m lk) ps.
Proof.
  intros [H1 H2 H3 [H4 H4'] H5 H6 [H7 H7'] [H8 H8'] [H9 H9'] H10 H11 H12 H13 H14]. destruct (H14 p m eq_refl) as (Hm & Hw & o & Ho & Hp & Hno).
  pose proof Hm as Hm'. unfold valid_mode in Hm'. set (f := λ o, with_hold (Z.lor (holdMask o) (LOCKBIT_ON m)) o).
  assert (∀ i, valid_mode i → holders (GrantLock p m lk) i = holders lk i + if decide (i = m) then 1 else 0) as Hh.
  { intros i Hi. unfold valid_mode in Hi. unfold holders. change (procLocks (GrantLock p m lk)) with (upd_list p f (procLocks lk)).
    rewrite (count_upd_list _ p f _ o) by done. unfold f. rewrite holds_lor, <- holds_testbit by lia. destruct (decide (i = m)) as [->|Hne].
    - rewrite Hno, bool_decide_eq_true_2 by done. cbn. lia.
    - rewrite bool_decide_eq_false_2, orb_false_r by done. lia. }
  assert (∀ i, waiters (GrantLock p m lk) ps i = waiters lk ps i) as Hwt by done.
  assert (∀ i, valid_mode i → 0 ≤ waiters lk ps i ∧ 0 ≤ holders lk i) as Hnn by (intros; split; apply count_nonneg).
  assert (aget 0 (granted (GrantLock p m lk)) m = holders lk m + 1) as Eg.
  { cbn. rewrite aget_count by done. rewrite decide_True, H5 by done. lia. }
  split.
  - change (procLocks (GrantLock p m lk)) with (upd_list p f (procLocks lk)). by rewrite procs_upd_list.
  - intros o'. change (procLocks (GrantLock p m lk)) with (upd_list p f (procLocks lk)). intros (x & Hx & ->)%elem_upd_list. destruct (decide (is_proc p x)); exact (H2 x Hx).
  - intros o'. change (procLocks (GrantLock p m lk)) with (upd_list p f (procLocks lk)). intros (x & Hx & ->)%elem_upd_list.
    destruct (decide (is_proc p x)); [exact (mask_ok_on _ _ (H3 x Hx) Hm)|exact (H3 x Hx)].
  - cbn. rewrite length_aset. done.
  - intros i Hi. rewrite Hh by done. cbn. rewrite aget_count by done. by rewrite H5.
  - intros i Hi. rewrite Hh, Hwt by done. cbn. rewrite H6 by done. cbn. destruct (Z.eqb_spec i m), (decide (i = m)); lia.
  - cbn. rewrite total_aset by done. split; lia.
  - change (grantMask (GrantLock p m lk)) with (Z.lor (grantMask lk) (LOCKBIT_ON m)). split; [by apply mask_ok_on|]. intros i Hi. rewrite Hh by done.
    unfold valid_mode in Hi. rewrite testbit_on by lia. destruct (Hnn i Hi). specialize (H8' i Hi). destruct (decide (i = m)) as [->|Hne].
    + rewrite bool_decide_eq_true_2, orb_true_r by done. split; [lia|done].
    + rewrite bool_decide_eq_false_2, orb_false_r, Z.add_0_r by done. done.
  - change (waitMask (GrantLock p m lk)) with (if aget 0 (granted (GrantLock p m lk)) m =? aget 0 (requested lk) m then Z.land (waitMask lk) (LOCKBIT_OFF m) else waitMask lk).
    rewrite Eg, H6 by done. cbn [pends]. rewrite Z.eqb_refl. split; [case_bool; [by apply mask_ok_off|done]|]. intros i Hi. rewrite Hwt. cbn [pends]. destruct (H9' i Hi) as [W1 W2].
    unfold valid_mode in Hi. pose proof (Hnn i Hi). pose proof (Hnn m Hm). cbn [pends] in W2.
    destruct (Z.eqb_spec (holders lk m + 1) (holders lk m + waiters lk ps m + 1)) as [E|E].
    + rewrite testbit_off_ok by (done || lia). destruct (Z.eqb_spec i m) as [->|Hne]; [rewrite bool_decide_eq_true_2, andb_false_r by done; split; [lia|done]|].
      rewrite bool_decide_eq_false_2, andb_true_r by done. split; [done|]. intros ?%W2. lia.
    + destruct (Z.eqb_spec i m) as [->|Hne]; (split; [done|]); intros Hb; [lia|]. specialize (W2 Hb). lia.
  - done.
  - done.
  - intros q Hq. destruct (H12 q Hq) as (? & ? & x & Hx & Hxp & Hxh & Hxe). split_and!; try done. exists x.
    change (procLocks (GrantLock p m lk)) with (upd_list p f (procLocks lk)). split_and!; try done. apply elem_upd_list. exists x. split; [done|].
    rewrite decide_False; [done|]. unfold is_proc. intros E. apply H11 in Hq. congruence.
  - intros o'. change (procLocks (GrantLock p m lk)) with (upd_list p f (procLocks lk)). intros (x & Hx & ->)%elem_upd_list. destruct (decide (is_proc p x)) as [E|E].
    + left. cbn. intros E0. pose proof (testbit_on (holdMask x) m m) as Eb. rewrite E0, Z.bits_0, bool_decide_eq_true_2, orb_true_r in Eb by done. symmetry in Eb.
      discriminate Eb; lia.
    + destruct (H13 x Hx) as [?|[?|[= ?]]]; [by left|by right; left|]. by destruct E.
  - done.
Qed.

Lemma ungrant_ok l ex lk ps p m o :
  lock_ok l ex None lk ps → ex = None ∨ ex = Some p → valid_mode m → o ∈ procLocks lk → myProc o = p → holds o m = true → waitLock (proc_of ps p) = None →
  lock_ok l (Some p) None (UnGrantLock p m lk).2 ps.
Proof.
  intros [H1 H2 H3 [H4 H4'] H5 H6 [H7 H7'] [H8 H8'] [H9 H9'] H10 H11 H12 H13 H14] Hex Hm Ho Hp Hyes Hw.
  pose proof Hm as Hm'. unfold valid_mode in Hm'. set (f := λ o, with_hold (Z.land (holdMask o) (LOCKBIT_OFF m)) o).
  set (lk' := (UnGrantLock p m lk).2). assert (procLocks lk' = upd_list p f (procLocks lk)) as Eps by done.
  assert (∀ x i, x ∈ procLocks lk → valid_mode i → holds (f x) i = holds x i && negb (bool_decide (i = m))) as Hf.
  { intros x i Hx Hi. unfold valid_mode in Hi. rewrite !holds_testbit by lia. cbn. apply testbit_off_ok; [by apply H3|done|lia]. }
  assert (∀ i, valid_mode i → holders lk' i = holders lk i - if decide (i = m) then 1 else 0) as Hh.
  { intros i Hi. unfold holders. rewrite Eps, (count_upd_list _ p f _ o) by done. rewrite Hf by done. destruct (decide (i = m)) as [->|Hne].
    - rewrite Hyes, bool_decide_eq_true_2 by done. cbn. lia.
    - rewrite bool_decide_eq_false_2, andb_true_r by done. lia. }
  assert (∀ i, 0 ≤ holders lk' i) as Hnn by (intros; apply count_nonneg).
  assert (aget 0 (granted lk') m = holders lk' m) as Eg by (rewrite Hh by done; cbn; rewrite aget_count by done; rewrite H5 by done; destruct (decide (m = m)); lia).
  split.
  - rewrite Eps. by rewrite procs_upd_list.
  - intros o'. rewrite Eps. intros (x & Hx & ->)%elem_upd_list. destruct (decide (is_proc p x)); exact (H2 x Hx).
  - intros o'. rewrite Eps. intros (x & Hx & ->)%elem_upd_list. destruct (decide (is_proc p x)); [exact (mask_ok_off _ _ (H3 x Hx) Hm)|exact (H3 x Hx)].
  - cbn. rewrite !length_aset. done.
  - intros i Hi. rewrite Hh by done. cbn. rewrite aget_count by done. rewrite H5 by done. destruct (decide (i = m)); lia.
  - intros i Hi. rewrite Hh by done. change (waiters lk' ps i) with (waiters lk ps i). cbn. rewrite aget_count, H6 by done. cbn. destruct (decide (i = m)); lia.
  - cbn. rewrite !total_aset by done. split; lia.
  - change (grantMask lk') with (if aget 0 (granted lk') m =? 0 then Z.land (grantMask lk) (LOCKBIT_OFF m) else grantMask lk). rewrite Eg.
    split; [case_bool; [by apply mask_ok_off|done]|]. intros i Hi. specialize (H8' i Hi). pose proof (Hh i Hi) as Hhi. pose proof (Hh m Hm) as Hhm. rewrite (decide_True (P := m = m)) in Hhm by done.
    specialize (Hnn i). unfold valid_mode in Hi. destruct (Z.eqb_spec (holders lk' m) 0).
    + rewrite testbit_off_ok by (done || lia). destruct (decide (i = m)) as [->|Hne].
      * rewrite bool_decide_eq_true_2, andb_false_r by done. split; [done|lia].
      * rewrite bool_decide_eq_false_2, andb_true_r, H8' by done. rewrite Hhi. by rewrite Z.sub_0_r.
    + destruct (decide (i = m)) as [->|Hne]; [|rewrite Hhi, Z.sub_0_r; done]. rewrite H8'. lia.
  - done.
  - done.
  - done.
  - intros q Hq. destruct (H12 q Hq) as (? & ? & x & Hx & Hxp & Hxh & Hxe). split_and!; try done. exists x. rewrite Eps. split_and!; try done.
    apply elem_upd_list. exists x. split; [done|]. rewrite decide_False; [done|]. unfold is_proc. intros E. apply H11 in Hq. congruence.
  - intros o'. rewrite Eps. intros (x & Hx & ->)%elem_upd_list. destruct (decide (is_proc p x)) as [E|E]; [right; right; cbn; by rewrite E|].
    destruct (H13 x Hx) as [?|[?|Hx']]; [by left|by right; left|]. right; right. destruct Hex; congruence.
  - done.
Qed.

(** Off the queue: the request is pending. *)
Lemma dequeue_ok l lk ps p st (m := waitLockMode (proc_of ps p)) :
  lock_ok l None None lk ps → p ∈ waitProcs lk →
  lock_ok l (Some p) (Some (p, m)) (with_queue (filter (λ q, q ≠ p) (waitProcs lk)) (waitMask lk) lk) (upd_proc p (with_wait None st) ps).
Proof.
  intros [H1 H2 H3 [H4 H4'] H5 H6 [H7 H7'] [H8 H8'] [H9 H9'] H10 H11 H12 H13 H14] Hp. destruct (H12 p Hp) as (Hm & Hst & o & Ho & Hop & Hoh & Hoe). fold m in Hm, Hoh.
  set (ps' := upd_proc p (with_wait None st) ps). set (lk' := with_queue _ _ lk).
  assert (∀ q, leader_of ps' q = leader_of ps q) as El by (intros; by apply leader_of_upd).
  assert (∀ q, q ≠ p → proc_of ps' q = proc_of ps q) as Eq by (intros; unfold ps'; by rewrite proc_of_upd, decide_False).
  assert (∀ q, q ∈ waitProcs lk' ↔ q ∈ waitProcs lk ∧ q ≠ p) as Hin by (intros q; cbn; rewrite list_elem_of_filter; tauto).
  assert (∀ i, waiters lk ps i = waiters lk' ps' i + pends (Some (p, m)) i) as Hw.
  { intros i. unfold waiters. cbn [waitProcs lk' with_queue pends]. rewrite (count_ext (λ q, waitLockMode (proc_of ps' q) =? i) (λ q, waitLockMode (proc_of ps q) =? i)).
    2:{ intros q [Hq _]%list_elem_of_filter. by rewrite Eq. }
    rewrite (count_remove _ p) by done. rewrite (Z.eqb_sym i). unfold m. done. }
  split; try done.
  - intros o' Ho'. rewrite El. by apply H2.
  - intros i Hi. change (holders lk' i) with (holders lk i). change (requested lk') with (requested lk). rewrite H6 by done. rewrite Hw. cbn. lia.
  - split; [done|]. intros i Hi. destruct (H9' i Hi) as [W1 W2]. change (waitMask lk') with (waitMask lk). rewrite Hw in W1, W2. cbn [pends] in *.
    pose proof (count_nonneg (λ q, waitLockMode (proc_of ps' q) =? i) (waitProcs lk')) as Hnn. fold (waiters lk' ps' i) in Hnn. split; intros Hx; [apply W1|specialize (W2 Hx)];
    destruct (Z.eqb_spec i m); lia.
  - cbn. by apply NoDup_filter.
  - intros q. rewrite Hin. destruct (decide (q = p)) as [->|Hne]; [|rewrite Eq by done; rewrite H11; tauto].
    unfold ps'. rewrite proc_of_upd, decide_True by done. cbn. split; [tauto|done].
  - intros q [Hq Hne]%Hin. rewrite Eq by done. by apply H12.
  - intros o' Ho'. rewrite Hin. destruct (H13 o' Ho') as [?|[?|?]]; [by left| |done]. destruct (decide (myProc o' = p)) as [->|Hne]; [by right; right|]. right; left. done.
  - intros p' m' [= <- <-]. split_and!; [done| |exists o; done]. unfold ps'. by rewrite proc_of_upd, decide_True.
Qed.

(** On the queue, anywhere. *)
Lemma enqueue_ok l lk ps p m queue :
  lock_ok l (Some p) (Some (p, m)) lk ps → heldLocks (proc_of ps p) = holdMask (proclock_of p lk) → queue ≡ₚ p :: waitProcs lk →
  lock_ok l None None (with_queue queue (Z.lor (waitMask lk) (LOCKBIT_ON m)) lk) (upd_proc p (with_request l m) ps).
Proof.
  intros [H1 H2 H3 [H4 H4'] H5 H6 [H7 H7'] [H8 H8'] [H9 H9'] H10 H11 H12 H13 H14] Hheld Hq.
  destruct (H14 p m eq_refl) as (Hm & Hw & o & Ho & Hop & Hoh). rewrite (proclock_of_eq p lk o) in Hheld by done.
  set (ps' := upd_proc p (with_request l m) ps). set (lk' := with_queue _ _ lk).
  assert (∀ q, leader_of ps' q = leader_of ps q) as El by (intros; by apply leader_of_upd).
  assert (∀ q, q ≠ p → proc_of ps' q = proc_of ps q) as Eq by (intros; unfold ps'; by rewrite proc_of_upd, decide_False).
  assert (proc_of ps' p = with_request l m (proc_of ps p)) as Ep by (unfold ps'; by rewrite proc_of_upd, decide_True).
  assert (p ∉ waitProcs lk) as Hnp by (rewrite H11; congruence).
  assert (∀ q, q ∈ waitProcs lk' ↔ q = p ∨ q ∈ waitProcs lk) as Hin by (intros q; cbn; rewrite Hq; apply elem_of_cons).
  assert (∀ i, waiters lk' ps' i = waiters lk ps i + pends (Some (p, m)) i) as Hwt.
  { intros i. unfold waiters. cbn [waitProcs lk' with_queue pends]. rewrite (count_perm _ _ _ Hq). cbn [count]. rewrite Ep. cbn [waitLockMode with_request].
    rewrite (count_ext _ (λ q, waitLockMode (proc_of ps q) =? i)); [rewrite (Z.eqb_sym m); lia|]. intros q Hq'. rewrite Eq; [done|]. by intros ->. }
  pose proof Hm as Hm'. unfold valid_mode in Hm'. split; try done.
  - intros o' Ho'. rewrite El. by apply H2.
  - intros i Hi. change (holders lk' i) with (holders lk i). change (requested lk') with (requested lk). rewrite H6, Hwt by done. cbn. lia.
  - change (waitMask lk') with (Z.lor (waitMask lk) (LOCKBIT_ON m)). split; [by apply mask_ok_on|]. intros i Hi. destruct (H9' i Hi) as [W1 W2]. rewrite Hwt. unfold valid_mode in Hi.
    rewrite testbit_on by lia. cbn [pends] in *. pose proof (count_nonneg (λ q, waitLockMode (proc_of ps q) =? i) (waitProcs lk)) as Hnn. fold (waiters lk ps i) in Hnn.
    destruct (Z.eqb_spec i m) as [->|Hne]; [rewrite bool_decide_eq_true_2, orb_true_r by done; split; [done|lia]|].
    rewrite bool_decide_eq_false_2, orb_false_r by done. split; [intros; apply W1; lia|]. intros ?%W2. lia.
  - cbn. rewrite Hq. by apply NoDup_cons.
  - intros q. rewrite Hin. destruct (decide (q = p)) as [->|Hne]; [rewrite Ep; cbn; tauto|]. rewrite Eq by done. rewrite <- H11. tauto.
  - intros q [->|Hq']%Hin; [rewrite Ep; cbn; split_and!; [exact Hm|done|by exists o]|]. rewrite Eq by (by intros ->). by apply H12.
  - intros o' Ho'. rewrite Hin. destruct (H13 o' Ho') as [?|[?|[= <-]]]; [by left|by right; left; right|by right; left; left].
Qed.

(** The pending request is given up. *)
Lemma drop_ok l lk ps p m (lk1 := with_requested m (-1) lk)
    (lk2 := if aget 0 (granted lk1) m =? aget 0 (requested lk1) m then with_masks (grantMask lk1) (Z.land (waitMask lk1) (LOCKBIT_OFF m)) lk1 else lk1) :
  lock_ok l (Some p) (Some (p, m)) lk ps → lock_ok l (Some p) None lk2 ps.
Proof.
  intros [H1 H2 H3 [H4 H4'] H5 H6 [H7 H7'] [H8 H8'] [H9 H9'] H10 H11 H12 H13 H14]. destruct (H14 p m eq_refl) as (Hm & _).
  assert (∀ i, valid_mode i → aget 0 (requested lk1) i = holders lk i + waiters lk ps i) as Hreq.
  { intros i Hi. cbn. rewrite aget_count, H6 by done. cbn. destruct (Z.eqb_spec i m), (decide (i = m)); lia. }
  assert (0 ≤ waiters lk ps m) as Hnn by apply count_nonneg.
  assert (lk2 = with_masks (grantMask lk) (waitMask lk2) lk1) as E by (unfold lk2; destruct (_ =? _); done). rewrite E.
  split; try done.
  - cbn. rewrite length_aset. done.
  - intros i Hi. rewrite Z.add_0_r. by apply Hreq.
  - cbn. rewrite total_aset by done. split; lia.
  - change (waitMask (with_masks (grantMask lk) (waitMask lk2) lk1)) with (waitMask lk2). unfold lk2. rewrite Hreq by done. change (granted lk1) with (granted lk). rewrite H5 by done.
    destruct (Z.eqb_spec (holders lk m) (holders lk m + waiters lk ps m)) as [Ew|Ew]; cbn [waitMask with_masks]; change (waitMask lk1) with (waitMask lk).
    + split; [by apply mask_ok_off|]. intros i Hi. destruct (H9' i Hi) as [W1 W2]. change (waiters (with_masks _ _ lk1) ps i) with (waiters lk ps i). unfold valid_mode in Hi.
      rewrite testbit_off_ok by (done || lia). cbn [pends] in *. destruct (Z.eqb_spec i m) as [->|Hne]; [rewrite bool_decide_eq_true_2, andb_false_r by done; split; [lia|done]|].
      rewrite bool_decide_eq_false_2, andb_true_r by done. split; [done|]. intros ?%W2. lia.
    + split; [done|]. intros i Hi. destruct (H9' i Hi) as [W1 W2]. change (waiters (with_masks _ _ lk1) ps i) with (waiters lk ps i). split; [done|]. cbn [pends] in *. intros Hb. specialize (W2 Hb).
      destruct (Z.eqb_spec i m); subst; lia.
Qed.

(** The entry goes if it holds nothing. *)
Lemma delete_ok l lk ps p (lk' := if holdMask (proclock_of p lk) =? 0 then del_proclock p lk else lk) :
  lock_ok l (Some p) None lk ps → waitLock (proc_of ps p) = None → lock_ok l None None lk' ps.
Proof.
  intros [H1 H2 H3 [H4 H4'] H5 H6 [H7 H7'] [H8 H8'] [H9 H9'] H10 H11 H12 H13 H14] Hw. unfold lk'. destruct (Z.eqb_spec (holdMask (proclock_of p lk)) 0) as [E|E].
  - assert (∀ o, o ∈ procLocks (del_proclock p lk) ↔ o ∈ procLocks lk ∧ myProc o ≠ p) as Hin by (intros o; cbn; rewrite list_elem_of_filter; unfold is_proc; tauto).
    assert (∀ i, valid_mode i → holders (del_proclock p lk) i = holders lk i) as Hh.
    { intros i Hi. unfold valid_mode in Hi. unfold holders. cbn. clear -E H1 Hi. assert (∀ o, o ∈ procLocks lk → myProc o = p → holds o i = false) as Ho.
      { intros o Ho Hp. rewrite (proclock_of_eq p lk o) in E by done. rewrite holds_testbit, E by lia. apply Z.bits_0. }
      clear E H1. induction (procLocks lk) as [|x ls IH]; [done|]. rewrite filter_cons. pose proof (Ho x ltac:(by left)) as Hx. specialize (IH ltac:(intros; apply Ho; [by right|done])).
      case_decide as Ed; cbn; rewrite IH; [done|]. rewrite Hx; [lia|done]. }
    split; try done.
    + cbn. apply (sublist_NoDup _ _ H1), fmap_sublist, sublist_filter.
    + intros o [Ho _]%Hin. by apply H2.
    + intros o [Ho _]%Hin. by apply H3.
    + intros i Hi. rewrite Hh by done. by apply H5.
    + intros i Hi. rewrite Hh by done. by apply H6.
    + split; [done|]. intros i Hi. rewrite Hh by done. by apply H8'.
    + intros q Hq. destruct (H12 q Hq) as (? & ? & o & Ho & ? & ? & ?). split_and!; try done. exists o. rewrite Hin. split_and!; try done. apply H11 in Hq. intros ?. congruence.
    + intros o [Ho Hne]%Hin. destruct (H13 o Ho) as [?|[?|?]]; [by left|by right; left|congruence].
  - split; try done. intros o Ho. destruct (H13 o Ho) as [?|[?|[= ->]]]; [by left|by right; left|]. left. by rewrite (proclock_of_eq (myProc o) lk o) in E.
Qed.

Lemma total_pos f : (∀ m, valid_mode m → 0 ≤ f m) → 0 ≤ total f ∧ (total f = 0 → ∀ m, valid_mode m → f m = 0).
Proof.
  intros H. unfold total. assert (∀ m, valid_mode m ↔ m ∈ seqZ 1 numLockModes) as Hv by (intros m; rewrite elem_of_seqZ; unfold valid_mode; lia).
  assert (∀ m, m ∈ seqZ 1 numLockModes → 0 ≤ f m) as H' by (intros; by apply H, Hv).
  enough (0 ≤ foldr (λ m acc, f m + acc) 0 (seqZ 1 numLockModes) ∧ (foldr (λ m acc, f m + acc) 0 (seqZ 1 numLockModes) = 0 → ∀ m, m ∈ seqZ 1 numLockModes → f m = 0)) as [? ?].
  { split; [done|]. intros ? m ?%Hv. auto. }
  clear H Hv. induction (seqZ 1 numLockModes) as [|m ls IH]; cbn; [split; [lia|]; intros _ m []%not_elem_of_nil|].
  destruct IH as [IH1 IH2]; [intros; apply H'; by right|]. pose proof (H' m ltac:(by left)). split; [lia|]. intros E x [->|Hx]%elem_of_cons; [lia|]. apply IH2; [lia|done].
Qed.

(** An object without requests is empty. *)
Lemma no_requests l lk ps : lock_ok l None None lk ps → nRequested lk = 0 → procLocks lk = [] ∧ waitProcs lk = [].
Proof.
  intros [H1 H2 H3 [H4 H4'] H5 H6 [H7 H7'] [H8 H8'] [H9 H9'] H10 H11 H12 H13 H14] E. rewrite H7' in E.
  assert (∀ m, valid_mode m → 0 ≤ holders lk m ∧ 0 ≤ waiters lk ps m) as Hnn by (intros; split; apply count_nonneg).
  destruct (total_pos (aget 0 (requested lk))) as [_ Hz].
  { intros m Hm. rewrite H6 by done. cbn. pose proof (Hnn m Hm). lia. }
  assert (∀ m, valid_mode m → holders lk m = 0 ∧ waiters lk ps m = 0) as Hzero.
  { intros m Hm. pose proof (Hz E m Hm) as Er. rewrite H6 in Er by done. cbn in Er. pose proof (Hnn m Hm). lia. }
  assert (waitProcs lk = []) as Ew.
  { destruct (waitProcs lk) as [|p q] eqn:Eq; [done|]. destruct (H12 p) as (Hm & _); [left|]. destruct (Hzero _ Hm) as [_ Hc]. unfold waiters in Hc. rewrite Eq in Hc.
    rewrite count_zero in Hc. specialize (Hc p ltac:(by left)). by rewrite Z.eqb_refl in Hc. }
  split; [|done]. destruct (procLocks lk) as [|o ls] eqn:Ep; [done|]. exfalso. destruct (H13 o ltac:(by left)) as [Hne|[Hin|?]]; [|by rewrite Ew in Hin; apply not_elem_of_nil in Hin|done].
  apply Hne. apply mask_zero; [apply H3; by left|]. intros i Hi. destruct (Hzero i Hi) as [Hc _]. unfold holders in Hc. rewrite Ep, count_zero in Hc.
  rewrite <- holds_testbit by (unfold valid_mode in Hi; lia). apply Hc. by left.
Qed.

(** ** Operations *)

Section Operations.
Variable session : Z → stream_session.
#[local] Abbreviation friends := (friends session).
#[local] Abbreviation lock_safe := (lock_safe session).

(** A thread runs with its own session. *)
Definition own (c : thread) : Prop := t_sess c = session (t_proc c).

(** What an operation on lock [l] may change of the processes. *)
Definition wait_in (l : Z) (x : PGPROC) : Prop := waitLock x = None ∨ waitLock x = Some l.
Definition status_ok (x : PGPROC) : Prop := waitLock x = None → waitStatus x ≠ STATUS_WAITING.
Record frame (l : Z) (ps ps' : procmap) : Prop := {
  fr_status : ∀ q, status_ok (proc_of ps q) → status_ok (proc_of ps' q);
  fr_group : ∀ q, lockGroupLeader (proc_of ps' q) = lockGroupLeader (proc_of ps q);
  fr_proc : ∀ q, proc_of ps' q = proc_of ps q ∨ (wait_in l (proc_of ps q) ∧ wait_in l (proc_of ps' q));
}.

Lemma frame_refl l ps : frame l ps ps.
Proof. split; [done|done|]. intros q. by left. Qed.

Lemma frame_trans l ps ps' ps'' : frame l ps ps' → frame l ps' ps'' → frame l ps ps''.
Proof.
  intros [A0 A1 A2] [B0 B1 B2]. split; [auto|intros q; by rewrite B1, A1|]. intros q. destruct (A2 q) as [Ea|[? ?]], (B2 q) as [Eb|[? ?]].
  - left. congruence.
  - right. by rewrite <- Ea.
  - right. by rewrite Eb.
  - by right.
Qed.

Lemma frame_upd l p f ps :
  (∀ x, lockGroupLeader (f x) = lockGroupLeader x) → (status_ok (proc_of ps p) → status_ok (f (proc_of ps p))) →
  wait_in l (proc_of ps p) → wait_in l (f (proc_of ps p)) → frame l ps (upd_proc p f ps).
Proof.
  intros Hf H0 H1 H2. split; intros q; rewrite proc_of_upd; destruct (decide (q = p)) as [->|]; auto.
Qed.

Lemma frame_leader l ps ps' q : frame l ps ps' → leader_of ps' q = leader_of ps q.
Proof. intros [_ H _]. unfold leader_of. by rewrite H. Qed.

Lemma frame_groups l ps ps' : frame l ps ps' → groups_ok ps → groups_ok ps'.
Proof. intros [_ H _] Hg p g. rewrite !H. apply Hg. Qed.

(** Entries only gain modes. *)
Definition grows (lk lk' : LOCK) : Prop := ∀ o i, o ∈ procLocks lk → valid_mode i → holds o i = true →
  ∃ o', o' ∈ procLocks lk' ∧ myProc o' = myProc o ∧ holds o' i = true.

Lemma blocked_mono lk lk' ps ps' ahead ahead' p m :
  grows lk lk' → (∀ q, leader_of ps' q = leader_of ps q) → (∀ q, q ∈ ahead → q ∈ ahead' ∧ waitLockMode (proc_of ps' q) = waitLockMode (proc_of ps q)) →
  blocked lk ps ahead p m → blocked lk' ps' ahead' p m.
Proof.
  intros Hg Hl Ha [(o & i & Ho & Hne & Hi & Hh & Hc)|(q & Hq & Hc)].
  - left. destruct (Hg o i Ho Hi Hh) as (o' & Ho' & Ep & Hh'). exists o', i. rewrite !Hl, Ep. done.
  - right. destruct (Ha q Hq) as [? E]. exists q. by rewrite E.
Qed.

Lemma grows_refl lk lk' : procLocks lk' = procLocks lk → grows lk lk'.
Proof. intros E o i Ho Hi Hh. exists o. by rewrite E. Qed.

Lemma grant_grows p m lk : valid_mode m → grows lk (GrantLock p m lk).
Proof.
  intros Hm o i Ho Hi Hh. unfold valid_mode in *. eexists. split_and!; [apply elem_upd_list; exists o; split; [done|reflexivity]|by destruct (decide (is_proc p o))|].
  destruct (decide (is_proc p o)); [|done]. rewrite holds_lor, <- holds_testbit, Hh by lia. done.
Qed.

Lemma safe_ext lk lk' ps ps' : (∀ o, o ∈ procLocks lk' → o ∈ procLocks lk) → (∀ q, leader_of ps' q = leader_of ps q) → lock_safe lk ps → lock_safe lk' ps'.
Proof.
  intros Hp Hl H o o' m m' Ho Ho' Hne Hm Hm' Hh Hh' Hc. hnf. rewrite !Hl. by apply (H o o' m m'); auto.
Qed.

Lemma grant_safe l ex pd lk ps c p m o :
  lock_ok l ex pd lk ps → o ∈ procLocks lk → myProc o = p → valid_mode m → own c → groups_ok ps → LockCheckConflicts c ps m p lk = STATUS_OK →
  lock_safe lk ps → lock_safe (GrantLock p m lk) ps.
Proof.
  intros H Ho Hp Hm Hown Hg Hc Hs. rewrite (check_ok l ex pd lk ps c p o m) in Hc by done.
  assert (∀ o' i, o' ∈ procLocks lk → myProc o' ≠ p → valid_mode i → holds o' i = true → conflict m i = true → friends ps p (myProc o')) as Hfr.
  { intros o' i Ho' Hne Hi Hh Hcf. destruct (ignored c ps p (myProc o')) eqn:E; [by apply (ignored_friends session) in E|].
    by rewrite (Hc o' i) in Hcf. }
  assert (∀ x i, valid_mode i → holds (with_hold (Z.lor (holdMask x) (LOCKBIT_ON m)) x) i = true → holds x i = true ∨ i = m) as Hlor.
  { intros x i Hi. unfold valid_mode in *. rewrite holds_lor, <- holds_testbit by lia. intros [?|?]%orb_true_iff; [by left|right]. by case_bool_decide. }
  intros o1 o2 m1 m2 (x & Hx & ->)%elem_upd_list (y & Hy & ->)%elem_upd_list Hne Hm1 Hm2 H1 H2 Hcf.
  destruct (decide (is_proc p x)) as [Ex|Ex], (decide (is_proc p y)) as [Ey|Ey]; cbn [myProc with_hold] in *; unfold is_proc in *; [congruence| | |by apply (Hs x y m1 m2)].
  - apply Hlor in H1 as [H1| ->]; [|rewrite Ex; by apply (Hfr y m2)|done]. by apply (Hs x y m1 m2).
  - apply Hlor in H2 as [H2| ->]; [|rewrite Ey; apply (friends_sym session), (Hfr x m1); try done; by rewrite conflict_sym|done]. by apply (Hs x y m1 m2).
Qed.

Lemma wakeup_grant p m lk ps :
  ProcWakeup p STATUS_OK (GrantLock p m lk, ps) = (GrantLock p m (with_queue (filter (λ q, q ≠ p) (waitProcs lk)) (waitMask lk) lk), upd_proc p (with_wait None STATUS_OK) ps).
Proof. done. Qed.

(** The requests of the waiters passed over, as a mask. *)
Definition collects (ahead : Z) (ps : procmap) (pre : list Z) : Prop := ∀ i, valid_mode i → Z.testbit ahead i = true → ∃ q, q ∈ pre ∧ waitLockMode (proc_of ps q) = i.

Lemma collects_snoc ahead ps pre p :
  valid_mode (waitLockMode (proc_of ps p)) → collects ahead ps pre → collects (Z.lor ahead (LOCKBIT_ON (waitLockMode (proc_of ps p)))) ps (pre ++ [p]).
Proof.
  intros Hm H i Hi. unfold valid_mode in Hm. rewrite testbit_on by (unfold valid_mode in Hi; lia). intros [Hb|Hb]%orb_true_iff.
  - destruct (H i Hi Hb) as (q & ? & ?). exists q. split; [apply elem_of_app; by left|done].
  - apply bool_decide_eq_true in Hb as ->. exists p. split; [apply elem_of_app; right; by left|done].
Qed.

(** A waiter that is passed over is blocked. *)
Lemma passed_over_blocked l ex pd lk ps c p o m ahead pre :
  lock_ok l ex pd lk ps → groups_ok ps → o ∈ procLocks lk → myProc o = p → valid_mode m → collects ahead ps pre →
  (Z.land (conflictTab m) ahead =? 0) && (LockCheckConflicts c ps m p lk =? STATUS_OK) = false → blocked lk ps pre p m.
Proof.
  intros H Hg Ho Hp Hm Hc [E|E]%andb_false_iff.
  - apply Z.eqb_neq in E. destruct (conflict_exists m ahead Hm E) as (i & Hi & Hb & Hcf). apply Hc in Hb as (q & Hq & <-); [|done]. right. by exists q.
  - apply Z.eqb_neq in E. destruct (check_found l ex pd lk ps c p o m) as (o' & i & ?); [done..|]. left. by exists o', i.
Qed.

Record woken (l : Z) (ps : procmap) (y : lock_procs) : Prop := {
  wk_ok : lock_ok l None None y.1 y.2;
  wk_safe : lock_safe y.1 y.2;
  wk_frame : frame l ps y.2;
  wk_blocked : queue_blocked y.1 y.2;
}.

Lemma wakeup_loop_ok c l : own c → ∀ rest pre ahead lk ps,
  lock_ok l None None lk ps → lock_safe lk ps → groups_ok ps → waitProcs lk = pre ++ rest → collects ahead ps pre →
  (∀ pre1 p pre2, pre = pre1 ++ p :: pre2 → blocked lk ps pre1 p (waitLockMode (proc_of ps p))) →
  woken l ps (wakeup_loop c rest ahead (lk, ps)).
Proof.
  intros Hown. induction rest as [|p rest IH]; intros pre ahead lk ps H Hs Hg Hq Hc Hb; cbn [wakeup_loop].
  { split; [done|done|apply frame_refl|]. intros pre' p post E. cbn [fst snd] in *. rewrite Hq, app_nil_r in E. by apply (Hb pre' p post). }
  cbn [fst snd]. set (m := waitLockMode (proc_of ps p)). assert (p ∈ waitProcs lk) as Hp by (rewrite Hq; apply elem_of_app; right; by left).
  destruct (lo_waiter _ _ _ _ _ H p Hp) as (Hm & _ & o & Ho & Hop & _). fold m in Hm.
  pose proof (lo_queue _ _ _ _ _ H) as Hnd. rewrite Hq in Hnd. apply NoDup_app in Hnd as (Hnd1 & Hdis & Hnd2). apply NoDup_cons in Hnd2 as [Hpr Hnd2].
  assert (p ∉ pre) as Hpp by (intros Hx; by apply (Hdis p Hx); left).
  destruct ((Z.land (conflictTab m) ahead =? 0) && (LockCheckConflicts c ps m p lk =? STATUS_OK)) eqn:E.
  - apply andb_true_iff in E as [_ E]. apply Z.eqb_eq in E. rewrite wakeup_grant. set (lk' := GrantLock p m _). set (ps' := upd_proc p _ ps).
    assert (frame l ps ps') as Hfr by (apply frame_upd; [done|done|right; by apply (lo_waiting _ _ _ _ _ H)|by left]).
    assert (∀ q, q ≠ p → proc_of ps' q = proc_of ps q) as Eq by (intros; unfold ps'; by rewrite proc_of_upd, decide_False).
    assert (waitProcs lk' = pre ++ rest) as Hq'.
    { cbn. rewrite Hq, filter_app, filter_cons, decide_False by (intros Hx; by apply Hx). by rewrite !filter_ne_all. }
    destruct (IH pre ahead lk' ps') as [W1 W2 W3 W4].
    + apply grant_ok. by apply dequeue_ok.
    + apply (safe_ext (GrantLock p m lk) _ ps); [done|intros; by apply (frame_leader l)|]. by apply (grant_safe l None None _ _ c p m o).
    + by apply (frame_groups l ps).
    + done.
    + intros i Hi Hbit. destruct (Hc i Hi Hbit) as (q & Hqp & Hqm). exists q. split; [done|]. rewrite Eq; [done|]. by intros ->.
    + intros pre1 q pre2 Epre. assert (q ∈ pre) as Hqp by (rewrite Epre; apply elem_of_app; right; by left). rewrite (Eq q) by (by intros ->).
      eapply blocked_mono; [by apply (grant_grows p m lk)|intros; by apply (frame_leader l)| |by apply (Hb pre1 q pre2)].
      intros x Hx. split; [done|]. rewrite Eq; [done|]. intros ->. apply Hpp. rewrite Epre. apply elem_of_app. by left.
    + split; try done. by eapply frame_trans.
  - apply (IH (pre ++ [p])); try done; [by rewrite <- app_assoc|by apply collects_snoc|].
    intros pre1 q pre2 Epre. destruct pre2 as [|z pre2 _] using rev_ind.
    + apply app_inj_tail in Epre as [<- <-]. by apply (passed_over_blocked l None None lk ps c p o m ahead).
    + rewrite app_comm_cons, app_assoc in Epre. apply app_inj_tail in Epre as [Epre _]. by apply (Hb pre1 q pre2).
Qed.

Lemma wakeup_ok c l lk ps : own c → lock_ok l None None lk ps → lock_safe lk ps → groups_ok ps → woken l ps (ProcLockWakeup c (lk, ps)).
Proof.
  intros Hown H Hs Hg. apply (wakeup_loop_ok c l Hown _ []); try done.
  - intros i Hi. by rewrite Z.bits_0.
  - intros pre1 p pre2 E. by destruct pre1.
Qed.

(** A lock of the table, or the absence of one. *)
Definition table_ok (l : Z) (lko : option LOCK) (ps : procmap) : Prop :=
  match lko with
  | Some lk => lock_ok l None None lk ps ∧ lock_safe lk ps ∧ queue_blocked lk ps ∧ 0 < nRequested lk
  | None => ∀ p, waitLock (proc_of ps p) ≠ Some l
  end.

Lemma wakeup_requests c queue : ∀ ahead x, nRequested (wakeup_loop c queue ahead x).1 = nRequested x.1.
Proof. induction queue as [|p queue IH]; intros ahead x; cbn; [done|]. case_bool; by rewrite IH. Qed.

Lemma requests_nonneg l ex lk ps : lock_ok l ex None lk ps → 0 ≤ nRequested lk.
Proof.
  intros H. destruct (lo_total _ _ _ _ _ H) as [_ ->]. apply total_pos. intros m Hm. rewrite (lo_requested _ _ _ _ _ H m Hm). cbn.
  pose proof (count_nonneg (λ o, holds o m) (procLocks lk)). pose proof (count_nonneg (λ q, waitLockMode (proc_of ps q) =? m) (waitProcs lk)). unfold holders, waiters. lia.
Qed.

Lemma delete_blocked p lk ps (lk' := if holdMask (proclock_of p lk) =? 0 then del_proclock p lk else lk) :
  NoDup (myProc <$> procLocks lk) → queue_blocked lk ps → queue_blocked lk' ps.
Proof.
  intros Hnd H. unfold lk'. destruct (Z.eqb_spec (holdMask (proclock_of p lk)) 0) as [E|E]; [|done]. intros pre q post Eq.
  eapply blocked_mono; [|done|by intros|by apply (H pre q post)]. intros o i Ho Hi Hh. exists o. split_and!; try done. apply list_elem_of_filter. split; [|done].
  unfold is_proc. intros Hop. rewrite (proclock_of_eq p lk o) in E by done. rewrite holds_testbit, E, Z.bits_0 in Hh by (unfold valid_mode in Hi; lia). done.
Qed.

Lemma cleanup_ok c l p wake lk ps :
  own c → lock_ok l (Some p) None lk ps → lock_safe lk ps → groups_ok ps → waitLock (proc_of ps p) = None → (wake = false → queue_blocked lk ps) →
  let y := CleanUpLock c p wake (lk, ps) in table_ok l y.1 y.2 ∧ frame l ps y.2.
Proof.
  intros Hown H Hs Hg Hw Hb. cbv zeta. unfold CleanUpLock. cbn [fst snd]. pose proof (delete_ok l lk ps p H Hw) as H'. cbv zeta in H'.
  pose proof (delete_blocked p lk ps (lo_procs _ _ _ _ _ H)) as Hb'. cbv zeta in Hb'. set (lk' := if _ =? 0 then del_proclock p lk else lk) in *.
  assert (lock_safe lk' ps) as Hs'.
  { apply (safe_ext lk _ ps); [|done|done]. intros o. unfold lk'. destruct (_ =? 0); [|done]. by intros [_ ?]%list_elem_of_filter. }
  pose proof (requests_nonneg _ _ _ _ H') as Hnn. destruct (Z.eqb_spec (nRequested lk') 0) as [E|E].
  - split; [|apply frame_refl]. cbn. intros q Hq. apply (lo_waiting _ _ _ _ _ H') in Hq. rewrite (proj2 (no_requests _ _ _ H' E)) in Hq. by apply not_elem_of_nil in Hq.
  - destruct wake.
    + destruct (wakeup_ok c l lk' ps Hown H' Hs' Hg) as [W1 W2 W3 W4]. split; [|done]. cbn. split_and!; try done. unfold ProcLockWakeup. rewrite wakeup_requests. cbn. lia.
    + split; [|apply frame_refl]. cbn. split_and!; auto. lia.
Qed.

Lemma remove_ok c l p lk ps :
  own c → lock_ok l None None lk ps → lock_safe lk ps → groups_ok ps → p ∈ waitProcs lk →
  let y := RemoveFromWaitQueue c p (lk, ps) in table_ok l y.1 y.2 ∧ frame l ps y.2.
Proof.
  intros Hown H Hs Hg Hp. cbv zeta. unfold RemoveFromWaitQueue. cbn [fst snd]. pose proof (dequeue_ok l lk ps p STATUS_ERROR H Hp) as H1. cbv zeta in H1.
  set (lk1 := with_queue (filter _ _) _ lk) in *. set (ps1 := upd_proc p _ ps) in *. set (m := waitLockMode (proc_of ps p)) in *.
  apply drop_ok in H1. set (lk2 := if _ =? _ then _ else _) in *.
  assert (frame l ps ps1) as Hfr by (apply frame_upd; [done|done|right; by apply (lo_waiting _ _ _ _ _ H)|by left]).
  destruct (cleanup_ok c l p true lk2 ps1 Hown H1) as [T F]; [| |by unfold ps1; rewrite proc_of_upd, decide_True|done|].
  - apply (safe_ext lk _ ps); [|intros; by apply (frame_leader l)|done]. intros o. unfold lk2. by destruct (_ =? _).
  - by apply (frame_groups l ps).
  - split; [done|]. by eapply frame_trans.
Qed.

Lemma insert_before_spec q p a b : q ∉ a → insert_before q p (a ++ q :: b) = a ++ p :: q :: b.
Proof.
  induction a as [|x a IH]; intros Hq; cbn; [by rewrite Z.eqb_refl|]. apply not_elem_of_cons in Hq as [Hne Hq].
  rewrite (proj2 (Z.eqb_neq _ _)) by congruence. by rewrite IH.
Qed.

(** What the search through the queue establishes; [pre] has been passed. *)
Definition place_ok (c : thread) (lk : LOCK) (ps : procmap) (p m held : Z) (pre queue : list Z) (pl : place) : Prop :=
  match pl with
  | AtTail => True
  | Before q => ∃ a b, queue = a ++ q :: b ∧ blocked lk ps (pre ++ a) p m
  | GrantNow => LockCheckConflicts c ps m p lk = STATUS_OK
  | DeadlockBefore q => (∃ a b, queue = a ++ q :: b) ∧ Z.land (conflictTab (waitLockMode (proc_of ps q))) held ≠ 0 ∧
      Z.land (conflictTab m) (heldLocks (proc_of ps q)) ≠ 0
  end.

Lemma place_ok_cons c lk ps p m held pre q queue pl :
  place_ok c lk ps p m held (pre ++ [q]) queue pl → place_ok c lk ps p m held pre (q :: queue) pl.
Proof.
  destruct pl as [|x| |x]; cbn; [done| |done|].
  - intros (a & b & -> & Hb). exists (q :: a), b. split; [done|]. by rewrite <- app_assoc in Hb.
  - intros [(a & b & ->) H]. split; [|done]. by exists (q :: a), b.
Qed.

Lemma find_place_ok c l ex pd lk ps p m o held :
  lock_ok l ex pd lk ps → groups_ok ps → o ∈ procLocks lk → myProc o = p → valid_mode m → ∀ queue pre ahead,
  (∀ q, q ∈ queue → valid_mode (waitLockMode (proc_of ps q))) → collects ahead ps pre →
  place_ok c lk ps p m held pre queue (find_place c ps m p held lk queue ahead).
Proof.
  intros H Hg Ho Hp Hm. induction queue as [|q queue IH]; intros pre ahead Hq Hc; cbn [find_place]; [done|].
  pose proof (Hq q ltac:(by left)) as Hqm. assert (∀ x, x ∈ queue → valid_mode (waitLockMode (proc_of ps x))) as Hq' by (intros; apply Hq; by right).
  case_if E1; [|case_if E2; [case_if E3; [|case_if E4]|]].
  - apply place_ok_cons, IH; [done|]. intros i Hi Hb. destruct (Hc i Hi Hb) as (x & ? & ?). exists x. split; [apply elem_of_app; by left|done].
  - apply negb_true_iff, Z.eqb_neq in E2, E3. cbn. split; [by exists [], queue|done].
  - apply andb_true_iff in E4 as [_ E4]. by apply Z.eqb_eq in E4.
  - cbn. exists [], queue. split; [done|]. rewrite app_nil_r. by apply (passed_over_blocked l ex pd lk ps c p o m ahead).
  - apply place_ok_cons, IH; [done|]. by apply collects_snoc.
Qed.

Lemma insert_blocked l lk ps p m wm a b :
  waitProcs lk = a ++ b → p ∉ waitProcs lk → queue_blocked lk ps → blocked lk ps a p m →
  queue_blocked (with_queue (a ++ p :: b) wm lk) (upd_proc p (with_request l m) ps).
Proof.
  intros Hq Hp H Hb pre x post E. cbn [waitProcs with_queue] in E. set (ps' := upd_proc p _ ps).
  assert (∀ q, q ∈ waitProcs lk → proc_of ps' q = proc_of ps q) as Eq.
  { intros q Hin. unfold ps'. rewrite proc_of_upd, decide_False; [done|]. by intros ->. }
  assert (waitLockMode (proc_of ps' p) = m) as Ep by (unfold ps'; by rewrite proc_of_upd, decide_True).
  assert (∀ ahead q k, (∀ y, y ∈ ahead → y ∈ waitProcs lk) → blocked lk ps ahead q k → ∀ ahead', ahead ⊆ ahead' →
    blocked (with_queue (a ++ p :: b) wm lk) ps' ahead' q k) as Hmono.
  { intros ahead q k Hin Hbl ahead' Hsub. eapply blocked_mono; [by apply grows_refl|intros; by apply leader_of_upd| |exact Hbl]. intros y Hy. split; [by apply Hsub|]. by rewrite Eq by auto. }
  rewrite Hq in *. apply app_eq_inv in E as [(k & -> & Ek)|(k & -> & Ek)].
  - destruct k as [|z k]; cbn in Ek; injection Ek as -> ->.
    + rewrite app_nil_r in *. rewrite Ep. apply (Hmono pre); [intros y Hy; apply elem_of_app; by left|done|done].
    + rewrite Eq by (rewrite <- app_assoc; apply elem_of_app; right; by left). rewrite <- app_assoc in *. cbn in *. apply (Hmono pre); [intros y Hy; apply elem_of_app; by left| |done]. by apply (H pre z (k ++ b)).
  - destruct k as [|z k]; cbn in Ek; injection Ek as <- ->.
    + rewrite app_nil_r. rewrite Ep. apply (Hmono a); [intros y Hy; apply elem_of_app; by left|done|done].
    + rewrite Eq by (apply elem_of_app; right; apply elem_of_app; right; by left). apply (Hmono (a ++ k)).
      * intros y [Hy|Hy]%elem_of_app; apply elem_of_app; [by left|right; apply elem_of_app; by left].
      * apply (H (a ++ k) x post). rewrite Hq. by rewrite <- app_assoc.
      * intros y [Hy|Hy]%elem_of_app; apply elem_of_app; [by left|right; by right].
Qed.

(** The state within an acquisition, after [SetupLockInTable]. *)
Record acquiring (l : Z) (lk : LOCK) (ps : procmap) (p m : Z) : Prop := {
  aq_ok : lock_ok l (Some p) (Some (p, m)) lk ps;
  aq_safe : lock_safe lk ps;
  aq_blocked : queue_blocked lk ps;
  aq_groups : groups_ok ps;
  aq_requests : 0 < nRequested lk;
}.

Lemma grant_table l lk ps c p m :
  own c → acquiring l lk ps p m → LockCheckConflicts c ps m p lk = STATUS_OK → table_ok l (Some (GrantLock p m lk)) ps.
Proof.
  intros Hown [H Hs Hb Hg Hr] Hc. destruct (lo_pend _ _ _ _ _ H p m eq_refl) as (Hm & _ & o & Ho & Hop & _). cbn. split_and!; [by apply grant_ok| | |done].
  - by eapply grant_safe.
  - intros pre q post E. eapply blocked_mono; [by apply grant_grows|done|by intros|]. by apply (Hb pre q post).
Qed.

(** The process queues where [pl] says. *)
Lemma queue_table l lk ps c p m held pl (lk' := with_queue (insert_at pl p (waitProcs lk)) (Z.lor (waitMask lk) (LOCKBIT_ON m)) lk)
    (ps' := upd_proc p (with_request l m) ps) :
  acquiring l lk ps p m → heldLocks (proc_of ps p) = holdMask (proclock_of p lk) → place_ok c lk ps p m held [] (waitProcs lk) pl →
  lock_ok l None None lk' ps' ∧ lock_safe lk' ps' ∧ groups_ok ps' ∧ frame l ps ps' ∧ p ∈ waitProcs lk' ∧
  ((∀ q, pl ≠ DeadlockBefore q) → blocked lk ps (waitProcs lk) p m → queue_blocked lk' ps').
Proof.
  intros [H Hs Hb Hg Hr] Hh Hpl. destruct (lo_pend _ _ _ _ _ H p m eq_refl) as (Hm & Hw & _).
  assert (p ∉ waitProcs lk) as Hnp by (rewrite (lo_waiting _ _ _ _ _ H); congruence).
  assert (∃ a b, waitProcs lk = a ++ b ∧ insert_at pl p (waitProcs lk) = a ++ p :: b ∧ ((∀ q, pl ≠ DeadlockBefore q) → blocked lk ps (waitProcs lk) p m → blocked lk ps a p m)) as (a & b & Eq & Ei & Hbl).
  { pose proof (lo_queue _ _ _ _ _ H) as Hnd. assert (∀ a q b, waitProcs lk = a ++ q :: b → q ∉ a) as Hfresh.
    { intros a q b E Hin. rewrite E in Hnd. apply NoDup_app in Hnd as (_ & Hd & _). apply (Hd q Hin). by left. }
    destruct pl as [|q| |q]; cbn [place_ok insert_at] in *.
    - exists (waitProcs lk), []. by rewrite app_nil_r.
    - destruct Hpl as (a & b & E & Hbl). exists a, (q :: b). rewrite E, insert_before_spec by by eapply Hfresh. done.
    - exists (waitProcs lk), []. by rewrite app_nil_r.
    - destruct Hpl as ((a & b & E) & _). exists a, (q :: b). rewrite E, insert_before_spec by by eapply Hfresh. split_and!; [done|done|]. intros Hn. by destruct (Hn q). }
  unfold lk'. rewrite Ei. assert (frame l ps ps') as Hfr by (apply frame_upd; [done|done|by left|by right]). split_and!.
  - apply enqueue_ok; [done|done|]. rewrite Eq. by rewrite Permutation_middle.
  - apply (safe_ext lk _ ps); [done|intros; by apply (frame_leader l)|done].
  - by apply (frame_groups l ps).
  - done.
  - cbn. apply elem_of_app. right. by left.
  - intros Hn Hall. by apply insert_blocked; auto.
Qed.

Lemma sleep_ok l lk ps c p m :
  own c → acquiring l lk ps p m → heldLocks (proc_of ps p) = holdMask (proclock_of p lk) → waitStatus (proc_of ps p) ≠ STATUS_WAITING →
  blocked lk ps (waitProcs lk) p m → let y := ProcSleep c l m p (lk, ps) in table_ok l y.2.1 y.2.2 ∧ frame l ps y.2.2 ∧ y.1 ≠ SleepCorrupted.
Proof.
  intros Hown A Hh Hst Hall. pose proof A as [H Hs Hb Hg Hr]. destruct (lo_pend _ _ _ _ _ H p m eq_refl) as (Hm & Hw & o & Ho & Hop & _).
  cbv zeta. unfold ProcSleep. cbn [fst snd]. set (held := my_held_locks ps p lk). set (pl := if held =? 0 then AtTail else _).
  assert (place_ok c lk ps p m held [] (waitProcs lk) pl) as Hpl.
  { unfold pl. destruct (held =? 0); [done|]. apply (find_place_ok c l (Some p) (Some (p, m)) lk ps p m o held); try done.
    - intros q Hq. by apply (lo_waiter _ _ _ _ _ H).
    - intros i Hi. by rewrite Z.bits_0. }
  pose proof (queue_table l lk ps c p m held pl A Hh Hpl) as Q. cbv zeta in Q. set (lk' := with_queue (insert_at _ _ _) _ lk) in *. set (ps' := upd_proc p _ ps) in *.
  destruct Q as (Q1 & Q2 & Q3 & Q4 & Q5 & Q6).
  assert ((∀ q, pl ≠ DeadlockBefore q) → table_ok l (Some lk') ps') as Hwait by (intros; cbn; split_and!; auto).
  destruct (t_stream c && (LockCheckConflicts c ps m p lk =? STATUS_OK)) eqn:Est.
  - assert (LockCheckConflicts c ps m p lk = STATUS_OK) as Hc by (apply andb_true_iff in Est as [_ E]; by apply Z.eqb_eq in E).
    pose proof (grant_table l lk ps c p m Hown A Hc). pose proof (frame_refl l ps). destruct pl; by split_and!.
  - rewrite (proj2 (Z.eqb_neq _ _)) by done. destruct pl as [|q| |q] eqn:Epl; cbn [fst snd].
    + split_and!; [by apply Hwait|done|done].
    + split_and!; [by apply Hwait|done|done].
    + split_and!; [by apply (grant_table l lk ps c p m)|apply frame_refl|done].
    + destruct (remove_ok c l p lk' ps' Hown Q1 Q2 Q3 Q5) as [T F]. split_and!; [done|by eapply frame_trans|done].
Qed.

Lemma new_lock_ok l ps : (∀ p, waitLock (proc_of ps p) ≠ Some l) → lock_ok l None None new_lock ps.
Proof.
  intros Hw. assert (∀ m, aget 0 (replicate (Z.to_nat MAX_LOCKMODES) 0) m = 0) as E by (intros; apply aget_replicate).
  assert (mask_ok 0) as H0 by (split; [done|]; intros i _; by rewrite Z.bits_0).
  split; cbn [new_lock procLocks waitProcs requested granted grantMask waitMask nRequested nGranted]; try (intros x []%not_elem_of_nil); try done; try constructor.
  - done.
  - intros m Hm. by rewrite Z.bits_0.
  - done.
  - intros m Hm. rewrite Z.bits_0. split; [|done]. unfold waiters. cbn. lia.
  - intros Hx. by apply not_elem_of_nil in Hx.
  - intros Hx. by destruct (Hw p).
Qed.

Lemma weaken_ok l lk ps p : lock_ok l None None lk ps → lock_ok l (Some p) None lk ps.
Proof.
  intros [H1 H2 H3 H4 H5 H6 H7 H8 H9 H10 H11 H12 H13 H14]. split; try done. intros o Ho. destruct (H13 o Ho) as [?|[?|?]]; [by left|by right; left|done].
Qed.

Lemma add_entry_ok l lk ps p :
  lock_ok l None None lk ps → p ∉ myProc <$> procLocks lk →
  lock_ok l (Some p) None (with_proclocks (procLocks lk ++ [{| myProc := p; groupLeader := leader_of ps p; holdMask := 0 |}]) lk) ps.
Proof.
  intros [H1 H2 H3 [H4 H4'] H5 H6 [H7 H7'] [H8 H8'] [H9 H9'] H10 H11 H12 H13 H14] Hp. set (e := {| myProc := p |}). set (lk' := with_proclocks _ lk).
  assert (∀ o, o ∈ procLocks lk' ↔ o ∈ procLocks lk ∨ o = e) as Hin by (intros o; cbn; rewrite elem_of_app, list_elem_of_singleton; done).
  assert (∀ i, valid_mode i → holders lk' i = holders lk i) as Hh.
  { intros i Hi. unfold holders. cbn. rewrite count_app. cbn. rewrite holds_testbit by (unfold valid_mode in Hi; lia). cbn. rewrite Z.bits_0. lia. }
  split; try done.
  - cbn. rewrite fmap_app. apply NoDup_app. split_and!; [done| |cbn; by apply NoDup_singleton]. intros x Hx. cbn. rewrite list_elem_of_singleton. by intros ->.
  - intros o [Ho| ->]%Hin; [by apply H2|done].
  - intros o [Ho| ->]%Hin; [by apply H3|]. split; [done|]. intros i _. cbn. by rewrite Z.bits_0.
  - intros i Hi. rewrite Hh by done. by apply H5.
  - intros i Hi. rewrite Hh by done. by apply H6.
  - split; [done|]. intros i Hi. rewrite Hh by done. by apply H8'.
  - intros q Hq. destruct (H12 q Hq) as (? & ? & o & Ho & ? & ? & ?). split_and!; try done. exists o. rewrite Hin. split_and!; try done. by left.
  - intros o [Ho| ->]%Hin; [|by right; right]. destruct (H13 o Ho) as [?|[?|?]]; [by left|by right; left|done].
Qed.

Lemma request_ok l lk ps p m o :
  lock_ok l (Some p) None lk ps → o ∈ procLocks lk → myProc o = p → holds o m = false → valid_mode m → waitLock (proc_of ps p) = None →
  lock_ok l (Some p) (Some (p, m)) (with_requested m 1 lk) ps.
Proof.
  intros [H1 H2 H3 [H4 H4'] H5 H6 [H7 H7'] [H8 H8'] [H9 H9'] H10 H11 H12 H13 H14] Ho Hp Hh Hm Hw. split; try done.
  - cbn. rewrite length_aset. done.
  - intros i Hi. cbn [requested with_requested]. rewrite aget_count, H6 by done. change (holders (with_requested m 1 lk) i) with (holders lk i).
    change (waiters (with_requested m 1 lk) ps i) with (waiters lk ps i). cbn. destruct (Z.eqb_spec i m), (decide (i = m)); lia.
  - cbn. rewrite total_aset by done. split; lia.
  - split; [done|]. intros i Hi. destruct (H9' i Hi) as [W1 W2]. change (waiters (with_requested m 1 lk) ps i) with (waiters lk ps i). cbn [waitMask with_requested pends] in *.
    split; [done|]. intros ?%W2. destruct (i =? m); lia.
  - intros p' m' [= <- <-]. split_and!; [done|done|]. by exists o.
Qed.

(** Undoing a request that never got into the wait mask. *)
Lemma undo_ok l lk ps p m :
  lock_ok l (Some p) (Some (p, m)) lk ps → (∀ i, valid_mode i → Z.testbit (waitMask lk) i = true → 0 < waiters lk ps i) →
  lock_ok l (Some p) None (with_requested m (-1) lk) ps.
Proof.
  intros [H1 H2 H3 [H4 H4'] H5 H6 [H7 H7'] [H8 H8'] [H9 H9'] H10 H11 H12 H13 H14] Hwm. destruct (H14 p m eq_refl) as (Hm & _). split; try done.
  - cbn. rewrite length_aset. done.
  - intros i Hi. cbn [requested with_requested]. rewrite aget_count, H6 by done. change (holders (with_requested m (-1) lk) i) with (holders lk i).
    change (waiters (with_requested m (-1) lk) ps i) with (waiters lk ps i). cbn. destruct (Z.eqb_spec i m), (decide (i = m)); lia.
  - cbn. rewrite total_aset by done. split; lia.
  - split; [done|]. intros i Hi. destruct (H9' i Hi) as [W1 W2]. split; [done|]. intros Hb. rewrite Z.add_0_r. by apply (Hwm i).
Qed.

Definition unheld (lko : option LOCK) (p m : Z) : Prop := match lko with Some lk => holds (proclock_of p lk) m = false | None => True end.

Lemma setup_ok l lko ps p m rl rp :
  table_ok l lko ps → groups_ok ps → valid_mode m → waitLock (proc_of ps p) = None → unheld lko p m →
  match SetupLockInTable rl rp ps p m lko with
  | SetupOk lk => acquiring l lk ps p m ∧ (∀ i, valid_mode i → Z.testbit (waitMask lk) i = true → 0 < waiters lk ps i)
  | SetupNull lko' => table_ok l lko' ps
  | SetupHeld _ => False
  end.
Proof.
  intros T Hg Hm Hw Hu. unfold SetupLockInTable.
  assert (∃ lk, lock_ok l None None lk ps ∧ lock_safe lk ps ∧ queue_blocked lk ps ∧ 0 ≤ nRequested lk ∧ (0 < nRequested lk → lko = Some lk) ∧ holds (proclock_of p lk) m = false ∧
    (match lko with Some lk => Some lk | None => if rl then Some new_lock else None end = Some lk ∨ (lko = None ∧ rl = false))) as (lk & H & Hs & Hb & Hr & Hsome & Hhm & Hcase).
  { destruct lko as [lk|]; cbn in T.
    - destruct T as (? & ? & ? & ?). exists lk. split_and!; try done; [lia|by left].
    - exists new_lock. split_and!; [by apply new_lock_ok| | |done|done| |destruct rl; [by left|by right]].
      + intros o o' ? ? []%not_elem_of_nil.
      + intros pre q post E. by destruct pre.
      + unfold holds, flag. cbn. done. }
  destruct Hcase as [->|[-> ->]]; [|exact T].
  assert (∀ i, valid_mode i → Z.testbit (waitMask lk) i = true → 0 < waiters lk ps i) as Hwm.
  { intros i Hi Hbit. apply (lo_waitMask _ _ _ _ _ H) in Hbit; [|done]. cbn in Hbit. lia. }
  destruct (find_proclock p lk) as [o|] eqn:Ef.
  - apply find_proclock_spec in Ef as [Ho Hop]; [|apply H]. rewrite (proclock_of_eq p lk o (lo_procs _ _ _ _ _ H) Ho Hop) in Hhm.
    change (proclock_of p (with_requested m 1 lk)) with (proclock_of p lk). rewrite (proclock_of_eq p lk o (lo_procs _ _ _ _ _ H) Ho Hop), Hhm.
    split; [|done]. split; try done; [|cbn; lia]. apply (request_ok l lk ps p m o); try done. by apply weaken_ok.
  - destruct rp; [|destruct (Z.eqb_spec (nRequested lk) 0) as [E|E]; cbn; [|split_and!; try done; lia]].
    + apply find_proclock_none in Ef. pose proof (add_entry_ok l lk ps p H Ef) as H'. set (e := {| myProc := p |}) in *. set (lk' := with_proclocks _ lk) in *.
      change (proclock_of p (with_requested m 1 lk')) with (proclock_of p lk').
      assert (e ∈ procLocks lk') as He by (cbn; apply elem_of_app; right; by apply list_elem_of_singleton).
      assert (holds e m = false) as Heh by (rewrite holds_testbit by (unfold valid_mode in Hm; lia); apply Z.bits_0).
      rewrite (proclock_of_eq p lk' e (lo_procs _ _ _ _ _ H') He eq_refl), Heh. split; [|done]. split; try done; [by apply (request_ok l lk' ps p m e)| | |cbn; lia].
      * intros o o' m1 m2 Ho Ho' Hne Hm1 Hm2 Hh1 Hh2. cbn in Ho, Ho'. apply elem_of_app in Ho as [Ho|Ho%list_elem_of_singleton], Ho' as [Ho'|Ho'%list_elem_of_singleton]; [by apply Hs| | |].
        all: subst; rewrite holds_testbit in * by (unfold valid_mode in *; lia); cbn in *; by rewrite ?Z.bits_0 in *.
      * intros pre q post E. eapply blocked_mono; [|done|by intros|by apply (Hb pre q post)]. intros o i Ho Hi Hh. exists o. split_and!; try done. cbn. apply elem_of_app. by left.
    + intros q Hq. apply (lo_waiting _ _ _ _ _ H) in Hq. rewrite (proj2 (no_requests _ _ _ H E)) in Hq. by apply not_elem_of_nil in Hq.
Qed.

(** A refused request is blocked by a holder or by a waiter. *)
Lemma refused_blocked l lk ps c p m :
  acquiring l lk ps p m → (∀ i, valid_mode i → Z.testbit (waitMask lk) i = true → 0 < waiters lk ps i) →
  ((if negb (Z.land (conflictTab m) (waitMask lk) =? 0) then STATUS_FOUND else LockCheckConflicts c ps m p lk) =? STATUS_OK) = false →
  blocked lk ps (waitProcs lk) p m.
Proof.
  intros [H Hs Hb Hg Hr] Hwm E. destruct (lo_pend _ _ _ _ _ H p m eq_refl) as (Hm & _ & o & Ho & Hop & _).
  destruct (Z.eqb_spec (Z.land (conflictTab m) (waitMask lk)) 0) as [E'|E']; cbn [negb] in E.
  - apply Z.eqb_neq in E. destruct (check_found _ _ _ _ _ c p o m H Ho Hop Hm Hg E) as (o' & i & ?). left. by exists o', i.
  - destruct (conflict_exists m _ Hm E') as (i & Hi & Hbit & Hc). apply (Hwm i Hi), count_pos in Hbit as (q & Hq & Em). apply Z.eqb_eq in Em. right. exists q. by rewrite Em.
Qed.

Lemma frame_held l p h ps : waitLock (proc_of ps p) = None → frame l ps (upd_proc p (with_heldLocks h) ps).
Proof. intros Hw. apply frame_upd; [done|done|by left|by left]. Qed.

(** The saved mask of held locks is nobody else's business. *)
Lemma held_acquiring l lk ps p m h : acquiring l lk ps p m → acquiring l lk (upd_proc p (with_heldLocks h) ps) p m.
Proof.
  intros [H Hs Hb Hg Hr]. destruct H as [H1 H2 H3 H4 H5 H6 H7 H8 H9 H10 H11 H12 H13 H14]. destruct (H14 p m eq_refl) as (Hm & Hw & Hpe). set (ps' := upd_proc p _ ps).
  assert (frame l ps ps') as Hfr by by apply frame_held.
  assert (∀ q, waitLockMode (proc_of ps' q) = waitLockMode (proc_of ps q) ∧ waitLock (proc_of ps' q) = waitLock (proc_of ps q) ∧ (q ≠ p → proc_of ps' q = proc_of ps q)) as Eq.
  { intros q. unfold ps'. rewrite proc_of_upd. destruct (decide (q = p)) as [->|]; [split_and!; done|]. done. }
  assert (∀ i, waiters lk ps' i = waiters lk ps i) as Ew by (intros i; unfold waiters; apply count_ext; intros q _; by rewrite (proj1 (Eq q))).
  split; [| |intros pre q post E|by apply (frame_groups l ps)|done].
  - split; try done.
    + intros o Ho. rewrite (frame_leader l ps) by done. by apply H2.
    + intros i Hi. rewrite Ew. by apply H6.
    + split; [apply H9|]. intros i Hi. rewrite Ew. by apply H9.
    + intros q. rewrite (proj1 (proj2 (Eq q))). apply H11.
    + intros q Hq. rewrite (proj2 (proj2 (Eq q))); [by apply H12|]. intros ->. apply H11 in Hq. congruence.
    + intros p' m' E. destruct (H14 p' m' E) as (? & ? & ?). split_and!; try done. by rewrite (proj1 (proj2 (Eq p'))).
  - apply (safe_ext lk _ ps); [done|intros; by apply (frame_leader l)|done].
  - rewrite (proj1 (Eq q)). eapply blocked_mono; [by apply grows_refl|intros; by apply (frame_leader l)| |by apply (Hb pre q post)]. intros x Hx. split; [done|apply Eq].
Qed.

Lemma nowait_ok l lk ps p m (lk' := if holdMask (proclock_of p lk) =? 0 then del_proclock p lk else lk) :
  acquiring l lk ps p m → (∀ i, valid_mode i → Z.testbit (waitMask lk) i = true → 0 < waiters lk ps i) → blocked lk ps (waitProcs lk) p m →
  table_ok l (Some (with_requested m (-1) lk')) ps.
Proof.
  intros [H Hs Hb Hg Hr] Hwm Hbl. destruct (lo_pend _ _ _ _ _ H p m eq_refl) as (Hm & Hw & _). pose proof (delete_blocked p lk ps (lo_procs _ _ _ _ _ H) Hb) as Hb'. cbv zeta in Hb'. fold lk' in Hb'.
  pose proof (undo_ok _ _ _ _ _ H Hwm) as H'. pose proof (delete_ok _ _ _ _ H' Hw) as Hd. cbv zeta in Hd.
  change (proclock_of p (with_requested m (-1) lk)) with (proclock_of p lk) in Hd.
  assert ((if holdMask (proclock_of p lk) =? 0 then del_proclock p (with_requested m (-1) lk) else with_requested m (-1) lk) = with_requested m (-1) lk') as E
    by (unfold lk'; by destruct (_ =? 0)). rewrite E in Hd. clear E.
  assert (∀ o, o ∈ procLocks lk' → o ∈ procLocks lk) as Hsub by (intros o; unfold lk'; destruct (_ =? 0); [by intros [_ ?]%list_elem_of_filter|done]).
  assert (∀ o, o ∈ procLocks lk → myProc o ≠ p → o ∈ procLocks lk') as Hsup.
  { intros o Ho Hne. unfold lk'. destruct (_ =? 0); [|done]. apply list_elem_of_filter. done. }
  cbn [table_ok]. split; [done|]. split; [apply (safe_ext lk _ ps); done|]. split; [exact Hb'|].
  pose proof (requests_nonneg _ _ _ _ Hd). destruct (decide (nRequested (with_requested m (-1) lk') = 0)) as [E|]; [|lia]. exfalso.
  destruct (no_requests _ _ _ Hd E) as [E1 E2]. change (procLocks (with_requested m (-1) lk')) with (procLocks lk') in E1. change (waitProcs (with_requested m (-1) lk')) with (waitProcs lk') in E2.
  destruct Hbl as [(o & i & Ho & Hne & _)|(q & Hq & _)].
  - assert (o ∈ procLocks lk') as Hin by (apply Hsup; [done|congruence]). rewrite E1 in Hin. by apply not_elem_of_nil in Hin.
  - assert (waitProcs lk' = waitProcs lk) as Eq by (unfold lk'; by destruct (_ =? 0)). rewrite <- Eq, E2 in Hq. by apply not_elem_of_nil in Hq.
Qed.

Lemma acquire_ok c l m lko ps rl rp dw (p := t_proc c) :
  own c → table_ok l lko ps → groups_ok ps → valid_mode m → waitLock (proc_of ps p) = None → waitStatus (proc_of ps p) ≠ STATUS_WAITING → unheld lko p m →
  let y := LockAcquire c rl rp dw l m lko ps in table_ok l y.2.1 y.2.2 ∧ frame l ps y.2.2 ∧ y.1 ≠ AcquireHeld ∧ y.1 ≠ AcquireCorrupted.
Proof.
  intros Hown T Hg Hm Hw Hst Hu. cbv zeta. unfold LockAcquire. fold p. pose proof (setup_ok l lko ps p m rl rp T Hg Hm Hw Hu) as S.
  destruct (SetupLockInTable rl rp ps p m lko) as [lk|lko'|]; [|split_and!; [done|apply frame_refl|done|done]|done]. destruct S as [A Hwm].
  case_if E; [split_and!; [|apply frame_refl|done|done]|].
  - apply Z.eqb_eq in E. destruct (negb _); [done|]. by apply (grant_table l lk ps c).
  - pose proof (refused_blocked l lk ps c p m A Hwm E) as Hbl. destruct dw; [split_and!; [by apply nowait_ok|apply frame_refl|done|done]|].
    set (h := holdMask (proclock_of p lk)). set (ps' := upd_proc p (with_heldLocks h) ps).
    assert (frame l ps ps') as Hfr by by apply frame_held. assert (proc_of ps' p = with_heldLocks h (proc_of ps p)) as Ep by (unfold ps'; by rewrite proc_of_upd, decide_True).
    destruct (sleep_ok l lk ps' c p m) as (T' & F' & Hr).
    + done.
    + by apply held_acquiring.
    + by rewrite Ep.
    + by rewrite Ep.
    + eapply blocked_mono; [by apply grows_refl|intros; by apply (frame_leader l)| |exact Hbl]. intros q Hq. split; [done|].
      unfold ps'. rewrite proc_of_upd. by destruct (decide (q = p)) as [->|].
    + destruct (ProcSleep c l m p (lk, ps')) as [r y]. cbn [fst snd] in *. split_and!; [done|by eapply frame_trans| |]; by destruct r.
Qed.

Lemma ungrant_safe p m lk ps : NoDup (myProc <$> procLocks lk) → (∀ o, o ∈ procLocks lk → mask_ok (holdMask o)) → valid_mode m → lock_safe lk ps → lock_safe (UnGrantLock p m lk).2 ps.
Proof.
  intros Hnd Hok Hm Hs o1 o2 m1 m2 (x & Hx & ->)%elem_upd_list (y & Hy & ->)%elem_upd_list Hne Hm1 Hm2 H1 H2 Hcf.
  assert (∀ z i, z ∈ procLocks lk → valid_mode i →
    holds (if decide (is_proc p z) then with_hold (Z.land (holdMask z) (LOCKBIT_OFF m)) z else z) i = true → holds z i = true) as Hsub.
  { intros z i Hz Hi. destruct (decide (is_proc p z)); [|done]. rewrite !holds_testbit by (unfold valid_mode in Hi; lia). cbn. rewrite Z.land_spec. by intros [? _]%andb_true_iff. }
  assert (∀ z, myProc (if decide (is_proc p z) then with_hold (Z.land (holdMask z) (LOCKBIT_OFF m)) z else z) = myProc z) as Ep by (intros z; by destruct (decide (is_proc p z))).
  rewrite !Ep in *. apply (Hs x y m1 m2); auto.
Qed.

(** A release that wakes nobody leaves every waiter blocked. *)
Lemma ungrant_blocked l ex lk ps p m :
  lock_ok l ex None lk ps → valid_mode m → (UnGrantLock p m lk).1 = false → queue_blocked lk ps → queue_blocked (UnGrantLock p m lk).2 ps.
Proof.
  intros H Hm Hw Hb pre q post E. change (waitProcs (UnGrantLock p m lk).2) with (waitProcs lk) in E.
  destruct (Hb pre q post E) as [(o & i & Ho & Hne & Hi & Hh & Hc)|(x & Hx & Hc)]; [|right; by exists x]. left.
  assert (q ∈ waitProcs lk) as Hq by (rewrite E; apply elem_of_app; right; by left). destruct (lo_waiter _ _ _ _ _ H q Hq) as (Hqm & _).
  assert (i ≠ m) as Him.
  { intros ->. cbn in Hw. apply negb_false_iff, Z.eqb_eq in Hw. rewrite no_conflict in Hw by done. rewrite conflict_sym in Hc by done.
    rewrite (Hw (waitLockMode (proc_of ps q))) in Hc; [done|done|]. apply (lo_waitMask _ _ _ _ _ H); [done|]. apply count_pos. exists q. by rewrite Z.eqb_refl. }
  eexists _, i. split_and!; [apply elem_upd_list; exists o; split; [done|reflexivity]|by destruct (decide (is_proc p o))|done| |done].
  destruct (decide (is_proc p o)); [|done]. pose proof Hi as Hi'. unfold valid_mode in Hi'. rewrite holds_testbit in * by lia. cbn.
  rewrite testbit_off_ok by (done || lia || by apply (lo_hold _ _ _ _ _ H)). by rewrite Hh, bool_decide_eq_false_2.
Qed.

Definition held_modes (p : Z) (modes : list Z) (lk : LOCK) : Prop :=
  ∃ o, o ∈ procLocks lk ∧ myProc o = p ∧ ∀ m, m ∈ modes → valid_mode m ∧ holds o m = true.

Lemma ungrant_modes_ok l p modes : ∀ ex lk ps,
  lock_ok l ex None lk ps → ex = None ∨ ex = Some p → lock_safe lk ps → waitLock (proc_of ps p) = None → NoDup modes → held_modes p modes lk →
  let y := ungrant_modes p modes lk in lock_ok l (Some p) None y.2 ps ∧ lock_safe y.2 ps ∧ (y.1 = false → queue_blocked lk ps → queue_blocked y.2 ps).
Proof.
  induction modes as [|m modes IH]; intros ex lk ps H Hex Hs Hw Hnd (o & Ho & Hop & Hh); cbv zeta; cbn [ungrant_modes].
  { split_and!; try done. destruct Hex as [-> | ->]; [by apply weaken_ok|done]. }
  apply NoDup_cons in Hnd as [Hmn Hnd]. destruct (Hh m ltac:(by left)) as [Hm Hhm].
  pose proof (ungrant_ok l ex lk ps p m o H Hex Hm Ho Hop Hhm Hw) as H1.
  pose proof (ungrant_safe p m lk ps (lo_procs _ _ _ _ _ H) (lo_hold _ _ _ _ _ H) Hm Hs) as Hs1.
  pose proof (ungrant_blocked l ex lk ps p m H Hm) as Hb1. destruct (UnGrantLock p m lk) as [w lk1] eqn:Eu. cbn [fst snd] in *.
  destruct (IH (Some p) lk1 ps H1) as (I1 & I2 & I3); [by right|done|done|done| |].
  - exists (with_hold (Z.land (holdMask o) (LOCKBIT_OFF m)) o). replace lk1 with (UnGrantLock p m lk).2 by by rewrite Eu. split_and!; [|done|].
    + apply elem_upd_list. exists o. by rewrite decide_True.
    + intros i Hi. destruct (Hh i ltac:(by right)) as [Hi' Hhi]. split; [done|]. pose proof Hi' as Hi''. unfold valid_mode in Hi''. rewrite holds_testbit in * by lia. cbn.
      rewrite testbit_off_ok by (done || lia || by apply (lo_hold _ _ _ _ _ H)). rewrite Hhi, bool_decide_eq_false_2; [done|]. by intros ->.
  - destruct (ungrant_modes p modes lk1) as [w' lk2]. cbn [fst snd] in *. split_and!; [done|done|]. intros [-> ->]%orb_false_iff Hb. auto.
Qed.

Lemma release_ok c l p modes lk ps :
  own c → lock_ok l None None lk ps → lock_safe lk ps → queue_blocked lk ps → groups_ok ps → waitLock (proc_of ps p) = None → NoDup modes → held_modes p modes lk →
  let y := release_modes c p modes (lk, ps) in table_ok l y.1 y.2 ∧ frame l ps y.2.
Proof.
  intros Hown H Hs Hb Hg Hw Hnd Hh. cbv zeta. unfold release_modes. cbn [fst snd].
  destruct (ungrant_modes_ok l p modes None lk ps H) as (U1 & U2 & U3); [by left|done..|]. destruct (ungrant_modes p modes lk) as [w lk1]. cbn [fst snd] in *.
  apply cleanup_ok; auto.
Qed.

Lemma release_one c p m lk ps : p = t_proc c → holds (proclock_of p lk) m = true → LockRelease c m (lk, ps) = (true, release_modes c p [m] (lk, ps)).
Proof.
  intros -> Hh. unfold LockRelease, release_modes. cbn [fst snd ungrant_modes]. rewrite Hh. destruct (UnGrantLock (t_proc c) m lk). by rewrite orb_false_r.
Qed.

(** ** All processes and all locks *)

Record table := { tb_locks : gmap Z LOCK; tb_procs : procmap }.

Definition put (l : Z) (y : option LOCK * procmap) (t : table) : table := {|
  tb_locks := match y.1 with Some lk => <[l := lk]> (tb_locks t) | None => delete l (tb_locks t) end; tb_procs := y.2 |}.

(** A thread acquires a mode it does not hold, releases modes it holds, gives up waiting
    (an error, a timeout, a deadlock), or the deadlock check puts a queue into another
    order. *)
Inductive lstep : table → table → Prop :=
| ls_acquire t c rl rp dw l m :
    own c → valid_mode m → waitLock (proc_of (tb_procs t) (t_proc c)) = None → unheld (tb_locks t !! l) (t_proc c) m →
    lstep t (put l (LockAcquire c rl rp dw l m (tb_locks t !! l) (tb_procs t)).2 t)
| ls_release t c l lk modes :
    own c → tb_locks t !! l = Some lk → waitLock (proc_of (tb_procs t) (t_proc c)) = None → NoDup modes → held_modes (t_proc c) modes lk →
    lstep t (put l (release_modes c (t_proc c) modes (lk, tb_procs t)) t)
| ls_cancel t c l lk :
    own c → tb_locks t !! l = Some lk → waitLock (proc_of (tb_procs t) (t_proc c)) = Some l →
    lstep t (put l (RemoveFromWaitQueue c (t_proc c) (lk, tb_procs t)) t)
| ls_rearrange t c l lk queue :
    own c → tb_locks t !! l = Some lk → queue ≡ₚ waitProcs lk →
    lstep t (put l (let y := ProcLockWakeup c (with_queue queue (waitMask lk) lk, tb_procs t) in (Some y.1, y.2)) t).

(** No locks, nobody waits; lock groups are as they are. *)
Definition lock_start (t : table) : Prop := tb_locks t = ∅ ∧ groups_ok (tb_procs t) ∧
  ∀ p, waitLock (proc_of (tb_procs t) p) = None ∧ waitStatus (proc_of (tb_procs t) p) ≠ STATUS_WAITING.

Record table_inv (t : table) : Prop := {
  ti_groups : groups_ok (tb_procs t);
  ti_status : ∀ p, status_ok (proc_of (tb_procs t) p);
  ti_locks : ∀ l, table_ok l (tb_locks t !! l) (tb_procs t);
}.

Lemma lock_ok_frame l l' lk ps ps' : l ≠ l' → frame l ps ps' → lock_ok l' None None lk ps → lock_ok l' None None lk ps' ∧ (∀ q, q ∈ waitProcs lk → proc_of ps' q = proc_of ps q).
Proof.
  intros Hl Hf [H1 H2 H3 [H4 H4'] H5 H6 [H7 H7'] [H8 H8'] [H9 H9'] H10 H11 H12 H13 H14].
  assert (∀ q, waitLock (proc_of ps q) = Some l' → proc_of ps' q = proc_of ps q) as E1.
  { intros q Hq. destruct (fr_proc _ _ _ Hf q) as [?|[[?|?] _]]; congruence. }
  assert (∀ q, waitLock (proc_of ps' q) = Some l' → proc_of ps' q = proc_of ps q) as E2.
  { intros q Hq. destruct (fr_proc _ _ _ Hf q) as [?|[_ [?|?]]]; congruence. }
  assert (∀ q, q ∈ waitProcs lk → proc_of ps' q = proc_of ps q) as Eq by (intros q ?%H11; auto).
  assert (∀ i, waiters lk ps' i = waiters lk ps i) as Ew by (intros i; unfold waiters; apply count_ext; intros q Hq; by rewrite Eq).
  split; [|done]. split; try done.
  - intros o Ho. rewrite (frame_leader l ps) by done. by apply H2.
  - intros i Hi. rewrite Ew. by apply H6.
  - split; [done|]. intros i Hi. rewrite Ew. by apply H9'.
  - intros q. split; [intros Hq; rewrite Eq by done; by apply H11|]. intros Hq. apply H11. by rewrite <- E2.
  - intros q Hq. rewrite Eq by done. by apply H12.
Qed.

Lemma table_ok_frame l l' lko ps ps' : l ≠ l' → frame l ps ps' → table_ok l' lko ps → table_ok l' lko ps'.
Proof.
  intros Hl Hf. destruct lko as [lk|]; cbn.
  - intros (H & Hs & Hb & Hr). destruct (lock_ok_frame l l' lk ps ps' Hl Hf H) as [H' Eq]. split_and!; try done.
    + apply (safe_ext lk _ ps); [done|intros; by apply (frame_leader l)|done].
    + intros pre q post E. assert (∀ x, x ∈ pre ∨ x = q → x ∈ waitProcs lk) as Hin.
      { intros x [Hx| ->]; rewrite E; apply elem_of_app; [by left|right; by left]. }
      rewrite Eq by auto. eapply blocked_mono; [by apply grows_refl|intros; by apply (frame_leader l)| |by apply (Hb pre q post)]. intros x Hx. by rewrite Eq by auto.
  - intros H q Hq. destruct (fr_proc _ _ _ Hf q) as [E|[_ [?|?]]]; [|congruence|congruence]. apply (H q). by rewrite <- E.
Qed.

Lemma put_inv l y t : table_inv t → table_ok l y.1 y.2 → frame l (tb_procs t) y.2 → table_inv (put l y t).
Proof.
  intros [Hg Hst Hl] T F. split; cbn [tb_procs put].
  - by apply (frame_groups l (tb_procs t)).
  - intros p. apply (fr_status _ _ _ F), Hst.
  - intros l'. cbn [tb_locks put]. destruct (decide (l = l')) as [<-|Hne].
    + destruct y as [[lk|] ps]; cbn [fst snd] in *; [by rewrite lookup_insert_eq|by rewrite lookup_delete_eq].
    + destruct y as [[lk|] ps]; cbn [fst snd] in *; [rewrite lookup_insert_ne by done|rewrite lookup_delete_ne by done]; by apply (table_ok_frame l l' _ (tb_procs t)).
Qed.

Lemma rearrange_ok l lk ps queue : lock_ok l None None lk ps → queue ≡ₚ waitProcs lk → lock_ok l None None (with_queue queue (waitMask lk) lk) ps.
Proof.
  intros [H1 H2 H3 [H4 H4'] H5 H6 [H7 H7'] [H8 H8'] [H9 H9'] H10 H11 H12 H13 H14] Hq.
  assert (∀ i, waiters (with_queue queue (waitMask lk) lk) ps i = waiters lk ps i) as Ew by (intros i; unfold waiters; cbn; by apply count_perm).
  split; try done.
  - intros i Hi. rewrite Ew. by apply H6.
  - split; [done|]. intros i Hi. rewrite Ew. by apply H9'.
  - cbn. by rewrite Hq.
  - intros q. cbn. rewrite Hq. apply H11.
  - intros q. cbn. rewrite Hq. apply H12.
  - intros o Ho. cbn. rewrite Hq. by apply H13.
Qed.

Lemma lstep_inv t t' : lstep t t' → table_inv t → table_inv t'.
Proof.
  intros Hst I. pose proof I as [Hg Hs Hl]. destruct Hst as [t c rl rp dw l m Hown Hm Hw Hu|t c l lk modes Hown El Hw Hnd Hh|t c l lk Hown El Hw|t c l lk queue Hown El Hq];
    [|pose proof (Hl l) as T; rewrite El in T; destruct T as (H & Hsf & Hb & Hr)..].
  - destruct (acquire_ok c l m (tb_locks t !! l) (tb_procs t) rl rp dw) as (T & F & _); auto; [by apply Hs|]. by apply put_inv.
  - destruct (release_ok c l (t_proc c) modes lk (tb_procs t)) as [T F]; auto. by apply put_inv.
  - destruct (remove_ok c l (t_proc c) lk (tb_procs t)) as [T F]; auto; [by apply (lo_waiting _ _ _ _ _ H)|]. by apply put_inv.
  - pose proof (rearrange_ok l lk (tb_procs t) queue H Hq) as H'. destruct (wakeup_ok c l _ _ Hown H') as [W1 W2 W3 W4]; [by apply (safe_ext lk _ (tb_procs t))|done|].
    apply put_inv; [done| |done]. cbn [fst snd table_ok]. split_and!; try done. unfold ProcLockWakeup. rewrite wakeup_requests. done.
Qed.

Lemma lock_reachable t0 t : lock_start t0 → rtc lstep t0 t → table_inv t.
Proof.
  intros (E & Hg & Hp) Hr. assert (table_inv t0) as I0.
  { split; [done|intros p _; apply Hp|]. intros l. rewrite E, lookup_empty. intros p. by rewrite (proj1 (Hp p)). }
  clear E Hg Hp. induction Hr as [|x y z Hst _ IH]; [done|]. by apply IH, (lstep_inv x).
Qed.

(** *** The early deadlock check *)

Lemma my_held_locks_spec l ex pd lk ps p o i :
  lock_ok l ex pd lk ps → o ∈ procLocks lk → myProc o = p → heldLocks (proc_of ps p) = holdMask o → valid_mode i →
  Z.testbit (my_held_locks ps p lk) i = true → ∃ o', o' ∈ procLocks lk ∧ leader_of ps (myProc o') = leader_of ps p ∧ holds o' i = true.
Proof.
  intros H Ho Hop Hh Hi. unfold valid_mode in Hi. unfold my_held_locks. rewrite Hh.
  assert (Z.testbit (holdMask o) i = true → ∃ o', o' ∈ procLocks lk ∧ leader_of ps (myProc o') = leader_of ps p ∧ holds o' i = true) as Hown.
  { intros Hb. exists o. rewrite Hop. split_and!; [done|done|]. by rewrite holds_testbit by lia. }
  destruct (lockGroupLeader (proc_of ps p)) as [g|] eqn:Eg; [|done]. assert (leader_of ps p = g) as Hg by (unfold leader_of; by rewrite Eg).
  assert (∀ ls acc, (∀ x, x ∈ ls → x ∈ procLocks lk) → Z.testbit (foldl (λ acc x, if groupLeader x =? g then Z.lor acc (holdMask x) else acc) acc ls) i = true →
    Z.testbit acc i = true ∨ ∃ x, x ∈ procLocks lk ∧ groupLeader x = g ∧ holds x i = true) as Hfold.
  { induction ls as [|x ls IH]; intros acc Hls Hb; cbn [foldl] in Hb; [by left|]. apply IH in Hb as [Hb|?]; [|by right|intros; apply Hls; by right].
    destruct (Z.eqb_spec (groupLeader x) g); [|by left]. rewrite Z.lor_spec in Hb. apply orb_true_iff in Hb as [?|Hb]; [by left|]. right. exists x.
    split_and!; [apply Hls; by left|done|]. by rewrite holds_testbit by lia. }
  intros Hb. apply Hfold in Hb as [?|(x & Hx & Ex & Hxh)]; [by apply Hown| |done]. exists x. split_and!; [done| |done]. rewrite Hg, <- Ex. symmetry. by apply (lo_leader _ _ _ _ _ H).
Qed.

(** Each of two processes holds what the other wants. *)
Definition wait_for_each_other (lk : LOCK) (ps : procmap) (p m q : Z) : Prop :=
  q ∈ waitProcs lk ∧
  (∃ o i, o ∈ procLocks lk ∧ leader_of ps (myProc o) = leader_of ps p ∧ valid_mode i ∧ holds o i = true ∧ conflict (waitLockMode (proc_of ps q)) i = true) ∧
  (∃ o i, o ∈ procLocks lk ∧ myProc o = q ∧ valid_mode i ∧ holds o i = true ∧ conflict m i = true).

Lemma sleep_error_genuine l lk ps c p m :
  acquiring l lk ps p m → heldLocks (proc_of ps p) = holdMask (proclock_of p lk) → (ProcSleep c l m p (lk, ps)).1 = SleepError →
  ∃ q, wait_for_each_other lk ps p m q.
Proof.
  intros [H Hs Hb Hg Hr] Hh. destruct (lo_pend _ _ _ _ _ H p m eq_refl) as (Hm & Hw & o & Ho & Hop & _). unfold ProcSleep. cbn [fst snd].
  set (held := my_held_locks ps p lk). set (pl := if held =? 0 then AtTail else _).
  assert (place_ok c lk ps p m held [] (waitProcs lk) pl) as Hpl.
  { unfold pl. destruct (held =? 0); [done|]. apply (find_place_ok c l (Some p) (Some (p, m)) lk ps p m o held); try done.
    - intros q Hq. by apply (lo_waiter _ _ _ _ _ H).
    - intros i Hi. by rewrite Z.bits_0. }
  assert ((∃ q, pl = DeadlockBefore q) → ∃ q, wait_for_each_other lk ps p m q) as Hfin.
  { intros [q E]. rewrite E in Hpl. destruct Hpl as ((a & b & Eq) & H1 & H2). assert (q ∈ waitProcs lk) as Hq by (rewrite Eq; apply elem_of_app; right; by left).
    destruct (lo_waiter _ _ _ _ _ H q Hq) as (Hqm & _ & oq & Hoq & Hoqp & _ & Hoqh). exists q. split_and!; [done| |].
    - destruct (conflict_exists _ _ Hqm H1) as (i & Hi & Hbit & Hc). rewrite (proclock_of_eq p lk o (lo_procs _ _ _ _ _ H) Ho Hop) in Hh.
      destruct (my_held_locks_spec _ _ _ _ _ p o i H Ho Hop Hh Hi Hbit) as (o' & ? & ? & ?). by exists o', i.
    - destruct (conflict_exists _ _ Hm H2) as (i & Hi & Hbit & Hc). exists oq, i. split_and!; try done. rewrite Hoqh in Hbit. by rewrite holds_testbit by (unfold valid_mode in Hi; lia). }
  destruct pl as [|q| |q]; [| |done|intros _; apply Hfin; eauto]; by repeat case_bool.
Qed.

Lemma acquire_error_genuine c l m lk ps rl rp dw (p := t_proc c) :
  table_ok l (Some lk) ps → groups_ok ps → valid_mode m → waitLock (proc_of ps p) = None → unheld (Some lk) p m →
  (LockAcquire c rl rp dw l m (Some lk) ps).1 = AcquireDeadlock → ∃ q, wait_for_each_other lk ps p m q.
Proof.
  intros T Hg Hm Hw Hu. unfold LockAcquire. fold p. pose proof (setup_ok l (Some lk) ps p m rl rp T Hg Hm Hw Hu) as S.
  assert (∀ lk', SetupLockInTable rl rp ps p m (Some lk) = SetupOk lk' → waitProcs lk' = waitProcs lk ∧
    ∀ o, o ∈ procLocks lk' → o ∈ procLocks lk ∨ holdMask o = 0) as Hsame.
  { intros lk'. unfold SetupLockInTable. destruct (find_proclock p lk); [|destruct rp; [|done]]; (destruct (holds _ m); [done|]); intros [= <-]; cbn; (split; [done|]); [by left|].
    intros o [?|Ho%list_elem_of_singleton]%elem_of_app; [by left|right; by subst]. }
  destruct (SetupLockInTable rl rp ps p m (Some lk)) as [lk'|lko'|]; [|done|done]. destruct (Hsame lk' eq_refl) as [Eq Hpl]. destruct S as [A Hwm].
  destruct ((if negb _ then _ else _) =? STATUS_OK); [done|]. destruct dw; [done|]. set (ps' := upd_proc p _ ps).
  pose proof (sleep_error_genuine l lk' ps' c p m) as G. destruct (ProcSleep c l m p (lk', ps')) as [r y]. cbn [fst snd] in *. intros E. assert (r = SleepError) as -> by by destruct r.
  destruct G as (q & Hq & (o & i & Ho & Hl & Hi & Hh & Hc) & (o' & i' & Ho' & Hl' & Hi' & Hh' & Hc')); [by apply held_acquiring|unfold ps'; by rewrite proc_of_upd, decide_True|done|].
  assert (∀ x j, x ∈ procLocks lk' → valid_mode j → holds x j = true → x ∈ procLocks lk) as Hx.
  { intros x j Hin Hj Hxh. destruct (Hpl x Hin) as [?|E0]; [done|]. rewrite holds_testbit, E0, Z.bits_0 in Hxh by (unfold valid_mode in Hj; lia). done. }
  assert (waitLockMode (proc_of ps' q) = waitLockMode (proc_of ps q)) as Em by (unfold ps'; rewrite proc_of_upd; by destruct (decide (q = p)) as [->|]).
  assert (∀ z, leader_of ps' z = leader_of ps z) as El by (intros z; by apply leader_of_upd). rewrite Em in Hc. rewrite !El in Hl. rewrite Eq in Hq.
  exists q. split_and!; [done|exists o, i|exists o', i']; split_and!; eauto.
Qed.

(** ** What the lock manager promises *)

(** C12: mutual exclusion. However processes acquire, wait, release, give up and have their
    queues rearranged, two processes that hold conflicting modes of one lock belong to the
    same lock group, or one of them works for the other's streaming query. *)
Theorem locks_never_conflict t0 t l lk o o' m m' :
  lock_start t0 → rtc lstep t0 t → tb_locks t !! l = Some lk → o ∈ procLocks lk → o' ∈ procLocks lk → myProc o ≠ myProc o' →
  valid_mode m → valid_mode m' → holds o m = true → holds o' m' = true → conflict m m' = true → friends (tb_procs t) (myProc o) (myProc o').
Proof.
  intros H0 Hr El. pose proof (ti_locks _ (lock_reachable _ _ H0 Hr) l) as T. rewrite El in T. destruct T as (_ & Hs & _). apply Hs.
Qed.

(** C13: nobody sleeps in vain. At any time, a process that waits for a lock stands in its
    queue, and the mode it wants conflicts with a mode held by a process outside its group
    or with the request of a process before it: every wake-up that is due has been done,
    although a release only looks for waiters if the released mode conflicts with the wait
    mask. *)
Theorem waiters_are_blocked t0 t p l :
  lock_start t0 → rtc lstep t0 t → waitLock (proc_of (tb_procs t) p) = Some l →
  ∃ lk pre post, tb_locks t !! l = Some lk ∧ waitProcs lk = pre ++ p :: post ∧ blocked lk (tb_procs t) pre p (waitLockMode (proc_of (tb_procs t) p)).
Proof.
  intros H0 Hr Hw. pose proof (ti_locks _ (lock_reachable _ _ H0 Hr) l) as T. destruct (tb_locks t !! l) as [lk|]; [|by destruct (T p)].
  destruct T as (H & _ & Hb & _). apply (lo_waiting _ _ _ _ _ H) in Hw. destruct (list_elem_of_split _ _ Hw) as (pre & post & E). exists lk, pre, post. split_and!; [done|done|]. by apply (Hb pre p post).
Qed.

(** the books are right. Of every lock object, the counts of granted and requested
    modes are the numbers of holders, and of holders and waiters; the two masks show the
    modes held and awaited; every entry holds something or waits; and the object exists
    only while someone holds or awaits the lock. *)
Theorem lock_table_counts t0 t l lk :
  lock_start t0 → rtc lstep t0 t → tb_locks t !! l = Some lk →
  (∀ m, valid_mode m → aget 0 (granted lk) m = holders lk m ∧ aget 0 (requested lk) m = holders lk m + waiters lk (tb_procs t) m ∧
     (Z.testbit (grantMask lk) m = true ↔ 0 < holders lk m) ∧ (Z.testbit (waitMask lk) m = true ↔ 0 < waiters lk (tb_procs t) m)) ∧
  nGranted lk = total (holders lk) ∧ nRequested lk = total (λ m, holders lk m + waiters lk (tb_procs t) m) ∧ 0 < nRequested lk ∧
  (∀ o, o ∈ procLocks lk → holdMask o ≠ 0 ∨ myProc o ∈ waitProcs lk).
Proof.
  intros H0 Hr El. pose proof (ti_locks _ (lock_reachable _ _ H0 Hr) l) as T. rewrite El in T. destruct T as (H & _ & _ & Hn).
  destruct H as [H1 H2 H3 [H4 H4'] H5 H6 [H7 H7'] [H8 H8'] [H9 H9'] H10 H11 H12 H13 H14].
  assert (∀ m, valid_mode m → aget 0 (requested lk) m = holders lk m + waiters lk (tb_procs t) m) as Hreq by (intros m Hm; rewrite H6 by done; cbn; lia).
  split_and!; [intros m Hm; split_and!; auto| | |done|].
  - destruct (H9' m Hm) as [W1 W2]. cbn in W2. rewrite Z.add_0_r in W2. done.
  - rewrite H7. by apply total_ext.
  - rewrite H7'. by apply total_ext.
  - intros o Ho. destruct (H13 o Ho) as [?|[?|?]]; [by left|by right|done].
Qed.

(** the deadlock that [ProcSleep] reports without waiting is real: some process in the
    queue wants a mode that conflicts with what the requester's group holds, and itself
    holds a mode that conflicts with the request. *)
Theorem early_deadlock_is_real t0 t c l m lk rl rp dw :
  lock_start t0 → rtc lstep t0 t → own c → valid_mode m → waitLock (proc_of (tb_procs t) (t_proc c)) = None → tb_locks t !! l = Some lk → unheld (Some lk) (t_proc c) m →
  (LockAcquire c rl rp dw l m (Some lk) (tb_procs t)).1 = AcquireDeadlock → ∃ q, wait_for_each_other lk (tb_procs t) (t_proc c) m q.
Proof.
  intros H0 Hr Hown Hm Hw El Hu. destruct (lock_reachable _ _ H0 Hr) as [Hg _ Hl]. specialize (Hl l). rewrite El in Hl. by apply (acquire_error_genuine c l m lk).
Qed.
End Operations.

(** ** A run *)

(** Processes 1 and 2 hold lock 7 in share mode; 2 asks for the exclusive mode and waits. *)
Definition no_streams : stream_session := {| cursorNodeGroupList := []; global_obj := None |}.
Definition demo_thread (p : Z) : thread := {| t_proc := p; t_stream := false; t_sess := no_streams |}.
Definition demo_acquire (p m : Z) (t : table) : table :=
  put 7 (LockAcquire (demo_thread p) true true false 7 m (tb_locks t !! 7) (tb_procs t)).2 t.
Definition table0 : table := {| tb_locks := ∅; tb_procs := ∅ |}.
Definition table2 : table := demo_acquire 2 ShareLock (demo_acquire 1 ShareLock table0).
Definition table3 : table := demo_acquire 2 ExclusiveLock table2.
Definition demo_lock : LOCK := default new_lock (tb_locks table3 !! 7).

Lemma table0_start : lock_start table0.
Proof. split_and!; [done|by intros p g|]. intros p. unfold proc_of. cbn. by rewrite lookup_empty. Qed.

Lemma table3_reachable : rtc (lstep (λ _, no_streams)) table0 table3.
Proof.
  do 3 (eapply rtc_r; [|apply (ls_acquire _ _ (demo_thread _)); [done|unfold valid_mode; by vm_compute|by vm_compute|by vm_compute]]). done.
Qed.

Lemma table3_facts : tb_locks table3 !! 7 = Some demo_lock ∧ procLocks demo_lock = [{| myProc := 1; groupLeader := 1; holdMask := 32 |}; {| myProc := 2; groupLeader := 2; holdMask := 32 |}] ∧
  waitLock (proc_of (tb_procs table3) 2) = Some 7 ∧ waitLock (proc_of (tb_procs table3) 1) = None.
Proof. by vm_compute. Qed.

(** Two members of a lock group hold conflicting modes. *)
Definition member (g : Z) : PGPROC := {| lockGroupLeader := Some g; lockGroupMembers := []; waitLock := None; waitLockMode := 0; waitStatus := STATUS_OK; heldLocks := 0 |}.
Definition group0 : table := {| tb_locks := ∅; tb_procs := {[1 := member 1; 2 := member 1]} |}.
Definition group2 : table := demo_acquire 2 ExclusiveLock (demo_acquire 1 ExclusiveLock group0).
Definition group_lock : LOCK := default new_lock (tb_locks group2 !! 7).

Lemma group0_start : lock_start group0.
Proof.
  assert (∀ p, proc_of (tb_procs group0) p = if (p =? 1) || (p =? 2) then member 1 else no_pgproc) as E.
  { intros p. unfold proc_of. cbn. destruct (Z.eqb_spec p 1) as [->|H1]; [done|]. destruct (Z.eqb_spec p 2) as [->|H2]; [done|].
    rewrite lookup_insert_ne, lookup_singleton_ne by congruence. done. }
  split_and!; [done| |].
  - intros p g. rewrite !E. destruct ((p =? 1) || (p =? 2)); [|done]. by intros [= <-].
  - intros p. rewrite E. by destruct ((p =? 1) || (p =? 2)).
Qed.

Lemma group2_reachable : rtc (lstep (λ _, no_streams)) group0 group2.
Proof.
  do 2 (eapply rtc_r; [|apply (ls_acquire _ _ (demo_thread _)); [done|unfold valid_mode; by vm_compute|by vm_compute|by vm_compute]]). done.
Qed.

Lemma group2_facts : tb_locks group2 !! 7 = Some group_lock ∧
  procLocks group_lock = [{| myProc := 1; groupLeader := 1; holdMask := 128 |}; {| myProc := 2; groupLeader := 1; holdMask := 128 |}].
Proof. by vm_compute. Qed.

Lemma locks_never_conflict_witness : friends (λ _, no_streams) (tb_procs group2) 1 2.
Proof.
  destruct group2_facts as (El & Ep).
  apply (locks_never_conflict (λ _, no_streams) group0 group2 7 group_lock {| myProc := 1; groupLeader := 1; holdMask := 128 |} {| myProc := 2; groupLeader := 1; holdMask := 128 |} ExclusiveLock ExclusiveLock);
    [exact group0_start|exact group2_reachable|exact El|rewrite Ep; left|rewrite Ep; right; left|done|unfold valid_mode; by vm_compute|unfold valid_mode; by vm_compute|done|done|done].
Defined.

Lemma waiters_are_blocked_witness : ∃ lk pre post, tb_locks table3 !! 7 = Some lk ∧ waitProcs lk = pre ++ 2 :: post ∧ blocked lk (tb_procs table3) pre 2 7.
Proof.
  destruct table3_facts as (_ & _ & Hw & _). exact (waiters_are_blocked (λ _, no_streams) table0 table3 2 7 table0_start table3_reachable Hw).
Defined.

Lemma lock_table_counts_witness : nRequested demo_lock = total (λ m, holders demo_lock m + waiters demo_lock (tb_procs table3) m) ∧ nRequested demo_lock = 3.
Proof.
  destruct table3_facts as (El & _). split; [|by vm_compute]. apply (lock_table_counts (λ _, no_streams) table0 table3 7 demo_lock); [exact table0_start|exact table3_reachable|exact El].
Defined.

Lemma early_deadlock_is_real_witness : ∃ q, wait_for_each_other demo_lock (tb_procs table3) 1 ExclusiveLock q.
Proof.
  destruct table3_facts as (El & _ & _ & Hw).
  apply (early_deadlock_is_real (λ _, no_streams) table0 table3 (demo_thread 1) 7 ExclusiveLock demo_lock true true false);
    [exact table0_start|exact table3_reachable|done|unfold valid_mode; by vm_compute|exact Hw|exact El|by vm_compute|by vm_compute].
Defined.
