(* ===== verification/Deadlock.v ===== *)
(** * Deadlock detection

    [src/gausskernel/storage/lmgr/deadlock.cpp]: when a process has waited for a while it
    looks for a cycle in the waits-for graph. A process waits for those that hold a
    conflicting mode (hard edges) and for those before it in the queue with a conflicting
    request (soft edges). A cycle with soft edges may be broken by rearranging queues: the
    check tries to reverse soft edges ([constraints]), sorts the queues accordingly
    ([TopoSort]) and looks again.

    Modelled: [FindLockCycle] with its two recursive parts, [TopoSort], [TopoSortScan],
    [ExpandConstraints], [TestConfiguration], [DeadLockCheckRecurse], [DeadLockCheck]. The
    working memory of the thread ([t_thrd.storage_cxt]) is a record; the list of constraints
    that a process must come after, which the code threads through [pred] and [link] of the
    constraints, is a list. Not modelled: the limits on time and stack depth, and reports.

    The lock table does not change during the search (all partitions are locked). *)

From S2P Require Import Prelude HeapTuple LockDefs LockMgr LockTable.

Record EDGE := { waiter : Z; blocker : Z; elock : Z }.
Record WAIT_ORDER := { wo_lock : Z; wo_procs : list Z }.
Record DEADLOCK_INFO := { di_lock : Z; di_mode : Z; di_proc : Z }.

#[global] Instance EDGE_eq_dec : EqDecision EDGE.
Proof. solve_decision. Defined.

Inductive DeadLockState : Type :=
| DS_NOT_YET_CHECKED
| DS_LOCK_TIMEOUT
| DS_NO_DEADLOCK
| DS_SOFT_DEADLOCK
| DS_HARD_DEADLOCK
| DS_BLOCKED_BY_AUTOVACUUM
| DS_BLOCKED_BY_REDISTRIBUTION.

(** The thread, and what it reads of other processes: [vacuumFlags]. *)
Record checker := {
  ck_me : Z;
  ck_autovacuum : Z → bool;
  ck_redist : Z → bool;
  ck_MaxBackends : Z;
  ck_max_autovacuum : Z;
}.

(** The working memory of a search. [deadlockDetails] begins with that of the innermost
    level that has filled it in. *)
Record cycle_search := {
  visitedProcs : list Z;
  deadlockDetails : list DEADLOCK_INFO;
  softEdges : list EDGE;
  blocking_autovacuum_proc : list Z;
  blocking_redistribution_proc : option Z;
}.

Definition with_visited (v : list Z) (s : cycle_search) : cycle_search := {| visitedProcs := v; deadlockDetails := deadlockDetails s; softEdges := softEdges s;
  blocking_autovacuum_proc := blocking_autovacuum_proc s; blocking_redistribution_proc := blocking_redistribution_proc s |}.
Definition with_details (d : list DEADLOCK_INFO) (s : cycle_search) : cycle_search := {| visitedProcs := visitedProcs s; deadlockDetails := d; softEdges := softEdges s;
  blocking_autovacuum_proc := blocking_autovacuum_proc s; blocking_redistribution_proc := blocking_redistribution_proc s |}.
Definition with_soft (e : list EDGE) (s : cycle_search) : cycle_search := {| visitedProcs := visitedProcs s; deadlockDetails := deadlockDetails s; softEdges := e;
  blocking_autovacuum_proc := blocking_autovacuum_proc s; blocking_redistribution_proc := blocking_redistribution_proc s |}.
Definition with_blocking (av : list Z) (rd : option Z) (s : cycle_search) : cycle_search := {| visitedProcs := visitedProcs s; deadlockDetails := deadlockDetails s;
  softEdges := softEdges s; blocking_autovacuum_proc := av; blocking_redistribution_proc := rd |}.

Section Check.
Variable k : checker.
Variable t : table.

Definition proc (p : Z) : PGPROC := proc_of (tb_procs t) p.
Definition lock (l : Z) : LOCK := default new_lock (tb_locks t !! l).
Definition leader (p : Z) : Z := leader_of (tb_procs t) p.

(** ** Cycles *)

(** The process holds a mode that conflicts with [conflictMask]. *)
Definition hard_blocks (conflictMask : Z) (o : PROCLOCK) : bool :=
  existsb (λ lm, holds o lm && flag conflictMask (LOCKBIT_ON lm)) (seqZ 1 numLockModes).

Definition soft_blocks (conflictMask q : Z) : bool := flag (LOCKBIT_ON (waitLockMode (proc q))) conflictMask.

(** A blocker of our own process that is an autovacuum worker, or redistributes data. *)
Definition remember_autovacuum (q : Z) (s : cycle_search) : cycle_search :=
  if bool_decide (q ∈ blocking_autovacuum_proc s) then s
  else if Z.of_nat (length (blocking_autovacuum_proc s)) <? ck_max_autovacuum k
  then with_blocking (blocking_autovacuum_proc s ++ [q]) (blocking_redistribution_proc s) s else s.
Definition remember_blocker (checkProc q : Z) (s : cycle_search) : cycle_search :=
  if checkProc =? ck_me k then
    if ck_autovacuum k q then remember_autovacuum q s
    else if ck_redist k q then with_blocking (blocking_autovacuum_proc s) (Some q) s else s
  else s.

Definition add_details (l checkProc : Z) (s : cycle_search) : cycle_search :=
  with_details ({| di_lock := l; di_mode := waitLockMode (proc checkProc); di_proc := checkProc |} :: deadlockDetails s) s.
Definition add_soft (e : EDGE) (s : cycle_search) : cycle_search := with_soft (softEdges s ++ [e]) s.

Section Member.
(** The recursive call. *)
Variable rec : Z → M cycle_search bool.

Fixpoint hard_scan (l checkProc checkProcLeader conflictMask : Z) (ls : list PROCLOCK) : M cycle_search bool :=
  match ls with
  | [] => mret false
  | o :: ls =>
      if negb (leader (myProc o) =? checkProcLeader) && hard_blocks conflictMask o then
        found ← rec (myProc o);
        if found : bool then modify (add_details l checkProc) ≫= λ _, mret true
        else modify (remember_blocker checkProc (myProc o)) ≫= λ _, hard_scan l checkProc checkProcLeader conflictMask ls
      else hard_scan l checkProc checkProcLeader conflictMask ls
  end.

(** Autovacuum workers ahead of us in the queue. *)
Fixpoint autovacuum_scan (checkProc checkProcLeader conflictMask : Z) (queue : list Z) (s : cycle_search) : cycle_search :=
  match queue with
  | [] => s
  | q :: queue =>
      if q =? checkProc then s
      else autovacuum_scan checkProc checkProcLeader conflictMask queue
        (if negb (leader q =? checkProcLeader) && flag conflictMask (LOCKBIT_ON (waitLockMode (proc q))) && ck_autovacuum k q
         then remember_autovacuum q s else s)
  end.

(** One waiter that soft-blocks us. *)
Definition soft_visit (l checkProc checkProcLeader q : Z) (rest : M cycle_search bool) : M cycle_search bool :=
  found ← rec q;
  if found : bool then
    modify (add_details l checkProc) ≫= λ _,
    modify (add_soft {| waiter := checkProcLeader; blocker := leader q; elock := l |}) ≫= λ _, mret true
  else rest.

(** Through a proposed order of the queue. *)
Fixpoint proposed_scan (l checkProc checkProcLeader conflictMask : Z) (procs : list Z) : M cycle_search bool :=
  match procs with
  | [] => mret false
  | q :: procs =>
      if leader q =? checkProc then mret false
      else if soft_blocks conflictMask q
      then soft_visit l checkProc checkProcLeader q (proposed_scan l checkProc checkProcLeader conflictMask procs)
      else proposed_scan l checkProc checkProcLeader conflictMask procs
  end.

(** Through the queue as it is, up to the last member of the group. *)
Fixpoint queue_scan (l checkProc checkProcLeader conflictMask : Z) (lastGroupMember : option Z) (queue : list Z) : M cycle_search bool :=
  match queue with
  | [] => mret false
  | q :: queue =>
      if bool_decide (Some q = lastGroupMember) then mret false
      else if soft_blocks conflictMask q && negb (leader q =? checkProcLeader)
      then soft_visit l checkProc checkProcLeader q (queue_scan l checkProc checkProcLeader conflictMask lastGroupMember queue)
      else queue_scan l checkProc checkProcLeader conflictMask lastGroupMember queue
  end.

Definition last_group_member (checkProc checkProcLeader : Z) (queue : list Z) : option Z :=
  match lockGroupLeader (proc checkProc) with
  | None => Some checkProc
  | Some _ => last (filter (λ q, lockGroupLeader (proc q) = Some checkProcLeader) queue)
  end.

Definition find_order (orders : list WAIT_ORDER) (l : Z) : option (list Z) :=
  wo_procs ∘ snd <$> list_find (λ w, wo_lock w = l) orders.

Definition FindLockCycleRecurseMember (orders : list WAIT_ORDER) (l checkProc checkProcLeader : Z) : M cycle_search bool :=
  let conflictMask := conflictTab (waitLockMode (proc checkProc)) in
  found ← hard_scan l checkProc checkProcLeader conflictMask (procLocks (lock l));
  if found : bool then mret true
  else
    modify (λ s, if (checkProc =? ck_me k) && negb (bool_decide (blocking_autovacuum_proc s = []))
                 then autovacuum_scan checkProc checkProcLeader conflictMask (waitProcs (lock l)) s else s) ≫= λ _,
    match find_order orders l with
    | Some procs => proposed_scan l checkProc checkProcLeader conflictMask procs
    | None => queue_scan l checkProc checkProcLeader conflictMask (last_group_member checkProc checkProcLeader (waitProcs (lock l))) (waitProcs (lock l))
    end.

(** The process itself, and then the other members of its group, if they wait. *)
Fixpoint members_scan (orders : list WAIT_ORDER) (checkProc : Z) (members : list Z) : M cycle_search bool :=
  match members with
  | [] => mret false
  | q :: members =>
      found ← (match waitLock (proc q) with
               | Some l => FindLockCycleRecurseMember orders l q checkProc
               | None => mret false
               end);
      if found : bool then mret true else members_scan orders checkProc members
  end.
End Member.

Fixpoint FindLockCycleRecurse (fuel : nat) (orders : list WAIT_ORDER) (checkProc : Z) : M cycle_search bool :=
  match fuel with
  | O => nofuel
  | S fuel =>
      let checkProc := leader checkProc in
      visited ← gets visitedProcs;
      match fst <$> list_find (λ q, q = checkProc) visited with
      | Some O => modify (with_details []) ≫= λ _, mret true
      | Some _ => mret false
      | None =>
          if ck_MaxBackends k <=? Z.of_nat (length visited) then raise ERROR
          else
            modify (with_visited (visited ++ [checkProc])) ≫= λ _,
            members_scan (FindLockCycleRecurse fuel orders) orders checkProc
              (checkProc :: filter (λ q, q ≠ checkProc) (lockGroupMembers (proc checkProc)))
      end
  end.

Definition find_fuel : nat := S (S (Z.to_nat (ck_MaxBackends k))).

Definition FindLockCycle (orders : list WAIT_ORDER) (checkProc : Z) : M cycle_search bool :=
  modify (λ s, with_soft [] (with_details [] (with_visited [] s))) ≫= λ _,
  FindLockCycleRecurse find_fuel orders checkProc.

(** ** Sorting a queue *)

(** A process, or a member of its group. *)
Definition of_group (p q : Z) : bool := (q =? p) || bool_decide (lockGroupLeader (proc q) = Some p).

(** From the end of the queue: the last process of the group of [p], and the others of the
    group marked with -1. *)
Fixpoint representative (p : Z) (queue : list Z) (j : nat) (found : option nat) (before : list Z) : option nat * list Z :=
  match j with
  | O => (found, before)
  | S j =>
      if of_group p (queue !!! j) then
        match found with
        | None => representative p queue j (Some j) before
        | Some _ => representative p queue j found (<[j := -1]> before)
        end
      else representative p queue j found before
  end.

(** [beforeConstraints], and for every process the indices of those that must come before it. *)
Definition topo_acc : Type := list Z * list (list nat).

Definition topo_constraint (queue : list Z) (acc : topo_acc) (e : EDGE) : topo_acc :=
  let '(jj, before) := representative (waiter e) queue (length queue) None acc.1 in
  match jj with
  | None => (before, acc.2)
  | Some jj =>
      let '(kk, before) := representative (blocker e) queue (length queue) None before in
      match kk with
      | None => (before, acc.2)
      | Some kk => (<[jj := before !!! jj + 1]> before, <[kk := jj :: acc.2 !!! kk]> acc.2)
      end
  end.

(** The last process still to be output that nothing holds back. *)
Fixpoint topo_candidate (topo : list (option Z)) (before : list Z) (j : nat) : option nat :=
  match j with
  | O => None
  | S j => if bool_decide (is_Some (topo !!! j)) && (before !!! j =? 0) then Some j else topo_candidate topo before j
  end.

(** The group of [p] is output, each member in front of those already there. *)
Definition output_group (p : Z) (topo : list (option Z)) (ordering : list Z) : list (option Z) * list Z :=
  (((λ x, match x with Some q => if of_group p q then None else x | None => None end) <$> topo),
   foldl (λ acc x, match x with Some q => if of_group p q then q :: acc else acc | None => acc end) ordering topo).

(** [fuel] bounds the number of groups. *)
Fixpoint TopoSortScan (fuel : nat) (topo : list (option Z)) (before : list Z) (after : list (list nat)) (ordering : list Z) : res (option (list Z)) :=
  if forallb (λ x, negb (bool_decide (is_Some x))) topo then Ok (Some ordering)
  else
    match fuel with
    | O => NoFuel
    | S fuel =>
        match topo_candidate topo before (length topo) with
        | None => Ok None
        | Some j =>
            let p := default 0 (topo !!! j) in
            let '(topo, ordering) := output_group (default p (lockGroupLeader (proc p))) topo ordering in
            TopoSortScan fuel topo (foldl (λ b i, <[i := b !!! i - 1]> b) before (after !!! j)) after ordering
        end
    end.

Definition TopoSort (l : Z) (constraints : list EDGE) : res (option (list Z)) :=
  let queue := waitProcs (lock l) in
  let acc := foldl (topo_constraint queue) (replicate (length queue) 0, replicate (length queue) []) constraints in
  TopoSortScan (length queue) (Some <$> queue) acc.1 acc.2 [].

(** ** Configurations *)

(** Backwards through the constraints; [None] if they contradict each other. *)
Fixpoint expand_loop (i : nat) (constraints : list EDGE) (orders : list WAIT_ORDER) : res (option (list WAIT_ORDER)) :=
  match i with
  | O => Ok (Some orders)
  | S i =>
      match constraints !! i with
      | None => Ok (Some orders)
      | Some e =>
          if bool_decide (is_Some (find_order orders (elock e))) then expand_loop i constraints orders
          else
            r ← TopoSort (elock e) (take (S i) constraints);
            match r with
            | None => Ok None
            | Some procs => expand_loop i constraints (orders ++ [{| wo_lock := elock e; wo_procs := procs |}])
            end
      end
  end.

Definition ExpandConstraints (constraints : list EDGE) : res (option (list WAIT_ORDER)) := expand_loop (length constraints) constraints [].

(** [None] for a hard deadlock, else the soft edges of the last cycle found. *)
Fixpoint test_procs (orders : list WAIT_ORDER) (procs : list Z) (softFound : list EDGE) : M cycle_search (option (list EDGE)) :=
  match procs with
  | [] => mret (Some softFound)
  | p :: procs =>
      found ← FindLockCycle orders p;
      if found : bool then
        edges ← gets softEdges;
        if bool_decide (edges = []) then mret None else test_procs orders procs edges
      else test_procs orders procs softFound
  end.

Definition run_res {A} (r : res A) : M cycle_search A := λ s, (r, s).

(** The result, and the orders that were tested. [nPossible]: the saved constraints. *)
Definition TestConfiguration (startProc : Z) (constraints : list EDGE) (nPossible : Z) : M cycle_search (option (list EDGE) * list WAIT_ORDER) :=
  if ck_MaxBackends k * 4 <? nPossible + ck_MaxBackends k then mret (None, [])
  else
    r ← run_res (ExpandConstraints constraints);
    match r with
    | None => mret (None, [])
    | Some orders =>
        edges ← test_procs orders (concat ((λ e, [waiter e; blocker e]) <$> constraints) ++ [startProc]) [];
        mret (edges, orders)
    end.

(** Each soft edge in turn as a further constraint; the list is made again when there was
    no room to keep it. *)
Fixpoint try_edges (rec : list EDGE → M cycle_search (option (list WAIT_ORDER))) (p : Z) (constraints : list EDGE) (nPossible : Z) (savedList : bool)
    (edges : list EDGE) (i n : nat) : M cycle_search (option (list WAIT_ORDER)) :=
  match n with
  | O => mret None
  | S n =>
      possible ← (if negb savedList && negb (Nat.eqb i 0) then
                    r ← TestConfiguration p constraints nPossible;
                    match r.1 with
                    | Some edges' => if Nat.eqb (length edges') (length edges) then mret edges' else raise FATAL
                    | None => raise FATAL
                    end
                  else mret edges);
      match possible !! i with
      | None => mret None
      | Some e =>
          r ← rec (constraints ++ [e]);
          if r is Some orders then mret (Some orders) else try_edges rec p constraints nPossible savedList edges (S i) n
      end
  end.

(** [Some orders]: a configuration without deadlock. [fuel] bounds the constraints. *)
Fixpoint DeadLockCheckRecurse (fuel : nat) (p nPossible : Z) (constraints : list EDGE) : M cycle_search (option (list WAIT_ORDER)) :=
  match fuel with
  | O => nofuel
  | S fuel =>
      r ← TestConfiguration p constraints nPossible;
      match r with
      | (None, _) => mret None
      | (Some [], orders) => mret (Some orders)
      | (Some edges, _) =>
          if ck_MaxBackends k <=? Z.of_nat (length constraints) then mret None
          else
            let nEdges := Z.of_nat (length edges) in
            let savedList := nPossible + nEdges + ck_MaxBackends k <=? ck_MaxBackends k * 4 in
            try_edges (DeadLockCheckRecurse fuel p (if savedList then nPossible + nEdges else nPossible)) p constraints nPossible savedList edges 0 (length edges)
      end
  end.

Definition check_fuel : nat := S (S (Z.to_nat (ck_MaxBackends k))).
End Check.

(** The queues in their new order, and whoever can now have a lock woken. *)
Definition rearrange (c : thread) (t : table) (w : WAIT_ORDER) : table :=
  let lk := lock t (wo_lock w) in
  let y := ProcLockWakeup c (with_queue (wo_procs w) (waitMask lk) lk, tb_procs t) in
  put (wo_lock w) (Some y.1, y.2) t.

(** What is left in [blocking_redistribution_proc] from earlier is [redist]. *)
Definition DeadLockCheck (k : checker) (c : thread) (t : table) (p : Z) (redist : option Z) : res (DeadLockState * table) :=
  let s0 := {| visitedProcs := []; deadlockDetails := []; softEdges := []; blocking_autovacuum_proc := []; blocking_redistribution_proc := redist |} in
  let '(r, s) := DeadLockCheckRecurse k t (check_fuel k) p 0 [] s0 in
  r ← r;
  match r with
  | None =>
      found ← (FindLockCycle k t [] p s).1;
      if found : bool then Ok (DS_HARD_DEADLOCK, t) else Ereport FATAL
  | Some orders =>
      let t' := foldl (rearrange c) t orders in
      let state :=
        if negb (bool_decide (orders = [])) then DS_SOFT_DEADLOCK
        else if negb (bool_decide (blocking_autovacuum_proc s = [])) then DS_BLOCKED_BY_AUTOVACUUM
        else match blocking_redistribution_proc s with
             | Some q => if ck_redist k q then DS_BLOCKED_BY_REDISTRIBUTION else DS_NO_DEADLOCK
             | None => DS_NO_DEADLOCK
             end in
      Ok (state, t')
  end.
