(* ===== verification/DeadlockOrder.v ===== *)
(** * Deadlock detection: sorting a queue

    [TopoSort] answers with an order of the same processes. Without lock groups, the order
    meets every constraint, there is none if it gives up, and a process only moves forward
    if a constraint asks for it. *)

From S2P Require Import Prelude HeapTuple LockDefs LockMgr LockTable Deadlock.

Definition no_groups (t : table) : Prop := ∀ p, lockGroupLeader (proc t p) = None ∧ lockGroupMembers (proc t p) = [].

(** [a] comes before [b]. *)
Definition precedes (l : list Z) (a b : Z) : Prop := ∃ x y z, l = x ++ a :: y ++ b :: z.

Lemma NoDup_pre (a : Z) pre post : NoDup (pre ++ a :: post) → a ∉ pre.
Proof. intros (_ & Hd & _)%NoDup_app Ha. apply (Hd a Ha). by left. Qed.

Lemma split_unique (a : Z) pre pre' post post' : a ∉ pre → a ∉ pre' → pre ++ a :: post = pre' ++ a :: post' → pre = pre'.
Proof.
  revert pre'. induction pre as [|x pre IH]; intros [|y pre'] H1 H2 E; cbn in E; simplify_eq; [done|by destruct H2; left|by destruct H1; left|].
  apply not_elem_of_cons in H1 as [_ H1], H2 as [_ H2]. f_equal. by apply IH.
Qed.

Lemma precedes_cons l a b x : precedes l a b → precedes (x :: l) a b.
Proof. intros (u & v & w & ->). by exists (x :: u), v, w. Qed.

Lemma precedes_head l a b : b ∈ l → precedes (a :: l) a b.
Proof. intros (y & z & ->)%list_elem_of_split. by exists [], y, z. Qed.

Lemma precedes_in l a b : precedes l a b → a ∈ l ∧ b ∈ l.
Proof. intros (x & y & z & ->). split; [apply elem_of_app; right; by left|]. apply elem_of_app. right. right. apply elem_of_app. right. by left. Qed.

(** Of two in a list with [x] in front. *)
Lemma precedes_cons_inv l a b x : precedes (x :: l) a b → (a = x ∧ b ∈ l) ∨ precedes l a b.
Proof.
  intros ([|u us] & y & z & E); injection E as -> ->; [left|right; by exists us, y, z]. split; [done|]. apply elem_of_app. right. by left.
Qed.

Lemma precedes_irrefl l a : NoDup l → ¬ precedes l a a.
Proof. intros Hnd (x & y & z & ->). apply NoDup_app in Hnd as (_ & _ & [Hn _]%NoDup_cons). apply Hn, elem_of_app. right. by left. Qed.

Lemma precedes_lookup l a b i j : l !! i = Some a → l !! j = Some b → (i < j)%nat → precedes l a b.
Proof.
  intros Hi Hj Hlt. exists (take i l). rewrite <- (take_drop_middle l i a Hi) in Hj. rewrite lookup_app_r in Hj by (rewrite length_take; lia).
  rewrite length_take_le in Hj by (apply lookup_lt_Some in Hi; lia). destruct (j - i)%nat as [|d] eqn:E; [lia|]. cbn in Hj.
  apply list_elem_of_lookup_2, list_elem_of_split in Hj as (y & z & Ed). exists y, z. rewrite <- Ed. by rewrite take_drop_middle.
Qed.

Lemma precedes_index l a b j : NoDup l → precedes l a b → l !! j = Some b → ∃ i, (i < j)%nat ∧ l !! i = Some a.
Proof.
  intros Hnd (x & y & z & ->) Hj. exists (length x). split; [|by rewrite list_lookup_middle].
  assert ((x ++ a :: y ++ b :: z) !! (length x + S (length y))%nat = Some b) as Hb.
  { rewrite lookup_app_r by lia. replace (length x + S (length y) - length x)%nat with (S (length y)) by lia. rewrite lookup_cons. by rewrite list_lookup_middle. }
  pose proof (NoDup_lookup _ _ _ _ Hnd Hj Hb). lia.
Qed.

Section Order.
Variable t : table.

(** ** Sorting a queue keeps its processes *)

Lemma output_group_perm g topo : ∀ ord, omap id (output_group t g topo ord).1 ++ (output_group t g topo ord).2 ≡ₚ omap id topo ++ ord.
Proof.
  unfold output_group. cbn [fst snd]. induction topo as [|[q|] topo IH]; intros ord; cbn; [done| |by apply IH].
  destruct (of_group t g q); cbn; [rewrite IH; by rewrite Permutation_middle|by rewrite IH].
Qed.

Lemma output_group_less g topo ord q : q ∈ omap id topo → of_group t g q = true → (length (omap id (output_group t g topo ord).1) < length (omap id topo))%nat.
Proof.
  unfold output_group. cbn [fst]. intros Hq Hg.
  assert (∀ l, length (omap id ((λ x, match x with Some q => if of_group t g q then None else x | None => None end) <$> l)) ≤ length (omap id l))%nat as Hle.
  { induction l as [|[x|] l IH]; cbn; [lia| |done]. destruct (of_group t g x); cbn; lia. }
  induction topo as [|[x|] topo IH]; cbn in *; [by apply not_elem_of_nil in Hq| |by apply IH]. specialize (Hle topo). apply elem_of_cons in Hq as [<-|Hq].
  - rewrite Hg. cbn. lia.
  - specialize (IH Hq). destruct (of_group t g x); cbn; lia.
Qed.

Lemma candidate_some topo before j i : topo_candidate topo before j = Some i → (i < j)%nat ∧ is_Some (topo !!! i) ∧ before !!! i = 0.
Proof.
  induction j as [|j IH]; cbn; [done|]. case_match eqn:E.
  - apply andb_true_iff in E as [E1%bool_decide_eq_true E2%Z.eqb_eq]. intros [= ->]. split_and!; [lia|done|done].
  - intros H. destruct (IH H) as (? & ? & ?). split_and!; [lia|done|done].
Qed.

Lemma all_output topo : forallb (λ x : option Z, negb (bool_decide (is_Some x))) topo = true ↔ omap id topo = [].
Proof.
  induction topo as [|[x|] topo IH]; [done| |exact IH]. by split.
Qed.

Lemma topo_scan_perm fuel : ∀ topo before after ord, (length (omap id topo) ≤ fuel)%nat →
  ∃ r, TopoSortScan t fuel topo before after ord = Ok r ∧ ∀ procs, r = Some procs → procs ≡ₚ omap id topo ++ ord.
Proof.
  induction fuel as [|fuel IH]; intros topo before after ord Hlen; cbn [TopoSortScan]; (destruct (forallb _ topo) eqn:Ef;
    [apply all_output in Ef; rewrite Ef; by eexists; split; [done|intros procs [= ->]]|]).
  { assert (omap id topo = []) as E by (destruct (omap id topo); [done|cbn in Hlen; lia]). apply all_output in E. congruence. }
  destruct (topo_candidate topo before (length topo)) as [j|] eqn:Ec; [|by eexists]. apply candidate_some in Ec as (Hj & [q Hq] & _). rewrite Hq. cbn [from_option id].
  set (g := default q (lockGroupLeader (proc t q))). pose proof (output_group_perm g topo ord) as Hp.
  pose proof (output_group_less g topo ord q) as Hl. destruct (output_group t g topo ord) as [topo' ord']. cbn [fst snd] in *.
  assert (q ∈ omap id topo) as Hin. { apply list_elem_of_omap. exists (Some q). split; [|done]. rewrite <- Hq. apply list_elem_of_lookup_total_2. done. }
  assert (of_group t g q = true) as Hg.
  { unfold of_group, g. destruct (lockGroupLeader (proc t q)) as [g'|] eqn:El; cbn; [|by rewrite Z.eqb_refl]. rewrite bool_decide_true by done. apply orb_true_r. }
  specialize (Hl Hin Hg). destruct (IH topo' (foldl (λ b i, <[i := b !!! i - 1]> b) before (after !!! j)) after ord') as (r & Er & Hr); [lia|].
  exists r. split; [done|]. intros procs E. rewrite (Hr procs E). done.
Qed.

(** A queue is sorted into an order of the same processes, or the constraints cannot be
    met. *)
Lemma topo_sort_perm l cs : ∃ r, TopoSort t l cs = Ok r ∧ ∀ procs, r = Some procs → procs ≡ₚ waitProcs (lock t l).
Proof.
  unfold TopoSort. assert (omap id (Some <$> waitProcs (lock t l)) = waitProcs (lock t l)) as E by (induction (waitProcs (lock t l)); cbn; congruence).
  edestruct topo_scan_perm as (r & Er & Hr); [|exists r; split; [exact Er|]]; [by rewrite E|]. intros procs Ep. rewrite (Hr procs Ep), E. by rewrite app_nil_r.
Qed.

(** ** Without lock groups *)

Section Plain.
Hypothesis Hng : no_groups t.
Variable queue : list Z.
Hypothesis Hnd : NoDup queue.

Lemma of_group_plain p q : of_group t p q = (q =? p).
Proof. unfold of_group. rewrite (proj1 (Hng q)). cbn. by rewrite orb_false_r. Qed.

Lemma queue_at j q : queue !! j = Some q → queue !!! j = q.
Proof. apply list_lookup_total_correct. Qed.

Lemma representative_skip p f before j : (∀ i, (i < j)%nat → queue !!! i ≠ p) → representative t p queue j f before = (f, before).
Proof.
  induction j as [|j IH]; intros H; cbn; [done|]. rewrite of_group_plain, (proj2 (Z.eqb_neq _ _)) by (apply H; lia). apply IH. intros i Hi. apply H. lia.
Qed.

(** The place of a process in the queue. *)
Definition index (p : Z) : option nat := fst <$> list_find (λ q, q = p) queue.

Lemma index_some p j : index p = Some j ↔ queue !! j = Some p.
Proof.
  unfold index. split.
  - intros ([i q] & Hf & ->)%fmap_Some. by apply list_find_Some in Hf as (Hi & -> & _).
  - intros Hj. destruct (list_find (λ q, q = p) queue) as [[i q]|] eqn:E; cbn.
    + apply list_find_Some in E as (Hi & -> & _). f_equal. by eapply NoDup_lookup.
    + apply list_find_None in E. rewrite Forall_forall in E. destruct (E p); [|done]. by eapply list_elem_of_lookup_2.
Qed.

Lemma index_none p : index p = None ↔ p ∉ queue.
Proof.
  split; [|intros H; destruct (index p) as [j|] eqn:E; [|done]; apply index_some in E; by apply list_elem_of_lookup_2 in E].
  intros E Hp. apply list_elem_of_lookup in Hp as [j Hj]. apply index_some in Hj. congruence.
Qed.

Lemma representative_plain p before : representative t p queue (length queue) None before = (index p, before).
Proof.
  destruct (index p) as [j|] eqn:E.
  - apply index_some in E. assert (∀ n, (j < n ≤ length queue)%nat → representative t p queue n None before = (Some j, before)) as H.
    { induction n as [|n IH]; intros Hn; [lia|]. cbn. destruct (decide (n = j)) as [->|Hne].
      - rewrite (queue_at j p E), of_group_plain, Z.eqb_refl. apply representative_skip. intros i Hi Heq. assert (i < length queue)%nat as Hil by lia.
        apply lookup_lt_is_Some in Hil as [q Hq]. rewrite (queue_at i q Hq) in Heq. subst q. assert (i = j) by by eapply NoDup_lookup. lia.
      - rewrite of_group_plain, (proj2 (Z.eqb_neq _ _)); [apply IH; lia|]. intros Heq. assert (n < length queue)%nat as Hil by lia.
        apply lookup_lt_is_Some in Hil as [q Hq]. rewrite (queue_at n q Hq) in Heq. subst q. assert (n = j) by by eapply NoDup_lookup. lia. }
    apply H. split; [by eapply lookup_lt_Some|lia].
  - apply index_none in E. apply representative_skip. intros i Hi <-. apply E. by apply list_elem_of_lookup_total_2.
Qed.

(** The constraints that concern the queue. *)
Definition holds_back (w b : Z) (e : EDGE) : bool := (waiter e =? w) && (blocker e =? b).
Definition pending_for (done_ : list Z) (w : Z) (e : EDGE) : bool := (waiter e =? w) && bool_decide (blocker e ∈ queue) && negb (bool_decide (blocker e ∈ done_)).

Record topo_ok (cs : list EDGE) (done_ : list Z) (before : list Z) (after : list (list nat)) : Prop := {
  to_lengths : length before = length queue ∧ length after = length queue;
  to_before : ∀ j w, queue !! j = Some w → before !!! j = count (pending_for done_ w) cs;
  to_after : ∀ j w i b, queue !! j = Some w → queue !! i = Some b → count (Nat.eqb j) (after !!! i) = count (holds_back w b) cs;
  to_index : ∀ i j, (i < length queue)%nat → j ∈ after !!! i → (j < length queue)%nat;
}.

Lemma count_snoc {A} (f : A → bool) l x : count f (l ++ [x]) = count f l + if f x then 1 else 0.
Proof. rewrite count_app. cbn. lia. Qed.

Lemma lookup_total_insert_case {A} `{!Inhabited A} (l : list A) i j x : (i < length l)%nat → <[i := x]> l !!! j = if decide (i = j) then x else l !!! j.
Proof. intros Hi. destruct (decide (i = j)) as [->|]; [by apply list_lookup_total_insert_eq|by apply list_lookup_total_insert_ne]. Qed.

Lemma constraint_ok cs e before after : topo_ok cs [] before after →
  topo_ok (cs ++ [e]) [] (topo_constraint t queue (before, after) e).1 (topo_constraint t queue (before, after) e).2.
Proof.
  intros [[L1 L2] Hb Ha Hi]. unfold topo_constraint. cbn [fst snd]. rewrite representative_plain. destruct (index (waiter e)) as [jj|] eqn:Ej; cbn [fst snd].
  2:{ apply index_none in Ej. split; [done| | |done].
      - intros j w Hw. rewrite count_snoc, (Hb j w Hw). unfold pending_for at 3. rewrite (proj2 (Z.eqb_neq _ _)); [cbn; lia|]. intros <-. apply Ej. by eapply list_elem_of_lookup_2.
      - intros j w i b Hw Hbk. rewrite count_snoc, (Ha j w i b Hw Hbk). unfold holds_back at 3. rewrite (proj2 (Z.eqb_neq _ _)); [cbn; lia|]. intros <-. apply Ej. by eapply list_elem_of_lookup_2. }
  rewrite representative_plain. apply index_some in Ej. destruct (index (blocker e)) as [kk|] eqn:Ek; cbn [fst snd].
  2:{ apply index_none in Ek. split; [done| | |done].
      - intros j w Hw. rewrite count_snoc, (Hb j w Hw). unfold pending_for at 3. rewrite bool_decide_false, andb_false_r by done. cbn. lia.
      - intros j w i b Hw Hbk. rewrite count_snoc, (Ha j w i b Hw Hbk). unfold holds_back at 3. rewrite (proj2 (Z.eqb_neq (blocker e) b)), andb_false_r; [lia|]. intros <-. apply Ek. by eapply list_elem_of_lookup_2. }
  apply index_some in Ek. pose proof (lookup_lt_Some _ _ _ Ej) as Lj. pose proof (lookup_lt_Some _ _ _ Ek) as Lk. split.
  - by rewrite !length_insert.
  - intros j w Hw. rewrite lookup_total_insert_case by lia. rewrite count_snoc. unfold pending_for at 2. rewrite (bool_decide_true (blocker e ∈ queue)) by (by eapply list_elem_of_lookup_2).
    rewrite bool_decide_false by apply not_elem_of_nil. cbn. rewrite !andb_true_r. destruct (decide (jj = j)) as [->|Hne].
    + assert (w = waiter e) as -> by congruence. rewrite Z.eqb_refl. by rewrite (Hb j _ Ej).
    + rewrite (proj2 (Z.eqb_neq _ _)); [rewrite (Hb j w Hw); lia|]. intros <-. apply Hne. by eapply NoDup_lookup.
  - intros j w i b Hw Hbk. rewrite lookup_total_insert_case by lia. rewrite count_snoc, <- (Ha j w i b Hw Hbk). unfold holds_back. destruct (decide (kk = i)) as [->|Hne].
    + assert (b = blocker e) as -> by congruence. rewrite Z.eqb_refl, andb_true_r. cbn [count]. destruct (Nat.eqb_spec j jj) as [->|Hne].
      * assert (w = waiter e) as -> by congruence. rewrite Z.eqb_refl. lia.
      * rewrite (proj2 (Z.eqb_neq _ _)); [lia|]. intros <-. apply Hne. by eapply NoDup_lookup.
    + rewrite (proj2 (Z.eqb_neq (blocker e) b)), andb_false_r; [lia|]. intros <-. apply Hne. by eapply NoDup_lookup.
  - intros i j Hil. rewrite lookup_total_insert_case by lia. destruct (decide (kk = i)) as [->|]; [|by apply Hi]. intros [->|Hj]%elem_of_cons; [done|by apply (Hi i)].
Qed.

Lemma constraints_ok cs : topo_ok cs [] (foldl (topo_constraint t queue) (replicate (length queue) 0, replicate (length queue) []) cs).1
  (foldl (topo_constraint t queue) (replicate (length queue) 0, replicate (length queue) []) cs).2.
Proof.
  induction cs as [|e cs IH] using rev_ind.
  - cbn. split.
    + by rewrite !length_replicate.
    + intros j w Hw. apply lookup_lt_Some in Hw. by rewrite lookup_total_replicate_2.
    + intros j w i b _ Hb. apply lookup_lt_Some in Hb. by rewrite lookup_total_replicate_2.
    + intros i j Hi. rewrite lookup_total_replicate_2 by done. by intros []%not_elem_of_nil.
  - rewrite foldl_app. cbn [foldl]. destruct (foldl _ _ cs) as [before after]. by apply constraint_ok.
Qed.

(** ** The scan *)

Definition topo_of (ord : list Z) : list (option Z) := (λ q, if decide (q ∈ ord) then None else Some q) <$> queue.

Lemma topo_of_at ord j q : topo_of ord !!! j = Some q → (j < length queue)%nat → queue !! j = Some q ∧ q ∉ ord.
Proof.
  intros E [x Hx]%lookup_lt_is_Some. unfold topo_of in E. rewrite (list_lookup_total_correct _ j (if decide (x ∈ ord) then None else Some x)) in E by (by rewrite list_lookup_fmap, Hx).
  destruct (decide (x ∈ ord)); [done|]. by injection E as ->.
Qed.

Lemma topo_of_left ord j q : queue !! j = Some q → q ∉ ord → topo_of ord !!! j = Some q.
Proof. intros Hq Hn. apply list_lookup_total_correct. unfold topo_of. rewrite list_lookup_fmap, Hq. cbn. by rewrite decide_False. Qed.

Lemma output_skip p (ord l acc : list Z) : p ∉ l →
  foldl (λ acc x, match x with Some q => if of_group t p q then q :: acc else acc | None => acc end) acc ((λ q, if decide (q ∈ ord) then None else Some q) <$> l) = acc.
Proof.
  induction l as [|x l IH]; intros Hl; [done|]. apply not_elem_of_cons in Hl as [Hx Hl]. rewrite fmap_cons. cbn [foldl]. destruct (decide (x ∈ ord)); [by apply IH|].
  rewrite of_group_plain, (proj2 (Z.eqb_neq _ _)) by done. by apply IH.
Qed.

Lemma output_plain p ord : p ∈ queue → p ∉ ord → output_group t p (topo_of ord) ord = (topo_of (p :: ord), p :: ord).
Proof.
  intros Hp Hn. unfold output_group. f_equal.
  - unfold topo_of. rewrite <- list_fmap_compose. apply list_fmap_ext. intros i q _. cbn. destruct (decide (q ∈ ord)) as [Hq|Hq].
    + rewrite decide_True by (by right). done.
    + rewrite of_group_plain. destruct (Z.eqb_spec q p) as [->|Hne]; [by rewrite decide_True by by left|]. rewrite decide_False; [done|]. by intros [?|?]%elem_of_cons.
  - apply list_elem_of_split in Hp as (a & b & Eq). pose proof Hnd as Hnd'. rewrite Eq in Hnd'. apply NoDup_app in Hnd' as (_ & Hd & [Hb _]%NoDup_cons).
    unfold topo_of. rewrite Eq, fmap_app, foldl_app, (output_skip p ord a ord) by (intros Hx; by apply (Hd p Hx); left). cbn [fmap list_fmap foldl]. rewrite decide_False by done.
    rewrite of_group_plain, Z.eqb_refl. by apply output_skip.
Qed.

Lemma decrement_spec l : ∀ before, (∀ i, i ∈ l → (i < length before)%nat) →
  length (foldl (λ b i, <[i := b !!! i - 1]> b) before l) = length before ∧
  ∀ j, (foldl (λ b i, <[i := b !!! i - 1]> b) before l) !!! j = before !!! j - count (Nat.eqb j) l.
Proof.
  induction l as [|i l IH]; intros before Hl; cbn [foldl count]; [split; [done|intros; lia]|]. assert (i < length before)%nat as Hi by (apply Hl; by left).
  destruct (IH (<[i := before !!! i - 1]> before)) as [E1 E2]; [intros x Hx; rewrite length_insert; apply Hl; by right|]. rewrite length_insert in E1. split; [done|].
  intros j. rewrite E2, lookup_total_insert_case by done. destruct (decide (i = j)) as [->|Hne]; [rewrite Nat.eqb_refl; lia|]. rewrite (proj2 (Nat.eqb_neq j i)) by done. lia.
Qed.

Lemma output_ok cs ord before after j p : topo_ok cs ord before after → queue !! j = Some p → p ∉ ord →
  topo_ok cs (p :: ord) (foldl (λ b i, <[i := b !!! i - 1]> b) before (after !!! j)) after.
Proof.
  intros [[L1 L2] Hb Ha Hi] Hp Hn. destruct (decrement_spec (after !!! j) before) as [E1 E2].
  { intros i Hx. rewrite L1. apply (Hi j); [by eapply lookup_lt_Some|done]. }
  split; [by rewrite E1| |done|done]. intros i w Hw. rewrite E2, (Hb i w Hw), (Ha i w j p Hw Hp).
  rewrite (count_ext (pending_for ord w) (λ e, pending_for (p :: ord) w e || holds_back w p e)).
  - rewrite count_or; [lia|]. intros e _ [_ H]%andb_true_iff. unfold holds_back. apply negb_true_iff, bool_decide_eq_false in H.
    rewrite (proj2 (Z.eqb_neq (blocker e) p)); [apply andb_false_r|]. intros E. apply H. rewrite E. by left.
  - intros e _. unfold pending_for, holds_back. destruct (waiter e =? w); [|done]. cbn. destruct (Z.eqb_spec (blocker e) p) as [->|Hne].
    + rewrite bool_decide_true by (by eapply list_elem_of_lookup_2). rewrite bool_decide_false by done. by rewrite orb_true_r.
    + rewrite orb_false_r. do 2 f_equal. apply bool_decide_ext. rewrite elem_of_cons. naive_solver.
Qed.

Lemma candidate_last topo before n i j : topo_candidate topo before n = Some i → (i < j < n)%nat → is_Some (topo !!! j) → before !!! j ≠ 0.
Proof.
  induction n as [|n IH]; cbn; [lia|]. case_match eqn:E.
  - intros [= ->]. lia.
  - intros Hc Hj Hs Hz. destruct (decide (j = n)) as [->|]; [|by apply (IH Hc); [lia|..]]. by rewrite bool_decide_true, Hz in E.
Qed.

Lemma candidate_none topo before n j : topo_candidate topo before n = None → (j < n)%nat → is_Some (topo !!! j) → before !!! j ≠ 0.
Proof.
  induction n as [|n IH]; cbn; [lia|]. case_match eqn:E; [done|].
  intros Hc Hj Hs Hz. destruct (decide (j = n)) as [->|]; [|by apply (IH Hc); [lia|..]]. by rewrite bool_decide_true, Hz in E.
Qed.

Definition respects (cs : list EDGE) (procs : list Z) : Prop := ∀ e, e ∈ cs → waiter e ∈ queue → blocker e ∈ queue → precedes procs (waiter e) (blocker e).
(** Whoever has come to stand before one that it was behind is the waiter of a constraint. *)
Definition moved (cs : list EDGE) (procs : list Z) : Prop := ∀ a b, precedes queue a b → precedes procs b a → ∃ e, e ∈ cs ∧ waiter e = b.

Record scan_ok (cs : list EDGE) (ord : list Z) : Prop := {
  sc_in : ∀ q, q ∈ ord → q ∈ queue;
  sc_nodup : NoDup ord;
  sc_met : ∀ e, e ∈ cs → waiter e ∈ ord → blocker e ∈ queue → precedes ord (waiter e) (blocker e);
  sc_moved : ∀ a b, precedes queue a b → a ∈ ord → b ∉ ord ∨ precedes ord b a → ∃ e, e ∈ cs ∧ waiter e = b;
}.

Lemma not_output cs ord before after j w : topo_ok cs ord before after → queue !! j = Some w → before !!! j ≠ 0 → ∃ e, e ∈ cs ∧ waiter e = w ∧ blocker e ∈ queue ∧ blocker e ∉ ord.
Proof.
  intros T Hw Hne. rewrite (to_before _ _ _ _ T j w Hw) in Hne. pose proof (count_nonneg (pending_for ord w) cs).
  destruct (proj1 (count_pos (pending_for ord w) cs)) as (e & He & [[Ew%Z.eqb_eq H1%bool_decide_eq_true]%andb_true_iff H2%negb_true_iff]%andb_true_iff); [lia|].
  apply bool_decide_eq_false in H2. by exists e.
Qed.

Lemma output_step cs ord before after j p : topo_ok cs ord before after → scan_ok cs ord → topo_candidate (topo_of ord) before (length queue) = Some j →
  queue !! j = Some p → p ∉ ord → scan_ok cs (p :: ord).
Proof.
  intros T [S1 S2 S3 S4] Hc Hj Hn. pose proof (candidate_some _ _ _ _ Hc) as (_ & _ & Hz). split.
  - intros q [->|Hq]%elem_of_cons; [by eapply list_elem_of_lookup_2|by apply S1].
  - by apply NoDup_cons.
  - intros e He [Hw|Hw]%elem_of_cons Hb.
    + rewrite Hw. apply precedes_head. rewrite (to_before _ _ _ _ T j p Hj) in Hz. apply (proj1 (count_zero _ _)) with (x := e) in Hz; [|done]. unfold pending_for in Hz.
      rewrite Hw, Z.eqb_refl, bool_decide_true in Hz by done. cbn in Hz. apply negb_false_iff, bool_decide_eq_true in Hz. done.
    + by apply precedes_cons, S3.
  - intros a b Hab Ha Hb. apply elem_of_cons in Ha as [->|Ha].
    + assert (b ∉ ord) as Hbn.
      { destruct Hb as [Hb|Hb]; [by intros Hx; apply Hb; right|]. apply precedes_cons_inv in Hb as [[-> _]|[_ ?]%precedes_in]; [by apply precedes_irrefl in Hab|done]. }
      pose proof (precedes_in _ _ _ Hab) as [_ [i Hi]%list_elem_of_lookup]. destruct (precedes_index _ _ _ i Hnd Hab Hi) as (j' & Hlt & Hj').
      assert (j' = j) as -> by by apply (NoDup_lookup queue j' j p). destruct (not_output cs ord before after i b T Hi) as (e & ? & ? & _); [|by exists e].
      eapply (candidate_last _ _ _ _ _ Hc); [split; [done|by eapply lookup_lt_Some]|]. by rewrite (topo_of_left ord i b Hi Hbn).
    + apply (S4 a b Hab Ha). destruct Hb as [Hb|[[-> _]|Hb]%precedes_cons_inv]; [left; by intros Hx; apply Hb; right|by left|by right].
Qed.

(** The last that remains in an order cannot come before another that remains. *)
Lemma stuck_no_order cs (ord procs : list Z) : procs ≡ₚ queue → respects cs procs → (∃ q, q ∈ queue ∧ q ∉ ord) →
  (∀ q, q ∈ queue → q ∉ ord → ∃ e, e ∈ cs ∧ waiter e = q ∧ blocker e ∈ queue ∧ blocker e ∉ ord) → False.
Proof.
  intros Hp Hr [q [Hq Hn]] Hall. assert (NoDup procs) as Hndp by by rewrite Hp.
  assert (∀ n, ∃ i x, (n ≤ i)%nat ∧ procs !! i = Some x ∧ x ∉ ord) as H.
  { induction n as [|n (i & x & Hi & Hx & Hxn)].
    - rewrite <- Hp in Hq. apply list_elem_of_lookup in Hq as [i Hi]. exists i, q. split_and!; [lia|done|done].
    - destruct (Hall x) as (e & He & <- & Hb & Hbn); [rewrite <- Hp; by eapply list_elem_of_lookup_2|done|].
      assert (precedes procs (waiter e) (blocker e)) as Hpr by (apply Hr; [done|rewrite <- Hp; by eapply list_elem_of_lookup_2|done]).
      pose proof (precedes_in _ _ _ Hpr) as [_ [j Hj]%list_elem_of_lookup]. destruct (precedes_index _ _ _ j Hndp Hpr Hj) as (i' & Hlt & Hi').
      assert (i' = i) as -> by by apply (NoDup_lookup procs i' i (waiter e)). exists j, (blocker e). split_and!; [lia|done|done]. }
  destruct (H (length procs)) as (i & x & Hi & Hx & _). apply lookup_lt_Some in Hx. lia.
Qed.

Lemma scan_done cs ord : scan_ok cs ord → omap id (topo_of ord) = [] → respects cs ord ∧ moved cs ord.
Proof.
  intros [S1 S2 S3 S4] E. assert (∀ q, q ∈ queue → q ∈ ord) as Hall.
  { intros q Hq. destruct (decide (q ∈ ord)) as [|Hn]; [done|]. assert (q ∈ omap id (topo_of ord)) as Hx; [|by rewrite E in Hx; apply not_elem_of_nil in Hx].
    apply list_elem_of_omap. exists (Some q). split; [|done]. apply list_elem_of_fmap. exists q. by rewrite decide_False. }
  split.
  - intros e He Hw Hb. apply S3; [done|by apply Hall|done].
  - intros a b Hab Hba. apply (S4 a b Hab); [|by right]. by apply precedes_in in Hba as [_ ?].
Qed.

Lemma scan_spec cs fuel : ∀ ord before after r, topo_ok cs ord before after → scan_ok cs ord → TopoSortScan t fuel (topo_of ord) before after ord = Ok r →
  match r with Some procs => respects cs procs ∧ moved cs procs | None => ∀ procs, procs ≡ₚ queue → ¬ respects cs procs end.
Proof.
  induction fuel as [|fuel IH]; intros ord before after r T Sc; cbn [TopoSortScan]; (destruct (forallb _ (topo_of ord)) eqn:Ef;
    [apply all_output in Ef; intros [= <-]; by apply (scan_done cs ord)|]).
  { done. }
  assert (∃ q, q ∈ queue ∧ q ∉ ord) as Hleft.
  { destruct (omap id (topo_of ord)) as [|q l] eqn:E; [by apply all_output in E; rewrite E in Ef|]. exists q. assert (q ∈ omap id (topo_of ord)) as Hq by (rewrite E; by left).
    apply list_elem_of_omap in Hq as (x & Hx & Ex). apply list_elem_of_fmap in Hx as (y & -> & Hy). cbn in Ex. destruct (decide (y ∈ ord)); [done|]. by injection Ex as ->. }
  replace (length (topo_of ord)) with (length queue) by (unfold topo_of; by rewrite length_fmap). destruct (topo_candidate (topo_of ord) before (length queue)) as [j|] eqn:Ec.
  - pose proof (candidate_some _ _ _ _ Ec) as (Hj & [p Hp] & _). destruct (topo_of_at ord j p Hp Hj) as [Hq Hn]. rewrite Hp. cbn [from_option id].
    rewrite (proj1 (Hng p)). cbn [from_option id]. rewrite output_plain by (try done; by eapply list_elem_of_lookup_2). apply IH; [by apply output_ok|by eapply output_step].
  - intros [= <-] procs Hp Hr. apply (stuck_no_order cs ord procs Hp Hr Hleft). intros q [j Hj]%list_elem_of_lookup Hn. apply (not_output cs ord before after j q T Hj).
    eapply candidate_none; [exact Ec|by eapply lookup_lt_Some|]. by rewrite (topo_of_left ord j q Hj Hn).
Qed.
End Plain.

Lemma moved_mono queue cs cs' procs : (∀ e, e ∈ cs → e ∈ cs') → moved queue cs procs → moved queue cs' procs.
Proof. intros Hs Hm a b H1 H2. destruct (Hm a b H1 H2) as (e & ? & ?). exists e. auto. Qed.

Lemma topo_sort_spec l cs (queue := waitProcs (lock t l)) : no_groups t → NoDup queue → ∃ r, TopoSort t l cs = Ok r ∧
  match r with
  | Some procs => procs ≡ₚ queue ∧ respects queue cs procs ∧ moved queue cs procs
  | None => ∀ procs, procs ≡ₚ queue → ¬ respects queue cs procs
  end.
Proof.
  intros Hng Hnd. destruct (topo_sort_perm l cs) as (r & Er & Hp). exists r. split; [done|]. unfold TopoSort in Er. fold queue in Er.
  assert (Some <$> queue = topo_of queue []) as E by (apply list_fmap_ext; intros i q _; by rewrite decide_False by apply not_elem_of_nil). rewrite E in Er.
  assert (scan_ok queue cs []) as Hs by (split; [by intros q []%not_elem_of_nil|apply NoDup_nil_2|by intros e _ []%not_elem_of_nil|by intros a b _ []%not_elem_of_nil]).
  pose proof (scan_spec Hng queue Hnd cs (length queue) [] _ _ r (constraints_ok Hng queue Hnd cs) Hs Er) as H. destruct r as [procs|]; [by split; [apply Hp|]|done].
Qed.
End Order.
