(* ===== verification/DeadlockSpec.v ===== *)
(** * Deadlock detection: what it finds

    The search for a cycle is a depth-first search that is exact; the sorting of a queue
    respects the constraints; the whole check answers, finds a deadlock only if there is
    one, and leaves none behind. *)

From S2P Require Import Prelude HeapTuple LockDefs LockMgr LockTable Deadlock DeadlockOrder.

Lemma elem_of_concat {A} (x : A) ls : x ∈ concat ls ↔ ∃ l, l ∈ ls ∧ x ∈ l.
Proof. rewrite list_elem_of_In, in_concat. setoid_rewrite list_elem_of_In. done. Qed.

Section Spec.
Variable k : checker.
Variable t : table.

(** ** The graph the search walks *)

(** The processes that a waiter is blocked by, in the order of the search; with the edge
    if it is a soft one. *)
Fixpoint until (stop : Z → bool) (l : list Z) : list Z :=
  match l with [] => [] | x :: l => if stop x then [] else x :: until stop l end.

Definition hard_list (cpl mask : Z) (ls : list PROCLOCK) : list (Z * option EDGE) :=
  (λ o, (myProc o, None)) <$> filter (λ o, negb (leader t (myProc o) =? cpl) && hard_blocks mask o = true) ls.
Definition soft_list (l cpl : Z) (qs : list Z) : list (Z * option EDGE) :=
  (λ q, (q, Some {| waiter := cpl; blocker := leader t q; elock := l |})) <$> qs.
Definition proposed_list (cp mask : Z) (procs : list Z) : list Z :=
  filter (λ q, soft_blocks t mask q = true) (until (λ q, leader t q =? cp) procs).
Definition queue_list (cpl mask : Z) (lst : option Z) (queue : list Z) : list Z :=
  filter (λ q, soft_blocks t mask q && negb (leader t q =? cpl) = true) (until (λ q, bool_decide (Some q = lst)) queue).

Definition member_edges (orders : list WAIT_ORDER) (l cp cpl : Z) : list (Z * option EDGE) :=
  let mask := conflictTab (waitLockMode (proc t cp)) in
  hard_list cpl mask (procLocks (lock t l)) ++
  soft_list l cpl (match find_order orders l with
                   | Some procs => proposed_list cp mask procs
                   | None => queue_list cpl mask (last_group_member t cp cpl (waitProcs (lock t l))) (waitProcs (lock t l))
                   end).

Definition members (a : Z) : list Z := a :: filter (λ q, q ≠ a) (lockGroupMembers (proc t a)).
Definition edges_of (orders : list WAIT_ORDER) (a : Z) (ms : list Z) : list (Z * option EDGE) :=
  concat ((λ q, match waitLock (proc t q) with Some l => member_edges orders l q a | None => [] end) <$> ms).
Definition edges (orders : list WAIT_ORDER) (a : Z) : list (Z * option EDGE) := edges_of orders a (members a).

(** A path, with the soft edges on it. *)
Inductive epath (orders : list WAIT_ORDER) : Z → list (option EDGE) → Z → Prop :=
| epath_nil a : epath orders a [] a
| epath_cons a q e es b : (q, e) ∈ edges orders a → epath orders (leader t q) es b → epath orders a (e :: es) b.

(** In the order in which they are recorded: from the end of the path. *)
Fixpoint softs (es : list (option EDGE)) : list EDGE :=
  match es with [] => [] | e :: es => softs es ++ match e with Some x => [x] | None => [] end end.

(** ** The search *)

Section Search.
Variable orders : list WAIT_ORDER.
Variable start : Z.
Variable U : list Z.
Hypothesis U_small : Z.of_nat (length U) ≤ ck_MaxBackends k.
Hypothesis U_closed : ∀ a q e, a ∈ U → (q, e) ∈ edges orders a → leader t q ∈ U.

Record search_ok (fuel : nat) (s : cycle_search) : Prop := {
  so_start : ∃ v, visitedProcs s = start :: v;
  so_nodup : NoDup (visitedProcs s);
  so_in : ∀ p, p ∈ visitedProcs s → p ∈ U;
  so_fuel : (Z.to_nat (ck_MaxBackends k) + 1 ≤ fuel + length (visitedProcs s))%nat;
}.

(** Everything visited in between has been looked at completely. *)
Definition closed (v v' : list Z) : Prop := ∀ n, n ∈ v' → n ∉ v → ∀ q e, (q, e) ∈ edges orders n → leader t q ∈ v' ∧ leader t q ≠ start.

Definition extends (v v' : list Z) : Prop := ∃ w, v' = v ++ w.

(** A computation looks at the edges [E] (or at one process [q] of them). *)
Definition looked (E : list (Z * option EDGE)) (s : cycle_search) (b : bool) (s' : cycle_search) : Prop :=
  extends (visitedProcs s) (visitedProcs s') ∧
  if b then ∃ q e es, (q, e) ∈ E ∧ epath orders (leader t q) es start ∧ softEdges s' = softEdges s ++ softs (e :: es)
  else softEdges s' = softEdges s ∧ closed (visitedProcs s) (visitedProcs s') ∧
       ∀ q e, (q, e) ∈ E → leader t q ∈ visitedProcs s' ∧ leader t q ≠ start.

Definition explores (fuel : nat) (E : list (Z * option EDGE)) (m : M cycle_search bool) : Prop := ∀ s,
  search_ok fuel s → (∀ q e, (q, e) ∈ E → leader t q ∈ U) → post m s (λ b s', search_ok fuel s' ∧ looked E s b s').

Definition reaches (fuel : nat) (rec : Z → M cycle_search bool) : Prop := ∀ q, leader t q ∈ U → ∀ s, search_ok fuel s →
  post (rec q) s (λ b s', search_ok fuel s' ∧ extends (visitedProcs s) (visitedProcs s') ∧
    if b then ∃ es, epath orders (leader t q) es start ∧ softEdges s' = softEdges s ++ softs es
    else softEdges s' = softEdges s ∧ closed (visitedProcs s) (visitedProcs s') ∧ leader t q ∈ visitedProcs s' ∧ leader t q ≠ start).

Lemma extends_refl v : extends v v.
Proof. exists []. by rewrite app_nil_r. Qed.

Lemma visits_trans v v' v'' : extends v v' → extends v' v'' → extends v v''.
Proof. intros [w ->] [w' ->]. exists (w ++ w'). by rewrite app_assoc. Qed.

Lemma extends_in v v' p : extends v v' → p ∈ v → p ∈ v'.
Proof. intros [w ->] Hp. apply elem_of_app. by left. Qed.

Lemma closed_trans v v' v'' : extends v' v'' → closed v v' → closed v' v'' → closed v v''.
Proof.
  intros He H1 H2 n Hn Hnv q e Hq. destruct (decide (n ∈ v')) as [Hn'|Hn']; [|by apply (H2 n Hn Hn' q e)].
  destruct (H1 n Hn' Hnv q e Hq) as [? ?]. split; [by eapply extends_in|done].
Qed.

Lemma explores_nil fuel : explores fuel [] (mret false).
Proof.
  intros s Hs _. apply post_ret. split; [done|]. split; [apply extends_refl|]. split_and!; [done|by intros n ? ?|]. by intros q e []%not_elem_of_nil.
Qed.

(** A computation that only remembers blockers, or details. *)
Definition quiet (f : cycle_search → cycle_search) : Prop := ∀ s, visitedProcs (f s) = visitedProcs s ∧ softEdges (f s) = softEdges s.

Lemma search_ok_visited fuel s s' : visitedProcs s' = visitedProcs s → search_ok fuel s → search_ok fuel s'.
Proof. intros E []. by split; rewrite ?E. Qed.

Lemma explores_quiet fuel E f m : quiet f → explores fuel E m → explores fuel E (modify f ≫= λ _, m).
Proof.
  intros Hf Hm s Hs HE. apply post_bind, post_modify. destruct (Hf s) as [E1 E2].
  eapply post_mono; [apply Hm; [by eapply search_ok_visited|done]|]. intros b s' [Hok Hl]. split; [done|]. unfold looked in *. by rewrite E1, E2 in Hl.
Qed.

(** The rest is looked at if nothing is found in the first part. *)
Lemma explores_app fuel E1 E2 m1 m2 :
  explores fuel E1 m1 → explores fuel E2 m2 → explores fuel (E1 ++ E2) (m1 ≫= λ b : bool, if b then mret true else m2).
Proof.
  intros H1 H2 s Hs HE. apply post_bind. eapply post_mono; [apply H1; [done|]; intros; eapply HE, elem_of_app; by left|].
  intros b s1 (Hok & Hex & Hb). destruct b.
  - apply post_ret. split; [done|]. split; [done|]. destruct Hb as (q & e & es & ? & ? & ?). exists q, e, es. split_and!; try done. apply elem_of_app. by left.
  - destruct Hb as (Es & Hc & Hall). eapply post_mono; [apply H2; [done|]; intros; eapply HE, elem_of_app; by right|].
    intros b s2 (Hok2 & Hex2 & Hb2). split; [done|]. split; [by eapply visits_trans|]. destruct b.
    + destruct Hb2 as (q & e & es & ? & ? & E). exists q, e, es. split_and!; [apply elem_of_app; by right|done|by rewrite E, Es].
    + destruct Hb2 as (Es2 & Hc2 & Hall2). split_and!; [congruence|by eapply closed_trans|]. intros q e [Hq|Hq]%elem_of_app; [|by eapply Hall2].
      destruct (Hall q e Hq). split; [by eapply extends_in|done].
Qed.

(** One edge. *)
Lemma explores_one fuel rec q e (f g : cycle_search → cycle_search) :
  reaches fuel rec → (∀ s, visitedProcs (f s) = visitedProcs s ∧ softEdges (f s) = softEdges s ++ match e with Some x => [x] | None => [] end) → quiet g →
  explores fuel [(q, e)] (rec q ≫= λ b : bool, if b then modify f ≫= λ _, mret true else modify g ≫= λ _, mret false).
Proof.
  intros Hr Hf Hg s Hs HE. apply post_bind. eapply post_mono; [apply Hr; [by eapply (HE q e); left|done]|].
  intros b s1 (Hok & Hex & Hb). destruct b; apply post_bind, post_modify, post_ret.
  - destruct (Hf s1) as [E1 E2]. split; [by eapply search_ok_visited|]. split; [by rewrite E1|]. destruct Hb as (es & Hp & E). exists q, e, es. split_and!; [by left|done|].
    cbn. by rewrite E2, E, app_assoc.
  - destruct (Hg s1) as [E1 E2]. split; [by eapply search_ok_visited|]. split; [by rewrite E1|]. destruct Hb as (Es & Hc & Hin & Hne). rewrite E1, E2. split_and!; [done|done|].
    intros q' e' [= -> ->]%list_elem_of_singleton. done.
Qed.

Lemma explores_ext fuel E (m m' : M cycle_search bool) : (∀ s, m s = m' s) → explores fuel E m → explores fuel E m'.
Proof. intros Heq H s Hs HE. destruct (H s Hs HE) as (b & s' & Hr & HQ). exists b, s'. split; [|done]. unfold runs in *. by rewrite <- Heq. Qed.

(** One edge and then the rest. *)
Lemma explores_cons fuel rec q e E f g rest :
  reaches fuel rec → (∀ s, visitedProcs (f s) = visitedProcs s ∧ softEdges (f s) = softEdges s ++ match e with Some x => [x] | None => [] end) → quiet g →
  explores fuel E rest → explores fuel ((q, e) :: E) (rec q ≫= λ b : bool, if b then modify f ≫= λ _, mret true else modify g ≫= λ _, rest).
Proof.
  intros Hr Hf Hg He. eapply (explores_ext fuel ([(q, e)] ++ E)); [|by apply explores_app, He; eapply (explores_one fuel rec q e f g)].
  intros s. unfold mbind, M_bind. by destruct (rec q s) as [[[]| |] s'].
Qed.

Lemma quiet_id : quiet (λ s, s).
Proof. done. Qed.

Lemma quiet_remember_av q : quiet (remember_autovacuum k q).
Proof. intros s. unfold remember_autovacuum. by repeat case_bool. Qed.

Lemma quiet_remember cp q : quiet (remember_blocker k cp q).
Proof. intros s. unfold remember_blocker. repeat case_bool; try done. apply quiet_remember_av. Qed.

Lemma quiet_autovacuum cp cpl mask queue : quiet (autovacuum_scan k t cp cpl mask queue).
Proof.
  induction queue as [|q queue IH]; intros s; cbn; [done|]. destruct (q =? cp); [done|]. destruct (IH (if negb (leader t q =? cpl) && flag mask (LOCKBIT_ON (waitLockMode (proc t q))) && ck_autovacuum k q then remember_autovacuum k q s else s)) as [-> ->].
  case_bool; [apply quiet_remember_av|done].
Qed.

Lemma hard_scan_explores fuel rec l cp cpl mask ls : reaches fuel rec → explores fuel (hard_list cpl mask ls) (hard_scan k t rec l cp cpl mask ls).
Proof.
  intros Hr. unfold hard_list. induction ls as [|o ls IH]; [apply explores_nil|]. cbn [hard_scan]. rewrite filter_cons.
  destruct (negb (leader t (myProc o) =? cpl) && hard_blocks mask o); cbn [decide].
  - rewrite decide_True by done. cbn [fmap list_fmap]. apply explores_cons; [done|intros s; cbn; by rewrite app_nil_r|apply quiet_remember|done].
  - by rewrite decide_False.
Qed.

Lemma soft_visit_explores fuel rec l cp cpl q E rest :
  reaches fuel rec → explores fuel E rest → explores fuel ((q, Some {| waiter := cpl; blocker := leader t q; elock := l |}) :: E) (soft_visit t rec l cp cpl q rest).
Proof.
  intros Hr He. set (e := {| waiter := cpl |}). eapply explores_ext; [|apply (explores_cons fuel rec q (Some e) E (λ s, add_soft e (add_details t l cp s)) (λ s, s)); [done|done|apply quiet_id|exact He]].
  intros s. unfold soft_visit, mbind, M_bind. by destruct (rec q s) as [[[]| |] s'].
Qed.

Lemma proposed_scan_explores fuel rec l cp cpl mask procs :
  reaches fuel rec → explores fuel (soft_list l cpl (proposed_list cp mask procs)) (proposed_scan t rec l cp cpl mask procs).
Proof.
  intros Hr. unfold soft_list, proposed_list. induction procs as [|q procs IH]; [apply explores_nil|]. cbn [proposed_scan until].
  destruct (leader t q =? cp); [apply explores_nil|]. rewrite filter_cons. destruct (soft_blocks t mask q).
  - rewrite decide_True by done. cbn [fmap list_fmap]. by apply soft_visit_explores.
  - by rewrite decide_False.
Qed.

Lemma queue_scan_explores fuel rec l cp cpl mask lst queue :
  reaches fuel rec → explores fuel (soft_list l cpl (queue_list cpl mask lst queue)) (queue_scan t rec l cp cpl mask lst queue).
Proof.
  intros Hr. unfold soft_list, queue_list. induction queue as [|q queue IH]; [apply explores_nil|]. cbn [queue_scan until].
  destruct (bool_decide (Some q = lst)); [apply explores_nil|]. rewrite filter_cons. destruct (soft_blocks t mask q && negb (leader t q =? cpl)).
  - rewrite decide_True by done. cbn [fmap list_fmap]. by apply soft_visit_explores.
  - by rewrite decide_False.
Qed.

Lemma member_explores fuel rec l cp cpl : reaches fuel rec → explores fuel (member_edges orders l cp cpl) (FindLockCycleRecurseMember k t rec orders l cp cpl).
Proof.
  intros Hr. unfold FindLockCycleRecurseMember, member_edges. apply explores_app; [by apply hard_scan_explores|]. apply explores_quiet.
  - intros s. case_bool; [apply quiet_autovacuum|done].
  - destruct (find_order orders l); [by apply proposed_scan_explores|by apply queue_scan_explores].
Qed.

Lemma members_explores fuel rec a ms : reaches fuel rec → explores fuel (edges_of orders a ms) (members_scan k t rec orders a ms).
Proof.
  intros Hr. unfold edges_of. induction ms as [|q ms IH]; [apply explores_nil|]. cbn [fmap list_fmap concat members_scan]. apply explores_app; [|done].
  destruct (waitLock (proc t q)); [by apply member_explores|apply explores_nil].
Qed.

Lemma visited_room s fuel p : search_ok fuel s → p ∈ U → p ∉ visitedProcs s → Z.of_nat (length (visitedProcs s)) < ck_MaxBackends k.
Proof.
  intros [_ Hnd Hin _] Hp Hn. assert (length (p :: visitedProcs s) ≤ length U)%nat as Hlen; [|cbn in Hlen; lia].
  apply submseteq_length, NoDup_submseteq; [by apply NoDup_cons|]. intros x [->|Hx]%elem_of_cons; auto.
Qed.

Lemma find_reaches fuel : reaches fuel (FindLockCycleRecurse k t fuel orders).
Proof.
  induction fuel as [|fuel IH]; intros q Hq s Hs.
  { exfalso. pose proof Hs as [_ Hnd Hin Hf]. assert (length (visitedProcs s) ≤ length U)%nat by (apply submseteq_length, NoDup_submseteq; auto). cbn in Hf. lia. }
  cbn [FindLockCycleRecurse]. apply post_bind, post_gets. destruct (list_find (λ x, x = leader t q) (visitedProcs s)) as [[i x]|] eqn:Ef; cbn [fmap option_fmap option_map fst].
  - apply list_find_Some in Ef as (Hi & -> & _). pose proof (so_start _ _ Hs) as [v Ev]. destruct i as [|i].
    + apply post_bind, post_modify, post_ret. rewrite Ev in Hi. injection Hi as Hi. split; [by eapply (search_ok_visited _ s)|]. split; [apply extends_refl|].
      exists []. cbn. rewrite app_nil_r, <- Hi. split; [constructor|done].
    + apply post_ret. split; [done|]. split; [apply extends_refl|]. split_and!; [done|by intros n ? ?|by eapply list_elem_of_lookup_2|].
      intros E. pose proof (so_nodup _ _ Hs) as Hnd. rewrite E in Hi. assert (visitedProcs s !! 0%nat = Some start) as H0 by by rewrite Ev. by pose proof (NoDup_lookup _ _ _ _ Hnd Hi H0).
  - apply list_find_None in Ef. assert (leader t q ∉ visitedProcs s) as Hn by (intros Hx; rewrite Forall_forall in Ef; by apply (Ef _ Hx)).
    pose proof (visited_room _ _ _ Hs Hq Hn) as Hroom. rewrite (proj2 (Z.leb_gt _ _)) by done. apply post_bind, post_modify.
    set (a := leader t q) in *. set (s1 := with_visited (visitedProcs s ++ [a]) s).
    assert (search_ok fuel s1) as Hs1.
    { destruct Hs as [[v Ev] Hnd Hin Hf]. split; cbn [visitedProcs s1 with_visited].
      - exists (v ++ [a]). by rewrite Ev.
      - apply NoDup_app. split_and!; [done| |apply NoDup_singleton]. intros x Hx ->%list_elem_of_singleton. done.
      - intros x [Hx|Hx%list_elem_of_singleton]%elem_of_app; [by apply Hin|by subst].
      - rewrite length_app. cbn. lia. }
    eapply post_mono; [apply (members_explores fuel _ a (members a) IH s1 Hs1)|].
    { intros q' e He. by apply (U_closed a q' e). }
    intros b s2 (Hs2 & Hex & Hb). assert (extends (visitedProcs s) (visitedProcs s2)) as Hex2 by (eapply visits_trans; [by exists [a]|exact Hex]).
    split; [destruct Hs2; split; try done; lia|]. split; [done|]. destruct b.
    + destruct Hb as (q' & e & es & Hin & Hp & Es). exists (e :: es). split; [by econstructor|done].
    + destruct Hb as (Es & Hc & Hall). split_and!; [done| | |].
      * intros n Hn' Hnv q' e He. destruct (decide (n = a)) as [->|Hna]; [|refine (Hc n Hn' _ q' e He)].
        { by apply (Hall q' e). }
        cbn. intros [?|?%list_elem_of_singleton]%elem_of_app; done.
      * eapply extends_in; [exact Hex|]. cbn. apply elem_of_app. right. by apply list_elem_of_singleton.
      * intros E. destruct (so_start _ _ Hs) as [v Ev]. apply Hn. rewrite E, Ev. by left.
Qed.
End Search.

(** A process of the graph is not reached again from itself. *)
Lemma closed_no_return orders start (v : list Z) es : (∀ n q e, n ∈ v → (q, e) ∈ edges orders n → leader t q ∈ v ∧ leader t q ≠ start) →
  ∀ a b, a ∈ v → epath orders a es b → es ≠ [] → b ≠ start.
Proof.
  intros Hc a b Ha Hp. revert Ha. induction Hp as [|a q e es b He Hp IH]; intros Ha Hne; [done|]. destruct (Hc a q e Ha He) as [Hq Hs].
  destruct es; [by inversion Hp; subst|by apply IH].
Qed.

(** The processes of [U] are all that can take part, and [visitedProcs] has room for them. *)
Definition universe (orders : list WAIT_ORDER) (U : list Z) : Prop :=
  Z.of_nat (length U) ≤ ck_MaxBackends k ∧ ∀ a q e, a ∈ U → (q, e) ∈ edges orders a → leader t q ∈ U.

Definition cycle (orders : list WAIT_ORDER) (a : Z) (es : list (option EDGE)) : Prop := es ≠ [] ∧ epath orders a es a.

Lemma find_cycle_spec orders U p s : universe orders U → leader t p ∈ U →
  post (FindLockCycle k t orders p) s (λ b s', if b then ∃ es, cycle orders (leader t p) es ∧ softEdges s' = softs es else ∀ es, ¬ cycle orders (leader t p) es).
Proof.
  intros [Hsm Hcl] Hp. unfold FindLockCycle. apply post_bind, post_modify. set (s0 := with_soft _ _). unfold find_fuel. remember (S (Z.to_nat (ck_MaxBackends k))) as fuel eqn:Ef.
  cbn [FindLockCycleRecurse]. apply post_bind, post_gets. change (visitedProcs s0) with (@nil Z). cbn [list_find fmap option_fmap option_map].
  assert (0 < length U)%nat by (destruct U; [by apply not_elem_of_nil in Hp|cbn; lia]). rewrite (proj2 (Z.leb_gt _ _)) by (cbn; lia).
  apply post_bind, post_modify. set (a := leader t p) in *. set (s1 := with_visited ([] ++ [a]) s0).
  assert (search_ok a U fuel s1) as Hs1.
  { split; cbn [visitedProcs s1 with_visited app]; [by exists []|apply NoDup_singleton|by intros x ->%list_elem_of_singleton|cbn; lia]. }
  eapply post_mono; [apply (members_explores orders a U fuel _ a (members a) (find_reaches orders a U Hsm Hcl fuel) s1 Hs1)|].
  { intros q e He. by apply (Hcl a q e). }
  intros b s2 (_ & Hex & Hb). destruct b.
  - destruct Hb as (q & e & es & Hin & Hpath & Es). exists (e :: es). split; [split; [done|by econstructor]|]. by rewrite Es.
  - destruct Hb as (_ & Hc & Hall). intros es [Hne Hpath]. eapply (closed_no_return orders a (visitedProcs s2) es); [|eapply extends_in; [exact Hex|by left]|exact Hpath|done|done].
    intros n q e Hn He. destruct (decide (n = a)) as [->|Hna]; [by apply (Hall q e)|]. refine (Hc n Hn _ q e He). cbn. by intros ?%list_elem_of_singleton.
Qed.

(** ** The search does not depend on what is remembered otherwise *)

Definition alike (s s' : cycle_search) : Prop := visitedProcs s = visitedProcs s' ∧ softEdges s = softEdges s'.
Definition stable {A} (m : M cycle_search A) : Prop := ∀ s s', alike s s' → (m s).1 = (m s').1 ∧ alike (m s).2 (m s').2.

Lemma stable_ret {A} (a : A) : stable (mret a).
Proof. done. Qed.

Lemma stable_raise {A} l : stable (@raise cycle_search A l).
Proof. done. Qed.

Lemma stable_bind {A B} (m : M cycle_search A) (f : A → M cycle_search B) : stable m → (∀ a, stable (f a)) → stable (m ≫= f).
Proof.
  intros Hm Hf s s' H. unfold mbind, M_bind. destruct (Hm s s' H) as [E H']. destruct (m s) as [r s1], (m s') as [r' s1']. cbn in E, H'. subst r'.
  destruct r; [by apply Hf|done|done].
Qed.

Lemma stable_modify f : (∀ s s', alike s s' → alike (f s) (f s')) → stable (modify f).
Proof. intros Hf s s' H. split; [done|]. by apply Hf. Qed.

Lemma stable_quiet f : quiet f → stable (modify f).
Proof. intros Hf. apply stable_modify. intros s s' [E1 E2]. unfold alike. destruct (Hf s) as [-> ->], (Hf s') as [-> ->]. done. Qed.

Lemma stable_visited {A} (f : list Z → M cycle_search A) : (∀ v, stable (f v)) → stable (gets visitedProcs ≫= f).
Proof. intros Hf s s' [E1 E2]. unfold mbind, M_bind, gets. rewrite E1. by apply Hf. Qed.

Lemma stable_softs {A} (f : list EDGE → M cycle_search A) : (∀ v, stable (f v)) → stable (gets softEdges ≫= f).
Proof. intros Hf s s' [E1 E2]. unfold mbind, M_bind, gets. rewrite E2. by apply Hf. Qed.

Lemma stable_hard_scan rec l cp cpl mask ls : (∀ q, stable (rec q)) → stable (hard_scan k t rec l cp cpl mask ls).
Proof.
  intros Hr. induction ls as [|o ls IH]; cbn [hard_scan]; [apply stable_ret|]. case_match; [|done]. apply stable_bind; [done|]. intros [].
  - apply stable_bind; [by apply stable_quiet|intros _; apply stable_ret].
  - apply stable_bind; [apply stable_quiet, quiet_remember|done].
Qed.

Lemma stable_soft_visit rec l cp cpl q rest : (∀ q, stable (rec q)) → stable rest → stable (soft_visit t rec l cp cpl q rest).
Proof.
  intros Hr Hs. apply stable_bind; [done|]. intros []; [|done]. apply stable_bind; [by apply stable_quiet|]. intros _. apply stable_bind; [|intros _; apply stable_ret].
  apply stable_modify. intros s s' [E1 E2]. split; cbn; congruence.
Qed.

Lemma stable_member rec orders l cp cpl : (∀ q, stable (rec q)) → stable (FindLockCycleRecurseMember k t rec orders l cp cpl).
Proof.
  intros Hr. apply stable_bind; [by apply stable_hard_scan|]. intros []; [apply stable_ret|]. apply stable_bind.
  { apply stable_quiet. intros s. case_match; [apply quiet_autovacuum|done]. }
  intros _. destruct (find_order orders l) as [procs|].
  - induction procs as [|q procs IH]; cbn [proposed_scan]; [apply stable_ret|]. repeat case_match; [apply stable_ret|by apply stable_soft_visit|done].
  - generalize (last_group_member t cp cpl (waitProcs (lock t l))). intros lst. induction (waitProcs (lock t l)) as [|q queue IH]; cbn [queue_scan]; [apply stable_ret|].
    case_match; [apply stable_ret|]. case_match; [by apply stable_soft_visit|done].
Qed.

Lemma stable_find_recurse fuel orders : ∀ q, stable (FindLockCycleRecurse k t fuel orders q).
Proof.
  induction fuel as [|fuel IH]; intros q; cbn [FindLockCycleRecurse]; [done|]. apply stable_visited. intros v. case_match.
  { case_match; [|apply stable_ret]. apply stable_bind; [by apply stable_quiet|intros _; apply stable_ret]. }
  case_match; [apply stable_raise|]. apply stable_bind.
  { apply stable_modify. intros s s' [E1 E2]. by split. }
  intros _. generalize (leader t q). intros a. generalize (a :: filter (λ q, q ≠ a) (lockGroupMembers (proc t a))). intros ms.
  induction ms as [|x ms IHm]; cbn [members_scan]; [apply stable_ret|]. apply stable_bind; [|intros []; [apply stable_ret|done]].
  destruct (waitLock (proc t x)); [by apply stable_member|apply stable_ret].
Qed.

(** It starts afresh. *)
Lemma find_cycle_det orders p s s' : (FindLockCycle k t orders p s).1 = (FindLockCycle k t orders p s').1 ∧ softEdges (FindLockCycle k t orders p s).2 = softEdges (FindLockCycle k t orders p s').2.
Proof. by destruct (stable_find_recurse (find_fuel k) orders p (with_soft [] (with_details [] (with_visited [] s))) (with_soft [] (with_details [] (with_visited [] s')))) as [E [_ E']]. Qed.

(** ** Proposed orders *)

Record orders_ok (cs : list EDGE) (orders : list WAIT_ORDER) : Prop := {
  oo_perm : ∀ w, w ∈ orders → wo_procs w ≡ₚ waitProcs (lock t (wo_lock w));
  oo_once : NoDup (wo_lock <$> orders);
  oo_from : ∀ w, w ∈ orders → ∃ e, e ∈ cs ∧ elock e = wo_lock w;
  oo_moved : no_groups t → ∀ w, w ∈ orders → NoDup (waitProcs (lock t (wo_lock w))) → moved (waitProcs (lock t (wo_lock w))) cs (wo_procs w);
}.

Lemma find_order_some orders l procs : find_order orders l = Some procs → ∃ w, w ∈ orders ∧ wo_lock w = l ∧ wo_procs w = procs.
Proof.
  unfold find_order. intros ([i w] & Hf & E)%fmap_Some. apply list_find_Some in Hf as (Hi & Hw & _). exists w. split_and!; [by eapply list_elem_of_lookup_2|done|done].
Qed.

Lemma find_order_none orders l : find_order orders l = None → l ∉ wo_lock <$> orders.
Proof.
  unfold find_order. intros Hf%fmap_None%list_find_None (w & -> & Hw)%list_elem_of_fmap. rewrite Forall_forall in Hf. by apply (Hf w).
Qed.

Lemma find_order_unique orders w : NoDup (wo_lock <$> orders) → w ∈ orders → find_order orders (wo_lock w) = Some (wo_procs w).
Proof.
  intros Hnd Hw. destruct (find_order orders (wo_lock w)) as [procs|] eqn:E.
  - apply find_order_some in E as (w' & Hw' & El & <-). do 2 f_equal. apply list_elem_of_lookup in Hw as [i Hi], Hw' as [j Hj].
    assert (i = j) as ->; [|congruence]. eapply NoDup_lookup; [exact Hnd|by rewrite list_lookup_fmap, Hi|]. rewrite list_lookup_fmap, Hj. cbn. by rewrite El.
  - apply find_order_none in E. destruct E. apply list_elem_of_fmap. by exists w.
Qed.

Lemma expand_loop_ok i cs : ∀ orders, orders_ok cs orders → ∃ r, expand_loop t i cs orders = Ok r ∧ ∀ orders', r = Some orders' → orders_ok cs orders'.
Proof.
  induction i as [|i IH]; intros orders Ho; cbn [expand_loop]; [eexists; split; [done|by intros ? [= <-]]|].
  destruct (cs !! i) as [e|] eqn:Ei; [|eexists; split; [done|by intros ? [= <-]]]. case_bool_decide as Hf; [by apply IH|].
  destruct (topo_sort_perm t (elock e) (take (S i) cs)) as (r & Er & Hr). rewrite Er. cbn. destruct r as [procs|]; [|by eexists]. apply IH. destruct Ho as [H1 H2 H3 H4].
  assert (find_order orders (elock e) = None) as En by (destruct (find_order orders (elock e)) eqn:E; [by destruct Hf; eexists|done]). split.
  - intros w [Hw| ->%list_elem_of_singleton]%elem_of_app; [by apply H1|by apply Hr].
  - rewrite fmap_app. apply NoDup_app. split_and!; [done| |apply NoDup_singleton]. intros x Hx ->%list_elem_of_singleton. by apply (find_order_none _ _ En).
  - intros w [Hw| ->%list_elem_of_singleton]%elem_of_app; [by apply H3|]. exists e. split; [by eapply list_elem_of_lookup_2|done].
  - intros Hng w [Hw| ->%list_elem_of_singleton]%elem_of_app Hnd; [by apply H4|]. cbn [wo_lock wo_procs] in *.
    destruct (topo_sort_spec t (elock e) (take (S i) cs) Hng Hnd) as (r & Er' & Hr'). rewrite Er in Er'. injection Er' as <-. destruct Hr' as (_ & _ & Hm).
    eapply moved_mono; [|exact Hm]. intros x Hx. by apply elem_of_take in Hx as (? & ?%list_elem_of_lookup_2 & _).
Qed.

Lemma no_orders_ok cs : orders_ok cs [].
Proof. split; [by intros w []%not_elem_of_nil|apply NoDup_nil_2|by intros w []%not_elem_of_nil|by intros _ w []%not_elem_of_nil]. Qed.

Lemma expand_ok cs : ∃ r, ExpandConstraints t cs = Ok r ∧ ∀ orders, r = Some orders → orders_ok cs orders.
Proof. apply expand_loop_ok, no_orders_ok. Qed.

(** ** The whole check *)

Section Whole.
Variable session : Z → stream_session.
Hypothesis inv : table_inv session t.

(** Every process that holds or awaits a lock has its place below [MaxBackends]. *)
Definition bounded : Prop := ∀ l lk q, tb_locks t !! l = Some lk → q ∈ waitProcs lk ∨ q ∈ (myProc <$> procLocks lk) → 0 ≤ leader t q < ck_MaxBackends k.
Hypothesis Hbounded : bounded.
Hypothesis Hmax : 0 < ck_MaxBackends k.

Definition everybody : list Z := seqZ 0 (ck_MaxBackends k).

(** A constraint between processes that there are, on a lock that there is. *)
Definition edge_ok (e : EDGE) : Prop := leader t (waiter e) ∈ everybody ∧ leader t (blocker e) ∈ everybody ∧ is_Some (tb_locks t !! elock e).

Lemma leader_idem p : leader t (leader t p) = leader t p.
Proof.
  unfold leader, leader_of. destruct (lockGroupLeader (proc_of (tb_procs t) p)) as [g|] eqn:E; cbn; [|by rewrite E]. by rewrite (ti_groups _ _ inv _ _ E).
Qed.

Lemma waits_on_lock p l : waitLock (proc t p) = Some l → is_Some (tb_locks t !! l).
Proof.
  intros Hw. pose proof (ti_locks _ _ inv l) as Hl. destruct (tb_locks t !! l) as [lk|]; [done|]. by destruct (Hl p).
Qed.

Lemma here l q : q ∈ waitProcs (lock t l) ∨ q ∈ (myProc <$> procLocks (lock t l)) → leader t q ∈ everybody.
Proof.
  unfold lock. destruct (tb_locks t !! l) as [lk|] eqn:E; cbn; intros Hq; [|by destruct Hq as [[]%not_elem_of_nil|[]%not_elem_of_nil]].
  apply elem_of_seqZ. pose proof (Hbounded l lk q E Hq). lia.
Qed.

Lemma until_sub stop qs q : q ∈ until stop qs → q ∈ qs.
Proof.
  induction qs as [|x qs IH]; cbn; [done|]. case_match; [by intros []%not_elem_of_nil|]. intros [->|Hq]%elem_of_cons; [by left|right; by apply IH].
Qed.

Lemma edge_target cs orders a q e : orders_ok cs orders → (q, e) ∈ edges orders a →
  leader t q ∈ everybody ∧ ∀ x, e = Some x → ∃ l, x = {| waiter := a; blocker := leader t q; elock := l |} ∧ is_Some (tb_locks t !! l).
Proof.
  intros Ho He. unfold edges, edges_of in He. apply elem_of_concat in He as (es & (m & -> & Hm)%list_elem_of_fmap & He). destruct (waitLock (proc t m)) as [l|] eqn:Hw; [|by apply not_elem_of_nil in He].
  apply elem_of_app in He as [He|He].
  - apply list_elem_of_fmap in He as (o & [= -> ->] & [_ Hin]%list_elem_of_filter). split; [|done]. apply (here l). right. apply list_elem_of_fmap. by exists o.
  - apply list_elem_of_fmap in He as (x & [= -> ->] & Hx). split.
    + apply (here l). left. destruct (find_order orders l) as [procs|] eqn:Ef.
      * apply list_elem_of_filter in Hx as [_ Hx%until_sub]. apply find_order_some in Ef as (w & Hw' & <- & <-). by rewrite <- (oo_perm _ _ Ho w Hw').
      * by apply list_elem_of_filter in Hx as [_ Hx%until_sub].
    + intros x' [= <-]. exists l. split; [done|]. by apply (waits_on_lock m).
Qed.

Lemma everybody_universe cs orders : orders_ok cs orders → universe orders everybody.
Proof.
  intros Ho. split.
  - unfold everybody. rewrite length_seqZ. lia.
  - intros a q e _ He. by apply (edge_target cs orders a q e).
Qed.

Lemma path_edges_ok cs orders a es b : orders_ok cs orders → a ∈ everybody → leader t a = a → epath orders a es b → Forall edge_ok (softs es).
Proof.
  intros Ho Ha El Hp. induction Hp as [a|a q e es b He Hp IH]; [done|]. cbn [softs]. destruct (edge_target cs orders a q e Ho He) as [Hq Hx].
  apply Forall_app. split; [apply IH; [done|apply leader_idem]|]. destruct e as [x|]; [|done]. apply Forall_singleton.
  destruct (Hx x eq_refl) as (l & -> & Hl). split_and!; cbn; [by rewrite El|by rewrite leader_idem|done].
Qed.

Lemma test_procs_spec cs orders procs : orders_ok cs orders → Forall (λ p, leader t p ∈ everybody) procs → ∀ sf s, Forall edge_ok sf →
  post (test_procs k t orders procs sf) s (λ r _, (r = Some sf ∨ ∃ p es, p ∈ procs ∧ cycle orders (leader t p) es) ∧
    ∀ es, r = Some es → Forall edge_ok es ∧ (es = [] → sf = [] ∧ ∀ p es, p ∈ procs → ¬ cycle orders (leader t p) es)).
Proof.
  intros Ho Hps. induction Hps as [|p procs Hp Hps IH]; intros sf s Hsf; cbn [test_procs].
  { apply post_ret. split; [by left|]. intros es [= <-]. split; [done|]. intros ->. split; [done|]. by intros p es' []%not_elem_of_nil. }
  apply post_bind. eapply post_mono; [by apply (find_cycle_spec orders everybody p s (everybody_universe cs orders Ho))|]. intros [] s1 Hb.
  - destruct Hb as (es & Hc & Es). apply post_bind, post_gets. assert (∃ p' es, p' ∈ p :: procs ∧ cycle orders (leader t p') es) as Hex by (exists p, es; split; [by left|done]).
    case_bool_decide as Hnil; [apply post_ret; split; [by right|done]|].
    assert (Forall edge_ok (softEdges s1)) as Hok by (rewrite Es; eapply path_edges_ok; [done|exact Hp|apply leader_idem|apply Hc]).
    eapply post_mono; [by apply IH|]. intros r s2 [_ Hr]. split; [by right|]. intros es' E. destruct (Hr es' E) as [Hok' Hno]. split; [done|]. by intros [? _]%Hno.
  - eapply post_mono; [by apply IH|]. intros r s2 [Hor Hr]. split.
    + destruct Hor as [?|(p' & es & ? & ?)]; [by left|]. right. exists p', es. split; [by right|done].
    + intros es' E. destruct (Hr es' E) as [Hok' Hno]. split; [done|]. intros [-> Hn]%Hno. split; [done|]. intros p' es [->|Hp']%elem_of_cons; [by apply Hb|by apply Hn].
Qed.

Lemma run_res_post {A} (r : res A) (a : A) (s : cycle_search) (Q : A → cycle_search → Prop) : r = Ok a → Q a s → post (run_res r) s Q.
Proof. intros -> HQ. by exists a, s. Qed.

(** Neither the process nor one that has been moved forward is in a cycle. *)
Definition solves (p : Z) (orders : list WAIT_ORDER) : Prop := ∃ cs, Forall edge_ok cs ∧ orders_ok cs orders ∧ (∀ es, ¬ cycle orders (leader t p) es) ∧
  ∀ e es, e ∈ cs → ¬ cycle orders (leader t (waiter e)) es.

Lemma test_configuration_spec p cs n s : Forall edge_ok cs → leader t p ∈ everybody →
  post (TestConfiguration k t p cs n) s (λ r _, (cs = [] → n = 0 → r = (Some [], []) ∨ ∃ es, cycle [] (leader t p) es) ∧
    ∀ es, r.1 = Some es → Forall edge_ok es ∧ (es = [] → solves p r.2)).
Proof.
  intros Hcs Hp. unfold TestConfiguration. case_match eqn:En; [apply post_ret; split; [intros _ ->; apply Z.ltb_lt in En; lia|done]|].
  apply post_bind. destruct (expand_ok cs) as (r & Er & Ho). eapply run_res_post; [exact Er|]. destruct r as [orders|].
  2:{ apply post_ret. split; [|done]. intros ->. done. }
  apply post_bind. specialize (Ho orders eq_refl). eapply post_mono; [apply (test_procs_spec cs orders); [done| |done]|].
  { apply Forall_app. split; [|by apply Forall_singleton]. apply Forall_concat, Forall_fmap. eapply Forall_impl; [exact Hcs|]. intros e (? & ? & _). by repeat constructor. }
  intros r s1 [H1 H2]. apply post_ret. cbn [fst snd]. split.
  - intros -> _. cbn in Er. injection Er as <-. destruct H1 as [->|(p' & es & ->%list_elem_of_singleton & Hc)]; [by left|]. right. by exists es.
  - intros es E. destruct (H2 es E) as [Hok Hno]. split; [done|]. intros [_ Hn]%Hno. exists cs. split_and!; [done|done| |].
    + intros es'. apply Hn, elem_of_app. right. by left.
    + intros e es' He. apply Hn, elem_of_app. left. apply elem_of_concat. exists [waiter e; blocker e]. split; [|by left]. apply list_elem_of_fmap. by exists e.
Qed.

(** Testing a configuration once more gives the same. *)
Lemma test_procs_det orders procs : ∀ sf s s', (test_procs k t orders procs sf s).1 = (test_procs k t orders procs sf s').1.
Proof.
  induction procs as [|p procs IH]; intros sf s s'; cbn [test_procs]; [done|]. unfold mbind, M_bind. destruct (find_cycle_det orders p s s') as [E1 E2].
  destruct (FindLockCycle k t orders p s) as [r s1], (FindLockCycle k t orders p s') as [r' s1']. cbn in E1, E2. subst r'. destruct r as [[]| |]; [|apply IH|done|done].
  unfold gets. rewrite E2. case_match; [done|apply IH].
Qed.

Lemma test_configuration_det p cs n s s' : (TestConfiguration k t p cs n s).1 = (TestConfiguration k t p cs n s').1.
Proof.
  unfold TestConfiguration. case_match; [done|]. unfold run_res, mbind, M_bind. destruct (ExpandConstraints t cs) as [[orders|]| |]; [|done..].
  pose proof (test_procs_det orders (concat ((λ e, [waiter e; blocker e]) <$> cs) ++ [p]) [] s s') as E.
  destruct (test_procs _ _ _ _ _ s) as [r s1], (test_procs _ _ _ _ _ s') as [r' s1']. cbn in E. subst r'. by destruct r.
Qed.

Lemma try_edges_spec rec p cs n saved es os s0 s1 :
  (∀ e s, edge_ok e → post (rec (cs ++ [e])) s (λ r _, ∀ orders, r = Some orders → solves p orders)) →
  Forall edge_ok es → runs (TestConfiguration k t p cs n) s0 (Some es, os) s1 →
  ∀ m i s, post (try_edges k t rec p cs n saved es i m) s (λ r _, ∀ orders, r = Some orders → solves p orders).
Proof.
  intros Hrec Hes Ht m. induction m as [|m IH]; intros i s; cbn [try_edges]; [by apply post_ret|]. apply post_bind.
  apply (post_mono _ _ (λ possible _, possible = es)).
  { case_match; [|by apply post_ret]. apply post_bind. pose proof (test_configuration_det p cs n s s0) as E. rewrite Ht in E. cbn in E.
    destruct (TestConfiguration k t p cs n s) as [r s2] eqn:Er. cbn in E. subst r. eapply post_runs; [exact Er|]. cbn [fst]. rewrite Nat.eqb_refl. by apply post_ret. }
  intros possible s2 ->. destruct (es !! i) as [e|] eqn:Ei; [|by apply post_ret]. apply post_bind. eapply post_mono; [apply Hrec|].
  { rewrite Forall_forall in Hes. eapply Hes, list_elem_of_lookup_2, Ei. }
  intros [orders|] s3 Hr; [by apply post_ret|apply IH].
Qed.

Lemma check_recurse_spec fuel : ∀ p cs n s, Forall edge_ok cs → leader t p ∈ everybody → (Z.to_nat (ck_MaxBackends k) + 1 ≤ fuel + length cs)%nat → Z.of_nat (length cs) ≤ ck_MaxBackends k →
  post (DeadLockCheckRecurse k t fuel p n cs) s (λ r _, (cs = [] → n = 0 → r ≠ Some [] → ∃ es, cycle [] (leader t p) es) ∧ ∀ orders, r = Some orders → solves p orders).
Proof.
  induction fuel as [|fuel IH]; intros p cs n s Hcs Hp Hfuel Hlen; [cbn in Hfuel; lia|]. cbn [DeadLockCheckRecurse]. apply post_bind.
  destruct (test_configuration_spec p cs n s Hcs Hp) as ([[es|] os] & s1 & Hrun & H1 & H2); cbn [fst snd] in *; (eapply post_runs; [exact Hrun|]).
  2:{ apply post_ret. split; [|done]. intros Ec En _. by destruct (H1 Ec En) as [?|?]. }
  destruct (H2 es eq_refl) as [Hok Hno]. destruct es as [|e0 es]; [apply post_ret; split; [|intros orders [= <-]; by apply Hno]|].
  { intros Ec En Hne. destruct (H1 Ec En) as [[= ->]|?]; done. }
  set (edges := e0 :: es) in *. assert (cs = [] → n = 0 → ∃ es, cycle [] (leader t p) es) as Hc by (intros Ec En; by destruct (H1 Ec En)).
  case_match eqn:Hroom; [apply post_ret; split; [by intros ? ? _; apply Hc|done]|]. apply Z.leb_gt in Hroom.
  eapply post_mono; [eapply (try_edges_spec _ p cs n _ edges os s s1)|]; [|done|done|].
  - intros e s' He. eapply post_mono; [apply IH|].
    + apply Forall_app. split; [done|by apply Forall_singleton].
    + done.
    + rewrite length_app. cbn. lia.
    + rewrite length_app. cbn. lia.
    + by intros r s2 [_ ?].
  - intros r s2 Hr. split; [by intros ? ? _; apply Hc|done].
Qed.
End Whole.
End Spec.
