(* ===== verification/DeadlockCheck.v ===== *)
(** * Deadlock detection: the whole check

    The waits-for relation of a lock table, that the search walks it when there are no lock
    groups, that waking processes adds nothing to it, and the theorems on
    [DeadLockCheck]. *)

From S2P Require Import Prelude HeapTuple LockDefs LockMgr LockTable Deadlock DeadlockOrder DeadlockSpec.

(** ** Who waits for whom *)

(** In a lock with entries [ls] and the queue [queue]: [a] waits for the holder of a
    conflicting mode, and for a process before it that asks for one. *)
Definition lock_waits (ls : list PROCLOCK) (queue : list Z) (mode : Z → Z) (a b : Z) : Prop :=
  (∃ o i, o ∈ ls ∧ myProc o = b ∧ b ≠ a ∧ valid_mode i ∧ holds o i = true ∧ conflict (mode a) i = true) ∨
  (∃ pre post, queue = pre ++ a :: post ∧ b ∈ pre ∧ conflict (mode a) (mode b) = true).

(** With the queues in the order that is proposed for them. *)
Definition queue_in (t : table) (orders : list WAIT_ORDER) (l : Z) : list Z := default (waitProcs (lock t l)) (find_order orders l).
Definition waits_in (orders : list WAIT_ORDER) (t : table) (a b : Z) : Prop :=
  ∃ l, waitLock (proc t a) = Some l ∧ lock_waits (procLocks (lock t l)) (queue_in t orders l) (λ q, waitLockMode (proc t q)) a b.

Definition waits_for : table → Z → Z → Prop := waits_in [].

(** The process waits, directly or not, for itself. *)
Definition deadlocked (t : table) (p : Z) : Prop := tc (waits_for t) p p.

(** ** The search walks this relation *)

Lemma flag_comm x y : flag x y = flag y x.
Proof. unfold flag. by rewrite Z.land_comm. Qed.

Lemma hard_blocks_spec m o : hard_blocks (conflictTab m) o = true ↔ ∃ i, valid_mode i ∧ holds o i = true ∧ conflict m i = true.
Proof.
  unfold hard_blocks. rewrite existsb_exists. split.
  - intros (i & Hi & [Hh Hf]%andb_true_iff). apply list_elem_of_In, elem_of_seqZ in Hi. exists i. unfold valid_mode, numLockModes, AccessExclusiveLock in *.
    rewrite flag_lockbit in Hf by lia. split_and!; [lia|lia|done|done].
  - intros (i & Hi & Hh & Hc). exists i. unfold valid_mode, numLockModes, AccessExclusiveLock in Hi. split; [apply list_elem_of_In, elem_of_seqZ; unfold numLockModes, AccessExclusiveLock; lia|].
    rewrite Hh, flag_lockbit by lia. done.
Qed.

Lemma soft_blocks_spec t m q : valid_mode (waitLockMode (proc t q)) → soft_blocks t (conflictTab m) q = conflict m (waitLockMode (proc t q)).
Proof. intros Hv. unfold soft_blocks. rewrite flag_comm. apply flag_lockbit. unfold valid_mode in Hv. lia. Qed.

Lemma until_pre stop pre a post : (∀ x, x ∈ pre → stop x = false) → stop a = true → until stop (pre ++ a :: post) = pre.
Proof.
  intros Hpre Ha. induction pre as [|x pre IH]; cbn; [by rewrite Ha|]. rewrite (Hpre x) by by left. f_equal. apply IH. intros y Hy. apply Hpre. by right.
Qed.

Section Graph.
Variable session : Z → stream_session.
Variable t : table.
Hypothesis inv : table_inv session t.

Lemma waited_lock a l : waitLock (proc t a) = Some l → ∃ lk, tb_locks t !! l = Some lk ∧ lock t l = lk ∧ lock_ok l None None lk (tb_procs t) ∧ lock_safe session lk (tb_procs t).
Proof.
  intros Hw. destruct (waits_on_lock t session inv a l Hw) as [lk El]. exists lk. unfold lock. rewrite El. pose proof (ti_locks _ _ inv l) as T. rewrite El in T.
  destruct T as (? & ? & _). done.
Qed.

(** Where a waiting process is in its queue. *)
Lemma place_in_queue cs orders a l : orders_ok t cs orders → waitLock (proc t a) = Some l →
  NoDup (queue_in t orders l) ∧ queue_in t orders l ≡ₚ waitProcs (lock t l) ∧ ∃ pre post, queue_in t orders l = pre ++ a :: post ∧ a ∉ pre.
Proof.
  intros Ho Hw. destruct (waited_lock a l Hw) as (lk & El & E & H & _).
  assert (queue_in t orders l ≡ₚ waitProcs (lock t l)) as Hp.
  { unfold queue_in. destruct (find_order orders l) as [procs|] eqn:Ef; cbn; [|done]. apply find_order_some in Ef as (w & Hw' & <- & <-). by apply (oo_perm _ _ _ Ho). }
  assert (NoDup (queue_in t orders l)) as Hnd by (rewrite Hp, E; apply (lo_queue _ _ _ _ _ H)). split_and!; [done|done|].
  assert (a ∈ queue_in t orders l) as Ha by (rewrite Hp, E; by apply (lo_waiting _ _ _ _ _ H)).
  apply list_elem_of_split in Ha as (pre & post & Eq). exists pre, post. split; [done|]. rewrite Eq in Hnd. by apply NoDup_pre in Hnd.
Qed.

Hypothesis Hng : no_groups t.

Lemma no_leader q : leader t q = q.
Proof. unfold leader, leader_of. fold (proc t q). by rewrite (proj1 (Hng q)). Qed.

Lemma soft_ahead cs orders a l pre post b : orders_ok t cs orders → waitLock (proc t a) = Some l → queue_in t orders l = pre ++ a :: post → a ∉ pre →
  (b ∈ match find_order orders l with
       | Some procs => proposed_list t a (conflictTab (waitLockMode (proc t a))) procs
       | None => queue_list t a (conflictTab (waitLockMode (proc t a))) (last_group_member t a a (waitProcs (lock t l))) (waitProcs (lock t l))
       end ↔ b ∈ pre ∧ conflict (waitLockMode (proc t a)) (waitLockMode (proc t b)) = true).
Proof.
  intros Ho Hw Eq Ha. destruct (waited_lock a l Hw) as (lk & El & E & H & _). destruct (place_in_queue cs orders a l Ho Hw) as (_ & Hp & _).
  assert (∀ q, q ∈ pre → soft_blocks t (conflictTab (waitLockMode (proc t a))) q = conflict (waitLockMode (proc t a)) (waitLockMode (proc t q))) as Hs.
  { intros q Hq. apply soft_blocks_spec. apply (lo_waiter _ _ _ _ _ H). rewrite <- E, <- Hp, Eq. apply elem_of_app. by left. }
  unfold queue_in in Eq. destruct (find_order orders l) as [procs|]; cbn in Eq; rewrite Eq.
  - unfold proposed_list. rewrite until_pre; [|intros x Hx; rewrite no_leader; apply Z.eqb_neq; by intros ->|rewrite no_leader; by apply Z.eqb_eq].
    rewrite list_elem_of_filter. split; intros [? ?]; [rewrite <- Hs by done|rewrite Hs by done]; done.
  - unfold queue_list, last_group_member. rewrite (proj1 (Hng a)), until_pre; [|intros x Hx; apply bool_decide_eq_false; intros [= ->]; done|by apply bool_decide_eq_true].
    rewrite list_elem_of_filter, no_leader. split.
    + intros [[Hb _]%andb_true_iff Hpre]. by rewrite <- Hs.
    + intros [Hpre Hc]. split; [|done]. rewrite Hs, Hc by done. cbn. apply negb_true_iff, Z.eqb_neq. by intros ->.
Qed.

Lemma edges_waits cs orders a b : orders_ok t cs orders → ((∃ e, (b, e) ∈ edges t orders a) ↔ waits_in orders t a b).
Proof.
  intros Ho. unfold edges, members, edges_of. rewrite (proj2 (Hng a)). cbn [filter list_filter fmap list_fmap concat]. rewrite app_nil_r. unfold waits_in.
  destruct (waitLock (proc t a)) as [l|] eqn:Hw; [|split; [intros [e []%not_elem_of_nil]|by intros (l & [=] & _)]].
  destruct (place_in_queue cs orders a l Ho Hw) as (Hnd & _ & pre & post & Eq & Ha). pose proof (λ b, soft_ahead cs orders a l pre post b Ho Hw Eq Ha) as Hsoft.
  unfold member_edges, hard_list, soft_list. split.
  - intros [e [He|He]%elem_of_app]; exists l; (split; [done|]).
    + apply list_elem_of_fmap in He as (o & [= -> ->] & [[Hn Hh]%andb_true_iff Hin]%list_elem_of_filter). rewrite no_leader in Hn. apply negb_true_iff, Z.eqb_neq in Hn.
      apply hard_blocks_spec in Hh as (i & ? & ? & ?). left. by exists o, i.
    + apply list_elem_of_fmap in He as (q & [= -> ->] & Hq). apply Hsoft in Hq as [? ?]. right. by exists pre, post.
  - intros (l' & [= <-] & [(o & i & Hin & <- & Hne & Hi & Hh & Hc)|(pre' & post' & Eq' & Hb & Hc)]).
    + exists None. apply elem_of_app. left. apply list_elem_of_fmap. exists o. split; [done|]. apply list_elem_of_filter. split; [|done]. rewrite no_leader.
      apply andb_true_iff. split; [by apply negb_true_iff, Z.eqb_neq|]. apply hard_blocks_spec. by exists i.
    + rewrite Eq in Eq'. assert (pre' = pre) as ->.
      { apply (split_unique a pre' pre post' post); [|done|done]. by apply (NoDup_pre a pre' post'); rewrite <- Eq', <- Eq. }
      eexists. apply elem_of_app. right. apply list_elem_of_fmap. exists b. split; [reflexivity|]. by apply Hsoft.
Qed.

Lemma path_waits cs orders a es b : orders_ok t cs orders → epath t orders a es b → es ≠ [] → tc (waits_in orders t) a b.
Proof.
  intros Ho Hp. induction Hp as [|a q e es b He Hp IH]; intros Hne; [done|]. rewrite no_leader in Hp, IH.
  assert (waits_in orders t a q) by (apply (edges_waits cs); [done|by exists e]). destruct es; [inversion Hp; subst; by apply tc_once|]. eapply tc_l; [done|by apply IH].
Qed.

Lemma waits_path cs orders a b : orders_ok t cs orders → tc (waits_in orders t) a b → ∃ es, es ≠ [] ∧ epath t orders a es b.
Proof.
  intros Ho Ht. induction Ht as [a b Hab|a b c Hab _ (es & _ & IH)]; apply (edges_waits cs) in Hab as [e He]; try done.
  - exists [e]. split; [done|]. apply (epath_cons _ _ _ b); [done|]. rewrite no_leader. constructor.
  - exists (e :: es). split; [done|]. apply (epath_cons _ _ _ b); [done|]. by rewrite no_leader.
Qed.

Lemma cycle_waits cs orders p : orders_ok t cs orders → ((∃ es, cycle t orders (leader t p) es) ↔ tc (waits_in orders t) p p).
Proof.
  intros Ho. rewrite no_leader. split; [intros (es & Hne & Hp); by apply (path_waits cs orders p es p)|apply (waits_path cs orders p p Ho)].
Qed.

(** An edge of the proposed order that was not there before leads to a process that has
    been moved forward. *)
Lemma new_edge cs orders a b : orders_ok t cs orders → waits_in orders t a b → waits_for t a b ∨ ∃ e, e ∈ cs ∧ waiter e = b.
Proof.
  intros Ho (l & Hw & [Hh|(pre & post & Eq & Hb & Hc)]); [left; exists l; split; [done|by left]|].
  destruct (place_in_queue cs orders a l Ho Hw) as (Hnd & Hp & _). destruct (place_in_queue [] [] a l (no_orders_ok t []) Hw) as (Hnd0 & _ & pre0 & post0 & Eq0 & Ha0).
  destruct (decide (b ∈ pre0)) as [Hb0|Hb0]; [left; exists l; split; [done|]; right; by exists pre0, post0|]. right.
  unfold queue_in in *. change (find_order [] l) with (@None (list Z)) in *. cbn [from_option id] in *.
  assert (b ∈ waitProcs (lock t l)) as Hin by (rewrite <- Hp, Eq; apply elem_of_app; by left).
  assert (a ≠ b) as Hne by (intros ->; rewrite Eq in Hnd; by apply NoDup_pre in Hnd).
  assert (precedes (waitProcs (lock t l)) a b) as Hab.
  { rewrite Eq0 in Hin. apply elem_of_app in Hin as [?|[?|Hx]%elem_of_cons]; [done|done|]. apply list_elem_of_split in Hx as (y & z & ->). exists pre0, y, z. done. }
  destruct (find_order orders l) as [procs|] eqn:Ef; cbn [from_option id] in *.
  - apply find_order_some in Ef as (w & Hw' & <- & <-). apply (oo_moved _ _ _ Ho Hng w Hw' Hnd0 a b Hab). rewrite Eq. apply list_elem_of_split in Hb as (y & z & ->).
    exists y, z, post. by rewrite <- app_assoc.
  - rewrite Eq0 in Eq. destruct Hb0. rewrite Eq0 in Hnd0. assert (pre = pre0) as <-; [|done]. apply (split_unique a pre pre0 post post0); [|done|done]. apply (NoDup_pre a pre post). by rewrite <- Eq.
Qed.

Lemma tc_or {A} (R R' : A → A → Prop) (P : A → Prop) x y : (∀ a b, R a b → R' a b ∨ P b) → tc R x y → tc R' x y ∨ ∃ b, P b ∧ tc R x b ∧ rtc R b y.
Proof.
  intros H Ht. induction Ht as [x y Hxy|x y z Hxy Hyz IH]; (destruct (H _ _ Hxy) as [Hr|Hp]; [|right; exists y; split_and!; [done|by apply tc_once|]]).
  - left. by apply tc_once.
  - done.
  - destruct IH as [IH|(b & ? & ? & ?)]; [left; by eapply tc_l|]. right. exists b. split_and!; [done|by eapply tc_l|done].
  - by apply tc_rtc.
Qed.

Lemma no_new_deadlock cs orders q : orders_ok t cs orders → (∀ e es, e ∈ cs → ¬ cycle t orders (leader t (waiter e)) es) → tc (waits_in orders t) q q → deadlocked t q.
Proof.
  intros Ho Hno Hq. apply (tc_or _ (waits_for t) (λ b, ∃ e, e ∈ cs ∧ waiter e = b)) in Hq as [?|(b & (e & He & <-) & H1 & H2)]; [done| |intros a b; by apply new_edge].
  exfalso. assert (tc (waits_in orders t) (waiter e) (waiter e)) as Hc by by eapply tc_rtc_l. apply (cycle_waits cs orders _ Ho) in Hc as [es Hc]. by apply (Hno e es).
Qed.
End Graph.

(** ** Waking up adds no edges *)

Definition ahead_covers (ahead : Z) (mode : Z → Z) (pre : list Z) : Prop := ∀ q, q ∈ pre → Z.testbit ahead (mode q) = true.

Definition proc_mode (ps : procmap) (q : Z) : Z := waitLockMode (proc_of ps q).

(** A process is woken that conflicts with nobody before it. *)
Lemma grant_waits l lk ps p pre rest a b (m := proc_mode ps p) :
  lock_ok l None None lk ps → waitProcs lk = pre ++ p :: rest → (∀ q, q ∈ pre → conflict m (proc_mode ps q) = false) →
  a ∈ pre ++ rest → lock_waits (procLocks (GrantLock p m lk)) (pre ++ rest) (proc_mode ps) a b → lock_waits (procLocks lk) (waitProcs lk) (proc_mode ps) a b.
Proof.
  intros H Hq Hfree Ha. pose proof (lo_queue _ _ _ _ _ H) as Hnd. rewrite Hq in Hnd.
  assert (valid_mode m) as Hm by (apply (lo_waiter _ _ _ _ _ H); rewrite Hq; apply elem_of_app; right; by left).
  assert (a ≠ p) as Hap. { intros ->. apply NoDup_app in Hnd as (_ & Hd & [Hr _]%NoDup_cons). apply elem_of_app in Ha as [Ha|Ha]; [apply (Hd p Ha); by left|done]. }
  assert (valid_mode (proc_mode ps a)) as Hma by (apply (lo_waiter _ _ _ _ _ H); rewrite Hq; apply elem_of_app in Ha as [Ha|Ha]; apply elem_of_app; [by left|right; by right]).
  intros [(o & i & Ho & <- & Hne & Hi & Hh & Hc)|(x & y & E & Hb & Hc)].
  - apply elem_upd_list in Ho as (o0 & Ho & ->). destruct (decide (is_proc p o0)) as [Ep|]; [|left; by exists o0, i]. cbn [myProc with_hold] in *. unfold is_proc in Ep.
    rewrite holds_lor, <- holds_testbit in Hh by (unfold valid_mode in *; lia). apply orb_true_iff in Hh as [Hh|Hh%bool_decide_eq_true]; [left; by exists o0, i|]. subst i.
    right. apply elem_of_app in Ha as [Ha|Ha].
    + rewrite conflict_sym, Hfree in Hc by done. done.
    + apply list_elem_of_split in Ha as (x & y & ->). exists (pre ++ p :: x), y. rewrite Hq, Ep. split; [by rewrite <- app_assoc|]. split; [apply elem_of_app; right; by left|done].
  - right. apply app_eq_inv in E as [(z & -> & Ez)|(z & -> & Ez)].
    + destruct z as [|z0 z]; cbn in Ez.
      * rewrite app_nil_r in *. exists (x ++ [p]), y. rewrite Hq, <- app_assoc, Ez. split_and!; [done|apply elem_of_app; by left|done].
      * injection Ez as <- ->. exists x, (z ++ p :: rest). rewrite Hq, <- app_assoc. done.
    + exists (pre ++ p :: z), y. rewrite Hq, Ez, <- app_assoc. split_and!; [done| |done]. apply elem_of_app in Hb as [Hb|Hb]; apply elem_of_app; [by left|right; by right].
Qed.

Lemma lock_waits_ext ls queue mode mode' a b : (∀ q, mode' q = mode q) → lock_waits ls queue mode' a b → lock_waits ls queue mode a b.
Proof. intros E. unfold lock_waits. setoid_rewrite E. done. Qed.

Record adds_nothing (lk : LOCK) (ps : procmap) (y : lock_procs) : Prop := {
  an_mode : ∀ q, proc_mode y.2 q = proc_mode ps q;
  an_queue : ∀ q, q ∈ waitProcs y.1 → q ∈ waitProcs lk;
  an_waits : ∀ a b, a ∈ waitProcs y.1 → lock_waits (procLocks y.1) (waitProcs y.1) (proc_mode ps) a b → lock_waits (procLocks lk) (waitProcs lk) (proc_mode ps) a b;
}.

Lemma wakeup_loop_waits c l : ∀ rest pre ahead lk ps,
  lock_ok l None None lk ps → waitProcs lk = pre ++ rest → 0 ≤ ahead → ahead_covers ahead (proc_mode ps) pre → adds_nothing lk ps (wakeup_loop c rest ahead (lk, ps)).
Proof.
  induction rest as [|p rest IH]; intros pre ahead lk ps H Hq Hpos Hc; cbn [wakeup_loop]; [done|]. cbn [fst snd]. fold (proc_mode ps p). set (m := proc_mode ps p).
  assert (p ∈ waitProcs lk) as Hp by (rewrite Hq; apply elem_of_app; right; by left). destruct (lo_waiter _ _ _ _ _ H p Hp) as (Hm & _). fold (proc_mode ps p) in Hm. fold m in Hm.
  pose proof (lo_queue _ _ _ _ _ H) as Hnd. rewrite Hq in Hnd. apply NoDup_app in Hnd as (_ & Hdis & [Hpr _]%NoDup_cons). assert (p ∉ pre) as Hpp by (intros Hx; by apply (Hdis p Hx); left).
  assert (∀ q, q ∈ pre → valid_mode (proc_mode ps q)) as Hmp by (intros q Hx; apply (lo_waiter _ _ _ _ _ H); rewrite Hq; apply elem_of_app; by left).
  destruct ((Z.land (conflictTab m) ahead =? 0) && (LockCheckConflicts c ps m p lk =? STATUS_OK)) eqn:E.
  - apply andb_true_iff in E as [E%Z.eqb_eq _]. rewrite wakeup_grant. set (lk' := GrantLock p m _). set (ps' := upd_proc p _ ps).
    assert (∀ q, proc_mode ps' q = proc_mode ps q) as Em by (intros q; unfold proc_mode, ps'; rewrite proc_of_upd; by destruct (decide (q = p)) as [->|]).
    assert (waitProcs lk' = pre ++ rest) as Hq'.
    { cbn. rewrite Hq, filter_app, filter_cons, decide_False by (intros Hx; by apply Hx). by rewrite !filter_ne_all. }
    destruct (IH pre ahead lk' ps') as [W1 W2 W3]; [apply grant_ok; by apply dequeue_ok|done|done|intros q Hx; rewrite Em; by apply Hc|]. split.
    + intros q. by rewrite W1.
    + intros q Hx. apply W2 in Hx. rewrite Hq' in Hx. rewrite Hq. apply elem_of_app in Hx as [Hx|Hx]; apply elem_of_app; [by left|right; by right].
    + intros a b Ha Hw. assert (a ∈ pre ++ rest) as Hin by (rewrite <- Hq'; by apply W2). apply (grant_waits l lk ps p pre rest a b H Hq); [|done|].
      * intros q Hx. apply (proj1 (no_conflict m ahead Hm) E); [by apply Hmp|by apply Hc].
      * rewrite <- Hq'. apply (lock_waits_ext _ _ (proc_mode ps) (proc_mode ps')); [done|]. apply W3; [done|].
        by apply (lock_waits_ext _ _ (proc_mode ps') (proc_mode ps)).
  - apply (IH (pre ++ [p])); [done|by rewrite <- app_assoc| |].
    + apply Z.lor_nonneg. split; [done|]. apply Z.shiftl_nonneg. lia.
    + intros q Hx. unfold valid_mode in *. rewrite testbit_on; [|lia|apply elem_of_app in Hx as [Hx|Hx%list_elem_of_singleton]; [specialize (Hmp q Hx); lia|subst; lia]].
      apply elem_of_app in Hx as [Hx|Hx%list_elem_of_singleton]; [by rewrite Hc|]. subst. rewrite bool_decide_true by done. apply orb_true_r.
Qed.

(** ** Putting the queues into their new order *)

Lemma find_order_cons w orders l : find_order (w :: orders) l = if decide (wo_lock w = l) then Some (wo_procs w) else find_order orders l.
Proof. unfold find_order. cbn. destruct (decide (wo_lock w = l)); [done|]. by destruct (list_find _ orders) as [[]|]. Qed.

Definition applies (t : table) (w : WAIT_ORDER) : Prop := ∃ lk, tb_locks t !! wo_lock w = Some lk ∧ wo_procs w ≡ₚ waitProcs lk.

Section Apply.
Variable session : Z → stream_session.
Variable c : thread.
Hypothesis Hown : own session c.

Lemma rearrange_spec t w : table_inv session t → applies t w →
  lstep session t (rearrange c t w) ∧ (∀ w', wo_lock w' ≠ wo_lock w → applies t w' → applies (rearrange c t w) w') ∧
  ∀ orders a b, wo_lock w ∉ wo_lock <$> orders → waits_in orders (rearrange c t w) a b → waits_in (w :: orders) t a b.
Proof.
  intros I (lk & El & Hp). set (l := wo_lock w) in *. pose proof (ti_locks _ _ I l) as T. rewrite El in T. destruct T as (H & Hs & _ & _).
  pose proof (rearrange_ok l lk (tb_procs t) (wo_procs w) H Hp) as H'. unfold rearrange. fold l. assert (lock t l = lk) as Elk by (unfold lock; by rewrite El). rewrite Elk.
  set (lk1 := with_queue (wo_procs w) (waitMask lk) lk) in *.
  destruct (wakeup_ok session c l lk1 (tb_procs t) Hown H') as [W1 _ W3 _]; [by apply (safe_ext session lk _ (tb_procs t))|apply (ti_groups _ _ I)|].
  pose proof (wakeup_loop_waits c l (wo_procs w) [] 0 lk1 (tb_procs t) H' eq_refl (Z.le_refl 0)) as [A1 A2 A3]; [by intros q []%not_elem_of_nil|].
  change (wakeup_loop c (wo_procs w) 0 (lk1, tb_procs t)) with (ProcLockWakeup c (lk1, tb_procs t)) in A1, A2, A3.
  assert (lstep session t (put l (let y := ProcLockWakeup c (lk1, tb_procs t) in (Some y.1, y.2)) t)) as Hstep by by apply ls_rearrange.
  cbv zeta in Hstep. set (y := ProcLockWakeup c (lk1, tb_procs t)) in *. split; [done|]. cbn [fst snd]. split.
  - intros w' Hne (lk' & El' & Hp'). exists lk'. split; [|done]. cbn. by rewrite lookup_insert_ne.
  - intros orders a b Hno (l' & Hw & Hlw). unfold waits_in. apply (lock_waits_ext _ _ (proc_mode (tb_procs t))) in Hlw; [|exact A1].
    unfold queue_in, lock, proc in *. cbn [tb_locks tb_procs put fst snd] in *. exists l'. destruct (decide (l' = l)) as [->|Hne].
    + rewrite lookup_insert_eq in Hlw. rewrite El. rewrite find_order_cons, decide_True by done. cbn [from_option id] in *.
      assert (find_order orders l = None) as En. { destruct (find_order orders l) as [procs|] eqn:E; [|done]. apply find_order_some in E as (w' & Hw' & E & _). destruct Hno. rewrite <- E. apply list_elem_of_fmap. by exists w'. }
      rewrite En in Hlw. assert (a ∈ waitProcs y.1) as Ha by by apply (lo_waiting _ _ _ _ _ W1). split; [|by apply A3].
      apply (lo_waiting _ _ _ _ _ H). rewrite <- Hp. by apply A2.
    + rewrite lookup_insert_ne in Hlw by done. rewrite find_order_cons, decide_False by (intros E; apply Hne; symmetry; exact E). split; [|done].
      destruct (fr_proc _ _ _ W3 a) as [E|[_ [E|E]]]; congruence.
Qed.

Lemma rearrange_all orders : ∀ t, table_inv session t → NoDup (wo_lock <$> orders) → Forall (applies t) orders →
  rtc (lstep session) t (foldl (rearrange c) t orders) ∧ ∀ a b, waits_for (foldl (rearrange c) t orders) a b → waits_in orders t a b.
Proof.
  induction orders as [|w orders IH]; intros t I Hnd Hap; cbn; [split; [done|done]|]. cbn in Hnd. apply NoDup_cons in Hnd as [Hw Hnd]. apply Forall_cons in Hap as [Hw' Hap].
  destruct (rearrange_spec t w I Hw') as (Hst & Hkeep & Hwaits). destruct (IH (rearrange c t w)) as [Hr Hin].
  - by apply (lstep_inv session t).
  - done.
  - rewrite Forall_forall in *. intros w' Hin. apply Hkeep; [|by apply Hap]. intros E. apply Hw. rewrite <- E. apply list_elem_of_fmap. by exists w'.
  - split; [by eapply rtc_l|]. intros a b Hab. by apply Hwaits, Hin.
Qed.
End Apply.

Lemma tc_incl {A} (R R' : A → A → Prop) x y : (∀ a b, R a b → R' a b) → tc R x y → tc R' x y.
Proof. intros H Ht. induction Ht; [apply tc_once; auto|eapply tc_l; eauto]. Qed.

(** What a state of the check says of the process before and after. *)
Definition verdict (p : Z) (t t' : table) (st : DeadLockState) : Prop :=
  match st with
  | DS_HARD_DEADLOCK => t' = t ∧ deadlocked t p
  | DS_SOFT_DEADLOCK => deadlocked t p ∧ ¬ deadlocked t' p
  | _ => t' = t ∧ ¬ deadlocked t p
  end.

Lemma check_verdict session k c t p redist : table_inv session t → own session c → no_groups t → bounded k t → 0 ≤ p < ck_MaxBackends k →
  ∃ st t', DeadLockCheck k c t p redist = Ok (st, t') ∧ rtc (lstep session) t t' ∧ verdict p t t' st ∧ ∀ q, deadlocked t' q → deadlocked t q.
Proof.
  intros I Hown Hng Hbd Hp. assert (0 < ck_MaxBackends k) as Hmax by lia. unfold DeadLockCheck. set (s0 := {| visitedProcs := [] |}).
  assert (leader t p ∈ everybody k) as Hin by (rewrite (no_leader t Hng); apply elem_of_seqZ; lia).
  assert (orders_ok t [] []) as Ho0 by apply no_orders_ok.
  destruct (check_recurse_spec k t session I Hbd Hmax (check_fuel k) p [] 0 s0) as (r & s & Hrun & H1 & H2); [done|done|unfold check_fuel; cbn; lia|cbn; lia|].
  unfold runs in Hrun. rewrite Hrun. cbn [mbind res_bind]. pose proof (cycle_waits session t I Hng [] [] p Ho0) as Hcw. destruct r as [orders|].
  - destruct (H2 orders eq_refl) as (cs & Hcs & Ho & Hno & Hno'). destruct (rearrange_all session c Hown orders t I (oo_once _ _ _ Ho)) as [Hr Hw].
    { apply Forall_forall. intros w Hw. destruct (oo_from _ _ _ Ho w Hw) as (e & He & El). rewrite Forall_forall in Hcs. destruct (Hcs e He) as (_ & _ & [lk Hlk]). exists lk. rewrite <- El.
      split; [done|]. pose proof (oo_perm _ _ _ Ho w Hw) as Hpm. unfold lock in Hpm. by rewrite <- El, Hlk in Hpm. }
    assert (¬ deadlocked (foldl (rearrange c) t orders) p) as Hnd.
    { intros Hd. assert (tc (waits_in orders t) p p) as Ht by by eapply tc_incl. apply (cycle_waits session t I Hng cs orders p Ho) in Ht as [es Hc]. by apply (Hno es). }
    eexists _, _. split; [reflexivity|]. split_and!; [done| |].
    2:{ intros q Hq. apply (no_new_deadlock session t I Hng cs orders q Ho Hno'). by eapply tc_incl. }
    case_bool_decide as En; cbn [negb].
    + subst orders. cbn in Hnd. assert (∀ st, (st ≠ DS_SOFT_DEADLOCK → st ≠ DS_HARD_DEADLOCK → verdict p t t st)) as Hv by by intros [].
      case_match; [by apply Hv|]. case_match; [case_match|]; by apply Hv.
    + split; [|done]. apply Hcw, H1; [done|done|]. by intros [= ->].
  - assert (∃ es, cycle t [] (leader t p) es) as Hc by (by apply H1). destruct (find_cycle_spec k t [] (everybody k) p s) as (b & s' & Hf & Hb); [|done|].
    { by apply (everybody_universe k t session I Hbd Hmax []). }
    unfold runs in Hf. rewrite Hf. cbn. destruct b; [|destruct Hc as [es Hc]; by apply Hb in Hc]. eexists _, _. split_and!; [done|done|split; [done|by apply Hcw]|done].
Qed.

(** ** Theorems *)

(** Sorting a queue without lock groups answers for every list of constraints: with an
    order of the same processes in which every constraint between two of them is met and
    only waiters of a constraint come to stand before one that they were behind, or, if it
    gives up, there is no order that meets all of them. *)
Theorem topo_sort_correct session t0 t l cs :
  lock_start t0 → rtc (lstep session) t0 t → no_groups t →
  ∃ r, TopoSort t l cs = Ok r ∧
    match r with
    | Some procs => procs ≡ₚ waitProcs (lock t l) ∧ respects (waitProcs (lock t l)) cs procs ∧ moved (waitProcs (lock t l)) cs procs
    | None => ∀ procs, procs ≡ₚ waitProcs (lock t l) → ¬ respects (waitProcs (lock t l)) cs procs
    end.
Proof.
  intros H0 Hr Hng. pose proof (lock_reachable session t0 t H0 Hr) as I. apply topo_sort_spec; [done|]. unfold lock. pose proof (ti_locks _ _ I l) as T.
  destruct (tb_locks t !! l) as [lk|]; [destruct T as [T _]; apply (lo_queue _ _ _ _ _ T)|apply NoDup_nil_2].
Qed.

(** C37: The search for a cycle returns, with room for every process, and says truly whether
    there is a cycle of waits from the group of the process back to it; the soft edges it
    reports are those of one such cycle, in the order of its return. *)
Theorem find_cycle_exact session k t0 t p s :
  lock_start t0 → rtc (lstep session) t0 t → bounded k t → 0 ≤ leader t p < ck_MaxBackends k →
  ∃ b s', FindLockCycle k t [] p s = (Ok b, s') ∧
    if b then ∃ es, cycle t [] (leader t p) es ∧ softEdges s' = softs es else ∀ es, ¬ cycle t [] (leader t p) es.
Proof.
  intros H0 Hr Hb Hp. pose proof (lock_reachable session t0 t H0 Hr) as I.
  apply (find_cycle_spec k t [] (everybody k) p s); [|apply elem_of_seqZ; lia]. by apply (everybody_universe k t session I Hb ltac:(lia) []), no_orders_ok.
Qed.

(** C14: In every state that the processes can bring about without lock groups, the deadlock
    check answers. It reports a hard deadlock only if the process waits for itself, and then
    changes nothing; a soft one if it did and, with the queues rearranged and whoever can go
    on woken, no longer does; anything else only if it does not. What it does to the queues
    is a sequence of steps of the lock manager and puts no process into a deadlock. *)
Theorem deadlock_check_correct session k c t0 t p redist :
  lock_start t0 → rtc (lstep session) t0 t → own session c → no_groups t → bounded k t → 0 ≤ p < ck_MaxBackends k →
  ∃ st t', DeadLockCheck k c t p redist = Ok (st, t') ∧ rtc (lstep session) t t' ∧ verdict p t t' st ∧ ∀ q, deadlocked t' q → deadlocked t q.
Proof. intros H0 Hr. apply check_verdict. by apply (lock_reachable session t0). Qed.

(** ** Witnesses *)

Lemma no_groups_by t : map_Forall (λ _ x, lockGroupLeader x = None ∧ lockGroupMembers x = []) (tb_procs t) → no_groups t.
Proof. intros H p. unfold proc, proc_of. destruct (tb_procs t !! p) as [x|] eqn:E; [by apply (H p x)|done]. Qed.

Lemma bounded_by k t : map_Forall (λ _ lk, Forall (λ q, 0 ≤ leader t q < ck_MaxBackends k) (waitProcs lk ++ (myProc <$> procLocks lk))) (tb_locks t) → bounded k t.
Proof. intros H l lk q El Hq. pose proof (H l lk El) as Hf. rewrite Forall_forall in Hf. by apply Hf, elem_of_app. Qed.

Definition acquire_on (l p m : Z) (t : table) : table :=
  put l (LockAcquire (demo_thread p) true true false l m (tb_locks t !! l) (tb_procs t)).2 t.
Definition demo_checker (p : Z) : checker :=
  {| ck_me := p; ck_autovacuum := λ _, false; ck_redist := λ _, false; ck_MaxBackends := 5; ck_max_autovacuum := 3 |}.

(** 1 waits for 3 (lock 9), 3 for 2 (which is before it in the queue of lock 7), 2 for 1. *)
Definition five_locks (third : Z) (t : table) : table := acquire_on 9 1 ExclusiveLock (acquire_on 7 third ShareLock
  (acquire_on 7 2 ExclusiveLock (acquire_on 9 3 ExclusiveLock (acquire_on 7 1 ShareLock t)))).
Definition soft5 : table := five_locks 3 table0.

Ltac reach5 := do 5 (eapply rtc_r; [|apply (ls_acquire _ _ (demo_thread _)); [done|unfold valid_mode; by vm_compute|by vm_compute|by vm_compute]]); done.

Lemma soft5_reachable : rtc (lstep (λ _, no_streams)) table0 soft5.
Proof. reach5. Qed.

Lemma soft5_plain : no_groups soft5 ∧ bounded (demo_checker 1) soft5.
Proof. split; [apply no_groups_by|apply bounded_by]; by apply (bool_decide_unpack _); vm_compute. Qed.

Lemma soft5_result : ∃ t', DeadLockCheck (demo_checker 1) (demo_thread 1) soft5 1 None = Ok (DS_SOFT_DEADLOCK, t').
Proof. eexists. vm_compute. reflexivity. Qed.

Lemma topo_sort_correct_witness : ∃ r, TopoSort soft5 7 [{| waiter := 3; blocker := 2; elock := 7 |}] = Ok r ∧ r = Some [3; 2].
Proof.
  destruct (topo_sort_correct (λ _, no_streams) table0 soft5 7 [{| waiter := 3; blocker := 2; elock := 7 |}] table0_start soft5_reachable (proj1 soft5_plain)) as (r & Er & _).
  exists r. split; [exact Er|]. vm_compute in Er. by injection Er as <-.
Defined.

Definition no_search : cycle_search :=
  {| visitedProcs := []; deadlockDetails := []; softEdges := []; blocking_autovacuum_proc := []; blocking_redistribution_proc := None |}.

Lemma find_cycle_exact_witness : ∃ es, cycle soft5 [] 1 es ∧ softs es = [{| waiter := 3; blocker := 2; elock := 7 |}].
Proof.
  destruct (find_cycle_exact (λ _, no_streams) (demo_checker 1) table0 soft5 1 no_search table0_start soft5_reachable (proj2 soft5_plain) ltac:(by vm_compute)) as (b & s' & E & Hb).
  vm_compute in E. injection E as <- <-. destruct Hb as (es & Hc & Es). exists es. split; [exact Hc|]. symmetry. exact Es.
Defined.

Lemma demo_own : own (λ _, no_streams) (demo_thread 1).
Proof. done. Qed.

Lemma demo_place : 0 ≤ 1 < ck_MaxBackends (demo_checker 1).
Proof. by vm_compute. Qed.

Lemma deadlock_check_correct_witness : ∃ t', DeadLockCheck (demo_checker 1) (demo_thread 1) soft5 1 None = Ok (DS_SOFT_DEADLOCK, t') ∧
  rtc (lstep (λ _, no_streams)) soft5 t' ∧ deadlocked soft5 1 ∧ ¬ deadlocked t' 1.
Proof.
  destruct (deadlock_check_correct (λ _, no_streams) (demo_checker 1) (demo_thread 1) table0 soft5 1 None table0_start soft5_reachable demo_own (proj1 soft5_plain) (proj2 soft5_plain) demo_place)
    as (st & t1 & E1 & Hr & Hv & _).
  destruct soft5_result as [t' E]. assert (Ok (st, t1) = Ok (DS_SOFT_DEADLOCK, t')) as Eq by (rewrite <- E1; exact E). injection Eq as -> ->. exists t'. split; [exact E|]. split; [exact Hr|exact Hv].
Defined.

(** ** Lock groups *)

Definition in_group3 (ms : list Z) : PGPROC := {| lockGroupLeader := Some 3; lockGroupMembers := ms; waitLock := None; waitLockMode := 0; waitStatus := STATUS_OK; heldLocks := 0 |}.
Definition group30 : table := {| tb_locks := ∅; tb_procs := {[3 := in_group3 [3; 4]; 4 := in_group3 []]} |}.
Definition group35 : table := five_locks 4 group30.
Definition better_order : WAIT_ORDER := {| wo_lock := 7; wo_procs := [4; 2] |}.

(** C38: With a lock group, a deadlock that rearranging a queue would break can be reported
    as a hard one: process 4 of the group that 3 leads is behind 2 in the queue of lock 7
    and only needs to go before it, but the check says that 1 has to be cancelled; with the
    other order, which is a step of the lock manager, there is no deadlock. *)
Theorem group_soft_deadlock_missed : rtc (lstep (λ _, no_streams)) group30 group35 ∧
  DeadLockCheck (demo_checker 1) (demo_thread 1) group35 1 None = Ok (DS_HARD_DEADLOCK, group35) ∧
  lstep (λ _, no_streams) group35 (rearrange (demo_thread 1) group35 better_order) ∧
  DeadLockCheck (demo_checker 1) (demo_thread 1) (rearrange (demo_thread 1) group35 better_order) 1 None = Ok (DS_NO_DEADLOCK, rearrange (demo_thread 1) group35 better_order).
Proof.
  split_and!; [reach5|by vm_compute| |by vm_compute].
  apply (ls_rearrange (λ _, no_streams) group35 (demo_thread 1) 7 (lock group35 7) [4; 2]); [done|by vm_compute|]. change (waitProcs (lock group35 7)) with [2; 4]. constructor.
Qed.
