(* ===== verification/LwLock.v ===== *)
(** * Lightweight locks

    [src/gausskernel/storage/lmgr/lwlock.cpp]: a lock that any thread may take shared or
    exclusively, in one 64-bit word that is only changed by atomic operations: six counts of
    shared holders in a byte each (a thread uses that of its own address, so that threads
    seldom meet), the exclusive bit, which is repeated at the top of each of these bytes,
    and three flags. Who cannot have the lock queues itself, tries once more, and sleeps on
    its semaphore.

    Modelled: [LWLockAttemptLock], [LWLockQueueSelf], [LWLockDequeueSelf], [LWLockWakeup],
    [LWLockConflictsWithVar] and all functions that acquire, wait for, update, downgrade and
    release one lock, as a step function with one atomic access to shared memory per step,
    and the interleavings of any number of threads. A thread has a program counter; the
    local variables are its arguments. Memory is sequentially consistent (the accesses are
    full barriers).

    Not modelled: the limit on the number of locks of a thread, the victims of the deadlock
    monitor, tranches, statistics and reports. *)

From S2P Require Import Prelude HeapTuple.

Definition LW_FLAG_HAS_WAITERS : Z := 2 ^ 62.
Definition LW_FLAG_RELEASE_OK : Z := 2 ^ 61.
Definition LW_FLAG_LOCKED : Z := 2 ^ 60.
Definition LW_VAL_EXCLUSIVE : Z := 2 ^ 56 + 2 ^ 47 + 2 ^ 39 + 2 ^ 31 + 2 ^ 23 + 2 ^ 15 + 2 ^ 7.
Definition LW_LOCK_MASK : Z := 2 ^ 57 - 1.

Inductive LWLockMode : Type := LW_EXCLUSIVE | LW_SHARED | LW_WAIT_UNTIL_FREE.

#[global] Instance LWLockMode_eq_dec : EqDecision LWLockMode.
Proof. solve_decision. Defined.

(** The function that a thread is in, if it may have to wait. *)
Inductive lwop : Type :=
| OpAcquire (m : LWLockMode)
| OpConditional (m : LWLockMode)
| OpAcquireOrWait (m : LWLockMode)
| OpTimeout (m : LWLockMode)
| OpWaitForVar (oldval : Z).

Definition op_mode (o : lwop) : LWLockMode :=
  match o with OpAcquire m | OpConditional m | OpAcquireOrWait m | OpTimeout m => m | OpWaitForVar _ => LW_WAIT_UNTIL_FREE end.
(** In the queue. *)
Definition wait_mode (o : lwop) : LWLockMode :=
  match o with OpAcquire m | OpConditional m | OpTimeout m => m | OpAcquireOrWait _ | OpWaitForVar _ => LW_WAIT_UNTIL_FREE end.
Definition is_var (o : lwop) : bool := match o with OpWaitForVar _ => true | _ => false end.

(** What a thread does next. [second]: the attempt after queueing itself; [got]: it has the
    lock; [found]: it was still in the queue. *)
Inductive lwpc : Type :=
| Idle
| Panic
| AttemptRead (o : lwop) (second : bool)
| AttemptCas (o : lwop) (second : bool) (old : Z)
| VarState (o : lwop) (second : bool)
| VarLock (o : lwop) (second : bool)
| VarValue (o : lwop) (second : bool)
| VarUnlock (o : lwop) (second mustwait : bool)
| QueueLock (o : lwop)
| QueueFlag (o : lwop)
| QueuePush (o : lwop)
| QueueUnlock (o : lwop)
| VarReleaseOk (o : lwop)
| DeqLock (o : lwop) (got : bool)
| DeqRemove (o : lwop) (got : bool)
| DeqTest (o : lwop) (got found : bool)
| DeqClear (o : lwop) (got found : bool)
| DeqUnlock (o : lwop) (got found : bool)
| DeqReleaseOk (o : lwop) (got : bool)
| DeqSem (o : lwop) (got : bool) (extra : Z)
| Sleep (o : lwop)
| Retry (o : lwop)
| TimeoutReleaseOk (o : lwop)
| Release (m : LWLockMode)
| WakeLock
| WakeCollect
| WakeRead (wakeup : list Z) (release_ok : bool)
| WakeCas (wakeup : list Z) (release_ok : bool) (old : Z)
| WakeUp (wakeup : list Z)
| WakeSem (q : Z) (wakeup : list Z)
| DownRead
| DownCas (old : Z)
| DownSub
| UpdLock (v : Z)
| UpdCollect (v : Z)
| UpdUnlock (wakeup : list Z)
| ClearLock (v : Z)
| ClearValue (v : Z)
| ClearUnlock.

(** A thread: [lp_held] is its entry in [held_lwlocks], [extraWaits] the signals absorbed. *)
Record lwproc := {
  lp_pc : lwpc;
  lwWaiting : bool;
  lwWaitMode : LWLockMode;
  lp_sem : Z;
  extraWaits : Z;
  lp_held : option LWLockMode;
}.

(** The lock, the variable it protects for [LWLockWaitForVar], and the threads. *)
Record lwcfg := {
  lw_state : Z;
  lw_waiters : list Z;
  lw_val : Z;
  lw_procs : Z → lwproc;
}.

Definition at_pc (pc : lwpc) (x : lwproc) : lwproc := {| lp_pc := pc; lwWaiting := lwWaiting x; lwWaitMode := lwWaitMode x; lp_sem := lp_sem x; extraWaits := extraWaits x; lp_held := lp_held x |}.
Definition with_lwwait (b : bool) (m : LWLockMode) (x : lwproc) : lwproc := {| lp_pc := lp_pc x; lwWaiting := b; lwWaitMode := m; lp_sem := lp_sem x; extraWaits := extraWaits x; lp_held := lp_held x |}.
Definition with_sem (n e : Z) (x : lwproc) : lwproc := {| lp_pc := lp_pc x; lwWaiting := lwWaiting x; lwWaitMode := lwWaitMode x; lp_sem := n; extraWaits := e; lp_held := lp_held x |}.
Definition with_lwheld (h : option LWLockMode) (x : lwproc) : lwproc := {| lp_pc := lp_pc x; lwWaiting := lwWaiting x; lwWaitMode := lwWaitMode x; lp_sem := lp_sem x; extraWaits := extraWaits x; lp_held := h |}.

Definition on_proc (p : Z) (f : lwproc → lwproc) (c : lwcfg) : lwcfg := {| lw_state := lw_state c; lw_waiters := lw_waiters c; lw_val := lw_val c;
  lw_procs := λ q, if q =? p then f (lw_procs c q) else lw_procs c q |}.
Definition goto (p : Z) (pc : lwpc) : lwcfg → lwcfg := on_proc p (at_pc pc).
Definition with_word (w : Z) (c : lwcfg) : lwcfg := {| lw_state := w; lw_waiters := lw_waiters c; lw_val := lw_val c; lw_procs := lw_procs c |}.
Definition with_waiters (l : list Z) (c : lwcfg) : lwcfg := {| lw_state := lw_state c; lw_waiters := l; lw_val := lw_val c; lw_procs := lw_procs c |}.
Definition with_val (v : Z) (c : lwcfg) : lwcfg := {| lw_state := lw_state c; lw_waiters := lw_waiters c; lw_val := v; lw_procs := lw_procs c |}.

(** The end of a function: the absorbed signals are given back. *)
Definition finish (p : Z) (h : option LWLockMode) (c : lwcfg) : lwcfg :=
  on_proc p (λ x, with_lwheld h (with_sem (lp_sem x + extraWaits x) 0 (at_pc Idle x))) c.

(** ** The word *)

Definition set_flag (f w : Z) : Z := Z.lor w f.
Definition drop_flag (f w : Z) : Z := Z.land w (lnotw 64 f).

(** Byte [i] of the word in memory. *)
Definition byte_of (i w : Z) : Z := u8 (Z.shiftr w (8 * i)).
Definition put_byte (i b w : Z) : Z := w + (b - byte_of i w) * 2 ^ (8 * i).

(** ** The functions that may wait *)

(** What a function is told: an attempt has failed or succeeded, [LWLockDequeueSelf] has
    returned, somebody has woken it, [LWLockConflictsWithVar] has returned false or true.
    What it does then: it goes on, or returns with or without the lock. *)
Inductive lwreply : Type :=
| Failed (second : bool)
| Got (second : bool)
| Left (got : bool)
| Awake
| NoConflict (second : bool)
| Conflict (second : bool).
Inductive lwnext : Type := Goto (pc : lwpc) | Return (held : option LWLockMode).

Definition LWLockAcquire (mode : LWLockMode) (r : lwreply) : lwnext :=
  let o := OpAcquire mode in
  match r with
  | Failed second => Goto (if second then Sleep o else QueueLock o)
  | Got true => Goto (DeqLock o true)
  | Awake => Goto (Retry o)
  | _ => Return (Some mode)
  end.

(** Out of the queue without the lock: the time is over. *)
Definition LWLockAcquireTimeout (mode : LWLockMode) (r : lwreply) : lwnext :=
  let o := OpTimeout mode in
  match r with
  | Failed second => Goto (if second then Sleep o else QueueLock o)
  | Got true => Goto (DeqLock o true)
  | Left false => Goto (TimeoutReleaseOk o)
  | Awake => Goto (Retry o)
  | _ => Return (Some mode)
  end.

Definition LWLockConditionalAcquire (mode : LWLockMode) (r : lwreply) : lwnext :=
  match r with Got _ => Return (Some mode) | _ => Return None end.

Definition LWLockAcquireOrWait (mode : LWLockMode) (r : lwreply) : lwnext :=
  let o := OpAcquireOrWait mode in
  match r with
  | Failed second => Goto (if second then Sleep o else QueueLock o)
  | Got true => Goto (DeqLock o true)
  | Awake => Return None
  | _ => Return (Some mode)
  end.

Definition LWLockWaitForVar (oldval : Z) (r : lwreply) : lwnext :=
  let o := OpWaitForVar oldval in
  match r with
  | Conflict second => Goto (if second then Sleep o else QueueLock o)
  | NoConflict true => Goto (DeqLock o false)
  | Awake => Goto (VarState o false)
  | _ => Return None
  end.

Definition reply (o : lwop) (r : lwreply) : lwnext :=
  match o with
  | OpAcquire m => LWLockAcquire m r
  | OpConditional m => LWLockConditionalAcquire m r
  | OpAcquireOrWait m => LWLockAcquireOrWait m r
  | OpTimeout m => LWLockAcquireTimeout m r
  | OpWaitForVar v => LWLockWaitForVar v r
  end.

Definition continue (p : Z) (o : lwop) (r : lwreply) (c : lwcfg) : lwcfg :=
  match reply o r with Goto pc => goto p pc c | Return h => finish p h c end.

(** The count that a thread uses, by the address of its data. *)
Definition LOCK_THREADID_MASK (t_thrd : Z) : Z := Z.shiftr t_thrd 20 mod 6.

Section LwLock.
(** [LOCK_THREADID_MASK] *)
Variable mask_id : Z → Z.

Definition ref_one (p : Z) : Z := 2 ^ (8 * mask_id p).

(** The thread must wait if the word was [old]. *)
Definition attempt_fails (p : Z) (m : LWLockMode) (old : Z) : bool :=
  match m with
  | LW_SHARED => flag old LW_VAL_EXCLUSIVE || flag (u64 (old + ref_one p)) LW_VAL_EXCLUSIVE
  | _ => flag old LW_LOCK_MASK
  end.

(** The compare-and-exchange on [w]: the new word, or what has been seen instead of [old]. *)
Definition attempt_cas (p : Z) (m : LWLockMode) (old w : Z) : Z + Z :=
  match m with
  | LW_SHARED =>
      if byte_of (mask_id p) w =? byte_of (mask_id p) old
      then inl (put_byte (mask_id p) (byte_of (mask_id p) (u64 (old + ref_one p))) w)
      else inr (put_byte (mask_id p) (byte_of (mask_id p) w) old)
  | _ => if w =? old then inl (u64 (old + LW_VAL_EXCLUSIVE)) else inr w
  end.

(** What the word [old] means for the attempt. *)
Definition attempt_next (p : Z) (o : lwop) (second : bool) (old : Z) (c : lwcfg) : lwcfg :=
  if attempt_fails p (op_mode o) old then continue p o (Failed second) c else goto p (AttemptCas o second old) c.

(** The spinlock on the list of waiters: [None] while another thread has it. *)
Definition list_lock (p : Z) (pc : lwpc) (c : lwcfg) : option lwcfg :=
  if flag (lw_state c) LW_FLAG_LOCKED then None else Some (goto p pc (with_word (set_flag LW_FLAG_LOCKED (lw_state c)) c)).
Definition list_unlock (c : lwcfg) : lwcfg := with_word (drop_flag LW_FLAG_LOCKED (lw_state c)) c.

(** Who is taken off the queue: the waiters to wake, those that stay, [new_release_ok]. *)
Fixpoint collect (mode : Z → LWLockMode) (wokeup_somebody : bool) (ws : list Z) : list Z * list Z * bool :=
  match ws with
  | [] => ([], [], true)
  | q :: ws =>
      match mode q with
      | LW_EXCLUSIVE =>
          if wokeup_somebody then let '(wk, rest, ok) := collect mode true ws in (wk, q :: rest, ok)
          else ([q], ws, false)
      | LW_SHARED => let '(wk, rest, _) := collect mode true ws in (q :: wk, rest, false)
      | LW_WAIT_UNTIL_FREE => let '(wk, rest, ok) := collect mode wokeup_somebody ws in (q :: wk, rest, ok)
      end
  end.

Definition wake_word (wakeup : list Z) (release_ok : bool) (old : Z) : Z :=
  let w := if release_ok then set_flag LW_FLAG_RELEASE_OK old else drop_flag LW_FLAG_RELEASE_OK old in
  let w := if bool_decide (wakeup = []) then drop_flag LW_FLAG_HAS_WAITERS w else w in
  drop_flag LW_FLAG_LOCKED w.

(** The waiters at the front that wait for the lock to become free. *)
Fixpoint front_waiters (mode : Z → LWLockMode) (ws : list Z) : list Z * list Z :=
  match ws with
  | [] => ([], [])
  | q :: ws => if bool_decide (mode q = LW_WAIT_UNTIL_FREE) then let '(wk, rest) := front_waiters mode ws in (q :: wk, rest) else ([], q :: ws)
  end.

(** Both flags are set: somebody waits and nobody has been woken in vain. *)
Definition has_both (w : Z) : bool := flag w LW_FLAG_HAS_WAITERS && flag w LW_FLAG_RELEASE_OK.

Definition release_val (p : Z) (m : LWLockMode) : Z := match m with LW_EXCLUSIVE => LW_VAL_EXCLUSIVE | _ => ref_one p end.

(** ** Steps

    Each function: what the thread does at one of its points, or [None] if it is blocked
    there. *)

(** The read before the loop, and the compare-and-exchange. *)
Definition LWLockAttemptLock (p : Z) (c : lwcfg) : option lwcfg :=
  let w := lw_state c in
  match lp_pc (lw_procs c p) with
  | AttemptRead o second => Some (attempt_next p o second w c)
  | AttemptCas o second old =>
      match attempt_cas p (op_mode o) old w with
      | inl w' => Some (continue p o (Got second) (with_word w' c))
      | inr old' => Some (attempt_next p o second old' c)
      end
  | _ => None
  end.

(** Whether the variable still has the old value, while a thread holds the lock exclusively. *)
Definition LWLockConflictsWithVar (p : Z) (c : lwcfg) : option lwcfg :=
  let w := lw_state c in
  match lp_pc (lw_procs c p) with
  | VarState o second => Some (if flag w LW_VAL_EXCLUSIVE then goto p (VarLock o second) c else continue p o (NoConflict second) c)
  | VarLock o second => list_lock p (VarValue o second) c
  | VarValue o second => Some (goto p (VarUnlock o second (match o with OpWaitForVar v => lw_val c =? v | _ => false end)) c)
  | VarUnlock o second mustwait => Some (if mustwait then continue p o (Conflict second) (list_unlock c) else continue p o (NoConflict second) (list_unlock c))
  | _ => None
  end.

(** [LWLockQueueSelf]; [LWLockWaitForVar] then allows wakeups. *)
Definition LWLockQueueSelf (p : Z) (c : lwcfg) : option lwcfg :=
  let w := lw_state c in
  match lp_pc (lw_procs c p) with
  | QueueLock o => if lwWaiting (lw_procs c p) then Some (goto p Panic c) else list_lock p (QueueFlag o) c
  | QueueFlag o => Some (goto p (QueuePush o) (with_word (set_flag LW_FLAG_HAS_WAITERS w) c))
  | QueuePush o =>
      Some (goto p (QueueUnlock o) (on_proc p (with_lwwait true (wait_mode o))
        (with_waiters (match wait_mode o with LW_WAIT_UNTIL_FREE => p :: lw_waiters c | _ => lw_waiters c ++ [p] end) c)))
  | QueueUnlock o => Some (goto p (if is_var o then VarReleaseOk o else AttemptRead o true) (list_unlock c))
  | VarReleaseOk o => Some (goto p (VarState o true) (with_word (set_flag LW_FLAG_RELEASE_OK w) c))
  | _ => None
  end.

(** [LWLockDequeueSelf] *)
Definition LWLockDequeueSelf (p : Z) (c : lwcfg) : option lwcfg :=
  let x := lw_procs c p in
  let w := lw_state c in
  match lp_pc (lw_procs c p) with
  | DeqLock o got => list_lock p (DeqRemove o got) c
  | DeqRemove o got =>
      let found := bool_decide (p ∈ lw_waiters c) in
      let ws := filter (λ q, q ≠ p) (lw_waiters c) in
      Some (goto p (if bool_decide (ws = []) then DeqTest o got found else DeqUnlock o got found) (with_waiters ws c))
  | DeqTest o got found => Some (goto p (if flag w LW_FLAG_HAS_WAITERS then DeqClear o got found else DeqUnlock o got found) c)
  | DeqClear o got found => Some (goto p (DeqUnlock o got found) (with_word (drop_flag LW_FLAG_HAS_WAITERS w) c))
  | DeqUnlock o got found =>
      Some (if found then continue p o (Left got) (on_proc p (λ x, with_lwwait false (lwWaitMode x) x) (list_unlock c))
            else goto p (DeqReleaseOk o got) (list_unlock c))
  | DeqReleaseOk o got => Some (goto p (DeqSem o got 0) (with_word (set_flag LW_FLAG_RELEASE_OK w) c))
  | DeqSem o got extra =>
      if lp_sem x <=? 0 then None
      else Some (if lwWaiting x then goto p (DeqSem o got (extra + 1)) (on_proc p (with_sem (lp_sem x - 1) (extraWaits x)) c)
                 else continue p o (Left got) (on_proc p (with_sem (lp_sem x - 1 + extra) (extraWaits x)) c))
  | _ => None
  end.

(** Waiting for the semaphore, and what follows it. *)
Definition lw_wait (p : Z) (c : lwcfg) : option lwcfg :=
  let x := lw_procs c p in
  let w := lw_state c in
  match lp_pc (lw_procs c p) with
  | Sleep o =>
      if lp_sem x <=? 0 then None
      else Some (if lwWaiting x then on_proc p (with_sem (lp_sem x - 1) (extraWaits x + 1)) c
                 else continue p o Awake (on_proc p (with_sem (lp_sem x - 1) (extraWaits x)) c))
  | Retry o => Some (goto p (AttemptRead o false) (with_word (set_flag LW_FLAG_RELEASE_OK w) c))
  | TimeoutReleaseOk o => Some (finish p None (with_word (set_flag LW_FLAG_RELEASE_OK w) c))
  | _ => None
  end.

(** [LWLockRelease] *)
Definition LWLockRelease (p : Z) (c : lwcfg) : option lwcfg :=
  let w := lw_state c in
  match lp_pc (lw_procs c p) with
  | Release m =>
      let w' := u64 (w - release_val p m) in
      Some (goto p (if has_both w' && negb (flag w' LW_LOCK_MASK) then WakeLock else Idle) (with_word w' c))
  | _ => None
  end.

(** [LWLockWakeup]; [LWLockUpdateVar] ends in the same way. *)
Definition LWLockWakeup (p : Z) (c : lwcfg) : option lwcfg :=
  let w := lw_state c in
  let mode q := lwWaitMode (lw_procs c q) in
  match lp_pc (lw_procs c p) with
  | WakeLock => list_lock p WakeCollect c
  | WakeCollect =>
      let '(wk, rest, ok) := collect mode false (lw_waiters c) in
      Some (goto p (WakeRead wk ok) (with_waiters rest c))
  | WakeRead wk ok => Some (goto p (WakeCas wk ok w) c)
  | WakeCas wk ok old =>
      Some (if w =? old then goto p (WakeUp wk) (with_word (wake_word wk ok old) c) else goto p (WakeCas wk ok w) c)
  | WakeUp [] => Some (goto p Idle c)
  | WakeUp (q :: wk) => Some (goto p (WakeSem q wk) (on_proc q (λ y, with_lwwait false (lwWaitMode y) y) c))
  | WakeSem q wk => Some (goto p (WakeUp wk) (on_proc q (λ y, with_sem (lp_sem y + 1) (extraWaits y) y) c))
  | _ => None
  end.

(** [LWLockDowngrade] *)
Definition LWLockDowngrade (p : Z) (c : lwcfg) : option lwcfg :=
  let w := lw_state c in
  match lp_pc (lw_procs c p) with
  | DownRead => Some (goto p (DownCas w) c)
  | DownCas old =>
      match attempt_cas p LW_SHARED old w with
      | inl w' => Some (goto p DownSub (with_word w' c))
      | inr old' => Some (goto p (DownCas old') c)
      end
  | DownSub =>
      let w' := u64 (w - LW_VAL_EXCLUSIVE) in
      Some (goto p (if has_both w' then WakeLock else Idle) (on_proc p (with_lwheld (Some LW_SHARED)) (with_word w' c)))
  | _ => None
  end.

(** [LWLockUpdateVar] *)
Definition LWLockUpdateVar (p : Z) (c : lwcfg) : option lwcfg :=
  let mode q := lwWaitMode (lw_procs c q) in
  match lp_pc (lw_procs c p) with
  | UpdLock v => list_lock p (UpdCollect v) c
  | UpdCollect v =>
      let '(wk, rest) := front_waiters mode (lw_waiters c) in
      Some (goto p (UpdUnlock wk) (with_waiters rest (with_val v c)))
  | UpdUnlock wk => Some (goto p (WakeUp wk) (list_unlock c))
  | _ => None
  end.

(** [LWLockReleaseClearVar] *)
Definition LWLockReleaseClearVar (p : Z) (c : lwcfg) : option lwcfg :=
  match lp_pc (lw_procs c p) with
  | ClearLock v => list_lock p (ClearValue v) c
  | ClearValue v => Some (goto p ClearUnlock (with_val v c))
  | ClearUnlock => Some (goto p (Release LW_EXCLUSIVE) (on_proc p (with_lwheld None) (list_unlock c)))
  | _ => None
  end.

(** One step of a thread: [None] if it is blocked, or has nothing to do. *)
Definition lw_run (p : Z) (c : lwcfg) : option lwcfg :=
  match lp_pc (lw_procs c p) with
  | Idle | Panic => None
  | AttemptRead _ _ | AttemptCas _ _ _ => LWLockAttemptLock p c
  | VarState _ _ | VarLock _ _ | VarValue _ _ | VarUnlock _ _ _ => LWLockConflictsWithVar p c
  | QueueLock _ | QueueFlag _ | QueuePush _ | QueueUnlock _ | VarReleaseOk _ => LWLockQueueSelf p c
  | DeqLock _ _ | DeqRemove _ _ | DeqTest _ _ _ | DeqClear _ _ _ | DeqUnlock _ _ _ | DeqReleaseOk _ _ | DeqSem _ _ _ => LWLockDequeueSelf p c
  | Sleep _ | Retry _ | TimeoutReleaseOk _ => lw_wait p c
  | Release _ => LWLockRelease p c
  | WakeLock | WakeCollect | WakeRead _ _ | WakeCas _ _ _ | WakeUp _ | WakeSem _ _ => LWLockWakeup p c
  | DownRead | DownCas _ | DownSub => LWLockDowngrade p c
  | UpdLock _ | UpdCollect _ | UpdUnlock _ => LWLockUpdateVar p c
  | ClearLock _ | ClearValue _ | ClearUnlock => LWLockReleaseClearVar p c
  end.

(** ** Threads interleaved *)

Definition lock_mode (m : LWLockMode) : Prop := m = LW_EXCLUSIVE ∨ m = LW_SHARED.
Definition op_ok (timed : bool) (o : lwop) : Prop :=
  match o with
  | OpAcquire m | OpConditional m | OpAcquireOrWait m => lock_mode m
  | OpTimeout m => timed = true ∧ lock_mode m
  | OpWaitForVar _ => True
  end.
Definition start_pc (o : lwop) : lwpc := if is_var o then VarState o false else AttemptRead o false.

(** [threads]: all there are; [timed]: whether any of them uses [LWLockAcquireTimeout]. A
    thread that does not hold the lock calls a function that may take it or waits for it; a
    holder releases it (without or with setting the variable), and an exclusive holder may
    downgrade it or update the variable. Semaphores are also signalled for other reasons,
    and a time limit may pass: then the thread takes itself off the queue, and counts the
    wait as a signal unless it has been woken. *)
Inductive lw_step (threads : list Z) (timed : bool) : lwcfg → lwcfg → Prop :=
| lws_run p c c' : p ∈ threads → lw_run p c = Some c' → lw_step threads timed c c'
| lws_call p o c : p ∈ threads → lp_pc (lw_procs c p) = Idle → lp_held (lw_procs c p) = None → op_ok timed o → lw_step threads timed c (goto p (start_pc o) c)
| lws_release p m c : p ∈ threads → lp_pc (lw_procs c p) = Idle → lp_held (lw_procs c p) = Some m →
    lw_step threads timed c (goto p (Release m) (on_proc p (with_lwheld None) c))
| lws_clear p v c : p ∈ threads → lp_pc (lw_procs c p) = Idle → lp_held (lw_procs c p) = Some LW_EXCLUSIVE → lw_step threads timed c (goto p (ClearLock v) c)
| lws_update p v c : p ∈ threads → lp_pc (lw_procs c p) = Idle → lp_held (lw_procs c p) = Some LW_EXCLUSIVE → lw_step threads timed c (goto p (UpdLock v) c)
| lws_downgrade p c : p ∈ threads → lp_pc (lw_procs c p) = Idle → lp_held (lw_procs c p) = Some LW_EXCLUSIVE → lw_step threads timed c (goto p DownRead c)
| lws_signal p c : p ∈ threads → lw_step threads timed c (on_proc p (λ x, with_sem (lp_sem x + 1) (extraWaits x) x) c)
| lws_timeout p m c : p ∈ threads → lp_pc (lw_procs c p) = Sleep (OpTimeout m) →
    lw_step threads timed c (goto p (DeqLock (OpTimeout m) false)
      (on_proc p (λ x, with_sem (lp_sem x) (if lwWaiting x then extraWaits x + 1 else extraWaits x) x) c)).

(** [LWLockInitialize]; nobody holds the lock or waits. *)
Definition lw_start (c : lwcfg) : Prop :=
  lw_state c = LW_FLAG_RELEASE_OK ∧ lw_waiters c = [] ∧
  ∀ p, lp_pc (lw_procs c p) = Idle ∧ lp_held (lw_procs c p) = None ∧ lwWaiting (lw_procs c p) = false ∧ 0 ≤ lp_sem (lw_procs c p) ∧ extraWaits (lw_procs c p) = 0.
End LwLock.
