(* ===== verification/LwWord.v ===== *)
(** * The word of a lightweight lock

    The word as a record of fields, and what each atomic operation does to the fields. *)

From S2P Require Import Prelude HeapTuple LwLock.

(** The exclusive bit with its copies, the six counts, and the flags. *)
Record fields := { f_excl : bool; f_count : Z → Z; f_waiters : bool; f_release_ok : bool; f_locked : bool }.

Definition counts (n : Z → Z) : Z := n 0 + n 1 * 2 ^ 8 + n 2 * 2 ^ 16 + n 3 * 2 ^ 24 + n 4 * 2 ^ 32 + n 5 * 2 ^ 40.
Definition word (f : fields) : Z :=
  Z.b2z (f_excl f) * LW_VAL_EXCLUSIVE + counts (f_count f) +
  Z.b2z (f_locked f) * LW_FLAG_LOCKED + Z.b2z (f_release_ok f) * LW_FLAG_RELEASE_OK + Z.b2z (f_waiters f) * LW_FLAG_HAS_WAITERS.

(** A count stays below the copy of the exclusive bit. *)
Definition counts_ok (n : Z → Z) : Prop := ∀ i, 0 ≤ i < 6 → 0 ≤ n i < 128.

Definition bump (i d : Z) (n : Z → Z) : Z → Z := λ j, if j =? i then n j + d else n j.

Definition f_set_excl b f := {| f_excl := b; f_count := f_count f; f_waiters := f_waiters f; f_release_ok := f_release_ok f; f_locked := f_locked f |}.
Definition f_set_count n f := {| f_excl := f_excl f; f_count := n; f_waiters := f_waiters f; f_release_ok := f_release_ok f; f_locked := f_locked f |}.
Definition f_set_waiters b f := {| f_excl := f_excl f; f_count := f_count f; f_waiters := b; f_release_ok := f_release_ok f; f_locked := f_locked f |}.
Definition f_set_release b f := {| f_excl := f_excl f; f_count := f_count f; f_waiters := f_waiters f; f_release_ok := b; f_locked := f_locked f |}.
Definition f_set_locked b f := {| f_excl := f_excl f; f_count := f_count f; f_waiters := f_waiters f; f_release_ok := f_release_ok f; f_locked := b |}.

Lemma b2z_range b : 0 ≤ Z.b2z b ≤ 1.
Proof. destruct b; cbn; lia. Qed.

(** The facts that linear arithmetic needs of a word. *)
Ltac word_facts f H :=
  pose proof (b2z_range (f_excl f)); pose proof (b2z_range (f_locked f)); pose proof (b2z_range (f_release_ok f)); pose proof (b2z_range (f_waiters f));
  pose proof (H 0 ltac:(lia)); pose proof (H 1 ltac:(lia)); pose proof (H 2 ltac:(lia)); pose proof (H 3 ltac:(lia)); pose proof (H 4 ltac:(lia)); pose proof (H 5 ltac:(lia)).

Ltac word_lia := unfold word, counts, LW_VAL_EXCLUSIVE, LW_FLAG_LOCKED, LW_FLAG_RELEASE_OK, LW_FLAG_HAS_WAITERS, LW_LOCK_MASK in *; cbn [f_excl f_count f_waiters f_release_ok f_locked] in *;
  Z.to_euclidean_division_equations; lia.

Section Word.
Variable f : fields.
Hypothesis Hf : counts_ok (f_count f).

Lemma word_range : 0 ≤ word f < 2 ^ 63.
Proof. word_facts f Hf. word_lia. Qed.

Lemma flag_bit w k : 0 ≤ k → flag w (2 ^ k) = Z.testbit w k.
Proof. intros Hk. unfold flag. rewrite land_flag by done. destruct (Z.testbit w k); [|done]. apply negb_true_iff, Z.eqb_neq. pose proof (Z.pow_pos_nonneg 2 k). lia. Qed.

Lemma b2z_inj b b' : Z.b2z b = Z.b2z b' → b = b'.
Proof. by destruct b, b'. Qed.

Lemma bit_div w k b : 0 ≤ k → (w / 2 ^ k) mod 2 = Z.b2z b → Z.testbit w k = b.
Proof. intros Hk E. apply b2z_inj. by rewrite Z.testbit_spec'. Qed.

Lemma bit_waiters : Z.testbit (word f) 62 = f_waiters f.
Proof. apply bit_div; [lia|]. word_facts f Hf. word_lia. Qed.
Lemma bit_release : Z.testbit (word f) 61 = f_release_ok f.
Proof. apply bit_div; [lia|]. word_facts f Hf. word_lia. Qed.
Lemma bit_locked : Z.testbit (word f) 60 = f_locked f.
Proof. apply bit_div; [lia|]. word_facts f Hf. word_lia. Qed.

Lemma bit_excl k : k ∈ [56; 47; 39; 31; 23; 15; 7] → Z.testbit (word f) k = f_excl f.
Proof.
  intros Hk. word_facts f Hf. repeat (apply elem_of_cons in Hk as [->|Hk]; [apply bit_div; [lia|]; word_lia|]). by apply not_elem_of_nil in Hk.
Qed.

Lemma flag_excl : flag (word f) LW_VAL_EXCLUSIVE = f_excl f.
Proof.
  unfold flag. change LW_VAL_EXCLUSIVE with (Z.lor (2 ^ 56) (Z.lor (2 ^ 47) (Z.lor (2 ^ 39) (Z.lor (2 ^ 31) (Z.lor (2 ^ 23) (Z.lor (2 ^ 15) (2 ^ 7))))))).
  rewrite !Z.land_lor_distr_r, !land_flag by lia. rewrite !bit_excl by (apply (bool_decide_unpack _); by vm_compute). by destruct (f_excl f).
Qed.

Lemma flag_mask : flag (word f) LW_LOCK_MASK = false ↔ f_excl f = false ∧ ∀ i, 0 ≤ i < 6 → f_count f i = 0.
Proof.
  unfold flag, LW_LOCK_MASK. rewrite land_mask_mod by lia. rewrite negb_false_iff, Z.eqb_eq. word_facts f Hf.
  assert (word f mod 2 ^ 57 = Z.b2z (f_excl f) * LW_VAL_EXCLUSIVE + counts (f_count f)) as -> by word_lia. split.
  - intros E. assert (Z.b2z (f_excl f) = 0 ∧ f_count f 0 = 0 ∧ f_count f 1 = 0 ∧ f_count f 2 = 0 ∧ f_count f 3 = 0 ∧ f_count f 4 = 0 ∧ f_count f 5 = 0) as (E0 & ?) by (unfold counts, LW_VAL_EXCLUSIVE in E; lia).
    split; [by destruct (f_excl f)|]. intros i Hi. assert (i = 0 ∨ i = 1 ∨ i = 2 ∨ i = 3 ∨ i = 4 ∨ i = 5) as [->|[->|[->|[->|[->| ->]]]]] by lia; tauto.
  - intros [-> E]. unfold counts. rewrite !E by lia. done.
Qed.

Lemma lor_bit w k : 0 ≤ k → Z.lor w (2 ^ k) = w + (if Z.testbit w k then 0 else 2 ^ k).
Proof.
  intros Hk. destruct (Z.testbit w k) eqn:E.
  - rewrite Z.add_0_r. apply Z.bits_inj'. intros i Hi. rewrite Z.lor_spec, Z.pow2_bits_eqb by done. destruct (Z.eqb_spec k i) as [<-|]; [by rewrite E|by rewrite orb_false_r].
  - rewrite Z.add_nocarry_lxor.
    + apply Z.bits_inj'. intros i Hi. rewrite Z.lor_spec, Z.lxor_spec, Z.pow2_bits_eqb by done. destruct (Z.eqb_spec k i) as [<-|]; [by rewrite E|by rewrite orb_false_r, xorb_false_r].
    + by rewrite land_flag, E by done.
Qed.

Lemma clear_bit w k : 0 ≤ w < 2 ^ 64 → 0 ≤ k < 64 → drop_flag (2 ^ k) w = w - (if Z.testbit w k then 2 ^ k else 0).
Proof.
  intros Hw Hk. unfold drop_flag, lnotw. assert (Z.land w (Z.land (Z.lnot (2 ^ k)) (Z.ones 64)) = Z.ldiff w (2 ^ k)) as ->.
  { rewrite (Z.land_comm (Z.lnot _)), Z.land_assoc, Z.land_ones, Z.mod_small by lia. by rewrite Z.ldiff_land. }
  destruct (Z.testbit w k) eqn:E.
  - rewrite Z.sub_nocarry_ldiff; [done|]. apply Z.bits_inj'. intros i Hi. rewrite Z.ldiff_spec, Z.pow2_bits_eqb, Z.bits_0 by lia. destruct (Z.eqb_spec k i) as [<-|]; [by rewrite E|done].
  - rewrite Z.sub_0_r. apply Z.bits_inj'. intros i Hi. rewrite Z.ldiff_spec, Z.pow2_bits_eqb by lia. destruct (Z.eqb_spec k i) as [<-|]; [by rewrite E|by rewrite andb_true_r].
Qed.

Lemma set_waiters : set_flag LW_FLAG_HAS_WAITERS (word f) = word (f_set_waiters true f).
Proof. unfold set_flag, LW_FLAG_HAS_WAITERS. rewrite lor_bit, bit_waiters by lia. unfold word, LW_FLAG_HAS_WAITERS. cbn. destruct (f_waiters f); cbn [Z.b2z]; lia. Qed.
Lemma set_release : set_flag LW_FLAG_RELEASE_OK (word f) = word (f_set_release true f).
Proof. unfold set_flag, LW_FLAG_RELEASE_OK. rewrite lor_bit, bit_release by lia. unfold word, LW_FLAG_RELEASE_OK. cbn. destruct (f_release_ok f); cbn [Z.b2z]; lia. Qed.
Lemma set_locked : set_flag LW_FLAG_LOCKED (word f) = word (f_set_locked true f).
Proof. unfold set_flag, LW_FLAG_LOCKED. rewrite lor_bit, bit_locked by lia. unfold word, LW_FLAG_LOCKED. cbn. destruct (f_locked f); cbn [Z.b2z]; lia. Qed.

Lemma clear_waiters : drop_flag LW_FLAG_HAS_WAITERS (word f) = word (f_set_waiters false f).
Proof. unfold LW_FLAG_HAS_WAITERS. pose proof word_range. rewrite clear_bit, bit_waiters by lia. unfold word, LW_FLAG_HAS_WAITERS. cbn. destruct (f_waiters f); cbn [Z.b2z]; lia. Qed.
Lemma clear_release : drop_flag LW_FLAG_RELEASE_OK (word f) = word (f_set_release false f).
Proof. unfold LW_FLAG_RELEASE_OK. pose proof word_range. rewrite clear_bit, bit_release by lia. unfold word, LW_FLAG_RELEASE_OK. cbn. destruct (f_release_ok f); cbn [Z.b2z]; lia. Qed.
Lemma clear_locked : drop_flag LW_FLAG_LOCKED (word f) = word (f_set_locked false f).
Proof. unfold LW_FLAG_LOCKED. pose proof word_range. rewrite clear_bit, bit_locked by lia. unfold word, LW_FLAG_LOCKED. cbn. destruct (f_locked f); cbn [Z.b2z]; lia. Qed.

Lemma flag_waiters : flag (word f) LW_FLAG_HAS_WAITERS = f_waiters f.
Proof. unfold LW_FLAG_HAS_WAITERS. rewrite flag_bit by lia. apply bit_waiters. Qed.
Lemma flag_release : flag (word f) LW_FLAG_RELEASE_OK = f_release_ok f.
Proof. unfold LW_FLAG_RELEASE_OK. rewrite flag_bit by lia. apply bit_release. Qed.
Lemma flag_locked : flag (word f) LW_FLAG_LOCKED = f_locked f.
Proof. unfold LW_FLAG_LOCKED. rewrite flag_bit by lia. apply bit_locked. Qed.

(** ** Counts *)

Lemma six i : 0 ≤ i < 6 → i = 0 ∨ i = 1 ∨ i = 2 ∨ i = 3 ∨ i = 4 ∨ i = 5.
Proof. lia. Qed.

Lemma counts_bump i d n : 0 ≤ i < 6 → counts (bump i d n) = counts n + d * 2 ^ (8 * i).
Proof. intros Hi. unfold counts, bump. destruct (six i Hi) as [->|[->|[->|[->|[->| ->]]]]]; cbn -[Z.mul Z.add Z.pow]; lia. Qed.

Lemma word_bump i d : 0 ≤ i < 6 → word (f_set_count (bump i d (f_count f)) f) = word f + d * 2 ^ (8 * i).
Proof. intros Hi. unfold word. cbn. rewrite counts_bump by done. lia. Qed.

Lemma byte_split w i lo b hi : 0 ≤ i → w = lo + 2 ^ (8 * i) * (b + 256 * hi) → 0 ≤ lo < 2 ^ (8 * i) → 0 ≤ b < 256 → byte_of i w = b.
Proof.
  intros Hi -> Hlo Hb. unfold byte_of, u8. rewrite Z.shiftr_div_pow2 by lia. rewrite (Z.mul_comm (2 ^ (8 * i))), Z.div_add, (Z.div_small lo) by lia.
  rewrite Z.add_0_l, (Z.mul_comm 256), Z.mod_add, Z.mod_small by lia. done.
Qed.

(** A byte with the copy of the exclusive bit, and what is above the six. *)
Definition full (i : Z) : Z := f_count f i + 128 * Z.b2z (f_excl f).
Definition top : Z := Z.b2z (f_excl f) * 2 ^ 8 + Z.b2z (f_locked f) * 2 ^ 12 + Z.b2z (f_release_ok f) * 2 ^ 13 + Z.b2z (f_waiters f) * 2 ^ 14.

Lemma word_bytes : word f = full 0 + 2 ^ 8 * full 1 + 2 ^ 16 * full 2 + 2 ^ 24 * full 3 + 2 ^ 32 * full 4 + 2 ^ 40 * full 5 + 2 ^ 48 * top.
Proof. unfold word, full, top, counts, LW_VAL_EXCLUSIVE, LW_FLAG_LOCKED, LW_FLAG_RELEASE_OK, LW_FLAG_HAS_WAITERS. lia. Qed.

Lemma full_range i : 0 ≤ i < 6 → 0 ≤ full i < 256.
Proof. intros Hi. unfold full. pose proof (b2z_range (f_excl f)). pose proof (Hf i Hi). lia. Qed.

Lemma byte_word i : 0 ≤ i < 6 → byte_of i (word f) = full i.
Proof.
  intros Hi. pose proof (full_range 0 ltac:(lia)). pose proof (full_range 1 ltac:(lia)). pose proof (full_range 2 ltac:(lia)). pose proof (full_range 3 ltac:(lia)).
  pose proof (full_range 4 ltac:(lia)). pose proof (full_range 5 ltac:(lia)). rewrite word_bytes. destruct (six i Hi) as [->|[->|[->|[->|[->| ->]]]]].
  - apply (byte_split _ _ 0 _ (full 1 + 2 ^ 8 * full 2 + 2 ^ 16 * full 3 + 2 ^ 24 * full 4 + 2 ^ 32 * full 5 + 2 ^ 40 * top)); lia.
  - apply (byte_split _ _ (full 0) _ (full 2 + 2 ^ 8 * full 3 + 2 ^ 16 * full 4 + 2 ^ 24 * full 5 + 2 ^ 32 * top)); lia.
  - apply (byte_split _ _ (full 0 + 2 ^ 8 * full 1) _ (full 3 + 2 ^ 8 * full 4 + 2 ^ 16 * full 5 + 2 ^ 24 * top)); lia.
  - apply (byte_split _ _ (full 0 + 2 ^ 8 * full 1 + 2 ^ 16 * full 2) _ (full 4 + 2 ^ 8 * full 5 + 2 ^ 16 * top)); lia.
  - apply (byte_split _ _ (full 0 + 2 ^ 8 * full 1 + 2 ^ 16 * full 2 + 2 ^ 24 * full 3) _ (full 5 + 2 ^ 8 * top)); lia.
  - apply (byte_split _ _ (full 0 + 2 ^ 8 * full 1 + 2 ^ 16 * full 2 + 2 ^ 24 * full 3 + 2 ^ 32 * full 4) _ top); lia.
Qed.
End Word.

Lemma byte_range i w : 0 ≤ byte_of i w < 256.
Proof. apply u8_range. Qed.

(** The top of one of the six bytes is a copy of the exclusive bit. *)
Lemma flag_excl_byte w i : 0 ≤ i < 6 → 128 ≤ byte_of i w → flag w LW_VAL_EXCLUSIVE = true.
Proof.
  intros Hi Hb. pose proof (byte_range i w). unfold flag. apply negb_true_iff, Z.eqb_neq. intros E.
  assert (Z.testbit (byte_of i w) 7 = true) as Ht by (apply bit_div; [lia|]; cbn [Z.b2z]; Z.to_euclidean_division_equations; lia).
  unfold byte_of, u8 in Ht. change 256 with (2 ^ 8) in Ht. rewrite Z.mod_pow2_bits_low, Z.shiftr_spec in Ht by lia.
  assert (Z.testbit (Z.land w LW_VAL_EXCLUSIVE) (7 + 8 * i) = true) as Hl; [|by rewrite E, Z.bits_0 in Hl]. rewrite Z.land_spec, Ht. destruct (six i Hi) as [->|[->|[->|[->|[->| ->]]]]]; done.
Qed.

Lemma put_byte_same i b w : 0 ≤ i → 0 ≤ b < 256 → byte_of i (put_byte i b w) = b.
Proof.
  intros Hi Hb. unfold put_byte. pose proof (Z.pow_pos_nonneg 2 (8 * i) ltac:(lia) ltac:(lia)) as Hp.
  apply (byte_split _ _ (w mod 2 ^ (8 * i)) _ (w / 2 ^ (8 * i) / 256)); [lia| |by apply Z.mod_pos_bound|done].
  assert (byte_of i w = (w / 2 ^ (8 * i)) mod 256) as -> by (unfold byte_of, u8; by rewrite Z.shiftr_div_pow2 by lia).
  pose proof (Z.div_mod w (2 ^ (8 * i)) ltac:(lia)) as E1. pose proof (Z.div_mod (w / 2 ^ (8 * i)) 256 ltac:(lia)) as E2. nia.
Qed.

(** Somebody has the lock. *)
Definition taken (f : fields) : Prop := f_excl f = true ∨ ∃ i, 0 ≤ i < 6 ∧ 0 < f_count f i.

Lemma not_taken f : counts_ok (f_count f) → f_excl f = false → (∀ i, 0 ≤ i < 6 → f_count f i = 0) → ¬ taken f.
Proof. intros Hf He Hn [?|(i & Hi & ?)]; [congruence|]. specialize (Hn i Hi). lia. Qed.

Lemma taken_dec f : counts_ok (f_count f) → (f_excl f = false ∧ ∀ i, 0 ≤ i < 6 → f_count f i = 0) ∨ taken f.
Proof.
  intros Hf. destruct (flag (word f) LW_LOCK_MASK) eqn:E; [|left; by apply flag_mask]. right. destruct (f_excl f) eqn:Ee; [by left|]. right.
  destruct (decide (Exists (λ i, 0 < f_count f i) (seqZ 0 6))) as [He|Hn].
  - apply Exists_exists in He as (i & Hi%elem_of_seqZ & ?). exists i. split; [lia|done].
  - exfalso. assert (flag (word f) LW_LOCK_MASK = false); [|congruence]. apply flag_mask; [done|]. split; [done|]. intros i Hi. pose proof (Hf i Hi).
    assert (¬ 0 < f_count f i); [|lia]. intros Hp. apply Hn, Exists_exists. exists i. split; [apply elem_of_seqZ; lia|done].
Qed.

Section Attempt.
Variable mask_id : Z → Z.
Hypothesis Hmask : ∀ p, 0 ≤ mask_id p < 6.

(** The word allows the thread to take the lock. *)
Definition free_for (p : Z) (m : LWLockMode) (f : fields) : Prop :=
  counts_ok (f_count f) ∧ f_excl f = false ∧ match m with LW_SHARED => f_count f (mask_id p) < 127 | _ => ∀ i, 0 ≤ i < 6 → f_count f i = 0 end.
Definition acquired (p : Z) (m : LWLockMode) (f : fields) : fields :=
  match m with LW_SHARED => f_set_count (bump (mask_id p) 1 (f_count f)) f | _ => f_set_excl true f end.
Definition released (p : Z) (m : LWLockMode) (f : fields) : fields :=
  match m with LW_EXCLUSIVE => f_set_excl false f | _ => f_set_count (bump (mask_id p) (-1) (f_count f)) f end.

Lemma add_ref p f : counts_ok (f_count f) → u64 (word f + ref_one mask_id p) = word f + 2 ^ (8 * mask_id p).
Proof.
  intros Hf. unfold ref_one. apply u64_small. pose proof (word_range f Hf). assert (0 < 2 ^ (8 * mask_id p) ≤ 2 ^ 40); [|lia].
  split; [apply Z.pow_pos_nonneg; pose proof (Hmask p); lia|]. apply Z.pow_le_mono_r; pose proof (Hmask p); lia.
Qed.

Lemma bump_ok i d n : 0 ≤ i < 6 → counts_ok n → 0 ≤ n i + d < 128 → counts_ok (bump i d n).
Proof. intros Hi Hn Hd j Hj. unfold bump. destruct (Z.eqb_spec j i) as [->|]; [done|by apply Hn]. Qed.

Lemma shared_fails p f : counts_ok (f_count f) → attempt_fails mask_id p LW_SHARED (word f) = f_excl f || (f_count f (mask_id p) =? 127).
Proof.
  intros Hf. unfold attempt_fails. rewrite flag_excl, add_ref by done. destruct (f_excl f) eqn:Ee; [done|]. cbn [orb]. pose proof (Hmask p) as Hi. pose proof (Hf _ Hi) as Hc.
  pose proof (word_bump f (mask_id p) 1 Hi) as Eb. rewrite Z.mul_1_l in Eb. destruct (Z.eqb_spec (f_count f (mask_id p)) 127) as [E|E].
  - apply (flag_excl_byte _ (mask_id p) Hi).
    assert (word f + 2 ^ (8 * mask_id p) = put_byte (mask_id p) 128 (word f)) as ->.
    { unfold put_byte. rewrite byte_word by done. unfold full. rewrite E, Ee. cbn [Z.b2z]. lia. }
    rewrite put_byte_same; lia.
  - rewrite <- Eb, flag_excl; [done|]. apply bump_ok; [done|done|lia].
Qed.

Lemma attempt_fails_spec p m f : counts_ok (f_count f) → lock_mode m → if attempt_fails mask_id p m (word f) then taken f else free_for p m f.
Proof.
  intros Hf [->| ->].
  - cbn [attempt_fails]. destruct (flag (word f) LW_LOCK_MASK) eqn:E.
    + destruct (taken_dec f Hf) as [Hn|?]; [|done]. apply flag_mask in Hn; [congruence|done].
    + apply flag_mask in E as [? ?]; [|done]. split_and!; done.
  - rewrite shared_fails by done. pose proof (Hf _ (Hmask p)). destruct (f_excl f) eqn:Ee; cbn [orb]; [by left|]. destruct (Z.eqb_spec (f_count f (mask_id p)) 127).
    + right. exists (mask_id p). split; [apply Hmask|lia].
    + split_and!; [done|done|lia].
Qed.

(** Setting one count of a word. *)
Lemma put_count i b f : 0 ≤ i < 6 → counts_ok (f_count f) → f_excl f = false → put_byte i b (word f) = word (f_set_count (bump i (b - f_count f i) (f_count f)) f).
Proof. intros Hi Hf He. rewrite word_bump by done. unfold put_byte. rewrite byte_word by done. unfold full. rewrite He. cbn [Z.b2z]. lia. Qed.

Lemma attempt_cas_spec p m g f : free_for p m g → counts_ok (f_count f) → lock_mode m →
  match attempt_cas mask_id p m (word g) (word f) with
  | inl w => free_for p m f ∧ w = word (acquired p m f)
  | inr old => if attempt_fails mask_id p m old then taken f else ∃ g', free_for p m g' ∧ old = word g'
  end.
Proof.
  intros (Hg & Hge & Hgc) Hf [->| ->]; cbn [attempt_cas].
  - destruct (Z.eqb_spec (word f) (word g)) as [E|E].
    + assert (flag (word f) LW_LOCK_MASK = false) as Hm by (rewrite E; by apply flag_mask). apply flag_mask in Hm as [He Hn]; [|done]. split; [done|].
      rewrite <- E. rewrite u64_small; [unfold word, acquired; cbn; rewrite He; cbn [Z.b2z]; lia|]. pose proof (word_range f Hf). unfold LW_VAL_EXCLUSIVE. lia.
    + pose proof (attempt_fails_spec p LW_EXCLUSIVE f Hf (or_introl eq_refl)) as Hs. destruct (attempt_fails _ _ _ _); [done|]. by exists f.
  - set (i := mask_id p) in *. assert (0 ≤ i < 6) as Hi by apply Hmask. rewrite !byte_word by done. unfold full. rewrite Hge. cbn [Z.b2z]. pose proof (Hg i Hi). pose proof (Hf i Hi).
    destruct (Z.eqb_spec (f_count f i + 128 * Z.b2z (f_excl f)) (f_count g i + 128 * 0)) as [E|E].
    + assert (f_excl f = false) as He by (destruct (f_excl f); [cbn in E; lia|done]). rewrite He in E. cbn [Z.b2z] in E. split; [split_and!; [done|done|fold i; lia]|].
      rewrite add_ref by done. fold i. pose proof (word_bump g i 1 Hi) as Eb. rewrite Z.mul_1_l in Eb. assert (counts_ok (bump i 1 (f_count g))) as Hbk by (apply bump_ok; [done|done|lia]). rewrite <- Eb, byte_word by done.
      unfold full. cbn [f_set_count f_count f_excl]. rewrite Hge. cbn [Z.b2z]. rewrite put_count by done. cbn [acquired]. fold i. unfold bump at 2. rewrite Z.eqb_refl. do 3 f_equal. lia.
    + destruct (f_excl f) eqn:He.
      * assert (flag (put_byte i (f_count f i + 128 * Z.b2z true) (word g)) LW_VAL_EXCLUSIVE = true) as Ht by (apply (flag_excl_byte _ i Hi); rewrite put_byte_same by (cbn [Z.b2z]; lia); cbn [Z.b2z]; lia).
        unfold attempt_fails. rewrite Ht. cbn [orb]. by left.
      * cbn [Z.b2z]. rewrite Z.mul_0_r, Z.add_0_r, put_count by done. set (g' := f_set_count _ g).
        assert (counts_ok (f_count g')) as Hg' by (apply bump_ok; [done|done|lia]). assert (f_count g' i = f_count f i) as Ec by (cbn; unfold bump; rewrite Z.eqb_refl; lia).
        rewrite shared_fails by done. fold i. rewrite Ec. cbn [g' f_set_count f_excl]. rewrite Hge. cbn [orb]. destruct (Z.eqb_spec (f_count f i) 127).
        -- right. exists i. split; [done|lia].
        -- exists g'. split; [|done]. split_and!; [done|done|]. fold i. lia.
Qed.

(** Adding a count below the exclusive bit. *)
Lemma down_cas p g f (i := mask_id p) : counts_ok (f_count g) → f_excl g = true → counts_ok (f_count f) → f_excl f = true → f_count f i = 0 →
  match attempt_cas mask_id p LW_SHARED (word g) (word f) with
  | inl w => w = word (f_set_count (bump i 1 (f_count f)) f)
  | inr old => ∃ g', counts_ok (f_count g') ∧ f_excl g' = true ∧ old = word g'
  end.
Proof.
  intros Hg Hge Hf Hfe H0. assert (0 ≤ i < 6) as Hi by apply Hmask. cbn [attempt_cas]. fold i. rewrite !byte_word by done. unfold full. rewrite Hge, Hfe, H0. cbn [Z.b2z]. pose proof (Hg i Hi).
  assert (∀ b h, counts_ok (f_count h) → f_excl h = true → put_byte i b (word h) = word (f_set_count (bump i (b - f_count h i - 128) (f_count h)) h)) as Hput.
  { intros b h Hh He. rewrite word_bump by done. unfold put_byte. rewrite byte_word by done. unfold full. rewrite He. cbn [Z.b2z]. lia. }
  destruct (Z.eqb_spec (0 + 128 * 1) (f_count g i + 128 * 1)) as [E|E].
  - rewrite add_ref by done. fold i. pose proof (word_bump g i 1 Hi) as Eb. rewrite Z.mul_1_l in Eb. assert (counts_ok (bump i 1 (f_count g))) as Hbk by (apply bump_ok; [done|done|lia]).
    rewrite <- Eb, byte_word by done. unfold full. cbn [f_set_count f_count f_excl]. rewrite Hge, Hput by done. cbn [Z.b2z]. unfold bump at 2. rewrite Z.eqb_refl. do 3 f_equal. lia.
  - rewrite Hput by done. exists (f_set_count (bump i (0 + 128 * 1 - f_count g i - 128) (f_count g)) g). split_and!; [|done|done]. apply bump_ok; [done|done|lia].
Qed.

Lemma release_word p m f : counts_ok (f_count f) → lock_mode m → (m = LW_EXCLUSIVE → f_excl f = true) → (m = LW_SHARED → 0 < f_count f (mask_id p)) →
  u64 (word f - release_val mask_id p m) = word (released p m f) ∧ counts_ok (f_count (released p m f)).
Proof.
  intros Hf [->| ->] He Hs; cbn [release_val released].
  - assert (word f - LW_VAL_EXCLUSIVE = word (f_set_excl false f)) as -> by (unfold word; cbn; rewrite He by done; cbn [Z.b2z]; lia). split; [|done].
    apply u64_small. pose proof (word_range (f_set_excl false f) Hf). lia.
  - pose proof (Hf _ (Hmask p)). assert (counts_ok (bump (mask_id p) (-1) (f_count f))) as Hb by (apply bump_ok; [done|done|specialize (Hs eq_refl); lia]).
    assert (word f - ref_one mask_id p = word (f_set_count (bump (mask_id p) (-1) (f_count f)) f)) as -> by (rewrite word_bump by done; unfold ref_one; lia).
    split; [|done]. apply u64_small. pose proof (word_range (f_set_count (bump (mask_id p) (-1) (f_count f)) f) Hb). lia.
Qed.
End Attempt.
