(* ===== verification/LwLockSpec.v ===== *)
(** * Lightweight locks: exclusion

    The word of the lock counts its holders at every moment, and the list of waiters is
    changed by one thread at a time. *)

From S2P Require Import Prelude HeapTuple LockDefs LwLock LwWord.

(** ** What the program counter says of a thread *)

(** The mode in which the thread has the lock, from the atomic operation that took it to the
    one that gives it back. *)
Definition owned (x : lwproc) : option LWLockMode :=
  match lp_pc x with
  | DeqLock o true | DeqRemove o true | DeqTest o true _ | DeqClear o true _ | DeqUnlock o true _ | DeqReleaseOk o true | DeqSem o true _ => Some (op_mode o)
  | Release m => Some m
  | _ => lp_held x
  end.
Definition excl (x : lwproc) : bool := bool_decide (owned x = Some LW_EXCLUSIVE).
Definition shar (x : lwproc) : bool := bool_decide (owned x = Some LW_SHARED) || match lp_pc x with DownSub => true | _ => false end.

(** It has the spinlock on the list. *)
Definition crit (x : lwproc) : bool :=
  match lp_pc x with
  | VarValue _ _ | VarUnlock _ _ _ | QueueFlag _ | QueuePush _ | QueueUnlock _ | DeqRemove _ _ | DeqTest _ _ _ | DeqClear _ _ _ | DeqUnlock _ _ _
  | WakeCollect | WakeRead _ _ | WakeCas _ _ _ | UpdCollect _ | UpdUnlock _ | ClearValue _ | ClearUnlock => true
  | _ => false
  end.

(** Reading a configuration after an operation on it. *)
Ltac cfg_simpl := cbn [continue reply LWLockAcquire LWLockAcquireTimeout LWLockConditionalAcquire LWLockAcquireOrWait LWLockWaitForVar lw_state lw_waiters lw_val lw_procs on_proc goto with_word with_waiters with_val finish list_unlock
  at_pc with_lwwait with_sem with_lwheld lp_pc lwWaiting lwWaitMode lp_sem extraWaits lp_held]; rewrite ?Z.eqb_refl;
  cbn [lw_state lw_waiters lw_val lw_procs at_pc with_lwwait with_sem with_lwheld lp_pc lwWaiting lwWaitMode lp_sem extraWaits lp_held].

(** The step of a thread, down to its branches. *)
Tactic Notation "open_run" "in" hyp(H) := unfold lw_run, LWLockAttemptLock, LWLockConflictsWithVar, LWLockQueueSelf, LWLockDequeueSelf, lw_wait, LWLockRelease, LWLockWakeup, LWLockDowngrade, LWLockUpdateVar, LWLockReleaseClearVar in H.

(** The branches of a step. *)
Ltac branch Hr :=
  match type of Hr with
  | None = Some _ => discriminate Hr
  | context [list_lock] => unfold list_lock in Hr; branch Hr
  | context [attempt_next] => unfold attempt_next in Hr; branch Hr
  | context [continue _ ?o] => unfold continue in Hr; destruct o; cbn [reply LWLockAcquire LWLockAcquireTimeout LWLockConditionalAcquire LWLockAcquireOrWait LWLockWaitForVar] in Hr; branch Hr
  | context [match (match ?x with _ => _ end) with _ => _ end] => destruct x eqn:?; branch Hr
  | context [match ?x with _ => _ end] => destruct x eqn:?; branch Hr
  | Some _ = Some _ => injection Hr as <-
  end.

Section Spec.
Variable mask_id : Z → Z.
Hypothesis Hmask : ∀ p, 0 ≤ mask_id p < 6.
Variable threads : list Z.
Hypothesis Hnd : NoDup threads.
Variable timed : bool.

Definition conditional (o : lwop) : bool := match o with OpConditional _ => true | _ => false end.

(** What is known of a thread at each point. *)
Definition thread_ok (p : Z) (x : lwproc) : Prop :=
  match lp_pc x with
  | Panic => False
  | Idle | WakeLock | WakeCollect | WakeRead _ _ | WakeCas _ _ _ | WakeUp _ | WakeSem _ _ => ∀ m, lp_held x = Some m → lock_mode m
  | AttemptRead o second => lp_held x = None ∧ op_ok timed o ∧ is_var o = false ∧ (second = true → conditional o = false)
  | AttemptCas o second old => lp_held x = None ∧ op_ok timed o ∧ is_var o = false ∧ (second = true → conditional o = false) ∧ ∃ g, free_for mask_id p (op_mode o) g ∧ old = word g
  | VarState o _ | VarLock o _ | VarValue o _ | VarUnlock o _ _ | VarReleaseOk o => lp_held x = None ∧ is_var o = true
  | QueueLock o | QueueFlag o | QueuePush o | QueueUnlock o | Sleep o => lp_held x = None ∧ op_ok timed o ∧ conditional o = false
  | DeqLock o got | DeqRemove o got | DeqTest o got _ | DeqClear o got _ | DeqUnlock o got _ | DeqReleaseOk o got | DeqSem o got _ =>
      lp_held x = None ∧ op_ok timed o ∧ conditional o = false ∧ (got = true → is_var o = false) ∧ (got = false → is_var o = true ∨ ∃ m, o = OpTimeout m)
  | Retry o => lp_held x = None ∧ op_ok timed o ∧ is_var o = false ∧ conditional o = false ∧ wait_mode o = op_mode o
  | TimeoutReleaseOk o => lp_held x = None
  | Release m => lp_held x = None ∧ lock_mode m
  | DownRead | DownSub | UpdLock _ | UpdCollect _ | UpdUnlock _ | ClearLock _ | ClearValue _ | ClearUnlock => lp_held x = Some LW_EXCLUSIVE
  | DownCas old => lp_held x = Some LW_EXCLUSIVE ∧ ∃ g, counts_ok (f_count g) ∧ f_excl g = true ∧ old = word g
  end.

Record word_inv (c : lwcfg) (f : fields) : Prop := {
  wi_word : lw_state c = word f;
  wi_counts : counts_ok (f_count f);
  wi_excl : f_excl f = true ↔ ∃ p, p ∈ threads ∧ excl (lw_procs c p) = true;
  wi_count : ∀ i, 0 ≤ i < 6 → f_count f i = count (λ p, shar (lw_procs c p) && (mask_id p =? i)) threads;
  wi_alone : ∀ p q, p ∈ threads → q ∈ threads → excl (lw_procs c p) = true → q ≠ p → excl (lw_procs c q) = false ∧ shar (lw_procs c q) = false;
  wi_locked : f_locked f = true ↔ ∃ p, p ∈ threads ∧ crit (lw_procs c p) = true;
  wi_crit : ∀ p q, p ∈ threads → q ∈ threads → crit (lw_procs c p) = true → crit (lw_procs c q) = true → q = p;
  wi_threads : ∀ p, p ∈ threads → thread_ok p (lw_procs c p);
}.

(** ** One lemma for all steps *)

(** How the fields that say who has the lock change with the thread. *)
Record changes (p : Z) (x x' : lwproc) (f f' : fields) : Prop := {
  ch_count : f_count f' = f_count f ∧ shar x' = shar x ∨
    shar x = false ∧ shar x' = true ∧ f_count f' = bump (mask_id p) 1 (f_count f) ∧ (f_excl f = false ∨ excl x = true) ∨
    shar x = true ∧ shar x' = false ∧ f_count f' = bump (mask_id p) (-1) (f_count f);
  ch_ok : counts_ok (f_count f');
  ch_excl : f_excl f' = f_excl f ∧ excl x' = excl x ∨ excl x = false ∧ excl x' = true ∧ f_excl f' = true ∧ ¬ taken f ∨ excl x = true ∧ excl x' = false ∧ f_excl f' = false;
  ch_locked : f_locked f' = f_locked f ∧ crit x' = crit x ∨ crit x = false ∧ crit x' = true ∧ f_locked f = false ∧ f_locked f' = true ∨
    crit x = true ∧ crit x' = false ∧ f_locked f' = false;
}.

Lemma count_upd (a a' : Z → bool) p l : NoDup l → p ∈ l → (∀ q, q ≠ p → a' q = a q) → count a' l = count a l + (if a' p then 1 else 0) - (if a p then 1 else 0).
Proof.
  intros Hl. induction Hl as [|q l Hq Hl IH]; intros Hp Ha; [by apply not_elem_of_nil in Hp|]. cbn [count]. apply elem_of_cons in Hp as [->|Hp].
  - rewrite (count_ext a' a); [lia|]. intros y Hy. apply Ha. by intros ->.
  - rewrite IH by done. rewrite (Ha q) by (by intros ->). lia.
Qed.

(** Somebody has the lock if the fields say so. *)
Lemma shared_taken c f p : word_inv c f → p ∈ threads → shar (lw_procs c p) = true → 0 < f_count f (mask_id p).
Proof.
  intros I Hp Hs. rewrite (wi_count _ _ I) by done. apply count_pos. exists p. split; [done|]. by rewrite Hs, Z.eqb_refl.
Qed.

Lemma nobody c f p : word_inv c f → ¬ taken f → p ∈ threads → excl (lw_procs c p) = false ∧ shar (lw_procs c p) = false.
Proof.
  intros I Hn Hp. split; apply not_true_is_false; intros H; apply Hn.
  - left. apply (wi_excl _ _ I). by exists p.
  - right. exists (mask_id p). split; [done|by apply (shared_taken c)].
Qed.

Lemma word_step c c' f f' p :
  word_inv c f → p ∈ threads → (∀ q, q ≠ p → lp_pc (lw_procs c' q) = lp_pc (lw_procs c q) ∧ lp_held (lw_procs c' q) = lp_held (lw_procs c q)) →
  lw_state c' = word f' → thread_ok p (lw_procs c' p) → changes p (lw_procs c p) (lw_procs c' p) f f' → word_inv c' f'.
Proof.
  intros I Hp Hq Hw Hok [Cc Co Ce Cl].
  assert (∀ q, q ≠ p → excl (lw_procs c' q) = excl (lw_procs c q) ∧ shar (lw_procs c' q) = shar (lw_procs c q) ∧ crit (lw_procs c' q) = crit (lw_procs c q)) as Hsame.
  { intros q Hne. destruct (Hq q Hne) as [E1 E2]. unfold excl, shar, owned, crit. by rewrite E1, E2. }
  assert (∀ (a : lwproc → bool) (b b' : bool), (∀ q, q ≠ p → a (lw_procs c' q) = a (lw_procs c q)) → (b = true ↔ ∃ q, q ∈ threads ∧ a (lw_procs c q) = true) →
    b' = b ∧ a (lw_procs c' p) = a (lw_procs c p) ∨ a (lw_procs c' p) = true ∧ b' = true ∨
    a (lw_procs c' p) = false ∧ b' = false ∧ (∀ q, q ∈ threads → q ≠ p → a (lw_procs c q) = false) → (b' = true ↔ ∃ q, q ∈ threads ∧ a (lw_procs c' q) = true)) as Hiff.
  { intros a b b' Ha Hb [[-> E]|[[E ->]|(E & -> & Hn)]].
    - rewrite Hb. split; intros (q & Hqt & Hqa); exists q; (split; [done|]); (destruct (decide (q = p)) as [->|]; [congruence|]); [by rewrite Ha|by rewrite <- Ha].
    - split; [intros _; by exists p|done].
    - split; [done|]. intros (q & Hqt & Hqa). destruct (decide (q = p)) as [->|Hne]; [congruence|]. rewrite Ha, Hn in Hqa by done. done. }
  pose proof (wi_alone _ _ I) as Halone. pose proof (wi_crit _ _ I) as Hcrit. split; [done|done| | | | | |].
  - apply (Hiff excl (f_excl f)); [intros q Hne; by apply Hsame|apply (wi_excl _ _ I)|]. destruct Ce as [[? ?]|[(? & ? & ? & ?)|(Ha & Ha' & ?)]]; [by left|by right; left|].
    right. right. split_and!; [done|done|]. intros q Hqt Hne. by apply (Halone p q).
  - intros i Hi. rewrite (count_upd (λ q, shar (lw_procs c q) && (mask_id q =? i)) _ p threads Hnd Hp); [|intros q Hne; by destruct (Hsame q Hne) as (_ & -> & _)].
    rewrite <- (wi_count _ _ I) by done. destruct Cc as [[-> ->]|[(-> & -> & -> & _)|(-> & -> & ->)]]; [lia|..]; unfold bump; rewrite (Z.eqb_sym (mask_id p)); destruct (i =? mask_id p); cbn; lia.
  - intros q r Hqt Hrt Hex Hne. destruct (decide (q = p)) as [->|Hqp].
    + destruct (Hsame r Hne) as (-> & -> & _). destruct Ce as [[_ E]|[(_ & _ & _ & Hn)|(_ & E & _)]]; [rewrite E in Hex; by apply (Halone p)|by apply (nobody c f r I Hn)|congruence].
    + destruct (Hsame q Hqp) as (E & _). rewrite E in Hex. destruct (decide (r = p)) as [->|Hrp]; [|destruct (Hsame r Hrp) as (-> & -> & _); by apply (Halone q)].
      destruct (Halone q p Hqt Hp Hex) as [He Hs]; [done|]. assert (f_excl f = true) as Hfe by (apply (wi_excl _ _ I); by exists q). split.
      * destruct Ce as [[_ E']|[(_ & _ & _ & Hn)|(Hx & _)]]; [congruence|destruct Hn; by left|congruence].
      * destruct Cc as [[_ E']|[(_ & _ & _ & [?|?])|(Hx & _)]]; congruence.
  - apply (Hiff crit (f_locked f)); [intros q Hne; by apply Hsame|apply (wi_locked _ _ I)|]. destruct Cl as [[? ?]|[(? & ? & ? & ?)|(Ha & Ha' & ?)]]; [by left|by right; left|].
    right. right. split_and!; [done|done|]. intros q Hqt Hne. apply not_true_is_false. intros Hc. by destruct (Hne (Hcrit p q Hp Hqt Ha Hc)).
  - intros q r Hqt Hrt H1 H2. assert (∀ q, q ∈ threads → q ≠ p → crit (lw_procs c q) = true → crit (lw_procs c' p) = true → False) as Hx.
    { intros s Hst Hsp Hs Hc. destruct Cl as [[_ E]|[(_ & _ & E & _)|(_ & E & _)]]; [|assert (f_locked f = true) by (apply (wi_locked _ _ I); by exists s); congruence|congruence].
      rewrite E in Hc. by destruct (Hsp (Hcrit p s Hp Hst Hc Hs)). }
    destruct (decide (q = p)) as [->|Hqp], (decide (r = p)) as [->|Hrp]; [done| | |].
    + destruct (Hsame r Hrp) as (_ & _ & E). rewrite E in H2. by destruct (Hx r).
    + destruct (Hsame q Hqp) as (_ & _ & E). rewrite E in H1. by destruct (Hx q).
    + destruct (Hsame q Hqp) as (_ & _ & E1), (Hsame r Hrp) as (_ & _ & E2). rewrite E1 in H1. rewrite E2 in H2. by apply Hcrit.
  - intros q Hqt. destruct (decide (q = p)) as [->|Hne]; [done|]. destruct (Hq q Hne) as [E1 E2]. unfold thread_ok. rewrite E1, E2. by apply (wi_threads _ _ I).
Qed.

(** The holders and the list lock stay as they are. *)
Lemma calm_step c c' f f' p :
  word_inv c f → p ∈ threads → (∀ q, q ≠ p → lp_pc (lw_procs c' q) = lp_pc (lw_procs c q) ∧ lp_held (lw_procs c' q) = lp_held (lw_procs c q)) →
  lw_state c' = word f' → f_excl f' = f_excl f → f_count f' = f_count f → f_locked f' = f_locked f → thread_ok p (lw_procs c' p) →
  excl (lw_procs c' p) = excl (lw_procs c p) → shar (lw_procs c' p) = shar (lw_procs c p) → crit (lw_procs c' p) = crit (lw_procs c p) → word_inv c' f'.
Proof.
  intros I Hp Hq Hw E1 E2 E3 T X1 X2 X3. apply (word_step c c' f f' p); try done. split; [by left|rewrite E2; apply (wi_counts _ _ I)|by left|by left].
Qed.

(** It takes the list lock, or gives it back. *)
Lemma locking_step c c' f f' p :
  word_inv c f → p ∈ threads → (∀ q, q ≠ p → lp_pc (lw_procs c' q) = lp_pc (lw_procs c q) ∧ lp_held (lw_procs c' q) = lp_held (lw_procs c q)) →
  lw_state c' = word f' → f_excl f' = f_excl f → f_count f' = f_count f → thread_ok p (lw_procs c' p) →
  excl (lw_procs c' p) = excl (lw_procs c p) → shar (lw_procs c' p) = shar (lw_procs c p) →
  crit (lw_procs c p) = false ∧ crit (lw_procs c' p) = true ∧ f_locked f = false ∧ f_locked f' = true ∨ crit (lw_procs c p) = true ∧ crit (lw_procs c' p) = false ∧ f_locked f' = false →
  word_inv c' f'.
Proof.
  intros I Hp Hq Hw E1 E2 T X1 X2 X3. apply (word_step c c' f f' p); try done. split; [by left|rewrite E2; apply (wi_counts _ _ I)|by left|by right].
Qed.

(** What the steps do to the two other flags. *)
Definition release_after (c : lwcfg) (p : Z) (b : bool) : bool :=
  match lp_pc (lw_procs c p) with
  | VarReleaseOk _ | DeqReleaseOk _ _ | Retry _ | TimeoutReleaseOk _ => true
  | WakeCas _ ok old => if lw_state c =? old then ok else b
  | _ => b
  end.
Definition waiters_after (c : lwcfg) (p : Z) (b : bool) : bool :=
  match lp_pc (lw_procs c p) with
  | QueueFlag _ => true
  | DeqClear _ _ _ => false
  | WakeCas [] _ old => if lw_state c =? old then false else b
  | _ => b
  end.
Definition stepped (c : lwcfg) (p : Z) (f f' : fields) (c' : lwcfg) : Prop :=
  word_inv c' f' ∧ f_release_ok f' = release_after c p (f_release_ok f) ∧ f_waiters f' = waiters_after c p (f_waiters f).

Ltac others := intros q Hne; cfg_simpl; rewrite (proj2 (Z.eqb_neq q _)) by done; done.
Ltac attrs Hpc := unfold excl, shar, owned, crit; cfg_simpl; rewrite ?Hpc; cfg_simpl; done.

(** A new place in the program, in the same situation. *)
Lemma goto_calm c f p pc' :
  word_inv c f → p ∈ threads → thread_ok p (at_pc pc' (lw_procs c p)) → excl (at_pc pc' (lw_procs c p)) = excl (lw_procs c p) →
  shar (at_pc pc' (lw_procs c p)) = shar (lw_procs c p) → crit (at_pc pc' (lw_procs c p)) = crit (lw_procs c p) → word_inv (goto p pc' c) f.
Proof.
  intros I Hp T X1 X2 X3. apply (calm_step c _ f f p); try done; try others; cfg_simpl; try done. apply (wi_word _ _ I).
Qed.

Lemma attempt_failed_ok c f p o second :
  word_inv c f → p ∈ threads → lp_held (lw_procs c p) = None → op_ok timed o → (second = true → conditional o = false) →
  excl (lw_procs c p) = false → shar (lw_procs c p) = false → crit (lw_procs c p) = false → is_var o = false → word_inv (continue p o (Failed second) c) f.
Proof.
  intros I Hp Hh Ho Hs X1 X2 X3 Hv.
  assert (∀ pc', thread_ok p (at_pc pc' (lw_procs c p)) → owned (at_pc pc' (lw_procs c p)) = None → crit (at_pc pc' (lw_procs c p)) = false → (match pc' with DownSub => False | _ => True end) → word_inv (goto p pc' c) f) as Hgo.
  { intros pc' T Hown Hc Hd. apply goto_calm; try done; [rewrite X1|rewrite X2|by rewrite X3]; unfold excl, shar; rewrite Hown; cfg_simpl; [done|by destruct pc']. }
  destruct o as [m|m|m|m|v]; try discriminate Hv; try (destruct second; apply Hgo; try done; unfold thread_ok, owned; cfg_simpl; done).
  apply (calm_step c _ f f p); try done; try others; try apply (wi_word _ _ I); rewrite ?X1, ?X2, ?X3; unfold thread_ok, excl, shar, owned, crit; cfg_simpl; done.
Qed.

Lemma attempt_next_ok c f p o second old :
  word_inv c f → p ∈ threads → lp_held (lw_procs c p) = None → op_ok timed o → is_var o = false → (second = true → conditional o = false) →
  excl (lw_procs c p) = false → shar (lw_procs c p) = false → crit (lw_procs c p) = false →
  (attempt_fails mask_id p (op_mode o) old = false → ∃ g, free_for mask_id p (op_mode o) g ∧ old = word g) → word_inv (attempt_next mask_id p o second old c) f.
Proof.
  intros I Hp Hh Ho Hv Hs X1 X2 X3 Hfree. unfold attempt_next. destruct (attempt_fails mask_id p (op_mode o) old) eqn:E; [by apply attempt_failed_ok|].
  apply goto_calm; try done; rewrite ?X1, ?X2, ?X3; unfold thread_ok, excl, shar, owned, crit; cfg_simpl; rewrite ?Hh; try done. split_and!; auto.
Qed.

(** Sides of a step that are read off. *)
Ltac sides Hpc I := try others; unfold thread_ok, excl, shar, owned, crit; cfg_simpl; rewrite ?Hpc, ?(wi_word _ _ I); cfg_simpl; try done.

Lemma list_lock_ok c c' f p pc' :
  word_inv c f → p ∈ threads → list_lock p pc' c = Some c' → thread_ok p (at_pc pc' (lw_procs c p)) →
  excl (at_pc pc' (lw_procs c p)) = excl (lw_procs c p) → shar (at_pc pc' (lw_procs c p)) = shar (lw_procs c p) → crit (lw_procs c p) = false → crit (at_pc pc' (lw_procs c p)) = true →
  f_locked f = false ∧ word_inv c' (f_set_locked true f).
Proof.
  intros I Hp Hr T X1 X2 X3 X4. unfold list_lock in Hr. rewrite (wi_word _ _ I), flag_locked in Hr by apply (wi_counts _ _ I). destruct (f_locked f) eqn:El; [done|]. injection Hr as <-. split; [done|].
  apply (locking_step c _ f _ p); try done; try others; cfg_simpl; try done; [by apply set_locked, (wi_counts _ _ I)|left; done].
Qed.

Lemma run_locks c c' f p pc' :
  word_inv c f → p ∈ threads → list_lock p pc' c = Some c' → thread_ok p (at_pc pc' (lw_procs c p)) →
  excl (at_pc pc' (lw_procs c p)) = excl (lw_procs c p) → shar (at_pc pc' (lw_procs c p)) = shar (lw_procs c p) → crit (lw_procs c p) = false → crit (at_pc pc' (lw_procs c p)) = true →
  (∀ b, release_after c p b = b) → (∀ b, waiters_after c p b = b) → ∃ f', stepped c p f f' c'.
Proof.
  intros I Hp Hr T X1 X2 X3 X4 R1 R2. destruct (list_lock_ok c c' f p pc' I Hp Hr T X1 X2 X3 X4) as [_ I']. exists (f_set_locked true f). split; [done|]. by rewrite R1, R2.
Qed.

Lemma op_mode_ok o : op_ok timed o → is_var o = false → lock_mode (op_mode o).
Proof. intros Ho Hv. destruct o; cbn in *; try done. by destruct Ho. Qed.

Lemma run_attempt c c' f p o second : word_inv c f → p ∈ threads → lp_pc (lw_procs c p) = AttemptRead o second → lw_run mask_id p c = Some c' → stepped c p f f c'.
Proof.
  intros I Hp Hpc Hr. pose proof (wi_threads _ _ I p Hp) as T. unfold thread_ok in T. open_run in Hr. rewrite Hpc in T, Hr. destruct T as (Hh & Ho & Hv & Hs). injection Hr as <-.
  split; [|unfold release_after, waiters_after; by rewrite Hpc]. apply attempt_next_ok; try done; [by unfold excl, owned; rewrite Hpc, Hh|by unfold shar, owned; rewrite Hpc, Hh|by unfold crit; rewrite Hpc|].
  intros E. pose proof (attempt_fails_spec mask_id Hmask p (op_mode o) f (wi_counts _ _ I)) as Hs'. rewrite (wi_word _ _ I) in *. rewrite E in Hs'. exists f. split; [|done]. by apply Hs', op_mode_ok.
Qed.

(** Acquiring. *)
Lemma acquire_step c c' f p m :
  word_inv c f → p ∈ threads → (∀ q, q ≠ p → lp_pc (lw_procs c' q) = lp_pc (lw_procs c q) ∧ lp_held (lw_procs c' q) = lp_held (lw_procs c q)) →
  free_for mask_id p m f → lock_mode m → lw_state c' = word (acquired mask_id p m f) → thread_ok p (lw_procs c' p) →
  owned (lw_procs c p) = None → owned (lw_procs c' p) = Some m → match lp_pc (lw_procs c p) with DownSub => False | _ => True end → match lp_pc (lw_procs c' p) with DownSub => False | _ => True end →
  crit (lw_procs c' p) = crit (lw_procs c p) → word_inv c' (acquired mask_id p m f).
Proof.
  intros I Hp Hq (Hc & He & Hf) Hm Hw T X1 X2 D1 D2 X3. assert (∀ y, match lp_pc y with DownSub => False | _ => True end → shar y = bool_decide (owned y = Some LW_SHARED)) as Hsh.
  { intros y Hy. unfold shar. destruct (lp_pc y); try done; by rewrite orb_false_r. }
  apply (word_step c c' f _ p); try done. destruct Hm as [->| ->]; cbn [acquired].
  - split; cbn; [left|done|right; left|left]; rewrite ?Hsh by done; unfold excl; rewrite ?X1, ?X2; [done| |done]. split_and!; [done|done|done|]. by apply not_taken.
  - split; cbn; [right; left|apply bump_ok; [done|done|pose proof (Hc _ (Hmask p)); lia]|left|left]; rewrite ?Hsh by done; unfold excl; rewrite ?X1, ?X2; [|done|done]. split_and!; [done|done|done|by left].
Qed.

Lemma run_cas c c' f p o second old : word_inv c f → p ∈ threads → lp_pc (lw_procs c p) = AttemptCas o second old → lw_run mask_id p c = Some c' → ∃ f', stepped c p f f' c'.
Proof.
  intros I Hp Hpc Hr. pose proof (wi_threads _ _ I p Hp) as T. unfold thread_ok in T. open_run in Hr. rewrite Hpc in T, Hr. destruct T as (Hh & Ho & Hv & Hs & g & Hg & ->).
  pose proof (op_mode_ok o Ho Hv) as Hm.
  pose proof (attempt_cas_spec mask_id Hmask p (op_mode o) g f Hg (wi_counts _ _ I) Hm) as Hcas. rewrite (wi_word _ _ I) in Hr.
  assert (excl (lw_procs c p) = false ∧ shar (lw_procs c p) = false ∧ crit (lw_procs c p) = false) as (X1 & X2 & X3) by (unfold excl, shar, owned, crit; rewrite Hpc, Hh; done).
  destruct (attempt_cas mask_id p (op_mode o) (word g) (word f)) as [w|old'].
  - destruct Hcas as [Hfree ->]. injection Hr as <-. exists (acquired mask_id p (op_mode o) f). split.
    + assert (continue p o (Got second) (with_word (word (acquired mask_id p (op_mode o) f)) c) = (if second then goto p (DeqLock o true) else finish p (Some (op_mode o))) (with_word (word (acquired mask_id p (op_mode o) f)) c)) as ->
        by (destruct second; [specialize (Hs eq_refl)|]; by destruct o).
      destruct second; apply (acquire_step c _ f p (op_mode o)); try done; sides Hpc I; try (by rewrite Hh).
      * split_and!; try done. by rewrite Hs.
      * intros m [= <-]. done.
    + unfold release_after, waiters_after. rewrite Hpc. by destruct (op_mode o).
  - injection Hr as <-. exists f. split; [|unfold release_after, waiters_after; by rewrite Hpc]. apply attempt_next_ok; try done. intros E. by rewrite E in Hcas.
Qed.

(** The thread does not come to or from a point where it changes who has the lock. *)
Ltac after Hpc := unfold release_after, waiters_after; rewrite ?Hpc; done.
Ltac calm Hpc I p f := exists f; split; [|after Hpc]; apply (calm_step _ _ f f p I); try done; sides Hpc I.
Ltac unlocks Hpc I p f := exists (f_set_locked false f); split; [|after Hpc];
  apply (locking_step _ _ f _ p I); try done; sides Hpc I; try (by apply clear_locked, (wi_counts _ _ I)); try (right; done).

Lemma run_var c c' f p : word_inv c f → p ∈ threads → lw_run mask_id p c = Some c' →
  match lp_pc (lw_procs c p) with VarState _ _ | VarLock _ _ | VarValue _ _ | VarUnlock _ _ _ | VarReleaseOk _ => True | _ => False end → ∃ f', stepped c p f f' c'.
Proof.
  intros I Hp Hr Hcase. pose proof (wi_threads _ _ I p Hp) as T. unfold thread_ok in T. open_run in Hr. destruct (lp_pc (lw_procs c p)) eqn:Hpc; try done; clear Hcase; destruct T as [Hh Hv].
  - injection Hr as <-. destruct o as [| | | |v]; try done. destruct (flag (lw_state c) LW_VAL_EXCLUSIVE); [calm Hpc I p f|]. destruct second; calm Hpc I p f; try (by rewrite Hh).
    split_and!; try done. intros _. by left.
  - eapply (run_locks c c' f p _ I Hp Hr); sides Hpc I; intros; after Hpc.
  - injection Hr as <-. calm Hpc I p f.
  - injection Hr as <-. destruct o as [| | | |v]; try done. destruct mustwait; destruct second; unlocks Hpc I p f; try (by rewrite Hh). split_and!; try done. intros _. by left.
  - injection Hr as <-. exists (f_set_release true f). split; [|after Hpc]. apply (calm_step _ _ f _ p I); try done; sides Hpc I. apply set_release, (wi_counts _ _ I).
Qed.

Lemma run_queue c c' f p : word_inv c f → p ∈ threads → lw_run mask_id p c = Some c' →
  match lp_pc (lw_procs c p) with QueueLock _ => lwWaiting (lw_procs c p) = false | QueueFlag _ | QueuePush _ | QueueUnlock _ => True | _ => False end → ∃ f', stepped c p f f' c'.
Proof.
  intros I Hp Hr Hcase. pose proof (wi_threads _ _ I p Hp) as T. unfold thread_ok in T. open_run in Hr. destruct (lp_pc (lw_procs c p)) eqn:Hpc; try done; destruct T as (Hh & Ho & Hc).
  - rewrite Hcase in Hr. eapply (run_locks c c' f p _ I Hp Hr); sides Hpc I; intros; after Hpc.
  - injection Hr as <-. exists (f_set_waiters true f). split; [|after Hpc]. apply (calm_step _ _ f _ p I); try done; sides Hpc I. apply set_waiters, (wi_counts _ _ I).
  - injection Hr as <-. calm Hpc I p f.
  - injection Hr as <-. destruct (is_var o) eqn:Hv; unlocks Hpc I p f.
Qed.

(** [LWLockDequeueSelf] has come to an end. *)
Lemma left_attrs p o got x (x' := lw_procs (continue p o (Left got) x) p) :
  lp_held (lw_procs x p) = None → op_ok timed o → conditional o = false → (got = true → is_var o = false) → (got = false → is_var o = true ∨ ∃ m, o = OpTimeout m) →
  thread_ok p x' ∧ owned x' = (if got then Some (op_mode o) else None) ∧ crit x' = false ∧ match lp_pc x' with DownSub => False | _ => True end.
Proof.
  intros Hh Ho Hc Hv Hg. destruct got, o; try done; try (by specialize (Hv eq_refl)); try (by destruct (Hg eq_refl) as [?|[m' ?]]); unfold x', thread_ok, owned, crit; cfg_simpl; split_and!; try done; intros m' [= <-]; apply (op_mode_ok _ Ho); done.
Qed.

Lemma shar_own y : match lp_pc y with DownSub => False | _ => True end → shar y = bool_decide (owned y = Some LW_SHARED).
Proof. intros Hy. unfold shar. destruct (lp_pc y); try done; by rewrite orb_false_r. Qed.

Lemma continue_others p o r x q : q ≠ p → lw_procs (continue p o r x) q = lw_procs x q.
Proof. intros Hne. unfold continue. destruct (reply o r); cfg_simpl; by rewrite (proj2 (Z.eqb_neq q p)). Qed.

Lemma continue_state p o r x : lw_state (continue p o r x) = lw_state x.
Proof. unfold continue. by destruct (reply o r). Qed.

Lemma run_dequeue c c' f p : word_inv c f → p ∈ threads → lw_run mask_id p c = Some c' →
  match lp_pc (lw_procs c p) with DeqLock _ _ | DeqRemove _ _ | DeqTest _ _ _ | DeqClear _ _ _ | DeqUnlock _ _ _ | DeqReleaseOk _ _ | DeqSem _ _ _ => True | _ => False end → ∃ f', stepped c p f f' c'.
Proof.
  intros I Hp Hr Hcase. pose proof (wi_threads _ _ I p Hp) as T. unfold thread_ok in T. open_run in Hr. destruct (lp_pc (lw_procs c p)) eqn:Hpc; try done; clear Hcase; destruct T as (Hh & Ho & Hc & Hg & Hg').
  - eapply (run_locks c c' f p _ I Hp Hr); sides Hpc I; intros; after Hpc.
  - injection Hr as <-. case_bool_decide; calm Hpc I p f.
  - injection Hr as <-. destruct (flag (lw_state c) LW_FLAG_HAS_WAITERS); calm Hpc I p f.
  - injection Hr as <-. exists (f_set_waiters false f). split; [|after Hpc]. apply (calm_step _ _ f _ p I); try done; sides Hpc I. apply clear_waiters, (wi_counts _ _ I).
  - injection Hr as <-. destruct found; [|unlocks Hpc I p f]. exists (f_set_locked false f). split; [|after Hpc]. set (x := on_proc p _ (list_unlock c)).
    destruct (left_attrs p o got x) as (T & Hown & Hcr & Hd); [by unfold x; cfg_simpl|done..|].
    apply (locking_step c _ f _ p I Hp); try done.
    + intros q Hne. rewrite continue_others by done. unfold x. cfg_simpl. by rewrite (proj2 (Z.eqb_neq q p)).
    + rewrite continue_state. unfold x. cfg_simpl. rewrite (wi_word _ _ I). apply clear_locked, (wi_counts _ _ I).
    + unfold excl. rewrite Hown. unfold owned. rewrite Hpc. by destruct got; rewrite ?Hh.
    + rewrite !shar_own by (rewrite ?Hpc; done). rewrite Hown. unfold owned. rewrite Hpc. by destruct got; rewrite ?Hh.
    + right. split; [unfold crit; by rewrite Hpc|done].
  - injection Hr as <-. exists (f_set_release true f). split; [|after Hpc]. apply (calm_step _ _ f _ p I); try done; sides Hpc I. apply set_release, (wi_counts _ _ I).
  - destruct (lp_sem (lw_procs c p) <=? 0); [done|]. injection Hr as <-. destruct (lwWaiting (lw_procs c p)); [calm Hpc I p f|]. exists f. split; [|after Hpc]. set (x := on_proc p _ c).
    destruct (left_attrs p o got x) as (T & Hown & Hcr & Hd); [by unfold x; cfg_simpl|done..|].
    apply (calm_step c _ f _ p I Hp); try done.
    + intros q Hne. rewrite continue_others by done. unfold x. cfg_simpl. by rewrite (proj2 (Z.eqb_neq q p)).
    + rewrite continue_state. apply (wi_word _ _ I).
    + unfold excl. rewrite Hown. unfold owned. rewrite Hpc. by destruct got; rewrite ?Hh.
    + rewrite !shar_own by (rewrite ?Hpc; done). rewrite Hown. unfold owned. rewrite Hpc. by destruct got; rewrite ?Hh.
    + unfold crit at 2. by rewrite Hpc.
Qed.

Lemma run_sleep c c' f p : word_inv c f → p ∈ threads → lw_run mask_id p c = Some c' →
  match lp_pc (lw_procs c p) with Sleep _ | Retry _ | TimeoutReleaseOk _ => True | _ => False end → ∃ f', stepped c p f f' c'.
Proof.
  intros I Hp Hr Hcase. pose proof (wi_threads _ _ I p Hp) as T. unfold thread_ok in T. open_run in Hr. destruct (lp_pc (lw_procs c p)) eqn:Hpc; try done; clear Hcase.
  - destruct T as (Hh & Ho & Hc). destruct (lp_sem (lw_procs c p) <=? 0); [done|]. injection Hr as <-. destruct (lwWaiting (lw_procs c p)); [calm Hpc I p f|].
    destruct o; calm Hpc I p f; try (by rewrite Hh).
  - destruct T as (Hh & Ho & Hv & Hc & Hw). injection Hr as <-. exists (f_set_release true f). split; [|after Hpc]. apply (calm_step _ _ f _ p I); try done; sides Hpc I. apply set_release, (wi_counts _ _ I).
  - injection Hr as <-. exists (f_set_release true f). split; [|after Hpc]. apply (calm_step _ _ f _ p I); try done; sides Hpc I; try (by rewrite T). apply set_release, (wi_counts _ _ I).
Qed.

Lemma run_release c c' f p m : word_inv c f → p ∈ threads → lp_pc (lw_procs c p) = Release m → lw_run mask_id p c = Some c' →
  stepped c p f (released mask_id p m f) c' ∧
  lp_pc (lw_procs c' p) = (if f_waiters f && f_release_ok f && negb (flag (word (released mask_id p m f)) LW_LOCK_MASK) then WakeLock else Idle).
Proof.
  intros I Hp Hpc Hr. pose proof (wi_threads _ _ I p Hp) as T. unfold thread_ok in T. open_run in Hr. rewrite Hpc in T, Hr. destruct T as [Hh Hm].
  destruct (release_word mask_id Hmask p m f (wi_counts _ _ I) Hm) as [Ew Hc].
  { intros ->. apply (wi_excl _ _ I). exists p. split; [done|]. unfold excl, owned. by rewrite Hpc. }
  { intros ->. apply (shared_taken c f p I Hp). unfold shar, owned. by rewrite Hpc. }
  rewrite (wi_word _ _ I), Ew in Hr. injection Hr as <-.
  assert (f_waiters (released mask_id p m f) = f_waiters f ∧ f_release_ok (released mask_id p m f) = f_release_ok f) as [E1 E2] by (by destruct m).
  unfold has_both. rewrite flag_waiters, flag_release, E1, E2 by done. split; [|by cfg_simpl]. split; [|rewrite E1, E2; after Hpc].
  apply (word_step c _ f _ p I Hp); [others|done|unfold thread_ok; cfg_simpl; destruct (_ && _); cfg_simpl; by rewrite Hh|].
  assert (∀ pc', owned (at_pc pc' (lw_procs c p)) = lp_held (lw_procs c p) → (match pc' with DownSub => False | _ => True end) → excl (at_pc pc' (lw_procs c p)) = false ∧ shar (at_pc pc' (lw_procs c p)) = false) as Hnone.
  { intros pc' Ho Hd. rewrite shar_own by (cfg_simpl; by destruct pc'). unfold excl. by rewrite Ho, Hh. }
  cfg_simpl. set (pc' := if _ && _ then WakeLock else Idle). destruct (Hnone pc') as [X1 X2]; [by unfold pc'; destruct (_ && _)|by unfold pc'; destruct (_ && _)|].
  assert (crit (at_pc pc' (lw_procs c p)) = crit (lw_procs c p)) as X3 by (unfold crit; rewrite Hpc; unfold pc'; by destruct (_ && _)).
  destruct Hm as [->| ->]; cbn [released] in *; split; try done.
  - left. split; [done|]. rewrite X2. unfold shar, owned. by rewrite Hpc.
  - right. right. split; [unfold excl, owned; by rewrite Hpc|done].
  - by left.
  - right. right. split_and!; [unfold shar, owned; by rewrite Hpc|done|done].
  - left. split; [done|]. rewrite X1. unfold excl, owned. by rewrite Hpc.
  - by left.
Qed.

Lemma run_wake c c' f p : word_inv c f → p ∈ threads → lw_run mask_id p c = Some c' →
  match lp_pc (lw_procs c p) with WakeLock | WakeCollect | WakeRead _ _ | WakeCas _ _ _ | WakeUp _ | WakeSem _ _ => True | _ => False end → ∃ f', stepped c p f f' c'.
Proof.
  intros I Hp Hr Hcase. pose proof (wi_threads _ _ I p Hp) as T. unfold thread_ok in T. open_run in Hr. destruct (lp_pc (lw_procs c p)) eqn:Hpc; try done; clear Hcase.
  - eapply (run_locks c c' f p _ I Hp Hr); sides Hpc I; intros; after Hpc.
  - destruct (collect _ _ _) as [[wk rest] ok]. injection Hr as <-. calm Hpc I p f.
  - injection Hr as <-. calm Hpc I p f.
  - injection Hr as <-. destruct (Z.eqb_spec (lw_state c) old) as [E|E].
    2:{ exists f. split; [|unfold release_after, waiters_after; rewrite Hpc, (proj2 (Z.eqb_neq _ _)) by done; by destruct wakeup]. apply (calm_step _ _ f f p I); try done; sides Hpc I. }
    set (f1 := f_set_release release_ok f). set (f2 := if bool_decide (wakeup = []) then f_set_waiters false f1 else f1). exists (f_set_locked false f2).
    assert (f_count f2 = f_count f ∧ f_excl f2 = f_excl f) as [E1 E2] by (unfold f2; by case_bool_decide).
    assert (wake_word wakeup release_ok old = word (f_set_locked false f2)) as Ew.
    { unfold wake_word. rewrite <- E, (wi_word _ _ I). pose proof (wi_counts _ _ I) as Hc.
      assert ((if release_ok then set_flag LW_FLAG_RELEASE_OK (word f) else drop_flag LW_FLAG_RELEASE_OK (word f)) = word f1) as -> by (unfold f1; destruct release_ok; [by apply set_release|by apply clear_release]).
      assert ((if bool_decide (wakeup = []) then drop_flag LW_FLAG_HAS_WAITERS (word f1) else word f1) = word f2) as -> by (unfold f2; case_bool_decide; [by apply clear_waiters|done]).
      apply clear_locked. by rewrite E1. }
    split.
    + apply (locking_step _ _ f _ p I); try done; [others|unfold thread_ok; by cfg_simpl|..]; unfold excl, shar, owned, crit; cfg_simpl; rewrite ?Hpc; try done. by right.
    + unfold release_after, waiters_after. rewrite Hpc, (proj2 (Z.eqb_eq _ _)) by done. unfold f2. cbn. case_bool_decide as Hw; cbn; [subst wakeup; done|]. by destruct wakeup.
  - destruct wakeup as [|q wk]; injection Hr as <-; [calm Hpc I p f|]. exists f. split; [|after Hpc]. apply (calm_step _ _ f f p I); try done; [|apply (wi_word _ _ I)|..].
    + intros r Hne. cfg_simpl. rewrite (proj2 (Z.eqb_neq r p)) by done. by destruct (r =? q).
    + unfold thread_ok. cfg_simpl. by destruct (p =? q).
    + unfold excl, owned. cfg_simpl. rewrite Hpc. by destruct (p =? q).
    + unfold shar, owned. cfg_simpl. rewrite Hpc. by destruct (p =? q).
    + unfold crit. cfg_simpl. by rewrite Hpc.
  - injection Hr as <-. exists f. split; [|after Hpc]. apply (calm_step _ _ f f p I); try done; [|apply (wi_word _ _ I)|..].
    + intros r Hne. cfg_simpl. rewrite (proj2 (Z.eqb_neq r p)) by done. by destruct (r =? q).
    + unfold thread_ok. cfg_simpl. by destruct (p =? q).
    + unfold excl, owned. cfg_simpl. rewrite Hpc. by destruct (p =? q).
    + unfold shar, owned. cfg_simpl. rewrite Hpc. by destruct (p =? q).
    + unfold crit. cfg_simpl. by rewrite Hpc.
Qed.

(** An exclusive holder is alone. *)
Lemma alone_counts c f p i : word_inv c f → p ∈ threads → excl (lw_procs c p) = true → shar (lw_procs c p) = false → 0 ≤ i < 6 → f_excl f = true ∧ f_count f i = 0.
Proof.
  intros I Hp He Hs Hi. split; [apply (wi_excl _ _ I); by exists p|]. rewrite (wi_count _ _ I) by done. apply count_zero. intros q Hq. destruct (decide (q = p)) as [->|Hne]; [by rewrite Hs|].
  by rewrite (proj2 (wi_alone _ _ I p q Hp Hq He Hne)).
Qed.

Lemma run_holder c c' f p : word_inv c f → p ∈ threads → lw_run mask_id p c = Some c' →
  match lp_pc (lw_procs c p) with DownRead | DownCas _ | DownSub | UpdLock _ | UpdCollect _ | UpdUnlock _ | ClearLock _ | ClearValue _ | ClearUnlock => True | _ => False end → ∃ f', stepped c p f f' c'.
Proof.
  intros I Hp Hr Hcase. pose proof (wi_threads _ _ I p Hp) as T. unfold thread_ok in T. open_run in Hr. destruct (lp_pc (lw_procs c p)) eqn:Hpc; try done; clear Hcase.
  - injection Hr as <-. calm Hpc I p f. split; [done|]. exists f. split_and!; [apply (wi_counts _ _ I)| |done]. apply (wi_excl _ _ I). exists p. split; [done|]. unfold excl, owned. by rewrite Hpc, T.
  - destruct T as (Hh & g & Hg & Hge & ->). destruct (alone_counts c f p (mask_id p) I Hp) as [He H0]; [unfold excl, owned; by rewrite Hpc, Hh|unfold shar, owned; by rewrite Hpc, Hh|apply Hmask|].
    pose proof (down_cas mask_id Hmask p g f Hg Hge (wi_counts _ _ I) He H0) as Hcas. rewrite (wi_word _ _ I) in Hr. destruct (attempt_cas _ _ _ _ _) as [w|old'].
    + injection Hr as <-. subst w. exists (f_set_count (bump (mask_id p) 1 (f_count f)) f). split; [|after Hpc]. apply (word_step c _ f _ p I Hp); [others|done|unfold thread_ok; by cfg_simpl|]. cfg_simpl. split; cbn.
      * right. left. split_and!; [unfold shar, owned; by rewrite Hpc, Hh|unfold shar; by rewrite orb_true_r|done|right; unfold excl, owned; by rewrite Hpc, Hh].
      * apply bump_ok; [apply Hmask|apply (wi_counts _ _ I)|lia].
      * left. split; [done|]. unfold excl, owned. cfg_simpl. by rewrite Hpc.
      * left. split; [done|]. unfold crit. cfg_simpl. by rewrite Hpc.
    + injection Hr as <-. calm Hpc I p f.
  - injection Hr as <-. assert (f_excl f = true) as He by (apply (wi_excl _ _ I); exists p; split; [done|]; unfold excl, owned; by rewrite Hpc, T).
    destruct (release_word mask_id Hmask p LW_EXCLUSIVE f (wi_counts _ _ I)) as [Ew Hc]; [by left|done|done|]. cbn [release_val] in Ew. rewrite (wi_word _ _ I), Ew. cbn [released] in *.
    exists (f_set_excl false f). split; [|after Hpc]. set (w := word _). apply (word_step c _ f _ p I Hp); [others|done| |].
    + unfold thread_ok. cfg_simpl. destruct (has_both w); cfg_simpl; intros m [= <-]; by right.
    + cfg_simpl. set (x' := at_pc _ _). assert (owned x' = Some LW_SHARED) as Ho by (unfold x', owned; cfg_simpl; by destruct (has_both w)).
      assert (shar x' = true) as Hs by (unfold shar; rewrite Ho; done). split; [left|done|right; right|left].
      * split; [done|]. rewrite Hs. unfold shar. rewrite Hpc. by rewrite orb_true_r.
      * split_and!; [unfold excl, owned; by rewrite Hpc, T|unfold excl; by rewrite Ho|done].
      * split; [done|]. unfold crit. rewrite Hpc. unfold x'. cfg_simpl. by destruct (has_both w).
  - eapply (run_locks c c' f p _ I Hp Hr); sides Hpc I; intros; after Hpc.
  - destruct (front_waiters _ _) as [wk rest]. injection Hr as <-. calm Hpc I p f.
  - injection Hr as <-. unlocks Hpc I p f. rewrite T. intros m [= <-]. by left.
  - eapply (run_locks c c' f p _ I Hp Hr); sides Hpc I; intros; after Hpc.
  - injection Hr as <-. calm Hpc I p f.
  - injection Hr as <-. unlocks Hpc I p f; rewrite ?T; try done. split; [done|by left].
Qed.

(** Every step but that of a thread that finds itself waiting when it wants to queue. *)
Lemma run_word c c' f p : word_inv c f → p ∈ threads → lw_run mask_id p c = Some c' →
  (∀ o, lp_pc (lw_procs c p) = QueueLock o → lwWaiting (lw_procs c p) = false) → ∃ f', stepped c p f f' c'.
Proof.
  intros I Hp Hr Hq. destruct (lp_pc (lw_procs c p)) eqn:Hpc;
    try (apply (run_var c c' f p I Hp Hr); by rewrite Hpc); try (apply (run_queue c c' f p I Hp Hr); rewrite Hpc; by eauto); try (apply (run_dequeue c c' f p I Hp Hr); by rewrite Hpc);
    try (apply (run_sleep c c' f p I Hp Hr); by rewrite Hpc); try (apply (run_wake c c' f p I Hp Hr); by rewrite Hpc); try (apply (run_holder c c' f p I Hp Hr); by rewrite Hpc).
  - open_run in Hr. by rewrite Hpc in Hr.
  - open_run in Hr. by rewrite Hpc in Hr.
  - exists f. by eapply run_attempt.
  - by eapply run_cas.
  - eexists. by eapply run_release.
Qed.
End Spec.
