(* ===== verification/LwQueue.v ===== *)
(** * Lightweight locks: the queue

    A thread is in the queue, on the list of one that wakes it, or neither, as its flag
    says; none is lost and none is there twice. *)

From S2P Require Import Prelude HeapTuple LockDefs LwLock LwWord LwLockSpec.

(** The waiters that a thread has taken off the queue and will wake. *)
Definition wake_list (x : lwproc) : list Z :=
  match lp_pc x with WakeRead wk _ | WakeCas wk _ _ | WakeUp wk | WakeSem _ wk | UpdUnlock wk => wk | _ => [] end.

(** From queueing itself to having left the queue, or been woken. *)
Definition queued_op (x : lwproc) : option lwop :=
  match lp_pc x with
  | QueueUnlock o | AttemptRead o true | AttemptCas o true _ | VarReleaseOk o | VarState o true | VarLock o true | VarValue o true | VarUnlock o true _
  | DeqLock o _ | DeqRemove o _ | DeqTest o _ _ | DeqClear o _ _ | DeqUnlock o _ _ | DeqReleaseOk o _ | DeqSem o _ _ | Sleep o => Some o
  | _ => None
  end.

(** It has removed itself, or has found that another thread has removed it. *)
Definition removed_self (x : lwproc) : bool := match lp_pc x with DeqTest _ _ true | DeqClear _ _ true | DeqUnlock _ _ true => true | _ => false end.
Definition removed_by_other (x : lwproc) : bool :=
  match lp_pc x with DeqTest _ _ false | DeqClear _ _ false | DeqUnlock _ _ false | DeqReleaseOk _ _ | DeqSem _ _ _ => true | _ => false end.

Section Queue.
Variable mask_id : Z → Z.
Hypothesis Hmask : ∀ p, 0 ≤ mask_id p < 6.
Variable threads : list Z.
Hypothesis Hnd : NoDup threads.
Variable timed : bool.

Definition on_list (c : lwcfg) (q : Z) : Prop := ∃ w, w ∈ threads ∧ q ∈ wake_list (lw_procs c w).

Record queue_inv (c : lwcfg) : Prop := {
  qi_nodup : NoDup (lw_waiters c);
  qi_lists : ∀ w, w ∈ threads → NoDup (wake_list (lw_procs c w));
  qi_apart : ∀ q, on_list c q → q ∉ lw_waiters c;
  qi_once : ∀ w w' q, w ∈ threads → w' ∈ threads → q ∈ wake_list (lw_procs c w) → q ∈ wake_list (lw_procs c w') → w' = w;
  qi_threads : ∀ q, q ∈ lw_waiters c ∨ on_list c q → q ∈ threads;
  qi_waiting : ∀ q, q ∈ threads → (lwWaiting (lw_procs c q) = true ↔ (q ∈ lw_waiters c) ∨ on_list c q ∨ removed_self (lw_procs c q) = true);
  qi_self : ∀ q, q ∈ threads → removed_self (lw_procs c q) = true → (q ∉ lw_waiters c) ∧ ¬ (on_list c q);
  qi_other : ∀ q, q ∈ threads → removed_by_other (lw_procs c q) = true → q ∉ lw_waiters c;
  qi_pc : ∀ q, q ∈ threads → lwWaiting (lw_procs c q) = true → is_Some (queued_op (lw_procs c q));
  qi_mode : ∀ q o, q ∈ threads → queued_op (lw_procs c q) = Some o → lwWaitMode (lw_procs c q) = wait_mode o;
}.

(** A step that leaves the queue and the lists alone. *)
Lemma queue_calm c c' p :
  queue_inv c → p ∈ threads → lw_waiters c' = lw_waiters c →
  (∀ q, q ≠ p → lp_pc (lw_procs c' q) = lp_pc (lw_procs c q) ∧ lwWaiting (lw_procs c' q) = lwWaiting (lw_procs c q) ∧ lwWaitMode (lw_procs c' q) = lwWaitMode (lw_procs c q)) →
  wake_list (lw_procs c' p) = wake_list (lw_procs c p) → lwWaiting (lw_procs c' p) = lwWaiting (lw_procs c p) → removed_self (lw_procs c' p) = removed_self (lw_procs c p) →
  (removed_by_other (lw_procs c' p) = true → removed_by_other (lw_procs c p) = true ∨ p ∉ lw_waiters c) →
  (lwWaiting (lw_procs c p) = true → is_Some (queued_op (lw_procs c' p))) →
  (∀ o, queued_op (lw_procs c' p) = Some o → lwWaitMode (lw_procs c' p) = wait_mode o) → queue_inv c'.
Proof.
  intros [Q1 Q2 Q3 Q4 Q5 Q6 Q7 Q8 Q9 Q10] Hp Ew Hq El Ewt Er Hro Hpc Hm.
  assert (∀ q, wake_list (lw_procs c' q) = wake_list (lw_procs c q)) as Hl by (intros q; destruct (decide (q = p)) as [->|Hne]; [done|]; unfold wake_list; by rewrite (proj1 (Hq q Hne))).
  assert (∀ q, on_list c' q ↔ on_list c q) as Ho by (intros q; unfold on_list; by setoid_rewrite Hl).
  assert (∀ q, lwWaiting (lw_procs c' q) = lwWaiting (lw_procs c q)) as Hwt by (intros q; destruct (decide (q = p)) as [->|Hne]; [done|]; apply (Hq q Hne)).
  assert (∀ q, removed_self (lw_procs c' q) = removed_self (lw_procs c q)) as Hrs by (intros q; destruct (decide (q = p)) as [->|Hne]; [done|]; unfold removed_self; by rewrite (proj1 (Hq q Hne))).
  split; rewrite ?Ew; try done.
  - intros w Hw. rewrite Hl. by apply Q2.
  - intros q. rewrite Ho. apply Q3.
  - intros w w' q. rewrite !Hl. apply Q4.
  - intros q. rewrite Ho. apply Q5.
  - intros q Hqt. rewrite Hwt, Ho, Hrs. by apply Q6.
  - intros q Hqt. rewrite Ho, Hrs. by apply Q7.
  - intros q Hqt Hr. destruct (decide (q = p)) as [->|Hne]; [destruct (Hro Hr) as [?|?]; [by apply Q8|done]|]. apply Q8; [done|]. unfold removed_by_other in *. by rewrite (proj1 (Hq q Hne)) in Hr.
  - intros q Hqt. rewrite Hwt. intros Hw. destruct (decide (q = p)) as [->|Hne]; [by apply Hpc|]. destruct (Q9 q Hqt Hw) as [o Eo]. exists o. unfold queued_op in *. by rewrite (proj1 (Hq q Hne)).
  - intros q o Hqt Eo. destruct (decide (q = p)) as [->|Hne]; [by apply Hm|]. rewrite (proj2 (proj2 (Hq q Hne))). apply Q10; [done|]. unfold queued_op in *. by rewrite (proj1 (Hq q Hne)) in Eo.
Qed.

(** The thread is not waiting at a point before it has queued itself. *)
Lemma not_waiting c p : queue_inv c → p ∈ threads → queued_op (lw_procs c p) = None → lwWaiting (lw_procs c p) = false.
Proof. intros Q Hp Hn. apply not_true_is_false. intros Hw. destruct (qi_pc _ Q p Hp Hw) as [o Ho]. congruence. Qed.

Lemma not_queued c p : queue_inv c → p ∈ threads → queued_op (lw_procs c p) = None → (p ∉ lw_waiters c) ∧ ¬ on_list c p.
Proof. intros Q Hp Hn. pose proof (not_waiting c p Q Hp Hn) as Hw. split; intros Hx; assert (lwWaiting (lw_procs c p) = true) by (apply (qi_waiting _ Q p Hp); auto); congruence. Qed.

Lemma on_list_other c c' p q : wake_list (lw_procs c p) = wake_list (lw_procs c' p) → (∀ r, r ≠ p → lp_pc (lw_procs c' r) = lp_pc (lw_procs c r)) → on_list c' q ↔ on_list c q.
Proof.
  intros E Hq. assert (∀ r, wake_list (lw_procs c' r) = wake_list (lw_procs c r)) as Hl by (intros r; destruct (decide (r = p)) as [->|Hne]; [done|]; unfold wake_list; by rewrite Hq).
  unfold on_list. by setoid_rewrite Hl.
Qed.

Definition same_others (p : Z) (c c' : lwcfg) : Prop :=
  ∀ q, q ≠ p → lp_pc (lw_procs c' q) = lp_pc (lw_procs c q) ∧ lwWaiting (lw_procs c' q) = lwWaiting (lw_procs c q) ∧ lwWaitMode (lw_procs c' q) = lwWaitMode (lw_procs c q).

Lemma pc_attrs x x' : lp_pc x' = lp_pc x → wake_list x' = wake_list x ∧ queued_op x' = queued_op x ∧ removed_self x' = removed_self x ∧ removed_by_other x' = removed_by_other x.
Proof. intros E. unfold wake_list, queued_op, removed_self, removed_by_other. by rewrite E. Qed.

(** It joins the queue. *)
Lemma queue_push c c' p o :
  queue_inv c → p ∈ threads → lp_pc (lw_procs c p) = QueuePush o → lp_pc (lw_procs c' p) = QueueUnlock o → lw_waiters c' ≡ₚ p :: lw_waiters c → same_others p c c' →
  lwWaiting (lw_procs c' p) = true → lwWaitMode (lw_procs c' p) = wait_mode o → queue_inv c'.
Proof.
  intros Q Hp Hpc Hpc' Hw Hq Hwt Hm. pose proof (not_waiting c p Q Hp) as Hnw. unfold queued_op in Hnw. rewrite Hpc in Hnw. specialize (Hnw eq_refl). pose proof Q as [Q1 Q2 Q3 Q4 Q5 Q6 Q7 Q8 Q9 Q10].
  assert ((p ∉ lw_waiters c) ∧ ¬ on_list c p) as [Hpw Hpl] by (split; intros Hx; assert (lwWaiting (lw_procs c p) = true) by (apply Q6; auto); congruence).
  assert (∀ r, on_list c' r ↔ on_list c r) as Ho by (intros r; apply (on_list_other c c' p); [unfold wake_list; by rewrite Hpc, Hpc'|intros y Hne; apply (Hq y Hne)]).
  assert (∀ r, wake_list (lw_procs c' r) = wake_list (lw_procs c r)) as Hl by (intros r; destruct (decide (r = p)) as [->|Hne]; [unfold wake_list; by rewrite Hpc, Hpc'|apply pc_attrs, (Hq r Hne)]).
  split.
  - rewrite Hw. by apply NoDup_cons.
  - intros w Hwth. rewrite Hl. by apply Q2.
  - intros r Hr. rewrite Ho in Hr. rewrite Hw. intros [->|Hx]%elem_of_cons; [done|by apply (Q3 r)].
  - intros w w' r. rewrite !Hl. apply Q4.
  - intros r. rewrite Hw, Ho. intros [[->|Hx]%elem_of_cons|Hx]; [done|apply Q5; by left|apply Q5; by right].
  - intros r Hr. rewrite Hw, Ho, elem_of_cons. destruct (decide (r = p)) as [->|Hne].
    + split; [intros _; left; by left|done].
    + destruct (Hq r Hne) as (E1 & E2 & _). destruct (pc_attrs _ _ E1) as (_ & _ & -> & _). rewrite E2, (Q6 r Hr). naive_solver.
  - intros r Hr Hs. destruct (decide (r = p)) as [->|Hne]; [unfold removed_self in Hs; by rewrite Hpc' in Hs|]. destruct (Hq r Hne) as (E1 & _). destruct (pc_attrs _ _ E1) as (_ & _ & E & _). rewrite E in Hs.
    destruct (Q7 r Hr Hs). rewrite Hw, Ho, elem_of_cons. naive_solver.
  - intros r Hr Hs. destruct (decide (r = p)) as [->|Hne]; [unfold removed_by_other in Hs; by rewrite Hpc' in Hs|]. destruct (Hq r Hne) as (E1 & _). destruct (pc_attrs _ _ E1) as (_ & _ & _ & E). rewrite E in Hs.
    rewrite Hw, elem_of_cons. pose proof (Q8 r Hr Hs). naive_solver.
  - intros r Hr Hx. destruct (decide (r = p)) as [->|Hne]; [exists o; unfold queued_op; by rewrite Hpc'|]. destruct (Hq r Hne) as (E1 & E2 & _). destruct (pc_attrs _ _ E1) as (_ & -> & _). rewrite E2 in Hx. by apply Q9.
  - intros r o' Hr Hx. destruct (decide (r = p)) as [->|Hne]; [unfold queued_op in Hx; rewrite Hpc' in Hx; injection Hx as <-; done|].
    destruct (Hq r Hne) as (E1 & _ & ->). destruct (pc_attrs _ _ E1) as (_ & E & _). rewrite E in Hx. by apply Q10.
Qed.

(** It looks for itself in the queue, and leaves it. *)
Lemma queue_remove c c' p o got (found := bool_decide (p ∈ lw_waiters c)) :
  queue_inv c → p ∈ threads → lp_pc (lw_procs c p) = DeqRemove o got → lp_pc (lw_procs c' p) = DeqTest o got found ∨ lp_pc (lw_procs c' p) = DeqUnlock o got found →
  lw_waiters c' = filter (λ q, q ≠ p) (lw_waiters c) → same_others p c c' → lwWaiting (lw_procs c' p) = lwWaiting (lw_procs c p) → lwWaitMode (lw_procs c' p) = lwWaitMode (lw_procs c p) → queue_inv c'.
Proof.
  intros Q Hp Hpc Hpc' Hw Hq Hwt Hm. pose proof Q as [Q1 Q2 Q3 Q4 Q5 Q6 Q7 Q8 Q9 Q10].
  assert (wake_list (lw_procs c' p) = [] ∧ queued_op (lw_procs c' p) = Some o ∧ removed_self (lw_procs c' p) = found ∧ removed_by_other (lw_procs c' p) = negb found) as (P1 & P2 & P3 & P4)
    by (unfold wake_list, queued_op, removed_self, removed_by_other; destruct Hpc' as [-> | ->]; by destruct found).
  assert (wake_list (lw_procs c p) = [] ∧ queued_op (lw_procs c p) = Some o ∧ removed_self (lw_procs c p) = false) as (P5 & P6 & P7) by (unfold wake_list, queued_op, removed_self; by rewrite Hpc).
  assert (∀ r, on_list c' r ↔ on_list c r) as Ho by (intros r; apply (on_list_other c c' p); [by rewrite P1, P5|intros y Hne; apply (Hq y Hne)]).
  assert (∀ r, wake_list (lw_procs c' r) = wake_list (lw_procs c r)) as Hl by (intros r; destruct (decide (r = p)) as [->|Hne]; [by rewrite P1, P5|apply pc_attrs, (Hq r Hne)]).
  assert (∀ r, r ∈ lw_waiters c' ↔ r ≠ p ∧ r ∈ lw_waiters c) as Hin by (intros r; by rewrite Hw, list_elem_of_filter).
  split.
  - rewrite Hw. by apply NoDup_filter.
  - intros w Hwth. rewrite Hl. by apply Q2.
  - intros r Hr. rewrite Ho in Hr. rewrite Hin. intros [_ Hx]. by apply (Q3 r).
  - intros w w' r. rewrite !Hl. apply Q4.
  - intros r. rewrite Hin, Ho. intros [[_ Hx]|Hx]; apply Q5; auto.
  - intros r Hr. rewrite Hin, Ho. destruct (decide (r = p)) as [->|Hne].
    + rewrite Hwt, (Q6 p Hp), P3, P7. unfold found. rewrite bool_decide_eq_true. naive_solver.
    + destruct (Hq r Hne) as (E1 & E2 & _). destruct (pc_attrs _ _ E1) as (_ & _ & -> & _). rewrite E2, (Q6 r Hr). naive_solver.
  - intros r Hr Hs. rewrite Hin, Ho. destruct (decide (r = p)) as [->|Hne].
    + rewrite P3 in Hs. apply bool_decide_eq_true in Hs. split; [naive_solver|]. intros Hx. by apply (Q3 p).
    + destruct (Hq r Hne) as (E1 & _). destruct (pc_attrs _ _ E1) as (_ & _ & E & _). rewrite E in Hs. destruct (Q7 r Hr Hs). naive_solver.
  - intros r Hr Hs. rewrite Hin. destruct (decide (r = p)) as [->|Hne]; [naive_solver|]. destruct (Hq r Hne) as (E1 & _). destruct (pc_attrs _ _ E1) as (_ & _ & _ & E). rewrite E in Hs. pose proof (Q8 r Hr Hs). naive_solver.
  - intros r Hr Hx. destruct (decide (r = p)) as [->|Hne]; [by rewrite P2|]. destruct (Hq r Hne) as (E1 & E2 & _). destruct (pc_attrs _ _ E1) as (_ & -> & _). rewrite E2 in Hx. by apply Q9.
  - intros r o' Hr Hx. destruct (decide (r = p)) as [->|Hne]; [rewrite P2 in Hx; injection Hx as <-; rewrite Hm; by apply Q10|].
    destruct (Hq r Hne) as (E1 & _ & ->). destruct (pc_attrs _ _ E1) as (_ & E & _). rewrite E in Hx. by apply Q10.
Qed.
(** A thread that wakes others takes some off the queue. *)
Lemma queue_take c c' p wk rest :
  queue_inv c → p ∈ threads → wake_list (lw_procs c p) = [] → wake_list (lw_procs c' p) = wk → queued_op (lw_procs c p) = None → queued_op (lw_procs c' p) = None →
  lw_waiters c ≡ₚ wk ++ rest → lw_waiters c' = rest → same_others p c c' → lwWaiting (lw_procs c' p) = lwWaiting (lw_procs c p) → queue_inv c'.
Proof.
  intros Q Hp P1 P2 P3 P4 Hperm Hw Hq Hwt. pose proof Q as [Q1 Q2 Q3 Q4 Q5 Q6 Q7 Q8 Q9 Q10].
  assert (∀ x, queued_op x = None → removed_self x = false ∧ removed_by_other x = false) as Hrem by (intros x; unfold queued_op, removed_self, removed_by_other; destruct (lp_pc x); done).
  destruct (Hrem _ P3) as [R1 R2], (Hrem _ P4) as [R3 R4]. rewrite Hperm in Q1. apply NoDup_app in Q1 as (Nwk & Ndis & Nrest).
  assert (∀ r, r ∈ lw_waiters c ↔ (r ∈ wk) ∨ (r ∈ rest)) as Hin by (intros r; by rewrite Hperm, elem_of_app).
  assert (∀ r, r ≠ p → wake_list (lw_procs c' r) = wake_list (lw_procs c r)) as Hl by (intros r Hne; apply pc_attrs, (Hq r Hne)).
  assert (∀ r, on_list c' r ↔ on_list c r ∨ (r ∈ wk)) as Ho.
  { intros r. split.
    - intros (w & Hwt' & Hr). destruct (decide (w = p)) as [->|Hne]; [right; by rewrite <- P2|left; exists w; by rewrite <- Hl].
    - intros [(w & Hwt' & Hr)|Hr]; [|exists p; by rewrite P2]. exists w. split; [done|]. destruct (decide (w = p)) as [->|Hne]; [rewrite P1 in Hr; by apply not_elem_of_nil in Hr|by rewrite Hl]. }
  split; rewrite ?Hw.
  - done.
  - intros w Hwth. destruct (decide (w = p)) as [->|Hne]; [by rewrite P2|rewrite Hl by done; by apply Q2].
  - intros r [Hr|Hr]%Ho Hx; [apply (Q3 r Hr), Hin; by right|by apply (Ndis r)].
  - assert (∀ w r, w ∈ threads → w ≠ p → r ∈ wake_list (lw_procs c w) → r ∉ wk) as Hno by (intros w r Hwth Hne Hr Hx; apply (Q3 r); [by exists w|apply Hin; by left]).
    intros w w' r Hwth Hwth'. destruct (decide (w = p)) as [->|Hne], (decide (w' = p)) as [->|Hne']; rewrite ?P2, ?Hl by done; [done|..]; intros H1 H2; [by destruct (Hno w' r)|by destruct (Hno w r)|by apply (Q4 w w' r)].
  - intros r [Hr|[Hr|Hr]%Ho]; apply Q5; [left; apply Hin; by right|by right|left; apply Hin; by left].
  - intros r Hr. rewrite Ho. destruct (decide (r = p)) as [->|Hne].
    + rewrite Hwt, (Q6 p Hp), R1, R3, Hin. tauto.
    + destruct (Hq r Hne) as (E1 & -> & _). destruct (pc_attrs _ _ E1) as (_ & _ & -> & _). rewrite (Q6 r Hr), Hin. tauto.
  - intros r Hr Hs. destruct (decide (r = p)) as [->|Hne]; [congruence|]. destruct (Hq r Hne) as (E1 & _). destruct (pc_attrs _ _ E1) as (_ & _ & E & _). rewrite E in Hs.
    destruct (Q7 r Hr Hs) as [Hx Hy]. rewrite Ho. rewrite Hin in Hx. tauto.
  - intros r Hr Hs Hx. destruct (decide (r = p)) as [->|Hne]; [congruence|]. destruct (Hq r Hne) as (E1 & _). destruct (pc_attrs _ _ E1) as (_ & _ & _ & E). rewrite E in Hs.
    apply (Q8 r Hr Hs), Hin. by right.
  - intros r Hr Hx. destruct (decide (r = p)) as [->|Hne].
    + rewrite Hwt in Hx. destruct (Q9 p Hp Hx) as [o Eo]. congruence.
    + destruct (Hq r Hne) as (E1 & E2 & _). destruct (pc_attrs _ _ E1) as (_ & -> & _). rewrite E2 in Hx. by apply Q9.
  - intros r o Hr Hx. destruct (decide (r = p)) as [->|Hne]; [congruence|]. destruct (Hq r Hne) as (E1 & _ & ->). destruct (pc_attrs _ _ E1) as (_ & E & _). rewrite E in Hx. by apply Q10.
Qed.

(** It tells the first of them. *)
Lemma queue_wake c c' p q wk :
  queue_inv c → p ∈ threads → lp_pc (lw_procs c p) = WakeUp (q :: wk) → lp_pc (lw_procs c' p) = WakeSem q wk → lw_waiters c' = lw_waiters c →
  (∀ r, r ≠ p → lp_pc (lw_procs c' r) = lp_pc (lw_procs c r)) → (∀ r, lwWaitMode (lw_procs c' r) = lwWaitMode (lw_procs c r)) →
  (∀ r, lwWaiting (lw_procs c' r) = if decide (r = q) then false else lwWaiting (lw_procs c r)) → queue_inv c'.
Proof.
  intros Q Hp Hpc Hpc' Hw Hq Hm Hwt. pose proof Q as [Q1 Q2 Q3 Q4 Q5 Q6 Q7 Q8 Q9 Q10].
  assert (∀ r, r ≠ p → wake_list (lw_procs c' r) = wake_list (lw_procs c r)) as Hl by (intros r Hne; by apply pc_attrs, Hq).
  assert (∀ r, queued_op (lw_procs c' r) = queued_op (lw_procs c r) ∧ removed_self (lw_procs c' r) = removed_self (lw_procs c r) ∧ removed_by_other (lw_procs c' r) = removed_by_other (lw_procs c r)) as Hat.
  { intros r. destruct (decide (r = p)) as [->|Hne]; [unfold queued_op, removed_self, removed_by_other; by rewrite Hpc, Hpc'|by apply pc_attrs, Hq]. }
  assert (wake_list (lw_procs c p) = q :: wk ∧ wake_list (lw_procs c' p) = wk) as [P1 P2] by (unfold wake_list; by rewrite Hpc, Hpc').
  pose proof (Q2 p Hp) as Nwk. rewrite P1 in Nwk. apply NoDup_cons in Nwk as [Nq Nwk]. assert (on_list c q) as Hoq by (exists p; rewrite P1; split; [done|left]).
  assert (∀ r, on_list c' r ↔ on_list c r ∧ r ≠ q) as Ho.
  { intros r. split.
    - intros (w & Hwth & Hr). destruct (decide (w = p)) as [->|Hne].
      + rewrite P2 in Hr. split; [exists p; rewrite P1; split; [done|by right]|by intros ->].
      + rewrite Hl in Hr by done. split; [by exists w|]. intros ->. apply Hne. apply (Q4 p w q); try done. rewrite P1. left.
    - intros [(w & Hwth & Hr) Hrq]. exists w. split; [done|]. destruct (decide (w = p)) as [->|Hne]; [|by rewrite Hl]. rewrite P1 in Hr. rewrite P2. by apply elem_of_cons in Hr as [->|Hr]. }
  split; rewrite ?Hw; try done.
  - intros w Hwth. destruct (decide (w = p)) as [->|Hne]; [by rewrite P2|rewrite Hl by done; by apply Q2].
  - intros r [Hr _]%Ho. by apply Q3.
  - intros w w' r Hwth Hwth' H1 H2. apply (Q4 w w' r); try done; [destruct (decide (w = p)) as [->|Hne]|destruct (decide (w' = p)) as [->|Hne]]; rewrite <- ?Hl by done; try done; rewrite P1; right; by rewrite <- P2.
  - intros r [Hr|[Hr _]%Ho]; apply Q5; auto.
  - intros r Hr. rewrite Hwt, Ho. destruct (Hat r) as (_ & -> & _). case_decide as Hrq; [subst r|rewrite (Q6 r Hr); tauto].
    split; [done|]. intros [Hx|[[_ Hx]|Hx]]; [by destruct (Q3 q Hoq)|done|]. by destruct (Q7 q Hr Hx).
  - intros r Hr. destruct (Hat r) as (_ & -> & _). rewrite Ho. intros Hs. destruct (Q7 r Hr Hs). tauto.
  - intros r Hr. destruct (Hat r) as (_ & _ & ->). by apply Q8.
  - intros r Hr. rewrite Hwt. destruct (Hat r) as (-> & _). case_decide; [done|]. by apply Q9.
  - intros r o Hr. rewrite Hm. destruct (Hat r) as (-> & _). by apply Q10.
Qed.

(** It has left the queue by itself. *)
Lemma queue_left c c' p :
  queue_inv c → p ∈ threads → removed_self (lw_procs c p) = true → wake_list (lw_procs c p) = [] → wake_list (lw_procs c' p) = [] → queued_op (lw_procs c' p) = None →
  lw_waiters c' = lw_waiters c → same_others p c c' → lwWaiting (lw_procs c' p) = false → queue_inv c'.
Proof.
  intros Q Hp Hs P1 P2 P3 Hw Hq Hwt. pose proof Q as [Q1 Q2 Q3 Q4 Q5 Q6 Q7 Q8 Q9 Q10]. destruct (Q7 p Hp Hs) as [Hpw Hpl].
  assert (removed_self (lw_procs c' p) = false ∧ removed_by_other (lw_procs c' p) = false) as [R1 R2] by (revert P3; unfold queued_op, removed_self, removed_by_other; destruct (lp_pc _); done).
  assert (∀ r, on_list c' r ↔ on_list c r) as Ho by (intros r; apply (on_list_other c c' p); [by rewrite P1, P2|intros y Hne; apply (Hq y Hne)]).
  assert (∀ r, wake_list (lw_procs c' r) = wake_list (lw_procs c r)) as Hl by (intros r; destruct (decide (r = p)) as [->|Hne]; [by rewrite P1, P2|apply pc_attrs, (Hq r Hne)]).
  split; rewrite ?Hw; try done.
  - intros w Hwth. rewrite Hl. by apply Q2.
  - intros r. rewrite Ho. apply Q3.
  - intros w w' r. rewrite !Hl. apply Q4.
  - intros r. rewrite Ho. apply Q5.
  - intros r Hr. rewrite Ho. destruct (decide (r = p)) as [->|Hne]; [rewrite Hwt, R1; split; [done|]; intros [?|[?|?]]; done|].
    destruct (Hq r Hne) as (E1 & -> & _). destruct (pc_attrs _ _ E1) as (_ & _ & -> & _). by apply Q6.
  - intros r Hr. rewrite Ho. destruct (decide (r = p)) as [->|Hne]; [by rewrite R1|]. destruct (Hq r Hne) as (E1 & _). destruct (pc_attrs _ _ E1) as (_ & _ & -> & _). by apply Q7.
  - intros r Hr. destruct (decide (r = p)) as [->|Hne]; [by rewrite R2|]. destruct (Hq r Hne) as (E1 & _). destruct (pc_attrs _ _ E1) as (_ & _ & _ & ->). by apply Q8.
  - intros r Hr. destruct (decide (r = p)) as [->|Hne]; [by rewrite Hwt|]. destruct (Hq r Hne) as (E1 & -> & _). destruct (pc_attrs _ _ E1) as (_ & -> & _). by apply Q9.
  - intros r o Hr. destruct (decide (r = p)) as [->|Hne]; [by rewrite P3|]. destruct (Hq r Hne) as (E1 & _ & ->). destruct (pc_attrs _ _ E1) as (_ & -> & _). by apply Q10.
Qed.

(** Nobody is lost between the queue and the list of those to wake. *)
Lemma collect_perm mode : ∀ ws b wk rest ok, collect mode b ws = (wk, rest, ok) → ws ≡ₚ wk ++ rest.
Proof.
  induction ws as [|q ws IH]; intros b wk rest ok; cbn [collect]; [by intros [= <- <- <-]|].
  destruct (mode q); [destruct b|..]; [| |destruct (collect mode true ws) as [[wk' rest'] ok'] eqn:E|destruct (collect mode b ws) as [[wk' rest'] ok'] eqn:E].
  - destruct (collect mode true ws) as [[wk' rest'] ok'] eqn:E. intros [= <- <- <-]. rewrite (IH _ _ _ _ E). apply Permutation_middle.
  - by intros [= <- <- <-].
  - intros [= <- <- <-]. by rewrite (IH _ _ _ _ E).
  - intros [= <- <- <-]. by rewrite (IH _ _ _ _ E).
Qed.

Lemma front_perm mode : ∀ ws wk rest, front_waiters mode ws = (wk, rest) → ws ≡ₚ wk ++ rest.
Proof.
  induction ws as [|q ws IH]; intros wk rest; cbn [front_waiters]; [by intros [= <- <-]|].
  case_bool_decide; [|by intros [= <- <-]]. destruct (front_waiters mode ws) as [wk' rest']. intros [= <- <-]. by rewrite (IH _ _ eq_refl).
Qed.

(** The queue stays, and the thread is in it as before. *)
Ltac others_same := intros q' Hne'; cfg_simpl; rewrite ?(proj2 (Z.eqb_neq q' _)) by done; try done.
Ltac queue_stays Hpc Q Hp Hnw Hmd :=
  eapply (queue_calm _ _ _ Q Hp); [done|others_same|unfold wake_list, queued_op, removed_self, removed_by_other; cfg_simpl; rewrite ?Hpc; cfg_simpl; try done..];
  try (by left); try (by eauto); try (by intros o' [= <-]; apply (Hmd _ Hp)); try (rewrite (Hnw eq_refl); done); try congruence.

(** Points at which a step may change the queue or a list, or depends on who is there. *)
Definition queue_pc (pc : lwpc) : bool :=
  match pc with
  | AttemptRead _ _ | AttemptCas _ _ _ | QueueLock _ | QueuePush _ | DeqRemove _ _ | DeqUnlock _ _ _ | WakeCollect | WakeUp _ | WakeSem _ _ | UpdCollect _ => true
  | _ => false
  end.

Lemma run_queue_stays c c' f p : word_inv mask_id threads timed c f → queue_inv c → p ∈ threads → lw_run mask_id p c = Some c' → queue_pc (lp_pc (lw_procs c p)) = false → queue_inv c'.
Proof.
  intros I Q Hp Hr Hs. pose proof (wi_threads _ _ _ _ _ I p Hp) as T. pose proof (not_waiting c p Q Hp) as Hnw. pose proof (qi_mode _ Q p) as Hmd. unfold queued_op in Hnw, Hmd. unfold thread_ok in T.
  open_run in Hr. destruct (lp_pc (lw_procs c p)) eqn:Hpc; try discriminate Hs; clear Hs; try destruct second; try destruct found; branch Hr; try (by destruct T); queue_stays Hpc Q Hp Hnw Hmd.
Qed.

Lemma run_queue_inv c c' f p : word_inv mask_id threads timed c f → queue_inv c → p ∈ threads → lw_run mask_id p c = Some c' → queue_inv c'.
Proof.
  intros I Q Hp Hr. destruct (queue_pc (lp_pc (lw_procs c p))) eqn:Hs; [|by apply (run_queue_stays c c' f p)].
  pose proof (wi_threads _ _ _ _ _ I p Hp) as T. pose proof (not_waiting c p Q Hp) as Hnw. pose proof (qi_mode _ Q p) as Hmd. unfold queued_op in Hnw, Hmd. unfold thread_ok in T.
  open_run in Hr. destruct (lp_pc (lw_procs c p)) eqn:Hpc; try discriminate Hs; clear Hs.
  - destruct T as (_ & _ & Tv & T). destruct second; [|branch Hr; queue_stays Hpc Q Hp Hnw Hmd]. specialize (T eq_refl). branch Hr; try done; queue_stays Hpc Q Hp Hnw Hmd.
  - destruct T as (_ & _ & Tv & T & _). destruct second; [|branch Hr; queue_stays Hpc Q Hp Hnw Hmd]. specialize (T eq_refl). branch Hr; try done; queue_stays Hpc Q Hp Hnw Hmd.
  - rewrite (Hnw eq_refl) in Hr. branch Hr; queue_stays Hpc Q Hp Hnw Hmd.
  - injection Hr as <-. eapply (queue_push c _ p o Q Hp Hpc); [by cfg_simpl| |others_same|by cfg_simpl|by cfg_simpl]. cfg_simpl. destruct (wait_mode o); [|..|done]; by rewrite Permutation_app_comm.
  - injection Hr as <-. eapply (queue_remove c _ p o got Q Hp Hpc); [|by cfg_simpl|others_same|by cfg_simpl..]. cfg_simpl. case_bool_decide; auto.
  - destruct found; [|branch Hr; queue_stays Hpc Q Hp Hnw Hmd]. branch Hr;
      (eapply (queue_left c _ p Q Hp); [..|others_same|]; unfold removed_self, wake_list, queued_op; cfg_simpl; rewrite ?Hpc; done).
  - destruct (collect _ _ _) as [[wk rest] ok] eqn:E. injection Hr as <-.
    eapply (queue_take c _ p wk rest Q Hp); [..|by eapply collect_perm|by cfg_simpl|others_same|by cfg_simpl]; unfold wake_list, queued_op; cfg_simpl; by rewrite ?Hpc.
  - destruct wakeup as [|q wk]; injection Hr as <-; [queue_stays Hpc Q Hp Hnw Hmd|].
    eapply (queue_wake c _ p q wk Q Hp Hpc); [by cfg_simpl|done|..].
    + intros r Hne. cfg_simpl. rewrite (proj2 (Z.eqb_neq r p)) by done. by destruct (r =? q).
    + intros r. cfg_simpl. by destruct (r =? p), (r =? q).
    + intros r. cfg_simpl. case_decide as Hrq; [subst r; rewrite Z.eqb_refl; by destruct (q =? p)|]. rewrite (proj2 (Z.eqb_neq r q)) by done. by destruct (r =? p).
  - injection Hr as <-. eapply (queue_calm c _ p Q Hp); [done|..]; try (by cfg_simpl); try (by rewrite (Hnw eq_refl)).
    + intros r Hne. cfg_simpl. rewrite (proj2 (Z.eqb_neq r p)) by done. by destruct (r =? q).
    + unfold wake_list. cfg_simpl. by rewrite Hpc.
    + cfg_simpl. by destruct (p =? q).
    + unfold removed_self. cfg_simpl. by rewrite Hpc.
  - destruct (front_waiters _ _) as [wk rest] eqn:E. injection Hr as <-.
    eapply (queue_take c _ p wk rest Q Hp); [..|by eapply front_perm|by cfg_simpl|others_same|by cfg_simpl]; unfold wake_list, queued_op; cfg_simpl; by rewrite ?Hpc.
Qed.
End Queue.
