(* ===== verification/LwWakeup.v ===== *)
(** * Lightweight locks: nobody sleeps for ever

    Who sleeps in the queue will be woken: the lock is taken, or a thread is on the way to
    wake others or to take the lock. *)

From S2P Require Import Prelude HeapTuple LockDefs LwLock LwWord LwLockSpec LwQueue.

(** ** What a step leaves alone *)

Section Frame.
Variable mask_id : Z → Z.

(** The other threads. *)
Lemma run_others p c c' q : lw_run mask_id p c = Some c' → q ≠ p →
  lp_pc (lw_procs c' q) = lp_pc (lw_procs c q) ∧ lp_held (lw_procs c' q) = lp_held (lw_procs c q) ∧ lwWaitMode (lw_procs c' q) = lwWaitMode (lw_procs c q) ∧
  extraWaits (lw_procs c' q) = extraWaits (lw_procs c q) ∧ lp_sem (lw_procs c q) ≤ lp_sem (lw_procs c' q).
Proof.
  intros Hr Hne. open_run in Hr. apply Z.eqb_neq in Hne.
  destruct (lp_pc (lw_procs c p)) eqn:Hpc; branch Hr; cfg_simpl; rewrite ?Hne; try (split_and!; done); match goal with |- context [q =? ?z] => destruct (q =? z) end; cfg_simpl; split_and!; try done; lia.
Qed.

(** Only a waker changes the flag of another thread, and only it signals its semaphore. *)
Lemma run_wakes p c c' q : lw_run mask_id p c = Some c' → q ≠ p → lwWaiting (lw_procs c' q) = lwWaiting (lw_procs c q) ∨
  lwWaiting (lw_procs c' q) = false ∧ ∃ wk, lp_pc (lw_procs c p) = WakeUp (q :: wk) ∧ lp_pc (lw_procs c' p) = WakeSem q wk.
Proof.
  intros Hr Hne. open_run in Hr. pose proof Hne as Hnb. apply Z.eqb_neq in Hnb.
  destruct (lp_pc (lw_procs c p)) eqn:Hpc; branch Hr; cfg_simpl; rewrite ?Hnb; try (by left).
  - destruct (Z.eqb_spec q z) as [->|]; [|by left]. right. split; [done|]. eauto.
  - match goal with |- context [q =? ?z] => destruct (q =? z) end; by left.
Qed.

(** The queue and its flag are changed by who has the list lock. *)
Lemma run_list p c c' : lw_run mask_id p c = Some c' → lw_waiters c' = lw_waiters c ∧ (∀ b, waiters_after c p b = b) ∨ crit (lw_procs c p) = true.
Proof.
  intros Hr. open_run in Hr; unfold waiters_after, crit in *. destruct (lp_pc (lw_procs c p)) eqn:Hpc; auto; branch Hr; auto.
Qed.
End Frame.

(** ** The flag of the queue *)

(** Whose queue is wanted: which of them are taken. *)
Lemma collect_woken mode : ∀ ws b wk rest ok, collect mode b ws = (wk, rest, ok) → ok = false ∨ b = false ∧ rest ≠ [] → ∃ q, q ∈ wk ∧ mode q ≠ LW_WAIT_UNTIL_FREE.
Proof.
  induction ws as [|q ws IH]; intros b wk rest ok; cbn [collect]; [intros [= <- <- <-]; naive_solver|].
  destruct (mode q) eqn:Em; [destruct b| |].
  - destruct (collect mode true ws) as [[wk' rest'] ok'] eqn:E. intros [= <- <- <-] [->|[? ?]]; [|done]. apply (IH _ _ _ _ E). by left.
  - intros [= <- <- <-] _. exists q. split; [left|by rewrite Em].
  - destruct (collect mode true ws) as [[wk' rest'] ok'] eqn:E. intros [= <- <- <-] _. exists q. split; [left|by rewrite Em].
  - destruct (collect mode b ws) as [[wk' rest'] ok'] eqn:E. intros [= <- <- <-] H. destruct (IH _ _ _ _ E H) as (r & Hr & Hm). exists r. split; [by right|done].
Qed.

Lemma collect_nobody mode ws rest ok : collect mode false ws = ([], rest, ok) → rest = [].
Proof.
  intros E. destruct rest as [|r rest]; [done|]. destruct (collect_woken _ _ _ _ _ _ E) as (q & Hq & _); [by right|]. by apply not_elem_of_nil in Hq.
Qed.

(** Points at which the queue is known to be empty. *)
Definition empty_pc (pc : lwpc) : bool :=
  match pc with DeqTest _ _ _ | DeqClear _ _ _ | WakeRead [] _ | WakeCas [] _ _ => true | _ => false end.

Section Wakeup.
Variable mask_id : Z → Z.
Hypothesis Hmask : ∀ p, 0 ≤ mask_id p < 6.
Variable threads : list Z.
Hypothesis Hnd : NoDup threads.
Variable timed : bool.
Abbreviation word_inv := (word_inv mask_id threads timed).
Abbreviation queue_inv := (queue_inv threads).
Abbreviation on_list := (on_list threads).
Abbreviation stepped := (stepped mask_id threads timed).

Record flag_inv (c : lwcfg) (f : fields) : Prop := {
  fi_flag : lw_waiters c ≠ [] → f_waiters f = true;
  fi_push : ∀ p o, p ∈ threads → lp_pc (lw_procs c p) = QueuePush o → f_waiters f = true;
  fi_empty : ∀ p, p ∈ threads → empty_pc (lp_pc (lw_procs c p)) = true → lw_waiters c = [];
}.

(** One thread at a time has the list lock. *)
Lemma alone_crit c f p q : word_inv c f → p ∈ threads → q ∈ threads → q ≠ p → crit (lw_procs c p) = true → crit (lw_procs c q) = true → False.
Proof. intros I Hp Hq Hne H1 H2. destruct Hne. by apply (wi_crit _ _ _ _ _ I p q). Qed.

Lemma run_flag c c' f f' p : word_inv c f → flag_inv c f → p ∈ threads → lw_run mask_id p c = Some c' → stepped c p f f' c' → flag_inv c' f'.
Proof.
  intros I F Hp Hr (I' & _ & Ew). pose proof F as [F1 F2 F3].
  assert (∀ q, q ∈ threads → q ≠ p → crit (lw_procs c q) = true → lw_waiters c' = lw_waiters c ∧ f_waiters f' = f_waiters f) as Hframe.
  { intros q Hq Hne Hc. destruct (run_list mask_id p c c' Hr) as [[E1 E2]|Hcp]; [by rewrite Ew, E2|]. by destruct (alone_crit c f p q). }
  split.
  - intros Hw. rewrite Ew. destruct (run_list mask_id p c c' Hr) as [[E1 E2]|Hcp]; [rewrite E2; apply F1; by rewrite <- E1|].
    specialize (F3 p Hp). specialize (F2 p). clear Hframe Ew. open_run in Hr; unfold waiters_after, crit in *. destruct (lp_pc (lw_procs c p)) eqn:Hpc; try done; branch Hr; cbn in *; try done; eauto.
    all: try (destruct wakeup; [rewrite F3 in Hw by done; done|by apply F1]).
    all: apply F1; intros E; rewrite E in *; cbn in *; congruence.
  - intros q o Hq Hpc. destruct (decide (q = p)) as [->|Hne].
    + rewrite Ew. revert Hpc. clear Hframe Ew I'. open_run in Hr; unfold waiters_after in *. destruct (lp_pc (lw_procs c p)) eqn:Hpc; try done; branch Hr; cfg_simpl; rewrite ?Hpc; done.
    + destruct (run_others mask_id p c c' q Hr Hne) as (E & _). rewrite E in Hpc. destruct (Hframe q Hq Hne) as [_ ->]; [unfold crit; by rewrite Hpc|]. by apply (F2 q o).
  - intros q Hq He. destruct (decide (q = p)) as [->|Hne].
    + revert He. specialize (F3 p Hp). clear Hframe Ew I'. open_run in Hr. destruct (lp_pc (lw_procs c p)) eqn:Hpc; try done; branch Hr; cfg_simpl; rewrite ?Hpc; try done; intros He.
      * by apply bool_decide_eq_true in Heqb.
      * destruct l; [|done]. by eapply collect_nobody.
    + destruct (run_others mask_id p c c' q Hr Hne) as (E & _). rewrite E in He. destruct (Hframe q Hq Hne) as [-> _]; [|by apply (F3 q)].
      unfold crit. destruct (lp_pc (lw_procs c q)); done.
Qed.

(** ** Those that are being woken *)

(** The list of a thread that still has the list lock. *)
Definition collected (pc : lwpc) : option (list Z * bool) := match pc with WakeRead wk ok | WakeCas wk ok _ => Some (wk, ok) | _ => None end.

Record wake_inv (c : lwcfg) : Prop := {
  ki_mode : ∀ p wk, p ∈ threads → collected (lp_pc (lw_procs c p)) = Some (wk, false) → ∃ q, q ∈ wk ∧ lwWaitMode (lw_procs c q) ≠ LW_WAIT_UNTIL_FREE;
  ki_other : ∀ p wk ok q, p ∈ threads → collected (lp_pc (lw_procs c p)) = Some (wk, ok) → q ∈ wk → removed_by_other (lw_procs c q) = false;
}.

(** A thread learns that it has been removed, and enters its mode, under the list lock. *)
Lemma run_self p c c' : lw_run mask_id p c = Some c' → crit (lw_procs c p) = true ∨
  lwWaitMode (lw_procs c' p) = lwWaitMode (lw_procs c p) ∧ (removed_by_other (lw_procs c p) = false → removed_by_other (lw_procs c' p) = false).
Proof.
  intros Hr. open_run in Hr; unfold crit, removed_by_other in *. destruct (lp_pc (lw_procs c p)) eqn:Hpc; auto; branch Hr; right; cfg_simpl; rewrite ?Hpc; try done.
  all: destruct (p =? _); done.
Qed.

Lemma collected_crit x r : collected (lp_pc x) = Some r → crit x = true ∧ wake_list x = r.1.
Proof. unfold crit, wake_list. destruct (lp_pc x); try done; by intros [= <-]. Qed.

(** How a thread comes to have such a list. *)
Lemma run_collected p c c' wk ok : lw_run mask_id p c = Some c' → collected (lp_pc (lw_procs c' p)) = Some (wk, ok) →
  collected (lp_pc (lw_procs c p)) = Some (wk, ok) ∨ lp_pc (lw_procs c p) = WakeCollect ∧ ∃ rest, collect (λ q, lwWaitMode (lw_procs c q)) false (lw_waiters c) = (wk, rest, ok) ∧ lw_waiters c' = rest.
Proof.
  intros Hr Hc. revert Hc. open_run in Hr. destruct (lp_pc (lw_procs c p)) eqn:Hpc; try done; branch Hr; cfg_simpl; rewrite ?Hpc; try done; auto.
  intros [= <- <-]. right. eauto.
Qed.

Lemma run_wake_inv c c' f p : word_inv c f → queue_inv c → wake_inv c → p ∈ threads → lw_run mask_id p c = Some c' → wake_inv c'.
Proof.
  intros I Q [K1 K2] Hp Hr.
  assert (∀ w wk ok q, w ∈ threads → w ≠ p → collected (lp_pc (lw_procs c' w)) = Some (wk, ok) → collected (lp_pc (lw_procs c w)) = Some (wk, ok) ∧
    lwWaitMode (lw_procs c' q) = lwWaitMode (lw_procs c q) ∧ (removed_by_other (lw_procs c q) = false → removed_by_other (lw_procs c' q) = false)) as Hother.
  { intros w wk ok q Hw Hne Hc. destruct (run_others mask_id p c c' w Hr Hne) as (E & _). rewrite E in Hc. split; [done|]. destruct (decide (q = p)) as [->|Hqp].
    - destruct (run_self p c c' Hr) as [Hcr|?]; [|done]. destruct (alone_crit c f p w I Hp Hw Hne Hcr). by eapply collected_crit.
    - destruct (run_others mask_id p c c' q Hr Hqp) as (E' & _ & -> & _). unfold removed_by_other. by rewrite E'. }
  assert (∀ q, q ≠ p → lwWaitMode (lw_procs c' q) = lwWaitMode (lw_procs c q) ∧ removed_by_other (lw_procs c' q) = removed_by_other (lw_procs c q)) as Hsame.
  { intros q Hne. destruct (run_others mask_id p c c' q Hr Hne) as (E & _ & -> & _). unfold removed_by_other. by rewrite E. }
  split.
  - intros w wk Hw Hc. destruct (decide (w = p)) as [->|Hne].
    + assert (∀ q, q ∈ wk → q ≠ p) as Hnp.
      { intros q Hq ->. destruct (run_collected p c c' wk false Hr Hc) as [Hc'|(Hpc & rest & E & _)]; destruct (not_queued threads c p Q Hp) as [N1 N2].
        - unfold queued_op, collected in *. by destruct (lp_pc (lw_procs c p)).
        - apply N2. exists p. split; [done|]. destruct (collected_crit _ _ Hc') as [_ ->]. done.
        - unfold queued_op. by rewrite Hpc.
        - apply N1. rewrite (collect_perm _ _ _ _ _ _ E), elem_of_app. by left. }
      assert (∃ q, q ∈ wk ∧ lwWaitMode (lw_procs c q) ≠ LW_WAIT_UNTIL_FREE) as (q & Hq & Hm); [|exists q; split; [done|]; by rewrite (proj1 (Hsame q (Hnp q Hq)))].
      destruct (run_collected p c c' wk false Hr Hc) as [Hc'|(_ & rest & E & _)]; [by apply (K1 p)|]. apply (collect_woken _ _ _ _ _ _ E). by left.
    + assert (collected (lp_pc (lw_procs c w)) = Some (wk, false)) as Hc' by (by apply (Hother w wk false w)). destruct (K1 w wk Hw Hc') as (q & Hq & Hm). exists q. split; [done|].
      by rewrite (proj1 (proj2 (Hother w wk false q Hw Hne Hc))).
  - intros w wk ok q Hw Hc Hq. destruct (decide (w = p)) as [->|Hne].
    + destruct (decide (q = p)) as [->|Hqp]; [unfold removed_by_other; unfold collected in Hc; destruct (lp_pc (lw_procs c' p)); done|]. rewrite (proj2 (Hsame q Hqp)).
      destruct (run_collected p c c' wk ok Hr Hc) as [Hc'|(_ & rest & E & _)]; [by apply (K2 p wk ok)|]. apply not_true_is_false. intros Hx.
      assert (q ∈ lw_waiters c) as Hin by (rewrite (collect_perm _ _ _ _ _ _ E), elem_of_app; by left). apply (qi_other _ _ Q q); [|done|done]. apply (qi_threads _ _ Q q). by left.
    + destruct (Hother w wk ok q Hw Hne Hc) as (Hc' & _ & Hx). by apply Hx, (K2 w wk ok).
Qed.

(** ** Signals *)

Record sem_inv (c : lwcfg) : Prop := {
  si_sem : ∀ q, q ∈ threads → 0 ≤ lp_sem (lw_procs c q) ∧ 0 ≤ extraWaits (lw_procs c q) ∧ ∀ o got e, lp_pc (lw_procs c q) = DeqSem o got e → 0 ≤ e;
  si_signal : ∀ q, q ∈ threads → is_Some (queued_op (lw_procs c q)) → lwWaiting (lw_procs c q) = false →
    0 < lp_sem (lw_procs c q) ∨ ∃ w wk, w ∈ threads ∧ lp_pc (lw_procs c w) = WakeSem q wk;
}.

Lemma run_signals p c c' q wk : lw_run mask_id p c = Some c' → lp_pc (lw_procs c p) = WakeSem q wk → q ≠ p → lp_sem (lw_procs c' q) = lp_sem (lw_procs c q) + 1.
Proof. intros Hr Hpc Hne. apply Z.eqb_neq in Hne. open_run in Hr. rewrite Hpc in Hr. injection Hr as <-. cfg_simpl. by rewrite Hne. Qed.

(** A thread takes no signal that it needs later. *)
Lemma run_own_signal p c c' : lw_run mask_id p c = Some c' → is_Some (queued_op (lw_procs c' p)) → lwWaiting (lw_procs c' p) = false →
  is_Some (queued_op (lw_procs c p)) ∧ lwWaiting (lw_procs c p) = false ∧ lp_sem (lw_procs c' p) = lp_sem (lw_procs c p).
Proof.
  intros Hr [o Ho]. revert Ho. open_run in Hr; unfold queued_op in *. destruct (lp_pc (lw_procs c p)) eqn:Hpc; branch Hr; cfg_simpl; rewrite ?Hpc; try done; intros [= <-] Hw; try congruence; split_and!; eauto.
Qed.

Lemma run_own_sem p c c' : lw_run mask_id p c = Some c' → 0 ≤ lp_sem (lw_procs c p) → 0 ≤ extraWaits (lw_procs c p) → (∀ o got e, lp_pc (lw_procs c p) = DeqSem o got e → 0 ≤ e) →
  0 ≤ lp_sem (lw_procs c' p) ∧ 0 ≤ extraWaits (lw_procs c' p) ∧ ∀ o got e, lp_pc (lw_procs c' p) = DeqSem o got e → 0 ≤ e.
Proof.
  intros Hr H1 H2 H3. open_run in Hr. destruct (lp_pc (lw_procs c p)) eqn:Hpc; try specialize (H3 _ _ _ eq_refl); branch Hr; cfg_simpl; rewrite ?Hpc; try (split_and!; first [done|lia|intros ??? [= <- <- <-]; lia|intros; congruence]).
  - destruct (p =? z); cfg_simpl; split_and!; done || lia.
  - destruct (p =? q); cfg_simpl; split_and!; done || lia.
Qed.

Lemma run_sem_inv c c' p : sem_inv c → p ∈ threads → lw_run mask_id p c = Some c' → sem_inv c'.
Proof.
  intros [S1 S2] Hp Hr. split.
  - intros q Hq. destruct (decide (q = p)) as [->|Hne]; [destruct (S1 p Hp) as (? & ? & ?); by apply (run_own_sem p c c')|].
    destruct (run_others mask_id p c c' q Hr Hne) as (-> & _ & _ & -> & Hs), (S1 q Hq) as (? & ? & ?). split_and!; [lia|done|done].
  - intros q Hq Hqu Hw. assert (is_Some (queued_op (lw_procs c q)) → lwWaiting (lw_procs c q) = false → lp_sem (lw_procs c q) ≤ lp_sem (lw_procs c' q) →
      0 < lp_sem (lw_procs c' q) ∨ ∃ w wk, w ∈ threads ∧ lp_pc (lw_procs c' w) = WakeSem q wk) as Hold.
    { intros H1 H2 H3. destruct (S2 q Hq H1 H2) as [?|(w & wk & Hwt & Hpc)]; [left; lia|]. destruct (decide (w = p)) as [->|Hne].
      - left. destruct (decide (q = p)) as [->|Hqp]; [destruct H1 as [o H1]; unfold queued_op in H1; by rewrite Hpc in H1|]. rewrite (run_signals p c c' q wk) by done. destruct (S1 q Hq). lia.
      - right. exists w, wk. split; [done|]. destruct (run_others mask_id p c c' w Hr Hne) as (-> & _). done. }
    destruct (decide (q = p)) as [->|Hne].
    + destruct (run_own_signal p c c' Hr Hqu Hw) as (H1 & H2 & H3). apply Hold; [done|done|lia].
    + destruct (run_others mask_id p c c' q Hr Hne) as (E & _ & _ & _ & Hs). unfold queued_op in Hqu, Hold. rewrite E in Hqu.
      destruct (run_wakes mask_id p c c' q Hr Hne) as [Ew|(_ & wk & _ & Hpc)]; [apply Hold; [done|by rewrite <- Ew|done]|right; by exists p, wk].
Qed.

(** ** Who clears [RELEASE_OK] makes another thread set it again *)

(** A thread that has been taken off the queue by another, or will be found to be, and has
    not yet allowed further wakeups. *)
Definition owing (x : lwproc) : option lwop :=
  match lp_pc x with
  | AttemptRead o true | AttemptCas o true _ | DeqLock o _ | DeqRemove o _ | DeqTest o _ false | DeqClear o _ false | DeqUnlock o _ false | DeqReleaseOk o _ | Sleep o | Retry o => Some o
  | _ => None
  end.
Definition ower (c : lwcfg) (q : Z) : Prop := q ∈ threads ∧ (q ∉ lw_waiters c) ∧ ∃ o, owing (lw_procs c q) = Some o ∧ wait_mode o ≠ LW_WAIT_UNTIL_FREE.

Definition owe_inv (c : lwcfg) (f : fields) : Prop := f_release_ok f = false → ∃ q, ower c q.

(** A thread joins the queue only by itself. *)
Lemma run_joins p c c' q : lw_run mask_id p c = Some c' → q ∈ lw_waiters c' → q ∈ lw_waiters c ∨ q = p ∧ ∃ o, lp_pc (lw_procs c p) = QueuePush o ∧ lp_pc (lw_procs c' p) = QueueUnlock o.
Proof.
  intros Hr. open_run in Hr. destruct (lp_pc (lw_procs c p)) eqn:Hpc; branch Hr; cfg_simpl; auto.
  - intros [?| ->%list_elem_of_singleton]%elem_of_app; [by left|right; eauto].
  - intros [?| ->%list_elem_of_singleton]%elem_of_app; [by left|right; eauto].
  - intros [->|?]%elem_of_cons; [right; eauto|by left].
  - intros [_ ?]%list_elem_of_filter. by left.
  - intros [_ ?]%list_elem_of_filter. by left.
  - intros Hq. left. rewrite (collect_perm _ _ _ _ _ _ Heqp0), elem_of_app. by right.
  - intros Hq. left. rewrite (front_perm _ _ _ _ Heqp0), elem_of_app. by right.
Qed.

Lemma run_ower p c c' f q : word_inv c f → p ∈ threads → lw_run mask_id p c = Some c' → ower c q → ower c' q ∨ ∀ b, release_after c p b = true.
Proof.
  intros I Hp Hr (Hq & Hnw & o & Ho & Hm). destruct (decide (q = p)) as [->|Hne].
  - pose proof (wi_threads _ _ _ _ _ I p Hp) as T.
    assert ((∃ o', lp_pc (lw_procs c p) = QueuePush o') → False) as Hnp by (intros [o' E]; unfold owing in Ho; by rewrite E in Ho).
    assert (p ∉ lw_waiters c') as Hnw' by (intros [?|(_ & o' & E & _)]%(run_joins p c c' p Hr); eauto). clear Hnp.
    assert (bool_decide (p ∈ lw_waiters c) = false) as Hb by (by apply bool_decide_eq_false).
    cut ((∃ o', owing (lw_procs c' p) = Some o' ∧ wait_mode o' ≠ LW_WAIT_UNTIL_FREE) ∨ ∀ b, release_after c p b = true); [intros [?|?]; [left; by split_and!|by right]|].
    clear Hnw Hnw' I. open_run in Hr; unfold owing, release_after, thread_ok in *.
    destruct (lp_pc (lw_procs c p)) eqn:Hpc; try done; branch Hr; cfg_simpl; rewrite ?Hpc, ?Hb; try done; try injection Ho as ->; eauto; try (by right).
    all: try (destruct second; [|done]); injection Ho as <-; try done; destruct T as (_ & _ & T); try done; destruct T as [Tv T]; try done.
    all: by first [specialize (T eq_refl)|destruct T as [T _]; specialize (T eq_refl)].
  - left. destruct (run_others mask_id p c c' q Hr Hne) as (E & _). split_and!; [done|intros [?|[? _]]%(run_joins p c c' q Hr); done|]. exists o. unfold owing. by rewrite E.
Qed.

(** A thread that another may take off the queue. *)
Lemma queued_owing c f q o : word_inv c f → q ∈ threads → queued_op (lw_procs c q) = Some o → wait_mode o ≠ LW_WAIT_UNTIL_FREE →
  crit (lw_procs c q) = false → removed_by_other (lw_procs c q) = false → owing (lw_procs c q) = Some o.
Proof.
  intros I Hq Ho Hm Hc Hr. pose proof (wi_threads _ _ _ _ _ I q Hq) as T. unfold thread_ok, queued_op, crit, removed_by_other, owing in *.
  destruct (lp_pc (lw_procs c q)); try done; try (destruct second; try done); injection Ho as ->; destruct T as [_ T]; by destruct o.
Qed.

(** The flag is cleared for one that has been collected. *)
Lemma collected_ower c f p wk : word_inv c f → queue_inv c → wake_inv c → p ∈ threads → collected (lp_pc (lw_procs c p)) = Some (wk, false) → ∃ q, q ≠ p ∧ ower c q.
Proof.
  intros I Q K Hp Hc. destruct (ki_mode _ K p wk Hp Hc) as (q & Hq & Hm). destruct (collected_crit _ _ Hc) as [Hcr Hl].
  assert (on_list c q) as Hol by (exists p; split; [done|by rewrite Hl]).
  assert (q ∈ threads) as Hqt by (apply (qi_threads _ _ Q); by right).
  assert (lwWaiting (lw_procs c q) = true) as Hw by (apply (qi_waiting _ _ Q q Hqt); auto). destruct (qi_pc _ _ Q q Hqt Hw) as [o Ho].
  assert (q ≠ p) as Hne by (intros ->; unfold queued_op, collected in *; by destruct (lp_pc (lw_procs c p))).
  exists q. split; [done|]. split_and!; [done|by apply (qi_apart _ _ Q)|]. exists o. rewrite (qi_mode _ _ Q q o Hqt Ho) in Hm. split; [|done].
  apply (queued_owing c f q o I Hqt Ho Hm); [|by apply (ki_other _ K p wk false)]. apply not_true_is_false. intros Hx. by destruct (alone_crit c f p q I Hp Hqt Hne Hcr Hx).
Qed.

Lemma run_owe c c' f f' p : word_inv c f → queue_inv c → wake_inv c → owe_inv c f → p ∈ threads → lw_run mask_id p c = Some c' → stepped c p f f' c' → owe_inv c' f'.
Proof.
  intros I Q K O Hp Hr (_ & Er & _) Hf. rewrite Er in Hf. destruct (f_release_ok f) eqn:Eo.
  - unfold release_after in Hf. destruct (lp_pc (lw_procs c p)) eqn:Hpc; try done. destruct (lw_state c =? old); [|done]. subst release_ok.
    destruct (collected_ower c f p wakeup I Q K Hp) as (q & Hne & Ho); [by rewrite Hpc|]. exists q.
    destruct (run_ower p c c' f q I Hp Hr Ho) as [?|Hb]; [done|]. specialize (Hb false). unfold release_after in Hb. rewrite Hpc in Hb. by destruct (lw_state c =? old).
  - destruct (O Eo) as [q Ho]. exists q. destruct (run_ower p c c' f q I Hp Hr Ho) as [?|Hb]; [done|]. by rewrite Hb in Hf.
Qed.
End Wakeup.
