(* ===== verification/LwProgress.v ===== *)
(** * Lightweight locks: no wakeup is lost

    As long as no thread uses [LWLockAcquireTimeout], somebody who sleeps in the queue is
    waiting for a holder, for a thread that wakes the queue, or for one that tries to take
    the lock and will wake the queue when it releases it. *)

From S2P Require Import Prelude HeapTuple LockDefs LwLock LwWord LwLockSpec LwQueue LwWakeup.

(** It has the lock. *)
Definition has_lock (x : lwproc) : bool := excl x || shar x.
(** It will sleep unless it is taken off the queue. *)
Definition committed (x : lwproc) : bool :=
  match lp_pc x with VarLock _ true | VarValue _ true | VarUnlock _ true _ | Sleep _ => true | _ => false end.
Definition waking (x : lwproc) : bool := match lp_pc x with WakeLock | WakeCollect => true | _ => false end.

Section Progress.
Variable mask_id : Z → Z.
Hypothesis Hmask : ∀ p, 0 ≤ mask_id p < 6.
Variable threads : list Z.
Hypothesis Hnd : NoDup threads.
Variable timed : bool.
Abbreviation word_inv := (word_inv mask_id threads timed).
Abbreviation queue_inv := (queue_inv threads).
Abbreviation flag_inv := (flag_inv threads).
Abbreviation wake_inv := (wake_inv threads).
Abbreviation owe_inv := (owe_inv threads).
Abbreviation ower := (ower threads).
Abbreviation stepped := (stepped mask_id threads timed).

(** It tries to take the lock, or will. *)
Definition attempting (c : lwcfg) (a : Z) : Prop :=
  match lp_pc (lw_procs c a) with
  | AttemptRead _ _ | AttemptCas _ _ _ | Retry _ => True
  | Sleep o => (a ∉ lw_waiters c) ∧ wait_mode o ≠ LW_WAIT_UNTIL_FREE
  | _ => False
  end.

Definition hope (c : lwcfg) : Prop := ∃ a, a ∈ threads ∧ (has_lock (lw_procs c a) = true ∨ waking (lw_procs c a) = true ∨ attempting c a).
Definition progress_inv (c : lwcfg) : Prop := ∀ s, s ∈ lw_waiters c → committed (lw_procs c s) = true → hope c.

Lemma taken_holds c f : word_inv c f → taken f → ∃ p, p ∈ threads ∧ has_lock (lw_procs c p) = true.
Proof.
  intros I [He|(i & Hi & Hc)].
  - apply (wi_excl _ _ _ _ _ I) in He as (p & Hp & He). exists p. split; [done|]. unfold has_lock. by rewrite He.
  - rewrite (wi_count _ _ _ _ _ I) in Hc by done. apply count_pos in Hc as (p & Hp & Hs). exists p. split; [done|]. unfold has_lock. apply andb_true_iff in Hs as [-> _]. by rewrite orb_true_r.
Qed.

Lemma holds_taken c f p : word_inv c f → p ∈ threads → has_lock (lw_procs c p) = true → taken f.
Proof.
  intros I Hp [He|Hs]%orb_true_iff; [left; apply (wi_excl _ _ _ _ _ I); by exists p|right]. exists (mask_id p). split; [done|]. by eapply shared_taken.
Qed.

(** Only a release ends a hold. *)
Lemma run_holds p c c' f : word_inv c f → p ∈ threads → lw_run mask_id p c = Some c' → has_lock (lw_procs c p) = true → (∃ m, lp_pc (lw_procs c p) = Release m) ∨ has_lock (lw_procs c' p) = true.
Proof.
  intros I Hp Hr. pose proof (wi_threads _ _ _ _ _ I p Hp) as T. open_run in Hr; unfold thread_ok, has_lock, excl, shar, owned in *.
  destruct (lp_pc (lw_procs c p)) eqn:Hpc; try (left; eexists; reflexivity); branch Hr; cfg_simpl; rewrite ?Hpc; cfg_simpl; intros H; try (right; exact H).
  all: try (assert (lp_held (lw_procs c p) = None) as E by (first [apply T|exact T]); rewrite E in H; discriminate H).
  all: right; rewrite ?orb_true_r; try reflexivity.
  all: try (destruct T as (Hh & _ & Tc & Tv & _), got; [|rewrite Hh in H; discriminate H]; first [exact H|discriminate Tc|discriminate (Tv eq_refl)]).
  - by destruct (p =? z).
  - by destruct (p =? q).
Qed.

(** Who is in the way of an attempt stays. *)
Lemma still_taken p c c' f : word_inv c f → p ∈ threads → lw_run mask_id p c = Some c' → (∀ m, lp_pc (lw_procs c p) ≠ Release m) → taken f → hope c'.
Proof.
  intros I Hp Hr Hnr Ht. destruct (taken_holds c f I Ht) as (q & Hq & Hh). exists q. split; [done|]. left. destruct (decide (q = p)) as [->|Hne].
  - by destruct (run_holds p c c' f I Hp Hr Hh) as [[m E]|?]; [destruct (Hnr m)|].
  - destruct (run_others mask_id p c c' q Hr Hne) as (E1 & E2 & _). unfold has_lock, excl, shar, owned in *. by rewrite E1, E2.
Qed.

(** An attempt goes on, succeeds, or meets a holder. *)
Lemma run_tries p c c' f f' o second : word_inv c f → p ∈ threads → lw_run mask_id p c = Some c' → stepped c p f f' c' →
  lp_pc (lw_procs c p) = AttemptRead o second ∨ (∃ old, lp_pc (lw_procs c p) = AttemptCas o second old) → hope c'.
Proof.
  intros I Hp Hr S Hpc. assert (∀ m, lp_pc (lw_procs c p) ≠ Release m) as Hnr by (intros m E; destruct Hpc as [E'|[old E']]; congruence).
  pose proof (wi_threads _ _ _ _ _ I p Hp) as T. pose proof (still_taken p c c' f I Hp Hr Hnr) as Hst.
  assert (∀ old, (attempt_fails mask_id p (op_mode o) old = true → taken f) → c' = attempt_next mask_id p o second old c → hope c') as Hnext.
  { intros old Ht ->. unfold attempt_next in *. destruct (attempt_fails mask_id p (op_mode o) old); [by apply Hst, Ht|]. exists p. split; [done|]. right. right. unfold attempting. by cfg_simpl. }
  unfold thread_ok in T. open_run in Hr. destruct Hpc as [Hpc|[old Hpc]]; rewrite Hpc in T, Hr.
  - destruct T as (_ & Ho & Hv & _). injection Hr as <-. apply (Hnext (lw_state c)); [|done]. intros E.
    pose proof (attempt_fails_spec mask_id Hmask p (op_mode o) f (wi_counts _ _ _ _ _ I) (op_mode_ok timed o Ho Hv)) as Hs. rewrite <- (wi_word _ _ _ _ _ I), E in Hs. done.
  - destruct T as (_ & Ho & Hv & Hsec & g & Hg & ->). pose proof (op_mode_ok timed o Ho Hv) as Hm.
    pose proof (attempt_cas_spec mask_id Hmask p (op_mode o) g f Hg (wi_counts _ _ _ _ _ I) Hm) as Hcas. rewrite <- (wi_word _ _ _ _ _ I) in Hcas.
    destruct (attempt_cas mask_id p (op_mode o) (word g) (lw_state c)) as [w|old'].
    + exists p. split; [done|]. left. injection Hr as <-. unfold has_lock, excl, shar, owned. destruct o, second; cfg_simpl; try (by specialize (Hsec eq_refl)); destruct Hm as [E|E]; cbn in E; subst; done.
    + injection Hr as <-. apply (Hnext old'); [|done]. intros E. by rewrite E in Hcas.
Qed.

Hypothesis Htimed : timed = false.

(** Who owes a wakeup tries to take the lock, or has it. *)
Lemma ower_hope c f q : word_inv c f → ower c q → hope c.
Proof.
  intros I (Hq & Hnw & o & Ho & Hm). exists q. split; [done|]. pose proof (wi_threads _ _ _ _ _ I q Hq) as T. unfold has_lock, excl, shar, owned, attempting, owing, thread_ok in *.
  assert (∀ got : bool, op_ok timed o → (got = true → is_var o = false) → (got = false → is_var o = true ∨ ∃ m, o = OpTimeout m) → got = true ∧ lock_mode (op_mode o)) as Hgot.
  { rewrite Htimed. intros got H1 H2 H3. destruct got; [split; [done|]; eapply op_mode_ok; eauto|]. destruct (H3 eq_refl) as [Hv|[m ->]]; [by destruct o|by destruct H1]. }
  destruct (lp_pc (lw_procs c q)) eqn:Hpc; try done; try (by right; right); try (destruct found; [done|]); injection Ho as ->.
  all: try (destruct T as (_ & T1 & _ & T2 & T3); destruct (Hgot got T1 T2 T3) as [-> [-> | ->]]; by left).
  right. right. done.
Qed.

(** Before it sleeps a thread has seen that the lock is taken. *)
Lemma run_commits p c c' f f' : word_inv c f → p ∈ threads → lw_run mask_id p c = Some c' → stepped c p f f' c' → committed (lw_procs c p) = false → committed (lw_procs c' p) = true → hope c'.
Proof.
  intros I Hp Hr S H1 H2. assert ((∃ o second, lp_pc (lw_procs c p) = AttemptRead o second ∨ ∃ old, lp_pc (lw_procs c p) = AttemptCas o second old) ∨
    (∃ o, lp_pc (lw_procs c p) = VarState o true) ∧ flag (lw_state c) LW_VAL_EXCLUSIVE = true) as [(o & second & E)|[[o E] Hf]].
  - clear S I. open_run in Hr; unfold committed in *. destruct (lp_pc (lw_procs c p)) eqn:Hpc; try discriminate; branch Hr; revert H2; cfg_simpl; rewrite ?Hpc; intros; try discriminate; try (left; by eauto); try congruence.
    all: destruct second; [|done]; right; eauto.
  - by eapply run_tries.
  - apply (still_taken p c c' f I Hp Hr); [intros m; by rewrite E|]. left. rewrite <- flag_excl by apply (wi_counts _ _ _ _ _ I). by rewrite <- (wi_word _ _ _ _ _ I).
Qed.

(** Somebody is left in the queue when the lock is given back. *)
Lemma release_hope p c c' f m : word_inv c f → owe_inv c f → p ∈ threads → lw_run mask_id p c = Some c' → lp_pc (lw_procs c p) = Release m → f_waiters f = true → hope c'.
Proof.
  intros I O Hp Hr Hpc Hw. destruct (run_release mask_id Hmask threads Hnd timed c c' f p m I Hp Hpc Hr) as [(I' & _) Hpc'].
  destruct (taken_dec (released mask_id p m f) (wi_counts _ _ _ _ _ I')) as [Hfree|Ht].
  2:{ destruct (taken_holds _ _ I' Ht) as (q & Hq & Hh). exists q. auto. }
  apply (flag_mask _ (wi_counts _ _ _ _ _ I')) in Hfree. rewrite Hfree, Hw in Hpc'. destruct (f_release_ok f) eqn:Eo.
  - exists p. split; [done|]. right. left. unfold waking. by rewrite Hpc'.
  - destruct (O Eo) as [q Hq]. destruct (run_ower mask_id threads timed p c c' f q I Hp Hr Hq) as [Hq'|Hb]; [by eapply ower_hope|].
    specialize (Hb false). unfold release_after in Hb. by rewrite Hpc in Hb.
Qed.

(** Somebody is left in the queue when others are taken off: one of these will try. *)
Lemma collect_hope p c c' f f' s : word_inv c f → queue_inv c → p ∈ threads → lw_run mask_id p c = Some c' → stepped c p f f' c' → lp_pc (lw_procs c p) = WakeCollect → s ∈ lw_waiters c' → hope c'.
Proof.
  intros I Q Hp Hr (I' & _) Hpc Hs. pose proof Hr as Hr'. open_run in Hr'. rewrite Hpc in Hr'. destruct (collect _ _ _) as [[wk rest] ok] eqn:E. injection Hr' as Hc'.
  assert (lw_waiters c' = rest) as Hrest by (by rewrite <- Hc'). rewrite Hrest in Hs. pose proof (collect_perm _ _ _ _ _ _ E) as Hperm.
  destruct (collect_woken _ _ _ _ _ _ E) as (q & Hq & Hm); [right; split; [done|]; intros ->; by apply not_elem_of_nil in Hs|].
  assert (q ∈ lw_waiters c) as Hqw by (rewrite Hperm, elem_of_app; by left). assert (q ∈ threads) as Hqt by (apply (qi_threads _ _ Q); by left).
  assert (lwWaiting (lw_procs c q) = true) as Hw by (apply (qi_waiting _ _ Q q Hqt); auto). destruct (qi_pc _ _ Q q Hqt Hw) as [o Ho]. rewrite (qi_mode _ _ Q q o Hqt Ho) in Hm.
  assert (q ≠ p) as Hne by (intros ->; unfold queued_op in Ho; by rewrite Hpc in Ho). destruct (run_others mask_id p c c' q Hr Hne) as (Epc & _).
  apply (ower_hope c' f' q I'). split_and!; [done| |exists o; split; [|done]].
  - pose proof (qi_nodup _ _ Q) as Hn. rewrite Hperm, NoDup_app in Hn. rewrite Hrest. by apply Hn.
  - unfold owing. rewrite Epc. apply (queued_owing mask_id threads timed c f q o I Hqt Ho Hm).
    + apply not_true_is_false. intros Hx. apply (alone_crit mask_id threads timed c f p q I Hp Hqt Hne); [unfold crit; by rewrite Hpc|done].
    + apply not_true_is_false. intros Hx. by apply (qi_other _ _ Q q Hqt Hx).
Qed.

(** It goes on trying. *)
Lemma run_attempting p c c' f f' : word_inv c f → p ∈ threads → lw_run mask_id p c = Some c' → stepped c p f f' c' → attempting c p → hope c'.
Proof.
  intros I Hp Hr S Ha. destruct (lp_pc (lw_procs c p)) eqn:Hpc; unfold attempting in Ha; rewrite Hpc in Ha; try done.
  - eapply run_tries; eauto.
  - eapply run_tries; eauto.
  - destruct Ha as [Hnw Hm]. destruct (run_ower mask_id threads timed p c c' f p I Hp Hr) as [Hq|Hb]; [split_and!; [done|done|exists o; unfold owing; by rewrite Hpc]|destruct S as (I' & _); by eapply ower_hope|].
    specialize (Hb false). unfold release_after in Hb. by rewrite Hpc in Hb.
  - exists p. split; [done|]. right. right. open_run in Hr. rewrite Hpc in Hr. injection Hr as <-. unfold attempting. by cfg_simpl.
Qed.

Lemma run_progress c c' f f' p : word_inv c f → queue_inv c → flag_inv c f → wake_inv c → owe_inv c f → progress_inv c → p ∈ threads → lw_run mask_id p c = Some c' → stepped c p f f' c' →
  progress_inv c'.
Proof.
  intros I Q F K O P Hp Hr S s Hs Hc. pose proof S as (I' & _).
  assert (s ∈ lw_waiters c) as Hsw.
  { destruct (run_joins mask_id p c c' s Hr Hs) as [?|(-> & o & _ & E)]; [done|]. unfold committed in Hc. by rewrite E in Hc. }
  destruct (committed (lw_procs c s)) eqn:Hcs.
  - destruct (P s Hsw Hcs) as (a & Ha & Hcase). destruct (decide (a = p)) as [->|Hne]; [|].
    + destruct Hcase as [Hh|[Hw|Hat]].
      * destruct (run_holds p c c' f I Hp Hr Hh) as [[m E]|?]; [|exists p; auto]. apply (release_hope p c c' f m I O Hp Hr E). apply (fi_flag _ _ _ F). intros E'; rewrite E' in Hsw; by apply not_elem_of_nil in Hsw.
      * unfold waking in Hw. destruct (lp_pc (lw_procs c p)) eqn:Hpc; try done; [|by apply (collect_hope p c c' f f' s)].
        exists p. split; [done|]. right. left. open_run in Hr; unfold list_lock in Hr. rewrite Hpc in Hr. destruct (flag _ _); [done|]. injection Hr as <-. unfold waking. by cfg_simpl.
      * by apply (run_attempting p c c' f f').
    + exists a. split; [done|]. destruct (run_others mask_id p c c' a Hr Hne) as (E1 & E2 & _). unfold has_lock, excl, shar, owned, waking, attempting in *. rewrite E1, E2.
      destruct Hcase as [?|[?|Hat]]; [by left|right; by left|]. right. right. destruct (lp_pc (lw_procs c a)); try done. destruct Hat as [Hx Hm]. split; [|done].
      intros [?|[? _]]%(run_joins mask_id p c c' a Hr); done.
  - assert (s = p) as ->. { destruct (decide (s = p)) as [|Hne]; [done|]. destruct (run_others mask_id p c c' s Hr Hne) as (E & _). unfold committed in *. rewrite E in Hc. congruence. }
    by apply (run_commits p c c' f f').
Qed.
End Progress.
