(* ===== verification/LwVar.v ===== *)
(** * Lightweight locks: waiting for a variable

    A thread that sleeps in [LWLockWaitForVar] is woken when the lock is released or
    downgraded and when the variable changes. *)

From S2P Require Import Prelude HeapTuple LockDefs LwLock LwWord LwLockSpec LwQueue LwWakeup LwProgress.

(** In [LWLockWaitForVar], queued: it has allowed wakeups, has then seen an exclusive holder,
    has then seen the old value. *)
Definition past_release (x : lwproc) : option Z :=
  match lp_pc x with
  | VarState (OpWaitForVar v) true | VarLock (OpWaitForVar v) true | VarValue (OpWaitForVar v) true | VarUnlock (OpWaitForVar v) true _ | Sleep (OpWaitForVar v) => Some v
  | _ => None
  end.
Definition saw_excl (x : lwproc) : option Z :=
  match lp_pc x with
  | VarLock (OpWaitForVar v) true | VarValue (OpWaitForVar v) true | VarUnlock (OpWaitForVar v) true _ | Sleep (OpWaitForVar v) => Some v
  | _ => None
  end.
Definition saw_value (x : lwproc) : option Z := match lp_pc x with VarUnlock (OpWaitForVar v) true true | Sleep (OpWaitForVar v) => Some v | _ => None end.
(** It has set the variable and is about to release the lock. *)
Definition clearing (x : lwproc) : bool := match lp_pc x with ClearUnlock | Release LW_EXCLUSIVE => true | _ => false end.

Lemma collect_front mode a b : Forall (λ q, mode q = LW_WAIT_UNTIL_FREE) a → collect mode false (a ++ b) = let '(wk, rest, ok) := collect mode false b in (a ++ wk, rest, ok).
Proof.
  induction 1 as [|q a Hq _ IH]; cbn; [by destruct (collect mode false b) as [[wk rest] ok]|]. rewrite Hq, IH. by destruct (collect mode false b) as [[wk rest] ok].
Qed.

Lemma front_front mode a b : Forall (λ q, mode q = LW_WAIT_UNTIL_FREE) a → Forall (λ q, mode q ≠ LW_WAIT_UNTIL_FREE) b → front_waiters mode (a ++ b) = (a, b).
Proof.
  induction 1 as [|q a Hq _ IH]; cbn.
  - destruct b as [|q b]; [done|]. intros [Hq _]%Forall_cons. cbn. by rewrite bool_decide_eq_false_2.
  - intros Hb. by rewrite bool_decide_eq_true_2, IH.
Qed.

Section Var.
Variable mask_id : Z → Z.
Hypothesis Hmask : ∀ p, 0 ≤ mask_id p < 6.
Variable threads : list Z.
Hypothesis Hnd : NoDup threads.
Variable timed : bool.
Abbreviation word_inv := (word_inv mask_id threads timed).
Abbreviation queue_inv := (queue_inv threads).
Abbreviation flag_inv := (flag_inv threads).
Abbreviation stepped := (stepped mask_id threads timed).

Definition until_free (c : lwcfg) (q : Z) : Prop := lwWaitMode (lw_procs c q) = LW_WAIT_UNTIL_FREE.

Record var_inv (c : lwcfg) (f : fields) : Prop := {
  vi_front : ∃ a b, lw_waiters c = a ++ b ∧ Forall (until_free c) a ∧ Forall (λ q, ¬ until_free c q) b;
  vi_collected : ∀ p, p ∈ threads → is_Some (collected (lp_pc (lw_procs c p))) → Forall (λ q, ¬ until_free c q) (lw_waiters c);
  vi_release : ∀ s, s ∈ lw_waiters c → is_Some (past_release (lw_procs c s)) → f_release_ok f = true;
  vi_excl : ∀ s, s ∈ lw_waiters c → is_Some (saw_excl (lw_procs c s)) → f_excl f = true ∨ ∃ w, w ∈ threads ∧ waking (lw_procs c w) = true;
  vi_val : ∀ s v, s ∈ lw_waiters c → saw_value (lw_procs c s) = Some v → lw_val c = v ∨ ∃ w, w ∈ threads ∧ (waking (lw_procs c w) = true ∨ clearing (lw_procs c w) = true);
}.

Lemma past_mode c s : queue_inv c → s ∈ threads → is_Some (past_release (lw_procs c s)) → until_free c s.
Proof.
  intros Q Hs [v Hv]. unfold until_free. rewrite (qi_mode _ _ Q s (OpWaitForVar v) Hs); [done|]. unfold past_release, queued_op in *.
  destruct (lp_pc (lw_procs c s)); try done; repeat (match goal with H : context [match ?x with _ => _ end] |- _ => destruct x; try done end); congruence.
Qed.

Lemma saw_past x : is_Some (saw_excl x) → is_Some (past_release x).
Proof. unfold saw_excl, past_release. by destruct (lp_pc x). Qed.
Lemma value_past x v : saw_value x = Some v → is_Some (saw_excl x).
Proof. unfold saw_value, saw_excl. destruct (lp_pc x) as [| | | | | | |o [] []| | | | | | | | | | | | |o| | | | | | | | | | | | | | | | | |]; try done; by destruct o. Qed.

(** Who is in the queue keeps its mode. *)
Lemma run_mode p c c' q : queue_inv c → p ∈ threads → lw_run mask_id p c = Some c' → q ∈ lw_waiters c → lwWaitMode (lw_procs c' q) = lwWaitMode (lw_procs c q).
Proof.
  intros Q Hp Hr Hq. destruct (decide (q = p)) as [->|Hne]; [|by apply (run_others mask_id p c c')].
  pose proof (not_queued threads c p Q Hp) as Hn. open_run in Hr. unfold queued_op in Hn. destruct (lp_pc (lw_procs c p)) eqn:Hpc; branch Hr; cfg_simpl; try done; try (by destruct (Hn eq_refl)).
Qed.

(** How the queue changes. *)
Lemma run_waiters p c c' : lw_run mask_id p c = Some c' →
  lw_waiters c' = lw_waiters c ∨
  (∃ o, lp_pc (lw_procs c p) = QueuePush o ∧ lwWaitMode (lw_procs c' p) = wait_mode o ∧
     lw_waiters c' = match wait_mode o with LW_WAIT_UNTIL_FREE => p :: lw_waiters c | _ => lw_waiters c ++ [p] end) ∨
  lw_waiters c' = filter (λ q, q ≠ p) (lw_waiters c) ∨
  (lp_pc (lw_procs c p) = WakeCollect ∧ ∃ wk ok, collect (λ q, lwWaitMode (lw_procs c q)) false (lw_waiters c) = (wk, lw_waiters c', ok)) ∨
  (∃ v wk, lp_pc (lw_procs c p) = UpdCollect v ∧ front_waiters (λ q, lwWaitMode (lw_procs c q)) (lw_waiters c) = (wk, lw_waiters c')).
Proof.
  intros Hr. open_run in Hr. destruct (lp_pc (lw_procs c p)) eqn:Hpc; branch Hr; cfg_simpl; try (by left).
  - right. left. exists o. by rewrite Heql.
  - right. left. exists o. by rewrite Heql.
  - right. left. exists o. by rewrite Heql.
  - by right; right; left.
  - by right; right; left.
  - right. right. right. left. eauto.
  - right. right. right. right. eauto.
Qed.

(** Nobody who waits until the lock is free stays behind. *)
Lemma run_taken_off p c c' f : queue_inv c → var_inv c f → p ∈ threads → lw_run mask_id p c = Some c' →
  lp_pc (lw_procs c p) = WakeCollect ∨ (∃ v, lp_pc (lw_procs c p) = UpdCollect v) → Forall (λ q, ¬ until_free c' q) (lw_waiters c').
Proof.
  intros Q V Hp Hr Hpc. destruct (vi_front _ _ V) as (a & b & Eab & Ha & Hb). assert (∀ q, q ∈ lw_waiters c' → q ∈ b ∧ q ∈ lw_waiters c) as Hin.
  { open_run in Hr. destruct Hpc as [Hpc|[v Hpc]]; rewrite Hpc, Eab in Hr.
    - rewrite (collect_front _ a b Ha) in Hr. destruct (collect _ _ b) as [[wk rest] ok] eqn:E. injection Hr as <-. cfg_simpl. intros q Hq.
      assert (q ∈ b) by (rewrite (collect_perm _ _ _ _ _ _ E), elem_of_app; by right). split; [done|]. rewrite Eab, elem_of_app. by right.
    - rewrite (front_front _ a b Ha Hb) in Hr. injection Hr as <-. cfg_simpl. intros q Hq. split; [done|]. rewrite Eab, elem_of_app. by right. }
  apply Forall_forall. intros q Hq. destruct (Hin q Hq) as [Hqb Hqw]. unfold until_free. rewrite (run_mode p c c' q) by done. by apply (proj1 (Forall_forall _ _) Hb q).
Qed.

Lemma run_front p c c' f : queue_inv c → var_inv c f → p ∈ threads → lw_run mask_id p c = Some c' → ∃ a b, lw_waiters c' = a ++ b ∧ Forall (until_free c') a ∧ Forall (λ q, ¬ until_free c' q) b.
Proof.
  intros Q V Hp Hr. pose proof (run_taken_off p c c' f Q V Hp Hr) as Hoff. destruct (vi_front _ _ V) as (a & b & Eab & Ha & Hb).
  assert (∀ q, q ∈ a ++ b → until_free c' q ↔ until_free c q) as Hm by (intros q Hq; unfold until_free; rewrite (run_mode p c c' q); [done|done|done|done|by rewrite Eab]).
  assert (Forall (until_free c') a) as Ha' by (rewrite Forall_forall in *; intros q Hq; apply Hm; [rewrite elem_of_app; by left|by apply Ha]).
  assert (Forall (λ q, ¬ until_free c' q) b) as Hb' by (rewrite Forall_forall in *; intros q Hq; rewrite Hm; [by apply Hb|rewrite elem_of_app; by right]).
  destruct (run_waiters p c c' Hr) as [->|[(o & _ & Hmo & ->)|[->|[[Hpc _]|(v & wk & Hpc & _)]]]].
  - by exists a, b.
  - rewrite Eab. destruct (wait_mode o) eqn:E.
    + exists a, (b ++ [p]). split_and!; [by rewrite app_assoc|done|]. apply Forall_app. split; [done|]. apply Forall_singleton. unfold until_free. by rewrite Hmo.
    + exists a, (b ++ [p]). split_and!; [by rewrite app_assoc|done|]. apply Forall_app. split; [done|]. apply Forall_singleton. unfold until_free. by rewrite Hmo.
    + exists (p :: a), b. split_and!; [done| |done]. by apply Forall_cons.
  - exists (filter (λ q, q ≠ p) a), (filter (λ q, q ≠ p) b). rewrite Eab, filter_app. rewrite Forall_forall in *. split_and!; [done|..]; try rewrite Forall_forall; intros q [_ Hq]%list_elem_of_filter; auto.
  - exists [], (lw_waiters c'). split_and!; [done|done|]. apply Hoff. by left.
  - exists [], (lw_waiters c'). split_and!; [done|done|]. apply Hoff. right. by exists v.
Qed.

(** A waiter that is past allowing wakeups is one of those in front. *)
Lemma not_behind c s : queue_inv c → s ∈ lw_waiters c → is_Some (past_release (lw_procs c s)) → Forall (λ q, ¬ until_free c q) (lw_waiters c) → False.
Proof.
  intros Q Hs Hp Hf. rewrite Forall_forall in Hf. apply (Hf s Hs). apply past_mode; [done| |done]. apply (qi_threads _ _ Q). by left.
Qed.

Lemma run_collected_mode c c' f p : word_inv c f → queue_inv c → var_inv c f → p ∈ threads → lw_run mask_id p c = Some c' →
  ∀ w, w ∈ threads → is_Some (collected (lp_pc (lw_procs c' w))) → Forall (λ q, ¬ until_free c' q) (lw_waiters c').
Proof.
  intros I Q V Hp Hr w Hw [[wk ok] Hc].
  assert (lw_waiters c' = lw_waiters c → is_Some (collected (lp_pc (lw_procs c w))) → Forall (λ q, ¬ until_free c' q) (lw_waiters c')) as Hsame.
  { intros -> Hcw. pose proof (vi_collected _ _ V w Hw Hcw) as Hf. rewrite Forall_forall in *. intros q Hq. unfold until_free. rewrite (run_mode p c c' q) by done. by apply Hf. }
  destruct (decide (w = p)) as [->|Hne].
  - destruct (run_collected mask_id p c c' wk ok Hr Hc) as [Hc'|[Hpc _]]; [|apply (run_taken_off p c c' f); auto]. apply Hsame; [|by eauto].
    clear Hsame. open_run in Hr. destruct (lp_pc (lw_procs c p)) eqn:Hpc; try done; branch Hr; done.
  - destruct (run_others mask_id p c c' w Hr Hne) as (E & _). rewrite E in Hc. apply Hsame; [|by eauto].
    destruct (run_list mask_id p c c' Hr) as [[? _]|Hcr]; [done|]. destruct (alone_crit mask_id threads timed c f p w I Hp Hw Hne Hcr). by eapply collected_crit.
Qed.

(** How a thread comes to these points. *)
Lemma run_past p c c' f : word_inv c f → p ∈ threads → lw_run mask_id p c = Some c' → is_Some (past_release (lw_procs c' p)) →
  is_Some (past_release (lw_procs c p)) ∨ ∃ o, lp_pc (lw_procs c p) = VarReleaseOk o.
Proof.
  intros I Hp Hr. pose proof (wi_threads _ _ _ _ _ I p Hp) as T. open_run in Hr; unfold past_release, thread_ok in *.
  destruct (lp_pc (lw_procs c p)) eqn:Hpc; branch Hr; cfg_simpl; rewrite ?Hpc; intros [v' Hv]; try done; eauto; try (destruct T as (_ & _ & T & _); by destruct o).
Qed.

Lemma run_saw p c c' f : word_inv c f → p ∈ threads → lw_run mask_id p c = Some c' → is_Some (saw_excl (lw_procs c' p)) →
  is_Some (saw_excl (lw_procs c p)) ∨ f_excl f = true ∧ ∃ o, lp_pc (lw_procs c p) = VarState o true.
Proof.
  intros I Hp Hr. pose proof (wi_threads _ _ _ _ _ I p Hp) as T. pose proof (flag_excl f (wi_counts _ _ _ _ _ I)) as Hx. rewrite <- (wi_word _ _ _ _ _ I) in Hx. open_run in Hr; unfold saw_excl, thread_ok in *.
  destruct (lp_pc (lw_procs c p)) eqn:Hpc; branch Hr; cfg_simpl; rewrite ?Hpc; intros [v' Hv]; try done; eauto; try (destruct T as (_ & _ & T & _); by destruct o).
Qed.

Lemma run_value p c c' f v : word_inv c f → p ∈ threads → lw_run mask_id p c = Some c' → saw_value (lw_procs c' p) = Some v →
  saw_value (lw_procs c p) = Some v ∧ lw_val c' = lw_val c ∨ lw_val c' = v.
Proof.
  intros I Hp Hr. pose proof (wi_threads _ _ _ _ _ I p Hp) as T. open_run in Hr; unfold saw_value, thread_ok in *.
  destruct (lp_pc (lw_procs c p)) eqn:Hpc; branch Hr; cfg_simpl; rewrite ?Hpc; intros Hv; try done; eauto; try (destruct T as (_ & _ & T & _); by destruct o).
  right. destruct second; [|done]. destruct (Z.eqb_spec (lw_val c) oldval); congruence.
Qed.

(** An exclusive hold ends with a release or a downgrade. *)
Lemma run_excl p c c' f : word_inv c f → p ∈ threads → lw_run mask_id p c = Some c' → excl (lw_procs c p) = true →
  excl (lw_procs c' p) = true ∨ lp_pc (lw_procs c p) = Release LW_EXCLUSIVE ∨ lp_pc (lw_procs c p) = DownSub.
Proof.
  intros I Hp Hr He. pose proof (wi_threads _ _ _ _ _ I p Hp) as T. revert He. open_run in Hr; unfold thread_ok, excl, owned in *.
  destruct (lp_pc (lw_procs c p)) eqn:Hpc; try (by right; right); branch Hr; cfg_simpl; rewrite ?Hpc; cfg_simpl; intros H; try (left; exact H).
  all: try (assert (lp_held (lw_procs c p) = None) as E by (first [apply T|exact T]); rewrite E in H; discriminate H).
  all: try (left; destruct T as (Hh & _ & Tc & Tv & _), got; [|rewrite Hh in H; discriminate H]; first [exact H|discriminate Tc|discriminate (Tv eq_refl)]).
  - apply bool_decide_eq_true in H. right. left. congruence.
  - apply bool_decide_eq_true in H. right. left. congruence.
  - left. by destruct (p =? z).
  - left. by destruct (p =? q).
  - by left.
Qed.

(** Then the queue is woken, if it is wanted. *)
Lemma excl_drop p c c' f : word_inv c f → p ∈ threads → lw_run mask_id p c = Some c' → f_waiters f = true → f_release_ok f = true →
  lp_pc (lw_procs c p) = Release LW_EXCLUSIVE ∨ lp_pc (lw_procs c p) = DownSub → waking (lw_procs c' p) = true.
Proof.
  intros I Hp Hr Hw Ho [Hpc|Hpc].
  - destruct (run_release mask_id Hmask threads Hnd timed c c' f p _ I Hp Hpc Hr) as [(I' & _) Hpc']. unfold waking. rewrite Hpc', Hw, Ho.
    assert (flag (word (released mask_id p LW_EXCLUSIVE f)) LW_LOCK_MASK = false) as ->; [|done]. apply (flag_mask _ (wi_counts _ _ _ _ _ I')). split; [done|].
    intros i Hi. apply (alone_counts mask_id threads timed c f p i I Hp); [unfold excl, owned; by rewrite Hpc|unfold shar, owned; by rewrite Hpc|done].
  - pose proof (wi_threads _ _ _ _ _ I p Hp) as T. unfold thread_ok in T. rewrite Hpc in T.
    destruct (release_word mask_id Hmask p LW_EXCLUSIVE f (wi_counts _ _ _ _ _ I)) as [Ew Hc]; [by left|intros _; apply (wi_excl _ _ _ _ _ I); exists p; split; [done|]; unfold excl, owned; by rewrite Hpc, T|done|].
    open_run in Hr. rewrite Hpc, (wi_word _ _ _ _ _ I) in Hr. cbn [release_val released] in Ew, Hc. rewrite Ew in Hr. unfold has_both in Hr. rewrite flag_waiters, flag_release in Hr by done.
    cbn [f_set_excl f_waiters f_release_ok] in Hr. rewrite Hw, Ho in Hr. injection Hr as <-. unfold waking. by cfg_simpl.
Qed.

(** Somebody wakes the queue, or has just collected from it. *)
Lemma run_waking c c' f p s : queue_inv c' → queue_inv c → var_inv c f → p ∈ threads → lw_run mask_id p c = Some c' → s ∈ lw_waiters c' → is_Some (past_release (lw_procs c' s)) →
  (∃ w, w ∈ threads ∧ waking (lw_procs c w) = true) → ∃ w, w ∈ threads ∧ waking (lw_procs c' w) = true.
Proof.
  intros Q' Q V Hp Hr Hs Hps (w & Hw & Hwk). exists w. split; [done|]. destruct (decide (w = p)) as [->|Hne]; [|destruct (run_others mask_id p c c' w Hr Hne) as (E & _); unfold waking in *; by rewrite E].
  unfold waking in Hwk. destruct (lp_pc (lw_procs c p)) eqn:Hpc; try done.
  - open_run in Hr; unfold list_lock in Hr. rewrite Hpc in Hr. destruct (flag _ _); [done|]. injection Hr as <-. unfold waking. by cfg_simpl.
  - destruct (not_behind c' s Q' Hs Hps). apply (run_taken_off p c c' f); auto.
Qed.

Lemma run_var_excl c c' f f' p s : word_inv c f → queue_inv c → queue_inv c' → flag_inv c f → var_inv c f → p ∈ threads → lw_run mask_id p c = Some c' → stepped c p f f' c' →
  s ∈ lw_waiters c → s ∈ lw_waiters c' → is_Some (saw_excl (lw_procs c' s)) → f_excl f' = true ∨ ∃ w, w ∈ threads ∧ waking (lw_procs c' w) = true.
Proof.
  intros I Q Q' F V Hp Hr (I' & _) Hs Hs' Hv. assert (is_Some (saw_excl (lw_procs c s)) ∨ f_excl f = true ∧ ∃ o, lp_pc (lw_procs c p) = VarState o true) as Hcase.
  { destruct (decide (s = p)) as [->|Hne]; [by apply (run_saw p c c' f)|]. destruct (run_others mask_id p c c' s Hr Hne) as (E & _). left. unfold saw_excl in *. by rewrite E in Hv. }
  assert (f_excl f = true ∨ ∃ w, w ∈ threads ∧ waking (lw_procs c w) = true) as [Hx|Hw] by (destruct Hcase as [Hc|[Hx _]]; [by apply (vi_excl _ _ V s)|by left]).
  2:{ right. apply (run_waking c c' f p s); try done. by apply saw_past. }
  apply (wi_excl _ _ _ _ _ I) in Hx as (h & Hh & Hx). destruct (decide (h = p)) as [->|Hne].
  - destruct (run_excl p c c' f I Hp Hr Hx) as [Hx'|Hpc]; [left; apply (wi_excl _ _ _ _ _ I'); by exists p|]. right. exists p. split; [done|].
    apply (excl_drop p c c' f I Hp Hr); [apply (fi_flag _ _ _ F); intros E; rewrite E in Hs; by apply not_elem_of_nil in Hs| |done].
    destruct Hcase as [Hc|(_ & o & Hpc')]; [apply (vi_release _ _ V s Hs); by apply saw_past|]. destruct Hpc; congruence.
  - left. apply (wi_excl _ _ _ _ _ I'). exists h. split; [done|]. destruct (run_others mask_id p c c' h Hr Hne) as (E1 & E2 & _). unfold excl, owned in *. by rewrite E1, E2.
Qed.

(** The variable changes under the eyes of its waiters. *)
Lemma run_val p c c' : lw_run mask_id p c = Some c' → lw_val c' = lw_val c ∨ (∃ v, lp_pc (lw_procs c p) = UpdCollect v) ∨ clearing (lw_procs c' p) = true.
Proof.
  intros Hr. open_run in Hr; unfold clearing in *. destruct (lp_pc (lw_procs c p)) eqn:Hpc; branch Hr; cfg_simpl; auto. right. left. eauto.
Qed.

Lemma run_var_value c c' f f' p s v : word_inv c f → queue_inv c → queue_inv c' → flag_inv c f → var_inv c f → p ∈ threads → lw_run mask_id p c = Some c' → stepped c p f f' c' →
  s ∈ lw_waiters c → s ∈ lw_waiters c' → saw_value (lw_procs c' s) = Some v → lw_val c' = v ∨ ∃ w, w ∈ threads ∧ (waking (lw_procs c' w) = true ∨ clearing (lw_procs c' w) = true).
Proof.
  intros I Q Q' F V Hp Hr _ Hs Hs' Hv. assert (is_Some (past_release (lw_procs c' s))) as Hps by (eapply saw_past, value_past, Hv).
  assert (saw_value (lw_procs c s) = Some v ∨ lw_val c' = v) as [Hv'|?]; [|..|by left].
  { destruct (decide (s = p)) as [->|Hne]; [destruct (run_value p c c' f v I Hp Hr Hv) as [[? _]|?]; auto|]. destruct (run_others mask_id p c c' s Hr Hne) as (E & _). left. unfold saw_value in *. by rewrite E in Hv. }
  destruct (vi_val _ _ V s v Hs Hv') as [Hval|(w & Hw & [Hwk|Hcl])].
  - destruct (run_val p c c' Hr) as [E|[[v' Hpc]|Hc]]; [left; congruence| |right; by exists p; auto].
    destruct (not_behind c' s Q' Hs' Hps). apply (run_taken_off p c c' f); eauto.
  - destruct (run_waking c c' f p s Q' Q V Hp Hr Hs' Hps) as (w' & ? & ?); [by exists w|]. right. exists w'. auto.
  - right. exists w. split; [done|]. destruct (decide (w = p)) as [->|Hne]; [|destruct (run_others mask_id p c c' w Hr Hne) as (E & _); right; unfold clearing in *; by rewrite E].
    unfold clearing in Hcl. destruct (lp_pc (lw_procs c p)) eqn:Hpc; try done.
    + left. destruct m; try done. apply (excl_drop p c c' f I Hp Hr); [apply (fi_flag _ _ _ F); intros E; rewrite E in Hs; by apply not_elem_of_nil in Hs| |by left].
      apply (vi_release _ _ V s Hs). by eapply saw_past, value_past.
    + right. open_run in Hr. rewrite Hpc in Hr. injection Hr as <-. unfold clearing. by cfg_simpl.
Qed.

Lemma run_var_inv c c' f f' p : word_inv c f → queue_inv c → queue_inv c' → flag_inv c f → var_inv c f → p ∈ threads → lw_run mask_id p c = Some c' → stepped c p f f' c' → var_inv c' f'.
Proof.
  intros I Q Q' F V Hp Hr S. assert (∀ s, s ∈ lw_waiters c' → is_Some (past_release (lw_procs c' s)) → s ∈ lw_waiters c) as Hin.
  { intros s Hs [v Hv]. destruct (run_joins mask_id p c c' s Hr Hs) as [?|(-> & o & _ & E)]; [done|]. unfold past_release in Hv. by rewrite E in Hv. }
  split.
  - by apply (run_front p c c' f).
  - by apply (run_collected_mode c c' f p).
  - intros s Hs Hps. pose proof (Hin s Hs Hps) as Hsc. pose proof S as (_ & -> & _).
    assert (is_Some (past_release (lw_procs c s)) ∨ ∃ o, lp_pc (lw_procs c p) = VarReleaseOk o) as [Hpc|[o Hpc]].
    { destruct (decide (s = p)) as [->|Hne]; [by apply (run_past p c c' f)|]. destruct (run_others mask_id p c c' s Hr Hne) as (E & _). left. unfold past_release in *. by rewrite E in Hps. }
    2:{ unfold release_after. by rewrite Hpc. }
    rewrite (vi_release _ _ V s Hsc Hpc). unfold release_after. destruct (lp_pc (lw_procs c p)) eqn:E; try done. destruct (lw_state c =? old); [|done].
    destruct release_ok; [done|]. destruct (not_behind c s Q Hsc Hpc). apply (vi_collected _ _ V p Hp). rewrite E. by eexists.
  - intros s Hs Hv. apply (run_var_excl c c' f f' p s); try done. apply Hin; [done|]. by apply saw_past.
  - intros s v Hs Hv. apply (run_var_value c c' f f' p s v); try done. apply Hin; [done|]. by eapply saw_past, value_past.
Qed.
End Var.
