(* ===== verification/LwReach.v ===== *)
(** * Lightweight locks: all interleavings

    The invariants hold in every configuration that the threads can reach together. *)

From S2P Require Import Prelude HeapTuple LockDefs LwLock LwWord LwLockSpec LwQueue LwWakeup LwProgress LwVar.

Section Reach.
Variable mask_id : Z → Z.
Hypothesis Hmask : ∀ p, 0 ≤ mask_id p < 6.
Variable threads : list Z.
Hypothesis Hnd : NoDup threads.
Variable timed : bool.
Abbreviation word_inv := (word_inv mask_id threads timed).
Abbreviation queue_inv := (queue_inv threads).
Abbreviation flag_inv := (flag_inv threads).
Abbreviation wake_inv := (wake_inv threads).
Abbreviation sem_inv := (sem_inv threads).
Abbreviation owe_inv := (owe_inv threads).
Abbreviation progress_inv := (progress_inv threads).
Abbreviation var_inv := (var_inv threads).

(** ** Steps that do not touch the lock *)

(** A thread is idle and calls a function, or its time limit passes. *)
Definition enters (x x' : lwproc) : Prop :=
  lp_pc x = Idle ∧
    ((∃ o, lp_held x = None ∧ lp_held x' = None ∧ op_ok timed o ∧ lp_pc x' = start_pc o) ∨
     (∃ m, lp_held x = Some m ∧ lp_held x' = None ∧ lp_pc x' = Release m) ∨
     lp_held x = Some LW_EXCLUSIVE ∧ lp_held x' = Some LW_EXCLUSIVE ∧ (lp_pc x' = DownRead ∨ ∃ v, lp_pc x' = ClearLock v ∨ lp_pc x' = UpdLock v)) ∨
  ∃ m, lp_pc x = Sleep (OpTimeout m) ∧ lp_pc x' = DeqLock (OpTimeout m) false ∧ lp_held x' = lp_held x.

Record quiet_step (p : Z) (c c' : lwcfg) : Prop := {
  qt_state : lw_state c' = lw_state c;
  qt_waiters : lw_waiters c' = lw_waiters c;
  qt_val : lw_val c' = lw_val c;
  qt_others : ∀ q, q ≠ p → lw_procs c' q = lw_procs c q;
  qt_waiting : lwWaiting (lw_procs c' p) = lwWaiting (lw_procs c p);
  qt_mode : lwWaitMode (lw_procs c' p) = lwWaitMode (lw_procs c p);
  qt_sem : lp_sem (lw_procs c p) ≤ lp_sem (lw_procs c' p);
  qt_extra : extraWaits (lw_procs c p) ≤ extraWaits (lw_procs c' p);
  qt_pc : lp_pc (lw_procs c' p) = lp_pc (lw_procs c p) ∧ lp_held (lw_procs c' p) = lp_held (lw_procs c p) ∨ enters (lw_procs c p) (lw_procs c' p);
}.

Lemma step_cases c c' : lw_step mask_id threads timed c c' → ∃ p, p ∈ threads ∧ (lw_run mask_id p c = Some c' ∨ quiet_step p c c').
Proof.
  assert (∀ p q (x y : lwproc), q ≠ p → (if q =? p then x else y) = y) as Hne by (intros p q x y H; by rewrite (proj2 (Z.eqb_neq q p))).
  destruct 1 as [p c c' Hp Hr|p o c Hp Hpc Hh Ho|p m c Hp Hpc Hh|p v c Hp Hpc Hh|p v c Hp Hpc Hh|p c Hp Hpc Hh|p c Hp|p m c Hp Hpc]; exists p; (split; [done|]); [by left|right..];
    (split; [done|done|done|intros q Hq; cfg_simpl; rewrite ?Hne by done; done|cfg_simpl; done|cfg_simpl; done|cfg_simpl; lia|cfg_simpl; try lia|cfg_simpl]).
  - right. left. split; [done|]. left. by exists o.
  - right. left. split; [done|]. right. left. by exists m.
  - right. left. split; [done|]. right. right. split_and!; [done|done|right; exists v; by left].
  - right. left. split; [done|]. right. right. split_and!; [done|done|right; exists v; by right].
  - right. left. split; [done|]. right. right. split_and!; [done|done|by left].
  - by left.
  - by destruct (lwWaiting _); cfg_simpl; lia.
  - right. right. by exists m.
Qed.

(** What a thread that comes so to a new point keeps. *)
Record stays (x x' : lwproc) : Prop := {
  kp_list : wake_list x' = wake_list x;
  kp_queued : queued_op x' = queued_op x;
  kp_self : removed_self x' = removed_self x;
  kp_other : removed_by_other x' = removed_by_other x;
  kp_collected : collected (lp_pc x') = collected (lp_pc x);
  kp_empty : empty_pc (lp_pc x') = empty_pc (lp_pc x);
  kp_crit : crit x' = crit x;
  kp_waking : waking x' = waking x;
  kp_committed : committed x' = true → committed x = true;
  kp_push : ∀ o, lp_pc x' = QueuePush o → lp_pc x = QueuePush o;
  kp_deq : ∀ o got e, lp_pc x' = DeqSem o got e → lp_pc x = DeqSem o got e;
  kp_signal : ∀ r wk, lp_pc x = WakeSem r wk → lp_pc x' = WakeSem r wk;
  kp_excl : excl x' = excl x;
  kp_shar : shar x' = shar x;
  kp_past : past_release x' = past_release x;
  kp_saw : saw_excl x' = saw_excl x;
  kp_value : saw_value x' = saw_value x;
  kp_clearing : clearing x = true → clearing x' = true;
  kp_owing : ∀ o, owing x = Some o → owing x' = Some o;
  kp_waiting : lwWaiting x' = lwWaiting x;
  kp_mode : lwWaitMode x' = lwWaitMode x;
  kp_sem : lp_sem x ≤ lp_sem x';
  kp_extra : extraWaits x ≤ extraWaits x';
}.

Lemma quiet_kept p c c' q : quiet_step p c c' → stays (lw_procs c q) (lw_procs c' q).
Proof.
  intros [_ _ _ H4 H5 H6 H7 H8 H9]. destruct (decide (q = p)) as [->|Hne]; [|rewrite H4 by done; split; done].
  assert (lp_pc (lw_procs c' p) = lp_pc (lw_procs c p) ∧ lp_held (lw_procs c' p) = lp_held (lw_procs c p) ∨ enters (lw_procs c p) (lw_procs c' p)) as [[E1 E2]|E] by done.
  - split; unfold wake_list, queued_op, removed_self, removed_by_other, crit, waking, committed, excl, shar, owned, owing, past_release, saw_excl, saw_value, clearing; rewrite ?E1, ?E2; done.
  - destruct E as [[Hpc [(o & Hh & Hh' & Ho & Hp')|[(m & Hh & Hh' & Hp')|(Hh & Hh' & [Hp'|(v & [Hp'|Hp'])])]]]|(m & Hpc & Hp' & Hh)]; try (destruct o);
      split; unfold wake_list, queued_op, removed_self, removed_by_other, crit, waking, committed, excl, shar, owned, owing, past_release, saw_excl, saw_value, clearing; rewrite ?Hpc, ?Hp', ?Hh, ?Hh'; done.
Qed.

Lemma quiet_word p c c' f : quiet_step p c c' → word_inv c f → p ∈ threads → word_inv c' f.
Proof.
  intros H I Hp. destruct (quiet_kept p c c' p H) as [_ _ _ _ _ _ X3 _ _ _ _ _ X1 X2 _ _ _ _ _ _ _ _ _]. pose proof (wi_threads _ _ _ _ _ I p Hp) as T.
  apply (calm_step mask_id Hmask threads Hnd timed c c' f f p I Hp); try done.
  - intros q Hne. by rewrite (qt_others _ _ _ H q Hne).
  - rewrite (qt_state _ _ _ H). apply (wi_word _ _ _ _ _ I).
  - destruct (qt_pc _ _ _ H) as [[E1 E2]|E]; [unfold thread_ok in *; by rewrite E1, E2|].
    destruct E as [[Hpc [(o & Hh & Hh' & Ho & Hp')|[(m & Hh & Hh' & Hp')|(Hh & Hh' & [Hp'|(v & [Hp'|Hp'])])]]]|(m & Hpc & Hp' & Hh')];
      unfold thread_ok in *; rewrite Hpc in T; rewrite Hp'; try done.
    + unfold start_pc. destruct (is_var o) eqn:Hv; [by split|]. split_and!; done.
    + split; [done|]. by apply T.
    + rewrite Hh'. destruct T as (? & ? & ?). split_and!; try done. intros _. right. by exists m.
Qed.

Lemma quiet_queue p c c' : quiet_step p c c' → queue_inv c → p ∈ threads → queue_inv c'.
Proof.
  intros H Q Hp. destruct (quiet_kept p c c' p H) as [E1 E2 E3 E4 _ _ _ _ _ _ _ _ _ _ _ _ _ _ _ _ _ _ _]. apply (queue_calm threads c c' p Q Hp).
  - apply (qt_waiters _ _ _ H).
  - intros q Hne. by rewrite (qt_others _ _ _ H q Hne).
  - done.
  - apply (qt_waiting _ _ _ H).
  - done.
  - rewrite E4. by left.
  - rewrite E2. by apply (qi_pc _ _ Q).
  - intros o. rewrite E2, (qt_mode _ _ _ H). by apply (qi_mode _ _ Q).
Qed.

Lemma quiet_flag p c c' f : quiet_step p c c' → flag_inv c f → flag_inv c' f.
Proof.
  intros H [F1 F2 F3]. split; rewrite ?(qt_waiters _ _ _ H); [done|..].
  - intros q o Hq Ho. apply (F2 q o Hq). by apply (kp_push _ _ (quiet_kept p c c' q H)).
  - intros q Hq. rewrite (kp_empty _ _ (quiet_kept p c c' q H)). by apply F3.
Qed.

Lemma quiet_wake p c c' : quiet_step p c c' → wake_inv c → wake_inv c'.
Proof.
  intros H [K1 K2]. split.
  - intros w wk Hw. rewrite (kp_collected _ _ (quiet_kept p c c' w H)). intros Hc. destruct (K1 w wk Hw Hc) as (q & Hq & Hm). exists q. by rewrite (kp_mode _ _ (quiet_kept p c c' q H)).
  - intros w wk ok q Hw. rewrite (kp_collected _ _ (quiet_kept p c c' w H)), (kp_other _ _ (quiet_kept p c c' q H)). by apply K2.
Qed.

Lemma quiet_sem p c c' : quiet_step p c c' → sem_inv c → sem_inv c'.
Proof.
  intros H [S1 S2]. split; intros q Hq; pose proof (quiet_kept p c c' q H) as A.
  - destruct (S1 q Hq) as (H1 & H2 & H3). pose proof (kp_sem _ _ A). pose proof (kp_extra _ _ A). split_and!; [lia|lia|]. intros o got e E. apply (H3 o got e). by apply (kp_deq _ _ A).
  - rewrite (kp_queued _ _ A), (kp_waiting _ _ A). intros H1 H2. destruct (S2 q Hq H1 H2) as [?|(w & wk & Hw & E)]; [left; pose proof (kp_sem _ _ A); lia|].
    right. exists w, wk. split; [done|]. by apply (kp_signal _ _ (quiet_kept p c c' w H)).
Qed.

Lemma quiet_owe p c c' f : quiet_step p c c' → owe_inv c f → owe_inv c' f.
Proof.
  intros H O Hf. destruct (O Hf) as (q & Hq & Hw & o & Ho & Hm). exists q. split_and!; [done|by rewrite (qt_waiters _ _ _ H)|]. exists o. split; [|done]. by apply (kp_owing _ _ (quiet_kept p c c' q H)).
Qed.

Lemma quiet_progress p c c' f : timed = false → word_inv c f → p ∈ threads → quiet_step p c c' → progress_inv c → progress_inv c'.
Proof.
  intros Ht I Hp H P s Hs Hc. rewrite (qt_waiters _ _ _ H) in Hs. destruct (P s Hs) as (a & Ha & Hcase); [by apply (kp_committed _ _ (quiet_kept p c c' s H))|].
  exists a. split; [done|]. pose proof (quiet_kept p c c' a H) as A. destruct Hcase as [Hh|[Hw|Hat]].
  - left. unfold has_lock in *. by rewrite (kp_excl _ _ A), (kp_shar _ _ A).
  - right. left. by rewrite (kp_waking _ _ A).
  - right. right. unfold attempting in *. rewrite (qt_waiters _ _ _ H). destruct (decide (a = p)) as [->|Hne]; [|by rewrite (qt_others _ _ _ H a Hne)].
    destruct (qt_pc _ _ _ H) as [[-> _]|E]; [done|]. destruct E as [[Hpc _]|(m & Hpc & _)]; rewrite Hpc in Hat; [done|].
    pose proof (wi_threads _ _ _ _ _ I p Hp) as T. unfold thread_ok in T. rewrite Hpc in T. destruct T as (_ & [T _] & _). congruence.
Qed.

Lemma quiet_var p c c' f : quiet_step p c c' → var_inv c f → var_inv c' f.
Proof.
  intros H [V1 V2 V3 V4 V5]. assert (∀ q, until_free c' q ↔ until_free c q) as Hm by (intros q; unfold until_free; by rewrite (kp_mode _ _ (quiet_kept p c c' q H))).
  assert (∀ q, waking (lw_procs c' q) = waking (lw_procs c q)) as Hw by (intros q; apply (kp_waking _ _ (quiet_kept p c c' q H))).
  split; rewrite ?(qt_waiters _ _ _ H), ?(qt_val _ _ _ H).
  - destruct V1 as (a & b & E & Ha & Hb). exists a, b. rewrite Forall_forall in *. split_and!; [done|..]; try rewrite Forall_forall; intros q Hq; rewrite Hm; auto.
  - intros w Hwt. rewrite (kp_collected _ _ (quiet_kept p c c' w H)). intros Hc. pose proof (V2 w Hwt Hc) as Hf. rewrite Forall_forall in *. intros q Hq. rewrite Hm. auto.
  - intros s Hs. rewrite (kp_past _ _ (quiet_kept p c c' s H)). by apply V3.
  - intros s Hs. rewrite (kp_saw _ _ (quiet_kept p c c' s H)). intros Hv. setoid_rewrite Hw. by apply (V4 s).
  - intros s v Hs. rewrite (kp_value _ _ (quiet_kept p c c' s H)). intros Hv. destruct (V5 s v Hs Hv) as [?|(w & Hwt & [?|?])]; [by left|right; exists w..].
    + split; [done|]. left. by rewrite Hw.
    + split; [done|]. right. by apply (kp_clearing _ _ (quiet_kept p c c' w H)).
Qed.

(** ** Together *)

Record lw_inv (c : lwcfg) (f : fields) : Prop := {
  li_word : word_inv c f;
  li_queue : queue_inv c;
  li_flag : flag_inv c f;
  li_wake : wake_inv c;
  li_sem : sem_inv c;
  li_owe : owe_inv c f;
  li_var : var_inv c f;
  li_progress : timed = false → progress_inv c;
}.

Definition lw_reachable (c : lwcfg) : Prop := ∃ c0, lw_start c0 ∧ rtc (lw_step mask_id threads timed) c0 c.

Lemma lw_inv_step c c' f : lw_inv c f → lw_step mask_id threads timed c c' → ∃ f', lw_inv c' f'.
Proof.
  intros [I Q F K S O V P] (p & Hp & [Hr|H])%step_cases.
  - destruct (run_word mask_id Hmask threads Hnd timed c c' f p I Hp Hr) as [f' St].
    { intros o Hpc. apply (not_waiting threads c p Q Hp). unfold queued_op. by rewrite Hpc. }
    assert (queue_inv c') as Q' by (by eapply run_queue_inv).
    exists f'. split; [apply St|done|by eapply run_flag|by eapply run_wake_inv|by eapply run_sem_inv|by eapply run_owe|by eapply run_var_inv|intros Ht; eapply run_progress; eauto].
  - exists f. split; [by eapply quiet_word|by eapply quiet_queue|by eapply quiet_flag|by eapply quiet_wake|by eapply quiet_sem|by eapply quiet_owe|by eapply quiet_var|intros Ht; eapply quiet_progress; eauto].
Qed.

Lemma lw_inv_start c : lw_start c → ∃ f, lw_inv c f.
Proof.
  intros (Hw & Hq & Hp). set (f := {| f_excl := false; f_count := λ _, 0; f_waiters := false; f_release_ok := true; f_locked := false |}). exists f.
  assert (∀ q, lp_pc (lw_procs c q) = Idle) as Hpc by (intros q; apply Hp). assert (∀ q, lp_held (lw_procs c q) = None) as Hh by (intros q; apply Hp).
  assert (∀ q, lwWaiting (lw_procs c q) = false) as Hwt by (intros q; apply Hp).
  assert (∀ q, excl (lw_procs c q) = false ∧ shar (lw_procs c q) = false ∧ crit (lw_procs c q) = false) as Ha by (intros q; unfold excl, shar, owned, crit; by rewrite Hpc, Hh).
  assert (∀ q, wake_list (lw_procs c q) = [] ∧ queued_op (lw_procs c q) = None ∧ removed_self (lw_procs c q) = false ∧ removed_by_other (lw_procs c q) = false) as Hb
    by (intros q; unfold wake_list, queued_op, removed_self, removed_by_other; by rewrite Hpc).
  assert (∀ q, ¬ on_list threads c q) as Hno by (intros q (w & _ & Hx); destruct (Hb w) as (E & _); rewrite E in Hx; by apply not_elem_of_nil in Hx).
  split.
  - split; [done|by intros i Hi| | | | | |].
    + split; [done|]. intros (p & _ & E). destruct (Ha p). congruence.
    + intros i Hi. symmetry. apply count_zero. intros q _. by destruct (Ha q) as (_ & -> & _).
    + intros p q _ _ E. destruct (Ha p). congruence.
    + split; [done|]. intros (p & _ & E). destruct (Ha p) as (_ & _ & ?). congruence.
    + intros p q _ _ E. destruct (Ha p) as (_ & _ & ?). congruence.
    + intros p _. unfold thread_ok. by rewrite Hpc, Hh.
  - split; rewrite ?Hq.
    + constructor.
    + intros w _. destruct (Hb w) as (-> & _). constructor.
    + intros q Hx. by destruct (Hno q).
    + intros w w' q _ _ Hx. destruct (Hb w) as (E & _). rewrite E in Hx. by apply not_elem_of_nil in Hx.
    + intros q [Hx|Hx]; [by apply not_elem_of_nil in Hx|by destruct (Hno q)].
    + intros q _. rewrite Hwt. destruct (Hb q) as (_ & _ & -> & _). split; [done|]. intros [Hx|[Hx|Hx]]; [by apply not_elem_of_nil in Hx|by destruct (Hno q)|done].
    + intros q _. by destruct (Hb q) as (_ & _ & -> & _).
    + intros q _. by destruct (Hb q) as (_ & _ & _ & ->).
    + intros q _. by rewrite Hwt.
    + intros q o _. by destruct (Hb q) as (_ & -> & _).
  - split; [by rewrite Hq|intros p o _; by rewrite Hpc|done].
  - split; intros w wk; [|intros ok q]; by rewrite Hpc.
  - split; intros q _; [destruct (Hp q) as (_ & _ & _ & ? & ?); rewrite Hpc; split_and!; [done|lia|done]|]. destruct (Hb q) as (_ & -> & _). by intros [? ?].
  - done.
  - split; rewrite ?Hq; [by exists [], []|constructor|..]; intros s; [..|intros v]; by intros Hs%not_elem_of_nil.
  - intros _ s Hs. rewrite Hq in Hs. by apply not_elem_of_nil in Hs.
Qed.

Lemma lw_inv_reachable c : lw_reachable c → ∃ f, lw_inv c f.
Proof.
  intros (c0 & Hs & Hr). apply lw_inv_start in Hs. induction Hr as [c|c0 c1 c Hst _ IH]; [done|]. apply IH. destruct Hs as [f If]. by eapply lw_inv_step.
Qed.
End Reach.
