(* ===== verification/LwCorrect.v ===== *)
(** * Lightweight locks: theorems

    Exclusion, what the word counts, that nobody sleeps for ever when the lock is free, and
    the schedule in which [LWLockAcquireTimeout] lets somebody sleep all the same. *)

From S2P Require Import Prelude HeapTuple LockDefs LwLock LwWord LwLockSpec LwQueue LwWakeup LwProgress LwVar LwReach.

(** ** A scheduler *)

Inductive lwevent : Type :=
| ERun (p : Z)
| ECall (p : Z) (o : lwop)
| ERelease (p : Z)
| EUpdate (p v : Z)
| EDowngrade (p : Z)
| ETimeout (p : Z).

Definition is_idle (x : lwproc) : bool := match lp_pc x with Idle => true | _ => false end.

Definition lw_event (mask_id : Z → Z) (e : lwevent) (c : lwcfg) : option lwcfg :=
  match e with
  | ERun p => lw_run mask_id p c
  | ECall p o => if is_idle (lw_procs c p) && bool_decide (lp_held (lw_procs c p) = None) then Some (goto p (start_pc o) c) else None
  | ERelease p => match lp_held (lw_procs c p) with Some m => if is_idle (lw_procs c p) then Some (goto p (Release m) (on_proc p (with_lwheld None) c)) else None | None => None end
  | EUpdate p v => if is_idle (lw_procs c p) && bool_decide (lp_held (lw_procs c p) = Some LW_EXCLUSIVE) then Some (goto p (UpdLock v) c) else None
  | EDowngrade p => if is_idle (lw_procs c p) && bool_decide (lp_held (lw_procs c p) = Some LW_EXCLUSIVE) then Some (goto p DownRead c) else None
  | ETimeout p =>
      match lp_pc (lw_procs c p) with
      | Sleep (OpTimeout m) => Some (goto p (DeqLock (OpTimeout m) false) (on_proc p (λ x, with_sem (lp_sem x) (if lwWaiting x then extraWaits x + 1 else extraWaits x) x) c))
      | _ => None
      end
  end.

Definition event_ok (threads : list Z) (timed : bool) (e : lwevent) : Prop :=
  match e with
  | ECall p o => p ∈ threads ∧ op_ok timed o
  | ERun p | ERelease p | EUpdate p _ | EDowngrade p | ETimeout p => p ∈ threads
  end.

Fixpoint lw_play (mask_id : Z → Z) (es : list lwevent) (c : lwcfg) : option lwcfg :=
  match es with [] => Some c | e :: es => match lw_event mask_id e c with Some c' => lw_play mask_id es c' | None => None end end.

Lemma lw_play_steps mask_id threads timed es : Forall (event_ok threads timed) es → ∀ c c', lw_play mask_id es c = Some c' → rtc (lw_step mask_id threads timed) c c'.
Proof.
  assert (∀ x, is_idle x = true → lp_pc x = Idle) as Hi by (intros x; unfold is_idle; by destruct (lp_pc x)).
  induction 1 as [|e es He _ IH]; intros c c'; cbn [lw_play]; [by intros [= <-]|]. destruct (lw_event mask_id e c) as [c1|] eqn:E; [|done]. intros Hp. eapply rtc_l; [|by apply IH]. clear IH Hp.
  destruct e as [p|p o|p|p v|p|p]; cbn [lw_event event_ok] in *.
  - by eapply lws_run.
  - destruct (is_idle _) eqn:Ei; [|done]. case_bool_decide; [|done]. injection E as <-. destruct He. apply lws_call; auto.
  - destruct (lp_held _) as [m|] eqn:Eh; [|done]. destruct (is_idle _) eqn:Ei; [|done]. injection E as <-. apply lws_release; auto.
  - destruct (is_idle _) eqn:Ei; [|done]. case_bool_decide; [|done]. injection E as <-. apply lws_update; auto.
  - destruct (is_idle _) eqn:Ei; [|done]. case_bool_decide; [|done]. injection E as <-. apply lws_downgrade; auto.
  - destruct (lp_pc _) as [| | | | | | | | | | | | | | | | | | | |o| | | | | | | | | | | | | | | | | |] eqn:Epc; try done. destruct o; try done. injection E as <-. by apply lws_timeout.
Qed.

Definition idle_proc : lwproc := {| lp_pc := Idle; lwWaiting := false; lwWaitMode := LW_EXCLUSIVE; lp_sem := 0; extraWaits := 0; lp_held := None |}.
Definition fresh_lock : lwcfg := {| lw_state := LW_FLAG_RELEASE_OK; lw_waiters := []; lw_val := 0; lw_procs := λ _, idle_proc |}.

Lemma new_lock_start : lw_start fresh_lock.
Proof. split_and!; [done|done|]. intros p. cbn. split_and!; try done. Qed.

(** What a schedule leads to, and that the threads can get there. *)
Definition played (es : list lwevent) : lwcfg := match lw_play LOCK_THREADID_MASK es fresh_lock with Some c => c | None => fresh_lock end.
Definition plays (es : list lwevent) : bool := match lw_play LOCK_THREADID_MASK es fresh_lock with Some _ => true | None => false end.

Lemma played_reachable threads timed es : Forall (event_ok threads timed) es → plays es = true → lw_reachable LOCK_THREADID_MASK threads timed (played es).
Proof.
  intros He Hp. exists fresh_lock. split; [apply new_lock_start|]. apply (lw_play_steps _ _ _ es He). unfold plays, played in *. by destruct (lw_play _ es fresh_lock).
Qed.

Lemma mask_range p : 0 ≤ LOCK_THREADID_MASK p < 6.
Proof. apply Z.mod_pos_bound. lia. Qed.

Section Correct.
Variable threads : list Z.
Hypothesis Hnd : NoDup threads.
Variable timed : bool.
Abbreviation lw_inv := (lw_inv LOCK_THREADID_MASK threads timed).
Abbreviation lw_reachable := (lw_reachable LOCK_THREADID_MASK threads timed).

(** ** Threads that cannot go on *)

(** Who has the list lock can go on; else a thread waits for it, for a signal, or is idle. *)
Lemma lw_blocked c f p : lw_inv c f → p ∈ threads → lw_run LOCK_THREADID_MASK p c = None →
  crit (lw_procs c p) = false ∧ (lp_pc (lw_procs c p) = Idle ∨ f_locked f = true ∨ lp_sem (lw_procs c p) ≤ 0 ∧ ((∃ o, lp_pc (lw_procs c p) = Sleep o) ∨ ∃ o got e, lp_pc (lw_procs c p) = DeqSem o got e)).
Proof.
  intros L Hp Hr. pose proof (li_word _ _ _ _ _ L) as I. pose proof (wi_threads _ _ _ _ _ I p Hp) as T. pose proof (flag_locked f (wi_counts _ _ _ _ _ I)) as Hl. rewrite <- (wi_word _ _ _ _ _ I) in Hl.
  open_run in Hr; unfold crit, thread_ok, list_lock in *. rewrite Hl in Hr. destruct (lp_pc (lw_procs c p)) eqn:Hpc; try discriminate Hr; try done; try (split; [done|]); auto.
  all: try (destruct (f_locked f); [by auto|discriminate Hr]).
  - destruct (attempt_cas _ _ _ _ _); discriminate Hr.
  - destruct (lwWaiting _); [discriminate Hr|]. destruct (f_locked f); [by auto|discriminate Hr].
  - destruct (Z.leb_spec (lp_sem (lw_procs c p)) 0); [|discriminate Hr]. right. right. split; [done|]. right. eauto.
  - destruct (Z.leb_spec (lp_sem (lw_procs c p)) 0); [|discriminate Hr]. right. right. split; [done|]. left. eauto.
  - destruct (collect _ _ _) as [[wk rest] ok]. discriminate Hr.
  - destruct wakeup; discriminate Hr.
  - destruct (attempt_cas _ _ _ _ _); discriminate Hr.
  - destruct (front_waiters _ _). discriminate Hr.
Qed.

(** If none can go on, then each is idle, or asleep in the queue. *)
Lemma all_blocked c f p : lw_inv c f → (∀ q, q ∈ threads → lw_run LOCK_THREADID_MASK q c = None) → p ∈ threads →
  lp_pc (lw_procs c p) = Idle ∨ ∃ o, lp_pc (lw_procs c p) = Sleep o ∧ p ∈ lw_waiters c.
Proof.
  intros L Hall Hp. pose proof (li_word _ _ _ _ _ L) as I. pose proof (li_queue _ _ _ _ _ L) as Q. pose proof (li_sem _ _ _ _ _ L) as S.
  assert (f_locked f = false) as Hul.
  { apply not_true_is_false. intros Hl. apply (wi_locked _ _ _ _ _ I) in Hl as (q & Hq & Hc). destruct (lw_blocked c f q L Hq (Hall q Hq)). congruence. }
  assert (∀ q, q ∈ threads → lp_pc (lw_procs c q) = Idle ∨ lp_sem (lw_procs c q) ≤ 0 ∧ ((∃ o, lp_pc (lw_procs c q) = Sleep o) ∨ ∃ o got e, lp_pc (lw_procs c q) = DeqSem o got e)) as Hb.
  { intros q Hq. destruct (lw_blocked c f q L Hq (Hall q Hq)) as (_ & [?|[?|?]]); [by left|congruence|by right]. }
  assert (∀ q, ¬ on_list threads c q) as Hno.
  { intros q (w & Hw & Hx). unfold wake_list in Hx. destruct (Hb w Hw) as [E|[_ [[o E]|(o & got & e & E)]]]; rewrite E in Hx; by apply not_elem_of_nil in Hx. }
  destruct (Hb p Hp) as [?|[Hs Hpc]]; [by left|right].
  assert (is_Some (queued_op (lw_procs c p))) as Hqu by (unfold queued_op; destruct Hpc as [[o ->]|(o & got & e & ->)]; eauto).
  assert (removed_self (lw_procs c p) = false) as Hrs by (unfold removed_self; destruct Hpc as [[o ->]|(o & got & e & ->)]; done).
  destruct (lwWaiting (lw_procs c p)) eqn:Ew.
  - apply (qi_waiting _ _ Q p Hp) in Ew as [Hw|[Hw|?]]; [|by destruct (Hno p)|congruence]. destruct Hpc as [[o E]|(o & got & e & E)]; [by exists o|].
    destruct (qi_other _ _ Q p Hp); [|done]. unfold removed_by_other. by rewrite E.
  - destruct (si_signal _ _ S p Hp Hqu Ew) as [?|(w & wk & Hw & E)]; [lia|]. destruct (Hb w Hw) as [?|[_ [[o ?]|(o & got & e & ?)]]]; congruence.
Qed.

(** Then a holder is idle: it has_lock the lock outside these functions. *)
Lemma blocked_holder c f p : lw_inv c f → (∀ q, q ∈ threads → lw_run LOCK_THREADID_MASK q c = None) → p ∈ threads → has_lock (lw_procs c p) = true →
  lp_pc (lw_procs c p) = Idle ∧ excl (lw_procs c p) = bool_decide (lp_held (lw_procs c p) = Some LW_EXCLUSIVE) ∧ lp_held (lw_procs c p) ≠ None.
Proof.
  intros L Hall Hp Hh. pose proof (wi_threads _ _ _ _ _ (li_word _ _ _ _ _ L) p Hp) as T. unfold has_lock, excl, shar, owned, thread_ok in *.
  destruct (all_blocked c f p L Hall Hp) as [E|(o & E & _)]; rewrite E in *.
  - split_and!; [done|done|]. intros Hn. by rewrite Hn in Hh.
  - destruct T as (Hn & _). by rewrite Hn in Hh.
Qed.

(** ** Theorems *)

(** C15: one holder. In every interleaving of any number of threads that acquire a lock
    (unconditionally, conditionally, or with a time limit), wait for it, update and wait for its variable,
    downgrade and release it, a thread that holds it exclusively is the only one to hold it. *)
Theorem lw_mutual_exclusion c p q :
  lw_reachable c → p ∈ threads → q ∈ threads → q ≠ p → lp_held (lw_procs c p) = Some LW_EXCLUSIVE → lp_held (lw_procs c q) = None.
Proof.
  intros Hre Hp Hq Hne Hh. destruct (lw_inv_reachable LOCK_THREADID_MASK mask_range threads Hnd timed c Hre) as [f L]. pose proof (li_word _ _ _ _ _ L) as I.
  assert (∀ r m, r ∈ threads → lp_held (lw_procs c r) = Some m → lock_mode m ∧ owned (lw_procs c r) = Some m) as Hown.
  { intros r m Hr Hm. pose proof (wi_threads _ _ _ _ _ I r Hr) as T. unfold thread_ok, owned in *. rewrite Hm in *.
    destruct (lp_pc (lw_procs c r)); try done; try (split; [by apply T|done]); first [by (split; [left; congruence|])|by destruct T|destruct T as [T _]; by (split; [left; congruence|])]. }
  destruct (lp_held (lw_procs c q)) as [m|] eqn:Hhq; [|done]. destruct (Hown p _ Hp Hh) as [_ Hop], (Hown q m Hq Hhq) as [Hm Hoq].
  destruct (wi_alone _ _ _ _ _ I p q Hp Hq) as [H1 H2]; [unfold excl; by rewrite Hop|done|]. unfold excl, shar in *. rewrite Hoq in *. by destruct Hm as [->| ->].
Qed.

(** C36: the word counts the holders. In every interleaving, and between the atomic operations of an
    acquisition, a release or a downgrade too, byte [i] of the word is the number of the shared holders
    that use it, below 128, plus 128 if a thread has the lock exclusively: no acquisition or release is lost, no count overflows into the exclusive bit. *)
Theorem lw_word_counts c i :
  lw_reachable c → 0 ≤ i < 6 → let n := count (λ p, shar (lw_procs c p) && (LOCK_THREADID_MASK p =? i)) threads in
  n < 128 ∧ byte_of i (lw_state c) = n + (if bool_decide (Exists (λ p, excl (lw_procs c p) = true) threads) then 128 else 0).
Proof.
  intros Hre Hi n. destruct (lw_inv_reachable LOCK_THREADID_MASK mask_range threads Hnd timed c Hre) as [f L]. pose proof (li_word _ _ _ _ _ L) as I.
  pose proof (wi_counts _ _ _ _ _ I) as Hc. assert (f_count f i = n) as En by (by apply (wi_count _ _ _ _ _ I)). rewrite <- En. split; [by apply Hc|].
  rewrite (wi_word _ _ _ _ _ I), byte_word by done. unfold full. case_bool_decide as He; rewrite Exists_exists in He.
  - rewrite (proj2 (wi_excl _ _ _ _ _ I) He). done.
  - destruct (f_excl f) eqn:Ef; [|cbn; lia]. destruct He. by apply (wi_excl _ _ _ _ _ I).
Qed.

(** the panic is unreachable. No thread that queues itself for a lock finds that it is still waiting on
    one (the [PANIC] of [LWLockQueueSelf]): whoever took it off the queue has told it so before it could queue again, even with
    signals for other reasons and with time limits. *)
Theorem lw_never_panics c p : lw_reachable c → p ∈ threads → lp_pc (lw_procs c p) ≠ Panic.
Proof.
  intros Hre Hp E. destruct (lw_inv_reachable LOCK_THREADID_MASK mask_range threads Hnd timed c Hre) as [f L].
  pose proof (wi_threads _ _ _ _ _ (li_word _ _ _ _ _ L) p Hp) as T. unfold thread_ok in T. by rewrite E in T.
Qed.

(** C16: no lost wakeup. As long as no thread uses a time limit: when no thread can take a step, then every thread is outside these
    functions, or some thread holds the lock and is outside them (so that it can release it). Nobody sleeps on a free lock, and no signal or
    list lock is waited for in vain. *)
Theorem lw_no_lost_wakeup c p :
  timed = false → lw_reachable c → (∀ q, q ∈ threads → lw_run LOCK_THREADID_MASK q c = None) → p ∈ threads →
  lp_pc (lw_procs c p) = Idle ∨ ∃ h, h ∈ threads ∧ lp_pc (lw_procs c h) = Idle ∧ lp_held (lw_procs c h) ≠ None.
Proof.
  intros Ht Hre Hall Hp. destruct (lw_inv_reachable LOCK_THREADID_MASK mask_range threads Hnd timed c Hre) as [f L].
  destruct (all_blocked c f p L Hall Hp) as [?|(o & Hpc & Hw)]; [by left|right].
  destruct (li_progress _ _ _ _ _ L Ht p Hw) as (a & Ha & Hcase); [unfold committed; by rewrite Hpc|]. destruct Hcase as [Hh|Hcase].
  - exists a. split; [done|]. by destruct (blocked_holder c f a L Hall Ha Hh) as (? & _ & ?).
  - exfalso. unfold waking, attempting in Hcase. destruct (all_blocked c f a L Hall Ha) as [E|(o' & E & Hin)]; rewrite E in Hcase; [by destruct Hcase|]. destruct Hcase as [?|[? _]]; done.
Qed.

(** C17: waiting for a variable. In every interleaving, with time limits too: when no thread can take a step and a thread sleeps
    in [LWLockWaitForVar], then another one has_lock the lock exclusively and the variable still has the value that the sleeper
    wants to see changed. So every change, release and downgrade wakes those who wait for it. *)
Theorem lw_wait_for_var c p v :
  lw_reachable c → (∀ q, q ∈ threads → lw_run LOCK_THREADID_MASK q c = None) → p ∈ threads → lp_pc (lw_procs c p) = Sleep (OpWaitForVar v) →
  lw_val c = v ∧ ∃ h, h ∈ threads ∧ lp_pc (lw_procs c h) = Idle ∧ lp_held (lw_procs c h) = Some LW_EXCLUSIVE.
Proof.
  intros Hre Hall Hp Hpc. destruct (lw_inv_reachable LOCK_THREADID_MASK mask_range threads Hnd timed c Hre) as [f L]. pose proof (li_var _ _ _ _ _ L) as V.
  assert (∀ w, w ∈ threads → waking (lw_procs c w) = true ∨ clearing (lw_procs c w) = true → False) as Hno.
  { intros w Hw. unfold waking, clearing. destruct (all_blocked c f w L Hall Hw) as [->|(o & -> & _)]; by intros [?|?]. }
  destruct (all_blocked c f p L Hall Hp) as [E|(o & E & Hw)]; [congruence|]. split.
  - destruct (vi_val _ _ _ V p v Hw) as [?|(w & Hwt & Hx)]; [unfold saw_value; by rewrite Hpc|done|by destruct (Hno w)].
  - destruct (vi_excl _ _ _ V p Hw) as [Hx|(w & Hwt & Hx)]; [unfold saw_excl; rewrite Hpc; by eexists| |by destruct (Hno w); auto].
    apply (wi_excl _ _ _ _ _ (li_word _ _ _ _ _ L)) in Hx as (h & Hh & Hx). exists h. split; [done|].
    destruct (blocked_holder c f h L Hall Hh) as (Hi & He & _); [unfold has_lock; by rewrite Hx|]. split; [done|]. rewrite He in Hx. by apply bool_decide_eq_true in Hx.
Qed.
End Correct.

(** ** Schedules *)

Definition run_n (p : Z) (n : nat) : list lwevent := replicate n (ERun p).
Definition thread_a : Z := 1 * 2 ^ 20.
Definition thread_b : Z := 2 * 2 ^ 20.
Definition thread_c : Z := 3 * 2 ^ 20.
Definition three : list Z := [thread_a; thread_b; thread_c].
Definition is_none {A} (x : option A) : bool := match x with None => true | Some _ => false end.
Definition stuck (c : lwcfg) : bool := forallb (λ q, is_none (lw_run LOCK_THREADID_MASK q c)) three.

Lemma three_nodup : NoDup three.
Proof. apply (bool_decide_unpack _). by vm_compute. Qed.

Lemma stuck_spec c : stuck c = true → ∀ q, q ∈ three → lw_run LOCK_THREADID_MASK q c = None.
Proof.
  unfold stuck. rewrite forallb_forall. intros H q Hq. specialize (H q (proj1 (list_elem_of_In three q) Hq)). by destruct (lw_run _ q c).
Qed.

Lemma runs_ok timed p n : p ∈ three → Forall (event_ok three timed) (run_n p n).
Proof. intros Hp. unfold run_n. by apply Forall_replicate. Qed.

Lemma in_three : (thread_a ∈ three) ∧ (thread_b ∈ three) ∧ (thread_c ∈ three).
Proof. split_and!; apply (bool_decide_unpack _); by vm_compute. Qed.

(** Discharges the conditions on the events of a schedule. *)
Ltac schedule := destruct in_three as (Ia & Ib & Ic); repeat first [apply Forall_nil; exact I|apply Forall_cons; split|apply Forall_app; split|apply runs_ok]; cbn; auto; try (split; [assumption|]); cbn; unfold lock_mode; auto.

(** A thread has the lock; another asks for it with a time limit, a third without: both sleep. The lock is
    released and the second one is woken, but its time is over; it leaves. *)
Definition lost_schedule : list lwevent :=
  ECall thread_a (OpAcquire LW_EXCLUSIVE) :: run_n thread_a 2 ++ ECall thread_b (OpTimeout LW_EXCLUSIVE) :: run_n thread_b 6 ++ ECall thread_c (OpAcquire LW_EXCLUSIVE) :: run_n thread_c 6 ++
  ERelease thread_a :: run_n thread_a 8 ++ ETimeout thread_b :: run_n thread_b 6.

(** C39: a time limit loses a wakeup. In [LWLockAcquireTimeout] a thread whose time is over while it is being woken takes
    itself off without trying for the lock again and without waking the next one: a schedule of three threads ends with the lock
    free, no thread able to take a step, and one of them asleep in [LWLockAcquire]. *)
Theorem lw_timeout_lost_wakeup : ∃ c,
  lw_reachable LOCK_THREADID_MASK three true c ∧ (∀ q, q ∈ three → lw_run LOCK_THREADID_MASK q c = None) ∧ flag (lw_state c) LW_LOCK_MASK = false ∧
  (∀ q, q ∈ three → lp_held (lw_procs c q) = None) ∧ lp_pc (lw_procs c thread_c) = Sleep (OpAcquire LW_EXCLUSIVE).
Proof.
  exists (played lost_schedule). split_and!.
  - apply played_reachable; [unfold lost_schedule; schedule|by vm_compute].
  - apply stuck_spec. by vm_compute.
  - by vm_compute.
  - assert (forallb (λ q, is_none (lp_held (lw_procs (played lost_schedule) q))) three = true) as H by (by vm_compute). rewrite forallb_forall in H. intros q Hq.
    specialize (H q (proj1 (list_elem_of_In three q) Hq)). by destruct (lp_held _).
  - by vm_compute.
Qed.

(** A holder, and a thread that sleeps because of it. *)
Definition held_schedule : list lwevent :=
  ECall thread_a (OpAcquire LW_EXCLUSIVE) :: run_n thread_a 2 ++ ECall thread_b (OpAcquire LW_SHARED) :: run_n thread_b 6.

Lemma held_reachable : lw_reachable LOCK_THREADID_MASK three false (played held_schedule).
Proof. apply played_reachable; [unfold held_schedule; schedule|by vm_compute]. Qed.
Lemma held_facts : lp_held (lw_procs (played held_schedule) thread_a) = Some LW_EXCLUSIVE ∧ lp_pc (lw_procs (played held_schedule) thread_b) = Sleep (OpAcquire LW_SHARED) ∧ stuck (played held_schedule) = true.
Proof. split_and!; by vm_compute. Qed.

Lemma lw_mutual_exclusion_witness : lp_held (lw_procs (played held_schedule) thread_a) = Some LW_EXCLUSIVE ∧ lp_held (lw_procs (played held_schedule) thread_b) = None.
Proof.
  split; [apply held_facts|].
  apply (lw_mutual_exclusion three three_nodup false (played held_schedule) thread_a thread_b held_reachable); [apply in_three|apply in_three|done|apply held_facts].
Defined.

Lemma lw_never_panics_witness : lp_pc (lw_procs (played held_schedule) thread_b) ≠ Panic.
Proof. apply (lw_never_panics three three_nodup false (played held_schedule) thread_b held_reachable). apply in_three. Defined.

Lemma lw_no_lost_wakeup_witness :
  lp_pc (lw_procs (played held_schedule) thread_b) = Idle ∨ ∃ h, h ∈ three ∧ lp_pc (lw_procs (played held_schedule) h) = Idle ∧ lp_held (lw_procs (played held_schedule) h) ≠ None.
Proof.
  apply (lw_no_lost_wakeup three three_nodup false (played held_schedule) thread_b eq_refl held_reachable); [apply stuck_spec, held_facts|apply in_three].
Defined.

(** Two shared holders, and a thread that is about to be the third. *)
Definition shared_schedule : list lwevent :=
  ECall thread_a (OpAcquire LW_SHARED) :: run_n thread_a 2 ++ ECall thread_b (OpConditional LW_SHARED) :: run_n thread_b 2 ++ [ECall thread_c (OpAcquire LW_EXCLUSIVE)].

Lemma shared_reachable : lw_reachable LOCK_THREADID_MASK three false (played shared_schedule).
Proof. apply played_reachable; [unfold shared_schedule; schedule|by vm_compute]. Qed.

Lemma lw_word_counts_witness :
  let n := count (λ p, shar (lw_procs (played shared_schedule) p) && (LOCK_THREADID_MASK p =? 1)) three in
  n < 128 ∧ byte_of 1 (lw_state (played shared_schedule)) = n + (if bool_decide (Exists (λ p, excl (lw_procs (played shared_schedule) p) = true) three) then 128 else 0).
Proof. apply (lw_word_counts three three_nodup false (played shared_schedule) 1 shared_reachable). lia. Defined.

(** Waiting for the variable to change from 0. *)
Definition var_schedule : list lwevent :=
  ECall thread_a (OpAcquire LW_EXCLUSIVE) :: run_n thread_a 2 ++ ECall thread_b (OpWaitForVar 0) :: run_n thread_b 13.

Lemma var_reachable : lw_reachable LOCK_THREADID_MASK three false (played var_schedule).
Proof. apply played_reachable; [unfold var_schedule; schedule|by vm_compute]. Qed.
Lemma var_facts : lp_pc (lw_procs (played var_schedule) thread_b) = Sleep (OpWaitForVar 0) ∧ stuck (played var_schedule) = true.
Proof. split; by vm_compute. Qed.

Lemma lw_wait_for_var_witness :
  lw_val (played var_schedule) = 0 ∧ ∃ h, h ∈ three ∧ lp_pc (lw_procs (played var_schedule) h) = Idle ∧ lp_held (lw_procs (played var_schedule) h) = Some LW_EXCLUSIVE.
Proof.
  apply (lw_wait_for_var three three_nodup false (played var_schedule) thread_b 0 var_reachable); [apply stuck_spec, var_facts|apply in_three|apply var_facts].
Defined.

(** The update wakes it, and it returns. *)
Definition update_schedule : list lwevent := var_schedule ++ EUpdate thread_a 7 :: run_n thread_a 6 ++ run_n thread_b 5.
Example var_update_wakes : plays update_schedule = true ∧ lp_pc (lw_procs (played update_schedule) thread_b) = Idle.
Proof. split; by vm_compute. Qed.
