(* ===== verification/ComboCid.v ===== *)
(** * Combo command ids

    [src/common/backend/utils/time/combocid.cpp]: a header has one command id
    field. A transaction that deletes a tuple it has inserted itself stores the
    index of a (cmin, cmax) pair kept in the session instead; a hash table finds
    the index of a pair already stored. The array is copied to the stream threads
    of a parallel query. *)

From S2P Require Import Prelude TransamDefs HeapTuple.

(** The combo cid fields of the session, [u_sess->utils_cxt]; [None] is the NULL
    pointer, an array is the list of all its [size] cells, and a pair (cmin, cmax)
    is a [ComboCidKeyData]. *)
Record combo_state := {
  comboHash : option (gmap (Z * Z) Z);
  comboCids : option (list (Z * Z));
  usedComboCids : Z;
  sizeComboCids : Z;
  StreamParentComboCids : option (list (Z * Z));
  StreamParentsizeComboCids : Z;
}.

(** What the functions ask of the session: [SS_STANDBY_MODE_WITH_REMOTE_EXECUTE],
    [StreamThreadAmI()], and which xids are its own. *)
Record combo_env := {
  SS_STANDBY_MODE_WITH_REMOTE_EXECUTE : bool;
  StreamThreadAmI : bool;
  TransactionIdIsCurrentTransactionId : Z → bool;
}.

Definition CCID_ARRAY_SIZE : Z := 100.
Definition CCID_ARRAY_INCSIZE : Z := 10000.

(** Fresh memory of [n] cells: its contents are indeterminate in the code, and no
    theorem depends on them. *)
Definition fresh_cells (n : Z) : list (Z * Z) := replicate (Z.to_nat n) (0, 0).

(** An access through the array pointer: NULL, and an index outside the array,
    are undefined in the code; here they stop the server. *)
Definition combo_cell (combocid : Z) : M combo_state (Z * Z) := λ s,
  match comboCids s ≫= lookup (Z.to_nat combocid) with
  | Some c => (Ok c, s)
  | None => (Ereport PANIC, s)
  end.

Definition GetRealCmin (combocid : Z) : M combo_state Z :=
  c ← combo_cell combocid; mret (fst c).
Definition GetRealCmax (combocid : Z) : M combo_state Z :=
  c ← combo_cell combocid; mret (snd c).

(** First use in a transaction: create the hash table and the array. *)
Definition combo_init (s : combo_state) : combo_state :=
  let s1 := match comboHash s with
    | Some _ => s
    | None => {| comboHash := Some ∅; comboCids := comboCids s; usedComboCids := usedComboCids s;
                 sizeComboCids := sizeComboCids s; StreamParentComboCids := StreamParentComboCids s;
                 StreamParentsizeComboCids := StreamParentsizeComboCids s |}
    end in
  match comboCids s1 with
  | Some _ => s1
  | None => {| comboHash := comboHash s1; comboCids := Some (fresh_cells CCID_ARRAY_SIZE);
               usedComboCids := 0; sizeComboCids := CCID_ARRAY_SIZE;
               StreamParentComboCids := StreamParentComboCids s1;
               StreamParentsizeComboCids := StreamParentsizeComboCids s1 |}
  end.

(** Grow the array when it is full. *)
Definition combo_grow (s : combo_state) : combo_state :=
  if sizeComboCids s <=? usedComboCids s then
    {| comboHash := comboHash s;
       comboCids := (λ a, a ++ fresh_cells CCID_ARRAY_INCSIZE) <$> comboCids s;
       usedComboCids := usedComboCids s; sizeComboCids := sizeComboCids s + CCID_ARRAY_INCSIZE;
       StreamParentComboCids := StreamParentComboCids s;
       StreamParentsizeComboCids := StreamParentsizeComboCids s |}
  else s.

(** Store the pair in the next cell and enter it into the hash table. *)
Definition combo_append (cmin cmax : Z) (s : combo_state) : combo_state :=
  {| comboHash := insert (cmin, cmax) (u32 (usedComboCids s)) <$> comboHash s;
     comboCids := (λ a, aset a (u32 (usedComboCids s)) (cmin, cmax)) <$> comboCids s;
     usedComboCids := usedComboCids s + 1; sizeComboCids := sizeComboCids s;
     StreamParentComboCids := StreamParentComboCids s;
     StreamParentsizeComboCids := StreamParentsizeComboCids s |}.

Definition GetComboCommandId (cmin cmax : Z) : M combo_state Z :=
  modify combo_init ≫= λ _,
  h ← gets (λ s, comboHash s ≫= lookup (cmin, cmax));
  match h with
  | Some combocid => mret combocid
  | None =>
      modify combo_grow ≫= λ _,
      combocid ← gets (λ s, u32 (usedComboCids s));
      modify (combo_append cmin cmax) ≫= λ _,
      mret combocid
  end.

Definition HeapTupleHeaderGetCmin (env : combo_env) (tup : HeapTupleHeaderData) : M combo_state Z :=
  let cid := HeapTupleHeaderGetRawCommandId tup in
  if SS_STANDBY_MODE_WITH_REMOTE_EXECUTE env then mret cid
  else if flag (t_infomask tup) HEAP_COMBOCID then GetRealCmin cid
  else mret cid.

Definition HeapTupleHeaderGetCmax (env : combo_env) (tup : HeapTupleHeaderData) : M combo_state Z :=
  let cid := HeapTupleHeaderGetRawCommandId tup in
  if SS_STANDBY_MODE_WITH_REMOTE_EXECUTE env then mret cid
  else if flag (t_infomask tup) HEAP_COMBOCID then GetRealCmax cid
  else mret cid.

(** The same for a tuple that carries its own xid base. *)
Definition HeapTupleGetCmin (env : combo_env) (tup : HeapTupleData) : M combo_state Z :=
  let htup := t_data tup in
  let cid := HeapTupleHeaderGetRawCommandId htup in
  if SS_STANDBY_MODE_WITH_REMOTE_EXECUTE env then mret cid
  else if flag (t_infomask htup) HEAP_COMBOCID then GetRealCmin cid
  else mret cid.

Definition HeapTupleGetCmax (env : combo_env) (tup : HeapTupleData) : M combo_state Z :=
  let htup := t_data tup in
  let cid := HeapTupleHeaderGetRawCommandId htup in
  if SS_STANDBY_MODE_WITH_REMOTE_EXECUTE env then mret cid
  else if flag (t_infomask htup) HEAP_COMBOCID then GetRealCmax cid
  else mret cid.

Definition CheckStreamCombocid (env : combo_env) (tup : HeapTupleHeaderData) : M combo_state bool :=
  let cid := HeapTupleHeaderGetRawCommandId tup in
  if SS_STANDBY_MODE_WITH_REMOTE_EXECUTE env then mret false
  else
    used ← gets usedComboCids;
    if u32 used <=? cid then
      if StreamThreadAmI env then mret true else raise PANIC
    else mret false.

(** [*cmax] and [*iscombo] after the call. *)
Definition HeapTupleHeaderAdjustCmax (env : combo_env) (page : HeapPageHeaderData)
    (tup : HeapTupleHeaderData) (cmax : Z) : M combo_state (Z * bool) :=
  if negb (HeapTupleHeaderXminCommitted tup)
     && TransactionIdIsCurrentTransactionId env (HeapTupleHeaderGetXmin page tup)
  then
    cmin ← HeapTupleHeaderGetCmin env tup;
    cmax ← GetComboCommandId cmin cmax;
    mret (cmax, true)
  else mret (cmax, false).

Definition AtEOXact_ComboCid : M combo_state unit :=
  modify (λ _, {| comboHash := None; comboCids := None; usedComboCids := 0; sizeComboCids := 0;
                  StreamParentComboCids := None; StreamParentsizeComboCids := 0 |}).

(** *** Stream threads *)

(** The combo cid part of a [StreamTxnContext]. *)
Record StreamTxnContext := {
  stc_comboHash : option (gmap (Z * Z) Z);
  stc_comboCids : option (list (Z * Z));
  stc_usedComboCids : Z;
  stc_sizeComboCids : Z;
}.

(** Allocate or enlarge [StreamParentComboCids], then copy the used cells. *)
Definition save_stream_cells (s : combo_state) (cids : list (Z * Z)) : combo_state :=
  let '(parent, psize) := match StreamParentComboCids s with
    | None => (fresh_cells (sizeComboCids s), sizeComboCids s)
    | Some p => (p, StreamParentsizeComboCids s)
    end in
  let '(parent, psize) :=
    if psize <? sizeComboCids s then
      (parent ++ fresh_cells (sizeComboCids s - psize), sizeComboCids s)
    else (parent, psize) in
  let used := Z.to_nat (usedComboCids s) in
  {| comboHash := comboHash s; comboCids := comboCids s; usedComboCids := usedComboCids s;
     sizeComboCids := sizeComboCids s;
     StreamParentComboCids := Some (take used cids ++ drop used parent);
     StreamParentsizeComboCids := psize |}.

Definition StreamTxnContextSaveComboCid : M combo_state StreamTxnContext :=
  modify (λ s, match comboCids s with
    | Some cids =>
        if negb (sizeComboCids s =? 0) && negb (usedComboCids s =? 0) then save_stream_cells s cids
        else s
    | None => s
    end) ≫= λ _,
  gets (λ s, {| stc_comboHash := comboHash s; stc_comboCids := StreamParentComboCids s;
                stc_usedComboCids := usedComboCids s; stc_sizeComboCids := sizeComboCids s |}).

Definition StreamTxnContextRestoreComboCid (stc : StreamTxnContext) : M combo_state unit :=
  modify (λ s, {| comboHash := stc_comboHash stc; comboCids := stc_comboCids stc;
                  usedComboCids := stc_usedComboCids stc; sizeComboCids := stc_sizeComboCids stc;
                  StreamParentComboCids := StreamParentComboCids s;
                  StreamParentsizeComboCids := StreamParentsizeComboCids s |}).

(** ** Proofs *)

Definition cell (s : combo_state) (i : Z) : option (Z * Z) :=
  comboCids s ≫= lookup (Z.to_nat i).

(** The array has [size] cells of which the first [used] hold pairs, and the hash
    table is its inverse. *)
Definition combo_ok (s : combo_state) : Prop :=
  match comboCids s, comboHash s with
  | None, None => usedComboCids s = 0 ∧ sizeComboCids s = 0
  | Some a, Some h =>
      Z.of_nat (length a) = sizeComboCids s ∧ 0 ≤ usedComboCids s ≤ sizeComboCids s ∧
      ∀ k i, h !! k = Some i ↔ 0 ≤ i < usedComboCids s ∧ a !! Z.to_nat i = Some k
  | _, _ => False
  end.

Lemma length_fresh n : 0 ≤ n → Z.of_nat (length (fresh_cells n)) = n.
Proof. intros. unfold fresh_cells. rewrite length_replicate. lia. Qed.

Lemma combo_init_ok s :
  combo_ok s →
  combo_ok (combo_init s) ∧ (∃ a h, comboCids (combo_init s) = Some a ∧ comboHash (combo_init s) = Some h) ∧
  usedComboCids (combo_init s) = usedComboCids s ∧
  ∀ i, 0 ≤ i < usedComboCids s → cell (combo_init s) i = cell s i.
Proof.
  unfold combo_ok, combo_init, cell. destruct s as [[h|] [a|] u z p pz]; cbn; try done.
  - intros H. split_and!; try done; try (by eexists _, _); apply H.
  - intros [-> _]. split_and!; try done; try lia; try (by eexists _, _).
    intros k i. rewrite lookup_empty. split; [done|lia].
Qed.

(** Growing keeps the cells and makes room. *)
Lemma combo_grow_ok s :
  combo_ok s → is_Some (comboCids s) →
  combo_ok (combo_grow s) ∧ usedComboCids s < sizeComboCids (combo_grow s) ∧
  usedComboCids (combo_grow s) = usedComboCids s ∧ comboHash (combo_grow s) = comboHash s ∧
  is_Some (comboCids (combo_grow s)) ∧
  ∀ i, 0 ≤ i < usedComboCids s → cell (combo_grow s) i = cell s i.
Proof.
  unfold combo_ok, combo_grow, cell. destruct s as [[h|] [a|] u z p pz]; cbn; try done.
  intros (Hl & Hu & Hinv) _. destruct (Z.leb_spec z u) as [Hfull|]; cbn; [|by split_and!; try done; try lia; eauto].
    assert (∀ i : Z, 0 ≤ i < u → (a ++ fresh_cells CCID_ARRAY_INCSIZE) !! Z.to_nat i = a !! Z.to_nat i) as Hpre.
    { intros i Hi. apply lookup_app_l. lia. }
    unfold CCID_ARRAY_INCSIZE in *.
    split_and!; try done; try lia.
    + rewrite length_app, Nat2Z.inj_add, length_fresh by lia. lia.
    + intros k i. rewrite Hinv. split; (intros [Hi Hk]; split; [done|]).
      * by rewrite Hpre.
      * by rewrite Hpre in Hk.
Qed.

Lemma combo_append_ok a b s :
  combo_ok s → is_Some (comboCids s) → usedComboCids s < sizeComboCids s → usedComboCids s < 2 ^ 32 →
  comboHash s ≫= lookup (a, b) = None →
  let s' := combo_append a b s in
  combo_ok s' ∧ usedComboCids s' = usedComboCids s + 1 ∧ cell s' (usedComboCids s) = Some (a, b) ∧
  ∀ i, 0 ≤ i < usedComboCids s → cell s' i = cell s i.
Proof.
  unfold combo_ok, combo_append, cell, aset, u32. destruct s as [[h|] [c|] u z p pz]; cbn; try done.
  intros (Hl & Hu & Hinv) _ Hlt Hmax Hnew. rewrite Z.mod_small by lia.
  assert (<[Z.to_nat u := (a, b)]> c !! Z.to_nat u = Some (a, b)) as Hat by (apply list_lookup_insert_eq; lia).
  assert (∀ i : Z, 0 ≤ i < u → <[Z.to_nat u := (a, b)]> c !! Z.to_nat i = c !! Z.to_nat i) as Hpre
    by (intros; apply list_lookup_insert_ne; lia).
  split_and!; try done; try lia; [by rewrite length_insert|].
  intros k i. destruct (decide (k = (a, b))) as [->|Hne].
  - rewrite lookup_insert_eq. split.
    + intros [= <-]. split; [lia|done].
    + intros [Hi Hk]. destruct (decide (i = u)) as [->|]; [done|].
      rewrite Hpre in Hk by lia. exfalso. assert (h !! (a, b) = Some i) by (apply Hinv; split; [lia|done]).
      congruence.
  - rewrite lookup_insert_ne by done. rewrite Hinv. split.
    + intros [Hi Hk]. split; [lia|]. by rewrite Hpre.
    + intros [Hi Hk]. destruct (decide (i = u)) as [->|]; [rewrite Hat in Hk; congruence|].
      rewrite Hpre in Hk by lia. split; [lia|done].
Qed.

Lemma cell_runs s i k : cell s i = Some k → runs (combo_cell i) s k s.
Proof. unfold cell, runs, combo_cell. by intros ->. Qed.

(** Every id handed out so far keeps its meaning. *)
Definition combo_extends (s s' : combo_state) : Prop :=
  usedComboCids s ≤ usedComboCids s' ∧ ∀ i, 0 ≤ i < usedComboCids s → cell s' i = cell s i.

Lemma get_combo_runs a b s :
  combo_ok s → usedComboCids s < 2 ^ 31 - 1 →
  ∃ id s', runs (GetComboCommandId a b) s id s' ∧ combo_ok s' ∧ 0 ≤ id < usedComboCids s' ∧
    cell s' id = Some (a, b) ∧ combo_extends s s'.
Proof.
  intros Hok Hmax. destruct (combo_init_ok s Hok) as (Hok1 & (c & h & Hc & Hh) & Hu1 & Hcell1).
  destruct (h !! (a, b)) as [id|] eqn:Hk.
  - exists id, (combo_init s). split.
    + eapply runs_bind; [done|]. eapply runs_bind; [apply runs_gets|]. by rewrite Hh; cbn; rewrite Hk.
    + split; [done|]. unfold combo_ok in Hok1. rewrite Hc, Hh in Hok1. destruct Hok1 as (_ & _ & Hinv).
      apply Hinv in Hk as [Hi Hk]. split_and!; try lia; [|split; [lia|done]].
      unfold cell. by rewrite Hc.
  - destruct (combo_grow_ok (combo_init s)) as (Hok2 & Hroom & Hu2 & Hh2 & Hs2 & Hcell2); [done|by rewrite Hc|].
    destruct (combo_append_ok a b (combo_grow (combo_init s))) as (Hok3 & Hu3 & Hat & Hcell3);
      [done|done|lia|lia|by rewrite Hh2, Hh|].
    exists (usedComboCids s), (combo_append a b (combo_grow (combo_init s))).
    assert (0 ≤ usedComboCids s) as Hpos.
    { unfold combo_ok in Hok. destruct (comboCids s), (comboHash s); try done; lia. }
    split_and!; try done; try lia.
    + eapply runs_bind; [done|]. eapply runs_bind; [apply runs_gets|]. rewrite Hh. cbn. rewrite Hk.
      eapply runs_bind; [done|]. eapply runs_bind; [apply runs_gets|]. eapply runs_bind; [done|].
      unfold u32. rewrite Hu2, Hu1, Z.mod_small by lia. done.
    + by rewrite <- Hu1, <- Hu2.
    + split; [lia|]. intros i Hi. rewrite Hcell3, Hcell2, Hcell1 by lia. done.
Qed.

(** Combo ids decode to what they encode: [GetComboCommandId cmin cmax]
    returns an id from which [GetRealCmin] and [GetRealCmax] give back [cmin] and
    [cmax]; the ids handed out before keep their meaning, the session's invariant
    is kept across first use and growth, and asking again for the same pair gives
    the same id and changes nothing. *)
Theorem combo_roundtrip cmin cmax s :
  combo_ok s → usedComboCids s < 2 ^ 31 - 1 →
  ∃ id s', runs (GetComboCommandId cmin cmax) s id s' ∧ combo_ok s' ∧ combo_extends s s' ∧
    runs (GetRealCmin id) s' cmin s' ∧ runs (GetRealCmax id) s' cmax s' ∧
    runs (GetComboCommandId cmin cmax) s' id s'.
Proof.
  intros Hok Hmax. destruct (get_combo_runs cmin cmax s Hok Hmax) as (id & s' & Hr & Hok' & Hid & Hat & Hext).
  exists id, s'. split_and!; try done.
  1, 2: (eapply runs_bind; [by apply cell_runs|]; done).
  unfold combo_ok, cell in *. destruct s' as [[h|] [c|] u z p pz]; cbn in *; try done; try lia.
  destruct Hok' as (_ & _ & Hinv). unfold GetComboCommandId.
  eapply runs_bind; [done|]. eapply runs_bind; [apply runs_gets|]. cbn.
  by rewrite (proj2 (Hinv (cmin, cmax) id)).
Qed.

(** The command ids a header stands for, as its transaction sees them. *)
Definition cids (env : combo_env) (s : combo_state) (h : HeapTupleHeaderData) : option (Z * Z) :=
  if negb (SS_STANDBY_MODE_WITH_REMOTE_EXECUTE env) && flag (t_infomask h) HEAP_COMBOCID
  then cell s (t_cid h) else Some (t_cid h, t_cid h).

Lemma get_cmin_runs env s h k :
  cids env s h = Some k → runs (HeapTupleHeaderGetCmin env h) s (fst k) s.
Proof.
  unfold cids, HeapTupleHeaderGetCmin, HeapTupleHeaderGetRawCommandId.
  destruct (SS_STANDBY_MODE_WITH_REMOTE_EXECUTE env); cbn; [by intros [= <-]|].
  case_bool; [|by intros [= <-]]. intros Hc. by eapply runs_bind; [apply cell_runs|].
Qed.

Lemma get_cmax_runs env s h k :
  cids env s h = Some k → runs (HeapTupleHeaderGetCmax env h) s (snd k) s.
Proof.
  unfold cids, HeapTupleHeaderGetCmax, HeapTupleHeaderGetRawCommandId.
  destruct (SS_STANDBY_MODE_WITH_REMOTE_EXECUTE env); cbn; [by intros [= <-]|].
  case_bool; [|by intros [= <-]]. intros Hc. by eapply runs_bind; [apply cell_runs|].
Qed.

(** Deleting one's own tuple loses neither command id: when the current
    transaction deletes, with command [cid], a tuple it has inserted, storing
    what [HeapTupleHeaderAdjustCmax] returns with [HeapTupleHeaderSetCmax] gives a
    header whose cmin is the one of before and whose cmax is [cid]. *)
Theorem delete_own_tuple env page s h cid cmin k :
  combo_ok s → usedComboCids s < 2 ^ 31 - 1 → SS_STANDBY_MODE_WITH_REMOTE_EXECUTE env = false →
  HeapTupleHeaderXminCommitted h = false →
  TransactionIdIsCurrentTransactionId env (HeapTupleHeaderGetXmin page h) = true →
  cids env s h = Some (cmin, k) →
  ∃ c s', runs (HeapTupleHeaderAdjustCmax env page h cid) s (c, true) s' ∧ combo_ok s' ∧
    combo_extends s s' ∧
    runs (HeapTupleHeaderGetCmin env (HeapTupleHeaderSetCmax h c true)) s' cmin s' ∧
    runs (HeapTupleHeaderGetCmax env (HeapTupleHeaderSetCmax h c true)) s' cid s'.
Proof.
  intros Hok Hmax Hrem Hxc Hcur Hc.
  destruct (get_combo_runs cmin cid s Hok Hmax) as (c & s' & Hr & Hok' & _ & Hat & Hext).
  assert (cids env s' (HeapTupleHeaderSetCmax h c true) = Some (cmin, cid)) as Hc'.
  { unfold cids. rewrite Hrem. cbn. by rewrite flag_set_combo. }
  exists c, s'. split_and!; try done.
  - unfold HeapTupleHeaderAdjustCmax. rewrite Hxc, Hcur. cbn.
    eapply runs_bind; [by apply (get_cmin_runs _ _ _ (cmin, k))|]. by eapply runs_bind; [exact Hr|].
  - by apply (get_cmin_runs _ _ _ (cmin, cid)).
  - by apply (get_cmax_runs _ _ _ (cmin, cid)).
Qed.

(** The saved copy covers the array it is a copy of. *)
Definition stream_ok (s : combo_state) : Prop :=
  match StreamParentComboCids s with
  | Some p => Z.of_nat (length p) = StreamParentsizeComboCids s
  | None => True
  end.

(** A stream thread decodes command ids as its parent does: after the parent
    has saved its combo cids and the thread has restored them, every id in use in
    the parent stands for the same pair in the thread. *)
Theorem stream_combo_same s child :
  combo_ok s → stream_ok s → 0 < usedComboCids s →
  ∃ stc s' child', runs StreamTxnContextSaveComboCid s stc s' ∧
    runs (StreamTxnContextRestoreComboCid stc) child tt child' ∧
    usedComboCids child' = usedComboCids s ∧ combo_ok s' ∧
    ∀ i, 0 ≤ i < usedComboCids s → cell child' i = cell s i ∧ is_Some (cell s i).
Proof.
  unfold combo_ok, stream_ok. destruct s as [[h|] [a|] u z p pz]; cbn; try done; [|lia].
  intros (Hl & Hu & Hinv) Hp Hpos. eexists _, _, _.
  split; [eapply runs_bind; [apply runs_modify|apply runs_gets]|].
  split; [apply runs_modify|]. cbn.
  rewrite (proj2 (Z.eqb_neq z 0)), (proj2 (Z.eqb_neq u 0)) by lia. cbn. unfold save_stream_cells. cbn.
  destruct p as [p|]; cbn; case_bool; cbn; (split; [done|]); (split; [done|]); intros i Hi; unfold cell; cbn;
    (split; [|apply lookup_lt_is_Some; lia]);
    rewrite lookup_app_l by (rewrite length_take; lia); by rewrite lookup_take_lt by lia.
Qed.

(** ** Concrete sessions *)

Definition combo_demo_env : combo_env := {|
  SS_STANDBY_MODE_WITH_REMOTE_EXECUTE := false; StreamThreadAmI := false;
  TransactionIdIsCurrentTransactionId := Z.eqb 10 |}.

Definition combo_demo : combo_state := {|
  comboHash := None; comboCids := None; usedComboCids := 0; sizeComboCids := 0;
  StreamParentComboCids := None; StreamParentsizeComboCids := 0 |}.

(** A tuple that transaction 10 has inserted with its command 4. *)
Definition own_header : HeapTupleHeaderData := {|
  t_xmin := 10; t_xmax := 0; t_cid := 4; t_ctid := (0, 1); t_infomask2 := 0; t_infomask := 0x0800 |}.
Definition demo_page : HeapPageHeaderData := {| pd_xid_base := 0; pd_multi_base := 0 |}.

Lemma combo_roundtrip_witness :
  ∃ id s', runs (GetComboCommandId 4 7) combo_demo id s' ∧ runs (GetRealCmax id) s' 7 s'.
Proof.
  destruct (combo_roundtrip 4 7 combo_demo) as (id & s' & Hr & _ & _ & _ & Hc & _); [done|done|].
  exists id, s'. by split.
Defined.

Lemma delete_own_tuple_witness :
  ∃ c s', runs (HeapTupleHeaderAdjustCmax combo_demo_env demo_page own_header 7) combo_demo (c, true) s' ∧
    runs (HeapTupleHeaderGetCmin combo_demo_env (HeapTupleHeaderSetCmax own_header c true)) s' 4 s'.
Proof.
  destruct (delete_own_tuple combo_demo_env demo_page combo_demo own_header 7 4 4)
    as (c & s' & Hr & _ & _ & Hc & _); try done.
  exists c, s'. by split.
Defined.

Definition combo_demo1 : combo_state := Eval vm_compute in (GetComboCommandId 4 7 combo_demo).2.

Lemma combo_demo1_ok : combo_ok combo_demo1.
Proof.
  destruct (get_combo_runs 4 7 combo_demo) as (id & s' & Hr & Hok & _); [done|done|].
  replace combo_demo1 with s'; [done|]. change combo_demo1 with (GetComboCommandId 4 7 combo_demo).2.
  by rewrite Hr.
Qed.

Lemma stream_combo_same_witness :
  ∃ stc s' child', runs StreamTxnContextSaveComboCid combo_demo1 stc s' ∧
    runs (StreamTxnContextRestoreComboCid stc) combo_demo tt child'.
Proof.
  destruct (stream_combo_same combo_demo1 combo_demo) as (stc & s' & child' & H1 & H2 & _).
  - apply combo_demo1_ok.
  - done.
  - vm_compute. done.
  - by exists stc, s', child'.
Defined.
