(* ===== verification/MultiXact.v ===== *)
(** * Multixacts

    [src/gausskernel/storage/access/transam/multixact.cpp]: a multixact id stands
    for a set of transactions that lock or have updated a tuple. The offsets log
    gives for each id where its members start, the members log holds one word per
    member (3 bits of status, 60 bits of xid); a backend keeps the sets it has
    seen in a cache. Modelled: creating and expanding a multixact, reading its
    members (with the wait for a neighbour that is still being written), the cache,
    the per-backend horizons, startup, redo and truncation.

    Another backend may have taken the next id and not yet written it; what other
    backends do while this one sleeps is [others_meanwhile]. LWLocks are the list
    [mlocks] of those held. Not modelled: the WAL records written, two-phase state
    and shared memory set-up; the node runs without DMS. *)

From S2P Require Import Prelude TransamDefs SlruInterface.

(** ** Members *)

Inductive MultiXactStatus : Type :=
| MultiXactStatusForShare
| MultiXactStatusForKeyShare
| MultiXactStatusForNoKeyUpdate
| MultiXactStatusForUpdate
| MultiXactStatusNoKeyUpdate
| MultiXactStatusUpdate.

#[global] Instance MultiXactStatus_eq_dec : EqDecision MultiXactStatus.
Proof. solve_decision. Defined.

Definition ISUPDATE_from_mxstatus (st : MultiXactStatus) : bool :=
  match st with
  | MultiXactStatusNoKeyUpdate | MultiXactStatusUpdate => true
  | _ => false
  end.

Record MultiXactMember := { mx_xid : Z; mx_status : MultiXactStatus }.

#[global] Instance MultiXactMember_eq_dec : EqDecision MultiXactMember.
Proof. solve_decision. Defined.

Definition InvalidMultiXactId : Z := 0.
Definition FirstMultiXactId : Z := 1.
Definition MultiXactIdIsValid (multi : Z) : bool := negb (multi =? InvalidMultiXactId).
Definition MultiXactIdPrecedes (id1 id2 : Z) : bool := id1 <? id2.

(** The value of the enum. *)
Definition status_code (st : MultiXactStatus) : Z :=
  match st with
  | MultiXactStatusForShare => 0
  | MultiXactStatusForKeyShare => 1
  | MultiXactStatusForNoKeyUpdate => 2
  | MultiXactStatusForUpdate => 3
  | MultiXactStatusNoKeyUpdate => 4
  | MultiXactStatusUpdate => 5
  end.

(** The cast of an integer to the enum; 6 and 7 are never written. *)
Definition status_of_code (c : Z) : MultiXactStatus :=
  if c =? 0 then MultiXactStatusForShare
  else if c =? 1 then MultiXactStatusForKeyShare
  else if c =? 2 then MultiXactStatusForNoKeyUpdate
  else if c =? 3 then MultiXactStatusForUpdate
  else if c =? 4 then MultiXactStatusNoKeyUpdate
  else MultiXactStatusUpdate.

Definition MULTIXACT_MEMBER_XID_MASK : Z := Z.shiftl 1 60 - 1.
Definition GET_MEMBER_XID_FROM_SLRU_XID (w : Z) : Z := Z.land w MULTIXACT_MEMBER_XID_MASK.
Definition GET_MEMBER_STATUS_FROM_SLRU_XID (w : Z) : MultiXactStatus := status_of_code (Z.shiftr w 61).
Definition GET_SLRU_XID_FROM_MULTIXACT_MEMBER (m : MultiXactMember) : Z :=
  Z.lor (u64 (Z.shiftl (status_code (mx_status m)) 61)) (Z.land (mx_xid m) MULTIXACT_MEMBER_XID_MASK).

(** ** Layout *)

Definition MULTIXACT_OFFSETS_PER_PAGE : Z := BLCKSZ / 8.
Definition MULTIXACT_MEMBERS_PER_PAGE : Z := BLCKSZ / 8.
Definition MultiXactIdToOffsetPage (multi : Z) : Z := multi / MULTIXACT_OFFSETS_PER_PAGE.
Definition MultiXactIdToOffsetEntry (multi : Z) : Z := multi mod MULTIXACT_OFFSETS_PER_PAGE.
Definition MXOffsetToMemberPage (offset : Z) : Z := offset / MULTIXACT_MEMBERS_PER_PAGE.
Definition MXOffsetToMemberEntry (offset : Z) : Z := offset mod MULTIXACT_MEMBERS_PER_PAGE.

(** [qsort] with this comparison; equal members are identical, so the sorted
    array is unique. *)
Definition status_rank (st : MultiXactStatus) : Z :=
  match st with
  | MultiXactStatusForShare => 1
  | MultiXactStatusForKeyShare => 0
  | _ => status_code st
  end.

Definition MXactMemberComparator (m1 m2 : MultiXactMember) : Z :=
  if mx_xid m2 <? mx_xid m1 then 1
  else if mx_xid m1 <? mx_xid m2 then -1
  else if status_rank (mx_status m2) <? status_rank (mx_status m1) then 1
  else if status_rank (mx_status m1) <? status_rank (mx_status m2) then -1
  else 0.

Definition member_le (m1 m2 : MultiXactMember) : Prop := MXactMemberComparator m1 m2 ≤ 0.
#[global] Instance member_le_dec m1 m2 : Decision (member_le m1 m2).
Proof. unfold member_le. apply _. Defined.

Definition sort_members (members : list MultiXactMember) : list MultiXactMember :=
  merge_sort member_le members.

(** ** State *)

(** The shared counters and the two per-backend arrays (element 0 is not used). *)
Record MultiXactStateData := {
  nextMXact : Z;
  nextOffset : Z;
  lastTruncationPoint : Z;
  oldestMultiXactId : Z;
  OldestMemberMXactId : list Z;
  OldestVisibleMXactId : list Z;
}.

Inductive mx_lock : Type :=
| MultiXactGenLock
| MultiXactOffsetControlLock
| OffsetBankLock (bank : Z)
| MemberBankLock (bank : Z).

#[global] Instance mx_lock_eq_dec : EqDecision mx_lock.
Proof. solve_decision. Defined.

Record mXactCacheEnt := { ent_multi : Z; ent_members : list MultiXactMember }.

Definition MAX_CACHE_ENTRIES : Z := 256.

Section MultiXact.
Context {SO SM : Type} `{!SlruOps SO} `{!SlruOps SM}.

Record mx_state := {
  moffsets : SO;
  mmembers : SM;
  MultiXactState : MultiXactStateData;
  MXactCache : list mXactCacheEnt;
  MXactCacheMembers : Z;
  mlocks : list mx_lock;
}.

(** What the code asks of the node, of the transactions, and of the others. *)
Record mx_env := {
  mx_bank_mask : Z;
  MyBackendId : Z;
  mx_SS_STANDBY_MODE : bool;
  before_enhanced_tuple_lock : bool;
  mx_is_current : Z → bool;
  mx_in_progress : Z → bool;
  mx_did_commit : Z → bool;
  others_meanwhile : mx_state → mx_state;
}.

Implicit Types (w : mx_state) (env : mx_env).

Definition with_moffsets (o : SO) w : mx_state :=
  {| moffsets := o; mmembers := mmembers w; MultiXactState := MultiXactState w; MXactCache := MXactCache w;
     MXactCacheMembers := MXactCacheMembers w; mlocks := mlocks w |}.
Definition with_mmembers (m : SM) w : mx_state :=
  {| moffsets := moffsets w; mmembers := m; MultiXactState := MultiXactState w; MXactCache := MXactCache w;
     MXactCacheMembers := MXactCacheMembers w; mlocks := mlocks w |}.
Definition with_shared (d : MultiXactStateData) w : mx_state :=
  {| moffsets := moffsets w; mmembers := mmembers w; MultiXactState := d; MXactCache := MXactCache w;
     MXactCacheMembers := MXactCacheMembers w; mlocks := mlocks w |}.
Definition with_cache (c : list mXactCacheEnt) (n : Z) w : mx_state :=
  {| moffsets := moffsets w; mmembers := mmembers w; MultiXactState := MultiXactState w; MXactCache := c;
     MXactCacheMembers := n; mlocks := mlocks w |}.
Definition with_locks (l : list mx_lock) w : mx_state :=
  {| moffsets := moffsets w; mmembers := mmembers w; MultiXactState := MultiXactState w;
     MXactCache := MXactCache w; MXactCacheMembers := MXactCacheMembers w; mlocks := l |}.

Definition set_next (next off : Z) (d : MultiXactStateData) : MultiXactStateData :=
  {| nextMXact := next; nextOffset := off; lastTruncationPoint := lastTruncationPoint d;
     oldestMultiXactId := oldestMultiXactId d; OldestMemberMXactId := OldestMemberMXactId d;
     OldestVisibleMXactId := OldestVisibleMXactId d |}.
Definition set_horizons (members visibles : list Z) (d : MultiXactStateData) : MultiXactStateData :=
  {| nextMXact := nextMXact d; nextOffset := nextOffset d; lastTruncationPoint := lastTruncationPoint d;
     oldestMultiXactId := oldestMultiXactId d; OldestMemberMXactId := members;
     OldestVisibleMXactId := visibles |}.
Definition set_oldest (oldest : Z) (d : MultiXactStateData) : MultiXactStateData :=
  {| nextMXact := nextMXact d; nextOffset := nextOffset d; lastTruncationPoint := lastTruncationPoint d;
     oldestMultiXactId := oldest; OldestMemberMXactId := OldestMemberMXactId d;
     OldestVisibleMXactId := OldestVisibleMXactId d |}.
Definition set_truncation (p : Z) (d : MultiXactStateData) : MultiXactStateData :=
  {| nextMXact := nextMXact d; nextOffset := nextOffset d; lastTruncationPoint := p;
     oldestMultiXactId := oldestMultiXactId d; OldestMemberMXactId := OldestMemberMXactId d;
     OldestVisibleMXactId := OldestVisibleMXactId d |}.

Definition on_offsets {A} (m : M SO A) : M mx_state A := λ w,
  let '(r, o) := m (moffsets w) in (r, with_moffsets o w).
Definition on_members {A} (m : M SM A) : M mx_state A := λ w,
  let '(r, o) := m (mmembers w) in (r, with_mmembers o w).
Definition shared {A} (f : MultiXactStateData → A) : M mx_state A := gets (λ w, f (MultiXactState w)).
Definition on_shared (f : MultiXactStateData → MultiXactStateData) : M mx_state unit :=
  modify (λ w, with_shared (f (MultiXactState w)) w).

(** Releasing a lock that is not held is an error ([forget_lwlock_hold]). *)
Definition LWLockAcquire (l : mx_lock) : M mx_state unit := modify (λ w, with_locks (l :: mlocks w) w).
Fixpoint drop_lock (l : mx_lock) (ls : list mx_lock) : option (list mx_lock) :=
  match ls with
  | [] => None
  | l' :: ls => if decide (l = l') then Some ls else cons l' <$> drop_lock l ls
  end.
Definition LWLockRelease (l : mx_lock) : M mx_state unit := λ w,
  match drop_lock l (mlocks w) with
  | Some ls => (Ok tt, with_locks ls w)
  | None => (Ereport ERROR, w)
  end.

(** [SimpleLruGetBankLock], with a single partition. *)
Definition offset_bank env (pageno : Z) : mx_lock := OffsetBankLock (Z.land pageno (mx_bank_mask env)).
Definition member_bank env (pageno : Z) : mx_lock := MemberBankLock (Z.land pageno (mx_bank_mask env)).

Definition SlruBankLockSwitch (oldLock : option mx_lock) (newLock : mx_lock) : M mx_state unit :=
  if decide (oldLock = Some newLock) then skip
  else
    (match oldLock with Some l => LWLockRelease l | None => skip end) ≫= λ _,
    LWLockAcquire newLock.

(** ** The cache *)

(** The first entry that satisfies [f] is moved to the head of the list. *)
Fixpoint cache_take (f : mXactCacheEnt → bool) (c : list mXactCacheEnt)
    : option (mXactCacheEnt * list mXactCacheEnt) :=
  match c with
  | [] => None
  | e :: c => if f e then Some (e, c)
              else match cache_take f c with
                   | Some (e', c') => Some (e', e :: c')
                   | None => None
                   end
  end.

Definition cache_search (f : mXactCacheEnt → bool) : M mx_state (option mXactCacheEnt) := λ w,
  match cache_take f (MXactCache w) with
  | Some (e, c) => (Ok (Some e), with_cache (e :: c) (MXactCacheMembers w) w)
  | None => (Ok None, w)
  end.

(** The array is sorted in place first: it is returned with the id. [memcmp] also
    compares the padding of the structures, taken to be equal here. *)
Definition mXactCacheGetBySet (members : list MultiXactMember)
    : M mx_state (Z * list MultiXactMember) :=
  let members := sort_members members in
  e ← cache_search (λ e, bool_decide (ent_members e = members));
  mret (match e with Some e => ent_multi e | None => InvalidMultiXactId end, members).

Definition mXactCacheGetById (multi : Z) : M mx_state (option (list MultiXactMember)) :=
  e ← cache_search (λ e, ent_multi e =? multi);
  mret (ent_members <$> e).

Definition mXactCachePut (multi : Z) (members : list MultiXactMember) : M mx_state unit :=
  modify (λ w,
    let c := {| ent_multi := multi; ent_members := sort_members members |} :: MXactCache w in
    if MAX_CACHE_ENTRIES <=? MXactCacheMembers w then with_cache (removelast c) (MXactCacheMembers w) w
    else with_cache c (MXactCacheMembers w + 1) w).

(** ** Making multixacts *)

Definition ZeroMultiXactOffsetPage (pageno : Z) : M mx_state Z := on_offsets (SimpleLruZeroPage pageno).
Definition ZeroMultiXactMemberPage (pageno : Z) : M mx_state Z := on_members (SimpleLruZeroPage pageno).

Definition ExtendMultiXactOffset env (multi : Z) : M mx_state unit :=
  if negb (MultiXactIdToOffsetEntry multi =? 0) && negb (multi =? FirstMultiXactId) then skip
  else
    let pageno := MultiXactIdToOffsetPage multi in
    LWLockAcquire (offset_bank env pageno) ≫= λ _,
    ZeroMultiXactOffsetPage pageno ≫= λ _,
    LWLockRelease (offset_bank env pageno).

(** The [while] loop; every round but the last uses up at least one member. *)
Fixpoint extend_members (fuel : nat) env (offset nmembers : Z) : M mx_state unit :=
  if nmembers <=? 0 then skip
  else match fuel with
  | O => nofuel
  | Datatypes.S fuel =>
      let entryno := MXOffsetToMemberEntry offset in
      (if entryno =? 0 then
         let pageno := MXOffsetToMemberPage offset in
         LWLockAcquire (member_bank env pageno) ≫= λ _,
         ZeroMultiXactMemberPage pageno ≫= λ _,
         LWLockRelease (member_bank env pageno)
       else skip) ≫= λ _,
      extend_members fuel env (u64 (offset + (MULTIXACT_MEMBERS_PER_PAGE - entryno)))
        (nmembers - (MULTIXACT_MEMBERS_PER_PAGE - entryno))
  end.

Definition ExtendMultiXactMember env (offset nmembers : Z) : M mx_state unit :=
  extend_members (Z.to_nat nmembers) env offset nmembers.

(** The id and the offset of its first member. *)
Definition GetNewMultiXactId env (nmembers : Z) : M mx_state (Z * Z) :=
  LWLockAcquire MultiXactGenLock ≫= λ _,
  on_shared (λ d, if nextMXact d <? FirstMultiXactId then set_next FirstMultiXactId (nextOffset d) d
                  else d) ≫= λ _,
  result ← shared nextMXact;
  ExtendMultiXactOffset env result ≫= λ _,
  next ← shared nextOffset;
  let '(offset, nmembers) := if next =? 0 then (1, nmembers + 1) else (next, nmembers) in
  ExtendMultiXactMember env next nmembers ≫= λ _,
  on_shared (λ d, set_next (u64 (nextMXact d + 1)) (u64 (nextOffset d + nmembers)) d) ≫= λ _,
  LWLockRelease MultiXactGenLock ≫= λ _,
  mret (result, offset).

(** The loop over the members: the page is looked up, and the lock of its bank
    taken, when the page changes. Returns the lock held at the end. *)
Fixpoint record_members env (xids : list Z) (offset prev_pageno slotno : Z) (prevlock : option mx_lock)
    : M mx_state (option mx_lock) :=
  match xids with
  | [] => mret prevlock
  | x :: xids =>
      let pageno := MXOffsetToMemberPage offset in
      let entryno := MXOffsetToMemberEntry offset in
      here ← (if pageno =? prev_pageno then mret (slotno, prevlock)
              else
                SlruBankLockSwitch prevlock (member_bank env pageno) ≫= λ _,
                slot ← on_members (SimpleLruReadPage pageno true);
                mret (slot, Some (member_bank env pageno)));
      modify (λ w, with_mmembers (page_set pageno here.1 entryno x (mmembers w)) w) ≫= λ _,
      modify (λ w, with_mmembers (mark_dirty pageno here.1 (mmembers w)) w) ≫= λ _,
      record_members env xids (u64 (offset + 1)) pageno here.1 here.2
  end.

Definition RecordNewMultiXact env (multi offset : Z) (xidsWithStatus : list Z) : M mx_state unit :=
  if mx_SS_STANDBY_MODE env then skip
  else
    let pageno := MultiXactIdToOffsetPage multi in
    let entryno := MultiXactIdToOffsetEntry multi in
    LWLockAcquire (offset_bank env pageno) ≫= λ _,
    slotno ← on_offsets (SimpleLruReadPage pageno true);
    modify (λ w, with_moffsets (page_set pageno slotno entryno offset (moffsets w)) w) ≫= λ _,
    modify (λ w, with_moffsets (mark_dirty pageno slotno (moffsets w)) w) ≫= λ _,
    LWLockRelease (offset_bank env pageno) ≫= λ _,
    prevlock ← record_members env xidsWithStatus offset (-1) 0 None;
    match prevlock with Some l => LWLockRelease l | None => skip end.

Definition updaters (members : list MultiXactMember) : list MultiXactMember :=
  filter (λ m, ISUPDATE_from_mxstatus (mx_status m) = true) members.

Definition CreateMultiXactId env (members : list MultiXactMember) : M mx_state Z :=
  if before_enhanced_tuple_lock env
     && existsb (λ m, negb (bool_decide (mx_status m = MultiXactStatusForShare))) members
  then raise ERROR
  else
    found ← mXactCacheGetBySet members;
    let '(multi, members) := found in
    if MultiXactIdIsValid multi then mret multi
    else if (1 <? length (updaters members))%nat then raise ERROR
    else
      let xidsWithStatus := GET_SLRU_XID_FROM_MULTIXACT_MEMBER <$> members in
      new ← GetNewMultiXactId env (Z.of_nat (length members));
      RecordNewMultiXact env new.1 new.2 xidsWithStatus ≫= λ _,
      mXactCachePut new.1 members ≫= λ _,
      mret new.1.

Definition MultiXactIdCreate env (xid1 : Z) (status1 : MultiXactStatus) (xid2 : Z)
    (status2 : MultiXactStatus) : M mx_state Z :=
  CreateMultiXactId env [{| mx_xid := xid1; mx_status := status1 |};
                         {| mx_xid := xid2; mx_status := status2 |}].

(** ** Horizons *)

Definition MultiXactIdSetOldestMember env : M mx_state unit :=
  mine ← shared (λ d, aget 0 (OldestMemberMXactId d) (MyBackendId env));
  if MultiXactIdIsValid mine then skip
  else
    LWLockAcquire MultiXactGenLock ≫= λ _,
    next ← shared nextMXact;
    let next := if next <? FirstMultiXactId then FirstMultiXactId else next in
    on_shared (λ d, set_horizons (aset (OldestMemberMXactId d) (MyBackendId env) next)
                      (OldestVisibleMXactId d) d) ≫= λ _,
    LWLockRelease MultiXactGenLock.

(** The least of [next] and the valid entries of an array (from element 1 on). *)
Definition oldest_of (next : Z) (entries : list Z) : Z :=
  fold_left (λ oldest this, if MultiXactIdIsValid this && MultiXactIdPrecedes this oldest then this else oldest)
    (tail entries) next.

Definition MultiXactIdSetOldestVisible env : M mx_state unit :=
  mine ← shared (λ d, aget 0 (OldestVisibleMXactId d) (MyBackendId env));
  if MultiXactIdIsValid mine then skip
  else
    LWLockAcquire MultiXactGenLock ≫= λ _,
    next ← shared nextMXact;
    let next := if next <? FirstMultiXactId then FirstMultiXactId else next in
    on_shared (λ d, set_horizons (OldestMemberMXactId d)
                      (aset (OldestVisibleMXactId d) (MyBackendId env)
                         (oldest_of next (OldestMemberMXactId d))) d) ≫= λ _,
    LWLockRelease MultiXactGenLock.

Definition ReadNextMultiXactId : M mx_state Z :=
  LWLockAcquire MultiXactGenLock ≫= λ _,
  mxid ← shared nextMXact;
  LWLockRelease MultiXactGenLock ≫= λ _,
  mret (if mxid <? FirstMultiXactId then FirstMultiXactId else mxid).

(** One loop looks at both arrays element by element. *)
Fixpoint oldest_of_both (oldest : Z) (members visibles : list Z) : Z :=
  match members, visibles with
  | m :: members, v :: visibles =>
      let oldest := if MultiXactIdIsValid m && MultiXactIdPrecedes m oldest then m else oldest in
      let oldest := if MultiXactIdIsValid v && MultiXactIdPrecedes v oldest then v else oldest in
      oldest_of_both oldest members visibles
  | _, _ => oldest
  end.

Definition GetOldestMultiXactId : M mx_state Z :=
  LWLockAcquire MultiXactGenLock ≫= λ _,
  next ← shared nextMXact;
  let next := if next <? FirstMultiXactId then FirstMultiXactId else next in
  oldest ← shared (λ d, oldest_of_both next (tail (OldestMemberMXactId d)) (tail (OldestVisibleMXactId d)));
  LWLockRelease MultiXactGenLock ≫= λ _,
  mret oldest.

Definition AtEOXact_MultiXact env : M mx_state unit :=
  on_shared (λ d, set_horizons (aset (OldestMemberMXactId d) (MyBackendId env) InvalidMultiXactId)
                    (aset (OldestVisibleMXactId d) (MyBackendId env) InvalidMultiXactId) d) ≫= λ _,
  modify (with_cache [] 0).

(** ** Reading members *)

(** From [retry]: the offset of the first member and the number of members, or
    [None] when the next multixact is not written yet; [nextMX] and [nextOff] are the
    counters read before. *)
Definition members_extent env (multi nextMX nextOff : Z) : M mx_state (option (Z * Z)) :=
  let pageno := MultiXactIdToOffsetPage multi in
  LWLockAcquire (offset_bank env pageno) ≫= λ _,
  slotno ← on_offsets (SimpleLruReadPage pageno true);
  offset ← gets (λ w, page_get (moffsets w) pageno slotno (MultiXactIdToOffsetEntry multi));
  let tmpMXact := u64 (multi + 1) in
  if nextMX =? tmpMXact then
    LWLockRelease (offset_bank env pageno) ≫= λ _, mret (Some (offset, i32 (nextOff - offset)))
  else
    let pageno2 := MultiXactIdToOffsetPage tmpMXact in
    here ← (if pageno2 =? pageno then mret (slotno, offset_bank env pageno)
            else
              (if decide (offset_bank env pageno2 = offset_bank env pageno) then skip
               else LWLockRelease (offset_bank env pageno) ≫= λ _, LWLockAcquire (offset_bank env pageno2))
              ≫= λ _,
              slotno ← on_offsets (SimpleLruReadPage pageno2 true);
              mret (slotno, offset_bank env pageno2));
    nextMXOffset ← gets (λ w, page_get (moffsets w) pageno2 here.1 (MultiXactIdToOffsetEntry tmpMXact));
    LWLockRelease here.2 ≫= λ _,
    if nextMXOffset =? 0 then mret None
    else mret (Some (offset, i32 (nextMXOffset - offset))).

(** [pg_usleep], [goto retry]: [fuel] bounds the number of sleeps. *)
Fixpoint wait_extent (fuel : nat) env (multi nextMX nextOff : Z) : M mx_state (Z * Z) :=
  ext ← members_extent env multi nextMX nextOff;
  match ext with
  | Some ext => mret ext
  | None =>
      match fuel with
      | O => nofuel
      | Datatypes.S fuel => modify (others_meanwhile env) ≫= λ _, wait_extent fuel env multi nextMX nextOff
      end
  end.

(** The loop over the members, with the lock held at the end. *)
Fixpoint read_members (length : nat) env (offset prev_pageno slotno : Z) (lock : option mx_lock)
    : M mx_state (list MultiXactMember * option mx_lock) :=
  match length with
  | O => mret ([], lock)
  | Datatypes.S length =>
      let pageno := MXOffsetToMemberPage offset in
      let entryno := MXOffsetToMemberEntry offset in
      here ← (if pageno =? prev_pageno then mret (slotno, lock)
              else
                SlruBankLockSwitch lock (member_bank env pageno) ≫= λ _,
                slot ← on_members (SimpleLruReadPage pageno true);
                mret (slot, Some (member_bank env pageno)));
      x ← gets (λ w, page_get (mmembers w) pageno here.1 entryno);
      rest ← read_members length env (u64 (offset + 1)) pageno here.1 here.2;
      let memberXid := GET_MEMBER_XID_FROM_SLRU_XID x in
      if negb (TransactionIdIsValid memberXid) then mret rest
      else mret ({| mx_xid := memberXid; mx_status := GET_MEMBER_STATUS_FROM_SLRU_XID x |} :: rest.1, rest.2)
  end.

(** [None] is the result -1. Releasing the NULL lock, when there is no member to
    read, is undefined; here it stops the server. *)
Definition GetMultiXactIdMembers (fuel : nat) env (multi : Z) : M mx_state (option (list MultiXactMember)) :=
  cached ← mXactCacheGetById multi;
  match cached with
  | Some members => mret (Some members)
  | None =>
      MultiXactIdSetOldestVisible env ≫= λ _,
      LWLockAcquire MultiXactGenLock ≫= λ _,
      d ← shared (λ d, d);
      LWLockRelease MultiXactGenLock ≫= λ _,
      if MultiXactIdPrecedes multi (oldestMultiXactId d) then mret None
      else if negb (MultiXactIdPrecedes multi (nextMXact d)) then mret None
      else
        ext ← wait_extent fuel env multi (nextMXact d) (nextOffset d);
        r ← read_members (Z.to_nat ext.2) env ext.1 (-1) 0 None;
        (match r.2 with Some l => LWLockRelease l | None => raise PANIC end) ≫= λ _,
        mXactCachePut multi r.1 ≫= λ _,
        mret (Some r.1)
  end.

(** Still of interest: running, or an update that has committed. *)
Definition of_interest env (m : MultiXactMember) : bool :=
  mx_in_progress env (mx_xid m) || (ISUPDATE_from_mxstatus (mx_status m) && mx_did_commit env (mx_xid m)).

Definition MultiXactIdExpand (fuel : nat) env (multi xid : Z) (status : MultiXactStatus) : M mx_state Z :=
  let new := {| mx_xid := xid; mx_status := status |} in
  members ← GetMultiXactIdMembers fuel env multi;
  match members with
  | None => CreateMultiXactId env [new]
  | Some members =>
      if existsb (λ m, bool_decide (m = new)) members then mret multi
      else CreateMultiXactId env (filter (λ m, of_interest env m = true) members ++ [new])
  end.

(** ** Startup and redo *)

(** [memset] of the rest of a page. *)
Definition StartupMultiXact env : M mx_state unit :=
  multi ← shared nextMXact;
  offset ← shared nextOffset;
  let pageno := MultiXactIdToOffsetPage multi in
  modify (λ w, with_moffsets (set_latest_page_number pageno pageno (moffsets w)) w) ≫= λ _,
  let entryno := MultiXactIdToOffsetEntry multi in
  (if entryno =? 0 then skip
   else
     LWLockAcquire (offset_bank env pageno) ≫= λ _,
     slotno ← on_offsets (SimpleLruReadPage pageno true);
     for_each (λ e, modify (λ w, with_moffsets (page_set pageno slotno e 0 (moffsets w)) w))
       (seqZ entryno (MULTIXACT_OFFSETS_PER_PAGE - entryno)) ≫= λ _,
     modify (λ w, with_moffsets (mark_dirty pageno slotno (moffsets w)) w) ≫= λ _,
     LWLockRelease (offset_bank env pageno)) ≫= λ _,
  let pageno := MXOffsetToMemberPage offset in
  modify (λ w, with_mmembers (set_latest_page_number pageno pageno (mmembers w)) w) ≫= λ _,
  let entryno := MXOffsetToMemberEntry offset in
  (if entryno =? 0 then skip
   else
     LWLockAcquire (member_bank env pageno) ≫= λ _,
     slotno ← on_members (SimpleLruReadPage pageno true);
     for_each (λ e, modify (λ w, with_mmembers (page_set pageno slotno e 0 (mmembers w)) w))
       (seqZ entryno (MULTIXACT_MEMBERS_PER_PAGE - entryno)) ≫= λ _,
     modify (λ w, with_mmembers (mark_dirty pageno slotno (mmembers w)) w) ≫= λ _,
     LWLockRelease (member_bank env pageno)) ≫= λ _,
  on_shared (set_truncation InvalidMultiXactId).

Definition MultiXactSetNextMXact (nextMulti nextMultiOffset : Z) : M mx_state unit :=
  LWLockAcquire MultiXactGenLock ≫= λ _,
  on_shared (set_next nextMulti nextMultiOffset) ≫= λ _,
  LWLockRelease MultiXactGenLock.

Definition MultiXactAdvanceNextMXact (minMulti minMultiOffset : Z) : M mx_state unit :=
  LWLockAcquire MultiXactGenLock ≫= λ _,
  on_shared (λ d, if MultiXactIdPrecedes (nextMXact d) minMulti then set_next minMulti (nextOffset d) d
                  else d) ≫= λ _,
  on_shared (λ d, if nextOffset d <? minMultiOffset then set_next (nextMXact d) minMultiOffset d
                  else d) ≫= λ _,
  LWLockRelease MultiXactGenLock.

(** Replay of a record of a creation, but for the advance of [nextXid]. *)
Definition redo_create env (mid moff : Z) (xids : list Z) : M mx_state unit :=
  RecordNewMultiXact env mid moff xids ≫= λ _,
  MultiXactAdvanceNextMXact (u64 (mid + 1)) (u64 (moff + Z.of_nat (length xids))).

(** ** Truncation *)

(** [SimpleLruReadPage_ReadOnly] takes the bank lock and keeps it; the caller
    releases [MultiXactOffsetControlLock]. [earliestExistingPage] and the removal of
    the old segments are operations of the page cache that are given. *)
Definition TruncateMultiXact env (earliestExistingPage : Z) (truncate_offsets truncate_members : Z → mx_state → mx_state)
    (oldestMXact : Z) : M mx_state unit :=
  if mx_SS_STANDBY_MODE env then skip
  else if MultiXactIdPrecedes oldestMXact (u64 (earliestExistingPage * MULTIXACT_OFFSETS_PER_PAGE)) then skip
  else
    let pageno := MultiXactIdToOffsetPage oldestMXact in
    LWLockAcquire (offset_bank env pageno) ≫= λ _,
    slotno ← on_offsets (SimpleLruReadPage_ReadOnly pageno);
    oldestOffset ← gets (λ w, page_get (moffsets w) pageno slotno (MultiXactIdToOffsetEntry oldestMXact));
    LWLockRelease MultiXactOffsetControlLock ≫= λ _,
    modify (truncate_offsets (MultiXactIdToOffsetPage oldestMXact)) ≫= λ _,
    modify (truncate_members (MXOffsetToMemberPage oldestOffset)) ≫= λ _,
    on_shared (set_truncation oldestMXact).

End MultiXact.

Arguments mx_state : clear implicits.
Arguments mx_env : clear implicits.

(** ** The logs as maps from numbers to words *)

Section Words.
Context {S : Type} `{!SlruOps S} `{!SlruSpec S MULTIXACT_OFFSETS_PER_PAGE}.
Implicit Types st : S.

Abbreviation PER := MULTIXACT_OFFSETS_PER_PAGE.

Definition mx_word st (k : Z) : option Z := (λ pg, aget 0 pg (k mod PER)) <$> slru_view st (k / PER).

(** Only the buffering may differ. *)
Definition same_words st st' : Prop := slru_ok st' ∧ ∀ q, slru_view st' q = slru_view st q.

Lemma mx_entry_range k : 0 ≤ k mod PER < PER.
Proof. apply Z.mod_pos_bound. reflexivity. Qed.

Lemma mx_location_inj j k : j / PER = k / PER → j mod PER = k mod PER → j = k.
Proof. intros Hd Hm. rewrite (Z.div_mod j PER), (Z.div_mod k PER), Hd, Hm by done. done. Qed.

Lemma mx_page_nonneg k : 0 ≤ k → 0 ≤ k / PER.
Proof. intros. by apply Z.div_pos. Qed.

Lemma mx_word_page st k : is_Some (mx_word st k) ↔ is_Some (slru_view st (k / PER)).
Proof. unfold mx_word. by rewrite fmap_is_Some. Qed.

Lemma mx_word_same st st' k : same_words st st' → mx_word st' k = mx_word st k.
Proof. intros [_ Hv]. unfold mx_word. by rewrite Hv. Qed.

Lemma mx_word_get st k s v :
  slru_at st (k / PER) s → mx_word st k = Some v → page_get st (k / PER) s (k mod PER) = v.
Proof.
  unfold mx_word. intros Hat (pg & Hv & Hp)%fmap_Some.
  rewrite (slru_get _ _ _ pg) by (done || apply mx_entry_range). done.
Qed.

(** A word is written and its page marked dirty. *)
Lemma mx_word_write st k s v :
  slru_at st (k / PER) s →
  let st' := mark_dirty (k / PER) s (page_set (k / PER) s (k mod PER) v st) in
  slru_ok st' ∧ slru_at st' (k / PER) s ∧
  ∀ j, mx_word st' j = if decide (j = k) then Some v else mx_word st j.
Proof.
  intros Hat st'. destruct (slru_at_view _ _ _ Hat) as [pg Hpg].
  pose proof (slru_at_length _ _ _ _ Hat Hpg) as Hlen.
  destruct (slru_set _ _ _ _ (k mod PER) v Hat Hpg (mx_entry_range k)) as (Hat1 & Hv1 & Ho1).
  destruct (slru_dirty _ _ _ Hat1) as [Hok Hv]. split_and!; [done|by apply slru_dirty_at|].
  intros j. unfold mx_word. subst st'. rewrite Hv. case_decide as Hj.
  - subst j. rewrite Hv1. cbn. rewrite aget_aset_eq; [done|]. rewrite Hlen. apply mx_entry_range.
  - destruct (decide (j / PER = k / PER)) as [He|Hne]; [|by rewrite Ho1].
    rewrite He, Hv1, Hpg. cbn. rewrite aget_aset_ne; [done|apply mx_entry_range..|].
    intros Hm. apply Hj. by apply mx_location_inj.
Qed.

(** A page that is created holds zeros, or what it held if it was there. *)
Lemma mx_zero_post st p (Q : Z → S → Prop) :
  slru_ok st → 0 ≤ p →
  (∀ s st', slru_ok st' → (∀ k, k / PER ≠ p → mx_word st' k = mx_word st k) →
     (∀ k, k / PER = p → mx_word st' k = Some 0 ∨
        (is_Some (mx_word st k) ∧ mx_word st' k = mx_word st k)) → Q s st') →
  post (SimpleLruZeroPage p) st Q.
Proof.
  intros Hok Hp HQ. destruct (slru_zero st p Hok Hp) as (s & st' & Hr & Hok' & _ & Hz & Ho).
  exists s, st'. split; [done|]. apply HQ; [done| |].
  - intros k Hk. unfold mx_word. by rewrite Ho.
  - intros k Hk. unfold mx_word. rewrite Hk. destruct Hz as [->|[Hs ->]].
    + left. cbn. by rewrite aget_replicate.
    + right. split; [|done]. by rewrite fmap_is_Some.
Qed.

Lemma mx_read_post st p (Q : Z → S → Prop) :
  slru_ok st → is_Some (slru_view st p) →
  (∀ s st', same_words st st' → slru_at st' p s → Q s st') →
  post (SimpleLruReadPage p true) st Q.
Proof.
  intros Hok Hp HQ. destruct (slru_read st p true Hok Hp) as (s & st' & Hr & Hok' & Hat & Hv).
  exists s, st'. split; [done|]. by apply HQ.
Qed.

End Words.

(** ** Members as words, and their order *)

Lemma member_xid_roundtrip m :
  0 ≤ mx_xid m < 2 ^ 60 → GET_MEMBER_XID_FROM_SLRU_XID (GET_SLRU_XID_FROM_MULTIXACT_MEMBER m) = mx_xid m.
Proof.
  intros Hx. unfold GET_MEMBER_XID_FROM_SLRU_XID, GET_SLRU_XID_FROM_MULTIXACT_MEMBER.
  rewrite Z.land_lor_distr_l, <- Z.land_assoc, Z.land_diag.
  replace (Z.land (u64 _) MULTIXACT_MEMBER_XID_MASK) with 0 by (destruct (mx_status m); reflexivity).
  rewrite Z.lor_0_l. change MULTIXACT_MEMBER_XID_MASK with (2 ^ 60 - 1).
  rewrite land_mask_mod by lia. by apply Z.mod_small.
Qed.

Lemma member_status_roundtrip m :
  0 ≤ mx_xid m < 2 ^ 60 →
  GET_MEMBER_STATUS_FROM_SLRU_XID (GET_SLRU_XID_FROM_MULTIXACT_MEMBER m) = mx_status m.
Proof.
  intros Hx. unfold GET_MEMBER_STATUS_FROM_SLRU_XID, GET_SLRU_XID_FROM_MULTIXACT_MEMBER.
  rewrite Z.shiftr_lor. change MULTIXACT_MEMBER_XID_MASK with (2 ^ 60 - 1).
  rewrite land_mask_mod, Z.mod_small, (Z.shiftr_div_pow2 (mx_xid m)), Z.div_small, Z.lor_0_r by lia.
  by destruct (mx_status m).
Qed.

Definition member_valid (m : MultiXactMember) : Prop := 1 ≤ mx_xid m < 2 ^ 60.

(** What [read_members] makes of a word. *)
Lemma member_decode m :
  member_valid m →
  TransactionIdIsValid (GET_MEMBER_XID_FROM_SLRU_XID (GET_SLRU_XID_FROM_MULTIXACT_MEMBER m)) = true ∧
  {| mx_xid := GET_MEMBER_XID_FROM_SLRU_XID (GET_SLRU_XID_FROM_MULTIXACT_MEMBER m);
     mx_status := GET_MEMBER_STATUS_FROM_SLRU_XID (GET_SLRU_XID_FROM_MULTIXACT_MEMBER m) |} = m.
Proof.
  unfold member_valid. intros Hm. rewrite member_xid_roundtrip, member_status_roundtrip by lia.
  split; [|by destruct m]. unfold TransactionIdIsValid, InvalidTransactionId.
  apply negb_true_iff, Z.eqb_neq. lia.
Qed.

Lemma status_rank_inj st1 st2 : status_rank st1 = status_rank st2 → st1 = st2.
Proof. by destruct st1, st2. Qed.

Lemma member_le_spec m1 m2 :
  member_le m1 m2 ↔ mx_xid m1 < mx_xid m2 ∨
    (mx_xid m1 = mx_xid m2 ∧ status_rank (mx_status m1) ≤ status_rank (mx_status m2)).
Proof.
  unfold member_le, MXactMemberComparator. repeat case_bool; bool_to_prop; lia.
Qed.

#[global] Instance member_le_trans : Transitive member_le.
Proof. intros m1 m2 m3. rewrite !member_le_spec. lia. Qed.
#[global] Instance member_le_total : Total member_le.
Proof. intros m1 m2. rewrite !member_le_spec. lia. Qed.
#[global] Instance member_le_antisymm : AntiSymm (=) member_le.
Proof.
  intros [x1 s1] [x2 s2]. rewrite !member_le_spec. cbn. intros H1 H2.
  assert (x1 = x2) as -> by lia. f_equal. apply status_rank_inj. lia.
Qed.

Lemma sort_members_sorted l : Sorted member_le (sort_members l).
Proof. apply Sorted_merge_sort. apply _. Qed.

Lemma sort_members_perm l : sort_members l ≡ₚ l.
Proof. apply merge_sort_Permutation. Qed.

Lemma sort_members_unique l k : l ≡ₚ k → Sorted member_le l → l = sort_members k.
Proof.
  intros Hp Hs. apply (Sorted_unique member_le); [done|apply sort_members_sorted|].
  by rewrite sort_members_perm.
Qed.

Lemma sort_members_idemp l : sort_members (sort_members l) = sort_members l.
Proof. symmetry. apply sort_members_unique; [done|apply sort_members_sorted]. Qed.

(** ** What the logs mean

    For every id: where its members start, who they are, and whether its offset and
    its members have been written yet. *)

Record mx_abs := {
  mstart : Z → Z;
  mmem : Z → list MultiXactMember;
  offset_set : Z → bool;
  members_set : Z → bool;
}.

Definition members_ok (ms : list MultiXactMember) : Prop :=
  ms ≠ [] ∧ Forall member_valid ms ∧ sort_members ms = ms.

(** The next id to be assigned (the counter starts at 0). *)
Definition next_id (next : Z) : Z := Z.max FirstMultiXactId next.

Section MultiXactProofs.
Context {SO SM : Type} `{!SlruOps SO} `{!SlruOps SM}.
Context `{!SlruSpec SO MULTIXACT_OFFSETS_PER_PAGE} `{!SlruSpec SM MULTIXACT_OFFSETS_PER_PAGE}.
Implicit Types (w : mx_state SO SM) (env : mx_env SO SM) (T : mx_abs) (o : SO) (mm : SM).

Abbreviation PER := MULTIXACT_OFFSETS_PER_PAGE.

Record mx_inv o mm (next off old : Z) T : Prop := {
  inv_offs : slru_ok o;
  inv_mems : slru_ok mm;
  inv_next : 0 ≤ next < 2 ^ 64;
  inv_old : 1 ≤ old ≤ next_id next;
  inv_off_range : 0 ≤ off < 2 ^ 64;
  inv_multi : ∀ m, old ≤ m < next_id next →
    members_ok (mmem T m) ∧ 1 ≤ mstart T m ∧ mstart T (m + 1) = mstart T m + Z.of_nat (length (mmem T m));
  inv_end : old < next_id next → mstart T (next_id next) = off;
  inv_word : ∀ m, old ≤ m < next_id next →
    mx_word o m = Some (if offset_set T m then mstart T m else 0);
  inv_free : ∀ m v, next_id next ≤ m → mx_word o m = Some v → v = 0;
  inv_room : ∀ m j, old ≤ m < next_id next → mstart T m ≤ j < mstart T (m + 1) → is_Some (mx_word mm j);
  inv_member : ∀ m i x, old ≤ m < next_id next → members_set T m = true → mmem T m !! i = Some x →
    mx_word mm (mstart T m + Z.of_nat i) = Some (GET_SLRU_XID_FROM_MULTIXACT_MEMBER x);
  inv_page : next_id next mod PER ≠ 0 → next_id next ≠ 1 → is_Some (mx_word o (next_id next));
  inv_mpage : off mod PER ≠ 0 → is_Some (mx_word mm off);
}.

Definition mx_ok w T : Prop :=
  mx_inv (moffsets w) (mmembers w) (nextMXact (MultiXactState w)) (nextOffset (MultiXactState w))
    (oldestMultiXactId (MultiXactState w)) T.

(** The cache holds sets that were made. *)
Definition mx_cache_ok w T : Prop :=
  Forall (λ e, oldestMultiXactId (MultiXactState w) ≤ ent_multi e < next_id (nextMXact (MultiXactState w)) ∧
               ent_members e = mmem T (ent_multi e) ∧
               sort_members (mmem T (ent_multi e)) = mmem T (ent_multi e) ∧
               offset_set T (ent_multi e) = true ∧ members_set T (ent_multi e) = true)
    (MXactCache w).

(** Ids made before [next] keep their members; what was written stays. *)
Definition mx_extends (next : Z) T T' : Prop :=
  ∀ m, m < next → mmem T' m = mmem T m ∧ mstart T' m = mstart T m ∧
    (offset_set T m = true → offset_set T' m = true) ∧ (members_set T m = true → members_set T' m = true).

Lemma inv_same o mm o' mm' next off old T :
  same_words o o' → same_words mm mm' → mx_inv o mm next off old T → mx_inv o' mm' next off old T.
Proof.
  intros Ho Hm H. pose proof (λ k, mx_word_same _ _ k Ho) as Eo. pose proof (λ k, mx_word_same _ _ k Hm) as Em.
  split; try apply H; try (apply Ho || apply Hm);
    setoid_rewrite Eo || setoid_rewrite Em; apply H.
Qed.

(** The members of different ids do not overlap. *)
Lemma inv_before o mm next off old T m m' :
  mx_inv o mm next off old T → old ≤ m → m < m' ≤ next_id next → mstart T (m + 1) ≤ mstart T m'.
Proof.
  intros H Hm Hm'. replace m' with (m + 1 + Z.of_nat (Z.to_nat (m' - m - 1))) by lia.
  assert (Z.to_nat (m' - m - 1) ≤ Z.to_nat (next_id next - m - 1))%nat as Hk by lia.
  induction (Z.to_nat (m' - m - 1)) as [|k IH]; [by rewrite Z.add_0_r|].
  etransitivity; [apply IH; lia|]. destruct (inv_multi _ _ _ _ _ _ H (m + 1 + Z.of_nat k)) as (_ & _ & He); [lia|].
  replace (m + 1 + Z.of_nat (Datatypes.S k)) with (m + 1 + Z.of_nat k + 1) by lia. lia.
Qed.

Lemma inv_extent o mm next off old T m :
  mx_inv o mm next off old T → old ≤ m < next_id next →
  1 ≤ mstart T m ∧ mstart T (m + 1) = mstart T m + Z.of_nat (length (mmem T m)) ∧ mstart T (m + 1) ≤ off.
Proof.
  intros H Hm. destruct (inv_multi _ _ _ _ _ _ H m Hm) as (_ & H1 & He). split_and!; [done..|].
  rewrite <- (inv_end _ _ _ _ _ _ H) by lia. apply (inv_before _ _ _ _ _ _ _ _ H); lia.
Qed.

(** *** Steps *)

Lemma post_on_offsets {A} (m : M SO A) w (Q : A → mx_state SO SM → Prop) :
  post m (moffsets w) (λ a o, Q a (with_moffsets o w)) → post (on_offsets m) w Q.
Proof.
  intros (a & o & Hr & HQ). exists a, (with_moffsets o w). split; [|done].
  unfold runs, on_offsets in *. by rewrite Hr.
Qed.

Lemma post_on_members {A} (m : M SM A) w (Q : A → mx_state SO SM → Prop) :
  post m (mmembers w) (λ a mm, Q a (with_mmembers mm w)) → post (on_members m) w Q.
Proof.
  intros (a & mm & Hr & HQ). exists a, (with_mmembers mm w). split; [|done].
  unfold runs, on_members in *. by rewrite Hr.
Qed.

Lemma post_acquire l w (Q : unit → mx_state SO SM → Prop) :
  Q tt (with_locks (l :: mlocks w) w) → post (LWLockAcquire l) w Q.
Proof. intros HQ. eexists _, _. by split. Qed.

Lemma post_release l ls w (Q : unit → mx_state SO SM → Prop) :
  mlocks w = l :: ls → Q tt (with_locks ls w) → post (LWLockRelease l) w Q.
Proof.
  intros Hl HQ. eexists _, _. split; [|done]. unfold runs, LWLockRelease. rewrite Hl. cbn.
  by rewrite decide_True.
Qed.

Lemma post_switch prev new ls w (Q : unit → mx_state SO SM → Prop) :
  mlocks w = match prev with Some l => l :: ls | None => ls end →
  Q tt (with_locks (new :: ls) w) → post (SlruBankLockSwitch prev new) w Q.
Proof.
  intros Hl HQ. unfold SlruBankLockSwitch. case_decide as He.
  - subst prev. apply post_skip. by destruct w; cbn in *; subst.
  - apply post_bind. destruct prev as [l|].
    + eapply post_release; [done|]. by apply post_acquire.
    + apply post_skip, post_acquire. by rewrite Hl.
Qed.

(** *** Extending the logs *)

(** [mm'] is [mm] with room for the words from [off] to [off + n - 1]. *)
Definition grown (off n : Z) mm mm' : Prop :=
  slru_ok mm' ∧ (∀ k, k < off → mx_word mm' k = mx_word mm k) ∧
  (∀ k, is_Some (mx_word mm k) → is_Some (mx_word mm' k)) ∧
  (∀ k, off ≤ k < off + n → is_Some (mx_word mm' k)).

Lemma grown_page off mm mm1 :
  slru_ok mm1 → off mod PER = 0 →
  (∀ k, k / PER ≠ off / PER → mx_word mm1 k = mx_word mm k) →
  (∀ k, k / PER = off / PER → mx_word mm1 k = Some 0 ∨ is_Some (mx_word mm k) ∧ mx_word mm1 k = mx_word mm k) →
  grown off 1 mm mm1.
Proof.
  intros Hok Hoff Hne Heq. split_and!; [done| | |].
  - intros k Hk. apply Hne. intros Hp. pose proof (Z.mod_pos_bound k PER eq_refl).
    pose proof (Z.div_mod k PER ltac:(done)). pose proof (Z.div_mod off PER ltac:(done)). lia.
  - intros k Hk. destruct (decide (k / PER = off / PER)) as [E|E]; [|by rewrite Hne].
    destruct (Heq k E) as [->|[? ->]]; done.
  - intros k Hk. replace k with off by lia. destruct (Heq off eq_refl) as [->|[? ->]]; done.
Qed.

Lemma extend_members_post fuel env off n w (Q : unit → mx_state SO SM → Prop) :
  slru_ok (mmembers w) → 0 ≤ off → (0 < n → off + n + PER < 2 ^ 64) → (Z.to_nat n ≤ fuel)%nat →
  (off mod PER ≠ 0 → is_Some (mx_word (mmembers w) off)) →
  (∀ mm', grown off n (mmembers w) mm' → Q tt (with_mmembers mm' w)) →
  post (extend_members fuel env off n) w Q.
Proof.
  revert off n w. induction fuel as [|fuel IH]; intros off n w Hok Hoff Hmax Hf Hpg HQ; cbn [extend_members].
  all: destruct (Z.leb_spec n 0);
    [apply post_skip; replace w with (with_mmembers (mmembers w) w) by (by destruct w); apply HQ;
     split_and!; [done..|lia]|].
  { lia. }
  pose proof (Z.mod_pos_bound off PER eq_refl) as He. pose proof (Z.div_mod off PER ltac:(done)) as Hd.
  unfold MXOffsetToMemberEntry, MXOffsetToMemberPage, MULTIXACT_MEMBERS_PER_PAGE.
  change (BLCKSZ / 8) with PER in *.
  set (e := off mod PER) in *. set (off2 := off + (PER - e)).
  assert (off2 = PER * (off / PER + 1)) as Hoff2 by lia.
  assert (∀ mm1, slru_ok mm1 → grown off 1 (mmembers w) mm1 →
    post (extend_members fuel env (u64 off2) (n - (PER - e))) (with_mmembers mm1 w) Q) as Hrest.
  { intros mm1 Hok1 (_ & Hlt & Hkeep & Hnew). rewrite u64_small by (split; [lia|]; unfold off2; lia).
    apply IH; [done|lia|unfold off2; lia|lia| |].
    - intros Hm. rewrite Hoff2, Z.mul_comm, Z.mod_mul in Hm by done. done.
    - intros mm2 (Hok2 & Hlt2 & Hkeep2 & Hnew2). cbn [mmembers with_mmembers] in *. apply (HQ mm2). split_and!; [done| | |].
      + intros k Hk. rewrite Hlt2 by lia. by apply Hlt.
      + intros k Hk. by apply Hkeep2, Hkeep.
      + intros k Hk. destruct (decide (k < off2)); [|apply Hnew2; lia]. apply Hkeep2.
        apply mx_word_page. replace (k / PER) with (off / PER); [apply mx_word_page, Hnew; lia|].
        apply Z.div_unique with (k - PER * (off / PER)); lia. }
  apply post_bind. destruct (Z.eqb_spec e 0) as [He0|He0].
  - apply post_bind, post_acquire, post_bind, post_on_members, mx_zero_post; [done|by apply mx_page_nonneg|].
    intros s mm1 Hok1 Hne Heq. eapply post_release; [done|]. cbn.
    replace (with_locks _ _) with (with_mmembers mm1 w) by (by destruct w).
    apply Hrest; [done|]. by apply grown_page.
  - apply post_skip. replace w with (with_mmembers (mmembers w) w) at 1 by (by destruct w).
    apply Hrest; [done|]. split_and!; [done..|]. intros k Hk. replace k with off by lia. by apply Hpg.
Qed.

Lemma extend_offset_post env multi w (Q : unit → mx_state SO SM → Prop) :
  slru_ok (moffsets w) → 1 ≤ multi →
  (multi mod PER ≠ 0 → multi ≠ 1 → is_Some (mx_word (moffsets w) multi)) →
  (∀ m v, multi ≤ m → mx_word (moffsets w) m = Some v → v = 0) →
  (∀ o', slru_ok o' → (∀ k, 1 ≤ k < multi → mx_word o' k = mx_word (moffsets w) k) →
     (∀ m v, multi ≤ m → mx_word o' m = Some v → v = 0) → is_Some (mx_word o' multi) →
     Q tt (with_moffsets o' w)) →
  post (ExtendMultiXactOffset env multi) w Q.
Proof.
  intros Hok Hm Hpg Hfree HQ. unfold ExtendMultiXactOffset, MultiXactIdToOffsetEntry, MultiXactIdToOffsetPage.
  destruct (negb (multi mod PER =? 0) && negb (multi =? FirstMultiXactId)) eqn:Hc.
  - apply post_skip. replace w with (with_moffsets (moffsets w) w) by (by destruct w).
    bool_to_prop. apply HQ; [done|done|done|]. apply Hpg; [done|]. by unfold FirstMultiXactId in *.
  - apply post_bind, post_acquire, post_bind, post_on_offsets, mx_zero_post; [done|apply mx_page_nonneg; lia|].
    intros s o1 Hok1 Hne Heq. eapply post_release; [done|]. cbn.
    replace (with_locks _ _) with (with_moffsets o1 w) by (by destruct w).
    apply HQ; [done| | |].
    + intros k Hk. apply Hne. intros E.
      assert (multi mod PER = 0) as Hz by (apply andb_false_iff in Hc as [Hc|Hc]; bool_to_prop;
        [done|unfold FirstMultiXactId in *; lia]).
      pose proof (Z.mod_pos_bound k PER eq_refl). pose proof (Z.div_mod k PER ltac:(done)).
      pose proof (Z.div_mod multi PER ltac:(done)). lia.
    + intros m v Hmm Hv. destruct (decide (m / PER = multi / PER)) as [E|E].
      * destruct (Heq m E) as [Hz|[_ Hz]]; rewrite Hz in Hv; [by injection Hv|by eapply Hfree].
      * rewrite Hne in Hv by done. by eapply Hfree.
    + destruct (Heq multi eq_refl) as [->|[? ->]]; done.
Qed.

(** *** Taking an id *)

(** The meaning of the logs once [multi] has been taken for [ms], with nothing
    written. *)
Definition abs_take T (multi offset : Z) (ms : list MultiXactMember) : mx_abs := {|
  mstart m := if decide (m = multi) then offset
              else if decide (m = multi + 1) then offset + Z.of_nat (length ms) else mstart T m;
  mmem m := if decide (m = multi) then ms else mmem T m;
  offset_set m := if decide (m = multi) then false else offset_set T m;
  members_set m := if decide (m = multi) then false else members_set T m;
|}.

Lemma take_extends T multi offset ms : mx_extends multi T (abs_take T multi offset ms).
Proof. intros m Hm. cbn. rewrite !decide_False by lia. done. Qed.

Lemma take_inv o mm o' mm' next off old T ms :
  let multi := next_id next in
  let offset := if off =? 0 then 1 else off in
  let off' := offset + Z.of_nat (length ms) in
  mx_inv o mm next off old T → members_ok ms → multi + 1 < 2 ^ 64 → off' < 2 ^ 64 →
  slru_ok o' → (∀ k, 1 ≤ k < multi → mx_word o' k = mx_word o k) →
  (∀ m v, multi ≤ m → mx_word o' m = Some v → v = 0) → is_Some (mx_word o' multi) →
  grown off (off' - off) mm mm' →
  (off' mod PER ≠ 0 → is_Some (mx_word mm' off')) →
  mx_inv o' mm' (multi + 1) off' old (abs_take T multi offset ms).
Proof.
  intros multi offset off' H Hms Hmax Hmax' Ho Hlow Hfree Hnew (Hmm & Hkeep & Hgrow & Hroom) Hpage.
  pose proof (inv_old _ _ _ _ _ _ H) as Hold. pose proof (inv_off_range _ _ _ _ _ _ H) as Hoff.
  assert (next_id (multi + 1) = multi + 1) as Hid by (unfold multi, next_id, FirstMultiXactId; lia).
  assert (off ≤ offset ∧ 1 ≤ offset) as [Hle H1] by (unfold offset; destruct (Z.eqb_spec off 0); lia).
  assert (old < multi → offset = off) as Hsame.
  { intros Hlt. unfold offset. destruct (Z.eqb_spec off 0) as [Hz|]; [|done].
    destruct (inv_extent _ _ _ _ _ _ (multi - 1) H) as (? & ? & Hend); [unfold multi in *; lia|].
    destruct (inv_multi _ _ _ _ _ _ H (multi - 1)) as ((Hne & _) & _); [unfold multi in *; lia|].
    destruct (mmem T (multi - 1)); [done|cbn in *; lia]. }
  assert (∀ m, old ≤ m < multi → mstart T (m + 1) ≤ off) as Hend.
  { intros m Hm. by apply (inv_extent _ _ _ _ _ _ _ H). }
  assert (∀ m, old ≤ m < multi → mstart (abs_take T multi offset ms) (m + 1) = mstart T (m + 1)) as Hst.
  { intros m Hm. cbn. case_decide; [|by rewrite decide_False by lia].
    rewrite Hsame by lia. replace (m + 1) with (next_id next) by done.
    symmetry. apply (inv_end _ _ _ _ _ _ H). unfold multi in *. lia. }
  assert (mstart (abs_take T multi offset ms) multi = offset) as Hs0 by (cbn; by rewrite decide_True).
  assert (mstart (abs_take T multi offset ms) (multi + 1) = off') as Hs1
    by (cbn; by rewrite decide_False, decide_True by lia).
  split; try done; rewrite ?Hid; [lia|lia|unfold off'; lia|..].
  - intros m Hm. destruct (decide (m = multi)) as [->|].
    + rewrite Hs0, Hs1. cbn. by rewrite decide_True.
    + rewrite Hst by lia. cbn. rewrite !decide_False by lia. apply (inv_multi _ _ _ _ _ _ H). lia.
  - intros _. done.
  - intros m Hm. cbn. case_decide as E; [subst m|].
    + destruct Hnew as [v Hv]. rewrite Hv. f_equal. by eapply Hfree.
    + rewrite !decide_False by lia. rewrite Hlow by lia. apply (inv_word _ _ _ _ _ _ H). lia.
  - intros m v Hm. apply Hfree. lia.
  - intros m j Hm. destruct (decide (m = multi)) as [->|].
    + rewrite Hs0, Hs1. intros Hj. apply Hroom. lia.
    + rewrite Hst by lia. cbn. rewrite !decide_False by lia. intros Hj. apply Hgrow.
      apply (inv_room _ _ _ _ _ _ H m); lia.
  - intros m i x Hm. cbn. case_decide; [done|]. rewrite !decide_False by lia. intros Hset Hx.
    rewrite Hkeep; [apply (inv_member _ _ _ _ _ _ H); [unfold multi in *; lia|done..]|].
    destruct (inv_extent _ _ _ _ _ _ m H) as (_ & He & Hle'); [unfold multi in *; lia|].
    apply lookup_lt_Some in Hx. lia.
  - intros Hmod _. apply mx_word_page. apply mx_word_page in Hnew.
    enough ((multi + 1) / PER = multi / PER) as -> by done.
    symmetry. apply Z.div_unique with (multi mod PER + 1).
    + left. pose proof (Z.mod_pos_bound multi PER eq_refl).
      assert (multi mod PER + 1 ≠ PER); [|lia]. intros E. apply Hmod.
      rewrite <- Z.add_mod_idemp_l, E by done. by apply Z.mod_same.
    + pose proof (Z.div_mod multi PER ltac:(done)). lia.
Qed.

(** A number that does not start a page is in the page of its predecessor. *)
Lemma same_page k : k mod PER ≠ 0 → k / PER = (k - 1) / PER.
Proof.
  intros Hk. apply Z.div_unique with (k mod PER - 1).
  - left. pose proof (Z.mod_pos_bound k PER eq_refl). lia.
  - pose proof (Z.div_mod k PER ltac:(done)). lia.
Qed.

(** What the counters say the next multixact will be. *)
Definition new_id w : Z := next_id (nextMXact (MultiXactState w)).
Definition new_offset w : Z :=
  if nextOffset (MultiXactState w) =? 0 then 1 else nextOffset (MultiXactState w).

(** There is room for [n] more members. *)
Definition mx_room w (n : Z) : Prop :=
  new_id w + 1 < 2 ^ 64 ∧ nextOffset (MultiXactState w) + n + 1 + PER < 2 ^ 64.

Lemma get_new_post env ms w T (Q : Z * Z → mx_state SO SM → Prop) :
  mx_ok w T → members_ok ms → mx_room w (Z.of_nat (length ms)) →
  (∀ w', mx_ok w' (abs_take T (new_id w) (new_offset w) ms) →
     nextMXact (MultiXactState w') = new_id w + 1 →
     oldestMultiXactId (MultiXactState w') = oldestMultiXactId (MultiXactState w) →
     MXactCache w' = MXactCache w → mlocks w' = mlocks w → Q (new_id w, new_offset w) w') →
  post (GetNewMultiXactId env (Z.of_nat (length ms))) w Q.
Proof.
  intros Hok Hms [Hr1 Hr2] HQ. assert (PER = 1024) as HPER by done. pose proof (inv_next _ _ _ _ _ _ Hok) as Hn.
  pose proof (inv_off_range _ _ _ _ _ _ Hok) as Ho. pose proof (inv_old _ _ _ _ _ _ Hok) as Hold.
  assert (1 ≤ Z.of_nat (length ms)) as Hlen by (destruct Hms as [Hne _]; destruct ms; [done|cbn; lia]).
  unfold GetNewMultiXactId. apply post_bind, post_acquire, post_bind, post_modify, post_bind, post_gets. cbn.
  set (d1 := if _ <? _ then _ else _).
  assert (nextMXact d1 = new_id w ∧ nextOffset d1 = nextOffset (MultiXactState w) ∧
          oldestMultiXactId d1 = oldestMultiXactId (MultiXactState w)) as (Hd1 & Hd2 & Hd3).
  { unfold d1, new_id, next_id. destruct (Z.ltb_spec (nextMXact (MultiXactState w)) FirstMultiXactId); cbn;
      split_and!; unfold FirstMultiXactId in *; lia || done. }
  rewrite Hd1. apply post_bind, extend_offset_post; [apply Hok|unfold new_id, next_id in *; lia| | |].
  { apply (inv_page _ _ _ _ _ _ Hok). }
  { apply (inv_free _ _ _ _ _ _ Hok). }
  intros o' Ho' Hlow Hfree Hnew. cbn in Hlow. apply post_bind, post_gets. cbn. rewrite Hd2.
  set (off := nextOffset (MultiXactState w)) in *. set (n := if off =? 0 then _ else _).
  assert (∃ nm, n = (new_offset w, nm) ∧ off + nm = new_offset w + Z.of_nat (length ms)) as (nm & -> & Hnm).
  { subst n. unfold new_offset. fold off. destruct (Z.eqb_spec off 0); eexists; (split; [done|lia]). }
  assert (new_offset w = off ∨ new_offset w = off + 1) as Hoff
    by (unfold new_offset; fold off; destruct (Z.eqb_spec off 0); lia).
  apply post_bind, extend_members_post; [apply Hok|lia|lia|lia|apply (inv_mpage _ _ _ _ _ _ Hok)|].
  intros mm' Hg. cbn in Hg. apply post_bind, post_modify, post_bind. eapply post_release; [done|].
  apply post_ret. apply HQ; cbn; rewrite ?Hd1, ?Hd2; try done; [|apply u64_small; unfold new_id, next_id in *; lia].
  unfold mx_ok. cbn. rewrite Hd3, Hnm, (u64_small (_ + _)), u64_small by (unfold new_id, next_id in *; lia).
  replace nm with (new_offset w + Z.of_nat (length ms) - off) in Hg by lia.
  apply (take_inv (moffsets w) (mmembers w) _ _ (nextMXact (MultiXactState w)) off); try done.
  { change (new_offset w + Z.of_nat (length ms) < 2 ^ 64). lia. }
  intros Hm. apply mx_word_page. rewrite (same_page _ Hm). apply mx_word_page, Hg.
  change (off ≤ new_offset w + Z.of_nat (length ms) - 1 < off + (new_offset w + Z.of_nat (length ms) - off)). lia.
Qed.

(** *** Writing it *)

Definition lock_stack (lock : option mx_lock) (ls : list mx_lock) : list mx_lock :=
  match lock with Some l => l :: ls | None => ls end.

(** The page of the next member, looked up when it is not the one at hand. *)
Lemma here_post env pageno prev slot lock ls w (Q : Z * option mx_lock → mx_state SO SM → Prop) :
  slru_ok (mmembers w) → 0 ≤ pageno → is_Some (slru_view (mmembers w) pageno) →
  mlocks w = lock_stack lock ls → (prev = -1 ∨ slru_at (mmembers w) prev slot) →
  (∀ mm1 slot1 lock1, same_words (mmembers w) mm1 → slru_at mm1 pageno slot1 →
     (prev = -1 ∨ is_Some lock → is_Some lock1) →
     Q (slot1, lock1) (with_locks (lock_stack lock1 ls) (with_mmembers mm1 w))) →
  post (if pageno =? prev then mret (slot, lock)
        else
          SlruBankLockSwitch lock (member_bank env pageno) ≫= λ _,
          slot ← on_members (SimpleLruReadPage pageno true);
          mret (slot, Some (member_bank env pageno))) w Q.
Proof.
  intros Hok Hp Hv Hl Hprev HQ. destruct (Z.eqb_spec pageno prev) as [->|Hne].
  - apply post_ret. specialize (HQ (mmembers w) slot lock). destruct w; cbn in *; subst.
    apply HQ; [by split|by destruct Hprev; [lia|]|]. by intros [|]; [lia|].
  - apply post_bind. apply (post_switch _ _ ls); [done|].
    apply post_bind, post_on_members, mx_read_post; [done|done|]. intros s mm1 Hs Hat.
    apply post_ret. specialize (HQ mm1 s (Some (member_bank env pageno)) Hs Hat ltac:(done)). by destruct w.
Qed.

Lemma record_members_post env xids : ∀ offset prev slot lock ls w (Q : option mx_lock → mx_state SO SM → Prop),
  slru_ok (mmembers w) → 0 ≤ offset → offset + Z.of_nat (length xids) < 2 ^ 64 →
  (∀ k, offset ≤ k < offset + Z.of_nat (length xids) → is_Some (mx_word (mmembers w) k)) →
  mlocks w = lock_stack lock ls → (prev = -1 ∨ slru_at (mmembers w) prev slot) →
  (∀ mm' lock', slru_ok mm' →
     (∀ i x, xids !! i = Some x → mx_word mm' (offset + Z.of_nat i) = Some x) →
     (∀ k, k < offset ∨ offset + Z.of_nat (length xids) ≤ k → mx_word mm' k = mx_word (mmembers w) k) →
     Q lock' (with_locks (lock_stack lock' ls) (with_mmembers mm' w))) →
  post (record_members env xids offset prev slot lock) w Q.
Proof.
  induction xids as [|x xids IH]; intros offset prev slot lock ls w Q Hok Ho Hmax Hroom Hl Hprev HQ;
    cbn [record_members].
  { apply post_ret. specialize (HQ (mmembers w) lock Hok). destruct w; cbn in *; subst. by apply HQ. }
  cbn [length] in *. apply post_bind, (here_post _ _ _ _ _ ls); try done; [by apply mx_page_nonneg| |].
  { apply mx_word_page, Hroom. lia. }
  intros mm1 slot1 lock1 Hs Hat _. cbn [fst snd].
  destruct (mx_word_write mm1 offset slot1 x Hat) as (Hok2 & Hat2 & Hw2).
  apply post_bind, post_modify, post_bind, post_modify. cbn.
  rewrite u64_small by lia. eapply (IH _ _ _ _ ls); [done|lia|lia| |done|by right|].
  - intros k Hk. cbn. rewrite Hw2, decide_False, (mx_word_same _ _ _ Hs) by lia. apply Hroom. lia.
  - intros mm' lock' Hok' Hin Hout. specialize (HQ mm' lock' Hok'). destruct w; cbn in *. apply HQ.
    + intros [|i] y Hy; cbn in Hy.
      * injection Hy as ->. rewrite Hout by lia. by rewrite Hw2, decide_True by lia.
      * replace (offset + Z.of_nat (Datatypes.S i)) with (offset + 1 + Z.of_nat i) by lia. by apply Hin.
    + intros k Hk. rewrite Hout by lia. by rewrite Hw2, decide_False, (mx_word_same _ _ _ Hs) by lia.
Qed.

(** The meaning of the logs once [multi] has been written. *)
Definition abs_offset T (multi : Z) : mx_abs :=
  {| mstart := mstart T; mmem := mmem T; members_set := members_set T;
     offset_set m := if decide (m = multi) then true else offset_set T m |}.
Definition abs_members T (multi : Z) : mx_abs :=
  {| mstart := mstart T; mmem := mmem T; offset_set := offset_set T;
     members_set m := if decide (m = multi) then true else members_set T m |}.

Lemma offset_inv o o' mm next off old T multi :
  mx_inv o mm next off old T → old ≤ multi < next_id next → slru_ok o' →
  (∀ j, mx_word o' j = if decide (j = multi) then Some (mstart T multi) else mx_word o j) →
  mx_inv o' mm next off old (abs_offset T multi).
Proof.
  intros H Hm Hok Hw. split; try apply H; try done.
  - intros m Hm'. rewrite Hw. cbn. case_decide; [by subst|]. by apply (inv_word _ _ _ _ _ _ H).
  - intros m v Hm'. rewrite Hw, decide_False by lia. by apply (inv_free _ _ _ _ _ _ H).
  - intros ? ?. rewrite Hw. case_decide; [done|]. by apply (inv_page _ _ _ _ _ _ H).
Qed.

Lemma members_inv o mm mm' next off old T multi :
  mx_inv o mm next off old T → old ≤ multi < next_id next → slru_ok mm' →
  (∀ i x, mmem T multi !! i = Some x →
     mx_word mm' (mstart T multi + Z.of_nat i) = Some (GET_SLRU_XID_FROM_MULTIXACT_MEMBER x)) →
  (∀ k, k < mstart T multi ∨ mstart T (multi + 1) ≤ k → mx_word mm' k = mx_word mm k) →
  mx_inv o mm' next off old (abs_members T multi).
Proof.
  intros H Hm Hok Hin Hout.
  destruct (inv_extent _ _ _ _ _ _ multi H Hm) as (H1 & He & Hle).
  assert (∀ k, is_Some (mx_word mm k) → is_Some (mx_word mm' k)) as Hkeep.
  { intros k Hk. destruct (decide (mstart T multi ≤ k < mstart T (multi + 1))) as [Hr|]; [|rewrite Hout; [done|lia]].
    destruct (lookup_lt_is_Some_2 (mmem T multi) (Z.to_nat (k - mstart T multi))) as [x Hx]; [lia|].
    apply Hin in Hx. replace (mstart T multi + _) with k in Hx by lia. by rewrite Hx. }
  split; try apply H; try done.
  - intros m j Hm' Hj. apply Hkeep. by apply (inv_room _ _ _ _ _ _ H m).
  - intros m i x Hm'. cbn. case_decide; [subst m; intros _; apply Hin|]. intros Hs Hx.
    rewrite Hout; [by apply (inv_member _ _ _ _ _ _ H)|]. pose proof (lookup_lt_Some _ _ _ Hx).
    destruct (inv_extent _ _ _ _ _ _ m H Hm') as (_ & He' & _). destruct (decide (m < multi)).
    + left. pose proof (inv_before _ _ _ _ _ _ m multi H). lia.
    + right. pose proof (inv_before _ _ _ _ _ _ multi m H). lia.
  - intros ?. apply Hkeep. by apply (inv_mpage _ _ _ _ _ _ H).
Qed.

Lemma record_post env w next off old T multi (Q : unit → mx_state SO SM → Prop) :
  mx_SS_STANDBY_MODE env = false → mx_inv (moffsets w) (mmembers w) next off old T → old ≤ multi < next_id next →
  (∀ w', mx_inv (moffsets w') (mmembers w') next off old (abs_members (abs_offset T multi) multi) →
     MultiXactState w' = MultiXactState w → MXactCache w' = MXactCache w → mlocks w' = mlocks w → Q tt w') →
  post (RecordNewMultiXact env multi (mstart T multi) (GET_SLRU_XID_FROM_MULTIXACT_MEMBER <$> mmem T multi)) w Q.
Proof.
  intros Hss Hok Hm HQ. destruct (inv_extent _ _ _ _ _ _ multi Hok Hm) as (H1 & He & Hle).
  pose proof (inv_off_range _ _ _ _ _ _ Hok) as Hoff. pose proof (inv_old _ _ _ _ _ _ Hok) as Hold.
  unfold RecordNewMultiXact. rewrite Hss.
  apply post_bind, post_acquire, post_bind, post_on_offsets, mx_read_post; [apply Hok| |].
  { apply mx_word_page. rewrite (inv_word _ _ _ _ _ _ Hok) by done. done. }
  intros s o1 Hs1 Hat. apply post_bind, post_modify, post_bind, post_modify, post_bind. cbn.
  destruct (mx_word_write o1 multi s (mstart T multi) Hat) as (Hok2 & Hat2 & Hw2).
  eapply post_release; [done|]. cbn.
  assert (same_words (mmembers w) (mmembers w)) as Hrefl by (split; [apply Hok|done]).
  pose proof (offset_inv _ _ _ _ _ _ _ multi (inv_same _ _ _ _ _ _ _ _ Hs1 Hrefl Hok) Hm Hok2 Hw2) as Hinv.
  apply post_bind. eapply (record_members_post _ _ _ _ _ _ (mlocks w)); [apply Hok|lia| | |done|by left|].
  { rewrite length_fmap. lia. }
  { rewrite length_fmap. intros k Hk. cbn. apply (inv_room _ _ _ _ _ _ Hok multi); [done|lia]. }
  rewrite length_fmap. intros mm' lock' Hok' Hin Hout. cbn in *.
  assert (∀ w', w' = with_locks (mlocks w) (with_mmembers mm' (with_moffsets
            (mark_dirty (multi / PER) s (page_set (multi / PER) s (multi mod PER) (mstart T multi) o1)) w)) →
          Q tt w') as HQ'.
  { intros w' ->. apply HQ; try done. cbn. eapply members_inv; try done.
    - intros i x Hx. cbn in *. apply Hin. by rewrite list_lookup_fmap, Hx.
    - cbn. intros k Hk. apply Hout. lia. }
  destruct lock' as [l|]; [eapply post_release; [done|]|apply post_skip]; apply HQ'; by destruct w.
Qed.

(** *** The cache *)

Lemma cache_take_spec f c e c' : cache_take f c = Some (e, c') → f e = true ∧ c ≡ₚ e :: c'.
Proof.
  revert e c'. induction c as [|x c IH]; intros e c'; cbn; [done|]. destruct (f x) eqn:Hf.
  - by intros [= -> ->].
  - destruct (cache_take f c) as [[e1 c1]|]; [|done]. intros [= -> <-].
    destruct (IH e c1 eq_refl) as [He Hp]. split; [done|]. rewrite Hp. apply perm_swap.
Qed.

Lemma cache_search_post f w (Q : option mXactCacheEnt → mx_state SO SM → Prop) :
  (∀ r c, match r with Some e => f e = true ∧ e ∈ c | None => c = MXactCache w end → c ≡ₚ MXactCache w →
     Q r (with_cache c (MXactCacheMembers w) w)) →
  post (cache_search f) w Q.
Proof.
  intros HQ. unfold post, runs, cache_search. destruct (cache_take f (MXactCache w)) as [[e c]|] eqn:Hc.
  - apply cache_take_spec in Hc as [He Hp]. eexists _, _. split; [done|]. apply HQ; [|by symmetry].
    split; [done|]. apply list_elem_of_here.
  - eexists _, _. split; [done|]. specialize (HQ None (MXactCache w) eq_refl). destruct w. by apply HQ.
Qed.

Lemma cache_ok_perm w T c n : c ≡ₚ MXactCache w → mx_cache_ok w T → mx_cache_ok (with_cache c n w) T.
Proof. unfold mx_cache_ok. cbn. by intros ->. Qed.

Lemma cache_ok_extends w w' T T' :
  mx_cache_ok w T → MXactCache w' = MXactCache w → mx_extends (new_id w) T T' → new_id w ≤ new_id w' →
  oldestMultiXactId (MultiXactState w') = oldestMultiXactId (MultiXactState w) → mx_cache_ok w' T'.
Proof.
  unfold mx_cache_ok. intros Hc -> He Hn ->. eapply Forall_impl; [done|].
  intros e ((H1 & H2) & Hm & Hs & Ho & Hms). destruct (He (ent_multi e)) as (-> & _ & H3 & H4); [done|].
  split_and!; auto. unfold new_id in *. lia.
Qed.

Lemma cache_put_post w T multi ms (Q : unit → mx_state SO SM → Prop) :
  mx_ok w T → mx_cache_ok w T → oldestMultiXactId (MultiXactState w) ≤ multi < new_id w → mmem T multi = ms →
  offset_set T multi = true → members_set T multi = true →
  (∀ w', mx_ok w' T → mx_cache_ok w' T → MultiXactState w' = MultiXactState w → mlocks w' = mlocks w → Q tt w') →
  post (mXactCachePut multi ms) w Q.
Proof.
  intros Hok Hc Hm <- Ho Hs HQ. destruct (inv_multi _ _ _ _ _ _ Hok multi Hm) as ((_ & _ & Hsort) & _).
  apply post_modify. rewrite Hsort.
  assert (mx_cache_ok (with_cache ({| ent_multi := multi; ent_members := mmem T multi |} :: MXactCache w) 0 w) T) as Hc'.
  { constructor; [|done]. by cbn. }
  destruct (_ <=? _); apply HQ; try done. unfold mx_cache_ok in *. cbn [MXactCache with_cache] in *.
  revert Hc'. generalize ({| ent_multi := multi; ent_members := mmem T multi |} :: MXactCache w). cbn. intros l Hl.
  clear -Hl. induction Hl as [|x l Hx Hl IH]; [done|]. cbn. destruct l; [done|]. by constructor.
Qed.

(** *** Creation *)

Definition input_ok (ms : list MultiXactMember) : Prop :=
  ms ≠ [] ∧ Forall member_valid ms ∧ (length (updaters ms) ≤ 1)%nat.

Lemma input_sorted ms : input_ok ms → members_ok (sort_members ms) ∧ (length (updaters (sort_members ms)) ≤ 1)%nat.
Proof.
  intros (Hne & Hv & Hu). pose proof (sort_members_perm ms) as Hp. split; [split_and!|].
  - intros E. rewrite E in Hp. by apply Permutation_nil_l in Hp.
  - by rewrite Hp.
  - apply sort_members_idemp.
  - unfold updaters in *. by rewrite Hp.
Qed.

(** [multi] is in the logs, with members [ms]. *)
Definition made w T (multi : Z) (ms : list MultiXactMember) : Prop :=
  oldestMultiXactId (MultiXactState w) ≤ multi < new_id w ∧ mmem T multi = ms ∧
  offset_set T multi = true ∧ members_set T multi = true.

(** [w'] is what an operation of this backend leaves, possibly with the doings of
    others. *)
Definition mx_after w T w' T' : Prop :=
  mx_ok w' T' ∧ mx_cache_ok w' T' ∧ mx_extends (new_id w) T T' ∧ new_id w ≤ new_id w' ∧
  oldestMultiXactId (MultiXactState w') = oldestMultiXactId (MultiXactState w) ∧ mlocks w' = mlocks w.

(** No other creation is under way. *)
Definition settled w T : Prop :=
  ∀ m, oldestMultiXactId (MultiXactState w) ≤ m < new_id w → offset_set T m = true.

Lemma create_post_one env ms w T :
  mx_SS_STANDBY_MODE env = false → before_enhanced_tuple_lock env = false →
  mx_ok w T → mx_cache_ok w T → input_ok ms → mx_room w (Z.of_nat (length ms)) →
  post (CreateMultiXactId env ms) w (λ multi w', ∃ T', mx_after w T w' T' ∧
    made w' T' multi (sort_members ms) ∧ (settled w T → settled w' T') ∧ (∀ m, new_id w ≤ m < new_id w' → m = multi)).
Proof.
  intros Hss Hver Hok Hc Hin Hroom. destruct (input_sorted ms Hin) as [Hms Hu].
  pose proof (inv_old _ _ _ _ _ _ Hok) as Hold. fold (new_id w) in Hold.
  unfold CreateMultiXactId. rewrite Hver. cbn [andb]. unfold mXactCacheGetBySet.
  apply post_bind, post_bind, cache_search_post. intros r c Hr Hp. apply post_ret.
  pose proof (cache_ok_perm _ _ _ (MXactCacheMembers w) Hp Hc) as Hc1. destruct r as [e|].
  - destruct Hr as [He Hec]. apply bool_decide_eq_true in He.
    unfold mx_cache_ok in Hc1. rewrite Forall_forall in Hc1. destruct (Hc1 e Hec) as (Hr & Hm & _ & Ho & Hs). cbn in Hr.
    unfold MultiXactIdIsValid, InvalidMultiXactId. destruct (Z.eqb_spec (ent_multi e) 0) as [|]; [lia|]. cbn.
    apply post_ret. exists T. unfold mx_after, made. split_and!; try done.
    all: try (by apply (cache_ok_perm w)); try apply Hr; try (by rewrite <- Hm, He).
    change (new_id (with_cache _ _ w)) with (new_id w). lia.
  - cbn -[updaters Nat.ltb]. destruct (Nat.ltb_spec 1 (length (updaters (sort_members ms)))) as [|_]; [lia|].
    assert (mx_room (with_cache c (MXactCacheMembers w) w) (Z.of_nat (length (sort_members ms)))) as Hroom'
      by (by rewrite sort_members_perm).
    apply post_bind, (get_new_post _ _ _ T); [done..|]. intros w1 Hok1 Hn1 Hold1 Hcache1 Hl1. cbn [fst snd].
    change (new_id (with_cache _ _ w)) with (new_id w) in *.
    change (new_offset (with_cache _ _ w)) with (new_offset w) in *.
    set (T1 := abs_take T (new_id w) (new_offset w) (sort_members ms)) in *.
    assert (new_id w1 = new_id w + 1) as Hid.
    { unfold new_id at 1, next_id. rewrite Hn1. unfold FirstMultiXactId. lia. }
    assert (mx_extends (new_id w) T T1) as Hext by apply take_extends.
    assert (mmem T1 (new_id w) = sort_members ms) as Hmem by (cbn; by rewrite decide_True).
    assert (mstart T1 (new_id w) = new_offset w) as Hst by (cbn; by rewrite decide_True).
    apply post_bind. rewrite <- Hmem, <- Hst. eapply (record_post _ _ _ _ _ T1); [done|exact Hok1| |].
    { fold (new_id w1). rewrite Hid, Hold1. cbn. lia. }
    intros w2 Hok2 Hd2 Hcache2 Hl2. rewrite <- Hd2 in Hok2. set (T2 := abs_members (abs_offset T1 (new_id w)) (new_id w)) in *.
    assert (new_id w2 = new_id w + 1) as Hid2 by (unfold new_id at 1; rewrite Hd2; done).
    assert (mx_extends (new_id w) T T2) as Hext2.
    { intros m Hm. destruct (Hext m Hm) as (? & ? & ? & ?). cbn -[T1]. rewrite !decide_False by lia. done. }
    assert (mx_cache_ok w2 T2) as Hc2.
    { eapply (cache_ok_extends (with_cache c (MXactCacheMembers w) w)); [done| |done| |].
      - by rewrite Hcache2, Hcache1.
      - rewrite Hid2. change (new_id (with_cache _ _ w)) with (new_id w). lia.
      - by rewrite Hd2, Hold1. }
    apply post_bind, (cache_put_post _ T2); try done.
    { rewrite Hid2, Hd2, Hold1. cbn. lia. }
    { cbn. by rewrite decide_True. }
    { cbn. by rewrite decide_True. }
    intros w3 Hok3 Hc3 Hd3 Hl3. apply post_ret. exists T2.
    assert (new_id w3 = new_id w + 1) as Hid3 by (unfold new_id at 1; rewrite Hd3; done).
    assert (oldestMultiXactId (MultiXactState w3) = oldestMultiXactId (MultiXactState w)) as Hold3
      by (by rewrite Hd3, Hd2, Hold1).
    unfold mx_after, made. split_and!; try done; [lia|by rewrite Hl3, Hl2, Hl1|lia|lia|cbn; by rewrite decide_True..| |lia].
    intros Hset m Hm. rewrite Hold3, Hid3 in Hm. cbn. case_decide; [done|]. apply Hset. lia.
Qed.

Lemma create_post env ms w T :
  mx_SS_STANDBY_MODE env = false → before_enhanced_tuple_lock env = false →
  mx_ok w T → mx_cache_ok w T → input_ok ms → mx_room w (Z.of_nat (length ms)) →
  post (CreateMultiXactId env ms) w (λ multi w', ∃ T', mx_after w T w' T' ∧
    made w' T' multi (sort_members ms) ∧ (settled w T → settled w' T')).
Proof.
  intros. eapply post_mono; [by apply (create_post_one _ _ _ T)|]. intros multi w' (T' & ? & ? & ? & _). by exists T'.
Qed.

(** *** Reading *)

Lemma read_members_post env xs : ∀ offset prev slot lock ls w
    (Q : list MultiXactMember * option mx_lock → mx_state SO SM → Prop),
  slru_ok (mmembers w) → 0 ≤ offset → offset + Z.of_nat (length xs) < 2 ^ 64 → Forall member_valid xs →
  (∀ i x, xs !! i = Some x →
     mx_word (mmembers w) (offset + Z.of_nat i) = Some (GET_SLRU_XID_FROM_MULTIXACT_MEMBER x)) →
  mlocks w = lock_stack lock ls → (prev = -1 ∨ slru_at (mmembers w) prev slot ∧ is_Some lock) →
  (∀ mm' lock', same_words (mmembers w) mm' → (xs ≠ [] ∨ is_Some lock → is_Some lock') →
     Q (xs, lock') (with_locks (lock_stack lock' ls) (with_mmembers mm' w))) →
  post (read_members (length xs) env offset prev slot lock) w Q.
Proof.
  induction xs as [|x xs IH]; intros offset prev slot lock ls w Q Hok Ho Hmax Hv Hin Hl Hprev HQ;
    cbn [read_members length] in *.
  { apply post_ret. specialize (HQ (mmembers w) lock). destruct w; cbn in *; subst. apply HQ; [by split|].
    by intros [|]. }
  apply Forall_cons in Hv as [Hx Hv]. pose proof (Hin 0%nat x eq_refl) as Hw. rewrite Z.add_0_r in Hw.
  apply post_bind, (here_post _ _ _ _ _ ls); try done; [by apply mx_page_nonneg| | |].
  { apply (mx_word_page (mmembers w) offset). by rewrite Hw. }
  { destruct Hprev as [|[]]; [by left|by right]. }
  intros mm1 slot1 lock1 Hs Hat Hl1. cbn [fst snd]. apply post_bind, post_gets. cbn [mmembers with_locks with_mmembers].
  unfold MXOffsetToMemberPage, MXOffsetToMemberEntry.
  change MULTIXACT_MEMBERS_PER_PAGE with PER in *.
  rewrite (mx_word_get _ _ _ (GET_SLRU_XID_FROM_MULTIXACT_MEMBER x) Hat) by (by rewrite (mx_word_same _ _ _ Hs)).
  apply post_bind. rewrite u64_small by lia.
  assert (is_Some lock1) as Hsome by (apply Hl1; destruct Hprev as [|[]]; [by left|by right]).
  eapply (IH _ _ _ _ ls); [apply Hs|lia|lia|done| |done|by right|].
  { intros i y Hy. cbn. rewrite (mx_word_same _ _ _ Hs).
    replace (offset + 1 + Z.of_nat i) with (offset + Z.of_nat (Datatypes.S i)) by lia. by apply Hin. }
  intros mm' lock' Hs' Hl'. destruct (member_decode x Hx) as [-> Hdec]. cbn [negb fst snd]. rewrite Hdec.
  apply post_ret. specialize (HQ mm' lock'). destruct w; cbn in *. apply HQ.
  - destruct Hs, Hs' as [? Hs']. split; [done|]. intros q. rewrite Hs'. auto.
  - intros _. by apply Hl'; right.
Qed.

(** The second half of a pass: the offset of the next multixact, once its page is
    at hand. *)
Lemma extent_next_post s2 l2 w o2 nxt start v (Q : option (Z * Z) → mx_state SO SM → Prop) :
  slru_at o2 (nxt / PER) s2 → mx_word o2 nxt = Some v →
  Q (if v =? 0 then None else Some (start, i32 (v - start))) (with_moffsets o2 w) →
  post (nextMXOffset ← gets (λ w, page_get (moffsets w) (nxt / PER) s2 (nxt mod PER));
        LWLockRelease l2 ≫= λ _,
        if nextMXOffset =? 0 then mret None else mret (Some (start, i32 (nextMXOffset - start))))
    (with_locks (l2 :: mlocks w) (with_moffsets o2 w)) Q.
Proof.
  intros Hat Hv HQ. apply post_bind, post_gets. cbn [moffsets with_moffsets with_locks].
  rewrite (mx_word_get _ _ _ v Hat Hv). apply post_bind. eapply post_release; [done|].
  destruct (v =? 0); apply post_ret; by destruct w.
Qed.

(** The page of the next offset, which may be another one with another lock. *)
Lemma extent_page_post env w o1 s multi nxt (Q : Z * mx_lock → mx_state SO SM → Prop) :
  slru_ok o1 → is_Some (mx_word o1 nxt) → slru_at o1 (multi / PER) s →
  (∀ o2 s2 l2, same_words o1 o2 → slru_at o2 (nxt / PER) s2 →
     Q (s2, l2) (with_locks (l2 :: mlocks w) (with_moffsets o2 w))) →
  post (if nxt / PER =? multi / PER then mret (s, offset_bank env (multi / PER))
        else
          (if decide (offset_bank env (nxt / PER) = offset_bank env (multi / PER)) then skip
           else LWLockRelease (offset_bank env (multi / PER)) ≫= λ _, LWLockAcquire (offset_bank env (nxt / PER)))
          ≫= λ _,
          slotno ← on_offsets (SimpleLruReadPage (nxt / PER) true);
          mret (slotno, offset_bank env (nxt / PER)))
    (with_locks (offset_bank env (multi / PER) :: mlocks w) (with_moffsets o1 w)) Q.
Proof.
  intros Hok Hv Hat HQ. destruct (Z.eqb_spec (nxt / PER) (multi / PER)) as [Hpg|Hpg].
  - apply post_ret. rewrite <- Hpg in Hat. by apply HQ.
  - apply post_bind. apply (post_mono _ _
      (λ _ w1, w1 = with_locks (offset_bank env (nxt / PER) :: mlocks w) (with_moffsets o1 w))).
    + case_decide as Hb; [apply post_skip; by rewrite Hb|].
      apply post_bind. eapply post_release; [done|]. apply post_acquire. by destruct w.
    + intros _ w1 ->. apply post_bind, post_on_offsets, mx_read_post; [done|by apply mx_word_page|].
      intros s2 o2 Hs2 Hat2. apply post_ret. specialize (HQ o2 s2 (offset_bank env (nxt / PER)) Hs2 Hat2). by destruct w.
Qed.

(** One pass over the two offsets. *)
Lemma extent_post env w T multi nextMX nextOff (Q : option (Z * Z) → mx_state SO SM → Prop) :
  mx_ok w T → oldestMultiXactId (MultiXactState w) ≤ multi < new_id w → offset_set T multi = true →
  Z.of_nat (length (mmem T multi)) < 2 ^ 31 → multi < nextMX ≤ new_id w →
  (nextMX = multi + 1 → nextOff = mstart T (multi + 1)) →
  (∀ o', same_words (moffsets w) o' →
     Q (if (nextMX =? multi + 1) || offset_set T (multi + 1)
        then Some (mstart T multi, Z.of_nat (length (mmem T multi))) else None) (with_moffsets o' w)) →
  post (members_extent env multi nextMX nextOff) w Q.
Proof.
  intros Hok Hm Hset Hlen Hnext Hoff HQ. destruct (inv_extent _ _ _ _ _ _ multi Hok Hm) as (H1 & He & Hle).
  pose proof (inv_old _ _ _ _ _ _ Hok) as Hold. pose proof (inv_next _ _ _ _ _ _ Hok) as Hn.
  assert (new_id w < 2 ^ 64) as Hid by (unfold new_id, next_id, FirstMultiXactId; lia).
  assert (i32 (mstart T (multi + 1) - mstart T multi) = Z.of_nat (length (mmem T multi))) as Hi32
    by (rewrite i32_small; lia).
  pose proof (inv_word _ _ _ _ _ _ Hok multi Hm) as Hw. rewrite Hset in Hw.
  unfold members_extent. apply post_bind, post_acquire, post_bind, post_on_offsets, mx_read_post; [apply Hok| |].
  { apply (mx_word_page (moffsets w) multi). by rewrite Hw. }
  intros s o1 Hs1 Hat1. apply post_bind, post_gets. cbn [moffsets with_moffsets with_locks].
  unfold MultiXactIdToOffsetPage, MultiXactIdToOffsetEntry in *.
  rewrite (mx_word_get _ _ _ (mstart T multi) Hat1) by (by rewrite (mx_word_same _ _ _ Hs1)).
  rewrite u64_small by lia. destruct (Z.eqb_spec nextMX (multi + 1)) as [Hlast|Hlast]; cbn [orb] in HQ.
  { apply post_bind. eapply post_release; [done|]. apply post_ret. rewrite Hoff, Hi32 by done.
    specialize (HQ o1 Hs1). by destruct w. }
  pose proof (inv_word _ _ _ _ _ _ Hok (multi + 1) ltac:(unfold new_id in *; lia)) as Hw2.
  assert (mx_word o1 (multi + 1) = mx_word (moffsets w) (multi + 1)) as Hw1 by (by apply mx_word_same).
  apply post_bind. replace (with_moffsets o1 _) with
    (with_locks (offset_bank env (multi / PER) :: mlocks w) (with_moffsets o1 w)) by (by destruct w).
  apply extent_page_post; [apply Hs1|by rewrite Hw1, Hw2|done|]. intros o2 s2 l2 Hs2 Hat2. cbn [fst snd].
  assert (same_words (moffsets w) o2) as Hs
    by (destruct Hs1, Hs2 as [? Hs2]; split; [done|]; intros; rewrite Hs2; auto).
  eapply extent_next_post; [done|by rewrite (mx_word_same _ _ _ Hs), Hw2|]. specialize (HQ o2 Hs).
  destruct (offset_set T (multi + 1)); [|done]. rewrite Hi32. by destruct (Z.eqb_spec (mstart T (multi + 1)) 0); [lia|].
Qed.

(** What other backends may do while this one sleeps: make more multixacts, and
    nothing to its cache and locks. *)
Definition mx_later w T w' T' : Prop :=
  mx_ok w' T' ∧ mx_extends (new_id w) T T' ∧ new_id w ≤ new_id w' ∧
  oldestMultiXactId (MultiXactState w') = oldestMultiXactId (MultiXactState w) ∧
  MXactCache w' = MXactCache w ∧ mlocks w' = mlocks w.

(** The others do so during [n] sleeps, whatever pages this backend reads
    meanwhile. *)
Fixpoint others_ok (n : nat) env w T : Prop :=
  match n with
  | O => True
  | Datatypes.S n => ∀ o', same_words (moffsets w) o' →
      let w' := others_meanwhile env (with_moffsets o' w) in
      ∃ T', mx_later w T w' T' ∧ others_ok n env w' T'
  end.

(** And within [n] sleeps the offset of [multi] is written. *)
Fixpoint written_within (n : nat) env (multi : Z) w T : Prop :=
  offset_set T multi = true ∨
  match n with
  | O => False
  | Datatypes.S n => ∀ o', same_words (moffsets w) o' →
      let w' := others_meanwhile env (with_moffsets o' w) in
      ∃ T', mx_later w T w' T' ∧ written_within n env multi w' T'
  end.

Lemma extends_trans next next' T1 T2 T3 :
  next ≤ next' → mx_extends next T1 T2 → mx_extends next' T2 T3 → mx_extends next T1 T3.
Proof.
  intros Hn H1 H2 m Hm. destruct (H1 m Hm) as (E1 & E2 & E3 & E4).
  destruct (H2 m) as (E5 & E6 & E7 & E8); [lia|]. rewrite E5, E6. split_and!; auto.
Qed.

Lemma later_trans w1 T1 w2 T2 w3 T3 : mx_later w1 T1 w2 T2 → mx_later w2 T2 w3 T3 → mx_later w1 T1 w3 T3.
Proof.
  intros (_ & He1 & Hn1 & Ho1 & Hc1 & Hl1) (Hok & He2 & Hn2 & Ho2 & Hc2 & Hl2).
  split_and!; [done|by eapply extends_trans|lia|congruence..].
Qed.

Lemma later_offsets w T o' : mx_ok w T → same_words (moffsets w) o' → mx_later w T (with_moffsets o' w) T.
Proof.
  intros Hok Hs. split_and!; try done. eapply inv_same; [done| |done]. split; [apply Hok|done].
Qed.

Lemma made_later w T w' T' multi ms : made w T multi ms → mx_later w T w' T' → made w' T' multi ms.
Proof.
  intros (Hm & <- & Ho & Hs) (_ & He & Hn & Hold & _). unfold made. destruct (He multi) as (-> & _ & H3 & H4); [lia|].
  split_and!; auto; lia.
Qed.

Lemma wait_extent_wpost fuel env w T multi ms nextMX nextOff (Q : Z * Z → mx_state SO SM → Prop) :
  others_ok fuel env w T → mx_ok w T → made w T multi ms → Z.of_nat (length ms) < 2 ^ 31 →
  multi < nextMX ≤ new_id w → (nextMX = multi + 1 → nextOff = mstart T (multi + 1)) →
  (∀ w' T', mx_later w T w' T' → Q (mstart T multi, Z.of_nat (length ms)) w') →
  wpost (wait_extent fuel env multi nextMX nextOff) w Q.
Proof.
  revert w T. induction fuel as [|fuel IH]; intros w T Hoth Hok Hmade Hlen Hnext Hoff HQ; cbn [wait_extent].
  all: pose proof Hmade as (Hm & <- & Ho & Hs); apply wpost_bind, wpost_post; eapply extent_post; try done.
  all: intros o' Hs'; pose proof (later_offsets w T o' Hok Hs') as Hl.
  all: destruct ((nextMX =? multi + 1) || offset_set T (multi + 1)) eqn:Hr; [by apply (HQ _ T)|].
  { done. }
  apply orb_false_iff in Hr as [Hr%Z.eqb_neq _]. apply wpost_bind, wpost_post, post_modify.
  destruct (Hoth o' Hs') as (T' & Hl2 & Hoth'). pose proof Hl2 as (Hok2 & He2 & Hn2 & _).
  destruct (He2 multi) as (Hmem & Hst & _); [lia|].
  eapply (IH _ T'); [done|done|by eapply made_later|done|lia|lia|].
  intros w3 T3 Hl3. rewrite Hst. apply (HQ _ T3). by eapply later_trans.
Qed.

(** It returns, without sleeping, if there is no next multixact or its offset is
    written. *)
Lemma wait_extent_post fuel env w T multi ms nextMX nextOff (Q : Z * Z → mx_state SO SM → Prop) :
  mx_ok w T → made w T multi ms → Z.of_nat (length ms) < 2 ^ 31 → multi < nextMX ≤ new_id w →
  (nextMX = multi + 1 → nextOff = mstart T (multi + 1)) →
  (nextMX ≠ multi + 1 → offset_set T (multi + 1) = true) →
  (∀ w', mx_later w T w' T → MultiXactState w' = MultiXactState w →
     Q (mstart T multi, Z.of_nat (length ms)) w') →
  post (wait_extent fuel env multi nextMX nextOff) w Q.
Proof.
  intros Hok (Hm & <- & Ho & Hs) Hlen Hnext Hoff Hset HQ.
  assert ((nextMX =? multi + 1) || offset_set T (multi + 1) = true) as Hr
    by (destruct (Z.eqb_spec nextMX (multi + 1)); auto).
  destruct fuel as [|fuel]; cbn [wait_extent]; apply post_bind; eapply extent_post; try done;
    intros o' Hs'; rewrite Hr; (apply post_ret, HQ; [by apply later_offsets|done]).
Qed.

(** It returns if the others write the offset in time. *)
Lemma wait_extent_live n fuel env w T multi ms nextMX nextOff (Q : Z * Z → mx_state SO SM → Prop) :
  written_within n env (multi + 1) w T → (n ≤ fuel)%nat →
  mx_ok w T → made w T multi ms → Z.of_nat (length ms) < 2 ^ 31 → multi < nextMX ≤ new_id w →
  (nextMX = multi + 1 → nextOff = mstart T (multi + 1)) →
  (∀ w' T', mx_later w T w' T' → Q (mstart T multi, Z.of_nat (length ms)) w') →
  post (wait_extent fuel env multi nextMX nextOff) w Q.
Proof.
  revert fuel w T. induction n as [|n IH]; intros fuel w T Hw Hf Hok Hmade Hlen Hnext Hoff HQ.
  all: destruct ((nextMX =? multi + 1) || offset_set T (multi + 1)) eqn:Hr;
    [apply (wait_extent_post _ _ _ T _ ms); try done;
       [by apply orb_true_iff in Hr as [Hr%Z.eqb_eq|]|intros w' Hl _; by apply (HQ _ T)]|].
  all: pose proof Hr as [Hne%Z.eqb_neq Hun]%orb_false_iff; destruct Hw as [Hw|Hw]; [congruence|].
  { done. }
  destruct fuel as [|fuel]; [lia|]. pose proof Hmade as (Hm & Hms & Ho & Hs).
  cbn [wait_extent]. apply post_bind. eapply extent_post; try done; [by rewrite Hms|].
  intros o' Hs'. rewrite Hr. apply post_bind, post_modify.
  destruct (Hw o' Hs') as (T' & Hl & Hw'). pose proof Hl as (Hok2 & He2 & Hn2 & _).
  destruct (He2 multi) as (_ & Hst & _); [lia|].
  eapply (IH fuel _ T'); [done|lia|done|by eapply made_later|done|lia|lia|].
  intros w3 T3 Hl3. rewrite Hst. apply (HQ _ T3). by eapply later_trans.
Qed.

Lemma later_cache w T w' T' : mx_cache_ok w T → mx_later w T w' T' → mx_after w T w' T'.
Proof.
  intros Hc (Hok & He & Hn & Ho & Hc' & Hl). split_and!; try done. by eapply cache_ok_extends.
Qed.

Definition same_counters w w' : Prop :=
  nextMXact (MultiXactState w') = nextMXact (MultiXactState w) ∧
  nextOffset (MultiXactState w') = nextOffset (MultiXactState w).

Lemma oldest_visible_post env w T (Q : unit → mx_state SO SM → Prop) :
  mx_ok w T → (∀ w', mx_later w T w' T → same_counters w w' → Q tt w') →
  post (MultiXactIdSetOldestVisible env) w Q.
Proof.
  intros Hok HQ. unfold MultiXactIdSetOldestVisible. apply post_bind, post_gets.
  destruct (MultiXactIdIsValid _); [apply post_skip, HQ; [by split_and!|done]|].
  apply post_bind, post_acquire, post_bind, post_gets, post_bind, post_modify.
  eapply post_release; [done|]. apply HQ; [by split_and!|done].
Qed.

Lemma oldest_member_post env w T (Q : unit → mx_state SO SM → Prop) :
  mx_ok w T → (∀ w', mx_later w T w' T → same_counters w w' → Q tt w') →
  post (MultiXactIdSetOldestMember env) w Q.
Proof.
  intros Hok HQ. unfold MultiXactIdSetOldestMember. apply post_bind, post_gets.
  destruct (MultiXactIdIsValid _); [apply post_skip, HQ; [by split_and!|done]|].
  apply post_bind, post_acquire, post_bind, post_gets, post_bind, post_modify.
  eapply post_release; [done|]. apply HQ; [by split_and!|done].
Qed.

(** The members, once it is known where they are. *)
Lemma members_tail_post env w T multi ms :
  mx_ok w T → mx_cache_ok w T → made w T multi ms →
  post (r ← read_members (Z.to_nat (Z.of_nat (length ms))) env (mstart T multi) (-1) 0 None;
        (match r.2 with Some l => LWLockRelease l | None => raise PANIC end) ≫= λ _,
        mXactCachePut multi r.1 ≫= λ _,
        mret (Some r.1)) w (λ r w', r = Some ms ∧ mx_after w T w' T ∧ MultiXactState w' = MultiXactState w).
Proof.
  intros Hok Hc (Hm & <- & Ho & Hs). destruct (inv_extent _ _ _ _ _ _ multi Hok Hm) as (H1 & He & Hle).
  destruct (inv_multi _ _ _ _ _ _ Hok multi Hm) as ((Hne & Hv & _) & _).
  pose proof (inv_off_range _ _ _ _ _ _ Hok) as Hoff. rewrite Nat2Z.id.
  apply post_bind, (read_members_post _ _ _ _ _ _ (mlocks w)); [apply Hok|lia|lia|done| |done|by left|].
  { intros i x Hx. by apply (inv_member _ _ _ _ _ _ Hok). }
  intros mm' lock' Hs' Hl'. destruct (Hl' (or_introl Hne)) as [l ->]. cbn [fst snd].
  apply post_bind. eapply post_release; [done|]. apply post_bind.
  assert (mx_ok (with_mmembers mm' w) T) as Hok1.
  { eapply inv_same; [|done|done]. split; [apply Hok|done]. }
  eapply (cache_put_post _ T); [by destruct w|by destruct w|done..|].
  intros w2 Hok2 Hc2 Hd2 Hl2. apply post_ret. split; [done|]. unfold mx_after, new_id. rewrite Hd2, Hl2. by split_and!.
Qed.

(** The same for total and partial correctness: [W] is [post] or [wpost]. *)
Lemma get_members_gen (W : ∀ A, M (mx_state SO SM) A → mx_state SO SM → (A → mx_state SO SM → Prop) → Prop)
    (K : mx_state SO SM → mx_state SO SM → Prop) fuel env w T multi ms :
  (∀ w1 w2 w3, K w1 w2 → K w2 w3 → K w1 w3) → (∀ w w', same_counters w w' → K w w') →
  (∀ A m w Q, post m w Q → W A m w Q) →
  (∀ A B m k w Q, W A m w (λ a w', W B (k a) w' Q) → W B (m ≫= k) w Q) →
  mx_ok w T → mx_cache_ok w T → made w T multi ms →
  (∀ w1 Q, mx_later w T w1 T → same_counters w w1 →
     (∀ w' T', mx_later w1 T w' T' → K w1 w' → Q (mstart T multi, Z.of_nat (length ms)) w') →
     W _ (wait_extent fuel env multi (nextMXact (MultiXactState w1)) (nextOffset (MultiXactState w1))) w1 Q) →
  W _ (GetMultiXactIdMembers fuel env multi) w (λ r w', r = Some ms ∧ K w w' ∧ ∃ T', mx_after w T w' T').
Proof.
  intros HKt HKs HWp HWb Hok Hc Hmade Hwait. pose proof Hmade as (Hm & Hmem & _).
  pose proof (inv_old _ _ _ _ _ _ Hok) as Hold.
  unfold GetMultiXactIdMembers, mXactCacheGetById. apply HWb, HWp, post_bind, cache_search_post.
  intros r c Hr Hp. apply post_ret. pose proof (cache_ok_perm _ _ _ (MXactCacheMembers w) Hp Hc) as Hc1.
  destruct r as [e|]; cbn [fmap option_fmap option_map].
  { destruct Hr as [He Hec]. apply Z.eqb_eq in He. apply HWp, post_ret.
    unfold mx_cache_ok in Hc1. rewrite Forall_forall in Hc1. destruct (Hc1 e Hec) as (_ & Hem & _).
    rewrite Hem, He, Hmem. split_and!; [done|by apply HKs|]. exists T. split_and!; try done. by apply (cache_ok_perm w). }
  subst c. replace (with_cache _ _ w) with w by (by destruct w).
  apply HWb, HWp, (oldest_visible_post _ _ T); [done|]. intros w1 Hl1 Hid1. pose proof Hl1 as (Hok1 & _ & Hn1 & Hold1 & _).
  apply HWb, HWp, post_acquire. apply HWb, HWp, post_gets. apply HWb, HWp. eapply post_release; [done|]. cbn.
  assert (nextMXact (MultiXactState w1) = new_id w1) as Hnext.
  { unfold new_id, next_id in *. unfold FirstMultiXactId in *. lia. }
  unfold MultiXactIdPrecedes. rewrite Hold1, (proj2 (Z.ltb_ge _ _)), (proj2 (Z.ltb_lt multi _)) by lia. cbn [negb].
  replace (with_locks (mlocks w1) _) with w1 by (by destruct w1).
  apply HWb, (Hwait w1); [done|done|]. intros w2 T2 Hl2 HK2. cbn [fst snd]. pose proof (later_trans _ _ _ _ _ _ Hl1 Hl2) as Hl.
  destruct (later_cache _ _ _ _ Hc Hl) as (Hok2 & Hc2 & He2 & Hn2 & Ho2 & Hlk2).
  pose proof (made_later _ _ _ _ _ _ Hmade Hl) as Hmade2.
  destruct (He2 multi) as (_ & <- & _); [lia|]. apply HWp. eapply post_mono; [by apply members_tail_post|].
  intros r w3 (-> & (Hok3 & Hc3 & _ & Hn3 & Ho3 & Hlk3) & Hd3). split_and!; [done| |].
  { apply (HKt _ w1); [by apply HKs|]. apply (HKt _ w2); [done|]. apply HKs. unfold same_counters. by rewrite Hd3. }
  exists T2. split_and!; try done; [lia|congruence..].
Qed.

(** The counters, when there is a multixact. *)
Lemma last_offset w T multi :
  mx_ok w T → oldestMultiXactId (MultiXactState w) ≤ multi < new_id w →
  nextMXact (MultiXactState w) = new_id w ∧
  (new_id w = multi + 1 → nextOffset (MultiXactState w) = mstart T (multi + 1)).
Proof.
  intros Hok Hm. pose proof (inv_old _ _ _ _ _ _ Hok) as Hold.
  assert (nextMXact (MultiXactState w) = new_id w) as Hnext.
  { unfold new_id, next_id, FirstMultiXactId in *. lia. }
  split; [done|]. intros Hl. rewrite <- Hl. symmetry. apply (inv_end _ _ _ _ _ _ Hok). unfold new_id in *. lia.
Qed.

(** Total: the next multixact, if there is one, has its offset written. *)
Lemma get_members_post fuel env w T multi ms :
  mx_ok w T → mx_cache_ok w T → made w T multi ms → Z.of_nat (length ms) < 2 ^ 31 →
  (multi + 1 < new_id w → offset_set T (multi + 1) = true) →
  post (GetMultiXactIdMembers fuel env multi) w
    (λ r w', r = Some ms ∧ same_counters w w' ∧ ∃ T', mx_after w T w' T').
Proof.
  intros Hok Hc Hmade Hlen Hset. pose proof Hmade as (Hm & _). pose proof (inv_old _ _ _ _ _ _ Hok) as Hold.
  apply (get_members_gen (λ A, post) same_counters); try done.
  { intros w1 w2 w3 [E1 E2] [E3 E4]. split; congruence. }
  { by intros; apply post_bind. }
  intros w1 Q Hl Hsc HQ. pose proof Hl as (Hok1 & _ & _ & Ho1 & _).
  assert (new_id w1 = new_id w) as Hid by (unfold new_id; by destruct Hsc as [-> _]).
  destruct (last_offset w1 T multi Hok1) as [Hnext Hend]; [rewrite Hid, Ho1; lia|]. rewrite Hnext, Hid.
  apply (wait_extent_post _ _ _ T _ ms); try done; [by eapply made_later|rewrite Hid; lia|by rewrite <- Hid|intros; apply Hset; lia|].
  intros w2 Hl2 Hd2. apply (HQ _ T); [done|]. unfold same_counters. by rewrite Hd2.
Qed.

(** Partial: whatever the others do meanwhile. *)
Lemma get_members_wpost fuel env w T multi ms :
  (∀ w1, mx_later w T w1 T → same_counters w w1 → others_ok fuel env w1 T) →
  mx_ok w T → mx_cache_ok w T → made w T multi ms → Z.of_nat (length ms) < 2 ^ 31 →
  wpost (GetMultiXactIdMembers fuel env multi) w (λ r w', r = Some ms ∧ ∃ T', mx_after w T w' T').
Proof.
  intros Hoth Hok Hc Hmade Hlen. pose proof Hmade as (Hm & _).
  eapply wpost_mono; [apply (get_members_gen (λ A, wpost) (λ _ _, True) _ _ _ T); try done|].
  { by intros; apply wpost_post. }
  { by intros; apply wpost_bind. }
  2: { by intros r w' (-> & _ & ?). }
  intros w1 Q Hl Hsc HQ. pose proof Hl as (Hok1 & _ & _ & Ho1 & _).
  assert (new_id w1 = new_id w) as Hid by (unfold new_id; by destruct Hsc as [-> _]).
  destruct (last_offset w1 T multi Hok1) as [Hnext Hend]; [rewrite Hid, Ho1; lia|]. rewrite Hnext.
  apply (wait_extent_wpost _ _ _ T _ ms); try done; [by apply Hoth|by eapply made_later|rewrite Hid; lia|].
  intros w2 T2 Hl2. by apply (HQ _ T2).
Qed.

(** Total, with the others at work. *)
Lemma get_members_live n fuel env w T multi ms :
  (∀ w1, mx_later w T w1 T → same_counters w w1 → written_within n env (multi + 1) w1 T) → (n ≤ fuel)%nat →
  mx_ok w T → mx_cache_ok w T → made w T multi ms → Z.of_nat (length ms) < 2 ^ 31 →
  post (GetMultiXactIdMembers fuel env multi) w (λ r w', r = Some ms ∧ ∃ T', mx_after w T w' T').
Proof.
  intros Hoth Hr Hok Hc Hmade Hlen. pose proof Hmade as (Hm & _).
  eapply post_mono; [apply (get_members_gen (λ A, post) (λ _ _, True) _ _ _ T); try done|].
  { by intros; apply post_bind. }
  2: { by intros r w' (-> & _ & ?). }
  intros w1 Q Hl Hsc HQ. pose proof Hl as (Hok1 & _ & _ & Ho1 & _).
  assert (new_id w1 = new_id w) as Hid by (unfold new_id; by destruct Hsc as [-> _]).
  destruct (last_offset w1 T multi Hok1) as [Hnext Hend]; [rewrite Hid, Ho1; lia|]. rewrite Hnext.
  apply (wait_extent_live n _ _ _ T _ ms); try done; [by apply Hoth|by eapply made_later|rewrite Hid; lia|].
  intros w2 T2 Hl2. by apply (HQ _ T2).
Qed.

Lemma made_after w T w' T' multi ms : made w T multi ms → mx_after w T w' T' → made w' T' multi ms.
Proof.
  intros (Hm & <- & Ho & Hs) (_ & _ & He & Hn & Hold & _). unfold made.
  destruct (He multi) as (-> & _ & H3 & H4); [lia|]. split_and!; auto; lia.
Qed.

Lemma after_trans w1 T1 w2 T2 w3 T3 : mx_after w1 T1 w2 T2 → mx_after w2 T2 w3 T3 → mx_after w1 T1 w3 T3.
Proof.
  intros (_ & _ & He1 & Hn1 & Ho1 & Hl1) (Hok & Hc & He2 & Hn2 & Ho2 & Hl2).
  split_and!; [done|done|by eapply extends_trans|lia|congruence..].
Qed.

(** What [MultiXactIdExpand] makes: the set itself if the new member is in it, and otherwise
    the new member with those of interest. *)
Definition expanded env (ms : list MultiXactMember) (new : MultiXactMember) : list MultiXactMember :=
  if existsb (λ m, bool_decide (m = new)) ms then ms
  else sort_members (filter (λ m, of_interest env m = true) ms ++ [new]).

Lemma expanded_spec env ms new :
  new ∈ expanded env ms new ∧ (∀ m, m ∈ ms → of_interest env m = true → m ∈ expanded env ms new) ∧
  (∀ m, m ∈ expanded env ms new → m = new ∨ m ∈ ms) ∧ (length (expanded env ms new) ≤ length ms + 1)%nat.
Proof.
  unfold expanded. destruct (existsb _ ms) eqn:He.
  { apply existsb_exists in He as (m & Hm & <-%bool_decide_eq_true).
    split_and!; [by apply list_elem_of_In|done|by right|lia]. }
  set (ms1 := filter _ ms) in *. assert (length ms1 ≤ length ms)%nat as Hle by apply length_filter.
  setoid_rewrite sort_members_perm. split_and!.
  - apply elem_of_app. right. by apply list_elem_of_singleton.
  - intros m Hin Hi. apply elem_of_app. left. by apply list_elem_of_filter.
  - intros m [Hin| ->%list_elem_of_singleton]%elem_of_app; [right|by left].
    by apply list_elem_of_filter in Hin as [_ ?].
  - rewrite length_app. cbn. lia.
Qed.

Lemma expand_post fuel env w T multi ms xid status :
  let new := {| mx_xid := xid; mx_status := status |} in
  mx_SS_STANDBY_MODE env = false → before_enhanced_tuple_lock env = false →
  mx_ok w T → mx_cache_ok w T → settled w T → made w T multi ms → Z.of_nat (length ms) < 2 ^ 31 →
  member_valid new → (length (updaters (filter (λ m, of_interest env m = true) ms ++ [new])) ≤ 1)%nat →
  mx_room w (Z.of_nat (length ms) + 1) →
  post (MultiXactIdExpand fuel env multi xid status) w (λ multi' w', ∃ T', mx_after w T w' T' ∧
    made w' T' multi' (expanded env ms new) ∧ settled w' T' ∧ (∀ m, new_id w ≤ m < new_id w' → m = multi')).
Proof.
  intros new Hss Hver Hok Hc Hset Hmade Hlen Hv Hu Hroom. unfold MultiXactIdExpand. fold new.
  apply post_bind. eapply post_mono; [eapply (get_members_post _ _ _ T); try done|].
  { intros Hlt. apply Hset. destruct Hmade as [Hm _]. lia. }
  intros r w1 (-> & [Hs1 Hs2] & T1 & Ha1). assert (new_id w1 = new_id w) as Hid by (unfold new_id; by rewrite Hs1).
  assert (settled w1 T1) as Hset1.
  { destruct Ha1 as (_ & _ & He & _ & Ho & _). intros m Hm. unfold new_id in Hm, He. rewrite Hs1, Ho in Hm.
    apply (He m); [lia|]. by apply Hset. }
  unfold expanded. destruct (existsb _ ms) eqn:He.
  { apply post_ret. exists T1. split_and!; [done|by eapply made_after|done|rewrite Hid; lia]. }
  set (ms1 := filter _ ms) in *. assert (length ms1 ≤ length ms)%nat as Hle by apply length_filter.
  destruct Ha1 as (Hok1 & Hc1 & Ha1). eapply post_mono; [eapply (create_post_one _ _ _ T1); try done|].
  - split_and!; [by destruct ms1| |done]. apply Forall_app. split; [|by constructor].
    pose proof Hmade as (Hm & <- & _). destruct (inv_multi _ _ _ _ _ _ Hok multi Hm) as ((_ & Hvs & _) & _).
    rewrite Forall_forall in *. intros m [_ Hin]%list_elem_of_filter. by apply Hvs.
  - unfold mx_room, new_id in *. rewrite Hs1, Hs2, length_app. cbn. lia.
  - intros multi' w' (T' & Ha & Hm & Hs & Hone). exists T'. rewrite Hid in Hone. split_and!; [by eapply (after_trans _ _ w1 T1)|done|auto|auto].
Qed.

(** ** Theorems *)

(** C28: A multixact is what it was made of: after [CreateMultiXactId], any backend (with
    an empty cache, so from the logs) gets from [GetMultiXactIdMembers] the members
    it was given, in the order of [MXactMemberComparator], and still gets the members
    of every multixact made before; the logs stay well formed and every lock taken is
    released. *)
Theorem create_get_roundtrip env env' fuel ms w T :
  mx_SS_STANDBY_MODE env = false → before_enhanced_tuple_lock env = false →
  mx_ok w T → mx_cache_ok w T → settled w T → input_ok ms → mx_room w (Z.of_nat (length ms)) →
  post (CreateMultiXactId env ms) w (λ multi w', ∃ T', mx_after w T w' T' ∧ settled w' T' ∧
    ∀ multi' ms', (multi' = multi ∧ ms' = sort_members ms) ∨ made w T multi' ms' →
      Z.of_nat (length ms') < 2 ^ 31 →
      post (GetMultiXactIdMembers fuel env' multi') (with_cache [] 0 w') (λ r _, r = Some ms')).
Proof.
  intros Hss Hver Hok Hc Hset Hin Hroom. eapply post_mono; [by apply (create_post _ _ _ T)|].
  intros multi w' (T' & Ha & Hmade & Hset'). exists T'. split_and!; [done|by apply Hset'|].
  intros multi' ms' Hwhich Hlen. assert (made w' T' multi' ms') as Hm.
  { destruct Hwhich as [[-> ->]|]; [done|]. by eapply made_after. }
  eapply post_mono; [eapply (get_members_post _ _ _ T' _ ms'); [apply Ha|by constructor|done|done|]|by intros r ? (-> & _)].
  intros Hlt. apply Hset'; [done|]. destruct Hm as [Hm _]. change (new_id (with_cache [] 0 w')) with (new_id w') in Hlt. lia.
Qed.

(** Readers and concurrent creators: while other backends take ids and write
    them, whenever they are scheduled (in particular with an id taken and its offset not
    yet written), [GetMultiXactIdMembers] of a multixact that was made never raises,
    and whatever the number of times it has to sleep, what it returns are its members;
    it does return if the backend that has taken the next id writes its offset within
    the number of sleeps. *)
Theorem get_members_concurrent fuel env w T multi ms :
  (∀ w1, mx_later w T w1 T → same_counters w w1 → others_ok fuel env w1 T) →
  mx_ok w T → mx_cache_ok w T → made w T multi ms → Z.of_nat (length ms) < 2 ^ 31 →
  let right (r : option (list MultiXactMember)) w' :=
    r = Some ms ∧ mlocks w' = mlocks w ∧ ∃ T', mx_ok w' T' ∧ mx_extends (new_id w) T T' in
  wpost (GetMultiXactIdMembers fuel env multi) w right ∧
  ((∀ w1, mx_later w T w1 T → same_counters w w1 → written_within fuel env (multi + 1) w1 T) →
   post (GetMultiXactIdMembers fuel env multi) w right).
Proof.
  intros Hoth Hok Hc Hmade Hlen right.
  assert (∀ r w', (r = Some ms ∧ ∃ T', mx_after w T w' T') → right r w') as Hright.
  { intros r w' (-> & T' & Hok' & _ & He & _ & _ & Hl). split_and!; [done..|]. by exists T'. }
  split; [|intros Hw].
  - by eapply wpost_mono; [apply (get_members_wpost _ _ _ T)|].
  - by eapply post_mono; [apply (get_members_live fuel _ _ _ T)|].
Qed.

(** [MultiXactIdExpand] loses nobody who matters: the result has as members the
    new one, every member of the old one that is still running, and its updater if that
    has committed; and no others but members of the old. *)
Theorem expand_keeps_members fuel env w T multi ms xid status :
  let new := {| mx_xid := xid; mx_status := status |} in
  mx_SS_STANDBY_MODE env = false → before_enhanced_tuple_lock env = false →
  mx_ok w T → mx_cache_ok w T → settled w T → made w T multi ms → Z.of_nat (length ms) < 2 ^ 31 →
  member_valid new → (length (updaters (filter (λ m, of_interest env m = true) ms ++ [new])) ≤ 1)%nat →
  mx_room w (Z.of_nat (length ms) + 1) →
  post (MultiXactIdExpand fuel env multi xid status) w (λ multi' w', ∃ T' ms', mx_after w T w' T' ∧
    made w' T' multi' ms' ∧ new ∈ ms' ∧
    (∀ m, m ∈ ms → mx_in_progress env (mx_xid m) = true ∨
       ISUPDATE_from_mxstatus (mx_status m) = true ∧ mx_did_commit env (mx_xid m) = true → m ∈ ms') ∧
    (∀ m, m ∈ ms' → m = new ∨ m ∈ ms)).
Proof.
  intros new Hss Hver Hok Hc Hset Hmade Hlen Hv Hu Hroom. eapply post_mono; [by apply (expand_post _ _ _ T _ ms)|].
  intros multi' w' (T' & Ha & Hm & _). destruct (expanded_spec env ms new) as (Hnew & Hkeep & Hfrom & _).
  exists T', (expanded env ms new). split_and!; try done. intros m Hin Hi. apply Hkeep; [done|].
  unfold of_interest. by rewrite orb_true_iff, andb_true_iff.
Qed.

(** Crash recovery: replaying the record of a creation (in the order of the log, after
    the records that create the pages) makes the multixact again, with the members in the
    record, and moves the counters past it; the multixacts before it are as they
    were. *)
Theorem redo_replays_create env ms w T :
  mx_SS_STANDBY_MODE env = false → mx_ok w T → members_ok ms → mx_room w (Z.of_nat (length ms)) →
  is_Some (mx_word (moffsets w) (new_id w)) →
  (∀ j, nextOffset (MultiXactState w) ≤ j < new_offset w + Z.of_nat (length ms) → is_Some (mx_word (mmembers w) j)) →
  post (redo_create env (new_id w) (new_offset w) (GET_SLRU_XID_FROM_MULTIXACT_MEMBER <$> ms)) w
    (λ _ w', ∃ T', mx_ok w' T' ∧ made w' T' (new_id w) ms ∧ mx_extends (new_id w) T T' ∧
       new_id w' = new_id w + 1 ∧ nextOffset (MultiXactState w') = new_offset w + Z.of_nat (length ms) ∧
       mlocks w' = mlocks w).
Proof.
  intros Hss Hok Hms [Hr1 Hr2] Hpage Hroom.
  pose proof (inv_old _ _ _ _ _ _ Hok) as Hold. pose proof (inv_off_range _ _ _ _ _ _ Hok) as Hoff. fold (new_id w) in Hold.
  assert (PER = 1024) as HPER by done.
  assert (nextOffset (MultiXactState w) ≤ new_offset w ≤ nextOffset (MultiXactState w) + 1) as Hno
    by (unfold new_offset; destruct (Z.eqb_spec (nextOffset (MultiXactState w)) 0); lia).
  set (off' := new_offset w + Z.of_nat (length ms)) in *.
  assert (1 ≤ Z.of_nat (length ms)) as Hlen by (destruct Hms as [Hne _]; destruct ms; [done|cbn; lia]).
  assert (mx_inv (moffsets w) (mmembers w) (new_id w + 1) off' (oldestMultiXactId (MultiXactState w))
            (abs_take T (new_id w) (new_offset w) ms)) as Hinv.
  { apply (take_inv (moffsets w) (mmembers w)); try done; [unfold off', new_offset in *; lia|apply Hok| | |].
    - apply (inv_free _ _ _ _ _ _ Hok).
    - split_and!; [apply Hok|done|done|]. intros k Hk. apply Hroom. unfold off', new_offset in *. lia.
    - intros Hmod. apply mx_word_page. rewrite same_page by done. apply mx_word_page, Hroom.
      fold (new_offset w) off'. lia. }
  set (T1 := abs_take T (new_id w) (new_offset w) ms) in *.
  assert (next_id (new_id w + 1) = new_id w + 1) as Hid by (unfold next_id, FirstMultiXactId; lia).
  assert (mmem T1 (new_id w) = ms) as Hmem by (cbn; by rewrite decide_True).
  assert (mstart T1 (new_id w) = new_offset w) as Hst by (cbn; by rewrite decide_True).
  unfold redo_create. rewrite length_fmap. fold off'. apply post_bind. rewrite <- Hmem at 1. rewrite <- Hst at 1.
  eapply (record_post _ _ _ _ _ T1); [done|exact Hinv|rewrite Hid; lia|]. intros w2 Hok2 Hd2 _ Hl2.
  unfold MultiXactAdvanceNextMXact. rewrite !u64_small by lia.
  apply post_bind, post_acquire, post_bind, post_modify, post_bind, post_modify. eapply post_release; [done|].
  set (w3 := with_locks _ _). assert (MultiXactState w3 = set_next (new_id w + 1) off' (MultiXactState w)) as Hd3.
  { subst w3. cbn. rewrite Hd2. unfold MultiXactIdPrecedes.
    rewrite (proj2 (Z.ltb_lt (nextMXact _) _)) by (unfold new_id, next_id, FirstMultiXactId; lia). cbn.
    by rewrite (proj2 (Z.ltb_lt _ _)) by lia. }
  assert (new_id w3 = new_id w + 1) as Hid3 by (unfold new_id at 1; by rewrite Hd3).
  exists (abs_members (abs_offset T1 (new_id w)) (new_id w)). unfold mx_ok, made. rewrite Hid3, Hd3.
  split_and!; try done; try (cbn; lia); try (cbn -[T1]; by rewrite decide_True).
  intros m Hm. cbn. rewrite !decide_False by lia. done.
Qed.

(** *** Horizons *)

Lemma oldest_of_both_le members : ∀ visibles oldest,
  length members = length visibles →
  oldest_of_both oldest members visibles ≤ oldest ∧
  (∀ m, m ∈ members ∨ m ∈ visibles → MultiXactIdIsValid m = true → oldest_of_both oldest members visibles ≤ m) ∧
  (oldest_of_both oldest members visibles = oldest ∨
   ((oldest_of_both oldest members visibles ∈ members ∨ oldest_of_both oldest members visibles ∈ visibles) ∧
    MultiXactIdIsValid (oldest_of_both oldest members visibles) = true)).
Proof.
  induction members as [|m members IH]; intros [|v visibles] oldest Hl; cbn [oldest_of_both]; try done.
  { split_and!; [done| |by left]. intros m [Hm|Hm]; by apply elem_of_nil in Hm. }
  set (o1 := if MultiXactIdIsValid m && _ then m else oldest).
  set (o2 := if MultiXactIdIsValid v && _ then v else o1).
  assert (o1 ≤ oldest ∧ (MultiXactIdIsValid m = true → o1 ≤ m) ∧ (o1 = oldest ∨ (o1 = m ∧ MultiXactIdIsValid m = true))) as (H1 & H2 & H3).
  { subst o1. unfold MultiXactIdPrecedes. destruct (MultiXactIdIsValid m); cbn; [|by split_and!; [..|left]].
    destruct (Z.ltb_spec m oldest); split_and!; auto; lia. }
  assert (o2 ≤ o1 ∧ (MultiXactIdIsValid v = true → o2 ≤ v) ∧ (o2 = o1 ∨ (o2 = v ∧ MultiXactIdIsValid v = true))) as (H4 & H5 & H6).
  { subst o2. unfold MultiXactIdPrecedes. destruct (MultiXactIdIsValid v); cbn; [|by split_and!; [..|left]].
    destruct (Z.ltb_spec v o1); split_and!; auto; lia. }
  clearbody o1 o2. destruct (IH visibles o2) as (I1 & I2 & I3); [by injection Hl|]. split_and!.
  - lia.
  - intros k Hk Hv. rewrite !elem_of_cons in Hk. destruct Hk as [[-> |Hk]|[-> |Hk]].
    + specialize (H2 Hv). lia.
    + apply I2; auto.
    + specialize (H5 Hv). lia.
    + apply I2; auto.
  - rewrite !elem_of_cons. destruct I3 as [->|[I3 I4]]; [|right; tauto].
    destruct H6 as [->|[-> Hv]]; [|by right; auto]. destruct H3 as [->|[-> Hv]]; [by left|right; auto].
Qed.

(** The truncation horizon is safe: [GetOldestMultiXactId] is at most the next id
    and at most what any backend has announced as the oldest multixact it may be
    a member of or may look at, and is one of these; it changes nothing. *)
Theorem oldest_multixact_spec w :
  let d := MultiXactState w in
  length (OldestMemberMXactId d) = length (OldestVisibleMXactId d) →
  post GetOldestMultiXactId w (λ oldest w', w' = w ∧ oldest ≤ new_id w ∧
    (∀ b m, (0 < b)%nat → OldestMemberMXactId d !! b = Some m ∨ OldestVisibleMXactId d !! b = Some m →
       MultiXactIdIsValid m = true → oldest ≤ m) ∧
    (oldest = new_id w ∨ (MultiXactIdIsValid oldest = true ∧
       (oldest ∈ OldestMemberMXactId d ∨ oldest ∈ OldestVisibleMXactId d)))).
Proof.
  intros d Hl. unfold GetOldestMultiXactId.
  apply post_bind, post_acquire, post_bind, post_gets, post_bind, post_gets, post_bind.
  eapply post_release; [done|]. apply post_ret. split; [by destruct w|]. cbn [MultiXactState with_locks]. fold d.
  replace (if nextMXact d <? FirstMultiXactId then FirstMultiXactId else nextMXact d) with (new_id w)
    by (unfold new_id, next_id; fold d; destruct (Z.ltb_spec (nextMXact d) FirstMultiXactId); lia).
  destruct (oldest_of_both_le (tail (OldestMemberMXactId d)) (tail (OldestVisibleMXactId d)) (new_id w)) as (H1 & H2 & H3).
  { destruct (OldestMemberMXactId d), (OldestVisibleMXactId d); try done. by injection Hl. }
  assert (∀ (l : list Z) b m, (0 < b)%nat → l !! b = Some m → m ∈ tail l) as Ht.
  { intros [|x l] [|b] m ? Hb; [done|done|lia|]. by eapply list_elem_of_lookup_2. }
  assert (∀ (l : list Z) m, m ∈ tail l → m ∈ l) as Ht' by (intros [|x l] m Hm; [done|by right]).
  split_and!; [done| |].
  - intros b m Hb Hm Hv. apply H2; [|done]. destruct Hm as [Hm|Hm]; [left|right]; by eapply Ht.
  - destruct H3 as [->|[[Hm|Hm] Hv]]; [by left|right..]; (split; [done|]); auto.
Qed.

(** [TruncateMultiXact] cannot succeed once there is something to look at: it reads
    the page of the oldest multixact under the lock of its bank, then releases
    [MultiXactOffsetControlLock], which nobody holds. This raises an error: nothing is
    truncated, and the bank lock is still held. *)
Theorem truncate_releases_unheld env earliest trunc_offsets trunc_members oldest w :
  mx_SS_STANDBY_MODE env = false → slru_ok (moffsets w) →
  u64 (earliest * MULTIXACT_OFFSETS_PER_PAGE) ≤ oldest → is_Some (mx_word (moffsets w) oldest) →
  MultiXactOffsetControlLock ∉ mlocks w →
  ∃ o', same_words (moffsets w) o' ∧
    TruncateMultiXact env earliest trunc_offsets trunc_members oldest w =
      (Ereport ERROR, with_locks (offset_bank env (MultiXactIdToOffsetPage oldest) :: mlocks w) (with_moffsets o' w)).
Proof.
  intros Hss Hok Hle Hp Hl. apply mx_word_page in Hp.
  destruct (slru_read_only (moffsets w) (oldest / PER) Hok Hp) as (s & o' & Hr & Hok' & _ & Hv).
  exists o'. split; [by split|]. unfold TruncateMultiXact, MultiXactIdPrecedes. rewrite Hss, (proj2 (Z.ltb_ge _ _)) by done.
  unfold runs in Hr. unfold mbind, M_bind, LWLockAcquire, modify, on_offsets, MultiXactIdToOffsetPage, gets. cbn. rewrite Hr. cbn.
  unfold LWLockRelease. cbn. enough (drop_lock MultiXactOffsetControlLock (mlocks w) = None) as -> by done.
  induction (mlocks w) as [|l ls IH]; [done|]. apply not_elem_of_cons in Hl as [Hne Hl]. cbn.
  rewrite decide_False by done. by rewrite IH.
Qed.

End MultiXactProofs.

(** ** Concrete runs

    A backend makes multixact 1 from scratch; another one then takes id 2 and, while the
    first sleeps, writes its offset. *)

Abbreviation mx_store := (page_store MULTIXACT_OFFSETS_PER_PAGE).
Definition mx_empty_store : mx_store := {| ps_pages := ∅; ps_lsn := ∅ |}.

Definition mx_start : mx_state mx_store mx_store := {|
  moffsets := mx_empty_store; mmembers := mx_empty_store;
  MultiXactState := {| nextMXact := 1; nextOffset := 0; lastTruncationPoint := 0; oldestMultiXactId := 1;
                       OldestMemberMXactId := [0; 7; 0]; OldestVisibleMXactId := [0; 0; 5] |};
  MXactCache := []; MXactCacheMembers := 0; mlocks := [] |}.

Definition mx_demo_env (others : mx_state mx_store mx_store → mx_state mx_store mx_store) : mx_env mx_store mx_store := {|
  mx_bank_mask := 15; MyBackendId := 2; mx_SS_STANDBY_MODE := false; before_enhanced_tuple_lock := false;
  mx_is_current := λ _, false; mx_in_progress := λ x, x =? 20; mx_did_commit := λ x, x =? 10;
  others_meanwhile := others |}.

Definition mx_demo_members : list MultiXactMember :=
  [{| mx_xid := 20; mx_status := MultiXactStatusForShare |};
   {| mx_xid := 10; mx_status := MultiXactStatusForKeyShare |}].

Definition mx_demo_abs : mx_abs := {|
  mstart _ := 0; mmem _ := []; offset_set _ := false; members_set _ := false |}.

(** After the first creation, and after the second id was taken. *)
Definition mx_one : mx_state mx_store mx_store := (CreateMultiXactId (mx_demo_env id) mx_demo_members mx_start).2.
Definition mx_two_taken : mx_state mx_store mx_store := with_cache [] 0 (GetNewMultiXactId (mx_demo_env id) 2 mx_one).2.

Lemma mx_start_ok : mx_ok mx_start mx_demo_abs.
Proof. split; cbn; try done; try lia; intros; unfold next_id, FirstMultiXactId in *; lia. Qed.

Lemma mx_demo_input : input_ok mx_demo_members.
Proof. split_and!; [done| |by vm_compute; repeat constructor]. by repeat (constructor; [by split|]). Qed.

Lemma mx_one_made : ∃ T, mx_ok mx_one T ∧ mx_cache_ok mx_one T ∧ settled mx_one T ∧
  made mx_one T 1 (sort_members mx_demo_members).
Proof.
  destruct (create_post (mx_demo_env id) mx_demo_members mx_start mx_demo_abs) as (multi & w' & Hr & T & Ha & Hm & Hs);
    [done|done|apply mx_start_ok|by constructor|apply mx_demo_input|by vm_compute|].
  assert (w' = mx_one) as -> by (unfold mx_one; by rewrite Hr). unfold runs in Hr.
  assert (multi = 1) as -> by (apply (f_equal fst) in Hr; vm_compute in Hr; congruence).
  exists T. split_and!; [apply Ha|apply Ha| |done]. apply Hs. intros m Hlt. cbn in Hlt.
  unfold new_id, next_id in Hlt. cbn in Hlt. unfold FirstMultiXactId in Hlt. lia.
Qed.

Lemma mx_two_taken_ok : ∃ T, mx_ok mx_two_taken T ∧ made mx_two_taken T 1 (sort_members mx_demo_members) ∧
  mstart T 2 = 3.
Proof.
  destruct mx_one_made as (T1 & Hok & Hc & _ & (Hm & Hmem & Ho & Hs)).
  destruct (get_new_post (mx_demo_env id) (sort_members mx_demo_members) mx_one T1
    (λ r w, mx_ok w (abs_take T1 2 3 (sort_members mx_demo_members)) ∧
            oldestMultiXactId (MultiXactState w) = 1 ∧ new_id w = 3)) as (r & w & Hr & Hok2 & Hold & Hid).
  - done.
  - by apply input_sorted, mx_demo_input.
  - by vm_compute.
  - intros w' Hok' Hn Hold _ _. split_and!; [done|by rewrite Hold|]. unfold new_id, next_id. by rewrite Hn.
  - assert (mx_two_taken = with_cache [] 0 w) as -> by (unfold mx_two_taken; by rewrite Hr).
    exists (abs_take T1 2 3 (sort_members mx_demo_members)). split_and!; [done| |done].
    unfold made. cbn [with_cache MultiXactState]. change (new_id (with_cache [] 0 w)) with (new_id w).
    rewrite Hold, Hid. by split_and!.
Qed.

(** The other backend writes the offset of multixact 2. *)
Definition mx_other_writes (w : mx_state mx_store mx_store) : mx_state mx_store mx_store :=
  with_moffsets (mark_dirty (2 / MULTIXACT_OFFSETS_PER_PAGE) 0
    (page_set (2 / MULTIXACT_OFFSETS_PER_PAGE) 0 (2 mod MULTIXACT_OFFSETS_PER_PAGE) 3 (moffsets w))) w.

Lemma mx_other_later w T :
  mx_ok w T → oldestMultiXactId (MultiXactState w) ≤ 2 < new_id w → mstart T 2 = 3 →
  mx_later w T (mx_other_writes w) (abs_offset T 2).
Proof.
  intros Hok Hm Hst. assert (slru_at (moffsets w) (2 / MULTIXACT_OFFSETS_PER_PAGE) 0) as Hat.
  { split; [apply Hok|]. change (is_Some (slru_view (moffsets w) (2 / MULTIXACT_OFFSETS_PER_PAGE))).
    apply mx_word_page. by rewrite (inv_word _ _ _ _ _ _ Hok 2). }
  destruct (mx_word_write (moffsets w) 2 0 3 Hat) as (Hok' & _ & Hw).
  split_and!; try done.
  - apply (offset_inv (moffsets w)); try done. intros j. rewrite Hst. exact (Hw j).
  - intros m _. cbn. split_and!; try done. by case_decide.
Qed.

Lemma create_get_roundtrip_witness :
  post (CreateMultiXactId (mx_demo_env id) mx_demo_members) mx_start (λ multi w',
    post (GetMultiXactIdMembers 0 (mx_demo_env id) multi) (with_cache [] 0 w')
      (λ r _, r = Some (sort_members mx_demo_members))).
Proof.
  eapply post_mono; [apply (create_get_roundtrip (mx_demo_env id) (mx_demo_env id) 0 mx_demo_members mx_start mx_demo_abs)|].
  - done.
  - done.
  - apply mx_start_ok.
  - by constructor.
  - intros m Hm. unfold new_id, next_id in Hm. cbn in Hm. unfold FirstMultiXactId in Hm. lia.
  - apply mx_demo_input.
  - by vm_compute.
  - intros multi w' (T' & _ & _ & H). apply H; [by left|by vm_compute].
Defined.

Lemma get_members_concurrent_witness :
  post (GetMultiXactIdMembers 1 (mx_demo_env mx_other_writes) 1) mx_two_taken
    (λ r _, r = Some (sort_members mx_demo_members)).
Proof.
  destruct mx_two_taken_ok as (T & Hok & Hmade & Hst).
  assert (∀ w1 o', mx_later mx_two_taken T w1 T → same_words (moffsets w1) o' →
            mx_later w1 T (mx_other_writes (with_moffsets o' w1)) (abs_offset T 2)) as Hl.
  { intros w1 o' Hl1 Hs. pose proof (later_offsets w1 T o' ltac:(apply Hl1) Hs) as Hlo.
    eapply later_trans; [exact Hlo|]. apply mx_other_later; [apply Hlo| |done].
    destruct Hl1 as (_ & _ & Hn & Hold & _). cbn. change (new_id (with_moffsets o' w1)) with (new_id w1).
    rewrite Hold. change (new_id mx_two_taken) with 3 in Hn. vm_compute (oldestMultiXactId _). lia. }
  destruct (get_members_concurrent 1 (mx_demo_env mx_other_writes) mx_two_taken T 1 (sort_members mx_demo_members))
    as [_ Hlive].
  - intros w1 Hl1 _ o' Hs. exists (abs_offset T 2). split; [by apply Hl|done].
  - done.
  - by constructor.
  - done.
  - by vm_compute.
  - eapply post_mono; [apply Hlive|by intros r w' [-> _]].
    intros w1 Hl1 _. right. intros o' Hs. exists (abs_offset T 2). split; [by apply Hl|]. by left.
Defined.

Lemma expand_keeps_members_witness :
  post (MultiXactIdExpand 0 (mx_demo_env id) 1 30 MultiXactStatusUpdate) mx_one
    (λ multi' w', ∃ T' ms', made w' T' multi' ms' ∧
       {| mx_xid := 30; mx_status := MultiXactStatusUpdate |} ∈ ms' ∧
       {| mx_xid := 20; mx_status := MultiXactStatusForShare |} ∈ ms').
Proof.
  destruct mx_one_made as (T & Hok & Hc & Hset & Hmade).
  eapply post_mono; [apply (expand_keeps_members 0 (mx_demo_env id) mx_one T 1 (sort_members mx_demo_members) 30
                              MultiXactStatusUpdate)|].
  1-6: done.
  - by vm_compute.
  - by split.
  - vm_compute. repeat constructor.
  - by vm_compute.
  - intros multi' w' (T' & ms' & _ & Hm & Hnew & Hkeep & _). exists T', ms'. split_and!; [done..|].
    apply Hkeep; [|by left]. rewrite sort_members_perm. by left.
Defined.

Lemma oldest_multixact_spec_witness :
  post GetOldestMultiXactId (with_shared (set_next 9 1 (MultiXactState mx_start)) mx_start) (λ oldest _, oldest ≤ 5).
Proof.
  eapply post_mono; [apply (oldest_multixact_spec (with_shared (set_next 9 1 (MultiXactState mx_start)) mx_start)); done|].
  intros oldest w' (_ & _ & H & _). apply (H 2%nat); [lia|by right|done].
Defined.

(** The pages have been created by the replay of earlier records. *)
Definition mx_pages : mx_store :=
  {| ps_pages := {[ 0 := replicate (Z.to_nat MULTIXACT_OFFSETS_PER_PAGE) 0 ]}; ps_lsn := ∅ |}.
Definition mx_replaying : mx_state mx_store mx_store := with_mmembers mx_pages (with_moffsets mx_pages mx_start).

Lemma mx_replaying_ok : mx_ok mx_replaying mx_demo_abs.
Proof.
  assert (ps_ok mx_pages) as Hp.
  { intros p pg. cbn. rewrite lookup_singleton_Some. intros [_ <-]. by vm_compute. }
  split; cbn -[mx_word]; try done; try lia; try (intros; unfold next_id, FirstMultiXactId in *; lia).
  - intros m v _. unfold mx_word. cbn. destruct (decide (m / MULTIXACT_OFFSETS_PER_PAGE = 0)) as [->|];
      [|by rewrite lookup_singleton_ne].
    rewrite lookup_singleton_eq. unfold fmap, option_fmap, option_map. rewrite aget_replicate. by intros [= <-].
Qed.

Lemma redo_replays_create_witness :
  post (redo_create (mx_demo_env id) 1 1 (GET_SLRU_XID_FROM_MULTIXACT_MEMBER <$> sort_members mx_demo_members)) mx_replaying
    (λ _ w', ∃ T', made w' T' 1 (sort_members mx_demo_members)).
Proof.
  eapply post_mono; [apply (redo_replays_create (mx_demo_env id) (sort_members mx_demo_members) mx_replaying mx_demo_abs)|].
  - done.
  - apply mx_replaying_ok.
  - apply input_sorted, mx_demo_input.
  - by vm_compute.
  - vm_compute. eauto.
  - intros j Hj. vm_compute (nextOffset _) in Hj. vm_compute (new_offset _ + _) in Hj.
    assert (j = 0 ∨ j = 1 ∨ j = 2) as [-> |[-> | ->]] by lia; vm_compute; eauto.
  - intros _ w' (T' & _ & Hm & _). by exists T'.
Defined.

Lemma truncate_releases_unheld_witness :
  ∃ w', TruncateMultiXact (mx_demo_env id) 0 (λ _ w, w) (λ _ w, w) 1 mx_one = (Ereport ERROR, w').
Proof.
  destruct mx_one_made as (T & Hok & _).
  destruct (truncate_releases_unheld (mx_demo_env id) 0 (λ _ w, w) (λ _ w, w) 1 mx_one) as (o' & _ & H).
  - done.
  - apply Hok.
  - by vm_compute.
  - vm_compute. eauto.
  - vm_compute (mlocks mx_one). apply not_elem_of_nil.
  - eauto.
Defined.
