(* ===== verification/MultiXactStore.v ===== *)
(** * Multixacts on the SLRU cache

    The logs of [multixact.cpp] kept in the caches of [slru.cpp]: setting up shared
    memory ([MultiXactShmemInit]), installation ([BootStrapMultiXact]), the checkpoint
    ([CheckPointMultiXact], [MultiXactGetCheckptMulti], [ShutdownMultiXact]) and a
    restart from it, in the order of [StartupXLOG]. The theorem at the end composes
    [MultiXact.v], which knows the cache only by its contract, with [Slru.v] and
    [SlruRefinement.v]: a multixact outlives the server. *)

From S2P Require Import Prelude TransamDefs SlruInterface Slru SlruRefinement MultiXact.

Import Slru.

Abbreviation mx_cache := (slru MULTIXACT_OFFSETS_PER_PAGE).
Abbreviation mx_server := (mx_state mx_cache mx_cache).

(** ** Operations *)

(** The buffers of the two logs, the number of backends, whether pages can be written. *)
Record mx_setup := {
  MULTIXACT_OFFSET_BUFFERS : Z;
  MULTIXACT_MEMBER_BUFFERS : Z;
  MaxOldestSlot : Z;
  mx_writes : Z → bool;
}.

(** Banks are enabled, there are no LSNs and there is one partition; the shared state is
    zero. The files and their pages are what is found on disk. *)
Definition MultiXactShmemInit (cfg : mx_setup) (offsets members : gmap Z (list (list Z))) (opages mpages : gset Z) : mx_server := {|
  moffsets := SimpleLruInit (MULTIXACT_OFFSET_BUFFERS cfg) 0 true 1 false (mx_writes cfg) offsets opages;
  mmembers := SimpleLruInit (MULTIXACT_MEMBER_BUFFERS cfg) 0 true 1 false (mx_writes cfg) members mpages;
  MultiXactState := {| nextMXact := 0; nextOffset := 0; lastTruncationPoint := 0; oldestMultiXactId := 0;
                       OldestMemberMXactId := replicate (Z.to_nat (MaxOldestSlot cfg)) 0;
                       OldestVisibleMXactId := replicate (Z.to_nat (MaxOldestSlot cfg)) 0 |};
  MXactCache := []; MXactCacheMembers := 0; mlocks := [] |}.

Definition BootStrapMultiXact (env : mx_env mx_cache mx_cache) : M mx_server unit :=
  LWLockAcquire (offset_bank env 0) ≫= λ _,
  slotno ← ZeroMultiXactOffsetPage 0;
  on_offsets (SimpleLruWritePage slotno) ≫= λ _,
  LWLockRelease (offset_bank env 0) ≫= λ _,
  LWLockAcquire (member_bank env 0) ≫= λ _,
  slotno ← ZeroMultiXactMemberPage 0;
  on_members (SimpleLruWritePage slotno) ≫= λ _,
  LWLockRelease (member_bank env 0).

Definition MultiXactGetCheckptMulti : M mx_server (Z * Z) :=
  LWLockAcquire MultiXactGenLock ≫= λ _,
  next ← shared nextMXact;
  off ← shared nextOffset;
  LWLockRelease MultiXactGenLock ≫= λ _,
  mret (next, off).

(** The number of files flushed. *)
Definition CheckPointMultiXact : M mx_server Z :=
  n1 ← on_offsets SimpleLruFlush;
  n2 ← on_members SimpleLruFlush;
  mret (n1 + n2).

Definition ShutdownMultiXact : M mx_server unit :=
  on_offsets SimpleLruFlush ≫= λ _,
  on_members SimpleLruFlush ≫= λ _,
  skip.

(** But for the vacuum limit, which only decides when to ask for an autovacuum. *)
Definition SetMultiXactIdLimit (oldest_datminmxid : Z) : M mx_server unit :=
  LWLockAcquire MultiXactGenLock ≫= λ _,
  on_shared (set_oldest oldest_datminmxid) ≫= λ _,
  LWLockRelease MultiXactGenLock.

Definition MultiXactAdvanceOldest (oldestMulti : Z) : M mx_server unit :=
  oldest ← shared oldestMultiXactId;
  if MultiXactIdPrecedes oldest oldestMulti then SetMultiXactIdLimit oldestMulti else skip.

(** What the checkpoint record says of the multixacts. *)
Definition CreateCheckPoint_multixact : M mx_server (Z * Z) :=
  next ← MultiXactGetCheckptMulti;
  CheckPointMultiXact ≫= λ _,
  mret next.

(** [StartupXLOG], with no record after the checkpoint: the counters and the limit at
    lines 9899 to 9901, the logs at line 11067. *)
Definition StartupXLOG_multixact (env : mx_env mx_cache mx_cache) (record : Z * Z) : M mx_server unit :=
  MultiXactSetNextMXact record.1 record.2 ≫= λ _,
  SetMultiXactIdLimit FirstMultiXactId ≫= λ _,
  StartupMultiXact env.

(** Shared memory and the caches of the backends are gone, the files are left. *)
Definition crash (cfg : mx_setup) (w : mx_server) : mx_server :=
  MultiXactShmemInit cfg (segments (moffsets w)) (segments (mmembers w)) (initialized (moffsets w)) (initialized (mmembers w)).

(** ** The rest of a page is zeroed at startup *)

Lemma runs_for_each_modify {S A} (g : A → S → S) l s :
  runs (for_each (λ e, modify (g e)) l) s tt (fold_left (λ s e, g e s) l s).
Proof.
  revert s. induction l as [|e l IH]; intros s; cbn [for_each fold_left]; [done|].
  eapply runs_bind; [apply runs_modify|apply IH].
Qed.

Section Startup.
Context {SO SM : Type} `{!SlruOps SO} `{!SlruOps SM}.
Context `{!SlruSpec SO MULTIXACT_OFFSETS_PER_PAGE} `{!SlruSpec SM MULTIXACT_OFFSETS_PER_PAGE}.
Implicit Types (w : mx_state SO SM) (env : mx_env SO SM).

Abbreviation PER := MULTIXACT_OFFSETS_PER_PAGE.

Definition zero_entries {S} `{SlruOps S} (p s : Z) (l : list Z) (st : S) : S :=
  fold_left (λ st e, page_set p s e 0 st) l st.

Lemma zero_entries_words {S} `{SlruSpec S PER} (st : S) p s l :
  slru_at st p s → (∀ e, e ∈ l → 0 ≤ e < PER) →
  slru_at (zero_entries p s l st) p s ∧
  ∀ j, mx_word (zero_entries p s l st) j = if decide (j / PER = p ∧ j mod PER ∈ l) then Some 0 else mx_word st j.
Proof.
  revert st. induction l as [|e l IH]; intros st Hat Hl; cbn [zero_entries fold_left].
  { split; [done|]. intros j. rewrite decide_False; [done|]. by intros [_ ?%elem_of_nil]. }
  destruct (slru_at_view _ _ _ Hat) as [pg Hpg]. pose proof (slru_at_length _ _ _ _ Hat Hpg) as Hlen.
  assert (0 ≤ e < PER) as He by (apply Hl; left).
  destruct (slru_set _ _ _ _ e 0 Hat Hpg He) as (Hat1 & Hv1 & Ho1).
  destruct (IH _ Hat1) as [Hat2 Hw2]; [intros e' He'; apply Hl; by right|]. split; [done|].
  intros j. fold (zero_entries p s l (page_set p s e 0 st)). rewrite Hw2.
  assert (mx_word (page_set p s e 0 st) j = if decide (j / PER = p ∧ j mod PER = e) then Some 0 else mx_word st j) as ->.
  { unfold mx_word. case_decide as Hj.
    - destruct Hj as [-> ->]. rewrite Hv1. cbn. by rewrite aget_aset_eq by (rewrite Hlen; lia).
    - destruct (decide (j / PER = p)) as [E|Hne]; [|by rewrite Ho1]. rewrite E, Hv1, Hpg. cbn.
      rewrite aget_aset_ne; [done|lia|apply mx_entry_range|]. intros Heq. by apply Hj. }
  destruct (decide (j / PER = p ∧ j mod PER ∈ l)) as [[? ?]|H1].
  - rewrite decide_True; [done|]. split; [done|by right].
  - destruct (decide (j / PER = p ∧ j mod PER = e)) as [[? ?]|H2].
    + rewrite decide_True; [done|]. split; [done|]. apply elem_of_cons. by left.
    + rewrite decide_False; [done|]. intros [Hp [? |?]%elem_of_cons]; auto.
Qed.

(** The words of the page of [k] from [k] on. *)
Definition cleared {S} `{SlruOps S} `{!SlruSpec S PER} (k : Z) (st st' : S) : Prop :=
  slru_ok st' ∧
  ∀ j, mx_word st' j = if decide (k mod PER ≠ 0 ∧ j / PER = k / PER ∧ k ≤ j) then Some 0 else mx_word st j.

Lemma cleared_tail {S} `{O : SlruOps S} `{!SlruSpec S PER} (st : S) k s :
  slru_at st (k / PER) s → k mod PER ≠ 0 →
  cleared k st (mark_dirty (k / PER) s (zero_entries (k / PER) s (seqZ (k mod PER) (PER - k mod PER)) st)).
Proof.
  intros Hat Hk. pose proof (mx_entry_range k) as Hr.
  destruct (zero_entries_words st (k / PER) s (seqZ (k mod PER) (PER - k mod PER)) Hat) as [Hat1 Hw].
  { intros e He%elem_of_seqZ. lia. }
  destruct (slru_dirty _ _ _ Hat1) as [Hok Hv]. split; [done|]. intros j.
  transitivity (mx_word (zero_entries (k / PER) s (seqZ (k mod PER) (PER - k mod PER)) st) j); [unfold mx_word; by rewrite Hv|].
  rewrite Hw. pose proof (mx_entry_range j). pose proof (Z.div_mod j PER ltac:(done)). pose proof (Z.div_mod k PER ltac:(done)).
  apply decide_ext. rewrite elem_of_seqZ. split; intros Hx; split_and!; try lia.
Qed.

Lemma fold_moffsets p s l w :
  fold_left (λ w e, with_moffsets (page_set p s e 0 (moffsets w)) w) l w = with_moffsets (zero_entries p s l (moffsets w)) w.
Proof. revert w. induction l as [|e l IH]; intros w; cbn; [by destruct w|]. by rewrite IH. Qed.

Lemma fold_mmembers p s l w :
  fold_left (λ w e, with_mmembers (page_set p s e 0 (mmembers w)) w) l w = with_mmembers (zero_entries p s l (mmembers w)) w.
Proof. revert w. induction l as [|e l IH]; intros w; cbn; [by destruct w|]. by rewrite IH. Qed.

Lemma cleared_refl {S} `{O : SlruOps S} `{!SlruSpec S PER} (st : S) k : slru_ok st → k mod PER = 0 → cleared k st st.
Proof. intros Hok Hk. split; [done|]. intros j. by rewrite decide_False by tauto. Qed.

Lemma cleared_same {S} `{O : SlruOps S} `{!SlruSpec S PER} (st st1 st2 : S) k :
  same_words st st1 → cleared k st1 st2 → cleared k st st2.
Proof. intros Hs [Hok Hw]. split; [done|]. intros j. rewrite Hw. by rewrite (mx_word_same _ _ _ Hs). Qed.

(** [StartupMultiXact] clears what comes after the counters. *)
Lemma startup_post env w (Q : unit → mx_state SO SM → Prop) :
  let k := nextMXact (MultiXactState w) in let off := nextOffset (MultiXactState w) in
  slru_ok (moffsets w) → slru_ok (mmembers w) →
  (k mod PER ≠ 0 → is_Some (mx_word (moffsets w) k)) → (off mod PER ≠ 0 → is_Some (mx_word (mmembers w) off)) →
  (∀ o mm, cleared k (moffsets w) o → cleared off (mmembers w) mm →
     Q tt (with_shared (set_truncation InvalidMultiXactId (MultiXactState w)) (with_mmembers mm (with_moffsets o w)))) →
  post (StartupMultiXact env) w Q.
Proof.
  intros k off Hok Hmk Hk Hoff HQ. unfold StartupMultiXact, shared, on_shared.
  unfold MultiXactIdToOffsetPage, MultiXactIdToOffsetEntry, MXOffsetToMemberPage, MXOffsetToMemberEntry.
  change MULTIXACT_MEMBERS_PER_PAGE with PER.
  apply post_bind, post_gets, post_bind, post_gets. fold k off. cbv zeta.
  destruct (slru_latest (moffsets w) (k / PER) (k / PER) Hok) as [Hok1 Hv1].
  apply post_bind, post_modify. set (o1 := set_latest_page_number _ _ (moffsets w)).
  assert (same_words (moffsets w) o1) as Hs1 by by split.
  assert (∀ o, cleared k (moffsets w) o → post (
    modify (λ w0, with_mmembers (set_latest_page_number (off / PER) (off / PER) (mmembers w0)) w0) ≫= λ _,
    (if off mod PER =? 0 then skip
     else LWLockAcquire (member_bank env (off / PER)) ≫= λ _,
      slotno ← on_members (SlruInterface.SimpleLruReadPage (off / PER) true);
      for_each (λ e, modify (λ w0, with_mmembers (page_set (off / PER) slotno e 0 (mmembers w0)) w0))
        (seqZ (off mod PER) (PER - off mod PER)) ≫= λ _,
      modify (λ w0, with_mmembers (mark_dirty (off / PER) slotno (mmembers w0)) w0) ≫= λ _,
      LWLockRelease (member_bank env (off / PER))) ≫= λ _,
    modify (λ w0, with_shared (set_truncation InvalidMultiXactId (MultiXactState w0)) w0)) (with_moffsets o w) Q) as Hrest.
  { intros o Ho. destruct (slru_latest (mmembers w) (off / PER) (off / PER) Hmk) as [Hok2 Hv2].
    apply post_bind, post_modify, post_bind. set (m1 := set_latest_page_number _ _ (mmembers (with_moffsets o w))).
    assert (same_words (mmembers w) m1) as Hs2 by by split. destruct (Z.eqb_spec (off mod PER) 0) as [He|He].
    - apply post_skip, post_modify. apply (HQ o m1 Ho). eapply cleared_same; [done|]. by apply cleared_refl.
    - apply post_bind, post_acquire, post_bind, post_on_members, mx_read_post; [done| |].
      { cbn. change (is_Some (SlruInterface.slru_view m1 (off / PER))). rewrite (proj2 Hs2). apply mx_word_page. by apply Hoff. }
      intros s m2 Hs3 Hat. apply post_bind. eapply post_runs; [apply runs_for_each_modify|]. cbn beta. rewrite fold_mmembers.
      apply post_bind, post_modify. eapply post_release; [done|]. apply post_modify. cbn -[m1].
      refine (HQ o _ Ho _). eapply cleared_same; [exact Hs2|]. eapply cleared_same; [exact Hs3|]. by apply cleared_tail. }
  apply post_bind. destruct (Z.eqb_spec (k mod PER) 0) as [He|He].
  - apply post_skip. apply (Hrest o1). eapply cleared_same; [done|]. by apply cleared_refl.
  - apply post_bind, post_acquire, post_bind, post_on_offsets, mx_read_post; [done| |].
    { cbn. change (is_Some (SlruInterface.slru_view o1 (k / PER))). rewrite (proj2 Hs1). apply mx_word_page. by apply Hk. }
    intros s o2 Hs3 Hat. apply post_bind. eapply post_runs; [apply runs_for_each_modify|]. cbn beta. rewrite fold_moffsets.
    apply post_bind, post_modify. eapply post_release; [done|]. cbn -[o1].
    refine (Hrest _ _). eapply cleared_same; [exact Hs1|]. eapply cleared_same; [exact Hs3|]. by apply cleared_tail.
Qed.

Lemma cleared_is_Some {S} `{O : SlruOps S} `{!SlruSpec S PER} (st st' : S) k j :
  cleared k st st' → is_Some (mx_word st j) → is_Some (mx_word st' j).
Proof. intros [_ ->] H. by case_decide. Qed.

Lemma cleared_before {S} `{O : SlruOps S} `{!SlruSpec S PER} (st st' : S) k j :
  cleared k st st' → j < k → mx_word st' j = mx_word st j.
Proof. intros [_ ->] H. rewrite decide_False; [done|]. lia. Qed.

(** What is cleared was not in use. *)
Lemma cleared_inv (o o' : SO) (mm mm' : SM) next off old T :
  1 ≤ next → mx_inv o mm next off old T → cleared next o o' → cleared off mm mm' → mx_inv o' mm' next off old T.
Proof.
  intros Hn H Ho Hm. assert (next_id next = next) as Hid by (unfold next_id, FirstMultiXactId; lia).
  split; try apply H; [apply Ho|apply Hm|..].
  - intros m Hm'. rewrite (cleared_before _ _ _ _ Ho) by lia. by apply (inv_word _ _ _ _ _ _ H).
  - intros m v Hm' Hv. rewrite (proj2 Ho) in Hv. case_decide; [congruence|]. by eapply (inv_free _ _ _ _ _ _ H).
  - intros m j Hm' Hj. eapply cleared_is_Some; [done|]. by eapply (inv_room _ _ _ _ _ _ H).
  - intros m i x Hm' Hs Hx. destruct (inv_extent _ _ _ _ _ _ _ H Hm') as (? & ? & ?). pose proof (lookup_lt_Some _ _ _ Hx).
    rewrite (cleared_before _ _ _ _ Hm) by lia. by apply (inv_member _ _ _ _ _ _ H).
  - intros. eapply cleared_is_Some; [done|]. by apply (MultiXact.inv_page _ _ _ _ _ _ H).
  - intros. eapply cleared_is_Some; [done|]. by apply (inv_mpage _ _ _ _ _ _ H).
Qed.
End Startup.

(** ** A restart *)

Definition good_setup (cfg : mx_setup) : Prop :=
  good_slots (MULTIXACT_OFFSET_BUFFERS cfg) true ∧ good_slots (MULTIXACT_MEMBER_BUFFERS cfg) true ∧ ∀ p, mx_writes cfg p = true.

(** The checkpoint changes nothing, and what the caches show is in the files. *)
Lemma checkpoint_post (w : mx_server) (Q : Z * Z → mx_server → Prop) :
  slru_inv None (moffsets w) → slru_inv None (mmembers w) →
  (∀ o mm, kept (moffsets w) o → (∀ p, p ∈ initialized (moffsets w) → disk_page o p = Slru.slru_view (moffsets w) p) →
     kept (mmembers w) mm → (∀ p, p ∈ initialized (mmembers w) → disk_page mm p = Slru.slru_view (mmembers w) p) →
     Q (nextMXact (MultiXactState w), nextOffset (MultiXactState w)) (with_mmembers mm (with_moffsets o w))) →
  post CreateCheckPoint_multixact w Q.
Proof.
  intros Ho Hm HQ. unfold CreateCheckPoint_multixact, MultiXactGetCheckptMulti, CheckPointMultiXact, shared.
  apply post_bind, post_bind, post_acquire, post_bind, post_gets, post_bind, post_gets, post_bind.
  eapply post_release; [done|]. apply post_ret.
  replace (with_locks _ (with_locks _ w)) with w by (by destruct w).
  apply post_bind, post_bind, post_on_offsets, flush_post; [done|]. intros n1 o Hko Hdo.
  apply post_bind, post_on_members, flush_post; [done|]. intros n2 mm Hkm Hdm. apply post_ret, post_ret. by apply HQ.
Qed.

(** After the crash, the counters from the record, and startup: as before. *)
Lemma restart_post cfg env (w w1 : mx_server) T (Q : unit → mx_server → Prop) :
  good_setup cfg → mx_ok w T → 1 ≤ nextMXact (MultiXactState w) → oldestMultiXactId (MultiXactState w) = FirstMultiXactId →
  nextMXact (MultiXactState w) ≠ 1 →
  kept (moffsets w) (moffsets w1) → (∀ p, p ∈ initialized (moffsets w) → disk_page (moffsets w1) p = Slru.slru_view (moffsets w) p) →
  kept (mmembers w) (mmembers w1) → (∀ p, p ∈ initialized (mmembers w) → disk_page (mmembers w1) p = Slru.slru_view (mmembers w) p) →
  (∀ w2, mx_ok w2 T → MXactCache w2 = [] → nextMXact (MultiXactState w2) = nextMXact (MultiXactState w) →
     nextOffset (MultiXactState w2) = nextOffset (MultiXactState w) →
     oldestMultiXactId (MultiXactState w2) = oldestMultiXactId (MultiXactState w) → Q tt w2) →
  post (StartupXLOG_multixact env (nextMXact (MultiXactState w), nextOffset (MultiXactState w))) (crash cfg w1) Q.
Proof.
  intros (Hg1 & Hg2 & Hw) Hok Hn Hold Hpage Hko Hdo Hkm Hdm HQ.
  set (next := nextMXact (MultiXactState w)) in *. set (off := nextOffset (MultiXactState w)) in *.
  pose proof (flushed_restart _ _ (MULTIXACT_OFFSET_BUFFERS cfg) 0 true 1 false (mx_writes cfg) (inv_offs _ _ _ _ _ _ Hok) Hko Hdo Hg1 Hw) as Hso.
  pose proof (flushed_restart _ _ (MULTIXACT_MEMBER_BUFFERS cfg) 0 true 1 false (mx_writes cfg) (inv_mems _ _ _ _ _ _ Hok) Hkm Hdm Hg2 Hw) as Hsm.
  set (o1 := moffsets (crash cfg w1)). set (m1 := mmembers (crash cfg w1)).
  assert (same_words (moffsets w) o1) as So by exact Hso. assert (same_words (mmembers w) m1) as Sm by exact Hsm.
  pose proof (inv_same _ _ _ _ _ _ _ _ So Sm Hok) as Hinv. fold next off in Hinv.
  unfold StartupXLOG_multixact, MultiXactSetNextMXact, SetMultiXactIdLimit, on_shared. cbn [fst snd].
  apply post_bind, post_bind, post_acquire, post_bind, post_modify. eapply post_release; [done|].
  apply post_bind, post_bind, post_acquire, post_bind, post_modify. eapply post_release; [done|].
  apply startup_post; [apply So|apply Sm| | |].
  - intros Hmod. change (is_Some (mx_word o1 next)). assert (next_id next = next) as Hid by (unfold next_id, FirstMultiXactId; lia).
    pose proof (MultiXact.inv_page _ _ _ _ _ _ Hinv) as Hp. rewrite Hid in Hp. by apply Hp.
  - intros Hmod. change (is_Some (mx_word m1 off)). by apply (inv_mpage _ _ _ _ _ _ Hinv).
  - intros o2 m2 Hco Hcm. apply HQ; try done. unfold mx_ok. cbn. rewrite <- Hold. by eapply cleared_inv.
Qed.

(** C29: A multixact outlives the server. The logs are in SLRU caches; a checkpoint is made
    while no creation is under way, and then shared memory is lost. After a restart from the
    checkpoint, with caches of whatever size, both counters, the next id and the next offset
    of members, are what they were, the oldest id is the first, and [GetMultiXactIdMembers]
    of every multixact made before returns its members. The hypothesis on the oldest id: VACUUM
    has not removed multixacts yet (the startup sets the limit back to the first id). *)
Theorem multixact_survives_restart cfg env fuel (w : mx_server) T multi ms :
  good_setup cfg → mx_ok w T → settled w T → made w T multi ms → Z.of_nat (length ms) < 2 ^ 31 →
  oldestMultiXactId (MultiXactState w) = FirstMultiXactId →
  post CreateCheckPoint_multixact w (λ record w1,
    post (StartupXLOG_multixact env record) (crash cfg w1) (λ _ w2,
      nextMXact (MultiXactState w2) = nextMXact (MultiXactState w) ∧
      nextOffset (MultiXactState w2) = nextOffset (MultiXactState w) ∧
      oldestMultiXactId (MultiXactState w2) = FirstMultiXactId ∧
      post (GetMultiXactIdMembers fuel env multi) w2 (λ r _, r = Some ms))).
Proof.
  intros Hcfg Hok Hset Hmade Hlen Hold. pose proof Hmade as (Hm & Hrest).
  pose proof (inv_old _ _ _ _ _ _ Hok) as [Hlow _].
  assert (1 < nextMXact (MultiXactState w)) as Hn by (unfold new_id, next_id, FirstMultiXactId in *; lia).
  apply checkpoint_post; [apply Hok..|]. intros o mm Hko Hdo Hkm Hdm.
  eapply (restart_post _ _ w _ T); try done; [lia..|]. intros w2 Hok2 Hc2 Hnext2 Hoff2 Hold2.
  assert (new_id w2 = new_id w) as Hid2 by (unfold new_id; by rewrite Hnext2).
  split_and!; [done..|by rewrite Hold2|].
  eapply post_mono; [apply (get_members_post fuel env w2 T multi ms Hok2)|by intros r w3 (-> & _)]; try done.
  - unfold mx_cache_ok. by rewrite Hc2.
  - unfold made. by rewrite Hid2, Hold2.
  - rewrite Hid2. intros Hlt. apply Hset. lia.
Qed.

(** ** An instance

    Two logs of one page each, as an installation leaves them; a multixact is made. *)

Definition demo_setup : mx_setup := {|
  MULTIXACT_OFFSET_BUFFERS := 16; MULTIXACT_MEMBER_BUFFERS := 32; MaxOldestSlot := 3; mx_writes := λ _, true |}.

Definition one_page : gmap Z (list (list Z)) := {[ 0 := [replicate (Z.to_nat MULTIXACT_OFFSETS_PER_PAGE) 0] ]}.

Definition demo_server_env : mx_env mx_cache mx_cache := {|
  mx_bank_mask := 0; MyBackendId := 2; mx_SS_STANDBY_MODE := false; before_enhanced_tuple_lock := false;
  mx_is_current := λ _, false; mx_in_progress := λ _, false; mx_did_commit := λ _, false; others_meanwhile := id |}.

Definition installed : mx_server :=
  with_shared (set_oldest 1 (set_next 1 0 (MultiXactState (MultiXactShmemInit demo_setup one_page one_page {[0]} {[0]}))))
    (MultiXactShmemInit demo_setup one_page one_page {[0]} {[0]}).
Definition in_use : mx_server := (CreateMultiXactId demo_server_env mx_demo_members installed).2.

Lemma installed_cache nslots :
  good_slots nslots true → slru_inv None (SimpleLruInit (ncells := MULTIXACT_OFFSETS_PER_PAGE) nslots 0 true 1 false (λ _, true) one_page {[0]}).
Proof.
  intros Hg. apply init_inv; [done..|]. intros p ->%elem_of_singleton. split; [done|].
  exists (replicate (Z.to_nat MULTIXACT_OFFSETS_PER_PAGE) 0). split; [done|]. by rewrite length_replicate.
Qed.

Lemma installed_word nslots k v :
  mx_word (SimpleLruInit (ncells := MULTIXACT_OFFSETS_PER_PAGE) nslots 0 true 1 false (λ _, true) one_page {[0]}) k = Some v → v = 0.
Proof.
  unfold mx_word. intros (pg & Hp & ->)%fmap_Some.
  pose proof (view_known _ _ (mk_is_Some _ _ Hp)) as Hk. cbn in Hk. apply elem_of_singleton in Hk.
  rewrite Hk in Hp. injection (eq_trans (eq_sym (init_view nslots 0 true 1 false (λ _, true) one_page {[0]} 0 ltac:(set_solver))) Hp) as <-.
  apply aget_replicate.
Qed.

Lemma installed_ok : mx_ok installed mx_demo_abs.
Proof.
  split; try done; try lia; try (intros; unfold next_id, FirstMultiXactId in *; cbn in *; lia).
  - by apply installed_cache.
  - by apply installed_cache.
  - intros m v _. apply installed_word.
Qed.

Lemma in_use_made : ∃ T, mx_ok in_use T ∧ settled in_use T ∧ made in_use T 1 (sort_members mx_demo_members).
Proof.
  destruct (create_post demo_server_env mx_demo_members installed mx_demo_abs) as (multi & w' & Hr & T & Ha & Hm & Hs);
    [done|done|apply installed_ok|by constructor|apply mx_demo_input|by vm_compute|].
  assert (w' = in_use) as -> by (unfold in_use; by rewrite Hr). unfold runs in Hr.
  assert (multi = 1) as -> by (apply (f_equal fst) in Hr; vm_compute in Hr; congruence).
  exists T. split_and!; [apply Ha| |done]. apply Hs. intros m Hlt. unfold new_id, next_id, FirstMultiXactId in Hlt. cbn in Hlt. lia.
Qed.

Lemma in_use_counters :
  nextMXact (MultiXactState in_use) = 2 ∧ nextOffset (MultiXactState in_use) = 3 ∧
  oldestMultiXactId (MultiXactState in_use) = FirstMultiXactId.
Proof. split_and!; vm_compute; reflexivity. Qed.

Lemma multixact_survives_restart_witness :
  (nextMXact (MultiXactState in_use) = 2 ∧ nextOffset (MultiXactState in_use) = 3) ∧
  post CreateCheckPoint_multixact in_use (λ record w1,
    post (StartupXLOG_multixact demo_server_env record) (crash demo_setup w1) (λ _ w2,
      nextMXact (MultiXactState w2) = nextMXact (MultiXactState in_use) ∧
      nextOffset (MultiXactState w2) = nextOffset (MultiXactState in_use) ∧
      oldestMultiXactId (MultiXactState w2) = FirstMultiXactId ∧
      post (GetMultiXactIdMembers 0 demo_server_env 1) w2 (λ r _, r = Some (sort_members mx_demo_members)))).
Proof.
  assert (good_setup demo_setup) as Hcfg by by split_and!.
  destruct in_use_made as (T & Hok & Hset & Hmade). destruct in_use_counters as (Hn & Hoff & Hold).
  split; [exact (conj Hn Hoff)|].
  apply (multixact_survives_restart demo_setup demo_server_env 0 in_use T 1 (sort_members mx_demo_members)
    Hcfg Hok Hset Hmade); [vm_compute; reflexivity|exact Hold].
Defined.
