(* ===== verification/HeapVisibility.v ===== *)
(** * Tuple visibility

    [src/gausskernel/storage/access/heap/heapam_visibility.cpp]: whether a heap
    tuple satisfies a time qualification, for every kind of snapshot, and what
    VACUUM and UPDATE may do with it; with the hint bits these tests leave in the
    header.

    The tests ask the transaction manager about the xids of the tuple. They are
    written against its interface, [xact_mgr], whose laws are in
    [VisibilitySpec.v]; [HeapManager.v] discharges the interface with the code of
    [Transam.v] and [Snapshot.v]. The server is built without
    [ENABLE_MULTIPLE_NODES] and without assertions. *)

From S2P Require Import Prelude TransamDefs SlruInterface Clog CsnLog Transam Snapshot HeapTuple ComboCid MultiXact.

(** A condition that is itself a computation. *)
Notation "'If' c 'Then' a 'Else' b" := (mbind (λ x : bool, if x then a else b) c)
  (at level 10, c at level 200, a at level 200, b at level 200).

Section HeapVisibility.
Context {W : Type}.

(** What the tests call in the transaction manager, over its state [W]. The
    operations that may wait for a transaction to end return last whether they
    did. *)
Record xact_mgr := {
  mgr_is_current : Z → bool;                       (* TransactionIdIsCurrentTransactionId *)
  mgr_in_progress : Z → M W bool;                  (* TransactionIdIsInProgress(xid) *)
  mgr_in_progress_sync : Z → M W (bool * bool);    (* ...(xid, &needSync, false, false, false) *)
  mgr_did_commit : Z → M W bool;                   (* TransactionIdDidCommit *)
  mgr_did_abort : Z → M W bool;                    (* LatestFetchTransactionIdDidAbort *)
  mgr_csn_did_abort : Z → M W bool;                (* LatestFetchCSNDidAbort *)
  mgr_get_status : Z → M W TransactionIdStatus;    (* TransactionIdGetStatus *)
  mgr_commit_lsn : Z → M W Z;                      (* TransactionIdGetCommitLSN *)
  mgr_xid_visible : Z → SnapshotData → M W visible_result;      (* XidVisibleInSnapshot *)
  mgr_committed_visible : Z → SnapshotData → M W (bool * bool); (* CommittedXidVisibleInSnapshot *)
  mgr_decode_visible : Z → SnapshotData → M W visible_result;   (* XidVisibleInDecodeSnapshot *)
  mgr_committed_decode : Z → SnapshotData → M W bool;           (* CommittedXidVisibleInDecodeSnapshot *)
  mgr_gtm_lite : Z → SnapshotData → TransactionIdStatus → bool → M W (bool * bool);
                                                   (* IsXidVisibleInGtmLiteLocalSnapshot *)
  mgr_sync_wait : Z → M W unit;                    (* SyncWaitXidEnd *)
  mgr_members : Z → M W (list MultiXactMember);    (* GetMultiXactIdMembers *)
}.

(** The session and the node. [others w h] is what other backends have made of the
    header [h] while the buffer was unlocked. *)
Record heap_env := {
  h_combo : combo_env;
  h_useLocalSnapshot : bool;
  h_RecoveryInProgress : bool;
  h_IsRoachStandbyCluster : bool;
  XACT_READ_UNCOMMITTED : bool;
  enable_cluster_resize : bool;
  h_SS_STANDBY_MODE : bool;
  h_GTM_LITE_MODE : bool;
  h_xc_maintenance_mode : bool;
  XactReadOnly : bool;
  enable_show_any_tuples : bool;
  IsInitdb : bool;
  IsolationUsesXactSnapshot : bool;
  GetCurrentCommandId : Z;
  BufferIsPermanent : bool;
  BufferGetLSNAtomic : Z;
  XLogNeedsFlush : Z → bool;
  ResolveCminCmaxDuringDecoding : HeapTupleData → option (Z * Z);
  others : W → HeapTupleHeaderData → HeapTupleHeaderData;
}.

(** The state of a test: the transaction manager, the session's combo cids, the
    tuple in its page, whether the buffer has been marked dirty, the xids a dirty
    snapshot hands out, and [*has_cur_xact_write] ([None]: a NULL pointer). *)
Record vstate := {
  world : W;
  combo : combo_state;
  page : HeapPageHeaderData;
  htup : HeapTupleData;
  buf_dirty : bool;
  dirty_xmin : Z;
  dirty_xmax : Z;
  cur_write : option bool;
}.

Context (mgr : xact_mgr) (env : heap_env).
Implicit Types (s : vstate) (snapshot : SnapshotData).

(** *** Access to the parts of the state *)

Definition set_world (w : W) s : vstate :=
  {| world := w; combo := combo s; page := page s; htup := htup s; buf_dirty := buf_dirty s;
     dirty_xmin := dirty_xmin s; dirty_xmax := dirty_xmax s; cur_write := cur_write s |}.
Definition set_header (h : HeapTupleHeaderData) s : vstate :=
  {| world := world s; combo := combo s; page := page s;
     htup := {| t_self := t_self (htup s); t_xid_base := t_xid_base (htup s);
                t_multi_base := t_multi_base (htup s); t_data := h |};
     buf_dirty := buf_dirty s; dirty_xmin := dirty_xmin s; dirty_xmax := dirty_xmax s;
     cur_write := cur_write s |}.
Definition set_buf_dirty s : vstate :=
  {| world := world s; combo := combo s; page := page s; htup := htup s; buf_dirty := true;
     dirty_xmin := dirty_xmin s; dirty_xmax := dirty_xmax s; cur_write := cur_write s |}.
Definition set_snapshot_xids (xmin xmax : Z) s : vstate :=
  {| world := world s; combo := combo s; page := page s; htup := htup s; buf_dirty := buf_dirty s;
     dirty_xmin := xmin; dirty_xmax := xmax; cur_write := cur_write s |}.
Definition set_write (c : option bool) s : vstate :=
  {| world := world s; combo := combo s; page := page s; htup := htup s; buf_dirty := buf_dirty s;
     dirty_xmin := dirty_xmin s; dirty_xmax := dirty_xmax s; cur_write := c |}.
Definition set_cur_write s : vstate := set_write (Some true) s.

Definition on_world {A} (m : M W A) : M vstate A := λ s,
  let '(r, w) := m (world s) in (r, set_world w s).
(** Reading a command id does not change the combo cids. *)
Definition on_combo {A} (m : M combo_state A) : M vstate A := λ s, ((m (combo s)).1, s).

Definition header s : HeapTupleHeaderData := t_data (htup s).
Definition has (bit : Z) : M vstate bool := gets (λ s, flag (t_infomask (header s)) bit).
Definition locked_only : M vstate bool :=
  gets (λ s, HEAP_XMAX_IS_LOCKED_ONLY (t_infomask (header s)) (t_infomask2 (header s))).
Definition xmin_committed : M vstate bool := gets (λ s, HeapTupleHeaderXminCommitted (header s)).
Definition xmin_invalid : M vstate bool := gets (λ s, HeapTupleHeaderXminInvalid (header s)).
Definition get_xmin : M vstate Z := gets (λ s, HeapTupleHeaderGetXmin (page s) (header s)).
Definition get_xmax : M vstate Z := gets (λ s, HeapTupleHeaderGetXmax (page s) (header s)).
Definition get_cmin : M vstate Z := h ← gets header; on_combo (HeapTupleHeaderGetCmin (h_combo env) h).
Definition get_cmax : M vstate Z := h ← gets header; on_combo (HeapTupleHeaderGetCmax (h_combo env) h).
Definition is_current (xid : Z) : M vstate bool := mret (mgr_is_current mgr xid).
Definition in_progress (xid : Z) : M vstate bool := on_world (mgr_in_progress mgr xid).
(** [Now] asks [NeedSyncXact] what to do with [needSync]; on a single node that is
    constantly false. *)
Definition in_progress_now (xid : Z) : M vstate bool :=
  r ← on_world (mgr_in_progress_sync mgr xid); mret (@fst bool bool r).
Definition did_commit (xid : Z) : M vstate bool := on_world (mgr_did_commit mgr xid).

(** After a wait, in which the buffer lock was released, the tuple is what the
    other backends left. *)
Definition reread (waited : bool) : M vstate unit :=
  if waited then modify (λ s, set_header (others env (world s) (header s)) s) else skip.

Definition xid_visible (xid : Z) (snapshot : SnapshotData) : M vstate visible_result :=
  r ← on_world (mgr_xid_visible mgr xid snapshot);
  reread (sync r) ≫= λ _, mret r.
Definition committed_visible (xid : Z) (snapshot : SnapshotData) : M vstate bool :=
  r ← on_world (mgr_committed_visible mgr xid snapshot);
  reread (snd r) ≫= λ _, mret (fst r).
Definition gtm_lite_visible (xid : Z) (snapshot : SnapshotData) (hint : TransactionIdStatus)
    (same : bool) : M vstate (bool * bool) :=
  r ← on_world (mgr_gtm_lite mgr xid snapshot hint same);
  reread (snd r) ≫= λ _, mret r.

(** [LatestTransactionStatusError] unless the last look-up says aborted. *)
Definition check_aborted (m : M vstate bool) : M vstate unit := If m Then skip Else raise ERROR.

(** [if (has_cur_xact_write != NULL && cid < curcid) *has_cur_xact_write = true]. *)
Definition note_cur_write (cid : M vstate Z) (curcid : Z) : M vstate unit :=
  c ← gets cur_write;
  match c with
  | None => skip
  | Some _ => v ← cid; if v <? curcid then modify set_cur_write else skip
  end.

(** *** Multixacts *)

Fixpoint first_updater (members : list MultiXactMember) : Z :=
  match members with
  | [] => InvalidTransactionId
  | m :: ms => if ISUPDATE_from_mxstatus (mx_status m) then mx_xid m else first_updater ms
  end.

Definition MultiXactIdGetUpdateXid (xmax : Z) : M vstate Z :=
  members ← on_world (mgr_members mgr xmax); mret (first_updater members).

Definition HeapTupleHeaderMultiXactGetUpdateXid : M vstate Z :=
  xmax ← get_xmax; MultiXactIdGetUpdateXid xmax.
Definition HeapTupleMultiXactGetUpdateXid : M vstate Z :=
  xmax ← gets (λ s, HeapTupleGetRawXmax (htup s)); MultiXactIdGetUpdateXid xmax.

(** [HeapTupleHeaderGetUpdateXid]: the updater, whatever the kind of xmax. *)
Definition HeapTupleHeaderGetUpdateXid : M vstate Z :=
  multi ← gets (λ s, negb (flag (t_infomask (header s)) HEAP_XMAX_INVALID)
    && flag (t_infomask (header s)) HEAP_XMAX_IS_MULTI
    && negb (flag (t_infomask2 (header s)) HEAP_XMAX_LOCK_ONLY));
  if (multi : bool) then HeapTupleHeaderMultiXactGetUpdateXid else get_xmax.

Fixpoint any_in_progress (members : list MultiXactMember) : M vstate bool :=
  match members with
  | [] => mret false
  | m :: ms => If in_progress (mx_xid m) Then mret true Else any_in_progress ms
  end.

Definition MultiXactIdIsRunning (multi : Z) : M vstate bool :=
  members ← on_world (mgr_members mgr multi);
  if existsb (λ m, mgr_is_current mgr (mx_xid m)) members then mret true
  else any_in_progress members.

(** *** Hint bits *)

(** The conditions under which the tests leave the header alone. *)
Definition hints_disabled (infomask : Z) : bool :=
  (h_useLocalSnapshot env && negb (flag infomask HEAP_XMIN_COMMITTED))
  || h_RecoveryInProgress env || h_IsRoachStandbyCluster env
  || (XACT_READ_UNCOMMITTED env && negb (flag infomask HEAP_XMIN_COMMITTED))
  || enable_cluster_resize env.

Definition or_infomask (infomask : Z) : M vstate unit :=
  modify (λ s, set_header (set_infomask (header s) (Z.lor (t_infomask (header s)) infomask)) s).

Definition SetHintBits (infomask xid : Z) : M vstate unit :=
  if hints_disabled infomask then skip
  else
    If has infomask Then skip Else
    if h_SS_STANDBY_MODE env then or_infomask infomask
    else
      unsafe ← (if TransactionIdIsValid xid then
                  commitLSN ← on_world (mgr_commit_lsn mgr xid);
                  mret (BufferIsPermanent env && XLogNeedsFlush env commitLSN
                        && (BufferGetLSNAtomic env <? commitLSN))
                else mret false);
      if (unsafe : bool) then skip
      else or_infomask infomask ≫= λ _, modify set_buf_dirty.

Definition HeapTupleSetHintBits (infomask xid : Z) : M vstate unit := SetHintBits infomask xid.

(** *** The tests *)

(** The xmax of a tuple that the current transaction has inserted. *)
Definition DealCurrentTansactionNotCommited : M vstate bool :=
  If has HEAP_XMAX_INVALID Then mret true Else
  If locked_only Then mret true Else
  If has HEAP_XMAX_IS_MULTI Then
    xmax ← HeapTupleHeaderMultiXactGetUpdateXid;
    If is_current xmax Then mret false Else mret true
  Else
    xmax ← get_xmax;
    If is_current xmax Then mret false
    Else SetHintBits HEAP_XMAX_INVALID InvalidTransactionId ≫= λ _, mret true.

(** What remains of the xmin test of [Self], [Now], [Dirty] and [Update] once the
    inserter is known to be neither current nor running: set the hint; [true] if
    it has committed. *)
Definition settle_xmin (xmin : Z) : M vstate bool :=
  If did_commit xmin Then
    SetHintBits HEAP_XMIN_COMMITTED xmin ≫= λ _, mret true
  Else
    check_aborted (on_world (mgr_did_abort mgr xmin)) ≫= λ _,
    SetHintBits HEAP_XMIN_INVALID InvalidTransactionId ≫= λ _, mret false.

(** The same for the deleter, at the end of these tests: [true] if the tuple is
    still there. *)
Definition settle_xmax (xmax : Z) : M vstate bool :=
  If did_commit xmax Then
    If locked_only Then
      SetHintBits HEAP_XMAX_INVALID InvalidTransactionId ≫= λ _, mret true
    Else
      SetHintBits HEAP_XMAX_COMMITTED xmax ≫= λ _, mret false
  Else
    check_aborted (on_world (mgr_did_abort mgr xmax)) ≫= λ _,
    SetHintBits HEAP_XMAX_INVALID InvalidTransactionId ≫= λ _, mret true.

Definition self_xmax : M vstate bool :=
  If has HEAP_XMAX_INVALID Then mret true Else
  If has HEAP_XMAX_COMMITTED Then locked_only Else
  If has HEAP_XMAX_IS_MULTI Then
    If locked_only Then mret true Else
    xmax ← HeapTupleHeaderMultiXactGetUpdateXid;
    If is_current xmax Then mret false Else
    If in_progress xmax Then mret true Else
    If did_commit xmax Then mret false Else mret true
  Else
    xmax ← get_xmax;
    If is_current xmax Then locked_only Else
    If in_progress xmax Then mret true Else
    settle_xmax xmax.

Definition HeapTupleSatisfiesSelf : M vstate bool :=
  If xmin_committed Then self_xmax Else
  If xmin_invalid Then mret false Else
  xmin ← get_xmin;
  If is_current xmin Then DealCurrentTansactionNotCommited Else
  If in_progress xmin Then mret false Else
  If settle_xmin xmin Then self_xmax Else mret false.

(** [Now], the tuple inserted by the current transaction. *)
Definition now_own : M vstate bool :=
  let curcid := GetCurrentCommandId env in
  note_cur_write get_cmin curcid ≫= λ _,
  cmin ← get_cmin;
  if curcid <=? cmin then mret false else
  If has HEAP_XMAX_INVALID Then mret true Else
  If locked_only Then mret true Else
  If has HEAP_XMAX_IS_MULTI Then
    xmax ← HeapTupleHeaderMultiXactGetUpdateXid;
    if negb (TransactionIdIsValid xmax) then mret true else
    If is_current xmax Then mret false Else mret true
  Else
    xmax ← get_xmax;
    If is_current xmax Then cmax ← get_cmax; mret (curcid <=? cmax)
    Else SetHintBits HEAP_XMAX_INVALID InvalidTransactionId ≫= λ _, mret true.

Definition now_xmax : M vstate bool :=
  let curcid := GetCurrentCommandId env in
  If has HEAP_XMAX_INVALID Then mret true Else
  If has HEAP_XMAX_COMMITTED Then locked_only Else
  If has HEAP_XMAX_IS_MULTI Then
    If locked_only Then mret true Else
    xmax ← HeapTupleHeaderMultiXactGetUpdateXid;
    if negb (TransactionIdIsValid xmax) then mret true else
    If is_current xmax Then cmax ← get_cmax; mret (curcid <=? cmax) Else
    If in_progress xmax Then mret true Else
    If did_commit xmax Then mret false Else mret true
  Else
    xmax ← get_xmax;
    If is_current xmax Then
      note_cur_write get_cmax curcid ≫= λ _,
      If locked_only Then mret true Else
      cmax ← get_cmax; mret (curcid <=? cmax)
    Else
    If in_progress_now xmax Then mret true Else settle_xmax xmax.

(** As [NeedSyncXact] is constantly false, neither [goto restart] is taken. *)
Definition HeapTupleSatisfiesNow : M vstate bool :=
  If has HEAP_XMIN_COMMITTED Then now_xmax Else
  If has HEAP_XMIN_INVALID Then mret false Else
  xmin ← get_xmin;
  If is_current xmin Then now_own Else
  If in_progress_now xmin Then mret false Else
  If settle_xmin xmin Then now_xmax Else mret false.

Definition HeapTupleSatisfiesAny : M vstate bool := mret true.

Definition HeapTupleSatisfiesToast : M vstate bool :=
  If xmin_committed Then mret true Else
  If xmin_invalid Then mret false Else
  xmin ← get_xmin; mret (TransactionIdIsValid xmin).

Inductive TM_Result : Type :=
| TM_Ok
| TM_Invisible
| TM_SelfModified
| TM_Updated
| TM_Deleted
| TM_BeingModified
| TM_SelfCreated
| TM_SelfUpdated
| TM_WouldBlock.

(** Deleted or updated by a transaction that has committed: an updated tuple
    points to its successor. *)
Definition modified_by_other : M vstate TM_Result :=
  s ← gets (λ s, s);
  mret (if bool_decide (t_self (htup s) = t_ctid (header s)) then TM_Deleted else TM_Updated).

(** Deleted by the current transaction, after or before the scan started. *)
Definition modified_by_self (curcid : Z) : M vstate TM_Result :=
  cmax ← get_cmax; mret (if curcid <=? cmax then TM_SelfModified else TM_Invisible).

(** [Update], the tuple inserted by the current transaction. *)
Definition update_own (curcid : Z) (self_visible : bool) : M vstate TM_Result :=
  cmin ← get_cmin;
  if curcid <? cmin then mret TM_Invisible else
  if (cmin =? curcid) && negb self_visible then mret TM_SelfCreated else
  If has HEAP_XMAX_INVALID Then mret TM_Ok Else
  If locked_only Then
    xmax ← get_xmax;
    If has HEAP_XMAX_IS_MULTI Then
      If MultiXactIdIsRunning xmax Then mret TM_BeingModified Else mret TM_Ok
    Else
      If in_progress xmax Then mret TM_BeingModified Else mret TM_Ok
  Else
  If has HEAP_XMAX_IS_MULTI Then
    xmax ← HeapTupleHeaderMultiXactGetUpdateXid;
    If is_current xmax Then modified_by_self curcid Else
    multi ← get_xmax;
    If MultiXactIdIsRunning multi Then mret TM_BeingModified Else mret TM_Ok
  Else
    xmax ← get_xmax;
    If is_current xmax Then modified_by_self curcid
    Else SetHintBits HEAP_XMAX_INVALID InvalidTransactionId ≫= λ _, mret TM_Ok.

(** [Update], a multixact that is not only a lock. *)
Definition update_xmax_multi (curcid : Z) : M vstate TM_Result :=
  xmax ← HeapTupleHeaderMultiXactGetUpdateXid;
  If is_current xmax Then modified_by_self curcid Else
  If in_progress xmax Then mret TM_BeingModified Else
  If did_commit xmax Then modified_by_other Else
  multi ← get_xmax;
  If MultiXactIdIsRunning multi Then mret TM_BeingModified
  Else SetHintBits HEAP_XMAX_INVALID InvalidTransactionId ≫= λ _, mret TM_Ok.

Definition update_xmax (curcid : Z) : M vstate TM_Result :=
  If has HEAP_XMAX_INVALID Then mret TM_Ok Else
  If has HEAP_XMAX_COMMITTED Then
    If locked_only Then mret TM_Ok Else modified_by_other
  Else
  If has HEAP_XMAX_IS_MULTI Then
    If locked_only Then
      multi ← get_xmax;
      If (If has HEAP_LOCK_MASK Then MultiXactIdIsRunning multi Else mret false) Then mret TM_BeingModified
      Else SetHintBits HEAP_XMAX_INVALID InvalidTransactionId ≫= λ _, mret TM_Ok
    Else update_xmax_multi curcid
  Else
    xmax ← get_xmax;
    If is_current xmax Then
      If locked_only Then mret TM_BeingModified Else modified_by_self curcid
    Else
    If in_progress xmax Then mret TM_BeingModified Else
    If settle_xmax xmax Then mret TM_Ok Else modified_by_other.

(** [fuel] bounds the number of waits, after each of which the test starts
    again. *)
Fixpoint HeapTupleSatisfiesUpdate (fuel : nat) (curcid : Z) (self_visible : bool) : M vstate TM_Result :=
  If xmin_committed Then update_xmax curcid Else
  If xmin_invalid Then mret TM_Invisible Else
  xmin ← get_xmin;
  If is_current xmin Then update_own curcid self_visible Else
  r ← on_world (mgr_in_progress_sync mgr xmin);
  if @fst bool bool r then
    if snd r then
      match fuel with
      | O => nofuel
      | Datatypes.S fuel =>
          on_world (mgr_sync_wait mgr xmin) ≫= λ _,
          reread true ≫= λ _,
          HeapTupleSatisfiesUpdate fuel curcid self_visible
      end
    else mret TM_Invisible
  else
  If settle_xmin xmin Then update_xmax curcid Else mret TM_Invisible.

Definition dirty_xmax_test : M vstate bool :=
  If has HEAP_XMAX_INVALID Then mret true Else
  If has HEAP_XMAX_COMMITTED Then locked_only Else
  If has HEAP_XMAX_IS_MULTI Then
    If locked_only Then mret true Else
    xmax ← HeapTupleHeaderMultiXactGetUpdateXid;
    If is_current xmax Then mret false Else
    If in_progress xmax Then
      modify (λ s, set_snapshot_xids (dirty_xmin s) xmax s) ≫= λ _, mret true
    Else
    If did_commit xmax Then mret false Else mret true
  Else
    xmax ← get_xmax;
    If is_current xmax Then locked_only Else
    If in_progress xmax Then
      modify (λ s, set_snapshot_xids (dirty_xmin s) xmax s) ≫= λ _, mret true
    Else
    settle_xmax xmax.

Definition HeapTupleSatisfiesDirty : M vstate bool :=
  modify (set_snapshot_xids InvalidTransactionId InvalidTransactionId) ≫= λ _,
  If xmin_committed Then dirty_xmax_test Else
  If xmin_invalid Then mret false Else
  xmin ← get_xmin;
  If is_current xmin Then DealCurrentTansactionNotCommited Else
  If in_progress xmin Then
    modify (λ s, set_snapshot_xids xmin (dirty_xmax s) s) ≫= λ _, mret true
  Else
  If settle_xmin xmin Then dirty_xmax_test Else mret false.

(** *** MVCC *)

(** The second chance a GTM-Lite node gives to an xid that is not visible:
    [!(!GTM_LITE_MODE || ... || !IsXidVisibleInGtmLiteLocalSnapshot(...))], and
    whether it has waited. *)
Definition gtm_lite_saves (bypass : bool) (xid : Z) (snapshot : SnapshotData)
    (hint : TransactionIdStatus) (same : bool) : M vstate (bool * bool) :=
  if negb (h_GTM_LITE_MODE env) || bypass || negb (gtm_local snapshot) then mret (false, false)
  else gtm_lite_visible xid snapshot hint same.

Definition xmin_equals_xmax : M vstate bool := xmin ← get_xmin; xmax ← get_xmax; mret (xmin =? xmax).

(** The hint for xmin that [hintstatus] allows. *)
Definition hint_xmin (hintstatus : TransactionIdStatus) : M vstate unit :=
  (if bool_decide (hintstatus = XID_COMMITTED) then
     xmin ← get_xmin; SetHintBits HEAP_XMIN_COMMITTED xmin
   else skip) ≫= λ _,
  if bool_decide (hintstatus = XID_ABORTED) then
    xmin ← get_xmin;
    check_aborted (on_world (mgr_csn_did_abort mgr xmin)) ≫= λ _,
    SetHintBits HEAP_XMIN_INVALID InvalidTransactionId
  else skip.

Definition hint_xmax (hintstatus : TransactionIdStatus) : M vstate unit :=
  (if bool_decide (hintstatus = XID_COMMITTED) then
     xmax ← get_xmax; SetHintBits HEAP_XMAX_COMMITTED xmax
   else skip) ≫= λ _,
  if bool_decide (hintstatus = XID_ABORTED) then
    xmax ← get_xmax;
    check_aborted (on_world (mgr_csn_did_abort mgr xmax)) ≫= λ _,
    SetHintBits HEAP_XMAX_INVALID InvalidTransactionId
  else skip.

(** The tuple inserted by the current transaction. *)
Definition mvcc_own (snapshot : SnapshotData) : M vstate bool :=
  note_cur_write get_cmin (curcid snapshot) ≫= λ _,
  stream ← (If has HEAP_COMBOCID Then
              h ← gets header; on_combo (CheckStreamCombocid (h_combo env) h)
            Else mret false);
  if (stream : bool) then mret true else
  cmin ← get_cmin;
  if curcid snapshot <=? cmin then mret false else
  If has HEAP_XMAX_INVALID Then mret true Else
  If locked_only Then mret true Else
  If has HEAP_XMAX_IS_MULTI Then
    xmax ← HeapTupleHeaderMultiXactGetUpdateXid;
    If is_current xmax Then cmax ← get_cmax; mret (curcid snapshot <=? cmax) Else mret true
  Else
    xmax ← get_xmax;
    If is_current xmax Then
      note_cur_write get_cmax (curcid snapshot) ≫= λ _,
      cmax ← get_cmax; mret (curcid snapshot <=? cmax)
    Else SetHintBits HEAP_XMAX_INVALID InvalidTransactionId ≫= λ _, mret true.

(** An xmin not hinted and not our own: is it visible? *)
Definition mvcc_xmin_unknown (snapshot : SnapshotData) : M vstate bool :=
  xmin ← get_xmin;
  r ← xid_visible xmin snapshot;
  hint_xmin (hintstatus r) ≫= λ _,
  if visible r then mret true
  else
    xmin ← get_xmin;
    same ← xmin_equals_xmax;
    saved ← gtm_lite_saves (h_xc_maintenance_mode env) xmin snapshot (hintstatus r) same;
    mret (fst saved).

(** An xmin hinted as committed. *)
Definition mvcc_xmin_committed (snapshot : SnapshotData) : M vstate bool :=
  frozen ← gets (λ s, HeapTupleHeaderXminFrozen (header s));
  if (frozen : bool) then mret true
  else
    xmin ← get_xmin;
    If committed_visible xmin snapshot Then mret true
    Else
      xmin ← get_xmin;
      same ← xmin_equals_xmax;
      saved ← gtm_lite_saves false xmin snapshot XID_COMMITTED same;
      mret (fst saved).

(** An xmax that is a multixact with an updater. *)
Definition mvcc_xmax_multi (snapshot : SnapshotData) : M vstate bool :=
  xmax ← HeapTupleHeaderMultiXactGetUpdateXid;
  If is_current xmax Then cmax ← get_cmax; mret (curcid snapshot <=? cmax) Else
  r ← on_world (mgr_xid_visible mgr xmax snapshot);
  if negb (visible r) then mret true else
  If did_commit xmax Then
    If committed_visible xmax snapshot Then mret false Else mret true
  Else mret true.

(** An xmax hinted as committed. *)
Definition mvcc_xmax_committed (snapshot : SnapshotData) : M vstate bool :=
  xmax ← get_xmax;
  If committed_visible xmax snapshot Then mret false
  Else
    xmax ← get_xmax;
    saved ← gtm_lite_saves false xmax snapshot XID_COMMITTED false;
    mret (negb (fst saved)).

(** An xmax not hinted; [recheck] is [goto recheck_xmax]. *)
Definition mvcc_xmax_unknown (recheck : M vstate bool) (snapshot : SnapshotData) : M vstate bool :=
  xmax ← get_xmax;
  if negb (IsVersionMVCCSnapshot snapshot) && mgr_is_current mgr xmax then
    note_cur_write get_cmax (curcid snapshot) ≫= λ _,
    cmax ← get_cmax; mret (curcid snapshot <=? cmax)
  else
    r ← xid_visible xmax snapshot;
    xmax1 ← get_xmax;
    if sync r && negb (xmax =? xmax1) then recheck
    else
      hint_xmax (hintstatus r) ≫= λ _,
      if visible r then mret false
      else
        xmax2 ← get_xmax;
        saved ← gtm_lite_saves (h_xc_maintenance_mode env) xmax2 snapshot (hintstatus r) false;
        if @fst bool bool saved then mret false
        else
          xmax3 ← get_xmax;
          if (sync r || snd saved) && negb (xmax =? xmax3) then recheck else mret true.

(** From [recheck_xmax]; [fuel] bounds the waits that find another xmax. *)
Fixpoint mvcc_xmax (fuel : nat) (snapshot : SnapshotData) : M vstate bool :=
  If has HEAP_XMAX_INVALID Then mret true Else
  If locked_only Then mret true Else
  If has HEAP_XMAX_IS_MULTI Then mvcc_xmax_multi snapshot Else
  If has HEAP_XMAX_COMMITTED Then mvcc_xmax_committed snapshot Else
  mvcc_xmax_unknown (match fuel with
                     | O => nofuel
                     | Datatypes.S fuel => mvcc_xmax fuel snapshot
                     end) snapshot.

Definition HeapTupleSatisfiesMVCC (fuel : nat) (snapshot : SnapshotData) : M vstate bool :=
  if XactReadOnly env && enable_show_any_tuples env then mret true else
  If xmin_committed Then
    If mvcc_xmin_committed snapshot Then mvcc_xmax fuel snapshot Else mret false
  Else
  If xmin_invalid Then mret false Else
  xmin ← get_xmin;
  if negb (IsVersionMVCCSnapshot snapshot) && mgr_is_current mgr xmin then mvcc_own snapshot else
  If mvcc_xmin_unknown snapshot Then mvcc_xmax fuel snapshot Else mret false.

(** Without [has_cur_xact_write]. *)
Definition no_cur_write {A} (m : M vstate A) : M vstate A := λ s,
  let '(r, s') := m (set_write None s) in (r, set_write (cur_write s) s').

Definition HeapTupleSatisfiesVersionMVCC (fuel : nat) (snapshot : SnapshotData) : M vstate bool :=
  no_cur_write (HeapTupleSatisfiesMVCC fuel snapshot).

(** Visible to the snapshot, and gone now. *)
Definition HeapTupleSatisfiesLost (fuel : nat) (snapshot : SnapshotData) : M vstate bool :=
  If HeapTupleSatisfiesVersionMVCC fuel snapshot Then
    now ← no_cur_write HeapTupleSatisfiesNow; mret (negb now)
  Else mret false.

(** Not visible to the snapshot, and there now. *)
Definition HeapTupleSatisfiesDelta (fuel : nat) (snapshot : SnapshotData) : M vstate bool :=
  If HeapTupleSatisfiesVersionMVCC fuel snapshot Then mret false
  Else no_cur_write HeapTupleSatisfiesNow.

(** *** VACUUM *)

Inductive HTSV_Result : Type :=
| HEAPTUPLE_DEAD
| HEAPTUPLE_LIVE
| HEAPTUPLE_RECENTLY_DEAD
| HEAPTUPLE_INSERT_IN_PROGRESS
| HEAPTUPLE_DELETE_IN_PROGRESS.

(** [(!useLocalSnapshot || IsInitdb) ? r : HEAPTUPLE_LIVE]. *)
Definition unless_local (r : HTSV_Result) : HTSV_Result :=
  if negb (h_useLocalSnapshot env) || IsInitdb env then r else HEAPTUPLE_LIVE.

Definition raw_xmin : M vstate Z := gets (λ s, HeapTupleGetRawXmin (htup s)).
Definition raw_xmax : M vstate Z := gets (λ s, HeapTupleGetRawXmax (htup s)).

(** [xidstatus == XID_INPROGRESS && TransactionIdIsInProgress(xid)]. *)
Definition still_running (status : TransactionIdStatus) (xid : Z) : M vstate bool :=
  if bool_decide (status = XID_INPROGRESS) then in_progress xid else mret false.

(** [xidstatus == XID_COMMITTED || (xidstatus == XID_INPROGRESS &&
    TransactionIdDidCommit(xid))]. *)
Definition now_committed (status : TransactionIdStatus) (xid : Z) : M vstate bool :=
  if bool_decide (status = XID_COMMITTED) then mret true
  else if bool_decide (status = XID_INPROGRESS) then did_commit xid
  else mret false.

(** The inserter of a tuple whose xmin is not hinted: [None] if it has
    committed. *)
Definition vacuum_xmin (isAnalyzing : bool) : M vstate (option HTSV_Result) :=
  xmin ← raw_xmin;
  xidstatus ← on_world (mgr_get_status mgr xmin);
  If is_current xmin Then
    If has HEAP_XMAX_INVALID Then mret (Some HEAPTUPLE_INSERT_IN_PROGRESS) Else
    If locked_only Then mret (Some HEAPTUPLE_INSERT_IN_PROGRESS) Else
    xmax ← raw_xmax;
    If is_current xmax Then mret (Some HEAPTUPLE_DELETE_IN_PROGRESS)
    Else mret (Some HEAPTUPLE_INSERT_IN_PROGRESS)
  Else
  If still_running xidstatus xmin Then mret (Some HEAPTUPLE_INSERT_IN_PROGRESS) Else
  If now_committed xidstatus xmin Then
    (if isAnalyzing then skip else SetHintBits HEAP_XMIN_COMMITTED xmin) ≫= λ _, mret None
  Else
    hxmin ← get_xmin;
    check_aborted (on_world (mgr_did_abort mgr hxmin)) ≫= λ _,
    SetHintBits HEAP_XMIN_INVALID InvalidTransactionId ≫= λ _,
    mret (Some (unless_local HEAPTUPLE_DEAD)).

(** An xmax that is only a lock. *)
Definition vacuum_locked : M vstate HTSV_Result :=
  If has HEAP_XMAX_COMMITTED Then mret HEAPTUPLE_LIVE Else
  If (If has HEAP_XMAX_IS_MULTI Then xmax ← raw_xmax; MultiXactIdIsRunning xmax
      Else
        xmax ← raw_xmax;
        xidstatus ← on_world (mgr_get_status mgr xmax);
        still_running xidstatus xmax)
  Then mret HEAPTUPLE_LIVE
  Else SetHintBits HEAP_XMAX_INVALID InvalidTransactionId ≫= λ _, mret HEAPTUPLE_LIVE.

Definition vacuum_multi (OldestXmin : Z) : M vstate HTSV_Result :=
  xmax ← HeapTupleHeaderGetUpdateXid;
  If in_progress xmax Then mret HEAPTUPLE_DELETE_IN_PROGRESS Else
  If did_commit xmax Then
    mret (if TransactionIdPrecedes xmax OldestXmin then HEAPTUPLE_DEAD else HEAPTUPLE_RECENTLY_DEAD)
  Else
    multi ← get_xmax;
    If MultiXactIdIsRunning multi Then mret HEAPTUPLE_LIVE
    Else SetHintBits HEAP_XMAX_INVALID InvalidTransactionId ≫= λ _, mret HEAPTUPLE_LIVE.

(** The deleter is known to have committed. *)
Definition vacuum_deleted (OldestXmin : Z) : M vstate HTSV_Result :=
  xmax ← raw_xmax;
  mret (unless_local (if TransactionIdPrecedes xmax OldestXmin then HEAPTUPLE_DEAD
                      else HEAPTUPLE_RECENTLY_DEAD)).

Definition vacuum_xmax (OldestXmin : Z) : M vstate HTSV_Result :=
  If has HEAP_XMAX_INVALID Then mret HEAPTUPLE_LIVE Else
  If locked_only Then vacuum_locked Else
  If has HEAP_XMAX_IS_MULTI Then vacuum_multi OldestXmin Else
  If has HEAP_XMAX_COMMITTED Then vacuum_deleted OldestXmin Else
  xmax ← raw_xmax;
  xidstatus ← on_world (mgr_get_status mgr xmax);
  If still_running xidstatus xmax Then mret HEAPTUPLE_DELETE_IN_PROGRESS Else
  If now_committed xidstatus xmax Then
    SetHintBits HEAP_XMAX_COMMITTED xmax ≫= λ _, vacuum_deleted OldestXmin
  Else
    hxmax ← get_xmax;
    check_aborted (on_world (mgr_did_abort mgr hxmax)) ≫= λ _,
    SetHintBits HEAP_XMAX_INVALID InvalidTransactionId ≫= λ _, mret HEAPTUPLE_LIVE.

Definition copy_base : M vstate unit := modify (λ s,
  {| world := world s; combo := combo s; page := page s;
     htup := HeapTupleCopyBaseFromPage (htup s) (page s); buf_dirty := buf_dirty s;
     dirty_xmin := dirty_xmin s; dirty_xmax := dirty_xmax s; cur_write := cur_write s |}).

Definition HeapTupleSatisfiesVacuum (OldestXmin : Z) (isAnalyzing : bool) : M vstate HTSV_Result :=
  copy_base ≫= λ _,
  If xmin_committed Then vacuum_xmax OldestXmin Else
  If xmin_invalid Then mret HEAPTUPLE_DEAD Else
  r ← vacuum_xmin isAnalyzing;
  match r with
  | Some r => mret r
  | None => vacuum_xmax OldestXmin
  end.

(** Looks at the hint bits only. *)
Definition HeapTupleIsSurelyDead (tuple : HeapTupleData) (OldestXmin : Z) : bool :=
  let tup := t_data tuple in
  if negb (HeapTupleHeaderXminCommitted tup) then HeapTupleHeaderXminInvalid tup
  else if flag (t_infomask tup) HEAP_XMAX_INVALID then false
  else if HEAP_XMAX_IS_LOCKED_ONLY (t_infomask tup) (t_infomask2 tup) then false
  else if flag (t_infomask tup) HEAP_XMAX_IS_MULTI then false
  else if negb (flag (t_infomask tup) HEAP_XMAX_COMMITTED) then false
  else TransactionIdPrecedes (HeapTupleGetRawXmax tuple) OldestXmin.

Definition HeapTupleIsOnlyLocked : M vstate bool :=
  If has HEAP_XMAX_INVALID Then mret true Else
  If gets (λ s, flag (t_infomask2 (header s)) HEAP_XMAX_LOCK_ONLY) Then mret true Else
  raw ← raw_xmax;
  if negb (TransactionIdIsValid raw) then mret true else
  If has HEAP_XMAX_IS_MULTI Then
    xmax ← HeapTupleMultiXactGetUpdateXid;
    if negb (TransactionIdIsValid xmax) then mret true else
    If is_current xmax Then mret false Else
    If in_progress xmax Then mret false Else
    If did_commit xmax Then mret false Else mret true
  Else mret false.

(** *** Logical decoding *)

(** [bsearch] in an array that is sorted. *)
Definition TransactionIdInArray (xid : Z) (xs : list Z) : bool := existsb (Z.eqb xid) xs.

(** The inserter, for a historic snapshot; in it [subxip] holds the xids of the
    transaction that is decoded and [xip] those committed in [xmin, xmax). *)
Definition historic_xmin (snapshot : SnapshotData) (xmin : Z) : M vstate bool :=
  If xmin_invalid Then mret false Else
  if TransactionIdInArray xmin (subxip snapshot) then
    tup ← gets htup;
    match ResolveCminCmaxDuringDecoding env tup with
    | None => raise ERROR
    | Some (cmin, _) => mret (cmin <? curcid snapshot)
    end
  else if TransactionIdPrecedes xmin (snap_xmin snapshot) then
    If xmin_committed Then mret true Else did_commit xmin
  else if TransactionIdFollowsOrEquals xmin (snap_xmax snapshot) then mret false
  else mret (TransactionIdInArray xmin (xip snapshot)).

Definition historic_xmax (snapshot : SnapshotData) (xmax : Z) : M vstate bool :=
  If has HEAP_XMAX_INVALID Then mret true Else
  if TransactionIdInArray xmax (subxip snapshot) then
    tup ← gets htup;
    match ResolveCminCmaxDuringDecoding env tup with
    | None => raise ERROR
    | Some (_, cmax) => mret (curcid snapshot <=? cmax)
    end
  else if TransactionIdPrecedes xmax (snap_xmin snapshot) then
    If has HEAP_XMAX_COMMITTED Then mret false
    Else committed ← did_commit xmax; mret (negb committed)
  else if TransactionIdFollowsOrEquals xmax (snap_xmax snapshot) then mret true
  else mret (negb (TransactionIdInArray xmax (xip snapshot))).

Definition HeapTupleSatisfiesHistoricMVCC (snapshot : SnapshotData) : M vstate bool :=
  xmin ← get_xmin;
  xmax ← get_xmax;
  If historic_xmin snapshot xmin Then historic_xmax snapshot xmax Else mret false.

(** The three steps of [DecodeMVCC]: [Some visible] if the answer is known. *)
Definition HeapTupleUncommitedXminCheckDecodeMVCC (snapshot : SnapshotData) : M vstate (option bool) :=
  If xmin_invalid Then mret (Some false) Else
  xmin ← get_xmin;
  if negb (IsVersionMVCCSnapshot snapshot) && mgr_is_current mgr xmin then
    If has HEAP_XMAX_INVALID Then mret (Some true) Else
    If locked_only Then mret (Some true) Else
    xmax ← get_xmax;
    If is_current xmax Then mret None
    Else SetHintBits HEAP_XMAX_INVALID InvalidTransactionId ≫= λ _, mret (Some true)
  else
    r ← on_world (mgr_decode_visible mgr xmin snapshot);
    hint_xmin (hintstatus r) ≫= λ _,
    if visible r then mret None
    else
      same ← xmin_equals_xmax;
      saved ← gtm_lite_saves (h_xc_maintenance_mode env) xmin snapshot (hintstatus r) same;
      mret (if @fst bool bool saved then None else Some false).

Definition HeapTupleCommitedXminCheckDecodeMVCC (snapshot : SnapshotData) : M vstate (option bool) :=
  frozen ← gets (λ s, HeapTupleHeaderXminFrozen (header s));
  if (frozen : bool) then mret None
  else
    xmin ← get_xmin;
    If on_world (mgr_committed_decode mgr xmin snapshot) Then mret None
    Else
      same ← xmin_equals_xmax;
      saved ← gtm_lite_saves false xmin snapshot XID_COMMITTED same;
      mret (if @fst bool bool saved then None else Some false).

Definition HeapTupleXmaxCheckDecodeMVCC (snapshot : SnapshotData) : M vstate (option bool) :=
  If has HEAP_XMAX_INVALID Then mret (Some true) Else
  If locked_only Then mret (Some true) Else
  If has HEAP_XMAX_IS_MULTI Then mret (Some true) Else
  xmax ← get_xmax;
  If has HEAP_XMAX_COMMITTED Then
    If on_world (mgr_committed_decode mgr xmax snapshot) Then mret None
    Else
      saved ← gtm_lite_saves false xmax snapshot XID_COMMITTED false;
      mret (if @fst bool bool saved then None else Some true)
  Else
    r ← on_world (mgr_decode_visible mgr xmax snapshot);
    hint_xmax (hintstatus r) ≫= λ _,
    if visible r then mret None
    else
      saved ← gtm_lite_saves (h_xc_maintenance_mode env) xmax snapshot (hintstatus r) false;
      mret (if @fst bool bool saved then None else Some true).

Definition HeapTupleSatisfiesDecodeMVCC (snapshot : SnapshotData) : M vstate bool :=
  if XactReadOnly env && enable_show_any_tuples env then mret true else
  known ← (If xmin_committed Then HeapTupleCommitedXminCheckDecodeMVCC snapshot
           Else HeapTupleUncommitedXminCheckDecodeMVCC snapshot);
  match known with
  | Some v => mret v
  | None => known ← HeapTupleXmaxCheckDecodeMVCC snapshot; mret (default false known)
  end.

(** *** Dispatch *)

Definition HeapTupleSatisfiesVisibility (fuel : nat) (snapshot : SnapshotData) : M vstate bool :=
  match satisfies snapshot with
  | SNAPSHOT_MVCC => HeapTupleSatisfiesMVCC fuel snapshot
  | SNAPSHOT_VERSION_MVCC => HeapTupleSatisfiesVersionMVCC fuel snapshot
  | SNAPSHOT_DELTA => HeapTupleSatisfiesDelta fuel snapshot
  | SNAPSHOT_LOST => HeapTupleSatisfiesLost fuel snapshot
  | SNAPSHOT_NOW => HeapTupleSatisfiesNow
  | SNAPSHOT_SELF => HeapTupleSatisfiesSelf
  | SNAPSHOT_ANY => HeapTupleSatisfiesAny
  | SNAPSHOT_TOAST => HeapTupleSatisfiesToast
  | SNAPSHOT_DIRTY => HeapTupleSatisfiesDirty
  | SNAPSHOT_HISTORIC_MVCC => HeapTupleSatisfiesHistoricMVCC snapshot
  | SNAPSHOT_DECODE_MVCC => HeapTupleSatisfiesDecodeMVCC snapshot
  end.

(** Serialization failure: the tuple is not ours and not visible any more. *)
Definition HeapTupleCheckVisible (fuel : nat) (snapshot : SnapshotData) : M vstate unit :=
  if negb (IsolationUsesXactSnapshot env) then skip
  else
    If no_cur_write (HeapTupleSatisfiesVisibility fuel snapshot) Then skip
    Else
      xmin ← get_xmin;
      If is_current xmin Then skip Else raise ERROR.

End HeapVisibility.

Arguments xact_mgr : clear implicits.
Arguments heap_env : clear implicits.
Arguments vstate : clear implicits.
