(* ===== verification/VisibilitySpec.v ===== *)
(** * What tuple visibility means

    An abstract account of [HeapVisibility.v]: the transaction manager knows a
    verdict for every xid, a tuple has an inserter and perhaps a deleter, and every
    test is a function of their verdicts. The theorems show that each test returns
    what its function says, that hint bits never change any later answer, and that
    what VACUUM calls dead no snapshot can see. *)

From S2P Require Import Prelude TransamDefs SlruInterface Clog CsnLog Transam Snapshot HeapTuple ComboCid MultiXact HeapVisibility.

(** ** Verdicts *)

(** [V_unknown]: nothing is promised about the xid. *)
Inductive verdict : Type :=
| V_mine
| V_running
| V_committed (csn : Z)
| V_aborted
| V_unknown.

#[global] Instance verdict_eq_dec : EqDecision verdict.
Proof. solve_decision. Defined.

Record truth := {
  verdict_of :> Z → verdict;
  members_of : Z → list MultiXactMember;
}.

Definition is_mine (v : verdict) : bool := match v with V_mine => true | _ => false end.
Definition is_open (v : verdict) : bool := match v with V_mine | V_running => true | _ => false end.
Definition is_committed (v : verdict) : bool := match v with V_committed _ => true | _ => false end.
Definition sees (sn : SnapshotData) (v : verdict) : bool :=
  match v with V_committed c => c <? snapshotcsn sn | _ => false end.

(** A deleter that has aborted is none. *)
Definition effective (v : verdict) : option verdict :=
  match v with V_aborted => None | _ => Some v end.

(** What the transaction manager promises, of the moment in which no transaction is
    in the middle of its commit: every answer is determined by the verdicts, it
    waits for nobody, and answering changes no verdict. [knows w T]: the state [w]
    of the manager has the verdicts [T]; [snap_ok T sn]: the snapshot [sn] was
    taken properly with respect to [T]. *)
Class XactMgrSpec {W} (mgr : xact_mgr W) := {
  knows : W → truth → Prop;
  snap_ok : truth → SnapshotData → Prop;
  law_invalid w T : knows w T → T InvalidTransactionId = V_aborted;
  law_current w T x : knows w T → T x ≠ V_unknown → mgr_is_current mgr x = is_mine (T x);
  law_in_progress w T x : knows w T → T x ≠ V_unknown →
    post (mgr_in_progress mgr x) w (λ r w', r = is_open (T x) ∧ knows w' T);
  law_in_progress_sync w T x : knows w T → T x ≠ V_unknown →
    post (mgr_in_progress_sync mgr x) w (λ r w', r = (is_open (T x), false) ∧ knows w' T);
  law_did_commit w T x : knows w T → T x ≠ V_unknown →
    post (mgr_did_commit mgr x) w (λ r w', r = is_committed (T x) ∧ knows w' T);
  law_did_abort w T x : knows w T → T x = V_aborted →
    post (mgr_did_abort mgr x) w (λ r w', r = true ∧ knows w' T);
  law_get_status w T x : knows w T → T x ≠ V_unknown →
    post (mgr_get_status mgr x) w (λ r w', knows w' T ∧
      match T x with
      | V_committed _ => r = XID_COMMITTED
      | V_aborted => r ≠ XID_COMMITTED
      | _ => r = XID_INPROGRESS
      end);
  law_commit_lsn w T x : knows w T → is_committed (T x) = true →
    post (mgr_commit_lsn mgr x) w (λ _ w', knows w' T);
  law_xid_visible w T x sn : knows w T → T x ≠ V_unknown → snap_ok T sn →
    post (mgr_xid_visible mgr x sn) w (λ r w', knows w' T ∧ visible r = sees sn (T x) ∧ sync r = false ∧
      match T x with
      | V_committed _ => hintstatus r = XID_COMMITTED
      | V_aborted => hintstatus r ≠ XID_COMMITTED
      | _ => hintstatus r = XID_INPROGRESS
      end ∧
      (hintstatus r = XID_ABORTED → x ≠ InvalidTransactionId →
         post (mgr_csn_did_abort mgr x) w' (λ b w2, b = true ∧ knows w2 T)));
  law_committed_visible w T x sn : knows w T → is_committed (T x) = true → snap_ok T sn →
    post (mgr_committed_visible mgr x sn) w (λ r w', r = (sees sn (T x), false) ∧ knows w' T);
  law_snap_frozen T sn : snap_ok T sn → COMMITSEQNO_FROZEN < snapshotcsn sn;
  law_members w T x : knows w T →
    post (mgr_members mgr x) w (λ r w', r = members_of T x ∧ knows w' T);
}.

(** ** Tuples *)

Section Tuples.
Context (T : truth) (pg : HeapPageHeaderData).
Implicit Types (h : HeapTupleHeaderData).

Definition tup_xmin h : Z := HeapTupleHeaderGetXmin pg h.
Definition tup_xmax h : Z := HeapTupleHeaderGetXmax pg h.
Definition bit h (b : Z) : bool := flag (t_infomask h) b.
Definition is_locked_only h : bool := HEAP_XMAX_IS_LOCKED_ONLY (t_infomask h) (t_infomask2 h).

(** The transaction that has inserted the tuple; a frozen tuple is older than
    every snapshot. *)
Definition inserter h : verdict :=
  if HeapTupleHeaderXminFrozen h then V_committed COMMITSEQNO_FROZEN else T (tup_xmin h).

(** The xid that has updated or deleted the tuple, if its xmax is not invalid and
    not only a lock. *)
Definition deleter_xid h : option Z :=
  if bit h HEAP_XMAX_INVALID || is_locked_only h then None
  else Some (if bit h HEAP_XMAX_IS_MULTI then first_updater (members_of T (tup_xmax h)) else tup_xmax h).

(** Its verdict; one that has aborted does not count. *)
Definition deleter h : option verdict :=
  match deleter_xid h with
  | None => None
  | Some x => effective (T x)
  end.

(** No transaction named in xmax, deleter or locker, is still open. *)
Definition xmax_closed h : Prop :=
  if bit h HEAP_XMAX_IS_MULTI then ∀ m, m ∈ members_of T (tup_xmax h) → is_open (T (mx_xid m)) = false
  else is_open (T (tup_xmax h)) = false.

(** The tuple is as the transactions left it: its xids are known, the hints it
    carries are true, a multixact that only locks has a lock bit as long as a
    member may be running, and what the current transaction has inserted only the
    current transaction (or one of its aborted subtransactions) can have
    deleted. *)
Record tuple_ok h : Prop := {
  ok_xmin : inserter h ≠ V_unknown;
  ok_xmin_committed : bit h HEAP_XMIN_COMMITTED = true → is_committed (inserter h) = true;
  ok_xmin_invalid : HeapTupleHeaderXminInvalid h = true → inserter h = V_aborted;
  ok_xmax : bit h HEAP_XMAX_INVALID = false →
    if bit h HEAP_XMAX_IS_MULTI then ∀ m, m ∈ members_of T (tup_xmax h) → T (mx_xid m) ≠ V_unknown
    else T (tup_xmax h) ≠ V_unknown;
  ok_xmin_valid : bit h HEAP_XMIN_COMMITTED = false → tup_xmin h ≠ InvalidTransactionId;
  ok_xmax_valid : bit h HEAP_XMAX_INVALID = false → tup_xmax h ≠ InvalidTransactionId;
  ok_xmax_committed : bit h HEAP_XMAX_COMMITTED = true → bit h HEAP_XMAX_INVALID = false →
    if is_locked_only h then xmax_closed h
    else bit h HEAP_XMAX_IS_MULTI = false ∧ is_committed (T (tup_xmax h)) = true;
  ok_lock : is_locked_only h = true → bit h HEAP_LOCK_MASK = false → bit h HEAP_XMAX_INVALID = false →
    bit h HEAP_XMAX_IS_MULTI = true → xmax_closed h;
  ok_own : inserter h = V_mine → deleter h = None ∨ deleter h = Some V_mine;
}.

Lemma locked_no_deleter h : is_locked_only h = true → deleter h = None.
Proof. intros Hl. unfold deleter, deleter_xid. by rewrite Hl, orb_true_r. Qed.

Lemma aborted_no_deleter h :
  bit h HEAP_XMAX_IS_MULTI = false → T (tup_xmax h) = V_aborted → deleter h = None.
Proof. intros Hm Ha. unfold deleter, deleter_xid. rewrite Hm. case_bool; [done|]. by rewrite Ha. Qed.

Lemma single_closed h :
  bit h HEAP_XMAX_IS_MULTI = false → is_open (T (tup_xmax h)) = false → xmax_closed h.
Proof. intros Hm Ho. unfold xmax_closed. by rewrite Hm. Qed.

Lemma aborted_multi_no_deleter h :
  bit h HEAP_XMAX_IS_MULTI = true → T (first_updater (members_of T (tup_xmax h))) = V_aborted →
  deleter h = None.
Proof. intros Hm Ha. unfold deleter, deleter_xid. rewrite Hm. case_bool; [done|]. by rewrite Ha. Qed.

(** *** Hints *)

(** Setting hint [b] on [h] tells the truth. *)
Definition justified h (b : Z) : Prop :=
  (b = HEAP_XMIN_COMMITTED ∧ bit h HEAP_XMIN_COMMITTED = false ∧ bit h HEAP_XMIN_INVALID = false ∧
     is_committed (T (tup_xmin h)) = true) ∨
  (b = HEAP_XMIN_INVALID ∧ bit h HEAP_XMIN_COMMITTED = false ∧ T (tup_xmin h) = V_aborted) ∨
  (b = HEAP_XMAX_COMMITTED ∧ is_locked_only h = false ∧ bit h HEAP_XMAX_IS_MULTI = false ∧
     is_committed (T (tup_xmax h)) = true) ∨
  (b = HEAP_XMAX_INVALID ∧ deleter h = None ∧ xmax_closed h).

Definition or_mask h (b : Z) : HeapTupleHeaderData := set_infomask h (Z.lor (t_infomask h) b).

Definition hint_step h h' : Prop := ∃ b, justified h b ∧ h' = or_mask h b.

(** The four hints do not overlap with one another or with anything else. *)
Definition hint_bit (b : Z) : Prop :=
  b = HEAP_XMIN_COMMITTED ∨ b = HEAP_XMIN_INVALID ∨ b = HEAP_XMAX_COMMITTED ∨ b = HEAP_XMAX_INVALID.

Lemma justified_hint_bit h b : justified h b → hint_bit b.
Proof. unfold justified, hint_bit. tauto. Qed.

Lemma or_mask_bit h b b' : bit (or_mask h b) b' = bit h b' || flag b b'.
Proof. unfold bit. apply flag_lor. Qed.

Lemma or_mask_locked h b : hint_bit b → is_locked_only (or_mask h b) = is_locked_only h.
Proof.
  intros Hb. unfold is_locked_only, HEAP_XMAX_IS_LOCKED_ONLY. cbn [or_mask set_infomask t_infomask t_infomask2].
  rewrite flag_lor, land_lor_disjoint.
  - f_equal. f_equal. destruct Hb as [->|[->|[->| ->]]]; apply orb_false_r.
  - by destruct Hb as [->|[->|[->| ->]]].
Qed.

Lemma or_mask_multi h b : hint_bit b → bit (or_mask h b) HEAP_XMAX_IS_MULTI = bit h HEAP_XMAX_IS_MULTI.
Proof. intros Hb. rewrite or_mask_bit. destruct Hb as [->|[->|[->| ->]]]; apply orb_false_r. Qed.

Lemma or_mask_combo h b : hint_bit b → bit (or_mask h b) HEAP_COMBOCID = bit h HEAP_COMBOCID.
Proof. intros Hb. rewrite or_mask_bit. destruct Hb as [->|[->|[->| ->]]]; apply orb_false_r. Qed.

Lemma or_mask_xmax h b : hint_bit b → tup_xmax (or_mask h b) = tup_xmax h.
Proof.
  intros Hb. unfold tup_xmax, HeapTupleHeaderGetXmax. change (flag (t_infomask (or_mask h b)) HEAP_XMAX_IS_MULTI)
    with (bit (or_mask h b) HEAP_XMAX_IS_MULTI). by rewrite or_mask_multi.
Qed.

Lemma or_mask_lock h b : hint_bit b → bit (or_mask h b) HEAP_LOCK_MASK = bit h HEAP_LOCK_MASK.
Proof. intros Hb. rewrite or_mask_bit. destruct Hb as [->|[->|[->| ->]]]; apply orb_false_r. Qed.

Lemma or_mask_closed h b : hint_bit b → xmax_closed (or_mask h b) = xmax_closed h.
Proof. intros Hb. unfold xmax_closed. by rewrite or_mask_multi, or_mask_xmax. Qed.

Lemma bits_frozen h : HeapTupleHeaderXminFrozen h = bit h HEAP_XMIN_COMMITTED && bit h HEAP_XMIN_INVALID.
Proof. apply xmin_frozen_flags. Qed.

Lemma bits_invalid h :
  HeapTupleHeaderXminInvalid h = negb (bit h HEAP_XMIN_COMMITTED) && bit h HEAP_XMIN_INVALID.
Proof. apply xmin_invalid_flags. Qed.

Lemma hint_step_inserter h h' : hint_step h h' → inserter h' = inserter h.
Proof.
  intros (b & Hj & ->). unfold inserter. rewrite !bits_frozen, !or_mask_bit.
  destruct Hj as [(-> & Hc & Hi & _)|[(-> & Hc & _)|[(-> & _)|(-> & _)]]]; cbn [flag Z.land];
    try rewrite Hc; try rewrite Hi; rewrite ?orb_false_r; done.
Qed.

Lemma hint_step_deleter h h' : hint_step h h' → deleter h' = deleter h.
Proof.
  intros (b & Hj & ->). pose proof (justified_hint_bit _ _ Hj) as Hb.
  unfold deleter, deleter_xid. rewrite or_mask_locked, or_mask_multi, or_mask_xmax, or_mask_bit by done.
  destruct Hj as [(-> & _)|[(-> & _)|[(-> & _)|(-> & Hd & _)]]]; [by rewrite orb_false_r..|].
  rewrite orb_true_r. cbn. unfold deleter, deleter_xid in Hd. by rewrite Hd.
Qed.

Lemma hint_step_ok h h' : hint_step h h' → tuple_ok h → tuple_ok h'.
Proof.
  intros Hs [Hx Hc Hi Hm Hnv Hxv Hmc Hlk Ho]. pose proof (hint_step_inserter _ _ Hs) as Hins.
  pose proof (hint_step_deleter _ _ Hs) as Hdel. destruct Hs as (b & Hj & ->).
  pose proof (justified_hint_bit _ _ Hj) as Hb.
  split; rewrite ?Hins, ?Hdel; try done;
    rewrite ?bits_invalid, ?or_mask_multi, ?or_mask_xmax, ?or_mask_locked, ?or_mask_lock, ?or_mask_closed,
      ?or_mask_bit by done.
  - intros [?|Hf]%orb_true_iff; [by apply Hc|].
    destruct Hj as [(-> & H1 & H2 & H3)|[(-> & _)|[(-> & _)|(-> & _)]]]; try done.
    unfold inserter. by rewrite bits_frozen, H1.
  - rewrite bits_invalid in Hi. intros [H1 H2]%andb_true_iff. rewrite negb_orb in H1.
    apply andb_true_iff in H1 as [H1 H3]. apply orb_true_iff in H2 as [H2|H2]; [apply Hi; by rewrite H1, H2|].
    destruct Hj as [(-> & _)|[(-> & Hc' & Ha)|[(-> & _)|(-> & _)]]]; try done.
    unfold inserter. by rewrite bits_frozen, Hc'.
  - intros [H1 _]%orb_false_iff. by apply Hm.
  - intros [H1 _]%orb_false_iff. by apply Hnv.
  - intros [H1 _]%orb_false_iff. by apply Hxv.
  - intros H1 [H2 H4]%orb_false_iff. apply orb_true_iff in H1 as [H1|H1]; [by apply Hmc|].
    destruct Hj as [(-> & _)|[(-> & _)|[(-> & Hl & Hmu & Hco)|(-> & _)]]]; try done. by rewrite Hl.
  - intros Hl Hb' [H1 _]%orb_false_iff Hmu. by apply Hlk.
Qed.

(** Any number of hints. *)
Lemma hints_inserter h h' : rtc hint_step h h' → inserter h' = inserter h.
Proof. induction 1 as [|h1 h2 h3 Hs _ IH]; [done|]. rewrite IH. by apply hint_step_inserter. Qed.

Lemma hints_deleter h h' : rtc hint_step h h' → deleter h' = deleter h.
Proof. induction 1 as [|h1 h2 h3 Hs _ IH]; [done|]. rewrite IH. by apply hint_step_deleter. Qed.

Lemma hints_ok h h' : rtc hint_step h h' → tuple_ok h → tuple_ok h'.
Proof. induction 1 as [|h1 h2 h3 Hs _ IH]; [done|]. intros. by eapply IH, hint_step_ok. Qed.

End Tuples.

(** ** Runs of the tests *)

Section Runs.
Context {W : Type} (mgr : xact_mgr W) (env : heap_env W) `{!XactMgrSpec mgr}.
Context (T : truth).
Implicit Types (s : vstate W) (h : HeapTupleHeaderData) (sn : SnapshotData).

(** What a test may do to the state: the verdicts stay, and the header gains
    truthful hints. *)
Record evolves s s' : Prop := {
  ev_knows : knows (world s') T;
  ev_page : page s' = page s;
  ev_combo : combo s' = combo s;
  ev_self : t_self (htup s') = t_self (htup s);
  ev_hints : rtc (hint_step T (page s)) (header s) (header s');
}.

Lemma evolves_refl s : knows (world s) T → evolves s s.
Proof. intros. split; done. Qed.

Lemma evolves_trans s1 s2 s3 : evolves s1 s2 → evolves s2 s3 → evolves s1 s3.
Proof.
  intros [H1 H2 H3 H4 H5] [H6 H7 H8 H9 H10]. split; try congruence.
  rewrite H2 in H10. by etrans.
Qed.

Lemma evolves_same s s' :
  knows (world s') T → page s' = page s → combo s' = combo s → htup s' = htup s → evolves s s'.
Proof. intros ? ? ? Hh. split; try done; unfold header; by rewrite Hh. Qed.

Lemma evolves_world s w : knows w T → evolves s (set_world w s).
Proof. intros. by apply evolves_same. Qed.

(** What a dirty snapshot hands out, and the bases the tuple was read with: hints
    do not change them. *)
Definition outs s : Z * Z * (Z * Z) :=
  (dirty_xmin s, dirty_xmax s, (t_xid_base (htup s), t_multi_base (htup s))).

Lemma evolves_ok s s' :
  evolves s s' → tuple_ok T (page s) (header s) → tuple_ok T (page s') (header s').
Proof. intros [_ -> _ _ Hh]. by apply hints_ok. Qed.

Lemma evolves_spec s s' :
  evolves s s' → inserter T (page s') (header s') = inserter T (page s) (header s) ∧
    deleter T (page s') (header s') = deleter T (page s) (header s).
Proof. intros [_ -> _ _ Hh]. split; [by apply hints_inserter|by apply hints_deleter]. Qed.

(** *** Rules for the primitives *)

Lemma post_world {A} (m : M W A) s (Q : A → vstate W → Prop) :
  post m (world s) (λ a w, Q a (set_world w s)) → post (on_world m) s Q.
Proof.
  intros (a & w & Hm & HQ). exists a, (set_world w s). split; [|done].
  unfold runs, on_world in *. by rewrite Hm.
Qed.

Lemma post_in_progress x s (Q : bool → vstate W → Prop) :
  knows (world s) T → T x ≠ V_unknown →
  (∀ w, knows w T → Q (is_open (T x)) (set_world w s)) → post (in_progress mgr x) s Q.
Proof.
  intros Hk Hx HQ. apply post_world. eapply post_mono; [by apply (law_in_progress _ T)|].
  intros r w [-> Hk']. by apply HQ.
Qed.

Lemma post_in_progress_now x s (Q : bool → vstate W → Prop) :
  knows (world s) T → T x ≠ V_unknown →
  (∀ w, knows w T → Q (is_open (T x)) (set_world w s)) → post (in_progress_now mgr x) s Q.
Proof.
  intros Hk Hx HQ. apply post_bind, post_world. eapply post_mono; [by apply (law_in_progress_sync _ T)|].
  intros r w [-> Hk']. by apply post_ret, HQ.
Qed.

Lemma post_did_commit x s (Q : bool → vstate W → Prop) :
  knows (world s) T → T x ≠ V_unknown →
  (∀ w, knows w T → Q (is_committed (T x)) (set_world w s)) → post (did_commit mgr x) s Q.
Proof.
  intros Hk Hx HQ. apply post_world. eapply post_mono; [by apply (law_did_commit _ T)|].
  intros r w [-> Hk']. by apply HQ.
Qed.

Lemma post_current x s (Q : bool → vstate W → Prop) :
  knows (world s) T → T x ≠ V_unknown → Q (is_mine (T x)) s → post (is_current mgr x) s Q.
Proof. intros Hk Hx HQ. apply post_ret. by rewrite (law_current _ T) by eauto. Qed.

Lemma post_check_aborted x s (Q : unit → vstate W → Prop) :
  knows (world s) T → T x = V_aborted → (∀ w, knows w T → Q tt (set_world w s)) →
  post (check_aborted (on_world (mgr_did_abort mgr x))) s Q.
Proof.
  intros Hk Hx HQ. apply post_bind, post_world. eapply post_mono; [by apply (law_did_abort _ T)|].
  intros r w [-> Hk']. by apply post_skip, HQ.
Qed.

Lemma post_members x s (Q : Z → vstate W → Prop) :
  knows (world s) T → (∀ w, knows w T → Q (first_updater (members_of T x)) (set_world w s)) →
  post (MultiXactIdGetUpdateXid mgr x) s Q.
Proof.
  intros Hk HQ. apply post_bind, post_world. eapply post_mono; [by apply (law_members _ T)|].
  intros r w [-> Hk']. by apply post_ret, HQ.
Qed.

Lemma post_update_xid s (Q : Z → vstate W → Prop) :
  knows (world s) T →
  (∀ w, knows w T → Q (first_updater (members_of T (tup_xmax (page s) (header s)))) (set_world w s)) →
  post (HeapTupleHeaderMultiXactGetUpdateXid mgr) s Q.
Proof. intros Hk HQ. apply post_bind, post_gets. by apply post_members. Qed.

Lemma post_or_infomask b s (Q : unit → vstate W → Prop) :
  Q tt (set_header (or_mask (header s) b) s) → post (or_infomask b) s Q.
Proof. intros HQ. by exists tt, (set_header (or_mask (header s) b) s). Qed.

Lemma evolves_hint b s s' :
  knows (world s') T → page s' = page s → combo s' = combo s → t_self (htup s') = t_self (htup s) →
  justified T (page s) (header s) b → header s' = or_mask (header s) b → evolves s s'.
Proof. intros Hk Hp Hc Ht Hj Hh. split; try done. rewrite Hh. apply rtc_once. by exists b. Qed.

(** A truthful hint may be set; whether it is depends on the session and on the
    log. *)
Lemma post_hint b xid s (Q : unit → vstate W → Prop) :
  knows (world s) T → justified T (page s) (header s) b →
  (TransactionIdIsValid xid = true → is_committed (T xid) = true) →
  (∀ s', evolves s s' → header s' = header s ∨ header s' = or_mask (header s) b → outs s' = outs s →
     Q tt s') →
  post (SetHintBits mgr env b xid) s Q.
Proof.
  intros Hk Hj Hx HQ. unfold SetHintBits.
  assert (∀ s1, evolves s s1 → header s1 = header s → page s1 = page s → outs s1 = outs s →
    Q tt (set_header (or_mask (header s1) b) s1) ∧
    Q tt (set_buf_dirty (set_header (or_mask (header s1) b) s1))) as Hset.
  { intros s1 [] Hh Hp Ho. split; apply HQ; try done; try (right; cbn; by rewrite Hh);
      apply (evolves_hint b); try done; cbn; by rewrite Hh. }
  assert (evolves s s) as Hr by by apply evolves_refl.
  case_bool; [apply post_skip, HQ; [done|by left|done]|].
  apply post_bind, post_gets. case_bool; [apply post_skip, HQ; [done|by left|done]|].
  case_bool; [by apply post_or_infomask, Hset|]. apply post_bind. case_bool.
  - apply post_bind, post_world. eapply post_mono; [by apply (law_commit_lsn _ T); auto|].
    intros lsn w Hk'. apply post_ret. assert (evolves s (set_world w s)) by by apply evolves_world.
    case_bool; [apply post_skip, HQ; [done|by left|done]|].
    apply post_bind, post_or_infomask, post_modify. by apply Hset.
  - apply post_ret. apply post_bind, post_or_infomask, post_modify. by apply Hset.
Qed.

(** The chain of questions about a deleter. *)
Lemma post_open {A} x s (k1 k2 k3 : M (vstate W) A) (Q : A → vstate W → Prop) :
  knows (world s) T → T x ≠ V_unknown →
  (∀ w, knows w T →
    match T x with
    | V_mine => post k1 s Q
    | V_running => post k2 (set_world w s) Q
    | _ => post k3 (set_world w s) Q
    end) →
  post (If is_current mgr x Then k1 Else If in_progress mgr x Then k2 Else k3) s Q.
Proof.
  intros Hk Hu HQ. apply post_bind, post_current; [done..|].
  destruct (T x) as [| |c| |] eqn:Hv; cbn [is_mine]; [by eapply HQ| | | |done];
    (apply post_bind, post_in_progress; [done|by rewrite Hv|]); intros w Hw; rewrite Hv; by apply HQ.
Qed.

Lemma post_fate {A} x s (k1 k2 k3 k4 : M (vstate W) A) (Q : A → vstate W → Prop) :
  knows (world s) T → T x ≠ V_unknown →
  (∀ w, knows w T →
    match T x with
    | V_mine => post k1 s Q
    | V_running => post k2 (set_world w s) Q
    | V_committed _ => post k3 (set_world w s) Q
    | _ => post k4 (set_world w s) Q
    end) →
  post (If is_current mgr x Then k1 Else If in_progress mgr x Then k2
        Else If did_commit mgr x Then k3 Else k4) s Q.
Proof.
  intros Hk Hu HQ. apply post_open; [done..|]. intros w Hw. pose proof (HQ w Hw) as HQw.
  destruct (T x) as [| |c| |] eqn:Hv; try done;
    (apply post_bind, post_did_commit; [done|by rewrite Hv|]); intros w1 Hw1; rewrite Hv; by apply (HQ w1).
Qed.

(** The state is the initial one but for the transaction manager, or follows from
    such a one by hints. *)
Ltac ev_base :=
  match goal with
  | |- evolves ?s ?s' => apply (evolves_same s s'); [assumption|reflexivity..]
  end.
Ltac ev :=
  first [ done | ev_base
        | match goal with H : evolves ?s1 ?s' |- evolves ?s ?s' => apply (evolves_trans s s1 s'); [ev_base|exact H] end ].

(** Symbolic execution: one primitive. *)
Ltac vprim :=
  match goal with
  | |- post (mbind _ (is_current _ _)) _ _ => fail 1
  | |- post (mbind _ _) _ _ => apply post_bind
  | |- post (mret _) _ _ => apply post_ret
  | |- post skip _ _ => apply post_skip
  | |- post (gets _) _ _ => apply post_gets
  | |- post (has _) _ _ => apply post_gets
  | |- post locked_only _ _ => apply post_gets
  | |- post xmin_committed _ _ => apply post_gets
  | |- post xmin_invalid _ _ => apply post_gets
  | |- post get_xmin _ _ => apply post_gets
  | |- post get_xmax _ _ => apply post_gets
  | |- post raw_xmin _ _ => apply post_gets
  | |- post raw_xmax _ _ => apply post_gets
  end.

(** The flags of the header in the words of the specification. *)
Ltac fold_bits :=
  repeat match goal with
  | |- context [flag (t_infomask (header ?s)) ?b] =>
      change (flag (t_infomask (header s)) b) with (bit (header s) b)
  | |- context [HEAP_XMAX_IS_LOCKED_ONLY (t_infomask (header ?s)) (t_infomask2 (header ?s))] =>
      change (HEAP_XMAX_IS_LOCKED_ONLY (t_infomask (header s)) (t_infomask2 (header s)))
        with (is_locked_only (header s))
  | |- context [HeapTupleHeaderGetXmin (page ?s) (header ?s)] =>
      change (HeapTupleHeaderGetXmin (page s) (header s)) with (tup_xmin (page s) (header s))
  | |- context [HeapTupleHeaderGetXmax (page ?s) (header ?s)] =>
      change (HeapTupleHeaderGetXmax (page s) (header s)) with (tup_xmax (page s) (header s))
  | |- context [HeapTupleHeaderXminCommitted (header ?s)] =>
      change (HeapTupleHeaderXminCommitted (header s)) with (bit (header s) HEAP_XMIN_COMMITTED)
  end.

(** Equality tests on statuses. *)
Ltac bdec := repeat first [rewrite bool_decide_true by done | rewrite bool_decide_false by done].

Ltac vstep := first [vprim; cbn beta | progress fold_bits].

Lemma settle_xmin_post s :
  knows (world s) T → bit (header s) HEAP_XMIN_COMMITTED = false → bit (header s) HEAP_XMIN_INVALID = false →
  is_open (T (tup_xmin (page s) (header s))) = false → T (tup_xmin (page s) (header s)) ≠ V_unknown →
  post (settle_xmin mgr env (tup_xmin (page s) (header s))) s
    (λ r s', r = is_committed (T (tup_xmin (page s) (header s))) ∧ evolves s s' ∧ outs s' = outs s).
Proof.
  intros Hk Hc Hi Ho Hu. unfold settle_xmin. vstep. apply post_did_commit; [done..|]. intros w Hw.
  assert (evolves s (set_world w s)) as He by by apply evolves_world.
  destruct (T (tup_xmin (page s) (header s))) as [| |c| |] eqn:Hv; try done; cbn [is_committed]; vstep.
  - assert (is_committed (T (tup_xmin (page s) (header s))) = true) as Hcv by by rewrite Hv.
    apply post_hint; [done|left; by split_and!|done|].
    intros s' He' _ Hout. vstep. split_and!; [done|by eapply evolves_trans|done].
  - apply post_check_aborted; [done..|]. intros w' Hw'. vstep.
    apply post_hint; [done|right; left; by split_and!|done|].
    intros s' He' _ Hout. vstep. split_and!; [done| |done].
    eapply evolves_trans; [exact He|]. eapply evolves_trans; [by apply evolves_world|done].
Qed.

Lemma settle_xmax_post s :
  knows (world s) T → bit (header s) HEAP_XMAX_INVALID = false → bit (header s) HEAP_XMAX_IS_MULTI = false →
  is_open (T (tup_xmax (page s) (header s))) = false → T (tup_xmax (page s) (header s)) ≠ V_unknown →
  post (settle_xmax mgr env (tup_xmax (page s) (header s))) s
    (λ r s', r = is_locked_only (header s) || negb (is_committed (T (tup_xmax (page s) (header s)))) ∧
             evolves s s' ∧ outs s' = outs s).
Proof.
  intros Hk Hi Hm Ho Hu. unfold settle_xmax. vstep. apply post_did_commit; [done..|]. intros w Hw.
  assert (evolves s (set_world w s)) as He by by apply evolves_world.
  destruct (T (tup_xmax (page s) (header s))) as [| |c| |] eqn:Hv; try done; cbn [is_committed negb];
    assert (is_open (T (tup_xmax (page s) (header s))) = false) as Hov by by rewrite Hv.
  - assert (is_committed (T (tup_xmax (page s) (header s))) = true) as Hcv by by rewrite Hv.
    repeat vstep. change (header (set_world w s)) with (header s).
    destruct (is_locked_only (header s)) eqn:Hl; vstep.
    + apply post_hint; [done| |done|].
      * right; right; right. split_and!; [done|by apply locked_no_deleter|by apply single_closed].
      * intros s' He' _ Hout. vstep. split_and!; [done| |done]. by eapply evolves_trans.
    + apply post_hint; [done|by right; right; left|done|].
      intros s' He' _ Hout. vstep. split_and!; [done| |done]. by eapply evolves_trans.
  - vstep. apply post_check_aborted; [done..|]. intros w' Hw'. vstep.
    apply post_hint; [done| |done|].
    + right; right; right. split_and!; [done|by apply aborted_no_deleter|by apply single_closed].
    + intros s' He' _ Hout. vstep. split_and!; [by rewrite orb_true_r| |done].
      eapply evolves_trans; [exact He|]. eapply evolves_trans; [by apply evolves_world|done].
Qed.

(** The same after questions to the transaction manager. *)
Lemma settle_xmax_w s w :
  knows w T → bit (header s) HEAP_XMAX_INVALID = false → bit (header s) HEAP_XMAX_IS_MULTI = false →
  is_open (T (tup_xmax (page s) (header s))) = false → T (tup_xmax (page s) (header s)) ≠ V_unknown →
  post (settle_xmax mgr env (tup_xmax (page s) (header s))) (set_world w s)
    (λ r s', r = is_locked_only (header s) || negb (is_committed (T (tup_xmax (page s) (header s)))) ∧
             evolves s s' ∧ outs s' = outs s).
Proof.
  intros Hw Hi Hm Ho Hu. eapply post_mono; [by apply (settle_xmax_post (set_world w s))|].
  intros r s' (-> & He & Hout). split_and!; [done|ev|done].
Qed.

(** *** The tests without a snapshot *)

(** What removes a tuple for [Self] and [Dirty]: a deleter of our own or one that
    has committed. *)
Definition gone (d : option verdict) : bool :=
  match d with Some v => is_mine v || is_committed v | None => false end.

Definition self_spec (ins : verdict) (del : option verdict) : bool :=
  (is_mine ins || is_committed ins) && negb (gone del).

(** The updater of a multixact is known when its members are. *)
Lemma updater_known x :
  T InvalidTransactionId = V_aborted → (∀ m, m ∈ members_of T x → T (mx_xid m) ≠ V_unknown) →
  T (first_updater (members_of T x)) ≠ V_unknown.
Proof.
  intros H0. induction (members_of T x) as [|m ms IH]; intros Hm; cbn; [by rewrite H0|].
  case_bool; [apply Hm; left|]. apply IH. intros m' Hm'. apply Hm. by right.
Qed.

Lemma self_xmax_post s :
  knows (world s) T → tuple_ok T (page s) (header s) →
  post (self_xmax mgr env) s
    (λ r s', r = negb (gone (deleter T (page s) (header s))) ∧ evolves s s').
Proof.
  intros Hk Hok. pose proof (ok_xmax _ _ _ Hok) as Hx. pose proof (ok_xmax_committed _ _ _ Hok) as Hc.
  pose proof (law_invalid _ _ Hk) as H0. pose proof (evolves_refl s Hk) as Hr.
  unfold self_xmax, deleter, deleter_xid. repeat vstep.
  destruct (bit (header s) HEAP_XMAX_INVALID) eqn:Hi; [by repeat vstep|]. specialize (Hx eq_refl).
  repeat vstep. destruct (bit (header s) HEAP_XMAX_COMMITTED) eqn:Hxc.
  { specialize (Hc eq_refl eq_refl). repeat vstep. destruct (is_locked_only (header s)) eqn:Hl; [done|].
    destruct Hc as [-> Hv]. cbn. by destruct (T _). }
  repeat vstep. destruct (bit (header s) HEAP_XMAX_IS_MULTI) eqn:Hm; repeat vstep.
  - destruct (is_locked_only (header s)) eqn:Hl; repeat vstep; [done|].
    pose proof (updater_known _ H0 Hx) as Hu. cbn [orb].
    apply post_update_xid; [done|]. intros w Hw. apply post_fate; [done..|]. intros w1 Hw1.
    destruct (T (first_updater _)) as [| |c| |] eqn:Hv; try done; vstep; (split; [done|ev]).
  - cbn [orb]. apply post_open; [done..|]. intros w Hw.
    destruct (T (tup_xmax _ _)) as [| |c| |] eqn:Hv; try done.
    1, 2: repeat vstep; split; [destruct (is_locked_only _); cbn; by rewrite ?Hv|ev].
    all: eapply post_mono; [apply settle_xmax_w; by rewrite ?Hv|]; rewrite Hv.
    all: intros r s' (-> & He & _); split; [destruct (is_locked_only _); cbn; by rewrite ?Hv|ev].
Qed.

(** The test of the inserter that [Self], [Now], [Dirty] and [Update] begin with;
    [K] asks whether the inserter is running and settles it if not. *)
Lemma post_inserter {R} (D : Z → M (vstate W) R) (K : Z → M (vstate W) R) (A B C : M (vstate W) R) s
    (Q : R → vstate W → Prop) :
  (∀ x s0, knows (world s0) T → T x ≠ V_unknown →
     (∀ w, knows w T →
        post (if is_open (T x) then D x else If settle_xmin mgr env x Then A Else B) (set_world w s0) Q) →
     post (K x) s0 Q) →
  knows (world s) T → tuple_ok T (page s) (header s) →
  match inserter T (page s) (header s) with
  | V_committed _ => ∀ s', evolves s s' → outs s' = outs s → post A s' Q
  | V_aborted => ∀ s', evolves s s' → outs s' = outs s → post B s' Q
  | V_mine => post C s Q
  | V_running => ∀ w, knows w T → post (D (tup_xmin (page s) (header s))) (set_world w s) Q
  | V_unknown => True
  end →
  post (If xmin_committed Then A Else If xmin_invalid Then B Else
        xmin ← get_xmin;
        If is_current mgr xmin Then C Else K xmin) s Q.
Proof.
  intros HK Hk Hok HQ. pose proof (evolves_refl s Hk) as Hr. pose proof (ok_xmin _ _ _ Hok) as Hu.
  do 2 vstep. fold_bits. destruct (bit (header s) HEAP_XMIN_COMMITTED) eqn:Hc.
  { pose proof (ok_xmin_committed _ _ _ Hok Hc) as Hi. destruct (inserter _ _ _); try done. by apply HQ. }
  do 2 vstep. destruct (HeapTupleHeaderXminInvalid (header s)) eqn:Hiv.
  { rewrite (ok_xmin_invalid _ _ _ Hok Hiv) in HQ. by apply HQ. }
  rewrite bits_invalid, Hc in Hiv. cbn in Hiv.
  assert (inserter T (page s) (header s) = T (tup_xmin (page s) (header s))) as Hins.
  { unfold inserter. by rewrite bits_frozen, Hc. }
  rewrite Hins in HQ, Hu. repeat vstep.
  destruct (decide (T (tup_xmin (page s) (header s)) = V_mine)) as [Hm|Hm].
  { apply post_bind, post_current; [done..|]. by rewrite Hm in *. }
  apply post_bind, post_current; [done..|].
  replace (is_mine _) with false by (by destruct (T _)).
  apply HK; [done..|]. intros w Hw.
  destruct (is_open (T (tup_xmin (page s) (header s)))) eqn:Ho.
  { destruct (T (tup_xmin _ _)); try done. by apply HQ. }
  apply post_bind. eapply post_mono; [by apply (settle_xmin_post (set_world w s))|].
  intros r s' (-> & He & Hout). change (tup_xmin _ _) with (tup_xmin (page s) (header s)).
  destruct (T (tup_xmin _ _)) eqn:Hv; try done; (apply HQ; [ev|done]).
Qed.

Lemma own_post s :
  knows (world s) T → tuple_ok T (page s) (header s) → inserter T (page s) (header s) = V_mine →
  post (DealCurrentTansactionNotCommited mgr env) s
    (λ r s', r = negb (gone (deleter T (page s) (header s))) ∧ evolves s s' ∧ outs s' = outs s).
Proof.
  intros Hk Hok Hmine. pose proof (ok_xmax _ _ _ Hok) as Hx. pose proof (ok_own _ _ _ Hok Hmine) as Hown.
  pose proof (law_invalid _ _ Hk) as H0. pose proof (evolves_refl s Hk) as Hr.
  unfold DealCurrentTansactionNotCommited. unfold deleter, deleter_xid in Hown |- *. repeat vstep.
  destruct (bit (header s) HEAP_XMAX_INVALID) eqn:Hi; [by repeat vstep|]. specialize (Hx eq_refl).
  repeat vstep. destruct (is_locked_only (header s)) eqn:Hl; [by repeat vstep|]. repeat vstep. cbn [orb] in *.
  destruct (bit (header s) HEAP_XMAX_IS_MULTI) eqn:Hm; repeat vstep.
  - pose proof (updater_known _ H0 Hx) as Hu. apply post_update_xid; [done|]. intros w Hw.
    apply post_bind, post_current; [done..|].
    destruct (T (first_updater _)) as [| |c| |] eqn:Hv; try (by destruct Hown); cbn [is_mine]; vstep;
      (split_and!; [done|ev|done]).
  - apply post_bind, post_current; [done..|].
    destruct (T (tup_xmax _ _)) as [| |c| |] eqn:Hv; try (by destruct Hown); cbn [is_mine];
      [vstep; by split|].
    assert (is_open (T (tup_xmax (page s) (header s))) = false) as Hov by by rewrite Hv.
    vstep. apply post_hint; [done| |done|].
    + right; right; right. split_and!; [done|by apply aborted_no_deleter|by apply single_closed].
    + intros s' He _ Ho. vstep. by split_and!.
Qed.

(** [HeapTupleSatisfiesSelf] is a function of what happened to the inserter and
    the deleter: the tuple is there iff it was inserted by the current transaction
    or one that has committed, and not deleted by such a one; it returns (no error)
    and leaves only truthful hints. *)
Theorem satisfies_self s :
  knows (world s) T → tuple_ok T (page s) (header s) →
  post (HeapTupleSatisfiesSelf mgr env) s
    (λ r s', r = self_spec (inserter T (page s) (header s)) (deleter T (page s) (header s)) ∧ evolves s s').
Proof.
  intros Hk Hok. apply (post_inserter (λ _, mret false)); [|done|done|].
  { intros. by apply post_bind, post_in_progress. }
  unfold self_spec. destruct (inserter T _ _) as [| |c| |] eqn:Hi; cbn [is_mine is_committed orb andb]; [..|done].
  - eapply post_mono; [by apply own_post|]. by intros r s' (-> & He & _).
  - intros w Hw. vstep. split; [done|ev].
  - intros s' He _. eapply post_mono; [apply self_xmax_post; [apply He|by eapply evolves_ok]|].
    intros r s2 [-> He2]. destruct (evolves_spec _ _ He) as [_ ->]. split; [done|]. by eapply evolves_trans.
  - intros s' He _. vstep. by split.
Qed.

(** *** Dirty snapshots *)

Definition dirty_spec (ins : verdict) (del : option verdict) : bool :=
  match ins with
  | V_running => true
  | _ => self_spec ins del
  end.

(** The xid a dirty snapshot returns in its [xmax]: a deleter, or the only locker,
    that still runs. *)
Definition running_or_none (x : Z) : Z :=
  match T x with V_running => x | _ => InvalidTransactionId end.

Definition open_xmax pg h : Z :=
  if bit h HEAP_XMAX_INVALID then InvalidTransactionId
  else if bit h HEAP_XMAX_IS_MULTI then
    if is_locked_only h then InvalidTransactionId
    else running_or_none (first_updater (members_of T (tup_xmax pg h)))
  else running_or_none (tup_xmax pg h).

Lemma closed_updater x :
  T InvalidTransactionId = V_aborted → (∀ m, m ∈ members_of T x → is_open (T (mx_xid m)) = false) →
  is_open (T (first_updater (members_of T x))) = false.
Proof.
  intros H0. induction (members_of T x) as [|m ms IH]; intros Hm; cbn; [by rewrite H0|].
  case_bool; [apply Hm; left|]. apply IH. intros m' Hm'. apply Hm. by right.
Qed.

Lemma closed_open_xmax pg h :
  T InvalidTransactionId = V_aborted → xmax_closed T pg h → open_xmax pg h = InvalidTransactionId.
Proof.
  intros H0 Hcl. unfold open_xmax, xmax_closed, running_or_none in *. destruct (bit h HEAP_XMAX_INVALID); [done|].
  destruct (bit h HEAP_XMAX_IS_MULTI); [|by destruct (T (tup_xmax pg h))].
  destruct (is_locked_only h); [done|]. pose proof (closed_updater _ H0 Hcl) as Ho. by destruct (T (first_updater _)).
Qed.

(** Hints do not make a running deleter or locker forgotten. *)
Lemma hints_open_xmax pg h h' :
  T InvalidTransactionId = V_aborted → rtc (hint_step T pg) h h' → open_xmax pg h' = open_xmax pg h.
Proof.
  intros H0. induction 1 as [|h1 h2 h3 Hs _ IH]; [done|]. rewrite IH. destruct Hs as (b & Hj & ->).
  pose proof (justified_hint_bit _ _ _ _ Hj) as Hb.
  destruct Hj as [(-> & _)|[(-> & _)|[(-> & _)|(-> & _ & Hcl)]]].
  4: { rewrite (closed_open_xmax pg h1 H0 Hcl). unfold open_xmax. rewrite or_mask_bit.
       by rewrite orb_true_r. }
  all: unfold open_xmax; rewrite or_mask_locked, or_mask_multi, or_mask_xmax, or_mask_bit by done;
    by rewrite orb_false_r.
Qed.

Lemma dirty_xmax_post s :
  knows (world s) T → tuple_ok T (page s) (header s) →
  post (dirty_xmax_test mgr env) s
    (λ r s', r = negb (gone (deleter T (page s) (header s))) ∧ evolves s s' ∧
       (dirty_xmax s = InvalidTransactionId →
          (dirty_xmin s', dirty_xmax s') = (dirty_xmin s, open_xmax (page s) (header s)))).
Proof.
  intros Hk Hok. pose proof (ok_xmax _ _ _ Hok) as Hx. pose proof (ok_xmax_committed _ _ _ Hok) as Hc.
  pose proof (law_invalid _ _ Hk) as H0. pose proof (evolves_refl s Hk) as Hr.
  unfold dirty_xmax_test, deleter, deleter_xid. repeat vstep.
  destruct (bit (header s) HEAP_XMAX_INVALID) eqn:Hi.
  { repeat vstep. split_and!; [done..|]. intros ->. unfold open_xmax. by rewrite Hi. }
  specialize (Hx eq_refl). repeat vstep. destruct (bit (header s) HEAP_XMAX_COMMITTED) eqn:Hxc.
  { specialize (Hc eq_refl eq_refl). repeat vstep. destruct (is_locked_only (header s)) eqn:Hl.
    - split_and!; [done..|]. intros ->. by rewrite closed_open_xmax.
    - unfold open_xmax, running_or_none. destruct Hc as [-> Hv]. rewrite Hi. cbn.
      destruct (T (tup_xmax _ _)); try done. split_and!; try done. by intros ->. }
  repeat vstep. unfold open_xmax, running_or_none. rewrite Hi.
  destruct (bit (header s) HEAP_XMAX_IS_MULTI) eqn:Hm; repeat vstep.
  - destruct (is_locked_only (header s)) eqn:Hl; repeat vstep; [split_and!; try done; by intros ->|].
    pose proof (updater_known _ H0 Hx) as Hu. cbn [orb].
    apply post_update_xid; [done|]. intros w Hw. apply post_fate; [done..|]. intros w1 Hw1.
    destruct (T (first_updater _)) as [| |c| |] eqn:Hv; try done; repeat vstep;
      try (split_and!; [done|ev|by intros <-]).
    apply post_modify. vstep. split_and!; [done|ev|done].
  - cbn [orb]. apply post_open; [done..|]. intros w Hw.
    destruct (T (tup_xmax _ _)) as [| |c| |] eqn:Hv; try done.
    + repeat vstep. split_and!; [destruct (is_locked_only _); cbn; by rewrite ?Hv|ev|by intros ->].
    + vstep. apply post_modify. vstep.
      split_and!; [destruct (is_locked_only _); cbn; by rewrite ?Hv|ev|done].
    + eapply post_mono; [apply settle_xmax_w; by rewrite ?Hv|]. intros r s' (-> & He & Ho). rewrite Hv.
      split_and!; [destruct (is_locked_only _); cbn; by rewrite ?Hv|ev|].
      intros Hd. unfold outs in Ho. injection Ho as -> -> _ _. by rewrite <- Hd.
    + eapply post_mono; [apply settle_xmax_w; by rewrite ?Hv|]. intros r s' (-> & He & Ho). rewrite Hv.
      split_and!; [destruct (is_locked_only _); cbn; by rewrite ?Hv|ev|].
      intros Hd. unfold outs in Ho. injection Ho as -> -> _ _. by rewrite <- Hd.
Qed.

(** [HeapTupleSatisfiesDirty] sees what open transactions have inserted and
    ignores what they have deleted; the snapshot's [xmin] returns the inserter if
    another transaction that still runs, its [xmax] the deleter or single locker
    that still runs, else both are invalid. *)
Theorem satisfies_dirty s :
  knows (world s) T → tuple_ok T (page s) (header s) →
  post (HeapTupleSatisfiesDirty mgr env) s
    (λ r s', let ins := inserter T (page s) (header s) in
       r = dirty_spec ins (deleter T (page s) (header s)) ∧ evolves s s' ∧
       dirty_xmin s' = (if bool_decide (ins = V_running) then tup_xmin (page s) (header s)
                        else InvalidTransactionId) ∧
       dirty_xmax s' = (if is_committed ins then open_xmax (page s) (header s) else InvalidTransactionId)).
Proof.
  intros Hk Hok. pose proof (law_invalid _ _ Hk) as H0. unfold HeapTupleSatisfiesDirty.
  apply post_bind, post_modify. set (s0 := set_snapshot_xids _ _ s).
  assert (evolves s s0) as He0 by ev.
  apply (post_inserter
    (λ xmin, modify (λ s, set_snapshot_xids xmin (dirty_xmax s) s) ≫= λ _, mret true)); [|done|done|].
  { intros. by apply post_bind, post_in_progress. }
  change (inserter T (page s0) (header s0)) with (inserter T (page s) (header s)).
  unfold dirty_spec, self_spec.
  destruct (inserter T _ _) as [| |c| |] eqn:Hi; cbn [is_mine is_committed orb andb]; [..|done].
  - eapply post_mono; [by apply (own_post s0)|]. intros r s' (-> & He & [= -> -> _ _]).
    by split_and!; [..|ev| |].
  - intros w Hw. apply post_bind, post_modify, post_ret. split_and!; [done|ev|done..].
  - intros s' He Hout. eapply post_mono; [apply dirty_xmax_post; [apply He|by eapply evolves_ok]|].
    intros r s2 (-> & He2 & Ho2). destruct (evolves_spec _ _ He) as [_ Hd].
    injection Hout as Hdx Hdm _ _. specialize (Ho2 Hdm). injection Ho2 as -> ->. rewrite Hd, Hdx.
    rewrite (ev_page _ _ He), (hints_open_xmax (page s0) (header s0)); [|done|apply He].
    split_and!; try done. eapply evolves_trans; [exact He0|]. by eapply evolves_trans.
  - intros s' He Hout. vstep. injection Hout as -> -> _ _. split_and!; try done. by eapply evolves_trans.
Qed.

(** *** Command ids *)

(** The command ids of the tuple, and that they can be read. *)
Definition cids_ok s (cmin cmax : Z) : Prop :=
  cids (h_combo env) (combo s) (header s) = Some (cmin, cmax) ∧
  (bit (header s) HEAP_COMBOCID = true → t_cid (header s) < u32 (usedComboCids (combo s))).

Lemma hints_cid pg h h' :
  rtc (hint_step T pg) h h' → t_cid h' = t_cid h ∧ bit h' HEAP_COMBOCID = bit h HEAP_COMBOCID.
Proof.
  induction 1 as [|h1 h2 h3 Hs _ [-> ->]]; [done|]. destruct Hs as (b & Hj & ->).
  split; [done|]. eapply or_mask_combo, justified_hint_bit, Hj.
Qed.

Lemma evolves_cids s s' cmin cmax : evolves s s' → cids_ok s cmin cmax → cids_ok s' cmin cmax.
Proof.
  intros [_ _ Hc _ Hh] [H1 H2]. destruct (hints_cid _ _ _ Hh) as [Hcid Hb].
  unfold cids_ok, cids in *. change (flag (t_infomask (header s')) HEAP_COMBOCID) with (bit (header s') HEAP_COMBOCID).
  by rewrite Hc, Hb, Hcid.
Qed.

Lemma post_combo {A} (m : M combo_state A) s a (Q : A → vstate W → Prop) :
  runs m (combo s) a (combo s) → Q a s → post (on_combo m) s Q.
Proof.
  intros Hm HQ. exists a, s. split; [|done]. unfold runs, on_combo in *. by rewrite Hm.
Qed.

Lemma post_cmin s cmin cmax (Q : Z → vstate W → Prop) :
  cids_ok s cmin cmax → Q cmin s → post (get_cmin env) s Q.
Proof.
  intros [H _] HQ. apply post_bind, post_gets. eapply post_combo; [|exact HQ].
  by apply (get_cmin_runs _ _ _ (cmin, cmax)).
Qed.

Lemma post_cmax s cmin cmax (Q : Z → vstate W → Prop) :
  cids_ok s cmin cmax → Q cmax s → post (get_cmax env) s Q.
Proof.
  intros [H _] HQ. apply post_bind, post_gets. eapply post_combo; [|exact HQ].
  by apply (get_cmax_runs _ _ _ (cmin, cmax)).
Qed.

Lemma post_note (cid : M (vstate W) Z) c s curcid (Q : unit → vstate W → Prop) :
  (∀ Q0 : Z → vstate W → Prop, Q0 c s → post cid s Q0) → Q tt s → Q tt (set_cur_write s) →
  post (note_cur_write cid curcid) s Q.
Proof.
  intros Hcid H1 H2. apply post_bind, post_gets. destruct (cur_write s); [|by apply post_skip].
  apply post_bind, Hcid. case_bool; [by apply post_modify|by apply post_skip].
Qed.

(** Noting a write leaves everything else alone. *)
Lemma post_note_cmin s cc cmin cmax (Q : unit → vstate W → Prop) :
  knows (world s) T → cids_ok s cmin cmax →
  (∀ s0, evolves s s0 → header s0 = header s → page s0 = page s → world s0 = world s →
     cids_ok s0 cmin cmax → Q tt s0) →
  post (note_cur_write (get_cmin env) cc) s Q.
Proof.
  intros Hk Hc HQ. apply (post_note _ cmin); [intros; by apply (post_cmin _ cmin cmax)| |];
    (apply HQ; [|done..]); [by apply evolves_refl|by apply evolves_same].
Qed.

(** Whether the deleter counts for a scan of command [cc]. *)
Definition now_deleted (cc cmax : Z) (d : option verdict) : bool :=
  match d with
  | Some V_mine => cmax <? cc
  | Some (V_committed _) => true
  | _ => false
  end.

Definition now_inserted (cc cmin : Z) (v : verdict) : bool :=
  match v with
  | V_mine => cmin <? cc
  | V_committed _ => true
  | _ => false
  end.

Definition now_spec (cc : Z) (ins : verdict) (del : option verdict) (cmin cmax : Z) : bool :=
  now_inserted cc cmin ins && negb (now_deleted cc cmax del).

Lemma now_xmax_post s cmin cmax :
  knows (world s) T → tuple_ok T (page s) (header s) → cids_ok s cmin cmax →
  post (now_xmax mgr env) s
    (λ r s', r = negb (now_deleted (GetCurrentCommandId env) cmax (deleter T (page s) (header s))) ∧ evolves s s').
Proof.
  intros Hk Hok Hcid. pose proof (ok_xmax _ _ _ Hok) as Hx. pose proof (ok_xmax_committed _ _ _ Hok) as Hc.
  pose proof (law_invalid _ _ Hk) as H0. pose proof (evolves_refl s Hk) as Hr.
  unfold now_xmax, deleter, deleter_xid. repeat vstep.
  destruct (bit (header s) HEAP_XMAX_INVALID) eqn:Hi; [by repeat vstep|]. specialize (Hx eq_refl).
  repeat vstep. destruct (bit (header s) HEAP_XMAX_COMMITTED) eqn:Hxc.
  { specialize (Hc eq_refl eq_refl). repeat vstep. destruct (is_locked_only (header s)) eqn:Hl; [done|].
    destruct Hc as [-> Hv]. cbn. by destruct (T _). }
  repeat vstep. destruct (bit (header s) HEAP_XMAX_IS_MULTI) eqn:Hm; repeat vstep.
  - destruct (is_locked_only (header s)) eqn:Hl; repeat vstep; [done|].
    pose proof (updater_known _ H0 Hx) as Hu. cbn [orb].
    apply post_update_xid; [done|]. intros w Hw. case_bool.
    { repeat vstep. bool_to_prop. unfold TransactionIdIsValid in *. bool_to_prop.
      split; [|ev]. match goal with H : first_updater _ = _ |- _ => by rewrite H, H0 end. }
    apply post_fate; [done..|]. intros w1 Hw1.
    destruct (T (first_updater _)) as [| |c| |] eqn:Hv; try done; repeat vstep; try (split; [done|ev]).
    apply (post_cmax _ cmin cmax); [done|]. vstep. split; [cbn; by rewrite Z.leb_antisym|ev].
  - cbn [orb]. apply post_bind, post_current; [done..|].
    destruct (T (tup_xmax _ _)) as [| |c| |] eqn:Hv; try done; cbn [is_mine].
    + vstep. apply (post_note _ cmax); [intros; by apply (post_cmax _ cmin cmax)| |];
        repeat vstep; change (header (set_cur_write s)) with (header s);
        (destruct (is_locked_only (header s)); repeat vstep; [split; [done|ev]|]);
        (apply (post_cmax _ cmin cmax); [done|]); vstep; (split; [rewrite Hv; cbn; by rewrite Z.leb_antisym|ev]).
    + vstep. apply post_in_progress_now; [done|by rewrite Hv|]. intros w Hw. rewrite Hv. cbn [is_open]. vstep.
      split; [|ev]. destruct (is_locked_only _); [done|]. by rewrite Hv.
    + vstep. apply post_in_progress_now; [done|by rewrite Hv|]. intros w Hw. rewrite Hv. cbn [is_open].
      eapply post_mono; [apply settle_xmax_w; by rewrite ?Hv|]; rewrite Hv. intros r s' (-> & He & _).
      split; [|ev]. destruct (is_locked_only _); [done|]. by rewrite Hv.
    + vstep. apply post_in_progress_now; [done|by rewrite Hv|]. intros w Hw. rewrite Hv. cbn [is_open].
      eapply post_mono; [apply settle_xmax_w; by rewrite ?Hv|]; rewrite Hv. intros r s' (-> & He & _).
      split; [|ev]. destruct (is_locked_only _); [done|]. by rewrite Hv.
Qed.

Lemma now_own_post s cmin cmax :
  knows (world s) T → tuple_ok T (page s) (header s) → cids_ok s cmin cmax →
  inserter T (page s) (header s) = V_mine →
  (bit (header s) HEAP_XMAX_IS_MULTI = true → deleter T (page s) (header s) = None) →
  post (now_own mgr env) s
    (λ r s', r = now_spec (GetCurrentCommandId env) V_mine (deleter T (page s) (header s)) cmin cmax ∧
             evolves s s').
Proof.
  intros Hk Hok Hcid Hmine Hmulti. pose proof (ok_xmax _ _ _ Hok) as Hx.
  pose proof (ok_own _ _ _ Hok Hmine) as Hown.
  pose proof (law_invalid _ _ Hk) as H0. pose proof (evolves_refl s Hk) as Hr.
  unfold now_own, now_spec. vstep.
  unfold now_inserted. rewrite (Z.ltb_antisym (GetCurrentCommandId env)).
  apply (post_note_cmin _ _ cmin cmax); [done..|]. intros s0 He0 Hh0 Hp0 Hw0 Hc0.
  vstep. apply (post_cmin _ cmin cmax); [done|].
  case_bool; [vstep; by split|]. cbn [negb andb].
  assert (knows (world s0) T) as Hk0 by by rewrite Hw0.
  unfold deleter, deleter_xid in Hown, Hmulti |- *. repeat vstep. rewrite Hh0.
  destruct (bit (header s) HEAP_XMAX_INVALID) eqn:Hi; [by repeat vstep|]. specialize (Hx eq_refl).
  repeat vstep. rewrite Hh0. destruct (is_locked_only (header s)) eqn:Hl; [by repeat vstep|].
  repeat vstep. rewrite Hh0. cbn [orb] in *.
  destruct (bit (header s) HEAP_XMAX_IS_MULTI) eqn:Hm; repeat vstep.
  - pose proof (updater_known _ H0 Hx) as Hu. apply post_update_xid; [done|]. rewrite Hp0, Hh0. intros w Hw.
    assert (T (first_updater (members_of T (tup_xmax (page s) (header s)))) = V_aborted) as Hv.
    { specialize (Hmulti eq_refl). by destruct (T (first_updater _)). }
    rewrite Hv. case_bool; [vstep; split; [done|]; by eapply evolves_trans; [exact He0|ev]|].
    apply post_bind, post_current; [done|by rewrite Hv|]. rewrite Hv. cbn [is_mine]. vstep.
    split; [done|]. by eapply evolves_trans; [exact He0|ev].
  - rewrite Hp0, Hh0. apply post_bind, post_current; [done..|].
    destruct (T (tup_xmax _ _)) as [| |c| |] eqn:Hv; try (by destruct Hown); cbn [is_mine].
    + vstep. apply (post_cmax _ cmin cmax); [done|]. vstep. split; [cbn; by rewrite Z.leb_antisym|done].
    + assert (is_open (T (tup_xmax (page s) (header s))) = false) as Hov by by rewrite Hv.
      vstep. apply post_hint; [done| |done|].
      * right; right; right. rewrite Hp0, Hh0.
        split_and!; [done|by apply aborted_no_deleter|by apply single_closed].
      * intros s' He _ _. vstep. split; [done|]. by eapply evolves_trans.
Qed.

(** [Now] tests the bits of xmin one by one. *)
Lemma post_raw_xmin {R} (A B K : M (vstate W) R) s (Q : R → vstate W → Prop) :
  post (If xmin_committed Then A Else If xmin_invalid Then B Else K) s Q →
  post (If has HEAP_XMIN_COMMITTED Then A Else If has HEAP_XMIN_INVALID Then B Else K) s Q.
Proof.
  intros (a & s' & Hr & HQ). exists a, s'. split; [|done]. unfold runs in *. rewrite <- Hr.
  unfold has, xmin_committed, xmin_invalid, mbind, M_bind, gets. pose proof (bits_invalid (header s)) as Hb.
  unfold HeapTupleHeaderXminCommitted, bit in *. destruct (flag _ HEAP_XMIN_COMMITTED); [done|]. by rewrite Hb.
Qed.

Lemma now_post s cmin cmax :
  knows (world s) T → tuple_ok T (page s) (header s) → cids_ok s cmin cmax →
  (inserter T (page s) (header s) = V_mine → bit (header s) HEAP_XMAX_IS_MULTI = true →
     deleter T (page s) (header s) = None) →
  post (HeapTupleSatisfiesNow mgr env) s
    (λ r s', r = now_spec (GetCurrentCommandId env) (inserter T (page s) (header s))
                   (deleter T (page s) (header s)) cmin cmax ∧ evolves s s').
Proof.
  intros Hk Hok Hcid Hmulti. apply post_raw_xmin.
  apply (post_inserter (λ _, mret false)); [|done|done|].
  { intros. by apply post_bind, post_in_progress_now. }
  destruct (inserter T _ _) as [| |c| |] eqn:Hi; [..|done].
  - by apply now_own_post; auto.
  - intros w Hw. vstep. split; [done|ev].
  - intros s' He _. eapply post_mono.
    { apply (now_xmax_post s' cmin cmax); [apply He|by eapply evolves_ok|by eapply evolves_cids]. }
    intros r s2 [-> He2]. destruct (evolves_spec _ _ He) as [_ ->]. split; [done|]. by eapply evolves_trans.
  - intros s' He _. vstep. by split.
Qed.

(** [HeapTupleSatisfiesNow] is the condition of its comment: inserted by an
    earlier command of the current transaction or by one that has committed, and
    not deleted by an earlier command of the current transaction or by one that
    has committed. The hypothesis on multixacts excludes a tuple of the current
    transaction that it has also updated while others had it locked: there the
    code does not compare cmax. *)
Theorem satisfies_now s cmin cmax :
  knows (world s) T → tuple_ok T (page s) (header s) → cids_ok s cmin cmax →
  (inserter T (page s) (header s) = V_mine → bit (header s) HEAP_XMAX_IS_MULTI = true →
     deleter T (page s) (header s) = None) →
  post (HeapTupleSatisfiesNow mgr env) s
    (λ r s', r = now_spec (GetCurrentCommandId env) (inserter T (page s) (header s))
                   (deleter T (page s) (header s)) cmin cmax ∧ evolves s s').
Proof. apply now_post. Qed.

(** *** MVCC snapshots *)

Definition mvcc_inserted sn (cmin : Z) (v : verdict) : bool :=
  match v with
  | V_mine => negb (IsVersionMVCCSnapshot sn) && (cmin <? curcid sn)
  | v => sees sn v
  end.

Definition mvcc_deleted sn (cmax : Z) (d : option verdict) : bool :=
  match d with
  | Some V_mine => negb (IsVersionMVCCSnapshot sn) && (cmax <? curcid sn)
  | Some v => sees sn v
  | None => false
  end.

Definition mvcc_spec sn (ins : verdict) (del : option verdict) (cmin cmax : Z) : bool :=
  mvcc_inserted sn cmin ins && negb (mvcc_deleted sn cmax del).

(** The snapshot and the session: no GTM-Lite, no maintenance switches. *)
Definition mvcc_session sn : Prop :=
  snap_ok T sn ∧ h_GTM_LITE_MODE env = false ∧ XactReadOnly env && enable_show_any_tuples env = false.

Lemma post_no_lite bypass x sn hint same s (Q : bool * bool → vstate W → Prop) :
  mvcc_session sn → Q (false, false) s → post (gtm_lite_saves mgr env bypass x sn hint same) s Q.
Proof. intros (_ & Hl & _) HQ. unfold gtm_lite_saves. rewrite Hl. by apply post_ret. Qed.

(** The hint an answer of the transaction manager stands for. *)
Definition hint_allowed (x : Z) (st : TransactionIdStatus) (w : W) : Prop :=
  match st with
  | XID_COMMITTED => is_committed (T x) = true
  | XID_ABORTED =>
      T x = V_aborted ∧
      (x ≠ InvalidTransactionId → post (mgr_csn_did_abort mgr x) w (λ b w2, b = true ∧ knows w2 T))
  | XID_INPROGRESS => True
  end.

Lemma post_mgr_visible x w sn (Q : visible_result → W → Prop) :
  knows w T → snap_ok T sn → T x ≠ V_unknown →
  (∀ r w', knows w' T → visible r = sees sn (T x) → sync r = false → hint_allowed x (hintstatus r) w' →
     Q r w') →
  post (mgr_xid_visible mgr x sn) w Q.
Proof.
  intros Hk Hsn Hu HQ. eapply post_mono; [by apply (law_xid_visible _ T _ sn)|].
  intros r w' (Hw & Hvis & Hsync & Hhint & Hab). apply HQ; try done. unfold hint_allowed.
  destruct (hintstatus r); [| |done]; [by destruct (T x)|]. split; [by destruct (T x)|]. intros. by apply Hab.
Qed.

Lemma post_xid_visible x s sn (Q : visible_result → vstate W → Prop) :
  knows (world s) T → snap_ok T sn → T x ≠ V_unknown →
  (∀ r w, knows w T → visible r = sees sn (T x) → sync r = false → hint_allowed x (hintstatus r) w →
     Q r (set_world w s)) →
  post (xid_visible mgr env x sn) s Q.
Proof.
  intros Hk Hsn Hu HQ. apply post_bind, post_world, post_mgr_visible; [done..|]. intros r w Hw Hv Hs Hh.
  unfold reread. rewrite Hs. apply post_bind, post_skip, post_ret. by apply HQ.
Qed.

Lemma post_committed_visible x s sn (Q : bool → vstate W → Prop) :
  knows (world s) T → snap_ok T sn → is_committed (T x) = true →
  (∀ w, knows w T → Q (sees sn (T x)) (set_world w s)) → post (committed_visible mgr env x sn) s Q.
Proof.
  intros Hk Hsn Hc HQ. apply post_bind, post_world. eapply post_mono; [by apply (law_committed_visible _ T _ sn)|].
  intros r w [-> Hw]. apply post_bind, post_skip, post_ret. by apply HQ.
Qed.

Lemma post_hint_xmin st s (Q : unit → vstate W → Prop) :
  knows (world s) T → bit (header s) HEAP_XMIN_COMMITTED = false → bit (header s) HEAP_XMIN_INVALID = false →
  tup_xmin (page s) (header s) ≠ InvalidTransactionId →
  hint_allowed (tup_xmin (page s) (header s)) st (world s) → (∀ s', evolves s s' → Q tt s') →
  post (hint_xmin mgr env st) s Q.
Proof.
  intros Hk Hc Hi Hv Hst HQ. unfold hint_xmin. destruct st; cbn in Hst; bdec.
  - do 4 vstep. apply post_hint; [done|left; by split_and!|done|]. intros s' He _ _. vstep. by apply HQ.
  - destruct Hst as [Ha Hp]. specialize (Hp Hv). do 5 vstep. apply post_bind, post_world.
    eapply post_mono; [exact Hp|]. intros b w [-> Hw]. vstep.
    apply post_hint; [done|right; left; by split_and!|done|]. intros s' He _ _. apply HQ. ev.
  - do 3 vstep. by apply HQ, evolves_refl.
Qed.

Lemma post_hint_xmax st s (Q : unit → vstate W → Prop) :
  knows (world s) T → bit (header s) HEAP_XMAX_IS_MULTI = false → is_locked_only (header s) = false →
  tup_xmax (page s) (header s) ≠ InvalidTransactionId →
  hint_allowed (tup_xmax (page s) (header s)) st (world s) → (∀ s', evolves s s' → Q tt s') →
  post (hint_xmax mgr env st) s Q.
Proof.
  intros Hk Hm Hl Hv Hst HQ. unfold hint_xmax. destruct st; cbn in Hst; bdec.
  - do 4 vstep. apply post_hint; [done|right; right; left; by split_and!|done|]. intros s' He _ _. vstep. by apply HQ.
  - destruct Hst as [Ha Hp]. specialize (Hp Hv). do 5 vstep. apply post_bind, post_world.
    eapply post_mono; [exact Hp|]. intros b w [-> Hw]. vstep.
    assert (is_open (T (tup_xmax (page s) (header s))) = false) as Ho by by rewrite Ha.
    apply post_hint; [done| |done|].
    + right; right; right. split_and!; [done|by apply aborted_no_deleter|by apply single_closed].
    + intros s' He _ _. apply HQ. ev.
  - do 3 vstep. by apply HQ, evolves_refl.
Qed.

(** An xmin that is not hinted, and one hinted as committed. *)
Lemma mvcc_unknown_post s sn :
  knows (world s) T → mvcc_session sn → T (tup_xmin (page s) (header s)) ≠ V_unknown →
  tup_xmin (page s) (header s) ≠ InvalidTransactionId →
  bit (header s) HEAP_XMIN_COMMITTED = false → bit (header s) HEAP_XMIN_INVALID = false →
  post (mvcc_xmin_unknown mgr env sn) s
    (λ r s', r = sees sn (T (tup_xmin (page s) (header s))) ∧ evolves s s').
Proof.
  intros Hk Hs Hu Hv0 Hc Hi. pose proof Hs as (Hsn & _). unfold mvcc_xmin_unknown. repeat vstep.
  apply post_xid_visible; [done..|]. intros r w Hw Hv Hsy Hh. vstep.
  apply post_hint_xmin; [done..|]. intros s' He. rewrite <- Hv. destruct (visible r).
  - vstep. split; [done|ev].
  - unfold xmin_equals_xmax. repeat vstep. apply post_no_lite; [done|]. vstep. split; [done|ev].
Qed.

Lemma mvcc_committed_post s sn :
  knows (world s) T → mvcc_session sn → tuple_ok T (page s) (header s) →
  bit (header s) HEAP_XMIN_COMMITTED = true →
  post (mvcc_xmin_committed mgr env sn) s
    (λ r s', r = sees sn (inserter T (page s) (header s)) ∧ evolves s s').
Proof.
  intros Hk Hs Hok Hc. pose proof Hs as (Hsn & _). unfold mvcc_xmin_committed, inserter.
  pose proof (ok_xmin_committed _ _ _ Hok Hc) as Hcm. unfold inserter in Hcm. do 2 vstep.
  destruct (HeapTupleHeaderXminFrozen (header s)).
  - vstep. split; [|ev]. cbn. symmetry. apply Z.ltb_lt. by apply law_snap_frozen with T.
  - repeat vstep. apply post_committed_visible; [done..|]. intros w Hw.
    destruct (sees sn _) eqn:Hv; [vstep; split; [done|ev]|].
    unfold xmin_equals_xmax. repeat vstep. apply post_no_lite; [done|]. vstep. split; [done|ev].
Qed.

(** A version snapshot does not know the current transaction, except as the updater
    in a multixact. *)
Definition version_multi_ok s sn : Prop :=
  IsVersionMVCCSnapshot sn = true → bit (header s) HEAP_XMAX_IS_MULTI = true →
  deleter T (page s) (header s) ≠ Some V_mine.

Lemma mvcc_multi_post s sn cmin cmax :
  knows (world s) T → mvcc_session sn → tuple_ok T (page s) (header s) → cids_ok s cmin cmax →
  version_multi_ok s sn → bit (header s) HEAP_XMAX_INVALID = false → is_locked_only (header s) = false →
  bit (header s) HEAP_XMAX_IS_MULTI = true →
  post (mvcc_xmax_multi mgr env sn) s
    (λ r s', r = negb (mvcc_deleted sn cmax (deleter T (page s) (header s))) ∧ evolves s s').
Proof.
  intros Hk (Hsn & _) Hok Hcid Hver Hi Hl Hm. pose proof (ok_xmax _ _ _ Hok Hi) as Hx. rewrite Hm in Hx.
  pose proof (updater_known _ (law_invalid _ _ Hk) Hx) as Hu. specialize (λ H, Hver H Hm).
  unfold mvcc_xmax_multi. unfold deleter, deleter_xid in Hver |- *. rewrite Hi, Hl, Hm in Hver |- *. cbn [orb] in *.
  vstep. apply post_update_xid; [done|]. intros w Hw. apply post_bind, post_current; [done..|].
  destruct (is_mine (T (first_updater _))) eqn:Hmi.
  { vstep. apply (post_cmax _ cmin cmax); [done|]. vstep. destruct (T (first_updater _)); try done.
    split; [|ev]. cbn. destruct (IsVersionMVCCSnapshot sn); [by specialize (Hver eq_refl)|]. cbn.
    by rewrite Z.leb_antisym. }
  apply post_bind, post_world, post_mgr_visible; [done..|]. intros r w1 Hw1 -> Hsy Hh.
  destruct (sees sn (T (first_updater _))) eqn:Hs; cbn [negb].
  - vstep. apply post_did_commit; [done..|]. intros w2 Hw2.
    replace (is_committed _) with true by (by destruct (T (first_updater _))). vstep.
    apply post_committed_visible; [done|done|by destruct (T (first_updater _))|]. intros w3 Hw3. rewrite Hs. vstep.
    split; [|ev]. destruct (T (first_updater _)); try done; cbn in Hs |- *; by rewrite Hs.
  - vstep. split; [|ev]. destruct (T (first_updater _)); try done; cbn in Hs |- *; by rewrite Hs.
Qed.

(** The deleter of a tuple whose xmax is a plain xid. *)
Lemma single_deleter pg h :
  bit h HEAP_XMAX_INVALID = false → is_locked_only h = false → bit h HEAP_XMAX_IS_MULTI = false →
  deleter T pg h = effective (T (tup_xmax pg h)).
Proof. intros Hi Hl Hm. unfold deleter, deleter_xid. by rewrite Hi, Hl, Hm. Qed.

Lemma mvcc_deleted_plain sn cmax v :
  v ≠ V_mine ∨ IsVersionMVCCSnapshot sn = true →
  mvcc_deleted sn cmax (effective v) = sees sn v.
Proof. intros Hv. destruct v; try done. cbn. destruct Hv as [|Hv]; [done|by rewrite Hv]. Qed.

Lemma mvcc_xmax_committed_post s sn cmax :
  knows (world s) T → mvcc_session sn → is_committed (T (tup_xmax (page s) (header s))) = true →
  bit (header s) HEAP_XMAX_INVALID = false → is_locked_only (header s) = false →
  bit (header s) HEAP_XMAX_IS_MULTI = false →
  post (mvcc_xmax_committed mgr env sn) s
    (λ r s', r = negb (mvcc_deleted sn cmax (deleter T (page s) (header s))) ∧ evolves s s').
Proof.
  intros Hk Hse Hcm Hi Hl Hm. pose proof Hse as (Hsn & _). rewrite single_deleter by done.
  rewrite mvcc_deleted_plain by (left; by destruct (T _)).
  unfold mvcc_xmax_committed. repeat vstep. apply post_committed_visible; [done..|]. intros w Hw.
  destruct (sees sn _); [vstep; split; [done|ev]|].
  repeat vstep. apply post_no_lite; [done|]. vstep. split; [done|ev].
Qed.

Lemma mvcc_xmax_unknown_post rec s sn cmin cmax :
  knows (world s) T → mvcc_session sn → cids_ok s cmin cmax → T (tup_xmax (page s) (header s)) ≠ V_unknown →
  tup_xmax (page s) (header s) ≠ InvalidTransactionId →
  bit (header s) HEAP_XMAX_INVALID = false → is_locked_only (header s) = false →
  bit (header s) HEAP_XMAX_IS_MULTI = false →
  post (mvcc_xmax_unknown mgr env rec sn) s
    (λ r s', r = negb (mvcc_deleted sn cmax (deleter T (page s) (header s))) ∧ evolves s s').
Proof.
  intros Hk Hse Hcid Hu Hv0 Hi Hl Hm. pose proof Hse as (Hsn & _). rewrite single_deleter by done.
  unfold mvcc_xmax_unknown. repeat vstep. rewrite (law_current _ T) by eauto.
  destruct (negb (IsVersionMVCCSnapshot sn) && is_mine _) eqn:Hown.
  { apply andb_true_iff in Hown as [Hver Hmi]. destruct (T (tup_xmax _ _)); try done. cbn. rewrite Hver. cbn.
    vstep. apply (post_note _ cmax); [intros; by apply (post_cmax _ cmin cmax)| |];
      vstep; (apply (post_cmax _ cmin cmax); [done|]); vstep; (split; [by rewrite Z.leb_antisym|ev]). }
  rewrite mvcc_deleted_plain.
  2: { apply andb_false_iff in Hown as [?|?]; [right; by apply negb_false_iff|left; by destruct (T _)]. }
  vstep. apply post_xid_visible; [done..|]. intros r w Hw Hv Hsy Hh. repeat vstep. rewrite Hsy. cbn [andb orb].
  vstep. apply post_hint_xmax; [done..|]. intros s' He. rewrite <- Hv. destruct (visible r).
  - vstep. split; [done|ev].
  - repeat vstep. apply post_no_lite; [done|]. cbn [fst]. repeat vstep. cbn [andb snd]. vstep. split; [done|ev].
Qed.

Lemma mvcc_xmax_post fuel s sn cmin cmax :
  knows (world s) T → mvcc_session sn → tuple_ok T (page s) (header s) → cids_ok s cmin cmax →
  version_multi_ok s sn →
  post (mvcc_xmax mgr env fuel sn) s
    (λ r s', r = negb (mvcc_deleted sn cmax (deleter T (page s) (header s))) ∧ evolves s s').
Proof.
  intros Hk Hse Hok Hcid Hver. pose proof (ok_xmax _ _ _ Hok) as Hx.
  pose proof (ok_xmax_committed _ _ _ Hok) as Hc. pose proof (evolves_refl s Hk) as Hr.
  destruct fuel; cbn [mvcc_xmax]; repeat vstep.
  all: destruct (bit (header s) HEAP_XMAX_INVALID) eqn:Hi;
    [repeat vstep; unfold deleter, deleter_xid; by rewrite Hi|]; specialize (Hx eq_refl).
  all: repeat vstep; destruct (is_locked_only (header s)) eqn:Hl;
    [repeat vstep; by rewrite locked_no_deleter|].
  all: repeat vstep; destruct (bit (header s) HEAP_XMAX_IS_MULTI) eqn:Hm; [by apply (mvcc_multi_post _ _ cmin)|].
  all: repeat vstep; destruct (bit (header s) HEAP_XMAX_COMMITTED) eqn:Hxc;
    [by apply mvcc_xmax_committed_post; try apply Hc|].
  all: by apply (mvcc_xmax_unknown_post _ _ _ cmin); try done; apply (ok_xmax_valid _ _ _ Hok).
Qed.

Lemma mvcc_own_post s sn cmin cmax :
  knows (world s) T → tuple_ok T (page s) (header s) → cids_ok s cmin cmax →
  inserter T (page s) (header s) = V_mine → IsVersionMVCCSnapshot sn = false →
  post (mvcc_own mgr env sn) s
    (λ r s', r = mvcc_spec sn V_mine (deleter T (page s) (header s)) cmin cmax ∧ evolves s s').
Proof.
  intros Hk Hok Hcid Hmine Hver. pose proof (ok_xmax _ _ _ Hok) as Hx.
  pose proof (ok_own _ _ _ Hok Hmine) as Hown. pose proof (law_invalid _ _ Hk) as H0.
  unfold mvcc_own, mvcc_spec, mvcc_inserted. rewrite Hver. vstep.
  apply (post_note_cmin _ _ cmin cmax); [done..|]. intros s0 He0 Hh0 Hp0 Hw0 Hc0.
  assert (knows (world s0) T) as Hk0 by by rewrite Hw0.
  vstep. apply (post_mono _ _ (λ r s1, r = false ∧ s1 = s0)).
  { do 3 vstep. destruct (bit (header s0) HEAP_COMBOCID) eqn:Hcb; repeat vstep; [|done].
    apply (post_combo _ _ false); [|done]. unfold CheckStreamCombocid, HeapTupleHeaderGetRawCommandId.
    destruct (SS_STANDBY_MODE_WITH_REMOTE_EXECUTE (h_combo env)); [done|].
    eapply runs_bind; [apply runs_gets|]. destruct Hc0 as [_ Hlt]. by rewrite (proj2 (Z.leb_gt _ _)) by auto. }
  intros _ s1 [-> ->]. vstep. apply (post_cmin _ cmin cmax); [done|].
  rewrite (Z.ltb_antisym (curcid sn) cmin). case_bool; [vstep; by split|]. cbn [negb andb].
  unfold deleter, deleter_xid in Hown |- *. repeat vstep. rewrite Hh0.
  destruct (bit (header s) HEAP_XMAX_INVALID) eqn:Hi; [by repeat vstep|]. specialize (Hx eq_refl).
  repeat vstep. rewrite Hh0. destruct (is_locked_only (header s)) eqn:Hl; [by repeat vstep|].
  repeat vstep. rewrite Hh0. cbn [orb] in *.
  destruct (bit (header s) HEAP_XMAX_IS_MULTI) eqn:Hm; repeat vstep.
  - pose proof (updater_known _ H0 Hx) as Hu. apply post_update_xid; [done|]. rewrite Hp0, Hh0. intros w Hw.
    apply post_bind, post_current; [done..|].
    assert (evolves s (set_world w s0)) as He1 by (eapply evolves_trans; [exact He0|ev]).
    destruct (T (first_updater _)) as [| |c| |] eqn:Hv; try (by destruct Hown); cbn [is_mine]; vstep.
    + apply (post_cmax _ cmin cmax); [done|]. vstep. split; [cbn; rewrite Hver; cbn; by rewrite Z.leb_antisym|done].
    + by split.
  - rewrite Hp0, Hh0. apply post_bind, post_current; [done..|].
    destruct (T (tup_xmax _ _)) as [| |c| |] eqn:Hv; try (by destruct Hown); cbn [is_mine].
    + assert (evolves s (set_cur_write s0)) by (eapply evolves_trans; [exact He0|ev]).
      vstep. apply (post_note _ cmax); [intros; by apply (post_cmax _ cmin cmax)| |];
        vstep; (apply (post_cmax _ cmin cmax); [done|]); vstep;
        (split; [cbn; rewrite Hver; cbn; by rewrite Z.leb_antisym|done]).
    + assert (is_open (T (tup_xmax (page s) (header s))) = false) as Hov by by rewrite Hv.
      vstep. apply post_hint; [done| |done|].
      * right; right; right. rewrite Hp0, Hh0.
        split_and!; [done|by apply aborted_no_deleter|by apply single_closed].
      * intros s' He _ _. vstep. split; [done|]. by eapply evolves_trans.
Qed.

(** Facts on the state that later hints do not change. *)
Lemma evolves_multi s s' :
  evolves s s' → bit (header s') HEAP_XMAX_IS_MULTI = bit (header s) HEAP_XMAX_IS_MULTI.
Proof.
  intros [_ _ _ _ Hh]. induction Hh as [|h1 h2 h3 Hs _ IH]; [done|].
  rewrite IH. destruct Hs as (b & Hj & ->). eapply or_mask_multi, justified_hint_bit, Hj.
Qed.

Lemma evolves_version s s' sn : evolves s s' → version_multi_ok s sn → version_multi_ok s' sn.
Proof.
  intros He Hv Hver Hm. destruct (evolves_spec _ _ He) as [_ ->]. apply Hv; [done|]. rewrite <- Hm.
  symmetry. by apply evolves_multi.
Qed.

Lemma mvcc_post fuel s sn cmin cmax :
  knows (world s) T → mvcc_session sn → tuple_ok T (page s) (header s) → cids_ok s cmin cmax →
  version_multi_ok s sn →
  post (HeapTupleSatisfiesMVCC mgr env fuel sn) s
    (λ r s', r = mvcc_spec sn (inserter T (page s) (header s)) (deleter T (page s) (header s)) cmin cmax ∧
             evolves s s').
Proof.
  intros Hk Hse Hok Hcid Hver. pose proof (evolves_refl s Hk) as Hr. pose proof (ok_xmin _ _ _ Hok) as Hu.
  assert (∀ s' b, evolves s s' → b = mvcc_inserted sn cmin (inserter T (page s) (header s)) →
    post (if b then mvcc_xmax mgr env fuel sn else mret false) s'
      (λ r s2, r = mvcc_spec sn (inserter T (page s) (header s)) (deleter T (page s) (header s)) cmin cmax ∧
               evolves s s2)) as Htail.
  { intros s' b He ->. unfold mvcc_spec. destruct (mvcc_inserted _ _ _); [|vstep; by split].
    eapply post_mono; [apply (mvcc_xmax_post _ _ _ cmin cmax); [apply He|done|by eapply evolves_ok
      |by eapply evolves_cids|by eapply evolves_version]|].
    intros r s2 [-> He2]. destruct (evolves_spec _ _ He) as [_ ->]. split; [done|]. by eapply evolves_trans. }
  unfold HeapTupleSatisfiesMVCC. pose proof Hse as (_ & _ & ->). repeat vstep.
  destruct (bit (header s) HEAP_XMIN_COMMITTED) eqn:Hc.
  { vstep. eapply post_mono; [by apply mvcc_committed_post|]. intros r s' [-> He]. apply Htail; [done|].
    pose proof (ok_xmin_committed _ _ _ Hok Hc). by destruct (inserter T _ _). }
  repeat vstep. destruct (HeapTupleHeaderXminInvalid (header s)) eqn:Hiv.
  { vstep. rewrite (ok_xmin_invalid _ _ _ Hok Hiv). by split. }
  rewrite bits_invalid, Hc in Hiv. cbn in Hiv.
  assert (inserter T (page s) (header s) = T (tup_xmin (page s) (header s))) as Hins.
  { unfold inserter. by rewrite bits_frozen, Hc. }
  rewrite Hins in Hu. repeat vstep. rewrite (law_current _ T) by eauto.
  destruct (negb (IsVersionMVCCSnapshot sn) && is_mine _) eqn:Hown.
  { apply andb_true_iff in Hown as [Hv Hmi]. apply negb_true_iff in Hv.
    assert (inserter T (page s) (header s) = V_mine) as Hmine by (rewrite Hins; by destruct (T (tup_xmin _ _))).
    rewrite Hmine. by apply mvcc_own_post. }
  vstep. eapply post_mono; [by apply mvcc_unknown_post; try done; apply (ok_xmin_valid _ _ _ Hok)|]. intros r s' [-> He]. apply Htail; [done|].
  rewrite Hins. unfold mvcc_inserted. destruct (T (tup_xmin _ _)); try done.
  cbn in Hown |- *. rewrite andb_true_r in Hown. by rewrite Hown.
Qed.

(** C1: Tuple visibility is snapshot isolation. [HeapTupleSatisfiesMVCC] returns,
    without waiting and for any bound on its retries, that the tuple is visible iff
    its inserter is visible and its deleter is not: a transaction of others is
    visible iff it committed with a CSN before the snapshot's, one of our own by
    command ids. It leaves only truthful hints in the header, which may carry any
    truthful hints to begin with. *)
Theorem satisfies_mvcc fuel s sn cmin cmax :
  knows (world s) T → mvcc_session sn → tuple_ok T (page s) (header s) → cids_ok s cmin cmax →
  version_multi_ok s sn →
  post (HeapTupleSatisfiesMVCC mgr env fuel sn) s
    (λ r s', r = mvcc_spec sn (inserter T (page s) (header s)) (deleter T (page s) (header s)) cmin cmax ∧
             evolves s s').
Proof. apply mvcc_post. Qed.

(** *** VACUUM *)

Lemma post_any_open ms s (Q : bool → vstate W → Prop) :
  knows (world s) T → (∀ m, m ∈ ms → T (mx_xid m) ≠ V_unknown) →
  (∀ w, knows w T → Q (existsb (λ m, is_open (T (mx_xid m))) ms) (set_world w s)) →
  post (any_in_progress mgr ms) s Q.
Proof.
  revert s. induction ms as [|m ms IH]; intros s Hk Hm HQ; cbn.
  { apply post_ret. pose proof (HQ (world s) Hk) as HQs. by destruct s. }
  apply post_bind, post_in_progress; [done|apply Hm; left|]. intros w Hw.
  cbn in HQ. destruct (is_open (T (mx_xid m))) eqn:Ho; rewrite ?Ho in HQ; cbn [orb] in HQ.
  - by apply post_ret, HQ.
  - apply IH; [done| |]; [intros m' Hm'; apply Hm; by right|]. intros w' Hw'. by apply (HQ w').
Qed.

(** A multixact runs iff one of its members is open. *)
Lemma post_multi_running x s (Q : bool → vstate W → Prop) :
  knows (world s) T → (∀ m, m ∈ members_of T x → T (mx_xid m) ≠ V_unknown) →
  (∀ w, knows w T → Q (existsb (λ m, is_open (T (mx_xid m))) (members_of T x)) (set_world w s)) →
  post (MultiXactIdIsRunning mgr x) s Q.
Proof.
  intros Hk Hm HQ. apply post_bind, post_world. eapply post_mono; [by apply (law_members _ T)|].
  intros ms w [-> Hw]. case_bool.
  - vstep. replace true with (existsb (λ m, is_open (T (mx_xid m))) (members_of T x)); [by apply HQ|].
    apply existsb_exists in Heqb as (m & Hin & Hc). apply existsb_exists. exists m. split; [done|].
    assert (T (mx_xid m) ≠ V_unknown) as Hu by by apply Hm, list_elem_of_In.
    rewrite (law_current _ T) in Hc by eauto. by destruct (T (mx_xid m)).
  - apply post_any_open; [done..|]. intros w' Hw'. by apply (HQ w').
Qed.

Lemma not_running_closed pg h :
  bit h HEAP_XMAX_IS_MULTI = true →
  existsb (λ m, is_open (T (mx_xid m))) (members_of T (tup_xmax pg h)) = false → xmax_closed T pg h.
Proof.
  intros Hm He. unfold xmax_closed. rewrite Hm. intros m Hin.
  destruct (is_open (T (mx_xid m))) eqn:Ho; [|done]. exfalso.
  enough (existsb (λ m, is_open (T (mx_xid m))) (members_of T (tup_xmax pg h)) = true) by congruence.
  apply existsb_exists. exists m. by split; [apply list_elem_of_In|].
Qed.

Lemma hints_deleter_xid pg h h' :
  rtc (hint_step T pg) h h' → deleter T pg h ≠ None → deleter_xid T pg h' = deleter_xid T pg h.
Proof.
  induction 1 as [|h1 h2 h3 Hs _ IH]; [done|]. intros Hd. rewrite IH by by rewrite (hint_step_deleter _ _ _ _ Hs).
  destruct Hs as (b & Hj & ->). pose proof (justified_hint_bit _ _ _ _ Hj) as Hb.
  unfold deleter_xid. rewrite or_mask_locked, or_mask_multi, or_mask_xmax, or_mask_bit by done.
  destruct Hj as [(-> & _)|[(-> & _)|[(-> & _)|(_ & ? & _)]]]; [by rewrite orb_false_r..|done].
Qed.

(** What VACUUM should say of a tuple. *)
Definition vacuum_spec (OldestXmin : Z) (ins : verdict) (del : option verdict) (delxid : option Z)
    (r : HTSV_Result) : Prop :=
  match ins with
  | V_mine => r = HEAPTUPLE_INSERT_IN_PROGRESS ∨ r = HEAPTUPLE_DELETE_IN_PROGRESS
  | V_running => r = HEAPTUPLE_INSERT_IN_PROGRESS
  | V_committed _ =>
      match del with
      | None => r = HEAPTUPLE_LIVE
      | Some (V_committed _) =>
          ∃ x, delxid = Some x ∧ r = if x <? OldestXmin then HEAPTUPLE_DEAD else HEAPTUPLE_RECENTLY_DEAD
      | Some _ => r = HEAPTUPLE_DELETE_IN_PROGRESS
      end
  | _ => r = HEAPTUPLE_DEAD
  end.

(** The bases of the tuple are those of its page. *)
Definition based s : Prop :=
  t_xid_base (htup s) = pd_xid_base (page s) ∧ t_multi_base (htup s) = pd_multi_base (page s).

Lemma based_xmin s : based s → HeapTupleGetRawXmin (htup s) = tup_xmin (page s) (header s).
Proof. intros [Hb _]. unfold HeapTupleGetRawXmin. by rewrite Hb. Qed.

Lemma based_xmax s : based s → HeapTupleGetRawXmax (htup s) = tup_xmax (page s) (header s).
Proof. intros [Hb Hm]. unfold HeapTupleGetRawXmax. by rewrite Hb, Hm. Qed.

Lemma based_evolves s s' : based s → evolves s s' → outs s' = outs s → based s'.
Proof. intros [Hb Hm] He [= _ _ H1 H2]. unfold based. by rewrite H1, H2, (ev_page _ _ He). Qed.

(** What the status of an xid tells. *)
Definition status_ok (x : Z) (r : TransactionIdStatus) : Prop :=
  match T x with
  | V_committed _ => r = XID_COMMITTED
  | V_aborted => r ≠ XID_COMMITTED
  | _ => r = XID_INPROGRESS
  end.

Lemma post_status x s (Q : TransactionIdStatus → vstate W → Prop) :
  knows (world s) T → T x ≠ V_unknown →
  (∀ r w, knows w T → status_ok x r → Q r (set_world w s)) →
  post (on_world (mgr_get_status mgr x)) s Q.
Proof.
  intros Hk Hu HQ. apply post_world. eapply post_mono; [by apply (law_get_status _ T)|].
  intros r w [Hw Hr]. by apply HQ.
Qed.

(** The two questions VACUUM asks with the status in hand: is the xid open, has it
    committed. *)
Lemma post_questions {A} x r s (k1 k2 k3 : M (vstate W) A) (Q : A → vstate W → Prop) :
  knows (world s) T → T x ≠ V_unknown → status_ok x r →
  (∀ w, knows w T → match T x with
     | V_mine | V_running => post k1 (set_world w s) Q
     | V_committed _ => post k2 (set_world w s) Q
     | _ => post k3 (set_world w s) Q
     end) →
  post (If still_running mgr r x Then k1 Else If now_committed mgr r x Then k2 Else k3) s Q.
Proof.
  intros Hk Hu Hr HQ. unfold still_running, now_committed, status_ok in *.
  assert (set_world (world s) s = s) as Hid by (by destruct s).
  pose proof (HQ (world s) Hk) as HQw. rewrite Hid in HQw.
  destruct r; bdec; repeat vstep.
  - by destruct (T x).
  - by destruct (T x).
  - apply post_in_progress; [done..|]. intros w1 Hw1. pose proof (HQ w1 Hw1) as HQ1.
    destruct (T x) eqn:Hv; try done; cbn [is_open]; repeat vstep.
    apply post_did_commit; [done|by rewrite Hv|]. intros w2 Hw2. rewrite Hv. cbn. exact (HQ w2 Hw2).
Qed.

(** The node uses global snapshots (or is being initialised). *)
Definition vacuum_session : Prop := negb (h_useLocalSnapshot env) || IsInitdb env = true.

Lemma vacuum_xmin_post an s :
  knows (world s) T → vacuum_session → based s → T (tup_xmin (page s) (header s)) ≠ V_unknown →
  bit (header s) HEAP_XMIN_COMMITTED = false → bit (header s) HEAP_XMIN_INVALID = false →
  post (vacuum_xmin mgr env an) s
    (λ r s', evolves s s' ∧ outs s' = outs s ∧
      match T (tup_xmin (page s) (header s)) with
      | V_committed _ => r = None
      | v => ∃ r', r = Some r' ∧ vacuum_spec 0 v None None r'
      end).
Proof.
  intros Hk Hse Hb Hu Hc Hi. unfold vacuum_xmin. repeat vstep. rewrite based_xmin by done.
  apply post_status; [done..|]. intros r w Hw Hr. apply post_bind, post_current; [done..|].
  destruct (is_mine (T (tup_xmin (page s) (header s)))) eqn:Hmi.
  { destruct (T (tup_xmin (page s) (header s))); try done.
    assert (∀ r', vacuum_spec 0 V_mine None None r' → evolves s (set_world w s) ∧
      outs (set_world w s) = outs s ∧ ∃ r0, Some r' = Some r0 ∧ vacuum_spec 0 V_mine None None r0) as Hdone.
    { intros r' ?. split_and!; [ev|done|eauto]. }
    repeat vstep. case_bool; [repeat vstep; apply Hdone; by left|].
    repeat vstep. case_bool; [repeat vstep; apply Hdone; by left|].
    repeat vstep. apply post_bind, post_ret. case_bool; vstep; apply Hdone; [by right|by left]. }
  apply post_questions; [done..|]. intros w1 Hw1.
  destruct (T (tup_xmin (page s) (header s))) as [| |c| |] eqn:Hv; try done.
  - vstep. split_and!; [ev|done|by eexists].
  - assert (is_committed (T (tup_xmin (page s) (header s))) = true) as Hcv by by rewrite Hv.
    vstep. destruct an; [vstep; vstep; split_and!; [ev|done..]|].
    apply post_hint; [done|left; by split_and!|done|]. intros s' He _ Hout. vstep. split_and!; [ev|done..].
  - do 3 vstep. apply post_check_aborted; [done..|]. intros w2 Hw2. vstep.
    apply post_hint; [done|right; left; by split_and!|done|]. intros s' He _ Hout. vstep.
    split_and!; [ev|done|]. unfold unless_local. rewrite Hse. by eexists.
Qed.

Lemma vacuum_locked_post s :
  knows (world s) T → tuple_ok T (page s) (header s) → based s → bit (header s) HEAP_XMAX_INVALID = false →
  is_locked_only (header s) = true →
  post (vacuum_locked mgr env) s (λ r s', r = HEAPTUPLE_LIVE ∧ evolves s s').
Proof.
  intros Hk Hok Hb Hi Hl. pose proof (ok_xmax _ _ _ Hok Hi) as Hx. unfold vacuum_locked. repeat vstep.
  destruct (bit (header s) HEAP_XMAX_COMMITTED); [vstep; split; [done|ev]|].
  assert (∀ w, knows w T → xmax_closed T (page s) (header s) →
    post (SetHintBits mgr env HEAP_XMAX_INVALID InvalidTransactionId ≫= λ _, mret HEAPTUPLE_LIVE) (set_world w s)
      (λ r s', r = HEAPTUPLE_LIVE ∧ evolves s s')) as Hset.
  { intros w Hw Hcl. vstep. apply post_hint; [done| |done|].
    - right; right; right. split_and!; [done|by apply locked_no_deleter|done].
    - intros s' He _ _. vstep. split; [done|ev]. }
  repeat vstep. destruct (bit (header s) HEAP_XMAX_IS_MULTI) eqn:Hm; repeat vstep; rewrite based_xmax by done.
  - apply post_multi_running; [done..|]. intros w Hw. destruct (existsb _ _) eqn:He; [vstep; split; [done|ev]|].
    by apply Hset, not_running_closed.
  - apply post_status; [done..|]. intros r w Hw Hr. unfold still_running. unfold status_ok in Hr.
    assert (is_open (T (tup_xmax (page s) (header s))) = false → xmax_closed T (page s) (header s)) as Hcl.
    { intros Ho. by apply single_closed. }
    destruct r; bdec; [vstep|vstep|].
    + apply Hset; [done|]. apply Hcl. by destruct (T _).
    + apply Hset; [done|]. apply Hcl. by destruct (T _).
    + apply post_in_progress; [done..|]. intros w1 Hw1. case_bool; [vstep; split; [done|ev]|].
      by apply (Hset w1), Hcl.
Qed.

Lemma vacuum_multi_post oldest s c :
  knows (world s) T → tuple_ok T (page s) (header s) → bit (header s) HEAP_XMAX_INVALID = false →
  is_locked_only (header s) = false → bit (header s) HEAP_XMAX_IS_MULTI = true →
  post (vacuum_multi mgr env oldest) s
    (λ r s', vacuum_spec oldest (V_committed c) (deleter T (page s) (header s))
               (deleter_xid T (page s) (header s)) r ∧ evolves s s').
Proof.
  intros Hk Hok Hi Hl Hm. pose proof (ok_xmax _ _ _ Hok Hi) as Hx. rewrite Hm in Hx.
  pose proof (updater_known _ (law_invalid _ _ Hk) Hx) as Hu.
  assert (flag (t_infomask2 (header s)) HEAP_XMAX_LOCK_ONLY = false) as Hlo.
  { unfold is_locked_only, HEAP_XMAX_IS_LOCKED_ONLY in Hl. by apply orb_false_iff in Hl as [[? _]%orb_false_iff _]. }
  unfold deleter, deleter_xid. rewrite Hi, Hl, Hm. cbn [orb].
  unfold vacuum_multi, HeapTupleHeaderGetUpdateXid. repeat vstep. rewrite Hi, Hm, Hlo. cbn [negb andb].
  apply post_update_xid; [done|]. intros w Hw. vstep. apply post_in_progress; [done..|]. intros w1 Hw1.
  destruct (T (first_updater _)) as [| |c'| |] eqn:Hv; try done; cbn [is_open effective vacuum_spec].
  1, 2: vstep; split; [done|ev].
  - vstep. apply post_did_commit; [done|by rewrite Hv|]. intros w2 Hw2. rewrite Hv. cbn [is_committed]. vstep.
    split; [by eexists|ev].
  - vstep. apply post_did_commit; [done|by rewrite Hv|]. intros w2 Hw2. rewrite Hv. cbn [is_committed]. repeat vstep.
    apply post_multi_running; [done..|]. intros w3 Hw3. destruct (existsb _ _) eqn:He; [vstep; split; [done|ev]|].
    vstep. apply post_hint; [done| |done|].
    + right; right; right. split_and!; [done|by apply aborted_multi_no_deleter|by apply not_running_closed].
    + intros s' He' _ _. vstep. split; [done|ev].
Qed.

Lemma vacuum_xmax_post oldest s c :
  knows (world s) T → vacuum_session → tuple_ok T (page s) (header s) → based s →
  post (vacuum_xmax mgr env oldest) s
    (λ r s', vacuum_spec oldest (V_committed c) (deleter T (page s) (header s))
               (deleter_xid T (page s) (header s)) r ∧ evolves s s').
Proof.
  intros Hk Hse Hok Hb. pose proof (ok_xmax _ _ _ Hok) as Hx.
  pose proof (ok_xmax_committed _ _ _ Hok) as Hc. pose proof (evolves_refl s Hk) as Hr.
  unfold vacuum_xmax. repeat vstep. destruct (bit (header s) HEAP_XMAX_INVALID) eqn:Hi.
  { repeat vstep. unfold deleter, deleter_xid. by rewrite Hi. }
  specialize (Hx eq_refl). repeat vstep. destruct (is_locked_only (header s)) eqn:Hl.
  { eapply post_mono; [by apply vacuum_locked_post|]. intros r s' [-> He]. by rewrite locked_no_deleter. }
  repeat vstep. destruct (bit (header s) HEAP_XMAX_IS_MULTI) eqn:Hm; [by apply vacuum_multi_post|].
  rewrite single_deleter by done. unfold deleter_xid. rewrite Hi, Hl, Hm. cbn [orb].
  assert (∀ s', evolves s s' → outs s' = outs s → tup_xmax (page s') (header s') = tup_xmax (page s) (header s) →
    is_committed (T (tup_xmax (page s) (header s))) = true →
    post (vacuum_deleted env oldest) s' (λ r s2,
      vacuum_spec oldest (V_committed c) (effective (T (tup_xmax (page s) (header s))))
        (Some (tup_xmax (page s) (header s))) r ∧ evolves s s2)) as Hdel.
  { intros s' He Ho Hxm Hcm. unfold vacuum_deleted. repeat vstep.
    rewrite based_xmax by by eapply based_evolves. unfold unless_local. rewrite Hse, Hxm.
    destruct (T (tup_xmax (page s) (header s))); try done. split; [by eexists|done]. }
  repeat vstep. destruct (bit (header s) HEAP_XMAX_COMMITTED) eqn:Hxc.
  { apply Hdel; try done. by apply Hc. }
  repeat vstep. rewrite based_xmax by done. apply post_status; [done..|]. intros st w Hw Hst.
  apply post_questions; [done..|]. intros w1 Hw1.
  destruct (T (tup_xmax (page s) (header s))) as [| |c'| |] eqn:Hv; try done.
  1, 2: vstep; split; [done|ev].
  - assert (is_committed (T (tup_xmax (page s) (header s))) = true) as Hcv by by rewrite Hv.
    vstep. apply post_hint; [done|right; right; left; by split_and!|done|]. intros s' He Hh Ho.
    apply Hdel; [ev|done| |done]. rewrite (ev_page _ _ He). destruct Hh as [->| ->]; [done|].
    by rewrite or_mask_xmax by (unfold hint_bit; tauto).
  - assert (is_open (T (tup_xmax (page s) (header s))) = false) as Hov by by rewrite Hv.
    do 3 vstep. apply post_check_aborted; [done..|]. intros w2 Hw2. vstep. apply post_hint; [done| |done|].
    + right; right; right. split_and!; [done|by apply aborted_no_deleter|by apply single_closed].
    + intros s' He _ _. vstep. split; [done|ev].
Qed.

Lemma vacuum_post oldest an s :
  knows (world s) T → vacuum_session → tuple_ok T (page s) (header s) →
  post (HeapTupleSatisfiesVacuum mgr env oldest an) s
    (λ r s', vacuum_spec oldest (inserter T (page s) (header s)) (deleter T (page s) (header s))
               (deleter_xid T (page s) (header s)) r ∧ evolves s s').
Proof.
  intros Hk Hse Hok. pose proof (ok_xmin _ _ _ Hok) as Hu. unfold HeapTupleSatisfiesVacuum, copy_base. vstep.
  apply post_modify. match goal with |- post _ ?s0 _ => set (s1 := s0) end.
  assert (evolves s s1) as He1 by by split.
  assert (based s1) as Hb1 by done. repeat vstep.
  change (header s1) with (header s). destruct (bit (header s) HEAP_XMIN_COMMITTED) eqn:Hc.
  { pose proof (ok_xmin_committed _ _ _ Hok Hc) as Hcm. destruct (inserter T _ _) as [| |c| |]; try done.
    eapply post_mono; [by apply (vacuum_xmax_post oldest s1 c)|]. intros r s' [Hr He].
    split; [done|]. by eapply evolves_trans. }
  repeat vstep. change (header s1) with (header s).
  destruct (HeapTupleHeaderXminInvalid (header s)) eqn:Hiv.
  { vstep. by rewrite (ok_xmin_invalid _ _ _ Hok Hiv). }
  rewrite bits_invalid, Hc in Hiv. cbn in Hiv.
  assert (inserter T (page s) (header s) = T (tup_xmin (page s) (header s))) as Hins.
  { unfold inserter. by rewrite bits_frozen, Hc. }
  rewrite Hins in Hu |- *. vstep. eapply post_mono; [by apply (vacuum_xmin_post an s1)|].
  change (tup_xmin (page s1) (header s1)) with (tup_xmin (page s) (header s)).
  intros r s' (He & Ho & Hr). assert (evolves s s') as Hes by by eapply evolves_trans.
  destruct (T (tup_xmin (page s) (header s))) as [| |c| |] eqn:Hv; try done.
  1, 2, 4: destruct Hr as (r' & -> & Hr'); vstep; by split.
  subst r. eapply post_mono; [apply (vacuum_xmax_post oldest s' c); [apply He|done|by eapply evolves_ok|]|].
  { by eapply based_evolves. }
  intros r s2 [Hr He2]. split; [|by eapply evolves_trans]. destruct (evolves_spec _ _ Hes) as [_ Hd].
  rewrite Hd in Hr. destruct (deleter T (page s) (header s)) as [v|] eqn:Hdel; [|done].
  rewrite (ev_page _ _ Hes), (hints_deleter_xid (page s) (header s) (header s')) in Hr; [done|apply Hes|].
  by rewrite Hdel.
Qed.

(** [HeapTupleSatisfiesVacuum] classifies a tuple by what happened to its
    inserter and deleter: dead when the inserter has aborted or the deleter has
    committed before the horizon, recently dead when it has committed since, live
    when nobody that matters has deleted it, else in progress. It returns without
    an error and leaves only truthful hints. *)
Theorem satisfies_vacuum oldest an s :
  knows (world s) T → vacuum_session → tuple_ok T (page s) (header s) →
  post (HeapTupleSatisfiesVacuum mgr env oldest an) s
    (λ r s', vacuum_spec oldest (inserter T (page s) (header s)) (deleter T (page s) (header s))
               (deleter_xid T (page s) (header s)) r ∧ evolves s s').
Proof. apply vacuum_post. Qed.

(** The horizon of VACUUM is below every snapshot in use: what it precedes and has
    committed, [sn] sees. *)
Definition horizon_ok (oldest : Z) sn : Prop :=
  ∀ x c, T x = V_committed c → x < oldest → c < snapshotcsn sn.

Lemma dead_invisible oldest h pg sn cmin cmax :
  horizon_ok oldest sn →
  vacuum_spec oldest (inserter T pg h) (deleter T pg h) (deleter_xid T pg h) HEAPTUPLE_DEAD →
  mvcc_spec sn (inserter T pg h) (deleter T pg h) cmin cmax = false.
Proof.
  intros Hh Hd. unfold mvcc_spec. destruct (inserter T pg h) as [| |c| |]; cbn in Hd; try done; [by destruct Hd|].
  unfold deleter in *. destruct (deleter_xid T pg h) as [x|]; [|done].
  destruct (T x) as [| |c'| |] eqn:Hv; cbn in Hd; try done. destruct Hd as (? & [= <-] & Hd).
  destruct (Z.ltb_spec x oldest) as [Hx|]; [|done]. cbn.
  rewrite (proj2 (Z.ltb_lt _ _) (Hh x c' Hv Hx)). apply andb_false_r.
Qed.

(** C6: VACUUM removes nothing that anybody can see: if it calls a tuple dead,
    [HeapTupleSatisfiesMVCC] says "not visible" on that tuple for every snapshot
    the horizon is valid for. *)
Theorem vacuum_dead_invisible oldest an s fuel sn cmin cmax s1 :
  knows (world s) T → vacuum_session → tuple_ok T (page s) (header s) →
  runs (HeapTupleSatisfiesVacuum mgr env oldest an) s HEAPTUPLE_DEAD s1 →
  mvcc_session sn → cids_ok s cmin cmax → version_multi_ok s sn → horizon_ok oldest sn →
  ∃ s2, runs (HeapTupleSatisfiesMVCC mgr env fuel sn) s1 false s2.
Proof.
  intros Hk Hvs Hok Hr Hse Hcid Hver Hh.
  destruct (vacuum_post oldest an s Hk Hvs Hok) as (r & s' & Hr' & Hspec & He).
  destruct (runs_det _ _ _ _ _ _ Hr Hr') as [<- <-].
  destruct (mvcc_post fuel s1 sn cmin cmax) as (b & s2 & Hr2 & -> & _);
    [apply He|done|by eapply evolves_ok|by eapply evolves_cids|by eapply evolves_version|].
  exists s2. destruct (evolves_spec _ _ He) as [Hins Hdel]. rewrite Hins, Hdel in Hr2.
  by rewrite (dead_invisible oldest) in Hr2.
Qed.

(** [HeapTupleIsSurelyDead], which looks at the hint bits only, agrees with
    VACUUM: what it calls dead, [HeapTupleSatisfiesVacuum] calls dead too. *)
Theorem surely_dead_sound oldest an s :
  knows (world s) T → vacuum_session → tuple_ok T (page s) (header s) → based s →
  HeapTupleIsSurelyDead (htup s) oldest = true →
  ∃ s', runs (HeapTupleSatisfiesVacuum mgr env oldest an) s HEAPTUPLE_DEAD s'.
Proof.
  intros Hk Hvs Hok Hb Hd. destruct (vacuum_post oldest an s Hk Hvs Hok) as (r & s' & Hr & Hspec & _).
  exists s'. enough (r = HEAPTUPLE_DEAD) as -> by done. unfold HeapTupleIsSurelyDead in Hd.
  change (t_data (htup s)) with (header s) in Hd. rewrite based_xmax in Hd by done.
  change (HeapTupleHeaderXminCommitted (header s)) with (bit (header s) HEAP_XMIN_COMMITTED) in Hd.
  destruct (bit (header s) HEAP_XMIN_COMMITTED) eqn:Hc; cbn [negb] in Hd.
  2: by rewrite (ok_xmin_invalid _ _ _ Hok Hd) in Hspec.
  change (flag (t_infomask (header s)) HEAP_XMAX_INVALID) with (bit (header s) HEAP_XMAX_INVALID) in Hd.
  destruct (bit (header s) HEAP_XMAX_INVALID) eqn:Hi; [done|].
  change (HEAP_XMAX_IS_LOCKED_ONLY _ _) with (is_locked_only (header s)) in Hd.
  destruct (is_locked_only (header s)) eqn:Hl; [done|].
  change (flag (t_infomask (header s)) HEAP_XMAX_IS_MULTI) with (bit (header s) HEAP_XMAX_IS_MULTI) in Hd.
  destruct (bit (header s) HEAP_XMAX_IS_MULTI) eqn:Hm; [done|].
  destruct (flag (t_infomask (header s)) HEAP_XMAX_COMMITTED) eqn:Hxc; [|done]. cbn [negb] in Hd.
  pose proof (ok_xmin_committed _ _ _ Hok Hc) as Hcm. pose proof (ok_xmax_committed _ _ _ Hok Hxc Hi) as Hdm.
  rewrite Hl in Hdm. destruct Hdm as [_ Hdm]. rewrite single_deleter in Hspec by done.
  unfold deleter_xid in Hspec. rewrite Hi, Hl, Hm in Hspec. unfold vacuum_spec in Hspec.
  destruct (inserter T _ _); try done. destruct (T (tup_xmax _ _)); try done.
  destruct Hspec as (x & [= <-] & ->). unfold TransactionIdPrecedes in Hd. by rewrite Hd.
Qed.

(** *** UPDATE *)

(** Some transaction named in xmax, deleter or locker, is open. *)
Definition busy pg h : bool :=
  negb (bit h HEAP_XMAX_INVALID) &&
  if bit h HEAP_XMAX_IS_MULTI then existsb (λ m, is_open (T (mx_xid m))) (members_of T (tup_xmax pg h))
  else is_open (T (tup_xmax pg h)).

(** What UPDATE should do with a tuple whose inserter is all right: [same] is
    whether the tuple points to itself. *)
Definition update_tail (cc : Z) (del : option verdict) (isbusy same : bool) (cmax : Z) : TM_Result :=
  match del with
  | None => if isbusy then TM_BeingModified else TM_Ok
  | Some V_mine => if cc <=? cmax then TM_SelfModified else TM_Invisible
  | Some (V_committed _) => if same then TM_Deleted else TM_Updated
  | Some _ => TM_BeingModified
  end.

Definition update_spec (cc : Z) (self_visible : bool) (ins : verdict) (del : option verdict)
    (isbusy same : bool) (cmin cmax : Z) : TM_Result :=
  match ins with
  | V_mine =>
      if cc <? cmin then TM_Invisible
      else if (cmin =? cc) && negb self_visible then TM_SelfCreated
      else update_tail cc del isbusy same cmax
  | V_committed _ => update_tail cc del isbusy same cmax
  | _ => TM_Invisible
  end.

Definition points_to_self s : bool := bool_decide (t_self (htup s) = t_ctid (header s)).

Lemma closed_not_busy pg h : xmax_closed T pg h → busy pg h = false.
Proof.
  unfold xmax_closed, busy. intros Hc. apply andb_false_iff. right.
  destruct (bit h HEAP_XMAX_IS_MULTI); [|done].
  apply not_true_iff_false. intros (m & Hin & Ho)%existsb_exists.
  rewrite (Hc m) in Ho by by apply list_elem_of_In. done.
Qed.

Lemma hints_busy pg h h' : rtc (hint_step T pg) h h' → busy pg h' = busy pg h.
Proof.
  induction 1 as [|h1 h2 h3 Hs _ IH]; [done|]. rewrite IH. destruct Hs as (b & Hj & ->).
  pose proof (justified_hint_bit _ _ _ _ Hj) as Hb.
  destruct Hj as [(-> & _)|[(-> & _)|[(-> & _)|(-> & _ & Hcl)]]].
  4: { rewrite (closed_not_busy pg h1 Hcl). unfold busy. rewrite or_mask_bit. by rewrite orb_true_r. }
  all: unfold busy; rewrite or_mask_multi, or_mask_xmax, or_mask_bit by done; by rewrite orb_false_r.
Qed.

Lemma hints_ctid pg h h' : rtc (hint_step T pg) h h' → t_ctid h' = t_ctid h.
Proof. induction 1 as [|h1 h2 h3 Hs _ IH]; [done|]. rewrite IH. by destruct Hs as (b & _ & ->). Qed.

Lemma evolves_update s s' :
  evolves s s' → busy (page s') (header s') = busy (page s) (header s) ∧ points_to_self s' = points_to_self s.
Proof.
  intros [_ -> _ Ht Hh]. unfold points_to_self. by rewrite Ht, (hints_ctid _ _ _ Hh), (hints_busy _ _ _ Hh).
Qed.

Lemma post_other s (Q : TM_Result → vstate W → Prop) :
  Q (if points_to_self s then TM_Deleted else TM_Updated) s → post modified_by_other s Q.
Proof. intros HQ. by apply post_bind, post_gets, post_ret. Qed.

Lemma post_self cc cmin cmax s (Q : TM_Result → vstate W → Prop) :
  cids_ok s cmin cmax → Q (if cc <=? cmax then TM_SelfModified else TM_Invisible) s →
  post (modified_by_self env cc) s Q.
Proof. intros Hc HQ. apply post_bind, (post_cmax _ cmin cmax); [done|]. by apply post_ret. Qed.

(** The answer for the tuple of state [s], given in a state that has evolved from
    it. *)
Definition update_answer (cc cmax : Z) s (r : TM_Result) s' : Prop :=
  r = update_tail cc (deleter T (page s) (header s)) (busy (page s) (header s)) (points_to_self s) cmax ∧
  evolves s s'.

(** Marking the xmax invalid and going ahead. *)
Lemma post_clear_xmax cc cmax s w :
  knows w T → deleter T (page s) (header s) = None → xmax_closed T (page s) (header s) →
  post (SetHintBits mgr env HEAP_XMAX_INVALID InvalidTransactionId ≫= λ _, mret TM_Ok) (set_world w s)
    (update_answer cc cmax s).
Proof.
  intros Hw Hd Hcl. apply post_bind, post_hint; [done|right; right; right; by split_and!|done|].
  intros s' He _ _. vstep. unfold update_answer. rewrite Hd, closed_not_busy by done. split; [done|ev].
Qed.

Lemma update_multi_post cc cmin cmax s :
  knows (world s) T → tuple_ok T (page s) (header s) → cids_ok s cmin cmax →
  bit (header s) HEAP_XMAX_INVALID = false → is_locked_only (header s) = false →
  bit (header s) HEAP_XMAX_IS_MULTI = true →
  post (update_xmax_multi mgr env cc) s (update_answer cc cmax s).
Proof.
  intros Hk Hok Hcid Hi Hl Hm. pose proof (ok_xmax _ _ _ Hok Hi) as Hx. rewrite Hm in Hx.
  pose proof (updater_known _ (law_invalid _ _ Hk) Hx) as Hu.
  assert (deleter T (page s) (header s)
    = effective (T (first_updater (members_of T (tup_xmax (page s) (header s)))))) as Hd.
  { unfold deleter, deleter_xid. by rewrite Hi, Hl, Hm. }
  unfold update_xmax_multi. vstep. apply post_update_xid; [done|]. intros w Hw. apply post_fate; [done..|].
  intros w1 Hw1. unfold update_answer. rewrite Hd.
  destruct (T (first_updater _)) as [| |c| |] eqn:Hv; try done; cbn [effective update_tail].
  - apply (post_self _ cmin cmax); [done|]. split; [done|ev].
  - vstep. split; [done|ev].
  - apply post_other. split; [done|ev].
  - repeat vstep. apply post_multi_running; [done..|]. intros w2 Hw2.
    assert (busy (page s) (header s) = existsb (λ m, is_open (T (mx_xid m))) (members_of T (tup_xmax (page s) (header s))))
      as Hbusy by (unfold busy; by rewrite Hi, Hm). rewrite Hbusy.
    destruct (existsb _ _) eqn:He; [vstep; split; [done|ev]|].
    eapply post_mono; [apply (post_clear_xmax cc cmax s w2); [done|by rewrite Hd|by apply not_running_closed]|].
    unfold update_answer. rewrite Hd, Hbusy. done.
Qed.

Lemma update_xmax_post cc cmin cmax s :
  knows (world s) T → tuple_ok T (page s) (header s) → cids_ok s cmin cmax →
  post (update_xmax mgr env cc) s (update_answer cc cmax s).
Proof.
  intros Hk Hok Hcid. pose proof (ok_xmax _ _ _ Hok) as Hx. pose proof (ok_xmax_committed _ _ _ Hok) as Hc.
  pose proof (ok_lock _ _ _ Hok) as Hlk. pose proof (evolves_refl s Hk) as Hr.
  unfold update_xmax. repeat vstep. destruct (bit (header s) HEAP_XMAX_INVALID) eqn:Hi.
  { vstep. unfold update_answer, deleter, deleter_xid, busy. by rewrite Hi. }
  specialize (Hx eq_refl). repeat vstep. destruct (bit (header s) HEAP_XMAX_COMMITTED) eqn:Hxc.
  { specialize (Hc eq_refl eq_refl). repeat vstep. unfold update_answer.
    destruct (is_locked_only (header s)) eqn:Hl.
    - vstep. by rewrite locked_no_deleter, closed_not_busy.
    - destruct Hc as [Hm Hcm]. apply post_other. rewrite single_deleter by done.
      by destruct (T (tup_xmax _ _)). }
  repeat vstep. destruct (bit (header s) HEAP_XMAX_IS_MULTI) eqn:Hm; repeat vstep.
  - destruct (is_locked_only (header s)) eqn:Hl; [|by apply (update_multi_post _ cmin)].
    pose proof (locked_no_deleter T (page s) _ Hl) as Hd. repeat vstep.
    destruct (bit (header s) HEAP_LOCK_MASK) eqn:Hlm.
    + apply post_multi_running; [done..|]. intros w Hw. destruct (existsb _ _) eqn:He.
      * vstep. unfold update_answer, busy. rewrite Hd, Hi, Hm, He. split; [done|ev].
      * by apply post_clear_xmax; [..|apply not_running_closed].
    + vstep. pose proof (post_clear_xmax cc cmax s (world s) Hk Hd (Hlk eq_refl eq_refl eq_refl eq_refl)) as Hp.
      by replace (set_world (world s) s) with s in Hp by (by destruct s).
  - apply post_open; [done..|]. intros w Hw. unfold update_answer.
    destruct (T (tup_xmax (page s) (header s))) as [| |c| |] eqn:Hv; try done.
    + repeat vstep. destruct (is_locked_only (header s)) eqn:Hl.
      * vstep. rewrite locked_no_deleter by done. unfold busy. by rewrite Hi, Hm, Hv.
      * apply (post_self _ cmin cmax); [done|]. by rewrite single_deleter, Hv.
    + vstep. split; [|ev]. unfold busy. rewrite Hi, Hm, Hv. cbn.
      destruct (is_locked_only (header s)) eqn:Hl; [by rewrite locked_no_deleter|by rewrite single_deleter, Hv].
    + vstep. eapply post_mono; [apply settle_xmax_w; by rewrite ?Hv|]. rewrite Hv. intros r s' (-> & He & _).
      destruct (is_locked_only (header s)) eqn:Hl; cbn.
      * vstep. split; [|done]. rewrite locked_no_deleter by done. unfold busy. by rewrite Hi, Hm, Hv.
      * apply post_other. destruct (evolves_update _ _ He) as [_ ->]. split; [|done]. by rewrite single_deleter, Hv.
    + vstep. eapply post_mono; [apply settle_xmax_w; by rewrite ?Hv|]. rewrite Hv. intros r s' (-> & He & _).
      rewrite orb_true_r. vstep. split; [|done]. unfold busy. rewrite Hi, Hm, Hv.
      by rewrite aborted_no_deleter.
Qed.

Lemma update_own_post cc sv cmin cmax s :
  knows (world s) T → tuple_ok T (page s) (header s) → cids_ok s cmin cmax →
  inserter T (page s) (header s) = V_mine →
  post (update_own mgr env cc sv) s
    (λ r s', r = update_spec cc sv V_mine (deleter T (page s) (header s)) (busy (page s) (header s))
                   (points_to_self s) cmin cmax ∧ evolves s s').
Proof.
  intros Hk Hok Hcid Hmine. pose proof (ok_xmax _ _ _ Hok) as Hx. pose proof (ok_own _ _ _ Hok Hmine) as Hown.
  pose proof (law_invalid _ _ Hk) as H0. pose proof (evolves_refl s Hk) as Hr.
  unfold update_own, update_spec. vstep. apply (post_cmin _ cmin cmax); [done|].
  case_bool; [by vstep|]. case_bool; [by vstep|]. change (λ r s', _) with (update_answer cc cmax s).
  repeat vstep. destruct (bit (header s) HEAP_XMAX_INVALID) eqn:Hi.
  { vstep. unfold update_answer, deleter, deleter_xid, busy. by rewrite Hi. }
  specialize (Hx eq_refl). repeat vstep. destruct (is_locked_only (header s)) eqn:Hl.
  { pose proof (locked_no_deleter T (page s) _ Hl) as Hd. repeat vstep.
    unfold update_answer, busy. rewrite Hd, Hi. cbn.
    destruct (bit (header s) HEAP_XMAX_IS_MULTI) eqn:Hm; vstep.
    - apply post_multi_running; [done..|]. intros w Hw. destruct (existsb _ _); vstep; (split; [done|ev]).
    - apply post_in_progress; [done..|]. intros w Hw. destruct (is_open _); vstep; (split; [done|ev]). }
  repeat vstep. destruct (bit (header s) HEAP_XMAX_IS_MULTI) eqn:Hm; repeat vstep.
  - pose proof (updater_known _ H0 Hx) as Hu. apply post_update_xid; [done|]. intros w Hw.
    assert (deleter T (page s) (header s)
      = effective (T (first_updater (members_of T (tup_xmax (page s) (header s)))))) as Hd.
    { unfold deleter, deleter_xid. by rewrite Hi, Hl, Hm. }
    unfold update_answer. rewrite Hd in Hown |- *. apply post_bind, post_current; [done..|].
    destruct (T (first_updater _)) as [| |c| |] eqn:Hv; try (by destruct Hown); cbn [is_mine effective update_tail].
    + apply (post_self _ cmin cmax); [done|]. split; [done|ev].
    + repeat vstep. apply post_multi_running; [done..|]. intros w1 Hw1. unfold busy. rewrite Hi, Hm. cbn.
      change (members_of T _) with (members_of T (tup_xmax (page s) (header s))).
      destruct (existsb _ _); vstep; (split; [done|ev]).
  - rewrite single_deleter in Hown by done. apply post_bind, post_current; [done..|].
    destruct (T (tup_xmax (page s) (header s))) as [| |c| |] eqn:Hv; try (by destruct Hown); cbn [is_mine].
    + apply (post_self _ cmin cmax); [done|]. unfold update_answer. by rewrite single_deleter, Hv.
    + pose proof (aborted_no_deleter T (page s) (header s) Hm Hv) as Hd.
      assert (xmax_closed T (page s) (header s)) as Hcl by (apply single_closed; [done|by rewrite Hv]).
      pose proof (post_clear_xmax cc cmax s (world s) Hk Hd Hcl) as Hp.
      by replace (set_world (world s) s) with s in Hp by (by destruct s).
Qed.

Lemma update_post fuel cc sv cmin cmax s :
  knows (world s) T → tuple_ok T (page s) (header s) → cids_ok s cmin cmax →
  post (HeapTupleSatisfiesUpdate mgr env fuel cc sv) s
    (λ r s', r = update_spec cc sv (inserter T (page s) (header s)) (deleter T (page s) (header s))
                   (busy (page s) (header s)) (points_to_self s) cmin cmax ∧ evolves s s').
Proof.
  intros Hk Hok Hcid.
  assert (∀ s', evolves s s' → ∀ c, inserter T (page s) (header s) = V_committed c →
    post (update_xmax mgr env cc) s'
      (λ r s', r = update_spec cc sv (inserter T (page s) (header s)) (deleter T (page s) (header s))
                   (busy (page s) (header s)) (points_to_self s) cmin cmax ∧ evolves s s')) as Htail.
  { intros s' He c ->. eapply post_mono.
    { apply (update_xmax_post cc cmin cmax s'); [apply He|by eapply evolves_ok|by eapply evolves_cids]. }
    intros r s2 [-> He2]. destruct (evolves_spec _ _ He) as [_ ->]. destruct (evolves_update _ _ He) as [-> ->].
    split; [done|]. by eapply evolves_trans. }
  destruct fuel; cbn [HeapTupleSatisfiesUpdate].
  all: apply (post_inserter (λ _, mret TM_Invisible)); [|done|done|].
  1, 3: intros x s0 Hk0 Hu HQ; apply post_bind, post_world; (eapply post_mono; [by apply (law_in_progress_sync _ T)|]);
    intros r w [-> Hw]; specialize (HQ w Hw); by destruct (is_open (T x)).
  all: destruct (inserter T _ _) as [| |c| |] eqn:Hi; [..|done].
  1, 5: by apply (update_own_post _ _ cmin cmax).
  1, 4: intros w Hw; vstep; split; [done|ev].
  1, 3: intros s' He _; by eapply Htail.
  all: intros s' He _; vstep; by split.
Qed.

(** [HeapTupleSatisfiesUpdate] is a function of what happened to the inserter,
    the deleter and the lockers of the tuple: it returns what the comment on its
    result codes says, for any bound on its waits, and leaves only truthful
    hints. *)
Theorem satisfies_update fuel cc sv cmin cmax s :
  knows (world s) T → tuple_ok T (page s) (header s) → cids_ok s cmin cmax →
  post (HeapTupleSatisfiesUpdate mgr env fuel cc sv) s
    (λ r s', r = update_spec cc sv (inserter T (page s) (header s)) (deleter T (page s) (header s))
                   (busy (page s) (header s)) (points_to_self s) cmin cmax ∧ evolves s s').
Proof. apply update_post. Qed.

(** C26: No lost updates: [HeapTupleSatisfiesUpdate] returns [TM_Ok] only if the
    inserter is the current transaction or has committed, nobody has deleted the
    tuple, and no open transaction is named in its xmax. *)
Theorem update_ok_exclusive fuel cc sv cmin cmax s s' :
  knows (world s) T → tuple_ok T (page s) (header s) → cids_ok s cmin cmax →
  runs (HeapTupleSatisfiesUpdate mgr env fuel cc sv) s TM_Ok s' →
  (is_mine (inserter T (page s) (header s)) || is_committed (inserter T (page s) (header s))) = true ∧
  deleter T (page s) (header s) = None ∧
  (bit (header s) HEAP_XMAX_INVALID = false → xmax_closed T (page s) (header s)).
Proof.
  intros Hk Hok Hcid Hr. destruct (update_post fuel cc sv cmin cmax s Hk Hok Hcid) as (r & s2 & Hr2 & Hspec & _).
  destruct (runs_det _ _ _ _ _ _ Hr Hr2) as [<- <-]. symmetry in Hspec.
  assert (is_mine (inserter T (page s) (header s)) || is_committed (inserter T (page s) (header s)) = true ∧
    update_tail cc (deleter T (page s) (header s)) (busy (page s) (header s)) (points_to_self s) cmax = TM_Ok)
    as [Hins Ht].
  { unfold update_spec in Hspec. destruct (inserter T _ _); try done. split; [done|].
    destruct (cc <? cmin); [done|]. by destruct ((cmin =? cc) && negb sv). }
  split; [done|]. unfold update_tail in Ht.
  destruct (deleter T (page s) (header s)) as [[]|] eqn:Hd; try (by repeat case_bool).
  split; [done|]. destruct (busy (page s) (header s)) eqn:Hb; [done|]. intros Hi. unfold busy in Hb.
  rewrite Hi in Hb. cbn in Hb. destruct (bit (header s) HEAP_XMAX_IS_MULTI) eqn:Hm.
  - by apply not_running_closed.
  - by apply single_closed.
Qed.

(** *** Only locked *)

(** [HeapTupleIsOnlyLocked] never takes an update for a lock: if it answers
    yes, the tuple has no deleter that counts; if no, an updater is named in xmax.
    (It tests the lock-only bit alone, so the hypothesis is that the older lock
    bits come with it.) *)
Theorem only_locked_sound s :
  knows (world s) T → tuple_ok T (page s) (header s) → based s →
  is_locked_only (header s) = flag (t_infomask2 (header s)) HEAP_XMAX_LOCK_ONLY →
  post (HeapTupleIsOnlyLocked mgr) s
    (λ r s', (if r : bool then deleter T (page s) (header s) = None
              else is_Some (deleter_xid T (page s) (header s))) ∧ evolves s s').
Proof.
  intros Hk Hok Hb Hlo. pose proof (ok_xmax _ _ _ Hok) as Hx. pose proof (ok_xmax_valid _ _ _ Hok) as Hxv.
  pose proof (law_invalid _ _ Hk) as H0. pose proof (evolves_refl s Hk) as Hr.
  unfold HeapTupleIsOnlyLocked, deleter, deleter_xid. repeat vstep.
  destruct (bit (header s) HEAP_XMAX_INVALID) eqn:Hi; [by vstep|]. specialize (Hx eq_refl). repeat vstep.
  rewrite <- Hlo. destruct (is_locked_only (header s)) eqn:Hl; [by vstep|]. repeat vstep.
  rewrite based_xmax by done. cbn [orb]. unfold TransactionIdIsValid.
  rewrite (proj2 (Z.eqb_neq _ _)) by by apply Hxv. cbn [negb]. repeat vstep.
  destruct (bit (header s) HEAP_XMAX_IS_MULTI) eqn:Hm; [|vstep; by split].
  pose proof (updater_known _ H0 Hx) as Hu. unfold HeapTupleMultiXactGetUpdateXid. repeat vstep.
  rewrite based_xmax by done. apply post_members; [done|]. intros w Hw.
  destruct (Z.eqb_spec (first_updater (members_of T (tup_xmax (page s) (header s)))) InvalidTransactionId) as [E|E].
  { cbn [negb]. vstep. rewrite E, H0. split; [done|ev]. }
  cbn [negb]. apply post_fate; [done..|]. intros w1 Hw1.
  destruct (T (first_updater _)) as [| |c| |] eqn:Hv; try done; vstep; (split; [done|ev]).
Qed.

(** *** Time capsules *)

Lemma post_no_write {A} (m : M (vstate W) A) s (f : A → Prop) :
  post m (set_write None s) (λ r s', f r ∧ evolves (set_write None s) s') →
  post (no_cur_write m) s (λ r s', f r ∧ evolves s s').
Proof.
  intros (r & s' & Hr & Hf & [H1 H2 H3 H4 H5]). exists r, (set_write (cur_write s) s'). split.
  - unfold runs, no_cur_write in *. by rewrite Hr.
  - split; [done|]. by split.
Qed.

(** The two tests of TIMECAPSULE are the two halves of the difference between
    the table at the snapshot and now: [HeapTupleSatisfiesLost] holds exactly for
    what the snapshot saw and is gone now, [HeapTupleSatisfiesDelta] exactly for
    what the snapshot did not see and is there now. *)
Theorem timecapsule_lost_delta fuel s sn cmin cmax :
  knows (world s) T → mvcc_session sn → tuple_ok T (page s) (header s) → cids_ok s cmin cmax →
  version_multi_ok s sn →
  (inserter T (page s) (header s) = V_mine → bit (header s) HEAP_XMAX_IS_MULTI = true →
     deleter T (page s) (header s) = None) →
  let ins := inserter T (page s) (header s) in
  let del := deleter T (page s) (header s) in
  let then_ := mvcc_spec sn ins del cmin cmax in
  let now := now_spec (GetCurrentCommandId env) ins del cmin cmax in
  post (HeapTupleSatisfiesLost mgr env fuel sn) s (λ r s', r = then_ && negb now ∧ evolves s s') ∧
  post (HeapTupleSatisfiesDelta mgr env fuel sn) s (λ r s', r = negb then_ && now ∧ evolves s s').
Proof.
  intros Hk Hse Hok Hcid Hver Hmulti ins del then_ now.
  assert (post (HeapTupleSatisfiesVersionMVCC mgr env fuel sn) s (λ r s', r = then_ ∧ evolves s s')) as Hthen.
  { apply (post_no_write _ s (λ r, r = then_)). by refine (mvcc_post fuel (set_write None s) sn cmin cmax _ _ _ _ _). }
  assert (∀ s', evolves s s' → post (no_cur_write (HeapTupleSatisfiesNow mgr env)) s'
    (λ r s2, r = now ∧ evolves s s2)) as Hnow.
  { intros s' He. eapply post_mono.
    - apply (post_no_write _ s' (λ r, r = now)). destruct (evolves_spec _ _ He) as [Hins Hdel].
      unfold now, ins, del. rewrite <- Hins, <- Hdel. refine (now_post (set_write None s') cmin cmax _ _ _ _).
      + apply He.
      + exact (evolves_ok _ _ He Hok).
      + exact (evolves_cids _ _ _ _ He Hcid).
      + intros Hi Hm. etrans; [exact Hdel|]. apply Hmulti; [by rewrite <- Hins|]. rewrite <- Hm. symmetry.
        by apply (evolves_multi s s').
    - intros r s2 [-> He2]. split; [done|]. by eapply evolves_trans. }
  split; (eapply post_bind, post_mono; [exact Hthen|]); intros r s' [-> He]; destruct then_; cbn [andb negb].
  - vstep. eapply post_mono; [by apply Hnow|]. intros r s2 [-> He2]. by vstep.
  - by vstep.
  - by vstep.
  - by apply Hnow.
Qed.

(** *** Sequences of tests *)

(** The tests that look at the logs and may leave hints behind. *)
Inductive vis_test : Type :=
| Test_self
| Test_now
| Test_dirty
| Test_mvcc (fuel : nat) (sn : SnapshotData)
| Test_version (fuel : nat) (sn : SnapshotData)
| Test_lost (fuel : nat) (sn : SnapshotData)
| Test_delta (fuel : nat) (sn : SnapshotData)
| Test_vacuum (OldestXmin : Z) (isAnalyzing : bool)
| Test_update (fuel : nat) (cc : Z) (self_visible : bool).

(** What the caller gets: a dirty snapshot also hands out two xids. *)
Inductive vis_answer : Type :=
| Answer_bool (b : bool)
| Answer_dirty (b : bool) (xmin xmax : Z)
| Answer_vacuum (r : HTSV_Result)
| Answer_update (r : TM_Result).

Definition answer {A} (f : A → vis_answer) (m : M (vstate W) A) : M (vstate W) vis_answer :=
  r ← m; mret (f r).

Definition run_test (t : vis_test) : M (vstate W) vis_answer :=
  match t with
  | Test_self => answer Answer_bool (HeapTupleSatisfiesSelf mgr env)
  | Test_now => answer Answer_bool (HeapTupleSatisfiesNow mgr env)
  | Test_dirty =>
      r ← HeapTupleSatisfiesDirty mgr env;
      x ← gets (λ s, (dirty_xmin s, dirty_xmax s));
      mret (Answer_dirty r (fst x) (snd x))
  | Test_mvcc fuel sn => answer Answer_bool (HeapTupleSatisfiesMVCC mgr env fuel sn)
  | Test_version fuel sn => answer Answer_bool (HeapTupleSatisfiesVersionMVCC mgr env fuel sn)
  | Test_lost fuel sn => answer Answer_bool (HeapTupleSatisfiesLost mgr env fuel sn)
  | Test_delta fuel sn => answer Answer_bool (HeapTupleSatisfiesDelta mgr env fuel sn)
  | Test_vacuum oldest an => answer Answer_vacuum (HeapTupleSatisfiesVacuum mgr env oldest an)
  | Test_update fuel cc sv => answer Answer_update (HeapTupleSatisfiesUpdate mgr env fuel cc sv)
  end.

Fixpoint run_tests (ts : list vis_test) : M (vstate W) unit :=
  match ts with
  | [] => skip
  | t :: ts => run_test t ≫= λ _, run_tests ts
  end.

(** An own tuple updated under a multixact: [HeapTupleSatisfiesNow] does not
    compare cmax there. *)
Definition now_multi_ok s : Prop :=
  inserter T (page s) (header s) = V_mine → bit (header s) HEAP_XMAX_IS_MULTI = true →
  deleter T (page s) (header s) = None.

(** The session may run the test on the tuple. *)
Definition test_ok s (t : vis_test) : Prop :=
  match t with
  | Test_self | Test_dirty | Test_update _ _ _ => True
  | Test_now => now_multi_ok s
  | Test_mvcc _ sn | Test_version _ sn => mvcc_session sn ∧ version_multi_ok s sn
  | Test_lost _ sn | Test_delta _ sn => mvcc_session sn ∧ version_multi_ok s sn ∧ now_multi_ok s
  | Test_vacuum _ _ => vacuum_session
  end.

(** The tests whose answer the verdicts determine: all but VACUUM's, which tells
    an own tuple with an aborted deleter from one without. *)
Definition determined (t : vis_test) : bool := match t with Test_vacuum _ _ => false | _ => true end.

Definition test_spec s (cmin cmax : Z) (t : vis_test) : vis_answer :=
  let ins := inserter T (page s) (header s) in
  let del := deleter T (page s) (header s) in
  let now := now_spec (GetCurrentCommandId env) ins del cmin cmax in
  match t with
  | Test_self => Answer_bool (self_spec ins del)
  | Test_now => Answer_bool now
  | Test_dirty => Answer_dirty (dirty_spec ins del)
      (if bool_decide (ins = V_running) then tup_xmin (page s) (header s) else InvalidTransactionId)
      (if is_committed ins then open_xmax (page s) (header s) else InvalidTransactionId)
  | Test_mvcc _ sn | Test_version _ sn => Answer_bool (mvcc_spec sn ins del cmin cmax)
  | Test_lost _ sn => Answer_bool (mvcc_spec sn ins del cmin cmax && negb now)
  | Test_delta _ sn => Answer_bool (negb (mvcc_spec sn ins del cmin cmax) && now)
  | Test_vacuum _ _ => Answer_vacuum HEAPTUPLE_LIVE
  | Test_update _ cc sv =>
      Answer_update (update_spec cc sv ins del (busy (page s) (header s)) (points_to_self s) cmin cmax)
  end.

Lemma post_answer {A} (f : A → vis_answer) (m : M (vstate W) A) s (P : A → Prop) :
  post m s (λ r s', P r ∧ evolves s s') →
  post (answer f m) s (λ a s', (∃ r, a = f r ∧ P r) ∧ evolves s s').
Proof.
  intros Hp. eapply post_bind, post_mono; [exact Hp|]. intros r s' [Hr He]. apply post_ret. eauto.
Qed.

Lemma post_answer_eq {A} (f : A → vis_answer) (m : M (vstate W) A) s (d : bool) r0 :
  post m s (λ r s', r = r0 ∧ evolves s s') →
  post (answer f m) s (λ a s', (d = true → a = f r0) ∧ evolves s s').
Proof.
  intros Hp. eapply post_mono; [by apply (post_answer _ _ _ (λ r, r = r0))|].
  intros a s' [(r & -> & ->) He]. done.
Qed.

Lemma run_test_post t s cmin cmax :
  knows (world s) T → tuple_ok T (page s) (header s) → cids_ok s cmin cmax → test_ok s t →
  post (run_test t) s (λ a s', (determined t = true → a = test_spec s cmin cmax t) ∧ evolves s s').
Proof.
  intros Hk Hok Hcid Ht. destruct t as [| | |fuel sn|fuel sn|fuel sn|fuel sn|oldest an|fuel cc sv];
    cbn [run_test test_spec test_ok] in *.
  - by apply post_answer_eq, satisfies_self.
  - by apply post_answer_eq, now_post.
  - eapply post_bind, post_mono; [by apply satisfies_dirty|]. intros r s' (-> & He & Hx & Hm).
    apply post_bind, post_gets, post_ret. cbn [fst snd]. by rewrite Hx, Hm.
  - by apply post_answer_eq, mvcc_post; try apply Ht.
  - apply post_answer_eq, (post_no_write _ s (λ r, r = _)).
    by refine (mvcc_post fuel (set_write None s) sn cmin cmax _ _ _ _ _); try apply Ht.
  - apply post_answer_eq. by apply timecapsule_lost_delta; try apply Ht.
  - apply post_answer_eq. by apply timecapsule_lost_delta; try apply Ht.
  - eapply post_mono; [by apply post_answer, (vacuum_post oldest an)|]. by intros a s' [_ He].
  - by apply post_answer_eq, update_post.
Qed.

Lemma evolves_now_multi s s' : evolves s s' → now_multi_ok s → now_multi_ok s'.
Proof.
  intros He Hn Hi Hm. destruct (evolves_spec _ _ He) as [Hins Hdel]. rewrite Hdel. apply Hn; [by rewrite <- Hins|].
  rewrite <- Hm. symmetry. by apply evolves_multi.
Qed.

Lemma evolves_test_ok s s' t : evolves s s' → test_ok s t → test_ok s' t.
Proof.
  intros He. destruct t; cbn [test_ok]; intuition eauto using evolves_version, evolves_now_multi.
Qed.

Lemma hints_xmin pg h h' : rtc (hint_step T pg) h h' → t_xmin h' = t_xmin h.
Proof. induction 1 as [|h1 h2 h3 Hs _ IH]; [done|]. rewrite IH. by destruct Hs as (b & _ & ->). Qed.

Lemma evolves_test_spec s s' cmin cmax t :
  evolves s s' → test_spec s' cmin cmax t = test_spec s cmin cmax t.
Proof.
  intros He. pose proof (law_invalid _ _ (ev_knows _ _ He)) as H0.
  unfold test_spec. destruct (evolves_spec _ _ He) as [-> ->]. destruct (evolves_update _ _ He) as [-> ->].
  destruct He as [_ -> _ _ Hh]. rewrite (hints_open_xmax _ _ _ H0 Hh).
  unfold tup_xmin, HeapTupleHeaderGetXmin. by rewrite (hints_xmin _ _ _ Hh).
Qed.

Lemma run_tests_post ts s cmin cmax :
  knows (world s) T → tuple_ok T (page s) (header s) → cids_ok s cmin cmax → Forall (test_ok s) ts →
  post (run_tests ts) s (λ _ s', evolves s s').
Proof.
  intros Hk Hok Hcid Hts. revert s Hk Hok Hcid Hts. induction ts as [|t ts IH]; intros s Hk Hok Hcid Hts.
  { apply post_skip. by apply evolves_refl. }
  apply Forall_cons in Hts as [Ht Hts]. cbn [run_tests].
  eapply post_bind, post_mono; [by apply (run_test_post t s cmin cmax)|]. intros a s' [_ He].
  eapply post_mono; [apply IH|]; [apply He|by eapply evolves_ok|by eapply evolves_cids| |].
  - eapply Forall_impl; [exact Hts|]. intros. by eapply evolves_test_ok.
  - intros ? s2 He2. by eapply evolves_trans.
Qed.

(** The header but for the four hint bits. *)
Definition HEAP_HINT_BITS : Z :=
  Z.lor (Z.lor HEAP_XMIN_COMMITTED HEAP_XMIN_INVALID) (Z.lor HEAP_XMAX_COMMITTED HEAP_XMAX_INVALID).
Definition unhinted h : HeapTupleHeaderData := set_infomask h (Z.ldiff (t_infomask h) HEAP_HINT_BITS).

Lemma hints_unhinted pg h h' : rtc (hint_step T pg) h h' → unhinted h' = unhinted h.
Proof.
  induction 1 as [|h1 h2 h3 Hs _ IH]; [done|]. rewrite IH. destruct Hs as (b & Hj & ->).
  unfold unhinted, or_mask. cbn [set_infomask t_infomask t_xmin t_xmax t_cid t_ctid t_infomask2].
  rewrite !Z.ldiff_land, Z.land_lor_distr_l, <- !Z.ldiff_land. apply justified_hint_bit in Hj.
  replace (Z.ldiff b HEAP_HINT_BITS) with 0 by (by destruct Hj as [->|[->|[->| ->]]]). by rewrite Z.lor_0_r.
Qed.


End Runs.
