(* ===== verification/HeapManager.v ===== *)
(** * The transaction manager behind tuple visibility

    Discharges the interface [xact_mgr] of [HeapVisibility.v] with the code of
    [Transam.v] and [Snapshot.v] over the commit log and the CSN log, for a single
    node without GTM-Lite and a plain MVCC snapshot: the verdicts of [VisibilitySpec.v]
    are what the two logs say. The proc array ([TransactionIdIsInProgress]) is a
    parameter that answers from the set of running xids, and so are the members of
    multixacts. *)

From S2P Require Import Prelude TransamDefs SlruInterface Clog CsnLog Transam Snapshot HeapTuple ComboCid MultiXact HeapVisibility VisibilitySpec.

Section HeapManager.
Context {S1 S2 : Type} `{!SlruOps S1} `{!SlruOps S2}
        `{!SlruSpec S1 BLCKSZ} `{!SlruSpec S2 CSNLOG_XACTS_PER_PAGE}.
Context (fuel : nat) (env : vis_env S1 S2) (is_cur running : Z → bool)
        (members : Z → list MultiXactMember).
Implicit Types (w : xact_state S1 S2) (T : truth) (sn : SnapshotData).

Definition log_mgr : xact_mgr (xact_state S1 S2) := {|
  mgr_is_current := is_cur;
  mgr_in_progress := TransactionIdIsInProgress env;
  mgr_in_progress_sync x := r ← TransactionIdIsInProgress env x; mret (r, false);
  mgr_did_commit := TransactionIdDidCommit fuel env;
  mgr_did_abort := LatestFetchTransactionIdDidAbort env;
  mgr_csn_did_abort := LatestFetchCSNDidAbort env;
  mgr_get_status := TransactionIdGetStatus fuel env;
  mgr_commit_lsn := TransactionIdGetCommitLSN;
  mgr_xid_visible := XidVisibleInSnapshot fuel env;
  mgr_committed_visible := CommittedXidVisibleInSnapshot fuel env;
  mgr_decode_visible := XidVisibleInDecodeSnapshot fuel env;
  mgr_committed_decode := CommittedXidVisibleInDecodeSnapshot fuel env;
  mgr_gtm_lite x sn hint same := IsXidVisibleInGtmLiteLocalSnapshot fuel env x sn hint same;
  mgr_sync_wait := SyncWaitXidEnd env;
  mgr_members x := mret (members x);
|}.

(** *** What the logs say *)

(** The ids of bootstrap and of frozen tuples, which no log has. *)
Definition special (x : Z) : Prop := x = BootstrapTransactionId ∨ x = FrozenTransactionId.

(** The verdict the logs of [w] support for [x]. *)
Definition log_supports w (x : Z) (v : verdict) : Prop :=
  match v with
  | V_unknown => True
  | V_aborted => x = InvalidTransactionId ∨
      (2 < x ∧ σ_of w x = Some CLOG_XID_STATUS_ABORTED ∧ κ_of w x = Some COMMITSEQNO_ABORTED)
  | V_committed c => (special x ∧ c = COMMITSEQNO_FROZEN) ∨
      (2 < x ∧ σ_of w x = Some CLOG_XID_STATUS_COMMITTED ∧ κ_of w x = Some c ∧ COMMITSEQNO_FROZEN ≤ c < 2 ^ 60)
  | V_mine | V_running =>
      2 < x ∧ σ_of w x = Some CLOG_XID_STATUS_IN_PROGRESS ∧ κ_of w x = Some COMMITSEQNO_INPROGRESS ∧
      RecentXmin env ≤ x
  end.

(** The caches hold nothing that contradicts the verdicts. *)
Record caches_true w T : Prop := {
  ct_csn : match T (cachedFetchCSNXid (cache w)) with
    | V_committed c => cachedFetchCSN (cache w) = c ∨ cachedFetchCSN (cache w) = COMMITSEQNO_FROZEN
    | V_aborted => cachedFetchCSN (cache w) =
        if cachedFetchCSNXid (cache w) =? InvalidTransactionId then InvalidCommitSeqNo else COMMITSEQNO_ABORTED
    | V_unknown => True
    | _ => False
    end;
  ct_status0 : cachedFetchXid (cache w) = InvalidTransactionId →
    cachedFetchXidStatus (cache w) = CLOG_XID_STATUS_IN_PROGRESS;
  ct_latest : T (latestFetchXid (cache w)) = V_aborted → latestFetchXid (cache w) ≠ InvalidTransactionId →
    latestFetchXidStatus (cache w) = CLOG_XID_STATUS_ABORTED;
}.

Definition log_knows w T : Prop :=
  xact_ok w ∧ (∀ x, log_supports w x (T x)) ∧ caches_true w T ∧ T InvalidTransactionId = V_aborted ∧
  (∀ x, T x ≠ V_unknown → is_cur x = is_mine (T x) ∧ running x = is_open (T x)) ∧
  (∀ x, members_of T x = members x).

(** A snapshot taken properly. *)
Definition log_snap_ok T sn : Prop :=
  satisfies sn = SNAPSHOT_MVCC ∧ COMMITSEQNO_FROZEN < snapshotcsn sn ∧
  (∀ x c, T x = V_committed c → x < snap_xmin sn → c < snapshotcsn sn) ∧
  (∀ x, is_open (T x) = true → snap_xmin sn ≤ x).

(** The node. *)
Hypothesis fuel_pos : (0 < fuel)%nat.
Hypothesis node_ok : csn_node_ok env.
Hypothesis startup_ok : 0 ≤ startupMaxXid env.
Hypothesis not_standby : SS_STANDBY_MODE (e_csn env) = false.
Hypothesis proc_array : ∀ x w, runs (TransactionIdIsInProgress env x) w (running x) w.

Lemma supports_same w w' T : same_logs w w' → (∀ x, log_supports w x (T x)) → ∀ x, log_supports w' x (T x).
Proof.
  intros (Hσ & Hκ & _) Hs x. specialize (Hs x). unfold log_supports in *.
  destruct (T x); rewrite ?Hσ, ?Hκ; done.
Qed.

(** Only the caches are left to check after a question. *)
Lemma knows_after w w' T :
  log_knows w T → xact_ok w' → same_logs w w' → caches_true w' T → log_knows w' T.
Proof.
  intros (_ & Hs & _ & H0 & Hc & Hm) Hok Hl Hct. split_and!; try done. by eapply supports_same.
Qed.

(** The status the commit log has for a transaction with a verdict. *)
Definition status_fits (v : verdict) (st : Z) : Prop :=
  match v with
  | V_committed _ => st = CLOG_XID_STATUS_COMMITTED
  | V_aborted => st = CLOG_XID_STATUS_ABORTED ∨ st = CLOG_XID_STATUS_IN_PROGRESS
  | _ => st = CLOG_XID_STATUS_IN_PROGRESS
  end.

Lemma supported_cases w x v :
  log_supports w x v → v ≠ V_unknown → x ≠ InvalidTransactionId →
  (special x ∧ v = V_committed COMMITSEQNO_FROZEN) ∨ 2 < x.
Proof.
  intros Hs Hv Hx. destruct v; cbn in Hs; try done; try (right; lia).
  destruct Hs as [[? ->]|[? _]]; [by left|by right].
Qed.

Lemma supported_range w x c : log_supports w x (V_committed c) → COMMITSEQNO_FROZEN ≤ c < 2 ^ 60.
Proof. intros [[_ ->]|(_ & _ & _ & ?)]; [by split|done]. Qed.

Lemma supported_status w x v :
  log_supports w x v → v ≠ V_unknown → 2 < x →
  ∃ st, raw_status (σ_of w) x = Some st ∧ σ_of w x = Some st ∧ status_fits v st ∧
    (v = V_aborted → st = CLOG_XID_STATUS_ABORTED).
Proof.
  intros Hs Hv H2. unfold raw_status, TransactionIdIsNormal, FirstNormalTransactionId.
  rewrite (proj2 (Z.leb_le _ _)) by lia. destruct v; cbn in Hs; try done.
  1, 2: destruct Hs as (_ & Hs & _); eexists; by split_and!.
  - destruct Hs as [[[-> | ->] _]|(_ & Hs & _)]; [done..|]. eexists. by split_and!.
  - destruct Hs as [?|(_ & Hs & _)]; [unfold InvalidTransactionId in *; lia|]. eexists. split_and!; try done. by left.
Qed.

(** Caching a status that the commit log has is harmless. *)
Lemma caches_latest w T x st :
  caches_true w T → (T x = V_aborted → x ≠ InvalidTransactionId → st = CLOG_XID_STATUS_ABORTED) →
  caches_true {| clog := clog w; csnlog := csnlog w; cache := set_latest x st (cache w) |} T.
Proof. intros [H1 H2 H3] Hst. by split. Qed.

Lemma special_fetch w T x :
  log_knows w T → special x → T x = V_committed COMMITSEQNO_FROZEN →
  ∃ st w', runs (TransactionLogFetch x) w st w' ∧ log_knows w' T ∧ status_fits (T x) st ∧
    (T x = V_aborted → x ≠ InvalidTransactionId → st = CLOG_XID_STATUS_ABORTED).
Proof.
  intros Hk Hsp Hv. pose proof Hk as (Hok & Hs & Hct & H0 & _). unfold TransactionLogFetch. rewrite Hv.
  exists CLOG_XID_STATUS_COMMITTED. destruct (Z.eqb_spec x (cachedFetchXid (cache w))) as [He|He].
  - assert (cachedFetchXidStatus (cache w) = CLOG_XID_STATUS_COMMITTED) as Hcs.
    { destruct Hok as (_ & _ & Hc). destruct Hc as [Hcs _]; [by destruct Hsp as [-> | ->]; congruence|]. rewrite <- He in Hcs.
      destruct Hsp as [-> | ->]; cbn in Hcs; congruence. }
    destruct (on_cache_runs (set_latest x CLOG_XID_STATUS_COMMITTED) w) as (w1 & Hr1 & Hok1 & Hl1 & Hc1); [done|done|].
    eexists. split; [|split; [|split; done]].
    + eapply runs_bind; [done|]. cbn beta. unfold TransactionIdEquals. rewrite <- He, Z.eqb_refl, Hcs. by eapply runs_bind.
    + eapply knows_after; [done..|]. injection Hr1 as <-. apply caches_latest; [done|]. by rewrite Hv.
  - destruct (on_cache_runs (set_latest InvalidTransactionId (latestFetchXidStatus (cache w))) w)
      as (w1 & Hr1 & Hok1 & Hl1 & Hc1); [done|done|].
    eexists. split; [|split; [|split; done]].
    + eapply runs_bind; [done|]. cbn beta. unfold TransactionIdEquals at 1. rewrite (proj2 (Z.eqb_neq _ _) He).
      replace (TransactionIdIsNormal x) with false by by destruct Hsp as [-> | ->]. cbn [negb].
      eapply runs_bind; [exact Hr1|]. by destruct Hsp as [-> | ->].
    + eapply knows_after; [done..|]. injection Hr1 as <-. by apply caches_latest.
Qed.

Lemma log_fetch_knows w T x :
  log_knows w T → T x ≠ V_unknown →
  ∃ st w', runs (TransactionLogFetch x) w st w' ∧ log_knows w' T ∧ status_fits (T x) st ∧
    (T x = V_aborted → x ≠ InvalidTransactionId → st = CLOG_XID_STATUS_ABORTED).
Proof.
  intros Hk Hu. pose proof Hk as (Hok & Hs & Hct & H0 & _). unfold TransactionLogFetch.
  destruct (Z.eqb_spec x InvalidTransactionId) as [->|Hx].
  - rewrite H0. destruct (Z.eqb_spec InvalidTransactionId (cachedFetchXid (cache w))) as [He|He].
    + destruct (on_cache_runs (set_latest InvalidTransactionId CLOG_XID_STATUS_IN_PROGRESS) w)
        as (w1 & Hr1 & Hok1 & Hl1 & Hc1); [done|done|].
      exists CLOG_XID_STATUS_IN_PROGRESS. eexists. split; [|split; [|split; [by right|done]]].
      * eapply runs_bind; [done|]. cbn beta. unfold TransactionIdEquals. rewrite He, Z.eqb_refl, <- He.
        rewrite (ct_status0 _ _ Hct) by done. by eapply runs_bind.
      * eapply knows_after; [done..|]. injection Hr1 as <-. by apply caches_latest.
    + destruct (on_cache_runs (set_latest InvalidTransactionId (latestFetchXidStatus (cache w))) w)
        as (w1 & Hr1 & Hok1 & Hl1 & Hc1); [done|done|].
      exists CLOG_XID_STATUS_ABORTED. eexists. split; [|split; [|split; [by left|done]]].
      * eapply runs_bind; [done|]. cbn beta. unfold TransactionIdEquals. rewrite (proj2 (Z.eqb_neq _ _) He).
        by eapply runs_bind.
      * eapply knows_after; [done..|]. injection Hr1 as <-. by apply caches_latest.
  - destruct (supported_cases w x (T x) (Hs x) Hu Hx) as [[Hsp Hv]|H2]; [by apply special_fetch|].
    destruct (supported_status w x (T x) (Hs x) Hu H2) as (st & Hraw & Hst & Hfit & Hab).
    exists st. destruct (Z.eqb_spec x (cachedFetchXid (cache w))) as [He|He].
    + assert (cachedFetchXidStatus (cache w) = st) as Hcs.
      { destruct Hok as (_ & _ & Hc). destruct Hc as [Hcs _]; [congruence|]. rewrite <- He in Hcs. congruence. }
      destruct (on_cache_runs (set_latest x st) w) as (w1 & Hr1 & Hok1 & Hl1 & Hc1); [done|done|].
      eexists. split; [|split; [|split; [done|auto]]].
      * eapply runs_bind; [done|]. cbn beta. unfold TransactionIdEquals. rewrite <- He, Z.eqb_refl, Hcs.
        by eapply runs_bind.
      * eapply knows_after; [done..|]. injection Hr1 as <-. apply caches_latest; auto.
    + destruct (clog_get_runs x w st Hok Hst) as (lsn & w1 & Hr1 & Hok1 & Hl1 & Hc1).
      assert (TransactionIdIsNormal x = true) as Hn by (apply Z.leb_le; unfold FirstNormalTransactionId; lia).
      destruct (store_status_runs x st lsn w1 Hok1 Hn) as (w2 & Hr2 & Hok2 & Hl2); [by rewrite (proj1 Hl1)|].
      destruct (on_cache_runs (set_latest x st) w2) as (w3 & Hr3 & Hok3 & Hl3 & Hc3); [done|done|].
      exists w3. split; [|split; [|split; [done|auto]]].
      * eapply runs_bind; [done|]. cbn beta. unfold TransactionIdEquals at 1. rewrite (proj2 (Z.eqb_neq _ _) He), Hn.
        eapply runs_bind; [exact Hr1|]. cbn beta iota. eapply runs_bind; [exact Hr2|]. by eapply runs_bind.
      * eapply knows_after; [done|done|by repeat (eapply same_logs_trans; [done|])|].
        injection Hr3 as <-. apply caches_latest; [|auto]. unfold status_final in Hr2.
        destruct Hct as [A1 A2 A3]. case_bool.
        -- injection Hr2 as <-. cbn in *. split; cbn; rewrite ?Hc1; done.
        -- injection Hr2 as <-. split; by rewrite ?Hc1.
Qed.

Lemma did_commit_knows w T x :
  log_knows w T → T x ≠ V_unknown →
  post (TransactionIdDidCommit fuel env x) w (λ r w', r = is_committed (T x) ∧ log_knows w' T).
Proof using All.
  intros Hk Hu. destruct (log_fetch_knows w T x Hk Hu) as (st & w' & Hr & Hk' & Hfit & _).
  destruct fuel as [|f]; [lia|]. apply (post_runs _ _ (is_committed (T x)) w'); [|done].
  cbn [TransactionIdDidCommit]. eapply runs_bind; [exact Hr|]. cbn beta.
  destruct (T x); cbn in Hfit |- *; try done; try (by rewrite Hfit); [by destruct Hfit as [->| ->]].
Qed.

Lemma xid_did_abort_knows w T x :
  log_knows w T → T x ≠ V_unknown → x ≠ InvalidTransactionId →
  post (TransactionIdDidAbort fuel env x) w (λ r w', r = bool_decide (T x = V_aborted) ∧ log_knows w' T).
Proof using All.
  intros Hk Hu Hx. destruct (log_fetch_knows w T x Hk Hu) as (st & w' & Hr & Hk' & Hfit & Hab).
  destruct fuel as [|f]; [lia|]. apply (post_runs _ _ (bool_decide (T x = V_aborted)) w'); [|done].
  cbn [TransactionIdDidAbort]. eapply runs_bind; [exact Hr|]. cbn beta.
  destruct (T x); cbn in Hfit; try done; try (by rewrite Hfit); by rewrite (Hab eq_refl Hx).
Qed.

Lemma did_abort_knows w T x :
  log_knows w T → T x = V_aborted →
  post (LatestFetchTransactionIdDidAbort env x) w (λ r w', r = true ∧ log_knows w' T).
Proof using All.
  intros Hk Ha. pose proof Hk as (_ & _ & Hct & _). apply (post_runs _ _ true w); [|done].
  unfold LatestFetchTransactionIdDidAbort. eapply runs_bind; [done|]. cbn beta.
  destruct (Z.eqb_spec x InvalidTransactionId) as [->|Hx].
  - assert (negb (TransactionIdIsValid (startupMaxXid env))
      || TransactionIdPrecedes InvalidTransactionId (startupMaxXid env) = true) as ->; [|done].
    unfold TransactionIdIsValid, TransactionIdPrecedes, InvalidTransactionId.
    destruct (Z.eqb_spec (startupMaxXid env) 0); [done|]. apply Z.ltb_lt. lia.
  - case_bool; [done|]. destruct (Z.eqb_spec x (latestFetchXid (cache w))) as [He|He].
    + unfold TransactionIdEquals at 1. rewrite <- He, Z.eqb_refl. cbn [negb].
      by rewrite (ct_latest _ _ Hct) by congruence.
    + unfold TransactionIdEquals at 1. by rewrite (proj2 (Z.eqb_neq _ _) He).
Qed.

(** *** Commit sequence numbers *)

(** The number the logs give for a transaction with a verdict; a stand-in for one
    that committed long ago only under [P]. *)
Definition csn_fits (P : Prop) (v : verdict) (r : Z) : Prop :=
  match v with
  | V_committed c => r = c ∨ (r = COMMITSEQNO_FROZEN ∧ P)
  | V_aborted => r = COMMITSEQNO_ABORTED
  | V_unknown => True
  | _ => r = COMMITSEQNO_INPROGRESS
  end.

(** With a snapshot, or (for [TransactionIdGetStatus]) without. *)
Definition asked T (snap : option SnapshotData) : Prop :=
  match snap with Some sn => log_snap_ok T sn | None => True end.
Definition nested (snap : option SnapshotData) : bool := match snap with Some _ => false | None => true end.
Definition horizon (snap : option SnapshotData) : Z :=
  match snap with Some sn => snap_xmin sn | None => RecentXmin env end.
Definition frozen_ok (snap : option SnapshotData) (x : Z) : Prop :=
  match snap with Some sn => x < snap_xmin sn | None => True end.

Lemma below_horizon_frozen snap x : x < horizon snap → frozen_ok snap x.
Proof. by destruct snap. Qed.

(** A transaction that is open is at or above the horizon. *)
Lemma open_above w T snap x :
  log_knows w T → asked T snap → is_open (T x) = true → horizon snap ≤ x.
Proof.
  intros (_ & Hs & _) Ha Ho. destruct snap as [sn|].
  - destruct Ha as (_ & _ & _ & H). by apply H.
  - specialize (Hs x). destruct (T x); try done; apply Hs.
Qed.

(** The word of the CSN log. *)
Lemma word_knows w T x :
  log_knows w T → T x ≠ V_unknown → 2 < x →
  ∃ v, κ_of w x = Some v ∧ csn_fits False (T x) v ∧ COMMITSEQNO_IS_SUBTRANS v = false.
Proof.
  intros (_ & Hs & _) Hu Hx. specialize (Hs x). destruct (T x) as [| |c| |] eqn:Hv; cbn in Hs; try done.
  - destruct Hs as (_ & _ & Hs & _). by eexists.
  - destruct Hs as (_ & _ & Hs & _). by eexists.
  - destruct Hs as [[[-> | ->] _]|(_ & _ & Hs & Hc)]; [done..|]. exists c. split_and!; [done|by left|].
    apply committed_not_subtrans. unfold COMMITSEQNO_FROZEN in *. lia.
  - destruct Hs as [->|(_ & _ & Hs)]; [done|]. by eexists.
Qed.

Lemma csn_fits_mono (P Q : Prop) v r : (P → Q) → csn_fits P v r → csn_fits Q v r.
Proof. unfold csn_fits. destruct v; tauto. Qed.

Lemma get_by_clog_knows w T x isCommit snap :
  log_knows w T → asked T snap → T x ≠ V_unknown → 2 < x →
  (isCommit = true → is_committed (T x) = true) → x < horizon snap →
  ∃ r w', runs (GetCSNByCLog x isCommit) w r w' ∧ xact_ok w' ∧ same_logs w w' ∧ cache w' = cache w ∧
    csn_fits (frozen_ok snap x) (T x) r.
Proof.
  intros Hk Ha Hu Hx Hc Hh. pose proof Hk as (Hok & Hs & _).
  assert (is_open (T x) = false) as Hno.
  { destruct (is_open (T x)) eqn:Ho; [|done]. pose proof (open_above w T snap x Hk Ha Ho). lia. }
  unfold GetCSNByCLog. destruct isCommit.
  - exists COMMITSEQNO_FROZEN, w. split_and!; try done. specialize (Hc eq_refl).
    destruct (T x); try done. right. split; [done|]. by apply below_horizon_frozen.
  - destruct (supported_status w x (T x) (Hs x) Hu Hx) as (st & _ & Hst & Hfit & Hab).
    destruct (clog_get_runs x w st Hok Hst) as (lsn & w1 & Hr1 & Hok1 & Hl1 & Hc1).
    exists (if st =? CLOG_XID_STATUS_COMMITTED then COMMITSEQNO_FROZEN else COMMITSEQNO_ABORTED), w1.
    split_and!; try done.
    + eapply runs_bind; [exact Hr1|]. cbn [fst]. by case_bool.
    + destruct (T x); try done; cbn in Hfit |- *.
      * rewrite Hfit. cbn. right. split; [done|]. by apply below_horizon_frozen.
      * by rewrite (Hab eq_refl).
Qed.

Lemma csn_nested_get w x v :
  xact_ok w → 2 < x → κ_of w x = Some v → COMMITSEQNO_IS_SUBTRANS v = false →
  ∃ w', runs (on_csnlog (CSNLogGetNestCommitSeqNo fuel (e_csn env) x)) w v w' ∧ xact_ok w' ∧ same_logs w w' ∧
    cache w' = cache w.
Proof using All.
  intros (H1 & H2 & H3) Hx Hv Hns. destruct (nest_get_runs (e_csn env) fuel x (csnlog w) v) as (c1 & Hr1 & Hl1);
    [done|lia| |].
  { destruct fuel as [|f]; [lia|]. cbn [nested_csn]. unfold raw_csn, InvalidTransactionId, FrozenTransactionId,
      BootstrapTransactionId. rewrite !(proj2 (Z.eqb_neq _ _)) by lia. cbn.
    unfold κ_of in Hv. rewrite Hv. cbn. by rewrite Hns. }
  eexists. split; [by apply on_csnlog_runs|]. unfold xact_ok, same_logs. split_and!; try done; try apply Hl1.
  intros y. by apply same_log_word.
Qed.

Lemma fetch_knows w T x isCommit snap :
  log_knows w T → asked T snap → T x ≠ V_unknown → 2 < x →
  (isCommit = true → is_committed (T x) = true) →
  ∃ r w', runs (fetch_csn fuel env x isCommit true (nested snap) snap 0 1) w r w' ∧
    xact_ok w' ∧ same_logs w w' ∧ cache w' = cache w ∧ csn_fits (frozen_ok snap x) (T x) r.
Proof using All.
  intros Hk Ha Hu Hx Hc. pose proof Hk as (Hok & Hs & _). destruct node_ok as [Hlite Hdr].
  assert (clog_horizon env snap true 0 = horizon snap ∧
    match snap with None => true | Some sn => negb (IsVersionMVCCSnapshot sn) end = true) as [Hhor Hver].
  { unfold clog_horizon, horizon, IsMVCCSnapshot, IsVersionMVCCSnapshot. destruct snap as [sn|]; rewrite Hlite; [|done].
    destruct Ha as (Hsat & _). by rewrite Hsat. }
  cbn [fetch_csn]. rewrite Hdr, Hver, Hhor. cbn [negb andb]. unfold TransactionIdPrecedes.
  destruct (Z.ltb_spec x (horizon snap)) as [Hlt|Hge]; [by apply get_by_clog_knows|].
  destruct (word_knows w T x Hk Hu Hx) as (v & Hv & Hfit & Hns).
  assert (∃ w', runs (on_csnlog (if nested snap then CSNLogGetNestCommitSeqNo fuel (e_csn env) x
    else CSNLogGetCommitSeqNo (e_csn env) x)) w v w' ∧ xact_ok w' ∧ same_logs w w' ∧ cache w' = cache w)
    as (w1 & Hr1 & Hok1 & Hl1 & Hc1).
  { destruct (nested snap); [by apply csn_nested_get|]. apply csn_log_get_runs; [done|lia|].
    unfold raw_csn, InvalidTransactionId, FrozenTransactionId, BootstrapTransactionId.
    by rewrite !(proj2 (Z.eqb_neq _ _)) by lia. }
  exists v, w1. split_and!; try done.
  - unfold runs, xact_try. by rewrite Hr1.
  - eapply csn_fits_mono; [|done]. done.
Qed.

Definition with_cache (f : fetch_cache → fetch_cache) w : xact_state S1 S2 :=
  {| clog := clog w; csnlog := csnlog w; cache := f (cache w) |}.

Lemma knows_latest_csn w T x r : log_knows w T → log_knows (with_cache (set_latest_csn x r) w) T.
Proof.
  intros Hk. pose proof Hk as (Hok & _ & [H1 H2 H3] & _). eapply knows_after; [done|done|done|]. by split.
Qed.

Lemma knows_cached_csn w T x r P :
  log_knows w T → x ≠ InvalidTransactionId → csn_fits P (T x) r → is_open (T x) = false →
  log_knows (with_cache (set_cached_csn x r) w) T.
Proof.
  intros Hk Hx Hfit Ho. pose proof Hk as (Hok & _ & [H1 H2 H3] & _).
  eapply knows_after; [done|done|done|]. split; cbn; [|done..].
  rewrite (proj2 (Z.eqb_neq _ _) Hx). destruct (T x); cbn in Hfit; try done. tauto.
Qed.

Lemma mvcc_kind sn :
  satisfies sn = SNAPSHOT_MVCC →
  IsVersionMVCCSnapshot sn || bool_decide (satisfies sn = SNAPSHOT_DECODE_MVCC) = false ∧
  IsMVCCSnapshot sn = true.
Proof. intros Hsat. unfold IsVersionMVCCSnapshot, IsMVCCSnapshot. by rewrite Hsat. Qed.

(** The CSN cache answers truthfully or declines. *)
Lemma csn_cache_knows w T x snap :
  log_knows w T → asked T snap → T x ≠ V_unknown →
  ∃ r w', runs (FetchCSNFromCache env x snap true) w r w' ∧ log_knows w' T ∧
    (r = InvalidCommitSeqNo ∨
     (r ≠ InvalidCommitSeqNo ∧ csn_fits (frozen_ok snap x) (T x) r ∧
      latestFetchCSNXid (cache w') = x ∧ latestFetchCSN (cache w') = r)).
Proof using All.
  intros Hk Ha Hu. pose proof Hk as (Hok & _ & [Hct _ _] & _). destruct node_ok as [Hlite _].
  unfold FetchCSNFromCache. destruct (Z.eqb_spec x (cachedFetchCSNXid (cache w))) as [He|He].
  2: { exists InvalidCommitSeqNo, w. split_and!; [|done|by left]. eapply runs_bind; [done|]. cbn beta.
       unfold TransactionIdEquals. by rewrite (proj2 (Z.eqb_neq _ _) He). }
  set (r := cachedFetchCSN (cache w)) in *. rewrite <- He in Hct.
  set (use := match snap with None => true | Some sn =>
    negb (negb (TransactionIdPrecedes x (snap_xmin sn)) && (r =? COMMITSEQNO_FROZEN)) end).
  assert (runs (FetchCSNFromCache env x snap true) w (if use then r else InvalidCommitSeqNo)
    (if use then with_cache (set_latest_csn x r) w else w)) as Hrun.
  { unfold FetchCSNFromCache. eapply runs_bind; [done|]. cbn beta. unfold TransactionIdEquals.
    rewrite <- He, Z.eqb_refl. cbn [negb]. unfold use. destruct snap as [sn|]; [|done].
    destruct (mvcc_kind sn (proj1 Ha)) as [-> ->]. rewrite Hlite. cbn [negb orb andb].
    fold r. by destruct (negb (TransactionIdPrecedes x (snap_xmin sn)) && (r =? COMMITSEQNO_FROZEN)). }
  exists (if use then r else InvalidCommitSeqNo), (if use then with_cache (set_latest_csn x r) w else w).
  split; [exact Hrun|]. destruct use eqn:Huse; [|split; [done|by left]].
  split; [by apply knows_latest_csn|]. destruct (Z.eqb_spec r InvalidCommitSeqNo) as [Hr|Hr]; [by left|right].
  split_and!; try done. destruct (T x) as [| |c| |] eqn:Hv; cbn; try done.
  - destruct Hct as [->|Hf]; [by left|right]. split; [done|]. unfold use in Huse. rewrite Hf in Huse.
    destruct snap as [sn|]; [|done]. cbn. unfold TransactionIdPrecedes in Huse. rewrite Z.eqb_refl, andb_true_r in Huse.
    bool_to_prop. done.
  - by destruct (x =? InvalidTransactionId).
Qed.

Lemma csn_lookup_knows w T x isCommit snap :
  log_knows w T → asked T snap → T x ≠ V_unknown → (isCommit = true → is_committed (T x) = true) →
  ∃ r w', runs (TransactionIdGetCommitSeqNo fuel env x isCommit true (nested snap) snap) w r w' ∧
    log_knows w' T ∧ csn_fits (frozen_ok snap x) (T x) r ∧
    (2 < x → latestFetchCSNXid (cache w') = x ∧ latestFetchCSN (cache w') = r).
Proof using All.
  intros Hk Ha Hu Hc. pose proof Hk as (_ & _ & _ & H0 & _).
  destruct (csn_cache_knows w T x snap Hk Ha Hu) as (r1 & w1 & Hr1 & Hk1 & Hcase).
  unfold TransactionIdGetCommitSeqNo. destruct Hcase as [->|(Hne & Hfit & Hx1 & Hx2)].
  2: { exists r1, w1. split_and!; try done. eapply runs_bind; [exact Hr1|]. cbn beta.
       by rewrite (proj2 (Z.eqb_neq _ _) Hne). }
  destruct (Z.eqb_spec x InvalidTransactionId) as [->|Hx].
  { exists COMMITSEQNO_ABORTED, (with_cache (set_latest_csn InvalidTransactionId (latestFetchCSN (cache w1))) w1).
    split_and!; [|by apply knows_latest_csn|by rewrite H0|done].
    eapply runs_bind; [exact Hr1|]. done. }
  pose proof Hk as (_ & Hs & _).
  destruct (supported_cases w x (T x) (Hs x) Hu Hx) as [[Hsp Hv]|H2].
  { exists COMMITSEQNO_FROZEN, (with_cache (set_latest_csn InvalidTransactionId (latestFetchCSN (cache w1))) w1).
    split_and!; [|by apply knows_latest_csn|rewrite Hv; by left|by destruct Hsp as [-> | ->]].
    eapply runs_bind; [exact Hr1|]. by destruct Hsp as [-> | ->]. }
  destruct (fetch_knows w1 T x isCommit snap Hk1 Ha Hu H2 Hc) as (r & w2 & Hr2 & Hok2 & Hl2 & Hc2 & Hfit).
  assert (log_knows w2 T) as Hk2.
  { eapply knows_after; [exact Hk1|done..|]. destruct Hk1 as (_ & _ & [A1 A2 A3] & _). split; by rewrite ?Hc2. }
  assert (TransactionIdIsNormal x = true) as Hn.
  { apply Z.leb_le. unfold FirstNormalTransactionId. lia. }
  set (b := COMMITSEQNO_IS_COMMITTED r || COMMITSEQNO_IS_ABORTED r).
  set (w3 := if b then with_cache (set_cached_csn x r) w2 else w2).
  assert (log_knows w3 T) as Hk3.
  { unfold w3. destruct b eqn:Hb; [|done]. eapply knows_cached_csn; [done|done|exact Hfit|].
    destruct (T x) eqn:Hv; cbn in Hfit; try done; unfold b in Hb; by rewrite Hfit in Hb. }
  exists r, (with_cache (set_latest_csn x r) w3). split_and!; try done; [|by apply knows_latest_csn].
  eapply runs_bind; [exact Hr1|]. cbn beta. rewrite Z.eqb_refl, Hn. cbn [negb].
  eapply runs_bind; [exact Hr2|]. cbn beta. eapply (runs_bind _ _ _ tt w3).
  { fold b. unfold w3. by destruct b. }
  by eapply runs_bind.
Qed.

(** *** The laws *)

(** How a snapshot takes the number of a committed transaction. *)
Lemma committed_answer sn x c r :
  COMMITSEQNO_FROZEN ≤ c < 2 ^ 60 → COMMITSEQNO_FROZEN < snapshotcsn sn →
  (x < snap_xmin sn → c < snapshotcsn sn) → r = c ∨ (r = COMMITSEQNO_FROZEN ∧ x < snap_xmin sn) →
  COMMITSEQNO_IS_COMMITTED r = true ∧ COMMITSEQNO_IS_COMMITTING r = false ∧
  (r <? snapshotcsn sn) = (c <? snapshotcsn sn).
Proof.
  intros Hc Hfz Hbelow Hr. unfold COMMITSEQNO_FROZEN in *.
  assert (2 ≤ r < 2 ^ 60) as Hrange by (destruct Hr as [->|[-> _]]; lia).
  split_and!.
  - apply committed_spec; unfold COMMITSEQNO_FROZEN; lia.
  - apply committed_not_committing. lia.
  - destruct Hr as [->|[-> Hlt]]; [done|]. specialize (Hbelow Hlt). lia.
Qed.

Lemma visible_knows w T x sn :
  log_knows w T → T x ≠ V_unknown → log_snap_ok T sn →
  post (XidVisibleInSnapshot fuel env x sn) w (λ r w', log_knows w' T ∧ visible r = sees sn (T x) ∧
    sync r = false ∧
    match T x with
    | V_committed _ => hintstatus r = XID_COMMITTED
    | V_aborted => hintstatus r ≠ XID_COMMITTED
    | _ => hintstatus r = XID_INPROGRESS
    end ∧
    (hintstatus r = XID_ABORTED → x ≠ InvalidTransactionId →
       post (LatestFetchCSNDidAbort env x) w' (λ b w2, b = true ∧ log_knows w2 T))).
Proof using All.
  intros Hk Hu Hsn. destruct (csn_lookup_knows w T x false (Some sn)) as (r & w' & Hr & Hk' & Hfit & Hlat);
    [done..|].
  assert (∀ v, runs (XidVisibleInSnapshot fuel env x sn) w v w' →
    v = mkvis (sees sn (T x)) (match T x with V_committed _ => XID_COMMITTED | V_aborted => XID_ABORTED
                              | _ => XID_INPROGRESS end) false →
    (T x = V_aborted → r = COMMITSEQNO_ABORTED) → post (XidVisibleInSnapshot fuel env x sn) w (λ r w',
      log_knows w' T ∧ visible r = sees sn (T x) ∧ sync r = false ∧
      match T x with
      | V_committed _ => hintstatus r = XID_COMMITTED
      | V_aborted => hintstatus r ≠ XID_COMMITTED
      | _ => hintstatus r = XID_INPROGRESS
      end ∧ (hintstatus r = XID_ABORTED → x ≠ InvalidTransactionId →
       post (LatestFetchCSNDidAbort env x) w' (λ b w2, b = true ∧ log_knows w2 T)))) as Hfin.
  { intros v Hrun -> Hab. eapply post_runs; [exact Hrun|]. cbn. split_and!; try done; [by destruct (T x)|].
    intros Hst Hx. pose proof Hk as (_ & Hs & _). destruct (supported_cases w x (T x) (Hs x) Hu Hx) as [[_ Hv]|H2x]; [by rewrite Hv in Hst|].
    destruct (T x); try done. destruct (Hlat H2x) as [H1 H2].
    apply (post_runs _ _ true w'); [|done]. unfold LatestFetchCSNDidAbort. eapply runs_bind; [done|]. cbn beta.
    case_bool; [done|]. unfold TransactionIdEquals. rewrite H1, H2, Z.eqb_refl. by rewrite (Hab eq_refl). }
  destruct (T x) as [| |c| |] eqn:Hv; cbn in Hfit; try done.
  - subst r. eapply Hfin; [|done|done]. unfold XidVisibleInSnapshot. cbn [xid_visible_loop].
    by eapply runs_bind; [exact Hr|].
  - subst r. eapply Hfin; [|done|done]. unfold XidVisibleInSnapshot. cbn [xid_visible_loop].
    by eapply runs_bind; [exact Hr|].
  - pose proof Hk as (_ & Hs & _). specialize (Hs x). rewrite Hv in Hs. pose proof (supported_range _ _ _ Hs) as Hrange.
    destruct Hsn as (_ & Hfz & Hbelow & _). specialize (Hbelow x c Hv).
    eapply Hfin; [|done|done]. unfold XidVisibleInSnapshot. cbn [xid_visible_loop].
    eapply runs_bind; [exact Hr|]. cbn beta.
    destruct (committed_answer sn x c r) as (-> & _ & ->); [done..|]. done.
  - subst r. eapply Hfin; [|done|done]. unfold XidVisibleInSnapshot. cbn [xid_visible_loop].
    by eapply runs_bind; [exact Hr|].
Qed.

Lemma committed_visible_knows w T x sn :
  log_knows w T → is_committed (T x) = true → log_snap_ok T sn →
  post (CommittedXidVisibleInSnapshot fuel env x sn) w (λ r w', r = (sees sn (T x), false) ∧ log_knows w' T).
Proof using All.
  intros Hk Hcm Hsn. destruct node_ok as [Hlite _].
  destruct (T x) as [| |c| |] eqn:Hv; try done. cbn [sees].
  pose proof Hk as (_ & Hs & _). specialize (Hs x). rewrite Hv in Hs. pose proof (supported_range _ _ _ Hs) as Hrange.
  pose proof Hsn as (_ & Hfz & Hbelow & _). specialize (Hbelow x c Hv).
  unfold CommittedXidVisibleInSnapshot. rewrite Hlite. cbn [negb orb andb]. unfold TransactionIdPrecedes.
  destruct (Z.ltb_spec x (snap_xmin sn)) as [Hlt|Hge].
  - apply (post_runs _ _ (true, false) w); [done|]. split; [|done]. by rewrite (proj2 (Z.ltb_lt _ _) (Hbelow Hlt)).
  - destruct (csn_lookup_knows w T x true (Some sn)) as (r & w' & Hr & Hk' & Hfit & _); [done|done|by rewrite Hv| |].
    { intros _. by rewrite Hv. }
    rewrite Hv in Hfit. apply (post_runs _ _ (c <? snapshotcsn sn, false) w'); [|done].
    cbn [committed_visible_loop]. eapply runs_bind; [exact Hr|]. cbn beta.
    destruct (committed_answer sn x c r) as (-> & -> & ->); [done..|]. done.
Qed.

Lemma status_knows w T x :
  log_knows w T → T x ≠ V_unknown →
  post (TransactionIdGetStatus fuel env x) w (λ r w', log_knows w' T ∧
    match T x with
    | V_committed _ => r = XID_COMMITTED
    | V_aborted => r ≠ XID_COMMITTED
    | _ => r = XID_INPROGRESS
    end).
Proof using All.
  intros Hk Hu. destruct (csn_lookup_knows w T x false None) as (r & w' & Hr & Hk' & Hfit & _); [done..|].
  pose proof Hk as (_ & Hs & _). specialize (Hs x).
  eapply post_runs; [unfold TransactionIdGetStatus; eapply runs_bind; [exact Hr|]|].
  - cbn beta. instantiate (1 := w'). instantiate (1 := if COMMITSEQNO_IS_COMMITTED r then XID_COMMITTED
      else if COMMITSEQNO_IS_ABORTED r then XID_ABORTED else XID_INPROGRESS). by repeat case_bool.
  - split; [done|]. destruct (T x) as [| |c| |] eqn:Hv; cbn in Hfit; try done; try (by subst r).
    pose proof (supported_range _ _ _ Hs) as Hrange.
    assert (2 ≤ r < 2 ^ 60) by (destruct Hfit as [->|[-> _]]; unfold COMMITSEQNO_FROZEN in *; lia).
    assert (COMMITSEQNO_IS_COMMITTED r = true) as -> by (apply committed_spec; unfold COMMITSEQNO_FROZEN; lia).
    done.
Qed.

Lemma commit_lsn_knows w T x :
  log_knows w T → is_committed (T x) = true → post (TransactionIdGetCommitLSN x) w (λ _ w', log_knows w' T).
Proof using All.
  intros Hk Hcm. destruct (T x) as [| |c| |] eqn:Hv; try done. pose proof Hk as (Hok & Hs & Hct & _).
  specialize (Hs x). rewrite Hv in Hs.
  unfold TransactionIdGetCommitLSN. apply post_bind, post_gets. case_bool; [by apply post_ret|].
  destruct (TransactionIdIsNormal x) eqn:Hn; cbn [negb]; [|by apply post_ret].
  destruct Hs as [[[-> | ->] _]|(H2 & Hst & _)]; [done..|].
  destruct (clog_get_runs x w _ Hok Hst) as (lsn & w1 & Hr1 & Hok1 & Hl1 & Hc1).
  apply post_bind. eapply post_runs; [exact Hr1|]. apply post_ret.
  eapply knows_after; [done..|]. destruct Hct. split; by rewrite Hc1.
Qed.

(** The code of the logs keeps the promises that tuple visibility relies on. *)
#[local] Program Instance log_mgr_spec : XactMgrSpec log_mgr := {|
  knows := log_knows;
  snap_ok := log_snap_ok;
|}.
Next Obligation. by intros w T (_ & _ & _ & H0 & _). Qed.
Next Obligation. intros w T x (_ & _ & _ & _ & Hc & _) Hu. by apply Hc. Qed.
Next Obligation.
  intros w T x Hk Hu. pose proof Hk as (_ & _ & _ & _ & Hc & _). destruct (Hc x Hu) as [_ <-].
  by eapply post_runs; [apply proc_array|].
Qed.
Next Obligation.
  intros w T x Hk Hu. pose proof Hk as (_ & _ & _ & _ & Hc & _). destruct (Hc x Hu) as [_ <-].
  apply post_bind. eapply post_runs; [apply proc_array|]. by apply post_ret.
Qed.
Next Obligation. intros. by apply did_commit_knows. Qed.
Next Obligation. intros. by apply did_abort_knows. Qed.
Next Obligation. intros. by apply status_knows. Qed.
Next Obligation. intros. by apply commit_lsn_knows. Qed.
Next Obligation. intros. by apply visible_knows. Qed.
Next Obligation. intros. by apply committed_visible_knows. Qed.
Next Obligation. by intros T sn (_ & H & _). Qed.
Next Obligation. intros w T x Hk. apply post_ret. split; [|done]. symmetry. apply Hk. Qed.

End HeapManager.

(** ** A concrete heap *)

Section HeapWitness.

(** Transaction 3 has committed with CSN 50, 4 is running, 5 has aborted and 6 is
    our own; 1 and 2 stand for what is older than the logs. *)
Definition heap_world : xact_state (page_store BLCKSZ) (page_store CSNLOG_XACTS_PER_PAGE) :=
  xact_demo (page_set 0 0 1 8 (page_set 0 0 0 64 demo_store))
    {[ 0 := aset (aset empty_page 3 50) 5 1; 1 := empty_page ]}.

Definition heap_running (x : Z) : bool := (x =? 4) || (x =? 6).
Definition heap_members (x : Z) : list MultiXactMember := [].

Definition heap_vis_env : vis_env (page_store BLCKSZ) (page_store CSNLOG_XACTS_PER_PAGE) := {|
  v_xact := xact_demo_env; xc_maintenance_mode := false; bInAbortTransaction := false;
  hotStandbyRecycleXid := 0; SyncWaitXidEnd := λ _, skip;
  TransactionIdIsInProgress := λ x, mret (heap_running x) |}.

Definition heap_truth : truth := {|
  verdict_of x := if x =? 0 then V_aborted else if (x =? 1) || (x =? 2) then V_committed COMMITSEQNO_FROZEN
    else if x =? 3 then V_committed 50 else if x =? 4 then V_running
    else if x =? 5 then V_aborted else if x =? 6 then V_mine else V_unknown;
  members_of := heap_members |}.

Definition heap_mgr := log_mgr 1 heap_vis_env (Z.eqb 6) heap_members.

#[local] Instance heap_mgr_spec : XactMgrSpec heap_mgr.
Proof. by apply (log_mgr_spec 1 heap_vis_env (Z.eqb 6) heap_running heap_members); [lia|..]. Defined.

Definition heap_demo_env : heap_env (xact_state (page_store BLCKSZ) (page_store CSNLOG_XACTS_PER_PAGE)) := {|
  h_combo := combo_demo_env; h_useLocalSnapshot := false; h_RecoveryInProgress := false;
  h_IsRoachStandbyCluster := false; XACT_READ_UNCOMMITTED := false; enable_cluster_resize := false;
  h_SS_STANDBY_MODE := false; h_GTM_LITE_MODE := false; h_xc_maintenance_mode := false;
  XactReadOnly := false; enable_show_any_tuples := false; IsInitdb := false;
  IsolationUsesXactSnapshot := false; GetCurrentCommandId := 9; BufferIsPermanent := true;
  BufferGetLSNAtomic := 0; XLogNeedsFlush := λ _, false; ResolveCminCmaxDuringDecoding := λ _, None;
  others := λ _ h, h |}.

(** A tuple with the given xmin, xmax, command id and flags, in its page. *)
Definition tuple_state (xmin xmax cid mask : Z)
  : vstate (xact_state (page_store BLCKSZ) (page_store CSNLOG_XACTS_PER_PAGE)) := {|
  world := heap_world; combo := combo_demo; page := demo_page;
  htup := {| t_self := (0, 1); t_xid_base := 0; t_multi_base := 0;
             t_data := {| t_xmin := xmin; t_xmax := xmax; t_cid := cid; t_ctid := (0, 1);
                          t_infomask2 := 0; t_infomask := mask |} |};
  buf_dirty := false; dirty_xmin := 0; dirty_xmax := 0; cur_write := None |}.

Lemma heap_knows_supports x : log_supports heap_vis_env heap_world x (heap_truth x).
Proof.
  cbn [heap_truth verdict_of].
  destruct (Z.eqb_spec x 0) as [->|]; [by left|].
  destruct (Z.eqb_spec x 1) as [->|]; [left; split; [by left|done]|].
  destruct (Z.eqb_spec x 2) as [->|]; [left; split; [by right|done]|]. cbn [orb].
  destruct (Z.eqb_spec x 3) as [->|]; [right; split_and!; by vm_compute|].
  destruct (Z.eqb_spec x 4) as [->|]; [unfold log_supports; split_and!; by vm_compute|].
  destruct (Z.eqb_spec x 5) as [->|]; [right; split_and!; by vm_compute|].
  destruct (Z.eqb_spec x 6) as [->|]; [unfold log_supports; split_and!; by vm_compute|done].
Qed.

Lemma heap_world_ok : xact_ok heap_world.
Proof.
  split_and!; [|by eapply two_pages_ok|done].
  apply ps_update_ok; [|by vm_compute]. apply ps_update_ok; [apply demo_ok|by vm_compute].
Qed.

Lemma heap_knows : log_knows heap_vis_env (Z.eqb 6) heap_running heap_members heap_world heap_truth.
Proof.
  split_and!; [apply heap_world_ok|apply heap_knows_supports|by split|done| |done].
  intros x. cbn [heap_truth verdict_of]. unfold heap_running. rewrite (Z.eqb_sym 6 x).
  destruct (Z.eqb_spec x 1) as [->|]; [done|]. destruct (Z.eqb_spec x 2) as [->|]; [done|]. cbn [orb].
  repeat (case_bool; [bool_to_prop; subst; done|]). done.
Qed.

(** The tuples: inserted by 3 and being deleted by 4; inserted by 3, an aborted
    delete of 5; inserted by 5; our own, deleted by our command 4; inserted by 3
    and deleted by us; hinted as dead. *)
Ltac solve_tuple := split; vm_compute; intros; try done; try (by left); try (by right); split; done.

Lemma tuple_3_4 : tuple_ok heap_truth demo_page (header (tuple_state 3 4 2 0)).
Proof. solve_tuple. Qed.
Lemma tuple_3_5 : tuple_ok heap_truth demo_page (header (tuple_state 3 5 2 0)).
Proof. solve_tuple. Qed.
Lemma tuple_3_3 : tuple_ok heap_truth demo_page (header (tuple_state 3 3 2 0)).
Proof. solve_tuple. Qed.
Lemma tuple_5 : tuple_ok heap_truth demo_page (header (tuple_state 5 0 2 0x0800)).
Proof. solve_tuple. Qed.
Lemma tuple_5_dead : tuple_ok heap_truth demo_page (header (tuple_state 5 0 2 0x0A00)).
Proof. solve_tuple. Qed.
Lemma tuple_6_6 : tuple_ok heap_truth demo_page (header (tuple_state 6 6 4 0)).
Proof. solve_tuple. Qed.

Lemma heap_session n : 50 < n → mvcc_session heap_mgr heap_demo_env heap_truth (demo_snapshot 4 n).
Proof.
  intros Hn. split_and!; try done. split_and!; [done|cbn; unfold COMMITSEQNO_FROZEN; lia|..]; cbn.
  - intros x c Hv _. repeat (case_bool; [bool_to_prop; first [done|injection Hv as <-; unfold COMMITSEQNO_FROZEN; lia]|]). done.
  - intros x Hv. repeat (case_bool; [bool_to_prop; subst; done|]). done.
Qed.

Lemma heap_cids xmin xmax cid mask :
  flag mask HEAP_COMBOCID = false → cids_ok heap_demo_env (tuple_state xmin xmax cid mask) cid cid.
Proof. intros Hm. split; [unfold cids; cbn; by rewrite Hm|]. unfold bit. cbn. by rewrite Hm. Qed.

Lemma satisfies_self_witness :
  ∃ s', runs (HeapTupleSatisfiesSelf heap_mgr heap_demo_env) (tuple_state 3 4 2 0) true s'.
Proof.
  destruct (satisfies_self heap_mgr heap_demo_env heap_truth (tuple_state 3 4 2 0)) as (r & s' & Hr & -> & _).
  - apply heap_knows.
  - apply tuple_3_4.
  - exists s'. exact Hr.
Defined.

Lemma satisfies_dirty_witness :
  ∃ s', runs (HeapTupleSatisfiesDirty heap_mgr heap_demo_env) (tuple_state 3 4 2 0) true s' ∧ dirty_xmax s' = 4.
Proof.
  destruct (satisfies_dirty heap_mgr heap_demo_env heap_truth (tuple_state 3 4 2 0))
    as (r & s' & Hr & -> & _ & _ & Hx).
  - apply heap_knows.
  - apply tuple_3_4.
  - exists s'. split; [exact Hr|exact Hx].
Defined.

(** Deleted by our command 4, before the current command 9. *)
Lemma satisfies_now_witness :
  ∃ s', runs (HeapTupleSatisfiesNow heap_mgr heap_demo_env) (tuple_state 6 6 4 0) false s'.
Proof.
  destruct (satisfies_now heap_mgr heap_demo_env heap_truth (tuple_state 6 6 4 0) 4 4) as (r & s' & Hr & -> & _).
  - apply heap_knows.
  - apply tuple_6_6.
  - by apply heap_cids.
  - done.
  - exists s'. exact Hr.
Defined.

Lemma satisfies_mvcc_witness :
  ∃ s', runs (HeapTupleSatisfiesMVCC heap_mgr heap_demo_env 0 (demo_snapshot 4 60)) (tuple_state 3 4 2 0) true s'.
Proof.
  destruct (satisfies_mvcc heap_mgr heap_demo_env heap_truth 0 (tuple_state 3 4 2 0) (demo_snapshot 4 60) 2 2)
    as (r & s' & Hr & -> & _).
  - apply heap_knows.
  - by apply heap_session.
  - apply tuple_3_4.
  - by apply heap_cids.
  - done.
  - exists s'. exact Hr.
Defined.


Lemma satisfies_vacuum_witness :
  ∃ s', runs (HeapTupleSatisfiesVacuum heap_mgr heap_demo_env 4 false) (tuple_state 3 3 2 0) HEAPTUPLE_DEAD s'.
Proof.
  destruct (satisfies_vacuum heap_mgr heap_demo_env heap_truth 4 false (tuple_state 3 3 2 0))
    as (r & s' & Hr & (x & Hx & ->) & _).
  - apply heap_knows.
  - done.
  - apply tuple_3_3.
  - exists s'. injection Hx as <-. exact Hr.
Defined.

Lemma vacuum_dead_invisible_witness :
  ∃ s1 s2, runs (HeapTupleSatisfiesVacuum heap_mgr heap_demo_env 4 false) (tuple_state 5 0 2 0x0800) HEAPTUPLE_DEAD s1 ∧
    runs (HeapTupleSatisfiesMVCC heap_mgr heap_demo_env 0 (demo_snapshot 4 60)) s1 false s2.
Proof.
  assert (∃ s1, runs (HeapTupleSatisfiesVacuum heap_mgr heap_demo_env 4 false) (tuple_state 5 0 2 0x0800)
    HEAPTUPLE_DEAD s1) as [s1 Hr].
  { eexists. vm_compute. reflexivity. }
  destruct (vacuum_dead_invisible heap_mgr heap_demo_env heap_truth 4 false (tuple_state 5 0 2 0x0800) 0
    (demo_snapshot 4 60) 2 2 s1) as (s2 & Hr2).
  - apply heap_knows.
  - done.
  - apply tuple_5.
  - exact Hr.
  - by apply heap_session.
  - by apply heap_cids.
  - done.
  - intros x c Hv _. cbn in *. repeat (case_bool; [bool_to_prop; first [done|injection Hv as <-; unfold COMMITSEQNO_FROZEN; lia]|]). done.
  - by exists s1, s2.
Defined.

Lemma surely_dead_sound_witness :
  HeapTupleIsSurelyDead (htup (tuple_state 5 0 2 0x0A00)) 4 = true ∧
  ∃ s', runs (HeapTupleSatisfiesVacuum heap_mgr heap_demo_env 4 false) (tuple_state 5 0 2 0x0A00) HEAPTUPLE_DEAD s'.
Proof.
  split; [reflexivity|].
  apply (surely_dead_sound heap_mgr heap_demo_env heap_truth 4 false (tuple_state 5 0 2 0x0A00)).
  - apply heap_knows.
  - done.
  - apply tuple_5_dead.
  - done.
  - done.
Defined.

Lemma satisfies_update_witness :
  ∃ s', runs (HeapTupleSatisfiesUpdate heap_mgr heap_demo_env 0 9 false) (tuple_state 3 4 2 0) TM_BeingModified s'.
Proof.
  destruct (satisfies_update heap_mgr heap_demo_env heap_truth 0 9 false 2 2 (tuple_state 3 4 2 0))
    as (r & s' & Hr & -> & _).
  - apply heap_knows.
  - apply tuple_3_4.
  - by apply heap_cids.
  - exists s'. exact Hr.
Defined.

Lemma update_ok_exclusive_witness :
  ∃ s', runs (HeapTupleSatisfiesUpdate heap_mgr heap_demo_env 0 9 false) (tuple_state 3 5 2 0) TM_Ok s' ∧
    deleter heap_truth demo_page (header (tuple_state 3 5 2 0)) = None.
Proof.
  assert (∃ s', runs (HeapTupleSatisfiesUpdate heap_mgr heap_demo_env 0 9 false) (tuple_state 3 5 2 0) TM_Ok s')
    as [s' Hr].
  { eexists. vm_compute. reflexivity. }
  exists s'. split; [done|].
  apply (update_ok_exclusive heap_mgr heap_demo_env heap_truth 0 9 false 2 2 (tuple_state 3 5 2 0) s').
  - apply heap_knows.
  - apply tuple_3_5.
  - by apply heap_cids.
  - exact Hr.
Defined.

Lemma only_locked_sound_witness :
  post (HeapTupleIsOnlyLocked heap_mgr) (tuple_state 3 4 2 0)
    (λ r s', (if r : bool then deleter heap_truth demo_page (header (tuple_state 3 4 2 0)) = None
              else is_Some (deleter_xid heap_truth demo_page (header (tuple_state 3 4 2 0)))) ∧
             evolves heap_mgr heap_truth (tuple_state 3 4 2 0) s').
Proof.
  apply (only_locked_sound heap_mgr heap_truth (tuple_state 3 4 2 0)).
  - apply heap_knows.
  - apply tuple_3_4.
  - done.
  - done.
Defined.

Lemma timecapsule_lost_delta_witness :
  ∃ s', runs (HeapTupleSatisfiesDelta heap_mgr heap_demo_env 0 (demo_snapshot 4 60)) (tuple_state 3 4 2 0) false s'.
Proof.
  destruct (timecapsule_lost_delta heap_mgr heap_demo_env heap_truth 0 (tuple_state 3 4 2 0) (demo_snapshot 4 60) 2 2)
    as [_ (r & s' & Hr & -> & _)].
  - apply heap_knows.
  - by apply heap_session.
  - apply tuple_3_4.
  - by apply heap_cids.
  - done.
  - done.
  - exists s'. exact Hr.
Defined.

End HeapWitness.
