(* ===== verification/HeapLock.v ===== *)
(** * Tuple locks and freezing

    The parts of [src/gausskernel/storage/access/heap/heapam.cpp] that change the xmax
    of a tuple, or its xmin, without deleting it: the modes of tuple locks and their
    conflicts ([heapam.h]; the conflict table is in [LockDefs.v]), the xmax and the
    flags that a new locker or updater leaves ([ComputeNewXmaxInfomask],
    [GetMultiXactIdHintBits]), the store of [heap_lock_tuple], the questions whether to
    wait ([DoesMultiXactIdConflict], [test_lockmode_for_conflict]), and freezing
    ([heap_freeze_tuple], [heap_tuple_needs_freeze]).

    The code runs over the transaction manager of [HeapVisibility.v] and, to make
    multixacts, over [lock_mgr]; [LockMgrSpec] is what it promises. Not modelled: waiting
    for the lock, the write-ahead log, the visibility map, the shift of the page's xid
    base ([heap_page_prepare_for_xid]) and servers older than the enhanced tuple locks. *)

From S2P Require Import Prelude TransamDefs SlruInterface Clog CsnLog Transam Snapshot HeapTuple LockDefs ComboCid MultiXact HeapVisibility VisibilitySpec.

(** ** Modes *)

Inductive LockTupleMode : Type :=
| LockTupleKeyShare
| LockTupleShared
| LockTupleNoKeyExclusive
| LockTupleExclusive.

#[global] Instance LockTupleMode_eq_dec : EqDecision LockTupleMode.
Proof. solve_decision. Defined.

(** The enumeration is ordered by strength. *)
Definition strength (m : LockTupleMode) : Z :=
  match m with
  | LockTupleKeyShare => 0
  | LockTupleShared => 1
  | LockTupleNoKeyExclusive => 2
  | LockTupleExclusive => 3
  end.

(** [TupleLockExtraInfo]; [None] is the status -1. *)
Definition hwlock (m : LockTupleMode) : Z :=
  match m with
  | LockTupleKeyShare => AccessShareLock
  | LockTupleShared => RowShareLock
  | LockTupleNoKeyExclusive => ExclusiveLock
  | LockTupleExclusive => AccessExclusiveLock
  end.
Definition lockstatus (m : LockTupleMode) : option MultiXactStatus :=
  match m with
  | LockTupleKeyShare => Some MultiXactStatusForKeyShare
  | LockTupleShared => Some MultiXactStatusForShare
  | LockTupleNoKeyExclusive => Some MultiXactStatusForNoKeyUpdate
  | LockTupleExclusive => Some MultiXactStatusForUpdate
  end.
Definition updstatus (m : LockTupleMode) : option MultiXactStatus :=
  match m with
  | LockTupleKeyShare => None
  | LockTupleShared => None
  | LockTupleNoKeyExclusive => Some MultiXactStatusNoKeyUpdate
  | LockTupleExclusive => Some MultiXactStatusUpdate
  end.

Definition TUPLOCK_FROM_MXSTATUS (status : MultiXactStatus) : LockTupleMode :=
  match status with
  | MultiXactStatusForShare => LockTupleShared
  | MultiXactStatusForKeyShare => LockTupleKeyShare
  | MultiXactStatusForNoKeyUpdate => LockTupleNoKeyExclusive
  | MultiXactStatusForUpdate => LockTupleExclusive
  | MultiXactStatusNoKeyUpdate => LockTupleNoKeyExclusive
  | MultiXactStatusUpdate => LockTupleExclusive
  end.
Definition LOCKMODE_FROM_MXSTATUS (status : MultiXactStatus) : Z := hwlock (TUPLOCK_FROM_MXSTATUS status).

Definition GetMXactStatusForLock {S} (mode : LockTupleMode) (isUpdate : bool) : M S MultiXactStatus :=
  match (if isUpdate then updstatus mode else lockstatus mode) with
  | Some retval => mret retval
  | None => raise ERROR
  end.

(** ** Flags *)

Definition HEAP_KEYS_UPDATED : Z := 0x1000.
Definition HEAP_HOT_UPDATED : Z := 0x4000.
Definition HEAP_XMAX_BITS : Z :=
  Z.lor (Z.lor (Z.lor HEAP_XMAX_COMMITTED HEAP_XMAX_INVALID) HEAP_XMAX_IS_MULTI) HEAP_LOCK_MASK.

Definition HEAP_XMAX_IS_SHR_LOCKED (infomask : Z) : bool := Z.land infomask HEAP_LOCK_MASK =? HEAP_XMAX_SHARED_LOCK.
Definition HEAP_XMAX_IS_KEYSHR_LOCKED (infomask : Z) : bool := Z.land infomask HEAP_LOCK_MASK =? HEAP_XMAX_KEYSHR_LOCK.

Definition clear_bits (m b : Z) : Z := Z.land m (lnotw 16 b).

Definition set_infomasks (h : HeapTupleHeaderData) (m m2 : Z) : HeapTupleHeaderData :=
  {| t_xmin := t_xmin h; t_xmax := t_xmax h; t_cid := t_cid h; t_ctid := t_ctid h; t_infomask2 := m2; t_infomask := m |}.
Definition set_ctid (h : HeapTupleHeaderData) (c : Z * Z) : HeapTupleHeaderData :=
  {| t_xmin := t_xmin h; t_xmax := t_xmax h; t_cid := t_cid h; t_ctid := c; t_infomask2 := t_infomask2 h; t_infomask := t_infomask h |}.
Definition set_short_xmin (h : HeapTupleHeaderData) (x : Z) : HeapTupleHeaderData :=
  {| t_xmin := x; t_xmax := t_xmax h; t_cid := t_cid h; t_ctid := t_ctid h; t_infomask2 := t_infomask2 h; t_infomask := t_infomask h |}.
Definition set_short_xmax (h : HeapTupleHeaderData) (x : Z) : HeapTupleHeaderData :=
  {| t_xmin := t_xmin h; t_xmax := x; t_cid := t_cid h; t_ctid := t_ctid h; t_infomask2 := t_infomask2 h; t_infomask := t_infomask h |}.

Definition HeapTupleHeaderSetXmax (pg : HeapPageHeaderData) (h : HeapTupleHeaderData) (xid : Z) : HeapTupleHeaderData :=
  set_short_xmax h (NormalTransactionIdToShort
    (if flag (t_infomask h) HEAP_XMAX_IS_MULTI then pd_multi_base pg else pd_xid_base pg) xid).
Definition HeapTupleSetXmax (tup : HeapTupleData) (xid : Z) : HeapTupleHeaderData :=
  set_short_xmax (t_data tup) (NormalTransactionIdToShort
    (if flag (t_infomask (t_data tup)) HEAP_XMAX_IS_MULTI then t_multi_base tup else t_xid_base tup) xid).
Definition HeapTupleSetXmin (tup : HeapTupleData) (xid : Z) : HeapTupleHeaderData :=
  set_short_xmin (t_data tup) (NormalTransactionIdToShort (t_xid_base tup) xid).
Definition HeapTupleHeaderClearHotUpdated (h : HeapTupleHeaderData) : HeapTupleHeaderData :=
  set_infomasks h (t_infomask h) (clear_bits (t_infomask2 h) HEAP_HOT_UPDATED).

(** ** Operations *)

(** The loop over the members: the strongest mode, [HEAP_KEYS_UPDATED], whether there
    is an update. *)
Fixpoint member_bits (members : list MultiXactMember) (strongest : LockTupleMode) (bits2 : Z) (hasUpdate : bool)
    : LockTupleMode * Z * bool :=
  match members with
  | [] => (strongest, bits2, hasUpdate)
  | m :: members =>
      let mode := TUPLOCK_FROM_MXSTATUS (mx_status m) in
      let strongest := if strength strongest <? strength mode then mode else strongest in
      match mx_status m with
      | MultiXactStatusForKeyShare | MultiXactStatusForShare | MultiXactStatusForNoKeyUpdate =>
          member_bits members strongest bits2 hasUpdate
      | MultiXactStatusForUpdate => member_bits members strongest (Z.lor bits2 HEAP_KEYS_UPDATED) hasUpdate
      | MultiXactStatusNoKeyUpdate => member_bits members strongest bits2 true
      | MultiXactStatusUpdate => member_bits members strongest (Z.lor bits2 HEAP_KEYS_UPDATED) true
      end
  end.

Definition hint_bits (members : list MultiXactMember) : Z * Z :=
  let '(strongest, bits2, hasUpdate) := member_bits members LockTupleKeyShare 0 false in
  let bits := Z.lor HEAP_XMAX_IS_MULTI
    (match strongest with
     | LockTupleExclusive | LockTupleNoKeyExclusive => HEAP_XMAX_EXCL_LOCK
     | LockTupleShared => HEAP_XMAX_SHARED_LOCK
     | LockTupleKeyShare => HEAP_XMAX_KEYSHR_LOCK
     end) in
  (bits, if hasUpdate then bits2 else Z.lor bits2 HEAP_XMAX_LOCK_ONLY).

(** The first block after [l5]: no previous locker. *)
Definition sole_infomask (mode : LockTupleMode) (is_update : bool) : Z * Z :=
  if is_update then (0, if decide (mode = LockTupleExclusive) then HEAP_KEYS_UPDATED else 0)
  else match mode with
       | LockTupleKeyShare => (HEAP_XMAX_KEYSHR_LOCK, HEAP_XMAX_LOCK_ONLY)
       | LockTupleShared => (HEAP_XMAX_SHARED_LOCK, HEAP_XMAX_LOCK_ONLY)
       | LockTupleNoKeyExclusive => (HEAP_XMAX_EXCL_LOCK, HEAP_XMAX_LOCK_ONLY)
       | LockTupleExclusive => (HEAP_XMAX_EXCL_LOCK, Z.lor HEAP_XMAX_LOCK_ONLY HEAP_KEYS_UPDATED)
       end.

(** The status of a single xmax. *)
Definition status_of_update (infomask2 : Z) : MultiXactStatus :=
  if flag infomask2 HEAP_KEYS_UPDATED then MultiXactStatusUpdate else MultiXactStatusNoKeyUpdate.
Definition status_of_xmax (infomask infomask2 : Z) : MultiXactStatus :=
  if HEAP_XMAX_IS_LOCKED_ONLY infomask infomask2 then
    if HEAP_XMAX_IS_KEYSHR_LOCKED infomask then MultiXactStatusForKeyShare
    else if HEAP_XMAX_IS_SHR_LOCKED infomask then MultiXactStatusForShare
    else if flag infomask2 HEAP_KEYS_UPDATED then MultiXactStatusForUpdate
    else MultiXactStatusForNoKeyUpdate
  else status_of_update infomask2.

(** The changes of [heap_lock_tuple] to the header. *)
Definition store_xmax (pg : HeapPageHeaderData) (tid : Z * Z) (h : HeapTupleHeaderData) (xid new_infomask new_infomask2 : Z)
    : HeapTupleHeaderData :=
  let locked_only := HEAP_XMAX_IS_LOCKED_ONLY new_infomask new_infomask2 in
  let h := set_infomasks h (Z.lor (clear_bits (t_infomask h) HEAP_XMAX_BITS) new_infomask)
             (Z.lor (clear_bits (t_infomask2 h) (Z.lor HEAP_XMAX_LOCK_ONLY HEAP_KEYS_UPDATED)) new_infomask2) in
  let h := if locked_only then HeapTupleHeaderClearHotUpdated h else h in
  let h := HeapTupleHeaderSetXmax pg h xid in
  if locked_only then set_ctid h tid else h.

(** The changes of [heap_freeze_tuple] to an xmax, and to a multixact. *)
Definition invalid_xmax (tup : HeapTupleData) : HeapTupleHeaderData :=
  let h := HeapTupleSetXmax tup InvalidTransactionId in
  let h := set_infomask h (Z.lor (clear_bits (t_infomask h) HEAP_XMAX_COMMITTED) HEAP_XMAX_INVALID) in
  HeapTupleHeaderClearHotUpdated h.
Definition invalid_multi (tup : HeapTupleData) : HeapTupleHeaderData :=
  let h := HeapTupleSetXmax tup InvalidTransactionId in
  let h := set_infomasks h (Z.lor (clear_bits (t_infomask h) HEAP_XMAX_BITS) HEAP_XMAX_INVALID)
             (clear_bits (t_infomask2 h) (Z.lor HEAP_XMAX_LOCK_ONLY HEAP_KEYS_UPDATED)) in
  HeapTupleHeaderClearHotUpdated h.

(** What locking a tuple calls besides the transaction manager. *)
Record lock_mgr (W : Type) := {
  lk_did_abort : Z → M W bool;                                              (* TransactionIdDidAbort *)
  lk_expand : Z → Z → MultiXactStatus → M W Z;                              (* MultiXactIdExpand *)
  lk_create : Z → MultiXactStatus → Z → MultiXactStatus → M W Z;            (* MultiXactIdCreate *)
  lk_set_oldest_member : M W unit;                                          (* MultiXactIdSetOldestMember *)
}.
Arguments lk_did_abort {W} _ _.
Arguments lk_expand {W} _ _ _ _.
Arguments lk_create {W} _ _ _ _ _.
Arguments lk_set_oldest_member {W} _.

Section HeapLock.
Context {W : Type} (mgr : xact_mgr W) (lk : lock_mgr W) (env : heap_env W).

Definition GetMultiXactIdHintBits (multi : Z) : M (vstate W) (Z * Z) :=
  members ← on_world (mgr_members mgr multi); mret (hint_bits members).

(** [new_xmax], [new_infomask], [new_infomask2] *)
Definition with_hints (new_xmax : M (vstate W) Z) : M (vstate W) (Z * Z * Z) :=
  x ← new_xmax; bits ← GetMultiXactIdHintBits x; mret (x, fst bits, snd bits).

Definition add_to_multi (xmax add_to_xmax : Z) (mode : LockTupleMode) (is_update : bool) : M (vstate W) (Z * Z * Z) :=
  new_status ← GetMXactStatusForLock mode is_update;
  with_hints (on_world (lk_expand lk xmax add_to_xmax new_status)).

Definition make_multi (xmax : Z) (status : MultiXactStatus) (add_to_xmax : Z) (mode : LockTupleMode) (is_update : bool)
    : M (vstate W) (Z * Z * Z) :=
  new_status ← GetMXactStatusForLock mode is_update;
  with_hints (on_world (lk_create lk xmax status add_to_xmax new_status)).

(** From [l5]; [fuel] bounds the number of [goto l5]. *)
Fixpoint compute_xmax (fuel : nat) (xmax old_infomask old_infomask2 add_to_xmax : Z) (mode : LockTupleMode) (is_update : bool)
    : M (vstate W) (Z * Z * Z) :=
  let l5 old_infomask mode :=
    match fuel with
    | O => nofuel
    | Datatypes.S fuel => compute_xmax fuel xmax old_infomask old_infomask2 add_to_xmax mode is_update
    end in
  if flag old_infomask HEAP_XMAX_INVALID then
    let '(new_infomask, new_infomask2) := sole_infomask mode is_update in
    mret (add_to_xmax, new_infomask, new_infomask2)
  else if flag old_infomask HEAP_XMAX_IS_MULTI then
    If (If MultiXactIdIsRunning mgr xmax Then mret false
        Else if HEAP_XMAX_IS_LOCKED_ONLY old_infomask old_infomask2 then mret true
        else update_xid ← MultiXactIdGetUpdateXid mgr xmax;
             committed ← did_commit mgr update_xid;
             mret (negb committed))
    Then l5 (Z.lor (clear_bits old_infomask HEAP_XMAX_IS_MULTI) HEAP_XMAX_INVALID) mode
    Else add_to_multi xmax add_to_xmax mode is_update
  else if flag old_infomask HEAP_XMAX_COMMITTED then
    make_multi xmax (status_of_update old_infomask2) add_to_xmax mode is_update
  else
    If in_progress mgr xmax Then
      let old_status := status_of_xmax old_infomask old_infomask2 in
      let old_mode := TUPLOCK_FROM_MXSTATUS old_status in
      if xmax =? add_to_xmax then
        l5 (Z.lor old_infomask HEAP_XMAX_INVALID) (if strength mode <? strength old_mode then old_mode else mode)
      else make_multi xmax old_status add_to_xmax mode is_update
    Else If (if HEAP_XMAX_IS_LOCKED_ONLY old_infomask old_infomask2 then mret false else did_commit mgr xmax)
      Then make_multi xmax (status_of_update old_infomask2) add_to_xmax mode is_update
      Else l5 (Z.lor old_infomask HEAP_XMAX_INVALID) mode.

Definition ComputeNewXmaxInfomask (xmax old_infomask old_infomask2 add_to_xmax : Z) (mode : LockTupleMode) (is_update : bool)
    : M (vstate W) (Z * Z * Z) :=
  compute_xmax 1 xmax old_infomask old_infomask2 add_to_xmax mode is_update.

(** The end of [heap_lock_tuple]: the new xmax is computed and stored. The page's bases
    are taken to have room for it. *)
Definition lock_tuple_store (xid : Z) (mode : LockTupleMode) : M (vstate W) unit :=
  xmax ← gets (λ s, HeapTupleGetRawXmax (htup s));
  h ← gets header;
  on_world (lk_set_oldest_member lk) ≫= λ _,
  r ← ComputeNewXmaxInfomask xmax (t_infomask h) (t_infomask2 h) xid mode false;
  let '(new_xmax, new_infomask, new_infomask2) := r in
  copy_base ≫= λ _,
  modify (λ s, set_header (store_xmax (page s) (t_self (htup s)) (header s) new_xmax new_infomask new_infomask2) s) ≫= λ _,
  modify set_buf_dirty.

(** The members before the one that conflicts. *)
Fixpoint conflicting_member (members : list MultiXactMember) (wanted : Z) : M (vstate W) bool :=
  match members with
  | [] => mret false
  | m :: members =>
      if negb (DoLockModesConflict (LOCKMODE_FROM_MXSTATUS (mx_status m)) wanted) then conflicting_member members wanted
      else if mgr_is_current mgr (mx_xid m) then conflicting_member members wanted
      else if negb (ISUPDATE_from_mxstatus (mx_status m)) then
        If on_world (lk_did_abort lk (mx_xid m)) Then conflicting_member members wanted Else mret true
      else
        If in_progress mgr (mx_xid m) Then mret true Else conflicting_member members wanted
  end.

Definition DoesMultiXactIdConflict (multi : Z) (lockmode : LockTupleMode) : M (vstate W) bool :=
  members ← on_world (mgr_members mgr multi);
  conflicting_member members (hwlock lockmode).

(** The result, and [*needwait]. *)
Definition test_lockmode_for_conflict (status : MultiXactStatus) (xid : Z) (mode : LockTupleMode)
    : M (vstate W) (TM_Result * bool) :=
  wantedstatus ← GetMXactStatusForLock mode false;
  let conflict := DoLockModesConflict (LOCKMODE_FROM_MXSTATUS status) (LOCKMODE_FROM_MXSTATUS wantedstatus) in
  if mgr_is_current mgr xid then mret (TM_SelfUpdated, false)
  else
    If in_progress mgr xid Then mret (TM_Ok, conflict)
    Else If on_world (lk_did_abort lk xid) Then mret (TM_Ok, false)
    Else If did_commit mgr xid Then mret (if conflict then TM_Updated else TM_Ok, false)
    Else mret (TM_Ok, false).

Definition UpdateXmaxHintBits (xid : Z) : M (vstate W) unit :=
  h ← gets header;
  if flag (t_infomask h) (Z.lor HEAP_XMAX_COMMITTED HEAP_XMAX_INVALID) then skip
  else
    If (if HEAP_XMAX_IS_LOCKED_ONLY (t_infomask h) (t_infomask2 h) then mret false else did_commit mgr xid)
    Then HeapTupleSetHintBits mgr env HEAP_XMAX_COMMITTED xid
    Else
      check_aborted (on_world (mgr_did_abort mgr xid)) ≫= λ _,
      HeapTupleSetHintBits mgr env HEAP_XMAX_INVALID InvalidTransactionId.

(** *** Freezing *)

Definition freeze_xmin (cutoff_xid : Z) : M (vstate W) bool :=
  xid ← gets (λ s, HeapTupleGetRawXmin (htup s));
  if TransactionIdIsNormal xid && TransactionIdPrecedes xid cutoff_xid then
    If (if h_RecoveryInProgress env then mret true else did_commit mgr xid) Then
      modify (λ s, set_header (HeapTupleSetXmin (htup s) FrozenTransactionId) s) ≫= λ _,
      or_infomask HEAP_XMIN_COMMITTED ≫= λ _,
      mret true
    Else raise ERROR
  else mret false.

(** Whether it was changed; the second block is [ENABLE_MULTIPLE_NODES] off. *)
Definition freeze_xmax (cutoff_xid cutoff_multi : Z) : M (vstate W) (bool * bool) :=
  xid ← gets (λ s, HeapTupleGetRawXmax (htup s));
  h ← gets header;
  let only := HEAP_XMAX_IS_LOCKED_ONLY (t_infomask h) (t_infomask2 h) in
  if negb (flag (t_infomask h) HEAP_XMAX_IS_MULTI) then
    if TransactionIdIsNormal xid && TransactionIdPrecedes xid cutoff_xid then
      If (if h_RecoveryInProgress env || only then mret false else did_commit mgr xid) Then raise ERROR
      Else
        modify (λ s, set_header (invalid_xmax (htup s)) s) ≫= λ _,
        mret (true, false)
    else mret (false, false)
  else
    If (if MultiXactIdIsValid xid && MultiXactIdPrecedes xid cutoff_multi then
          if only then mret true
          else update_xid ← HeapTupleMultiXactGetUpdateXid mgr; mret (TransactionIdPrecedes update_xid cutoff_xid)
        else mret false) Then
      If (if h_RecoveryInProgress env || flag (t_infomask h) HEAP_XMAX_INVALID || only then mret false
          else update_xid ← HeapTupleMultiXactGetUpdateXid mgr; did_commit mgr update_xid) Then raise ERROR
      Else
        modify (λ s, set_header (invalid_multi (htup s)) s) ≫= λ _,
        mret (true, true)
    Else mret (false, false).

(** [changed], and whether [*changedMultiXid] is set. *)
Definition heap_freeze_tuple (cutoff_xid cutoff_multi : Z) : M (vstate W) (bool * bool) :=
  c1 ← freeze_xmin cutoff_xid;
  c2 ← freeze_xmax cutoff_xid cutoff_multi;
  mret (c1 || fst c2, snd c2).
End HeapLock.

Definition heap_tuple_needs_freeze (tup : HeapTupleData) (cutoff_xid cutoff_multi : Z) : bool :=
  let h := t_data tup in
  let xmin := HeapTupleGetRawXmin tup in
  let xmax := HeapTupleGetRawXmax tup in
  (TransactionIdIsNormal xmin && TransactionIdPrecedes xmin cutoff_xid)
  || (negb (flag (t_infomask h) HEAP_XMAX_INVALID) &&
      (if negb (flag (t_infomask h) HEAP_XMAX_IS_MULTI)
       then TransactionIdIsNormal xmax && TransactionIdPrecedes xmax cutoff_xid
       else MultiXactIdIsValid xmax && MultiXactIdPrecedes xmax cutoff_multi)).

(** ** Flags as sets of bits *)

Lemma flag_clear_out m b c : Z.land (lnotw 16 b) c = 0 → flag (clear_bits m b) c = false.
Proof. intros H. unfold flag, clear_bits. by rewrite <- Z.land_assoc, H, Z.land_0_r. Qed.

Lemma flag_clear_in m b c : Z.land (lnotw 16 b) c = c → flag (clear_bits m b) c = flag m c.
Proof. intros H. unfold flag, clear_bits. by rewrite <- Z.land_assoc, H. Qed.

Lemma land_clear_out m b c : Z.land (lnotw 16 b) c = 0 → Z.land (clear_bits m b) c = 0.
Proof. intros H. unfold clear_bits. by rewrite <- Z.land_assoc, H, Z.land_0_r. Qed.

(** A mask of xmax bits says nothing of the others. *)
Lemma xmax_bits_flag b c : Z.land b HEAP_XMAX_BITS = b → Z.land HEAP_XMAX_BITS c = 0 → flag b c = false.
Proof. intros Hb Hc. unfold flag. by rewrite <- Hb, <- Z.land_assoc, Hc, Z.land_0_r. Qed.

(** ** The flags of a multixact *)

Definition is_update (m : MultiXactMember) : bool := ISUPDATE_from_mxstatus (mx_status m).
Definition keys (m : MultiXactMember) : bool :=
  match mx_status m with MultiXactStatusForUpdate | MultiXactStatusUpdate => true | _ => false end.
Definition mode_of (m : MultiXactMember) : LockTupleMode := TUPLOCK_FROM_MXSTATUS (mx_status m).

Lemma member_bits_spec ms : ∀ st b2 u st' b2' u',
  member_bits ms st b2 u = (st', b2', u') →
  u' = u || existsb is_update ms ∧ b2' = (if existsb keys ms then Z.lor b2 HEAP_KEYS_UPDATED else b2) ∧
  strength st ≤ strength st' ∧ (∀ m, m ∈ ms → strength (mode_of m) ≤ strength st') ∧
  (st' = st ∨ ∃ m, m ∈ ms ∧ st' = mode_of m).
Proof.
  induction ms as [|m ms IH]; intros st b2 u st' b2' u'; cbn [member_bits].
  { intros [= -> -> ->]. rewrite orb_false_r. split_and!; auto; [lia|]. by intros m ?%elem_of_nil. }
  set (st1 := if _ <? _ then _ else st). intros H.
  assert (strength st ≤ strength st1 ∧ strength (mode_of m) ≤ strength st1 ∧ (st1 = st ∨ st1 = mode_of m)) as (S1 & S2 & S3).
  { subst st1. unfold mode_of. destruct (Z.ltb_spec (strength st) (strength (TUPLOCK_FROM_MXSTATUS (mx_status m)))); auto with lia. }
  assert (∃ b3 u3, member_bits ms st1 b3 u3 = (st', b2', u') ∧ u3 = u || is_update m ∧
    b3 = if keys m then Z.lor b2 HEAP_KEYS_UPDATED else b2) as (b3 & u3 & Hr & -> & ->).
  { unfold is_update, keys. destruct (mx_status m); eexists _, _; (split; [exact H|]); by destruct u. }
  destruct (IH _ _ _ _ _ _ Hr) as (-> & -> & S4 & S5 & S6). cbn [existsb]. split_and!.
  - by rewrite orb_assoc.
  - destruct (keys m), (existsb keys ms); cbn; try done. by rewrite <- Z.lor_assoc, Z.lor_diag.
  - lia.
  - intros m' [-> |Hm]%elem_of_cons; [lia|auto].
  - destruct S6 as [-> |(m' & Hm & ->)]; [|right; exists m'; split; [by right|done]].
    destruct S3 as [-> | ->]; [by left|right]. exists m. split; [by left|done].
Qed.

(** [HEAP_XMAX_LOCK_ONLY] is set iff no member updates, [HEAP_KEYS_UPDATED] iff one
    locks or updates the key; the lock bits are those of the strongest mode. *)
Lemma hint_bits_spec ms b b2 :
  hint_bits ms = (b, b2) →
  flag b HEAP_XMAX_IS_MULTI = true ∧ flag b HEAP_XMAX_INVALID = false ∧ flag b HEAP_XMAX_COMMITTED = false ∧
  Z.land b HEAP_XMAX_BITS = b ∧ Z.land b2 (Z.lor HEAP_XMAX_LOCK_ONLY HEAP_KEYS_UPDATED) = b2 ∧
  HEAP_XMAX_IS_LOCKED_ONLY b b2 = negb (existsb is_update ms) ∧
  flag b2 HEAP_XMAX_LOCK_ONLY = negb (existsb is_update ms) ∧
  flag b2 HEAP_KEYS_UPDATED = existsb keys ms ∧ flag b HEAP_LOCK_MASK = true.
Proof.
  unfold hint_bits. destruct (member_bits ms LockTupleKeyShare 0 false) as [[st b3] u] eqn:E.
  destruct (member_bits_spec _ _ _ _ _ _ _ E) as (-> & -> & _ & Hmax & _). cbn [orb]. intros [= <- <-].
  assert (existsb is_update ms = true → 2 ≤ strength st) as Hu.
  { intros (m & Hm%list_elem_of_In & Hi)%existsb_exists. etrans; [|by apply Hmax].
    unfold is_update, mode_of in *. by destruct (mx_status m). }
  destruct (existsb is_update ms), (existsb keys ms), st; try (specialize (Hu eq_refl); cbn in Hu; lia); by vm_compute.
Qed.

(** ** What making multixacts promises *)

(** Still of interest: open, or an update that has committed. *)
Definition matters (T : truth) (m : MultiXactMember) : bool :=
  is_open (T (mx_xid m)) || (is_update m && is_committed (T (mx_xid m))).

(** The same verdicts, and the multixacts there are keep their members. *)
Definition grows (T T' : truth) : Prop :=
  (∀ x, T' x = T x) ∧ ∀ x, members_of T x ≠ [] → members_of T' x = members_of T x.

(** [lk_ready] are the states of the manager that have room for another multixact; looking
    up transactions keeps it. *)
Class LockMgrSpec {W} (mgr : xact_mgr W) (lk : lock_mgr W) `{K : !XactMgrSpec mgr} := {
  lk_ready : XactMgrSpec mgr;
  law_ready w T : @knows W mgr lk_ready w T → @knows W mgr K w T;
  law_xid_did_abort w T x : @knows W mgr K w T → T x ≠ V_unknown → x ≠ InvalidTransactionId →
    post (lk_did_abort lk x) w (λ r w', r = bool_decide (T x = V_aborted) ∧ @knows W mgr K w' T);
  law_lk_set_oldest w T : @knows W mgr lk_ready w T →
    post (lk_set_oldest_member lk) w (λ _ w', @knows W mgr lk_ready w' T);
  law_lk_create w T x1 st1 x2 st2 :
    let ms := [{| mx_xid := x1; mx_status := st1 |}; {| mx_xid := x2; mx_status := st2 |}] in
    @knows W mgr lk_ready w T → input_ok ms →
    post (lk_create lk x1 st1 x2 st2) w (λ multi w', ∃ T', @knows W mgr K w' T' ∧ grows T T' ∧ multi ≠ InvalidMultiXactId ∧
      members_of T' multi ≡ₚ ms);
  law_lk_expand w T multi x st :
    let new := {| mx_xid := x; mx_status := st |} in
    let ms := members_of T multi in
    @knows W mgr lk_ready w T → ms ≠ [] → input_ok ms → (∀ m, m ∈ ms → T (mx_xid m) ≠ V_unknown) →
    input_ok (filter (λ m, matters T m = true) ms ++ [new]) →
    post (lk_expand lk multi x st) w (λ multi' w', ∃ T', @knows W mgr K w' T' ∧ grows T T' ∧ multi' ≠ InvalidMultiXactId ∧
      input_ok (members_of T' multi') ∧ new ∈ members_of T' multi' ∧
      (∀ m, m ∈ ms → matters T m = true → m ∈ members_of T' multi') ∧
      (∀ m, m ∈ members_of T' multi' → m = new ∨ m ∈ ms));
}.

(** ** The new xmax *)

(** The deleter that an xmax with its flags stands for. *)
Definition xmax_deleter (T : truth) (m m2 x : Z) : option verdict :=
  if flag m HEAP_XMAX_INVALID || HEAP_XMAX_IS_LOCKED_ONLY m m2 then None
  else effective (T (if flag m HEAP_XMAX_IS_MULTI then first_updater (members_of T x) else x)).

Lemma deleter_xmax T pg h : deleter T pg h = xmax_deleter T (t_infomask h) (t_infomask2 h) (tup_xmax pg h).
Proof. unfold deleter, deleter_xid, xmax_deleter, bit, is_locked_only. by destruct (_ || _). Qed.

Lemma updaters_In m ms : m ∈ updaters ms ↔ is_update m = true ∧ m ∈ ms.
Proof. unfold updaters. by rewrite list_elem_of_filter. Qed.

Lemma first_updater_unique ms m :
  (length (updaters ms) ≤ 1)%nat → m ∈ ms → is_update m = true → first_updater ms = mx_xid m.
Proof.
  unfold updaters, is_update. induction ms as [|m0 ms IH]; intros Hl Hin Hu; [by apply elem_of_nil in Hin|].
  cbn [first_updater]. rewrite filter_cons in Hl. case_decide as Hd.
  - rewrite Hd. apply elem_of_cons in Hin as [-> |Hin]; [done|]. cbn in Hl.
    assert (m ∈ filter (λ m, ISUPDATE_from_mxstatus (mx_status m) = true) ms) as Hf by by apply list_elem_of_filter.
    destruct (filter _ ms); [by apply elem_of_nil in Hf|cbn in Hl; lia].
  - apply not_true_iff_false in Hd. rewrite Hd. apply elem_of_cons in Hin as [-> |Hin]; [congruence|auto].
Qed.

Lemma first_updater_none ms : existsb is_update ms = false → first_updater ms = InvalidTransactionId.
Proof.
  induction ms as [|m ms IH]; cbn; [done|]. intros [Hm Hr]%orb_false_iff. unfold is_update in Hm. by rewrite Hm, IH.
Qed.

Lemma no_updaters ms : (∀ m, m ∈ ms → is_update m = false) → existsb is_update ms = false.
Proof.
  intros H. destruct (existsb is_update ms) eqn:E; [|done].
  apply existsb_exists in E as (m & Hm%list_elem_of_In & Hu). by rewrite (H m Hm) in Hu.
Qed.

Lemma first_updater_some ms : existsb is_update ms = true → ∃ m, m ∈ ms ∧ is_update m = true ∧ first_updater ms = mx_xid m.
Proof.
  induction ms as [|m ms IH]; cbn; [done|]. unfold is_update at 1. destruct (ISUPDATE_from_mxstatus (mx_status m)) eqn:E.
  - intros _. exists m. split_and!; [by left|done|done].
  - intros (m' & ? & ? & ?)%IH. exists m'. split_and!; [by right|done|done].
Qed.

(** The xmax of a tuple, as far as its lockers go: its transactions are known, the hint
    [HEAP_XMAX_COMMITTED] is a deleter's, and flags that say that there are only lockers
    are right. *)
Record xmax_ok (T : truth) (m m2 x : Z) : Prop := {
  xo_single : flag m HEAP_XMAX_INVALID = false → flag m HEAP_XMAX_IS_MULTI = false →
    T x ≠ V_unknown ∧ 1 ≤ x < 2 ^ 60;
  xo_multi : flag m HEAP_XMAX_INVALID = false → flag m HEAP_XMAX_IS_MULTI = true →
    (∀ k, k ∈ members_of T x → T (mx_xid k) ≠ V_unknown) ∧ Forall member_valid (members_of T x) ∧
    (length (updaters (members_of T x)) ≤ 1)%nat;
  xo_only : flag m HEAP_XMAX_INVALID = false → flag m HEAP_XMAX_IS_MULTI = true → HEAP_XMAX_IS_LOCKED_ONLY m m2 = true →
    existsb is_update (members_of T x) = false;
  xo_committed : flag m HEAP_XMAX_INVALID = false → flag m HEAP_XMAX_COMMITTED = true →
    HEAP_XMAX_IS_LOCKED_ONLY m m2 = false ∧ is_committed (T x) = true;
}.

(** [r] is an xmax with its flags that stands for the deleter [d]; if it is a
    multixact, [lockers] are members. *)
Definition stands_for (T : truth) (r : Z * Z * Z) (d : option verdict) : Prop :=
  let '(x, b, b2) := r in
  xmax_deleter T b b2 x = d ∧ flag b HEAP_XMAX_INVALID = false ∧ flag b HEAP_XMAX_COMMITTED = false ∧
  Z.land b HEAP_XMAX_BITS = b ∧ Z.land b2 (Z.lor HEAP_XMAX_LOCK_ONLY HEAP_KEYS_UPDATED) = b2 ∧
  xmax_ok T b b2 x ∧ x ≠ InvalidTransactionId ∧ (flag b HEAP_XMAX_IS_MULTI = true → flag b HEAP_LOCK_MASK = true).

(** ** The header after the store *)

(** The page's base has room for the xid ([heap_page_prepare_for_xid]). *)
Definition xid_fits (pg : HeapPageHeaderData) (multi : bool) (x : Z) : Prop :=
  let base := if multi then pd_multi_base pg else pd_xid_base pg in
  0 ≤ base ∧ base + MaxShortTransactionId < 2 ^ 64 ∧
  (x = BootstrapTransactionId ∨ x = FrozenTransactionId ∨ base + FirstNormalTransactionId ≤ x ≤ base + MaxShortTransactionId).

Section Stored.
Context (pg : HeapPageHeaderData) (tid : Z * Z) (h : HeapTupleHeaderData) (x b b2 : Z).
Hypothesis Hb : Z.land b HEAP_XMAX_BITS = b.

Lemma stored_infomask : t_infomask (store_xmax pg tid h x b b2) = Z.lor (clear_bits (t_infomask h) HEAP_XMAX_BITS) b.
Proof. unfold store_xmax. by destruct (HEAP_XMAX_IS_LOCKED_ONLY b b2). Qed.

Lemma stored_in c : Z.land (lnotw 16 HEAP_XMAX_BITS) c = 0 → bit (store_xmax pg tid h x b b2) c = flag b c.
Proof. intros Hc. unfold bit. by rewrite stored_infomask, flag_lor, flag_clear_out. Qed.

Lemma stored_out c :
  Z.land (lnotw 16 HEAP_XMAX_BITS) c = c → Z.land HEAP_XMAX_BITS c = 0 → bit (store_xmax pg tid h x b b2) c = bit h c.
Proof.
  intros Hc Hd. unfold bit. rewrite stored_infomask, flag_lor, flag_clear_in by done.
  by rewrite (xmax_bits_flag b c Hb Hd), orb_false_r.
Qed.

Lemma stored_only : is_locked_only (store_xmax pg tid h x b b2) = HEAP_XMAX_IS_LOCKED_ONLY b b2.
Proof.
  unfold is_locked_only, HEAP_XMAX_IS_LOCKED_ONLY at 1.
  change (flag (t_infomask ?k) HEAP_XMAX_SHARED_LOCK) with (bit k HEAP_XMAX_SHARED_LOCK).
  rewrite stored_in by done. rewrite stored_infomask, Z.land_lor_distr_l, land_clear_out, Z.lor_0_l by done.
  enough (flag (t_infomask2 (store_xmax pg tid h x b b2)) HEAP_XMAX_LOCK_ONLY = flag b2 HEAP_XMAX_LOCK_ONLY) as -> by done.
  unfold store_xmax. destruct (HEAP_XMAX_IS_LOCKED_ONLY b b2); cbn [HeapTupleHeaderClearHotUpdated set_infomasks t_infomask2
    set_ctid HeapTupleHeaderSetXmax set_short_xmax t_infomask]; rewrite ?flag_clear_in by done;
    by rewrite flag_lor, flag_clear_out.
Qed.

Lemma stored_xmin : t_xmin (store_xmax pg tid h x b b2) = t_xmin h ∧ t_cid (store_xmax pg tid h x b b2) = t_cid h.
Proof. unfold store_xmax. by destruct (HEAP_XMAX_IS_LOCKED_ONLY b b2). Qed.

Lemma stored_xmax : xid_fits pg (flag b HEAP_XMAX_IS_MULTI) x → tup_xmax pg (store_xmax pg tid h x b b2) = x.
Proof.
  intros (H1 & H2 & H3). unfold tup_xmax, HeapTupleHeaderGetXmax.
  change (flag (t_infomask ?k) HEAP_XMAX_IS_MULTI) with (bit k HEAP_XMAX_IS_MULTI). rewrite stored_in by done.
  set (base := if flag b HEAP_XMAX_IS_MULTI then _ else _) in *.
  assert (t_xmax (store_xmax pg tid h x b b2) = NormalTransactionIdToShort base x) as ->.
  { unfold store_xmax. cbv zeta. set (h1 := if HEAP_XMAX_IS_LOCKED_ONLY b b2 then HeapTupleHeaderClearHotUpdated _ else _).
    assert (flag (t_infomask h1) HEAP_XMAX_IS_MULTI = flag b HEAP_XMAX_IS_MULTI) as E.
    { subst h1. destruct (HEAP_XMAX_IS_LOCKED_ONLY b b2); cbn [HeapTupleHeaderClearHotUpdated set_infomasks t_infomask];
        by rewrite flag_lor, flag_clear_out. }
    subst base. rewrite <- E. by destruct (HEAP_XMAX_IS_LOCKED_ONLY b b2). }
  apply short_xid_roundtrip; [done..|]. naive_solver.
Qed.
End Stored.

(** A header with a new xmax: the inserter stays, the deleter is the one the xmax stands
    for. *)
Lemma stored_tuple T T' pg tid h x b b2 d :
  tuple_ok T pg h → grows T T' → stands_for T' (x, b, b2) d → xid_fits pg (flag b HEAP_XMAX_IS_MULTI) x →
  (inserter T pg h = V_mine → d = None ∨ d = Some V_mine) →
  let h' := store_xmax pg tid h x b b2 in
  inserter T' pg h' = inserter T pg h ∧ deleter T' pg h' = d ∧ tuple_ok T' pg h' ∧
  t_cid h' = t_cid h ∧ bit h' HEAP_COMBOCID = bit h HEAP_COMBOCID.
Proof.
  intros Hok [Hg _] (Hd & Fi & Fc & Hb & Hb2 & Hx & Hx0 & Hlk) Hfit Hown h'.
  pose proof (stored_xmax pg tid h x b b2 Hfit) as Ex. pose proof (stored_only pg tid h x b b2) as Eo.
  pose proof (stored_in pg tid h x b b2) as Ein. pose proof (stored_out pg tid h x b b2 Hb) as Eout.
  destruct (stored_xmin pg tid h x b b2) as [Em Ec]. fold h' in Ex, Eo, Ein, Eout, Em, Ec.
  assert (tup_xmin pg h' = tup_xmin pg h) as Exm by (unfold tup_xmin, HeapTupleHeaderGetXmin; by rewrite Em).
  assert (inserter T' pg h' = inserter T pg h) as Hins.
  { unfold inserter. rewrite !bits_frozen, !Eout, Exm by done. by rewrite Hg. }
  assert (deleter T' pg h' = d) as Hdel.
  { rewrite <- Hd, deleter_xmax, Ex. unfold xmax_deleter. change (flag (t_infomask h')) with (bit h').
    change (HEAP_XMAX_IS_LOCKED_ONLY (t_infomask h') (t_infomask2 h')) with (is_locked_only h'). by rewrite Eo, !Ein by done. }
  split_and!; [done|done| |done|by apply Eout].
  destruct Hok as [O1 O2 O3 O4 O5 O6 O7 O8 O9].
  split; rewrite ?Hins, ?Hdel, ?bits_invalid, ?Exm, ?Ex, ?Eo, ?Eout, ?Ein by done; try done.
  - by rewrite <- bits_invalid.
  - intros _. destruct (flag b HEAP_XMAX_IS_MULTI) eqn:Em'; [by apply (xo_multi _ _ _ _ Hx)|by apply (xo_single _ _ _ _ Hx)].
  - congruence.
  - intros _ Hl _ Hm. by rewrite (Hlk Hm) in Hl.
Qed.

Section LockProofs.
Context {W : Type} (mgr : xact_mgr W) (lk : lock_mgr W) (env : heap_env W) `{!XactMgrSpec mgr} `{!LockMgrSpec mgr lk}.
Implicit Types (s : vstate W) (T : truth).

Definition ready (w : W) T : Prop := @knows W mgr (lk_ready (lk := lk)) w T.

Lemma sole_stands T add mode upd :
  T add = V_mine → 1 ≤ add < 2 ^ 60 →
  stands_for T (add, fst (sole_infomask mode upd), snd (sole_infomask mode upd)) (if upd then Some V_mine else None).
Proof.
  intros Ha Hr. unfold stands_for, xmax_deleter.
  assert (T add ≠ V_unknown) as Hu by by rewrite Ha.
  destruct upd, mode; (split; [lazy -[verdict_of effective]; by rewrite ?Ha|]); (do 4 (split; [by vm_compute|])).
  all: split; [split; [intros _ _; by split|intros _ Hf; vm_compute in Hf; discriminate Hf..]|].
  all: split; [unfold InvalidTransactionId; lia|intros Hf; vm_compute in Hf; discriminate Hf].
Qed.

Lemma multi_stands T x d :
  T InvalidTransactionId = V_aborted → x ≠ InvalidMultiXactId → input_ok (members_of T x) → (∀ k, k ∈ members_of T x → T (mx_xid k) ≠ V_unknown) →
  effective (T (first_updater (members_of T x))) = d →
  stands_for T (x, fst (hint_bits (members_of T x)), snd (hint_bits (members_of T x))) d.
Proof.
  intros H0 Hx0 (Hne & Hv & Hu) Hk Hd. destruct (hint_bits (members_of T x)) as [b b2] eqn:E. cbn [fst snd].
  destruct (hint_bits_spec _ _ _ E) as (F1 & F2 & F3 & F4 & F5 & F6 & F7 & F8 & F9).
  unfold stands_for, xmax_deleter. rewrite F1, F2, F6. cbn [orb]. split_and!; try done.
  - destruct (existsb is_update _) eqn:Eu; cbn [negb]; [done|]. rewrite (first_updater_none _ Eu), H0 in Hd. done.
  - split; rewrite ?F1, ?F2, ?F3, ?F6; try done. intros _ _ He. by apply negb_true_iff.
Qed.

(** The status that a mode gives, and whether it is an update. *)
Lemma post_lock_status {S} mode upd (s : S) (Q : MultiXactStatus → S → Prop) :
  (upd = true → 2 ≤ strength mode) →
  (∀ st, ISUPDATE_from_mxstatus st = upd → Q st s) → post (GetMXactStatusForLock mode upd) s Q.
Proof.
  intros Hm HQ. unfold GetMXactStatusForLock.
  destruct upd, mode; try (specialize (Hm eq_refl); cbn in Hm; lia); by apply post_ret, HQ.
Qed.

Lemma post_hints x s T (Q : Z * Z → vstate W → Prop) :
  knows (world s) T → (∀ w, knows w T → Q (hint_bits (members_of T x)) (set_world w s)) →
  post (GetMultiXactIdHintBits mgr x) s Q.
Proof.
  intros Hk HQ. apply post_bind, post_world. eapply post_mono; [by apply (law_members _ T)|].
  intros r w [-> Hw]. by apply post_ret, HQ.
Qed.

Lemma grows_known T T' x : grows T T' → T x ≠ V_unknown → T' x ≠ V_unknown.
Proof. intros [-> _]. done. Qed.

(** What the new xmax must stand for. *)
Definition wanted (upd : bool) (d : option verdict) : option verdict := if upd then Some V_mine else d.

Definition outcome T s (r : Z * Z * Z) s' (d : option verdict) : Prop :=
  ∃ w T', s' = set_world w s ∧ knows w T' ∧ grows T T' ∧ stands_for T' r d.

Lemma make_multi_post xmax st add mode upd s T :
  ready (world s) T → T xmax ≠ V_unknown → T add = V_mine →
  1 ≤ xmax < 2 ^ 60 → 1 ≤ add < 2 ^ 60 → (upd = true → 2 ≤ strength mode) → (ISUPDATE_from_mxstatus st && upd = false) →
  post (make_multi mgr lk xmax st add mode upd) s
    (λ r s', outcome T s r s' (wanted upd (if ISUPDATE_from_mxstatus st then effective (T xmax) else None))).
Proof.
  intros Hk Hx Ha Rx Ra Hm Hboth. unfold make_multi. apply post_bind, post_lock_status; [done|]. intros st2 Hst2.
  unfold with_hints. apply post_bind, post_world.
  set (m1 := {| mx_xid := xmax; mx_status := st |}). set (m2 := {| mx_xid := add; mx_status := st2 |}).
  assert (input_ok [m1; m2]) as Hin.
  { split_and!; [done|apply Forall_cons; split; [exact Rx|by apply Forall_singleton]|]. unfold updaters. rewrite !filter_cons, filter_nil. cbn [mx_status m1 m2].
    rewrite Hst2. destruct (ISUPDATE_from_mxstatus st), upd; try done; repeat case_decide; cbn; try lia; done. }
  eapply post_mono; [by apply (law_lk_create (world s) T)|]. intros multi w (T' & Hw & Hg & Hmv & Hp). cbn beta in Hp. fold m1 m2 in Hp.
  apply post_bind, (post_hints _ _ T'); [done|]. intros w' Hw'. apply post_ret. exists w', T'. split_and!; try done.
  assert (∀ k, k ∈ members_of T' multi → k = m1 ∨ k = m2) as Hk2.
  { intros k. rewrite Hp. rewrite !elem_of_cons. intros [?|[?|?%elem_of_nil]]; auto; done. }
  assert (input_ok (members_of T' multi)) as Hin'.
  { destruct Hin as (_ & Hv & Hu). split_and!; [|by rewrite Hp|unfold updaters in *; by rewrite Hp].
    intros E. rewrite E in Hp. by apply Permutation_nil_l in Hp. }
  assert (m1 ∈ members_of T' multi ∧ m2 ∈ members_of T' multi) as [I1 I2] by (rewrite Hp; split; set_solver).
  apply multi_stands; [by apply (law_invalid w' T')|done|done| |].
  - intros k Hin2. eapply grows_known; [done|]. destruct (Hk2 k Hin2) as [-> | ->]; cbn; [done|by rewrite Ha].
  - destruct Hin' as (_ & _ & Hu'). unfold wanted. destruct upd.
    + rewrite (first_updater_unique _ m2 Hu' I2 Hst2). cbn. by rewrite (proj1 Hg), Ha.
    + destruct (ISUPDATE_from_mxstatus st) eqn:Es.
      * rewrite (first_updater_unique _ m1 Hu' I1 Es). cbn. by rewrite (proj1 Hg).
      * rewrite first_updater_none; [by rewrite (law_invalid w' T')|]. apply no_updaters.
        intros k Hin2. destruct (Hk2 k Hin2) as [-> | ->]; done.
Qed.

(** An updater that does not matter has aborted. *)
Lemma filter_matters T ms new :
  input_ok ms → member_valid new → (∀ m, m ∈ ms → T (mx_xid m) ≠ V_unknown) →
  (is_update new = true → effective (T (first_updater ms)) = None) →
  input_ok (filter (λ m, matters T m = true) ms ++ [new]).
Proof.
  intros (Hne & Hv & Hu) Hnew Hk Hd. split_and!.
  - by intros [_ ?]%app_eq_nil.
  - apply Forall_app. split; [|by apply Forall_singleton]. apply Forall_forall. intros m [_ Hm]%list_elem_of_filter.
    rewrite Forall_forall in Hv. by apply Hv.
  - unfold updaters in *. rewrite filter_app, length_app.
    assert (length (filter (λ m, ISUPDATE_from_mxstatus (mx_status m) = true) (filter (λ m, matters T m = true) ms)) ≤
            length (filter (λ m, ISUPDATE_from_mxstatus (mx_status m) = true) ms))%nat as Hle.
    { rewrite list_filter_filter. clear. induction ms as [|m ms IH]; [done|]. rewrite !filter_cons.
      repeat case_decide; cbn; try lia; tauto. }
    rewrite filter_cons, filter_nil. case_decide as Hn; cbn [length]; [|lia]. specialize (Hd Hn).
    enough (filter (λ m, ISUPDATE_from_mxstatus (mx_status m) = true) (filter (λ m, matters T m = true) ms) = []) as -> by done.
    apply elem_of_nil_inv. intros m [Hup [Hm Hin]%list_elem_of_filter]%list_elem_of_filter.
    rewrite (first_updater_unique ms m Hu Hin Hup) in Hd. unfold matters, is_update in Hm. rewrite Hup in Hm. specialize (Hk m Hin).
    by destruct (T (mx_xid m)).
Qed.

Lemma add_to_multi_post xmax add mode upd s T :
  let ms := members_of T xmax in
  ready (world s) T → ms ≠ [] → T add = V_mine → 1 ≤ add < 2 ^ 60 →
  Forall member_valid ms → (length (updaters ms) ≤ 1)%nat → (∀ m, m ∈ ms → T (mx_xid m) ≠ V_unknown) →
  (upd = true → 2 ≤ strength mode ∧ effective (T (first_updater ms)) = None) →
  post (add_to_multi mgr lk xmax add mode upd) s
    (λ r s', outcome T s r s' (wanted upd (effective (T (first_updater ms))))).
Proof.
  intros ms Hk Hne Ha Ra Hv Hu Hkn Hupd. unfold add_to_multi.
  apply post_bind, post_lock_status; [by intros ?; apply Hupd|]. intros st Hst.
  unfold with_hints. apply post_bind, post_world. set (new := {| mx_xid := add; mx_status := st |}).
  assert (input_ok ms) as Hin by done.
  eapply post_mono; [apply (law_lk_expand (world s) T); try done|].
  { apply filter_matters; try done. unfold is_update. cbn. rewrite Hst. by intros ?; apply Hupd. }
  intros multi w (T' & Hw & Hg & Hmv & Hin' & Hnew & Hkeep & Hfrom). cbn beta in *. fold ms new in Hkeep, Hfrom, Hnew.
  apply post_bind, (post_hints _ _ T'); [done|]. intros w' Hw'. apply post_ret. exists w', T'. split_and!; try done.
  pose proof (law_invalid w' T' Hw') as H0.
  apply multi_stands; [done|done|done| |].
  { intros k Hk'. eapply grows_known; [done|]. destruct (Hfrom k Hk') as [-> |]; [cbn; by rewrite Ha|by apply Hkn]. }
  destruct Hin' as (_ & _ & Hu'). unfold wanted. destruct upd.
  { rewrite (first_updater_unique _ new Hu' Hnew Hst). cbn. by rewrite (proj1 Hg), Ha. }
  destruct (existsb is_update (members_of T' multi)) eqn:E.
  - destruct (first_updater_some _ E) as (m & Hm & Hmu & ->). rewrite (proj1 Hg). destruct (Hfrom m Hm) as [-> |Hm'].
    { unfold is_update in Hmu. cbn in Hmu. congruence. }
    by rewrite (first_updater_unique ms m Hu Hm' Hmu).
  - rewrite (first_updater_none _ E), H0. destruct (existsb is_update ms) eqn:E2.
    + destruct (first_updater_some _ E2) as (m & Hm & Hmu & ->). pose proof (Hkn m Hm) as Hkm.
      destruct (T (mx_xid m)) eqn:Ev; try done.
      all: assert (m ∈ members_of T' multi) as Hm' by (apply Hkeep; [done|]; unfold matters; by rewrite Ev, Hmu).
      all: apply not_true_iff_false in E; exfalso; apply E, existsb_exists; exists m; (split; [by apply list_elem_of_In|done]).
    + rewrite (first_updater_none _ E2). by rewrite (law_invalid _ _ (law_ready _ _ Hk)).
Qed.

Lemma sole_post add mode upd s T (d : option verdict) :
  ready (world s) T → T add = V_mine → 1 ≤ add < 2 ^ 60 → (upd = false → d = None) →
  post (let '(b, b2) := sole_infomask mode upd in mret (add, b, b2)) s (λ r s', outcome T s r s' (wanted upd d)).
Proof.
  intros Hk Ha Ra Hd. pose proof (sole_stands T add mode upd Ha Ra) as Hs. destruct (sole_infomask mode upd) as [b b2].
  apply post_ret. exists (world s), T. split_and!; [by destruct s|by apply law_ready|done|].
  unfold wanted. destruct upd; [done|]. by rewrite Hd.
Qed.

(** [goto l5] ends: the flag is set. *)
Lemma restart_sole f xmax m m2 add mode upd s T (d : option verdict) :
  ready (world s) T → T add = V_mine → 1 ≤ add < 2 ^ 60 → (upd = false → d = None) →
  post (compute_xmax mgr lk f xmax (Z.lor m HEAP_XMAX_INVALID) m2 add mode upd) s (λ r s', outcome T s r s' (wanted upd d)).
Proof. intros. destruct f; cbn [compute_xmax]; rewrite flag_lor, orb_true_r; by apply sole_post. Qed.

Lemma outcome_world T s w r s' d : outcome T (set_world w s) r s' d → outcome T s r s' d.
Proof. intros (w' & T' & -> & ?). by exists w', T'. Qed.

Lemma no_open_updater T ms :
  T InvalidTransactionId = V_aborted → existsb (λ m, is_open (T (mx_xid m))) ms = false → is_open (T (first_updater ms)) = false.
Proof.
  intros H0. induction ms as [|m ms IH]; cbn; [by rewrite H0|]. intros [Hm Hr]%orb_false_iff.
  destruct (ISUPDATE_from_mxstatus _); auto.
Qed.

Lemma multi_deleter T m m2 x :
  T InvalidTransactionId = V_aborted → xmax_ok T m m2 x → flag m HEAP_XMAX_INVALID = false → flag m HEAP_XMAX_IS_MULTI = true →
  xmax_deleter T m m2 x = effective (T (first_updater (members_of T x))).
Proof.
  intros H0 Hok Hi Hm. unfold xmax_deleter. rewrite Hi, Hm. cbn [orb]. destruct (HEAP_XMAX_IS_LOCKED_ONLY m m2) eqn:Hl; [|done].
  rewrite first_updater_none by by apply (xo_only _ _ _ _ Hok). by rewrite H0.
Qed.

(** The new xmax names the same deleter, or the transaction at hand for an update. *)
Lemma compute_post xmax m m2 add mode upd s T :
  ready (world s) T → xmax_ok T m m2 xmax → T add = V_mine → 1 ≤ add < 2 ^ 60 →
  (upd = true → 2 ≤ strength mode ∧ xmax_deleter T m m2 xmax = None) →
  (upd = false → flag m HEAP_XMAX_INVALID = false → flag m HEAP_XMAX_IS_MULTI = false → xmax = add →
     HEAP_XMAX_IS_LOCKED_ONLY m m2 = true) →
  post (ComputeNewXmaxInfomask mgr lk xmax m m2 add mode upd) s
    (λ r s', outcome T s r s' (wanted upd (xmax_deleter T m m2 xmax))).
Proof.
  intros Hk Hok Ha Ra Hupd Hown. set (d := xmax_deleter T m m2 xmax) in *.
  pose proof (law_invalid _ _ (law_ready _ _ Hk)) as H0.
  unfold ComputeNewXmaxInfomask. generalize 0%nat as f. intros f. cbn [compute_xmax]. destruct (flag m HEAP_XMAX_INVALID) eqn:Hi.
  { apply sole_post; try done. intros _. subst d. unfold xmax_deleter. by rewrite Hi. }
  destruct (flag m HEAP_XMAX_IS_MULTI) eqn:Hm.
  - destruct (xo_multi _ _ _ _ Hok Hi Hm) as (Hkn & Hv & Hu).
    assert (d = effective (T (first_updater (members_of T xmax)))) as Hd by by apply multi_deleter.
    pose proof (updater_known T xmax H0 Hkn) as Hfu.
    assert (∀ w, ready w T → members_of T xmax ≠ [] → post (add_to_multi mgr lk xmax add mode upd) (set_world w s)
      (λ r s', outcome T s r s' (wanted upd d))) as Hadd.
    { intros w Hw Hne. rewrite Hd. eapply post_mono; [apply (add_to_multi_post _ _ _ _ _ T); try done|].
      - intros Hup. rewrite <- Hd. by apply Hupd.
      - intros r s'. apply outcome_world. }
    apply post_bind, post_bind, (@post_multi_running W mgr (lk_ready (lk := lk)) T); [done..|]. intros w Hw.
    destruct (existsb _ _) eqn:Hrun.
    { apply post_ret, Hadd; [done|]. intros E. by rewrite E in Hrun. }
    assert (∀ w', ready w' T → d = None → post (compute_xmax mgr lk f xmax (Z.lor (clear_bits m HEAP_XMAX_IS_MULTI) HEAP_XMAX_INVALID)
      m2 add mode upd) (set_world w' s) (λ r s', outcome T s r s' (wanted upd d))) as Hagain.
    { intros w' Hw' Hd0. eapply post_mono; [by apply (restart_sole _ _ _ _ _ _ _ _ T d)|]. intros r s'. apply outcome_world. }
    destruct (HEAP_XMAX_IS_LOCKED_ONLY m m2) eqn:Hl.
    { apply post_ret, Hagain; [done|]. subst d. unfold xmax_deleter. by rewrite Hi, Hl. }
    apply post_bind, (@post_members W mgr (lk_ready (lk := lk)) T); [done|]. intros w1 Hw1.
    apply post_bind, (@post_did_commit W mgr (lk_ready (lk := lk)) T); [done..|]. intros w2 Hw2. apply post_ret.
    pose proof (no_open_updater T (members_of T xmax) H0 Hrun) as Hclosed.
    destruct (T (first_updater (members_of T xmax))) eqn:Hf; try done; cbn [is_committed negb].
    + apply Hadd; [done|]. intros E. rewrite E in Hf. cbn [first_updater] in Hf. congruence.
    + by apply Hagain.
  - destruct (xo_single _ _ _ _ Hok Hi Hm) as (Hx & Rx).
    assert (d = if HEAP_XMAX_IS_LOCKED_ONLY m m2 then None else effective (T xmax)) as Hd
      by (subst d; unfold xmax_deleter; by rewrite Hi, Hm).
    assert (∀ w st, ready w T → d = (if ISUPDATE_from_mxstatus st then effective (T xmax) else None) →
      (ISUPDATE_from_mxstatus st = true → is_Some d) →
      post (make_multi mgr lk xmax st add mode upd) (set_world w s) (λ r s', outcome T s r s' (wanted upd d))) as Hmake.
    { intros w st Hw Hds Hsome. rewrite Hds. eapply post_mono; [apply (make_multi_post _ _ _ _ _ _ T); try done|].
      - by intros ?; apply Hupd.
      - destruct (ISUPDATE_from_mxstatus st), upd; try done. destruct (Hsome eq_refl) as [? E].
        by rewrite (proj2 (Hupd eq_refl)) in E.
      - intros r s'. apply outcome_world. }
    assert (ISUPDATE_from_mxstatus (status_of_update m2) = true) as Hst by (unfold status_of_update; by destruct (flag m2 _)).
    destruct (flag m HEAP_XMAX_COMMITTED) eqn:Hc.
    { destruct (xo_committed _ _ _ _ Hok Hi Hc) as [Hl Hcm]. rewrite Hl in Hd.
      replace s with (set_world (world s) s) by by destruct s. apply Hmake; [done|by rewrite Hst|].
      intros _. rewrite Hd. by destruct (T xmax). }
    assert (∀ w mode', ready w T → (upd = false → d = None) → post (compute_xmax mgr lk f xmax (Z.lor m HEAP_XMAX_INVALID) m2 add mode' upd)
      (set_world w s) (λ r s', outcome T s r s' (wanted upd d))) as Hagain.
    { intros w mode' Hw Hd0. eapply post_mono; [by apply (restart_sole _ _ _ _ _ _ _ _ T d)|]. intros r s'. apply outcome_world. }
    apply post_bind, (@post_in_progress W mgr (lk_ready (lk := lk)) T); [done..|]. intros w Hw.
    destruct (is_open (T xmax)) eqn:Ho.
    + destruct (Z.eqb_spec xmax add) as [He|He].
      { set (old := TUPLOCK_FROM_MXSTATUS (status_of_xmax m m2)).
        apply (Hagain w (if strength mode <? strength old then old else mode)); [done|]. intros Hup. rewrite Hd. by rewrite (Hown Hup eq_refl eq_refl He). }
      apply Hmake; [done|..]; unfold status_of_xmax; rewrite Hd; destruct (HEAP_XMAX_IS_LOCKED_ONLY m m2);
        rewrite ?Hst; try done; [by repeat case_match..|]. by destruct (T xmax).
    + apply post_bind. destruct (HEAP_XMAX_IS_LOCKED_ONLY m m2) eqn:Hl.
      { apply post_ret. by apply (Hagain w mode). }
      apply (@post_did_commit W mgr (lk_ready (lk := lk)) T); [done..|]. intros w1 Hw1.
      destruct (T xmax) eqn:Ev; try done; cbn [is_committed].
      * apply Hmake; [done|by rewrite Hst|by rewrite Hd].
      * by apply (Hagain w1 mode).
Qed.

(** ** Theorems *)

Lemma own_locked T pg h xid :
  deleter_xid T pg h ≠ Some xid → bit h HEAP_XMAX_INVALID = false → bit h HEAP_XMAX_IS_MULTI = false →
  tup_xmax pg h = xid → is_locked_only h = true.
Proof.
  unfold deleter_xid. intros Hd Hi Hm Hx. destruct (is_locked_only h); [done|]. rewrite Hi, Hm, Hx in Hd. done.
Qed.

Lemma copy_based s w :
  based s → {| world := world (set_world w s); combo := combo (set_world w s); page := page (set_world w s);
    htup := HeapTupleCopyBaseFromPage (htup (set_world w s)) (page (set_world w s)); buf_dirty := buf_dirty (set_world w s);
    dirty_xmin := dirty_xmin (set_world w s); dirty_xmax := dirty_xmax (set_world w s); cur_write := cur_write (set_world w s) |} =
  set_world w s.
Proof. intros [H1 H2]. unfold HeapTupleCopyBaseFromPage. cbn. rewrite <- H1, <- H2. by destruct s as [? ? ? []]. Qed.

(** C11: Locking a tuple does not change who has inserted it and who has deleted it,
    whatever lockers and updaters, running or finished, its xmax stood for: the header
    that [heap_lock_tuple] stores is again well formed, and every MVCC snapshot gets from
    it the answer it would have got before. Another deletion is not lost: only a tuple
    deleted by the locker itself is excluded. *)
Theorem lock_keeps_visibility s T xid mode :
  ready (world s) T → tuple_ok T (page s) (header s) → based s →
  xmax_ok T (t_infomask (header s)) (t_infomask2 (header s)) (tup_xmax (page s) (header s)) →
  T xid = V_mine → 1 ≤ xid < 2 ^ 60 → deleter_xid T (page s) (header s) ≠ Some xid →
  (∀ x b b2 s0 s1, runs (on_world (lk_set_oldest_member lk)) s tt s0 →
     runs (ComputeNewXmaxInfomask mgr lk (tup_xmax (page s) (header s)) (t_infomask (header s))
             (t_infomask2 (header s)) xid mode false) s0 (x, b, b2) s1 →
     xid_fits (page s) (flag b HEAP_XMAX_IS_MULTI) x) →
  post (lock_tuple_store mgr lk xid mode) s (λ _ s', ∃ T', knows (world s') T' ∧ grows T T' ∧
    tuple_ok T' (page s') (header s') ∧
    inserter T' (page s') (header s') = inserter T (page s) (header s) ∧
    deleter T' (page s') (header s') = deleter T (page s) (header s) ∧
    ∀ fuel sn cmin cmax, mvcc_session mgr env T sn → mvcc_session mgr env T' sn → cids_ok env s cmin cmax →
      (IsVersionMVCCSnapshot sn = true → deleter T (page s) (header s) ≠ Some V_mine) →
      ∃ r s1 s2, runs (HeapTupleSatisfiesMVCC mgr env fuel sn) s r s1 ∧ runs (HeapTupleSatisfiesMVCC mgr env fuel sn) s' r s2).
Proof.
  intros Hk Hok Hb Hx Ha Ra Hown Hfit. unfold lock_tuple_store.
  apply post_bind, post_gets, post_bind, post_gets. rewrite based_xmax by done. apply post_bind.
  assert (post (on_world (lk_set_oldest_member lk)) s (λ _ s', ∃ w, ready w T ∧ s' = set_world w s)) as ([] & s0 & Hr0 & w0 & Hw0 & ->).
  { apply post_world. eapply post_mono; [by apply (law_lk_set_oldest _ T)|]. intros [] w Hw. by exists w. }
  eapply post_runs; [exact Hr0|]. apply post_bind.
  assert (post (ComputeNewXmaxInfomask mgr lk (tup_xmax (page s) (header s)) (t_infomask (header s)) (t_infomask2 (header s)) xid mode false)
    (set_world w0 s) (λ r s', outcome T s r s' (deleter T (page s) (header s)))) as (r & s1 & Hr & w & T' & -> & Hw & Hg & Hs).
  { rewrite deleter_xmax. eapply post_mono; [apply (compute_post _ _ _ _ _ _ _ T); try done|].
    - intros _ Hi Hm He. by apply (own_locked T (page s) _ xid).
    - intros r s'. apply outcome_world. }
  eapply post_runs; [exact Hr|]. destruct r as [[x b] b2]. apply post_bind, post_modify. rewrite copy_based by done.
  apply post_bind, post_modify, post_modify.
  destruct (stored_tuple T T' (page s) (t_self (htup s)) (header s) x b b2 _ Hok Hg Hs) as (Hins & Hdel & Hok' & Hc & Hcb).
  { by eapply Hfit. }
  { apply (ok_own _ _ _ Hok). }
  exists T'. split_and!; try done. intros fuel sn cmin cmax Hse Hse' [Hcid Hcid'] Hver.
  set (s2 := set_buf_dirty _) in *.
  destruct (mvcc_post mgr env T fuel s sn cmin cmax) as (r & s3 & Hr3 & -> & _); try done.
  { by apply law_ready. } { intros Hv _. by apply Hver. }
  destruct (mvcc_post mgr env T' fuel s2 sn cmin cmax) as (r & s4 & Hr4 & -> & _); try done.
  { unfold cids_ok, cids in *. change (header s2) with (store_xmax (page s) (t_self (htup s)) (header s) x b b2). rewrite Hc, Hcb.
    change (flag (t_infomask ?h) HEAP_COMBOCID) with (bit h HEAP_COMBOCID). rewrite Hcb. by split. }
  { intros Hv _ E. apply Hver; [done|]. rewrite <- Hdel. exact E. }
  eexists _, s3, s4. split; [done|].
  change (page s2) with (page s) in Hr4. change (header s2) with (store_xmax (page s) (t_self (htup s)) (header s) x b b2) in Hr4.
  by rewrite Hins, Hdel in Hr4.
Qed.

(** The xmax computed for an update or a deletion, of a tuple that is not deleted (or
    whose deleter has aborted), names the updating transaction as the deleter, alone or
    in a multixact with the others that still matter, and its flags say so; the number of
    [goto l5] is at most one. *)
Theorem update_names_deleter s T xmax m m2 xid mode :
  ready (world s) T → xmax_ok T m m2 xmax → T xid = V_mine → 1 ≤ xid < 2 ^ 60 →
  (mode = LockTupleNoKeyExclusive ∨ mode = LockTupleExclusive) → xmax_deleter T m m2 xmax = None →
  post (ComputeNewXmaxInfomask mgr lk xmax m m2 xid mode true) s (λ r s', ∃ T', knows (world s') T' ∧ grows T T' ∧
    let '(x, b, b2) := r in
    xmax_deleter T' b b2 x = Some V_mine ∧ HEAP_XMAX_IS_LOCKED_ONLY b b2 = false ∧
    (if flag b HEAP_XMAX_IS_MULTI then T' (first_updater (members_of T' x)) = V_mine else T' x = V_mine) ∧
    xmax_ok T' b b2 x).
Proof.
  intros Hk Hx Ha Ra Hm Hd. eapply post_mono; [apply (compute_post _ _ _ _ _ _ _ T); try done|].
  { intros _. split; [|done]. destruct Hm as [-> | ->]; cbn; lia. }
  intros [[x b] b2] s' (w & T' & -> & Hw & Hg & Hdel & Hi & _ & _ & _ & Hx' & _). exists T'. cbn [wanted] in Hdel.
  split_and!; try done.
  - unfold xmax_deleter in Hdel. rewrite Hi in Hdel. by destruct (HEAP_XMAX_IS_LOCKED_ONLY b b2).
  - unfold xmax_deleter in Hdel. rewrite Hi in Hdel. destruct (HEAP_XMAX_IS_LOCKED_ONLY b b2); [done|]. cbn [orb] in Hdel.
    destruct (flag b HEAP_XMAX_IS_MULTI); [destruct (T' (first_updater (members_of T' x)))|destruct (T' x)]; cbn in Hdel; congruence.
Qed.

(** ** Conflicts *)

(** What makes a member conflict, as the code has it. *)
Definition member_conflicts T (mode : LockTupleMode) (m : MultiXactMember) : bool :=
  DoLockModesConflict (LOCKMODE_FROM_MXSTATUS (mx_status m)) (hwlock mode) && negb (is_mine (T (mx_xid m))) &&
  (if is_update m then is_open (T (mx_xid m)) else negb (bool_decide (T (mx_xid m) = V_aborted))).

Lemma conflicting_post T mode ms s :
  knows (world s) T → (∀ m, m ∈ ms → T (mx_xid m) ≠ V_unknown ∧ mx_xid m ≠ InvalidTransactionId) →
  post (conflicting_member mgr lk ms (hwlock mode)) s
    (λ r s', r = existsb (member_conflicts T mode) ms ∧ ∃ w, knows w T ∧ s' = set_world w s).
Proof.
  revert s. induction ms as [|m ms IH]; intros s Hk Hm; cbn [conflicting_member existsb].
  { apply post_ret. split; [done|]. exists (world s). split; [done|by destruct s]. }
  destruct (Hm m) as [Hu Hx0]; [by left|].
  assert (∀ w, knows w T → member_conflicts T mode m = false → post (conflicting_member mgr lk ms (hwlock mode)) (set_world w s)
    (λ r s', r = member_conflicts T mode m || existsb (member_conflicts T mode) ms ∧ ∃ w, knows w T ∧ s' = set_world w s)) as Hrest.
  { intros w Hw ->. eapply post_mono; [apply IH; [done|by intros m' Hm'; apply Hm; right]|].
    intros r s' (-> & w' & Hw' & ->). split; [done|]. by exists w'. }
  assert (s = set_world (world s) s) as Es by by destruct s.
  unfold member_conflicts in *. destruct (DoLockModesConflict _ _); cbn [negb andb] in *; [|rewrite Es at 1; by apply Hrest].
  rewrite (law_current _ T) by eauto. destruct (is_mine (T (mx_xid m))) eqn:Hmine; cbn [negb andb] in *;
    [rewrite Es at 1; by apply Hrest|]. fold (is_update m). destruct (is_update m); cbn [negb].
  - apply post_bind, (post_in_progress mgr T); [done..|]. intros w Hw. destruct (is_open _) eqn:Ho; [|by apply Hrest].
    apply post_ret. split; [done|]. by exists w.
  - apply post_bind, post_world. eapply post_mono; [by apply (law_xid_did_abort _ T)|]. intros r w [-> Hw]. cbn beta.
    destruct (bool_decide _) eqn:Hb; [by apply Hrest|]. apply post_ret. split; [done|]. by exists w.
Qed.

(** C40: [DoesMultiXactIdConflict] does not do what its comments say: the tests for updaters
    and lockers are swapped. It returns whether there is a member, not of our own, whose
    mode conflicts and which is, if it updates, still running and, if it locks, not
    aborted. So a committed update is no conflict, and a lock whose transaction has
    committed still is. *)
Theorem conflict_branches_swapped s T multi mode :
  knows (world s) T → (∀ m, m ∈ members_of T multi → T (mx_xid m) ≠ V_unknown ∧ mx_xid m ≠ InvalidTransactionId) →
  post (DoesMultiXactIdConflict mgr lk multi mode) s (λ r s', knows (world s') T ∧
    r = existsb (member_conflicts T mode) (members_of T multi) ∧
    ((∀ m, m ∈ members_of T multi → is_update m = true ∧ is_committed (T (mx_xid m)) = true) → r = false) ∧
    ((∃ m, m ∈ members_of T multi ∧ is_update m = false ∧ is_committed (T (mx_xid m)) = true ∧
           DoLockModesConflict (LOCKMODE_FROM_MXSTATUS (mx_status m)) (hwlock mode) = true) → r = true)).
Proof.
  intros Hk Hm. apply post_bind, post_world. eapply post_mono; [by apply (law_members _ T)|]. intros ms w [-> Hw].
  eapply post_mono; [by apply (conflicting_post T)|]. intros r s' (-> & w' & Hw' & ->). split_and!; [done|done|..].
  - intros Hall. destruct (existsb _ _) eqn:E; [|done]. apply existsb_exists in E as (m & Hin%list_elem_of_In & Hc).
    destruct (Hall m Hin) as [Hu Hco]. unfold member_conflicts in Hc. rewrite Hu in Hc.
    apply andb_true_iff in Hc as [_ Ho]. by destruct (T (mx_xid m)).
  - intros (m & Hin & Hu & Hco & Hcf). apply existsb_exists. exists m. split; [by apply list_elem_of_In|].
    unfold member_conflicts. rewrite Hcf, Hu. cbn. destruct (T (mx_xid m)); try done.
Qed.

(** [test_lockmode_for_conflict] by the fate of the holder: our own lock is reported as
    such; a running holder must be waited for iff the modes conflict; an aborted one is no
    obstacle; a committed one makes the tuple updated iff the modes conflict. Two tuple
    locks conflict iff their strengths (0 for key share to 3 for exclusive) add up to 3 or
    more. *)
Theorem lockmode_conflict_spec s T status xid mode :
  knows (world s) T → T xid ≠ V_unknown → xid ≠ InvalidTransactionId →
  post (test_lockmode_for_conflict mgr lk status xid mode) s (λ r s', knows (world s') T ∧
    let conflict := 3 <=? strength (TUPLOCK_FROM_MXSTATUS status) + strength mode in
    r = match T xid with
        | V_mine => (TM_SelfUpdated, false)
        | V_running => (TM_Ok, conflict)
        | V_committed _ => (if conflict then TM_Updated else TM_Ok, false)
        | _ => (TM_Ok, false)
        end).
Proof.
  intros Hk Hu Hx0. unfold test_lockmode_for_conflict, GetMXactStatusForLock.
  assert (∃ want, lockstatus mode = Some want ∧ DoLockModesConflict (LOCKMODE_FROM_MXSTATUS status) (LOCKMODE_FROM_MXSTATUS want) =
    (3 <=? strength (TUPLOCK_FROM_MXSTATUS status) + strength mode)) as (want & -> & Hc) by (destruct mode, status; by eexists).
  apply post_bind, post_ret. rewrite Hc, (law_current _ T) by eauto. cbv zeta. destruct (T xid) as [| |c| |] eqn:Ev; try done; cbn [is_mine].
  { by apply post_ret. }
  all: apply post_bind, (post_in_progress mgr T); [done|by rewrite Ev|]; intros w Hw; rewrite Ev; cbn [is_open].
  { by apply post_ret. }
  all: apply post_bind, post_world; (eapply post_mono; [apply (law_xid_did_abort _ T); [done|by rewrite Ev|done]|]);
    intros r w1 [-> Hw1]; rewrite Ev; cbn beta.
  - rewrite bool_decide_eq_false_2 by done. apply post_bind, (post_did_commit mgr T); [done|by rewrite Ev|]. intros w2 Hw2. rewrite Ev. by apply post_ret.
  - rewrite bool_decide_eq_true_2 by done. by apply post_ret.
Qed.
End LockProofs.

(** ** Freezing *)

(** Bits set with [|=]: what [c] selects of them. *)
Lemma flag_or_out m b c : Z.land b c = 0 → flag (Z.lor m b) c = flag m c.
Proof. intros H. rewrite flag_lor. unfold flag at 2. by rewrite H, orb_false_r. Qed.

Section Freeze.
Context {W : Type} (mgr : xact_mgr W) (env : heap_env W) `{!XactMgrSpec mgr}.
Context (T : truth) (cutoff_xid cutoff_multi : Z).
Implicit Types (s : vstate W) (h : HeapTupleHeaderData).

(** The cutoffs of a vacuum: every transaction before them has ended. *)
Record cutoffs_ok : Prop := {
  cut_closed x : x < cutoff_xid → is_open (T x) = false;
  cut_known x : TransactionIdIsNormal x = true → x < cutoff_xid → T x ≠ V_unknown;
  cut_frozen : T FrozenTransactionId = V_committed COMMITSEQNO_FROZEN;
}.

(** A tuple that [heap_freeze_tuple] accepts: VACUUM has removed the dead ones. *)
Record freezable pg h : Prop := {
  fz_xmin : TransactionIdIsNormal (tup_xmin pg h) = true → tup_xmin pg h < cutoff_xid → is_committed (T (tup_xmin pg h)) = true;
  fz_xmax : bit h HEAP_XMAX_IS_MULTI = false → tup_xmax pg h < cutoff_xid → is_locked_only h = false →
    is_committed (T (tup_xmax pg h)) = false;
  fz_multi : bit h HEAP_XMAX_IS_MULTI = true → bit h HEAP_XMAX_INVALID = false → is_locked_only h = false →
    is_committed (T (first_updater (members_of T (tup_xmax pg h)))) = false;
}.

(** What freezing may do: the deleter stays; the inserter stays, or it was committed
    before the cutoff and is now older than everything. *)
Record frozen s s' : Prop := {
  fr_knows : knows (world s') T;
  fr_page : page s' = page s;
  fr_combo : combo s' = combo s;
  fr_based : based s → based s';
  fr_cid : t_cid (header s') = t_cid (header s);
  fr_cbit : bit (header s') HEAP_COMBOCID = bit (header s) HEAP_COMBOCID;
  fr_deleter : deleter T (page s) (header s') = deleter T (page s) (header s);
  fr_inserter : inserter T (page s) (header s') = inserter T (page s) (header s) ∨
    (tup_xmin (page s) (header s) < cutoff_xid ∧ is_committed (T (tup_xmin (page s) (header s))) = true ∧
     (inserter T (page s) (header s) = T (tup_xmin (page s) (header s)) ∨ inserter T (page s) (header s) = V_committed COMMITSEQNO_FROZEN) ∧
     inserter T (page s) (header s') = V_committed COMMITSEQNO_FROZEN);
  fr_ok : tuple_ok T (page s) (header s) → tuple_ok T (page s) (header s');
}.

Lemma frozen_world s w : knows w T → frozen s (set_world w s).
Proof. intros Hw. split; try done. by left. Qed.

Definition frozen_xmin h : HeapTupleHeaderData :=
  set_infomask (set_short_xmin h FrozenTransactionId) (Z.lor (t_infomask h) HEAP_XMIN_COMMITTED).

Lemma frozen_xmin_tuple pg h :
  cutoffs_ok → tuple_ok T pg h → is_committed (T (tup_xmin pg h)) = true →
  inserter T pg (frozen_xmin h) = V_committed COMMITSEQNO_FROZEN ∧ deleter T pg (frozen_xmin h) = deleter T pg h ∧
  tuple_ok T pg (frozen_xmin h) ∧ bit (frozen_xmin h) HEAP_COMBOCID = bit h HEAP_COMBOCID ∧
  (inserter T pg h = T (tup_xmin pg h) ∨ inserter T pg h = V_committed COMMITSEQNO_FROZEN) ∧
  (freezable pg h → freezable pg (frozen_xmin h)).
Proof.
  intros Hcut Hok Hc. set (h' := frozen_xmin h).
  assert (∀ c, Z.land HEAP_XMIN_COMMITTED c = 0 → bit h' c = bit h c) as Hbit by (intros c Hz; by apply flag_or_out).
  assert (bit h' HEAP_XMIN_COMMITTED = true) as Hbc by (unfold bit, h'; cbn; rewrite flag_lor; apply orb_true_r).
  assert (is_locked_only h' = is_locked_only h) as Hlo.
  { unfold is_locked_only, HEAP_XMAX_IS_LOCKED_ONLY, h', frozen_xmin. cbn [set_infomask t_infomask t_infomask2 set_short_xmin].
    rewrite flag_or_out by done. by rewrite land_lor_disjoint. }
  assert (tup_xmax pg h' = tup_xmax pg h) as Hx.
  { unfold tup_xmax, HeapTupleHeaderGetXmax. change (flag (t_infomask ?k) HEAP_XMAX_IS_MULTI) with (bit k HEAP_XMAX_IS_MULTI).
    by rewrite Hbit. }
  assert (inserter T pg h' = V_committed COMMITSEQNO_FROZEN) as Hi.
  { unfold inserter. destruct (HeapTupleHeaderXminFrozen h'); [done|]. apply (cut_frozen Hcut). }
  assert (deleter T pg h' = deleter T pg h) as Hd.
  { unfold deleter, deleter_xid. by rewrite !Hbit, Hlo, Hx. }
  assert (xmax_closed T pg h' = xmax_closed T pg h) as Hxc by (unfold xmax_closed; by rewrite Hbit, Hx).
  destruct Hok as [O1 O2 O3 O4 O5 O6 O7 O8 O9]. split_and!; [done|done| |by apply Hbit| |].
  - split; rewrite ?bits_invalid, ?Hi, ?Hd, ?Hbc, ?Hbit, ?Hlo, ?Hx, ?Hxc by done; try done.
  - unfold inserter. destruct (HeapTupleHeaderXminFrozen h); [by right|by left].
  - intros [F1 F2 F3]. split; rewrite ?Hbit, ?Hlo, ?Hx by done; done.
Qed.

Lemma freeze_xmin_post s :
  cutoffs_ok → knows (world s) T → tuple_ok T (page s) (header s) → based s → h_RecoveryInProgress env = false →
  freezable (page s) (header s) →
  post (freeze_xmin mgr env cutoff_xid) s (λ _ s', frozen s s' ∧ freezable (page s) (header s') ∧
    TransactionIdIsNormal (tup_xmin (page s) (header s')) && (tup_xmin (page s) (header s') <? cutoff_xid) = false).
Proof.
  intros Hcut Hk Hok Hb Hrec Hf. unfold freeze_xmin. apply post_bind, post_gets. rewrite based_xmin by done.
  assert (frozen s s) as Hr by (replace s with (set_world (world s) s) at 2 by (by destruct s); by apply frozen_world).
  destruct (TransactionIdIsNormal _ && _) eqn:E; [|by apply post_ret].
  apply andb_true_iff in E as [En Ep%Z.ltb_lt]. pose proof (fz_xmin _ _ Hf En Ep) as Hc.
  rewrite Hrec. apply post_bind, (post_did_commit mgr T); [done|by apply (cut_known Hcut)|]. intros w Hw. rewrite Hc.
  apply post_bind, post_modify, post_bind, post_modify, post_ret. set (s' := set_header _ _).
  assert (header s' = frozen_xmin (header s)) as Eh by done.
  destruct (frozen_xmin_tuple (page s) (header s) Hcut Hok Hc) as (Hi & Hd & Hok' & Hcb & Hi0 & Hf'). split_and!.
  - split; rewrite ?Eh; try done. right. split_and!; done.
  - rewrite Eh. by apply Hf'.
  - done.
Qed.

Lemma frozen_trans s1 s2 s3 :
  frozen s1 s2 → frozen s2 s3 → inserter T (page s1) (header s3) = inserter T (page s1) (header s2) → frozen s1 s3.
Proof.
  intros [A1 A2 A3 A4 A5 A6 A7 A8 A9] [B1 B2 B3 B4 B5 B6 B7 B8 B9] Hi. rewrite A2 in *. split; try congruence; auto.
Qed.

(** A header whose xmax was made invalid. *)
Record xmax_gone h h' : Prop := {
  xg_xmin : t_xmin h' = t_xmin h;
  xg_cid : t_cid h' = t_cid h;
  xg_invalid : bit h' HEAP_XMAX_INVALID = true;
  xg_bits c : c = HEAP_XMIN_COMMITTED ∨ c = HEAP_XMIN_INVALID ∨ c = HEAP_COMBOCID → bit h' c = bit h c;
}.

Lemma xmax_gone_frozen s w h' :
  knows w T → xmax_gone (header s) h' → deleter T (page s) (header s) = None →
  let s' := set_header h' (set_world w s) in
  frozen s s' ∧ inserter T (page s) h' = inserter T (page s) (header s) ∧ tup_xmin (page s) h' = tup_xmin (page s) (header s).
Proof.
  intros Hw [X1 X2 X3 X4] Hd s'. assert (tup_xmin (page s) h' = tup_xmin (page s) (header s)) as Hx
    by (unfold tup_xmin, HeapTupleHeaderGetXmin; by rewrite X1).
  assert (inserter T (page s) h' = inserter T (page s) (header s)) as Hi.
  { unfold inserter. by rewrite !bits_frozen, !X4, Hx by auto. }
  assert (deleter T (page s) h' = None) as Hd' by (unfold deleter, deleter_xid; by rewrite X3).
  split_and!; [|done|done]. split; try done; try (by auto).
  - by rewrite Hd.
  - intros [O1 O2 O3 O4 O5 O6 O7 O8 O9]. change (header s') with h'.
    split; rewrite ?bits_invalid, ?Hi, ?Hd', ?X3, ?X4, ?Hx by auto; try done; [|by left].
    by rewrite <- bits_invalid.
Qed.

Lemma gone_single tup : xmax_gone (t_data tup) (invalid_xmax tup).
Proof.
  split; try done; unfold bit; cbn [invalid_xmax HeapTupleHeaderClearHotUpdated set_infomask set_infomasks t_infomask].
  - by rewrite flag_lor, orb_true_r.
  - intros c Hc. rewrite flag_lor, flag_clear_in by (by destruct Hc as [-> |[-> | ->]]).
    destruct Hc as [-> |[-> | ->]]; apply orb_false_r.
Qed.

Lemma gone_multi tup : xmax_gone (t_data tup) (invalid_multi tup).
Proof.
  split; try done; unfold bit; cbn [invalid_multi HeapTupleHeaderClearHotUpdated set_infomask set_infomasks t_infomask].
  - by rewrite flag_lor, orb_true_r.
  - intros c Hc. rewrite flag_lor, flag_clear_in by (by destruct Hc as [-> |[-> | ->]]).
    destruct Hc as [-> |[-> | ->]]; apply orb_false_r.
Qed.

(** What ended before the cutoff and has not committed, has aborted. *)
Lemma closed_aborted x : cutoffs_ok → x < cutoff_xid → T x ≠ V_unknown → is_committed (T x) = false → T x = V_aborted.
Proof. intros Hc Hx Hu Hn. pose proof (cut_closed Hc x Hx). by destruct (T x). Qed.

(** No old xmax is left, except a multixact that names a recent updater. *)
Definition xmax_settled pg h : Prop :=
  bit h HEAP_XMAX_INVALID = true ∨
  if bit h HEAP_XMAX_IS_MULTI
  then MultiXactIdIsValid (tup_xmax pg h) && MultiXactIdPrecedes (tup_xmax pg h) cutoff_multi = false ∨
       is_locked_only h = false ∧ cutoff_xid ≤ first_updater (members_of T (tup_xmax pg h))
  else TransactionIdIsNormal (tup_xmax pg h) && TransactionIdPrecedes (tup_xmax pg h) cutoff_xid = false.

Lemma gone_settled s w h' :
  knows w T → xmax_gone (header s) h' → deleter T (page s) (header s) = None →
  let s' := set_header h' (set_world w s) in
  frozen s s' ∧ inserter T (page s) h' = inserter T (page s) (header s) ∧
  tup_xmin (page s) h' = tup_xmin (page s) (header s) ∧ xmax_settled (page s) h'.
Proof.
  intros Hw Hg Hd s'. destruct (xmax_gone_frozen s w h' Hw Hg Hd) as (? & ? & ?). split_and!; try done. left. apply Hg.
Qed.

Lemma freeze_xmax_post s :
  cutoffs_ok → knows (world s) T → tuple_ok T (page s) (header s) → based s → h_RecoveryInProgress env = false →
  freezable (page s) (header s) →
  post (freeze_xmax mgr env cutoff_xid cutoff_multi) s (λ _ s', frozen s s' ∧
    inserter T (page s) (header s') = inserter T (page s) (header s) ∧
    tup_xmin (page s) (header s') = tup_xmin (page s) (header s) ∧ xmax_settled (page s) (header s')).
Proof.
  intros Hcut Hk Hok Hb Hrec Hf. unfold freeze_xmax. apply post_bind, post_gets, post_bind, post_gets.
  rewrite based_xmax by done. cbv zeta. change (HEAP_XMAX_IS_LOCKED_ONLY _ _) with (is_locked_only (header s)).
  change (flag (t_infomask (header s)) ?c) with (bit (header s) c). rewrite Hrec. cbn [orb].
  set (Q := λ s', frozen s s' ∧ inserter T (page s) (header s') = inserter T (page s) (header s) ∧
                  tup_xmin (page s) (header s') = tup_xmin (page s) (header s) ∧ xmax_settled (page s) (header s')). change (λ _ s', _) with (λ (_ : bool * bool) s', Q s').
  assert (∀ w, knows w T → xmax_settled (page s) (header s) → Q (set_world w s)) as Hsame
    by (intros w Hw Hst; split; [by apply frozen_world|done]).
  assert (s = set_world (world s) s) as Es by by destruct s.
  pose proof (law_invalid _ _ Hk) as H0.
  destruct (bit (header s) HEAP_XMAX_IS_MULTI) eqn:Hm; cbn [negb].
  - assert (T (first_updater (members_of T (tup_xmax (page s) (header s)))) ≠ V_unknown ∨ bit (header s) HEAP_XMAX_INVALID = true) as Hu.
    { destruct (bit (header s) HEAP_XMAX_INVALID) eqn:Hi; [by right|left]. apply updater_known; [done|].
      pose proof (ok_xmax _ _ _ Hok Hi) as Hx. by rewrite Hm in Hx. }
    assert (∀ w, knows w T → deleter T (page s) (header s) = None → post (modify (λ s0, set_header (invalid_multi (htup s0)) s0) ≫= λ _, mret (true, true))
      (set_world w s) (λ _ s', Q s')) as Hgo.
    { intros w Hw Hd. apply post_bind, post_modify, post_ret. by apply (gone_settled s w _ Hw (gone_multi _) Hd). }
    destruct (MultiXactIdIsValid _ && _) eqn:Hv.
    2: { apply post_bind, post_ret, post_ret. rewrite Es. apply Hsame; [done|]. unfold xmax_settled. rewrite Hm. right. by left. }
    destruct (is_locked_only (header s)) eqn:Hl.
    { apply post_bind, post_ret, post_bind. rewrite orb_true_r. apply post_ret. rewrite Es. apply Hgo; [done|by apply locked_no_deleter]. }
    apply post_bind, post_bind. unfold HeapTupleMultiXactGetUpdateXid. apply post_bind, post_gets. rewrite based_xmax by done.
    apply (post_members mgr T); [done|]. intros w Hw. apply post_ret.
    destruct (TransactionIdPrecedes _ _) eqn:Hp; [|apply post_ret, Hsame; [done|]; unfold xmax_settled; rewrite Hm; right; right; split; [done|by apply Z.ltb_ge in Hp]].
    apply Z.ltb_lt in Hp. rewrite orb_false_r.
    apply post_bind. destruct (bit (header s) HEAP_XMAX_INVALID) eqn:Hi.
    { apply post_ret, Hgo; [done|]. unfold deleter, deleter_xid. by rewrite Hi. }
    apply post_bind, post_bind, post_gets. rewrite (based_xmax (set_world w s)) by done.
    apply (post_members mgr T); [done|]. intros w1 Hw1.
    apply (post_did_commit mgr T); [done|by destruct Hu|]. intros w2 Hw2.
    change (header (set_world w s)) with (header s). change (page (set_world w s)) with (page s).
    rewrite (fz_multi _ _ Hf Hm Hi Hl).
    apply Hgo; [done|]. apply aborted_multi_no_deleter; [done|]. apply closed_aborted; [done|done|by destruct Hu|]. by apply (fz_multi _ _ Hf).
  - destruct (TransactionIdIsNormal _ && _) eqn:E; [|apply post_ret; rewrite Es; apply Hsame; [done|]; unfold xmax_settled; rewrite Hm; by right].
    apply andb_true_iff in E as [En Ep%Z.ltb_lt].
    assert (∀ w, knows w T → deleter T (page s) (header s) = None → post (modify (λ s0, set_header (invalid_xmax (htup s0)) s0) ≫= λ _, mret (true, false))
      (set_world w s) (λ _ s', Q s')) as Hgo.
    { intros w Hw Hd. apply post_bind, post_modify, post_ret. by apply (gone_settled s w _ Hw (gone_single _) Hd). }
    apply post_bind. destruct (is_locked_only (header s)) eqn:Hl.
    { apply post_ret. rewrite Es. apply Hgo; [done|by apply locked_no_deleter]. }
    apply (post_did_commit mgr T); [done|by apply (cut_known Hcut)|]. intros w Hw. pose proof (fz_xmax _ _ Hf Hm Ep Hl) as Hn. rewrite Hn.
    apply Hgo; [done|]. apply aborted_no_deleter; [done|]. apply closed_aborted; try done. by apply (cut_known Hcut).
Qed.

Lemma freeze_post s :
  cutoffs_ok → knows (world s) T → tuple_ok T (page s) (header s) → based s → h_RecoveryInProgress env = false →
  freezable (page s) (header s) →
  post (heap_freeze_tuple mgr env cutoff_xid cutoff_multi) s (λ _ s', frozen s s' ∧ xmax_settled (page s) (header s') ∧
    TransactionIdIsNormal (tup_xmin (page s) (header s')) && (tup_xmin (page s) (header s') <? cutoff_xid) = false).
Proof.
  intros Hcut Hk Hok Hb Hrec Hf. unfold heap_freeze_tuple. apply post_bind.
  eapply post_mono; [by apply freeze_xmin_post|]. intros c1 s1 (F1 & Hf1 & Hx1). pose proof F1 as [K1 P1 _ B1 _ _ _ _ O1].
  apply post_bind. rewrite <- P1 in *. eapply post_mono; [by apply freeze_xmax_post; auto|].
  intros [c2 c3] s2 (F2 & Hi & Hx & Hst). apply post_ret. rewrite Hx. split_and!; try done.
  apply (frozen_trans s s1 s2); [done|done|]. by rewrite <- P1.
Qed.

(** C30: Freezing a tuple, whatever part of it is old enough, keeps the tuple well formed and
    its deleter the same; its inserter stays or becomes older than everything; every MVCC
    snapshot that already saw what had committed before the cutoff gets the same answer
    from the tuple as before. *)
Theorem freeze_keeps_visibility s :
  cutoffs_ok → knows (world s) T → tuple_ok T (page s) (header s) → based s → h_RecoveryInProgress env = false →
  freezable (page s) (header s) →
  post (heap_freeze_tuple mgr env cutoff_xid cutoff_multi) s (λ _ s',
    knows (world s') T ∧ tuple_ok T (page s') (header s') ∧
    deleter T (page s') (header s') = deleter T (page s) (header s) ∧
    ∀ fuel sn cmin cmax, mvcc_session mgr env T sn → cids_ok env s cmin cmax →
      (∀ x c, x < cutoff_xid → T x = V_committed c → c < snapshotcsn sn) →
      (IsVersionMVCCSnapshot sn = true → deleter T (page s) (header s) ≠ Some V_mine) →
      ∃ r s1 s2, runs (HeapTupleSatisfiesMVCC mgr env fuel sn) s r s1 ∧ runs (HeapTupleSatisfiesMVCC mgr env fuel sn) s' r s2).
Proof.
  intros Hcut Hk Hok Hb Hrec Hf. eapply post_mono; [by apply freeze_post|].
  intros _ s' [[K P C _ Hc Hcb Hd Hi Ho] _]. rewrite P. split_and!; auto.
  intros fuel sn cmin cmax Hse [Hcid Hcid'] Hold Hver.
  destruct (mvcc_post mgr env T fuel s sn cmin cmax) as (r & s3 & Hr3 & -> & _); try done.
  { intros Hv _. by apply Hver. }
  destruct (mvcc_post mgr env T fuel s' sn cmin cmax) as (r & s4 & Hr4 & -> & _); try done.
  { rewrite P. auto. }
  { unfold cids_ok, cids in *. change (flag (t_infomask ?h) HEAP_COMBOCID) with (bit h HEAP_COMBOCID). by rewrite C, Hc, Hcb. }
  { intros Hv _. rewrite P, Hd. by apply Hver. }
  rewrite P, Hd in Hr4. eexists _, s3, s4. split; [done|].
  enough (mvcc_inserted sn cmin (inserter T (page s) (header s')) = mvcc_inserted sn cmin (inserter T (page s) (header s))) as E
    by (unfold mvcc_spec in *; by rewrite E in Hr4).
  destruct Hi as [-> |(Hx & Hcm & Hor & ->)]; [done|]. destruct Hor as [-> | ->]; [|done].
  destruct (T (tup_xmin (page s) (header s))) as [| |c| |] eqn:Et; try done. unfold mvcc_inserted, sees.
  rewrite !(proj2 (Z.ltb_lt _ _)); [done|by eapply Hold|]. eapply law_snap_frozen, Hse.
Qed.

(** A frozen tuple needs no freezing: [heap_tuple_needs_freeze] says so, unless a
    multixact before the cutoff is left that names an updater after it. *)
Theorem freeze_completes s :
  cutoffs_ok → knows (world s) T → tuple_ok T (page s) (header s) → based s → h_RecoveryInProgress env = false →
  freezable (page s) (header s) →
  post (heap_freeze_tuple mgr env cutoff_xid cutoff_multi) s (λ _ s',
    (bit (header s') HEAP_XMAX_IS_MULTI = true → is_locked_only (header s') = false →
       first_updater (members_of T (tup_xmax (page s') (header s'))) < cutoff_xid) →
    heap_tuple_needs_freeze (htup s') cutoff_xid cutoff_multi = false).
Proof.
  intros Hcut Hk Hok Hb Hrec Hf. eapply post_mono; [by apply freeze_post|].
  intros _ s' ([_ P _ Hb' _ _ _ _ _] & Hst & Hx). intros Hm. unfold heap_tuple_needs_freeze.
  rewrite based_xmin, based_xmax, P by auto. change (t_data (htup s')) with (header s').
  change (flag (t_infomask (header s')) ?c) with (bit (header s') c). unfold TransactionIdPrecedes at 1. rewrite Hx. cbn [orb].
  rewrite P in Hm. unfold xmax_settled in Hst. destruct (bit (header s') HEAP_XMAX_INVALID); [done|]. destruct Hst as [|Hst]; [done|].
  destruct (bit (header s') HEAP_XMAX_IS_MULTI); cbn [negb andb]; [|done]. destruct Hst as [|[Hl Hc]]; [done|].
  specialize (Hm eq_refl Hl). lia.
Qed.
End Freeze.
