(* ===== verification/HeapMultiXact.v ===== *)
(** * Heap tuples over the multixact logs

    The transaction manager of [HeapManager.v] takes the members of a multixact as given.
    Here it is paired with the code of multixact.cpp ([MultiXact.v]): the members of an
    xmax come from [GetMultiXactIdMembers], and locking a tuple makes multixacts with
    [MultiXactIdCreate] and [MultiXactIdExpand]. The pair keeps the promises
    [XactMgrSpec] and [LockMgrSpec], so that what [VisibilitySpec.v] and [HeapLock.v]
    prove holds of tuples whose multixacts are in the logs. *)

From S2P Require Import Prelude TransamDefs SlruInterface Clog CsnLog Transam Snapshot HeapTuple ComboCid MultiXact HeapVisibility VisibilitySpec HeapManager HeapLock.

Section Pair.
Context {W SO SM : Type} `{!SlruOps SO} `{!SlruOps SM}.
Context (base : xact_mgr W) (did_abort : Z → M W bool) (fuel : nat) (menv : mx_env SO SM).

Definition on_base {A} (m : M W A) : M (W * mx_state SO SM) A := λ s,
  let '(r, w) := m s.1 in (r, (w, s.2)).
Definition on_multi {A} (m : M (mx_state SO SM) A) : M (W * mx_state SO SM) A := λ s,
  let '(r, x) := m s.2 in (r, (s.1, x)).

Definition mx_mgr : xact_mgr (W * mx_state SO SM) := {|
  mgr_is_current := mgr_is_current base;
  mgr_in_progress x := on_base (mgr_in_progress base x);
  mgr_in_progress_sync x := on_base (mgr_in_progress_sync base x);
  mgr_did_commit x := on_base (mgr_did_commit base x);
  mgr_did_abort x := on_base (mgr_did_abort base x);
  mgr_csn_did_abort x := on_base (mgr_csn_did_abort base x);
  mgr_get_status x := on_base (mgr_get_status base x);
  mgr_commit_lsn x := on_base (mgr_commit_lsn base x);
  mgr_xid_visible x sn := on_base (mgr_xid_visible base x sn);
  mgr_committed_visible x sn := on_base (mgr_committed_visible base x sn);
  mgr_decode_visible x sn := on_base (mgr_decode_visible base x sn);
  mgr_committed_decode x sn := on_base (mgr_committed_decode base x sn);
  mgr_gtm_lite x sn hint same := on_base (mgr_gtm_lite base x sn hint same);
  mgr_sync_wait x := on_base (mgr_sync_wait base x);
  mgr_members x := r ← on_multi (GetMultiXactIdMembers fuel menv x); mret (default [] r);
|}.

Definition mx_lock_mgr : lock_mgr (W * mx_state SO SM) := {|
  lk_did_abort x := on_base (did_abort x);
  lk_expand multi x st := on_multi (MultiXactIdExpand fuel menv multi x st);
  lk_create x1 st1 x2 st2 := on_multi (MultiXactIdCreate menv x1 st1 x2 st2);
  lk_set_oldest_member := on_multi (MultiXactIdSetOldestMember menv);
|}.

Lemma post_on_base {A} (m : M W A) s (Q : A → W * mx_state SO SM → Prop) :
  post m s.1 (λ a w, Q a (w, s.2)) → post (on_base m) s Q.
Proof. intros (a & w & Hr & HQ). exists a, (w, s.2). split; [|done]. unfold runs, on_base in *. by rewrite Hr. Qed.

Lemma post_on_multi {A} (m : M (mx_state SO SM) A) s (Q : A → W * mx_state SO SM → Prop) :
  post m s.2 (λ a x, Q a (s.1, x)) → post (on_multi m) s Q.
Proof. intros (a & x & Hr & HQ). exists a, (s.1, x). split; [|done]. unfold runs, on_multi in *. by rewrite Hr. Qed.

(** ** What the pair knows *)

Context `{!SlruSpec SO MULTIXACT_OFFSETS_PER_PAGE} `{!SlruSpec SM MULTIXACT_OFFSETS_PER_PAGE} `{K : !XactMgrSpec base}.
Implicit Types (s : W * mx_state SO SM) (T : truth) (x : mx_state SO SM) (A : mx_abs).

Definition with_members T (f : Z → list MultiXactMember) : truth := {| verdict_of := verdict_of T; members_of := f |}.

(** The base manager has the verdicts; of members it need not know. *)
Definition base_knows (w : W) T : Prop := ∃ f, knows w (with_members T f).

Definition in_log x (k : Z) : Prop := oldestMultiXactId (MultiXactState x) ≤ k < new_id x.

(** The logs are complete and have the members of [T], fewer than [lim] for each
    multixact; [R] holds of the counters. *)
Record multi_holds (R : Z → Z → Prop) (lim : Z) x T A : Prop := {
  mh_ok : mx_ok x A;
  mh_cache : mx_cache_ok x A;
  mh_set k : in_log x k → offset_set A k = true ∧ members_set A k = true;
  mh_length k : in_log x k → Z.of_nat (length (mmem A k)) < lim;
  mh_members k : in_log x k → members_of T k = mmem A k;
  mh_none k : ¬ in_log x k → members_of T k = [];
  mh_counters : R (nextMXact (MultiXactState x)) (nextOffset (MultiXactState x));
}.

(** What [MultiXactIdExpand] is told about transactions is true. *)
Definition env_agrees T : Prop :=
  ∀ y, T y ≠ V_unknown → mx_in_progress menv y = is_open (T y) ∧ mx_did_commit menv y = is_committed (T y).

Definition pair_knows (R : Z → Z → Prop) (lim : Z) s T : Prop :=
  base_knows s.1 T ∧ (∃ A, multi_holds R lim s.2 T A) ∧ env_agrees T.
Definition pair_snap_ok T sn : Prop := ∀ f, snap_ok (with_members T f) sn.

Lemma holds_made R lim x T A k : multi_holds R lim x T A → in_log x k → made x A k (members_of T k).
Proof. intros H Hk. destruct (mh_set _ _ _ _ _ H k Hk). split; [done|]. by rewrite (mh_members _ _ _ _ _ H). Qed.

Lemma holds_settled R lim x T A : multi_holds R lim x T A → settled x A.
Proof. intros H k Hk. by apply (mh_set _ _ _ _ _ H). Qed.

(** Reading keeps it. *)
Lemma holds_read R lim x T A x' A' :
  multi_holds R lim x T A → same_counters x x' → mx_after x A x' A' → multi_holds R lim x' T A'.
Proof.
  intros [H1 H2 H3 H4 H5 H6 H7] [E1 E2] (B1 & B2 & Bx & _ & Bo & _).
  assert (∀ k, in_log x' k ↔ in_log x k) as Hlog by (intros k; unfold in_log, new_id; by rewrite E1, Bo).
  split; try done; try (by rewrite E1, E2); intros k Hk; try apply Hlog in Hk.
  - destruct (Bx k) as (_ & _ & ? & ?); [apply Hk|]. destruct (H3 k Hk). auto.
  - destruct (Bx k) as (-> & _); [apply Hk|]. auto.
  - destruct (Bx k) as (-> & _); [apply Hk|]. auto.
  - apply H6. by rewrite <- Hlog.
Qed.

(** A multixact that is not in the logs. *)
Lemma get_members_none x A k :
  mx_ok x A → mx_cache_ok x A → ¬ in_log x k →
  post (GetMultiXactIdMembers fuel menv k) x (λ r x', r = None ∧ same_counters x x' ∧ mx_after x A x' A).
Proof.
  intros Hok Hc Hk. pose proof (inv_old _ _ _ _ _ _ Hok) as Hold.
  unfold GetMultiXactIdMembers, mXactCacheGetById. apply post_bind, post_bind, cache_search_post.
  intros r c Hr Hp. apply post_ret. destruct r as [e|]; cbn [fmap option_fmap option_map].
  { destruct Hr as [He Hec]. apply Z.eqb_eq in He. pose proof (cache_ok_perm _ _ _ (MXactCacheMembers x) Hp Hc) as Hc1.
    unfold mx_cache_ok in Hc1. rewrite Forall_forall in Hc1. destruct (Hc1 e Hec) as (Hr & _). exfalso. apply Hk. by rewrite <- He. }
  subst c. replace (MultiXact.with_cache _ _ x) with x by (by destruct x).
  apply post_bind, (oldest_visible_post _ _ A); [done|]. intros x1 Hl1 [Hid1 Hid1']. pose proof (later_cache _ _ _ _ Hc Hl1) as Ha.
  pose proof Hl1 as (_ & _ & _ & Hold1 & _).
  apply post_bind, post_acquire. apply post_bind, post_gets. apply post_bind. eapply post_release; [done|]. cbn.
  replace (with_locks (mlocks x1) _) with x1 by (by destruct x1).
  unfold MultiXactIdPrecedes. rewrite Hold1, Hid1. unfold in_log, new_id, next_id, FirstMultiXactId in *.
  destruct (Z.ltb_spec k (oldestMultiXactId (MultiXactState x))); [by apply post_ret|].
  rewrite (proj2 (Z.ltb_ge k _)) by lia. by apply post_ret.
Qed.

Lemma pair_members R lim s T k :
  lim ≤ 2 ^ 31 → pair_knows R lim s T →
  post (mgr_members mx_mgr k) s (λ r s', r = members_of T k ∧ pair_knows R lim s' T).
Proof.
  intros Hlim (Hb & [A H] & He). destruct s as [w x]. apply post_bind, post_on_multi. cbn [fst snd] in *.
  assert (Decision (in_log x k)) as [Hk|Hk] by (unfold in_log; apply _).
  - eapply post_mono; [eapply (get_members_post _ _ _ A k (members_of T k)); [apply H|apply H|by eapply holds_made| |]|].
    + rewrite (mh_members _ _ _ _ _ H k Hk). pose proof (mh_length _ _ _ _ _ H k Hk). lia.
    + intros Hn. apply (mh_set _ _ _ _ _ H). unfold in_log in *. lia.
    + intros r x' (-> & Hsc & A' & Ha). apply post_ret. split; [done|]. split_and!; [done| |done]. exists A'. by eapply holds_read.
  - eapply post_mono; [eapply (get_members_none _ A); [apply H|apply H|done]|].
    intros r x' (-> & Hsc & Ha). apply post_ret. rewrite (mh_none _ _ _ _ _ H k Hk). split; [done|].
    split_and!; [done| |done]. exists A. by eapply holds_read.
Qed.
(** A question to the base manager. *)
Lemma base_post {B} (m : M W B) R lim s T (Q : B → W * mx_state SO SM → Prop) :
  pair_knows R lim s T →
  (∀ f, knows s.1 (with_members T f) →
     post m s.1 (λ a w, (∃ g, knows w (with_members T g)) ∧ (pair_knows R lim (w, s.2) T → Q a (w, s.2)))) →
  post (on_base m) s Q.
Proof.
  intros ([f Hf] & Hm & He) HQ. apply post_on_base. eapply post_mono; [by apply (HQ f)|].
  intros a w [Hg Ha]. apply Ha. by split_and!.
Qed.

#[local] Program Instance pair_spec (R : Z → Z → Prop) (lim : Z) (Hlim : lim ≤ 2 ^ 31) : XactMgrSpec mx_mgr := {|
  knows := pair_knows R lim;
  snap_ok := pair_snap_ok;
|}.
Next Obligation. intros R lim _ s T ([f Hf] & _). by apply law_invalid in Hf. Qed.
Next Obligation. intros R lim _ s T x ([f Hf] & _) Hu. by apply (law_current _ _ x Hf). Qed.
Next Obligation.
  intros R lim _ s T x Hk Hu. eapply base_post; [exact Hk|]. intros f Hf.
  eapply post_mono; [by apply (law_in_progress _ _ x Hf)|]. intros r w [-> Hw]. split; [by exists f|done].
Qed.
Next Obligation.
  intros R lim _ s T x Hk Hu. eapply base_post; [exact Hk|]. intros f Hf.
  eapply post_mono; [by apply (law_in_progress_sync _ _ x Hf)|]. intros r w [-> Hw]. split; [by exists f|done].
Qed.
Next Obligation.
  intros R lim _ s T x Hk Hu. eapply base_post; [exact Hk|]. intros f Hf.
  eapply post_mono; [by apply (law_did_commit _ _ x Hf)|]. intros r w [-> Hw]. split; [by exists f|done].
Qed.
Next Obligation.
  intros R lim _ s T x Hk Hu. eapply base_post; [exact Hk|]. intros f Hf.
  eapply post_mono; [by apply (law_did_abort _ _ x Hf)|]. intros r w [-> Hw]. split; [by exists f|done].
Qed.
Next Obligation.
  intros R lim _ s T x Hk Hu. eapply base_post; [exact Hk|]. intros f Hf.
  eapply post_mono; [by apply (law_get_status _ _ x Hf)|]. intros r w [Hw Hr]. split; [by exists f|done].
Qed.
Next Obligation.
  intros R lim _ s T x Hk Hu. eapply base_post; [exact Hk|]. intros f Hf.
  eapply post_mono; [by apply (law_commit_lsn _ _ x Hf)|]. intros r w Hw. split; [by exists f|done].
Qed.
Next Obligation.
  intros R lim _ s T x sn Hk Hu Hsn. eapply base_post; [exact Hk|]. intros f Hf.
  eapply post_mono; [by apply (law_xid_visible _ _ x sn Hf)|]. intros r w (Hw & Hv & Hsy & Hh & Ha). split; [by exists f|].
  intros Hp. split_and!; try done. intros Hab Hx. eapply base_post; [exact Hp|]. intros f' Hf'. cbn [fst snd].
  eapply post_mono; [by apply Ha|]. intros b w2 [-> Hw2]. split; [by exists f|done].
Qed.
Next Obligation.
  intros R lim _ s T x sn Hk Hu Hsn. eapply base_post; [exact Hk|]. intros f Hf.
  eapply post_mono; [by apply (law_committed_visible _ _ x sn Hf)|]. intros r w [-> Hw]. split; [by exists f|done].
Qed.
Next Obligation. intros R lim _ T sn Hsn. apply (law_snap_frozen _ _ (Hsn (members_of T))). Qed.
Next Obligation. intros R lim Hlim s T x Hk. by apply pair_members. Qed.

(** ** Making multixacts *)

(** The counters are far from wrapping around. *)
Definition far_from_end (next off : Z) : Prop :=
  next_id next + 1 < 2 ^ 64 ∧ off + 2 ^ 31 + 1 + MULTIXACT_OFFSETS_PER_PAGE < 2 ^ 64.

Definition limit_all : 2 ^ 31 ≤ 2 ^ 31 := Z.le_refl _.
Definition limit_new : 2 ^ 31 - 1 ≤ 2 ^ 31 := ltac:(lia).
Definition any_counters (next off : Z) : Prop := True.

Lemma holds_mono x T A : multi_holds far_from_end (2 ^ 31 - 1) x T A → multi_holds any_counters (2 ^ 31) x T A.
Proof. intros [H1 H2 H3 H4 H5 H6 H7]. split; try done. intros k Hk. specialize (H4 k Hk). lia. Qed.

(** The members after a multixact was made. *)
Definition grown_truth T A x : truth :=
  with_members T (λ k, if decide (oldestMultiXactId (MultiXactState x) ≤ k < new_id x) then mmem A k else []).

Lemma holds_grown R R' lim lim' x T A x' A' multi ms :
  multi_holds R lim x T A → mx_after x A x' A' → made x' A' multi ms → settled x' A' →
  (∀ k, new_id x ≤ k < new_id x' → k = multi) → lim ≤ lim' → Z.of_nat (length ms) < lim' →
  R' (nextMXact (MultiXactState x')) (nextOffset (MultiXactState x')) →
  multi_holds R' lim' x' (grown_truth T A' x') A' ∧ grows T (grown_truth T A' x') ∧
  members_of (grown_truth T A' x') multi = ms ∧ multi ≠ InvalidMultiXactId.
Proof.
  intros H (B1 & B2 & Bx & Bn & Bo & _) Hmade Hset Hone Hlim Hlen HR. pose proof Hmade as (Hin & Hmem & Ho & Hs).
  assert (∀ k, in_log x' k → k = multi ∨ in_log x k) as Hcase.
  { intros k Hk. unfold in_log in *. destruct (decide (k < new_id x)); [right; lia|left; apply Hone; lia]. }
  split_and!.
  - split; try done; intros k Hk.
    + destruct (Hcase k Hk) as [-> |Hk']; [done|]. destruct (Bx k) as (_ & _ & ? & ?); [apply Hk'|].
      destruct (mh_set _ _ _ _ _ H k Hk'). auto.
    + destruct (Hcase k Hk) as [-> |Hk']; [by rewrite Hmem|]. destruct (Bx k) as (-> & _); [apply Hk'|].
      pose proof (mh_length _ _ _ _ _ H k Hk'). lia.
    + cbn. by rewrite decide_True.
    + cbn. by rewrite decide_False.
  - split; [done|]. intros k Hk. assert (Decision (in_log x k)) as [Hk'|Hk'] by (unfold in_log; apply _).
    + cbn. unfold in_log in Hk'. rewrite decide_True by lia. rewrite (mh_members _ _ _ _ _ H) by done. apply Bx. lia.
    + by rewrite (mh_none _ _ _ _ _ H k Hk') in Hk.
  - cbn. by rewrite decide_True.
  - pose proof (inv_old _ _ _ _ _ _ B1). unfold InvalidMultiXactId. lia.
Qed.

Hypothesis not_standby : mx_SS_STANDBY_MODE menv = false.
Hypothesis enhanced : before_enhanced_tuple_lock menv = false.
Hypothesis base_did_abort : ∀ (w : W) T (y : Z), knows w T → T y ≠ V_unknown → y ≠ InvalidTransactionId →
  post (did_abort y) w (λ r w', r = bool_decide (T y = V_aborted) ∧ knows w' T).

Lemma far_room x n : far_from_end (nextMXact (MultiXactState x)) (nextOffset (MultiXactState x)) → n ≤ 2 ^ 31 → mx_room x n.
Proof. intros [H1 H2] Hn. split; [done|lia]. Qed.

(** Adding to a multixact keeps the members that matter. *)
Lemma interest_matters T (ms : list MultiXactMember) :
  env_agrees T → (∀ m, m ∈ ms → T (mx_xid m) ≠ V_unknown) →
  filter (λ m, of_interest menv m = true) ms = filter (λ m, matters T m = true) ms.
Proof.
  intros He. induction ms as [|m ms IH]; intros Hk; [done|]. rewrite !filter_cons, IH by (intros; apply Hk; by right).
  destruct (He (mx_xid m)) as [E1 E2]; [apply Hk; by left|].
  enough (of_interest menv m = matters T m) as -> by done. unfold of_interest, matters. by rewrite E1, E2.
Qed.

#[local] Program Instance pair_lock_spec : @LockMgrSpec _ mx_mgr mx_lock_mgr (pair_spec any_counters _ limit_all) := {|
  lk_ready := pair_spec far_from_end _ limit_new;
|}.
Next Obligation. intros s T (Hb & [A H] & He). split_and!; [done| |done]. exists A. by apply holds_mono. Qed.
Next Obligation.
  intros s T x Hk Hu Hx. eapply base_post; [exact Hk|]. intros f Hf.
  eapply post_mono; [by apply (base_did_abort _ _ x Hf)|]. intros r w [-> Hw]. split; [by exists f|done].
Qed.
Next Obligation.
  intros [w x] T (Hb & [A H] & He). apply post_on_multi. cbn [fst snd] in *. apply (oldest_member_post _ _ A); [apply H|].
  intros x' Hl Hc. split_and!; [done| |done]. exists A. eapply holds_read; [done..|]. by apply (later_cache _ _ _ _ (mh_cache _ _ _ _ _ H)).
Qed.
Next Obligation.
  intros [w x] T x1 st1 x2 st2 ms ([f Hf] & [A H] & He) Hin. apply post_on_multi. cbn [fst snd] in *.
  eapply post_mono; [apply (create_post_one _ ms x A); try done; [apply H|apply H|by apply far_room; [apply H|]]|].
  intros multi x' (A' & Ha & Hm & Hs & Hone). pose proof (Hs (holds_settled _ _ _ _ _ H)) as Hs'.
  destruct (holds_grown _ any_counters _ _ _ _ _ _ _ _ _ H Ha Hm Hs' Hone limit_new) as (H1 & H2 & H3 & H4);
    [by rewrite sort_members_perm|done|].
  exists (grown_truth T A' x'). split_and!; [split_and!; [by exists f|by exists A'|done]|done|done|].
  rewrite H3. apply sort_members_perm.
Qed.
Next Obligation.
  intros [w x] T multi y st new ms ([f Hf] & [A H] & He) Hne Hin Hkn Hin'. apply post_on_multi. cbn [fst snd] in *.
  assert (in_log x multi) as Hlog.
  { assert (Decision (in_log x multi)) as [?|Hk] by (unfold in_log; apply _); [done|]. by destruct Hne; apply (mh_none _ _ _ _ _ H). }
  pose proof (holds_made _ _ _ _ _ _ H Hlog) as Hmade. pose proof (mh_length _ _ _ _ _ H _ Hlog) as Hlen.
  rewrite <- (mh_members _ _ _ _ _ H _ Hlog) in Hlen. fold ms in Hmade, Hlen.
  pose proof (interest_matters T ms He Hkn) as Hf'.
  eapply post_mono; [apply (expand_post _ _ x A multi ms y st); try done; [apply H|apply H|by eapply holds_settled|lia|..]|].
  - destruct Hin' as (_ & Hv & _). rewrite Forall_app, Forall_singleton in Hv. apply Hv.
  - rewrite Hf'. apply Hin'.
  - apply far_room; [apply H|lia].
  - intros multi' x' (A' & Ha & Hm & Hs & Hone). fold new in Hm.
    destruct (expanded_spec menv ms new) as (E1 & E2 & E3 & E4).
    destruct (holds_grown _ any_counters _ _ _ _ _ _ _ _ _ H Ha Hm Hs Hone limit_new) as (H1 & H2 & H3 & H4); [lia|done|].
    exists (grown_truth T A' x'). rewrite !H3. split_and!; try done; [split_and!; [by exists f|by exists A'|done]| |].
    + unfold expanded. destruct (existsb _ ms); [done|]. rewrite Hf'. destruct Hin' as (I1 & I2 & I3).
      destruct (input_sorted (filter (λ m, matters T m = true) ms ++ [new])) as [(J1 & J2 & _) J3]; done.
    + intros m Hm' Hma. apply E2; [done|]. destruct (He (mx_xid m)) as [F1 F2]; [by apply Hkn|].
      unfold of_interest. unfold matters in Hma. by rewrite F1, F2.
Qed.
End Pair.

(** ** The heap over the three logs *)

Section Logs.
Context {S1 S2 SO SM : Type} `{!SlruOps S1} `{!SlruOps S2} `{!SlruOps SO} `{!SlruOps SM}.
Context `{!SlruSpec S1 BLCKSZ} `{!SlruSpec S2 CSNLOG_XACTS_PER_PAGE}
        `{!SlruSpec SO MULTIXACT_OFFSETS_PER_PAGE} `{!SlruSpec SM MULTIXACT_OFFSETS_PER_PAGE}.
Context (fuel mfuel : nat) (env : vis_env S1 S2) (is_cur running : Z → bool) (menv : mx_env SO SM).
Hypothesis fuel_pos : (0 < fuel)%nat.
Hypothesis node_ok : csn_node_ok env.
Hypothesis startup_ok : 0 ≤ startupMaxXid env.
Hypothesis primary : SS_STANDBY_MODE (e_csn env) = false.
Hypothesis proc_array : ∀ x w, runs (TransactionIdIsInProgress env x) w (running x) w.
Hypothesis mx_primary : mx_SS_STANDBY_MODE menv = false.
Hypothesis mx_enhanced : before_enhanced_tuple_lock menv = false.

Definition no_members (x : Z) : list MultiXactMember := [].
Definition heap_logs : xact_mgr (xact_state S1 S2 * mx_state SO SM) :=
  mx_mgr (log_mgr fuel env is_cur no_members) mfuel menv.
Definition heap_log_locks : lock_mgr (xact_state S1 S2 * mx_state SO SM) :=
  mx_lock_mgr (TransactionIdDidAbort fuel env) mfuel menv.

#[local] Instance logs_base : XactMgrSpec (log_mgr fuel env is_cur no_members) :=
  log_mgr_spec fuel env is_cur running no_members fuel_pos node_ok startup_ok primary proc_array.
#[local] Instance logs_spec : XactMgrSpec heap_logs := pair_spec _ mfuel menv any_counters _ limit_all.
#[local] Instance logs_lock_spec : LockMgrSpec heap_logs heap_log_locks.
Proof using All.
  apply pair_lock_spec; [done|done|]. intros w T y. by apply xid_did_abort_knows.
Defined.

(** What the three logs know, and when the multixact logs have room. *)
Definition logs_know (s : xact_state S1 S2 * mx_state SO SM) (T : truth) : Prop :=
  log_knows env is_cur running no_members s.1 (with_members T no_members) ∧
  (∃ A, multi_holds any_counters (2 ^ 31) s.2 T A) ∧ env_agrees menv T.

Lemma logs_know_pair s T : logs_know s T → knows s T.
Proof. intros (H1 & H2 & H3). split_and!; [by exists no_members|done|done]. Qed.

Lemma logs_snap_ok T sn : log_snap_ok T sn → snap_ok T sn.
Proof. intros H f. exact H. Qed.

(** C7: Visibility, from the logs up: over the code that reads the commit log, the CSN log
    (with their caches) and the multixact logs, [HeapTupleSatisfiesMVCC] decides by the
    CSN words of the inserter and the deleter, whether xmax names the deleter or a
    multixact that has it as a member: a tuple inserted by a transaction that committed
    with [c], and deleted by one that committed with [d], is visible iff [c] is before the
    snapshot and [d] is not. *)
Theorem mvcc_on_logs (henv : heap_env (xact_state S1 S2 * mx_state SO SM)) n s T sn c d :
  logs_know (world s) T → log_snap_ok T sn → h_GTM_LITE_MODE henv = false →
  XactReadOnly henv && enable_show_any_tuples henv = false →
  tuple_ok T (page s) (header s) → is_Some (cids (h_combo henv) (combo s) (header s)) →
  bit (header s) HEAP_COMBOCID = false →
  inserter T (page s) (header s) = V_committed c → deleter T (page s) (header s) = Some (V_committed d) →
  post (HeapTupleSatisfiesMVCC heap_logs henv n sn) s
    (λ r s', r = (c <? snapshotcsn sn) && negb (d <? snapshotcsn sn) ∧ tuple_ok T (page s') (header s')).
Proof using All.
  intros Hk Hsn Hl Hro Hok [[cmin cmax] Hc] Hcb Hi Hd. eapply post_mono.
  - apply (mvcc_post heap_logs henv T n s sn cmin cmax); [by apply logs_know_pair| |done| |].
    + split_and!; try done. by apply logs_snap_ok.
    + split; [done|by rewrite Hcb].
    + intros _ _. by rewrite Hd.
  - intros r s' [-> He]. rewrite Hi, Hd. split; [done|by eapply evolves_ok].
Qed.
End Logs.

(** ** A concrete heap

    The transactions of [HeapManager.v]: 3 has committed, 4 is running, 5 has aborted, 6
    is our own. Multixact 1 has 3, with a given status, and 4, which locks the key for
    sharing. *)

Section Demo.
Implicit Types (st : MultiXactStatus).

Definition demo_menv : mx_env mx_store mx_store := {|
  mx_bank_mask := 15; MyBackendId := 2; mx_SS_STANDBY_MODE := false; before_enhanced_tuple_lock := false;
  mx_is_current := Z.eqb 6; mx_in_progress := heap_running;
  mx_did_commit := λ x, (x =? 1) || (x =? 2) || (x =? 3); others_meanwhile := id |}.

Definition two st : list MultiXactMember :=
  [{| mx_xid := 3; mx_status := st |}; {| mx_xid := 4; mx_status := MultiXactStatusForKeyShare |}].
Definition two_state st : mx_state mx_store mx_store :=
  (MultiXactIdCreate demo_menv 3 st 4 MultiXactStatusForKeyShare mx_start).2.
Definition two_truth st : truth := with_members heap_truth (λ k, if k =? 1 then two st else []).
Definition log_world st := (heap_world, two_state st).

Definition demo_logs := heap_logs 1 0 heap_vis_env (Z.eqb 6) demo_menv.
Definition demo_locks := heap_log_locks 1 0 heap_vis_env demo_menv.

#[local] Instance demo_logs_spec : XactMgrSpec demo_logs.
Proof. by apply (logs_spec 1 0 heap_vis_env (Z.eqb 6) heap_running demo_menv); [lia|..]. Defined.
#[local] Instance demo_lock_spec : LockMgrSpec demo_logs demo_locks.
Proof. by apply (logs_lock_spec 1 0 heap_vis_env (Z.eqb 6) heap_running demo_menv). Defined.

Lemma two_input st : input_ok (two st).
Proof. split_and!; [done| |destruct st; vm_compute; lia]. repeat (constructor; [by split|]). by constructor. Qed.

Lemma start_holds R lim : R 1 0 → multi_holds R lim mx_start (with_members heap_truth no_members) mx_demo_abs.
Proof.
  intros HR. split; [apply mx_start_ok|by constructor|..]; try done; intros k Hk;
    unfold in_log, new_id, next_id, FirstMultiXactId in Hk; cbn in Hk; lia.
Qed.

Lemma two_counters st :
  oldestMultiXactId (MultiXactState (two_state st)) = 1 ∧ nextMXact (MultiXactState (two_state st)) = 2 ∧
  nextOffset (MultiXactState (two_state st)) = 3.
Proof. destruct st; by vm_compute. Qed.

Lemma two_holds st : ∃ A, multi_holds far_from_end (2 ^ 31 - 1) (two_state st) (two_truth st) A.
Proof.
  destruct (create_post_one demo_menv (two st) mx_start mx_demo_abs) as (multi & x & Hr & A & Ha & Hm & Hs & Hone);
    [done|done|apply mx_start_ok|by constructor|apply two_input|by vm_compute|].
  assert (x = two_state st) as -> by (unfold two_state, MultiXactIdCreate; fold (two st); by rewrite Hr). unfold runs in Hr.
  assert (multi = 1) as -> by (apply (f_equal fst) in Hr; destruct st; vm_compute in Hr; congruence).
  assert (∀ k, in_log (two_state st) k ↔ k = 1) as Hlog.
  { intros k. destruct (two_counters st) as (E1 & E2 & _). unfold in_log, new_id, next_id, FirstMultiXactId. rewrite E1, E2. lia. }
  destruct (holds_grown any_counters far_from_end 2 (2 ^ 31 - 1) mx_start (with_members heap_truth no_members) mx_demo_abs
    (two_state st) A 1 (sort_members (two st))) as ([H1 H2 H3 H4 H5 H6 H7] & _ & Hmem & _); try done.
  { by apply start_holds. } { apply Hs. intros k Hk. unfold new_id, next_id, FirstMultiXactId in Hk. cbn in Hk. lia. }
  { destruct (two_counters st) as (_ & -> & ->). by vm_compute. }
  exists A. split; try done.
  - intros k ->%Hlog. rewrite <- H5, Hmem by by apply Hlog. by destruct st.
  - intros k Hk. cbn. destruct (Z.eqb_spec k 1) as [-> |]; [|done]. by destruct Hk; apply Hlog.
Qed.

Lemma two_agrees st : env_agrees demo_menv (two_truth st).
Proof.
  intros y. cbn. unfold heap_running.
  destruct (Z.eqb_spec y 1) as [->|]; [done|]. destruct (Z.eqb_spec y 2) as [->|]; [done|]. cbn [orb].
  repeat (case_bool; [bool_to_prop; subst; done|]). done.
Qed.

Lemma two_base st : log_knows heap_vis_env (Z.eqb 6) heap_running no_members heap_world (with_members (two_truth st) no_members).
Proof. apply heap_knows. Qed.

Lemma two_ready st : @knows _ _ (lk_ready (lk := demo_locks)) (log_world st) (two_truth st).
Proof. split_and!; [exists no_members; apply two_base|apply two_holds|apply two_agrees]. Qed.

Lemma two_knows st : knows (mgr := demo_logs) (log_world st) (two_truth st).
Proof. apply law_ready, two_ready. Qed.

Definition demo_heap_env : heap_env (xact_state (page_store BLCKSZ) (page_store CSNLOG_XACTS_PER_PAGE) * mx_state mx_store mx_store) := {|
  h_combo := combo_demo_env; h_useLocalSnapshot := false; h_RecoveryInProgress := false;
  h_IsRoachStandbyCluster := false; XACT_READ_UNCOMMITTED := false; enable_cluster_resize := false;
  h_SS_STANDBY_MODE := false; h_GTM_LITE_MODE := false; h_xc_maintenance_mode := false;
  XactReadOnly := false; enable_show_any_tuples := false; IsInitdb := false;
  IsolationUsesXactSnapshot := false; GetCurrentCommandId := 9; BufferIsPermanent := true;
  BufferGetLSNAtomic := 0; XLogNeedsFlush := λ _, false; ResolveCminCmaxDuringDecoding := λ _, None;
  others := λ _ h, h |}.

(** Inserted by 3, with the given xmax and its flags. *)
Definition log_tuple st (xmax mask mask2 : Z)
  : vstate (xact_state (page_store BLCKSZ) (page_store CSNLOG_XACTS_PER_PAGE) * mx_state mx_store mx_store) := {|
  world := log_world st; combo := combo_demo; page := demo_page;
  htup := {| t_self := (0, 1); t_xid_base := 0; t_multi_base := 0;
             t_data := {| t_xmin := 3; t_xmax := xmax; t_cid := 2; t_ctid := (0, 1);
                          t_infomask2 := mask2; t_infomask := mask |} |};
  buf_dirty := false; dirty_xmin := 0; dirty_xmax := 0; cur_write := None |}.
Definition multi_tuple st := log_tuple st 1 (hint_bits (two st)).1 (hint_bits (two st)).2.

Ltac each_member :=
  let m := fresh in let Hm := fresh in
  intros m Hm; repeat (apply elem_of_cons in Hm as [-> |Hm]; [done|]); by apply elem_of_nil in Hm.

Ltac multi_ok :=
  split; first [by vm_compute | by vm_compute; left | intros _; match goal with |- if ?b then _ else _ => change b with true end; each_member].

(** Multixact 1 with 3 as a locker whose transaction has committed, and as the updater. *)
Lemma locked_tuple : tuple_ok (two_truth MultiXactStatusForUpdate) demo_page (header (multi_tuple MultiXactStatusForUpdate)).
Proof. multi_ok. Qed.

Lemma updated_tuple : tuple_ok (two_truth MultiXactStatusNoKeyUpdate) demo_page (header (multi_tuple MultiXactStatusNoKeyUpdate)).
Proof. multi_ok. Qed.

Lemma locked_xmax : xmax_ok (two_truth MultiXactStatusForUpdate) (hint_bits (two MultiXactStatusForUpdate)).1
  (hint_bits (two MultiXactStatusForUpdate)).2 1.
Proof.
  split.
  - intros _ H. by vm_compute in H.
  - intros _ _. change (members_of _ 1) with (two MultiXactStatusForUpdate).
    split_and!; [each_member|apply two_input|apply two_input].
  - by vm_compute.
  - intros _ H. by vm_compute in H.
Qed.

Lemma two_session st n : 50 < n → mvcc_session demo_logs demo_heap_env (two_truth st) (demo_snapshot 4 n).
Proof. intros Hn. split_and!; try done. intros f. by apply (heap_session n Hn). Qed.

Lemma two_cids st xmax mask mask2 :
  flag mask HEAP_COMBOCID = false → cids_ok demo_heap_env (log_tuple st xmax mask mask2) 2 2.
Proof. intros Hm. split; [unfold cids; cbn; by rewrite Hm|]. unfold bit. cbn. by rewrite Hm. Qed.

Lemma multi_cids st : cids_ok demo_heap_env (multi_tuple st) 2 2.
Proof. unfold multi_tuple. apply two_cids. by destruct st. Qed.

Lemma mvcc_on_logs_witness :
  ∃ s', runs (HeapTupleSatisfiesMVCC demo_logs demo_heap_env 0 (demo_snapshot 4 60)) (multi_tuple MultiXactStatusNoKeyUpdate) false s'.
Proof.
  destruct (mvcc_on_logs 1 0 heap_vis_env (Z.eqb 6) heap_running demo_menv ltac:(lia) ltac:(done) ltac:(done)
    ltac:(done) ltac:(done) ltac:(done) ltac:(done) demo_heap_env 0 (multi_tuple MultiXactStatusNoKeyUpdate)
    (two_truth MultiXactStatusNoKeyUpdate) (demo_snapshot 4 60) 50 50)
    as (r & s' & Hr & -> & _).
  - destruct (two_holds MultiXactStatusNoKeyUpdate) as [A HA]. split_and!; [apply two_base|exists A; by apply holds_mono|apply two_agrees].
  - by apply heap_session.
  - done.
  - done.
  - apply updated_tuple.
  - by eexists.
  - done.
  - done.
  - done.
  - exists s'. exact Hr.
Defined.

(** What 6 stores when it locks: multixact 2. *)
Lemma lock_computes x b b2 s0 s1 :
  runs (on_world (lk_set_oldest_member demo_locks)) (multi_tuple MultiXactStatusForUpdate) tt s0 →
  runs (ComputeNewXmaxInfomask demo_logs demo_locks 1 (hint_bits (two MultiXactStatusForUpdate)).1
          (hint_bits (two MultiXactStatusForUpdate)).2 6 LockTupleShared false) s0 (x, b, b2) s1 →
  x = 2 ∧ flag b HEAP_XMAX_IS_MULTI = true.
Proof.
  intros H0 Hr. apply (f_equal snd) in H0. cbn [snd] in H0. subst s0. apply (f_equal fst) in Hr. vm_compute in Hr. injection Hr as <- <- <-. done.
Qed.

Lemma lock_keeps_visibility_witness :
  post (lock_tuple_store demo_logs demo_locks 6 LockTupleShared) (multi_tuple MultiXactStatusForUpdate) (λ _ s', ∃ s1 s2,
    runs (HeapTupleSatisfiesMVCC demo_logs demo_heap_env 0 (demo_snapshot 4 60)) (multi_tuple MultiXactStatusForUpdate) true s1 ∧
    runs (HeapTupleSatisfiesMVCC demo_logs demo_heap_env 0 (demo_snapshot 4 60)) s' true s2).
Proof.
  eapply post_mono; [apply (lock_keeps_visibility demo_logs demo_locks demo_heap_env (multi_tuple MultiXactStatusForUpdate)
    (two_truth MultiXactStatusForUpdate) 6 LockTupleShared)|].
  - apply two_ready.
  - apply locked_tuple.
  - done.
  - apply locked_xmax.
  - done.
  - done.
  - done.
  - intros x b b2 s0 s1 H0 Hr. destruct (lock_computes x b b2 s0 s1 H0 Hr) as [-> ->]. split_and!; [done|done|]. right. by left.
  - intros _ s' (T' & Hk & Hg & Hok & Hi & Hd & Hv).
    destruct (Hv 0%nat (demo_snapshot 4 60) 2 2) as (r & s1 & s2 & Hr1 & Hr2).
    + by apply two_session.
    + destruct (two_session MultiXactStatusForUpdate 60 eq_refl) as (Hs & ? & ?). split_and!; try done.
      intros f. destruct (Hs f) as (? & ? & H3 & H4).
      split_and!; [done|done| |]; cbn; intros y; rewrite (proj1 Hg); [apply H3|apply H4].
    + apply multi_cids.
    + done.
    + destruct (mvcc_post demo_logs demo_heap_env (two_truth MultiXactStatusForUpdate) 0 (multi_tuple MultiXactStatusForUpdate)
        (demo_snapshot 4 60) 2 2) as (r' & s3 & Hr3 & -> & _);
        [apply two_knows|by apply two_session|apply locked_tuple|apply multi_cids|done|].
      assert (r = true) as -> by (unfold runs in *; rewrite Hr1 in Hr3; by injection Hr3 as -> _).
      by exists s1, s2.
Defined.

Lemma update_names_deleter_witness :
  post (ComputeNewXmaxInfomask demo_logs demo_locks 1 (hint_bits (two MultiXactStatusForUpdate)).1
          (hint_bits (two MultiXactStatusForUpdate)).2 6 LockTupleExclusive true) (multi_tuple MultiXactStatusForUpdate)
    (λ r s', ∃ T', knows (mgr := demo_logs) (world s') T' ∧ xmax_deleter T' r.1.2 r.2 r.1.1 = Some V_mine).
Proof.
  eapply post_mono; [apply (update_names_deleter demo_logs demo_locks (multi_tuple MultiXactStatusForUpdate)
    (two_truth MultiXactStatusForUpdate) 1 (hint_bits (two MultiXactStatusForUpdate)).1
    (hint_bits (two MultiXactStatusForUpdate)).2 6 LockTupleExclusive)|].
  - apply two_ready.
  - apply locked_xmax.
  - done.
  - done.
  - by right.
  - done.
  - intros [[x b] b2] s' (T' & Hk & _ & Hd & _). by exists T'.
Defined.

Lemma conflict_branches_swapped_witness :
  post (DoesMultiXactIdConflict demo_logs demo_locks 1 LockTupleShared) (multi_tuple MultiXactStatusForUpdate) (λ r _, r = true) ∧
  post (DoesMultiXactIdConflict demo_logs demo_locks 1 LockTupleExclusive) (multi_tuple MultiXactStatusUpdate)
    (λ r _, r = existsb (member_conflicts (two_truth MultiXactStatusUpdate) LockTupleExclusive) (two MultiXactStatusUpdate)).
Proof.
  split.
  - eapply post_mono; [apply (conflict_branches_swapped demo_logs demo_locks (multi_tuple MultiXactStatusForUpdate)
      (two_truth MultiXactStatusForUpdate) 1 LockTupleShared)|].
    + apply two_knows.
    + each_member.
    + intros r s' (_ & -> & _). done.
  - eapply post_mono; [apply (conflict_branches_swapped demo_logs demo_locks (multi_tuple MultiXactStatusUpdate)
      (two_truth MultiXactStatusUpdate) 1 LockTupleExclusive)|].
    + apply two_knows.
    + each_member.
    + intros r s' (_ & -> & _). done.
Defined.

Lemma lockmode_conflict_spec_witness :
  post (test_lockmode_for_conflict demo_logs demo_locks MultiXactStatusNoKeyUpdate 4 LockTupleShared)
    (multi_tuple MultiXactStatusForUpdate) (λ r _, r = (TM_Ok, true)).
Proof.
  eapply post_mono; [apply (lockmode_conflict_spec demo_logs demo_locks (multi_tuple MultiXactStatusForUpdate)
    (two_truth MultiXactStatusForUpdate) MultiXactStatusNoKeyUpdate 4 LockTupleShared)|].
  - apply two_knows.
  - done.
  - done.
  - intros r s' [_ ->]. done.
Defined.

(** Freezing what is before transaction 4 and multixact 5: the inserter, and an xmax whose
    transaction has aborted. *)
Lemma demo_cutoffs st : cutoffs_ok (two_truth st) 4.
Proof.
  split; [..|done]; intros x; cbn.
  - intros Hx. rewrite (proj2 (Z.eqb_neq x 4)), (proj2 (Z.eqb_neq x 6)) by lia. by repeat case_match.
  - intros Hn%Z.leb_le Hx. unfold FirstNormalTransactionId in Hn. by assert (x = 3) as -> by lia.
Qed.

Lemma demo_freezable st : freezable (two_truth st) 4 demo_page (header (log_tuple st 0 HEAP_XMAX_INVALID 0)).
Proof. split; by vm_compute. Qed.

Lemma demo_unlocked st : tuple_ok (two_truth st) demo_page (header (log_tuple st 0 HEAP_XMAX_INVALID 0)).
Proof. split; first [by vm_compute | by vm_compute; left]. Qed.

Lemma freeze_keeps_visibility_witness :
  post (heap_freeze_tuple demo_logs demo_heap_env 4 5) (log_tuple MultiXactStatusForUpdate 0 HEAP_XMAX_INVALID 0) (λ _ s', ∃ r s1 s2,
    runs (HeapTupleSatisfiesMVCC demo_logs demo_heap_env 0 (demo_snapshot 4 60)) (log_tuple MultiXactStatusForUpdate 0 HEAP_XMAX_INVALID 0) r s1 ∧
    runs (HeapTupleSatisfiesMVCC demo_logs demo_heap_env 0 (demo_snapshot 4 60)) s' r s2).
Proof.
  eapply post_mono; [apply (freeze_keeps_visibility demo_logs demo_heap_env (two_truth MultiXactStatusForUpdate) 4 5
    (log_tuple MultiXactStatusForUpdate 0 HEAP_XMAX_INVALID 0))|].
  - apply demo_cutoffs.
  - apply two_knows.
  - apply demo_unlocked.
  - done.
  - done.
  - apply demo_freezable.
  - intros _ s' (_ & _ & _ & Hv). apply (Hv 0%nat (demo_snapshot 4 60) 2 2).
    + by apply two_session.
    + by apply two_cids.
    + intros x c Hx Hc. destruct (two_session MultiXactStatusForUpdate 60 eq_refl) as (Hs & _).
      destruct (Hs no_members) as (_ & _ & H3 & _). by apply (H3 x c).
    + done.
Defined.

Lemma freeze_completes_witness :
  post (heap_freeze_tuple demo_logs demo_heap_env 4 5) (log_tuple MultiXactStatusForUpdate 0 HEAP_XMAX_INVALID 0) (λ _ s',
    bit (header s') HEAP_XMAX_IS_MULTI = false → heap_tuple_needs_freeze (htup s') 4 5 = false).
Proof.
  eapply post_mono; [apply (freeze_completes demo_logs demo_heap_env (two_truth MultiXactStatusForUpdate) 4 5
    (log_tuple MultiXactStatusForUpdate 0 HEAP_XMAX_INVALID 0))|].
  - apply demo_cutoffs.
  - apply two_knows.
  - apply demo_unlocked.
  - done.
  - done.
  - apply demo_freezable.
  - intros r s' Hc Hm. apply Hc. by rewrite Hm.
Defined.
End Demo.
