(* ===== verification/XLogPos.v ===== *)
(** * Positions in the write-ahead log

    The log is a sequence of pages of [XLOG_BLCKSZ] bytes, each with a header (a longer one
    at the start of each segment file). A position is an [XLogRecPtr], which counts all
    bytes, or a "usable byte position", which leaves the headers out: space is reserved by
    adding to the latter ([src/gausskernel/storage/access/transam/xlog.cpp]).

    The segment size is set when the server starts (16 MB, or 1 GB on shared storage); the
    class [WalGeometry] has it, with the number of pages buffered in shared memory.

    The lemmas relate both kinds of positions through page numbers: [page_first g] is the
    first usable byte of page [g]. *)

From S2P Require Import Prelude FsmPage.

Definition XLOG_BLCKSZ : Z := 8192.

(** [XLogPageHeaderData] and [XLogLongPageHeaderData]. *)
Definition SizeOfXLogShortPHD : Z := MAXALIGN 24.
Definition SizeOfXLogLongPHD : Z := MAXALIGN 40.

(** Linear arithmetic with division by constants. *)
Ltac zdiv := Z.to_euclidean_division_equations; lia.

Class WalGeometry := {
  XLogSegSize : Z;
  XLogCacheBlck : Z }.

Class WalGeometryOk `{WalGeometry} : Prop := {
  seg_whole : XLogSegSize mod XLOG_BLCKSZ = 0;
  seg_range : 2 * XLOG_BLCKSZ ≤ XLogSegSize < 2 ^ 32;
  cache_range : 0 ≤ XLogCacheBlck }.

Definition default_geometry : WalGeometry := {| XLogSegSize := 16 * 1024 * 1024; XLogCacheBlck := 2047 |}.

Lemma default_geometry_ok : @WalGeometryOk default_geometry.
Proof. by split. Qed.

Section positions.
Context `{WalGeometry}.

Definition UsableBytesInPage : Z := XLOG_BLCKSZ - SizeOfXLogShortPHD.
Definition UsableBytesInSegment : Z :=
  XLogSegSize / XLOG_BLCKSZ * UsableBytesInPage - (SizeOfXLogLongPHD - SizeOfXLogShortPHD).

Definition INSERT_FREESPACE (endptr : Z) : Z :=
  if endptr mod XLOG_BLCKSZ =? 0 then 0 else XLOG_BLCKSZ - endptr mod XLOG_BLCKSZ.

Definition NextBufIdx (idx : Z) : Z := if idx =? XLogCacheBlck then 0 else idx + 1.

Definition XLogRecPtrToBufIdx (recptr : Z) : Z := (recptr / XLOG_BLCKSZ) mod (XLogCacheBlck + 1).

Definition X_LOG_PREV_BLOCK_IN_BUF_PAGE (recptr : Z) : Z :=
  if recptr <? XLOG_BLCKSZ * (XLogCacheBlck + 1) then 0 else recptr - XLOG_BLCKSZ * (XLogCacheBlck + 1).

Definition XLogSegNoOffsetToRecPtr (segno offset : Z) : Z := segno * XLogSegSize + offset.
Definition XLByteToSeg (xlrp : Z) : Z := xlrp / XLogSegSize.
Definition XLByteToPrevSeg (xlrp : Z) : Z := (xlrp - 1) / XLogSegSize.
Definition XLByteInPrevSeg (xlrp logSegNo : Z) : bool := XLByteToPrevSeg xlrp =? logSegNo.

Definition XLogBytePosToRecPtr (bytepos : Z) : Z :=
  let fullsegs := bytepos / UsableBytesInSegment in
  let bytesleft := bytepos mod UsableBytesInSegment in
  let seg_offset :=
    if bytesleft <? XLOG_BLCKSZ - SizeOfXLogLongPHD then bytesleft + SizeOfXLogLongPHD
    else
      let bytesleft := bytesleft - (XLOG_BLCKSZ - SizeOfXLogLongPHD) in
      let fullpages := bytesleft / UsableBytesInPage in
      let bytesleft := bytesleft mod UsableBytesInPage in
      XLOG_BLCKSZ + (fullpages * XLOG_BLCKSZ + bytesleft + SizeOfXLogShortPHD) in
  XLogSegNoOffsetToRecPtr fullsegs seg_offset.

Definition XLogBytePosToEndRecPtr (bytepos : Z) : Z :=
  let fullsegs := bytepos / UsableBytesInSegment in
  let bytesleft := bytepos mod UsableBytesInSegment in
  let seg_offset :=
    if bytesleft <? XLOG_BLCKSZ - SizeOfXLogLongPHD then
      if bytesleft =? 0 then 0 else bytesleft + SizeOfXLogLongPHD
    else
      let bytesleft := bytesleft - (XLOG_BLCKSZ - SizeOfXLogLongPHD) in
      let fullpages := bytesleft / UsableBytesInPage in
      let bytesleft := bytesleft mod UsableBytesInPage in
      if bytesleft =? 0 then XLOG_BLCKSZ + (fullpages * XLOG_BLCKSZ + bytesleft)
      else XLOG_BLCKSZ + (fullpages * XLOG_BLCKSZ + bytesleft + SizeOfXLogShortPHD) in
  XLogSegNoOffsetToRecPtr fullsegs seg_offset.

Definition XLogRecPtrToBytePos (ptr : Z) : Z :=
  let fullsegs := XLByteToSeg ptr in
  let fullpages := (ptr mod XLogSegSize) / XLOG_BLCKSZ in
  let offset := ptr mod XLOG_BLCKSZ in
  if fullpages =? 0 then
    fullsegs * UsableBytesInSegment + (if 0 <? offset then offset - SizeOfXLogLongPHD else 0)
  else
    fullsegs * UsableBytesInSegment + (XLOG_BLCKSZ - SizeOfXLogLongPHD) + (fullpages - 1) * UsableBytesInPage
      + (if 0 <? offset then offset - SizeOfXLogShortPHD else 0).

(** ** Pages *)

Definition seg_pages : Z := XLogSegSize / XLOG_BLCKSZ.

(** The size of the header of page [g]. *)
Definition header_size (g : Z) : Z := if g mod seg_pages =? 0 then SizeOfXLogLongPHD else SizeOfXLogShortPHD.

Definition page_first (g : Z) : Z :=
  g / seg_pages * UsableBytesInSegment +
  (if g mod seg_pages =? 0 then 0 else XLOG_BLCKSZ - SizeOfXLogLongPHD + (g mod seg_pages - 1) * UsableBytesInPage).

End positions.

Section geometry.
Context `{WalGeometryOk}.

Lemma seg_pages_spec : XLogSegSize = seg_pages * 8192 ∧ 2 ≤ seg_pages < 2 ^ 19.
Proof.
  unfold seg_pages. pose proof seg_whole as Hw. pose proof seg_range as Hr. unfold XLOG_BLCKSZ in *. split; zdiv.
Qed.

Lemma usable_segment : UsableBytesInSegment = seg_pages * 8168 - 16.
Proof. unfold UsableBytesInSegment, UsableBytesInPage. fold seg_pages. reflexivity. Qed.

Lemma header_size_cases g : header_size g = 24 ∨ header_size g = 40.
Proof. unfold header_size. case_match; [by right|by left]. Qed.

(** A page number by segment and page in the segment. *)
Lemma page_coords g : ∃ s i, g = s * seg_pages + i ∧ 0 ≤ i < seg_pages ∧ g / seg_pages = s ∧ g mod seg_pages = i.
Proof.
  pose proof seg_pages_spec as [_ Hp]. exists (g / seg_pages), (g mod seg_pages).
  pose proof (Z.mod_pos_bound g seg_pages). pose proof (Z.div_mod g seg_pages). split_and!; try done; lia.
Qed.

Lemma coords_div s i : 0 ≤ i < seg_pages → (s * seg_pages + i) / seg_pages = s.
Proof. intros ?. symmetry. apply (Z.div_unique _ _ _ i); lia. Qed.
Lemma coords_mod s i : 0 ≤ i < seg_pages → (s * seg_pages + i) mod seg_pages = i.
Proof. intros ?. symmetry. apply (Z.mod_unique _ _ s); lia. Qed.

Lemma page_first_at s i : 0 ≤ i < seg_pages →
  page_first (s * seg_pages + i) = s * (seg_pages * 8168 - 16) + (if i =? 0 then 0 else 8152 + (i - 1) * 8168).
Proof.
  intros. unfold page_first. rewrite coords_div, coords_mod by done. rewrite usable_segment. reflexivity.
Qed.

Lemma header_size_at s i : 0 ≤ i < seg_pages → header_size (s * seg_pages + i) = if i =? 0 then 40 else 24.
Proof. intros. unfold header_size. by rewrite coords_mod. Qed.

Lemma page_first_succ g : page_first (g + 1) = page_first g + 8192 - header_size g.
Proof.
  pose proof seg_pages_spec as [_ Hp]. destruct (page_coords g) as (s & i & -> & Hi & _).
  rewrite (page_first_at s i), (header_size_at s i) by done. destruct (decide (i = seg_pages - 1)) as [->|Hne].
  - replace (s * seg_pages + (seg_pages - 1) + 1) with ((s + 1) * seg_pages + 0) by ring.
    rewrite page_first_at by lia. destruct (seg_pages - 1 =? 0) eqn:E; [lia|]. change (0 =? 0) with true. cbv iota. ring.
  - replace (s * seg_pages + i + 1) with (s * seg_pages + (i + 1)) by ring. rewrite page_first_at by lia.
    destruct (i + 1 =? 0) eqn:E; [lia|]. destruct (i =? 0) eqn:E'; [|ring]. assert (i = 0) as -> by lia. ring.
Qed.

Lemma page_first_0 : page_first 0 = 0.
Proof. pose proof seg_pages_spec. change 0 with (0 * seg_pages + 0) at 1. by rewrite page_first_at by lia. Qed.

Lemma page_first_add g (n : nat) : page_first g + Z.of_nat n * 8152 ≤ page_first (g + Z.of_nat n).
Proof.
  induction n as [|n IH]; [by rewrite !Z.add_0_r|]. rewrite Nat2Z.inj_succ. replace (g + Z.succ (Z.of_nat n)) with (g + Z.of_nat n + 1) by lia.
  rewrite page_first_succ. destruct (header_size_cases (g + Z.of_nat n)) as [-> | ->]; lia.
Qed.

Lemma page_first_mono g g' : g ≤ g' → page_first g + (g' - g) * 8152 ≤ page_first g'.
Proof.
  intros. pose proof (page_first_add g (Z.to_nat (g' - g))) as Hp.
  replace (g + Z.of_nat (Z.to_nat (g' - g))) with g' in Hp by lia. lia.
Qed.

Lemma page_first_lt g g' : g < g' ↔ page_first g < page_first g'.
Proof.
  split; intros Hl.
  - pose proof (page_first_mono g g'). lia.
  - destruct (decide (g < g')); [done|]. pose proof (page_first_mono g' g). lia.
Qed.
Lemma page_first_le g g' : g ≤ g' ↔ page_first g ≤ page_first g'.
Proof. pose proof (page_first_lt g' g). lia. Qed.

Lemma page_first_nonneg g : 0 ≤ g → 0 ≤ page_first g.
Proof. intros. pose proof (page_first_mono 0 g). rewrite page_first_0 in *. lia. Qed.

(** Every usable byte is on one page. *)
Lemma byte_page b : 0 ≤ b → ∃ g, 0 ≤ g ∧ page_first g ≤ b < page_first (g + 1) ∧
  XLogBytePosToRecPtr b = g * 8192 + header_size g + (b - page_first g) ∧
  XLogBytePosToEndRecPtr b = if b =? page_first g then g * 8192 else g * 8192 + header_size g + (b - page_first g).
Proof.
  intros Hb. pose proof seg_pages_spec as [Hs Hp]. pose proof usable_segment as HU.
  unfold XLogBytePosToRecPtr, XLogBytePosToEndRecPtr, XLogSegNoOffsetToRecPtr. rewrite HU, Hs.
  assert (0 < seg_pages * 8168 - 16) as HU0 by lia.
  pose proof (Z.div_mod b (seg_pages * 8168 - 16) ltac:(lia)) as Hdm. pose proof (Z.mod_pos_bound b _ HU0) as Hm.
  pose proof (Z.div_pos b _ Hb HU0) as Hq. set (s := b / _) in *. set (r := b mod _) in *. clearbody s r.
  change SizeOfXLogLongPHD with 40. change SizeOfXLogShortPHD with 24. change UsableBytesInPage with 8168. change XLOG_BLCKSZ with 8192.
  destruct (r <? 8192 - 40) eqn:Er.
  - exists (s * seg_pages + 0). rewrite page_first_succ, page_first_at, header_size_at by lia. change (0 =? 0) with true. cbv iota. split_and!; [nia|lia|lia|lia|].
    destruct (r =? 0) eqn:E0, (b =? _) eqn:Eb; lia.
  - set (q := r - (8192 - 40)). pose proof (Z.div_mod q 8168 ltac:(lia)) as Hd. pose proof (Z.mod_pos_bound q 8168 ltac:(lia)) as Hd'.
    pose proof (Z.div_pos q 8168 ltac:(lia) ltac:(lia)) as Hd0. set (i := q / 8168) in *. set (o := q mod 8168) in *. clearbody i o.
    assert (0 ≤ i + 1 < seg_pages) by lia. exists (s * seg_pages + (i + 1)).
    rewrite page_first_succ, page_first_at, header_size_at by lia. destruct (i + 1 =? 0) eqn:Ei; [lia|]. split_and!; [nia|lia|lia|lia|].
    destruct (o =? 0) eqn:E0, (b =? _) eqn:Eb; lia.
Qed.

(** The usable position of an [XLogRecPtr] on page [g]. *)
Lemma byte_pos_at g o : 0 ≤ o < 8192 → XLogRecPtrToBytePos (g * 8192 + o) = page_first g + (if 0 <? o then o - header_size g else 0).
Proof.
  intros Ho. pose proof seg_pages_spec as [Hs Hp]. unfold XLogRecPtrToBytePos, XLByteToSeg, XLOG_BLCKSZ. rewrite usable_segment.
  destruct (page_coords g) as (s & i & -> & Hi & _). rewrite page_first_at, header_size_at by done. rewrite Hs.
  assert (((s * seg_pages + i) * 8192 + o) / (seg_pages * 8192) = s) as ->.
  { symmetry. apply (Z.div_unique _ _ _ (i * 8192 + o)); [left; nia|ring]. }
  assert (((s * seg_pages + i) * 8192 + o) mod (seg_pages * 8192) = i * 8192 + o) as ->.
  { symmetry. apply (Z.mod_unique _ _ s); [left; nia|ring]. }
  assert ((i * 8192 + o) / 8192 = i) as -> by zdiv. assert (((s * seg_pages + i) * 8192 + o) mod 8192 = o) as -> by zdiv.
  change SizeOfXLogLongPHD with 40. change SizeOfXLogShortPHD with 24. change UsableBytesInPage with 8168.
  destruct (i =? 0) eqn:E, (0 <? o); lia.
Qed.

Lemma page_unique b g g' : page_first g ≤ b < page_first (g + 1) → page_first g' ≤ b < page_first (g' + 1) → g = g'.
Proof.
  intros ??. pose proof (page_first_lt g (g' + 1)). pose proof (page_first_lt g' (g + 1)). lia.
Qed.

Lemma rec_ptr_at g b : 0 ≤ b → page_first g ≤ b < page_first (g + 1) → XLogBytePosToRecPtr b = g * 8192 + header_size g + (b - page_first g).
Proof. intros ? Hg. destruct (byte_page b) as (g' & _ & Hg' & Hr & _); [done|]. by rewrite (page_unique b g g'). Qed.

Lemma end_ptr_at g b : 0 ≤ b → page_first g ≤ b < page_first (g + 1) →
  XLogBytePosToEndRecPtr b = if b =? page_first g then g * 8192 else g * 8192 + header_size g + (b - page_first g).
Proof. intros ? Hg. destruct (byte_page b) as (g' & _ & Hg' & _ & Hr); [done|]. by rewrite (page_unique b g g'). Qed.

(** ** Order and round trips *)

Lemma rec_ptr_lt b b' : 0 ≤ b → 0 ≤ b' → XLogBytePosToRecPtr b < XLogBytePosToRecPtr b' ↔ b < b'.
Proof.
  intros Hb Hb'. destruct (byte_page b Hb) as (g & _ & Hg & -> & _). destruct (byte_page b' Hb') as (g' & _ & Hg' & -> & _).
  pose proof (page_first_succ g). pose proof (page_first_succ g'). pose proof (header_size_cases g). pose proof (header_size_cases g').
  destruct (decide (g = g')) as [->|]; [lia|]. destruct (decide (g < g')) as [Hl|].
  - pose proof (page_first_mono (g + 1) g'). lia.
  - pose proof (page_first_mono (g' + 1) g). lia.
Qed.

Lemma end_ptr_le_rec b : 0 ≤ b → XLogBytePosToEndRecPtr b ≤ XLogBytePosToRecPtr b < XLogBytePosToEndRecPtr b + 41.
Proof. intros Hb. destruct (byte_page b Hb) as (g & _ & Hg & -> & ->). pose proof (header_size_cases g). case_match; lia. Qed.

(** The end of what is before [b'] is behind every byte before [b'], and in front of [b']. *)
Lemma rec_lt_end b b' : 0 ≤ b → 0 ≤ b' → XLogBytePosToRecPtr b < XLogBytePosToEndRecPtr b' ↔ b < b'.
Proof.
  intros Hb Hb'. destruct (byte_page b Hb) as (g & _ & Hg & -> & _). destruct (byte_page b' Hb') as (g' & _ & Hg' & _ & ->).
  pose proof (page_first_succ g). pose proof (page_first_succ g'). pose proof (header_size_cases g). pose proof (header_size_cases g').
  destruct (decide (g = g')) as [->|]; [case_match; lia|]. destruct (decide (g < g')) as [Hl|].
  - pose proof (page_first_mono (g + 1) g'). case_match; lia.
  - pose proof (page_first_mono (g' + 1) g). case_match; lia.
Qed.

Lemma end_ptr_lt b b' : 0 ≤ b → 0 ≤ b' → XLogBytePosToEndRecPtr b < XLogBytePosToEndRecPtr b' ↔ b < b'.
Proof.
  intros Hb Hb'. destruct (decide (b < b')) as [Hl|Hl].
  - pose proof (proj2 (rec_lt_end b b' Hb Hb') Hl). pose proof (end_ptr_le_rec b Hb). lia.
  - destruct (decide (b = b')) as [->|]; [lia|]. pose proof (proj2 (rec_lt_end b' b Hb' Hb) ltac:(lia)). pose proof (end_ptr_le_rec b' Hb'). lia.
Qed.

Lemma end_ptr_le b b' : 0 ≤ b → 0 ≤ b' → XLogBytePosToEndRecPtr b ≤ XLogBytePosToEndRecPtr b' ↔ b ≤ b'.
Proof. intros. pose proof (end_ptr_lt b' b). lia. Qed.

Lemma byte_of_rec b : 0 ≤ b → XLogRecPtrToBytePos (XLogBytePosToRecPtr b) = b.
Proof.
  intros Hb. destruct (byte_page b Hb) as (g & _ & Hg & -> & _). pose proof (page_first_succ g). pose proof (header_size_cases g).
  rewrite <- Z.add_assoc, byte_pos_at by lia. case_match; lia.
Qed.

Lemma byte_of_end b : 0 ≤ b → XLogRecPtrToBytePos (XLogBytePosToEndRecPtr b) = b.
Proof.
  intros Hb. destruct (byte_page b Hb) as (g & _ & Hg & _ & ->). pose proof (page_first_succ g). pose proof (header_size_cases g). case_match.
  - rewrite <- (Z.add_0_r (g * 8192)), byte_pos_at by lia. case_match; lia.
  - rewrite <- Z.add_assoc, byte_pos_at by lia. case_match; lia.
Qed.

(** ** Alignment *)

Lemma MAXALIGN_eq x : 0 ≤ x < 2 ^ 63 → MAXALIGN x = (x + 7) / 8 * 8.
Proof.
  intros Hx. unfold MAXALIGN, lnotw. rewrite Z.land_assoc, Z.land_ones by lia.
  replace (Z.land (x + 7) (Z.lnot 7)) with ((x + 7) / 8 * 8); [rewrite Z.mod_small by zdiv; done|].
  change (Z.lnot 7) with (Z.lnot (Z.ones 3)). rewrite <- Z.ldiff_land, Z.ldiff_ones_r by lia. rewrite Z.shiftl_mul_pow2, Z.shiftr_div_pow2 by lia. done.
Qed.

Lemma seg_pages_even_first s : (s * (seg_pages * 8168 - 16)) mod 8 = 0.
Proof. replace (s * (seg_pages * 8168 - 16)) with ((s * (seg_pages * 1021 - 2)) * 8) by ring. apply Z.mod_mul. lia. Qed.

Lemma page_first_aligned g : page_first g mod 8 = 0.
Proof.
  destruct (page_coords g) as (s & i & -> & Hi & _). rewrite page_first_at by done. pose proof (seg_pages_even_first s). case_match; zdiv.
Qed.

(** Aligning the end of a record is the same before and after the conversion. *)
Lemma align_end b : 0 ≤ b → XLogBytePosToEndRecPtr b < 2 ^ 63 - 8 →
  MAXALIGN (XLogBytePosToEndRecPtr b) = XLogBytePosToEndRecPtr ((b + 7) / 8 * 8).
Proof.
  intros Hb Hlt. destruct (byte_page b Hb) as (g & Hg0 & Hg & _ & He). pose proof (page_first_succ g) as Hs. pose proof (page_first_aligned g) as Ha.
  pose proof (page_first_aligned (g + 1)) as Ha'. pose proof (page_first_nonneg g Hg0). rewrite MAXALIGN_eq by (rewrite He in *; pose proof (header_size_cases g); case_match; lia).
  set (c := (b + 7) / 8 * 8). assert (b ≤ c < b + 8 ∧ c mod 8 = 0) as [Hc Hc8] by (unfold c; zdiv).
  destruct (decide (c < page_first (g + 1))) as [Hl|Hl].
  - rewrite (end_ptr_at g c) by lia. rewrite He. pose proof (header_size_cases g). clearbody c. destruct (b =? page_first g) eqn:E, (c =? page_first g) eqn:E'; zdiv.
  - assert (c = page_first (g + 1)) as Hcg by (clearbody c; zdiv). rewrite (end_ptr_at (g + 1) c) by (pose proof (page_first_lt (g + 1) (g + 1 + 1)); lia).
    rewrite He, Hcg, Z.eqb_refl. pose proof (header_size_cases g). clearbody c. destruct (b =? page_first g) eqn:E; zdiv.
Qed.

End geometry.
