(* ===== verification/XLogDefs.v ===== *)
(** * The shared state of the write-ahead log

    Pages, records and the structures in shared memory that
    [src/gausskernel/storage/access/transam/xlog.cpp] works on: the insert position (a
    128-bit word), the ring of page buffers, the table in which inserting backends report
    what they have copied, and what has been written to the segment files.

    A page is its header and its bytes by offset; the header takes no bytes of the array. A
    segment file is a function from page offsets to pages; [synced] is the part of the
    files that a crash cannot take away. [logged] is ghost state: the records in the order
    in which their space was reserved. *)

From stdpp Require Export functions.
From S2P Require Import Prelude FsmPage.
From S2P Require Export XLogPos.

#[global] Open Scope Z_scope.

(** ** Records *)

(** Little-endian fields. *)
Fixpoint le_bytes (n : nat) (v : Z) : list Z :=
  match n with O => [] | S n => v mod 256 :: le_bytes n (v / 256) end.

Fixpoint le_value (l : list Z) : Z :=
  match l with [] => 0 | x :: l => x + 256 * le_value l end.

Record XLogRecord := {
  xl_tot_len : Z;
  xl_term : Z;
  xl_xid : Z;
  xl_prev : Z;
  xl_info : Z;
  xl_rmid : Z;
  xl_bucket_id : Z;
  xl_crc : Z }.

Definition SizeOfXLogRecord : Z := 32.
Definition XLogRecordMaxSize : Z := 0x3fffe000.
Definition RM_XLOG_ID : Z := 0.
Definition RM_MAX_ID : Z := 34.
Definition XLOG_SWITCH : Z := 0x40.

(** The fields in front of [xl_crc], and the whole header. *)
Definition record_head (r : XLogRecord) : list Z :=
  le_bytes 4 (xl_tot_len r) ++ le_bytes 4 (xl_term r) ++ le_bytes 8 (xl_xid r) ++ le_bytes 8 (xl_prev r)
  ++ le_bytes 1 (xl_info r) ++ le_bytes 1 (xl_rmid r) ++ le_bytes 2 (xl_bucket_id r).

Definition record_bytes (r : XLogRecord) : list Z := record_head r ++ le_bytes 4 (xl_crc r).

Definition with_prev (prev : Z) (r : XLogRecord) : XLogRecord :=
  {| xl_tot_len := xl_tot_len r; xl_term := xl_term r; xl_xid := xl_xid r; xl_prev := prev; xl_info := xl_info r; xl_rmid := xl_rmid r;
     xl_bucket_id := xl_bucket_id r; xl_crc := xl_crc r |}.
Definition with_crc (crc : Z) (r : XLogRecord) : XLogRecord :=
  {| xl_tot_len := xl_tot_len r; xl_term := xl_term r; xl_xid := xl_xid r; xl_prev := xl_prev r; xl_info := xl_info r; xl_rmid := xl_rmid r;
     xl_bucket_id := xl_bucket_id r; xl_crc := crc |}.

(** What the log takes from the rest of the server: the checksum, the identity of the
    cluster, and whether the WAL writer writes and syncs in separate steps. *)
Class WalEnv := {
  COMP_CRC32C : Z → list Z → Z;
  ThisTimeLineID : Z;
  system_identifier : Z;
  xlog_write_flush_split : bool;
  max_backends : Z }.

Definition INIT_CRC32C : Z := 0xFFFFFFFF.
Definition FIN_CRC32C (crc : Z) : Z := Z.lxor crc 0xFFFFFFFF.

(** A chain of [XLogRecData]: the first chunk begins with the record header. *)
Record xlog_request := {
  rechdr : XLogRecord;
  first_data : list Z;
  more_data : list (list Z);
  fpw_lsn : Z;
  need_flush : bool }.

(** ** Pages *)

Definition XLOG_PAGE_MAGIC : Z := 0xD074.
Definition XLP_FIRST_IS_CONTRECORD : Z := 1.
Definition XLP_LONG_HEADER : Z := 2.
Definition XLP_BKP_REMOVABLE : Z := 4.
Definition XLP_ALL_FLAGS : Z := 7.

Record xlog_page := {
  xlp_magic : Z;
  xlp_info : Z;
  xlp_tli : Z;
  xlp_pageaddr : Z;
  xlp_rem_len : Z;
  xlp_sysid : Z;
  xlp_seg_size : Z;
  xlp_xlog_blcksz : Z;
  page_data : Z → Z }.

Definition with_data (f : Z → Z) (p : xlog_page) : xlog_page :=
  {| xlp_magic := xlp_magic p; xlp_info := xlp_info p; xlp_tli := xlp_tli p; xlp_pageaddr := xlp_pageaddr p; xlp_rem_len := xlp_rem_len p;
     xlp_sysid := xlp_sysid p; xlp_seg_size := xlp_seg_size p; xlp_xlog_blcksz := xlp_xlog_blcksz p; page_data := f |}.

(** [xlp_rem_len] and the flag of a page that begins in the middle of a record. *)
Definition with_contrecord (rem_len : Z) (p : xlog_page) : xlog_page :=
  {| xlp_magic := xlp_magic p; xlp_info := Z.lor (xlp_info p) XLP_FIRST_IS_CONTRECORD; xlp_tli := xlp_tli p; xlp_pageaddr := xlp_pageaddr p;
     xlp_rem_len := rem_len; xlp_sysid := xlp_sysid p; xlp_seg_size := xlp_seg_size p; xlp_xlog_blcksz := xlp_xlog_blcksz p; page_data := page_data p |}.

Definition XLogPageHeaderSize (p : xlog_page) : Z :=
  if Z.land (xlp_info p) XLP_LONG_HEADER =? 0 then SizeOfXLogShortPHD else SizeOfXLogLongPHD.

(** ** Shared memory *)

Definition WAL_COPY_SUSPEND : Z := -1.
Definition WAL_SCANNED_LRC_INIT : Z := -2.
Definition MIN_WAL_INSERT_STATUS_ENTRY_POW : Z := 16.
Definition GET_WAL_INSERT_STATUS_ENTRY_CNT : Z := 2 ^ MIN_WAL_INSERT_STATUS_ENTRY_POW.
Definition GET_NEXT_STATUS_ENTRY (ientry : Z) : Z := Z.land (ientry + 1) (GET_WAL_INSERT_STATUS_ENTRY_CNT - 1).
Definition WAL_COMMIT_BIT : Z := 2 ^ 63.
Definition MAX_XLOG_REC_PTR : Z := 0x7FFFFFFFFFFFFFFF.
Definition LRC_MASK : Z := 0x7FFFFFFF.

(** The insert position: [CurrBytePos], [PrevByteSize] and [CurrLRC] in one word. *)
Record Combined128 := {
  currentBytePos : Z;
  byteSize : Z;
  LRC : Z }.

#[global] Instance Combined128_eq_dec : EqDecision Combined128.
Proof. solve_decision. Defined.

Record WALInsertStatusEntry := {
  endLSN : Z;
  entry_LRC : Z }.

Record buffers := {
  xlblocks : Z → Z;
  pages : Z → xlog_page;
  InitializedUpTo : Z;
  sentResult : Z }.

(** [RedoRecPtr], [fullPageWrites] and [forcePageWrites] of [XLogCtlInsert]. *)
Record insert_ctl := {
  RedoRecPtr : Z;
  fullPageWrites : bool;
  forcePageWrites : bool }.

(** What has been written; [openLogSegNo] is the file the WAL writer has open. *)
Record write_ctl := {
  RqstWrite : Z;
  RqstFlush : Z;
  ResultWrite : Z;
  ResultFlush : Z;
  flushResult : Z;
  lastWalStatusEntryFlushed : Z;
  lastLRCScanned : Z;
  lastLRCWrited : Z;
  lastLRCFlushed : Z;
  openLogSegNo : Z;
  files : Z → Z → xlog_page;
  synced : Z → Z → xlog_page }.

(** A record that has its place in the log: where it starts (a usable byte position), the
    previous record, and its bytes. *)
Record logged := {
  l_start : Z;
  l_prev : Z;
  l_bytes : list Z }.

Definition record_size (bytes : list Z) : Z := MAXALIGN (Z.of_nat (length bytes)).
