(* ===== verification/XLogInsert.v ===== *)
(** * Inserting a record into the write-ahead log

    The backend's part of [src/gausskernel/storage/access/transam/xlog.cpp]: reserving
    space, copying the record into the page buffers, and reporting that it is there. One
    step makes at most one access to shared memory; a byte of a [memcpy], the two fields of
    a continuation header and an update under a spinlock count as one. The branches are
    those of x86-64 and of a server whose WAL writer is running ([isWalWriterUp]).

    A record so long that its copy comes round to the buffer it started in makes the backend
    write the log itself ([XLogSelfFlushWithoutStatus]); this is not modelled and a backend
    that gets there stops ([CopySelfFlush]). *)

From S2P Require Import Prelude FsmPage XLogDefs.

Section insert.
Context `{WalGeometry} `{WalEnv}.

(** ** Reserving space *)

(** One round of the loop: [compare] is what the backend last saw of the word. The result
    is the word, and either what it is seen to be now or [StartPos], [EndPos], [PrevPtr]
    and the record counter. Suspended insertions wait; no step here suspends them
    ([StartSuspendWalInsert] is not modelled). *)
Definition ReserveXLogInsertLocation (size : Z) (compare word : Combined128) :
    Combined128 * (Combined128 + Z * Z * Z * Z) :=
  let size := MAXALIGN size in
  if LRC compare =? WAL_COPY_SUSPEND then (word, inl word)
  else
    let exchange := {| currentBytePos := currentBytePos compare + size; byteSize := size; LRC := Z.land (LRC compare + 1) LRC_MASK |} in
    if decide (word = compare) then
      (exchange, inr (XLogBytePosToRecPtr (currentBytePos compare), XLogBytePosToEndRecPtr (currentBytePos exchange),
                      XLogBytePosToRecPtr (currentBytePos compare - byteSize compare), LRC compare))
    else (word, inl word).

(** ** The page buffer of a position *)

Inductive get_pc : Type :=
| GetEnter
| GetWait (waitEndPtr : Z)
| GetReread.

Inductive get_result : Type :=
| GetGo (g : get_pc)
| GetFound (cachedPage cachedPos : Z)
| GetPanic.

(** The waiting loop is that of [XLogWaitBufferInit]; here it tests again at any time, the
    sleeping is in [XLogWait]. *)
Definition GetXLogBuffer (bf : buffers) (cachedPage cachedPos ptr : Z) (g : get_pc) : get_result :=
  let idx := XLogRecPtrToBufIdx ptr in
  let expectedEndPtr := ptr + (XLOG_BLCKSZ - ptr mod XLOG_BLCKSZ) in
  match g with
  | GetEnter =>
      if ptr / XLOG_BLCKSZ =? cachedPage then GetFound cachedPage cachedPos
      else if expectedEndPtr =? xlblocks bf idx then GetFound (ptr / XLOG_BLCKSZ) idx
      else GetGo (GetWait (X_LOG_PREV_BLOCK_IN_BUF_PAGE expectedEndPtr))
  | GetWait waitEndPtr => if sentResult bf <? waitEndPtr then GetGo (GetWait waitEndPtr) else GetGo GetReread
  | GetReread => if expectedEndPtr =? xlblocks bf idx then GetFound (ptr / XLOG_BLCKSZ) idx else GetPanic
  end.

(** ** Copying *)

(** The local variables of [CopyXLogRecordToWAL]: [currpos] is a buffer and an offset in it;
    [rdata_data] is the rest of the current chunk, [rdata] are the chunks after it. *)
Record copy_vars := {
  CurrPos : Z;
  currbuf : Z;
  curroff : Z;
  freespace : Z;
  copied : Z;
  rdata : list (list Z);
  rdata_data : list Z }.

Inductive copy_pc : Type :=
| CopyGet (first : bool) (g : get_pc)
| CopyHeader
| CopyData
| CopySelfFlush.

(** What the caller has reserved; [ticket] is ghost: the index of the record in the log. *)
Record insertion := {
  StartPos : Z;
  EndPos : Z;
  currlrc : Z;
  write_len : Z;
  flush_bit : bool;
  ticket : nat }.

Inductive copy_result : Type :=
| CopyGo (c : copy_vars) (p : copy_pc) (cachedPage cachedPos : Z) (pg : Z → xlog_page)
| CopyDone
| CopyPanic.

Definition copy_init (StartPos : Z) (chunks : list (list Z)) : copy_vars :=
  {| CurrPos := StartPos; currbuf := 0; curroff := 0; freespace := 0; copied := 0; rdata := chunks; rdata_data := [] |}.

(** [CurrPos] is on a page of which the pointer [currpos] has been obtained. *)
Definition copy_at (buf : Z) (c : copy_vars) : copy_vars :=
  {| CurrPos := CurrPos c; currbuf := buf; curroff := CurrPos c mod XLOG_BLCKSZ; freespace := INSERT_FREESPACE (CurrPos c);
     copied := copied c; rdata := rdata c; rdata_data := rdata_data c |}.

(** Behind the header of the new page. *)
Definition copy_skip (n : Z) (c : copy_vars) : copy_vars :=
  {| CurrPos := CurrPos c + n; currbuf := currbuf c; curroff := curroff c + n; freespace := INSERT_FREESPACE (CurrPos c + n);
     copied := copied c; rdata := rdata c; rdata_data := rdata_data c |}.

Definition copy_byte (d : list Z) (c : copy_vars) : copy_vars :=
  {| CurrPos := CurrPos c + 1; currbuf := currbuf c; curroff := curroff c + 1; freespace := freespace c - 1;
     copied := copied c + 1; rdata := rdata c; rdata_data := d |}.

Definition copy_chunk (d : list Z) (ds : list (list Z)) (c : copy_vars) : copy_vars :=
  {| CurrPos := CurrPos c; currbuf := currbuf c; curroff := curroff c; freespace := freespace c;
     copied := copied c; rdata := ds; rdata_data := d |}.

(** The two nested loops, one byte at a time: a page is left when it is full and more of
    the current chunk is to come. *)
Definition CopyXLogRecordToWAL (bf : buffers) (cachedPage cachedPos : Z) (a : insertion) (c : copy_vars) (p : copy_pc) : copy_result :=
  match p with
  | CopyGet first g =>
      match GetXLogBuffer bf cachedPage cachedPos (CurrPos c) g with
      | GetGo g => CopyGo c (CopyGet first g) cachedPage cachedPos (pages bf)
      | GetFound page buf => CopyGo (copy_at buf c) (if first then CopyData else CopyHeader) page buf (pages bf)
      | GetPanic => CopyPanic
      end
  | CopyHeader =>
      let pg := <[currbuf c := with_contrecord (write_len a - copied c) (pages bf (currbuf c))]> (pages bf) in
      let c := if CurrPos c mod XLogSegSize =? 0 then copy_skip SizeOfXLogLongPHD c else copy_skip SizeOfXLogShortPHD c in
      CopyGo c CopyData cachedPage cachedPos pg
  | CopyData =>
      match rdata_data c with
      | x :: d =>
          if freespace c =? 0 then
            if XLogRecPtrToBufIdx (CurrPos c) =? XLogRecPtrToBufIdx (StartPos a) then CopyGo c CopySelfFlush cachedPage cachedPos (pages bf)
            else CopyGo c (CopyGet false GetEnter) cachedPage cachedPos (pages bf)
          else
            let page := pages bf (currbuf c) in
            let pg := <[currbuf c := with_data (<[curroff c := x]> (page_data page)) page]> (pages bf) in
            CopyGo (copy_byte d c) CopyData cachedPage cachedPos pg
      | [] =>
          match rdata c with
          | d :: ds => CopyGo (copy_chunk d ds c) CopyData cachedPage cachedPos (pages bf)
          | [] => CopyDone
          end
      end
  | CopySelfFlush => CopyGo c CopySelfFlush cachedPage cachedPos (pages bf)
  end.

(** ** The whole insertion *)

Inductive insert_pc : Type :=
| InsIdle
| InsPanic
| InsCheck (r : xlog_request)
| InsRead (r : xlog_request)
| InsReserve (r : xlog_request) (compare : Combined128)
| InsCopy (a : insertion) (c : copy_vars) (p : copy_pc)
| InsStatus (a : insertion)
| InsStatusEnd (a : insertion)
| InsReport (a : insertion)
| InsRequest (a : insertion)
| InsWaitFlush (recptr : Z).

Record backend := {
  b_pc : insert_pc;
  cachedPage : Z;
  cachedPos : Z;
  b_RedoRecPtr : Z;
  b_doPageWrites : bool;
  ProcLastRecPtr : Z;
  XactLastRecEnd : Z }.

Definition go_pc (pc : insert_pc) (b : backend) : backend :=
  {| b_pc := pc; cachedPage := cachedPage b; cachedPos := cachedPos b; b_RedoRecPtr := b_RedoRecPtr b; b_doPageWrites := b_doPageWrites b;
     ProcLastRecPtr := ProcLastRecPtr b; XactLastRecEnd := XactLastRecEnd b |}.
Definition with_cached (page pos : Z) (b : backend) : backend :=
  {| b_pc := b_pc b; cachedPage := page; cachedPos := pos; b_RedoRecPtr := b_RedoRecPtr b; b_doPageWrites := b_doPageWrites b;
     ProcLastRecPtr := ProcLastRecPtr b; XactLastRecEnd := XactLastRecEnd b |}.
Definition with_redo (redo : Z) (fpw : bool) (b : backend) : backend :=
  {| b_pc := b_pc b; cachedPage := cachedPage b; cachedPos := cachedPos b; b_RedoRecPtr := redo; b_doPageWrites := fpw;
     ProcLastRecPtr := ProcLastRecPtr b; XactLastRecEnd := XactLastRecEnd b |}.
Definition with_last_rec (st en : Z) (b : backend) : backend :=
  {| b_pc := b_pc b; cachedPage := cachedPage b; cachedPos := cachedPos b; b_RedoRecPtr := b_RedoRecPtr b; b_doPageWrites := b_doPageWrites b;
     ProcLastRecPtr := st; XactLastRecEnd := en |}.

(** The header with [xl_prev] and the finished checksum, and the chunks to copy. *)
Definition finish_header (prev : Z) (r : xlog_request) : XLogRecord :=
  let rechdr := with_prev prev (rechdr r) in
  with_crc (FIN_CRC32C (COMP_CRC32C (xl_crc rechdr) (record_head rechdr))) rechdr.

Definition record_chunks (prev : Z) (r : xlog_request) : list (list Z) :=
  (record_bytes (finish_header prev r) ++ first_data r) :: more_data r.

Definition status_entry (lrc : Z) : Z := Z.land lrc (GET_WAL_INSERT_STATUS_ENTRY_CNT - 1).

(** The shared memory that an insertion works on. *)
Record wal_mem := {
  m_word : Combined128;
  m_ctl : insert_ctl;
  m_buf : buffers;
  m_status : Z → WALInsertStatusEntry;
  m_wrt : write_ctl;
  m_log : list logged }.

Definition set_word (w : Combined128) (m : wal_mem) : wal_mem :=
  {| m_word := w; m_ctl := m_ctl m; m_buf := m_buf m; m_status := m_status m; m_wrt := m_wrt m; m_log := m_log m |}.
Definition set_buf (b : buffers) (m : wal_mem) : wal_mem :=
  {| m_word := m_word m; m_ctl := m_ctl m; m_buf := b; m_status := m_status m; m_wrt := m_wrt m; m_log := m_log m |}.
Definition set_table (s : Z → WALInsertStatusEntry) (m : wal_mem) : wal_mem :=
  {| m_word := m_word m; m_ctl := m_ctl m; m_buf := m_buf m; m_status := s; m_wrt := m_wrt m; m_log := m_log m |}.
Definition set_wrt (w : write_ctl) (m : wal_mem) : wal_mem :=
  {| m_word := m_word m; m_ctl := m_ctl m; m_buf := m_buf m; m_status := m_status m; m_wrt := w; m_log := m_log m |}.
Definition set_log (l : list logged) (m : wal_mem) : wal_mem :=
  {| m_word := m_word m; m_ctl := m_ctl m; m_buf := m_buf m; m_status := m_status m; m_wrt := m_wrt m; m_log := l |}.

Definition with_pages (pg : Z → xlog_page) (b : buffers) : buffers :=
  {| xlblocks := xlblocks b; pages := pg; InitializedUpTo := InitializedUpTo b; sentResult := sentResult b |}.

(** [LogwrtRqst.Write] is advanced when the record has crossed a page boundary. *)
Definition advance_request (st en : Z) (w : write_ctl) : write_ctl :=
  if st / XLOG_BLCKSZ =? en / XLOG_BLCKSZ then w
  else
    {| RqstWrite := if RqstWrite w <? en then en else RqstWrite w; RqstFlush := RqstFlush w; ResultWrite := ResultWrite w; ResultFlush := ResultFlush w;
       flushResult := flushResult w; lastWalStatusEntryFlushed := lastWalStatusEntryFlushed w; lastLRCScanned := lastLRCScanned w;
       lastLRCWrited := lastLRCWrited w; lastLRCFlushed := lastLRCFlushed w; openLogSegNo := openLogSegNo w; files := files w; synced := synced w |}.

(** The test of the loop of [XLogWaitFlush]; [XLogWait] has what the backend does while the
    test fails (the lock, the semaphore and the wake-ups of the WAL writer). *)
Definition XLogWaitFlush (recptr : Z) (w : write_ctl) (b : backend) : backend :=
  if flushResult w <? recptr then b else go_pc InsIdle b.

(** A step of a backend: [XLogInsertRecordSingle] for a record that is not an xlog switch;
    a backend that waits for a flush is in [XLogWaitFlush]. *)
Definition XLogInsertRecordSingle (m : wal_mem) (b : backend) : wal_mem * backend :=
  match b_pc b with
  | InsIdle | InsPanic => (m, b)
  | InsCheck r =>
      let redo := if b_RedoRecPtr b =? RedoRecPtr (m_ctl m) then b_RedoRecPtr b else RedoRecPtr (m_ctl m) in
      let fpw := fullPageWrites (m_ctl m) || forcePageWrites (m_ctl m) in
      let b := with_redo redo fpw b in
      if negb (fpw_lsn r =? 0) && (fpw_lsn r <=? redo) && fpw then (m, go_pc InsIdle b) else (m, go_pc (InsRead r) b)
  | InsRead r => (m, go_pc (InsReserve r (m_word m)) b)
  | InsReserve r compare =>
      match ReserveXLogInsertLocation (xl_tot_len (rechdr r)) compare (m_word m) with
      | (_, inl compare) => (m, go_pc (InsReserve r compare) b)
      | (word, inr (st, en, prev, lrc)) =>
          let chunks := record_chunks prev r in
          let a := {| StartPos := st; EndPos := en; currlrc := lrc; write_len := xl_tot_len (rechdr r); flush_bit := need_flush r;
                      ticket := length (m_log m) |} in
          (set_log (m_log m ++ [{| l_start := currentBytePos compare; l_prev := prev; l_bytes := concat chunks |}]) (set_word word m),
           go_pc (InsCopy a (copy_init st chunks) (CopyGet true GetEnter)) b)
      end
  | InsCopy a c p =>
      match CopyXLogRecordToWAL (m_buf m) (cachedPage b) (cachedPos b) a c p with
      | CopyGo c p page pos pg => (set_buf (with_pages pg (m_buf m)) m, go_pc (InsCopy a c p) (with_cached page pos b))
      | CopyDone => (m, go_pc (InsStatus a) b)
      | CopyPanic => (m, go_pc InsPanic b)
      end
  | InsStatus a => (m, if entry_LRC (m_status m (status_entry (currlrc a))) =? currlrc a then go_pc (InsStatusEnd a) b else b)
  | InsStatusEnd a => (m, if endLSN (m_status m (status_entry (currlrc a))) =? 0 then go_pc (InsReport a) b else go_pc (InsStatus a) b)
  | InsReport a =>
      let i := status_entry (currlrc a) in
      let lsn := if flush_bit a then Z.lor (EndPos a) WAL_COMMIT_BIT else EndPos a in
      (set_table (<[i := {| endLSN := lsn; entry_LRC := entry_LRC (m_status m i) |}]> (m_status m)) m, go_pc (InsRequest a) b)
  | InsRequest a =>
      (set_wrt (advance_request (StartPos a) (EndPos a) (m_wrt m)) m, go_pc InsIdle (with_last_rec (StartPos a) (EndPos a) b))
  | InsWaitFlush recptr => (m, XLogWaitFlush recptr (m_wrt m) b)
  end.

End insert.
