(* ===== verification/XLogWriter.v ===== *)
(** * The WAL writer, and the whole system

    [XLogBackgroundFlush] and what it calls in
    [src/gausskernel/storage/access/transam/xlog.cpp]: find the records that have been
    copied without a gap, write their pages to the segment files, sync them, free the
    entries of the status table, and set up the page buffers again. [XLogFileInit], the
    archiver, checkpoint requests and statistics have no part in this and are left out; a
    failing system call (PANIC) is not modelled. One page of a [pwrite] and the set-up of
    one page buffer are one step.

    [wal_step] interleaves any number of inserting backends with the one WAL writer.
    [retired] is ghost: the number of entries that have been freed. *)

From S2P Require Import Prelude FsmPage XLogDefs XLogInsert.

Section writer.
Context `{WalGeometry} `{WalEnv}.

(** ** Setting up page buffers *)

Definition new_page (forcePageWrites : bool) (NewPageBeginPtr : Z) : xlog_page :=
  let info := if forcePageWrites then 0 else XLP_BKP_REMOVABLE in
  let long := NewPageBeginPtr mod XLogSegSize =? 0 in
  {| xlp_magic := XLOG_PAGE_MAGIC; xlp_info := if long then Z.lor info XLP_LONG_HEADER else info; xlp_tli := ThisTimeLineID;
     xlp_pageaddr := NewPageBeginPtr; xlp_rem_len := 0; xlp_sysid := if long then system_identifier else 0;
     xlp_seg_size := if long then XLogSegSize else 0; xlp_xlog_blcksz := if long then XLOG_BLCKSZ else 0; page_data := λ _, 0 |}.

Definition next_index (bf : buffers) : Z := XLogRecPtrToBufIdx (InitializedUpTo bf).

(** A round of the loop of [AdvanceXLInsertBuffer]: the page, then its identity. *)
Definition advance_page (force : bool) (bf : buffers) : buffers :=
  with_pages (<[next_index bf := new_page force (InitializedUpTo bf)]> (pages bf)) bf.

Definition advance_block (bf : buffers) : buffers :=
  {| xlblocks := <[next_index bf := InitializedUpTo bf + XLOG_BLCKSZ]> (xlblocks bf); pages := pages bf;
     InitializedUpTo := InitializedUpTo bf + XLOG_BLCKSZ; sentResult := sentResult bf |}.

Definition advance_needed (upto : Z) (bf : buffers) : bool := xlblocks bf (next_index bf) <=? upto.

Fixpoint AdvanceXLInsertBuffer (fuel : nat) (force : bool) (upto : Z) (bf : buffers) : option buffers :=
  match fuel with
  | O => None
  | S fuel => if advance_needed upto bf then AdvanceXLInsertBuffer fuel force upto (advance_block (advance_page force bf)) else Some bf
  end.

Definition with_sent (lsn : Z) (b : buffers) : buffers :=
  {| xlblocks := xlblocks b; pages := pages b; InitializedUpTo := InitializedUpTo b; sentResult := lsn |}.

(** ** Writing and syncing *)

(** [XLogUpdateShareStatus], with the local [LogwrtResult] as argument. *)
Definition XLogUpdateShareStatus (wr fl : Z) (w : write_ctl) : write_ctl :=
  {| RqstWrite := if RqstWrite w <? wr then wr else RqstWrite w; RqstFlush := if RqstFlush w <? fl then fl else RqstFlush w;
     ResultWrite := wr; ResultFlush := fl; flushResult := fl; lastWalStatusEntryFlushed := lastWalStatusEntryFlushed w;
     lastLRCScanned := lastLRCScanned w; lastLRCWrited := lastLRCWrited w; lastLRCFlushed := lastLRCWrited w;
     openLogSegNo := openLogSegNo w; files := files w; synced := synced w |}.

(** [issue_xlog_fsync] of the open file. *)
Definition issue_xlog_fsync (w : write_ctl) : write_ctl :=
  {| RqstWrite := RqstWrite w; RqstFlush := RqstFlush w; ResultWrite := ResultWrite w; ResultFlush := ResultFlush w; flushResult := flushResult w;
     lastWalStatusEntryFlushed := lastWalStatusEntryFlushed w; lastLRCScanned := lastLRCScanned w; lastLRCWrited := lastLRCWrited w;
     lastLRCFlushed := lastLRCFlushed w; openLogSegNo := openLogSegNo w; files := files w;
     synced := <[openLogSegNo w := files w (openLogSegNo w)]> (synced w) |}.

Definition with_open (segno : Z) (w : write_ctl) : write_ctl :=
  {| RqstWrite := RqstWrite w; RqstFlush := RqstFlush w; ResultWrite := ResultWrite w; ResultFlush := ResultFlush w; flushResult := flushResult w;
     lastWalStatusEntryFlushed := lastWalStatusEntryFlushed w; lastLRCScanned := lastLRCScanned w; lastLRCWrited := lastLRCWrited w;
     lastLRCFlushed := lastLRCFlushed w; openLogSegNo := segno; files := files w; synced := synced w |}.

Definition with_file (offset : Z) (page : xlog_page) (w : write_ctl) : write_ctl :=
  {| RqstWrite := RqstWrite w; RqstFlush := RqstFlush w; ResultWrite := ResultWrite w; ResultFlush := ResultFlush w; flushResult := flushResult w;
     lastWalStatusEntryFlushed := lastWalStatusEntryFlushed w; lastLRCScanned := lastLRCScanned w; lastLRCWrited := lastLRCWrited w;
     lastLRCFlushed := lastLRCFlushed w; openLogSegNo := openLogSegNo w;
     files := <[openLogSegNo w := <[offset := page]> (files w (openLogSegNo w))]> (files w); synced := synced w |}.

Definition with_scanned (lrc : Z) (w : write_ctl) : write_ctl :=
  {| RqstWrite := RqstWrite w; RqstFlush := RqstFlush w; ResultWrite := ResultWrite w; ResultFlush := ResultFlush w; flushResult := flushResult w;
     lastWalStatusEntryFlushed := lastWalStatusEntryFlushed w; lastLRCScanned := lrc; lastLRCWrited := lastLRCWrited w;
     lastLRCFlushed := lastLRCFlushed w; openLogSegNo := openLogSegNo w; files := files w; synced := synced w |}.

(** The end of [XLogWrite], and the flush position of [XLogBackgroundFlush]. *)
Definition with_written (wr fl entry lrc : Z) (w : write_ctl) : write_ctl :=
  {| RqstWrite := if RqstWrite w <? wr then wr else RqstWrite w; RqstFlush := if RqstFlush w <? fl then fl else RqstFlush w;
     ResultWrite := wr; ResultFlush := fl; flushResult := flushResult w; lastWalStatusEntryFlushed := entry;
     lastLRCScanned := lastLRCScanned w; lastLRCWrited := lrc; lastLRCFlushed := lastLRCFlushed w;
     openLogSegNo := openLogSegNo w; files := files w; synced := synced w |}.

Definition XLogDoFlush (w : write_ctl) : write_ctl :=
  if ResultFlush w <? ResultWrite w then
    let w := if XLByteInPrevSeg (ResultWrite w) (openLogSegNo w) then w else with_open (XLByteToPrevSeg (ResultWrite w)) w in
    XLogUpdateShareStatus (ResultWrite w) (ResultWrite w) (issue_xlog_fsync w)
  else w.

(** Local variables of [XLogBackgroundFlush] and of [XLogWrite]. *)
Record flush_vars := {
  start_entry_idx : Z;
  curr_entry_idx : Z;
  fl_need_flush : bool;
  WriteRqstPtr : Z }.

Record write_vars := {
  lw_Write : Z;
  lw_Flush : Z;
  curridx : Z;
  npages : Z;
  startidx : Z;
  startoffset : Z }.

Inductive writer_pc : Type :=
| WIdle
| WPanic
| WScan (l : flush_vars)
| WScanNext (l : flush_vars)
| WScanned (l : flush_vars)
| WWrite (l : flush_vars) (v : write_vars)
| WDump (l : flush_vars) (v : write_vars) (i : Z) (ispartialpage finishing_seg : bool)
| WWritten (l : flush_vars) (v : write_vars)
| WSync (l : flush_vars)
| WReset (l : flush_vars) (entry_idx : Z)
| WResetEnd (l : flush_vars) (entry_idx : Z)
| WInit (l : flush_vars)
| WAdvance (l : flush_vars)
| WAdvanceBlock (l : flush_vars)
| WSent (l : flush_vars).

Definition has_commit_bit (lsn : Z) : bool := negb (Z.land lsn WAL_COMMIT_BIT =? 0).

Definition scan_to (idx : Z) (nf : bool) (l : flush_vars) : flush_vars :=
  {| start_entry_idx := start_entry_idx l; curr_entry_idx := idx; fl_need_flush := fl_need_flush l || nf; WriteRqstPtr := WriteRqstPtr l |}.
Definition with_rqst (lsn : Z) (l : flush_vars) : flush_vars :=
  {| start_entry_idx := start_entry_idx l; curr_entry_idx := curr_entry_idx l; fl_need_flush := fl_need_flush l; WriteRqstPtr := lsn |}.

(** A round of the loop of [XLogWrite] up to the point where pages are dumped. *)
Definition XLogWrite (l : flush_vars) (v : write_vars) (bf : buffers) (w : write_ctl) : write_ctl * writer_pc :=
  if lw_Write v <? WriteRqstPtr l then
    let EndPtr := xlblocks bf (curridx v) in
    if lw_Write v <? EndPtr then
      let ispartialpage := WriteRqstPtr l <? EndPtr in
      let w := if XLByteInPrevSeg EndPtr (openLogSegNo w) then w else with_open (XLByteToPrevSeg EndPtr) w in
      let v := {| lw_Write := EndPtr; lw_Flush := lw_Flush v; curridx := curridx v; npages := npages v + 1;
                  startidx := if npages v =? 0 then curridx v else startidx v;
                  startoffset := if npages v =? 0 then (EndPtr - XLOG_BLCKSZ) mod XLogSegSize else startoffset v |} in
      let last_iteration := negb (lw_Write v <? WriteRqstPtr l) in
      let finishing_seg := negb ispartialpage && (XLogSegSize <=? startoffset v + npages v * XLOG_BLCKSZ) in
      if last_iteration || (curridx v =? XLogCacheBlck) || finishing_seg then (w, WDump l v 0 ispartialpage finishing_seg)
      else (w, WWrite l {| lw_Write := lw_Write v; lw_Flush := lw_Flush v; curridx := NextBufIdx (curridx v); npages := npages v;
                           startidx := startidx v; startoffset := startoffset v |})
    else (w, WPanic)
  else (w, WWritten l v).

(** The [pwrite], one page at a time, and what follows it in the loop. *)
Definition XLogWriteDump (l : flush_vars) (v : write_vars) (i : Z) (ispartialpage finishing_seg : bool) (bf : buffers) (w : write_ctl) :
    write_ctl * writer_pc :=
  if i <? npages v then
    (with_file (startoffset v + i * XLOG_BLCKSZ) (pages bf (startidx v + i)) w, WDump l v (i + 1) ispartialpage finishing_seg)
  else
    let fl := if finishing_seg then lw_Write v else lw_Flush v in
    let w := if finishing_seg then XLogUpdateShareStatus (lw_Write v) fl (issue_xlog_fsync w) else w in
    let v := {| lw_Write := if ispartialpage then WriteRqstPtr l else lw_Write v; lw_Flush := fl;
                curridx := if ispartialpage then curridx v else NextBufIdx (curridx v); npages := 0; startidx := startidx v; startoffset := startoffset v |} in
    (w, if ispartialpage then WWritten l v else WWrite l v).

(** [XLogBackgroundFlush]. [choice]: while the next record is not there, stop waiting for it
    (time or volume); when idle, only sync, as [XLogBackgroundFlush(true)]. The wake-ups of
    waiting backends ([WakeupWalSemaphore]) and the counter by which the main loop chooses to
    sync are in [XLogWait]. *)
Definition XLogBackgroundFlush (choice : bool) (m : wal_mem) (pc : writer_pc) : wal_mem * writer_pc :=
  match pc with
  | WPanic => (m, WPanic)
  | WIdle =>
      if choice then (set_wrt (XLogDoFlush (m_wrt m)) m, WIdle)
      else
        let i := GET_NEXT_STATUS_ENTRY (lastWalStatusEntryFlushed (m_wrt m)) in
        let lsn := endLSN (m_status m i) in
        if lsn =? 0 then (m, WIdle)
        else (m, WScan {| start_entry_idx := i; curr_entry_idx := i; fl_need_flush := has_commit_bit lsn; WriteRqstPtr := 0 |})
  | WScan l =>
      let curr := m_status m (curr_entry_idx l) in
      let next := m_status m (GET_NEXT_STATUS_ENTRY (curr_entry_idx l)) in
      if Z.land (entry_LRC curr + 1) LRC_MASK =? entry_LRC next then (m, WScanNext l)
      else (m, WScanned (scan_to (curr_entry_idx l) (has_commit_bit (endLSN curr)) l))
  | WScanNext l =>
      let i := GET_NEXT_STATUS_ENTRY (curr_entry_idx l) in
      let next := m_status m i in
      if endLSN next =? 0 then
        if choice then (m, WScanned l) else (m, WScan (scan_to (curr_entry_idx l) (has_commit_bit (endLSN (m_status m (curr_entry_idx l)))) l))
      else (m, WScan (scan_to i (has_commit_bit (endLSN next)) l))
  | WScanned l =>
      let curr := m_status m (curr_entry_idx l) in
      let w := with_scanned (entry_LRC curr) (m_wrt m) in
      let v := {| lw_Write := ResultWrite w; lw_Flush := ResultFlush w; curridx := XLogRecPtrToBufIdx (ResultWrite w); npages := 0;
                  startidx := 0; startoffset := 0 |} in
      (set_wrt w m, WWrite (with_rqst (Z.land (endLSN curr) MAX_XLOG_REC_PTR) l) v)
  | WWrite l v => let '(w, pc) := XLogWrite l v (m_buf m) (m_wrt m) in (set_wrt w m, pc)
  | WDump l v i ip fs => let '(w, pc) := XLogWriteDump l v i ip fs (m_buf m) (m_wrt m) in (set_wrt w m, pc)
  | WWritten l v =>
      (set_wrt (with_written (lw_Write v) (lw_Flush v) (curr_entry_idx l) (entry_LRC (m_status m (curr_entry_idx l))) (m_wrt m)) m, WSync l)
  | WSync l =>
      (set_wrt (if negb xlog_write_flush_split || fl_need_flush l then XLogDoFlush (m_wrt m) else m_wrt m) m, WReset l (start_entry_idx l))
  | WReset l i =>
      let e := m_status m i in
      (set_table (<[i := {| endLSN := endLSN e; entry_LRC := Z.land (entry_LRC e + GET_WAL_INSERT_STATUS_ENTRY_CNT) LRC_MASK |}]> (m_status m)) m, WResetEnd l i)
  | WResetEnd l i =>
      (set_table (<[i := {| endLSN := 0; entry_LRC := entry_LRC (m_status m i) |}]> (m_status m)) m,
       if i =? curr_entry_idx l then WInit l else WReset l (GET_NEXT_STATUS_ENTRY i))
  | WInit l =>
      let upto := WriteRqstPtr l - WriteRqstPtr l mod XLOG_BLCKSZ in
      (m, if negb (upto =? 0) && (sentResult (m_buf m) <? upto) then WAdvance l else WIdle)
  | WAdvance l =>
      let upto := WriteRqstPtr l - WriteRqstPtr l mod XLOG_BLCKSZ in
      if advance_needed upto (m_buf m) then (set_buf (advance_page (forcePageWrites (m_ctl m)) (m_buf m)) m, WAdvanceBlock l) else (m, WSent l)
  | WAdvanceBlock l => (set_buf (advance_block (m_buf m)) m, WAdvance l)
  | WSent l => (set_buf (with_sent (WriteRqstPtr l - WriteRqstPtr l mod XLOG_BLCKSZ) (m_buf m)) m, WIdle)
  end.

(** ** Start-up *)

(** What [StartupXLOG] leaves behind when the log it has replayed ends at [EndOfLog] with the
    record at [LastRec]: the last page, if it is partial, comes from the file. *)
Definition startup_buffers (EndOfLog : Z) (force : bool) (disk : Z → Z → xlog_page) : option buffers :=
  let pageBeginPtr := EndOfLog - EndOfLog mod XLOG_BLCKSZ in
  let bf := {| xlblocks := λ _, 0; pages := λ _, new_page force 0; InitializedUpTo := EndOfLog; sentResult := 0 |} in
  let bf :=
    if EndOfLog mod XLOG_BLCKSZ =? 0 then bf
    else
      let len := EndOfLog mod XLOG_BLCKSZ in
      let old := disk (XLByteToSeg pageBeginPtr) (pageBeginPtr mod XLogSegSize) in
      let page := with_data (λ o, if o <? len then page_data old o else 0) old in
      let firstIdx := XLogRecPtrToBufIdx EndOfLog in
      {| xlblocks := <[firstIdx := pageBeginPtr + XLOG_BLCKSZ]> (xlblocks bf); pages := <[firstIdx := page]> (pages bf);
         InitializedUpTo := pageBeginPtr + XLOG_BLCKSZ; sentResult := 0 |} in
  with_sent EndOfLog <$> AdvanceXLInsertBuffer (Z.to_nat (XLogCacheBlck + 2)) force EndOfLog bf.

Definition startup_mem (EndOfLog LastRec : Z) (ctl : insert_ctl) (disk : Z → Z → xlog_page) : option wal_mem :=
  bf ← startup_buffers EndOfLog (forcePageWrites ctl) disk;
  Some {| m_word := {| currentBytePos := XLogRecPtrToBytePos EndOfLog;
                       byteSize := XLogRecPtrToBytePos EndOfLog - XLogRecPtrToBytePos LastRec; LRC := 0 |};
          m_ctl := ctl; m_buf := bf;
          m_status := λ i, {| endLSN := 0; entry_LRC := i |};
          m_wrt := {| RqstWrite := EndOfLog; RqstFlush := EndOfLog; ResultWrite := EndOfLog; ResultFlush := EndOfLog; flushResult := EndOfLog;
                      lastWalStatusEntryFlushed := -1; lastLRCScanned := WAL_SCANNED_LRC_INIT; lastLRCWrited := WAL_SCANNED_LRC_INIT;
                      lastLRCFlushed := WAL_SCANNED_LRC_INIT; openLogSegNo := 0; files := disk; synced := disk |};
          m_log := [] |}.

(** ** The system *)

Record wal_config := {
  mem : wal_mem;
  backends : Z → backend;
  writer : writer_pc;
  retired : nat }.

Definition startup_config (m : wal_mem) : wal_config :=
  {| mem := m; backends := λ _, {| b_pc := InsIdle; cachedPage := 0; cachedPos := 0; b_RedoRecPtr := 0; b_doPageWrites := false;
                                  ProcLastRecPtr := 0; XactLastRecEnd := 0 |};
     writer := WIdle; retired := 0%nat |}.

(** What a caller of [XLogInsertRecord] passes: lengths that add up, fields within their
    widths, and the checksum of everything behind the header. *)
Definition request_ok (r : xlog_request) : Prop :=
  let payload := first_data r ++ concat (more_data r) in
  xl_tot_len (rechdr r) = SizeOfXLogRecord + Z.of_nat (length payload) ∧
  xl_tot_len (rechdr r) < XLogRecordMaxSize ∧
  xl_crc (rechdr r) = COMP_CRC32C INIT_CRC32C payload ∧
  0 ≤ xl_rmid (rechdr r) ≤ RM_MAX_ID ∧ 0 ≤ xl_info (rechdr r) < 256 ∧
  ¬ (xl_rmid (rechdr r) = RM_XLOG_ID ∧ xl_info (rechdr r) = XLOG_SWITCH).

Definition backend_at (t : Z) (b : backend) (m : wal_mem) (σ : wal_config) : wal_config :=
  {| mem := m; backends := <[t := b]> (backends σ); writer := writer σ; retired := retired σ |}.

Definition run_backend (t : Z) (σ : wal_config) : wal_config :=
  let '(m, b) := XLogInsertRecordSingle (mem σ) (backends σ t) in backend_at t b m σ.

Definition run_writer (choice : bool) (σ : wal_config) : wal_config :=
  let '(m, pc) := XLogBackgroundFlush choice (mem σ) (writer σ) in
  {| mem := m; backends := backends σ; writer := pc; retired := match writer σ with WResetEnd _ _ => S (retired σ) | _ => retired σ end |}.

Definition set_ctl (c : insert_ctl) (m : wal_mem) : wal_mem :=
  {| m_word := m_word m; m_ctl := c; m_buf := m_buf m; m_status := m_status m; m_wrt := m_wrt m; m_log := m_log m |}.

Inductive wal_step : wal_config → wal_config → Prop :=
| step_backend σ t : 0 ≤ t < max_backends → wal_step σ (run_backend t σ)
| step_insert σ t r : 0 ≤ t < max_backends → b_pc (backends σ t) = InsIdle → request_ok r →
    wal_step σ (backend_at t (go_pc (InsCheck r) (backends σ t)) (mem σ) σ)
| step_wait_flush σ t : 0 ≤ t < max_backends → b_pc (backends σ t) = InsIdle →
    wal_step σ (backend_at t (go_pc (InsWaitFlush (XactLastRecEnd (backends σ t))) (backends σ t)) (mem σ) σ)
| step_writer σ choice : wal_step σ (run_writer choice σ)
(** A checkpoint or a backup. *)
| step_redo σ c : wal_step σ {| mem := set_ctl c (mem σ); backends := backends σ; writer := writer σ; retired := retired σ |}.

Definition wal_reachable (σ0 σ : wal_config) : Prop := rtc wal_step σ0 σ.

End writer.
