(* ===== verification/XLogInv.v ===== *)
(** * The invariant of the write-ahead log

    What holds in every configuration of inserting backends and WAL writer:

    - the records partition the reserved space, in the order of their counters ([log_inv]);
    - a backend is where its local variables say ([inserter_ok]), no two hold one counter;
    - the status table has the entries of the next [2^16] counters ([status_inv]);
    - the buffers hold a window of consecutive pages, with everything that has been copied
      ([window_inv]);
    - what the files hold agrees with the records up to the write position, and what is
      synced up to the flush position ([writer_inv]). *)

From S2P Require Import Prelude FsmPage XLogDefs XLogInsert XLogWriter.
From stdpp Require Import list.

Open Scope Z_scope.

Section inv.
Context `{WalGeometryOk} `{WalEnv}.

(** Where the log was when the server started, as a usable byte position, and the size of
    the record in front of it. *)
Variables (base lastsize : Z).

Definition bufs : Z := XLogCacheBlck + 1.
Definition CNT : Z := GET_WAL_INSERT_STATUS_ENTRY_CNT.

(** ** The log as a list of records *)

Definition rec_len (r : logged) : Z := Z.of_nat (length (l_bytes r)).
Definition rec_end (r : logged) : Z := l_start r + record_size (l_bytes r).

(** The usable byte behind a list of records, and the [XLogRecPtr] there. *)
Definition tip (log : list logged) : Z := match last log with Some r => rec_end r | None => base end.
Definition tip_at (log : list logged) (k : nat) : Z := tip (take k log).
Definition end_at (log : list logged) (k : nat) : Z := XLogBytePosToEndRecPtr (tip_at log k).

(** The size of the record in front of number [k]. *)
Definition size_before (log : list logged) (k : nat) : Z :=
  match last (take k log) with Some r => record_size (l_bytes r) | None => lastsize end.

Definition record_ok (log : list logged) (k : nat) (r : logged) : Prop :=
  l_start r = tip_at log k ∧ l_prev r = XLogBytePosToRecPtr (l_start r - size_before log k) ∧
  ∃ q, request_ok q ∧ l_bytes r = concat (record_chunks (l_prev r) q).

Definition log_limit : Z := 2 ^ 62.

Record log_inv (m : wal_mem) : Prop := {
  li_word : m_word m = {| currentBytePos := tip (m_log m); byteSize := size_before (m_log m) (length (m_log m));
                          LRC := Z.of_nat (length (m_log m)) mod 2 ^ 31 |};
  li_rec : ∀ k r, m_log m !! k = Some r → record_ok (m_log m) k r;
  li_limit : XLogBytePosToEndRecPtr (tip (m_log m)) < log_limit }.

(** ** Pages *)

(** Page [g] begins in the middle of the record. *)
Definition crosses (r : logged) (g : Z) : Prop := l_start r < page_first g < l_start r + rec_len r.

Definition head_ok (pg : xlog_page) (g : Z) : Prop :=
  xlp_magic pg = XLOG_PAGE_MAGIC ∧ Z.land (xlp_info pg) (Z.lnot XLP_ALL_FLAGS) = 0 ∧
  (Z.testbit (xlp_info pg) 1 = true ↔ g mod seg_pages = 0) ∧
  xlp_tli pg = ThisTimeLineID ∧ xlp_pageaddr pg = g * XLOG_BLCKSZ ∧
  (g mod seg_pages = 0 → xlp_sysid pg = system_identifier ∧ xlp_seg_size pg = XLogSegSize ∧ xlp_xlog_blcksz pg = XLOG_BLCKSZ).

Definition has_cont (pg : xlog_page) : bool := Z.testbit (xlp_info pg) 0.

(** The page holds what the records have on it, as far as [ok] says that a position of a
    record is there. *)
Record page_ok (log : list logged) (ok : nat → Z → Prop) (pg : xlog_page) (g : Z) : Prop := {
  po_head : head_ok pg g;
  po_data : ∀ k r (i : nat) x, log !! k = Some r → l_bytes r !! i = Some x →
    page_first g ≤ l_start r + Z.of_nat i < page_first (g + 1) → ok k (XLogBytePosToRecPtr (l_start r + Z.of_nat i)) →
    page_data pg (header_size g + (l_start r + Z.of_nat i - page_first g)) = x;
  po_cross : ∀ k r, log !! k = Some r → crosses r g → ok k (g * 8192) → has_cont pg = true ∧ xlp_rem_len pg = l_start r + rec_len r - page_first g;
  po_clean : XLogBytePosToEndRecPtr base ≤ g * 8192 → (∀ k r, log !! k = Some r → ¬ crosses r g) → has_cont pg = false }.

Definition upto_lsn (X : Z) : nat → Z → Prop := λ _ p, p < X.

(** ** Backends *)

Definition in_copy (pc : insert_pc) : option (insertion * copy_vars) := match pc with InsCopy a c _ => Some (a, c) | _ => None end.
Definition in_flight (pc : insert_pc) : option insertion :=
  match pc with InsCopy a _ _ | InsStatus a | InsStatusEnd a | InsReport a => Some a | _ => None end.

Definition holds_ticket (b : backend) (k : nat) : Prop := ∃ a, in_flight (b_pc b) = Some a ∧ ticket a = k.
Definition held (bs : Z → backend) (k : nat) : Prop := ∃ t, holds_ticket (bs t) k.
Definition copying (bs : Z → backend) (k : nat) : Prop := ∃ t a c, in_copy (b_pc (bs t)) = Some (a, c) ∧ ticket a = k.

(** Position [p] of record [k] has been copied. *)
Definition passed (bs : Z → backend) (k : nat) (p : Z) : Prop :=
  ∀ t a c, in_copy (b_pc (bs t)) = Some (a, c) → ticket a = k → p < CurrPos c.

(** The first page in the buffers. *)
Definition window (bf : buffers) : Z := InitializedUpTo bf / 8192 - bufs.

Definition insertion_ok (log : list logged) (F : nat) (a : insertion) : Prop :=
  ∃ r, log !! ticket a = Some r ∧ StartPos a = XLogBytePosToRecPtr (l_start r) ∧ EndPos a = XLogBytePosToEndRecPtr (rec_end r) ∧
    currlrc a = Z.of_nat (ticket a) mod 2 ^ 31 ∧ write_len a = rec_len r ∧ (F ≤ ticket a)%nat.

Definition get_ok (wmax ptr : Z) (g : get_pc) : Prop :=
  match g with
  | GetEnter => True
  | GetWait w => w = X_LOG_PREV_BLOCK_IN_BUF_PAGE (ptr + (XLOG_BLCKSZ - ptr mod XLOG_BLCKSZ))
  | GetReread => ptr / 8192 < wmax
  end.

(** [b] is the usable position of the next byte, [g] the page that is being filled. *)
Definition copy_ok (wmax : Z) (r : logged) (c : copy_vars) (p : copy_pc) : Prop :=
  ∃ b g, 0 ≤ g ∧ page_first g ≤ b ≤ page_first (g + 1) ∧ l_start r ≤ b ≤ l_start r + rec_len r ∧ copied c = b - l_start r ∧
    drop (Z.to_nat (b - l_start r)) (l_bytes r) = rdata_data c ++ concat (rdata c) ∧
    match p with
    | CopyGet true gp => b = l_start r ∧ b < page_first (g + 1) ∧ CurrPos c = XLogBytePosToRecPtr b ∧ get_ok wmax (CurrPos c) gp
    | CopyGet false gp => b = page_first g ∧ l_start r < b ∧ CurrPos c = g * 8192 ∧ rdata_data c ≠ [] ∧ g ≤ wmax ∧ get_ok wmax (CurrPos c) gp
    | CopyHeader => b = page_first g ∧ l_start r < b ∧ CurrPos c = g * 8192 ∧ rdata_data c ≠ [] ∧ currbuf c = g mod bufs ∧ curroff c = 0 ∧ g < wmax
    | CopyData =>
        CurrPos c = g * 8192 + header_size g + (b - page_first g) ∧ (b = page_first g → b < l_start r + rec_len r) ∧ (b = page_first (g + 1) → l_start r < b) ∧
        currbuf c = g mod bufs ∧ curroff c = header_size g + (b - page_first g) ∧ freespace c = page_first (g + 1) - b ∧ g < wmax
    | CopySelfFlush => b = page_first g ∧ l_start r < b ∧ CurrPos c = g * 8192 ∧ g ≤ wmax
    end.

(** [late]: the entry of counter [F] has its new number but not yet been emptied. *)
Definition pc_ok (log : list logged) (F : nat) (late : bool) (wmax : Z) (pc : insert_pc) : Prop :=
  match pc with
  | InsIdle | InsRequest _ | InsWaitFlush _ => True
  | InsPanic => False
  | InsCheck r | InsRead r | InsReserve r _ => request_ok r
  | InsCopy a c p => insertion_ok log F a ∧ ∃ r, log !! ticket a = Some r ∧ copy_ok wmax r c p
  | InsStatus a => insertion_ok log F a
  | InsStatusEnd a => insertion_ok log F a ∧ (Z.of_nat (ticket a) < Z.of_nat F + CNT ∨ late = true ∧ Z.of_nat (ticket a) = Z.of_nat F + CNT)
  | InsReport a => insertion_ok log F a ∧ Z.of_nat (ticket a) < Z.of_nat F + CNT
  end.

Definition inserter_ok (log : list logged) (F : nat) (late : bool) (wmax : Z) (b : backend) : Prop :=
  pc_ok log F late wmax (b_pc b) ∧ 0 ≤ cachedPage b < wmax ∧ cachedPos b = cachedPage b mod bufs.

Record backends_inv (log : list logged) (F : nat) (late : bool) (wmax : Z) (bs : Z → backend) : Prop := {
  bi_ok : ∀ t, inserter_ok log F late wmax (bs t);
  bi_few : ∀ t, ¬ 0 ≤ t < max_backends → b_pc (bs t) = InsIdle;
  bi_once : ∀ t t' k, holds_ticket (bs t) k → holds_ticket (bs t') k → t = t' }.

(** ** The status table *)

(** Record [k] is in the buffers, and its backend has said so. *)
Definition published (log : list logged) (bs : Z → backend) (k : nat) : Prop := (k < length log)%nat ∧ ¬ held bs k.

Definition entry_ok (log : list logged) (bs : Z → backend) (late : bool) (k : nat) (e : WALInsertStatusEntry) : Prop :=
  entry_LRC e = (if late then Z.of_nat k + CNT else Z.of_nat k) mod 2 ^ 31 ∧
  (published log bs k → endLSN e ≠ 0 ∧ Z.land (endLSN e) MAX_XLOG_REC_PTR = end_at log (S k)) ∧
  (¬ published log bs k → endLSN e = 0).

Record status_inv (log : list logged) (bs : Z → backend) (F : nat) (late : bool) (st : Z → WALInsertStatusEntry) : Prop := {
  si_entry : ∀ k, (F ≤ k)%nat → Z.of_nat k < Z.of_nat F + CNT →
    entry_ok log bs (late && bool_decide (k = F)) k (st (Z.of_nat k mod CNT));
  si_retired : (F ≤ length log)%nat;
  si_late : late = true → published log bs F;
  si_held : ∀ k, Z.of_nat F + CNT ≤ Z.of_nat k → (k < length log)%nat → held bs k }.

(** ** The page buffers *)

(** The page that was being filled when the server started. *)
Definition first_page : Z := XLogBytePosToEndRecPtr base / 8192.

(** [half]: the buffer of the first page of the window has been set up for the page behind
    its end, but still has its old identity. *)
Record window_inv (log : list logged) (bs : Z → backend) (F : nat) (half : bool) (bf : buffers) : Prop := {
  wi_aligned : InitializedUpTo bf mod 8192 = 0;
  wi_first : first_page ≤ window bf;
  wi_block : ∀ g, window bf ≤ g < window bf + bufs → xlblocks bf (g mod bufs) = (g + 1) * 8192;
  wi_page : ∀ g, window bf + Z.b2z half ≤ g < window bf + bufs + Z.b2z half → page_ok log (passed bs) (pages bf (g mod bufs)) g;
  wi_sent : sentResult bf / 8192 ≤ window bf;
  wi_low : (window bf + Z.b2z half) * 8192 ≤ end_at log F;
  wi_high : ∀ k, (k ≤ length log)%nat → (∀ j, k = S j → ¬ copying bs j) → end_at log k ≤ (window bf + bufs) * 8192 }.

(** ** The files *)

Definition file_page (d : Z → Z → xlog_page) (g : Z) : xlog_page := d (g / seg_pages) (g mod seg_pages * 8192).

(** Pages before [g] hold the log up to [X]; all pages do. *)
Definition pages_upto (log : list logged) (d : Z → Z → xlog_page) (X g : Z) : Prop :=
  ∀ g', first_page ≤ g' < g → page_ok log (upto_lsn X) (file_page d g') g'.
Definition disk_upto (log : list logged) (d : Z → Z → xlog_page) (X : Z) : Prop :=
  ∀ g, first_page ≤ g → g * 8192 < X → page_ok log (upto_lsn X) (file_page d g) g.

(** Of the pages before [g], those that are not in the open file are synced. *)
Definition synced_upto (log : list logged) (w : write_ctl) (X g : Z) : Prop :=
  ∀ g', first_page ≤ g' < g → g' / seg_pages = openLogSegNo w ∨ page_ok log (upto_lsn X) (file_page (synced w) g') g'.

(** Up to [X], nothing but the open file has to be synced. *)
Definition sync_ok (log : list logged) (w : write_ctl) (X : Z) : Prop :=
  ResultFlush w = X ∨
  ResultFlush w < X ∧ XLByteToPrevSeg X = openLogSegNo w ∧ X mod XLogSegSize ≠ 0 ∧
    ∀ g, first_page ≤ g → g * 8192 < X → g / seg_pages = openLogSegNo w ∨ page_ok log (upto_lsn X) (file_page (synced w) g) g.

Record files_inv (log : list logged) (w : write_ctl) : Prop := {
  fi_order : flushResult w = ResultFlush w ∧ ResultFlush w ≤ ResultWrite w;
  fi_first : XLogBytePosToEndRecPtr base ≤ ResultFlush w;
  fi_top : ResultWrite w ≤ XLogBytePosToEndRecPtr (tip log);
  fi_files : disk_upto log (files w) (ResultWrite w);
  fi_synced : disk_upto log (synced w) (ResultFlush w) }.

(** The entries from [F] to [c] have been filled. *)
Definition scan_range (log : list logged) (bs : Z → backend) (F c : nat) (l : flush_vars) : Prop :=
  (F ≤ c)%nat ∧ Z.of_nat c < Z.of_nat F + CNT ∧ (∀ k, (F ≤ k ≤ c)%nat → published log bs k) ∧ curr_entry_idx l = Z.of_nat c mod CNT.

(** The loop of [XLogWrite]: pages up to [q] are in the files, those from [q] to [g] are to be
    dumped together. *)
Definition dump_group (w : write_ctl) (q g : Z) (v : write_vars) : Prop :=
  npages v = g - q ∧ startidx v = q mod bufs ∧ startidx v + (g - q) ≤ bufs ∧ startoffset v = q mod seg_pages * 8192 ∧
  q / seg_pages = openLogSegNo w ∧ (g - 1) / seg_pages = openLogSegNo w.

Definition write_ok (log : list logged) (F : nat) (X : Z) (bf : buffers) (w : write_ctl) (v : write_vars) : Prop :=
  let g := lw_Write v / 8192 in
  ∃ q, window bf ≤ q ≤ g ∧ ResultWrite w ≤ lw_Write v ≤ X ∧ end_at log F ≤ lw_Write v ∧ lw_Flush v = ResultFlush w ∧
    pages_upto log (files w) X q ∧ synced_upto log w X q ∧ curridx v = g mod bufs ∧
    ((q = g ∧ npages v = 0 ∧ (g / seg_pages = openLogSegNo w ∨ pages_upto log (synced w) X q)) ∨
     (q < g ∧ lw_Write v = g * 8192 ∧ lw_Write v < X ∧ dump_group w q g v ∧ startidx v + (g - q) = g mod bufs ∧ g / seg_pages = openLogSegNo w)) ∧
    (lw_Write v = X → X = g * 8192 ∧ q = g ∧ (ResultFlush w = X ∨ XLByteToPrevSeg X = openLogSegNo w ∧ X mod XLogSegSize ≠ 0)).

Definition dump_ok (log : list logged) (X : Z) (bf : buffers) (w : write_ctl) (v : write_vars) (i : Z) (ip fs : bool) : Prop :=
  ∃ q g, window bf ≤ q ≤ g ∧ lw_Write v = (g + 1) * 8192 ∧ g * 8192 < X ∧ ResultWrite w ≤ X ∧ ResultWrite w ≤ lw_Write v ∧
    lw_Flush v = ResultFlush w ∧ 0 ≤ i ≤ npages v ∧ pages_upto log (files w) X (q + i) ∧ synced_upto log w X (q + i) ∧
    dump_group w q (g + 1) v ∧ curridx v = g mod bufs ∧
    ip = (X <? (g + 1) * 8192) ∧ fs = negb ip && (XLogSegSize <=? startoffset v + npages v * XLOG_BLCKSZ) ∧
    (X ≤ lw_Write v ∨ curridx v = XLogCacheBlck ∨ fs = true).

Definition written_ok (log : list logged) (X : Z) (w : write_ctl) (v : write_vars) : Prop :=
  lw_Write v = X ∧ ResultWrite w ≤ X ∧ lw_Flush v = ResultFlush w ∧ disk_upto log (files w) X ∧ sync_ok log w X.

Definition walwriter_ok (log : list logged) (bs : Z → backend) (F : nat) (bf : buffers) (w : write_ctl) (pc : writer_pc) : Prop :=
  let calm := sentResult bf / 8192 = window bf ∧ window bf = end_at log F / 8192 in
  let idle := ResultWrite w = end_at log F ∧ GET_NEXT_STATUS_ENTRY (lastWalStatusEntryFlushed w) = Z.of_nat F mod CNT ∧
              sync_ok log w (ResultWrite w) in
  let found l c := scan_range log bs F c l ∧ start_entry_idx l = Z.of_nat F mod CNT in
  match pc with
  | WIdle => idle ∧ calm
  | WPanic => False
  | WScan l | WScanned l => idle ∧ calm ∧ ∃ c, found l c
  | WScanNext l => idle ∧ calm ∧ ∃ c, found l c ∧ Z.of_nat c + 1 < Z.of_nat F + CNT
  | WWrite l v => calm ∧ ∃ c, found l c ∧ WriteRqstPtr l = end_at log (S c) ∧ write_ok log F (WriteRqstPtr l) bf w v
  | WDump l v i ip fs => calm ∧ ∃ c, found l c ∧ WriteRqstPtr l = end_at log (S c) ∧ end_at log F < lw_Write v ∧ dump_ok log (WriteRqstPtr l) bf w v i ip fs
  | WWritten l v => calm ∧ ∃ c, found l c ∧ WriteRqstPtr l = end_at log (S c) ∧ written_ok log (WriteRqstPtr l) w v
  | WSync l => calm ∧ ∃ c, found l c ∧ WriteRqstPtr l = end_at log (S c) ∧ ResultWrite w = end_at log (S c) ∧
      lastWalStatusEntryFlushed w = curr_entry_idx l ∧ sync_ok log w (ResultWrite w)
  | WReset l i | WResetEnd l i => (sentResult bf / 8192 = window bf ∧ window bf ≤ end_at log F / 8192) ∧ ∃ c, scan_range log bs F c l ∧ i = Z.of_nat F mod CNT ∧
      WriteRqstPtr l = end_at log (S c) ∧ ResultWrite w = end_at log (S c) ∧ lastWalStatusEntryFlushed w = curr_entry_idx l ∧ sync_ok log w (ResultWrite w)
  | WInit l => (sentResult bf / 8192 = window bf ∧ window bf ≤ end_at log F / 8192) ∧ WriteRqstPtr l = end_at log F ∧ idle
  | WAdvance l => window bf ≤ end_at log F / 8192 ∧ WriteRqstPtr l = end_at log F ∧ idle
  | WAdvanceBlock l => window bf < end_at log F / 8192 ∧ WriteRqstPtr l = end_at log F ∧ idle
  | WSent l => window bf = end_at log F / 8192 ∧ WriteRqstPtr l = end_at log F ∧ idle
  end.

(** ** All of it *)

Definition is_late (pc : writer_pc) : bool := match pc with WResetEnd _ _ => true | _ => false end.
Definition is_half (pc : writer_pc) : bool := match pc with WAdvanceBlock _ => true | _ => false end.

Record wal_inv (σ : wal_config) : Prop := {
  inv_log : log_inv (mem σ);
  inv_backends : backends_inv (m_log (mem σ)) (retired σ) (is_late (writer σ)) (window (m_buf (mem σ)) + bufs) (backends σ);
  inv_status : status_inv (m_log (mem σ)) (backends σ) (retired σ) (is_late (writer σ)) (m_status (mem σ));
  inv_window : window_inv (m_log (mem σ)) (backends σ) (retired σ) (is_half (writer σ)) (m_buf (mem σ));
  inv_files : files_inv (m_log (mem σ)) (m_wrt (mem σ));
  inv_writer : walwriter_ok (m_log (mem σ)) (backends σ) (retired σ) (m_buf (mem σ)) (m_wrt (mem σ)) (writer σ) }.

End inv.
