(* ===== verification/XLogPages.v ===== *)
(** * Records and pages of the write-ahead log: lemmas

    The records follow one another without gap or overlap; what a page holds under one
    account of what has been copied it holds under another. *)

From S2P Require Import Prelude FsmPage XLogDefs XLogInsert XLogWriter XLogInv.
From stdpp Require Import list.

Open Scope Z_scope.

Lemma length_le_bytes n v : length (le_bytes n v) = n.
Proof. revert v. induction n as [|n IH]; intros v; cbn; [done|by rewrite IH]. Qed.

Lemma length_record_bytes r : length (record_bytes r) = 32%nat.
Proof. unfold record_bytes, record_head. by rewrite !length_app, !length_le_bytes. Qed.

Section log.
Context `{WalGeometryOk} `{WalEnv}.
Variables (base lastsize : Z).
Hypothesis base_pos : 0 < base.
Hypothesis base_aligned : base mod 8 = 0.

Abbreviation log_inv := (log_inv base lastsize).
Abbreviation record_ok := (record_ok base lastsize).
Abbreviation tip := (tip base).
Abbreviation tip_at := (tip_at base).
Abbreviation end_at := (end_at base).
Abbreviation page_ok := (page_ok base).

(** ** The records *)

Definition chain (log : list logged) : Prop := ∀ k r, log !! k = Some r → record_ok log k r.

Lemma bufs_pos : 1 ≤ bufs.
Proof. unfold bufs. pose proof cache_range. lia. Qed.

Lemma chunks_length prev q : request_ok q → Z.of_nat (length (concat (record_chunks prev q))) = xl_tot_len (rechdr q).
Proof.
  intros (Hl & _). cbn [record_chunks concat]. rewrite !length_app, length_record_bytes. rewrite Hl, length_app. unfold SizeOfXLogRecord. lia.
Qed.

Lemma record_len log k r : record_ok log k r → 32 ≤ rec_len r < XLogRecordMaxSize.
Proof.
  intros (_ & _ & q & Hq & Hb). unfold rec_len. rewrite Hb, chunks_length by done. destruct Hq as (Hl & Hm & _). unfold SizeOfXLogRecord in *. lia.
Qed.

Lemma record_size_range r : 32 ≤ rec_len r < XLogRecordMaxSize → rec_len r ≤ record_size (l_bytes r) < rec_len r + 8 ∧ record_size (l_bytes r) mod 8 = 0.
Proof.
  unfold rec_len, record_size, XLogRecordMaxSize. intros. rewrite MAXALIGN_eq by lia. zdiv.
Qed.

Lemma tip_at_0 log : tip_at log 0 = base.
Proof. done. Qed.
Lemma tip_at_all log k : (length log ≤ k)%nat → tip_at log k = tip log.
Proof. intros. unfold XLogInv.tip_at. by rewrite take_ge. Qed.
Lemma tip_at_S log k r : log !! k = Some r → tip_at log (S k) = rec_end r.
Proof. intros Hk. unfold XLogInv.tip_at, XLogInv.tip. by rewrite (take_S_r _ _ r), last_snoc. Qed.
Lemma tip_at_app log log' k : (k ≤ length log)%nat → tip_at (log ++ log') k = tip_at log k.
Proof. intros. unfold XLogInv.tip_at. by rewrite take_app_le. Qed.
Lemma size_before_app log log' k : (k ≤ length log)%nat → size_before lastsize (log ++ log') k = size_before lastsize log k.
Proof. intros. unfold size_before. by rewrite take_app_le. Qed.
Lemma end_at_app log log' k : (k ≤ length log)%nat → end_at (log ++ log') k = end_at log k.
Proof. intros. unfold XLogInv.end_at. by rewrite tip_at_app. Qed.

Lemma tip_at_step log k : chain log → (k < length log)%nat →
  ∃ r, log !! k = Some r ∧ l_start r = tip_at log k ∧ tip_at log (S k) = rec_end r ∧ 32 ≤ rec_len r < XLogRecordMaxSize ∧
    l_start r + rec_len r ≤ rec_end r < l_start r + rec_len r + 8 ∧ rec_end r mod 8 = (l_start r) mod 8.
Proof.
  intros Hc Hk. destruct (lookup_lt_is_Some_2 log k Hk) as [r Hr]. exists r. pose proof (Hc k r Hr) as Hok. pose proof (record_len _ _ _ Hok) as Hl.
  pose proof (record_size_range r Hl). destruct Hok as (Hs & _). rewrite (tip_at_S _ _ _ Hr). unfold rec_end in *. split_and!; try done; try lia. zdiv.
Qed.

Lemma tip_at_le log j k : chain log → (j ≤ k)%nat → tip_at log j ≤ tip_at log k ∧ tip_at log j mod 8 = 0.
Proof.
  intros Hc Hjk. induction k as [|k IH] in j, Hjk |- *.
  - assert (j = 0)%nat as -> by lia. rewrite tip_at_0. lia.
  - destruct (decide (k < length log)%nat) as [Hk|Hk].
    + destruct (tip_at_step log k Hc Hk) as (r & Hr & Hs & He & Hl & Hsz & Hm). destruct (decide (j = S k)) as [->|].
      * destruct (IH k ltac:(lia)) as [_ Hm0]. rewrite He. split; [done|congruence].
      * destruct (IH j ltac:(lia)). lia.
    + destruct (decide (j = S k)) as [->|].
      * destruct (IH k ltac:(lia)). rewrite (tip_at_all log (S k)), <- (tip_at_all log k) by lia. done.
      * destruct (IH j ltac:(lia)). rewrite (tip_at_all log (S k)), <- (tip_at_all log k) by lia. lia.
Qed.

Lemma tip_at_base log k : chain log → base ≤ tip_at log k.
Proof. intros Hc. pose proof (tip_at_le log 0 k Hc ltac:(lia)). rewrite tip_at_0 in *. lia. Qed.

Lemma tip_at_lt log j k : chain log → (j < k)%nat → (j < length log)%nat → tip_at log j < tip_at log k.
Proof.
  intros Hc Hjk Hj. destruct (tip_at_step log j Hc Hj) as (r & Hr & Hs & He & Hl & Hsz & Hm). pose proof (tip_at_le log (S j) k Hc ltac:(lia)). lia.
Qed.

Lemma end_at_le log j k : chain log → (j ≤ k)%nat → end_at log j ≤ end_at log k.
Proof.
  intros Hc Hjk. apply end_ptr_le; [pose proof (tip_at_base log j Hc); lia|pose proof (tip_at_base log k Hc); lia|]. by apply tip_at_le.
Qed.
Lemma end_at_lt log j k : chain log → (j < k)%nat → (j < length log)%nat → end_at log j < end_at log k.
Proof.
  intros Hc Hjk Hj. apply end_ptr_lt; [pose proof (tip_at_base log j Hc); lia|pose proof (tip_at_base log k Hc); lia|]. by apply tip_at_lt.
Qed.

Lemma end_at_pos log k : chain log → 0 < end_at log k.
Proof.
  intros Hc. pose proof (tip_at_base log k Hc). pose proof (end_ptr_lt 0 (tip_at log k) ltac:(lia) ltac:(lia)) as Hlt.
  unfold XLogInv.end_at. pose proof (end_ptr_le_rec 0 ltac:(lia)). destruct (byte_page 0 ltac:(lia)) as (g & Hg & Hgb & _ & He0).
  assert (0 ≤ XLogBytePosToEndRecPtr 0); [|lia]. rewrite He0. case_match; [lia|]. pose proof (header_size_cases g). lia.
Qed.

Lemma page_end_ptr g : 0 ≤ g → XLogBytePosToEndRecPtr (page_first g) = g * 8192.
Proof. intros Hg. pose proof (page_first_lt g (g + 1)). rewrite (end_ptr_at g) by (try apply page_first_nonneg; lia). by rewrite Z.eqb_refl. Qed.

(** Positions of a record: of its bytes, and of the pages that begin in it. *)
Definition inside (r : logged) (p : Z) : Prop := XLogBytePosToRecPtr (l_start r) ≤ p < XLogBytePosToEndRecPtr (l_start r + rec_len r).

Lemma inside_byte r (i : nat) x : 0 ≤ l_start r → l_bytes r !! i = Some x → inside r (XLogBytePosToRecPtr (l_start r + Z.of_nat i)).
Proof.
  intros Hs Hi%lookup_lt_Some. unfold inside, rec_len. split.
  - pose proof (rec_ptr_lt (l_start r + Z.of_nat i) (l_start r)). lia.
  - apply rec_lt_end; lia.
Qed.

Lemma inside_cross r g : 0 ≤ l_start r → crosses r g → 0 ≤ g → inside r (g * 8192).
Proof.
  intros Hs [Hc1 Hc2] Hg. unfold inside. rewrite <- page_end_ptr by done. split; [|apply end_ptr_lt; lia]. pose proof (proj2 (rec_lt_end (l_start r) (page_first g) Hs (page_first_nonneg g Hg)) Hc1). lia.
Qed.

Lemma crosses_page_pos r g : 0 ≤ l_start r → crosses r g → 0 ≤ g.
Proof. intros Hs [Hc _]. assert (page_first 0 < page_first g) as Hl by (rewrite page_first_0; lia). apply page_first_lt in Hl. lia. Qed.

Lemma inside_log log k r p : chain log → log !! k = Some r → inside r p → end_at log k ≤ p < end_at log (S k).
Proof.
  intros Hc Hr [Hp1 Hp2]. destruct (tip_at_step log k Hc ltac:(by eapply lookup_lt_Some)) as (r' & Hr' & Hs & He & Hl & Hsz & _).
  simplify_eq. unfold XLogInv.end_at. rewrite <- Hs, He. pose proof (tip_at_base log k Hc). split; [pose proof (end_ptr_le_rec (l_start r)); lia|].
  pose proof (end_ptr_le (l_start r + rec_len r) (rec_end r)). lia.
Qed.

(** ** What pages hold *)

Lemma page_ok_weaken log (ok ok' : nat → Z → Prop) pg g : chain log →
  (∀ k r p, log !! k = Some r → inside r p → p / 8192 = g → ok' k p → ok k p) → page_ok log ok pg g → page_ok log ok' pg g.
Proof.
  intros Hc Hok [Hh Hd Hx Hn]. split; [done| | |done].
  - intros k r i x Hr Hi Hg Ho. apply (Hd k r i x Hr Hi Hg). destruct (Hc k r Hr) as [Hs _]. pose proof (tip_at_base log k Hc).
    eapply Hok; [done| | |done]; [by eapply inside_byte; [lia|]|]. rewrite (rec_ptr_at g) by lia.
    pose proof (page_first_succ g). pose proof (header_size_cases g). zdiv.
  - intros k r Hr Hcr Ho. apply (Hx k r Hr Hcr). destruct (Hc k r Hr) as [Hs _]. pose proof (tip_at_base log k Hc).
    eapply Hok; [done| |zdiv|done]. apply inside_cross; [lia|done|]. eapply crosses_page_pos; [|done]. lia.
Qed.

(** A usable byte belongs to one record. *)
Lemma byte_owner log k k' r r' b : chain log → log !! k = Some r → log !! k' = Some r' →
  l_start r ≤ b < l_start r + rec_len r → l_start r' ≤ b < l_start r' + rec_len r' → k = k'.
Proof.
  intros Hc Hr Hr' Hb Hb'. destruct (tip_at_step log k Hc ltac:(by eapply lookup_lt_Some)) as (r1 & Hr1 & Hs & He & _ & Hsz & _).
  destruct (tip_at_step log k' Hc ltac:(by eapply lookup_lt_Some)) as (r2 & Hr2 & Hs' & He' & _ & Hsz' & _). simplify_eq.
  destruct (decide (k < k')%nat). { pose proof (tip_at_le log (S k) k' Hc ltac:(lia)). lia. }
  destruct (decide (k' < k)%nat); [|lia]. pose proof (tip_at_le log (S k') k Hc ltac:(lia)). lia.
Qed.

(** A record that is appended has nothing on the page yet. *)
Lemma page_ok_append log (ok : nat → Z → Prop) r pg g : 0 ≤ l_start r → (∀ p, inside r p → ¬ ok (length log) p) →
  page_ok log ok pg g → page_ok (log ++ [r]) ok pg g.
Proof.
  intros Hs Hno [Hh Hd Hx Hn]. split; [done| | |].
  - intros k r' i x Hr Hi Hg Ho. apply lookup_app_Some in Hr as [Hr|[Hk Hr]]; [by eapply Hd|].
    apply list_lookup_singleton_Some in Hr as [Hk' ->]. assert (k = length log) as -> by lia. exfalso. eapply Hno; [|exact Ho]. by eapply inside_byte.
  - intros k r' Hr Hcr Ho. apply lookup_app_Some in Hr as [Hr|[Hk Hr]]; [by eapply Hx|].
    apply list_lookup_singleton_Some in Hr as [Hk' ->]. assert (k = length log) as -> by lia. exfalso. eapply Hno; [|exact Ho].
    apply inside_cross; [done|done|]. by eapply crosses_page_pos.
  - intros He Hnx. apply Hn; [done|]. intros k r' Hr. apply (Hnx k r'). by apply lookup_app_l_Some.
Qed.

(** What is on disk does not depend on records that are appended later. *)
Lemma page_ok_later log X r pg g : 0 ≤ l_start r → X ≤ XLogBytePosToEndRecPtr (l_start r) → page_ok log (upto_lsn X) pg g → page_ok (log ++ [r]) (upto_lsn X) pg g.
Proof.
  intros Hs HX. apply page_ok_append; [done|]. intros p [Hp _] Hlt. unfold upto_lsn in Hlt. pose proof (end_ptr_le_rec (l_start r) Hs). lia.
Qed.

(** Below a position, a larger bound says no more about whole pages. *)
Lemma page_ok_bound log X Y pg g : chain log → (g + 1) * 8192 ≤ X ∨ Y ≤ X → page_ok log (upto_lsn X) pg g → page_ok log (upto_lsn Y) pg g.
Proof.
  intros Hc HX [Hh Hd Hx Hn]. split; [done| | |done].
  - intros k r i x Hr Hi Hg Ho. apply (Hd k r i x Hr Hi Hg). unfold upto_lsn in *. destruct HX; [|lia]. destruct (Hc k r Hr) as [Hs _].
    pose proof (tip_at_base log k Hc). rewrite (rec_ptr_at g) by lia. pose proof (page_first_succ g). lia.
  - intros k r Hr Hcr Ho. apply (Hx k r Hr Hcr). unfold upto_lsn in *. destruct HX; lia.
Qed.

End log.
