(* ===== verification/XLogBackend.v ===== *)
(** * Inserting backends keep the invariant

    Every step of [XLogInsertRecordSingle] leads from a configuration with [wal_inv] to one
    with [wal_inv], as long as the log stays below [log_limit]. *)

From S2P Require Import Prelude FsmPage XLogDefs XLogInsert XLogWriter XLogInv XLogPages.
From stdpp Require Import list.

Open Scope Z_scope.

Section backend.
Context `{WalGeometryOk} `{WalEnv}.
Variables (base lastsize : Z).
Hypothesis base_pos : 0 < base.
Hypothesis base_aligned : base mod 8 = 0.

Abbreviation wal_inv := (wal_inv base lastsize).
Abbreviation end_at := (end_at base).
Abbreviation page_ok := (page_ok base).
Abbreviation wmax σ := (window (m_buf (mem σ)) + bufs).

Lemma inv_chain σ : wal_inv σ → chain base lastsize (m_log (mem σ)).
Proof. intros Hi k r. apply Hi. Qed.

(** ** Changing one backend *)

Lemma held_same (bs : Z → backend) (t : Z) (b' : backend) k : in_flight (b_pc b') = in_flight (b_pc (bs t)) → held (<[t := b']> bs) k ↔ held bs k.
Proof.
  intros Hf. unfold held, holds_ticket. split; intros (t' & a & Ha & Hk).
  - destruct (decide (t' = t)) as [->|Hne]; [rewrite fn_lookup_insert in Ha; exists t, a; by rewrite <- Hf|].
    rewrite fn_lookup_insert_ne in Ha by done. by exists t', a.
  - exists t', a. destruct (decide (t' = t)) as [->|Hne]; [by rewrite fn_lookup_insert, Hf|by rewrite fn_lookup_insert_ne].
Qed.

Lemma holds_once (bs : Z → backend) (t : Z) (b' : backend) : in_flight (b_pc b') = in_flight (b_pc (bs t)) →
  (∀ t1 t2 k, holds_ticket (bs t1) k → holds_ticket (bs t2) k → t1 = t2) →
  ∀ t1 t2 k, holds_ticket (<[t := b']> bs t1) k → holds_ticket (<[t := b']> bs t2) k → t1 = t2.
Proof.
  intros Hf Honce t1 t2 k. assert (∀ t', holds_ticket (<[t := b']> bs t') k → holds_ticket (bs t') k) as Hh.
  { intros t' (a & Ha & Hk). exists a. split; [|done]. destruct (decide (t' = t)) as [->|Hne].
    - rewrite fn_lookup_insert in Ha. by rewrite <- Hf.
    - by rewrite fn_lookup_insert_ne in Ha. }
  intros Hh1%Hh Hh2%Hh. by eapply Honce.
Qed.

Lemma published_same log (bs : Z → backend) (t : Z) (b' : backend) k : in_flight (b_pc b') = in_flight (b_pc (bs t)) → published log (<[t := b']> bs) k ↔ published log bs k.
Proof. intros Hf. unfold published. by rewrite held_same. Qed.

Lemma scan_range_mono log log' bs bs' F c l : (∀ k, published log bs k → published log' bs' k) → scan_range log bs F c l → scan_range log' bs' F c l.
Proof. intros Hp (? & ? & Hk & ?). split_and!; try done. intros k Hr. by apply Hp, Hk. Qed.

(** The files are those of a log with fewer or the same records. *)
Lemma walwriter_mono log bs bs' F bf bf' w pc : InitializedUpTo bf' = InitializedUpTo bf → sentResult bf' = sentResult bf →
  (∀ k, published log bs k → published log bs' k) →
  walwriter_ok base log bs F bf w pc → walwriter_ok base log bs' F bf' w pc.
Proof.
  intros Hi Hs Hp. assert (window bf' = window bf) as Hw by (unfold window; by rewrite Hi).
  assert (∀ F c l, scan_range log bs F c l → scan_range log bs' F c l) as Hsc by (intros; by eapply scan_range_mono).
  assert (∀ X v, write_ok base log F X bf w v → write_ok base log F X bf' w v) as Hwo by (intros X v; unfold write_ok; by rewrite Hw).
  assert (∀ X v i ip fs, dump_ok base log X bf w v i ip fs → dump_ok base log X bf' w v i ip fs) as Hdo by (intros X v i ip fs; unfold dump_ok; by rewrite Hw).
  destruct pc; cbn; rewrite ?Hs, ?Hw; try done; intros Hx;
    repeat match goal with Hx : _ ∧ _ |- _ => destruct Hx | Hx : ∃ c : nat, _ |- _ => destruct Hx as [c Hx] end; split_and!; try done;
    exists c; split_and!; auto.
Qed.

Lemma pc_in_range σ t : wal_inv σ → b_pc (backends σ t) ≠ InsIdle → 0 ≤ t < max_backends.
Proof. intros Hi Hne. destruct (decide (0 ≤ t < max_backends)); [done|]. exfalso. apply Hne. by apply (inv_backends _ _ _ Hi). Qed.

Lemma backend_step σ t b' pg' : wal_inv σ → 0 ≤ t < max_backends →
  in_flight (b_pc b') = in_flight (b_pc (backends σ t)) →
  inserter_ok (m_log (mem σ)) (retired σ) (is_late (writer σ)) (wmax σ) b' →
  (∀ g, window (m_buf (mem σ)) + Z.b2z (is_half (writer σ)) ≤ g < wmax σ + Z.b2z (is_half (writer σ)) →
     page_ok (m_log (mem σ)) (passed (backends σ)) (pages (m_buf (mem σ)) (g mod bufs)) g →
     page_ok (m_log (mem σ)) (passed (<[t := b']> (backends σ))) (pg' (g mod bufs)) g) →
  (∀ k, (k < length (m_log (mem σ)))%nat → ¬ copying (<[t := b']> (backends σ)) k →
     ¬ copying (backends σ) k ∨ end_at (m_log (mem σ)) (S k) ≤ wmax σ * 8192) →
  wal_inv (backend_at t b' (set_buf (with_pages pg' (m_buf (mem σ))) (mem σ)) σ).
Proof.
  intros [Hl [Hb1 Hb2 Hb3] [Hs1 Hs2 Hs3 Hs4] [Hw1 Hw2 Hw3 Hw4 Hw5 Hw6 Hw7] Hfi Hwr] Ht Hf Hok Hpg Hco.
  unfold backend_at, set_buf. split; cbn [mem backends writer retired m_log m_buf m_status m_wrt].
  - by destruct Hl; split.
  - split; [| |by apply holds_once].
    + intros t'. destruct (decide (t' = t)) as [->|Hne]; [by rewrite fn_lookup_insert|rewrite fn_lookup_insert_ne by done; apply Hb1].
    + intros t' Ht'. rewrite fn_lookup_insert_ne by (intros ->; done). by apply Hb2.
  - split; [|done| |].
    + intros k Hk1 Hk2. destruct (Hs1 k Hk1 Hk2) as (? & ? & ?). unfold entry_ok. rewrite published_same by done. done.
    + intros Hla. rewrite published_same by done. by apply Hs3.
    + intros k Hk1 Hk2. rewrite held_same by done. by apply Hs4.
  - split; try done; cbn [InitializedUpTo pages xlblocks sentResult with_pages].
    + intros g Hg. apply Hpg; [done|]. by apply Hw4.
    + intros k Hk Hnc. destruct k as [|j]; [by apply Hw7|]. destruct (Hco j Hk (Hnc j eq_refl)) as [Hn|He]; [|done].
      apply Hw7; [done|]. intros j' [= <-]. done.
  - done.
  - eapply walwriter_mono; [done|done| |exact Hwr]. intros k. by rewrite published_same.
Qed.

Lemma set_buf_same m : set_buf (with_pages (pages (m_buf m)) (m_buf m)) m = m.
Proof. by destruct m as [? ? [] ? ? ?]. Qed.

(** A step that leaves the copied part of the record as it is. *)
Lemma backend_local σ t b' : wal_inv σ → 0 ≤ t < max_backends →
  in_flight (b_pc b') = in_flight (b_pc (backends σ t)) →
  (prod_map ticket CurrPos <$> in_copy (b_pc b') = prod_map ticket CurrPos <$> in_copy (b_pc (backends σ t))) →
  inserter_ok (m_log (mem σ)) (retired σ) (is_late (writer σ)) (wmax σ) b' →
  wal_inv (backend_at t b' (mem σ) σ).
Proof.
  intros Hi Ht Hf Hc Hok. rewrite <- (set_buf_same (mem σ)). apply backend_step; try done.
  - intros g Hg. apply page_ok_weaken with lastsize; [done|done|by apply inv_chain|].
    intros k r p Hr Hp Hpg Hpass t' a c Hac Hk. destruct (decide (t' = t)) as [->|Hne].
    + rewrite Hac in Hc. destruct (in_copy (b_pc b')) as [[a' c']|] eqn:Ec; [|done]. simplify_eq/=.
      replace (CurrPos c) with (CurrPos c') by congruence. apply (Hpass t a' c'); [by rewrite fn_lookup_insert|congruence].
    + apply (Hpass t' a c); [by rewrite fn_lookup_insert_ne|done].
  - intros k Hk Hnc. left. intros (t' & a & c & Hac & Hak). apply Hnc. destruct (decide (t' = t)) as [->|Hne].
    + rewrite Hac in Hc. destruct (in_copy (b_pc b')) as [[a' c']|] eqn:Ec; [|done]. simplify_eq/=.
      exists t, a', c'. rewrite fn_lookup_insert. split; [done|congruence].
    + exists t', a, c. by rewrite fn_lookup_insert_ne.
Qed.

(** ** The page buffer *)

Section copying.
Variable σ : wal_config.
Hypothesis Hinv : wal_inv σ.

Abbreviation log := (m_log (mem σ)).
Abbreviation bf := (m_buf (mem σ)).

Lemma first_page_nonneg : 0 ≤ first_page base.
Proof.
  unfold first_page. pose proof (end_at_pos base lastsize base_pos base_aligned [] 0 ltac:(by intros ??)) as Hp.
  unfold XLogInv.end_at in Hp. rewrite tip_at_0 in Hp. zdiv.
Qed.

Lemma window_nonneg : 0 ≤ window bf.
Proof. pose proof (wi_first _ _ _ _ _ _ (inv_window _ _ _ Hinv)). pose proof first_page_nonneg. lia. Qed.

(** The page of the window in a given buffer. *)
Lemma window_residue w g : ∃ g', w ≤ g' < w + bufs ∧ g' mod bufs = g mod bufs.
Proof.
  pose proof bufs_pos as Hn. exists (w + (g - w) mod bufs). assert (0 < bufs) as Hp by lia. pose proof (Z.mod_pos_bound (g - w) bufs Hp). split; [lia|].
  rewrite Zplus_mod_idemp_r. f_equal. lia.
Qed.

Lemma residue_unique w g g' : w ≤ g < w + bufs → w ≤ g' < w + bufs → g mod bufs = g' mod bufs → g = g'.
Proof.
  pose proof bufs_pos as Hn. intros ? ? He. apply Z.cong_iff_0 in He. destruct (decide (g = g')) as [|Hne]; [done|].
  apply Z.mod_divide in He as [q Hq]; [|lia]. assert (q = 0 ∨ q ≤ -1 ∨ 1 ≤ q) as [-> | [|]] by lia; nia.
Qed.

Lemma get_buffer ptr g b : window bf ≤ ptr / 8192 → get_ok (wmax σ) ptr g → 0 ≤ cachedPage b < wmax σ → cachedPos b = cachedPage b mod bufs →
  match GetXLogBuffer bf (cachedPage b) (cachedPos b) ptr g with
  | GetGo g' => get_ok (wmax σ) ptr g'
  | GetFound page buf => page = ptr / 8192 ∧ buf = page mod bufs ∧ page < wmax σ
  | GetPanic => False
  end.
Proof.
  intros Hw Hg Hc Hcp. destruct (inv_window _ _ _ Hinv) as [_ _ Hblk _ Hsent _ _]. pose proof window_nonneg.
  unfold GetXLogBuffer, XLogRecPtrToBufIdx, XLOG_BLCKSZ. change (XLogCacheBlck + 1) with bufs.
  set (gp := ptr / 8192) in *. assert (ptr + (8192 - ptr mod 8192) = (gp + 1) * 8192) as -> by (unfold gp; zdiv).
  assert ((gp + 1) * 8192 = xlblocks bf (gp mod bufs) → gp < wmax σ) as Hfound.
  { intros He. destruct (window_residue (window bf) gp) as (g' & Hg' & Hm). rewrite <- Hm, (Hblk g') in He by lia. lia. }
  destruct g as [|w|].
  - destruct (gp =? cachedPage b) eqn:E; [bool_to_prop; split_and!; lia|]. destruct (_ =? xlblocks _ _) eqn:E2.
    + bool_to_prop. split_and!; [done|done|by apply Hfound].
    + cbn. unfold gp, XLOG_BLCKSZ. f_equal. zdiv.
  - cbn in Hg. destruct (sentResult bf <? w) eqn:E; [done|]. cbn. bool_to_prop. fold gp. subst w. revert E.
    unfold X_LOG_PREV_BLOCK_IN_BUF_PAGE, XLOG_BLCKSZ. change (XLogCacheBlck + 1) with bufs.
    replace (ptr + (8192 - ptr mod 8192)) with ((gp + 1) * 8192) by (unfold gp; zdiv). pose proof bufs_pos. case_match; bool_to_prop; [lia|].
    intros. assert (gp + 1 - bufs ≤ sentResult bf / 8192); [|lia]. apply Z.div_le_lower_bound; lia.
  - cbn in Hg. fold gp in Hg. rewrite Hblk by lia. rewrite Z.eqb_refl. done.
Qed.

(** ** Copying *)

Lemma copy_pos_low wm r c p : 0 ≤ l_start r → copy_ok wm r c p → XLogBytePosToEndRecPtr (l_start r) ≤ CurrPos c.
Proof.
  intros Hs (b & g & Hg0 & Hg & Hb & _ & _ & Hp).
  assert (XLogBytePosToEndRecPtr b ≤ CurrPos c).
  { assert (∀ g', 0 ≤ g' → b = page_first g' → XLogBytePosToEndRecPtr b = g' * 8192) as He by (intros g' ? ->; by apply page_end_ptr).
    destruct p as [[] gp| | |].
    - destruct Hp as (-> & ? & -> & _). apply end_ptr_le_rec. lia.
    - destruct Hp as (Hbg & ? & -> & _). rewrite (He g); lia.
    - destruct Hp as (Hbg & ? & -> & _). rewrite (He g); lia.
    - destruct Hp as (-> & _). pose proof (header_size_cases g). destruct (decide (b = page_first (g + 1))) as [Hbe|].
      + rewrite (He (g + 1)) by lia. pose proof (page_first_succ g). lia.
      + rewrite (end_ptr_at g) by lia. case_match; lia.
    - destruct Hp as (Hbg & ? & -> & _). rewrite (He g); lia. }
  pose proof (end_ptr_le (l_start r) b ltac:(lia) ltac:(lia)). lia.
Qed.

Lemma insertion_start a : insertion_ok log (retired σ) a → ∃ r, log !! ticket a = Some r ∧ 0 ≤ l_start r ∧ l_start r mod 8 = 0 ∧
  32 ≤ rec_len r ∧ l_start r = tip_at base log (ticket a) ∧ rec_end r = (l_start r + rec_len r + 7) / 8 * 8 ∧
  (window bf + Z.b2z (is_half (writer σ))) * 8192 ≤ XLogBytePosToEndRecPtr (l_start r).
Proof.
  intros (r & Hr & _ & _ & _ & _ & HF). exists r. pose proof (inv_chain _ Hinv) as Hc.
  destruct (tip_at_step base lastsize log (ticket a) Hc ltac:(by eapply lookup_lt_Some)) as (r' & Hr' & Hs & He & Hl & Hsz & Hm). simplify_eq.
  pose proof (tip_at_base base lastsize base_aligned log (ticket a) Hc).
  pose proof (tip_at_le base lastsize base_aligned log (ticket a) (ticket a) Hc ltac:(lia)) as [_ Hm8]. rewrite <- Hs in Hm8.
  split_and!; try done; try lia; [zdiv|].
  pose proof (wi_low _ _ _ _ _ _ (inv_window _ _ _ Hinv)). pose proof (end_at_le base lastsize base_pos base_aligned log _ _ Hc HF) as Hle.
  unfold XLogInv.end_at at 2 in Hle. rewrite <- Hs in Hle. lia.
Qed.

Lemma copy_window t a c p : b_pc (backends σ t) = InsCopy a c p → window bf + Z.b2z (is_half (writer σ)) ≤ CurrPos c / 8192.
Proof.
  intros Hpc. destruct (bi_ok _ _ _ _ _ (inv_backends _ _ _ Hinv) t) as [Hok _]. rewrite Hpc in Hok. destruct Hok as [Hins (r & Hr & Hcp)].
  destruct (insertion_start a Hins) as (r' & Hr' & Hs & _ & _ & _ & _ & Hw). simplify_eq. pose proof (copy_pos_low _ _ _ _ Hs Hcp).
  apply Z.div_le_lower_bound; lia.
Qed.

Lemma div_page g x : 0 ≤ x < 8192 → (g * 8192 + x) / 8192 = g.
Proof. intros. zdiv. Qed.
Lemma mod_page g x : 0 ≤ x < 8192 → (g * 8192 + x) mod 8192 = x.
Proof. intros. zdiv. Qed.

Lemma copy_get wm r c (first : bool) g : copy_ok wm r c (CopyGet first g) → get_ok wm (CurrPos c) g.
Proof. by intros (b & g' & _ & _ & _ & _ & _ & Hp); destruct first; [destruct Hp as (_ & _ & _ & Hp)|destruct Hp as (_ & _ & _ & _ & _ & Hp)]. Qed.
Lemma copy_get_go wm r c (first : bool) g g2 : copy_ok wm r c (CopyGet first g) → get_ok wm (CurrPos c) g2 → copy_ok wm r c (CopyGet first g2).
Proof.
  intros (b & g' & Hp0 & Hp1 & Hp2 & Hp3 & Hp4 & Hp) Hg. exists b, g'. destruct first; [destruct Hp as (? & ? & ? & _)|destruct Hp as (? & ? & ? & ? & ? & _)]; do 5 (split; [done|]); by split_and!.
Qed.

(** The buffer has been found. *)
Lemma copy_found wm r c (first : bool) gp buf : 0 ≤ l_start r → 32 ≤ rec_len r → copy_ok wm r c (CopyGet first gp) → buf = (CurrPos c / 8192) mod bufs →
  CurrPos c / 8192 < wm → copy_ok wm r (copy_at buf c) (if first then CopyData else CopyHeader).
Proof.
  intros Hs Hl (b & g & Hg0 & Hg & Hb & Hco & Hd & Hp) Hbuf Hlt. exists b, g. unfold copy_at, INSERT_FREESPACE. destruct first; cbn.
  - destruct Hp as (-> & Hgb & HC & _). rewrite (rec_ptr_at g) in HC by lia. pose proof (header_size_cases g). pose proof (page_first_succ g).
    rewrite HC in Hlt, Hbuf. rewrite HC. rewrite <- Z.add_assoc in Hlt, Hbuf |- *. rewrite div_page in Hlt, Hbuf by lia. unfold XLOG_BLCKSZ. rewrite mod_page by lia.
    split_and!; try done; try lia. case_match; lia.
  - destruct Hp as (? & ? & HC & ? & _). rewrite HC in Hlt, Hbuf |- *. rewrite Z.div_mul in Hlt, Hbuf by lia. unfold XLOG_BLCKSZ. rewrite Z.mod_mul by lia.
    split_and!; try done; lia.
Qed.

(** The page is full. *)
Lemma copy_full wm r c x d : copy_ok wm r c CopyData → rdata_data c = x :: d → freespace c = 0 →
  copy_ok wm r c (CopyGet false GetEnter) ∧ copy_ok wm r c CopySelfFlush.
Proof.
  intros (b & g & Hg0 & Hg & Hb & Hco & Hd & HC & Hne & Hst & Hbuf & Hoff & Hfs & Hw) Hx Hf. pose proof (page_first_succ g). pose proof (page_first_lt (g + 1) (g + 1 + 1)).
  split; exists b, (g + 1); split_and!; try done; try lia. by rewrite Hx.
Qed.

Lemma copy_next_chunk wm r c d ds : copy_ok wm r c CopyData → rdata_data c = [] → rdata c = d :: ds → copy_ok wm r (copy_chunk d ds c) CopyData.
Proof.
  intros (b & g & Hg0 & Hg & Hb & Hco & Hd & Hp) Hx Hds. exists b, g. rewrite Hx, Hds in Hd. cbn in Hd. split_and!; try done; try lia; apply Hp.
Qed.

(** All bytes are there. *)
Lemma copy_finished wm r c : 0 ≤ l_start r → 32 ≤ rec_len r → rec_end r = (l_start r + rec_len r + 7) / 8 * 8 → XLogBytePosToEndRecPtr (rec_end r) < 2 ^ 62 →
  copy_ok wm r c CopyData → rdata_data c = [] → rdata c = [] →
  CurrPos c = XLogBytePosToEndRecPtr (l_start r + rec_len r) ∧ MAXALIGN (CurrPos c) = XLogBytePosToEndRecPtr (rec_end r) ∧
  XLogBytePosToEndRecPtr (rec_end r) ≤ wm * 8192.
Proof.
  intros Hs Hl He Hlim (b & g & Hg0 & Hg & Hb & Hco & Hd & HC & Hne & Hst & Hbuf & Hoff & Hfs & Hw) Hx Hds. rewrite Hx, Hds in Hd. cbn in Hd.
  assert (b = l_start r + rec_len r) as Hbe.
  { apply (f_equal length) in Hd. rewrite length_drop in Hd. cbn in Hd. unfold rec_len in *. lia. }
  assert (CurrPos c = XLogBytePosToEndRecPtr b) as HC'.
  { rewrite HC. pose proof (page_first_succ g). destruct (decide (b = page_first (g + 1))) as [->|]; [rewrite page_end_ptr by lia; lia|].
    rewrite (end_ptr_at g) by lia. case_match; bool_to_prop; lia. }
  rewrite HC', <- Hbe. split; [done|].
  assert (XLogBytePosToEndRecPtr b ≤ XLogBytePosToEndRecPtr (rec_end r)) by (apply end_ptr_le; [lia|rewrite He; zdiv|rewrite He; zdiv]).
  rewrite align_end by lia. rewrite <- Hbe in He. rewrite <- He. split; [done|].
  pose proof (page_first_aligned (g + 1)). assert (rec_end r ≤ page_first (g + 1)) by (rewrite He; zdiv).
  pose proof (page_end_ptr (g + 1) ltac:(lia)) as Hpe. assert (XLogBytePosToEndRecPtr (rec_end r) ≤ XLogBytePosToEndRecPtr (page_first (g + 1))); [|lia].
  apply end_ptr_le; [rewrite He; zdiv|by apply page_first_nonneg; lia|done].
Qed.

Lemma passed_back (bs : Z → backend) (t : Z) (b' : backend) a c c' k p : in_copy (b_pc (bs t)) = Some (a, c) → in_copy (b_pc b') = Some (a, c') →
  passed (<[t := b']> bs) k p → (ticket a = k → p < CurrPos c' → p < CurrPos c) → passed bs k p.
Proof.
  intros Hc Hc' Hp Hlt t1 a1 c1 Ht1 Hk. destruct (decide (t1 = t)) as [->|Hne].
  - rewrite Hc in Ht1. simplify_eq. apply Hlt; [done|]. apply (Hp t a1 c'); [by rewrite fn_lookup_insert|done].
  - apply (Hp t1 a1 c1); [by rewrite fn_lookup_insert_ne|done].
Qed.

Lemma passed_self (bs : Z → backend) (t : Z) (b' : backend) a c' p : in_copy (b_pc b') = Some (a, c') → passed (<[t := b']> bs) (ticket a) p → p < CurrPos c'.
Proof. intros Hc Hp. apply (Hp t a c'); [by rewrite fn_lookup_insert|done]. Qed.

(** One byte more. *)
Lemma page_byte t b' a c d x r g' : b_pc (backends σ t) = InsCopy a c CopyData → log !! ticket a = Some r → 0 ≤ l_start r →
  copy_ok (wmax σ) r c CopyData → rdata_data c = x :: d → freespace c ≠ 0 → in_copy (b_pc b') = Some (a, copy_byte d c) →
  window bf + Z.b2z (is_half (writer σ)) ≤ g' < wmax σ + Z.b2z (is_half (writer σ)) →
  page_ok log (passed (backends σ)) (pages bf (g' mod bufs)) g' →
  page_ok log (passed (<[t := b']> (backends σ)))
    (<[currbuf c := with_data (<[curroff c := x]> (page_data (pages bf (currbuf c)))) (pages bf (currbuf c))]> (pages bf) (g' mod bufs)) g'.
Proof.
  intros Hpc Hr Hs0 Hcp Hx Hf Hb' Hg' Hpg. pose proof (copy_window t a c _ Hpc) as Hlow. pose proof (inv_chain _ Hinv) as Hc.
  destruct Hcp as (b & g & Hg0 & Hg & Hb & Hco & Hd & HC & Hne & Hst & Hbuf & Hoff & Hfs & Hw). pose proof (page_first_succ g). pose proof (header_size_cases g).
  assert (in_copy (b_pc (backends σ t)) = Some (a, c)) as Hic by by rewrite Hpc.
  assert (CurrPos c / 8192 = g) as Hgc by (rewrite HC; zdiv). rewrite Hgc in Hlow.
  destruct (decide (g' = g)) as [->|Hgne].
  - rewrite <- Hbuf in Hpg |- *. rewrite fn_lookup_insert. destruct Hpg as [Hh Hdat Hx' Hn]. split; [done| | |done]; cbn [page_data with_data xlp_info xlp_rem_len].
    + intros k r' i y Hr' Hi Hgi Hpass. pose proof (lookup_lt_Some _ _ _ Hi) as Hlen. destruct (decide (l_start r' + Z.of_nat i = b)) as [Hib|Hib].
      * assert (k = ticket a) as ->. { eapply (byte_owner base lastsize) with (b := b); [exact base_aligned|exact Hc|exact Hr'|exact Hr|unfold rec_len; lia|split; [lia|]].
          apply (f_equal length) in Hd. rewrite length_drop, Hx, length_app in Hd. cbn in Hd. unfold rec_len. lia. }
        simplify_eq. rewrite Hoff, fn_lookup_insert.
        assert (l_bytes r !! Z.to_nat (l_start r + Z.of_nat i - l_start r) = Some x) as Hbx.
        { rewrite <- (Nat.add_0_r (Z.to_nat _)), <- lookup_drop, Hd, Hx. done. }
        replace (Z.to_nat (l_start r + Z.of_nat i - l_start r)) with i in Hbx by lia. congruence.
      * rewrite fn_lookup_insert_ne by lia. apply (Hdat k r' i y Hr' Hi Hgi). eapply (passed_back _ t b' a c); [exact Hic|exact Hb'|exact Hpass|]. cbn. intros _ Hlt.
        destruct (Hc k r' Hr') as [Hst' _]. pose proof (tip_at_base base lastsize base_aligned log k Hc). rewrite (rec_ptr_at g) in * by lia. lia.
    + intros k r' Hr' Hcr Hpass. apply (Hx' k r' Hr' Hcr). eapply (passed_back _ t b' a c); [exact Hic|exact Hb'|exact Hpass|]. intros _ _. lia.
  - rewrite fn_lookup_insert_ne.
    + eapply (page_ok_weaken _ lastsize); [done|done|done| |exact Hpg].
      intros k r' p Hr' Hin Hp8 Hpass. eapply (passed_back _ t b' a c); [exact Hic|exact Hb'|exact Hpass|]. cbn. intros _ Hlt. assert (p ≠ CurrPos c) by (intros ->; congruence). lia.
    + rewrite Hbuf. intros He. apply Hgne. symmetry. eapply (residue_unique (window bf + Z.b2z (is_half (writer σ)))); [|lia|done]. destruct (is_half _); cbn in *; lia.
Qed.

Lemma copy_one wm r c x d : copy_ok wm r c CopyData → rdata_data c = x :: d → freespace c ≠ 0 → copy_ok wm r (copy_byte d c) CopyData.
Proof.
  intros (b & g & Hg0 & Hg & Hb & Hco & Hd & HC & Hne & Hst & Hbuf & Hoff & Hfs & Hw) Hx Hf. exists (b + 1), g. unfold copy_byte; cbn [copied rdata rdata_data CurrPos currbuf curroff freespace].
  rewrite Hx in Hd. pose proof (f_equal length Hd) as Hlen. rewrite length_drop in Hlen. cbn in Hlen. split_and!; try done; try (unfold rec_len in *; lia).
  replace (Z.to_nat (b + 1 - l_start r)) with (Z.to_nat (b - l_start r) + 1)%nat by lia. rewrite <- drop_drop, Hd. done.
Qed.


Lemma lor_cont_head pg g n : head_ok pg g → head_ok (with_contrecord n pg) g.
Proof.
  intros (? & Hf & Hl & ? & ? & ?). split_and!; try done; cbn [xlp_info with_contrecord].
  - rewrite Z.land_lor_distr_l, Hf. done.
  - rewrite Z.lor_spec. change (Z.testbit XLP_FIRST_IS_CONTRECORD 1) with false. by rewrite orb_false_r.
Qed.

Definition header_skip (c : copy_vars) : copy_vars :=
  if CurrPos c mod XLogSegSize =? 0 then copy_skip SizeOfXLogLongPHD c else copy_skip SizeOfXLogShortPHD c.

Lemma seg_start g : g * 8192 mod XLogSegSize = g mod seg_pages * 8192.
Proof. pose proof seg_pages_spec as [-> _]. rewrite Z.mul_mod_distr_r by (pose proof seg_pages_spec; lia). done. Qed.

Lemma header_skip_eq c g : CurrPos c = g * 8192 → header_skip c = copy_skip (header_size g) c.
Proof.
  intros HC. unfold header_skip, header_size. rewrite HC, seg_start. destruct (g mod seg_pages =? 0) eqn:E; bool_to_prop.
  - by rewrite E.
  - destruct (_ * 8192 =? 0) eqn:E2; bool_to_prop; [lia|done].
Qed.

Lemma copy_header wm r c : copy_ok wm r c CopyHeader → copy_ok wm r (header_skip c) CopyData.
Proof.
  intros (b & g & Hg0 & Hg & Hb & Hco & Hd & -> & Hst & HC & Hne & Hbuf & Hoff & Hw). rewrite (header_skip_eq c g HC).
  pose proof (page_first_succ g). pose proof (header_size_cases g). exists (page_first g), g. unfold copy_skip, INSERT_FREESPACE; cbn. rewrite HC. unfold XLOG_BLCKSZ. rewrite mod_page by lia.
  split_and!; try done; try lia.
  - intros _. destruct (rdata_data c) as [|x d]; [done|]. apply (f_equal length) in Hd. rewrite length_drop in Hd. cbn in Hd. unfold rec_len. lia.
  - case_match; bool_to_prop; lia.
Qed.

Lemma page_header t b' a c r g' : b_pc (backends σ t) = InsCopy a c CopyHeader → log !! ticket a = Some r → 0 ≤ l_start r → write_len a = rec_len r →
  copy_ok (wmax σ) r c CopyHeader → in_copy (b_pc b') = Some (a, header_skip c) →
  window bf + Z.b2z (is_half (writer σ)) ≤ g' < wmax σ + Z.b2z (is_half (writer σ)) →
  page_ok log (passed (backends σ)) (pages bf (g' mod bufs)) g' →
  page_ok log (passed (<[t := b']> (backends σ)))
    (<[currbuf c := with_contrecord (write_len a - copied c) (pages bf (currbuf c))]> (pages bf) (g' mod bufs)) g'.
Proof.
  intros Hpc Hr Hs0 Hwl Hcp Hb' Hg' Hpg. pose proof (copy_window t a c _ Hpc) as Hlow. pose proof (inv_chain _ Hinv) as Hc.
  destruct Hcp as (b & g & Hg0 & Hg & Hb & Hco & Hd & -> & Hst & HC & Hne & Hbuf & Hoff & Hw). pose proof (page_first_succ g). pose proof (header_size_cases g).
  assert (in_copy (b_pc (backends σ t)) = Some (a, c)) as Hic by by rewrite Hpc.
  assert (CurrPos c / 8192 = g) as Hgc by (rewrite HC; zdiv). rewrite Hgc in Hlow. rewrite (header_skip_eq c g HC) in Hb'.
  assert (crosses r g) as Hcr.
  { split; [done|]. destruct (rdata_data c) as [|x d]; [done|]. apply (f_equal length) in Hd. rewrite length_drop in Hd. cbn in Hd. unfold rec_len. lia. }
  destruct (decide (g' = g)) as [->|Hgne].
  - rewrite <- Hbuf in Hpg |- *. rewrite fn_lookup_insert. destruct Hpg as [Hh Hdat Hx' Hn]. split; [by apply lor_cont_head| | |].
    + intros k r' i y Hr' Hi Hgi Hpass. apply (Hdat k r' i y Hr' Hi Hgi). eapply (passed_back _ t b' a c); [exact Hic|exact Hb'|exact Hpass|]. cbn. intros _ Hlt.
      destruct (Hc k r' Hr') as [Hst' _]. pose proof (tip_at_base base lastsize base_aligned log k Hc). rewrite (rec_ptr_at g) in * by lia. lia.
    + intros k r' Hr' Hcr' _. assert (k = ticket a) as ->.
      { eapply (byte_owner base lastsize) with (b := page_first g); [exact base_aligned|exact Hc|exact Hr'|exact Hr| |]; unfold crosses in *; lia. }
      simplify_eq. unfold has_cont; cbn [xlp_info xlp_rem_len with_contrecord]. rewrite Z.lor_spec. split; [by rewrite orb_true_r|lia].
    + intros _ Hno. by destruct (Hno _ _ Hr).
  - rewrite fn_lookup_insert_ne.
    + eapply (page_ok_weaken _ lastsize); [done|done|done| |exact Hpg].
      intros k r' p Hr' Hin Hp8 Hpass. eapply (passed_back _ t b' a c); [exact Hic|exact Hb'|exact Hpass|]. cbn. intros _ Hlt. assert (p / 8192 ≠ g) by congruence. zdiv.
    + rewrite Hbuf. intros He. apply Hgne. symmetry. eapply (residue_unique (window bf + Z.b2z (is_half (writer σ)))); [|lia|done]. destruct (is_half _); cbn in *; lia.
Qed.

End copying.

(** ** The steps of a backend *)

Lemma copying_same (bs : Z → backend) (t : Z) (b' : backend) a c c' k : in_copy (b_pc (bs t)) = Some (a, c) → in_copy (b_pc b') = Some (a, c') →
  ¬ copying (<[t := b']> bs) k → ¬ copying bs k.
Proof.
  intros Hc Hc' Hn (t1 & a1 & c1 & Ht1 & Hk). apply Hn. destruct (decide (t1 = t)) as [->|].
  - rewrite Hc in Ht1. simplify_eq. exists t, a1, c'. by rewrite fn_lookup_insert.
  - exists t1, a1, c1. by rewrite fn_lookup_insert_ne.
Qed.

Lemma copy_step σ t a c p : wal_inv σ → 0 ≤ t < max_backends → b_pc (backends σ t) = InsCopy a c p → wal_inv (run_backend t σ).
Proof.
  intros Hi Ht Hpc. destruct (bi_ok _ _ _ _ _ (inv_backends _ _ _ Hi) t) as (Hok & Hca & Hcp). rewrite Hpc in Hok. destruct Hok as [Hins (r & Hr & Hcopy)].
  pose proof (copy_window _ Hi t a c p Hpc) as Hlow. destruct (insertion_start _ Hi a Hins) as (r' & Hr' & Hs & Hs8 & Hl & Hst & He & Hwl). simplify_eq.
  assert (in_copy (b_pc (backends σ t)) = Some (a, c)) as Hic by by rewrite Hpc.
  unfold run_backend, XLogInsertRecordSingle. rewrite Hpc. destruct p as [first g| | |]; cbn.
  - pose proof (get_buffer _ Hi (CurrPos c) g (backends σ t)) as Hget.
    assert (window (m_buf (mem σ)) ≤ CurrPos c / 8192) as Hlow' by (destruct (is_half _); cbn in *; lia).
    specialize (Hget Hlow'). specialize (Hget (copy_get _ _ _ _ _ Hcopy) Hca Hcp).
    destruct (GetXLogBuffer _ _ _ _ _) as [g'|page buf|]; [| |done]; rewrite set_buf_same; apply backend_local; try done; try (by rewrite Hpc).
    + split; [|done]. cbn. split; [done|]. exists r. split; [done|]. by eapply copy_get_go.
    + destruct Hget as (-> & -> & Hlt). split; [|split; [pose proof (window_nonneg _ Hi); cbn; lia|done]]. cbn. split; [done|]. exists r. split; [done|].
      by eapply copy_found.
  - apply backend_step; try done; try (by rewrite Hpc).
    + split; [|done]. cbn. split; [done|]. exists r. split; [done|]. apply (copy_header _ _ _ Hcopy).
    + intros g' Hg' Hpg. eapply page_header; try done. by destruct Hins as (r' & Hr'' & _ & _ & _ & Hw & _); simplify_eq.
    + intros k Hk Hn. left. eapply copying_same; [exact Hic| |exact Hn]. done.
  - destruct (rdata_data c) as [|x d] eqn:Ed.
    + destruct (rdata c) as [|d ds] eqn:Eds.
      * rewrite <- (set_buf_same (mem σ)). assert (end_at (m_log (mem σ)) (S (ticket a)) = XLogBytePosToEndRecPtr (rec_end r)) as Hend.
        { unfold XLogInv.end_at. by rewrite (tip_at_S _ _ _ _ Hr). }
        assert (XLogBytePosToEndRecPtr (rec_end r) < 2 ^ 62) as Hlim.
        { rewrite <- Hend. pose proof (li_limit _ _ _ (inv_log _ _ _ Hi)) as Hl2. pose proof (end_at_le base lastsize base_pos base_aligned (m_log (mem σ)) (S (ticket a)) (length (m_log (mem σ)))
            (inv_chain _ Hi)) as Hle. unfold XLogInv.end_at at 2 in Hle. rewrite (tip_at_all _ _ (length _)) in Hle by done. pose proof (lookup_lt_Some _ _ _ Hr).
          unfold log_limit in Hl2. lia. }
        destruct (copy_finished (wmax σ) r c Hs Hl He Hlim Hcopy Ed Eds) as (HC & _ & Hhigh).
        apply backend_step; try done; try (by rewrite Hpc).
        -- intros g' Hg'. eapply page_ok_weaken with lastsize; [done|done|by apply inv_chain|]. intros k r' p Hr' Hin _ Hpass t1 a1 c1 Ht1 Hk.
           destruct (decide (t1 = t)) as [->|Hne]; [|apply (Hpass t1 a1 c1); [by rewrite fn_lookup_insert_ne|done]].
           rewrite Hic in Ht1. simplify_eq. rewrite HC. apply Hin.
        -- intros k Hk Hn. destruct (decide (k = ticket a)) as [->|Hne]; [right; by rewrite Hend|left].
           intros (t1 & a1 & c1 & Ht1 & Hk1). apply Hn. exists t1, a1, c1. rewrite fn_lookup_insert_ne; [done|]. intros ->. rewrite Hic in Ht1. simplify_eq.
      * rewrite set_buf_same. apply backend_local; try done; try (by rewrite Hpc). split; [|done]. cbn. split; [done|]. exists r. split; [done|]. by eapply copy_next_chunk.
    + destruct (freespace c =? 0) eqn:Ef; bool_to_prop.
      * destruct (copy_full _ _ _ _ _ Hcopy Ed Ef). destruct (XLogRecPtrToBufIdx _ =? _); cbn; rewrite set_buf_same; apply backend_local; try done; try (by rewrite Hpc);
          (split; [|done]); cbn; (split; [done|]); by exists r.
      * cbn. apply backend_step; try done; try (by rewrite Hpc).
        -- split; [|done]. cbn. split; [done|]. exists r. split; [done|]. by eapply copy_one.
        -- intros g' Hg' Hpg. by eapply page_byte.
        -- intros k Hk Hn. left. eapply copying_same; [exact Hic| |exact Hn]. done.
  - rewrite set_buf_same. apply backend_local; try done; try (by rewrite Hpc). split; [|done]. cbn. split; [done|]. by exists r.
Qed.

End backend.
