(* ===== verification/XLogTickets.v ===== *)
(** * Reserving space and reporting copied records keep the invariant

    The counter of a record ([LRC]) has 31 bits and the status table 2^16 entries: there are
    few enough backends for a backend to recognise its own entry, so that no two records
    share one. *)

From S2P Require Import Prelude FsmPage XLogDefs XLogInsert XLogWriter XLogInv XLogPages XLogBackend.
From stdpp Require Import list.

Open Scope Z_scope.

(** ** Counters *)

Lemma CNT_eq : CNT = 65536.
Proof. done. Qed.

Lemma entry_index (k : nat) : status_entry (Z.of_nat k mod 2 ^ 31) = Z.of_nat k mod CNT.
Proof.
  unfold status_entry. change (GET_WAL_INSERT_STATUS_ENTRY_CNT - 1) with (2 ^ 16 - 1). rewrite land_mask_mod by lia. rewrite CNT_eq. zdiv.
Qed.

Lemma entry_next (k : nat) : GET_NEXT_STATUS_ENTRY (Z.of_nat k mod CNT) = Z.of_nat (S k) mod CNT.
Proof.
  unfold GET_NEXT_STATUS_ENTRY. change (GET_WAL_INSERT_STATUS_ENTRY_CNT - 1) with (2 ^ 16 - 1). rewrite land_mask_mod by lia. rewrite CNT_eq, Nat2Z.inj_succ. zdiv.
Qed.

Lemma LRC_next (k : nat) : Z.land (Z.of_nat k mod 2 ^ 31 + 1) LRC_MASK = Z.of_nat (S k) mod 2 ^ 31.
Proof. change LRC_MASK with (2 ^ 31 - 1). rewrite land_mask_mod by lia. rewrite Nat2Z.inj_succ. zdiv. Qed.

(** The counter of the next [2^16] that shares the entry of [k]. *)
Lemma same_entry (F k : nat) : (F ≤ k)%nat → ∃ j : nat, (F ≤ j)%nat ∧ Z.of_nat j < Z.of_nat F + CNT ∧ Z.of_nat j mod CNT = Z.of_nat k mod CNT ∧
  (j ≤ k)%nat ∧ (Z.of_nat k < Z.of_nat F + CNT → j = k).
Proof.
  intros Hk. exists (F + Z.to_nat ((Z.of_nat k - Z.of_nat F) mod CNT))%nat. rewrite CNT_eq.
  assert (0 ≤ (Z.of_nat k - Z.of_nat F) mod 65536 < 65536) by (apply Z.mod_pos_bound; lia).
  assert ((Z.of_nat k - Z.of_nat F) mod 65536 ≤ Z.of_nat k - Z.of_nat F) by (apply Z.mod_le; lia).
  rewrite Nat2Z.inj_add, Z2Nat.id by lia. split_and!; try lia; [zdiv|]. intros. rewrite Z.mod_small by lia. lia.
Qed.

Section tickets.
Context `{WalGeometryOk} `{WalEnv}.
Variables (base lastsize : Z).
Hypothesis base_pos : 0 < base.
Hypothesis base_aligned : base mod 8 = 0.
Hypothesis few_backends : 0 ≤ max_backends < 2 ^ 30.

Abbreviation wal_inv := (wal_inv base lastsize).
Abbreviation end_at := (end_at base).
Abbreviation page_ok := (page_ok base).
Abbreviation wmax σ := (window (m_buf (mem σ)) + bufs).

(** No more than one counter per backend is waiting for its entry. *)
Lemma tickets_bounded σ k : wal_inv σ → (k < length (m_log (mem σ)))%nat → Z.of_nat k < Z.of_nat (retired σ) + CNT + max_backends.
Proof.
  intros Hi Hk. destruct (decide (Z.of_nat k < Z.of_nat (retired σ) + CNT + max_backends)) as [|Hge]; [done|exfalso].
  set (lo := (retired σ + Z.to_nat CNT)%nat). set (n := S (Z.to_nat max_backends)).
  assert (∀ i, (i < n)%nat → ∃ t, 0 ≤ t < max_backends ∧ holds_ticket (backends σ t) (lo + i)%nat) as Hh.
  { intros i Hin. destruct (si_held _ _ _ _ _ _ (inv_status _ _ _ Hi) (lo + i)%nat) as [t Ht]; [unfold lo; rewrite CNT_eq; lia|unfold lo, n in *; rewrite CNT_eq in *; lia|].
    exists t. split; [|done]. eapply pc_in_range; [exact Hi|]. intros E. destruct Ht as (a & Ha & _). by rewrite E in Ha. }
  assert (∃ f : nat → Z, ∀ i, (i < n)%nat → 0 ≤ f i < max_backends ∧ holds_ticket (backends σ (f i)) (lo + i)%nat) as [f Hf].
  { clearbody n. clear Hge. induction n as [|n IH]; [by exists (λ _, 0); intros; lia|]. destruct IH as [f Hf]; [intros i Hin; apply Hh; lia|].
    destruct (Hh n) as (t & Ht); [lia|]. exists (λ i, if decide (i = n) then t else f i). intros i Hin. case_decide; [by subst|]. apply Hf. lia. }
  assert (NoDup (f <$> seq 0 n)) as Hnd.
  { apply NoDup_fmap_2_strong; [|apply NoDup_seq]. intros i j Hi1%elem_of_seq Hj1%elem_of_seq He. destruct (Hf i ltac:(lia)) as [_ H1i]. destruct (Hf j ltac:(lia)) as [_ H1j].
    rewrite <- He in H1j. destruct H1i as (a & Ha & Hka), H1j as (a' & Ha' & Hka'). simplify_eq. lia. }
  assert (f <$> seq 0 n ⊆ seqZ 0 max_backends) as Hsub.
  { intros x (i & -> & Hin%elem_of_seq)%list_elem_of_fmap. apply elem_of_seqZ. destruct (Hf i ltac:(lia)) as [? _]. lia. }
  pose proof (submseteq_length _ _ (NoDup_submseteq _ _ Hnd Hsub)) as Hlen. rewrite length_fmap, length_seq, length_seqZ in Hlen. unfold n in Hlen. lia.
Qed.

(** ** Waiting for the entry *)

Lemma own_entry σ a : wal_inv σ → insertion_ok (m_log (mem σ)) (retired σ) a →
  entry_LRC (m_status (mem σ) (status_entry (currlrc a))) = currlrc a →
  Z.of_nat (ticket a) < Z.of_nat (retired σ) + CNT ∨ is_late (writer σ) = true ∧ Z.of_nat (ticket a) = Z.of_nat (retired σ) + CNT.
Proof.
  intros Hi (r & Hr & _ & _ & -> & _ & HF). rewrite entry_index. intros He. pose proof (tickets_bounded σ (ticket a) Hi ltac:(by eapply lookup_lt_Some)) as Hb.
  destruct (same_entry (retired σ) (ticket a) HF) as (j & Hj1 & Hj2 & Hj3 & Hj4 & _). rewrite <- Hj3 in He.
  destruct (si_entry _ _ _ _ _ _ (inv_status _ _ _ Hi) j Hj1 Hj2) as (HL & _). rewrite HL in He. rewrite CNT_eq in *.
  destruct (is_late (writer σ)); cbn in He; [|left; zdiv]. case_bool_decide as E; [|left; zdiv].
  subst j. destruct (decide (Z.of_nat (ticket a) = Z.of_nat (retired σ) + 65536)); [by right|left]. zdiv.
Qed.

Lemma late_entry σ a : wal_inv σ → insertion_ok (m_log (mem σ)) (retired σ) a →
  is_late (writer σ) = true → Z.of_nat (ticket a) = Z.of_nat (retired σ) + CNT → endLSN (m_status (mem σ) (status_entry (currlrc a))) ≠ 0.
Proof.
  intros Hi (r & Hr & _ & _ & -> & _ & HF) Hla Hk. rewrite entry_index. pose proof (si_late _ _ _ _ _ _ (inv_status _ _ _ Hi) Hla) as Hpub.
  replace (Z.of_nat (ticket a) mod CNT) with (Z.of_nat (retired σ) mod CNT) by (rewrite Hk, CNT_eq; zdiv).
  destruct (si_entry _ _ _ _ _ _ (inv_status _ _ _ Hi) (retired σ) ltac:(lia) ltac:(rewrite CNT_eq; lia)) as (_ & Hp & _). by apply Hp.
Qed.

Lemma status_step σ t a : wal_inv σ → 0 ≤ t < max_backends → b_pc (backends σ t) = InsStatus a → wal_inv (run_backend t σ).
Proof.
  intros Hi Ht Hpc. destruct (bi_ok _ _ _ _ _ (inv_backends _ _ _ Hi) t) as (Hok & Hca). rewrite Hpc in Hok. cbn in Hok.
  unfold run_backend, XLogInsertRecordSingle. rewrite Hpc. destruct (_ =? currlrc a) eqn:E; bool_to_prop; apply backend_local; try done; try (by rewrite Hpc).
  - split; [|done]. split; [done|]. by apply own_entry.
  - split; [|done]. by rewrite Hpc.
Qed.

Lemma status_end_step σ t a : wal_inv σ → 0 ≤ t < max_backends → b_pc (backends σ t) = InsStatusEnd a → wal_inv (run_backend t σ).
Proof.
  intros Hi Ht Hpc. destruct (bi_ok _ _ _ _ _ (inv_backends _ _ _ Hi) t) as (Hok & Hca). rewrite Hpc in Hok. destruct Hok as [Hins Hk].
  unfold run_backend, XLogInsertRecordSingle. rewrite Hpc. destruct (endLSN _ =? 0) eqn:E; bool_to_prop; apply backend_local; try done; try (by rewrite Hpc).
  split; [|done]. split; [done|]. destruct Hk as [|[Hla Hk]]; [done|]. by destruct (late_entry σ a Hi Hins Hla Hk).
Qed.

(** ** Reporting *)

Lemma commit_bit_lsn lsn (b : bool) : 0 < lsn < 2 ^ 62 →
  let l := if b then Z.lor lsn WAL_COMMIT_BIT else lsn in l ≠ 0 ∧ Z.land l MAX_XLOG_REC_PTR = lsn.
Proof.
  intros Hl. assert (Z.land lsn MAX_XLOG_REC_PTR = lsn) as Hm.
  { change MAX_XLOG_REC_PTR with (2 ^ 63 - 1). rewrite land_mask_mod by lia. rewrite Z.mod_small; lia. }
  destruct b; cbn -[Z.lor Z.land Z.lt]; [|by split; [lia|]]. split.
  - intros E%Z.lor_eq_0_iff. destruct E as [_ E]. done.
  - rewrite Z.land_lor_distr_l, Hm. change (Z.land WAL_COMMIT_BIT MAX_XLOG_REC_PTR) with 0. apply Z.lor_0_r.
Qed.

Lemma report_step σ t a : wal_inv σ → 0 ≤ t < max_backends → b_pc (backends σ t) = InsReport a → wal_inv (run_backend t σ).
Proof.
  intros Hi Ht Hpc. pose proof Hi as [Hl [Hb1 Hb2 Hb3] [Hs1 Hs2 Hs3 Hs4] [Hw1 Hw2 Hw3 Hw4 Hw5 Hw6 Hw7] Hfi Hwr].
  destruct (Hb1 t) as (Hok & Hca). rewrite Hpc in Hok. destruct Hok as [Hins Hk]. pose proof Hins as (r & Hr & _ & HE & HL & _ & HF).
  unfold run_backend, XLogInsertRecordSingle. rewrite Hpc, HL, entry_index. set (k := ticket a) in *. set (b' := go_pc _ _).
  assert (∀ t', holds_ticket (<[t := b']> (backends σ) t') k → False) as Hnone.
  { intros t' (a' & Ha' & Hk'). destruct (decide (t' = t)) as [->|Hne]; [by rewrite fn_lookup_insert in Ha'|]. rewrite fn_lookup_insert_ne in Ha' by done.
    apply Hne. eapply Hb3; [by exists a'|]. exists a. by rewrite Hpc. }
  assert (∀ j, j ≠ k → held (<[t := b']> (backends σ)) j ↔ held (backends σ) j) as Hheld.
  { intros j Hj. split; intros (t' & a' & Ha' & Hk').
    - destruct (decide (t' = t)) as [->|Hne]; [by rewrite fn_lookup_insert in Ha'|]. rewrite fn_lookup_insert_ne in Ha' by done. exists t'. by exists a'.
    - exists t', a'. rewrite fn_lookup_insert_ne; [done|]. intros ->. rewrite Hpc in Ha'. cbn in Ha'. simplify_eq. }
  assert (∀ j, published (m_log (mem σ)) (backends σ) j → published (m_log (mem σ)) (<[t := b']> (backends σ)) j) as Hpub.
  { intros j [Hj Hnh]. split; [done|]. destruct (decide (j = k)) as [->|]; [intros [t' Hh]; by apply (Hnone t')|by rewrite Hheld]. }
  assert (published (m_log (mem σ)) (<[t := b']> (backends σ)) k) as Hpk.
  { split; [by eapply lookup_lt_Some|]. intros [t' Hh]. by apply (Hnone t'). }
  assert (∀ j p, passed (<[t := b']> (backends σ)) j p → passed (backends σ) j p) as Hpas.
  { intros j p Hp t' a' c' Ht' Hj. apply (Hp t' a' c'); [|done]. rewrite fn_lookup_insert_ne; [done|]. intros ->. by rewrite Hpc in Ht'. }
  assert (∀ j, copying (backends σ) j → copying (<[t := b']> (backends σ)) j) as Hcop.
  { intros j (t' & a' & c' & Ht' & Hj). exists t', a', c'. rewrite fn_lookup_insert_ne; [done|]. intros ->. by rewrite Hpc in Ht'. }
  assert (end_at (m_log (mem σ)) (S k) = EndPos a) as Hend by (unfold XLogInv.end_at; by rewrite (tip_at_S _ _ _ _ Hr)).
  split; cbn [mem backends writer retired m_log m_buf m_status m_wrt set_table backend_at].
  - by destruct Hl; split.
  - split.
    + intros t'. destruct (decide (t' = t)) as [->|Hne]; [rewrite fn_lookup_insert; by split|rewrite fn_lookup_insert_ne by done; apply Hb1].
    + intros t' Ht'. rewrite fn_lookup_insert_ne by (intros ->; done). by apply Hb2.
    + intros t1 t2 j Hh1 Hh2. assert (j ≠ k) by (intros ->; by apply (Hnone t1)).
      destruct (decide (t1 = t)) as [->|]; [by destruct Hh1 as (? & Ha & _); rewrite fn_lookup_insert in Ha|].
      destruct (decide (t2 = t)) as [->|]; [by destruct Hh2 as (? & Ha & _); rewrite fn_lookup_insert in Ha|].
      rewrite fn_lookup_insert_ne in Hh1, Hh2 by done. by eapply Hb3.
  - split; [|done|by intros Hla; apply Hpub, Hs3|].
    + intros j Hj1 Hj2. destruct (Hs1 j Hj1 Hj2) as (HjL & Hjp & Hjn). destruct (decide (j = k)) as [->|Hne].
      * rewrite fn_lookup_insert. split; [done|]. cbn [endLSN]. split; [intros _|done]. rewrite Hend.
        apply commit_bit_lsn. rewrite <- Hend. split; [by eapply end_at_pos, inv_chain|].
        pose proof (li_limit _ _ _ Hl) as Hl2. pose proof (end_at_le base lastsize base_pos base_aligned (m_log (mem σ)) (S k) (length (m_log (mem σ))) (inv_chain _ _ _ Hi)) as Hle.
        unfold XLogInv.end_at at 2 in Hle. rewrite (tip_at_all _ _ (length _)) in Hle by done. pose proof (lookup_lt_Some _ _ _ Hr). unfold log_limit in Hl2. lia.
      * rewrite fn_lookup_insert_ne by (rewrite CNT_eq in *; zdiv). split; [done|]. unfold published in *. rewrite Hheld by done. done.
    + intros j Hj1 Hj2. apply Hheld; [|by apply Hs4]. lia.
  - split; try done.
    + intros g Hg. eapply (page_ok_weaken _ lastsize); [done|done|by apply inv_chain| |by apply Hw4]. intros j r' p _ _ _. apply Hpas.
    + intros j Hj Hnc. apply Hw7; [done|]. intros j' Hj' Hco. by eapply Hnc, Hcop.
  - done.
  - by eapply walwriter_mono.
Qed.

(** ** The other local steps *)

Lemma advance_request_inv σ st en : wal_inv σ → wal_inv {| mem := set_wrt (advance_request st en (m_wrt (mem σ))) (mem σ); backends := backends σ;
  writer := writer σ; retired := retired σ |}.
Proof.
  intros [Hl Hb Hs Hw Hfi Hwr]. split; cbn; try done; [by destruct Hl; split| |].
  - destruct Hfi. unfold advance_request. by case_match; split.
  - unfold advance_request. case_match; [done|]. by destruct (writer σ).
Qed.

Lemma check_step σ t r : wal_inv σ → 0 ≤ t < max_backends → b_pc (backends σ t) = InsCheck r → wal_inv (run_backend t σ).
Proof.
  intros Hi Ht Hpc. destruct (bi_ok _ _ _ _ _ (inv_backends _ _ _ Hi) t) as (Hok & Hca). rewrite Hpc in Hok. cbn in Hok.
  unfold run_backend, XLogInsertRecordSingle. rewrite Hpc. destruct (_ && _ && _); apply backend_local; try done; by rewrite Hpc.
Qed.

Lemma simple_steps σ t : wal_inv σ → 0 ≤ t < max_backends →
  match b_pc (backends σ t) with InsIdle | InsPanic | InsRead _ | InsRequest _ | InsWaitFlush _ => wal_inv (run_backend t σ) | _ => True end.
Proof.
  intros Hi Ht. destruct (bi_ok _ _ _ _ _ (inv_backends _ _ _ Hi) t) as (Hok & Hca).
  unfold run_backend, XLogInsertRecordSingle. destruct (b_pc (backends σ t)) eqn:Hpc; try done.
  - apply backend_local; try done. split; [by rewrite Hpc|done].
  - apply backend_local; try done; by rewrite Hpc.
  - apply (advance_request_inv σ (StartPos a) (EndPos a)) in Hi. refine (backend_local base lastsize base_pos base_aligned _ t _ Hi Ht _ _ _); cbn; by rewrite ?Hpc.
  - unfold XLogWaitFlush. destruct (_ <? _); apply backend_local; try done; try (by rewrite Hpc). split; [by rewrite Hpc|done].
Qed.

End tickets.
