(* ===== verification/XLogReserve.v ===== *)
(** * Reserving space keeps the invariant

    A successful compare-and-swap of the insert position appends a record to the log that
    nobody else can have. *)

From S2P Require Import Prelude FsmPage XLogDefs XLogInsert XLogWriter XLogInv XLogPages XLogBackend XLogTickets.
From stdpp Require Import list.

Open Scope Z_scope.

Section reserve.
Context `{WalGeometryOk} `{WalEnv}.
Variables (base lastsize : Z).
Hypothesis base_pos : 0 < base.
Hypothesis base_aligned : base mod 8 = 0.

Abbreviation wal_inv := (wal_inv base lastsize).
Abbreviation tip := (tip base).
Abbreviation end_at := (end_at base).
Abbreviation page_ok := (page_ok base).
Abbreviation wmax σ := (window (m_buf (mem σ)) + bufs).

(** ** What is said about a log holds of a longer one *)

Section grow.
Variables (log : list logged) (nr : logged).
Hypothesis Hnr : l_start nr = tip log.
Hypothesis Hchain : chain base lastsize log.

Lemma tip_nonneg : 0 ≤ l_start nr.
Proof. rewrite Hnr. pose proof (tip_at_base base lastsize base_aligned log (length log) Hchain). rewrite tip_at_all in * by done. lia. Qed.

Lemma end_at_top k : (k ≤ length log)%nat → end_at log k ≤ XLogBytePosToEndRecPtr (tip log).
Proof.
  intros Hk. pose proof (end_at_le base lastsize base_pos base_aligned log k (length log) Hchain Hk) as Hle. unfold XLogInv.end_at at 2 in Hle.
  by rewrite tip_at_all in Hle.
Qed.

Lemma later X pg g : X ≤ XLogBytePosToEndRecPtr (tip log) → page_ok log (upto_lsn X) pg g → page_ok (log ++ [nr]) (upto_lsn X) pg g.
Proof. intros HX. apply page_ok_later; [apply tip_nonneg|by rewrite Hnr]. Qed.

Lemma sync_ok_later w X : X ≤ XLogBytePosToEndRecPtr (tip log) → sync_ok base log w X → sync_ok base (log ++ [nr]) w X.
Proof.
  intros HX [?|(? & ? & ? & Hs)]; [by left|right]. split_and!; try done. intros g Hg Hlt. destruct (Hs g Hg Hlt); [by left|right]. by apply later.
Qed.
Lemma pages_upto_later d X g : X ≤ XLogBytePosToEndRecPtr (tip log) → pages_upto base log d X g → pages_upto base (log ++ [nr]) d X g.
Proof. intros HX Hp g' Hg'. apply later; [done|]. by apply Hp. Qed.
Lemma disk_upto_later d X : X ≤ XLogBytePosToEndRecPtr (tip log) → disk_upto base log d X → disk_upto base (log ++ [nr]) d X.
Proof. intros HX Hp g' Hg' Hlt. apply later; [done|]. by apply Hp. Qed.
Lemma synced_upto_later w X g : X ≤ XLogBytePosToEndRecPtr (tip log) → synced_upto base log w X g → synced_upto base (log ++ [nr]) w X g.
Proof. intros HX Hp g' Hg'. destruct (Hp g' Hg'); [by left|right]. by apply later. Qed.

Lemma write_ok_later F X bf w v : (F ≤ length log)%nat → X ≤ XLogBytePosToEndRecPtr (tip log) → write_ok base log F X bf w v → write_ok base (log ++ [nr]) F X bf w v.
Proof.
  intros HF HX (q & H1w & H2w & H3w & H4w & H5w & H6w & H7w & H8w & H9w). exists q. rewrite end_at_app by done.
  split_and!; try done; try lia; [by apply pages_upto_later|by apply synced_upto_later|].
  destruct H8w as [(? & ? & [?|?])|?]; [left; split_and!; auto|left; split_and!; try done; right; by apply pages_upto_later|by right].
Qed.

Lemma dump_ok_later X bf w v i ip fs : X ≤ XLogBytePosToEndRecPtr (tip log) → dump_ok base log X bf w v i ip fs → dump_ok base (log ++ [nr]) X bf w v i ip fs.
Proof.
  intros HX (q & g & H1w & H2w & H3w & H4w & H5w & H6w & H7w & H8w & H9w & Hw). exists q, g. repeat (split; [done|]).
  split; [by apply pages_upto_later|]. split; [by apply synced_upto_later|done].
Qed.

Lemma walwriter_later bs bs' F bf w pc : (F ≤ length log)%nat → ResultWrite w ≤ XLogBytePosToEndRecPtr (tip log) →
  (∀ k, published log bs k → published (log ++ [nr]) bs' k) → walwriter_ok base log bs F bf w pc → walwriter_ok base (log ++ [nr]) bs' F bf w pc.
Proof.
  intros HF HW Hp. assert (∀ F c l, scan_range log bs F c l → scan_range (log ++ [nr]) bs' F c l) as Hsc by (intros; by eapply scan_range_mono).
  assert (∀ F c l, (F ≤ length log)%nat → scan_range log bs F c l → end_at (log ++ [nr]) (S c) = end_at log (S c) ∧ end_at log (S c) ≤ XLogBytePosToEndRecPtr (tip log)) as Hc.
  { intros F' c l _ (Hfc & _ & Hpub & _). destruct (Hpub c ltac:(lia)) as [Hlen _]. split; [apply end_at_app; lia|apply end_at_top; lia]. }
  destruct pc; cbn; rewrite ?(end_at_app _ log [nr] F) by done; intros Hx;
    repeat match goal with
    | Hx : _ ∧ _ |- _ => destruct Hx
    | Hx : ∃ c : nat, _ |- _ => destruct Hx as [c Hx]
    | Hx : sync_ok _ log _ _ |- _ => apply sync_ok_later in Hx; [|done]
    end; try match goal with Hs : scan_range log bs _ ?c0 _ |- _ => destruct (Hc _ _ _ HF Hs) as [Hc1 Hc2]; apply Hsc in Hs end; try done; split_and!; try done;
    try match goal with Hs : scan_range _ bs' _ ?c0 _ |- _ => exists c0 end; rewrite ?Hc1; split_and!; try done.
  - apply write_ok_later; [done|congruence|done].
  - apply dump_ok_later; [congruence|done].
  - match goal with Hx : written_ok _ _ _ _ _ |- _ => destruct Hx as (? & ? & ? & ? & ?) end. split_and!; try done; [apply disk_upto_later|apply sync_ok_later]; try done; congruence.
Qed.

Lemma insertion_later F a : insertion_ok log F a → insertion_ok (log ++ [nr]) F a.
Proof. intros (r & Hr & ?). exists r. split; [by apply lookup_app_l_Some|done]. Qed.

Lemma pc_later F late wm pc : pc_ok log F late wm pc → pc_ok (log ++ [nr]) F late wm pc.
Proof.
  destruct pc; try done; cbn.
  - intros [? (r & ? & ?)]. split; [by apply insertion_later|]. exists r. split; [by apply lookup_app_l_Some|done].
  - apply insertion_later.
  - intros [? ?]. split; [by apply insertion_later|done].
  - intros [? ?]. split; [by apply insertion_later|done].
Qed.

Lemma in_flight_ticket F late wm pc a : pc_ok log F late wm pc → in_flight pc = Some a → (ticket a < length log)%nat.
Proof.
  intros Hok Ha. assert (insertion_ok log F a) as (r & Hr & _); [|by eapply lookup_lt_Some]. destruct pc; simplify_eq/=; try done; by destruct Hok.
Qed.

Lemma chain_later q : request_ok q → l_prev nr = XLogBytePosToRecPtr (tip log - size_before lastsize log (length log)) →
  l_bytes nr = concat (record_chunks (l_prev nr) q) → chain base lastsize (log ++ [nr]).
Proof.
  intros Hq Hpv Hby k r Hr. apply lookup_app_Some in Hr as [Hr|[Hk Hr]].
  - destruct (Hchain k r Hr) as (Hs & Hp & Hb). pose proof (lookup_lt_Some _ _ _ Hr). unfold record_ok. rewrite tip_at_app, size_before_app by lia. done.
  - apply list_lookup_singleton_Some in Hr as [Hk' <-]. assert (k = length log) as -> by lia. unfold record_ok. rewrite tip_at_app, size_before_app by done.
    rewrite tip_at_all by done. split_and!; [done|by rewrite Hnr|by exists q].
Qed.

End grow.

(** ** The step *)

Section flight.
Variables (bs : Z → backend) (t : Z) (b' : backend) (a : insertion) (c : copy_vars) (p : copy_pc).
Hypothesis Hold : in_flight (b_pc (bs t)) = None.
Hypothesis Hnew : b_pc b' = InsCopy a c p.

Lemma reserve_held j : held (<[t := b']> bs) j ↔ held bs j ∨ j = ticket a.
Proof.
  unfold held, holds_ticket. split.
  - intros (t' & a' & Ha & Hj). destruct (decide (t' = t)) as [->|].
    + rewrite fn_lookup_insert, Hnew in Ha. right. cbn in Ha. congruence.
    + rewrite fn_lookup_insert_ne in Ha by done. left. by exists t', a'.
  - intros [(t' & a' & Ha & Hj)| ->].
    + exists t', a'. rewrite fn_lookup_insert_ne; [done|]. intros ->. by rewrite Hold in Ha.
    + exists t, a. by rewrite fn_lookup_insert, Hnew.
Qed.

Lemma not_copying_before : in_copy (b_pc (bs t)) = None.
Proof. by destruct (b_pc (bs t)). Qed.

Lemma reserve_copying j : copying (<[t := b']> bs) j ↔ copying bs j ∨ j = ticket a.
Proof.
  pose proof not_copying_before as Hnc. unfold copying. split.
  - intros (t' & a' & c' & Ha & Hj). destruct (decide (t' = t)) as [->|].
    + rewrite fn_lookup_insert, Hnew in Ha. right. cbn in Ha. congruence.
    + rewrite fn_lookup_insert_ne in Ha by done. left. by exists t', a', c'.
  - intros [(t' & a' & c' & Ha & Hj)| ->].
    + exists t', a', c'. rewrite fn_lookup_insert_ne; [done|]. intros ->. by rewrite Hnc in Ha.
    + exists t, a, c. by rewrite fn_lookup_insert, Hnew.
Qed.

Lemma reserve_passed j p' : passed (<[t := b']> bs) j p' → passed bs j p' ∧ (j = ticket a → p' < CurrPos c).
Proof.
  pose proof not_copying_before as Hnc. intros Hp. split.
  - intros t' a' c' Ha Hj. apply (Hp t' a' c'); [|done]. rewrite fn_lookup_insert_ne; [done|]. intros ->. by rewrite Hnc in Ha.
  - intros ->. apply (Hp t a c); [by rewrite fn_lookup_insert, Hnew|done].
Qed.

Lemma reserve_once : (∀ t1 t2 k, holds_ticket (bs t1) k → holds_ticket (bs t2) k → t1 = t2) → ¬ held bs (ticket a) →
  ∀ t1 t2 k, holds_ticket (<[t := b']> bs t1) k → holds_ticket (<[t := b']> bs t2) k → t1 = t2.
Proof.
  intros Honce Hn. assert (∀ t1 k, holds_ticket (<[t := b']> bs t1) k → (t1 = t ∧ k = ticket a) ∨ (t1 ≠ t ∧ holds_ticket (bs t1) k)) as Hh.
  { intros t1 k (a' & Ha & Hk). destruct (decide (t1 = t)) as [->|].
    - rewrite fn_lookup_insert, Hnew in Ha. left. cbn in Ha. split; congruence.
    - rewrite fn_lookup_insert_ne in Ha by done. right. split; [done|]. by exists a'. }
  intros t1 t2 k [[-> ->]|[? Hh1]]%Hh [[-> Hk2]|[? Hh2]]%Hh; [done|destruct Hn; by exists t2|subst k; destruct Hn; by exists t1|by eapply Honce].
Qed.

End flight.

Lemma tip_snoc log nr : tip (log ++ [nr]) = rec_end nr.
Proof. unfold XLogInv.tip. by rewrite last_snoc. Qed.

(** A backend that has just reserved its space. *)
Lemma reserve_pc log nr a chunks F late wm : 0 ≤ l_start nr → l_bytes nr = concat chunks → 32 ≤ rec_len nr → ticket a = length log →
  StartPos a = XLogBytePosToRecPtr (l_start nr) → EndPos a = XLogBytePosToEndRecPtr (rec_end nr) → currlrc a = Z.of_nat (length log) mod 2 ^ 31 →
  write_len a = rec_len nr → (F ≤ length log)%nat →
  pc_ok (log ++ [nr]) F late wm (InsCopy a (copy_init (StartPos a) chunks) (CopyGet true GetEnter)).
Proof.
  intros Hs Hby Hl Ht HS HE HL Hwl HF. assert ((log ++ [nr]) !! ticket a = Some nr) as Hr by (rewrite Ht; by apply list_lookup_middle).
  split; [exists nr; rewrite Ht in *; split_and!; done|]. exists nr. split; [done|]. destruct (byte_page (l_start nr) Hs) as (g & Hg0 & Hg & Hrp & _).
  exists (l_start nr), g. cbn. rewrite Z.sub_diag. split_and!; try done; lia.
Qed.

(** The insert position is behind the new record. *)
Lemma reserve_log m nr q : log_inv base lastsize m → l_start nr = tip (m_log m) → request_ok q → l_bytes nr = concat (record_chunks (l_prev nr) q) →
  chain base lastsize (m_log m ++ [nr]) → XLogBytePosToEndRecPtr (tip (m_log m ++ [nr])) < log_limit →
  log_inv base lastsize (set_log (m_log m ++ [nr]) (set_word {| currentBytePos := tip (m_log m) + MAXALIGN (xl_tot_len (rechdr q));
     byteSize := MAXALIGN (xl_tot_len (rechdr q)); LRC := Z.land (Z.of_nat (length (m_log m)) mod 2 ^ 31 + 1) LRC_MASK |} m)).
Proof.
  intros Hl Hst Hq Hby Hch Hlim. assert (record_size (l_bytes nr) = MAXALIGN (xl_tot_len (rechdr q))) as Hsz.
  { unfold record_size. by rewrite Hby, chunks_length. }
  split; cbn [m_word m_log set_log set_word]; [|done|done]. rewrite LRC_next. unfold size_before. rewrite take_ge by done. rewrite tip_snoc, last_snoc, Hsz.
  unfold rec_end. rewrite Hsz, Hst, length_app. cbn. by rewrite Nat.add_1_r.
Qed.

Lemma reserve_step σ t r compare : wal_inv σ → 0 ≤ t < max_backends → b_pc (backends σ t) = InsReserve r compare →
  XLogBytePosToEndRecPtr (tip (m_log (mem (run_backend t σ)))) < log_limit → wal_inv (run_backend t σ).
Proof.
  intros Hi Ht Hpc. destruct (bi_ok _ _ _ _ _ (inv_backends _ _ _ Hi) t) as (Hok & Hca). rewrite Hpc in Hok. cbn in Hok. rename Hok into Hreq.
  unfold run_backend, XLogInsertRecordSingle, ReserveXLogInsertLocation. rewrite Hpc.
  destruct (LRC compare =? WAL_COPY_SUSPEND); [intros _; apply backend_local; try done; by rewrite Hpc|].
  destruct (decide (m_word (mem σ) = compare)) as [Hw|]; [|intros _; apply backend_local; try done; by rewrite Hpc].
  pose proof Hi as [Hl [Hb1 Hb2 Hb3] [Hs1 Hs2 Hs3 Hs4] [Hw1 Hw2 Hw3 Hw4 Hw5 Hw6 Hw7] Hfi Hwr]. pose proof (li_word _ _ _ Hl) as Hword. subst compare. rewrite Hword.
  cbn [currentBytePos byteSize LRC]. set (log := m_log (mem σ)) in *. set (prev := XLogBytePosToRecPtr (_ - _)).
  set (nr := {| l_start := tip log; l_prev := prev; l_bytes := concat (record_chunks prev r) |}).
  set (a := {| StartPos := _ |}). set (b' := go_pc _ _). intros Hlim. pose proof (inv_chain _ _ _ Hi) as Hch. fold log in Hch.
  assert (chain base lastsize (log ++ [nr])) as Hch'.
  { apply (chain_later log nr eq_refl Hch r); done. }
  pose proof (tip_nonneg log nr eq_refl Hch) as Hn0. change (l_start nr) with (tip log) in Hn0.
  pose proof (chunks_length prev r Hreq) as Hlen.
  assert (32 ≤ rec_len nr) as Hlen32 by (unfold rec_len; cbn [l_bytes nr]; rewrite Hlen; destruct Hreq as (-> & _); unfold SizeOfXLogRecord; lia).
  assert (b_pc b' = InsCopy a (copy_init (StartPos a) (record_chunks prev r)) (CopyGet true GetEnter)) as Hb' by done.
  assert (in_flight (b_pc (backends σ t)) = None) as Hold by by rewrite Hpc.
  pose proof (λ j, reserve_held (backends σ) t b' a _ _ Hold Hb' j) as Hheld. change (ticket a) with (length log) in Hheld.
  assert (¬ held (backends σ) (length log)) as Hfree.
  { intros (t' & a' & Ha' & Hk'). destruct (Hb1 t') as [Hok' _]. pose proof (in_flight_ticket log _ _ _ _ _ Hok' Ha'). lia. }
  assert (∀ k, published log (backends σ) k → published (log ++ [nr]) (<[t := b']> (backends σ)) k) as Hpub.
  { intros k [Hk Hnh]. split; [rewrite length_app; cbn; lia|]. intros [?| ->]%Hheld; [done|lia]. }
  assert (∀ k, published (log ++ [nr]) (<[t := b']> (backends σ)) k → published log (backends σ) k) as Hpub'.
  { intros k [Hk Hnh]. rewrite length_app in Hk. cbn in Hk. split; [|intros Hh; apply Hnh, Hheld; by left].
    destruct (decide (k = length log)) as [->|]; [|lia]. destruct Hnh. apply Hheld. by right. }
  assert (retired σ ≤ length log)%nat as HF by done.
  split; cbn [mem backends writer retired backend_at set_log set_word m_word m_log m_buf m_status m_wrt].
  - by apply reserve_log.
  - split.
    + intros t'. destruct (decide (t' = t)) as [->|]; [rewrite fn_lookup_insert|rewrite fn_lookup_insert_ne by done; destruct (Hb1 t') as [? ?]; split; [by apply pc_later|done]].
      split; [|done]. rewrite Hb'. apply (reserve_pc log nr); try done. unfold rec_end, record_size. cbn [l_bytes l_start nr]. by rewrite Hlen.
    + intros t' Ht'. rewrite fn_lookup_insert_ne; [by apply Hb2|]. intros ->. lia.
    + by apply (reserve_once (backends σ) t b' a _ _ Hb').
  - split.
    + intros k Hk1 Hk2. destruct (Hs1 k Hk1 Hk2) as (HL & Hp & Hnp). split_and!; [done| |].
      * intros Hk%Hpub'. rewrite end_at_app by (destruct Hk; lia). by apply Hp.
      * intros Hk. apply Hnp. intros ?. by apply Hk, Hpub.
    + rewrite length_app. lia.
    + intros Hla. by apply Hpub, Hs3.
    + intros k Hk1 Hk2. rewrite length_app in Hk2. cbn in Hk2. apply Hheld. destruct (decide (k = length log)); [by right|left; apply Hs4; [done|lia]].
  - split; try done.
    + intros g Hg. apply page_ok_append; [done| |].
      * intros p' [Hp' _] Hps. apply (reserve_passed _ _ _ _ _ _ Hold Hb') in Hps as [_ Hps]. specialize (Hps eq_refl). cbn in Hps, Hp'. lia.
      * eapply (page_ok_weaken base lastsize base_pos base_aligned); [done| |by apply Hw4]. intros k r' p' _ _ _ Hps.
        by apply (reserve_passed _ _ _ _ _ _ Hold Hb') in Hps as [Hps _].
    + by rewrite end_at_app.
    + intros k Hk Hnc. rewrite length_app in Hk. cbn in Hk. assert (k ≠ S (length log)) as Hk'.
      { intros ->. apply (Hnc _ eq_refl), (reserve_copying _ _ _ _ _ _ Hold Hb'). by right. }
      rewrite end_at_app by lia. apply Hw7; [lia|]. intros j Hj Hcj. apply (Hnc j Hj), (reserve_copying _ _ _ _ _ _ Hold Hb'). by left.
  - destruct Hfi as [H1f H2f H3f H4f H5f]. assert (tip log ≤ tip (log ++ [nr])) as Htip.
    { rewrite tip_snoc. pose proof (record_size_range base nr) as Hsz. destruct Hreq as (_ & Hmax & _). unfold rec_end, rec_len in *. cbn [l_start l_bytes nr] in *. lia. }
   
    pose proof (proj2 (end_ptr_le (tip log) (tip (log ++ [nr])) Hn0 ltac:(lia)) Htip). split; try done; [lia| |]; apply disk_upto_later; try done; lia.
  - apply (walwriter_later log nr eq_refl Hch (backends σ)); try done. apply Hfi.
Qed.

End reserve.
