(* ===== verification/XLogScan.v ===== *)
(** * The WAL writer finds and syncs records: the invariant

    The scan of the status table stops at the first record that is not there; a sync makes
    everything durable that has been written. *)

From S2P Require Import Prelude FsmPage XLogDefs XLogInsert XLogWriter XLogInv XLogPages XLogBackend XLogTickets.
From stdpp Require Import list.

Open Scope Z_scope.

(** A round later an entry is the same and the counter is not. *)
Lemma entry_round (k : nat) : Z.of_nat (k + Z.to_nat CNT) mod CNT = Z.of_nat k mod CNT.
Proof. rewrite Nat2Z.inj_add, CNT_eq. change (Z.of_nat (Z.to_nat 65536)) with 65536. zdiv. Qed.
Lemma LRC_round (k : nat) : Z.of_nat (k + Z.to_nat CNT) mod 2 ^ 31 ≠ Z.of_nat k mod 2 ^ 31.
Proof. rewrite Nat2Z.inj_add, CNT_eq. change (Z.of_nat (Z.to_nat 65536)) with 65536. zdiv. Qed.

Section scan.
Context `{WalGeometryOk} `{WalEnv}.
Variables (base lastsize : Z).
Hypothesis base_pos : 0 < base.
Hypothesis base_aligned : base mod 8 = 0.

Abbreviation wal_inv := (wal_inv base lastsize).
Abbreviation end_at := (end_at base).
Abbreviation page_ok := (page_ok base).

Definition writer_at (m : wal_mem) (pc : writer_pc) (σ : wal_config) : wal_config :=
  {| mem := m; backends := backends σ; writer := pc; retired := retired σ |}.

(** ** Who holds a counter *)

Lemma few_dec (P : Z → Prop) (bs : Z → backend) : (∀ t, Decision (P t)) → (∀ t, P t → 0 ≤ t < max_backends) → Decision (∃ t, P t).
Proof.
  intros Hd Hr. destruct (decide (Exists P (seqZ 0 max_backends))) as [He|He]; [left|right].
  - apply Exists_exists in He as (t & _ & Ht). by exists t.
  - intros [t Ht]. apply He, Exists_exists. exists t. split; [|done]. apply elem_of_seqZ. pose proof (Hr t Ht). lia.
Qed.

Lemma busy_range (bs : Z → backend) t : (∀ t, ¬ 0 ≤ t < max_backends → b_pc (bs t) = InsIdle) → b_pc (bs t) ≠ InsIdle → 0 ≤ t < max_backends.
Proof. intros Hf Hb. destruct (decide (0 ≤ t < max_backends)) as [|Hn]; [done|]. by destruct Hb; apply Hf. Qed.

Lemma held_dec (bs : Z → backend) k : (∀ t, ¬ 0 ≤ t < max_backends → b_pc (bs t) = InsIdle) → Decision (held bs k).
Proof.
  intros Hf. apply (few_dec _ bs).
  - intros t. unfold holds_ticket. destruct (in_flight (b_pc (bs t))) as [a|]; [|right; by intros (? & ? & _)].
    destruct (decide (ticket a = k)); [left; by exists a|right; intros (? & ? & ?); congruence].
  - intros t (a & Ha & _). apply (busy_range bs); [done|]. intros E. by rewrite E in Ha.
Qed.

Lemma copying_dec (bs : Z → backend) k : (∀ t, ¬ 0 ≤ t < max_backends → b_pc (bs t) = InsIdle) → Decision (copying bs k).
Proof.
  intros Hf. apply (few_dec _ bs).
  - intros t. destruct (in_copy (b_pc (bs t))) as [[a c]|] eqn:E; [|right; intros (? & ? & ? & _); done].
    destruct (decide (ticket a = k)); [left; by exists a, c|right; intros (? & ? & ? & ?); congruence].
  - intros t (a & c & Ha & _). apply (busy_range bs); [done|]. intros E. by rewrite E in Ha.
Qed.

Lemma entry_filled log bs late k e : (∀ t, ¬ 0 ≤ t < max_backends → b_pc (bs t) = InsIdle) → entry_ok base log bs late k e → endLSN e ≠ 0 → published log bs k.
Proof.
  intros Hf (_ & _ & Hnp) He. destruct (decide (k < length log)%nat); [|destruct He; apply Hnp; by intros []].
  destruct (held_dec bs k Hf); [destruct He; apply Hnp; by intros []|done].
Qed.

Lemma copying_held bs k : copying bs k → held bs k.
Proof. intros (t & a & c & Ha & Hk). exists t, a. destruct (b_pc (bs t)); simplify_eq/=. done. Qed.

(** ** Steps of the writer *)

(** A step that changes only what has been written. *)
Lemma writer_step σ w pc : wal_inv σ → is_late (writer σ) = false → is_half (writer σ) = false → is_late pc = false → is_half pc = false →
  files_inv base (m_log (mem σ)) w → walwriter_ok base (m_log (mem σ)) (backends σ) (retired σ) (m_buf (mem σ)) w pc →
  wal_inv (writer_at (set_wrt w (mem σ)) pc σ).
Proof.
  intros [Hl Hb Hs Hw Hfi Hwr] HL HH HL' HH' Hf Hwp. split; cbn [mem backends writer retired writer_at set_wrt m_log m_buf m_status m_wrt m_word]; try done.
  - by destruct Hl; split.
  - by rewrite HL, <- HL' in Hb.
  - by rewrite HL, <- HL' in Hs.
  - by rewrite HH, <- HH' in Hw.
Qed.

Lemma set_wrt_same m : set_wrt (m_wrt m) m = m.
Proof. by destruct m. Qed.

Lemma writer_stay σ pc : wal_inv σ → is_late (writer σ) = false → is_half (writer σ) = false → is_late pc = false → is_half pc = false →
  walwriter_ok base (m_log (mem σ)) (backends σ) (retired σ) (m_buf (mem σ)) (m_wrt (mem σ)) pc → wal_inv (writer_at (mem σ) pc σ).
Proof. intros Hi ?????. replace (mem σ) with (set_wrt (m_wrt (mem σ)) (mem σ)) by apply set_wrt_same. apply writer_step; try done. apply Hi. Qed.

(** ** Syncing *)

Lemma file_page_synced w g : file_page (synced (issue_xlog_fsync w)) g = if decide (g / seg_pages = openLogSegNo w) then file_page (files w) g else file_page (synced w) g.
Proof.
  unfold file_page; cbn. case_decide as E; [by rewrite E, fn_lookup_insert|by rewrite fn_lookup_insert_ne].
Qed.

Lemma do_flush log w : files_inv base log w → sync_ok base log w (ResultWrite w) →
  files_inv base log (XLogDoFlush w) ∧ sync_ok base log (XLogDoFlush w) (ResultWrite w) ∧ ResultWrite (XLogDoFlush w) = ResultWrite w ∧
  ResultFlush (XLogDoFlush w) = ResultWrite w ∧ lastWalStatusEntryFlushed (XLogDoFlush w) = lastWalStatusEntryFlushed w.
Proof.
  intros [Ho Hf Ht Hd Hsy] Hs. unfold XLogDoFlush. destruct (_ <? _) eqn:E; bool_to_prop; [|split_and!; try done; lia].
  destruct Hs as [|(_ & Hseg & Hm & Hs)]; [lia|]. unfold XLByteInPrevSeg. rewrite Hseg, Z.eqb_refl.
  split_and!; try done; [|by left]. split; cbn [XLogUpdateShareStatus issue_xlog_fsync flushResult ResultFlush ResultWrite files synced]; try done; try lia.
  intros g Hg Hlt. change (page_ok log (upto_lsn (ResultWrite w)) (file_page (synced (issue_xlog_fsync w)) g) g).
  rewrite file_page_synced. case_decide; [by apply Hd|]. by destruct (Hs g Hg Hlt).
Qed.

(** ** Idle, and scanning *)

Lemma idle_step σ choice : wal_inv σ → writer σ = WIdle → wal_inv (run_writer choice σ).
Proof.
  intros Hi Hpc. pose proof (inv_writer _ _ _ Hi) as Hwr. rewrite Hpc in Hwr. destruct Hwr as ((HW & Hn & Hsy) & Hcalm).
  unfold run_writer. rewrite Hpc. cbn [XLogBackgroundFlush]. destruct choice.
  - destruct (do_flush (m_log (mem σ)) (m_wrt (mem σ)) (inv_files _ _ _ Hi) Hsy) as (Hf & Hs & Hw & _ & Hl).
    apply (writer_step σ); rewrite ?Hpc; try done. rewrite <- Hw in Hs. by rewrite <- Hw in HW; rewrite <- Hl in Hn.
  - rewrite Hn. pose proof (si_entry _ _ _ _ _ _ (inv_status _ _ _ Hi) (retired σ) ltac:(lia) ltac:(rewrite CNT_eq; lia)) as He. rewrite Hpc in He.
    destruct (endLSN _ =? 0) eqn:E; bool_to_prop; [by apply (writer_stay σ); rewrite ?Hpc|].
    apply (writer_stay σ); rewrite ?Hpc; try done. cbn. split; [done|]. split; [done|]. exists (retired σ). split; [|done]. split_and!; [done|rewrite CNT_eq; lia| |done].
    intros k Hk. assert (k = retired σ) as -> by lia. eapply entry_filled; [apply Hi|exact He|done].
Qed.

Lemma scan_next_range log bs F c l nf : scan_range log bs F c l → published log bs (S c) → Z.of_nat c + 1 < Z.of_nat F + CNT →
  scan_range log bs F (S c) (scan_to (GET_NEXT_STATUS_ENTRY (curr_entry_idx l)) nf l).
Proof.
  intros (Hfc & Hc & Hp & Hi) Hpub Hlt. split_and!; [lia|lia| |cbn; by rewrite Hi, entry_next].
  intros k Hk. destruct (decide (k = S c)) as [->|]; [done|apply Hp; lia].
Qed.

(** The entry of a scanned record. *)
Lemma scanned_entry σ c l : wal_inv σ → is_late (writer σ) = false → scan_range (m_log (mem σ)) (backends σ) (retired σ) c l →
  entry_LRC (m_status (mem σ) (curr_entry_idx l)) = Z.of_nat c mod 2 ^ 31 ∧
  Z.land (endLSN (m_status (mem σ) (curr_entry_idx l))) MAX_XLOG_REC_PTR = end_at (m_log (mem σ)) (S c).
Proof.
  intros Hi HL (Hfc & Hc & Hp & ->). destruct (si_entry _ _ _ _ _ _ (inv_status _ _ _ Hi) c Hfc Hc) as (HR & He & _).
  rewrite HL in HR. split; [done|]. apply He, Hp. lia.
Qed.

Lemma entry_scan_step σ choice l : wal_inv σ → writer σ = WScan l → wal_inv (run_writer choice σ).
Proof.
  intros Hi Hpc. pose proof (inv_writer _ _ _ Hi) as Hwr. rewrite Hpc in Hwr. destruct Hwr as (Hidle & Hcalm & c & Hsc & Hst).
  unfold run_writer. rewrite Hpc. cbn [XLogBackgroundFlush]. destruct (scanned_entry σ c l) as [HR _]; [done|by rewrite Hpc|done|].
  destruct (_ =? entry_LRC _) eqn:E; bool_to_prop; apply (writer_stay σ); rewrite ?Hpc; try done; (split; [exact Hidle|]); (split; [exact Hcalm|]); exists c; [|by split].
  split; [done|]. destruct Hsc as (Hfc & Hc & Hp & Hidx). rewrite HR, Hidx, entry_next, LRC_next in E.
  destruct (decide (Z.of_nat c + 1 < Z.of_nat (retired σ) + CNT)) as [|Hge]; [done|exfalso]. assert (S c = retired σ + Z.to_nat CNT)%nat as Hc' by (rewrite CNT_eq in *; lia).
  destruct (si_entry _ _ _ _ _ _ (inv_status _ _ _ Hi) (retired σ) ltac:(lia) ltac:(rewrite CNT_eq; lia)) as (HR' & _). rewrite Hpc in HR'. cbn [is_late andb] in HR'.
  replace (Z.of_nat (S c) mod CNT) with (Z.of_nat (retired σ) mod CNT) in E by (rewrite Hc'; symmetry; apply entry_round). rewrite HR', Hc' in E. by apply LRC_round in E.
Qed.

Lemma scan_next_step σ choice l : wal_inv σ → writer σ = WScanNext l → wal_inv (run_writer choice σ).
Proof.
  intros Hi Hpc. pose proof (inv_writer _ _ _ Hi) as Hwr. rewrite Hpc in Hwr. destruct Hwr as (Hidle & Hcalm & c & (Hsc & Hst) & Hlt).
  unfold run_writer. rewrite Hpc. cbn [XLogBackgroundFlush]. pose proof Hsc as (Hfc & Hc & Hp & Hidx).
  destruct (endLSN _ =? 0) eqn:E; bool_to_prop; [destruct choice|]; apply (writer_stay σ); rewrite ?Hpc; try done; (split; [exact Hidle|]); (split; [exact Hcalm|]);
    [by exists c|by exists c|]. exists (S c). split; [|done]. apply scan_next_range; [done| |done]. rewrite Hidx, entry_next in E.
  pose proof (si_entry _ _ _ _ _ _ (inv_status _ _ _ Hi) (S c) ltac:(lia) ltac:(lia)) as He. eapply entry_filled; [apply Hi|exact He|done].
Qed.

End scan.
