(* ===== verification/XLogDump.v ===== *)
(** * The WAL writer writes pages: the invariant

    [XLogWrite] finds the page buffer of every position it has been asked to write, and what
    it puts into the files is the log up to there. *)

From S2P Require Import Prelude FsmPage XLogDefs XLogInsert XLogWriter XLogInv XLogPages XLogBackend XLogTickets XLogScan.
From stdpp Require Import list.

Open Scope Z_scope.

Lemma page_of x : x / 8192 * 8192 ≤ x < (x / 8192 + 1) * 8192.
Proof. zdiv. Qed.

Section dump.
Context `{WalGeometryOk} `{WalEnv}.
Variables (base lastsize : Z).
Hypothesis base_pos : 0 < base.
Hypothesis base_aligned : base mod 8 = 0.

Abbreviation wal_inv := (wal_inv base lastsize).
Abbreviation end_at := (end_at base).
Abbreviation page_ok := (page_ok base).

(** ** Segments and buffers *)

Lemma seg_of_page g : (g * 8192 + 8191) / XLogSegSize = g / seg_pages.
Proof.
  destruct seg_pages_spec as [-> Hp]. rewrite (Z.mul_comm seg_pages), <- Z.div_div by lia. f_equal. zdiv.
Qed.

Lemma prev_seg_of X g : g * 8192 < X ≤ (g + 1) * 8192 → XLByteToPrevSeg X = g / seg_pages.
Proof.
  intros HX. unfold XLByteToPrevSeg. destruct seg_pages_spec as [-> Hp]. rewrite (Z.mul_comm seg_pages), <- Z.div_div by lia. f_equal. zdiv.
Qed.

Lemma seg_of_pos X : X / XLogSegSize = X / 8192 / seg_pages.
Proof. destruct seg_pages_spec as [-> Hp]. by rewrite (Z.mul_comm seg_pages), Z.div_div by lia. Qed.

Lemma prev_seg_inside X : X mod XLogSegSize ≠ 0 → XLByteToPrevSeg X = X / XLogSegSize.
Proof.
  intros Hm. unfold XLByteToPrevSeg. destruct seg_pages_spec as [Hs Hp]. assert (0 < XLogSegSize) as Hz by lia.
  pose proof (Z.mod_pos_bound X XLogSegSize Hz). assert (XLogSegSize ≠ 0) as Hnz by lia. pose proof (Z.div_mod X XLogSegSize Hnz).
  symmetry. apply (Z.div_unique _ _ _ (X mod XLogSegSize - 1)); lia.
Qed.

Lemma same_segment q n : 0 ≤ n → q mod seg_pages + n < seg_pages → (q + n) / seg_pages = q / seg_pages ∧ (q + n) mod seg_pages = q mod seg_pages + n.
Proof.
  intros Hn Hlt. pose proof seg_pages_spec as [_ Hp]. destruct (page_coords q) as (s & i & -> & Hi & Hd & Hm). rewrite Hd, Hm in *.
  rewrite <- Z.add_assoc. split; [apply coords_div|apply coords_mod]; lia.
Qed.

Lemma next_segment q n : 0 ≤ n → (q + n) / seg_pages = q / seg_pages → q mod seg_pages + n < seg_pages.
Proof.
  intros Hn He. pose proof seg_pages_spec as [_ Hp]. assert (seg_pages ≠ 0) as Hz by lia. assert (0 < seg_pages) as Hs by lia.
  pose proof (Z.div_mod q seg_pages Hz). pose proof (Z.div_mod (q + n) seg_pages Hz) as Hd. pose proof (Z.mod_pos_bound (q + n) seg_pages Hs). rewrite He in Hd. nia.
Qed.

Lemma buf_range g : 0 ≤ g mod bufs < bufs.
Proof. apply Z.mod_pos_bound. pose proof bufs_pos. lia. Qed.

Lemma buf_run q n : 0 ≤ n → q mod bufs + n < bufs → (q + n) mod bufs = q mod bufs + n.
Proof.
  intros Hn Hlt. pose proof (buf_range q). rewrite <- (Z.mod_small (q mod bufs + n) bufs) by lia.
  by rewrite Zplus_mod_idemp_l.
Qed.

Lemma buf_next g : NextBufIdx (g mod bufs) = (g + 1) mod bufs.
Proof.
  pose proof (buf_range g). unfold NextBufIdx. change (XLogCacheBlck + 1) with bufs in *.
  destruct (g mod bufs =? XLogCacheBlck) eqn:E; bool_to_prop.
  - rewrite Zplus_mod, E. destruct (decide (bufs = 1)) as [Hb|]; [by rewrite Hb, Z.mod_1_r|].
    rewrite (Z.mod_small 1) by lia. unfold bufs. by rewrite Z_mod_same_full.
  - rewrite buf_run; unfold bufs in *; lia.
Qed.

(** ** What the writer has been asked for *)

Section rqst.
Variables (σ : wal_config) (c : nat) (l : flush_vars).
Hypothesis Hinv : wal_inv σ.
Hypothesis Hrange : scan_range (m_log (mem σ)) (backends σ) (retired σ) c l.
Abbreviation log := (m_log (mem σ)).
Abbreviation bf := (m_buf (mem σ)).

Lemma rqst_top : end_at log (retired σ) < end_at log (S c) ≤ XLogBytePosToEndRecPtr (tip base log).
Proof.
  destruct Hrange as (Hfc & _ & Hp & _). destruct (Hp c ltac:(lia)) as [Hc _]. pose proof (inv_chain _ _ _ Hinv) as Hch. split.
  - apply (end_at_lt base lastsize base_pos base_aligned); [done|lia|lia].
  - pose proof (end_at_le base lastsize base_pos base_aligned log (S c) (length log) Hch ltac:(lia)) as Hle. unfold XLogInv.end_at at 2 in Hle.
    by rewrite tip_at_all in Hle.
Qed.

(** Its pages are in the buffers. *)
Lemma rqst_window g : g * 8192 < end_at log (S c) → g < window bf + bufs.
Proof.
  intros Hg. destruct Hrange as (Hfc & _ & Hp & _). destruct (Hp c ltac:(lia)) as [Hc Hn].
  pose proof (wi_high _ _ _ _ _ _ (inv_window _ _ _ Hinv) (S c) ltac:(lia)) as Hh. assert (end_at log (S c) ≤ (window bf + bufs) * 8192); [|lia].
  apply Hh. intros j [= <-] Hcj. by apply Hn, copying_held.
Qed.

(** A page in the buffers has all of the log up to there. *)
Lemma rqst_page g : is_half (writer σ) = false → window bf ≤ g → g * 8192 < end_at log (S c) →
  page_ok log (upto_lsn (end_at log (S c))) (pages bf (g mod bufs)) g.
Proof.
  intros Hh Hg Hlt. pose proof (rqst_window g Hlt). pose proof (inv_chain _ _ _ Hinv) as Hch.
  apply (page_ok_weaken base lastsize base_pos base_aligned log (passed (backends σ))); [done| |].
  - intros k r p Hr Hin _ Hp t a cv Ha Hk. exfalso. unfold upto_lsn in Hp. destruct (inside_log base lastsize base_pos base_aligned log k r p Hch Hr Hin) as [Hlo _].
    assert (held (backends σ) k) as Hheld by (apply copying_held; by exists t, a, cv).
    destruct Hrange as (Hfc & _ & Hpub & _). destruct (decide (k ≤ c)%nat) as [Hkc|].
    + destruct (decide (retired σ ≤ k)%nat); [by destruct (Hpub k ltac:(lia))|]. destruct (bi_ok _ _ _ _ _ (inv_backends _ _ _ Hinv) t) as [Hok _].
      destruct (b_pc (backends σ t)); simplify_eq/=. destruct Hok as ((r' & _ & _ & _ & _ & _ & HF) & _). lia.
    + pose proof (end_at_le base lastsize base_pos base_aligned log (S c) k Hch ltac:(lia)). lia.
  - apply (wi_page _ _ _ _ _ _ (inv_window _ _ _ Hinv)). rewrite Hh. cbn [Z.b2z]. lia.
Qed.

End rqst.

Lemma scanned_step σ choice l : wal_inv σ → writer σ = WScanned l → wal_inv (run_writer choice σ).
Proof.
  intros Hi Hpc. pose proof (inv_writer _ _ _ Hi) as Hwr. rewrite Hpc in Hwr. destruct Hwr as ((HW & Hn & Hsy) & Hcalm & c & Hsc & Hst).
  unfold run_writer. rewrite Hpc. cbn [XLogBackgroundFlush]. destruct (scanned_entry base lastsize σ c l) as [_ HX]; [done|by rewrite Hpc|done|]. rewrite HX.
  pose proof (rqst_top σ c l Hi Hsc) as Htop. destruct (inv_files _ _ _ Hi) as [Ho Hf Ht Hd Hs]. pose proof (inv_chain _ _ _ Hi) as Hch.
  set (w := m_wrt (mem σ)) in *. set (log := m_log (mem σ)) in *. set (X := end_at log (S c)) in *.
  apply (writer_step base lastsize σ); rewrite ?Hpc; try done. cbn [walwriter_ok WriteRqstPtr with_rqst]. split; [exact Hcalm|].
  exists c. split; [by split|]. split; [done|]. exists (ResultWrite w / 8192). cbn [lw_Write lw_Flush curridx npages with_scanned ResultWrite ResultFlush files].
  destruct Hcalm as [_ Hcw]. rewrite HW in *.
  assert (∀ g', g' < end_at log (retired σ) / 8192 → (g' + 1) * 8192 ≤ end_at log (retired σ)) as Hfull by (intros; zdiv).
  assert (∀ d g', page_ok log (upto_lsn (end_at log (retired σ))) (file_page d g') g' → g' < end_at log (retired σ) / 8192 → page_ok log (upto_lsn X) (file_page d g') g') as Hbound.
  { intros d g' Hp Hg'. apply (page_ok_bound base lastsize base_pos base_aligned log (end_at log (retired σ))); [done| |done]. left. by apply Hfull. }
  assert (∀ g', first_page base ≤ g' < end_at log (retired σ) / 8192 → g' * 8192 < end_at log (retired σ)) as Hless by (intros g' Hg'; pose proof (Hfull g'); lia).
  split_and!; try done; try lia.
  - intros g' Hg'. apply Hbound; [apply Hd; [lia|by apply Hless]|lia].
  - intros g' Hg'. destruct Hsy as [Hsy|(_ & _ & _ & Hsy)].
    + right. apply Hbound; [|lia]. rewrite <- Hsy. apply Hs; [lia|]. rewrite Hsy. by apply Hless.
    + destruct (Hsy g' ltac:(lia) ltac:(by apply Hless)) as [|Hp]; [by left|right]. apply Hbound; [done|lia].
  - left. split_and!; try done. destruct Hsy as [Hsy|(_ & Hseg & Hm & _)].
    + right. intros g' Hg'. apply Hbound; [|lia]. rewrite <- Hsy. apply Hs; [lia|]. rewrite Hsy. by apply Hless.
    + left. cbn [openLogSegNo with_scanned]. by rewrite <- Hseg, <- seg_of_pos, prev_seg_inside.
Qed.

(** ** One round of [XLogWrite] *)

(** The file of the page is open. *)
Lemma write_open log X w q g (v : write_vars) : files_inv base log w → synced_upto base log w X q →
  (q = g ∧ npages v = 0 ∧ (g / seg_pages = openLogSegNo w ∨ pages_upto base log (synced w) X q) ∨ q < g ∧ g / seg_pages = openLogSegNo w) →
  let w' := if XLByteInPrevSeg ((g + 1) * 8192) (openLogSegNo w) then w else with_open (XLByteToPrevSeg ((g + 1) * 8192)) w in
  openLogSegNo w' = g / seg_pages ∧ synced_upto base log w' X q ∧ files_inv base log w' ∧ files w' = files w ∧
  ResultWrite w' = ResultWrite w ∧ ResultFlush w' = ResultFlush w ∧ (q < g → w' = w).
Proof.
  intros Hf Hs Hq. unfold XLByteInPrevSeg. rewrite (prev_seg_of _ g) by lia. destruct (_ =? _) eqn:E; bool_to_prop; cbn; [by split_and!|].
  destruct Hq as [(-> & _ & [|Hp])|[? ?]]; [congruence| |congruence]. split_and!; try done; [|by destruct Hf; split|lia].
  intros g' Hg'. right. by apply Hp.
Qed.

(** The pages to dump together, one page more. *)
Definition one_page_more (g : Z) (v : write_vars) : write_vars :=
  {| lw_Write := (g + 1) * 8192; lw_Flush := lw_Flush v; curridx := curridx v; npages := npages v + 1;
     startidx := if npages v =? 0 then curridx v else startidx v;
     startoffset := if npages v =? 0 then ((g + 1) * 8192 - XLOG_BLCKSZ) mod XLogSegSize else startoffset v |}.

Lemma group_more w w' q g (v : write_vars) : curridx v = g mod bufs → openLogSegNo w' = g / seg_pages →
  (q = g ∧ npages v = 0 ∨ q < g ∧ dump_group w q g v ∧ startidx v + (g - q) = g mod bufs ∧ w' = w) → dump_group w' q (g + 1) (one_page_more g v).
Proof.
  intros Hc Ho Hq. pose proof (buf_range g). unfold dump_group, one_page_more. cbn [npages startidx startoffset]. replace (g + 1 - 1) with g by lia.
  replace ((g + 1) * 8192 - XLOG_BLCKSZ) with (g * 8192) by (unfold XLOG_BLCKSZ; lia). rewrite seg_start.
  destruct Hq as [(-> & Hn)|(Hqg & (Hn & Hsi & Hsb & Hso & Hq1 & Hq2) & Hg & ->)].
  - rewrite Hn. cbn. split_and!; try done; lia.
  - destruct (npages v =? 0) eqn:E; bool_to_prop; [lia|]. split_and!; try done; lia.
Qed.

(** A run of pages that does not end its segment goes on in it. *)
Lemma group_goes_on w q g (v : write_vars) : q ≤ g → dump_group w q (g + 1) v → startoffset v + npages v * XLOG_BLCKSZ < XLogSegSize →
  (g + 1) / seg_pages = openLogSegNo w ∧ (g + 1) mod seg_pages ≠ 0.
Proof.
  intros Hq (Hn & _ & _ & Hso & Hq1 & _) Hlt. rewrite Hn, Hso in Hlt. unfold XLOG_BLCKSZ in Hlt. pose proof seg_pages_spec as [Hs Hp]. rewrite Hs in Hlt.
  destruct (same_segment q (g + 1 - q)) as [He Hm]; [lia|lia|]. replace (q + (g + 1 - q)) with (g + 1) in * by lia. rewrite He, Hm.
  split; [done|]. pose proof (page_coords q) as (? & ? & _ & ? & _ & ?). lia.
Qed.

Lemma write_step σ choice l v : wal_inv σ → writer σ = WWrite l v → wal_inv (run_writer choice σ).
Proof.
  intros Hi Hpc. pose proof (inv_writer _ _ _ Hi) as Hwr. rewrite Hpc in Hwr.
  destruct Hwr as (Hcalm & c & (Hsc & Hst) & HX & q & Hq1 & HWX & HFW & HFl & Hpu & Hsu & Hci & Hcase & Hend). set (g := lw_Write v / 8192) in *.
  unfold run_writer. rewrite Hpc. cbn [XLogBackgroundFlush]. unfold XLogWrite.
  pose proof (inv_files _ _ _ Hi) as Hfi. pose proof (rqst_top σ c l Hi Hsc) as Htop. set (X := WriteRqstPtr l) in *.
  assert (g * 8192 ≤ lw_Write v < (g + 1) * 8192) as Hg by apply page_of.
  destruct (lw_Write v <? X) eqn:E; bool_to_prop.
  - assert (g < window (m_buf (mem σ)) + bufs) as Hgw by (apply (rqst_window σ c l Hi Hsc); lia).
    rewrite Hci, (wi_block _ _ _ _ _ _ (inv_window _ _ _ Hi)) by lia. destruct (_ <? (g + 1) * 8192) eqn:E2; bool_to_prop; [|lia].
    destruct (write_open (m_log (mem σ)) X (m_wrt (mem σ)) q g v Hfi Hsu) as (Ho & Hsu' & Hfi' & Hfs & HRW & HRF & Hsame).
    { destruct Hcase as [?|(? & _ & _ & _ & _ & ?)]; [by left|by right]. }
    set (w' := if XLByteInPrevSeg _ _ then _ else _) in *. rewrite <- Hci. fold (one_page_more g v). set (v' := one_page_more g v) in *.
    assert (lw_Write v' = (g + 1) * 8192) as HvW by done. assert (lw_Flush v' = lw_Flush v) as HvF by done. assert (curridx v' = curridx v) as Hvc by done.
    assert (dump_group w' q (g + 1) v') as Hgr.
    { apply (group_more (m_wrt (mem σ))); [done|done|]. destruct Hcase as [(? & ? & _)|(? & _ & _ & ? & ? & _)]; [by left|right]. split_and!; try done. by apply Hsame. }
    match goal with |- context [if ?b then (w', _) else _] => destruct b eqn:Eb end.
    + apply (writer_step base lastsize σ); rewrite ?Hpc; try done. split; [exact Hcalm|]. exists c. split; [by split|]. split; [done|]. split; [rewrite HvW; lia|].
      exists q, g. rewrite Hfs, HRW, HRF, Z.add_0_r. pose proof Hgr as (Hn & _). rewrite HvW, HvF, Hvc.
      split_and!; try done; try lia.
    + rewrite !orb_false_iff, negb_false_iff in Eb. destruct Eb as [[? ?] Efs]; bool_to_prop. cbn [lw_Write v' one_page_more] in *.
      destruct (X <? _) eqn:E3; bool_to_prop; [lia|]. cbn [negb andb] in Efs. bool_to_prop.
      destruct (group_goes_on w' q g v') as [Hgo _]; [lia|done|lia|].
      apply (writer_step base lastsize σ); rewrite ?Hpc; try done. split; [exact Hcalm|]. exists c. split; [by split|]. split; [done|].
      assert ((g + 1) * 8192 / 8192 = g + 1) as Hdg by (by rewrite Z.div_mul).
      exists q. cbn [lw_Write lw_Flush curridx v' one_page_more npages]. rewrite Hdg, Hfs, HRW, HRF, Hci, buf_next.
      split_and!; try done; try lia. right. split_and!; try done; try lia. destruct Hgr as (? & Hsi & ?). cbn [startidx v'] in *. rewrite Hsi.
      assert (g mod bufs ≠ XLogCacheBlck) as Hnl by (rewrite <- Hci; done). destruct Hcase as [(-> & _)|(_ & _ & _ & (_ & Hsi' & _) & Hgm & _)].
      * pose proof (buf_range g). rewrite buf_run; unfold bufs in *; lia.
      * rewrite <- Hsi', (buf_run g 1); [lia|lia|]. pose proof (buf_range g). unfold bufs in *. lia.
  - destruct (Hend ltac:(lia)) as (HXg & -> & Hse). destruct Hfi as [? ? ? ? ?].
    apply (writer_step base lastsize σ); rewrite ?Hpc; try done. split; [exact Hcalm|]. exists c. split; [by split|]. split; [done|]. split_and!; try done; try lia.
    + intros g' Hg' Hlt. apply Hpu. lia.
    + destruct Hse as [Hse|[Hse Hm]]; [by left|]. destruct (decide (ResultFlush (m_wrt (mem σ)) = X)); [by left|right]. split_and!; try done; [lia|].
      intros g' Hg' Hlt. apply Hsu. lia.
Qed.

(** ** The [pwrite] *)

Lemma file_page_written w off pg g g' : openLogSegNo w = g / seg_pages → off = g mod seg_pages * 8192 →
  file_page (files (with_file off pg w)) g' = if decide (g' = g) then pg else file_page (files w) g'.
Proof.
  intros Ho ->. unfold file_page; cbn. rewrite Ho. pose proof seg_pages_spec as [_ Hp]. case_decide as E; [by rewrite E, !fn_lookup_insert|].
  destruct (decide (g' / seg_pages = g / seg_pages)) as [E2|]; [|by rewrite fn_lookup_insert_ne]. rewrite E2, fn_lookup_insert.
  rewrite fn_lookup_insert_ne; [done|]. intros Hm. apply E. assert (seg_pages ≠ 0) as Hz by lia.
  rewrite (Z.div_mod g' seg_pages Hz), (Z.div_mod g seg_pages Hz), E2. lia.
Qed.

(** A page of the run. *)
Lemma group_page w q g (v : write_vars) i : dump_group w q (g + 1) v → 0 ≤ i < npages v →
  startidx v + i = (q + i) mod bufs ∧ openLogSegNo w = (q + i) / seg_pages ∧ startoffset v + i * XLOG_BLCKSZ = (q + i) mod seg_pages * 8192.
Proof.
  intros (Hn & Hsi & Hsb & Hso & Hq1 & Hq2) Hi. replace (g + 1 - 1) with (q + (g - q)) in Hq2 by lia. rewrite <- Hq1 in Hq2. apply next_segment in Hq2; [|lia].
  destruct (same_segment q i) as [He Hm]; [lia|lia|]. rewrite He, Hm, buf_run by lia. unfold XLOG_BLCKSZ. split_and!; [lia|done|lia].
Qed.

Lemma dump_page_step σ l v i ip fs : wal_inv σ → writer σ = WDump l v i ip fs → i < npages v →
  wal_inv (writer_at (set_wrt (with_file (startoffset v + i * XLOG_BLCKSZ) (pages (m_buf (mem σ)) (startidx v + i)) (m_wrt (mem σ))) (mem σ)) (WDump l v (i + 1) ip fs) σ).
Proof.
  intros Hi Hpc Hlt. pose proof (inv_writer _ _ _ Hi) as Hwr. rewrite Hpc in Hwr.
  destruct Hwr as (Hcalm & c & (Hsc & Hst) & HX & HFW & q & g & Hq & HW & HgX & HRX & HRW & HF & Hin & Hpu & Hsu & Hgr & Hci & Hrest).
  destruct (group_page _ q g v i Hgr ltac:(lia)) as (Hbuf & Hseg & Hoff). pose proof Hgr as (Hn & _). set (w := m_wrt (mem σ)) in *. set (log := m_log (mem σ)) in *.
  pose proof (λ g', file_page_written w (startoffset v + i * XLOG_BLCKSZ) (pages (m_buf (mem σ)) (startidx v + i)) (q + i) g' Hseg Hoff) as Hfp. set (w' := with_file _ _ w) in *.
  assert (page_ok log (upto_lsn (WriteRqstPtr l)) (pages (m_buf (mem σ)) (startidx v + i)) (q + i)) as Hpg.
  { rewrite Hbuf, HX. apply (rqst_page σ c l Hi Hsc); [by rewrite Hpc|lia|fold log; rewrite <- HX; lia]. }
  pose proof (inv_chain _ _ _ Hi) as Hch. destruct (inv_files _ _ _ Hi) as [Ho Hf Ht Hd Hs].
  apply (writer_step base lastsize σ); rewrite ?Hpc; try done.
  - split; try done. intros g' Hg' Hl'. rewrite Hfp. case_decide as E; [|by apply Hd]. rewrite E.
    apply (page_ok_bound base lastsize base_pos base_aligned log (WriteRqstPtr l)); [done|by right|done].
  - split; [exact Hcalm|]. exists c. split; [by split|]. do 2 (split; [done|]). exists q, g. split_and!; try done; try lia.
    + intros g' Hg'. rewrite Hfp. case_decide as E; [by rewrite E|]. apply Hpu. lia.
    + intros g' Hg'. destruct (decide (g' = q + i)) as [->|]; [by left|]. apply Hsu. lia.
    + apply Hrest.
    + apply Hrest.
    + apply Hrest.
Qed.

(** A run that ends its segment is synced with it. *)
Lemma finish_segment log w X q g : chain base lastsize log → files_inv base log w → first_page base ≤ q → (g + 1) * 8192 ≤ X → X ≤ XLogBytePosToEndRecPtr (tip base log) →
  ResultWrite w ≤ (g + 1) * 8192 → pages_upto base log (files w) X (g + 1) → synced_upto base log w X (g + 1) →
  let w' := XLogUpdateShareStatus ((g + 1) * 8192) ((g + 1) * 8192) (issue_xlog_fsync w) in
  files_inv base log w' ∧ pages_upto base log (synced w') X (g + 1) ∧ synced_upto base log w' X (g + 1).
Proof.
  intros Hch [Ho Hf Ht Hd Hs] Hq HX Htop HW Hpu Hsu w'.
  assert (pages_upto base log (synced w') X (g + 1)) as Hps.
  { intros g' Hg'. change (synced w') with (synced (issue_xlog_fsync w)). rewrite file_page_synced. case_decide; [by apply Hpu|]. by destruct (Hsu g' Hg'). }
  assert (∀ d, pages_upto base log d X (g + 1) → disk_upto base log d ((g + 1) * 8192)) as Hpd.
  { intros d Hp g' Hg' Hlt. apply (page_ok_bound base lastsize base_pos base_aligned log X); [done|by right|]. apply Hp. lia. }
  split_and!; [|done|].
  - split; cbn [w' XLogUpdateShareStatus issue_xlog_fsync flushResult ResultFlush ResultWrite files]; [lia|lia|lia|by apply Hpd|by apply Hpd].
  - intros g' Hg'. right. by apply Hps.
Qed.

Lemma dump_done_step σ l v i ip fs choice : wal_inv σ → writer σ = WDump l v i ip fs → ¬ i < npages v → wal_inv (run_writer choice σ).
Proof.
  intros Hi Hpc Hlt. pose proof (inv_writer _ _ _ Hi) as Hwr. rewrite Hpc in Hwr.
  destruct Hwr as (Hcalm & c & (Hsc & Hst) & HX & HFW & q & g & Hq & HW & HgX & HRX & HRW & HF & Hin & Hpu & Hsu & Hgr & Hci & Hip & Hfs & _).
  unfold run_writer. rewrite Hpc. cbn [XLogBackgroundFlush]. unfold XLogWriteDump. destruct (i <? npages v) eqn:E; bool_to_prop; [lia|].
  pose proof Hgr as (Hn & _ & _ & _ & _ & Hq2). replace (q + i) with (g + 1) in * by lia. replace (g + 1 - 1) with g in Hq2 by lia.
  pose proof (rqst_top σ c l Hi Hsc) as Htop. rewrite <- HX in Htop. pose proof (inv_chain _ _ _ Hi) as Hch. pose proof (inv_files _ _ _ Hi) as Hfi.
  pose proof (wi_first _ _ _ _ _ _ (inv_window _ _ _ Hi)) as Hfp. rewrite HW, Hci, buf_next in *. clear Hlt E.
  set (w := m_wrt (mem σ)) in *. set (log := m_log (mem σ)) in *. set (X := WriteRqstPtr l) in *. assert ((g + 1) * 8192 / 8192 = g + 1) as Hdg by (by rewrite Z.div_mul).
  destruct ip; symmetry in Hip; bool_to_prop.
  - subst fs. cbn [negb andb]. apply (writer_step base lastsize σ); rewrite ?Hpc; try done. split; [exact Hcalm|]. exists c. split; [by split|]. split; [done|].
    destruct Hfi. split_and!; try done.
    + intros g' Hg' Hl'. apply Hpu. lia.
    + destruct (decide (ResultFlush w = X)); [by left|right]. split_and!; [lia|change (XLByteToPrevSeg X = openLogSegNo w); by rewrite (prev_seg_of X g) by lia| |intros g' Hg' Hl'; apply Hsu; lia].
      pose proof seg_pages_spec as [Hs Hp]. rewrite Hs. intros Hm. apply Z.mod_divide in Hm as [z Hz]; [|lia]. nia.
  - cbn [negb andb] in Hfs. destruct fs; symmetry in Hfs; bool_to_prop.
    + destruct (finish_segment log w X q g) as (Hfi' & Hps & Hss); try done; [lia|lia|].
      apply (writer_step base lastsize σ); rewrite ?Hpc; try done. split; [exact Hcalm|]. exists c. split; [by split|]. split; [done|].
      exists (g + 1). cbn [lw_Write lw_Flush curridx npages]. rewrite Hdg. cbn [XLogUpdateShareStatus issue_xlog_fsync ResultWrite ResultFlush].
      fold log X w. split_and!; try done; try lia. left. split_and!; auto.
    + destruct (group_goes_on w q g v) as [Hgo Hm]; [lia|done|lia|]. apply (writer_step base lastsize σ); rewrite ?Hpc; try done.
      split; [exact Hcalm|]. exists c. split; [by split|]. split; [done|]. exists (g + 1). cbn [lw_Write lw_Flush curridx npages]. rewrite Hdg.
      fold log X w. split_and!; try done; try lia. intros HE. split_and!; try done. right. rewrite <- HE, (prev_seg_of _ g), seg_start by lia. split; [done|lia].
Qed.

Lemma dump_step σ choice l v i ip fs : wal_inv σ → writer σ = WDump l v i ip fs → wal_inv (run_writer choice σ).
Proof.
  intros Hi Hpc. destruct (decide (i < npages v)) as [Hlt|]; [|by eapply dump_done_step].
  pose proof (dump_page_step σ l v i ip fs Hi Hpc Hlt) as Hs. unfold run_writer. rewrite Hpc. cbn [XLogBackgroundFlush]. unfold XLogWriteDump.
  destruct (i <? npages v) eqn:E; bool_to_prop; [exact Hs|lia].
Qed.

(** ** After the write *)

Lemma written_step σ choice l v : wal_inv σ → writer σ = WWritten l v → wal_inv (run_writer choice σ).
Proof.
  intros Hi Hpc. pose proof (inv_writer _ _ _ Hi) as Hwr. rewrite Hpc in Hwr. destruct Hwr as (Hcalm & c & (Hsc & Hst) & HX & HW & HRX & HF & Hd & Hsy).
  unfold run_writer. rewrite Hpc. cbn [XLogBackgroundFlush]. rewrite HW, HF. pose proof (rqst_top σ c l Hi Hsc) as Htop. destruct (inv_files _ _ _ Hi) as [Ho Hf Ht Hd' Hs].
  apply (writer_step base lastsize σ); rewrite ?Hpc; try done.
  - split; cbn [with_written flushResult ResultFlush ResultWrite files synced]; try done; lia.
  - split; [exact Hcalm|]. exists c. split; [by split|]. by split_and!.
Qed.

Lemma sync_step σ choice l : wal_inv σ → writer σ = WSync l → wal_inv (run_writer choice σ).
Proof.
  intros Hi Hpc. pose proof (inv_writer _ _ _ Hi) as Hwr. rewrite Hpc in Hwr. destruct Hwr as ([Hc1 Hc2] & c & (Hsc & Hst) & HX & HW & Hl & Hsy).
  unfold run_writer. rewrite Hpc. cbn [XLogBackgroundFlush]. rewrite Hst.
  assert (∀ w, files_inv base (m_log (mem σ)) w ∧ sync_ok base (m_log (mem σ)) w (ResultWrite (m_wrt (mem σ))) ∧ ResultWrite w = ResultWrite (m_wrt (mem σ)) ∧
    lastWalStatusEntryFlushed w = lastWalStatusEntryFlushed (m_wrt (mem σ)) → wal_inv (writer_at (set_wrt w (mem σ)) (WReset l (Z.of_nat (retired σ) mod CNT)) σ)) as Hw.
  { intros w (Hfi & Hs & HRW & Hlw). apply (writer_step base lastsize σ); rewrite ?Hpc; try done. split; [by rewrite <- Hc2|]. exists c. rewrite HRW, Hlw. by split_and!. }
  apply Hw. destruct (_ || _); [|split_and!; try done; apply Hi].
  destruct (do_flush base (m_log (mem σ)) (m_wrt (mem σ)) (inv_files _ _ _ Hi) Hsy) as (? & ? & ? & _ & ?). by split_and!.
Qed.

End dump.
