(* ===== verification/XLogAdvance.v ===== *)
(** * The WAL writer frees entries and page buffers: the invariant

    An entry of the status table is handed to the record one round later; the buffer of a
    page that has been written is set up for the page one ring later, before anybody is
    told that it may be used. *)

From S2P Require Import Prelude FsmPage XLogDefs XLogInsert XLogWriter XLogInv XLogPages XLogBackend XLogTickets XLogScan XLogDump.
From stdpp Require Import list.

Open Scope Z_scope.

Lemma entry_distinct (F j k : nat) : (F ≤ j)%nat → (F ≤ k)%nat → Z.of_nat j < Z.of_nat F + CNT → Z.of_nat k < Z.of_nat F + CNT →
  Z.of_nat j mod CNT = Z.of_nat k mod CNT → j = k.
Proof. rewrite CNT_eq. intros. zdiv. Qed.

Lemma LRC_jump (k : nat) : Z.land (Z.of_nat k mod 2 ^ 31 + GET_WAL_INSERT_STATUS_ENTRY_CNT) LRC_MASK = (Z.of_nat k + CNT) mod 2 ^ 31.
Proof. change LRC_MASK with (2 ^ 31 - 1). rewrite land_mask_mod by lia. change GET_WAL_INSERT_STATUS_ENTRY_CNT with CNT. by rewrite Zplus_mod_idemp_l. Qed.

Section advance.
Context `{WalGeometryOk} `{WalEnv}.
Variables (base lastsize : Z).
Hypothesis base_pos : 0 < base.
Hypothesis base_aligned : base mod 8 = 0.

Abbreviation wal_inv := (wal_inv base lastsize).
Abbreviation end_at := (end_at base).
Abbreviation page_ok := (page_ok base).

(** ** Freeing an entry *)

Lemma pc_late log F wm pc : pc_ok log F false wm pc → pc_ok log F true wm pc.
Proof. destruct pc; try done. cbn. intros [? [?|[? _]]]; [|done]. split; [done|by left]. Qed.

Lemma reset_step σ choice l i : wal_inv σ → writer σ = WReset l i → wal_inv (run_writer choice σ).
Proof.
  intros Hi Hpc. pose proof (inv_writer _ _ _ Hi) as Hwr. rewrite Hpc in Hwr. destruct Hwr as (Hcw & c & Hsc & Hidx & Hrest).
  unfold run_writer. rewrite Hpc. cbn [XLogBackgroundFlush]. destruct Hi as [Hl [Hb1 Hb2 Hb3] [Hs1 Hs2 Hs3 Hs4] Hw Hfi _]. rewrite Hpc in *. cbn [is_late is_half] in *.
  assert (published (m_log (mem σ)) (backends σ) (retired σ)) as Hpub by (apply Hsc; destruct Hsc; lia).
  split; cbn [mem backends writer retired set_table m_word m_log m_buf m_status m_wrt is_late is_half].
  - by destruct Hl; split.
  - split; try done. intros t. destruct (Hb1 t) as [? ?]. split; [by apply pc_late|done].
  - split; try done. intros k Hk1 Hk2. destruct (decide (k = retired σ)) as [->|Hne].
    + rewrite bool_decide_eq_true_2, Hidx, fn_lookup_insert by done. cbn [andb]. destruct (Hs1 (retired σ) Hk1 Hk2) as (HR & Hp & Hnp).
      split_and!; cbn [entry_LRC endLSN]; [|done|done]. cbn [andb] in HR. by rewrite HR, LRC_jump.
    + rewrite bool_decide_eq_false_2 by done. cbn [andb]. rewrite fn_lookup_insert_ne; [by apply Hs1|]. rewrite Hidx. intros He. apply Hne.
      symmetry. apply (entry_distinct (retired σ)); try done. rewrite CNT_eq. lia.
  - done.
  - done.
  - split; [done|]. by exists c.
Qed.

Lemma reset_end_step σ choice l i : wal_inv σ → writer σ = WResetEnd l i → wal_inv (run_writer choice σ).
Proof.
  intros Hi Hpc. pose proof (inv_chain _ _ _ Hi) as Hch. pose proof (inv_writer _ _ _ Hi) as Hwr. rewrite Hpc in Hwr.
  destruct Hwr as ([Hcs Hcw] & c & Hsc & Hidx & HX & HW & Hlw & Hsy).
  unfold run_writer. rewrite Hpc. cbn [XLogBackgroundFlush]. destruct Hi as [Hl [Hb1 Hb2 Hb3] [Hs1 Hs2 Hs3 Hs4] [Hw1 Hw2 Hw3 Hw4 Hw5 Hw6 Hw7] Hfi _]. rewrite Hpc in *. cbn [is_late is_half] in *.
  destruct (Hs3 eq_refl) as [HFl HFh]. set (F := retired σ) in *. set (log := m_log (mem σ)) in *.
  pose proof (end_at_le base lastsize base_pos base_aligned log F (S F) Hch ltac:(lia)) as Hle.
  set (pc := if i =? curr_entry_idx l then _ else _).
  assert (is_late pc = false ∧ is_half pc = false) as [HL HH] by (unfold pc; by case_match).
  split; cbn [mem backends writer retired set_table m_word m_log m_buf m_status m_wrt]; rewrite ?HL, ?HH; fold log F.
  - by destruct Hl; split.
  - split; try done. intros t. destruct (Hb1 t) as [Hok ?]. split; [|done].
    assert (∀ a, in_flight (b_pc (backends σ t)) = Some a → insertion_ok log F a → insertion_ok log (S F) a) as Hins.
    { intros a Ha (r & ? & ? & ? & ? & ? & HF). exists r. split_and!; try done. assert (ticket a ≠ F); [|lia]. intros He. apply HFh. by exists t, a. }
    destruct (b_pc (backends σ t)); try done; cbn in Hok |- *.
    + destruct Hok as [? ?]. split; [by apply Hins|done].
    + by apply Hins.
    + destruct Hok as [? ?]. split; [by apply Hins|left; lia].
    + destruct Hok as [? ?]. split; [by apply Hins|lia].
  - split; try done; [|intros k ? ?; apply Hs4; [lia|done]].
    intros k Hk1 Hk2. cbn [andb]. destruct (decide (Z.of_nat k = Z.of_nat F + CNT)) as [Hk|Hne].
    + replace (Z.of_nat k mod CNT) with i by (rewrite Hidx, Hk, CNT_eq; clear; zdiv). rewrite fn_lookup_insert.
      destruct (Hs1 F ltac:(lia) ltac:(rewrite CNT_eq; lia)) as (HR & _ & _). rewrite bool_decide_eq_true_2 in HR by done. cbn [andb] in HR. rewrite <- Hidx in HR.
      split_and!; cbn [entry_LRC endLSN]; [by rewrite HR, Hk| |done]. intros [Hkl Hkh]. destruct Hkh. apply Hs4; [lia|done].
    + rewrite fn_lookup_insert_ne.
      * pose proof (Hs1 k ltac:(lia) ltac:(lia)) as He. rewrite bool_decide_eq_false_2 in He by lia. done.
      * rewrite Hidx. intros He. assert (F = k); [|lia]. apply (entry_distinct F); try done; rewrite ?CNT_eq in *; lia.
  - split; try done. cbn [Z.b2z]. cbn [Z.b2z] in Hw6. lia.
  - done.
  - pose proof Hsc as (Hfc & Hc & Hpub & Hcidx).
    assert (window (m_buf (mem σ)) ≤ end_at log (S F) / 8192) as Hcw' by (etrans; [exact Hcw|]; apply Z.div_le_mono; lia).
    unfold pc. destruct (i =? curr_entry_idx l) eqn:E; bool_to_prop.
    + assert (F = c) as Hfc' by (apply (entry_distinct F); try done; [rewrite CNT_eq; lia|congruence]). rewrite <- Hfc' in *.
      split; [done|]. split; [done|]. split_and!; [done| |done]. by rewrite Hlw, Hcidx, entry_next.
    + assert (F ≠ c) by (intros ->; congruence). split; [done|]. exists c. split; [split_and!; [lia|lia|intros k Hk; apply Hpub; lia|done]|].
      split_and!; try done. by rewrite Hidx, entry_next.
Qed.

(** ** Setting up page buffers *)

Lemma rqst_page_start x : x - x mod XLOG_BLCKSZ = x / 8192 * 8192.
Proof. unfold XLOG_BLCKSZ. zdiv. Qed.

Lemma init_step σ choice l : wal_inv σ → writer σ = WInit l → wal_inv (run_writer choice σ).
Proof.
  intros Hi Hpc. pose proof (inv_writer _ _ _ Hi) as Hwr. rewrite Hpc in Hwr. destruct Hwr as ([Hcs Hcw] & HX & Hidle).
  pose proof (wi_first _ _ _ _ _ _ (inv_window _ _ _ Hi)) as Hfp. pose proof (first_page_nonneg base lastsize base_pos base_aligned) as Hf0.
  unfold run_writer. rewrite Hpc. cbn [XLogBackgroundFlush]. rewrite rqst_page_start, HX. set (e := end_at _ _) in *.
  destruct (_ && _) eqn:E; bool_to_prop; apply (writer_stay base lastsize σ); rewrite ?Hpc; try done.
  split; [exact Hidle|]. split; [done|]. fold e. rewrite andb_false_iff, negb_false_iff in E. destruct E as [E|E]; bool_to_prop; [lia|].
  assert (e / 8192 ≤ sentResult (m_buf (mem σ)) / 8192); [|lia]. rewrite <- (Z.div_mul (e / 8192) 8192) by done. by apply Z.div_le_mono.
Qed.

Lemma sent_step σ choice l : wal_inv σ → writer σ = WSent l → wal_inv (run_writer choice σ).
Proof.
  intros Hi Hpc. pose proof (inv_writer _ _ _ Hi) as Hwr. rewrite Hpc in Hwr. destruct Hwr as (Hcw & HX & Hidle).
  unfold run_writer. rewrite Hpc. cbn [XLogBackgroundFlush]. rewrite rqst_page_start, HX. destruct Hi as [Hl Hb Hs [Hw1 Hw2 Hw3 Hw4 Hw5 Hw6 Hw7] Hfi _]. rewrite Hpc in *.
  split; cbn [mem backends writer retired set_buf m_word m_log m_buf m_status m_wrt is_late is_half with_sent sentResult]; try done.
  - by destruct Hl; split.
  - split; try done. cbn [with_sent sentResult]. rewrite Z.div_mul by done. unfold window in *; cbn. lia.
  - split; [exact Hidle|]. cbn [with_sent sentResult]. rewrite Z.div_mul by done. done.
Qed.

Lemma window_init bf : InitializedUpTo bf mod 8192 = 0 → InitializedUpTo bf = (window bf + bufs) * 8192.
Proof. intros Hm. unfold window. pose proof (Z.div_mod (InitializedUpTo bf) 8192 ltac:(done)). lia. Qed.

Lemma ring_next w : (w + bufs) mod bufs = w mod bufs.
Proof. rewrite <- (Z_mod_plus_full w 1 bufs). by rewrite Z.mul_1_l. Qed.

Lemma next_index_window bf : InitializedUpTo bf mod 8192 = 0 → next_index bf = window bf mod bufs.
Proof.
  intros Hm. unfold next_index, XLogRecPtrToBufIdx. change (XLogCacheBlck + 1) with bufs. rewrite (window_init bf Hm). unfold XLOG_BLCKSZ.
  rewrite Z.div_mul by done. apply ring_next.
Qed.

Lemma advance_needed_window log bs F half bf upto : window_inv base log bs F half bf → advance_needed (upto * 8192) bf = (window bf <? upto).
Proof.
  intros Hw. unfold advance_needed. rewrite next_index_window by apply Hw. rewrite (wi_block _ _ _ _ _ _ Hw) by (pose proof bufs_pos; lia).
  apply eq_true_iff_eq. rewrite Z.leb_le, Z.ltb_lt. lia.
Qed.

(** Nothing has been copied to a page behind the window. *)
Lemma nothing_behind σ g k r p : wal_inv σ → window (m_buf (mem σ)) + bufs ≤ g → m_log (mem σ) !! k = Some r → inside r p → p / 8192 = g → ¬ passed (backends σ) k p.
Proof.
  intros Hi Hg Hr Hin Hp Hps. pose proof (inv_chain _ _ _ Hi) as Hch. pose proof (lookup_lt_Some _ _ _ Hr) as Hk. pose proof (page_of p) as Hpp. rewrite Hp in Hpp.
  destruct (inside_log base lastsize base_pos base_aligned _ k r p Hch Hr Hin) as [_ Hend].
  destruct (copying_dec (backends σ) k (bi_few _ _ _ _ _ (inv_backends _ _ _ Hi))) as [(t & a & c & Ha & Hka)|Hn].
  - pose proof (Hps t a c Ha Hka) as Hlt. destruct (bi_ok _ _ _ _ _ (inv_backends _ _ _ Hi) t) as [Hok _]. destruct (b_pc (backends σ t)); simplify_eq/=.
    destruct Hok as [_ (r' & Hr' & b & g' & Hg0 & Hgb & Hb & _ & _ & Hcp)]. simplify_eq. pose proof (page_first_succ g'). destruct Hin as [Hin _].
    destruct p0 as [[] gp| | |].
    + destruct Hcp as (-> & _ & HC & _). lia.
    + destruct Hcp as (_ & _ & HC & _ & ? & _). lia.
    + destruct Hcp as (_ & _ & HC & _ & _ & _ & ?). lia.
    + destruct Hcp as (HC & _ & _ & _ & _ & _ & ?). lia.
    + destruct Hcp as (_ & _ & HC & ?). lia.
  - pose proof (wi_high _ _ _ _ _ _ (inv_window _ _ _ Hi) (S k) ltac:(lia)) as Hh. assert (end_at (m_log (mem σ)) (S k) ≤ (window (m_buf (mem σ)) + bufs) * 8192); [|lia].
    apply Hh. by intros j [= <-].
Qed.

Lemma new_page_head force g : head_ok (new_page force (g * 8192)) g ∧ has_cont (new_page force (g * 8192)) = false.
Proof.
  unfold head_ok, has_cont, new_page. cbn [xlp_magic xlp_info xlp_tli xlp_pageaddr xlp_sysid xlp_seg_size xlp_xlog_blcksz]. rewrite seg_start.
  destruct (g mod seg_pages * 8192 =? 0) eqn:E; bool_to_prop.
  - assert (g mod seg_pages = 0) by lia. destruct force; by split_and!.
  - assert (g mod seg_pages ≠ 0) by lia. destruct force; split_and!; try done.
Qed.

Lemma new_page_ok σ g force : wal_inv σ → window (m_buf (mem σ)) + bufs ≤ g → page_ok (m_log (mem σ)) (passed (backends σ)) (new_page force (g * 8192)) g.
Proof.
  intros Hi Hg. destruct (new_page_head force g) as [Hh Hc]. pose proof (inv_chain _ _ _ Hi) as Hch.
  apply (page_ok_weaken base lastsize base_pos base_aligned _ (λ _ _, False)); [done| |by split].
  intros k r p Hr Hin Hp. by eapply nothing_behind.
Qed.

Lemma advance_step σ choice l : wal_inv σ → writer σ = WAdvance l → wal_inv (run_writer choice σ).
Proof.
  intros Hi Hpc. pose proof (inv_writer _ _ _ Hi) as Hwr. rewrite Hpc in Hwr. destruct Hwr as (Hcw & HX & Hidle).
  unfold run_writer. rewrite Hpc. cbn [XLogBackgroundFlush]. rewrite rqst_page_start, (advance_needed_window _ _ _ _ _ _ (inv_window _ _ _ Hi)), HX.
  destruct (_ <? _) eqn:E; bool_to_prop; [|apply (writer_stay base lastsize σ); rewrite ?Hpc; try done; split; [lia|done]].
  pose proof (λ g force, new_page_ok σ g force Hi) as Hnew. destruct Hi as [Hl Hb Hs [Hw1 Hw2 Hw3 Hw4 Hw5 Hw6 Hw7] Hfi _]. rewrite Hpc in *.
  set (bf := m_buf (mem σ)) in *. set (bf' := advance_page _ bf). assert (window bf' = window bf) as Hwin by done.
  split; cbn [mem backends writer retired set_buf m_word m_log m_buf m_status m_wrt is_late is_half]; try done.
  - by destruct Hl; split.
  - split; rewrite ?Hwin; try done; cbn [is_half Z.b2z] in *.
    + intros g Hg. cbn [bf' advance_page with_pages pages]. rewrite next_index_window by done.
      destruct (decide (g = window bf + bufs)) as [->|].
      * rewrite ring_next, fn_lookup_insert, (window_init bf) by done. apply Hnew. lia.
      * rewrite fn_lookup_insert_ne; [apply Hw4; lia|]. intros He. apply (residue_unique (window bf)) in He; lia.
    + pose proof (page_of (end_at (m_log (mem σ)) (retired σ))). lia.
Qed.

Lemma pc_wider log F late wm wm' pc : wm ≤ wm' → pc_ok log F late wm pc → pc_ok log F late wm' pc.
Proof.
  intros Hwm. destruct pc; try done. intros [Ha (r & Hr & b & g & Hg0 & Hgb & Hb & Hco & Hd & Hcp)]. split; [done|]. exists r. split; [done|].
  exists b, g. do 5 (split; [done|]). assert (∀ x gp, get_ok wm x gp → get_ok wm' x gp) as Hget by (intros x []; try done; cbn; lia).
  destruct p as [[] gp| | |].
  - destruct Hcp as (? & ? & ? & ?). split_and!; auto.
  - destruct Hcp as (? & ? & ? & ? & ? & ?). split_and!; auto. lia.
  - destruct Hcp as (? & ? & ? & ? & ? & ? & ?). split_and!; auto. lia.
  - destruct Hcp as (? & ? & ? & ? & ? & ? & ?). split_and!; auto. lia.
  - destruct Hcp as (? & ? & ? & ?). split_and!; auto. lia.
Qed.

Lemma advance_block_step σ choice l : wal_inv σ → writer σ = WAdvanceBlock l → wal_inv (run_writer choice σ).
Proof.
  intros Hi Hpc. pose proof (inv_writer _ _ _ Hi) as Hwr. rewrite Hpc in Hwr. destruct Hwr as (Hcw & HX & Hidle).
  unfold run_writer. rewrite Hpc. cbn [XLogBackgroundFlush]. destruct Hi as [Hl [Hb1 Hb2 Hb3] Hs [Hw1 Hw2 Hw3 Hw4 Hw5 Hw6 Hw7] Hfi _]. rewrite Hpc in *.
  set (bf := m_buf (mem σ)) in *. set (bf' := advance_block bf). pose proof (window_init bf Hw1) as Hini.
  assert (InitializedUpTo bf' = InitializedUpTo bf + 8192) as Hini' by done.
  assert (window bf' = window bf + 1) as Hwin by (unfold window; rewrite Hini', Hini; clear; zdiv).
  split; cbn [mem backends writer retired set_buf m_word m_log m_buf m_status m_wrt is_late is_half]; try done.
  - by destruct Hl; split.
  - split; try done. intros t. destruct (Hb1 t) as (Hok & Hc1 & Hc2). rewrite Hwin. split; [|split; [lia|done]].
    eapply pc_wider; [|exact Hok]. lia.
  - cbn [is_half Z.b2z] in *. split; rewrite ?Hwin; try done; cbn [Z.b2z] in *; try lia.
    + rewrite Hini'. rewrite <- (Z.mul_1_l 8192) at 1. by rewrite Z_mod_plus_full.
    + intros g Hg. cbn [bf' advance_block xlblocks]. rewrite next_index_window by done. destruct (decide (g = window bf + bufs)) as [->|].
      * rewrite ring_next, fn_lookup_insert, Hini. unfold XLOG_BLCKSZ. lia.
      * rewrite fn_lookup_insert_ne; [apply Hw3; lia|]. intros He. apply (residue_unique (window bf)) in He; lia.
    + intros g Hg. apply Hw4. lia.
    + change (sentResult bf') with (sentResult bf). lia.
    + intros k Hk Hn. pose proof (Hw7 k Hk Hn). lia.
  - split; [rewrite Hwin; lia|done].
Qed.

(** ** All steps of the writer *)

Lemma writer_preserves σ choice : wal_inv σ → wal_inv (run_writer choice σ).
Proof.
  intros Hi. destruct (writer σ) eqn:Hpc.
  - by apply idle_step.
  - pose proof (inv_writer _ _ _ Hi) as Hwr. by rewrite Hpc in Hwr.
  - by eapply entry_scan_step.
  - by eapply scan_next_step.
  - by eapply scanned_step.
  - by eapply write_step.
  - by eapply dump_step.
  - by eapply written_step.
  - by eapply sync_step.
  - by eapply reset_step.
  - by eapply reset_end_step.
  - by eapply init_step.
  - by eapply advance_step.
  - by eapply advance_block_step.
  - by eapply sent_step.
Qed.

End advance.
