(* ===== verification/XLogProgress.v ===== *)
(** * The WAL writer makes progress

    By itself the WAL writer comes to the end of every round of [XLogBackgroundFlush], and
    after finitely many rounds to one that finds nothing to write. *)

From S2P Require Import Prelude FsmPage XLogDefs XLogInsert XLogWriter XLogInv XLogPages XLogBackend XLogTickets XLogScan XLogDump XLogAdvance.
From stdpp Require Import list.

Open Scope Z_scope.

Lemma ring_distance x F : (x - F) mod 65536 ≠ 0 → (x - (F + 1)) mod 65536 = (x - F) mod 65536 - 1.
Proof. intros. zdiv. Qed.

Section progress.
Context `{WalGeometryOk} `{WalEnv}.
Variables (base lastsize : Z).
Hypothesis base_pos : 0 < base.
Hypothesis base_aligned : base mod 8 = 0.

Abbreviation wal_inv := (wal_inv base lastsize).
Abbreviation end_at := (end_at base).

(** Steps of the WAL writer alone. *)
Definition writer_reach : wal_config → wal_config → Prop := rtc (λ σ σ', ∃ choice, σ' = run_writer choice σ).

(** The steps of the calls [XLogBackgroundFlush()] that find something to write. *)
Definition round_step_to (σ σ' : wal_config) : Prop := ∃ choice, σ' = run_writer choice σ ∧ (writer σ = WIdle → choice = false ∧ writer σ' ≠ WIdle).
Definition round_reach : wal_config → wal_config → Prop := rtc round_step_to.

Lemma round_is_writer σ σ' : round_reach σ σ' → writer_reach σ σ'.
Proof. apply rtc_subrel. intros ? ? (choice & -> & _). by exists choice. Qed.

Lemma run_writer_frame choice σ : backends (run_writer choice σ) = backends σ ∧ m_log (mem (run_writer choice σ)) = m_log (mem σ).
Proof. unfold run_writer, XLogBackgroundFlush. destruct (writer σ); repeat case_match; simplify_eq/=; done. Qed.

(** The writer gets back to the start of its loop, with [k] entries freed. *)
Definition comes_round (σ : wal_config) (k : nat) : Prop :=
  ∃ σ', round_reach σ σ' ∧ wal_inv σ' ∧ writer σ' = WIdle ∧ (k ≤ retired σ')%nat ∧ backends σ' = backends σ ∧ m_log (mem σ') = m_log (mem σ).

Lemma round_first choice σ k : (writer σ = WIdle → choice = false ∧ writer (run_writer choice σ) ≠ WIdle) → comes_round (run_writer choice σ) k → comes_round σ k.
Proof.
  intros Hc (σ' & Hr & Hi & Hw & Hk & Hb & Hl). destruct (run_writer_frame choice σ) as [Hfb Hfl]. exists σ'. split; [eapply rtc_l; [by exists choice|done]|].
  split_and!; try done; congruence.
Qed.

Lemma round_step σ k : writer σ ≠ WIdle → comes_round (run_writer true σ) k → comes_round σ k.
Proof. intros. by apply (round_first true). Qed.

Lemma round_done σ : wal_inv σ → writer σ = WIdle → comes_round σ (retired σ).
Proof. intros Hi Hw. exists σ. split; [apply rtc_refl|]. by split_and!. Qed.

Lemma round_less σ k k' : (k' ≤ k)%nat → comes_round σ k → comes_round σ k'.
Proof. intros Hk (σ' & ? & ? & ? & ? & ? & ?). exists σ'. split_and!; try done. lia. Qed.

(** ** From the end of a round backwards *)

Lemma round_sent σ l : wal_inv σ → writer σ = WSent l → comes_round σ (retired σ).
Proof.
  intros Hi Hpc. apply round_step; [congruence|]. pose proof (writer_preserves base lastsize base_pos base_aligned σ true Hi) as Hi'.
  assert (writer (run_writer true σ) = WIdle ∧ retired (run_writer true σ) = retired σ) as [Hw <-] by (unfold run_writer; by rewrite Hpc). by apply round_done.
Qed.

Lemma round_advance (n : nat) σ l : wal_inv σ → writer σ = WAdvance l → end_at (m_log (mem σ)) (retired σ) / 8192 - window (m_buf (mem σ)) ≤ Z.of_nat n → comes_round σ (retired σ).
Proof.
  revert σ l. induction n as [|n IH]; intros σ l Hi Hpc Hn; pose proof (inv_writer _ _ _ Hi) as Hwr; rewrite Hpc in Hwr; destruct Hwr as (Hcw & HX & _);
    pose proof (advance_needed_window base _ _ _ _ _ (end_at (m_log (mem σ)) (retired σ) / 8192) (inv_window _ _ _ Hi)) as Hneed;
    pose proof (writer_preserves base lastsize base_pos base_aligned σ true Hi) as Hi'; (apply round_step; [congruence|]);
    destruct (window (m_buf (mem σ)) <? end_at (m_log (mem σ)) (retired σ) / 8192) eqn:E; bool_to_prop; try lia.
  - assert (writer (run_writer true σ) = WSent l ∧ retired (run_writer true σ) = retired σ) as [Hw <-]; [|by eapply round_sent].
    unfold run_writer. rewrite Hpc. cbn [XLogBackgroundFlush]. by rewrite rqst_page_start, HX, Hneed.
  - assert (writer (run_writer true σ) = WAdvanceBlock l ∧ retired (run_writer true σ) = retired σ ∧ InitializedUpTo (m_buf (mem (run_writer true σ))) = InitializedUpTo (m_buf (mem σ))) as (Hw & Hrt & Hin).
    { unfold run_writer. rewrite Hpc. cbn [XLogBackgroundFlush]. by rewrite rqst_page_start, HX, Hneed. }
    destruct (run_writer_frame true σ) as [_ Hfl]. set (σ1 := run_writer true σ) in *. apply round_step; [congruence|].
    pose proof (writer_preserves base lastsize base_pos base_aligned σ1 true Hi') as Hi2. destruct (run_writer_frame true σ1) as [_ Hfl2].
    assert (writer (run_writer true σ1) = WAdvance l ∧ retired (run_writer true σ1) = retired σ1 ∧ InitializedUpTo (m_buf (mem (run_writer true σ1))) = InitializedUpTo (m_buf (mem σ1)) + 8192) as (Hw2 & Hrt2 & Hin2).
    { unfold run_writer. by rewrite Hw. }
    rewrite <- Hrt, <- Hrt2. apply (IH _ l); [done|done|]. rewrite Hrt2, Hrt, Hfl2, Hfl. unfold window in *. rewrite Hin2, Hin.
    replace (InitializedUpTo (m_buf (mem σ)) + 8192) with (InitializedUpTo (m_buf (mem σ)) + 1 * 8192) by lia. rewrite Z.div_add by done. lia.
  - assert (writer (run_writer true σ) = WSent l ∧ retired (run_writer true σ) = retired σ) as [Hw <-]; [|by eapply round_sent].
    unfold run_writer. rewrite Hpc. cbn [XLogBackgroundFlush]. by rewrite rqst_page_start, HX, Hneed.
Qed.

Lemma round_advance_any σ l : wal_inv σ → writer σ = WAdvance l → comes_round σ (retired σ).
Proof. intros Hi Hpc. apply (round_advance (Z.to_nat (end_at (m_log (mem σ)) (retired σ) / 8192 - window (m_buf (mem σ)))) σ l); [done|done|lia]. Qed.

Lemma round_init σ l : wal_inv σ → writer σ = WInit l → comes_round σ (retired σ).
Proof.
  intros Hi Hpc. pose proof (writer_preserves base lastsize base_pos base_aligned σ true Hi) as Hi'. apply round_step; [congruence|].
  assert (retired (run_writer true σ) = retired σ ∧ (writer (run_writer true σ) = WIdle ∨ writer (run_writer true σ) = WAdvance l)) as [<- [Hw|Hw]].
  { unfold run_writer. rewrite Hpc. cbn [XLogBackgroundFlush]. destruct (_ && _); cbn; auto. }
  - by apply round_done.
  - by eapply round_advance_any.
Qed.

Lemma round_reset (n : nat) σ l i : wal_inv σ → writer σ = WReset l i → (curr_entry_idx l - Z.of_nat (retired σ)) mod 65536 ≤ Z.of_nat n → comes_round σ (S (retired σ)).
Proof.
  revert σ i. induction n as [|n IH]; intros σ i Hi Hpc Hn.
  all: pose proof (inv_writer _ _ _ Hi) as Hwr; rewrite Hpc in Hwr; destruct Hwr as (_ & c & (Hfc & Hc & _ & Hcidx) & Hidx & _);
    pose proof (writer_preserves base lastsize base_pos base_aligned σ true Hi) as Hi'; (apply round_step; [congruence|]); set (σ1 := run_writer true σ) in *;
    assert (writer σ1 = WResetEnd l i ∧ retired σ1 = retired σ) as [Hw Hrt] by (unfold σ1, run_writer; by rewrite Hpc);
    pose proof (writer_preserves base lastsize base_pos base_aligned σ1 true Hi') as Hi2; (apply round_step; [congruence|]); set (σ2 := run_writer true σ1) in *;
    assert (retired σ2 = S (retired σ) ∧ writer σ2 = if i =? curr_entry_idx l then WInit l else WReset l (GET_NEXT_STATUS_ENTRY i)) as [Hrt2 Hw2]
      by (unfold σ2, run_writer; rewrite Hw; cbn; by rewrite Hrt); clearbody σ2; rewrite <- Hrt2; destruct (i =? curr_entry_idx l) eqn:E; bool_to_prop;
    try (by eapply round_init).
  all: rewrite CNT_eq in *; assert ((curr_entry_idx l - Z.of_nat (retired σ)) mod 65536 ≠ 0) as Hne by (rewrite Hidx, Hcidx in E; rewrite Hcidx; clear -E; zdiv).
  - pose proof (Z.mod_pos_bound (curr_entry_idx l - Z.of_nat (retired σ)) 65536 ltac:(done)). lia.
  - apply (round_less _ (S (retired σ2))); [lia|]. eapply IH; [done|done|]. rewrite Hrt2, Nat2Z.inj_succ. unfold Z.succ. rewrite ring_distance by done. lia.
Qed.

(** One step to a place from which the writer comes round. *)
Lemma round_next σ k : wal_inv σ → writer σ ≠ WIdle → (wal_inv (run_writer true σ) → comes_round (run_writer true σ) k) → comes_round σ k.
Proof. intros Hi Hw Hk. apply round_step, Hk; [done|]. by apply writer_preserves. Qed.

Lemma round_sync σ l : wal_inv σ → writer σ = WSync l → comes_round σ (S (retired σ)).
Proof.
  intros Hi Hpc. apply round_next; [done|congruence|]. intros Hi'.
  assert (writer (run_writer true σ) = WReset l (start_entry_idx l) ∧ retired (run_writer true σ) = retired σ) as [Hw <-] by (unfold run_writer; by rewrite Hpc).
  eapply (round_reset (Z.to_nat 65536)); [done|done|]. pose proof (Z.mod_pos_bound (curr_entry_idx l - Z.of_nat (retired (run_writer true σ))) 65536 ltac:(done)). lia.
Qed.

Lemma round_written σ l v : wal_inv σ → writer σ = WWritten l v → comes_round σ (S (retired σ)).
Proof.
  intros Hi Hpc. apply round_next; [done|congruence|]. intros Hi'.
  assert (writer (run_writer true σ) = WSync l ∧ retired (run_writer true σ) = retired σ) as [Hw <-] by (unfold run_writer; by rewrite Hpc). by eapply round_sync.
Qed.

(** ** Writing *)

(** Pages that [XLogWrite] has not come to. *)
Definition pages_left (l : flush_vars) (v : write_vars) : Z := (WriteRqstPtr l + 8191) / 8192 - lw_Write v / 8192.

Definition write_measure (pc : writer_pc) : Z :=
  match pc with
  | WWrite l v => 3 * pages_left l v + npages v
  | WDump l v i _ _ => 3 * pages_left l v + (npages v - i) + 1
  | _ => 0
  end.

Definition is_writing (pc : writer_pc) : bool := match pc with WWrite _ _ | WDump _ _ _ _ _ => true | _ => false end.

Lemma writing_nonneg σ : wal_inv σ → is_writing (writer σ) = true → 0 ≤ write_measure (writer σ).
Proof.
  intros Hi Hw. pose proof (inv_writer _ _ _ Hi) as Hwr. destruct (writer σ) as [| | | | |l v|l v i ip fs| | | | | | | |]; try done; unfold write_measure, pages_left.
  - destruct Hwr as (_ & c & _ & _ & q & Hq & HX & _ & _ & _ & _ & _ & Hcase & _).
    assert (0 ≤ npages v) by (destruct Hcase as [(_ & -> & _)|(? & _ & _ & (-> & _) & _)]; lia).
    assert (lw_Write v / 8192 ≤ (WriteRqstPtr l + 8191) / 8192) by (apply Z.div_le_mono; lia). lia.
  - destruct Hwr as (_ & c & _ & _ & _ & q & g & _ & HW & HgX & _ & _ & _ & Hin & _). rewrite HW, Z.div_mul by done.
    assert (g + 1 ≤ (WriteRqstPtr l + 8191) / 8192) by (apply Z.div_le_lower_bound; lia). lia.
Qed.

(** The page buffer that [XLogWrite] looks at. *)
Lemma write_block σ l v : wal_inv σ → writer σ = WWrite l v → lw_Write v < WriteRqstPtr l → xlblocks (m_buf (mem σ)) (curridx v) = (lw_Write v / 8192 + 1) * 8192.
Proof.
  intros Hi Hpc Hlt. pose proof (inv_writer _ _ _ Hi) as Hwr. rewrite Hpc in Hwr. destruct Hwr as (_ & c & (Hsc & _) & HX & q & Hq & _ & _ & _ & _ & _ & Hci & _).
  pose proof (page_of (lw_Write v)). rewrite Hci. apply (wi_block _ _ _ _ _ _ (inv_window _ _ _ Hi)). split; [lia|].
  apply (rqst_window base lastsize σ c l Hi Hsc). rewrite <- HX. lia.
Qed.

Lemma writing_step σ : wal_inv σ → wal_inv (run_writer true σ) → is_writing (writer σ) = true → retired (run_writer true σ) = retired σ ∧
  (is_writing (writer (run_writer true σ)) = true ∧ write_measure (writer (run_writer true σ)) < write_measure (writer σ) ∨ ∃ l v, writer (run_writer true σ) = WWritten l v).
Proof.
  intros Hi Hi' Hw. pose proof (inv_writer _ _ _ Hi') as Hwr'. revert Hwr'. unfold run_writer. destruct (writer σ) as [| | | | |l v|l v i ip fs| | | | | | | |] eqn:Hpc; try done; cbn [XLogBackgroundFlush].
  - unfold XLogWrite. destruct (lw_Write v <? WriteRqstPtr l) eqn:E; bool_to_prop; [|intros _; split; [done|right; by exists l, v]]. rewrite (write_block σ l v Hi Hpc E).
    assert (∀ x, (x + 1) * 8192 / 8192 = x + 1) as Hd by (intros; by rewrite Z.div_mul).
    destruct (lw_Write v <? (lw_Write v / 8192 + 1) * 8192); [|done].
    match goal with |- context [if ?b then (_, WDump _ _ _ _ _) else _] => destruct b end; intros _; (split; [done|left; split; [done|]]);
      cbn [writer write_measure pages_left lw_Write npages]; unfold pages_left; cbn [lw_Write]; rewrite Hd; lia.
  - unfold XLogWriteDump. destruct (i <? npages v) eqn:E; bool_to_prop; intros _; (split; [done|]).
    + left. split; [done|]. cbn [writer write_measure]. lia.
    + destruct ip; [right; cbn; by eexists _, _|left; split; [done|]]. cbn [writer write_measure pages_left lw_Write npages]. unfold pages_left. cbn [lw_Write].
      pose proof (inv_writer _ _ _ Hi) as Hwr. rewrite Hpc in Hwr. destruct Hwr as (_ & c & _ & _ & _ & q & g & _ & _ & _ & _ & _ & _ & Hin & _). lia.
Qed.

Lemma round_writing (n : nat) σ : wal_inv σ → is_writing (writer σ) = true → write_measure (writer σ) ≤ Z.of_nat n → comes_round σ (S (retired σ)).
Proof.
  revert σ. induction n as [|n IH]; intros σ Hi Hw Hn; (apply round_next; [done|by intros Hid; rewrite Hid in Hw|]); intros Hi'; destruct (writing_step σ Hi Hi' Hw) as [<- [[Hw' Hlt]|(l & v & Hw')]];
    try (by eapply round_written).
  - pose proof (writing_nonneg _ Hi' Hw'). lia.
  - apply IH; [done|done|lia].
Qed.

Lemma round_writing_any σ : wal_inv σ → is_writing (writer σ) = true → comes_round σ (S (retired σ)).
Proof. intros Hi Hw. apply (round_writing (Z.to_nat (write_measure (writer σ)))); [done|done|]. pose proof (writing_nonneg σ Hi Hw). lia. Qed.

(** ** Scanning *)

Lemma round_scanned σ l : wal_inv σ → writer σ = WScanned l → comes_round σ (S (retired σ)).
Proof.
  intros Hi Hpc. apply round_next; [done|congruence|]. intros Hi'.
  assert (is_writing (writer (run_writer true σ)) = true ∧ retired (run_writer true σ) = retired σ) as [Hw <-] by (unfold run_writer; by rewrite Hpc). by apply round_writing_any.
Qed.

Lemma round_scan (n : nat) σ l c : wal_inv σ → writer σ = WScan l → scan_range (m_log (mem σ)) (backends σ) (retired σ) c l →
  Z.of_nat (retired σ) + 65536 - Z.of_nat c ≤ Z.of_nat n → comes_round σ (S (retired σ)).
Proof.
  revert σ l c. induction n as [|n IH]; intros σ l c Hi Hpc Hsc Hn; [destruct Hsc as (_ & Hc & _); rewrite CNT_eq in Hc; lia|].
  apply round_next; [done|congruence|]. intros Hi'. destruct (run_writer_frame true σ) as [Hfb Hfl]. set (σ1 := run_writer true σ) in *.
  assert (retired σ1 = retired σ ∧ (writer σ1 = WScanNext l ∨ ∃ l', writer σ1 = WScanned l')) as [Hrt [Hw|(l' & Hw)]].
  { unfold σ1, run_writer. rewrite Hpc. cbn [XLogBackgroundFlush]. destruct (_ =? _); cbn; eauto. }
  2: { rewrite <- Hrt. by eapply round_scanned. }
  rewrite <- Hrt. apply round_next; [done|congruence|]. intros Hi2. destruct (run_writer_frame true σ1) as [Hfb2 Hfl2].
  assert (retired (run_writer true σ1) = retired σ1 ∧ ((∃ l', writer (run_writer true σ1) = WScanned l') ∨
    ∃ nf, writer (run_writer true σ1) = WScan (scan_to (GET_NEXT_STATUS_ENTRY (curr_entry_idx l)) nf l) ∧ endLSN (m_status (mem σ1) (GET_NEXT_STATUS_ENTRY (curr_entry_idx l))) ≠ 0)) as [Hrt2 Hcase].
  { unfold run_writer. rewrite Hw. cbn [XLogBackgroundFlush]. destruct (_ =? 0) eqn:E; bool_to_prop; (split; [done|]); [left|right]; cbn; eauto. }
  rewrite <- Hrt2. destruct Hcase as [(l' & Hw2)|(nf & Hw2 & He)]; [by eapply round_scanned|].
  pose proof (inv_writer _ _ _ Hi') as Hwr. rewrite Hw in Hwr. destruct Hwr as (_ & _ & c' & (Hsc' & _) & Hlt).
  assert (c' = c) as ->.
  { destruct Hsc as (Hs1 & Hs2 & _ & Hs4), Hsc' as (Ht1 & Ht2 & _ & Ht4). rewrite Hrt in *. apply (entry_distinct (retired σ)); try done. congruence. }
  apply (IH _ (scan_to (GET_NEXT_STATUS_ENTRY (curr_entry_idx l)) nf l) (S c)); [done|done| |rewrite Hrt2, Hrt; lia].
  rewrite Hfl2, Hfb2, Hrt2. apply scan_next_range; [done| |done]. pose proof Hsc' as (Hs1 & Hs2 & _ & Hs4). rewrite Hs4, entry_next in He.
  pose proof (si_entry _ _ _ _ _ _ (inv_status _ _ _ Hi') (S c) ltac:(lia) ltac:(lia)) as Hent. eapply entry_filled; [apply Hi'|exact Hent|done].
Qed.

Lemma round_scan_any σ l : wal_inv σ → writer σ = WScan l → comes_round σ (S (retired σ)).
Proof.
  intros Hi Hpc. pose proof (inv_writer _ _ _ Hi) as Hwr. rewrite Hpc in Hwr. destruct Hwr as (_ & _ & c & Hsc & _). apply (round_scan (Z.to_nat 65536) σ l c); try done.
  destruct Hsc as (? & _). lia.
Qed.

(** ** Every round ends *)

Lemma round_ends σ : wal_inv σ → comes_round σ (retired σ).
Proof.
  intros Hi. destruct (writer σ) eqn:Hpc.
  - by apply round_done.
  - pose proof (inv_writer _ _ _ Hi) as Hwr. by rewrite Hpc in Hwr.
  - apply (round_less _ (S (retired σ))); [lia|]. by eapply round_scan_any.
  - apply round_next; [done|congruence|]. intros Hi'. assert (retired (run_writer true σ) = retired σ ∧ ((∃ l', writer (run_writer true σ) = WScanned l') ∨ ∃ l', writer (run_writer true σ) = WScan l')) as [<- [[l' Hw]|[l' Hw]]].
    { unfold run_writer. rewrite Hpc. cbn [XLogBackgroundFlush]. destruct (_ =? 0); cbn; eauto. }
    + apply (round_less _ (S (retired (run_writer true σ)))); [lia|]. by eapply round_scanned.
    + apply (round_less _ (S (retired (run_writer true σ)))); [lia|]. by eapply round_scan_any.
  - apply (round_less _ (S (retired σ))); [lia|]. by eapply round_scanned.
  - apply (round_less _ (S (retired σ))); [lia|]. apply round_writing_any; [done|by rewrite Hpc].
  - apply (round_less _ (S (retired σ))); [lia|]. apply round_writing_any; [done|by rewrite Hpc].
  - apply (round_less _ (S (retired σ))); [lia|]. by eapply round_written.
  - apply (round_less _ (S (retired σ))); [lia|]. by eapply round_sync.
  - apply (round_less _ (S (retired σ))); [lia|]. eapply (round_reset (Z.to_nat 65536)); [done|done|].
    pose proof (Z.mod_pos_bound (curr_entry_idx l - Z.of_nat (retired σ)) 65536 ltac:(done)). lia.
  - apply round_next; [done|congruence|]. intros Hi'.
    assert (retired (run_writer true σ) = S (retired σ) ∧ (writer (run_writer true σ) = WInit l ∨ ∃ i, writer (run_writer true σ) = WReset l i)) as [Hrt Hw].
    { unfold run_writer. rewrite Hpc. cbn [XLogBackgroundFlush]. destruct (_ =? _); cbn; eauto. }
    destruct Hw as [Hw|[i Hw]]; [apply (round_less _ (retired (run_writer true σ))); [lia|by eapply round_init]|].
    apply (round_less _ (S (retired (run_writer true σ)))); [lia|]. eapply (round_reset (Z.to_nat 65536)); [done|done|].
    pose proof (Z.mod_pos_bound (curr_entry_idx l - Z.of_nat (retired (run_writer true σ))) 65536 ltac:(done)). lia.
  - by eapply round_init.
  - by eapply round_advance_any.
  - apply round_next; [done|congruence|]. intros Hi'. assert (retired (run_writer true σ) = retired σ ∧ writer (run_writer true σ) = WAdvance l) as [<- Hw] by (unfold run_writer; by rewrite Hpc).
    by eapply round_advance_any.
  - by eapply round_sent.
Qed.

(** ** The last round *)

(** The entry behind the last one that was flushed, which the next round looks at first. *)
Definition pCriticalEntry (σ : wal_config) : WALInsertStatusEntry := m_status (mem σ) (GET_NEXT_STATUS_ENTRY (lastWalStatusEntryFlushed (m_wrt (mem σ)))).

Lemma round_more σ : wal_inv σ → writer σ = WIdle → endLSN (pCriticalEntry σ) ≠ 0 → comes_round σ (S (retired σ)).
Proof.
  intros Hi Hpc Hlt. pose proof (writer_preserves base lastsize base_pos base_aligned σ false Hi) as Hi'.
  assert (retired (run_writer false σ) = retired σ ∧ ∃ l, writer (run_writer false σ) = WScan l) as [<- [l Hw]].
  { unfold run_writer. rewrite Hpc. cbn [XLogBackgroundFlush]. fold (pCriticalEntry σ). destruct (_ =? 0) eqn:E; bool_to_prop; [done|]. split; [done|]. by eexists. }
  apply (round_first false); [intros _; split; [done|congruence]|]. by eapply round_scan_any.
Qed.

(** The writer alone gets to a round that finds nothing. *)
Lemma writer_quiet (n : nat) σ : wal_inv σ → (length (m_log (mem σ)) - retired σ ≤ n)%nat →
  ∃ σ', round_reach σ σ' ∧ wal_inv σ' ∧ writer σ' = WIdle ∧ endLSN (pCriticalEntry σ') = 0 ∧ backends σ' = backends σ ∧ m_log (mem σ') = m_log (mem σ).
Proof.
  revert σ. induction n as [|n IH]; intros σ Hi Hn; destruct (round_ends σ Hi) as (σ1 & Hr1 & Hi1 & Hw1 & Hk1 & Hb1 & Hl1);
    (destruct (decide (endLSN (pCriticalEntry σ1) = 0)); [by exists σ1|]); destruct (round_more σ1 Hi1 Hw1 ltac:(done)) as (σ2 & Hr2 & Hi2 & Hw2 & Hk2 & Hb2 & Hl2);
    pose proof (si_retired _ _ _ _ _ _ (inv_status _ _ _ Hi2)) as Hle; rewrite Hl2, Hl1 in Hle; [lia|].
  destruct (IH σ2 Hi2) as (σ3 & Hr3 & Hi3 & Hw3 & He3 & Hb3 & Hl3); [rewrite Hl2, Hl1; lia|]. exists σ3.
  split; [by do 2 (etrans; [done|])|]. split_and!; try done; congruence.
Qed.

(** When the next entry is empty and no backend is inserting, everything has been written. *)
Lemma quiet_written σ : wal_inv σ → writer σ = WIdle → endLSN (pCriticalEntry σ) = 0 → (∀ t, in_flight (b_pc (backends σ t)) = None) →
  ResultWrite (m_wrt (mem σ)) = end_at (m_log (mem σ)) (length (m_log (mem σ))).
Proof.
  intros Hi Hpc He Hn. pose proof (inv_writer _ _ _ Hi) as Hwr. rewrite Hpc in Hwr. destruct Hwr as ((HW & Hnext & _) & _).
  destruct (si_entry _ _ _ _ _ _ (inv_status _ _ _ Hi) (retired σ) ltac:(lia) ltac:(rewrite CNT_eq; lia)) as (_ & Hf & _).
  pose proof (si_retired _ _ _ _ _ _ (inv_status _ _ _ Hi)) as Hle. rewrite HW. f_equal. destruct (decide (retired σ < length (m_log (mem σ)))%nat) as [Hlt|]; [|lia].
  destruct Hf as [Hf _]; [|unfold pCriticalEntry in He; rewrite Hnext in He; done]. split; [done|]. intros (t & a & Ha & _). by rewrite Hn in Ha.
Qed.

(** ** What the writer publishes only grows *)

Lemma flush_grows choice σ : wal_inv σ → flushResult (m_wrt (mem σ)) ≤ flushResult (m_wrt (mem (run_writer choice σ))).
Proof.
  intros Hi. pose proof (inv_writer _ _ _ Hi) as Hwr. destruct (inv_files _ _ _ Hi) as [[Ho Ho'] _ _ _ _].
  assert (flushResult (m_wrt (mem σ)) ≤ flushResult (XLogDoFlush (m_wrt (mem σ)))) as Hdo.
  { unfold XLogDoFlush. destruct (_ <? _) eqn:E; bool_to_prop; [|done]. destruct (XLByteInPrevSeg _ _); cbn; lia. }
  unfold run_writer. revert Hwr. destruct (writer σ) as [| | | | | |l v i ip fs| | | | | | | |]; intros Hwr; cbn [XLogBackgroundFlush];
    try (unfold XLogWrite; repeat case_match; simplify_eq/=; lia).
  destruct Hwr as (_ & c & _ & _ & _ & q & g & _ & _ & _ & _ & HRW & HF & _). unfold XLogWriteDump. destruct fs; repeat case_match; simplify_eq/=; lia.
Qed.

(** The buffers are advanced when they have to be. *)
Definition sent_ok (σ : wal_config) : Prop :=
  match writer σ with
  | WAdvance l | WAdvanceBlock l | WSent l => sentResult (m_buf (mem σ)) < WriteRqstPtr l - WriteRqstPtr l mod XLOG_BLCKSZ
  | _ => True
  end.

Lemma sent_grows choice σ : sent_ok σ → sentResult (m_buf (mem σ)) ≤ sentResult (m_buf (mem (run_writer choice σ))) ∧ sent_ok (run_writer choice σ).
Proof.
  unfold sent_ok, run_writer. destruct (writer σ); cbn [XLogBackgroundFlush]; intros Hs; try done;
    unfold XLogWrite, XLogWriteDump; repeat case_match; simplify_eq/=; bool_to_prop; try done; try lia.
Qed.

End progress.
