(* ===== verification/XLogReach.v ===== *)
(** * Every reachable configuration of the write-ahead log

    Start-up establishes the invariant, and every step of a backend or of the WAL writer
    keeps it while the log ends below [log_limit]. *)

From S2P Require Import Prelude FsmPage XLogDefs XLogInsert XLogWriter XLogInv XLogPages XLogBackend XLogTickets XLogReserve XLogScan XLogDump XLogAdvance.
From stdpp Require Import list.

Open Scope Z_scope.

Lemma MAXALIGN_nonneg x : 0 ≤ MAXALIGN x.
Proof. unfold MAXALIGN, lnotw. apply Z.land_nonneg. right. apply Z.land_nonneg. right. done. Qed.

Section reach.
Context `{WalGeometryOk} `{WalEnv}.
Hypothesis few_backends : 0 ≤ max_backends < 2 ^ 30.

(** The log ends below [log_limit]. *)
Definition log_bounded (σ : wal_config) : Prop := XLogBytePosToEndRecPtr (currentBytePos (m_word (mem σ))) < log_limit.

(** ** Steps *)

Section steps.
Variables (base lastsize : Z).
Hypothesis base_pos : 0 < base.
Hypothesis base_aligned : base mod 8 = 0.
Abbreviation wal_inv := (wal_inv base lastsize).

Lemma word_grows σ σ' : wal_step σ σ' → currentBytePos (m_word (mem σ)) ≤ currentBytePos (m_word (mem σ')).
Proof.
  intros [σ1 t Ht|σ1 t r|σ1 t|σ1 choice|σ1 c]; cbn [mem backend_at set_ctl m_word]; try done.
  - unfold run_backend, XLogInsertRecordSingle, ReserveXLogInsertLocation. destruct (b_pc (backends σ1 t)); cbn; repeat case_match; simplify_eq; cbn; try done.
    pose proof (MAXALIGN_nonneg (xl_tot_len (rechdr r))). lia.
  - unfold run_writer, XLogBackgroundFlush. destruct (writer σ1); repeat case_match; simplify_eq; cbn; try done.
Qed.

Lemma reserve_tip σ t r compare : wal_inv σ → b_pc (backends σ t) = InsReserve r compare →
  tip base (m_log (mem (run_backend t σ))) = currentBytePos (m_word (mem (run_backend t σ))).
Proof.
  intros Hi Hpc. pose proof (li_word _ _ _ (inv_log _ _ _ Hi)) as Hw. destruct (bi_ok _ _ _ _ _ (inv_backends _ _ _ Hi) t) as (Hok & _). rewrite Hpc in Hok.
  unfold run_backend, XLogInsertRecordSingle, ReserveXLogInsertLocation. rewrite Hpc.
  destruct (LRC compare =? _); [cbn; by rewrite Hw|]. destruct (decide (m_word (mem σ) = compare)) as [E|]; [|cbn; by rewrite Hw]. cbn [mem backend_at set_log set_word m_log m_word currentBytePos].
  rewrite tip_snoc. unfold rec_end, record_size. cbn [l_start l_bytes]. by rewrite chunks_length.
Qed.

Lemma backend_preserves σ t : wal_inv σ → 0 ≤ t < max_backends → log_bounded (run_backend t σ) → wal_inv (run_backend t σ).
Proof.
  intros Hi Ht Hlim. pose proof (simple_steps base lastsize base_pos base_aligned σ t Hi Ht) as Hs. destruct (b_pc (backends σ t)) eqn:Hpc; try done.
  - by eapply check_step.
  - eapply reserve_step; try done. by erewrite reserve_tip.
  - by eapply copy_step.
  - by eapply status_step.
  - by eapply status_end_step.
  - by eapply report_step.
Qed.

Lemma wal_step_preserves σ σ' : wal_inv σ → wal_step σ σ' → log_bounded σ' → wal_inv σ'.
Proof.
  intros Hi Hstep Hlim. destruct Hstep as [σ1 t Ht|σ1 t r Ht Hpc Hr|σ1 t Ht Hpc|σ1 choice|σ1 c].
  - by apply backend_preserves.
  - destruct (bi_ok _ _ _ _ _ (inv_backends _ _ _ Hi) t) as (_ & Hc). apply backend_local; try done; by rewrite Hpc.
  - destruct (bi_ok _ _ _ _ _ (inv_backends _ _ _ Hi) t) as (_ & Hc). apply backend_local; try done; by rewrite Hpc.
  - by apply writer_preserves.
  - destruct Hi as [Hl Hb Hs Hw Hfi Hwr]. split; try done. by destruct Hl; split.
Qed.

Lemma reach_preserves σ0 σ : wal_inv σ0 → wal_reachable σ0 σ → log_bounded σ → wal_inv σ ∧ base ≤ currentBytePos (m_word (mem σ)).
Proof.
  intros Hi Hr. assert (base ≤ currentBytePos (m_word (mem σ0))) as Hb0.
  { rewrite (li_word _ _ _ (inv_log _ _ _ Hi)). cbn. rewrite <- (tip_at_all base (m_log (mem σ0)) (length (m_log (mem σ0)))) by done.
    apply (tip_at_base base lastsize base_aligned). by apply inv_chain. }
  assert (base ≤ currentBytePos (m_word (mem σ)) ∧ (log_bounded σ → wal_inv σ)) as [Hb Hw].
  { revert σ Hr. apply rtc_ind_r; [by split|]. intros σ1 σ2 _ Hst [Hb1 Hw1]. pose proof (word_grows _ _ Hst). split; [lia|]. intros Hlim. apply (wal_step_preserves σ1); [|done|done]. apply Hw1. unfold log_bounded in *.
    pose proof (end_ptr_le (currentBytePos (m_word (mem σ1))) (currentBytePos (m_word (mem σ2)))). lia. }
  intros Hlim. split; [by apply Hw|done].
Qed.

End steps.

(** ** Start-up *)

(** The log ends behind a record, not in a page header and not in segment 0 (which is never
    used), and its last page is one. *)
Record startup_ok (EndOfLog : Z) (disk : Z → Z → xlog_page) : Prop := {
  su_first : XLogSegSize ≤ EndOfLog;
  su_limit : EndOfLog < log_limit;
  su_aligned : EndOfLog mod 8 = 0;
  su_header : EndOfLog mod 8192 = 0 ∨ header_size (EndOfLog / 8192) < EndOfLog mod 8192;
  su_page : EndOfLog mod 8192 ≠ 0 → head_ok (file_page disk (EndOfLog / 8192)) (EndOfLog / 8192) }.

Section startup.
Variables (EndOfLog LastRec : Z) (ctl : insert_ctl) (disk : Z → Z → xlog_page).
Hypothesis Hsu : startup_ok EndOfLog disk.
Abbreviation base := (XLogRecPtrToBytePos EndOfLog).
Abbreviation lastsize := (XLogRecPtrToBytePos EndOfLog - XLogRecPtrToBytePos LastRec).
Abbreviation g0 := (EndOfLog / 8192).

Lemma startup_page : 2 ≤ g0 ∧ g0 * 8192 ≤ EndOfLog < (g0 + 1) * 8192 ∧ EndOfLog = g0 * 8192 + EndOfLog mod 8192 ∧ 0 ≤ EndOfLog mod 8192 < 8192.
Proof.
  pose proof (su_first _ _ Hsu) as Hf. pose proof seg_pages_spec as [Hs Hp]. pose proof (page_of EndOfLog). pose proof (Z.div_mod EndOfLog 8192 ltac:(done)).
  pose proof (Z.mod_pos_bound EndOfLog 8192 ltac:(done)). split_and!; try lia.
Qed.

Lemma startup_base : 0 < base ∧ base mod 8 = 0 ∧ XLogBytePosToEndRecPtr base = EndOfLog.
Proof.
  destruct startup_page as (Hg & Hr & He & Hm). pose proof (su_header _ _ Hsu) as Hh. pose proof (su_aligned _ _ Hsu) as Ha.
  pose proof (page_first_aligned g0) as Hpa. pose proof (page_first_lt 0 g0). pose proof page_first_0. pose proof (page_first_succ g0) as Hps. pose proof (header_size_cases g0) as Hc.
  rewrite He at 1 2 3. rewrite byte_pos_at by done. destruct (0 <? EndOfLog mod 8192) eqn:E; bool_to_prop.
  - assert (EndOfLog mod 8192 mod 8 = 0) as Hm8 by (revert Ha; clear; intros; zdiv). split_and!; [lia|destruct Hc as [-> | ->]; clear -Hpa Hm8; zdiv|].
    rewrite (end_ptr_at g0) by lia. case_match; bool_to_prop; lia.
  - rewrite Z.add_0_r. split_and!; [lia|done|]. rewrite page_end_ptr by lia. lia.
Qed.

(** [AdvanceXLInsertBuffer] when the first [j] buffers have been set up. *)
Lemma startup_fill force (fuel : nat) j bf : 0 ≤ j ≤ bufs → bufs - j < Z.of_nat fuel → InitializedUpTo bf = (g0 + j) * 8192 →
  (∀ g, g0 ≤ g < g0 + j → xlblocks bf (g mod bufs) = (g + 1) * 8192 ∧ head_ok (pages bf (g mod bufs)) g ∧ (EndOfLog ≤ g * 8192 → has_cont (pages bf (g mod bufs)) = false)) →
  (∀ g, g0 + j ≤ g < g0 + bufs → xlblocks bf (g mod bufs) = 0) →
  ∃ bf', AdvanceXLInsertBuffer fuel force EndOfLog bf = Some bf' ∧ InitializedUpTo bf' = (g0 + bufs) * 8192 ∧
    ∀ g, g0 ≤ g < g0 + bufs → xlblocks bf' (g mod bufs) = (g + 1) * 8192 ∧ head_ok (pages bf' (g mod bufs)) g ∧ (EndOfLog ≤ g * 8192 → has_cont (pages bf' (g mod bufs)) = false).
Proof.
  destruct startup_page as (Hg & Hr & _). pose proof bufs_pos as Hbp. induction fuel as [|fuel IH] in j, bf |- *; [lia|]. intros Hj Hfuel Hini Hset Hzero. cbn [AdvanceXLInsertBuffer].
  assert (next_index bf = (g0 + j) mod bufs) as Hni by (unfold next_index, XLogRecPtrToBufIdx, XLOG_BLCKSZ; by rewrite Hini, Z.div_mul).
  unfold advance_needed. rewrite Hni. destruct (decide (j = bufs)) as [->|Hne].
  - rewrite ring_next. destruct (Hset g0 ltac:(lia)) as (-> & _). destruct (_ <=? _) eqn:E; bool_to_prop; [lia|]. by exists bf.
  - rewrite (Hzero (g0 + j)) by lia. destruct (_ <=? _) eqn:E; bool_to_prop; [|lia]. apply (IH (j + 1)); try lia.
    + cbn. rewrite Hini. unfold XLOG_BLCKSZ. lia.
    + intros g Hg'. unfold advance_block, advance_page, next_index. cbn. fold (next_index bf). rewrite Hni, Hini. destruct (decide (g = g0 + j)) as [->|].
      * rewrite !fn_lookup_insert. destruct (new_page_head force (g0 + j)) as [? ?]. split_and!; try done. unfold XLOG_BLCKSZ. lia.
      * rewrite !fn_lookup_insert_ne; [apply Hset; lia| |]; intros Hq; apply (residue_unique g0) in Hq; lia.
    + intros g Hg'. unfold advance_block, advance_page, next_index. cbn. fold (next_index bf). rewrite Hni. rewrite fn_lookup_insert_ne; [apply Hzero; lia|].
      intros Hq. apply (residue_unique g0) in Hq; lia.
Qed.

Lemma startup_buffers_ok force : ∃ bf, startup_buffers EndOfLog force disk = Some bf ∧ InitializedUpTo bf = (g0 + bufs) * 8192 ∧ sentResult bf = EndOfLog ∧
  ∀ g, g0 ≤ g < g0 + bufs → xlblocks bf (g mod bufs) = (g + 1) * 8192 ∧ head_ok (pages bf (g mod bufs)) g ∧ (EndOfLog ≤ g * 8192 → has_cont (pages bf (g mod bufs)) = false).
Proof.
  destruct startup_page as (Hg & Hr & He & Hm). pose proof bufs_pos as Hbp. pose proof cache_range as Hcr. unfold startup_buffers, XLOG_BLCKSZ.
  destruct (EndOfLog mod 8192 =? 0) eqn:E; bool_to_prop.
  - match goal with |- context [AdvanceXLInsertBuffer _ _ _ ?b] => destruct (startup_fill force (Z.to_nat (XLogCacheBlck + 2)) 0 b) as (bf & -> & Hi & Hset) end;
      try done; cbn; try lia; [unfold bufs; lia|]. by exists (with_sent EndOfLog bf).
  - match goal with |- context [AdvanceXLInsertBuffer _ _ _ ?b] => destruct (startup_fill force (Z.to_nat (XLogCacheBlck + 2)) 1 b) as (bf & -> & Hi & Hset) end;
      try done; cbn; try lia; [unfold bufs; lia| | |by exists (with_sent EndOfLog bf)].
    + intros g Hg'. assert (g = g0) as -> by lia. rewrite !fn_lookup_insert. split_and!; [lia| |lia].
      unfold XLByteToSeg. replace (EndOfLog - EndOfLog mod 8192) with (g0 * 8192) by lia. rewrite seg_start, seg_of_pos, Z.div_mul by done. apply (su_page _ _ Hsu E).
    + intros g Hg'. rewrite fn_lookup_insert_ne; [done|]. unfold XLogRecPtrToBufIdx, XLOG_BLCKSZ. intros Hq. apply (residue_unique g0) in Hq; lia.
Qed.

Lemma startup_inv : ∃ m, startup_mem EndOfLog LastRec ctl disk = Some m ∧ wal_inv base lastsize (startup_config m).
Proof.
  destruct (startup_buffers_ok (forcePageWrites ctl)) as (bf & Hbf & Hini & Hsent & Hset). unfold startup_mem. rewrite Hbf. eexists; split; [reflexivity|].
  destruct startup_base as (Hb0 & Hb8 & Hbe). destruct startup_page as (Hg & Hr & He & Hm). pose proof bufs_pos as Hbp.
  assert (window bf = g0) as Hwin by (unfold window; rewrite Hini, Z.div_mul by done; lia).
  assert (disk_upto base [] disk EndOfLog) as Hdisk.
  { intros g Hg1 Hg2. unfold first_page in Hg1. rewrite Hbe in Hg1. assert (g = g0) as -> by lia. split; [|done|done|rewrite Hbe; lia].
    apply (su_page _ _ Hsu). lia. }
  split; cbn [mem backends writer retired startup_config m_word m_log m_buf m_status m_wrt is_late is_half].
  - split; [done|done|]. cbn. rewrite Hbe. apply Hsu.
  - split; try done; [|by intros ? ? ? (? & ? & _)]. intros t. split; [done|]. cbn. rewrite Hwin. split_and!; [lia|lia|done].
  - split; try done; [|intros k _ Hk; cbn in Hk; lia]. intros k Hk1 Hk2. split_and!; [|intros [Hk _]; cbn in Hk; lia|done]. cbn [andb entry_LRC]. rewrite CNT_eq in *. clear -Hk2. zdiv.
  - split; rewrite ?Hwin; cbn [Z.b2z].
    + rewrite Hini. apply Z.mod_mul. done.
    + unfold first_page. by rewrite Hbe.
    + intros g Hg'. by apply Hset.
    + intros g Hg'. destruct (Hset g ltac:(lia)) as (_ & Hh & Hc). split; [done|done|done|]. intros Hle _. apply Hc. by rewrite Hbe in Hle.
    + by rewrite Hsent.
    + unfold end_at, tip_at. cbn. rewrite Hbe. lia.
    + intros k Hk _. cbn in Hk. assert (k = 0)%nat as -> by lia. unfold end_at, tip_at. cbn. rewrite Hbe. nia.
  - split; cbn [flushResult ResultFlush ResultWrite files synced]; rewrite ?Hbe; try done; cbn; rewrite Hbe; lia.
  - cbn. unfold end_at, tip_at. cbn. rewrite Hbe, Hwin, Hsent. split_and!; try done. by left.
Qed.

End startup.

Lemma wal_reachable_inv EndOfLog LastRec ctl disk m σ : startup_ok EndOfLog disk → startup_mem EndOfLog LastRec ctl disk = Some m →
  wal_reachable (startup_config m) σ → log_bounded σ →
  wal_inv (XLogRecPtrToBytePos EndOfLog) (XLogRecPtrToBytePos EndOfLog - XLogRecPtrToBytePos LastRec) σ.
Proof.
  intros Hsu Hm Hr Hlim. destruct (startup_inv EndOfLog LastRec ctl disk Hsu) as (m' & Hm' & Hi). simplify_eq. destruct (startup_base EndOfLog disk Hsu) as (? & ? & _).
  by eapply reach_preserves.
Qed.

End reach.
