(* ===== verification/XLogDecode.v ===== *)
(** * Decoding a record of the write-ahead log

    [DecodeXLogRecord] and [ResetDecoder] of
    [src/gausskernel/storage/access/transam/xlogreader.cpp]: the headers of a record name
    the blocks it changes and the lengths of the data that follow, for each block an image
    of the page and data, then the main data of the record.

    The lengths that count down and add up are [uint32] and wrap around. A pointer into
    the record is the offset from its beginning. [Ereport ERROR] stands for the jumps to
    [err] and [shortdata_err], the message is in the state; [Ereport PANIC] for a read
    outside of the record, which the code would do. The fields of a block are stored
    together when its header has been read. *)

From S2P Require Import Prelude FsmPage XLogDefs.
From stdpp Require Import list.

Open Scope Z_scope.

(** ** Data *)

Definition XLR_MAX_BLOCK_ID : Z := 32.
Definition XLR_BLOCK_ID_DATA_SHORT : Z := 255.
Definition XLR_BLOCK_ID_DATA_LONG : Z := 254.
Definition XLR_BLOCK_ID_ORIGIN : Z := 253.
Definition BKID_HAS_BUCKET_OR_SEGPAGE : Z := 0x80.
Definition BKID_HAS_TDE_PAGE : Z := 0x40.
Definition BKID_GET_BKID (id : Z) : Z := Z.land id 0x3F.
Definition BKPBLOCK_FORK_MASK : Z := 0x0F.
Definition BKPBLOCK_HAS_IMAGE : Z := 0x10.
Definition BKPBLOCK_HAS_DATA : Z := 0x20.
Definition BKPBLOCK_SAME_REL : Z := 0x80.
Definition BKPBLOCK_HAS_VM_LOC : Z := 0x80.
Definition BKPBLOCK_GET_SEGFILENO (fileno : Z) : Z := Z.land fileno 0x3F.
Definition InvalidBktId : Z := -1.
Definition InvalidBlockNumber : Z := 0xFFFFFFFF.
Definition InvalidRepOriginId : Z := 0.
Definition EXRTO_BLOCK_INFO_SPACE_OID : Z := 8.
(** [sizeof]: two arrays of characters, four of bytes. *)
Definition SizeOfTdeInfo : Z := 320 + 40 + 16 + 16 + 1 + 3.
Definition SizeOfRelFileNode : Z := 16.
Definition SizeOfRelFileNodeOld : Z := 12.

(** A signed 16-bit field. *)
Definition i16 (z : Z) : Z := if z <? 2 ^ 15 then z else z - 2 ^ 16.
Definition has_bit (v b : Z) : bool := negb (Z.land v b =? 0).

Record RelFileNode := {
  spcNode : Z;
  dbNode : Z;
  relNode : Z;
  bucketNode : Z;
  opt : Z }.

Definition IsSegmentFileNode (r : RelFileNode) : bool :=
  (InvalidBktId <? bucketNode r) && negb (spcNode r =? EXRTO_BLOCK_INFO_SPACE_OID).
Definition IsSegmentPhysicalRelNode (r : RelFileNode) : bool := IsSegmentFileNode r && (relNode r <=? 5).
Definition XLOG_NEED_PHYSICAL_LOCATION (r : RelFileNode) : bool := IsSegmentFileNode r && negb (IsSegmentPhysicalRelNode r).

(** A [RelFileNodeV2] without compression has ones in the place of [opt]. *)
Definition CompressTableRecord (r : RelFileNode) : RelFileNode :=
  if (bucketNode r <=? -1) && (opt r =? 0xFFFF)
  then {| spcNode := spcNode r; dbNode := dbNode r; relNode := relNode r; bucketNode := bucketNode r; opt := 0 |}
  else r.

(** Where a block of a segment is. *)
Record seg_location := {
  seg_fileno : Z;
  seg_blockno : Z;
  has_vm_loc : bool;
  vm_seg_fileno : Z;
  vm_seg_blockno : Z }.

Definition no_location : seg_location :=
  {| seg_fileno := 0; seg_blockno := InvalidBlockNumber; has_vm_loc := false; vm_seg_fileno := 0; vm_seg_blockno := InvalidBlockNumber |}.

Record DecodedBkpBlock := {
  in_use : bool;
  rnode : RelFileNode;
  forknum : Z;
  blkno : Z;
  location : seg_location;
  flags : Z;
  has_image : bool;
  bkp_image : Z;
  hole_offset : Z;
  hole_length : Z;
  has_data : bool;
  data : Z;
  data_len : Z;
  last_lsn : Z;
  extra_flag : Z;
  tdeinfo : option Z }.

Definition no_relation : RelFileNode := {| spcNode := 0; dbNode := 0; relNode := 0; bucketNode := InvalidBktId; opt := 0 |}.
Definition no_block : DecodedBkpBlock := {|
  in_use := false; rnode := no_relation; forknum := 0; blkno := 0; location := no_location; flags := 0; has_image := false; bkp_image := 0;
  hole_offset := 0; hole_length := 0; has_data := false; data := 0; data_len := 0; last_lsn := 0; extra_flag := 0; tdeinfo := None |}.

(** The part of [XLogReaderState] that the decoder fills in. *)
Record XLogDecoder := {
  decoded_record : bool;
  record_origin : Z;
  main_data : Z;
  main_data_len : Z;
  blocks : list DecodedBkpBlock;
  max_block_id : Z;
  isTde : bool;
  isDecode : bool }.

(** As [XLogReaderAllocate] leaves it. *)
Definition new_decoder : XLogDecoder := {|
  decoded_record := false; record_origin := 0; main_data := 0; main_data_len := 0;
  blocks := replicate (Z.to_nat (XLR_MAX_BLOCK_ID + 1)) no_block; max_block_id := -1; isTde := false; isDecode := false |}.

Definition block_of (d : XLogDecoder) (id : Z) : DecodedBkpBlock := aget no_block (blocks d) id.

Inductive decode_error : Type :=
| RecordInvalidLength
| OutOfOrderBlockId
| HasDataButNone
| DataButNotHasData
| SameRelButNoPrevious
| InvalidBlockId.

#[global] Instance decode_error_eq_dec : EqDecision decode_error.
Proof. solve_decision. Defined.

(** ** Updates *)

Definition with_blocks (bs : list DecodedBkpBlock) (mx : Z) (d : XLogDecoder) : XLogDecoder :=
  {| decoded_record := decoded_record d; record_origin := record_origin d; main_data := main_data d; main_data_len := main_data_len d;
     blocks := bs; max_block_id := mx; isTde := isTde d; isDecode := isDecode d |}.
Definition with_main (off len : Z) (d : XLogDecoder) : XLogDecoder :=
  {| decoded_record := decoded_record d; record_origin := record_origin d; main_data := off; main_data_len := len;
     blocks := blocks d; max_block_id := max_block_id d; isTde := isTde d; isDecode := isDecode d |}.
Definition with_origin (o : Z) (d : XLogDecoder) : XLogDecoder :=
  {| decoded_record := decoded_record d; record_origin := o; main_data := main_data d; main_data_len := main_data_len d;
     blocks := blocks d; max_block_id := max_block_id d; isTde := isTde d; isDecode := isDecode d |}.
Definition with_tde (b : bool) (d : XLogDecoder) : XLogDecoder :=
  {| decoded_record := decoded_record d; record_origin := record_origin d; main_data := main_data d; main_data_len := main_data_len d;
     blocks := blocks d; max_block_id := max_block_id d; isTde := b; isDecode := isDecode d |}.
Definition with_decoded (r dec : bool) (d : XLogDecoder) : XLogDecoder :=
  {| decoded_record := r; record_origin := record_origin d; main_data := main_data d; main_data_len := main_data_len d;
     blocks := blocks d; max_block_id := max_block_id d; isTde := isTde d; isDecode := dec |}.

Definition set_in_use (b : DecodedBkpBlock) : DecodedBkpBlock := {|
  in_use := true; rnode := rnode b; forknum := forknum b; blkno := blkno b; location := location b; flags := flags b; has_image := has_image b;
  bkp_image := bkp_image b; hole_offset := hole_offset b; hole_length := hole_length b; has_data := has_data b; data := data b;
  data_len := data_len b; last_lsn := last_lsn b; extra_flag := extra_flag b; tdeinfo := tdeinfo b |}.
Definition reset_block (b : DecodedBkpBlock) : DecodedBkpBlock := {|
  in_use := false; rnode := rnode b; forknum := forknum b; blkno := blkno b; location := location b; flags := flags b; has_image := false;
  bkp_image := bkp_image b; hole_offset := hole_offset b; hole_length := hole_length b; has_data := false; data := data b;
  data_len := 0; last_lsn := last_lsn b; extra_flag := extra_flag b; tdeinfo := None |}.
Definition set_pointers (image dat : Z) (b : DecodedBkpBlock) : DecodedBkpBlock := {|
  in_use := in_use b; rnode := rnode b; forknum := forknum b; blkno := blkno b; location := location b; flags := flags b; has_image := has_image b;
  bkp_image := image; hole_offset := hole_offset b; hole_length := hole_length b; has_data := has_data b; data := dat;
  data_len := data_len b; last_lsn := last_lsn b; extra_flag := extra_flag b; tdeinfo := tdeinfo b |}.

Definition ResetDecoder (d : XLogDecoder) : XLogDecoder :=
  let n := max_block_id d + 1 in
  with_blocks (fold_left (λ bs id, aset bs id (reset_block (aget no_block bs id))) (seqZ 0 n) (blocks d)) (-1)
    (with_main (main_data d) 0 (with_decoded false (isDecode d) d)).

(** ** The headers *)

(** The local variables [ptr], [remaining], [datatotal] and [lastBlock], with the state. *)
Record cursor := {
  ptr : Z;
  remaining : Z;
  datatotal : Z;
  lastBlock : option Z;
  dec : XLogDecoder;
  message : option decode_error }.

Definition at_ptr (p rem : Z) (c : cursor) : cursor :=
  {| ptr := p; remaining := rem; datatotal := datatotal c; lastBlock := lastBlock c; dec := dec c; message := message c |}.
Definition add_total (n : Z) (c : cursor) : cursor :=
  {| ptr := ptr c; remaining := remaining c; datatotal := u32 (datatotal c + n); lastBlock := lastBlock c; dec := dec c; message := message c |}.
Definition set_last (id : Z) (c : cursor) : cursor :=
  {| ptr := ptr c; remaining := remaining c; datatotal := datatotal c; lastBlock := Some id; dec := dec c; message := message c |}.
Definition on_dec (f : XLogDecoder → XLogDecoder) (c : cursor) : cursor :=
  {| ptr := ptr c; remaining := remaining c; datatotal := datatotal c; lastBlock := lastBlock c; dec := f (dec c); message := message c |}.
Definition set_message (e : decode_error) (c : cursor) : cursor :=
  {| ptr := ptr c; remaining := remaining c; datatotal := datatotal c; lastBlock := lastBlock c; dec := dec c; message := Some e |}.

Section decode.
Context (record : list Z).

Abbreviation D := (M cursor).

(** [report_invalid_record(...); goto err;] *)
Definition fail {A} (e : decode_error) : D A := modify (set_message e);; raise ERROR.
Definition require (ok : bool) (e : decode_error) : D unit := if ok then skip else fail e.

(** [n] bytes at [ptr]. *)
Definition peek (n : Z) : D (list Z) :=
  p ← gets ptr;
  if p + n <=? Z.of_nat (length record) then mret (take (Z.to_nat n) (drop (Z.to_nat p) record)) else raise PANIC.

Definition advance (n : Z) : D unit := modify (λ c, at_ptr (ptr c + n) (u32 (remaining c - n)) c).

(** [n] bytes, if there are as many left. *)
Definition take_bytes (n : Z) : D (list Z) :=
  rem ← gets remaining;
  require (n <=? rem) RecordInvalidLength;;
  bs ← peek n;
  advance n;;
  mret bs.

Definition DECODE_XLOG_ONE_ITEM (size : Z) : D Z := bs ← take_bytes size; mret (le_value bs).

Definition relation_of (bs : list Z) : RelFileNode :=
  CompressTableRecord {|
    spcNode := le_value (take 4 bs); dbNode := le_value (take 4 (drop 4 bs)); relNode := le_value (take 4 (drop 8 bs));
    bucketNode := if (length bs <=? 12)%nat then InvalidBktId else i16 (le_value (take 2 (drop 12 bs)));
    opt := le_value (take 2 (drop 14 bs)) |}.

(** The relation of a block: its own, or that of the block before. *)
Definition decode_relation (id : Z) (fork_flags : Z) (hasbucket_segpage tde : bool) : D (RelFileNode * Z * option Z) :=
  if negb (has_bit fork_flags BKPBLOCK_SAME_REL) then
    bs ← take_bytes (if hasbucket_segpage then SizeOfRelFileNode else SizeOfRelFileNodeOld);
    tdep ← (if tde : bool then
              p ← gets ptr;
              advance SizeOfTdeInfo;;
              mret (Some p)
            else mret None);
    extra ← DECODE_XLOG_ONE_ITEM 2;
    modify (set_last id);;
    mret (relation_of bs, extra, tdep)
  else
    last ← gets lastBlock;
    match last with
    | None => fail SameRelButNoPrevious
    | Some last => gets (λ c, (rnode (block_of (dec c) last), extra_flag (block_of (dec c) last), None))
    end.

Definition decode_location (rel : RelFileNode) : D seg_location :=
  if XLOG_NEED_PHYSICAL_LOCATION rel then
    fileno ← DECODE_XLOG_ONE_ITEM 1;
    blockno ← DECODE_XLOG_ONE_ITEM 4;
    if has_bit fileno BKPBLOCK_HAS_VM_LOC then
      vm_fileno ← DECODE_XLOG_ONE_ITEM 1;
      vm_blockno ← DECODE_XLOG_ONE_ITEM 4;
      mret {| seg_fileno := BKPBLOCK_GET_SEGFILENO fileno; seg_blockno := blockno; has_vm_loc := true;
              vm_seg_fileno := vm_fileno; vm_seg_blockno := vm_blockno |}
    else mret {| seg_fileno := fileno; seg_blockno := blockno; has_vm_loc := false; vm_seg_fileno := 0; vm_seg_blockno := InvalidBlockNumber |}
  else mret no_location.

Definition set_block (id : Z) (f : DecodedBkpBlock → DecodedBkpBlock) (d : XLogDecoder) : XLogDecoder :=
  with_blocks (aset (blocks d) id (f (block_of d id))) (max_block_id d) d.

(** The fields of a block. *)
Definition fill_block (node : RelFileNode) (fork_flags number : Z) (loc : seg_location) (hole : Z * Z) (len lsn extra : Z) (tdep : option Z)
    (b : DecodedBkpBlock) : DecodedBkpBlock := {|
  in_use := true; rnode := node; forknum := Z.land fork_flags BKPBLOCK_FORK_MASK; blkno := number; location := loc; flags := fork_flags;
  has_image := has_bit fork_flags BKPBLOCK_HAS_IMAGE; bkp_image := bkp_image b; hole_offset := fst hole; hole_length := snd hole;
  has_data := has_bit fork_flags BKPBLOCK_HAS_DATA; data := data b; data_len := len; last_lsn := lsn; extra_flag := extra; tdeinfo := tdep |}.

(** [XLogRecordBlockHeader]. *)
Definition decode_block (block_id : Z) : D unit :=
  let hasbucket_segpage := has_bit block_id BKID_HAS_BUCKET_OR_SEGPAGE in
  let tde := has_bit block_id BKID_HAS_TDE_PAGE in
  let id := BKID_GET_BKID block_id in
  modify (on_dec (with_tde tde));;
  mx ← gets (λ c, max_block_id (dec c));
  require (mx <? id) OutOfOrderBlockId;;
  modify (on_dec (λ d, set_block id set_in_use (with_blocks (blocks d) id d)));;
  fork_flags ← DECODE_XLOG_ONE_ITEM 1;
  let image := has_bit fork_flags BKPBLOCK_HAS_IMAGE in
  let hasdata := has_bit fork_flags BKPBLOCK_HAS_DATA in
  len ← DECODE_XLOG_ONE_ITEM 2;
  require (negb (hasdata && (len =? 0))) HasDataButNone;;
  require (negb (negb hasdata && negb (len =? 0))) DataButNotHasData;;
  modify (add_total len);;
  hole ← (if image then
            off ← DECODE_XLOG_ONE_ITEM 2;
            hlen ← DECODE_XLOG_ONE_ITEM 2;
            modify (add_total (BLCKSZ - hlen));;
            mret (off, hlen)
          else gets (λ c, (hole_offset (block_of (dec c) id), hole_length (block_of (dec c) id))));
  rel ← decode_relation id fork_flags hasbucket_segpage tde;
  let '(node, extra, tdep) := rel in
  number ← DECODE_XLOG_ONE_ITEM 4;
  loc ← decode_location node;
  lsn ← DECODE_XLOG_ONE_ITEM 8;
  modify (on_dec (set_block id (fill_block node fork_flags number loc hole len lsn extra tdep))).

(** One header; [true] after that of the main data, which is the last. *)
Definition decode_header : D bool :=
  block_id ← DECODE_XLOG_ONE_ITEM 1;
  if block_id =? XLR_BLOCK_ID_DATA_SHORT then
    len ← DECODE_XLOG_ONE_ITEM 1;
    modify (on_dec (λ d, with_main (main_data d) len d));;
    modify (add_total len);;
    mret true
  else if block_id =? XLR_BLOCK_ID_DATA_LONG then
    len ← DECODE_XLOG_ONE_ITEM 4;
    modify (on_dec (λ d, with_main (main_data d) len d));;
    modify (add_total len);;
    mret true
  else if block_id =? XLR_BLOCK_ID_ORIGIN then
    o ← DECODE_XLOG_ONE_ITEM 4;
    modify (on_dec (with_origin (i32 o)));;
    mret false
  else if BKID_GET_BKID block_id <=? XLR_MAX_BLOCK_ID then
    decode_block block_id;;
    mret false
  else fail InvalidBlockId.

(** Every header has at least one byte of the record. *)
Fixpoint decode_headers (fuel : nat) : D unit :=
  match fuel with
  | O => nofuel
  | S fuel =>
      more ← gets (λ c, datatotal c <? remaining c);
      if more : bool then
        last ← decode_header;
        if last : bool then skip else decode_headers fuel
      else skip
  end.

(** ** The data *)

(** The image and the data of one block. *)
Definition place_block (id : Z) : D unit :=
  b ← gets (λ c, block_of (dec c) id);
  if in_use b then
    p ← gets ptr;
    let image := if has_image b then p else bkp_image b in
    let p := if has_image b then p + (BLCKSZ - hole_length b) else p in
    let dat := if has_data b then p else data b in
    let p := if has_data b then p + data_len b else p in
    modify (on_dec (set_block id (set_pointers image dat)));;
    modify (λ c, at_ptr p (remaining c) c)
  else skip.

Definition place_main : D unit :=
  modify (λ c, if 0 <? main_data_len (dec c)
               then at_ptr (ptr c + main_data_len (dec c)) (remaining c) (on_dec (λ d, with_main (ptr c) (main_data_len d) d) c)
               else c).

Definition decode_all : D unit :=
  decode_headers (S (length record));;
  rem ← gets remaining;
  total ← gets datatotal;
  require (rem =? total) RecordInvalidLength;;
  mx ← gets (λ c, max_block_id (dec c));
  for_each place_block (seqZ 0 (mx + 1));;
  place_main;;
  modify (on_dec (with_decoded true true)).

End decode.

(** The cursor behind the header of the record. *)
Definition decode_start (record : list Z) (d : XLogDecoder) : cursor := {|
  ptr := SizeOfXLogRecord; remaining := u32 (le_value (take 4 record) - SizeOfXLogRecord); datatotal := 0; lastBlock := None;
  dec := with_origin InvalidRepOriginId (with_decoded true (isDecode d) (ResetDecoder d)); message := None |}.

(** [None]: decoded ([true] is returned); otherwise the error that is reported. *)
Definition DecodeXLogRecord (record : list Z) : M XLogDecoder (option decode_error) := λ d,
  match decode_all record (decode_start record d) with
  | (Ok _, c) => (Ok None, dec c)
  | (Ereport ERROR, c) => (Ok (Some (default RecordInvalidLength (message c))), dec c)
  | (Ereport l, c) => (Ereport l, dec c)
  | (NoFuel, c) => (NoFuel, dec c)
  end.

(** ** What a successful decoding leaves *)

(** The pieces of data in the order of the blocks, each with its offset and length. *)
Definition block_fragments (b : DecodedBkpBlock) : list (Z * Z) :=
  if in_use b then
    (if has_image b then [(bkp_image b, BLCKSZ - hole_length b)] else []) ++ (if has_data b then [(data b, data_len b)] else [])
  else [].
Definition fragments (d : XLogDecoder) : list (Z * Z) :=
  concat (block_fragments <$> blocks d) ++ (if 0 <? main_data_len d then [(main_data d, main_data_len d)] else []).

(** The pieces follow one another without gap or overlap, from [p] to [q]. *)
Fixpoint tiles (p : Z) (l : list (Z * Z)) (q : Z) : Prop :=
  match l with
  | [] => p = q
  | (o, n) :: l => o = p ∧ 0 ≤ n ∧ tiles (p + n) l q
  end.

Lemma tiles_app p l q l' r : tiles p l q → tiles q l' r → tiles p (l ++ l') r.
Proof.
  revert p. induction l as [|[o n] l IH]; cbn; [by intros p ->|]. intros p (-> & Hn & Hl) Hr. auto.
Qed.

(** A decoder between two records: the blocks beyond the last are not in use. *)
Record decoder_ok (d : XLogDecoder) : Prop := {
  do_length : length (blocks d) = Z.to_nat (XLR_MAX_BLOCK_ID + 1);
  do_max : -1 ≤ max_block_id d ≤ XLR_MAX_BLOCK_ID;
  do_beyond : ∀ id, max_block_id d < id → reset_block (block_of d id) = block_of d id;
}.

(** A block of a record says that the relation is encrypted. *)
Definition has_tde (d : XLogDecoder) : Prop := ∃ b, b ∈ blocks d ∧ tdeinfo b ≠ None.

(** The length of the data of a block. *)
Definition block_len (b : DecodedBkpBlock) : Z :=
  if in_use b then (if has_image b then BLCKSZ - hole_length b else 0) + (if has_data b then data_len b else 0) else 0.
Definition sum_len (l : list DecodedBkpBlock) : Z := foldr (λ b n, block_len b + n) 0 l.

Definition block_bounded (b : DecodedBkpBlock) : Prop :=
  (in_use b = true → has_image b = true → 0 ≤ hole_length b) ∧ (in_use b = true → has_data b = true → 0 ≤ data_len b < 2 ^ 16).

Lemma sum_len_cons b l : sum_len (b :: l) = block_len b + sum_len l.
Proof. done. Qed.

Lemma sum_len_insert l i b b0 :
  l !! i = Some b0 → sum_len (<[i := b]> l) = sum_len l - block_len b0 + block_len b.
Proof.
  revert i. induction l as [|x l IH]; intros [|i] Hi; [done|done|injection Hi as ->; cbn; lia|].
  specialize (IH i Hi). change (<[S i:=b]> (x :: l)) with (x :: <[i:=b]> l). rewrite !sum_len_cons. lia.
Qed.

Lemma reset_len b : reset_block b = b → block_len b = 0 ∧ in_use b = false ∧ has_image b = false ∧ has_data b = false ∧ tdeinfo b = None.
Proof. intros E. unfold block_len. rewrite <- E. done. Qed.

Section Proofs.
Context (record : list Z).
Let tot := Z.of_nat (length record).
Hypothesis Hbytes : Forall (λ b, 0 ≤ b < 256) record.
Hypothesis Htot : tot < 2 ^ 32.

Lemma le_value_range l : Forall (λ b, 0 ≤ b < 256) l → 0 ≤ le_value l < 256 ^ Z.of_nat (length l).
Proof.
  induction 1 as [|x l Hx _ IH]; cbn [le_value length]; [done|].
  rewrite Nat2Z.inj_succ, Z.pow_succ_r by lia. lia.
Qed.

(** Of all outcomes: the result satisfies [Q]; after an error the next record can be decoded; a read outside of the
    record only if an encrypted relation was seen; the fuel is enough. *)
Definition seen (c : cursor) : Prop := isTde (dec c) = true ∨ has_tde (dec c).
Definition holds {A} (m : M cursor A) (c : cursor) (Q : A → cursor → Prop) : Prop :=
  match m c with
  | (Ok a, c') => Q a c'
  | (Ereport ERROR, c') => decoder_ok (dec c')
  | (Ereport _, c') => seen c'
  | (NoFuel, _) => False
  end.

Lemma holds_bind {A B} (m : M cursor A) (k : A → M cursor B) c Q :
  holds m c (λ a c', holds (k a) c' Q) → holds (m ≫= k) c Q.
Proof. unfold holds, mbind, M_bind. by destruct (m c) as [[a|[]|] c']. Qed.
Lemma decode_holds_mono {A} (m : M cursor A) c (Q Q' : A → cursor → Prop) :
  holds m c Q → (∀ a c', Q a c' → Q' a c') → holds m c Q'.
Proof. unfold holds. destruct (m c) as [[a|[]|] c']; auto. Qed.
Lemma holds_gets {A} (f : cursor → A) c (Q : A → cursor → Prop) : Q (f c) c → holds (gets f) c Q.
Proof. done. Qed.
Lemma holds_modify f c (Q : unit → cursor → Prop) : Q tt (f c) → holds (modify f) c Q.
Proof. done. Qed.
Lemma holds_ret {A} (a : A) c (Q : A → cursor → Prop) : Q a c → holds (mret a) c Q.
Proof. done. Qed.
Lemma holds_skip c (Q : unit → cursor → Prop) : Q tt c → holds skip c Q.
Proof. done. Qed.
Lemma holds_fail {A} e c (Q : A → cursor → Prop) : decoder_ok (dec c) → holds (fail e) c Q.
Proof. done. Qed.
Lemma holds_require ok e c (Q : unit → cursor → Prop) :
  decoder_ok (dec c) → (ok = true → Q tt c) → holds (require ok e) c Q.
Proof. destruct ok; intros Hd HQ; [by apply holds_skip, HQ|by apply holds_fail]. Qed.

(** The cursor is in the record, or an encrypted relation has moved it; [x] says so. *)
Record placed (x : Prop) (c : cursor) : Prop := {
  pl_ptr : 0 ≤ ptr c;
  pl_rem : 0 ≤ remaining c < 2 ^ 32;
  pl_sum : x ∨ ptr c + remaining c = tot;
  pl_dec : decoder_ok (dec c);
}.

Lemma holds_take x n c (Q : list Z → cursor → Prop) :
  placed x c → 0 ≤ n → (x → seen c) →
  (∀ bs, Forall (λ b, 0 ≤ b < 256) bs → length bs = Z.to_nat n →
     placed x (at_ptr (ptr c + n) (remaining c - n) c) → ptr c + n ≤ tot →
     Q bs (at_ptr (ptr c + n) (remaining c - n) c)) →
  holds (take_bytes record n) c Q.
Proof.
  intros [Hp Hr Hs Hd] Hn Hx HQ. unfold take_bytes. apply holds_bind, holds_gets, holds_bind, holds_require; [done|].
  intros Hle%Z.leb_le. apply holds_bind. unfold peek. apply holds_bind, holds_gets. fold tot.
  destruct (Z.leb_spec (ptr c + n) tot) as [Hin|Hout].
  - apply holds_ret, holds_bind, holds_modify, holds_ret.
    assert (u32 (remaining c - n) = remaining c - n) as -> by (unfold u32; rewrite Z.mod_small; lia).
    apply HQ; [by apply Forall_take, Forall_drop| |split; cbn [at_ptr ptr remaining]; [lia..|destruct Hs; [by left|right; lia]|done]|done].
    rewrite length_take, length_drop. unfold tot in *. lia.
  - destruct Hs as [Hs|Hs]; [exact (Hx Hs)|lia].
Qed.

Lemma holds_item x n c (Q : Z → cursor → Prop) :
  placed x c → 0 ≤ n → (x → seen c) →
  (∀ v, 0 ≤ v < 256 ^ n → placed x (at_ptr (ptr c + n) (remaining c - n) c) → ptr c + n ≤ tot →
     Q v (at_ptr (ptr c + n) (remaining c - n) c)) →
  holds (DECODE_XLOG_ONE_ITEM record n) c Q.
Proof.
  intros Hp Hn Hx HQ. unfold DECODE_XLOG_ONE_ITEM. apply holds_bind, (holds_take x); [done..|]. intros bs Hb Hl Hpl Hle.
  apply holds_ret, HQ; [|done..]. pose proof (le_value_range bs Hb) as Hv. rewrite Hl in Hv. by rewrite Z2Nat.id in Hv.
Qed.

(** *** The headers *)

(** Between two headers. *)
Record scanned (c : cursor) : Prop := {
  sc_placed : placed (has_tde (dec c)) c;
  sc_bounded : Forall block_bounded (blocks (dec c));
  sc_total : datatotal c = u32 (sum_len (blocks (dec c)) + main_data_len (dec c));
  sc_main : 0 ≤ main_data_len (dec c);
}.

Lemma sc_dec c : scanned c → decoder_ok (dec c).
Proof. intros H. apply H. Qed.

Lemma block_of_set d id f id' :
  0 ≤ id < Z.of_nat (length (blocks d)) → 0 ≤ id' →
  block_of (set_block id f d) id' = if decide (id' = id) then f (block_of d id) else block_of d id'.
Proof.
  intros Hid Hid'. unfold block_of, set_block. cbn. case_decide as He.
  - subst. by apply aget_aset_eq.
  - apply aget_aset_ne; [lia..|]. by intros ->.
Qed.

Lemma block_lookup d id : 0 ≤ id < Z.of_nat (length (blocks d)) → blocks d !! Z.to_nat id = Some (block_of d id).
Proof.
  intros Hid. unfold block_of, aget. destruct (blocks d !! Z.to_nat id) eqn:E; [done|].
  apply lookup_ge_None in E. lia.
Qed.

Lemma seen_same c c' : dec c' = dec c → seen c → seen c'.
Proof. unfold seen. by intros ->. Qed.

Lemma placed_same x c c' :
  ptr c' = ptr c → remaining c' = remaining c → (decoder_ok (dec c) → decoder_ok (dec c')) → placed x c → placed x c'.
Proof. intros E1 E2 E3 [H1 H2 H3 H4]. split; rewrite ?E1, ?E2; auto. Qed.

(** The relation of a block: only an encrypted one moves the cursor more than it counts. *)
Lemma holds_relation x id fl b (t : bool) c (Q : RelFileNode * Z * option Z → cursor → Prop) :
  placed x c → (x → seen c) → (t = true → isTde (dec c) = true) →
  (∀ r e tp c', dec c' = dec c → datatotal c' = datatotal c → (tp ≠ None → isTde (dec c) = true) →
     placed (x ∨ tp ≠ None) c' → ptr c ≤ ptr c' → Q (r, e, tp) c') →
  holds (decode_relation record id fl b t) c Q.
Proof.
  intros Hp Hx Ht HQ. unfold decode_relation. destruct (negb _).
  2: { apply holds_bind, holds_gets. destruct (lastBlock c); [|apply holds_fail, Hp]. apply holds_gets.
       apply HQ; [done..| |done]. destruct Hp as [? ? Hs ?]. split; [done..| |done]. destruct Hs; auto. }
  apply holds_bind, (holds_take x); [done|by destruct b|done|]. intros bs _ _ Hp1 _. set (c1 := at_ptr _ _ c) in *.
  assert (ptr c ≤ ptr c1) as Hle by (subst c1; cbn; destruct b; unfold SizeOfRelFileNode, SizeOfRelFileNodeOld; lia).
  assert (dec c1 = dec c ∧ datatotal c1 = datatotal c) as [Hd Hdt] by done. clearbody c1.
  apply holds_bind. destruct t.
  - apply holds_bind, holds_gets, holds_bind, holds_modify, holds_ret. set (c2 := at_ptr _ _ c1).
    assert (isTde (dec c) = true) as Htde by by apply Ht.
    assert (ptr c2 = ptr c1 + 396) as Hp2 by done. assert (placed True c2) as Hpl.
    { destruct Hp1 as [H1 H2 _ H4]. split; [lia|apply Z.mod_pos_bound; lia|by left|done]. }
    apply holds_bind, (holds_item True); [done|lia|intros _; left; change (isTde (dec c1) = true); by rewrite Hd|].
    intros e _ Hp3 _. apply holds_bind, holds_modify, holds_ret. apply HQ; try done.
    + destruct Hp3 as [H1 H2 _ H4]. split; [done..| |done]. by left; right.
    + change (ptr c ≤ ptr c2 + 2). lia.
  - apply holds_ret, holds_bind, (holds_item x); [done|lia|intros Hxx; apply (seen_same c); auto|].
    intros e _ Hp3 _. apply holds_bind, holds_modify, holds_ret. apply HQ; try done.
    + destruct Hp3 as [H1 H2 Hs H4]. split; [done..| |done]. destruct Hs; auto.
    + change (ptr c ≤ ptr c1 + 2). lia.
Qed.

Lemma holds_location x r c (Q : seg_location → cursor → Prop) :
  placed x c → (x → seen c) →
  (∀ l c', dec c' = dec c → datatotal c' = datatotal c → placed x c' → ptr c ≤ ptr c' → Q l c') →
  holds (decode_location record r) c Q.
Proof.
  intros Hp Hx HQ. unfold decode_location. destruct (XLOG_NEED_PHYSICAL_LOCATION r); [|by apply holds_ret, HQ].
  apply holds_bind, (holds_item x); [done|lia|done|]. intros v1 _ H1 _.
  apply holds_bind, (holds_item x); [done|lia|done|]. intros v2 _ H2 _.
  destruct (has_bit _ _); [|apply holds_ret, HQ; try done; cbn; lia].
  apply holds_bind, (holds_item x); [done|lia|done|]. intros v3 _ H3 _.
  apply holds_bind, (holds_item x); [done|lia|done|]. intros v4 _ H4 _.
  apply holds_ret, HQ; try done. cbn. lia.
Qed.

(** A block that was not in use is stored. *)
Section Stored.
Context (d : XLogDecoder) (id : Z) (B : DecodedBkpBlock).
Hypothesis Hid : 0 ≤ id < Z.of_nat (length (blocks d)).
Hypothesis Hnew : reset_block (block_of d id) = block_of d id.

Lemma stored_tde bs : bs = aset (blocks d) id B → has_tde d ∨ tdeinfo B ≠ None → ∃ b, b ∈ bs ∧ tdeinfo b ≠ None.
Proof.
  intros -> [(b & Hb & Ht)|Ht]; [exists b|exists B]; (split; [|done]).
  - apply list_elem_of_lookup in Hb as [i Hi]. apply list_elem_of_lookup. exists i. unfold aset.
    rewrite list_lookup_insert_ne; [done|]. intros <-. rewrite block_lookup in Hi by done. injection Hi as <-.
    by destruct (reset_len _ Hnew) as (_ & _ & _ & _ & ?).
  - apply list_elem_of_lookup. exists (Z.to_nat id). unfold aset. apply list_lookup_insert_eq. lia.
Qed.

Lemma stored_sum : sum_len (aset (blocks d) id B) = sum_len (blocks d) + block_len B.
Proof.
  unfold aset. rewrite (sum_len_insert _ _ _ _ (block_lookup d id Hid)). destruct (reset_len _ Hnew) as (-> & _). lia.
Qed.

Lemma stored_bounded : Forall block_bounded (blocks d) → block_bounded B → Forall block_bounded (aset (blocks d) id B).
Proof. intros. by apply Forall_insert. Qed.

End Stored.

Lemma aset_aset {A} (l : list A) i x y : aset (aset l i x) i y = aset l i y.
Proof. apply list_insert_insert_eq. Qed.

Lemma u32_add a b : u32 (u32 a + b) = u32 (a + b).
Proof. unfold u32. apply Zplus_mod_idemp_l. Qed.

(** The image header of a block. *)
Lemma holds_hole x (image : bool) id c (Q : Z * Z → cursor → Prop) :
  placed x c → (x → seen c) →
  (∀ hole c', dec c' = dec c → datatotal c' = (if image then u32 (datatotal c + (BLCKSZ - snd hole)) else datatotal c) →
     (image = true → 0 ≤ snd hole) → placed x c' → ptr c ≤ ptr c' → Q hole c') →
  holds (if image then
            off ← DECODE_XLOG_ONE_ITEM record 2;
            hlen ← DECODE_XLOG_ONE_ITEM record 2;
            modify (add_total (BLCKSZ - hlen));;
            mret (off, hlen)
          else gets (λ c, (hole_offset (block_of (dec c) id), hole_length (block_of (dec c) id)))) c Q.
Proof.
  intros Hp Hx HQ. destruct image; [|by apply holds_gets, HQ].
  apply holds_bind, (holds_item x); [done|lia|done|]. intros v1 _ H1 _.
  apply holds_bind, (holds_item x); [done|lia|done|]. intros v2 Hv H2 _.
  apply holds_bind, holds_modify, holds_ret, HQ; try done; [intros _; cbn; lia| |cbn; lia].
  by eapply placed_same; [..|exact H2].
Qed.

Lemma holds_block block_id c (Q : unit → cursor → Prop) :
  BKID_GET_BKID block_id ≤ XLR_MAX_BLOCK_ID → scanned c → (∀ c', scanned c' → main_data_len (dec c') = main_data_len (dec c) → ptr c < ptr c' ≤ tot → Q tt c') →
  holds (decode_block record block_id) c Q.
Proof.
  intros Hid Hc HQ. unfold decode_block. set (id := BKID_GET_BKID block_id) in *. set (tde := has_bit block_id BKID_HAS_TDE_PAGE).
  assert (0 ≤ id) as Hid0 by (apply Z.land_nonneg; by right).
  apply holds_bind, holds_modify, holds_bind, holds_gets, holds_bind, holds_require.
  { destruct (sc_dec _ Hc); by split. }
  intros Hmx%Z.ltb_lt. cbn in Hmx.
  apply holds_bind, holds_modify. set (c2 := on_dec _ _).
  set (b0 := block_of (dec c) id). assert (reset_block b0 = b0) as Hb0 by by apply (do_beyond _ (sc_dec _ Hc)).
  assert (0 ≤ id < Z.of_nat (length (blocks (dec c)))) as Hin.
  { rewrite (do_length _ (sc_dec _ Hc)). unfold XLR_MAX_BLOCK_ID in *. lia. }
  assert (blocks (dec c2) = aset (blocks (dec c)) id (set_in_use b0)) as Hbl by done.
  assert (isTde (dec c2) = tde ∧ max_block_id (dec c2) = id ∧ main_data_len (dec c2) = main_data_len (dec c)) as (Htde & Hmax & Hmain) by done.
  assert (ptr c2 = ptr c ∧ remaining c2 = remaining c ∧ datatotal c2 = datatotal c) as (Ep & Er & Ed) by done. clearbody c2.
  assert (∀ d b, blocks d = aset (blocks (dec c)) id b → max_block_id d = id → decoder_ok d) as Hstored.
  { intros d b Eb Em. split.
    - rewrite Eb. unfold aset. rewrite length_insert. apply (sc_dec _ Hc).
    - rewrite Em. unfold XLR_MAX_BLOCK_ID in *. lia.
    - rewrite Em. intros id' Hid'. unfold block_of. rewrite Eb, aget_aset_ne by lia. apply (do_beyond _ (sc_dec _ Hc)). lia. }
  set (x := has_tde (dec c)). assert (placed x c2) as Hp2.
  { apply (placed_same _ c); [done..| |apply Hc]. intros _. by eapply Hstored. }
  assert (∀ c', dec c' = dec c2 → x → seen c') as Hseen.
  { intros c' E Hx. right. unfold has_tde. rewrite E. by apply (stored_tde (dec c) id (set_in_use b0)); [..|left]. }
  apply holds_bind, (holds_item x); [done|lia|by apply Hseen|]. intros fl _ Hp3 _.
  apply holds_bind, (holds_item x); [done|lia|by apply Hseen|]. intros len Hlen Hp4 _.
  apply holds_bind, holds_require; [apply Hp4|]. intros _. apply holds_bind, holds_require; [apply Hp4|]. intros Hdata.
  apply holds_bind, holds_modify. set (c4 := add_total len _).
  assert (dec c4 = dec c2 ∧ ptr c4 = ptr c + 3 ∧ datatotal c4 = u32 (datatotal c + len)) as (D4 & P4 & T4)
    by (subst c4; cbn; rewrite Ed, Ep; split_and!; [done|lia|done]).
  assert (placed x c4) as Hp4' by by apply (placed_same _ _ c4) in Hp4. clearbody c4.
  set (image := has_bit fl BKPBLOCK_HAS_IMAGE) in *. set (hasdata := has_bit fl BKPBLOCK_HAS_DATA) in *.
  apply holds_bind, (holds_hole x); [done|by apply Hseen|]. intros hole c5 D5 T5 Hhole Hp5 P5.
  apply holds_bind, (holds_relation x); [done|apply Hseen; congruence|intros Ht; by rewrite D5, D4, Htde|].
  intros r e tp c6 D6 T6 Htp Hp6 P6.
  assert (∀ c', dec c' = dec c2 → x ∨ tp ≠ None → seen c') as Hseen6.
  { intros c' E [Hx|Ht]; [by apply Hseen|]. left. rewrite E, <- D4, <- D5. by apply Htp. }
  apply holds_bind, (holds_item (x ∨ tp ≠ None)); [done|lia|apply Hseen6; congruence|]. intros num _ Hp7 _.
  apply holds_bind, (holds_location (x ∨ tp ≠ None)); [done|apply Hseen6; cbn; congruence|]. intros loc c8 D8 T8 Hp8 P8.
  apply holds_bind, (holds_item (x ∨ tp ≠ None)); [done|lia|apply Hseen6; cbn in *; congruence|]. intros lsn _ Hp9 Hend.
  apply holds_modify. set (B := fill_block r fl num loc hole len lsn e tp (set_in_use b0)). set (c9 := on_dec _ _). cbn in D8, T8, P8.
  assert (dec c8 = dec c2) as E8 by congruence.
  assert (blocks (dec c9) = aset (blocks (dec c)) id B) as HB.
  { subst c9. cbn [on_dec dec set_block blocks with_blocks at_ptr]. rewrite E8, Hbl. unfold block_of. rewrite Hbl, aget_aset_eq by done.
    apply aset_aset. }
  apply HQ; [|change (main_data_len (dec c9)) with (main_data_len (dec c8)); by rewrite E8|subst c9; cbn; lia]. split.
  - destruct Hp9 as [H1 H2 H3 _]. split; [done..| |].
    + destruct H3 as [H3|H3]; [left|by right]. unfold has_tde. by apply (stored_tde (dec c) id B).
    + eapply Hstored; [exact HB|]. change (max_block_id (dec c9)) with (max_block_id (dec c8)). by rewrite E8, Hmax.
  - rewrite HB. apply stored_bounded; [apply Hc|]. split; cbn; [by intros _|]. intros _ _. change (256 ^ 2) with (2 ^ 16) in Hlen. done.
  - rewrite HB, stored_sum by done. change (datatotal c9) with (datatotal c8). change (main_data_len (dec c9)) with (main_data_len (dec c8)).
    rewrite E8, Hmain, T8, T6, T5, T4, (sc_total _ Hc).
    assert (block_len B = (if image then BLCKSZ - snd hole else 0) + len) as ->.
    { unfold block_len, B. cbn. fold image hasdata. destruct hasdata; [done|]. cbn in Hdata. destruct (Z.eqb_spec len 0); [by subst|done]. }
    destruct image; [rewrite u32_add, <- Z.add_assoc|]; rewrite u32_add; f_equal; lia.
  - change (main_data_len (dec c9)) with (main_data_len (dec c8)). rewrite E8, Hmain. apply Hc.
Qed.

Lemma scanned_main c len : 0 ≤ len → scanned c → main_data_len (dec c) = 0 → scanned (add_total len (on_dec (λ d, with_main (main_data d) len d) c)).
Proof.
  intros Hlen [H1 H2 H3 _] H0. split; try done.
  - apply (placed_same _ c); [done..| |done]. intros [? ? ?]. by split.
  - cbn [add_total on_dec datatotal dec blocks with_main main_data_len]. rewrite H3, H0, u32_add. f_equal. lia.
Qed.

(** One header: it takes at least one byte. Before the last, no main data are known. *)
Lemma holds_header c (Q : bool → cursor → Prop) :
  scanned c → main_data_len (dec c) = 0 →
  (∀ last c', scanned c' → (last = false → main_data_len (dec c') = 0) → ptr c < ptr c' ≤ tot → Q last c') →
  holds (decode_header record) c Q.
Proof.
  intros Hc H0 HQ. unfold decode_header. set (x := has_tde (dec c)).
  assert (∀ c', dec c' = dec c → x → seen c') as Hseen by (intros c' E Hx; right; unfold has_tde; by rewrite E).
  assert (∀ p r, placed x (at_ptr p r c) → scanned (at_ptr p r c)) as Hat by (intros p r Hp; destruct Hc; by split).
  apply holds_bind, (holds_item x); [apply Hc|lia|by apply Hseen|]. intros id _ Hp1 Hle.
  apply Hat in Hp1. set (c1 := at_ptr _ _ c) in *.
  assert (∀ p r, placed x (at_ptr p r c1) → scanned (at_ptr p r c1)) as Hat1 by (intros p r; apply Hat).
  assert (∀ n, 0 ≤ n → holds (DECODE_XLOG_ONE_ITEM record n) c1 (λ v c', 0 ≤ v ∧ c' = at_ptr (ptr c1 + n) (remaining c1 - n) c1 ∧ scanned c' ∧ ptr c1 + n ≤ tot))
    as Hitem by (intros n Hn; apply (holds_item x); [apply Hp1|done|by apply Hseen|]; intros v [Hv _] Hpl Hin; auto).
  assert (ptr c1 = ptr c + 1) as Hp by done.
  case_bool; [|case_bool; [|case_bool; [|case_bool; [|apply holds_fail, sc_dec, Hp1]]]].
  - eapply holds_bind, decode_holds_mono; [by apply Hitem|]. intros len c2 (Hlen & -> & Hs & Ht).
    apply holds_bind, holds_modify, holds_bind, holds_modify, holds_ret, HQ; [by apply scanned_main|done|cbn in *; lia].
  - eapply holds_bind, decode_holds_mono; [by apply Hitem|]. intros len c2 (Hlen & -> & Hs & Ht).
    apply holds_bind, holds_modify, holds_bind, holds_modify, holds_ret, HQ; [by apply scanned_main|done|cbn in *; lia].
  - eapply holds_bind, decode_holds_mono; [by apply Hitem|]. intros o c2 (_ & -> & Hs & Ht).
    apply holds_bind, holds_modify, holds_ret, HQ; [|done|cbn in *; lia].
    destruct Hs as [H1 H2 H3 H4]. split; try done. refine (placed_same _ _ _ _ _ _ H1); [done..|]. intros [? ? ?]. by split.
  - bool_to_prop. eapply holds_bind, decode_holds_mono; [apply (holds_block id c1 (λ _ c', scanned c' ∧ main_data_len (dec c') = 0 ∧ ptr c1 < ptr c' ≤ tot));
      [done|done|]; intros c' Hs Hm; by rewrite Hm|].
    intros ? c2 (Hs & Hm & Ht). apply holds_ret, HQ; [done..|lia].
Qed.

Lemma holds_headers fuel c :
  scanned c → main_data_len (dec c) = 0 → ptr c ≤ tot → tot - ptr c < Z.of_nat fuel →
  holds (decode_headers record fuel) c (λ _ c', scanned c' ∧ ptr c ≤ ptr c').
Proof.
  revert c. induction fuel as [|fuel IH]; intros c Hc H0 Hp Hf; [lia|]. cbn [decode_headers].
  apply holds_bind, holds_gets. case_bool; [|by apply holds_skip].
  apply holds_bind, holds_header; [done..|]. intros last c' Hc' Hl Hp'. destruct last; [apply holds_skip; split; [done|lia]|].
  eapply decode_holds_mono; [apply IH; [done|by apply Hl|lia..]|]. intros ? c2 [Hc2 Hp2]. split; [done|lia].
Qed.

(** *** The data *)

(** What placing leaves of a block: all but the two pointers. *)
Definition same_block (b b' : DecodedBkpBlock) : Prop :=
  in_use b' = in_use b ∧ has_image b' = has_image b ∧ hole_length b' = hole_length b ∧ has_data b' = has_data b ∧
  data_len b' = data_len b ∧ tdeinfo b' = tdeinfo b.

#[local] Instance same_block_trans : Transitive same_block.
Proof. intros x y z (E1 & E2 & E3 & E4 & E5 & E6) (F1 & F2 & F3 & F4 & F5 & F6). repeat split; congruence. Qed.

Lemma same_block_refl l : Forall2 same_block l l.
Proof. by apply Forall_Forall2_diag, Forall_true. Qed.

(** No block has an image with a hole larger than a page. *)
Definition holes_ok (l : list DecodedBkpBlock) : Prop :=
  Forall (λ b, in_use b = true → has_image b = true → hole_length b ≤ BLCKSZ) l.

(** One block. *)
Lemma holds_place_block id c (Q : unit → cursor → Prop) :
  0 ≤ id < Z.of_nat (length (blocks (dec c))) →
  (∀ c' b', dec c' = set_block id (λ _, b') (dec c) → same_block (block_of (dec c) id) b' →
     ptr c' = ptr c + block_len (block_of (dec c) id) →
     (block_bounded (block_of (dec c) id) → (in_use (block_of (dec c) id) = true → has_image (block_of (dec c) id) = true → hole_length (block_of (dec c) id) ≤ BLCKSZ) →
      tiles (ptr c) (block_fragments b') (ptr c')) → Q tt c') →
  holds (place_block id) c Q.
Proof.
  intros Hid HQ. unfold place_block. apply holds_bind, holds_gets. set (b := block_of (dec c) id) in *.
  destruct (in_use b) eqn:Hu.
  - apply holds_bind, holds_gets, holds_bind, holds_modify, holds_modify.
    eapply HQ; [done|by repeat split| |].
    + unfold block_len. cbn. rewrite Hu. destruct (has_image b), (has_data b); lia.
    + intros [_ Hb] Hh. unfold block_fragments. cbn. fold b. rewrite Hu in *. specialize (Hb eq_refl).
      destruct (has_image b), (has_data b); cbn;
        try specialize (Hh eq_refl eq_refl); try specialize (Hb eq_refl); repeat apply conj; lia.
  - apply holds_skip, (HQ c b).
    + destruct c as [? ? ? ? d ?]. cbn. unfold set_block, aset, with_blocks. cbn in *. rewrite list_insert_id by by apply block_lookup. by destruct d.
    + by repeat split.
    + unfold block_len. rewrite Hu. lia.
    + intros _ _. unfold block_fragments. by rewrite Hu.
Qed.

(** The blocks from [i] on: those before are placed from [h] to the cursor. *)
Lemma holds_place_all (P : Prop) h n : ∀ i c (Q : unit → cursor → Prop),
  (i + n ≤ length (blocks (dec c)))%nat →
  (P → Forall block_bounded (blocks (dec c))) → (P → holes_ok (blocks (dec c))) →
  (P → tiles h (concat (block_fragments <$> take i (blocks (dec c)))) (ptr c)) →
  (∀ c', main_data_len (dec c') = main_data_len (dec c) → max_block_id (dec c') = max_block_id (dec c) →
     Forall2 same_block (blocks (dec c)) (blocks (dec c')) →
     drop (i + n) (blocks (dec c')) = drop (i + n) (blocks (dec c)) →
     ptr c' = ptr c + sum_len (take n (drop i (blocks (dec c)))) →
     (P → tiles h (concat (block_fragments <$> take (i + n) (blocks (dec c')))) (ptr c')) → Q tt c') →
  holds (for_each place_block (seqZ (Z.of_nat i) (Z.of_nat n))) c Q.
Proof.
  induction n as [|n IH]; intros i c Q Hi Hb Hh Ht HQ.
  { change (seqZ (Z.of_nat i) (Z.of_nat 0)) with (@nil Z). apply holds_skip.
    rewrite Nat.add_0_r in HQ. apply HQ; try done; [apply same_block_refl|].
    rewrite take_0. change (sum_len []) with 0. lia. }
  rewrite seqZ_cons by lia. replace (Z.pred (Z.of_nat (S n))) with (Z.of_nat n) by lia.
  replace (Z.succ (Z.of_nat i)) with (Z.of_nat (S i)) by lia. cbn [for_each].
  assert (0 ≤ Z.of_nat i < Z.of_nat (length (blocks (dec c)))) as Hid by lia. pose proof (block_lookup _ _ Hid) as Hl.
  rewrite Nat2Z.id in Hl. apply holds_bind, holds_place_block; [done|]. set (b := block_of _ _) in *. intros c1 b' Hd Hsame Hp Htile.
  assert (blocks (dec c1) = <[i := b']> (blocks (dec c))) as Hbl by (rewrite Hd; cbn; unfold aset; by rewrite Nat2Z.id).
  assert (main_data_len (dec c1) = main_data_len (dec c) ∧ max_block_id (dec c1) = max_block_id (dec c)) as [Hm1 Hm2] by by rewrite Hd.
  assert (i < length (blocks (dec c)))%nat as Hlt by lia. pose proof Hsame as (S1 & S2 & S3 & S4 & S5 & _).
  assert (P → tiles (ptr c) (block_fragments b') (ptr c1)) as Htile'.
  { intros HP. apply Htile; [by apply (Forall_lookup_1 _ _ _ _ (Hb HP) Hl)|].
    by apply (Forall_lookup_1 (λ b, in_use b = true → has_image b = true → hole_length b ≤ BLCKSZ) _ _ _ (Hh HP) Hl). }
  apply IH.
  - rewrite Hbl, length_insert. lia.
  - intros HP. rewrite Hbl. pose proof (Forall_lookup_1 _ _ _ _ (Hb HP) Hl) as Hbb. apply Forall_insert; [by apply Hb|].
    unfold block_bounded in *. by rewrite S1, S2, S3, S4, S5.
  - intros HP. rewrite Hbl. pose proof (Forall_lookup_1 _ _ _ _ (Hh HP) Hl) as Hbb. apply Forall_insert; [by apply Hh|]. by rewrite S1, S2, S3.
  - intros HP. rewrite Hbl, (take_S_r _ _ b') by (by apply list_lookup_insert_eq). rewrite take_insert_ge by lia.
    rewrite fmap_app, concat_app. eapply tiles_app; [by apply Ht|]. cbn. rewrite app_nil_r. by apply Htile'.
  - intros c2 M1 M2 Hs Hdr Hp2 Ht2. replace (S i + n)%nat with (i + S n)%nat in * by lia. apply HQ; [congruence|congruence| | | |done].
    + etrans; [|exact Hs]. rewrite Hbl, <- (list_insert_id (blocks (dec c)) i b Hl) at 1. by apply Forall2_insert; [apply same_block_refl|].
    + rewrite Hdr, Hbl. apply drop_insert_lt. lia.
    + rewrite Hp2, Hp, Hbl. rewrite (drop_S _ b i Hl). cbn [take]. rewrite drop_insert_lt, sum_len_cons by lia. lia.
Qed.

Lemma sum_len_app l l' : sum_len (l ++ l') = sum_len l + sum_len l'.
Proof. induction l as [|b l IH]; [done|]. rewrite <- app_comm_cons, !sum_len_cons. lia. Qed.

Lemma sum_len_same l l' : Forall2 same_block l l' → sum_len l' = sum_len l.
Proof.
  induction 1 as [|b b' l l' (E1 & E2 & E3 & E4 & E5 & _) _ IH]; [done|]. rewrite !sum_len_cons, IH. f_equal. unfold block_len. by rewrite E1, E2, E3, E4, E5.
Qed.

Lemma sum_len_range l : Forall block_bounded l → holes_ok l → 0 ≤ sum_len l ≤ Z.of_nat (length l) * 73728.
Proof.
  induction l as [|b l IH]; intros Hb Hh; [cbn; lia|]. apply Forall_cons in Hb as [[Hb1 Hb2] Hb]. apply Forall_cons in Hh as [Hh1 Hh].
  specialize (IH Hb Hh). rewrite sum_len_cons. cbn [length]. unfold block_len, BLCKSZ in *.
  destruct (in_use b); [|lia]. specialize (Hb1 eq_refl). specialize (Hb2 eq_refl). specialize (Hh1 eq_refl).
  destruct (has_image b); [specialize (Hb1 eq_refl); specialize (Hh1 eq_refl)|];
    (destruct (has_data b); [specialize (Hb2 eq_refl)|]); lia.
Qed.

Lemma unused_fragments l : Forall (λ b, in_use b = false) l → concat (block_fragments <$> l) = [] ∧ sum_len l = 0.
Proof.
  induction 1 as [|b l Hb _ [IH1 IH2]]; [done|]. rewrite fmap_cons, sum_len_cons. cbn [concat]. rewrite IH1, IH2.
  unfold block_fragments, block_len. by rewrite Hb.
Qed.

(** After the headers: the blocks and the main data are placed one after the other. *)
Lemma holds_data c (Q : unit → cursor → Prop) :
  scanned c →
  (∀ c', decoder_ok (dec c') → Forall2 same_block (blocks (dec c)) (blocks (dec c')) →
     main_data_len (dec c') = main_data_len (dec c) →
     (holes_ok (blocks (dec c)) → 0 ≤ main_data_len (dec c) → tiles (ptr c) (fragments (dec c')) (ptr c + sum_len (blocks (dec c)) + main_data_len (dec c))) → Q tt c') →
  holds (for_each place_block (seqZ 0 (max_block_id (dec c) + 1));; place_main;; modify (on_dec (with_decoded true true))) c Q.
Proof.
  intros Hc HQ. pose proof (do_max _ (sc_dec _ Hc)) as Hmx. set (n := Z.to_nat (max_block_id (dec c) + 1)).
  replace (seqZ 0 (max_block_id (dec c) + 1)) with (seqZ (Z.of_nat 0) (Z.of_nat n)) by (f_equal; unfold n; lia).
  apply holds_bind, (holds_place_all (holes_ok (blocks (dec c))) (ptr c)); [|intros _; apply Hc|done|done|].
  { rewrite (do_length _ (sc_dec _ Hc)). unfold n. lia. }
  intros c1 Hm1 Hx1 Hs1 Hd1 Hp1 Ht1. cbn [Nat.add] in *. rewrite drop_0 in Hp1.
  assert (Forall (λ b, in_use b = false) (drop n (blocks (dec c)))) as Hrest.
  { apply Forall_lookup. intros j b Hj. rewrite lookup_drop in Hj. pose proof (lookup_lt_Some _ _ _ Hj) as Hlt.
    assert (b = block_of (dec c) (Z.of_nat (n + j))) as ->.
    { assert (0 ≤ Z.of_nat (n + j) < Z.of_nat (length (blocks (dec c)))) as Hr by lia. pose proof (block_lookup _ _ Hr) as Hl.
      rewrite Nat2Z.id in Hl. congruence. }
    apply (reset_len _ (do_beyond _ (sc_dec _ Hc) (Z.of_nat (n + j)) ltac:(unfold n; lia))). }
  destruct (unused_fragments _ Hrest) as [Hf0 Hs0].
  assert (ptr c1 = ptr c + sum_len (blocks (dec c))) as Hp1'.
  { pose proof (sum_len_app (take n (blocks (dec c))) (drop n (blocks (dec c)))) as Hsum. rewrite take_drop in Hsum. lia. }
  assert (holes_ok (blocks (dec c)) → tiles (ptr c) (concat (block_fragments <$> blocks (dec c1))) (ptr c1)) as Htile.
  { intros Hh. rewrite <- (take_drop n (blocks (dec c1))). rewrite fmap_app, concat_app, Hd1, Hf0, app_nil_r. by apply Ht1. }
  assert (decoder_ok (dec c1)) as Hok1.
  { split; [rewrite <- (do_length _ (sc_dec _ Hc)); symmetry; by eapply Forall2_length|by rewrite Hx1|]. intros id Hid. rewrite Hx1 in Hid.
    assert (block_of (dec c1) id = block_of (dec c) id) as ->; [|by apply Hc]. unfold block_of, aget. f_equal.
    replace (Z.to_nat id) with (n + (Z.to_nat id - n))%nat by (unfold n; lia). by rewrite <- !lookup_drop, Hd1. }
  apply holds_bind, holds_modify, holds_modify. destruct (Z.ltb_spec 0 (main_data_len (dec c1))) as [Hl|Hl]; apply HQ.
  - destruct Hok1; by split.
  - done.
  - cbn. done.
  - intros Hh _. unfold fragments. cbn. rewrite (proj2 (Z.ltb_lt _ _) Hl). eapply tiles_app; [by apply Htile|]. cbn. rewrite Hp1', Hm1 in *. split_and!; lia.
  - destruct Hok1; by split.
  - done.
  - cbn. done.
  - intros Hh H0. unfold fragments. cbn. rewrite (proj2 (Z.ltb_ge _ _) Hl). rewrite app_nil_r. rewrite Hm1 in Hl.
    replace (ptr c + sum_len (blocks (dec c)) + main_data_len (dec c)) with (ptr c1) by lia. by apply Htile.
Qed.

(** After the reset every block is as one that was never in use. *)
Lemma reset_fold ids : ∀ bs j,
  (∀ id, id ∈ ids → 0 ≤ id < Z.of_nat (length bs)) → 0 ≤ j →
  let bs' := fold_left (λ bs id, aset bs id (reset_block (aget no_block bs id))) ids bs in
  length bs' = length bs ∧
  (j ∈ ids ∨ reset_block (aget no_block bs j) = aget no_block bs j → reset_block (aget no_block bs' j) = aget no_block bs' j).
Proof.
  induction ids as [|id ids IH]; intros bs j Hids Hj; cbn [fold_left]; cbv zeta.
  { split; [done|]. by intros [?%elem_of_nil|?]. }
  assert (0 ≤ id < Z.of_nat (length bs)) as Hid by (apply Hids; left). set (bs1 := aset bs id _).
  assert (length bs1 = length bs) as Hl by apply length_insert.
  destruct (IH bs1 j) as [IH1 IH2]; [intros id' ?; rewrite Hl; apply Hids; by right|done|]. split; [by rewrite IH1|].
  intros Hc. apply IH2. destruct (decide (j = id)) as [->|Hne]; [right; unfold bs1; by rewrite aget_aset_eq|].
  destruct Hc as [[->|Hin]%elem_of_cons|Hc]; [done|by left|right]. unfold bs1. rewrite aget_aset_ne by lia. done.
Qed.

Lemma reset_decoder d : decoder_ok d →
  length (blocks (ResetDecoder d)) = Z.to_nat (XLR_MAX_BLOCK_ID + 1) ∧
  ∀ j, 0 ≤ j → reset_block (block_of (ResetDecoder d) j) = block_of (ResetDecoder d) j.
Proof.
  intros [Hl Hm Hb]. assert (∀ id, id ∈ seqZ 0 (max_block_id d + 1) → 0 ≤ id < Z.of_nat (length (blocks d))) as Hids.
  { intros id Hid%elem_of_seqZ. rewrite Hl. unfold XLR_MAX_BLOCK_ID in *. lia. }
  split; [destruct (reset_fold _ (blocks d) 0 Hids ltac:(lia)) as [Hf _]; by rewrite <- Hl|].
  intros j Hj. apply (reset_fold _ (blocks d) j Hids Hj). destruct (decide (j ≤ max_block_id d)); [left; apply elem_of_seqZ; lia|right].
  apply Hb. lia.
Qed.

Lemma fresh_blocks bs : Forall (λ b, reset_block b = b) bs → Forall block_bounded bs ∧ sum_len bs = 0 ∧ ¬ ∃ b, b ∈ bs ∧ tdeinfo b ≠ None.
Proof.
  intros Hf. split_and!.
  - eapply Forall_impl; [exact Hf|]. intros b Hb. destruct (reset_len _ Hb) as (_ & Hu & _). unfold block_bounded. by rewrite Hu.
  - induction Hf as [|b bs Hb _ IH]; [done|]. rewrite sum_len_cons, IH. destruct (reset_len _ Hb) as [-> _]. done.
  - intros (b & Hb & Ht). rewrite Forall_forall in Hf. by destruct (reset_len _ (Hf b Hb)) as (_ & _ & _ & _ & ?).
Qed.

Lemma start_scanned d : decoder_ok d → le_value (take 4 record) = tot → SizeOfXLogRecord ≤ tot → scanned (decode_start record d).
Proof.
  intros Hd Hlen Hmin. destruct (reset_decoder d Hd) as [Hl Hr]. pose proof (Z.mod_small (tot - SizeOfXLogRecord) (2 ^ 32)) as Hsm.
  assert (remaining (decode_start record d) = tot - SizeOfXLogRecord) as Hrem.
  { cbn [decode_start remaining]. unfold u32. rewrite Hlen. apply Hsm. unfold SizeOfXLogRecord in *. lia. }
  assert (Forall (λ b, reset_block b = b) (blocks (ResetDecoder d))) as Hf.
  { apply Forall_lookup. intros i b Hi. pose proof (Hr (Z.of_nat i) ltac:(lia)) as Hb. unfold block_of, aget in Hb.
    rewrite Nat2Z.id, Hi in Hb. exact Hb. }
  destruct (fresh_blocks _ Hf) as (Hb & Hs & _). split.
  - split; [done|rewrite Hrem; unfold SizeOfXLogRecord in *; lia|right; rewrite Hrem; cbn; lia|]. split; [exact Hl|cbn; unfold XLR_MAX_BLOCK_ID; lia|].
    intros id Hid. apply Hr. cbn in Hid. lia.
  - exact Hb.
  - cbn [decode_start datatotal dec]. change (blocks _) with (blocks (ResetDecoder d)). rewrite Hs. done.
  - done.
Qed.

(** The whole decoder, from a decoder between two records. *)
Lemma holds_decode d :
  decoder_ok d → le_value (take 4 record) = tot → SizeOfXLogRecord ≤ tot →
  holds (decode_all record) (decode_start record d) (λ _ c', decoder_ok (dec c') ∧
    (holes_ok (blocks (dec c')) → ¬ has_tde (dec c') → main_data_len (dec c') < 2 ^ 31 →
     ∃ h, SizeOfXLogRecord ≤ h ∧ tiles h (fragments (dec c')) tot)).
Proof.
  intros Hd Hlen Hmin. pose proof (start_scanned d Hd Hlen Hmin) as Hs0. unfold decode_all.
  assert (ptr (decode_start record d) = SizeOfXLogRecord ∧ main_data_len (dec (decode_start record d)) = 0) as [Hp0 Hm0] by done.
  eapply holds_bind, decode_holds_mono; [apply holds_headers; [done..|rewrite Hp0; lia|]|].
  { rewrite Hp0. unfold tot, SizeOfXLogRecord. lia. }
  intros ? c1 [Hc1 Hp1]. apply holds_bind, holds_gets, holds_bind, holds_gets, holds_bind, holds_require; [by apply sc_dec|]. intros Heq%Z.eqb_eq.
  apply holds_bind, holds_gets. apply holds_data; [done|]. intros c2 Hok2 Hs2 Hm2 Ht2. split; [done|]. intros Hh Htde Hmain.
  assert (holes_ok (blocks (dec c1))) as Hh1.
  { unfold holes_ok in *. clear -Hs2 Hh. induction Hs2 as [|b b' l l' (E1 & E2 & E3 & _) _ IH]; [done|].
    apply Forall_cons in Hh as [Hb Hh]. constructor; [by rewrite <- E1, <- E2, <- E3|by apply IH]. }
  assert (¬ has_tde (dec c1)) as Htde1.
  { intros (b & Hb & Ht). apply Htde. apply list_elem_of_lookup in Hb as [i Hi].
    destruct (Forall2_lookup_l _ _ _ _ _ Hs2 Hi) as (b' & Hi' & _ & _ & _ & _ & _ & E). exists b'.
    split; [by apply list_elem_of_lookup; exists i|by rewrite E]. }
  rewrite Hm2 in Hmain. pose proof (sc_main _ Hc1) as Hmain0. exists (ptr c1). split; [lia|]. specialize (Ht2 Hh1 ltac:(lia)).
  replace tot with (ptr c1 + sum_len (blocks (dec c1)) + main_data_len (dec c1)); [done|].
  destruct (sc_placed _ Hc1) as [_ Hrem [Hx|Hsum]]; [done|].
  pose proof (sum_len_range _ (sc_bounded _ Hc1) Hh1) as Hr. rewrite (do_length _ (sc_dec _ Hc1)) in Hr. unfold XLR_MAX_BLOCK_ID in Hr.
  rewrite (sc_total _ Hc1) in Heq. unfold u32 in Heq. rewrite Z.mod_small in Heq; lia.
Qed.

End Proofs.

(** ** Theorems *)

(** A record as the reader hands it over: bytes, with its own length in front. *)
Definition record_ok (record : list Z) : Prop :=
  Forall (λ b, 0 ≤ b < 256) record ∧ le_value (take 4 record) = Z.of_nat (length record) ∧
  SizeOfXLogRecord ≤ Z.of_nat (length record) < 2 ^ 32.

(** What the decoder does not check: the size of the hole of a page image, the length of
    the main data, and that the keys of an encrypted relation are there. *)
Definition lengths_sane (d : XLogDecoder) : Prop :=
  Forall (λ b, tdeinfo b = None ∧ (in_use b = true → has_image b = true → hole_length b ≤ BLCKSZ)) (blocks d) ∧ main_data_len d < 2 ^ 31.


#[global] Instance record_ok_dec record : Decision (record_ok record).
Proof. unfold record_ok. apply _. Defined.

(** ** Examples *)

(** A decidable proposition, by evaluation. *)
Ltac decided := apply (bool_decide_unpack _); vm_compute; exact I.

(** The header of a record of [n] bytes, without checksum, and the header of a block with
    the relation, whose data have [len] bytes. *)
Definition demo_header (n : Z) : list Z := le_bytes 4 n ++ replicate 28 0.
Definition demo_block (id fork_flags len : Z) : list Z :=
  [id; fork_flags] ++ le_bytes 2 len ++ replicate 12 1 ++ [0; 0] ++ le_bytes 4 7 ++ replicate 8 0.

(** Three bytes for block 7 of a relation, and two of main data. *)
Definition demo_decoded : list Z := demo_header 69 ++ demo_block 0 0x20 3 ++ [255; 2] ++ [10; 11; 12; 13; 14].

Lemma new_decoder_ok : decoder_ok new_decoder.
Proof.
  split; [done|cbn; unfold XLR_MAX_BLOCK_ID; lia|]. intros id _. unfold block_of, aget, new_decoder. cbn [blocks].
  destruct (_ !! _) eqn:E; [|done]. by apply lookup_replicate in E as [-> _].
Qed.


(** Where the lengths are not checked. *)
Definition tde_record : list Z := demo_header 50 ++ take 18 (demo_block 0x40 0 0).
Definition hole_record : list Z :=
  demo_header 9082 ++ demo_block 0 0x20 9000 ++ ([1; 0x90] ++ le_bytes 2 0 ++ le_bytes 2 0 ++ le_bytes 2 9192 ++ le_bytes 4 8 ++ replicate 8 0)
  ++ concat (replicate 200 [253; 0; 0; 0; 0]) ++ replicate (Z.to_nat 8000) 0.
Definition main_record : list Z := demo_header 165 ++ demo_block 0 0x20 100 ++ 254 :: le_bytes 4 (2 ^ 32 - 2) ++ replicate 98 0.

(** A piece of the decoded record lies outside of it. *)
Definition escapes (record : list Z) (d : XLogDecoder) : bool :=
  existsb (λ f, Z.of_nat (length record) <? fst f + snd f) (fragments d).

(** The decoder does not check three lengths. There are records of bytes, with their
    length in front, such that it reads outside of the record, skipping the keys of an
    encrypted relation that are not there, and such that it accepts the record and says
    that data of a block lie outside of it: when the hole of a page image is larger than a
    page, and when the length of the main data overflows the total. *)
Theorem decode_unchecked :
  (record_ok tde_record ∧ (DecodeXLogRecord tde_record new_decoder).1 = Ereport PANIC) ∧
  (record_ok hole_record ∧ ∃ d, runs (DecodeXLogRecord hole_record) new_decoder None d ∧ escapes hole_record d = true) ∧
  (record_ok main_record ∧ ∃ d, runs (DecodeXLogRecord main_record) new_decoder None d ∧ escapes main_record d = true).
Proof.
  split; [|split].
  - split; [decided|vm_compute; reflexivity].
  - split; [decided|]. exists (DecodeXLogRecord hole_record new_decoder).2. split; vm_compute; reflexivity.
  - split; [decided|]. exists (DecodeXLogRecord main_record new_decoder).2. split; vm_compute; reflexivity.
Qed.
