(* ===== verification/XLogReader.v ===== *)
(** * Reading the write-ahead log

    [XLogReadRecord] of [src/gausskernel/storage/access/transam/xlogreader.cpp] and what it
    calls: read the page of a position, check its header, put a record that crosses pages
    together, check its header and checksum, and decode it ([XLogDecode.v]) if the caller
    asks for that. Recovery reads the log with it.

    The [read_page] callback belongs to the caller of the reader and is a parameter, as is
    the memory allocator. [Ereport] stands for the jump to the label [err]; the message is
    in the state. *)

From S2P Require Import Prelude FsmPage XLogDefs XLogDecode.
From stdpp Require Import list.

Open Scope Z_scope.

Definition InvalidXLogRecPtr : Z := 0.

(** What [report_invalid_record] says. *)
Inductive read_error : Type :=
| InvalidMagic
| InvalidInfoBits
| WrongSystem
| WrongSegSize
| WrongBlockSize
| WrongPageaddr
| OutOfSequenceTli
| ReadPageFailed
| InvalidRecordOffset
| ContrecordRequested
| InvalidRecordLength
| InvalidRmid
| IncorrectPrevLink
| RecordTooLong
| NoContrecordFlag
| InvalidContrecordLength
| IncorrectChecksum
| DecodeError (e : decode_error).

Record XLogReaderState := {
  ReadRecPtr : Z;
  EndRecPtr : Z;
  currRecPtr : Z;
  readBuf : xlog_page;
  readSegNo : Z;
  readOff : Z;
  readLen : Z;
  latestPagePtr : Z;
  latestPageTLI : Z;
  readRecordBuf : list Z;
  readRecordBufSize : Z;
  errormsg : option read_error;
  decoder : XLogDecoder }.

(** [read_page] gives the number of bytes it has read and the buffer; [None] is a negative
    number. [sysid] is [state->system_identifier]. *)
Class ReaderEnv := {
  read_page : Z → Z → option (Z * xlog_page);
  sysid : Z;
  palloc_ok : Z → bool }.

Section reader.
Context `{WalGeometry} `{WalEnv} `{ReaderEnv}.

Abbreviation R := (M XLogReaderState).

(** ** Updates of the state *)

Definition with_position (read end_ : Z) (s : XLogReaderState) : XLogReaderState :=
  {| ReadRecPtr := read; EndRecPtr := end_; currRecPtr := currRecPtr s; readBuf := readBuf s; readSegNo := readSegNo s; readOff := readOff s;
     readLen := readLen s; latestPagePtr := latestPagePtr s; latestPageTLI := latestPageTLI s; readRecordBuf := readRecordBuf s;
     readRecordBufSize := readRecordBufSize s; errormsg := errormsg s; decoder := decoder s |}.
Definition with_currRecPtr (p : Z) (s : XLogReaderState) : XLogReaderState :=
  {| ReadRecPtr := ReadRecPtr s; EndRecPtr := EndRecPtr s; currRecPtr := p; readBuf := readBuf s; readSegNo := readSegNo s; readOff := readOff s;
     readLen := readLen s; latestPagePtr := latestPagePtr s; latestPageTLI := latestPageTLI s; readRecordBuf := readRecordBuf s;
     readRecordBufSize := readRecordBufSize s; errormsg := errormsg s; decoder := decoder s |}.
Definition with_readBuf (pg : xlog_page) (s : XLogReaderState) : XLogReaderState :=
  {| ReadRecPtr := ReadRecPtr s; EndRecPtr := EndRecPtr s; currRecPtr := currRecPtr s; readBuf := pg; readSegNo := readSegNo s; readOff := readOff s;
     readLen := readLen s; latestPagePtr := latestPagePtr s; latestPageTLI := latestPageTLI s; readRecordBuf := readRecordBuf s;
     readRecordBufSize := readRecordBufSize s; errormsg := errormsg s; decoder := decoder s |}.
Definition with_read (seg off len : Z) (s : XLogReaderState) : XLogReaderState :=
  {| ReadRecPtr := ReadRecPtr s; EndRecPtr := EndRecPtr s; currRecPtr := currRecPtr s; readBuf := readBuf s; readSegNo := seg; readOff := off;
     readLen := len; latestPagePtr := latestPagePtr s; latestPageTLI := latestPageTLI s; readRecordBuf := readRecordBuf s;
     readRecordBufSize := readRecordBufSize s; errormsg := errormsg s; decoder := decoder s |}.
Definition with_latest (p tli : Z) (s : XLogReaderState) : XLogReaderState :=
  {| ReadRecPtr := ReadRecPtr s; EndRecPtr := EndRecPtr s; currRecPtr := currRecPtr s; readBuf := readBuf s; readSegNo := readSegNo s; readOff := readOff s;
     readLen := readLen s; latestPagePtr := p; latestPageTLI := tli; readRecordBuf := readRecordBuf s;
     readRecordBufSize := readRecordBufSize s; errormsg := errormsg s; decoder := decoder s |}.
Definition with_record (l : list Z) (s : XLogReaderState) : XLogReaderState :=
  {| ReadRecPtr := ReadRecPtr s; EndRecPtr := EndRecPtr s; currRecPtr := currRecPtr s; readBuf := readBuf s; readSegNo := readSegNo s; readOff := readOff s;
     readLen := readLen s; latestPagePtr := latestPagePtr s; latestPageTLI := latestPageTLI s; readRecordBuf := l;
     readRecordBufSize := readRecordBufSize s; errormsg := errormsg s; decoder := decoder s |}.
Definition with_recordbuf_size (n : Z) (s : XLogReaderState) : XLogReaderState :=
  {| ReadRecPtr := ReadRecPtr s; EndRecPtr := EndRecPtr s; currRecPtr := currRecPtr s; readBuf := readBuf s; readSegNo := readSegNo s; readOff := readOff s;
     readLen := readLen s; latestPagePtr := latestPagePtr s; latestPageTLI := latestPageTLI s; readRecordBuf := [];
     readRecordBufSize := n; errormsg := errormsg s; decoder := decoder s |}.
Definition with_message (e : option read_error) (s : XLogReaderState) : XLogReaderState :=
  {| ReadRecPtr := ReadRecPtr s; EndRecPtr := EndRecPtr s; currRecPtr := currRecPtr s; readBuf := readBuf s; readSegNo := readSegNo s; readOff := readOff s;
     readLen := readLen s; latestPagePtr := latestPagePtr s; latestPageTLI := latestPageTLI s; readRecordBuf := readRecordBuf s;
     readRecordBufSize := readRecordBufSize s; errormsg := e; decoder := decoder s |}.
Definition with_decoder (d : XLogDecoder) (s : XLogReaderState) : XLogReaderState :=
  {| ReadRecPtr := ReadRecPtr s; EndRecPtr := EndRecPtr s; currRecPtr := currRecPtr s; readBuf := readBuf s; readSegNo := readSegNo s; readOff := readOff s;
     readLen := readLen s; latestPagePtr := latestPagePtr s; latestPageTLI := latestPageTLI s; readRecordBuf := readRecordBuf s;
     readRecordBufSize := readRecordBufSize s; errormsg := errormsg s; decoder := d |}.

Definition XLogReaderInvalReadState (s : XLogReaderState) : XLogReaderState := with_read 0 0 0 s.

Definition report_invalid_record (e : read_error) : R unit := modify (with_message (Some e)).

(** [if (bad) { report; return false; }], and the same with [goto err]. *)
Definition reject (bad : bool) (e : read_error) (k : R bool) : R bool :=
  if bad then report_invalid_record e;; mret false else k.
Definition goto_err {A} : R A := raise ERROR.
Definition bail (bad : bool) (e : read_error) : R unit :=
  if bad then report_invalid_record e;; goto_err else skip.

(** ** Pages *)

Definition ValidXLogPageHeader (recptr : Z) (hdr : xlog_page) : R bool :=
  let offset := recptr mod XLogSegSize in
  let long := negb (Z.land (xlp_info hdr) XLP_LONG_HEADER =? 0) in
  reject (negb (xlp_magic hdr =? XLOG_PAGE_MAGIC)) InvalidMagic (
  reject (negb (Z.land (xlp_info hdr) (Z.lnot XLP_ALL_FLAGS) =? 0)) InvalidInfoBits (
  reject (long && negb (sysid =? 0) && negb (xlp_sysid hdr =? sysid)) WrongSystem (
  reject (long && negb (xlp_seg_size hdr =? XLogSegSize)) WrongSegSize (
  reject (long && negb (xlp_xlog_blcksz hdr =? XLOG_BLCKSZ)) WrongBlockSize (
  reject (negb long && (offset =? 0)) InvalidInfoBits (
  reject (negb (xlp_pageaddr hdr =? recptr)) WrongPageaddr (
  latest ← gets latestPagePtr;
  tli ← gets latestPageTLI;
  reject ((latest <? recptr) && (xlp_tli hdr <? tli)) OutOfSequenceTli (
  modify (with_latest recptr (xlp_tli hdr));;
  mret true)))))))).

(** The error exit of [ReadPageInternal]. *)
Definition read_page_err : R Z := modify XLogReaderInvalReadState;; mret (-1).

Definition ReadPageInternal (pageptr reqLen : Z) : R Z :=
  let targetSegNo := XLByteToSeg pageptr in
  let targetPageOff := pageptr mod XLogSegSize in
  seg ← gets readSegNo;
  off ← gets readOff;
  have ← gets readLen;
  if (targetSegNo =? seg) && (targetPageOff =? off) && (reqLen <? have) then mret have
  else
    match read_page pageptr (Z.max reqLen SizeOfXLogShortPHD) with
    | None => read_page_err
    | Some (len, pg) =>
        modify (with_readBuf pg);;
        if len <=? SizeOfXLogShortPHD then read_page_err
        else
          match (if len <? XLogPageHeaderSize pg then read_page pageptr (XLogPageHeaderSize pg) else Some (len, pg)) with
          | None => read_page_err
          | Some (len, pg) =>
              modify (with_readBuf pg);;
              valid ← ValidXLogPageHeader pageptr pg;
              if valid : bool then modify (with_read targetSegNo targetPageOff len);; mret len else read_page_err
          end
    end.

(** Bytes [off] to [off + n] of a page. *)
Definition page_bytes (pg : xlog_page) (off n : Z) : list Z := page_data pg <$> seqZ off n.

(** ** Records *)

(** Fields of a record header, at their offsets. *)
Definition get_tot_len (rec : list Z) : Z := le_value (take 4 rec).
Definition get_prev (rec : list Z) : Z := le_value (take 8 (drop 16 rec)).
Definition get_info (rec : list Z) : Z := le_value (take 1 (drop 24 rec)).
Definition get_rmid (rec : list Z) : Z := le_value (take 1 (drop 25 rec)).
Definition get_crc (rec : list Z) : Z := le_value (take 4 (drop 28 rec)).

Definition bad_length (total_len : Z) : bool := (total_len <? SizeOfXLogRecord) || (XLogRecordMaxSize <=? total_len).

Definition ValidXLogRecordHeader (RecPtr PrevRecPtr : Z) (rec : list Z) (randAccess : bool) : R bool :=
  reject (bad_length (get_tot_len rec)) InvalidRecordLength (
  reject (RM_MAX_ID <? get_rmid rec) InvalidRmid (
  reject (if randAccess then RecPtr <=? get_prev rec else negb (get_prev rec =? PrevRecPtr)) IncorrectPrevLink (
  mret true))).

Definition ValidXLogRecord (rec : list Z) : R bool :=
  let crc := COMP_CRC32C INIT_CRC32C (take (Z.to_nat (get_tot_len rec - SizeOfXLogRecord)) (drop (Z.to_nat SizeOfXLogRecord) rec)) in
  let crc := COMP_CRC32C crc (take 28 rec) in
  reject (negb (get_crc rec =? FIN_CRC32C crc)) IncorrectChecksum (mret true).

Definition allocate_recordbuf (reclength : Z) : R bool :=
  let newSize := reclength + (XLOG_BLCKSZ - reclength mod XLOG_BLCKSZ) in
  let newSize := Z.max newSize (5 * XLOG_BLCKSZ) in
  if palloc_ok newSize then modify (with_recordbuf_size newSize);; mret true
  else modify (with_recordbuf_size 0);; mret false.

Definition contrecord_flag (pg : xlog_page) : bool := negb (Z.land (xlp_info pg) XLP_FIRST_IS_CONTRECORD =? 0).

(** The loop that puts a record together: [gotlen] bytes are in the buffer. The result is the
    last page. *)
Fixpoint reassemble (fuel : nat) (RecPtr total_len targetPagePtr gotlen : Z) (gotheader randAccess : bool) : R Z :=
  match fuel with
  | O => nofuel
  | S fuel =>
      let targetPagePtr := targetPagePtr + XLOG_BLCKSZ in
      readOff ← ReadPageInternal targetPagePtr (Z.min (total_len - gotlen + SizeOfXLogShortPHD) XLOG_BLCKSZ);
      if readOff <? 0 then goto_err
      else
        pageHeader ← gets readBuf;
        bail (negb (contrecord_flag pageHeader)) NoContrecordFlag;;
        bail ((xlp_rem_len pageHeader =? 0) || negb (total_len =? xlp_rem_len pageHeader + gotlen)) InvalidContrecordLength;;
        let pageHeaderSize := XLogPageHeaderSize pageHeader in
        readOff ← (if readOff <? pageHeaderSize then ReadPageInternal targetPagePtr pageHeaderSize else mret readOff);
        pageHeader ← gets readBuf;
        let len := if xlp_rem_len pageHeader <? XLOG_BLCKSZ - pageHeaderSize then xlp_rem_len pageHeader else XLOG_BLCKSZ - pageHeaderSize in
        (if readOff <? pageHeaderSize + len then ReadPageInternal targetPagePtr (pageHeaderSize + len) else mret readOff);;
        contdata ← gets readBuf;
        buffer ← gets readRecordBuf;
        modify (with_record (buffer ++ page_bytes contdata pageHeaderSize len));;
        prev ← gets ReadRecPtr;
        record ← gets readRecordBuf;
        valid ← (if gotheader then mret true else ValidXLogRecordHeader RecPtr prev record randAccess);
        if negb valid then goto_err
        else if gotlen + len <? total_len then reassemble fuel RecPtr total_len targetPagePtr (gotlen + len) true randAccess
        else mret targetPagePtr
  end.

(** A page start is taken for the first record of the page. *)
Definition skip_page_header (RecPtr : Z) : Z :=
  if RecPtr mod XLogSegSize =? 0 then RecPtr + SizeOfXLogLongPHD
  else if RecPtr mod XLOG_BLCKSZ =? 0 then RecPtr + SizeOfXLogShortPHD
  else RecPtr.

(** The end of a switch record is that of its segment. *)
Definition switch_end (rec : list Z) : R unit :=
  if (get_rmid rec =? RM_XLOG_ID) && (get_info rec =? XLOG_SWITCH) then
    read ← gets ReadRecPtr;
    en ← gets EndRecPtr;
    let en := en + (XLogSegSize - 1) in
    modify (with_position read (en - en mod XLogSegSize))
  else skip.

Definition read_record (RecPtr : Z) : R (list Z) :=
  modify (with_message None);;
  modify (λ s, with_decoder (ResetDecoder (decoder s)) s);;
  last ← gets ReadRecPtr;
  lastEnd ← gets EndRecPtr;
  let randAccess := if RecPtr =? InvalidXLogRecPtr then last =? InvalidXLogRecPtr else true in
  let RecPtr := if RecPtr =? InvalidXLogRecPtr then skip_page_header lastEnd else RecPtr in
  modify (with_currRecPtr RecPtr);;
  let targetPagePtr := RecPtr - RecPtr mod XLOG_BLCKSZ in
  let targetRecOff := RecPtr mod XLOG_BLCKSZ in
  readOff ← ReadPageInternal targetPagePtr (Z.min (targetRecOff + SizeOfXLogRecord) XLOG_BLCKSZ);
  bail (readOff <? 0) ReadPageFailed;;
  page ← gets readBuf;
  let pageHeaderSize := XLogPageHeaderSize page in
  bail (negb (targetRecOff =? 0) && (targetRecOff <? pageHeaderSize)) InvalidRecordOffset;;
  let RecPtr := if targetRecOff =? 0 then RecPtr + pageHeaderSize else RecPtr in
  let targetRecOff := if targetRecOff =? 0 then pageHeaderSize else targetRecOff in
  bail (contrecord_flag page && (targetRecOff =? pageHeaderSize)) ContrecordRequested;;
  let total_len := le_value (page_bytes page targetRecOff 4) in
  let gotheader := targetRecOff <=? XLOG_BLCKSZ - SizeOfXLogRecord in
  valid ← (if gotheader then ValidXLogRecordHeader RecPtr last (page_bytes page targetRecOff SizeOfXLogRecord) randAccess
           else reject (bad_length total_len) InvalidRecordLength (mret true));
  if negb valid then goto_err
  else
    size ← gets readRecordBufSize;
    allocated ← (if size <? total_len then allocate_recordbuf total_len else mret true);
    bail (negb allocated) RecordTooLong;;
    let len := XLOG_BLCKSZ - RecPtr mod XLOG_BLCKSZ in
    (if len <? total_len then
       modify (with_record (page_bytes page targetRecOff len));;
       lastPage ← reassemble (Z.to_nat total_len) RecPtr total_len targetPagePtr len gotheader randAccess;
       record ← gets readRecordBuf;
       valid ← ValidXLogRecord record;
       if negb valid then goto_err
       else
         pageHeader ← gets readBuf;
         modify (with_position RecPtr (lastPage + (XLogPageHeaderSize pageHeader + MAXALIGN (xlp_rem_len pageHeader))))
     else
       readOff ← ReadPageInternal targetPagePtr (Z.min (targetRecOff + total_len) XLOG_BLCKSZ);
       if readOff <? 0 then goto_err
       else
         page ← gets readBuf;
         let record := page_bytes page targetRecOff total_len in
         valid ← ValidXLogRecord record;
         if negb valid then goto_err
         else
           modify (with_position RecPtr (RecPtr + MAXALIGN total_len));;
           modify (with_record record));;
    record ← gets readRecordBuf;
    switch_end record;;
    mret record.

(** The record, in the buffer of the reader, is decoded; an error of the decoder is returned
    without going through [err]. *)
Definition decode_read (record : list Z) : R (option (list Z)) := λ s,
  match DecodeXLogRecord record (decoder s) with
  | (Ok None, d) => (Ok (Some record), with_decoder d s)
  | (Ok (Some e), d) => (Ok None, with_message (Some (DecodeError e)) (with_decoder d s))
  | (Ereport l, d) => (Ereport l, with_decoder d s)
  | (NoFuel, d) => (NoFuel, with_decoder d s)
  end.

(** [None] is the null pointer. *)
Definition XLogReadRecord (doDecode : bool) (RecPtr : Z) : R (option (list Z)) := λ s,
  match read_record RecPtr s with
  | (Ok record, s) => if doDecode then decode_read record s else (Ok (Some record), s)
  | (Ereport _, s) => (Ok None, XLogReaderInvalReadState s)
  | (NoFuel, s) => (NoFuel, s)
  end.

(** Record after record, until one cannot be read: what recovery goes through, without the
    decoding. *)
Fixpoint read_records (n : nat) : R (list (list Z)) :=
  match n with
  | O => mret []
  | S n =>
      record ← XLogReadRecord false InvalidXLogRecPtr;
      match record with
      | None => mret []
      | Some record => rest ← read_records n; mret (record :: rest)
      end
  end.

(** The [read_page] callback of a running server, [read_local_xlog_page] of
    [src/gausskernel/storage/access/transam/xlogutils.cpp]: what is flushed can be read; for
    more it waits ([None]). *)
Definition read_local_xlog_page (read_upto : Z) (d : Z → Z → xlog_page) (targetPagePtr reqLen : Z) : option (Z * xlog_page) :=
  let loc := targetPagePtr + reqLen in
  let loc_page := targetPagePtr + XLOG_BLCKSZ in
  if negb (loc <=? read_upto) then None
  else
    let count := if loc_page <=? read_upto then XLOG_BLCKSZ else read_upto - targetPagePtr in
    Some (count, d (XLByteToSeg targetPagePtr) (targetPagePtr mod XLogSegSize)).

(** [XLogReaderAllocate], with the position to begin at. *)
Definition reader_at (p : Z) : XLogReaderState :=
  {| ReadRecPtr := InvalidXLogRecPtr; EndRecPtr := p; currRecPtr := 0;
     readBuf := {| xlp_magic := 0; xlp_info := 0; xlp_tli := 0; xlp_pageaddr := 0; xlp_rem_len := 0; xlp_sysid := 0; xlp_seg_size := 0;
                   xlp_xlog_blcksz := 0; page_data := λ _, 0 |};
     readSegNo := 0; readOff := 0; readLen := 0; latestPagePtr := 0; latestPageTLI := 0; readRecordBuf := []; readRecordBufSize := 5 * XLOG_BLCKSZ;
     errormsg := None; decoder := new_decoder |}.

End reader.
