(* ===== verification/XLogReadBack.v ===== *)
(** * Reading back what has been written

    A reader whose callback gives it the pages of the files, as far as they hold the log,
    gets the records that were inserted, byte by byte and in their order. *)

From S2P Require Import Prelude FsmPage XLogDefs XLogInsert XLogWriter XLogInv XLogPages XLogBackend XLogDump XLogReader.
From stdpp Require Import list.

Open Scope Z_scope.

(** ** Bytes and bits *)

Lemma le_value_bytes n v : 0 ≤ v < 256 ^ Z.of_nat n → le_value (le_bytes n v) = v.
Proof.
  revert v. induction n as [|n IH]; intros v Hv; cbn [le_bytes le_value]; [cbn in Hv; lia|].
  rewrite Nat2Z.inj_succ, Z.pow_succ_r in Hv by lia. rewrite IH; [zdiv|]. split; [zdiv|]. apply Z.div_lt_upper_bound; lia.
Qed.

Lemma land_bit_zero x i : 0 ≤ i → (Z.land x (2 ^ i) =? 0) = negb (Z.testbit x i).
Proof.
  intros Hi. destruct (Z.testbit x i) eqn:E; cbn.
  - apply Z.eqb_neq. intros H. apply (f_equal (λ z, Z.testbit z i)) in H. rewrite Z.land_spec, E, Z.pow2_bits_true, Z.bits_0 in H by done. done.
  - apply Z.eqb_eq, Z.bits_inj'. intros n Hn. rewrite Z.land_spec, Z.bits_0. destruct (decide (n = i)) as [->|]; [by rewrite E|].
    rewrite Z.pow2_bits_false by lia. apply andb_false_r.
Qed.

Lemma page_offset g x : 0 ≤ x < 8192 → (g * 8192 + x) mod 8192 = x.
Proof. intros. zdiv. Qed.

Lemma if_min a b : (if a <? b then a else b) = Z.min a b.
Proof. destruct (a <? b) eqn:E; bool_to_prop; lia. Qed.

Lemma long_bit x : (Z.land x XLP_LONG_HEADER =? 0) = negb (Z.testbit x 1).
Proof. by apply (land_bit_zero x 1). Qed.
Lemma cont_bit x : (Z.land x XLP_FIRST_IS_CONTRECORD =? 0) = negb (Z.testbit x 0).
Proof. by apply (land_bit_zero x 0). Qed.

(** ** Pages in the reader's buffer *)

(** The first [len] bytes of a page: the fields of a long header take part from 40. *)
Record same_upto (len : Z) (pg pg' : xlog_page) : Prop := {
  su_magic : xlp_magic pg = xlp_magic pg';
  su_info : xlp_info pg = xlp_info pg';
  su_tli : xlp_tli pg = xlp_tli pg';
  su_pageaddr : xlp_pageaddr pg = xlp_pageaddr pg';
  su_rem_len : xlp_rem_len pg = xlp_rem_len pg';
  su_long : SizeOfXLogLongPHD ≤ len → xlp_sysid pg = xlp_sysid pg' ∧ xlp_seg_size pg = xlp_seg_size pg' ∧ xlp_xlog_blcksz pg = xlp_xlog_blcksz pg';
  su_data : ∀ o, o < len → page_data pg o = page_data pg' o }.

(** ** Fields of a record *)

Lemma get_take n l : (32 ≤ n)%nat → get_tot_len (take n l) = get_tot_len l ∧ get_prev (take n l) = get_prev l ∧ get_rmid (take n l) = get_rmid l.
Proof.
  intros Hn. unfold get_tot_len, get_prev, get_rmid.
  rewrite !skipn_firstn_comm, !take_take, !Nat.min_l by lia. done.
Qed.

Lemma lxor_range a b : 0 ≤ a < 2 ^ 32 → 0 ≤ b < 2 ^ 32 → 0 ≤ Z.lxor a b < 2 ^ 32.
Proof.
  intros Ha Hb. assert (0 ≤ Z.lxor a b) as Hn by (apply Z.lxor_nonneg; lia). split; [done|].
  destruct (decide (Z.lxor a b = 0)) as [->|]; [done|]. apply Z.log2_lt_pow2; [lia|]. eapply Z.le_lt_trans; [apply Z.log2_lxor; lia|].
  apply Z.max_lub_lt; (destruct (decide (0 < a)); [|]); (destruct (decide (0 < b)); [|]);
    first [by apply Z.log2_lt_pow2; lia|rewrite Z.log2_nonpos by lia; done].
Qed.

Lemma record_prev `{WalEnv} prev q : 0 ≤ prev < 2 ^ 64 → get_prev (concat (record_chunks prev q)) = prev.
Proof. intros. unfold get_prev. change (take 8 (drop 16 _)) with (le_bytes 8 prev). apply le_value_bytes. lia. Qed.

Section fields.
Context `{WalGeometry} `{WalEnv} `{ReaderEnv}.
Hypothesis crc_range : ∀ c l, 0 ≤ COMP_CRC32C c l < 2 ^ 32.
Variables (prev : Z) (q : xlog_request).
Hypothesis Hq : request_ok q.
Hypothesis Hprev : 0 ≤ prev < 2 ^ 64.
Abbreviation bytes := (concat (record_chunks prev q)).
Abbreviation hdr := (finish_header prev q).

Lemma record_fields : get_tot_len bytes = xl_tot_len (rechdr q) ∧ get_prev bytes = prev ∧ get_rmid bytes = xl_rmid (rechdr q) ∧
  get_info bytes = xl_info (rechdr q) ∧ get_crc bytes = xl_crc hdr.
Proof.
  destruct Hq as (Hl & Hm & Hc & Hr & Hi & Hs). unfold get_tot_len, get_prev, get_rmid, get_info, get_crc. split_and!.
  - change (take 4 bytes) with (le_bytes 4 (xl_tot_len (rechdr q))). apply le_value_bytes. unfold SizeOfXLogRecord, XLogRecordMaxSize in *. lia.
  - by apply record_prev.
  - change (take 1 (drop 25 bytes)) with (le_bytes 1 (xl_rmid (rechdr q))). apply le_value_bytes. unfold RM_MAX_ID in *. lia.
  - change (take 1 (drop 24 bytes)) with (le_bytes 1 (xl_info (rechdr q))). apply le_value_bytes. lia.
  - change (take 4 (drop 28 bytes)) with (le_bytes 4 (xl_crc hdr)). apply le_value_bytes. change (256 ^ Z.of_nat 4) with (2 ^ 32). cbn [finish_header with_crc xl_crc].
    unfold FIN_CRC32C. apply lxor_range; [apply crc_range|lia].
Qed.

Lemma record_checksum s : runs (ValidXLogRecord bytes) s true s.
Proof.
  destruct record_fields as (Ht & _ & _ & _ & Hcrc). unfold ValidXLogRecord. rewrite Ht, Hcrc. destruct Hq as (Hl & Hm & Hc & _). rewrite Hl.
  replace (Z.to_nat (SizeOfXLogRecord + _ - SizeOfXLogRecord)) with (length (first_data q ++ concat (more_data q))) by lia.
  change (drop (Z.to_nat SizeOfXLogRecord) bytes) with (first_data q ++ concat (more_data q)). rewrite firstn_all.
  change (take 28 bytes) with (record_head (with_prev prev (rechdr q))). rewrite <- Hc.
  change (xl_crc hdr) with (FIN_CRC32C (COMP_CRC32C (xl_crc (rechdr q)) (record_head (with_prev prev (rechdr q))))). rewrite Z.eqb_refl. done.
Qed.

Lemma record_no_switch s : runs (switch_end bytes) s tt s.
Proof.
  destruct record_fields as (_ & _ & Hr & Hi & _). unfold switch_end. rewrite Hr, Hi. destruct Hq as (_ & _ & _ & _ & _ & Hs).
  destruct (_ && _) eqn:E; [|apply runs_skip]. apply andb_true_iff in E as [?%Z.eqb_eq ?%Z.eqb_eq]. by destruct Hs.
Qed.

Lemma record_header RecPtr PrevRecPtr (n : nat) (rand : bool) s : (32 ≤ n)%nat → (if rand then prev < RecPtr else prev = PrevRecPtr) →
  runs (ValidXLogRecordHeader RecPtr PrevRecPtr (take n bytes) rand) s true s.
Proof.
  intros Hn Hpv. destruct record_fields as (Ht & Hp & Hr & _). destruct (get_take n bytes Hn) as (Ht' & Hp' & Hr'). unfold ValidXLogRecordHeader. rewrite Ht', Hp', Hr', Ht, Hp, Hr.
  destruct Hq as (Hl & Hm & _ & Hrm & _). unfold bad_length.
  destruct (_ || _) eqn:E; [apply orb_true_iff in E as [E|E]; bool_to_prop; lia|]. cbn [reject].
  destruct (RM_MAX_ID <? _) eqn:E2; bool_to_prop; [lia|]. cbn [reject]. destruct rand.
  - destruct (RecPtr <=? prev) eqn:E3; bool_to_prop; [lia|done].
  - by rewrite Hpv, Z.eqb_refl.
Qed.

End fields.

Section readback.
Context `{WalGeometryOk} `{WalEnv} `{ReaderEnv}.
Variables (base lastsize : Z).
Hypothesis base_pos : 0 < base.
Hypothesis base_aligned : base mod 8 = 0.
Abbreviation end_at := (end_at base).
Abbreviation page_ok := (page_ok base).

(** The callback gives the pages of the files [d] up to [X]; a page that lies before [X] it
    gives as a whole. *)
Definition serves (d : Z → Z → xlog_page) (X : Z) : Prop :=
  ∀ g reqLen, 0 ≤ g → SizeOfXLogShortPHD ≤ reqLen ≤ XLOG_BLCKSZ → g * XLOG_BLCKSZ + reqLen ≤ X →
    ∃ len pg, read_page (g * XLOG_BLCKSZ) reqLen = Some (len, pg) ∧ reqLen ≤ len ≤ XLOG_BLCKSZ ∧
      same_upto len pg (file_page d g) ∧ ((g + 1) * XLOG_BLCKSZ ≤ X → len = XLOG_BLCKSZ).

Variables (log : list logged) (d : Z → Z → xlog_page) (X : Z).
Hypothesis Hchain : chain base lastsize log.
Hypothesis Hdisk : disk_upto base log d X.
Hypothesis Hserves : serves d X.
Hypothesis Hsys : sysid = 0 ∨ sysid = system_identifier.

Lemma page_header_size pg g : head_ok pg g → XLogPageHeaderSize pg = header_size g.
Proof.
  intros (_ & _ & Hl & _). unfold XLogPageHeaderSize, header_size. rewrite long_bit. destruct (g mod seg_pages =? 0) eqn:E; bool_to_prop.
  - by rewrite (proj2 Hl E).
  - destruct (Z.testbit (xlp_info pg) 1); [|done]. by destruct E; apply Hl.
Qed.

(** The reader has page [g] in its buffer. *)
Definition loaded (s : XLogReaderState) (g : Z) : Prop :=
  readSegNo s = g / seg_pages ∧ readOff s = g mod seg_pages * 8192 ∧ header_size g ≤ readLen s ≤ 8192 ∧
  same_upto (readLen s) (readBuf s) (file_page d g) ∧ page_ok log (upto_lsn X) (file_page d g) g ∧ ((g + 1) * 8192 ≤ X → readLen s = 8192).

Definition reader_ok (s : XLogReaderState) : Prop :=
  (readLen s = 0 ∨ ∃ g, 0 ≤ g ∧ loaded s g) ∧ latestPageTLI s ≤ ThisTimeLineID.

(** What reading a page leaves alone. *)
Definition same_record (s s' : XLogReaderState) : Prop :=
  ReadRecPtr s' = ReadRecPtr s ∧ EndRecPtr s' = EndRecPtr s ∧ readRecordBuf s' = readRecordBuf s ∧ readRecordBufSize s' = readRecordBufSize s.

Lemma head_ok_same len pg pg' g : same_upto len pg pg' → header_size g ≤ len → head_ok pg' g → head_ok pg g.
Proof.
  intros [? Hinf ? ? ? Hlong ?] Hlen (? & ? & Hl & ? & ? & Hs). unfold head_ok. rewrite Hinf.
  split; [congruence|]. split; [done|]. split; [done|]. split; [congruence|]. split; [congruence|].
  intros Hg. unfold header_size in Hlen. rewrite Hg in Hlen. cbn in Hlen. destruct (Hlong Hlen) as (-> & -> & ->). by apply Hs.
Qed.

Lemma valid_page_header g pg s : head_ok pg g → latestPageTLI s ≤ ThisTimeLineID →
  runs (ValidXLogPageHeader (g * 8192) pg) s true (with_latest (g * 8192) ThisTimeLineID s).
Proof.
  intros (Hm & Hi & Hl & Ht & Ha & Hs) Hlat. unfold ValidXLogPageHeader. rewrite Hm, Hi, Ha, Ht, long_bit, seg_start, !Z.eqb_refl. cbn [negb reject].
  rewrite negb_involutive.
  assert (∀ k, runs k s true (with_latest (g * 8192) ThisTimeLineID s) → runs (reject ((latestPagePtr s <? g * 8192) && (ThisTimeLineID <? latestPageTLI s)) OutOfSequenceTli k) s true (with_latest (g * 8192) ThisTimeLineID s)) as Hk.
  { intros k Hk. destruct (ThisTimeLineID <? latestPageTLI s) eqn:E; bool_to_prop; [lia|]. by rewrite andb_false_r. }
  destruct (Z.testbit (xlp_info pg) 1) eqn:E; cbn [andb negb].
  - assert (g mod seg_pages = 0) as Hg by by apply Hl. destruct (Hs Hg) as (-> & -> & ->). rewrite !Z.eqb_refl. cbn [negb].
    assert (negb (sysid =? 0) && negb (system_identifier =? sysid) = false) as ->.
    { destruct Hsys as [-> | ->]; [done|]. rewrite Z.eqb_refl. apply andb_false_r. }
    cbn [reject]. eapply runs_bind; [apply runs_gets|]. eapply runs_bind; [apply runs_gets|]. by apply Hk.
  - assert ((g mod seg_pages * 8192 =? 0) = false) as ->. { apply Z.eqb_neq. intros Hg. assert (g mod seg_pages = 0) as Hg0 by lia. apply Hl in Hg0. congruence. }
    cbn [reject]. eapply runs_bind; [apply runs_gets|]. eapply runs_bind; [apply runs_gets|]. by apply Hk.
Qed.

(** A page can be read as far as the files hold the log. *)
Lemma read_page_ok g reqLen s : reader_ok s → first_page base ≤ g → 0 ≤ g → 24 < reqLen ≤ 8192 → g * 8192 + reqLen ≤ X → g * 8192 + header_size g ≤ X →
  ∃ s', runs (ReadPageInternal (g * 8192) reqLen) s (readLen s') s' ∧ reader_ok s' ∧ loaded s' g ∧ reqLen ≤ readLen s' ∧ same_record s s'.
Proof.
  intros [Hr Hlat] Hfp Hg Hreq HX HX2. unfold ReadPageInternal. unfold XLByteToSeg. rewrite seg_start, seg_of_pos, Z.div_mul by done.
  assert (g * 8192 < X) as HgX by (lia). pose proof (Hdisk g Hfp HgX) as Hpg.
  destruct ((g / seg_pages =? readSegNo s) && (g mod seg_pages * 8192 =? readOff s) && (reqLen <? readLen s)) eqn:E.
  - rewrite !andb_true_iff in E. destruct E as ((Hs%Z.eqb_eq & Ho%Z.eqb_eq) & Hl%Z.ltb_lt). exists s. destruct Hr as [Hr|(g' & Hg' & Hld)]; [lia|]. pose proof Hld as (Hs' & Ho' & Hl' & Hsame & _).
    assert (g' = g) as ->. { pose proof seg_pages_spec as [_ Hp]. rewrite (Z.div_mod g' seg_pages), (Z.div_mod g seg_pages) by lia. rewrite <- Hs', <- Hs. lia. }
    split; [|split; [split; [right; by exists g|done]|split; [done|split; [lia|done]]]]. do 3 (eapply runs_bind; [apply runs_gets|]). rewrite <- Hs, <- Ho, !Z.eqb_refl. cbn [andb].
    destruct (_ <? _) eqn:E2; bool_to_prop; [apply runs_ret|lia].
  - pose proof (header_size_cases g) as Hhc.
    pose proof (po_head _ _ _ _ _ Hpg) as Hh.
    destruct (Hserves g reqLen Hg) as (len & pg & Hrp & Hlen & Hsame & Hwhole); [unfold XLOG_BLCKSZ; change SizeOfXLogShortPHD with 24; lia|unfold XLOG_BLCKSZ; lia|].
    unfold XLOG_BLCKSZ in *.
    assert (XLogPageHeaderSize pg = header_size g) as Hps.
    { rewrite <- (page_header_size _ g Hh). unfold XLogPageHeaderSize. by rewrite (su_info _ _ _ Hsame). }
    assert (∃ len' pg', (if len <? header_size g then read_page (g * 8192) (header_size g) else Some (len, pg)) = Some (len', pg') ∧ reqLen ≤ len' ≤ 8192 ∧
       header_size g ≤ len' ∧ same_upto len' pg' (file_page d g) ∧ ((g + 1) * 8192 ≤ X → len' = 8192)) as (len' & pg' & Hrp' & Hlen' & Hhl & Hsame' & Hwhole').
    { destruct (len <? header_size g) eqn:E2; bool_to_prop; [|exists len, pg; split_and!; try done; lia].
      destruct (Hserves g (header_size g) Hg) as (len' & pg' & Hrp' & Hl' & Hsame' & Hwhole'); [unfold XLOG_BLCKSZ; change SizeOfXLogShortPHD with 24; lia|unfold XLOG_BLCKSZ; lia|].
      unfold XLOG_BLCKSZ in *. exists len', pg'. split_and!; try done; lia. }
    pose proof (head_ok_same _ _ _ g Hsame' Hhl Hh) as Hh'.
    exists (with_read (g / seg_pages) (g mod seg_pages * 8192) len' (with_latest (g * 8192) ThisTimeLineID (with_readBuf pg' (with_readBuf pg s)))).
    assert (loaded (with_read (g / seg_pages) (g mod seg_pages * 8192) len' (with_latest (g * 8192) ThisTimeLineID (with_readBuf pg' (with_readBuf pg s)))) g) as Hld.
    { split_and!; try done. cbn. lia. }
    split; [|split; [split; [right; by exists g|done]|split; [done|split; [cbn; lia|done]]]].
    do 3 (eapply runs_bind; [apply runs_gets|]). rewrite E. change SizeOfXLogShortPHD with 24. rewrite Z.max_l, Hrp by lia. eapply runs_bind; [apply runs_modify|].
    destruct (len <=? 24) eqn:E2; bool_to_prop; [lia|]. rewrite Hps, Hrp'. eapply runs_bind; [apply runs_modify|]. eapply runs_bind; [by apply valid_page_header|]. cbn iota. eapply runs_bind; [apply runs_modify|apply runs_ret].
Qed.

(** ** One record *)

Section one.
Variables (k : nat) (r : logged).
Hypothesis Hr : log !! k = Some r.
Hypothesis Hend : end_at log (S k) ≤ X.
Hypothesis Hlimit : X < log_limit.
Hypothesis Hlast : 0 < lastsize ≤ base.
Hypothesis crc_range : ∀ c l, 0 ≤ COMP_CRC32C c l < 2 ^ 32.
Abbreviation b0 := (l_start r).
Abbreviation n := (rec_len r).

Lemma one_shape : base ≤ b0 ∧ b0 mod 8 = 0 ∧ 32 ≤ n < XLogRecordMaxSize ∧ rec_end r = (b0 + n + 7) / 8 * 8 ∧ XLogBytePosToEndRecPtr (rec_end r) ≤ X.
Proof.
  destruct (tip_at_step base lastsize log k Hchain ltac:(by eapply lookup_lt_Some)) as (r' & Hr' & Hs & He & Hl & Hsz & Hm). simplify_eq.
  pose proof (tip_at_base base lastsize base_aligned log k Hchain). destruct (tip_at_le base lastsize base_aligned log k k Hchain ltac:(lia)) as [_ Ha]. rewrite <- Hs in *.
  unfold XLogInv.end_at in Hend. rewrite He in Hend. split_and!; try done; try lia. zdiv.
Qed.

(** The record before is further back. *)
Lemma one_prev : 0 ≤ l_prev r < XLogBytePosToRecPtr b0 ∧ XLogBytePosToRecPtr b0 < X.
Proof.
  destruct (Hchain k r Hr) as (Hs & Hp & _). destruct one_shape as (Hb & _ & Hl & He & HE).
  assert (0 < size_before lastsize log k ≤ b0) as Hsz.
  { unfold size_before. destruct k as [|j]; [rewrite take_0; cbn; lia|].
    destruct (tip_at_step base lastsize log j Hchain) as (r' & Hr' & Hs' & He' & Hl' & Hsz' & _); [apply lookup_lt_Some in Hr; lia|].
    rewrite (take_S_r _ _ r'), last_snoc by done. rewrite Hs, He'. unfold rec_end in *. pose proof (tip_at_base base lastsize base_aligned log j Hchain). lia. }
  rewrite Hp. set (pb := b0 - _) in *. assert (0 ≤ pb < b0) as Hpb by lia. split; [split; [|apply rec_ptr_lt; lia]|].
  - pose proof (end_ptr_le_rec pb (proj1 Hpb)). assert (0 ≤ XLogBytePosToEndRecPtr pb); [|lia].
    change 0 with (0 * 8192) at 1. rewrite <- page_end_ptr, page_first_0 by done. apply (end_ptr_le 0 pb); lia.
  - eapply Z.lt_le_trans; [|exact HE]. apply rec_lt_end; [lia| |]; rewrite He; zdiv.
Qed.

(** The end of a part of the record that lies on a page. *)
Lemma end_in_page g b : page_first g < b ≤ page_first (g + 1) → 0 ≤ g → XLogBytePosToEndRecPtr b = g * 8192 + header_size g + (b - page_first g).
Proof.
  intros Hb Hg. pose proof (page_first_nonneg g Hg). destruct (decide (b = page_first (g + 1))) as [->|].
  - rewrite page_end_ptr by lia. pose proof (page_first_succ g). lia.
  - rewrite (end_ptr_at g) by lia. case_match; bool_to_prop; lia.
Qed.

Lemma part_in_files g b : page_first g < b ≤ page_first (g + 1) → 0 ≤ g → b ≤ rec_end r → g * 8192 + header_size g + (b - page_first g) ≤ X.
Proof.
  intros Hb Hg Hbe. destruct one_shape as (Hb0 & _ & _ & _ & HE). rewrite <- end_in_page by done. pose proof (page_first_nonneg g Hg).
  pose proof (proj2 (end_ptr_le b (rec_end r) ltac:(lia) ltac:(lia)) Hbe). lia.
Qed.

(** Its pages are among those that are known. *)
Lemma page_known g : 0 ≤ g → b0 < page_first (g + 1) → first_page base ≤ g.
Proof.
  intros Hg Hb. destruct one_shape as (Hb0 & _). unfold first_page. assert (XLogBytePosToEndRecPtr base < (g + 1) * 8192); [|zdiv].
  rewrite <- page_end_ptr by lia. apply end_ptr_lt; lia.
Qed.

(** What the buffer holds of the record. *)
Lemma part_bytes s g i m : loaded s g → 0 ≤ g → 0 ≤ i → 0 ≤ m → i + m ≤ n → page_first g ≤ b0 + i → b0 + i + m ≤ page_first (g + 1) →
  header_size g + (b0 + i - page_first g) + m ≤ readLen s →
  page_bytes (readBuf s) (header_size g + (b0 + i - page_first g)) m = take (Z.to_nat m) (drop (Z.to_nat i) (l_bytes r)).
Proof.
  intros (_ & _ & _ & Hsame & Hpg & _) Hg Hi Hm Hn Hg1 Hg2 Hlen. destruct one_shape as (Hb0 & _). apply list_eq. intros j. unfold page_bytes. rewrite list_lookup_fmap.
  destruct (decide (j < Z.to_nat m)%nat) as [Hj|Hj].
  - rewrite lookup_take_lt, lookup_drop by lia. rewrite lookup_seqZ_lt by lia. cbn.
    destruct (lookup_lt_is_Some_2 (l_bytes r) (Z.to_nat i + j)) as [x Hx]; [unfold rec_len in *; lia|]. rewrite Hx. f_equal.
    rewrite (su_data _ _ _ Hsame) by lia. pose proof (po_data _ _ _ _ _ Hpg k r (Z.to_nat i + j)%nat x Hr Hx) as Hd.
    replace (header_size g + (b0 + i - page_first g) + Z.of_nat j) with (header_size g + (b0 + Z.of_nat (Z.to_nat i + j) - page_first g)) by lia. apply Hd; [lia|].
    unfold upto_lsn. pose proof (inside_byte r _ x ltac:(lia) Hx) as Hin. pose proof (inside_log base lastsize base_pos base_aligned log k r _ Hchain Hr Hin). lia.
  - rewrite lookup_take_ge by lia. rewrite lookup_seqZ_ge by lia. done.
Qed.

Lemma one_request : ∃ q, request_ok q ∧ l_bytes r = concat (record_chunks (l_prev r) q) ∧ xl_tot_len (rechdr q) = n.
Proof.
  destruct (Hchain k r Hr) as (_ & _ & q & Hq & Hb). exists q. split_and!; try done. unfold rec_len. by rewrite Hb, chunks_length.
Qed.

Lemma one_prev_width : 0 ≤ l_prev r < 2 ^ 64.
Proof. pose proof one_prev. unfold log_limit in *. lia. Qed.

Definition prev_ok (s : XLogReaderState) (rand : bool) : Prop := if rand then True else l_prev r = ReadRecPtr s.

Lemma one_header s (m : nat) (rand : bool) last : (32 ≤ m)%nat → (if rand then True else l_prev r = last) →
  runs (ValidXLogRecordHeader (XLogBytePosToRecPtr b0) last (take m (l_bytes r)) rand) s true s.
Proof.
  intros Hm Hpv. destruct one_request as (q & Hq & -> & _). apply record_header; try done; [apply one_prev_width|]. destruct rand; [apply one_prev|done].
Qed.

(** The header of a page that begins in the record. *)
Lemma continuation s g : loaded s g → crosses r g →
  contrecord_flag (readBuf s) = true ∧ xlp_rem_len (readBuf s) = b0 + n - page_first g ∧ XLogPageHeaderSize (readBuf s) = header_size g.
Proof.
  intros (_ & _ & Hl & Hsame & Hpg & _) Hc. destruct one_shape as (Hb & _). assert (0 ≤ b0) as Hb0 by lia.
  pose proof (crosses_page_pos r g Hb0 Hc) as Hg. pose proof (inside_cross r g Hb0 Hc Hg) as Hin.
  pose proof (inside_log base lastsize base_pos base_aligned log k r _ Hchain Hr Hin) as Hpos.
  destruct (po_cross _ _ _ _ _ Hpg k r Hr Hc) as [Hf Hm]; [unfold upto_lsn; lia|]. unfold contrecord_flag. rewrite cont_bit, negb_involutive, (su_info _ _ _ Hsame), (su_rem_len _ _ _ Hsame).
  split_and!; [done|done|]. apply page_header_size. eapply head_ok_same; [done|lia|apply Hpg].
Qed.

(** A page of which the next part of the record has been read. *)
Lemma read_part g reqLen b s : reader_ok s → 0 ≤ g → b0 < page_first (g + 1) → page_first g < b ≤ page_first (g + 1) → b ≤ rec_end r →
  24 < reqLen ≤ header_size g + (b - page_first g) →
  ∃ s', runs (ReadPageInternal (g * 8192) reqLen) s (readLen s') s' ∧ reader_ok s' ∧ loaded s' g ∧ reqLen ≤ readLen s' ∧ same_record s s'.
Proof.
  intros Hs Hg Hb0 Hb Hbe Hreq. pose proof (part_in_files g b Hb Hg Hbe). pose proof (page_first_succ g).
  apply read_page_ok; try done; try lia. by apply page_known.
Qed.

Lemma reassemble_ok fuel g s (gotheader rand : bool) : reader_ok s → 0 ≤ g → b0 < page_first (g + 1) < b0 + n →
  readRecordBuf s = take (Z.to_nat (page_first (g + 1) - b0)) (l_bytes r) → b0 + n - page_first (g + 1) ≤ Z.of_nat fuel → prev_ok s rand →
  ∃ s' g', runs (reassemble fuel (XLogBytePosToRecPtr b0) n (g * 8192) (page_first (g + 1) - b0) gotheader rand) s (g' * 8192) s' ∧
    reader_ok s' ∧ readRecordBuf s' = l_bytes r ∧ ReadRecPtr s' = ReadRecPtr s ∧ loaded s' g' ∧ crosses r g' ∧ b0 + n ≤ page_first (g' + 1) ∧ 0 ≤ g'.
Proof.
  induction fuel as [|fuel IH] in g, s, gotheader |- *; intros Hs Hg Hcr Hbuf Hfuel Hpv; [lia|]. set (G := g + 1) in *. assert (crosses r G) as HcG by (unfold crosses; lia).
  destruct one_shape as (Hb & Ha & Hl & He & HE). pose proof (page_first_succ G) as Hps. pose proof (header_size_cases G) as Hhc. pose proof (page_first_aligned G) as HGa.
  set (got := page_first G - b0) in *. set (len := Z.min (b0 + n - page_first G) (8192 - header_size G)).
  assert (b0 + n ≤ rec_end r) as Hre by (rewrite He; clear; zdiv).
  assert (b0 + 8 ≤ page_first G) as H8 by (clear -Hcr Ha HGa; unfold crosses in *; zdiv).
  assert (0 ≤ G) as HG0 by lia. assert (0 < len) as Hlen0 by lia.
  destruct (read_part G (Z.min (n - got + 24) 8192) (page_first G + len) s) as (s1 & Hrun1 & Hs1 & Hld1 & Hlen1 & Hsr1); [done|done|lia|lia|lia|lia|].
  destruct (continuation s1 G Hld1 HcG) as (Hflag & Hrem & Hhs). pose proof Hld1 as (_ & _ & Hhl1 & _).
  assert (∃ s2, runs (if readLen s1 <? header_size G + len then ReadPageInternal (G * 8192) (header_size G + len) else mret (readLen s1)) s1 (readLen s2) s2 ∧
    reader_ok s2 ∧ loaded s2 G ∧ header_size G + len ≤ readLen s2 ∧ same_record s1 s2) as (s2 & Hrun2 & Hs2 & Hld2 & Hlen2 & Hsr2).
  { destruct (readLen s1 <? _) eqn:E; bool_to_prop; [|exists s1; by split_and!]. apply (read_part G _ (page_first G + len)); try done; lia. }
  destruct Hsr1 as (Hrp1 & _ & Hrb1 & _). destruct Hsr2 as (Hrp2 & _ & Hrb2 & _).
  set (s3 := with_record (take (Z.to_nat (got + len)) (l_bytes r)) s2).
  assert (readRecordBuf s2 ++ page_bytes (readBuf s2) (header_size G) len = take (Z.to_nat (got + len)) (l_bytes r)) as Happ.
  { rewrite Hrb2, Hrb1, Hbuf. replace (header_size G) with (header_size G + (b0 + got - page_first G)) at 1 by lia. rewrite part_bytes; try done; try lia.
    rewrite take_take_drop. f_equal. lia. }
  assert (reader_ok s3 ∧ loaded s3 G ∧ ReadRecPtr s3 = ReadRecPtr s) as (Hs3 & Hld3 & Hrp3) by (split_and!; try done; cbn; congruence).
  assert (∀ s4 p, runs (if negb true then goto_err else if got + len <? n then reassemble fuel (XLogBytePosToRecPtr b0) n (G * 8192) (got + len) true rand else mret (G * 8192)) s3 p s4 →
     runs (reassemble (S fuel) (XLogBytePosToRecPtr b0) n (g * 8192) got gotheader rand) s p s4) as Hgo.
  { intros s4 p Hk. cbn [reassemble]. unfold XLOG_BLCKSZ. replace (g * 8192 + 8192) with (G * 8192) by (unfold G; ring). change SizeOfXLogShortPHD with 24.
    eapply runs_bind; [exact Hrun1|]. destruct (readLen s1 <? 0) eqn:E; bool_to_prop; [lia|]. eapply runs_bind; [apply runs_gets|]. rewrite Hflag, Hrem, Hhs. cbn [negb bail].
    eapply runs_bind; [apply runs_skip|]. destruct ((_ =? 0) || _) eqn:E2; [apply orb_true_iff in E2 as [E2|E2]; bool_to_prop; lia|]. eapply runs_bind; [apply runs_skip|].
    destruct (readLen s1 <? header_size G) eqn:E3; bool_to_prop; [lia|]. eapply runs_bind; [apply runs_ret|]. eapply runs_bind; [apply runs_gets|]. rewrite Hrem.
    rewrite if_min. fold len.
    eapply runs_bind; [exact Hrun2|]. do 2 (eapply runs_bind; [apply runs_gets|]). rewrite Happ. eapply runs_bind; [apply runs_modify|]. do 2 (eapply runs_bind; [apply runs_gets|]).
    fold s3. apply (runs_bind _ _ s3 true s3); [|exact Hk]. destruct gotheader; [apply runs_ret|]. apply one_header; [lia|]. rewrite Hrp3. exact Hpv. }
  fold G got. destruct (decide (got + len < n)) as [Hlt|Hge].
  - assert (got + len = page_first (G + 1) - b0) as Hgl by lia.
    destruct (IH G s3 true) as (s4 & g' & Hrun & Hs4 & Hb4 & Hr4 & Hrest); try done; try lia; [by rewrite <- Hgl|destruct rand; [done|unfold prev_ok in *; congruence]|].
    exists s4, g'. split; [|split; [done|split; [done|split; [congruence|done]]]]. apply Hgo. cbn [negb]. destruct (got + len <? n) eqn:E; bool_to_prop; [|lia]. by rewrite Hgl.
  - exists s3, G. split; [|split_and!; try done; [|lia]].
    + apply Hgo. cbn [negb]. destruct (got + len <? n) eqn:E; bool_to_prop; [lia|]. apply runs_ret.
    + cbn. apply take_ge. unfold rec_len in *. lia.
Qed.

(** The position behind the record, from the page on which it ends. *)
Lemma one_end_ptr g : 0 ≤ g → page_first g < b0 + n ≤ page_first (g + 1) →
  page_first g < rec_end r ≤ page_first (g + 1) ∧ end_at log (S k) = g * 8192 + header_size g + (rec_end r - page_first g).
Proof.
  intros Hg Hp. destruct one_shape as (_ & _ & _ & He & _). pose proof (page_first_aligned (g + 1)) as Ha.
  assert (page_first g < rec_end r ≤ page_first (g + 1)) as Hin by (rewrite He; clear -Hp Ha; zdiv). split; [done|].
  unfold XLogInv.end_at. rewrite (tip_at_S base log k r) by done. by apply end_in_page.
Qed.

Lemma one_rest g : 0 ≤ g → page_first g ≤ b0 + n → b0 + n - page_first g < 2 ^ 62 → MAXALIGN (b0 + n - page_first g) = rec_end r - page_first g.
Proof.
  intros Hg Hp Hl. destruct one_shape as (_ & _ & _ & He & _). pose proof (page_first_aligned g) as Ha. rewrite MAXALIGN_eq by lia. rewrite He. clear -Ha. zdiv.
Qed.

Lemma one_aligned : MAXALIGN n = rec_end r - b0.
Proof.
  destruct one_shape as (_ & Ha & Hl & He & _). unfold XLogRecordMaxSize in *. rewrite MAXALIGN_eq by lia. rewrite He. clear -Ha. zdiv.
Qed.

(** From the end of the record before to the start of this one. *)
Lemma one_skip : skip_page_header (end_at log k) = XLogBytePosToRecPtr b0.
Proof.
  destruct one_shape as (Hb & _). destruct (Hchain k r Hr) as (Hs & _). unfold XLogInv.end_at. rewrite <- Hs. destruct (byte_page b0 ltac:(lia)) as (g & Hg & Hgb & -> & ->).
  pose proof (page_first_succ g). pose proof (header_size_cases g) as Hc. unfold skip_page_header, XLOG_BLCKSZ. destruct (b0 =? page_first g) eqn:E; bool_to_prop.
  - rewrite seg_start, E, Z.mod_mul by done. unfold header_size. destruct (g mod seg_pages =? 0) eqn:E2; bool_to_prop.
    + rewrite E2. change (0 * 8192 =? 0) with true. cbn iota. lia.
    + destruct (_ * 8192 =? 0) eqn:E3; bool_to_prop; [lia|]. change (0 =? 0) with true. cbn iota. lia.
  - rewrite <- Z.add_assoc. rewrite page_offset by lia. pose proof seg_pages_spec as [Hsg Hp]. destruct (_ mod XLogSegSize =? 0) eqn:E2; bool_to_prop.
    + exfalso. apply Z.mod_divide in E2 as [z Hz]; [|lia]. rewrite Hsg in Hz. assert ((g * 8192 + (header_size g + (b0 - page_first g))) mod 8192 = 0) as Hm.
      { rewrite Hz, Z.mul_assoc. apply Z.mod_mul. done. }
      rewrite page_offset in Hm by lia. lia.
    + destruct (_ =? 0) eqn:E3; bool_to_prop; lia.
Qed.

(** No record reaches into the page on which this one comes first. *)
Lemma one_first g : 0 ≤ g → b0 = page_first g → page_ok log (upto_lsn X) (file_page d g) g → has_cont (file_page d g) = false.
Proof.
  intros Hg Hb Hpg. destruct one_shape as (Hbb & _ & Hl & _). apply (po_clean _ _ _ _ _ Hpg).
  - rewrite <- page_end_ptr, <- Hb by done. apply end_ptr_le; lia.
  - intros k' r' Hr' [Hc1 Hc2]. rewrite <- Hb in *. assert (k' = k) as -> by (eapply (byte_owner base lastsize base_aligned log k' k r' r b0); try done; lia). simplify_eq. lia.
Qed.

(** ** [XLogReadRecord] *)

Hypothesis Hpalloc : ∀ m, m ≤ XLogRecordMaxSize + XLOG_BLCKSZ → palloc_ok m = true.

(** The caller gives the position, or the reader is at the end of the record before. *)
Definition asked (arg : Z) (s : XLogReaderState) : Prop :=
  arg = XLogBytePosToRecPtr b0 ∨ arg = InvalidXLogRecPtr ∧ EndRecPtr s = end_at log k ∧ (ReadRecPtr s = InvalidXLogRecPtr ∨ ReadRecPtr s = l_prev r).

Lemma asked_position arg s : asked arg s → (if arg =? InvalidXLogRecPtr then skip_page_header (EndRecPtr s) else arg) = XLogBytePosToRecPtr b0 ∧
  (if (if arg =? InvalidXLogRecPtr then ReadRecPtr s =? InvalidXLogRecPtr else true) then True else l_prev r = ReadRecPtr s).
Proof.
  pose proof one_prev as [Hp _]. unfold InvalidXLogRecPtr. intros [->|(-> & -> & Hl)].
  - destruct (_ =? 0) eqn:E; bool_to_prop; [lia|done].
  - change (InvalidXLogRecPtr =? 0) with true. cbn iota. split; [apply one_skip|]. destruct (ReadRecPtr s =? 0) eqn:E; bool_to_prop; [done|]. by destruct Hl.
Qed.

Lemma allocate_ok s : reader_ok s → ∃ s', runs (if readRecordBufSize s <? n then allocate_recordbuf n else mret true) s true s' ∧ reader_ok s' ∧
  ReadRecPtr s' = ReadRecPtr s ∧ (∀ g, loaded s g → loaded s' g) ∧ readBuf s' = readBuf s.
Proof.
  intros Hs. destruct (_ <? n); [|by exists s]. unfold allocate_recordbuf. destruct one_shape as (_ & _ & Hl & _). rewrite Hpalloc.
  - eexists. split; [eapply runs_bind; [apply runs_modify|apply runs_ret]|done].
  - pose proof (Z.mod_pos_bound n 8192 ltac:(done)). unfold XLOG_BLCKSZ, XLogRecordMaxSize in *. lia.
Qed.

(** The end of the body, when the record is in the buffer. *)
Lemma read_finish m s s1 : runs m s tt s1 → readRecordBuf s1 = l_bytes r → runs (m;; record ← gets readRecordBuf; switch_end record;; mret record) s (l_bytes r) s1.
Proof.
  intros Hm Hb. eapply runs_bind; [exact Hm|]. eapply runs_bind; [apply runs_gets|]. rewrite Hb. eapply runs_bind; [|apply runs_ret].
  destruct one_request as (q & Hq & -> & _). apply record_no_switch; try done. apply one_prev_width.
Qed.

Lemma one_checksum s : runs (ValidXLogRecord (l_bytes r)) s true s.
Proof. destruct one_request as (q & Hq & -> & _). apply record_checksum; try done. apply one_prev_width. Qed.

(** All of the record is on one page. *)
Lemma read_single g s : reader_ok s → 0 ≤ g → page_first g ≤ b0 → b0 + n ≤ page_first (g + 1) →
  let off := header_size g + (b0 - page_first g) in
  ∃ s', runs (readOff ← ReadPageInternal (g * 8192) (Z.min (off + n) XLOG_BLCKSZ);
       if readOff <? 0 then goto_err
       else
         page ← gets readBuf;
         let record := page_bytes page off n in
         valid ← ValidXLogRecord record;
         if negb valid then goto_err
         else modify (with_position (XLogBytePosToRecPtr b0) (XLogBytePosToRecPtr b0 + MAXALIGN n));; modify (with_record record)) s tt s' ∧
    readRecordBuf s' = l_bytes r ∧ reader_ok s' ∧ ReadRecPtr s' = XLogBytePosToRecPtr b0 ∧ EndRecPtr s' = end_at log (S k).
Proof.
  intros Hs Hg Hg1 Hg2 off. destruct one_shape as (Hb & Ha & Hl & He & HE). pose proof (page_first_succ g) as Hps. pose proof (header_size_cases g) as Hhc.
  destruct (one_end_ptr g Hg ltac:(lia)) as [Hin Hend']. assert (b0 + n ≤ rec_end r) by (rewrite He; clear; zdiv).
  destruct (read_part g (Z.min (off + n) 8192) (b0 + n) s) as (s1 & Hrun & Hs1 & Hld & Hlen & _); [done|done|lia|lia|done|unfold off; lia|].
  eexists. split; [|split_and!].
  - eapply runs_bind; [exact Hrun|]. destruct (readLen s1 <? 0) eqn:E; bool_to_prop; [lia|]. eapply runs_bind; [apply runs_gets|].
    assert (page_bytes (readBuf s1) off n = l_bytes r) as Hpb.
    { pose proof (part_bytes s1 g 0 n Hld Hg) as Hpb. rewrite Z.add_0_r in Hpb. unfold off. rewrite Hpb by lia. cbn [Z.to_nat drop]. apply take_ge. unfold rec_len. lia. }
    cbv zeta. rewrite Hpb. eapply runs_bind; [apply one_checksum|]. cbn [negb]. eapply runs_bind; [apply runs_modify|apply runs_modify].
  - done.
  - done.
  - done.
  - cbn. rewrite Hend', one_aligned, (rec_ptr_at g) by lia. lia.
Qed.

(** The record goes on on the next page. *)
Lemma read_multi g s (gotheader rand : bool) : reader_ok s → 0 ≤ g → page_first g ≤ b0 < page_first (g + 1) → page_first (g + 1) < b0 + n →
  let off := header_size g + (b0 - page_first g) in
  loaded s g → prev_ok s rand →
  ∃ s', runs (modify (with_record (page_bytes (readBuf s) off (page_first (g + 1) - b0)));;
       lastPage ← reassemble (Z.to_nat n) (XLogBytePosToRecPtr b0) n (g * 8192) (page_first (g + 1) - b0) gotheader rand;
       record ← gets readRecordBuf;
       valid ← ValidXLogRecord record;
       if negb valid then goto_err
       else
         pageHeader ← gets readBuf;
         modify (with_position (XLogBytePosToRecPtr b0) (lastPage + (XLogPageHeaderSize pageHeader + MAXALIGN (xlp_rem_len pageHeader))))) s tt s' ∧
    readRecordBuf s' = l_bytes r ∧ reader_ok s' ∧ ReadRecPtr s' = XLogBytePosToRecPtr b0 ∧ EndRecPtr s' = end_at log (S k).
Proof.
  intros Hs Hg Hg1 Hg2 off Hld Hpv. destruct one_shape as (Hb & Ha & Hl & He & HE). pose proof (page_first_succ g) as Hps. pose proof (header_size_cases g) as Hhc.
  assert (b0 + n ≤ rec_end r) as Hre by (rewrite He; clear; zdiv).
  assert (page_first g < page_first (g + 1) ≤ page_first (g + 1)) as Hgg by lia. assert (page_first (g + 1) ≤ rec_end r) as Hge by lia.
  assert (readLen s = 8192) as Hfull by (apply Hld; pose proof (part_in_files g (page_first (g + 1)) Hgg Hg Hge); lia).
  assert (page_bytes (readBuf s) off (page_first (g + 1) - b0) = take (Z.to_nat (page_first (g + 1) - b0)) (l_bytes r)) as Hpb.
  { pose proof (part_bytes s g 0 (page_first (g + 1) - b0) Hld Hg) as Hpb. rewrite Z.add_0_r in Hpb. unfold off. rewrite Hpb by lia. done. }
  rewrite Hpb. set (s1 := with_record (take (Z.to_nat (page_first (g + 1) - b0)) (l_bytes r)) s).
  destruct (reassemble_ok (Z.to_nat n) g s1 gotheader rand) as (s2 & g' & Hrun & Hs2 & Hbuf & Hrp & Hld2 & Hcr & Hg'n & Hg'); try done; [lia|lia|].
  destruct (continuation s2 g' Hld2 Hcr) as (_ & Hrem & Hhs). destruct (one_end_ptr g' Hg') as [Hin Hend']; [unfold crosses in Hcr; lia|].
  eexists. split; [|split_and!].
  - eapply runs_bind; [apply runs_modify|]. eapply runs_bind; [exact Hrun|]. eapply runs_bind; [apply runs_gets|]. rewrite Hbuf. eapply runs_bind; [apply one_checksum|]. cbn [negb].
    eapply runs_bind; [apply runs_gets|]. apply runs_modify.
  - done.
  - done.
  - done.
  - destruct Hcr as [Hc1 Hc2]. cbn [with_position EndRecPtr]. rewrite Hend', Hrem, Hhs, one_rest; [lia|done|lia|]. unfold XLogRecordMaxSize in *. lia.
Qed.

Lemma one_tot_len : get_tot_len (l_bytes r) = n.
Proof. destruct one_request as (q & Hq & Hb & <-). rewrite Hb. by apply (record_fields crc_range _ _ Hq one_prev_width). Qed.

(** The checks of the page on which the record starts. *)
Lemma one_start s g : loaded s g → 0 ≤ g → page_first g ≤ b0 < page_first (g + 1) → Z.min (header_size g + (b0 - page_first g) + 32) 8192 ≤ readLen s →
  let off := header_size g + (b0 - page_first g) in
  XLogPageHeaderSize (readBuf s) = header_size g ∧ (contrecord_flag (readBuf s) && (off =? header_size g)) = false ∧
  le_value (page_bytes (readBuf s) off 4) = n ∧ (off ≤ 8192 - 32 → page_bytes (readBuf s) off 32 = take 32 (l_bytes r)).
Proof.
  intros Hld Hg Hgb Hlen off. pose proof Hld as (_ & _ & Hhl & Hsame & Hpg & _). destruct one_shape as (Hb & Ha & Hl & _). pose proof (page_first_succ g) as Hps.
  pose proof (page_first_aligned (g + 1)) as Hpa. assert (b0 + 8 ≤ page_first (g + 1)) as H8 by (clear -Ha Hpa Hgb; zdiv).
  assert (∀ m, 0 ≤ m ≤ 32 → off + m ≤ 8192 → off + m ≤ readLen s → page_bytes (readBuf s) off m = take (Z.to_nat m) (l_bytes r)) as Hpart.
  { intros m Hm Hm1 Hm2. unfold off in *. pose proof (part_bytes s g 0 m Hld Hg) as Hp. rewrite Z.add_0_r in Hp. rewrite Hp by lia. done. }
  split_and!.
  - apply page_header_size. eapply head_ok_same; [done|lia|apply Hpg].
  - destruct (off =? header_size g) eqn:E; bool_to_prop; [|apply andb_false_r]. rewrite andb_true_r. unfold contrecord_flag. rewrite cont_bit, negb_involutive, (su_info _ _ _ Hsame).
    apply (one_first g Hg); [unfold off in E; lia|done].
  - rewrite Hpart by (unfold off in *; lia). apply one_tot_len.
  - intros. rewrite Hpart by (unfold off in *; lia). done.
Qed.

Lemma read_record_ok arg s : reader_ok s → asked arg s →
  ∃ s', runs (XLogReadRecord false arg) s (Some (l_bytes r)) s' ∧ reader_ok s' ∧ ReadRecPtr s' = XLogBytePosToRecPtr b0 ∧ EndRecPtr s' = end_at log (S k).
Proof.
  intros Hs Hask. destruct (asked_position arg s Hask) as [Hpos Hpv]. destruct one_shape as (Hb & Ha & Hl & He & HE).
  destruct (byte_page b0 ltac:(lia)) as (g & Hg & Hgb & HP & _). pose proof (page_first_succ g) as Hps. pose proof (header_size_cases g) as Hhc.
  set (off := header_size g + (b0 - page_first g)) in *. assert (XLogBytePosToRecPtr b0 = g * 8192 + off) as HP' by (rewrite HP; unfold off; ring).
  assert (XLogBytePosToRecPtr b0 mod XLOG_BLCKSZ = off) as Hoff by (rewrite HP'; apply page_offset; unfold off; lia).
  assert (XLogBytePosToRecPtr b0 - off = g * 8192) as Hpage by (rewrite HP'; ring).
  set (rand := if arg =? InvalidXLogRecPtr then ReadRecPtr s =? InvalidXLogRecPtr else true) in *.
  set (s00 := with_decoder (XLogDecode.ResetDecoder (decoder (with_message None s))) (with_message None s)).
  set (s0 := with_currRecPtr (XLogBytePosToRecPtr b0) s00). assert (reader_ok s0) as Hs0 by done.
  assert (b0 + n ≤ rec_end r) as Hre by (rewrite He; clear; zdiv).
  destruct (read_part g (Z.min (off + 32) 8192) (Z.min (b0 + 32) (page_first (g + 1))) s0) as (s1 & Hrun1 & Hs1 & Hld1 & Hlen1 & Hrp1 & _); [done|done|lia|lia|lia|unfold off; lia|].
  destruct (one_start s1 g Hld1 Hg Hgb Hlen1) as (Hhs & Hcont & Htot & Hhdr). fold off in Hcont, Htot, Hhdr.
  destruct (allocate_ok s1 Hs1) as (s2 & Hrun2 & Hs2 & Hrp2 & Hld2 & Hbuf2). specialize (Hld2 g Hld1).
  assert (prev_ok s2 rand) as Hpv2 by (unfold prev_ok; destruct rand; [done|]; rewrite Hrp2, Hrp1; exact Hpv).
  assert (∀ m s', runs m s2 tt s' → readRecordBuf s' = l_bytes r →
    m = (if page_first (g + 1) - b0 <? n then
       modify (with_record (page_bytes (readBuf s2) off (page_first (g + 1) - b0)));;
       lastPage ← reassemble (Z.to_nat n) (XLogBytePosToRecPtr b0) n (g * 8192) (page_first (g + 1) - b0) (off <=? XLOG_BLCKSZ - SizeOfXLogRecord) rand;
       record ← gets readRecordBuf;
       valid ← ValidXLogRecord record;
       if negb valid then goto_err
       else
         pageHeader ← gets readBuf;
         modify (with_position (XLogBytePosToRecPtr b0) (lastPage + (XLogPageHeaderSize pageHeader + MAXALIGN (xlp_rem_len pageHeader))))
     else
       readOff ← ReadPageInternal (g * 8192) (Z.min (off + n) XLOG_BLCKSZ);
       if readOff <? 0 then goto_err
       else
         page ← gets readBuf;
         let record := page_bytes page off n in
         valid ← ValidXLogRecord record;
         if negb valid then goto_err
         else modify (with_position (XLogBytePosToRecPtr b0) (XLogBytePosToRecPtr b0 + MAXALIGN n));; modify (with_record record)) →
    runs (XLogReadRecord false arg) s (Some (l_bytes r)) s') as Hgo.
  { intros m s' Hm Hbuf Hmeq. assert (runs (read_record arg) s (l_bytes r) s') as Hr1; [|unfold XLogReadRecord, runs in *; by rewrite Hr1].
    unfold read_record. do 2 (eapply runs_bind; [apply runs_modify|]). cbv beta. fold s00. do 2 (eapply runs_bind; [apply runs_gets|]). change (ReadRecPtr s00) with (ReadRecPtr s).
    change (EndRecPtr s00) with (EndRecPtr s). fold rand. rewrite Hpos. eapply runs_bind; [apply runs_modify|]. fold s0. rewrite Hoff, Hpage. eapply runs_bind; [exact Hrun1|].
    destruct (readLen s1 <? 0) eqn:E; bool_to_prop; [lia|]. eapply runs_bind; [apply runs_skip|]. eapply runs_bind; [apply runs_gets|]. rewrite Hhs.
    destruct (off =? 0) eqn:E0; bool_to_prop; [unfold off in *; lia|]. cbn [negb andb]. destruct (off <? header_size g) eqn:E1; bool_to_prop; [unfold off in *; lia|].
    eapply runs_bind; [apply runs_skip|]. cbv zeta. rewrite Hcont. eapply runs_bind; [apply runs_skip|]. rewrite Htot.
    apply (runs_bind _ _ s1 true s1).
    { destruct (off <=? XLOG_BLCKSZ - SizeOfXLogRecord) eqn:E2; bool_to_prop.
      - change SizeOfXLogRecord with 32. rewrite Hhdr by done. by apply one_header.
      - unfold bad_length. destruct (_ || _) eqn:E3; [apply orb_true_iff in E3 as [E3|E3]; bool_to_prop; unfold SizeOfXLogRecord in *; lia|apply runs_ret]. }
    cbn [negb]. eapply runs_bind; [apply runs_gets|]. eapply runs_bind; [exact Hrun2|]. cbn [negb bail]. eapply runs_bind; [apply runs_skip|].
    rewrite Hoff. replace (XLOG_BLCKSZ - off) with (page_first (g + 1) - b0) by (unfold off, XLOG_BLCKSZ; lia). rewrite <- Hbuf2.
    rewrite Hmeq in Hm. cbv zeta in Hm. by apply read_finish. }
  destruct (decide (page_first (g + 1) - b0 < n)) as [Hlt|Hge].
  - destruct (read_multi g s2 (off <=? XLOG_BLCKSZ - SizeOfXLogRecord) rand) as (s' & Hrun & Hbuf & ? & ? & ?); try done; [lia|]. exists s'. split; [|done].
    eapply Hgo; [exact Hrun|done|]. destruct (page_first (g + 1) - b0 <? n) eqn:E; bool_to_prop; [reflexivity|lia].
  - destruct (read_single g s2) as (s' & Hrun & Hbuf & ? & ? & ?); try done; [lia|lia|]. exists s'. split; [|done].
    eapply Hgo; [exact Hrun|done|]. destruct (page_first (g + 1) - b0 <? n) eqn:E; bool_to_prop; [lia|reflexivity].
Qed.

End one.

(** ** The log, record by record *)

Lemma prev_of_next k r r' : log !! k = Some r → log !! S k = Some r' → l_prev r' = XLogBytePosToRecPtr (l_start r).
Proof.
  intros Hr Hr'. destruct (Hchain _ _ Hr') as (Hs & Hp & _). rewrite Hp. f_equal. rewrite Hs. unfold size_before, XLogInv.tip_at, XLogInv.tip.
  rewrite (take_S_r _ _ r), last_snoc by done. unfold rec_end. lia.
Qed.

Lemma read_records_ok (m k : nat) s : X < log_limit → 0 < lastsize ≤ base → (∀ c l, 0 ≤ COMP_CRC32C c l < 2 ^ 32) →
  (∀ z, z ≤ XLogRecordMaxSize + XLOG_BLCKSZ → palloc_ok z = true) →
  reader_ok s → EndRecPtr s = end_at log k → (ReadRecPtr s = InvalidXLogRecPtr ∨ ∀ r, log !! k = Some r → ReadRecPtr s = l_prev r) →
  (k + m ≤ length log)%nat → end_at log (k + m) ≤ X → ∃ s', runs (read_records m) s (l_bytes <$> take m (drop k log)) s'.
Proof.
  intros Hlim Hlast Hcrc Hpal. induction m as [|m IH] in k, s |- *; intros Hs He Hp Hlen HX; [by exists s|].
  destruct (lookup_lt_is_Some_2 log k ltac:(lia)) as [r Hr]. pose proof (end_at_le base lastsize base_pos base_aligned log (S k) (k + S m) Hchain ltac:(lia)).
  destruct (read_record_ok k r Hr ltac:(lia) Hlim Hlast Hcrc Hpal InvalidXLogRecPtr s Hs) as (s1 & Hrun & Hs1 & Hrp & Hep).
  { right. split_and!; try done. destruct Hp as [|Hp]; [by left|right; by apply Hp]. }
  destruct (IH (S k) s1) as (s2 & Hrun2); try done; try lia.
  - right. intros r' Hr'. by rewrite (prev_of_next k r r').
  - by replace (S k + m)%nat with (k + S m)%nat by lia.
  - exists s2. cbn [read_records]. eapply runs_bind; [exact Hrun|]. cbn. rewrite (drop_S _ r) by done. cbn. eapply runs_bind; [exact Hrun2|apply runs_ret].
Qed.

End readback.
