(* ===== verification/XLogReadSafe.v ===== *)
(** * The log reader on arbitrary input

    Whatever the callback delivers: no record with a wrong checksum is returned, an error
    leaves the reader where it was unless it is the decoder that fails, and reading a record
    comes to an end. *)

From S2P Require Import Prelude FsmPage XLogDefs XLogDecode XLogReader XLogReadBack.
From stdpp Require Import list.

Open Scope Z_scope.

Section safe.
Context `{WalGeometry} `{WalEnv} `{ReaderEnv}.
Abbreviation R := (M XLogReaderState).

(** ** Checksums *)

Definition checksum_ok (rec : list Z) : Prop :=
  get_crc rec = FIN_CRC32C (COMP_CRC32C (COMP_CRC32C INIT_CRC32C (take (Z.to_nat (get_tot_len rec - SizeOfXLogRecord)) (drop (Z.to_nat SizeOfXLogRecord) rec))) (take 28 rec)).

Lemma valid_record_inv rec s s' : runs (ValidXLogRecord rec) s true s' → checksum_ok rec ∧ s' = s.
Proof.
  unfold ValidXLogRecord, reject. destruct (negb _) eqn:E; intros Hr; inv_runs; [done|]. bool_to_prop. done.
Qed.

Lemma switch_end_record rec s s' : runs (switch_end rec) s tt s' → readRecordBuf s' = readRecordBuf s.
Proof. unfold switch_end. destruct (_ && _); intros Hr; inv_runs; done. Qed.

Lemma read_record_checksum arg s rec s' : runs (read_record arg) s rec s' → checksum_ok rec.
Proof.
  intros E.
  unfold read_record in E. do 11 (apply runs_bind_inv in E as (? & ? & _ & E)). destruct (negb _) in E; [by inv_runs|].
  do 3 (apply runs_bind_inv in E as (? & ? & _ & E)). apply runs_bind_inv in E as ([] & s2 & Hbody & E).
  assert (checksum_ok (readRecordBuf s2)) as Hok; [|by inv_runs]. clear E.
  destruct (_ <? _) in Hbody.
  - do 2 (apply runs_bind_inv in Hbody as (? & ? & _ & Hbody)). apply runs_bind_inv in Hbody as (? & ? & [= <- <-] & Hbody).
    apply runs_bind_inv in Hbody as (valid & s3 & Hv & Hbody). destruct valid; [|by inv_runs]. apply valid_record_inv in Hv as [Hv ->]. cbn [negb] in Hbody. inv_runs. done.
  - apply runs_bind_inv in Hbody as (? & ? & _ & Hbody). destruct (_ <? _) in Hbody; [by inv_runs|]. apply runs_bind_inv in Hbody as (? & ? & _ & Hbody).
    apply runs_bind_inv in Hbody as (valid & s3 & Hv & Hbody). destruct valid; [|by inv_runs]. apply valid_record_inv in Hv as [Hv ->]. cbn [negb] in Hbody. inv_runs. done.
Qed.

(** Reading is reading without decoding, and then decoding. *)
Lemma read_record_split doDecode arg s rec s' :
  runs (XLogReadRecord doDecode arg) s rec s' →
  (rec = None ∧ runs (XLogReadRecord false arg) s None s') ∨
  ∃ bytes s1, runs (read_record arg) s bytes s1 ∧ runs (XLogReadRecord false arg) s (Some bytes) s1 ∧
    if doDecode then runs (decode_read bytes) s1 rec s' else rec = Some bytes ∧ s' = s1.
Proof.
  unfold XLogReadRecord, runs. destruct (read_record arg s) as [[bytes|l|] s1]; [|intros [= <- <-]; by left|done]. intros Hr. right.
  exists bytes, s1. destruct doDecode; [done|]. by injection Hr as <- <-.
Qed.

(** Checksums are verified. A record that [XLogReadRecord] returns, decoded or not, has the
    checksum that its header states, whatever the pages hold. *)
Theorem read_checksum doDecode arg s rec s' : runs (XLogReadRecord doDecode arg) s (Some rec) s' → checksum_ok rec.
Proof.
  intros [[? _]|(bytes & s1 & Hr & _ & Hd)]%read_record_split; [done|]. apply read_record_checksum in Hr. destruct doDecode; [|by destruct Hd as [[= ->] _]].
  unfold decode_read, runs in Hd. by destruct (DecodeXLogRecord _ _) as [[[]| |]]; simplify_eq.
Qed.

(** ** Errors *)

Definition same_position (s s' : XLogReaderState) : Prop := ReadRecPtr s' = ReadRecPtr s ∧ EndRecPtr s' = EndRecPtr s.

(** The position is the same afterwards; it is unless the code returns. *)
Definition keeps {A} (m : R A) : Prop := ∀ s, same_position s (m s).2.
Definition fails_keep {A} (m : R A) : Prop := ∀ s, same_position s (m s).2 ∨ ∃ a, (m s).1 = Ok a.

Lemma same_position_trans s1 s2 s3 : same_position s1 s2 → same_position s2 s3 → same_position s1 s3.
Proof. unfold same_position. intros [-> ->] [-> ->]. done. Qed.

Lemma keeps_bind {A B} (m : R A) (k : A → R B) : keeps m → (∀ a, keeps (k a)) → keeps (m ≫= k).
Proof.
  intros Hm Hk s. unfold mbind, M_bind. specialize (Hm s). destruct (m s) as [[a|l|] s1]; [|done..]. eapply same_position_trans; [exact Hm|apply Hk].
Qed.
Lemma read_fails_bind {A B} (m : R A) (k : A → R B) : keeps m → (∀ a, fails_keep (k a)) → fails_keep (m ≫= k).
Proof.
  intros Hm Hk s. unfold mbind, M_bind. specialize (Hm s). destruct (m s) as [[a|l|] s1]; [|by left..]. destruct (Hk a s1) as [Hp|Hp]; [left|by right].
  by eapply same_position_trans.
Qed.
Lemma fails_returns {A} (m : R A) : (∀ s, ∃ a, (m s).1 = Ok a) → fails_keep m.
Proof. intros Hm s. right. apply Hm. Qed.
Lemma keeps_fails {A} (m : R A) : keeps m → fails_keep m.
Proof. intros Hm s. by left. Qed.
Lemma keeps_gets {A} (f : XLogReaderState → A) : keeps (gets f).
Proof. done. Qed.
Lemma keeps_ret {A} (a : A) : keeps (mret a).
Proof. done. Qed.
Lemma keeps_reject bad e k : keeps k → keeps (reject bad e k).
Proof. unfold reject. by destruct bad. Qed.
Lemma keeps_bail bad e : keeps (bail bad e).
Proof. by destruct bad. Qed.
Create HintDb reader.
#[local] Hint Resolve keeps_bind keeps_gets keeps_ret keeps_reject keeps_bail : reader.

Lemma keeps_page_header p pg : keeps (ValidXLogPageHeader p pg).
Proof. unfold ValidXLogPageHeader. do 7 apply keeps_reject. do 2 (apply keeps_bind; [done|intros ?]). apply keeps_reject. by apply keeps_bind. Qed.

Lemma keeps_read_page p l : keeps (ReadPageInternal p l).
Proof.
  unfold ReadPageInternal. do 3 (apply keeps_bind; [done|intros ?]). destruct (_ && _); [done|].
  destruct (read_page p _) as [[len pg]|]; [|done]. apply keeps_bind; [done|intros _]. destruct (len <=? _); [done|].
  destruct (if len <? _ then _ else _) as [[len' pg']|]; [|done]. apply keeps_bind; [done|intros _]. apply keeps_bind; [apply keeps_page_header|]. intros []; done.
Qed.

Lemma keeps_record_header p q rec rand : keeps (ValidXLogRecordHeader p q rec rand).
Proof. unfold ValidXLogRecordHeader. by do 3 apply keeps_reject. Qed.
Lemma keeps_record rec : keeps (ValidXLogRecord rec).
Proof. unfold ValidXLogRecord. by apply keeps_reject. Qed.
Lemma keeps_allocate n : keeps (allocate_recordbuf n).
Proof. unfold allocate_recordbuf. by destruct (palloc_ok _). Qed.
#[local] Hint Resolve keeps_page_header keeps_read_page keeps_record_header keeps_record keeps_allocate : reader.

Lemma keeps_reassemble fuel p n page got hd rand : keeps (reassemble fuel p n page got hd rand).
Proof.
  revert page got hd. induction fuel as [|fuel IH]; intros page got hd; [done|]. cbn [reassemble].
  apply keeps_bind; [auto with reader|intros readOff]. destruct (readOff <? 0); [done|]. apply keeps_bind; [done|intros hdr]. do 2 (apply keeps_bind; [auto with reader|intros _]).
  apply keeps_bind; [by destruct (readOff <? _); auto with reader|intros readOff2]. apply keeps_bind; [done|intros hdr2].
  apply keeps_bind; [by destruct (readOff2 <? _); auto with reader|intros _]. do 2 (apply keeps_bind; [done|intros ?]). apply keeps_bind; [done|intros _].
  do 2 (apply keeps_bind; [done|intros ?]). apply keeps_bind; [by destruct hd; auto with reader|intros valid]. destruct (negb valid); [done|]. destruct (_ <? n); [apply IH|done].
Qed.

Lemma fails_then {A B} (m : R A) (k : A → R B) : fails_keep m → (∀ a s, ∃ b, (k a s).1 = Ok b) → fails_keep (m ≫= k).
Proof.
  intros Hm Hk s. unfold mbind, M_bind. specialize (Hm s). destruct (m s) as [[a|l|] s1]; [right; apply Hk|destruct Hm as [|[? ?]]; [by left|done]..].
Qed.

Lemma returns_switch_end rec s : ∃ u, (switch_end rec s).1 = Ok u.
Proof. unfold switch_end. destruct (_ && _); by exists tt. Qed.

Lemma fails_read_record arg : fails_keep (read_record arg).
Proof.
  unfold read_record. do 2 (apply read_fails_bind; [done|intros _]). do 2 (apply read_fails_bind; [done|intros ?]). apply read_fails_bind; [done|intros _]. apply read_fails_bind; [auto with reader|intros ?].
  apply read_fails_bind; [auto with reader|intros _]. apply read_fails_bind; [done|intros page]. do 2 (apply read_fails_bind; [auto with reader|intros _]).
  apply read_fails_bind; [destruct (_ <=? _); auto with reader|intros valid]. destruct (negb valid); [by apply keeps_fails|]. apply read_fails_bind; [done|intros size].
  apply read_fails_bind; [destruct (_ <? _); auto with reader|intros allocated]. apply read_fails_bind; [auto with reader|intros _]. apply fails_then.
  - destruct (_ <? _).
    + apply read_fails_bind; [done|intros _]. apply read_fails_bind; [apply keeps_reassemble|intros ?]. apply read_fails_bind; [done|intros ?]. apply read_fails_bind; [auto with reader|intros v].
      destruct (negb v); [by apply keeps_fails|]. apply fails_returns. intros s. by exists tt.
    + apply read_fails_bind; [auto with reader|intros readOff]. destruct (readOff <? 0); [by apply keeps_fails|]. apply read_fails_bind; [done|intros ?]. apply read_fails_bind; [auto with reader|intros v].
      destruct (negb v); [by apply keeps_fails|]. apply fails_returns. intros s. by exists tt.
  - intros _ s. unfold mbind, M_bind, gets. destruct (returns_switch_end (readRecordBuf s) s) as [u Hu]. destruct (switch_end _ s) as [? s1]. cbn in Hu. subst. by eexists.
Qed.

Lemma read_error_keeps arg s s' : runs (XLogReadRecord false arg) s None s' → ReadRecPtr s' = ReadRecPtr s ∧ EndRecPtr s' = EndRecPtr s ∧ readLen s' = 0.
Proof.
  unfold XLogReadRecord, runs. pose proof (fails_read_record arg s) as Hf. destruct (read_record arg s) as [[rec|l|] s1] eqn:E; [done| |done]. intros [= <-].
  destruct Hf as [[Hf1 Hf2]|[? ?]]; [|done]. by split_and!.
Qed.

(** C34: Errors. When [XLogReadRecord] returns no record, either it could not read one: then the
    reader is where it was, so that the caller can try the same record again, and it has
    forgotten the page it had read. Or the caller asked for decoding, a record with the
    right checksum was read, and the decoder has rejected it: then the error is the
    decoder's, but the reader has moved behind the record and keeps the page, as if the
    record had been returned. *)
Theorem read_error_position doDecode arg s s' :
  runs (XLogReadRecord doDecode arg) s None s' →
  (ReadRecPtr s' = ReadRecPtr s ∧ EndRecPtr s' = EndRecPtr s ∧ readLen s' = 0 ∧ runs (XLogReadRecord false arg) s None s') ∨
  (doDecode = true ∧ ∃ rec s1 e d,
     runs (XLogReadRecord false arg) s (Some rec) s1 ∧ checksum_ok rec ∧ runs (DecodeXLogRecord rec) (decoder s1) (Some e) d ∧
     ReadRecPtr s' = ReadRecPtr s1 ∧ EndRecPtr s' = EndRecPtr s1 ∧ readLen s' = readLen s1 ∧ errormsg s' = Some (DecodeError e)).
Proof.
  intros [[_ Hn]|(rec & s1 & Hr & Hf & Hd)]%read_record_split.
  { left. destruct (read_error_keeps _ _ _ Hn) as (? & ? & ?). by split_and!. }
  right. destruct doDecode; [|by destruct Hd as [? _]]. split; [done|]. unfold decode_read, runs in Hd.
  destruct (DecodeXLogRecord rec (decoder s1)) as [[[e|]| |] d] eqn:E; simplify_eq. exists rec, s1, e, d.
  split_and!; try done. by eapply read_record_checksum.
Qed.

(** ** Termination *)

(** The callback's contract, and that [xlp_rem_len] is unsigned. *)
Definition callback_ok : Prop := ∀ p l len pg, read_page p l = Some (len, pg) → l ≤ len ∧ 0 ≤ xlp_rem_len pg.

Definition buffer_ok (s : XLogReaderState) : Prop := 0 ≤ xlp_rem_len (readBuf s) ∧ (readLen s = 0 ∨ XLogPageHeaderSize (readBuf s) ≤ readLen s).

(** [m] comes to an end, with [Q] if it returns. *)
Definition ends {A} (m : R A) (s : XLogReaderState) (Q : A → XLogReaderState → Prop) : Prop :=
  match m s with (Ok a, s') => Q a s' | (Ereport _, _) => True | (NoFuel, _) => False end.

Lemma ends_bind {A B} (m : R A) (k : A → R B) s Q : ends m s (λ a s', ends (k a) s' Q) → ends (m ≫= k) s Q.
Proof. unfold ends, mbind, M_bind. by destruct (m s) as [[a|l|] s1]. Qed.
Lemma ends_mono {A} (m : R A) s (Q Q' : A → XLogReaderState → Prop) : (∀ a s', Q a s' → Q' a s') → ends m s Q → ends m s Q'.
Proof. unfold ends. intros HQ. destruct (m s) as [[a|l|] s1]; auto. Qed.

Definition same_buffer (s s' : XLogReaderState) : Prop := readBuf s' = readBuf s ∧ readLen s' = readLen s.

Lemma ends_check bad e k s : ends k s (λ _ s', same_buffer s s') → ends (reject bad e k) s (λ _ s', same_buffer s s').
Proof. by destruct bad. Qed.
Lemma ends_bail bad e s (Q : unit → XLogReaderState → Prop) : (bad = false → Q tt s) → ends (bail bad e) s Q.
Proof. intros HQ. destruct bad; [done|]. by apply HQ. Qed.

Lemma ends_page_header p pg s : ends (ValidXLogPageHeader p pg) s (λ _ s', same_buffer s s').
Proof. unfold ValidXLogPageHeader. do 7 apply ends_check. do 2 apply ends_bind. cbn. by apply ends_check. Qed.
Lemma ends_record_header p q rec rand s : ends (ValidXLogRecordHeader p q rec rand) s (λ _ s', same_buffer s s').
Proof. unfold ValidXLogRecordHeader. by do 3 apply ends_check. Qed.
Lemma ends_record rec s : ends (ValidXLogRecord rec) s (λ _ s', same_buffer s s').
Proof. unfold ValidXLogRecord. by apply ends_check. Qed.

Lemma page_header_cases pg : XLogPageHeaderSize pg = 24 ∨ XLogPageHeaderSize pg = 40.
Proof. unfold XLogPageHeaderSize. destruct (_ =? 0); [by left|by right]. Qed.

Lemma page_header_range pg : 24 ≤ XLogPageHeaderSize pg ≤ 40.
Proof. destruct (page_header_cases pg) as [-> | ->]; lia. Qed.

Lemma same_buffer_ok s s' : same_buffer s s' → buffer_ok s → buffer_ok s'.
Proof. unfold same_buffer, buffer_ok. intros [-> ->]. done. Qed.

Lemma ends_buffer {A} (m : R A) s : buffer_ok s → ends m s (λ _ s', same_buffer s s') → ends m s (λ _ s', buffer_ok s').
Proof. intros Hb. apply ends_mono. intros ? s' Hs. by apply (same_buffer_ok s s'). Qed.

Lemma read_page_err_ends l s : 0 ≤ xlp_rem_len (readBuf s) → ends read_page_err s (λ n s', buffer_ok s' ∧ (0 ≤ l → n < 0 ∨ XLogPageHeaderSize (readBuf s') ≤ n)).
Proof. intros. split; [by split; [|left]|intros _; left; lia]. Qed.

Lemma ends_read_page p l s : callback_ok → buffer_ok s →
  ends (ReadPageInternal p l) s (λ n s', buffer_ok s' ∧ (0 ≤ l → n < 0 ∨ XLogPageHeaderSize (readBuf s') ≤ n)).
Proof.
  intros Hcb Hb. unfold ReadPageInternal. do 3 apply ends_bind. cbn [ends gets]. destruct (_ && _) eqn:E.
  - apply andb_true_iff in E as [_ E]. bool_to_prop. split; [done|intros Hl; right]. destruct Hb as [_ [?|?]]; [lia|done].
  - destruct (read_page p (Z.max l SizeOfXLogShortPHD)) as [[len pg]|] eqn:Hrp; [|by apply read_page_err_ends, Hb]. destruct (Hcb _ _ _ _ Hrp) as [_ Hrem].
    apply ends_bind. cbn [ends modify]. destruct (len <=? SizeOfXLogShortPHD) eqn:El; [by apply read_page_err_ends|]. bool_to_prop. change SizeOfXLogShortPHD with 24 in El.
    destruct (if len <? XLogPageHeaderSize pg then _ else _) as [[len' pg']|] eqn:Hrp2; [|by apply read_page_err_ends].
    assert (XLogPageHeaderSize pg' ≤ len' ∧ 0 ≤ xlp_rem_len pg') as [Hlen Hrem'].
    { destruct (len <? _) eqn:E2 in Hrp2; bool_to_prop; [|by simplify_eq]. destruct (Hcb _ _ _ _ Hrp2) as [? ?]. split; [|done].
      pose proof (page_header_range pg'). pose proof (page_header_cases pg). lia. }
    apply ends_bind. cbn [ends modify]. apply ends_bind. eapply ends_mono; [|apply ends_page_header]. intros [] s1 [Hs1 Hs2].
    + apply ends_bind. unfold ends, modify, mret, M_ret, buffer_ok. cbn [with_read readBuf readLen]. rewrite Hs1. cbn [with_readBuf readBuf]. split; [split; [done|by right]|intros _; by right].
    + apply read_page_err_ends. by rewrite Hs1.
Qed.

Lemma ends_reassemble fuel p n page got hd rand s : callback_ok → buffer_ok s → 0 ≤ got → got < n → n - got ≤ Z.of_nat fuel →
  ends (reassemble fuel p n page got hd rand) s (λ _ s', buffer_ok s').
Proof.
  intros Hcb. induction fuel as [|fuel IH] in page, got, hd, s |- *; intros Hb Hg Hlt Hfuel; [lia|]. cbn [reassemble]. apply ends_bind.
  eapply ends_mono; [|by apply ends_read_page]. intros readOff s1 [Hb1 Hoff].
  destruct (readOff <? 0) eqn:E; [done|]. bool_to_prop. destruct Hoff as [|Hoff]; [change SizeOfXLogShortPHD with 24; unfold XLOG_BLCKSZ; lia|lia|]. apply ends_bind. cbn [ends gets].
  apply ends_bind, ends_bail. intros _. apply ends_bind, ends_bail. intros Hrem. apply orb_false_iff in Hrem as [Hrem1 Hrem2]. bool_to_prop.
  apply ends_bind. destruct (readOff <? XLogPageHeaderSize (readBuf s1)) eqn:E2; bool_to_prop; [lia|]. cbn [ends mret M_ret]. apply ends_bind. cbn [ends gets].
  pose proof (page_header_range (readBuf s1)). destruct Hb1 as [Hr1 Hr2]. rewrite if_min. unfold XLOG_BLCKSZ. set (len := Z.min _ _). assert (1 ≤ len) as Hlen by lia.
  apply ends_bind. assert (ends (if readOff <? XLogPageHeaderSize (readBuf s1) + len then ReadPageInternal (page + 8192) (XLogPageHeaderSize (readBuf s1) + len) else mret readOff) s1
    (λ _ s', buffer_ok s')) as Hread.
  { destruct (_ <? _); [|by split]. eapply ends_mono; [|apply ends_read_page; [done|by split]]. by intros ? ? [? _]. }
  eapply ends_mono; [|exact Hread]. intros ? s2 Hb2. cbn beta in Hb2. do 2 (apply ends_bind; cbn [ends gets]). apply ends_bind. cbn [ends modify]. do 2 (apply ends_bind; cbn [ends gets]).
  apply ends_bind. set (s3 := with_record _ s2). assert (buffer_ok s3) as Hb3 by exact Hb2.
  assert (ends (if hd then mret true else ValidXLogRecordHeader p (ReadRecPtr s3) (readRecordBuf s3) rand) s3 (λ _ s', buffer_ok s')) as Hhd.
  { destruct hd; [done|]. apply ends_buffer; [done|apply ends_record_header]. }
  eapply ends_mono; [|exact Hhd]. intros valid s4 Hb4. destruct (negb valid); [done|]. destruct (got + len <? n) eqn:E3; bool_to_prop; [apply IH; try done; lia|done].
Qed.

Lemma ends_allocate n s : ends (allocate_recordbuf n) s (λ _ s', same_buffer s s').
Proof. unfold allocate_recordbuf. by destruct (palloc_ok _). Qed.
Lemma ends_switch rec s : ends (switch_end rec) s (λ _ s', True).
Proof. unfold switch_end. by destruct (_ && _). Qed.

Lemma ends_read_record arg s : callback_ok → buffer_ok s → ends (read_record arg) s (λ _ _, True).
Proof.
  intros Hcb Hb. unfold read_record. do 2 (apply ends_bind; cbn [ends modify]). do 2 (apply ends_bind; cbn [ends gets]). apply ends_bind. cbn [ends modify].
  set (rand := if arg =? _ then _ else true). set (P := if arg =? _ then _ else arg). set (s0 := with_currRecPtr _ _). assert (buffer_ok s0) as Hb0 by done. clearbody s0.
  assert (0 ≤ P mod XLOG_BLCKSZ < XLOG_BLCKSZ) as HP by by apply Z.mod_pos_bound. apply ends_bind.
  eapply ends_mono; [|by apply ends_read_page]. intros readOff s1 [Hb1 _]. clearbody P.
  apply ends_bind, ends_bail. intros _. apply ends_bind. cbn [ends gets]. apply ends_bind, ends_bail. intros _. apply ends_bind, ends_bail. intros _. cbv zeta.
  set (off := if _ =? 0 then XLogPageHeaderSize _ else _). set (P' := if _ =? 0 then _ else P). set (n := le_value _). apply ends_bind.
  eapply ends_mono; [|apply ends_buffer; [exact Hb1|]]; [|destruct (off <=? _); [apply ends_record_header|by apply ends_check]].
  intros valid s2 Hb2. cbn beta in Hb2. destruct (negb valid); [done|]. apply ends_bind. cbn [ends gets]. apply ends_bind.
  eapply ends_mono; [|apply ends_buffer; [exact Hb2|]]; [|destruct (_ <? n); [apply ends_allocate|done]]. intros al s3 Hb3. cbn beta in Hb3.
  apply ends_bind, ends_bail. intros _. apply ends_bind. eapply (ends_mono _ _ (λ _ _, True)).
  - intros ? s4 _. apply ends_bind. cbn [ends gets]. apply ends_bind. eapply ends_mono; [|apply ends_switch]. done.
  - assert (0 ≤ P' mod XLOG_BLCKSZ < XLOG_BLCKSZ) as HP' by by apply Z.mod_pos_bound. destruct (_ <? n) eqn:E; bool_to_prop.
    + apply ends_bind. cbn [ends modify]. apply ends_bind. eapply ends_mono; [|apply ends_reassemble; [done|done|lia|done|lia]]. intros pg s4 Hb4. cbn beta in Hb4.
      apply ends_bind. cbn [ends gets]. apply ends_bind. eapply ends_mono; [|apply ends_record]. intros v s5 _. by destruct (negb v).
    + apply ends_bind. eapply ends_mono; [|by apply ends_read_page]. intros ro s4 _. destruct (ro <? 0); [done|]. apply ends_bind. cbn [ends gets]. apply ends_bind.
      eapply ends_mono; [|apply ends_record]. intros v s5 _. by destruct (negb v).
Qed.

(** Termination. With a callback that delivers at least what it is asked for,
    [XLogReadRecord] without decoding returns, whatever is on the pages. *)
Theorem read_terminates arg s : callback_ok → buffer_ok s → ∃ rec s', runs (XLogReadRecord false arg) s rec s'.
Proof.
  intros Hcb Hb. pose proof (ends_read_record arg s Hcb Hb) as He. unfold ends in He. unfold XLogReadRecord, runs. destruct (read_record arg s) as [[rec|l|] s1]; [by eexists _, _..|done].
Qed.

End safe.
