(* ===== verification/XLogCorrect.v ===== *)
(** * What the write-ahead log guarantees

    The theorems about inserting, flushing and reading back, for every configuration that
    backends and WAL writer can reach after start-up, with examples that run the system. *)

From S2P Require Import Prelude FsmPage XLogDefs XLogInsert XLogWriter XLogInv XLogPages XLogBackend XLogTickets XLogReserve XLogDump XLogAdvance XLogProgress XLogReach XLogReader XLogReadBack XLogReadSafe.
From stdpp Require Import list.

Open Scope Z_scope.

Section correct.
Context `{WalGeometryOk} `{WalEnv}.

(** ** Reading what has been flushed *)

Definition local_reader (upto : Z) (d : Z → Z → xlog_page) : ReaderEnv :=
  {| read_page := read_local_xlog_page upto d; sysid := system_identifier; palloc_ok := λ _, true |}.

Lemma local_serves upto d : serves (H2 := local_reader upto d) d upto.
Proof.
  intros g reqLen Hg Hreq HX. unfold read_page, local_reader, read_local_xlog_page. destruct (g * XLOG_BLCKSZ + reqLen <=? upto) eqn:E; bool_to_prop; [|lia]. cbn [negb].
  eexists _, _. split; [reflexivity|]. unfold file_page, XLByteToSeg, XLOG_BLCKSZ in *. rewrite seg_start, seg_of_pos, Z.div_mul by done.
  destruct (_ <=? upto) eqn:E2; bool_to_prop; (split; [lia|]; split; [by split|lia]).
Qed.

(** What a reader finds that starts at [p] and may read the files [d] up to [upto]. *)
Definition reads_back (upto : Z) (d : Z → Z → xlog_page) (p : Z) (records : list (list Z)) : Prop :=
  ∃ s, runs (read_records (H1 := local_reader upto d) (length records)) (reader_at p) records s.

(** ** Runs of the system *)

(** [σ] has been reached from a start-up with the log that ends at [EndOfLog]. *)
Record wal_run (EndOfLog LastRec : Z) (disk : Z → Z → xlog_page) (σ : wal_config) : Prop := {
  wr_few : 0 ≤ max_backends < 2 ^ 30;
  wr_start : startup_ok EndOfLog disk;
  wr_steps : ∃ ctl m, startup_mem EndOfLog LastRec ctl disk = Some m ∧ wal_reachable (startup_config m) σ;
  wr_bounded : log_bounded σ }.

Section run.
Variables (EndOfLog LastRec : Z) (disk : Z → Z → xlog_page) (σ : wal_config).
Hypothesis Hrun : wal_run EndOfLog LastRec disk σ.
Abbreviation base := (XLogRecPtrToBytePos EndOfLog).
Abbreviation lastsize := (XLogRecPtrToBytePos EndOfLog - XLogRecPtrToBytePos LastRec).
Abbreviation log := (m_log (mem σ)).
Abbreviation wrt := (m_wrt (mem σ)).

Lemma run_inv : wal_inv base lastsize σ.
Proof. destruct Hrun as [? ? (ctl & m & Hm & Hr) ?]. by eapply wal_reachable_inv. Qed.

Lemma run_base : 0 < base ∧ base mod 8 = 0 ∧ XLogBytePosToEndRecPtr base = EndOfLog.
Proof. eapply startup_base, Hrun. Qed.

Lemma run_flushed : ResultFlush wrt < log_limit ∧ flushResult wrt ≤ ResultFlush wrt.
Proof.
  pose proof run_inv as Hi. destruct (inv_files _ _ _ Hi) as [Ho _ Ht _ _]. pose proof (li_limit _ _ _ (inv_log _ _ _ Hi)). lia.
Qed.

(** Files that hold the log up to [X] can be read up to there. *)
Lemma run_reads d X n : (∀ c l, 0 ≤ COMP_CRC32C c l < 2 ^ 32) → 0 ≤ ThisTimeLineID → 0 ≤ XLogRecPtrToBytePos LastRec < base →
  disk_upto base log d X → X < log_limit → (n ≤ length log)%nat → end_at base log n ≤ X → reads_back X d EndOfLog (l_bytes <$> take n log).
Proof.
  intros Hcrc Htli Hlast Hd HX Hn Hend. destruct run_base as (Hb0 & Hb8 & Hbe). unfold reads_back. rewrite length_fmap, length_take_le by done.
  apply (read_records_ok (H2 := local_reader X d) base lastsize Hb0 Hb8 log d X (inv_chain _ _ _ run_inv) Hd (local_serves X d) (or_intror eq_refl) n 0); try done; try lia.
  - split; [by left|done].
  - by left.
Qed.

End run.

(** ** Schedules *)

Inductive wal_event : Type :=
| EvStep (t : Z)
| EvInsert (t : Z) (r : xlog_request)
| EvWait (t : Z)
| EvWriter (choice : bool).

Definition event_ok (e : wal_event) : Prop :=
  match e with EvStep t | EvWait t => 0 ≤ t < max_backends | EvInsert t r => 0 ≤ t < max_backends ∧ request_ok r | EvWriter _ => True end.

Definition run_event (σ : wal_config) (e : wal_event) : wal_config :=
  match e with
  | EvStep t => run_backend t σ
  | EvInsert t r => match b_pc (backends σ t) with InsIdle => backend_at t (go_pc (InsCheck r) (backends σ t)) (mem σ) σ | _ => σ end
  | EvWait t => match b_pc (backends σ t) with InsIdle => backend_at t (go_pc (InsWaitFlush (XactLastRecEnd (backends σ t))) (backends σ t)) (mem σ) σ | _ => σ end
  | EvWriter choice => run_writer choice σ
  end.

Lemma events_reachable σ0 l : Forall event_ok l → wal_reachable σ0 (fold_left run_event l σ0).
Proof.
  intros Hl. revert σ0. induction Hl as [|e l He _ IH]; intros σ0; [apply rtc_refl|]. cbn [fold_left].
  unfold wal_reachable. transitivity (run_event σ0 e); [|apply IH]. destruct e as [t|t r|t|choice]; cbn.
  - apply rtc_once. by apply step_backend.
  - destruct (b_pc (backends σ0 t)) eqn:E; try apply rtc_refl. destruct He. apply rtc_once. by apply step_insert.
  - destruct (b_pc (backends σ0 t)) eqn:E; try apply rtc_refl. apply rtc_once. by apply step_wait_flush.
  - apply rtc_once. by apply step_writer.
Qed.

(** ** Theorems *)

(** C4: No panic. Whatever the interleaving of inserting backends with the WAL writer and
    with changes of the redo pointer, no backend finds its page buffer taken by another page
    after waiting for it ([GetXLogBuffer]: could not find WAL buffer), and the WAL writer
    never is to write past the end of the log ([XLogWrite]). *)
Theorem wal_no_panic EndOfLog LastRec disk σ : wal_run EndOfLog LastRec disk σ → writer σ ≠ WPanic ∧ ∀ t, b_pc (backends σ t) ≠ InsPanic.
Proof.
  intros Hrun. pose proof (run_inv _ _ _ _ Hrun) as Hi. split.
  - intros E. pose proof (inv_writer _ _ _ Hi) as Hw. by rewrite E in Hw.
  - intros t E. destruct (bi_ok _ _ _ _ _ (inv_backends _ _ _ Hi) t) as [Hw _]. by rewrite E in Hw.
Qed.

(** C2: Crash recovery. A reader that starts where the log ended at start-up and sees only
    what has been synced to the segment files reads the records that were inserted since,
    byte by byte, in the order of their space in the log, as far as the flush position. *)
Theorem wal_crash_recovery EndOfLog LastRec disk σ (n : nat) : wal_run EndOfLog LastRec disk σ →
  (∀ c l, 0 ≤ COMP_CRC32C c l < 2 ^ 32) → 0 ≤ ThisTimeLineID → 0 ≤ XLogRecPtrToBytePos LastRec < XLogRecPtrToBytePos EndOfLog →
  (n ≤ length (m_log (mem σ)))%nat → end_at (XLogRecPtrToBytePos EndOfLog) (m_log (mem σ)) n ≤ ResultFlush (m_wrt (mem σ)) →
  reads_back (ResultFlush (m_wrt (mem σ))) (synced (m_wrt (mem σ))) EndOfLog (l_bytes <$> take n (m_log (mem σ))).
Proof.
  intros Hrun Hcrc Htli Hlast Hn Hend. pose proof (run_inv _ _ _ _ Hrun) as Hi. eapply run_reads; try done; [apply Hi|by eapply run_flushed].
Qed.

(** C5: Commits are durable. When [XLogWaitFlush] lets a backend go, everything up to the
    position it waited for can be read back from what has been synced. *)
Theorem wal_commit_durable EndOfLog LastRec disk σ t recptr (n : nat) : wal_run EndOfLog LastRec disk σ →
  (∀ c l, 0 ≤ COMP_CRC32C c l < 2 ^ 32) → 0 ≤ ThisTimeLineID → 0 ≤ XLogRecPtrToBytePos LastRec < XLogRecPtrToBytePos EndOfLog →
  b_pc (backends σ t) = InsWaitFlush recptr → b_pc (backends (run_backend t σ) t) = InsIdle →
  (n ≤ length (m_log (mem σ)))%nat → end_at (XLogRecPtrToBytePos EndOfLog) (m_log (mem σ)) n ≤ recptr →
  reads_back (ResultFlush (m_wrt (mem σ))) (synced (m_wrt (mem σ))) EndOfLog (l_bytes <$> take n (m_log (mem σ))).
Proof.
  intros Hrun Hcrc Htli Hlast Hpc Hgo Hn Hend. pose proof (run_inv _ _ _ _ Hrun) as Hi. destruct (run_flushed _ _ _ _ Hrun) as [Hlim Hfl].
  assert (recptr ≤ flushResult (m_wrt (mem σ))).
  { unfold run_backend, XLogInsertRecordSingle in Hgo. rewrite Hpc in Hgo. cbn in Hgo. unfold XLogWaitFlush in Hgo. rewrite fn_lookup_insert in Hgo.
    destruct (_ <? recptr) eqn:E in Hgo; bool_to_prop; [congruence|done]. }
  eapply run_reads; try done; [apply Hi|lia].
Qed.

(** C22: The log has no gap and no overlap. The records take the space from the start position
    to the insert position one after the other, each rounded up to the alignment, and every
    record names the position of the one before it. *)
Theorem wal_records_tile EndOfLog LastRec disk σ : wal_run EndOfLog LastRec disk σ →
  (∀ k r, m_log (mem σ) !! k = Some r → Z.of_nat (length (l_bytes r)) < XLogRecordMaxSize ∧ l_start r mod 8 = 0 ∧
     l_start r = match k with O => XLogRecPtrToBytePos EndOfLog
                 | S j => from_option (λ r', l_start r' + MAXALIGN (Z.of_nat (length (l_bytes r')))) 0 (m_log (mem σ) !! j) end) ∧
  (∀ k r r', m_log (mem σ) !! k = Some r → m_log (mem σ) !! S k = Some r' → get_prev (l_bytes r') = XLogBytePosToRecPtr (l_start r)) ∧
  currentBytePos (m_word (mem σ)) = match last (m_log (mem σ)) with Some r => l_start r + MAXALIGN (Z.of_nat (length (l_bytes r))) | None => XLogRecPtrToBytePos EndOfLog end.
Proof.
  intros Hrun. pose proof (run_inv _ _ _ _ Hrun) as Hi. pose proof (inv_chain _ _ _ Hi) as Hch. destruct (run_base _ _ _ _ Hrun) as (Hb0 & Hb8 & Hbe).
  set (log := m_log (mem σ)) in *. split_and!.
  - intros k r Hr. pose proof (Hch k r Hr) as (Hs & _). pose proof (record_len _ _ _ _ _ (Hch k r Hr)) as Hl.
    destruct (tip_at_le (XLogRecPtrToBytePos EndOfLog) _ Hb8 log k k Hch ltac:(done)) as [_ Ha]. split_and!; [unfold rec_len in Hl; lia|by rewrite Hs|].
    rewrite Hs. destruct k as [|j]; [done|]. destruct (lookup_lt_is_Some_2 log j) as [r' Hr']; [apply lookup_lt_Some in Hr; lia|]. rewrite Hr'. by rewrite (tip_at_S _ _ _ _ Hr').
  - intros k r r' Hr Hr'. destruct (Hch _ _ Hr') as (_ & _ & q & Hq & ->). rewrite (prev_of_next _ _ _ Hch k r r' Hr Hr') in *. apply record_prev.
    pose proof (Hch k r Hr) as (Hs & _). pose proof (tip_at_base _ _ Hb8 log k Hch). pose proof (record_len _ _ _ _ _ (Hch k r Hr)).
    assert (0 ≤ l_start r) as Hs0 by lia. assert (inside r (XLogBytePosToRecPtr (l_start r))) as Hin.
    { unfold inside. split; [lia|]. apply rec_lt_end; lia. }
    pose proof (inside_log _ _ Hb0 Hb8 log k r _ Hch Hr Hin). pose proof (lookup_lt_Some _ _ _ Hr) as Hk. pose proof (end_at_top _ _ Hb0 Hb8 log Hch (S k) Hk) as Ht.
    pose proof (li_limit _ _ _ (inv_log _ _ _ Hi)) as Hli. fold log in Hli. pose proof (end_at_pos _ _ Hb0 Hb8 log k Hch). unfold log_limit in *. lia.
  - rewrite (li_word _ _ _ (inv_log _ _ _ Hi)). cbn [currentBytePos]. fold log. unfold tip. by destruct (last log).
Qed.

(** What is written is what was reserved. When a backend has copied the last byte of its
    record, the aligned position behind it is the end of the space it reserved, and it has
    copied as many bytes as its record has. *)
Theorem wal_space_exact EndOfLog LastRec disk σ t a c p : wal_run EndOfLog LastRec disk σ → b_pc (backends σ t) = InsCopy a c p →
  CopyXLogRecordToWAL (m_buf (mem σ)) (cachedPage (backends σ t)) (cachedPos (backends σ t)) a c p = CopyDone →
  MAXALIGN (CurrPos c) = EndPos a ∧ copied c = write_len a.
Proof.
  intros Hrun Hpc Hdone. pose proof (run_inv _ _ _ _ Hrun) as Hi. destruct (run_base _ _ _ _ Hrun) as (Hb0 & Hb8 & _). pose proof (inv_chain _ _ _ Hi) as Hch.
  assert (p = CopyData ∧ rdata_data c = [] ∧ rdata c = []) as (-> & Hd & Hds) by (destruct p; cbn in Hdone; repeat case_match; simplify_eq; done).
  destruct (bi_ok _ _ _ _ _ (inv_backends _ _ _ Hi) t) as [Hok _]. rewrite Hpc in Hok. destruct Hok as [Hins (r & Hr & Hcp)].
  destruct (insertion_start _ _ Hb0 Hb8 σ Hi a Hins) as (r' & Hr' & Hs & _ & Hl & _ & He & _). destruct Hins as (r'' & Hr'' & _ & HE & _ & HW & _).
  assert (r' = r) as -> by congruence. assert (r'' = r) as -> by congruence.
  pose proof (lookup_lt_Some _ _ _ Hr) as Hk. pose proof (end_at_top _ _ Hb0 Hb8 _ Hch (S (ticket a)) Hk) as Ht. unfold end_at in Ht. rewrite (tip_at_S _ _ _ r) in Ht by done.
  pose proof (li_limit _ _ _ (inv_log _ _ _ Hi)) as Hli. unfold log_limit in Hli.
  destruct (copy_finished 0 (window (m_buf (mem σ)) + bufs) r c) as (_ & Hal & _); try done; [lia|]. split; [congruence|].
  destruct Hcp as (b & g & _ & _ & Hb & Hco & Hdr & _). rewrite Hd, Hds in Hdr. cbn in Hdr. apply (f_equal length) in Hdr. rewrite length_drop in Hdr. cbn in Hdr.
  rewrite Hco, HW. unfold rec_len in *. lia.
Qed.

(** One record per entry. Two backends that are about to report their records in the
    status table do it in different entries, and the entry of each is empty. *)
Theorem wal_entries_exclusive EndOfLog LastRec disk σ t t' a a' : wal_run EndOfLog LastRec disk σ →
  b_pc (backends σ t) = InsReport a → b_pc (backends σ t') = InsReport a' → t ≠ t' →
  status_entry (currlrc a) ≠ status_entry (currlrc a') ∧ endLSN (m_status (mem σ) (status_entry (currlrc a))) = 0.
Proof.
  intros Hrun Hpc Hpc' Hne. pose proof (run_inv _ _ _ _ Hrun) as Hi. destruct (inv_backends _ _ _ Hi) as [Hok _ Honce].
  destruct (Hok t) as [Hp1 _], (Hok t') as [Hp2 _]. rewrite Hpc in Hp1. rewrite Hpc' in Hp2. destruct Hp1 as [(r & Hr & _ & _ & -> & _ & HF) HC], Hp2 as [(r' & Hr' & _ & _ & -> & _ & HF') HC'].
  rewrite !entry_index. assert (holds_ticket (backends σ t) (ticket a)) as Hh by (exists a; by rewrite Hpc). split.
  - intros He. apply Hne, (Honce t t' (ticket a)); [done|]. exists a'. rewrite Hpc'. split; [done|]. symmetry. by apply (entry_distinct (retired σ)).
  - destruct (si_entry _ _ _ _ _ _ (inv_status _ _ _ Hi) (ticket a) HF HC) as (_ & _ & He). apply He. intros [_ Hn]. apply Hn. by exists t.
Qed.

(** C33: A round of the WAL writer ends. From every configuration that can be reached, the WAL
    writer, running alone, gets to the end of [XLogBackgroundFlush]. *)
Theorem wal_round_ends EndOfLog LastRec disk σ : wal_run EndOfLog LastRec disk σ → ∃ σ', writer_reach σ σ' ∧ writer σ' = WIdle.
Proof.
  intros Hrun. destruct (run_base _ _ _ _ Hrun) as (Hb0 & Hb8 & _). destruct (round_ends _ _ Hb0 Hb8 σ (run_inv _ _ _ _ Hrun)) as (σ' & Hr & _ & Hw & _). exists σ'. split; [by apply round_is_writer|done].
Qed.

(** Positions. The two ways from usable bytes to log positions have one inverse and keep
    the order, and a record never starts in a page header. *)
Theorem wal_position_roundtrip b b' : 0 ≤ b → 0 ≤ b' →
  XLogRecPtrToBytePos (XLogBytePosToRecPtr b) = b ∧ XLogRecPtrToBytePos (XLogBytePosToEndRecPtr b) = b ∧
  (XLogBytePosToRecPtr b < XLogBytePosToRecPtr b' ↔ b < b') ∧ (XLogBytePosToEndRecPtr b < XLogBytePosToEndRecPtr b' ↔ b < b') ∧
  SizeOfXLogShortPHD ≤ XLogBytePosToRecPtr b mod XLOG_BLCKSZ.
Proof.
  intros Hb Hb'. split_and!; [by apply byte_of_rec|by apply byte_of_end|by apply rec_ptr_lt|by apply end_ptr_lt|].
  destruct (byte_page b Hb) as (g & Hg & Hgb & -> & _). pose proof (page_first_succ g). pose proof (header_size_cases g). unfold XLOG_BLCKSZ.
  rewrite <- Z.add_assoc, page_offset by lia. change SizeOfXLogShortPHD with 24. lia.
Qed.

End correct.

(** ** A run: two backends and the WAL writer *)

Module example.

#[local] Instance geometry : WalGeometry := {| XLogSegSize := 16384; XLogCacheBlck := 1 |}.
#[local] Instance geometry_ok : WalGeometryOk.
Proof. by split. Qed.
#[local] Instance env : WalEnv :=
  {| COMP_CRC32C := λ crc l, (crc + foldr Z.add 0 l) mod 2 ^ 32; ThisTimeLineID := 1; system_identifier := 7; xlog_write_flush_split := true; max_backends := 2 |}.

Definition payload : list Z := [3; 1; 4; 1; 5; 9; 2; 6; 5].
Definition request (flush : bool) : xlog_request :=
  {| rechdr := {| xl_tot_len := 41; xl_term := 1; xl_xid := 77; xl_prev := 0; xl_info := 0; xl_rmid := 10; xl_bucket_id := 0;
                  xl_crc := (0xFFFFFFFF + foldr Z.add 0 payload) mod 2 ^ 32 |};
     first_data := payload; more_data := []; fpw_lsn := 0; need_flush := flush |}.

Definition EndOfLog : Z := 16384.
Definition LastRec : Z := 16384 - 64.
Definition ctl : insert_ctl := {| RedoRecPtr := 0; fullPageWrites := true; forcePageWrites := false |}.
Definition disk : Z → Z → xlog_page := λ _ _, new_page false 0.
Definition start : wal_config := startup_config (match startup_mem EndOfLog LastRec ctl disk with Some m => m | None => {| m_word := {| currentBytePos := 0; byteSize := 0; LRC := 0 |};
   m_ctl := ctl; m_buf := {| xlblocks := λ _, 0; pages := λ _, new_page false 0; InitializedUpTo := 0; sentResult := 0 |}; m_status := λ _, {| endLSN := 0; entry_LRC := 0 |};
   m_wrt := {| RqstWrite := 0; RqstFlush := 0; ResultWrite := 0; ResultFlush := 0; flushResult := 0; lastWalStatusEntryFlushed := 0; lastLRCScanned := 0; lastLRCWrited := 0;
               lastLRCFlushed := 0; openLogSegNo := 0; files := disk; synced := disk |}; m_log := [] |} end).

(** Both backends insert at the same time; then the WAL writer goes round, and backend 0
    waits for its record. *)
Definition copying_events : list wal_event := [EvInsert 0 (request true); EvInsert 1 (request false)] ++ concat (replicate 46 [EvStep 1; EvStep 0]).
Definition schedule : list wal_event :=
  copying_events ++ replicate 20 (EvStep 0) ++ replicate 20 (EvStep 1) ++ [EvWriter false] ++ replicate 20 (EvWriter true) ++ [EvWait 0].

Lemma request_fits flush : request_ok (request flush).
Proof. destruct flush; (split_and!; [done|done|done|done|done|done|done|by intros [? _]]). Qed.

Lemma schedule_ok : Forall event_ok schedule ∧ Forall event_ok copying_events.
Proof. split; repeat (constructor; [first [done|split; [done|apply request_fits]]|]); constructor. Qed.

Lemma start_run l : Forall event_ok l → log_bounded (fold_left run_event l start) → wal_run EndOfLog LastRec disk (fold_left run_event l start).
Proof.
  intros Hl Hb. split; [done| |exists ctl, (mem start); split; [by vm_compute|by apply events_reachable]|done].
  split; [done|done|done|by left|done].
Qed.

(** Both backends are about to report. *)
Definition reporting_events : list wal_event := copying_events ++ replicate 3 (EvStep 1) ++ replicate 4 (EvStep 0).

Lemma reporting_ok : Forall event_ok reporting_events.
Proof. apply Forall_app. split; [apply schedule_ok|]. repeat (constructor; [done|]); constructor. Qed.

Lemma crc_ok c l : 0 ≤ COMP_CRC32C c l < 2 ^ 32.
Proof. by apply Z.mod_pos_bound. Qed.

Abbreviation done_state := (fold_left run_event schedule start).
Abbreviation copied_state := (fold_left run_event copying_events start).
Abbreviation reporting_state := (fold_left run_event reporting_events start).

Lemma wal_no_panic_witness : writer (fold_left run_event schedule start) ≠ WPanic ∧ ∀ t, b_pc (backends (fold_left run_event schedule start) t) ≠ InsPanic.
Proof. apply (wal_no_panic EndOfLog LastRec disk), start_run; [apply schedule_ok|by vm_compute]. Defined.

Lemma wal_crash_recovery_witness :
  reads_back (ResultFlush (m_wrt (mem done_state))) (synced (m_wrt (mem done_state))) EndOfLog (l_bytes <$> take 2 (m_log (mem done_state))).
Proof. apply (wal_crash_recovery EndOfLog LastRec disk); [apply start_run; [apply schedule_ok|by vm_compute]|apply crc_ok|done|by vm_compute|by vm_compute; lia|by vm_compute]. Defined.

Lemma wal_commit_durable_witness :
  reads_back (ResultFlush (m_wrt (mem done_state))) (synced (m_wrt (mem done_state))) EndOfLog (l_bytes <$> take 2 (m_log (mem done_state))).
Proof.
  apply (wal_commit_durable EndOfLog LastRec disk _ 0 16520);
    [apply start_run; [apply schedule_ok|by vm_compute]|apply crc_ok|done|by vm_compute|by vm_compute|by vm_compute|by vm_compute; lia|by vm_compute].
Defined.

Lemma wal_records_tile_witness :
  currentBytePos (m_word (mem done_state)) =
    match last (m_log (mem done_state)) with Some r => l_start r + MAXALIGN (Z.of_nat (length (l_bytes r))) | None => XLogRecPtrToBytePos EndOfLog end.
Proof. apply (wal_records_tile EndOfLog LastRec disk), start_run; [apply schedule_ok|by vm_compute]. Defined.

Lemma wal_space_exact_witness : ∃ a c p, b_pc (backends copied_state 1) = InsCopy a c p ∧ MAXALIGN (CurrPos c) = EndPos a ∧ copied c = write_len a.
Proof.
  eexists _, _, _. split; [vm_compute; reflexivity|].
  eapply (wal_space_exact EndOfLog LastRec disk copied_state 1); [apply start_run; [apply schedule_ok|by vm_compute]|vm_compute; reflexivity|vm_compute; reflexivity].
Defined.

Lemma wal_entries_exclusive_witness : ∃ a a', b_pc (backends reporting_state 0) = InsReport a ∧ b_pc (backends reporting_state 1) = InsReport a' ∧
  status_entry (currlrc a) ≠ status_entry (currlrc a') ∧ endLSN (m_status (mem reporting_state) (status_entry (currlrc a))) = 0.
Proof.
  eexists _, _. split; [vm_compute; reflexivity|]. split; [vm_compute; reflexivity|].
  eapply (wal_entries_exclusive EndOfLog LastRec disk reporting_state 0 1); [apply start_run; [apply reporting_ok|by vm_compute]|vm_compute; reflexivity|vm_compute; reflexivity|done].
Defined.

(** Both records are in the buffers, nothing has been written. *)
Definition inserted_events : list wal_event := reporting_events ++ replicate 3 (EvStep 0) ++ replicate 3 (EvStep 1) ++ [EvWait 0].
Abbreviation inserted_state := (fold_left run_event inserted_events start).

Lemma inserted_run : wal_run EndOfLog LastRec disk inserted_state.
Proof. apply start_run; [|by vm_compute]. apply Forall_app. split; [apply reporting_ok|]. repeat (constructor; [done|]); constructor. Qed.

Lemma wal_round_ends_witness : ∃ σ', writer_reach inserted_state σ' ∧ writer σ' = WIdle.
Proof. apply (wal_round_ends EndOfLog LastRec disk), inserted_run. Defined.

Lemma wal_position_roundtrip_witness : XLogRecPtrToBytePos (XLogBytePosToRecPtr 8152) = 8152 ∧ XLogBytePosToEndRecPtr 8152 < XLogBytePosToRecPtr 8152.
Proof. split; [by apply (wal_position_roundtrip 8152 8153)|by vm_compute]. Defined.

(** Reading the synced files of the run. *)
#[local] Instance reader : ReaderEnv := local_reader (ResultFlush (m_wrt (mem done_state))) (synced (m_wrt (mem done_state))).

Lemma read_checksum_witness : ∃ rec s', runs (XLogReadRecord false 16424) (reader_at 0) (Some rec) s' ∧ checksum_ok rec.
Proof. eexists _, _. split; [vm_compute; reflexivity|]. eapply (read_checksum false 16424 (reader_at 0)). vm_compute. reflexivity. Defined.

(** Behind the flush position there is nothing to read; the record at 16424 has data that
    are not a header. *)
Definition past_end : XLogReaderState := (XLogReadRecord true 16520 (reader_at 16424)).2.
Definition undecoded : XLogReaderState := (XLogReadRecord true 16424 (reader_at 16424)).2.

Lemma read_error_position_witness :
  (runs (XLogReadRecord true 16520) (reader_at 16424) None past_end ∧ EndRecPtr past_end = 16424 ∧
   (same_position (reader_at 16424) past_end ∨ ∃ rec s1, runs (XLogReadRecord false 16520) (reader_at 16424) (Some rec) s1)) ∧
  (runs (XLogReadRecord true 16424) (reader_at 16424) None undecoded ∧ ReadRecPtr undecoded = 16424).
Proof.
  split; (split; [vm_compute; reflexivity|]); [|vm_compute; reflexivity]. split; [vm_compute; reflexivity|].
  destruct (read_error_position true 16520 (reader_at 16424) past_end) as [(H1 & H2 & _)|(_ & rec & s1 & _ & _ & Hr & _)];
    [vm_compute; reflexivity|left; exact (conj H1 H2)|right; exact (ex_intro _ rec (ex_intro _ s1 Hr))].
Defined.

Definition short_reader : ReaderEnv := {| read_page := λ _ l, Some (l, new_page false 0); sysid := 7; palloc_ok := λ _, true |}.

Lemma read_terminates_witness : ∃ rec s', runs (XLogReadRecord (H1 := short_reader) false 16424) (reader_at 0) rec s'.
Proof. apply (read_terminates (H1 := short_reader)); [|by split; [|left]]. by intros ? ? ? ? [= <- <-]. Defined.

End example.
