(* ===== verification/XLogWait.v ===== *)
(** * Waiting for the WAL writer

    What [XLogInsert] and [XLogWriter] leave out: backends that wait for a flush
    ([XLogWaitFlush]) or for page buffers ([XLogWaitBufferInit]) sleep on a lock and a
    semaphore, and the main loop of the WAL writer ([WalWriterMain]) decides when to sync, when
    to sleep and when to wake them. The configurations of [XLogWriter] are extended by the two
    locks and by the place in the main loop; the steps that are not about waiting are those of
    [XLogWriter]. The theorem is that a backend whose position has been reached, or will be
    once the writer has caught up, can always be woken: no wake-up is lost for good. *)

From S2P Require Import Prelude FsmPage XLogDefs XLogInsert XLogWriter XLogInv XLogPages XLogBackend XLogTickets XLogScan XLogDump XLogAdvance XLogProgress XLogReach XLogCorrect.
From stdpp Require Import list.

Open Scope Z_scope.

(** ** The locks *)

(** [walFlushWaitLock] and [walBufferInitWaitLock]. *)
Inductive wait_id : Type := WaitFlush | WaitInit.
#[export] Instance wait_id_eq_dec : EqDecision wait_id.
Proof. solve_decision. Defined.

(** Where a waiting backend is: about to read the result, to call [LWLockAcquireOrWait], asleep
    in it, in [PGSemaphoreLock] with the lock held, and about to release the lock. *)
Inductive wait_phase : Type := WaitRead | WaitLock | WaitQueued | WaitSema | WaitRelease.
#[export] Instance wait_phase_eq_dec : EqDecision wait_phase.
Proof. solve_decision. Defined.

Record wait_lock := {
  sem : Z;
  holder : option Z;
  phase : Z → wait_phase }.

Definition set_phase (t : Z) (p : wait_phase) (l : wait_lock) : wait_lock := {| sem := sem l; holder := holder l; phase := <[t := p]> (phase l) |}.

(** [LWLockAcquireOrWait]: the lock if it is free; otherwise the caller sleeps until it is
    free, and then does not have it. *)
Definition wait_acquire (t : Z) (l : wait_lock) : wait_lock :=
  match holder l with
  | None => {| sem := sem l; holder := Some t; phase := <[t := WaitSema]> (phase l) |}
  | Some _ => set_phase t WaitQueued l
  end.

(** [PGSemaphoreLock]: sleep until there is something to take. *)
Definition wait_sleep (t : Z) (l : wait_lock) : wait_lock :=
  if 0 <? sem l then {| sem := sem l - 1; holder := holder l; phase := <[t := WaitRelease]> (phase l) |} else l.

(** [LWLockRelease] wakes all that sleep in [LWLockAcquireOrWait]. *)
Definition wait_release (t : Z) (l : wait_lock) : wait_lock :=
  {| sem := sem l; holder := None; phase := <[t := WaitRead]> (λ u, match phase l u with WaitQueued => WaitRead | p => p end) |}.

(** A turn of the loop of [XLogWaitFlush] and of [XLogWaitBufferInit], behind the read. *)
Definition wait_turn (t : Z) (l : wait_lock) : wait_lock :=
  match phase l t with
  | WaitRead => set_phase t WaitLock l
  | WaitLock => wait_acquire t l
  | WaitQueued => l
  | WaitSema => wait_sleep t l
  | WaitRelease => wait_release t l
  end.

(** [WakeupWalSemaphore], in two steps. *)
Inductive sema_op : Type := PGSemaphoreReset | PGSemaphoreUnlock.
Definition WakeupWalSemaphore (k : wait_id) : list (sema_op * wait_id) := [(PGSemaphoreReset, k); (PGSemaphoreUnlock, k)].

Definition sema_step (op : sema_op) (l : wait_lock) : wait_lock :=
  {| sem := match op with PGSemaphoreReset => 0 | PGSemaphoreUnlock => sem l + 1 end; holder := holder l; phase := phase l |}.

(** ** The main loop of the WAL writer *)

(** In [XLogBackgroundFlush()], before [XLogBackgroundFlush(true)], behind it, and in the timed
    wait for the next entry of the status table. *)
Inductive loop_pc : Type := LoopFlush | LoopSync | LoopCheck | LoopSleep.

(** [waking]: the rest of the wake-ups that the writer is about to do. *)
Record wait_config := {
  wal : wal_config;
  locks : wait_id → wait_lock;
  loop : loop_pc;
  times_wrote_nothing : Z;
  waking : list (sema_op * wait_id) }.

Definition set_lock (k : wait_id) (l : wait_lock) (c : wait_config) : wait_config :=
  {| wal := wal c; locks := <[k := l]> (locks c); loop := loop c; times_wrote_nothing := times_wrote_nothing c; waking := waking c |}.
Definition set_wal (σ : wal_config) (c : wait_config) : wait_config :=
  {| wal := σ; locks := locks c; loop := loop c; times_wrote_nothing := times_wrote_nothing c; waking := waking c |}.
Definition set_waking (ops : list (sema_op * wait_id)) (c : wait_config) : wait_config :=
  {| wal := wal c; locks := locks c; loop := loop c; times_wrote_nothing := times_wrote_nothing c; waking := ops |}.
Definition go_loop (p : loop_pc) (n : Z) (c : wait_config) : wait_config :=
  {| wal := wal c; locks := locks c; loop := p; times_wrote_nothing := n; waking := waking c |}.

(** What a backend waits for, and what the writer has published. *)
Definition waiting_for (pc : insert_pc) : option (wait_id * Z) :=
  match pc with
  | InsWaitFlush recptr => Some (WaitFlush, recptr)
  | InsCopy _ _ (CopyGet _ (GetWait waitEndPtr)) => Some (WaitInit, waitEndPtr)
  | _ => None
  end.

Definition result (k : wait_id) (m : wal_mem) : Z := match k with WaitFlush => flushResult (m_wrt m) | WaitInit => sentResult (m_buf m) end.

Class WalWriterEnv := walwriter_sleep_threshold : Z.

Section wait.
Context `{WalGeometryOk} `{WalEnv} `{WalWriterEnv}.

(** A step of backend [t]. The loops end with a read that finds the position reached. *)
Definition wait_backend (t : Z) (c : wait_config) : wait_config :=
  match waiting_for (b_pc (backends (wal c) t)) with
  | Some (k, recptr) =>
      if bool_decide (phase (locks c k) t = WaitRead) && negb (result k (mem (wal c)) <? recptr) then set_wal (run_backend t (wal c)) c
      else set_lock k (wait_turn t (locks c k)) c
  | None => set_wal (run_backend t (wal c)) c
  end.

(** The wake-ups of [XLogBackgroundFlush] behind [XLogDoFlush] and behind the advance of the
    buffers. *)
Definition wakeups (pc : writer_pc) : list (sema_op * wait_id) :=
  match pc with
  | WSync l => if negb xlog_write_flush_split || fl_need_flush l then WakeupWalSemaphore WaitFlush else []
  | WSent _ => WakeupWalSemaphore WaitInit
  | _ => []
  end.

(** A step of [WalWriterMain]. [choice]: [XLogBackgroundFlush] stops waiting for the next record;
    the timed wait times out. *)
Definition WalWriterMain (choice : bool) (c : wait_config) : wait_config :=
  match waking c with
  | (op, k) :: ops => set_lock k (sema_step op (locks c k)) (set_waking ops c)
  | [] =>
      let σ := wal c in
      match loop c with
      | LoopFlush =>
          match writer σ with
          | WIdle =>
              let σ' := run_writer false σ in
              match writer σ' with
              | WIdle =>
                  let n := times_wrote_nothing c + 1 in
                  go_loop (if walwriter_sleep_threshold <? n then LoopSync else LoopFlush) n (set_wal σ' c)
              | _ => set_wal σ' c
              end
          | pc => set_waking (wakeups pc) (set_wal (run_writer choice σ) c)
          end
      | LoopSync => go_loop LoopCheck (times_wrote_nothing c) (set_waking (WakeupWalSemaphore WaitFlush) (set_wal (run_writer true σ) c))
      | LoopCheck => if endLSN (pCriticalEntry σ) =? 0 then go_loop LoopSleep (times_wrote_nothing c) c else go_loop LoopFlush 0 c
      | LoopSleep =>
          if endLSN (pCriticalEntry σ) =? 0 then
            if choice then set_waking (WakeupWalSemaphore WaitFlush ++ WakeupWalSemaphore WaitInit) c else c
          else go_loop LoopFlush 0 c
      end
  end.

(** ** The system *)

Inductive wait_step : wait_config → wait_config → Prop :=
| wait_backend_step c t : 0 ≤ t < max_backends → wait_step c (wait_backend t c)
| wait_writer_step c choice : wait_step c (WalWriterMain choice c)
(** A backend begins an insertion or a wait, or a checkpoint changes the redo position. *)
| wait_insert_step c t r : 0 ≤ t < max_backends → b_pc (backends (wal c) t) = InsIdle → request_ok r →
    wait_step c (set_wal (backend_at t (go_pc (InsCheck r) (backends (wal c) t)) (mem (wal c)) (wal c)) c)
| wait_flush_step c t : 0 ≤ t < max_backends → b_pc (backends (wal c) t) = InsIdle →
    wait_step c (set_wal (backend_at t (go_pc (InsWaitFlush (XactLastRecEnd (backends (wal c) t))) (backends (wal c) t)) (mem (wal c)) (wal c)) c)
| wait_redo_step c ctl :
    wait_step c (set_wal {| mem := set_ctl ctl (mem (wal c)); backends := backends (wal c); writer := writer (wal c); retired := retired (wal c) |} c).

Definition wait_start (m : wal_mem) : wait_config :=
  {| wal := startup_config m; locks := λ _, {| sem := 0; holder := None; phase := λ _, WaitRead |}; loop := LoopFlush; times_wrote_nothing := 0; waking := [] |}.

(** Steps of the WAL writer and of the backends that wait for [k]. *)
Definition waits_for (k : wait_id) (t : Z) (c : wait_config) : Prop := ∃ p, waiting_for (b_pc (backends (wal c) t)) = Some (k, p).
Definition helps (k : wait_id) : wait_config → wait_config → Prop :=
  rtc (λ c c', (∃ choice, c' = WalWriterMain choice c) ∨ ∃ t, waits_for k t c ∧ c' = wait_backend t c).


(** ** The steps are steps of the log *)

Lemma wait_step_wal c c' : wait_step c c' → rtc wal_step (wal c) (wal c').
Proof.
  intros [c1 t Ht|c1 choice|c1 t r Ht Hpc Hr|c1 t Ht Hpc|c1 ctl].
  - unfold wait_backend. repeat case_match; cbn; try (apply rtc_refl); apply rtc_once; by constructor.
  - unfold WalWriterMain. repeat case_match; cbn; try (apply rtc_refl); apply rtc_once; constructor.
  - apply rtc_once. by constructor.
  - apply rtc_once. by constructor.
  - apply rtc_once. constructor.
Qed.

Lemma wait_reach_wal c c' : rtc wait_step c c' → wal_reachable (wal c) (wal c').
Proof. induction 1 as [|? ? ? Hs _ IH]; [apply rtc_refl|]. unfold wal_reachable in *. etrans; [by apply wait_step_wal|exact IH]. Qed.

(** ** The invariant *)

Record lock_ok (waits : Z → Prop) (l : wait_lock) : Prop := {
  lo_waits : ∀ t, phase l t ≠ WaitRead → waits t;
  lo_holder : ∀ t, holder l = Some t ↔ phase l t = WaitSema ∨ phase l t = WaitRelease;
  lo_queue : ∀ t, phase l t = WaitQueued → holder l ≠ None }.

(** [wv_synced]: before the writer sleeps, it has synced what is written. *)
Record wait_inv (c : wait_config) : Prop := {
  wv_idle : loop c ≠ LoopFlush → writer (wal c) = WIdle;
  wv_synced : loop c = LoopCheck ∨ loop c = LoopSleep → ResultWrite (m_wrt (mem (wal c))) ≤ ResultFlush (m_wrt (mem (wal c)));
  wv_sent : sent_ok (wal c);
  wv_locks : ∀ k, lock_ok (λ t, waits_for k t c) (locks c k) }.

Lemma lock_mono (P Q : Z → Prop) l : (∀ t, phase l t ≠ WaitRead → P t → Q t) → lock_ok P l → lock_ok Q l.
Proof. intros HPQ [Hw Hh Hq]. split; [|done|done]. intros t Ht. by apply HPQ, Hw. Qed.

Lemma sema_step_ok P op l : lock_ok P l → lock_ok P (sema_step op l).
Proof. intros [Hw Hh Hq]. by split. Qed.

Lemma fn_insert_at `{EqDecision A} {B} (a : A) (b : B) (f : A → B) a' : <[a := b]> f a' = if decide (a = a') then b else f a'.
Proof. done. Qed.

Lemma wait_turn_ok (P : Z → Prop) t l : P t → lock_ok P l → lock_ok P (wait_turn t l).
Proof.
  intros Ht [Hw Hh Hq]. unfold wait_turn, wait_acquire, wait_sleep, wait_release. pose proof (Hh t) as Hht.
  destruct (phase l t) eqn:Hp; [|destruct (holder l) as [u|] eqn:Hho| |destruct (0 <? sem l)|]; try (by split);
    (split; intros u'; cbn [phase holder set_phase]; rewrite ?fn_insert_at; pose proof (Hw u') as Hwu; pose proof (Hh u') as Hhu; pose proof (Hq u') as Hqu;
     (destruct (decide (t = u')) as [<-|Hne]; [|try (destruct (phase l u') eqn:Hpu)]); try rewrite Hp in *; naive_solver).
Qed.

(** A change of backend [t], which is in no lock's loop. *)
Lemma locks_backend c σ' t : wait_inv c → (∀ k, phase (locks c k) t = WaitRead) → (∀ u, u ≠ t → backends σ' u = backends (wal c) u) →
  ∀ k, lock_ok (λ u, waits_for k u (set_wal σ' c)) (locks c k).
Proof.
  intros Hi Hr Hb k. apply (lock_mono (λ u, waits_for k u c)); [|apply Hi]. intros u Hu. unfold waits_for. cbn. rewrite Hb; [done|]. intros ->. by rewrite Hr in Hu.
Qed.

Lemma phase_not_waiting c t k : wait_inv c → ¬ waits_for k t c → phase (locks c k) t = WaitRead.
Proof. intros Hi Hn. destruct (decide (phase (locks c k) t = WaitRead)) as [|Hp]; [done|]. destruct Hn. by apply (lo_waits _ _ (wv_locks _ Hi k)). Qed.

Lemma run_backend_frame t σ : writer (run_backend t σ) = writer σ ∧ sentResult (m_buf (mem (run_backend t σ))) = sentResult (m_buf (mem σ)) ∧
  flushResult (m_wrt (mem (run_backend t σ))) = flushResult (m_wrt (mem σ)) ∧ ResultFlush (m_wrt (mem (run_backend t σ))) = ResultFlush (m_wrt (mem σ)) ∧
  ResultWrite (m_wrt (mem (run_backend t σ))) = ResultWrite (m_wrt (mem σ)) ∧ ∀ u, u ≠ t → backends (run_backend t σ) u = backends σ u.
Proof.
  unfold run_backend. destruct (XLogInsertRecordSingle (mem σ) (backends σ t)) as [m b] eqn:E. cbn. split; [done|].
  assert (sentResult (m_buf m) = sentResult (m_buf (mem σ)) ∧ flushResult (m_wrt m) = flushResult (m_wrt (mem σ)) ∧ ResultFlush (m_wrt m) = ResultFlush (m_wrt (mem σ)) ∧
          ResultWrite (m_wrt m) = ResultWrite (m_wrt (mem σ))) as (? & ? & ? & ?).
  { revert E. unfold XLogInsertRecordSingle, advance_request. repeat case_match; intros; simplify_eq/=; done. }
  split_and!; try done. intros u Hu. by rewrite fn_lookup_insert_ne.
Qed.

(** Changes of the log that the writer has no part in. *)
Lemma inv_backend c σ' t : wait_inv c → (∀ k, phase (locks c k) t = WaitRead) → (∀ u, u ≠ t → backends σ' u = backends (wal c) u) → writer σ' = writer (wal c) →
  sentResult (m_buf (mem σ')) = sentResult (m_buf (mem (wal c))) → ResultFlush (m_wrt (mem σ')) = ResultFlush (m_wrt (mem (wal c))) →
  ResultWrite (m_wrt (mem σ')) = ResultWrite (m_wrt (mem (wal c))) → wait_inv (set_wal σ' c).
Proof.
  intros Hi Hr Hb Hw Hs Hf HW. split; cbn; [rewrite Hw; apply Hi|rewrite Hf, HW; apply Hi| |by apply (locks_backend _ _ t)].
  pose proof (wv_sent _ Hi) as Hse. unfold sent_ok in *. by rewrite Hw, Hs.
Qed.

Lemma inv_lock c k l ops : wait_inv c → lock_ok (λ t, waits_for k t c) l → wait_inv (set_lock k l (set_waking ops c)).
Proof.
  intros [Hid Hsy Hse Hlo] Hl. split; try done. intros k'. cbn. rewrite fn_insert_at. destruct (decide (k = k')) as [<-|]; [done|apply Hlo].
Qed.

Lemma wait_backend_inv t c : wait_inv c → wait_inv (wait_backend t c).
Proof.
  intros Hi. destruct (run_backend_frame t (wal c)) as (? & ? & _ & ? & ? & ?). unfold wait_backend. destruct (waiting_for _) as [[k p]|] eqn:Hw.
  - destruct (_ && _) eqn:E.
    + apply (inv_backend _ _ t); try done. apply andb_prop in E as [E _]. apply bool_decide_eq_true in E. intros k'. destruct (decide (k' = k)) as [->|]; [done|].
      apply phase_not_waiting; [done|]. intros [p' Hp']. congruence.
    + apply (inv_lock c k _ (waking c)); [done|]. apply wait_turn_ok; [by exists p|apply Hi].
  - apply (inv_backend _ _ t); try done. intros k. apply phase_not_waiting; [done|]. intros [p' Hp']. congruence.
Qed.

(** A step of the log's writer, at a place in the main loop that fits. *)
Lemma inv_writer_step c choice p n ops : wait_inv c → (p ≠ LoopFlush → writer (run_writer choice (wal c)) = WIdle) →
  (p = LoopCheck ∨ p = LoopSleep → ResultWrite (m_wrt (mem (run_writer choice (wal c)))) ≤ ResultFlush (m_wrt (mem (run_writer choice (wal c))))) →
  wait_inv (go_loop p n (set_waking ops (set_wal (run_writer choice (wal c)) c))).
Proof.
  intros Hi Hp Hs. split; cbn; [done|done|by apply sent_grows, Hi|]. intros k. apply (lock_mono (λ t, waits_for k t c)); [|apply Hi].
  intros t _. unfold waits_for. cbn. by destruct (run_writer_frame choice (wal c)) as [-> _].
Qed.

Lemma do_flush_done w : ResultWrite (XLogDoFlush w) ≤ ResultFlush (XLogDoFlush w).
Proof. unfold XLogDoFlush. destruct (_ <? _) eqn:E; bool_to_prop; [by destruct (XLByteInPrevSeg _ _)|done]. Qed.

Lemma run_sync_idle σ : writer σ = WIdle → writer (run_writer true σ) = WIdle ∧ mem (run_writer true σ) = set_wrt (XLogDoFlush (m_wrt (mem σ))) (mem σ).
Proof. intros Hw. unfold run_writer. by rewrite Hw. Qed.

Lemma inv_loop c p n : wait_inv c → (p ≠ LoopFlush → writer (wal c) = WIdle) →
  (p = LoopCheck ∨ p = LoopSleep → ResultWrite (m_wrt (mem (wal c))) ≤ ResultFlush (m_wrt (mem (wal c)))) → wait_inv (go_loop p n c).
Proof. intros [? ? ? ?] Hp Hs. by split. Qed.

Lemma wait_writer_inv choice c : wait_inv c → wait_inv (WalWriterMain choice c).
Proof.
  intros Hi. unfold WalWriterMain. destruct (waking c) as [|[op k] ops] eqn:Hwk; [|by apply inv_lock, sema_step_ok, Hi]. destruct (loop c) eqn:Hl.
  - pose proof (λ ch ops, inv_writer_step c ch LoopFlush (times_wrote_nothing c) ops Hi ltac:(done) ltac:(by intros [|])) as Hgo. unfold go_loop, set_waking, set_wal in Hgo. cbn in Hgo.
    assert (∀ ch ops, wait_inv (set_waking ops (set_wal (run_writer ch (wal c)) c))) as Hgo'. { unfold set_waking, set_wal. cbn. rewrite Hl. apply Hgo. }
    destruct (writer (wal c)); try apply Hgo'. destruct (writer (run_writer false (wal c))) eqn:Hw'; try (specialize (Hgo' false []); unfold set_waking, set_wal in Hgo'; cbn in Hgo'; rewrite <- Hwk in Hgo'; exact Hgo').
    pose proof (inv_writer_step c false (if walwriter_sleep_threshold <? times_wrote_nothing c + 1 then LoopSync else LoopFlush) (times_wrote_nothing c + 1) [] Hi) as Hgo2.
    unfold set_waking, set_wal, go_loop in *. cbn in *. rewrite Hwk. apply Hgo2; [done|]. by destruct (_ <? _); intros [|].
  - destruct (run_sync_idle (wal c)) as [Hw Hm]; [apply Hi; congruence|]. apply inv_writer_step; [done|done|]. intros _. rewrite Hm. apply do_flush_done.
  - destruct (_ =? 0); apply inv_loop; try done; [intros _; apply Hi; congruence|intros _; apply Hi; by left|by intros [|]].
  - destruct (_ =? 0); [|apply inv_loop; try done; by intros [|]]. destruct choice; [|done]. destruct Hi. by split.
Qed.

Lemma wait_step_inv c c' : wait_step c c' → wait_inv c → wait_inv c'.
Proof.
  intros [c1 t Ht|c1 choice|c1 t r Ht Hpc Hr|c1 t Ht Hpc|c1 ctl] Hi.
  - by apply wait_backend_inv.
  - by apply wait_writer_inv.
  - apply (inv_backend _ _ t); try done; [|intros; cbn; by rewrite fn_lookup_insert_ne]. intros k. apply phase_not_waiting; [done|]. intros [p Hp]. by rewrite Hpc in Hp.
  - apply (inv_backend _ _ t); try done; [|intros; cbn; by rewrite fn_lookup_insert_ne]. intros k. apply phase_not_waiting; [done|]. intros [p Hp]. by rewrite Hpc in Hp.
  - destruct Hi. by split.
Qed.

Lemma wait_start_inv m : wait_inv (wait_start m).
Proof. split; cbn; try done; [by intros [|]|]. intros k. split; cbn; naive_solver. Qed.

Lemma wait_reach_inv c c' : rtc wait_step c c' → wait_inv c → wait_inv c'.
Proof. induction 1; eauto using wait_step_inv. Qed.

(** ** The writer on its own *)

Section alone.
Variables (base lastsize : Z).
Hypothesis base_pos : 0 < base.
Hypothesis base_aligned : base mod 8 = 0.

Abbreviation wal_inv := (wal_inv base lastsize).

Definition good (c : wait_config) : Prop := wal_inv (wal c) ∧ wait_inv c.

Definition main_reach : wait_config → wait_config → Prop := rtc (λ c c', ∃ choice, c' = WalWriterMain choice c).

(** What the writer leaves alone, and what only grows. *)
Record main_keeps (c c' : wait_config) : Prop := {
  mk_backends : backends (wal c') = backends (wal c);
  mk_log : m_log (mem (wal c')) = m_log (mem (wal c));
  mk_holder : ∀ k, holder (locks c' k) = holder (locks c k);
  mk_phase : ∀ k, phase (locks c' k) = phase (locks c k);
  mk_result : ∀ k, result k (mem (wal c)) ≤ result k (mem (wal c')) }.

Lemma main_keeps_refl c : main_keeps c c.
Proof. by split. Qed.

Lemma main_keeps_trans c1 c2 c3 : main_keeps c1 c2 → main_keeps c2 c3 → main_keeps c1 c3.
Proof. intros [? ? Hh Hp Hr] [? ? Hh' Hp' Hr']. split; [congruence|congruence|intros k; by rewrite Hh'|intros k; by rewrite Hp'|]. intros k. specialize (Hr k). specialize (Hr' k). lia. Qed.

Lemma main_wal choice c : wal (WalWriterMain choice c) = wal c ∨ ∃ ch, wal (WalWriterMain choice c) = run_writer ch (wal c).
Proof. unfold WalWriterMain. repeat case_match; cbn; eauto. Qed.

Lemma main_locks choice c k : holder (locks (WalWriterMain choice c) k) = holder (locks c k) ∧ phase (locks (WalWriterMain choice c) k) = phase (locks c k).
Proof.
  unfold WalWriterMain. destruct (waking c) as [|[op k'] ops].
  - repeat case_match; done.
  - cbn. rewrite fn_insert_at. by destruct (decide (k' = k)) as [->|].
Qed.

Lemma main_step_good choice c : good c → good (WalWriterMain choice c) ∧ main_keeps c (WalWriterMain choice c).
Proof.
  intros [Hw Hi]. assert (wal_inv (wal (WalWriterMain choice c))) as Hw' by (destruct (main_wal choice c) as [->|[ch ->]]; [done|by apply writer_preserves]).
  split; [split; [done|by apply wait_writer_inv]|]. pose proof (main_locks choice c) as Hl.
  split; try (intros k; apply Hl); destruct (main_wal choice c) as [->|[ch ->]]; try done; try apply run_writer_frame.
  intros [|]; [by apply (flush_grows base lastsize)|by apply sent_grows, Hi].
Qed.

Lemma main_reach_good c c' : main_reach c c' → good c → good c' ∧ main_keeps c c'.
Proof.
  induction 1 as [c|c c1 c' [choice ->] _ IH]; intros Hg; [split; [done|apply main_keeps_refl]|].
  destruct (main_step_good choice c Hg) as [Hg1 Hk1]. destruct (IH Hg1) as [Hg' Hk']. split; [done|]. by eapply main_keeps_trans.
Qed.

Lemma main_first choice c c' : main_reach (WalWriterMain choice c) c' → main_reach c c'.
Proof. intros Hr. eapply rtc_l; [by exists choice|done]. Qed.

(** The pending wake-ups. *)
Lemma main_drain c : ∃ c', main_reach c c' ∧ waking c' = [] ∧ wal c' = wal c ∧ loop c' = loop c ∧ times_wrote_nothing c' = times_wrote_nothing c.
Proof.
  remember (waking c) as ops eqn:Hops. revert c Hops. induction ops as [|[op k] ops IH]; intros c Hops; [exists c; split; [apply rtc_refl|by split_and!]|].
  destruct (IH (WalWriterMain true c)) as (c' & Hr & Hwk & Hw & Hl & Ht); [unfold WalWriterMain; by rewrite <- Hops|]. exists c'.
  split; [by apply (main_first true)|]. split; [done|]. revert Hw Hl Ht. unfold WalWriterMain. by rewrite <- Hops.
Qed.

(** A call of [XLogBackgroundFlush()] that finds something, in the main loop. *)
Lemma main_flush_step choice c : waking c = [] → loop c = LoopFlush → (writer (wal c) = WIdle → choice = false ∧ writer (run_writer choice (wal c)) ≠ WIdle) →
  wal (WalWriterMain choice c) = run_writer choice (wal c) ∧ loop (WalWriterMain choice c) = LoopFlush.
Proof.
  intros Hwk Hl Hc. unfold WalWriterMain. rewrite Hwk, Hl. destruct (writer (wal c)) eqn:Hw; try (by cbn). destruct Hc as [-> Hc]; [done|].
  by destruct (writer (run_writer false (wal c))).
Qed.

Lemma main_round c σ' : waking c = [] → loop c = LoopFlush → round_reach (wal c) σ' → ∃ c', main_reach c c' ∧ waking c' = [] ∧ loop c' = LoopFlush ∧ wal c' = σ'.
Proof.
  intros Hwk Hl Hr. remember (wal c) as σ eqn:Hσ. revert c Hwk Hl Hσ. induction Hr as [σ|σ σ1 σ' (choice & -> & Hc) _ IH]; intros c Hwk Hl ->; [exists c; split; [apply rtc_refl|done]|].
  destruct (main_flush_step choice c Hwk Hl Hc) as [Hw1 Hl1]. destruct (main_drain (WalWriterMain choice c)) as (c2 & Hr2 & Hwk2 & Hw2 & Hl2 & _).
  destruct (IH c2) as (c' & Hr' & Hd); [done|congruence|congruence|]. exists c'. split; [|done]. apply (main_first choice). by etrans.
Qed.

Lemma run_writer_nothing σ : writer σ = WIdle → endLSN (pCriticalEntry σ) = 0 → run_writer false σ = σ.
Proof. intros Hw He. unfold run_writer. rewrite Hw. cbn [XLogBackgroundFlush]. fold (pCriticalEntry σ). rewrite He. destruct σ; cbn in *. by rewrite Hw. Qed.

Lemma Z_le_to_nat z : z ≤ Z.of_nat (Z.to_nat z).
Proof. lia. Qed.

(** Rounds that find nothing are counted. *)
Lemma main_count (n : nat) c : waking c = [] → loop c = LoopFlush → writer (wal c) = WIdle → endLSN (pCriticalEntry (wal c)) = 0 →
  walwriter_sleep_threshold - times_wrote_nothing c ≤ Z.of_nat n → ∃ c', main_reach c c' ∧ waking c' = [] ∧ loop c' = LoopSync ∧ wal c' = wal c.
Proof.
  revert c. induction n as [|n IH]; intros c Hwk Hl Hw He Hn;
    assert (WalWriterMain true c = go_loop (if walwriter_sleep_threshold <? times_wrote_nothing c + 1 then LoopSync else LoopFlush) (times_wrote_nothing c + 1) (set_wal (wal c) c)) as Hs
      by (unfold WalWriterMain; by rewrite Hwk, Hl, Hw, run_writer_nothing, Hw);
    (destruct (_ <? _) eqn:E in Hs; bool_to_prop; [exists (WalWriterMain true c); split; [apply rtc_once; by eexists|by rewrite Hs]|]); [lia|].
  destruct (IH (WalWriterMain true c)) as (c' & Hr & Hd); rewrite ?Hs; try done; [cbn; lia|]. exists c'. split; [by apply (main_first true)|]. by rewrite Hs in Hd.
Qed.

(** Asleep, with nothing to write. *)
Definition asleep (c : wait_config) : Prop := waking c = [] ∧ loop c = LoopSleep ∧ endLSN (pCriticalEntry (wal c)) = 0.

Lemma sleep_from_check c : waking c = [] → loop c = LoopCheck → endLSN (pCriticalEntry (wal c)) = 0 → ∃ c', main_reach c c' ∧ asleep c'.
Proof.
  intros Hwk Hl He. exists (WalWriterMain true c). split; [apply rtc_once; by eexists|]. unfold WalWriterMain. rewrite Hwk, Hl, He. by cbn.
Qed.

(** [XLogBackgroundFlush(true)] and what follows. *)
Lemma main_sync c : waking c = [] → loop c = LoopSync → writer (wal c) = WIdle →
  ∃ c', main_reach c c' ∧ waking c' = [] ∧ loop c' = LoopCheck ∧ pCriticalEntry (wal c') = pCriticalEntry (wal c).
Proof.
  intros Hwk Hl Hw. destruct (main_drain (WalWriterMain true c)) as (c' & Hr & Hwk' & Hw' & Hl' & _). exists c'. split; [by apply (main_first true)|]. split; [done|].
  revert Hw' Hl'. unfold WalWriterMain. rewrite Hwk, Hl. cbn. intros -> ->. split; [done|]. destruct (run_sync_idle (wal c) Hw) as [_ Hm]. unfold pCriticalEntry. rewrite Hm. cbn.
  unfold XLogDoFlush. destruct (_ <? _); [|done]. by destruct (XLByteInPrevSeg _ _).
Qed.

Lemma sleep_from_flush c : good c → waking c = [] → loop c = LoopFlush → ∃ c', main_reach c c' ∧ asleep c'.
Proof.
  intros [Hw Hi] Hwk Hl. destruct (writer_quiet base lastsize base_pos base_aligned _ _ Hw (le_n _)) as (σ1 & Hr1 & _ & Hid & He & _).
  destruct (main_round c σ1 Hwk Hl Hr1) as (c1 & Hm1 & Hwk1 & Hl1 & <-).
  destruct (main_count _ c1 Hwk1 Hl1 Hid He (Z_le_to_nat _)) as (c2 & Hm2 & Hwk2 & Hl2 & Hw2).
  destruct (main_sync c2 Hwk2 Hl2) as (c3 & Hm3 & Hwk3 & Hl3 & He3); [congruence|].
  destruct (sleep_from_check c3 Hwk3 Hl3) as (c4 & Hm4 & Hs4); [congruence|]. exists c4. split; [|done]. by do 3 (etrans; [done|]).
Qed.

Lemma sleep_any c : good c → ∃ c', main_reach c c' ∧ asleep c'.
Proof.
  intros Hg. assert (∀ c1, main_reach c c1 → waking c1 = [] → loop c1 = LoopFlush → ∃ c', main_reach c c' ∧ asleep c') as Hflush.
  { intros c1 Hr Hwk Hl. destruct (main_reach_good _ _ Hr Hg) as [Hg1 _]. destruct (sleep_from_flush c1 Hg1 Hwk Hl) as (c' & Hr' & Hs). exists c'. split; [by etrans|done]. }
  assert (∀ c1, main_reach c c1 → waking c1 = [] → loop c1 = LoopCheck → ∃ c', main_reach c c' ∧ asleep c') as Hcheck.
  { intros c1 Hr Hwk Hl. destruct (decide (endLSN (pCriticalEntry (wal c1)) = 0)) as [He|He].
    - destruct (sleep_from_check c1 Hwk Hl He) as (c' & Hr' & Hs). exists c'. split; [by etrans|done].
    - apply (Hflush (WalWriterMain true c1)); [etrans; [done|apply rtc_once; by eexists]| |];
        unfold WalWriterMain; rewrite Hwk, Hl, (proj2 (Z.eqb_neq _ _) He); done. }
  destruct (main_drain c) as (c1 & Hr1 & Hwk1 & Hw1 & Hl1 & _). destruct (main_reach_good _ _ Hr1 Hg) as [[_ Hi1] _]. destruct (loop c1) eqn:Hl; [by apply (Hflush c1)| |by apply (Hcheck c1)|].
  - destruct (main_sync c1 Hwk1 Hl) as (c2 & Hr2 & Hwk2 & Hl2 & _); [apply Hi1; congruence|]. apply (Hcheck c2); [by etrans|done|done].
  - destruct (decide (endLSN (pCriticalEntry (wal c1)) = 0)) as [He|He]; [by exists c1|].
    apply (Hflush (WalWriterMain true c1)); [etrans; [done|apply rtc_once; by eexists]| |]; unfold WalWriterMain; rewrite Hwk1, Hl, (proj2 (Z.eqb_neq _ _) He); done.
Qed.

(** The timeout posts both semaphores. *)
Lemma sleep_posts c : asleep c → ∃ c', main_reach c c' ∧ asleep c' ∧ wal c' = wal c ∧ ∀ k, sem (locks c' k) = 1.
Proof.
  intros (Hwk & Hl & He). exists (WalWriterMain true (WalWriterMain true (WalWriterMain true (WalWriterMain true (WalWriterMain true c))))).
  split; [do 5 apply (main_first true); apply rtc_refl|].
  replace (WalWriterMain true c) with (set_waking (WakeupWalSemaphore WaitFlush ++ WakeupWalSemaphore WaitInit) c) by (unfold WalWriterMain; by rewrite Hwk, Hl, He).
  split; [by split|]. split; [done|]. by intros [|].
Qed.

(** Sooner or later both semaphores are posted, and everything that is written is synced. *)
Lemma writer_posts c : good c → ∃ c', main_reach c c' ∧ good c' ∧ main_keeps c c' ∧ (∀ k, sem (locks c' k) = 1) ∧ endLSN (pCriticalEntry (wal c')) = 0 ∧
  writer (wal c') = WIdle ∧ flushResult (m_wrt (mem (wal c'))) = ResultWrite (m_wrt (mem (wal c'))).
Proof.
  intros Hg. destruct (sleep_any c Hg) as (c1 & Hr1 & Hs1). destruct (sleep_posts c1 Hs1) as (c2 & Hr2 & (_ & Hl2 & He2) & _ & Hp2). assert (main_reach c c2) as Hr by (by etrans).
  destruct (main_reach_good _ _ Hr Hg) as [Hg2 Hk2]. exists c2. split_and!; try done; destruct Hg2 as [Hw2 Hi2]; [apply Hi2; congruence|].
  destruct (inv_files _ _ _ Hw2) as [[Ho Ho'] _ _ _ _]. pose proof (wv_synced _ Hi2 (or_intror Hl2)). lia.
Qed.

End alone.

(** ** The waiters *)

Lemma helps_step k t c c' : waits_for k t c → helps k (wait_backend t c) c' → helps k c c'.
Proof. intros Hw Hr. eapply rtc_l; [right; by exists t|done]. Qed.

Lemma wait_backend_turn k p t c : waiting_for (b_pc (backends (wal c) t)) = Some (k, p) → phase (locks c k) t ≠ WaitRead → wait_backend t c = set_lock k (wait_turn t (locks c k)) c.
Proof. intros Hw Hp. unfold wait_backend. rewrite Hw. by rewrite bool_decide_eq_false_2. Qed.

(** The position has been reached: the next read ends the wait. *)
Lemma read_returns k p t c : waiting_for (b_pc (backends (wal c) t)) = Some (k, p) → p ≤ result k (mem (wal c)) → phase (locks c k) t = WaitRead →
  waiting_for (b_pc (backends (wal (wait_backend t c)) t)) = None ∧ result k (mem (wal (wait_backend t c))) = result k (mem (wal c)).
Proof.
  intros Hw Hp Hr. unfold wait_backend. rewrite Hw, Hr. rewrite bool_decide_eq_true_2 by done. rewrite (proj2 (Z.ltb_ge _ _) Hp). cbn [andb negb].
  split; [|destruct (run_backend_frame t (wal c)) as (_ & Hs & Hf & _); by destruct k].
  unfold set_wal, run_backend, XLogInsertRecordSingle. cbn [wal]. destruct (b_pc (backends (wal c) t)) as [| | | | |a cv [first [|w|]| | |]| | | | |recptr] eqn:Hpc; simplify_eq/=.
  - rewrite (proj2 (Z.ltb_ge _ _) Hp). cbn. by rewrite fn_lookup_insert.
  - unfold XLogWaitFlush. rewrite (proj2 (Z.ltb_ge _ _) Hp), fn_lookup_insert. done.
Qed.

(** With a post, the holder of the lock lets all others go. *)
Lemma holder_lets_go k u c : wait_inv c → holder (locks c k) = Some u → sem (locks c k) = 1 →
  ∃ c', helps k c c' ∧ wal c' = wal c ∧ phase (locks c' k) u = WaitRead ∧ ∀ t, phase (locks c k) t = WaitQueued → phase (locks c' k) t = WaitRead.
Proof.
  intros Hi Hu Hs. pose proof (wv_locks _ Hi k) as Hlo. pose proof (proj1 (lo_holder _ _ Hlo u) Hu) as Hp. destruct (lo_waits _ _ Hlo u) as [p Hw]; [by destruct Hp as [->| ->]|].
  assert (∀ c1, wal c1 = wal c → phase (locks c1 k) u = WaitRelease → ∃ c', helps k c1 c' ∧ wal c' = wal c ∧ phase (locks c' k) u = WaitRead ∧
          ∀ t, phase (locks c1 k) t = WaitQueued → phase (locks c' k) t = WaitRead) as Hrel.
  { intros c1 Hc1 Hp1. exists (wait_backend u c1). split; [apply (helps_step k u); [exists p; by rewrite Hc1|apply rtc_refl]|].
    rewrite (wait_backend_turn k p) by (by rewrite ?Hc1, ?Hp1). unfold wait_turn. rewrite Hp1. cbn. rewrite !fn_lookup_insert. cbn. rewrite fn_insert_at.
    split; [done|]. split; [by rewrite decide_True|]. intros t Ht. rewrite fn_insert_at, Ht. by case_decide. }
  destruct Hp as [Hp|Hp]; [|by apply Hrel]. set (c1 := wait_backend u c).
  assert (c1 = set_lock k {| sem := 0; holder := Some u; phase := <[u := WaitRelease]> (phase (locks c k)) |} c) as Hc1.
  { unfold c1. rewrite (wait_backend_turn k p) by (by rewrite ?Hp). unfold wait_turn, wait_sleep. by rewrite Hp, Hs, Hu. }
  destruct (Hrel c1) as (c' & Hr & Hw' & Hpu & Hq); [by rewrite Hc1|rewrite Hc1; cbn; rewrite fn_lookup_insert; cbn; apply fn_lookup_insert|].
  exists c'. split; [apply (helps_step k u); [by exists p|done]|]. split_and!; try done. intros t Ht. apply Hq. rewrite Hc1. cbn. rewrite fn_lookup_insert. cbn. rewrite fn_insert_at.
  case_decide; [congruence|done].
Qed.

(** Whatever the waiter is doing, it gets to the read. *)
Lemma waiter_reads k p t c : wait_inv c → waiting_for (b_pc (backends (wal c) t)) = Some (k, p) → sem (locks c k) = 1 →
  ∃ c', helps k c c' ∧ wal c' = wal c ∧ phase (locks c' k) t = WaitRead.
Proof.
  intros Hi Hw Hs. pose proof (wv_locks _ Hi k) as Hlo.
  assert (∀ c1, wait_inv c1 → wal c1 = wal c → sem (locks c1 k) = 1 → phase (locks c1 k) t ≠ WaitLock →
          ∃ c', helps k c1 c' ∧ wal c' = wal c ∧ phase (locks c' k) t = WaitRead) as Hin.
  { intros c1 Hi1 Hw1 Hs1 Hp1. pose proof (wv_locks _ Hi1 k) as Hlo1. destruct (phase (locks c1 k) t) eqn:Hp; try done.
    - exists c1. by split; [apply rtc_refl|].
    - destruct (holder (locks c1 k)) as [u|] eqn:Hu; [|by apply (lo_queue _ _ Hlo1) in Hp]. destruct (holder_lets_go k u c1) as (c' & Hr & Hw' & _ & Hq); try done.
      exists c'. split_and!; [done|congruence|by apply Hq].
    - destruct (holder_lets_go k t c1) as (c' & Hr & Hw' & Hq & _); try done; [apply (lo_holder _ _ Hlo1); by left|]. exists c'. split_and!; [done|congruence|done].
    - destruct (holder_lets_go k t c1) as (c' & Hr & Hw' & Hq & _); try done; [apply (lo_holder _ _ Hlo1); by right|]. exists c'. split_and!; [done|congruence|done]. }
  destruct (decide (phase (locks c k) t = WaitLock)) as [Hp|Hp]; [|by apply Hin].
  assert (wait_backend t c = set_lock k (wait_acquire t (locks c k)) c) as Hb by (rewrite (wait_backend_turn k p) by (by rewrite ?Hp); unfold wait_turn; by rewrite Hp).
  destruct (Hin (wait_backend t c)) as (c' & Hr & Hd).
  - by apply wait_backend_inv.
  - by rewrite Hb.
  - rewrite Hb. cbn. rewrite fn_lookup_insert. unfold wait_acquire. by destruct (holder _).
  - rewrite Hb. cbn. rewrite fn_lookup_insert. unfold wait_acquire. destruct (holder _); cbn; by rewrite fn_lookup_insert.
  - exists c'. split; [|done]. apply (helps_step k t); [by exists p|done].
Qed.

(** ** Waiting ends *)

(** [c] has been reached from a start-up with the log that ends at [EndOfLog]. *)
Record wait_run (EndOfLog LastRec : Z) (disk : Z → Z → xlog_page) (c : wait_config) : Prop := {
  wt_few : 0 ≤ max_backends < 2 ^ 30;
  wt_start : startup_ok EndOfLog disk;
  wt_steps : ∃ ctl m, startup_mem EndOfLog LastRec ctl disk = Some m ∧ rtc wait_step (wait_start m) c;
  wt_bounded : log_bounded (wal c) }.

Lemma wait_run_wal EndOfLog LastRec disk c : wait_run EndOfLog LastRec disk c → wal_run EndOfLog LastRec disk (wal c) ∧ wait_inv c.
Proof.
  intros [Hf Hs (ctl & m & Hm & Hr) Hb]. split; [|by eapply wait_reach_inv, wait_start_inv]. split; try done. exists ctl, m. split; [done|]. by apply wait_reach_wal in Hr.
Qed.

(** The position has been published, or it is in the log and no backend is between the
    reservation of its space and its report. *)
Definition served (c : wait_config) (k : wait_id) (p : Z) : Prop :=
  p ≤ result k (mem (wal c)) ∨
  k = WaitFlush ∧ (∀ t, in_flight (b_pc (backends (wal c) t)) = None) ∧ p ≤ XLogBytePosToEndRecPtr (currentBytePos (m_word (mem (wal c)))).

(** A segment is finished, and synced in the middle of [XLogWrite]. *)
Definition segment_end (pc : writer_pc) : bool := match pc with WDump _ _ _ _ finishing_seg => finishing_seg | _ => false end.

(** What is published is posted at once. *)
Lemma publish_posts choice c k : writer (wal c) ≠ WIdle → result k (mem (wal c)) < result k (mem (run_writer choice (wal c))) →
  segment_end (writer (wal c)) = true ∨ wakeups (writer (wal c)) = WakeupWalSemaphore k.
Proof.
  intros Hw. unfold run_writer, result. destruct (writer (wal c)) as [| | | | | |l v i ip fs| | | | | | | |]; cbn [XLogBackgroundFlush segment_end wakeups]; intros Hlt.
  all: try (destruct k; cbn in Hlt; lia).
  - done.
  - destruct (_ =? _); destruct k; cbn in Hlt; lia.
  - destruct (_ =? _); [destruct choice|]; destruct k; cbn in Hlt; lia.
  - revert Hlt. unfold XLogWrite. destruct k; repeat case_match; simplify_eq/=; lia.
  - left. revert Hlt. unfold XLogWriteDump. destruct k, fs; repeat case_match; simplify_eq/=; lia.
  - right. destruct (_ || _); destruct k; cbn in Hlt; try lia; done.
  - destruct (advance_needed _ _); destruct k; cbn in Hlt; lia.
  - destruct k; cbn in Hlt; [lia|]. by right.
Qed.

Lemma wakeup_posts choice c k : waking c = WakeupWalSemaphore k → sem (locks (WalWriterMain choice (WalWriterMain choice c)) k) = 1.
Proof.
  intros Hwk. unfold WalWriterMain at 2. rewrite Hwk. cbn. rewrite !fn_lookup_insert. done.
Qed.

Lemma main_posts choice c k : wait_inv c → waking c = [] → result k (mem (wal c)) < result k (mem (wal (WalWriterMain choice c))) →
  segment_end (writer (wal c)) = true ∨ sem (locks (WalWriterMain choice (WalWriterMain choice (WalWriterMain choice c))) k) = 1.
Proof.
  intros Hi Hwk Hlt. destruct (loop c) eqn:Hl.
  - assert (writer (wal c) = WIdle ∨ writer (wal c) ≠ WIdle) as [Hw|Hw] by (destruct (writer (wal c)); auto).
    + exfalso. revert Hlt. unfold WalWriterMain. rewrite Hwk, Hl, Hw. unfold run_writer. rewrite Hw. cbn [XLogBackgroundFlush]. destruct (_ =? 0); destruct k; cbn; lia.
    + assert (WalWriterMain choice c = set_waking (wakeups (writer (wal c))) (set_wal (run_writer choice (wal c)) c)) as Hs
        by (unfold WalWriterMain; rewrite Hwk, Hl; by destruct (writer (wal c))).
      rewrite Hs in Hlt. destruct (publish_posts choice c k Hw Hlt) as [|Hwu]; [by left|]. right. apply wakeup_posts. by rewrite Hs.
  - right. apply wakeup_posts. revert Hlt. unfold WalWriterMain. rewrite Hwk, Hl. cbn. destruct (run_sync_idle (wal c)) as [_ ->]; [apply Hi; congruence|]. destruct k; cbn; [done|lia].
  - exfalso. revert Hlt. unfold WalWriterMain. rewrite Hwk, Hl. destruct (_ =? 0); cbn; lia.
  - exfalso. revert Hlt. unfold WalWriterMain. rewrite Hwk, Hl. destruct (_ =? 0); [destruct choice|]; cbn; lia.
Qed.

(** C21: No waiter is left behind. In every configuration that can be reached, let a backend
    wait in [XLogWaitFlush] or in [XLogWaitBufferInit], wherever it is there: about to read, to
    lock or to release, asleep on the lock or on the semaphore. If its position has been
    published, or is in the log while no record is being copied, the main loop of the WAL
    writer and the backends that wait for the same thing have a run after which the wait has
    returned. And when the writer publishes a position, its next two steps post the semaphore
    of those that wait for it, except where [XLogWrite] syncs a finished segment. *)
Theorem wal_waiters_return EndOfLog LastRec disk c k : wait_run EndOfLog LastRec disk c →
  (∀ t p, waiting_for (b_pc (backends (wal c) t)) = Some (k, p) → served c k p →
     ∃ c', helps k c c' ∧ waiting_for (b_pc (backends (wal c') t)) = None ∧ p ≤ result k (mem (wal c'))) ∧
  (∀ choice, waking c = [] → result k (mem (wal c)) < result k (mem (wal (WalWriterMain choice c))) →
     segment_end (writer (wal c)) = true ∨ sem (locks (WalWriterMain choice (WalWriterMain choice (WalWriterMain choice c))) k) = 1).
Proof.
  intros Hrun. destruct (wait_run_wal _ _ _ _ Hrun) as [Hrw Hi]. split; [|intros choice; by apply main_posts]. intros t p Hw Hs.
  destruct (run_base _ _ _ _ Hrw) as (Hb0 & Hb8 & _). pose proof (run_inv _ _ _ _ Hrw) as Hwi.
  destruct (writer_posts _ _ Hb0 Hb8 c (conj Hwi Hi)) as (c1 & Hr1 & [Hwi1 Hi1] & [Hkb Hkl _ _ Hkr] & Hsem & He & Hid & Hfl).
  assert (p ≤ result k (mem (wal c1))) as Hp.
  { destruct Hs as [Hp|(-> & Hno & Hp)]; [specialize (Hkr k); lia|]. cbn. rewrite Hfl, (quiet_written _ _ _ Hwi1 Hid He) by (by rewrite Hkb).
    rewrite Hkl. unfold end_at. rewrite tip_at_all by done. by rewrite (li_word _ _ _ (inv_log _ _ _ Hwi)) in Hp. }
  destruct (waiter_reads k p t c1 Hi1) as (c2 & Hr2 & Hw2 & Hp2); [by rewrite Hkb|done|].
  destruct (read_returns k p t c2) as [Hret Hres]; [by rewrite Hw2, Hkb|by rewrite Hw2|done|].
  exists (wait_backend t c2). split; [|split; [done|by rewrite Hres, Hw2]]. etrans; [eapply rtc_subrel, Hr1; intros ? ? Hst; by left|]. etrans; [exact Hr2|].
  apply rtc_once. right. exists t. split; [|done]. exists p. by rewrite Hw2, Hkb.
Qed.

End wait.

(** ** A run: a wake-up that comes too early *)

Section events.
Context `{WalGeometryOk} `{WalEnv} `{WalWriterEnv}.

Definition run_wait_event (c : wait_config) (e : wal_event) : wait_config :=
  match e with
  | EvStep t => wait_backend t c
  | EvWriter choice => WalWriterMain choice c
  | EvInsert _ _ | EvWait _ => set_wal (run_event (wal c) e) c
  end.

Lemma set_wal_same c : set_wal (wal c) c = c.
Proof. by destruct c. Qed.

Lemma wait_events_reach c l : Forall event_ok l → rtc wait_step c (fold_left run_wait_event l c).
Proof.
  intros Hl. revert c. induction Hl as [|e l He _ IH]; intros c; [apply rtc_refl|]. cbn [fold_left]. transitivity (run_wait_event c e); [|apply IH].
  destruct e as [t|t r|t|choice]; cbn.
  - apply rtc_once. by constructor.
  - destruct (b_pc (backends (wal c) t)) eqn:E; try (rewrite set_wal_same; apply rtc_refl). destruct He. apply rtc_once. by constructor.
  - destruct (b_pc (backends (wal c) t)) eqn:E; try (rewrite set_wal_same; apply rtc_refl). apply rtc_once. by constructor.
  - apply rtc_once. constructor.
Qed.

End events.

Module overtaken.

#[local] Existing Instances example.geometry example.geometry_ok example.env.
#[local] Instance threshold : WalWriterEnv := 500.

Definition start : wait_config := wait_start (mem example.start).

(** Backends 0 and 1 have read the old flush position; 0 is asleep, 1 is not yet. The writer
    flushes and posts; 0 takes the post and returns; then 1 goes to sleep. *)
Definition events : list wal_event :=
  example.inserted_events ++ [EvWait 1; EvStep 0; EvStep 0; EvStep 1] ++ replicate 30 (EvWriter true) ++ [EvStep 0; EvStep 0; EvStep 0; EvStep 1; EvStep 1].
Abbreviation late := (fold_left run_wait_event events start).

Lemma events_ok : Forall event_ok events.
Proof.
  apply Forall_app_2; [apply Forall_app_2; [apply example.reporting_ok|]|]; repeat (constructor; [done|]); constructor.
Qed.

Lemma late_run : wait_run example.EndOfLog example.LastRec example.disk late.
Proof.
  split; [done| |exists example.ctl, (mem example.start); split; [by vm_compute|apply wait_events_reach, events_ok]|by vm_compute].
  split; [done|done|done|by left|done].
Qed.

(** Backend 1 sleeps though its position is published, and no post is under way. *)
Lemma wal_waiters_return_witness : phase (locks late WaitFlush) 1 = WaitSema ∧ sem (locks late WaitFlush) = 0 ∧ waking late = [] ∧ 16472 ≤ result WaitFlush (mem (wal late)) ∧
  ∃ c', helps WaitFlush late c' ∧ waiting_for (b_pc (backends (wal c') 1)) = None ∧ 16472 ≤ result WaitFlush (mem (wal c')).
Proof.
  split; [by vm_compute|]. split; [by vm_compute|]. split; [by vm_compute|]. split; [by vm_compute|].
  refine (proj1 (wal_waiters_return example.EndOfLog example.LastRec example.disk late WaitFlush late_run) 1 16472 _ _); [by vm_compute|left; by vm_compute].
Defined.

End overtaken.
