(* ===== verification/BufWord.v ===== *)
(** * The state word of a shared buffer

    A buffer descriptor has one 64-bit word: 32 bits count the pins, four bits the recent
    uses, the rest are flags ([src/include/storage/buf/buf_internals.h]). Pins are added and
    removed by atomic additions; the flags are changed by the holder of the header lock, the
    flag [BM_LOCKED], whose release writes the upper half of the word only. *)

From S2P Require Import Prelude.

Definition BUF_USAGECOUNT_MASK : Z := 0x003C000000000000.
Definition BUF_USAGECOUNT_ONE : Z := Z.shiftl (Z.shiftl 1 18) 32.
Definition BUF_USAGECOUNT_SHIFT : Z := 18 + 32.
Definition BUF_FLAG_MASK : Z := 0xFFC0000000000000.
Definition BM_MAX_USAGE_COUNT : Z := 15.

Definition BUF_STATE_GET_USAGECOUNT (state : Z) : Z := Z.shiftr (Z.land state BUF_USAGECOUNT_MASK) BUF_USAGECOUNT_SHIFT.
Definition BUF_STATE_GET_REFCOUNT (state : Z) : Z := Z.land state 0xFFFFFFFF.

Definition BM_IS_META : Z := Z.shiftl (Z.shiftl 1 17) 32.
Definition BM_LOCKED : Z := Z.shiftl (Z.shiftl 1 22) 32.
Definition BM_DIRTY : Z := Z.shiftl (Z.shiftl 1 23) 32.
Definition BM_VALID : Z := Z.shiftl (Z.shiftl 1 24) 32.
Definition BM_TAG_VALID : Z := Z.shiftl (Z.shiftl 1 25) 32.
Definition BM_IO_IN_PROGRESS : Z := Z.shiftl (Z.shiftl 1 26) 32.
Definition BM_IO_ERROR : Z := Z.shiftl (Z.shiftl 1 27) 32.
Definition BM_JUST_DIRTIED : Z := Z.shiftl (Z.shiftl 1 28) 32.
Definition BM_PIN_COUNT_WAITER : Z := Z.shiftl (Z.shiftl 1 29) 32.
Definition BM_CHECKPOINT_NEEDED : Z := Z.shiftl (Z.shiftl 1 30) 32.
Definition BM_PERMANENT : Z := Z.shiftl (Z.shiftl 1 31) 32.

(** [(state & mask) != 0] and [state & ~mask]. *)
Definition has (mask state : Z) : bool := negb (Z.land state mask =? 0).
Definition without (mask state : Z) : Z := Z.ldiff state mask.

(** What is left in the word by [UnlockBufHdr(desc, s)]. *)
Definition UnlockBufHdr (s state : Z) : Z :=
  Z.lor (Z.land state 0xFFFFFFFF) (Z.shiftl (Z.shiftr (without BM_LOCKED s) 32) 32).

(** ** Bits *)

Lemma has_pow2 k w : 0 ≤ k → has (2 ^ k) w = Z.testbit w k.
Proof.
  intros Hk. unfold has. destruct (Z.testbit w k) eqn:E.
  - destruct (_ =? 0) eqn:E2; [|done]. apply Z.eqb_eq in E2. apply (f_equal (λ z, Z.testbit z k)) in E2.
    rewrite Z.land_spec, E, Z.pow2_bits_true, Z.bits_0 in E2 by done. done.
  - apply negb_false_iff, Z.eqb_eq, Z.bits_inj'. intros n Hn. rewrite Z.land_spec, Z.bits_0.
    destruct (decide (n = k)) as [->|Hne]; [by rewrite E|]. rewrite Z.pow2_bits_false by lia. apply andb_false_r.
Qed.

(** The flags, by the number of their bit. *)
Lemma has_meta w : has BM_IS_META w = Z.testbit w 49. Proof. by apply (has_pow2 49). Qed.
Lemma has_locked w : has BM_LOCKED w = Z.testbit w 54. Proof. by apply (has_pow2 54). Qed.
Lemma has_dirty w : has BM_DIRTY w = Z.testbit w 55. Proof. by apply (has_pow2 55). Qed.
Lemma has_valid w : has BM_VALID w = Z.testbit w 56. Proof. by apply (has_pow2 56). Qed.
Lemma has_tag_valid w : has BM_TAG_VALID w = Z.testbit w 57. Proof. by apply (has_pow2 57). Qed.
Lemma has_io w : has BM_IO_IN_PROGRESS w = Z.testbit w 58. Proof. by apply (has_pow2 58). Qed.
Lemma has_just w : has BM_JUST_DIRTIED w = Z.testbit w 60. Proof. by apply (has_pow2 60). Qed.
Lemma has_waiter w : has BM_PIN_COUNT_WAITER w = Z.testbit w 61. Proof. by apply (has_pow2 61). Qed.

Create Rewrite HintDb bufbits.
#[export] Hint Rewrite has_meta has_locked has_dirty has_valid has_tag_valid has_io has_just has_waiter : bufbits.

(** ** Both halves *)

Definition pins (w : Z) : Z := w mod 2 ^ 32.
Definition hi (w : Z) : Z := w / 2 ^ 32.

Lemma refcount_pins w : BUF_STATE_GET_REFCOUNT w = pins w.
Proof. apply (Z.land_ones w 32). lia. Qed.

Lemma word_eq w : w = pins w + 2 ^ 32 * hi w.
Proof. unfold pins, hi. pose proof (Z.div_mod w (2 ^ 32)). lia. Qed.

Lemma pins_range w : 0 ≤ pins w < 2 ^ 32.
Proof. unfold pins. by apply Z.mod_pos_bound. Qed.

(** Bit [k] of the upper half. *)
Lemma bit_hi w k : 32 ≤ k → Z.testbit w k = Z.testbit (hi w) (k - 32).
Proof. intros Hk. unfold hi. rewrite <- (Z.shiftr_div_pow2 w 32) by done. rewrite Z.shiftr_spec by lia. f_equal. lia. Qed.

Lemma pins_add w d : 0 ≤ pins w + d < 2 ^ 32 → pins (w + d) = pins w + d ∧ hi (w + d) = hi w.
Proof.
  intros Hd. rewrite (word_eq w) at 1 3. unfold pins at 1, hi at 2. replace (pins w + 2 ^ 32 * hi w + d) with (pins w + d + hi w * 2 ^ 32) by lia.
  rewrite Z.mod_add, Z.div_add by done. rewrite Z.mod_small, Z.div_small by done. lia.
Qed.

Lemma pins_mul_lor w x : pins (Z.lor w (2 ^ 32 * x)) = pins w ∧ hi (Z.lor w (2 ^ 32 * x)) = Z.lor (hi w) x.
Proof.
  unfold pins, hi. split.
  - rewrite <- !Z.land_ones by done. rewrite Z.land_lor_distr_l. replace (Z.land (2 ^ 32 * x) (Z.ones 32)) with 0; [by rewrite Z.lor_0_r|].
    rewrite Z.land_ones, Z.mul_comm by done. symmetry. by apply Z.mod_mul.
  - rewrite <- !Z.shiftr_div_pow2 by done. rewrite Z.shiftr_lor. f_equal. rewrite Z.shiftr_div_pow2, Z.mul_comm by done. by apply Z.div_mul.
Qed.

(** ** The header lock *)

Lemma lock_pins w : pins (Z.lor w BM_LOCKED) = pins w.
Proof. apply (pins_mul_lor w (2 ^ 22)). Qed.

Lemma lock_bit w k : k ≠ 54 → Z.testbit (Z.lor w BM_LOCKED) k = Z.testbit w k.
Proof. intros Hk. rewrite Z.lor_spec. change BM_LOCKED with (2 ^ 54). rewrite Z.pow2_bits_false by lia. apply orb_false_r. Qed.

Lemma lock_set w : Z.testbit (Z.lor w BM_LOCKED) 54 = true.
Proof. rewrite Z.lor_spec. apply orb_true_r. Qed.

Lemma unlock_pins s w : pins (UnlockBufHdr s w) = pins w.
Proof.
  unfold UnlockBufHdr. rewrite (Z.shiftl_mul_pow2 _ 32), (Z.mul_comm _ (2 ^ 32)) by done. destruct (pins_mul_lor (Z.land w 0xFFFFFFFF) (Z.shiftr (without BM_LOCKED s) 32)) as [-> _].
  change (pins (BUF_STATE_GET_REFCOUNT w) = pins w). rewrite refcount_pins. unfold pins. by rewrite Z.mod_mod.
Qed.

Lemma unlock_bit s w k : 32 ≤ k → k ≠ 54 → Z.testbit (UnlockBufHdr s w) k = Z.testbit s k.
Proof.
  intros Hk Hne. unfold UnlockBufHdr. rewrite Z.lor_spec, Z.land_spec. change 0xFFFFFFFF with (Z.ones 32). rewrite Z.ones_spec_high, andb_false_r by lia.
  rewrite Z.shiftl_spec, Z.shiftr_spec by lia. replace (k - 32 + 32) with k by lia. unfold without. rewrite Z.ldiff_spec. change BM_LOCKED with (2 ^ 54).
  rewrite Z.pow2_bits_false by lia. by rewrite andb_true_r.
Qed.

Lemma unlock_clear s w : Z.testbit (UnlockBufHdr s w) 54 = false.
Proof.
  unfold UnlockBufHdr. rewrite Z.lor_spec, Z.land_spec. change 0xFFFFFFFF with (Z.ones 32). rewrite Z.ones_spec_high, andb_false_r by lia.
  rewrite Z.shiftl_spec, Z.shiftr_spec by lia. change (54 - 32 + 32) with 54. unfold without. rewrite Z.ldiff_spec. change (Z.testbit BM_LOCKED 54) with true. by rewrite andb_false_r.
Qed.

(** ** The use count *)

Lemma usage_eq w : BUF_STATE_GET_USAGECOUNT w = (w / 2 ^ 50) mod 16.
Proof.
  unfold BUF_STATE_GET_USAGECOUNT. change BUF_USAGECOUNT_MASK with (Z.shiftl (Z.ones 4) 50). change BUF_USAGECOUNT_SHIFT with 50.
  rewrite Z.shiftr_land, Z.shiftr_shiftl_l, Z.shiftl_0_r, Z.land_ones, Z.shiftr_div_pow2 by done. done.
Qed.

(** One use more touches no flag. *)
Lemma usage_carry w : (w / 2 ^ 50) mod 16 ≠ 15 → (w + 2 ^ 50) / 2 ^ 54 = w / 2 ^ 54.
Proof.
  intros Hu. change (2 ^ 54) with (2 ^ 50 * 16). rewrite <- !Z.div_div by done. replace (w + 2 ^ 50) with (w + 1 * 2 ^ 50) by lia. rewrite Z.div_add by done.
  revert Hu. generalize (w / 2 ^ 50). intros q Hu. Z.to_euclidean_division_equations. lia.
Qed.

Lemma usage_bit w k : BUF_STATE_GET_USAGECOUNT w ≠ BM_MAX_USAGE_COUNT → 54 ≤ k → Z.testbit (w + BUF_USAGECOUNT_ONE) k = Z.testbit w k.
Proof.
  rewrite usage_eq. unfold BM_MAX_USAGE_COUNT. change BUF_USAGECOUNT_ONE with (2 ^ 50). intros Hu Hk. replace k with (k - 54 + 54) by lia.
  rewrite <- !Z.div_pow2_bits by lia. by rewrite usage_carry.
Qed.

Lemma usage_pins w : pins (w + BUF_USAGECOUNT_ONE) = pins w.
Proof. unfold pins. change BUF_USAGECOUNT_ONE with (2 ^ 18 * 2 ^ 32). by rewrite Z.mod_add. Qed.

(** ** What a pin leaves alone *)

Lemma pins_add_bit w d k : 0 ≤ pins w + d < 2 ^ 32 → 32 ≤ k → Z.testbit (w + d) k = Z.testbit w k.
Proof. intros Hd Hk. rewrite (bit_hi (w + d)), (bit_hi w) by done. by destruct (pins_add w d Hd) as [_ ->]. Qed.

Lemma pins_ldiff_hi w x : pins (without (2 ^ 32 * x) w) = pins w.
Proof.
  unfold pins, without. rewrite <- !Z.land_ones by done. apply Z.bits_inj'. intros n Hn. rewrite !Z.land_spec, Z.ldiff_spec.
  destruct (decide (n < 32)) as [Hl|Hl]; [|by rewrite Z.ones_spec_high, !andb_false_r by lia].
  rewrite (Z.mul_comm _ x), <- Z.shiftl_mul_pow2, Z.shiftl_spec, (Z.testbit_neg_r x) by lia. by rewrite andb_true_r.
Qed.

Lemma meta_pins w (set : bool) : pins (if set then Z.lor w BM_IS_META else without BM_IS_META w) = pins w.
Proof. destruct set; [apply (pins_mul_lor w (2 ^ 17))|apply (pins_ldiff_hi w (2 ^ 17))]. Qed.

Lemma meta_bit w (set : bool) k : k ≠ 49 → Z.testbit (if set then Z.lor w BM_IS_META else without BM_IS_META w) k = Z.testbit w k.
Proof.
  intros Hk. unfold without. change BM_IS_META with (2 ^ 49). destruct set; rewrite ?Z.lor_spec, ?Z.ldiff_spec, Z.pow2_bits_false by lia;
    [apply orb_false_r|apply andb_true_r].
Qed.

(** ** Flags of the words that the code computes *)

Ltac const_bits :=
  repeat match goal with
  | |- context [Z.testbit ?c ?k] =>
      let b := eval vm_compute in (Z.testbit c k) in
      match b with
      | true => change (Z.testbit c k) with true
      | false => change (Z.testbit c k) with false
      end
  end.
Ltac flag_bits :=
  autorewrite with bufbits; unfold without; rewrite ?Z.lor_spec, ?Z.ldiff_spec, ?Z.land_spec; const_bits;
  cbn [negb]; rewrite ?orb_false_r, ?orb_true_r, ?andb_false_r, ?andb_true_r.
