(* ===== verification/BufDefs.v ===== *)
(** * A shared buffer

    One buffer of the pool ([src/gausskernel/storage/buffer/bufmgr.cpp],
    [src/include/storage/buf/buf_internals.h]) and what a backend keeps of it. Buffers meet
    only in the table that maps a block to its buffer; this table, which is not modelled,
    gives a block to one buffer at a time, so that the files of all blocks but the buffer's
    own are changed by the rest of the server ([EvOtherBlock] of [BufReach]).

    The server has no shared storage (DMS), segment pages, NVM, double write or incremental
    checkpoint, is not in recovery, and buffers are taken without a strategy object. *)

From S2P Require Import Prelude BufWord.
From stdpp Require Export functions.

#[global] Open Scope Z_scope.

(** [opt], which [RelFileNodeEquals] does not compare, is left out. *)
Record RelFileNode := { spcNode : Z; dbNode : Z; relNode : Z; bucketNode : Z }.
Record BufferTag := { rnode : RelFileNode; forkNum : Z; blockNum : Z }.

#[global] Instance RelFileNode_eq_dec : EqDecision RelFileNode.
Proof. solve_decision. Defined.
#[global] Instance BufferTag_eq_dec : EqDecision BufferTag.
Proof. solve_decision. Defined.

Definition RelFileNodeEquals (a b : RelFileNode) : bool :=
  (relNode a =? relNode b) && (dbNode a =? dbNode b) && (spcNode a =? spcNode b) && (bucketNode a =? bucketNode b).
Definition BUFFERTAGS_EQUAL (a b : BufferTag) : bool :=
  RelFileNodeEquals (rnode a) (rnode b) && (blockNum a =? blockNum b) && (forkNum a =? forkNum b).

(** [CLEAR_BUFFERTAG]. *)
Definition cleared_tag : BufferTag :=
  {| rnode := {| spcNode := 0; dbNode := 0; relNode := 0; bucketNode := -1 |}; forkNum := -1; blockNum := 0xFFFFFFFF |}.

Lemma BUFFERTAGS_EQUAL_spec a b : BUFFERTAGS_EQUAL a b = true ↔ a = b.
Proof.
  unfold BUFFERTAGS_EQUAL, RelFileNodeEquals. rewrite !andb_true_iff, !Z.eqb_eq. destruct a as [[] ? ?], b as [[] ? ?]. cbn. split; [intros; f_equal; f_equal; tauto|intros [=]; tauto].
Qed.

(** A page: its LSN, the bytes that are changed under the exclusive content lock, and the
    hint bits, which a holder of the shared lock may set and which may be lost. *)
Record page := { pd_lsn : Z; pd_data : list Z; pd_hint : list Z }.

Definition set_lsn (l : Z) (p : page) : page := {| pd_lsn := l; pd_data := pd_data p; pd_hint := pd_hint p |}.
Definition set_data (x : list Z) (p : page) : page := {| pd_lsn := pd_lsn p; pd_data := x; pd_hint := pd_hint p |}.
Definition set_hint (x : list Z) (p : page) : page := {| pd_lsn := pd_lsn p; pd_data := pd_data p; pd_hint := x |}.

(** ** Lightweight locks

    Who holds the lock, and how; that a lock grants this is the subject of [LwCorrect]. *)

Inductive hold_mode : Type := BUFFER_LOCK_SHARE | BUFFER_LOCK_EXCLUSIVE.

#[global] Instance hold_mode_eq_dec : EqDecision hold_mode.
Proof. solve_decision. Defined.

Abbreviation lwlock := (gmap Z hold_mode).

Definition can_acquire (m : hold_mode) (l : lwlock) : bool :=
  match m with
  | BUFFER_LOCK_EXCLUSIVE => bool_decide (l = ∅)
  | BUFFER_LOCK_SHARE => bool_decide (map_Forall (λ _ m, m = BUFFER_LOCK_SHARE) l)
  end.

(** ** The buffer *)

(** [disk] is what the files hold, [flushed] how far the log is on disk. The rest is ghost
    state, which no step depends on: [owner] holds the header lock; [loaded] says that
    [bufBlock] has the contents of the block [tag]; [pinners] are the backends with a pin,
    [counted] those that are in the reference count (also while they take back an attempt);
    [io] is the backend that has marked the buffer I/O busy, and whether it reads; [dirtying]
    has changed the page and not marked it yet; [store] is what the clients have last written
    to each block. *)
Record buffer := {
  state : Z;
  tag : BufferTag;
  bufBlock : page;
  io_in_progress_lock : lwlock;
  content_lock : lwlock;
  wait_backend_pid : Z;
  disk : BufferTag → page;
  flushed : Z;
  owner : option Z;
  loaded : bool;
  pinners : gset Z;
  counted : gset Z;
  io : option (Z * bool);
  dirtying : option Z;
  store : BufferTag → list Z }.

Definition with_state (x : Z) (d : buffer) : buffer :=
  {| state := x; tag := tag d; bufBlock := bufBlock d; io_in_progress_lock := io_in_progress_lock d; content_lock := content_lock d;
     wait_backend_pid := wait_backend_pid d; disk := disk d; flushed := flushed d; owner := owner d; loaded := loaded d;
     pinners := pinners d; counted := counted d; io := io d; dirtying := dirtying d; store := store d |}.
Definition with_tag (x : BufferTag) (l : bool) (s : BufferTag → list Z) (d : buffer) : buffer :=
  {| state := state d; tag := x; bufBlock := bufBlock d; io_in_progress_lock := io_in_progress_lock d; content_lock := content_lock d;
     wait_backend_pid := wait_backend_pid d; disk := disk d; flushed := flushed d; owner := owner d; loaded := l;
     pinners := pinners d; counted := counted d; io := io d; dirtying := dirtying d; store := s |}.
Definition with_block (x : page) (g : option Z) (s : BufferTag → list Z) (d : buffer) : buffer :=
  {| state := state d; tag := tag d; bufBlock := x; io_in_progress_lock := io_in_progress_lock d; content_lock := content_lock d;
     wait_backend_pid := wait_backend_pid d; disk := disk d; flushed := flushed d; owner := owner d; loaded := loaded d;
     pinners := pinners d; counted := counted d; io := io d; dirtying := g; store := s |}.
Definition with_io_lock (x : lwlock) (d : buffer) : buffer :=
  {| state := state d; tag := tag d; bufBlock := bufBlock d; io_in_progress_lock := x; content_lock := content_lock d;
     wait_backend_pid := wait_backend_pid d; disk := disk d; flushed := flushed d; owner := owner d; loaded := loaded d;
     pinners := pinners d; counted := counted d; io := io d; dirtying := dirtying d; store := store d |}.
Definition with_content (x : lwlock) (d : buffer) : buffer :=
  {| state := state d; tag := tag d; bufBlock := bufBlock d; io_in_progress_lock := io_in_progress_lock d; content_lock := x;
     wait_backend_pid := wait_backend_pid d; disk := disk d; flushed := flushed d; owner := owner d; loaded := loaded d;
     pinners := pinners d; counted := counted d; io := io d; dirtying := dirtying d; store := store d |}.
Definition with_waiter (x : Z) (d : buffer) : buffer :=
  {| state := state d; tag := tag d; bufBlock := bufBlock d; io_in_progress_lock := io_in_progress_lock d; content_lock := content_lock d;
     wait_backend_pid := x; disk := disk d; flushed := flushed d; owner := owner d; loaded := loaded d;
     pinners := pinners d; counted := counted d; io := io d; dirtying := dirtying d; store := store d |}.
Definition with_disk (x : BufferTag → page) (f : Z) (s : BufferTag → list Z) (d : buffer) : buffer :=
  {| state := state d; tag := tag d; bufBlock := bufBlock d; io_in_progress_lock := io_in_progress_lock d; content_lock := content_lock d;
     wait_backend_pid := wait_backend_pid d; disk := x; flushed := f; owner := owner d; loaded := loaded d;
     pinners := pinners d; counted := counted d; io := io d; dirtying := dirtying d; store := s |}.
Definition with_owner (x : option Z) (d : buffer) : buffer :=
  {| state := state d; tag := tag d; bufBlock := bufBlock d; io_in_progress_lock := io_in_progress_lock d; content_lock := content_lock d;
     wait_backend_pid := wait_backend_pid d; disk := disk d; flushed := flushed d; owner := x; loaded := loaded d;
     pinners := pinners d; counted := counted d; io := io d; dirtying := dirtying d; store := store d |}.
Definition with_pins (p c : gset Z) (d : buffer) : buffer :=
  {| state := state d; tag := tag d; bufBlock := bufBlock d; io_in_progress_lock := io_in_progress_lock d; content_lock := content_lock d;
     wait_backend_pid := wait_backend_pid d; disk := disk d; flushed := flushed d; owner := owner d; loaded := loaded d;
     pinners := p; counted := c; io := io d; dirtying := dirtying d; store := store d |}.
Definition with_io (x : option (Z * bool)) (l : bool) (d : buffer) : buffer :=
  {| state := state d; tag := tag d; bufBlock := bufBlock d; io_in_progress_lock := io_in_progress_lock d; content_lock := content_lock d;
     wait_backend_pid := wait_backend_pid d; disk := disk d; flushed := flushed d; owner := owner d; loaded := l;
     pinners := pinners d; counted := counted d; io := x; dirtying := dirtying d; store := store d |}.

(** ** A backend *)

(** For whom a dirty page is written: a backend that wants the buffer for the block [tg], or
    [SyncOneBuffer]. *)
Inductive flush_for : Type := FVictim (tg : BufferTag) | FSync.
(** For what [StartBufferIO] is called. *)
Inductive io_for : Type := IRead (tg : BufferTag) | IFlush (f : flush_for).
(** Where [WaitIO] and [TerminateBufferIO] return to. *)
Inductive wait_for : Type := WStart (i : io_for) | WInvalidate (tg : BufferTag).
Inductive term_for : Type := TRead (tg : BufferTag) | TFlush (f : flush_for) | TAbort (forInput : bool).

(** What the header lock is taken for. *)
Inductive hdr_op : Type :=
| HUnpin
| HVictim (tg : BufferTag)
| HRename (tg : BufferTag)
| HStart (i : io_for)
| HWait (k : wait_for)
| HFlush (f : flush_for)
| HTerm (clear_dirty : bool) (set_flag_bits : Z) (k : term_for)
| HAbort (forInput : bool)
| HDirty (lsn : Z)
| HHint (lsn : Z)
| HSync (skip_recently_used : bool)
| HDrop (tg : BufferTag)
| HInvalidate (tg : BufferTag)
| HClean
| HCleanEnd (cancelled : bool).

(** [BHdr h]: in [LockBufHdr]; [BHdrHeld s h]: it has returned [s]; [BUnlock s k]: about to
    do [UnlockBufHdr(buf, s)] and to go on at [k]. *)
Inductive bufpc : Type :=
| BIdle
| BPanic
| BPinAdd (tg : BufferTag)
| BPinBack (tg : BufferTag)
| BPinWait (tg : BufferTag)
| BPinUsage (tg : BufferTag) (buf_state : Z)
| BPinUsageWait (tg : BufferTag)
| BPinned (tg : BufferTag) (valid : bool)
| BUnpin
| BUnpinSub
| BUnpinAdd
| BUnpinWait
| BHdr (h : hdr_op)
| BHdrHeld (buf_state : Z) (h : hdr_op)
| BPinLocked (k : bufpc)
| BUnlock (buf_state : Z) (k : bufpc)
| BVictim (tg : BufferTag) (old_flags : Z)
| BFlushLock (f : flush_for)
| BStartIO (i : io_for)
| BStartBusy (i : io_for)
| BStartDone (i : io_for)
| BWaitLock (k : wait_for)
| BWaitRelease (k : wait_for)
| BFlushXLog (f : flush_for) (lsn : Z)
| BFlushCopy (f : flush_for)
| BFlushWrite (f : flush_for) (bufToWrite : page)
| BFlushUnlock (f : flush_for)
| BTermRelease (k : term_for)
| BReadPage (tg : BufferTag)
| BError
| BAbortLock (forInput : bool)
| BModLSN (lsn : Z)
| BHintCheck
| BHintPermanent
| BCleanLock
| BCleanRelease (error : bool)
| BCleanSleep
| BMetaRead (isSet : bool)
| BMetaCas (isSet : bool) (oldBufState : Z).

(** [priv] is the private reference count, [InProgress] is [InProgressBuf] with
    [IsForInput]; [held], ghost, is the block the backend has been given. *)
Record worker := { pc : bufpc; priv : Z; InProgress : option bool; held : option BufferTag }.

Definition go (p : bufpc) (w : worker) : worker := {| pc := p; priv := priv w; InProgress := InProgress w; held := held w |}.
Definition go_priv (p : bufpc) (n : Z) (w : worker) : worker := {| pc := p; priv := n; InProgress := InProgress w; held := held w |}.
Definition go_held (p : bufpc) (h : option BufferTag) (w : worker) : worker := {| pc := p; priv := priv w; InProgress := InProgress w; held := h |}.
Definition go_io (p : bufpc) (x : option bool) (w : worker) : worker := {| pc := p; priv := priv w; InProgress := x; held := held w |}.
Definition go_free (p : bufpc) (w : worker) : worker := {| pc := p; priv := 0; InProgress := InProgress w; held := None |}.

(** What the model takes from its surroundings. *)
Class BufEnv := {
  nthreads : Z;
  backend_can_flush_dirty_page : bool;
  (* relpersistence, fork_num: whether the buffer of the block is marked BM_PERMANENT *)
  is_permanent : BufferTag → bool;
  XLogHintBitIsNeeded : bool }.

(** What a step may find: an error, a collision in the mapping table or a lock not granted
    ([bad]); the result of [XLogSaveBufferForHint]. *)
Record oracle := { bad : bool; fpi_lsn : Z }.
