(* ===== verification/BufMgr.v ===== *)
(** * What a backend does with a buffer

    [src/gausskernel/storage/buffer/bufmgr.cpp] and [StrategyGetBuffer] of
    [src/gausskernel/storage/buffer/freelist.cpp], as a function that makes one step of a
    backend: at most one access to shared memory, where what is read and written under the
    header lock counts as one and the unlocking as another. Acquiring and releasing a
    lightweight lock, and reading or writing a page of a file, are single steps. A step that
    would have to wait gives [None]. *)

From S2P Require Import Prelude BufWord BufDefs.

Section manager.
Context `{BufEnv}.

(** ** The flags that the holders of the header lock write *)

(** [BufferAlloc]: whether the buffer may get the block [new_tag]; the flags it then has. *)
Definition recyclable (buf_state : Z) : bool :=
  let old_flags := Z.land buf_state BUF_FLAG_MASK in
  (BUF_STATE_GET_REFCOUNT buf_state =? 1) && negb (has BM_DIRTY old_flags) && negb (has BM_IS_META old_flags).

Definition rename_state (new_tag : BufferTag) (buf_state : Z) : Z :=
  let s := without (Z.lor BM_VALID (Z.lor BM_DIRTY (Z.lor BM_JUST_DIRTIED (Z.lor BM_CHECKPOINT_NEEDED
             (Z.lor BM_IO_ERROR (Z.lor BM_PERMANENT BUF_USAGECOUNT_MASK)))))) buf_state in
  if is_permanent new_tag then Z.lor s (Z.lor BM_TAG_VALID (Z.lor BM_PERMANENT BUF_USAGECOUNT_ONE))
  else Z.lor s (Z.lor BM_TAG_VALID BUF_USAGECOUNT_ONE).

(** [StrategyGetBuffer]: a buffer that may be taken. *)
Definition usable (buf_state : Z) : bool :=
  (BUF_STATE_GET_REFCOUNT buf_state =? 0) && negb (has BM_IS_META buf_state) && (backend_can_flush_dirty_page || negb (has BM_DIRTY buf_state)).

Definition TerminateBufferIO_common (clear_dirty : bool) (set_flag_bits buf_state : Z) : Z :=
  let s := without (Z.lor BM_IO_IN_PROGRESS BM_IO_ERROR) buf_state in
  let s := if clear_dirty && negb (has BM_JUST_DIRTIED s) then without (Z.lor BM_DIRTY BM_CHECKPOINT_NEEDED) s else s in
  Z.lor s set_flag_bits.

(** [StartBufferIO]: someone else has done the I/O. *)
Definition io_done (i : io_for) (buf_state : Z) : bool :=
  match i with
  | IRead _ => has BM_VALID buf_state
  | IFlush _ => negb (has BM_DIRTY buf_state)
  end.

Definition for_input (i : io_for) : bool := match i with IRead _ => true | IFlush _ => false end.
Definition io_start (i : io_for) : bufpc := match i with IRead tg => BReadPage tg | IFlush f => BHdr (HFlush f) end.
Definition wait_done (k : wait_for) : bufpc := match k with WStart i => BStartIO i | WInvalidate tg => BHdr (HInvalidate tg) end.

(** ** Under the header lock

    [LockBufHdr] has returned [s]. *)

Definition UnpinBuffer_hdr (s : Z) (d : buffer) (w : worker) : buffer * worker :=
  let s' := if has BM_PIN_COUNT_WAITER s && (BUF_STATE_GET_REFCOUNT s =? 1) then without BM_PIN_COUNT_WAITER s else s in
  (d, go (BUnlock s' BIdle) w).

Definition StrategyGetBuffer_hdr (s : Z) (tg : BufferTag) (d : buffer) (w : worker) : buffer * worker :=
  (d, if usable s then go (BPinLocked (BVictim tg (Z.land s BUF_FLAG_MASK))) w else go (BUnlock s BIdle) w).

(** The new tag is already in the mapping table if [bad o]. *)
Definition BufferAlloc_hdr (o : oracle) (s : Z) (tg : BufferTag) (d : buffer) (w : worker) : buffer * worker :=
  if bad o then (d, go (BUnlock s BUnpin) w)
  else if recyclable s then (with_tag tg false (store d) d, go (BUnlock (rename_state tg s) (BStartIO (IRead tg))) w)
  else (d, go (BUnlock s BUnpin) w).

Definition StartBufferIO_hdr (t s : Z) (i : io_for) (d : buffer) (w : worker) : buffer * worker :=
  if has BM_IO_IN_PROGRESS s then (d, go (BUnlock s (BStartBusy i)) w)
  else if io_done i s then (d, go (BUnlock s (BStartDone i)) w)
  else (with_io (Some (t, for_input i)) (loaded d) d,
        go_io (BUnlock (Z.lor s BM_IO_IN_PROGRESS) (io_start i)) (Some (for_input i)) w).

Definition WaitIO_hdr (s : Z) (k : wait_for) (d : buffer) (w : worker) : buffer * worker :=
  (d, go (BUnlock s (if has BM_IO_IN_PROGRESS s then BWaitLock k else wait_done k)) w).

Definition GetFlushBufferInfo (s : Z) (f : flush_for) (d : buffer) (w : worker) : buffer * worker :=
  (d, go (BUnlock (without BM_JUST_DIRTIED s) (BFlushXLog f (pd_lsn (bufBlock d)))) w).

Definition TerminateBufferIO_hdr (s : Z) (clear_dirty : bool) (set_flag_bits : Z) (k : term_for) (d : buffer) (w : worker) : buffer * worker :=
  (with_io None (loaded d || has BM_VALID set_flag_bits) d,
   go_io (BUnlock (TerminateBufferIO_common clear_dirty set_flag_bits s) (BTermRelease k)) None w).

Definition AbortBufferIO_common (s : Z) (isForInput : bool) (d : buffer) (w : worker) : buffer * worker :=
  (d, go (BUnlock (if isForInput then s else without BM_CHECKPOINT_NEEDED s) (BHdr (HTerm false BM_IO_ERROR (TAbort isForInput)))) w).

Definition MarkBufferDirty_hdr (s lsn : Z) (d : buffer) (w : worker) : buffer * worker :=
  (with_block (bufBlock d) None (store d) d, go (BUnlock (Z.lor s (Z.lor BM_DIRTY BM_JUST_DIRTIED)) (BModLSN lsn)) w).

Definition MarkBufferDirtyHint_hdr (s lsn : Z) (d : buffer) (w : worker) : buffer * worker :=
  let p := bufBlock d in
  let p := if negb (has BM_DIRTY s) && negb (lsn =? 0) && negb (lsn <? pd_lsn p) then set_lsn lsn p else p in
  (with_block p (dirtying d) (store d) d, go (BUnlock (Z.lor s (Z.lor BM_DIRTY BM_JUST_DIRTIED)) BIdle) w).

Definition SyncOneBuffer_hdr (s : Z) (skip_recently_used : bool) (d : buffer) (w : worker) : buffer * worker :=
  if negb ((BUF_STATE_GET_REFCOUNT s =? 0) && (BUF_STATE_GET_USAGECOUNT s =? 0)) && skip_recently_used then (d, go (BUnlock s BIdle) w)
  else if negb (has BM_VALID s) || negb (has BM_DIRTY s) then (d, go (BUnlock s BIdle) w)
  else (d, go (BPinLocked (BFlushLock FSync)) w).

(** A function that drops a range of blocks, at one of them. *)
Definition RangeForgetBuffer_hdr (s : Z) (tg : BufferTag) (d : buffer) (w : worker) : buffer * worker :=
  (d, go (BUnlock s (if BUFFERTAGS_EQUAL (tag d) tg then BHdr (HInvalidate (tag d)) else BIdle)) w).

Definition InvalidateBuffer (s : Z) (old_tag : BufferTag) (d : buffer) (w : worker) : buffer * worker :=
  if negb (BUFFERTAGS_EQUAL (tag d) old_tag) then (d, go (BUnlock s BIdle) w)
  else if negb (BUF_STATE_GET_REFCOUNT s =? 0) then
    (d, go (BUnlock s (if 0 <? priv w then BError else BHdr (HWait (WInvalidate old_tag)))) w)
  else (with_tag cleared_tag false (<[tag d := pd_data (disk d (tag d))]> (store d)) d,
        go (BUnlock (without (Z.lor BUF_FLAG_MASK BUF_USAGECOUNT_MASK) s) BIdle) w).

Definition LockBufferForCleanup_hdr (t s : Z) (d : buffer) (w : worker) : buffer * worker :=
  if BUF_STATE_GET_REFCOUNT s =? 1 then (d, go (BUnlock s BIdle) w)
  else if has BM_PIN_COUNT_WAITER s then (d, go (BUnlock s (BCleanRelease true)) w)
  else (with_waiter t d, go (BUnlock (Z.lor s BM_PIN_COUNT_WAITER) (BCleanRelease false)) w).

(** Also the end of the wait in [LockBufferForCleanup]. *)
Definition UnlockBuffers (t s : Z) (cancelled : bool) (d : buffer) (w : worker) : buffer * worker :=
  let s' := if has BM_PIN_COUNT_WAITER s && (wait_backend_pid d =? t) then without BM_PIN_COUNT_WAITER s else s in
  (d, go (BUnlock s' (if cancelled then BError else BCleanLock)) w).

Definition hdr_held (o : oracle) (t s : Z) (h : hdr_op) (d : buffer) (w : worker) : buffer * worker :=
  match h with
  | HUnpin => UnpinBuffer_hdr s d w
  | HVictim tg => StrategyGetBuffer_hdr s tg d w
  | HRename tg => BufferAlloc_hdr o s tg d w
  | HStart i => StartBufferIO_hdr t s i d w
  | HWait k => WaitIO_hdr s k d w
  | HFlush f => GetFlushBufferInfo s f d w
  | HTerm clear_dirty set_flag_bits k => TerminateBufferIO_hdr s clear_dirty set_flag_bits k d w
  | HAbort forInput => AbortBufferIO_common s forInput d w
  | HDirty lsn => MarkBufferDirty_hdr s lsn d w
  | HHint lsn => MarkBufferDirtyHint_hdr s lsn d w
  | HSync skip_recently_used => SyncOneBuffer_hdr s skip_recently_used d w
  | HDrop tg => RangeForgetBuffer_hdr s tg d w
  | HInvalidate tg => InvalidateBuffer s tg d w
  | HClean => LockBufferForCleanup_hdr t s d w
  | HCleanEnd cancelled => UnlockBuffers t s cancelled d w
  end.

(** ** One step *)

Definition PinBuffer (t : Z) (d : buffer) (w : worker) : option (buffer * worker) :=
  match pc w with
  | BPinAdd tg =>
      let buf_state := state d + 1 in
      let d := with_state buf_state d in
      if has BM_LOCKED buf_state then Some (with_pins (pinners d) (counted d ∪ {[t]}) d, go (BPinBack tg) w)
      else Some (with_pins (pinners d ∪ {[t]}) (counted d ∪ {[t]}) d, go_priv (BPinUsage tg buf_state) 1 w)
  | BPinBack tg => Some (with_pins (pinners d) (counted d ∖ {[t]}) (with_state (state d - 1) d), go (BPinWait tg) w)
  | BPinWait tg => Some (d, if has BM_LOCKED (state d) then w else go (BPinAdd tg) w)
  | BPinUsage tg buf_state =>
      if BUF_STATE_GET_USAGECOUNT buf_state =? BM_MAX_USAGE_COUNT then Some (d, go (BPinned tg (has BM_VALID buf_state)) w)
      else if has BM_LOCKED buf_state then Some (d, go (BPinUsageWait tg) w)
      else if state d =? buf_state then Some (with_state (buf_state + BUF_USAGECOUNT_ONE) d, go (BPinned tg (has BM_VALID buf_state)) w)
      else Some (d, go (BPinUsage tg (state d)) w)
  | BPinUsageWait tg => Some (d, if has BM_LOCKED (state d) then w else go (BPinUsage tg (state d)) w)
  | _ => None
  end.

(** [fixOwner] is left to the caller. *)
Definition UnpinBuffer (t : Z) (d : buffer) (w : worker) : option (buffer * worker) :=
  match pc w with
  | BUnpin =>
      if priv w <=? 0 then Some (d, go BPanic w)
      else if priv w - 1 =? 0 then Some (with_pins (pinners d ∖ {[t]}) (counted d) d, go_free BUnpinSub w)
      else Some (d, go_priv BIdle (priv w - 1) w)
  | BUnpinSub =>
      let buf_state := state d - 1 in
      let d := with_pins (pinners d) (counted d ∖ {[t]}) (with_state buf_state d) in
      if has BM_LOCKED buf_state then Some (d, go BUnpinAdd w)
      else if has BM_PIN_COUNT_WAITER buf_state then Some (d, go (BHdr HUnpin) w)
      else Some (d, go BIdle w)
  | BUnpinAdd => Some (with_pins (pinners d) (counted d ∪ {[t]}) (with_state (state d + 1) d), go BUnpinWait w)
  | BUnpinWait => Some (d, if has BM_LOCKED (state d) then w else go BUnpinSub w)
  | _ => None
  end.

(** [retryLockBufHdr], by which a victim is taken, may give up. *)
Definition LockBufHdr (o : oracle) (t : Z) (h : hdr_op) (d : buffer) (w : worker) : option (buffer * worker) :=
  if has BM_LOCKED (state d) then Some (d, match h with HVictim _ => if bad o then go BIdle w else w | _ => w end)
  else Some (with_owner (Some t) (with_state (Z.lor (state d) BM_LOCKED) d), go (BHdrHeld (Z.lor (state d) BM_LOCKED) h) w).

Definition PinBuffer_Locked (t : Z) (k : bufpc) (d : buffer) (w : worker) : option (buffer * worker) :=
  let buf_state := state d + 1 in
  Some (with_pins (pinners d ∪ {[t]}) (counted d ∪ {[t]}) (with_state buf_state d), go_priv (BUnlock buf_state k) 1 w).

(** The block has been found in the table; a victim has been pinned. *)
Definition BufferAlloc (d : buffer) (w : worker) : option (buffer * worker) :=
  match pc w with
  | BPinned tg valid =>
      if negb (BUFFERTAGS_EQUAL (tag d) tg) then Some (d, go BUnpin w)
      else if valid then Some (d, go_held BIdle (Some tg) w)
      else Some (d, go (BStartIO (IRead tg)) w)
  | BVictim tg old_flags =>
      if has BM_DIRTY old_flags then
        if backend_can_flush_dirty_page then Some (d, go (BFlushLock (FVictim tg)) w) else Some (d, go BUnpin w)
      else Some (d, go (BHdr (HRename tg)) w)
  | _ => None
  end.

(** After the content lock has been released. *)
Definition flush_next (f : flush_for) : bufpc := match f with FVictim tg => BHdr (HRename tg) | FSync => BUnpin end.

(** The content lock for writing: [BufferAlloc] tries, [SyncFlushOneBuffer] waits. *)
Definition SyncFlushOneBuffer (t : Z) (d : buffer) (w : worker) : option (buffer * worker) :=
  match pc w with
  | BFlushLock f =>
      if can_acquire BUFFER_LOCK_SHARE (content_lock d) then
        Some (with_content (<[t := BUFFER_LOCK_SHARE]> (content_lock d)) d, go (BStartIO (IFlush f)) w)
      else match f with FVictim _ => Some (d, go BUnpin w) | FSync => None end
  | BFlushUnlock f => Some (with_content (delete t (content_lock d)) d, go (flush_next f) w)
  | _ => None
  end.

(** After [StartBufferIO] has returned false. *)
Definition io_skipped (i : io_for) (w : worker) : worker :=
  match i with IRead tg => go_held BIdle (Some tg) w | IFlush f => go (BFlushUnlock f) w end.

Definition StartBufferIO (t : Z) (d : buffer) (w : worker) : option (buffer * worker) :=
  match pc w with
  | BStartIO i =>
      match InProgress w with
      | Some _ => Some (d, go BPanic w)
      | None =>
          if can_acquire BUFFER_LOCK_EXCLUSIVE (io_in_progress_lock d) then
            Some (with_io_lock (<[t := BUFFER_LOCK_EXCLUSIVE]> (io_in_progress_lock d)) d, go (BHdr (HStart i)) w)
          else None
      end
  | BStartBusy i => Some (with_io_lock (delete t (io_in_progress_lock d)) d, go (BHdr (HWait (WStart i))) w)
  | BStartDone i => Some (with_io_lock (delete t (io_in_progress_lock d)) d, io_skipped i w)
  | _ => None
  end.

Definition WaitIO (t : Z) (d : buffer) (w : worker) : option (buffer * worker) :=
  match pc w with
  | BWaitLock k =>
      if can_acquire BUFFER_LOCK_SHARE (io_in_progress_lock d) then
        Some (with_io_lock (<[t := BUFFER_LOCK_SHARE]> (io_in_progress_lock d)) d, go (BWaitRelease k) w)
      else None
  | BWaitRelease k => Some (with_io_lock (delete t (io_in_progress_lock d)) d, go (BHdr (HWait k)) w)
  | _ => None
  end.

(** From [XLogWaitFlush] on. *)
Definition FlushBuffer (o : oracle) (d : buffer) (w : worker) : option (buffer * worker) :=
  match pc w with
  | BFlushXLog f lsn =>
      if bad o then Some (d, go BError w) else if flushed d <? lsn then None else Some (d, go (BFlushCopy f) w)
  | BFlushCopy f => Some (d, go (BFlushWrite f (bufBlock d)) w)
  | BFlushWrite f bufToWrite =>
      if bad o then Some (d, go BError w)
      else Some (with_disk (<[tag d := bufToWrite]> (disk d)) (flushed d) (store d) d, go (BHdr (HTerm true 0 (TFlush f))) w)
  | _ => None
  end.

(** [UnpinBuffer] of all pins, when the resource owner is released after an error. *)
Definition unpin_all (t : Z) (d : buffer) (w : worker) : buffer * worker :=
  if 0 <? priv w then (with_pins (pinners d ∖ {[t]}) (counted d) d, go_free BUnpinSub w) else (d, go BIdle w).

Definition TerminateBufferIO (t : Z) (k : term_for) (d : buffer) (w : worker) : option (buffer * worker) :=
  let d := with_io_lock (delete t (io_in_progress_lock d)) d in
  match k with
  | TRead tg => Some (d, go_held BIdle (Some tg) w)
  | TFlush f => Some (d, go (BFlushUnlock f) w)
  | TAbort _ => Some (unpin_all t d w)
  end.

Definition ReadBuffer_common (o : oracle) (tg : BufferTag) (d : buffer) (w : worker) : option (buffer * worker) :=
  if bad o then Some (d, go BError w)
  else Some (with_block (disk d (tag d)) (dirtying d) (store d) d, go (BHdr (HTerm false BM_VALID (TRead tg))) w).

(** [ereport(ERROR)]: [LWLockReleaseAll], then [AbortBufferIO]. *)
Definition AbortBufferIO (t : Z) (d : buffer) (w : worker) : option (buffer * worker) :=
  match pc w with
  | BError =>
      let d := with_content (delete t (content_lock d)) (with_io_lock (delete t (io_in_progress_lock d)) d) in
      match InProgress w with
      | Some forInput => Some (d, go (BAbortLock forInput) w)
      | None => Some (unpin_all t d w)
      end
  | BAbortLock forInput =>
      if can_acquire BUFFER_LOCK_EXCLUSIVE (io_in_progress_lock d) then
        Some (with_io_lock (<[t := BUFFER_LOCK_EXCLUSIVE]> (io_in_progress_lock d)) d, go (BHdr (HAbort forInput)) w)
      else None
  | _ => None
  end.

Definition MarkBufferDirtyHint (o : oracle) (d : buffer) (w : worker) : option (buffer * worker) :=
  match pc w with
  | BHintCheck =>
      if Z.land (state d) (Z.lor BM_DIRTY BM_JUST_DIRTIED) =? Z.lor BM_DIRTY BM_JUST_DIRTIED then Some (d, go BIdle w)
      else Some (d, go BHintPermanent w)
  | BHintPermanent =>
      Some (d, go (BHdr (HHint (if XLogHintBitIsNeeded && has BM_PERMANENT (state d) then fpi_lsn o else 0))) w)
  | _ => None
  end.

(** The sleep ends by the signal of [UnpinBuffer] or by another one, or is cancelled. *)
Definition LockBufferForCleanup (o : oracle) (t : Z) (d : buffer) (w : worker) : option (buffer * worker) :=
  match pc w with
  | BCleanLock =>
      if can_acquire BUFFER_LOCK_EXCLUSIVE (content_lock d) then
        Some (with_content (<[t := BUFFER_LOCK_EXCLUSIVE]> (content_lock d)) d, go (BHdr HClean) w)
      else None
  | BCleanRelease error => Some (with_content (delete t (content_lock d)) d, go (if error then BError else BCleanSleep) w)
  | BCleanSleep => Some (d, go (BHdr (HCleanEnd (bad o))) w)
  | _ => None
  end.

Definition MarkBufferMetaFlag (d : buffer) (w : worker) : option (buffer * worker) :=
  match pc w with
  | BMetaRead isSet => Some (d, if has BM_LOCKED (state d) then w else go (BMetaCas isSet (state d)) w)
  | BMetaCas isSet oldBufState =>
      if state d =? oldBufState then
        Some (with_state (if isSet then Z.lor oldBufState BM_IS_META else without BM_IS_META oldBufState) d, go BIdle w)
      else Some (d, go (BMetaRead isSet) w)
  | _ => None
  end.

Definition run (o : oracle) (t : Z) (d : buffer) (w : worker) : option (buffer * worker) :=
  match pc w with
  | BIdle | BPanic => None
  | BPinAdd _ | BPinBack _ | BPinWait _ | BPinUsage _ _ | BPinUsageWait _ => PinBuffer t d w
  | BUnpin | BUnpinSub | BUnpinAdd | BUnpinWait => UnpinBuffer t d w
  | BHdr h => LockBufHdr o t h d w
  | BHdrHeld s h => Some (hdr_held o t s h d w)
  | BPinLocked k => PinBuffer_Locked t k d w
  | BUnlock s k => Some (with_owner None (with_state (UnlockBufHdr s (state d)) d), go k w)
  | BPinned _ _ | BVictim _ _ => BufferAlloc d w
  | BFlushLock _ | BFlushUnlock _ => SyncFlushOneBuffer t d w
  | BStartIO _ | BStartBusy _ | BStartDone _ => StartBufferIO t d w
  | BWaitLock _ | BWaitRelease _ => WaitIO t d w
  | BFlushXLog _ _ | BFlushCopy _ | BFlushWrite _ _ => FlushBuffer o d w
  | BTermRelease k => TerminateBufferIO t k d w
  | BReadPage tg => ReadBuffer_common o tg d w
  | BError | BAbortLock _ => AbortBufferIO t d w
  | BModLSN lsn => Some (with_block (set_lsn lsn (bufBlock d)) (dirtying d) (store d) d, go BIdle w)
  | BHintCheck | BHintPermanent => MarkBufferDirtyHint o d w
  | BCleanLock | BCleanRelease _ | BCleanSleep => LockBufferForCleanup o t d w
  | BMetaRead _ | BMetaCas _ _ => MarkBufferMetaFlag d w
  end.

(** ** What a client may ask for

    The conditions are the assertions of the functions that are called, and that a lock is
    free. *)

Inductive request : Type :=
| RqReadBuffer (tg : BufferTag)
| RqAllocBuffer (tg : BufferTag)
| RqIncrBufferRefCount
| RqReleaseBuffer
| RqLockBuffer (mode : hold_mode)
| RqUnlockBuffer
| RqModifyPage (data : list Z) (lsn : Z)
| RqHintPage (hint : list Z)
| RqSyncOneBuffer (skip_recently_used : bool)
| RqDropBuffer (tg : BufferTag)
| RqLockBufferForCleanup
| RqMarkBufferMetaFlag (isSet : bool).

(** What a backend does next, with what its caller must have (a pin, the content lock): the
    first step of [ReadBuffer] (with the block found in the buffer, or not), [ReleaseBuffer],
    [IncrBufferRefCount], [LockBuffer] and its release, of a change of the page followed by
    [MarkBufferDirty] or [MarkBufferDirtyHint], and of [SyncOneBuffer], [RangeForgetBuffer],
    [LockBufferForCleanup] and [MarkBufferMetaFlag]. *)
Definition begin (t : Z) (r : request) (d : buffer) (w : worker) : option (buffer * worker) :=
  let mine := content_lock d !! t in
  match r with
  | RqReadBuffer tg =>
      if 0 <? priv w then Some (d, go_priv (BPinned tg true) (priv w + 1) w) else Some (d, go (BPinAdd tg) w)
  | RqAllocBuffer tg => Some (d, go (BHdr (HVictim tg)) w)
  | RqIncrBufferRefCount => if 0 <? priv w then Some (d, go_priv BIdle (priv w + 1) w) else None
  | RqReleaseBuffer =>
      if (0 <? priv w) && (negb (priv w =? 1) || bool_decide (mine = None)) then Some (d, go BUnpin w) else None
  | RqLockBuffer mode =>
      if (0 <? priv w) && bool_decide (mine = None) && can_acquire mode (content_lock d)
      then Some (with_content (<[t := mode]> (content_lock d)) d, go BIdle w) else None
  | RqUnlockBuffer => if bool_decide (mine = None) then None else Some (with_content (delete t (content_lock d)) d, go BIdle w)
  | RqModifyPage data lsn =>
      if bool_decide (mine = Some BUFFER_LOCK_EXCLUSIVE)
      then Some (with_block (set_data data (bufBlock d)) (Some t) (<[tag d := data]> (store d)) d, go (BHdr (HDirty lsn)) w) else None
  | RqHintPage hint =>
      if bool_decide (mine = None) then None
      else Some (with_block (set_hint hint (bufBlock d)) (dirtying d) (store d) d, go BHintCheck w)
  | RqSyncOneBuffer skip_recently_used => if priv w =? 0 then Some (d, go (BHdr (HSync skip_recently_used)) w) else None
  | RqDropBuffer tg => Some (d, go (BHdr (HDrop tg)) w)
  | RqLockBufferForCleanup =>
      if (0 <? priv w) && bool_decide (mine = None) then Some (d, go (if priv w =? 1 then BCleanLock else BError) w) else None
  | RqMarkBufferMetaFlag isSet => Some (d, go (BMetaRead isSet) w)
  end.

End manager.
