(* ===== verification/BufInv.v ===== *)
(** * The invariant of a shared buffer

    The flags in the state word agree with what is true of the buffer, except while the
    holder of the header lock is about to write them ([link]); every backend is where its
    pins, locks and I/O allow it to be ([worker_ok]); and what one backend does leaves the
    others what they rely on ([guar]). *)

From S2P Require Import Prelude BufWord BufDefs BufMgr.

Abbreviation bits_above s w := (∀ k, 55 ≤ k → Z.testbit s k = Z.testbit w k).

(** What the flags of the word [w] say of the buffer. *)
Record link (d : buffer) (w : Z) : Prop := {
  link_valid : has BM_VALID w = loaded d;
  link_dirty : has BM_DIRTY w = true → loaded d = true;
  link_io : has BM_IO_IN_PROGRESS w = true ↔ is_Some (io d);
  link_out t : io d = Some (t, false) → has BM_DIRTY w = true;
  link_clean : loaded d = true → pd_data (bufBlock d) = pd_data (disk d (tag d)) ∨ has BM_DIRTY w = true ∨ is_Some (dirtying d) }.

(** It looks at three bits. *)
Lemma link_flags d s w : (∀ k, k ∈ [55; 56; 58] → Z.testbit w k = Z.testbit s k) → link d s → link d w.
Proof.
  intros Hb [Hv Hd Hi Ho Hc]. rewrite has_valid, has_dirty, has_io in *. split; rewrite ?has_valid, ?has_dirty, ?has_io, !Hb by set_solver; done.
Qed.

Lemma link_bits d s w : bits_above w s → link d s → link d w.
Proof. intros Hb. apply link_flags. intros k Hk. apply Hb. set_unfold. lia. Qed.

Lemma link_same d d' w : loaded d' = loaded d → io d' = io d → dirtying d' = dirtying d → pd_data (bufBlock d') = pd_data (bufBlock d) →
  pd_data (disk d' (tag d')) = pd_data (disk d (tag d)) → link d w → link d' w.
Proof. intros El Ei Eg Eb Ek [Hv Hd Hi Ho Hc]. split; rewrite ?El, ?Ei, ?Eg, ?Eb, ?Ek; done. Qed.

Record buffer_ok (n : Z) (d : buffer) : Prop := {
  ok_pins : pins (state d) = Z.of_nat (size (counted d));
  ok_counted : pinners d ⊆ counted d;
  ok_range t : t ∈ counted d → 0 ≤ t < n;
  ok_locked : has BM_LOCKED (state d) = true ↔ is_Some (owner d);
  ok_link : owner d = None → link d (state d);
  ok_valid : has BM_VALID (state d) = true → loaded d = true ∨ ∃ u, owner d = Some u ∧ pinners d ⊆ {[u]};
  ok_exclusive t u m : content_lock d !! t = Some BUFFER_LOCK_EXCLUSIVE → content_lock d !! u = Some m → u = t;
  ok_content t m : content_lock d !! t = Some m → t ∈ pinners d ∧ loaded d = true;
  ok_io t b : io d = Some (t, b) → t ∈ pinners d;
  ok_input t : io d = Some (t, true) → loaded d = false;
  ok_dirtying t : dirtying d = Some t → content_lock d !! t = Some BUFFER_LOCK_EXCLUSIVE;
  ok_block : loaded d = true → pd_data (bufBlock d) = store d (tag d);
  ok_absent : loaded d = false → pd_data (disk d (tag d)) = store d (tag d);
  ok_others tg : tg ≠ tag d → pd_data (disk d tg) = store d tg;
  ok_wal tg : pd_lsn (disk d tg) ≤ flushed d }.

(** ** Where a backend is *)

Definition pc_own (p : bufpc) : bool := match p with BHdrHeld _ _ | BPinLocked _ | BUnlock _ _ => true | _ => false end.
Definition pc_extra (p : bufpc) : bool := match p with BPinBack _ | BUnpinSub | BUnpinWait => true | _ => false end.
Definition pc_dirtying (p : bufpc) : bool := match p with BHdr (HDirty _) | BHdrHeld _ (HDirty _) => true | _ => false end.

Definition term_io (k : term_for) : bool := match k with TRead _ => true | TFlush _ => false | TAbort b => b end.
Definition hdr_io (h : hdr_op) : option bool :=
  match h with HFlush _ => Some false | HTerm _ _ k => Some (term_io k) | HAbort b => Some b | _ => None end.
Fixpoint pc_io (p : bufpc) : option bool :=
  match p with
  | BUnlock _ k => pc_io k
  | BHdr h | BHdrHeld _ h => hdr_io h
  | BFlushXLog _ _ | BFlushCopy _ | BFlushWrite _ _ => Some false
  | BReadPage _ => Some true
  | BAbortLock b => Some b
  | _ => None
  end.

Definition io_flush (i : io_for) : bool := match i with IFlush _ => true | IRead _ => false end.
Definition wait_flush (k : wait_for) : bool := match k with WStart i => io_flush i | WInvalidate _ => false end.
Definition term_flush (k : term_for) : bool := match k with TFlush _ => true | _ => false end.
Definition hdr_flush (h : hdr_op) : bool :=
  match h with HStart i => io_flush i | HWait k => wait_flush k | HFlush _ => true | HTerm _ _ k => term_flush k | _ => false end.
(** The backend holds the content lock in order to write the page. *)
Fixpoint pc_flush (p : bufpc) : bool :=
  match p with
  | BUnlock _ k => pc_flush k
  | BHdr h | BHdrHeld _ h => hdr_flush h
  | BStartIO i | BStartBusy i | BStartDone i => io_flush i
  | BWaitLock k | BWaitRelease k => wait_flush k
  | BFlushXLog _ _ | BFlushCopy _ | BFlushWrite _ _ | BFlushUnlock _ => true
  | BTermRelease k => term_flush k
  | _ => false
  end.
Fixpoint pc_error (p : bufpc) : bool := match p with BError => true | BUnlock _ k => pc_error k | _ => false end.

(** Where a backend goes on when it has unlocked the header. *)
Definition next_ok (p : bufpc) : bool :=
  match p with BUnlock _ k => negb (pc_own k || pc_extra k || pc_dirtying k) | _ => true end.

(** ** What it relies on there *)

Section worker.
Variables (t : Z) (d : buffer) (w : worker).
Abbreviation client := (0 < priv w → is_Some (held w)).
Abbreviation fresh := (priv w = 1 ∧ held w = None).
Abbreviation mine := (content_lock d !! t).

Definition io_ok (i : io_for) : Prop := match i with IRead tg => fresh ∧ tag d = tg | IFlush _ => fresh end.
Definition wait_ok (k : wait_for) : Prop := match k with WStart i => io_ok i | WInvalidate _ => client end.
Definition term_ok (clear_dirty : bool) (bits : Z) (k : term_for) : Prop :=
  match k with
  | TRead tg => clear_dirty = false ∧ bits = BM_VALID ∧ fresh ∧ tag d = tg ∧ pd_data (bufBlock d) = pd_data (disk d (tag d))
  | TFlush _ => clear_dirty = true ∧ bits = 0 ∧ fresh ∧ pd_data (bufBlock d) = pd_data (disk d (tag d))
  | TAbort _ => clear_dirty = false ∧ bits = BM_IO_ERROR ∧ 0 < priv w ∧ mine = None
  end.

Definition hdr_ok (h : hdr_op) : Prop :=
  match h with
  | HUnpin | HSync _ => priv w = 0
  | HVictim _ | HDrop _ | HInvalidate _ => client
  | HRename _ | HFlush _ => fresh
  | HStart i => io_ok i
  | HWait k => wait_ok k
  | HTerm clear_dirty bits k => term_ok clear_dirty bits k
  | HAbort _ => 0 < priv w ∧ mine = None
  | HDirty _ | HClean => mine = Some BUFFER_LOCK_EXCLUSIVE
  | HHint _ => is_Some mine
  | HCleanEnd _ => is_Some (held w) ∧ mine = None
  end.

Fixpoint pc_ok (p : bufpc) : Prop :=
  match p with
  | BIdle | BMetaRead _ | BMetaCas _ _ => client
  | BPanic => False
  | BPinAdd _ | BPinBack _ | BPinWait _ | BUnpinSub | BUnpinAdd | BUnpinWait => priv w = 0
  | BPinUsage _ s => fresh ∧ (has BM_VALID s = true → loaded d = true)
  | BPinUsageWait _ | BFlushUnlock _ => fresh
  | BPinned _ valid => 0 < priv w ∧ (held w = None ↔ priv w = 1) ∧ if valid then loaded d = true else held w = None
  | BUnpin => 0 < priv w ∧ (held w = None → priv w = 1) ∧ (priv w = 1 → mine = None)
  | BHdr h => hdr_ok h
  | BHdrHeld s h => hdr_ok h ∧ bits_above s (state d) ∧ link d s ∧ Z.of_nat (size (pinners d)) ≤ pins s
  | BPinLocked k =>
      priv w = 0 ∧ link d (state d) ∧
      match k with BVictim _ old_flags => has BM_DIRTY old_flags = true → loaded d = true | BFlushLock _ => loaded d = true | _ => False end
  | BUnlock s k => link d s ∧ pc_ok k
  | BVictim _ old_flags => fresh ∧ (has BM_DIRTY old_flags = true → loaded d = true)
  | BFlushLock _ => fresh ∧ loaded d = true
  | BStartIO i | BStartBusy i => io_ok i
  | BStartDone i => io_ok i ∧ if for_input i then loaded d = true else True
  | BWaitLock k | BWaitRelease k => wait_ok k
  | BFlushXLog _ lsn => fresh ∧ pd_lsn (bufBlock d) = lsn
  | BFlushCopy _ => fresh ∧ pd_lsn (bufBlock d) ≤ flushed d
  | BFlushWrite _ p => fresh ∧ pd_lsn p ≤ flushed d ∧ pd_data p = pd_data (bufBlock d)
  | BTermRelease k =>
      match k with TRead tg => fresh ∧ tag d = tg ∧ loaded d = true | TFlush _ => fresh | TAbort _ => 0 < priv w ∧ mine = None end
  | BReadPage tg => fresh ∧ tag d = tg
  | BError => True
  | BAbortLock _ => 0 < priv w ∧ mine = None
  | BModLSN _ => mine = Some BUFFER_LOCK_EXCLUSIVE
  | BHintCheck | BHintPermanent => is_Some mine
  | BCleanLock | BCleanSleep => is_Some (held w) ∧ mine = None
  | BCleanRelease _ => is_Some (held w)
  end.

Record worker_ok : Prop := {
  wk_pc : pc_ok (pc w);
  wk_next : next_ok (pc w) = true;
  wk_priv : 0 ≤ priv w;
  wk_pin : t ∈ pinners d ↔ 0 < priv w;
  wk_counted : t ∈ counted d ↔ 0 < priv w ∨ pc_extra (pc w) = true;
  wk_own : owner d = Some t ↔ pc_own (pc w) = true;
  wk_dirtying : dirtying d = Some t ↔ pc_dirtying (pc w) = true;
  wk_io b : io d = Some (t, b) ↔ InProgress w = Some b;
  wk_inprogress : pc_error (pc w) = false → InProgress w = pc_io (pc w);
  wk_content : pc_error (pc w) = false → if pc_flush (pc w) then mine = Some BUFFER_LOCK_SHARE ∧ held w = None else is_Some mine → is_Some (held w);
  wk_held tg : held w = Some tg → 0 < priv w ∧ tag d = tg ∧ loaded d = true }.

End worker.

(** ** What the others may rely on *)

Record guar (u : Z) (d d' : buffer) : Prop := {
  gu_own t : t ≠ u → owner d = Some t →
    owner d' = Some t ∧ bits_above (state d') (state d) ∧ (∀ w, link d w → link d' w) ∧ pinners d' ⊆ pinners d ∧ loaded d' = loaded d;
  gu_own' t : t ≠ u → owner d' = Some t → owner d = Some t;
  gu_pin t : t ≠ u → t ∈ pinners d' ↔ t ∈ pinners d;
  gu_counted t : t ≠ u → t ∈ counted d' ↔ t ∈ counted d;
  gu_tag : tag d' = tag d ∨ pinners d ⊆ {[u]};
  gu_loaded : loaded d = true → loaded d' = true ∨ pinners d ⊆ {[u]};
  gu_content t : t ≠ u → content_lock d' !! t = content_lock d !! t;
  gu_io t b : t ≠ u → io d' = Some (t, b) ↔ io d = Some (t, b);
  gu_dirtying t : t ≠ u → dirtying d' = Some t ↔ dirtying d = Some t;
  gu_data : pd_data (bufBlock d') = pd_data (bufBlock d) ∨ content_lock d !! u = Some BUFFER_LOCK_EXCLUSIVE ∨ io d = Some (u, true);
  gu_lsn t : t ≠ u → io d = Some (t, false) → content_lock d !! t = Some BUFFER_LOCK_SHARE → pd_lsn (bufBlock d') = pd_lsn (bufBlock d);
  gu_disk : disk d' (tag d) = disk d (tag d) ∨ io d = Some (u, false);
  gu_flushed : flushed d ≤ flushed d' }.

Lemma guar_refl u d : guar u d d.
Proof. split; intros; try done; by left. Qed.

(** ** Others leave a backend where it is *)

Section stable.
Context (n t u : Z) (d d' : buffer) (w : worker) (Hne : t ≠ u) (Hd : buffer_ok n d) (Hw : worker_ok t d w) (Hg : guar u d d').

Lemma stable_pinned : 0 < priv w → tag d' = tag d ∧ (loaded d = true → loaded d' = true).
Proof.
  intros Hp. apply (wk_pin _ _ _ Hw) in Hp. assert (¬ pinners d ⊆ {[u]}) as Hn by set_solver.
  split; [by destruct (gu_tag _ _ _ Hg)|]. intros Hl. by destruct (gu_loaded _ _ _ Hg Hl).
Qed.

Lemma stable_mine : content_lock d' !! t = content_lock d !! t.
Proof. by apply (gu_content _ _ _ Hg). Qed.

Lemma stable_io b : InProgress w = Some b → io d = Some (t, b) ∧ disk d' (tag d) = disk d (tag d).
Proof.
  intros Hb. apply (wk_io _ _ _ Hw) in Hb. split; [done|]. destruct (gu_disk _ _ _ Hg) as [|E]; [done|]. rewrite Hb in E. by simplify_eq.
Qed.

Lemma stable_input : InProgress w = Some true → pd_data (bufBlock d') = pd_data (bufBlock d).
Proof.
  intros Hb. apply (wk_io _ _ _ Hw) in Hb. destruct (gu_data _ _ _ Hg) as [|[E|E]]; [done| |].
  - destruct (ok_content _ _ Hd _ _ E) as [_ Hl]. by rewrite (ok_input _ _ Hd _ Hb) in Hl.
  - rewrite Hb in E. by simplify_eq.
Qed.

Lemma stable_shared m : content_lock d !! t = Some m → pd_data (bufBlock d') = pd_data (bufBlock d).
Proof.
  intros Hc. destruct (gu_data _ _ _ Hg) as [|[E|E]]; [done| |].
  - by pose proof (ok_exclusive _ _ Hd _ _ _ E Hc).
  - destruct (ok_content _ _ Hd _ _ Hc) as [_ Hl]. by rewrite (ok_input _ _ Hd _ E) in Hl.
Qed.

Lemma stable_lsn : InProgress w = Some false → content_lock d !! t = Some BUFFER_LOCK_SHARE → pd_lsn (bufBlock d') = pd_lsn (bufBlock d).
Proof. intros Hb Hc. apply (wk_io _ _ _ Hw) in Hb. by apply (gu_lsn _ _ _ Hg t). Qed.

Lemma stable_fresh : priv w = 1 ∧ held w = None → tag d' = tag d ∧ (loaded d = true → loaded d' = true).
Proof. intros [Hp _]. apply stable_pinned. lia. Qed.

Lemma stable_io_ok i : io_ok d w i → io_ok d' w i.
Proof. destruct i; cbn; [|done]. intros [Hf Ht]. split; [done|]. by destruct (stable_fresh Hf) as [-> _]. Qed.

Lemma stable_wait_ok k : wait_ok d w k → wait_ok d' w k.
Proof. destruct k; cbn; [apply stable_io_ok|done]. Qed.

Lemma stable_hdr_ok h : InProgress w = hdr_io h →
  (if hdr_flush h then content_lock d !! t = Some BUFFER_LOCK_SHARE ∧ held w = None else is_Some (content_lock d !! t) → is_Some (held w)) →
  hdr_ok t d w h → hdr_ok t d' w h.
Proof.
  intros Hi Hc. destruct h as [| | | | | |cd bits k| | | | | | | |]; cbn; rewrite ?stable_mine; try done; [apply stable_io_ok|apply stable_wait_ok|].
  destruct k; cbn in *; rewrite ?stable_mine; [| |done].
  - intros (-> & -> & Hf & Ht & Hb). destruct (stable_fresh Hf) as [Et _]. destruct (stable_io _ Hi) as [_ Ek]. rewrite Et, stable_input, Ek by done. done.
  - intros (-> & -> & Hf & Hb). destruct (stable_fresh Hf) as [Et _]. destruct (stable_io _ Hi) as [_ Ek]. destruct Hc as [Hc _].
    rewrite Et, (stable_shared _ Hc), Ek. done.
Qed.

Lemma stable_held_bits s : owner d = Some t → bits_above s (state d) ∧ link d s ∧ Z.of_nat (size (pinners d)) ≤ pins s →
  bits_above s (state d') ∧ link d' s ∧ Z.of_nat (size (pinners d')) ≤ pins s.
Proof.
  intros Ho (Hb & Hl & Hs). destruct (gu_own _ _ _ Hg t Hne Ho) as (_ & Hb' & Hl' & Hp & _). split; [|split; [by apply Hl'|]].
  - intros k Hk. by rewrite Hb, Hb'.
  - apply subseteq_size in Hp. lia.
Qed.

Lemma stable_pc p : (pc_own p = true → owner d = Some t) → (pc_error p = false → InProgress w = pc_io p) →
  (pc_error p = false → if pc_flush p then content_lock d !! t = Some BUFFER_LOCK_SHARE ∧ held w = None else is_Some (content_lock d !! t) → is_Some (held w)) →
  pc_ok t d w p → pc_ok t d' w p.
Proof.
  induction p; intros Ho Hi Hc; cbn in *; rewrite ?stable_mine; try done; try (by apply stable_io_ok); try (by apply stable_wait_ok).
  - intros [Hf Hv]. split; [done|]. intros. by apply (proj2 (stable_fresh Hf)), Hv.
  - intros (Hp & Hh & Hv). split; [done|]. split; [done|]. destruct valid; [|done]. by apply (stable_pinned Hp).
  - apply stable_hdr_ok; [by apply Hi|by apply Hc].
  - intros (Hh & Hs). split; [apply stable_hdr_ok; [by apply Hi|by apply Hc|done]|]. apply stable_held_bits; auto.
  - intros (Hp & Hl & Hk). destruct (gu_own _ _ _ Hg t Hne (Ho eq_refl)) as (_ & Hb' & Hl' & _ & El). split; [done|]. rewrite El. split; [|done].
    apply (link_bits _ (state d)); [|by apply Hl']. done.
  - intros [Hl Hp]. destruct (gu_own _ _ _ Hg t Hne (Ho eq_refl)) as (_ & _ & Hl' & _ & _). split; [by apply Hl'|]. auto.
  - intros [Hf Hv]. split; [done|]. intros. by apply (proj2 (stable_fresh Hf)), Hv.
  - intros [Hf Hv]. split; [done|]. by apply (proj2 (stable_fresh Hf)).
  - intros [Hio Hl]. split; [by apply stable_io_ok|]. destruct i; [|done]. by apply (proj2 (stable_fresh (proj1 Hio))).
  - intros [Hf Hl]. split; [done|]. rewrite stable_lsn; [done|auto|by apply Hc].
  - intros [Hf Hl]. split; [done|]. rewrite stable_lsn; [|auto|by apply Hc]. pose proof (gu_flushed _ _ _ Hg). lia.
  - intros (Hf & Hl & Hb). split; [done|]. rewrite (stable_shared BUFFER_LOCK_SHARE) by (by apply Hc). pose proof (gu_flushed _ _ _ Hg). split; [lia|done].
  - destruct k; rewrite ?stable_mine; [|done|done]. intros (Hf & Ht & Hl). destruct (stable_fresh Hf) as [-> Hl']. auto.
  - intros [Hf Ht]. by destruct (stable_fresh Hf) as [-> _].
Qed.

Lemma stable_worker : worker_ok t d' w.
Proof.
  split.
  - apply stable_pc; try apply Hw.
  - apply (wk_next _ _ _ Hw).
  - apply (wk_priv _ _ _ Hw).
  - rewrite (gu_pin _ _ _ Hg) by done. apply (wk_pin _ _ _ Hw).
  - rewrite (gu_counted _ _ _ Hg) by done. apply (wk_counted _ _ _ Hw).
  - rewrite <- (wk_own _ _ _ Hw). split; [by apply (gu_own' _ _ _ Hg)|]. intros Ho. by destruct (gu_own _ _ _ Hg t Hne Ho).
  - rewrite (gu_dirtying _ _ _ Hg) by done. apply (wk_dirtying _ _ _ Hw).
  - intros b. rewrite (gu_io _ _ _ Hg) by done. apply (wk_io _ _ _ Hw).
  - apply (wk_inprogress _ _ _ Hw).
  - rewrite stable_mine. apply (wk_content _ _ _ Hw).
  - intros tg Hh. destruct (wk_held _ _ _ Hw tg Hh) as (Hp & <- & Hl). destruct (stable_pinned Hp) as [-> Hl']. auto.
Qed.

End stable.
