(* ===== verification/BufPin.v ===== *)
(** * Pins and the header lock

    The steps that change the reference count or the header lock, and those that change
    nothing shared, keep the invariant. *)

From S2P Require Import Prelude BufWord BufDefs BufMgr BufInv.

(** What a step of backend [t] has to give. *)
Definition good (n t : Z) (d d' : buffer) (w' : worker) : Prop := buffer_ok n d' ∧ worker_ok t d' w' ∧ guar t d d'.

Ltac unfold_run :=
  unfold run, PinBuffer, UnpinBuffer, LockBufHdr, BufferAlloc, SyncFlushOneBuffer, StartBufferIO, WaitIO, FlushBuffer, TerminateBufferIO, ReadBuffer_common, AbortBufferIO, MarkBufferDirtyHint, LockBufferForCleanup, MarkBufferMetaFlag, PinBuffer_Locked.
Ltac unfold_held :=
  unfold hdr_held, UnpinBuffer_hdr, StrategyGetBuffer_hdr, BufferAlloc_hdr, StartBufferIO_hdr, WaitIO_hdr, GetFlushBufferInfo, TerminateBufferIO_hdr, AbortBufferIO_common,
    MarkBufferDirty_hdr, MarkBufferDirtyHint_hdr, SyncOneBuffer_hdr, RangeForgetBuffer_hdr, InvalidateBuffer, LockBufferForCleanup_hdr, UnlockBuffers.

Ltac open_worker Hw Hpc :=
  destruct Hw as [Wpc Wnext Wpriv Wpin Wcounted Wown Wdirtying Wio Winp Wcontent Wheld]; rewrite Hpc in *; cbn in *.

Ltac open_buffer Hd :=
  pose proof Hd as [Bpins Bcounted Brange Blocked Blink Bvalid Bexclusive Bcontent Bio Binput Bdirtying Bblock Babsent Bothers Bwal].

Lemma pc_ok_local t d w w' p : priv w' = priv w → held w' = held w → pc_ok t d w p → pc_ok t d w' p.
Proof.
  intros Ep Eh. induction p as [| | | | | | | | | | | |h|s h| |s k IH| | |i|i|i|k|k| | | | |k| | | | | | | | | | |];
    cbn; rewrite ?Ep, ?Eh; try done; try (destruct h as [| | |[]|[[]|]| |? ? []| | | | | | | |]; cbn; by rewrite ?Ep, ?Eh);
    try (destruct i; cbn; by rewrite ?Ep, ?Eh); try (destruct k as [[]|]; cbn; by rewrite ?Ep, ?Eh).
  intros [Hl Hk]. auto.
Qed.

Lemma size_range n (c : gset Z) : 0 ≤ n → (∀ t, t ∈ c → 0 ≤ t < n) → Z.of_nat (size c) ≤ n.
Proof.
  intros Hn Hc. assert (c ⊆ list_to_set (seqZ 0 n)) as Hs by (intros x Hx; apply elem_of_list_to_set, elem_of_seqZ; specialize (Hc x Hx); lia).
  apply subseteq_size in Hs. rewrite size_list_to_set in Hs by apply NoDup_seqZ. rewrite length_seqZ in Hs. lia.
Qed.

Lemma size_add (c : gset Z) t : t ∉ c → size (c ∪ {[t]}) = S (size c).
Proof. intros Ht. rewrite size_union, size_singleton by set_solver. lia. Qed.

Lemma size_remove (c : gset Z) t : t ∈ c → size c = S (size (c ∖ {[t]})).
Proof.
  intros Ht. rewrite <- (size_add (c ∖ {[t]}) t) by set_solver. f_equal. apply set_eq. intros x. destruct (decide (x = t)); set_solver.
Qed.

Section pins.
Context `{BufEnv} (n t : Z) (d : buffer) (w : worker).
Context (Hn : n < 2 ^ 32) (Ht : 0 ≤ t < n) (Hd : buffer_ok n d) (Hw : worker_ok t d w).

(** ** Nothing shared changes *)

Lemma move_ok p : next_ok p = true → pc_own p = pc_own (pc w) → pc_extra p = pc_extra (pc w) → pc_dirtying p = pc_dirtying (pc w) →
  (pc_error p = false → pc_error (pc w) = false ∧ pc_io p = pc_io (pc w) ∧ pc_flush p = pc_flush (pc w)) →
  pc_ok t d w p → worker_ok t d (go p w).
Proof.
  intros En E1 E2 E3 E4 Hp. destruct Hw as [Wpc Wnext Wpriv Wpin Wcounted Wown Wdirtying Wio Winp Wcontent Wheld].
  split; [by apply (pc_ok_local _ _ w)| ..]; cbn; rewrite ?E1, ?E2, ?E3; try done.
  - intros E. destruct (E4 E) as (? & -> & _). auto.
  - intros E. destruct (E4 E) as (E5 & _ & ->). by apply Wcontent.
Qed.

Lemma move p : next_ok p = true → pc_own p = pc_own (pc w) → pc_extra p = pc_extra (pc w) → pc_dirtying p = pc_dirtying (pc w) →
  (pc_error p = false → pc_error (pc w) = false ∧ pc_io p = pc_io (pc w) ∧ pc_flush p = pc_flush (pc w)) →
  pc_ok t d w p → good n t d d (go p w).
Proof. intros. split; [done|]. split; [by apply move_ok|apply guar_refl]. Qed.

(** ** The reference count *)

Lemma counted_bound : 0 ≤ pins (state d) ≤ n.
Proof. rewrite (ok_pins _ _ Hd). assert (0 ≤ n) as Hn0 by lia. pose proof (size_range n (counted d) Hn0 (ok_range _ _ Hd)). lia. Qed.

Lemma plus_pin : t ∉ counted d → pins (state d + 1) = Z.of_nat (size (counted d ∪ {[t]})) ∧ ∀ k, 32 ≤ k → Z.testbit (state d + 1) k = Z.testbit (state d) k.
Proof.
  intros Hnt. assert (0 ≤ pins (state d) + 1 < 2 ^ 32) as Hb.
  { assert (Z.of_nat (size (counted d ∪ {[t]})) ≤ n) as Hs by (apply size_range; [lia|]; intros x [Hx| ->%elem_of_singleton]%elem_of_union; [by apply (ok_range _ _ Hd)|done]).
    rewrite size_add in Hs by done. rewrite (ok_pins _ _ Hd). lia. }
  destruct (pins_add (state d) 1 Hb) as [-> _]. split; [rewrite size_add, (ok_pins _ _ Hd) by done; lia|]. intros k Hk. by apply pins_add_bit.
Qed.

Lemma minus_pin : t ∈ counted d → pins (state d - 1) = Z.of_nat (size (counted d ∖ {[t]})) ∧ ∀ k, 32 ≤ k → Z.testbit (state d - 1) k = Z.testbit (state d) k.
Proof.
  intros Hin. pose proof (size_remove _ _ Hin) as Es. pose proof (ok_pins _ _ Hd) as Ep. assert (0 ≤ pins (state d) + -1 < 2 ^ 32) as Hb by (pose proof (pins_range (state d)); lia).
  change (state d - 1) with (state d + -1). destruct (pins_add (state d) (-1) Hb) as [-> _]. split; [lia|]. intros k Hk. by apply pins_add_bit.
Qed.

Lemma repin_ok s p c : pins s = Z.of_nat (size c) → (∀ k, 54 ≤ k → Z.testbit s k = Z.testbit (state d) k) → p ⊆ c → (∀ x, x ∈ c → 0 ≤ x < n) →
  (∀ x, is_Some (content_lock d !! x) → x ∈ p) → (∀ x b, io d = Some (x, b) → x ∈ p) →
  (has BM_VALID (state d) = true → loaded d = true ∨ ∃ u, owner d = Some u ∧ p ⊆ {[u]}) →
  buffer_ok n (with_pins p c (with_state s d)).
Proof.
  intros Hp Hb Hs Hr Hc Hi Hv. assert (has BM_LOCKED s = has BM_LOCKED (state d)) as El by (rewrite !has_locked; by apply Hb).
  assert (has BM_VALID s = has BM_VALID (state d)) as Ev by (rewrite !has_valid; by apply Hb).
  open_buffer Hd. split; cbn; rewrite ?El, ?Ev; try done.
  - intros Ho. apply (link_bits _ (state d)); [intros k Hk; apply Hb; lia|]. by apply (link_same d), Blink.
  - intros x m Hm. split; [by apply Hc|]. by eapply Bcontent.
Qed.

Lemma repin_guar s p c : (∀ k, 54 ≤ k → Z.testbit s k = Z.testbit (state d) k) → (∀ x, x ≠ t → x ∈ p ↔ x ∈ pinners d) → (∀ x, x ≠ t → x ∈ c ↔ x ∈ counted d) →
  (∀ x, x ≠ t → owner d = Some x → p ⊆ pinners d) → guar t d (with_pins p c (with_state s d)).
Proof.
  intros Hb Hp Hc Ho. split; cbn; intros; try done; try (by left); [|by apply Hp|by apply Hc].
  split; [done|]. split; [intros k Hk; apply Hb; lia|]. split; [intros s'; by apply link_same|]. split; [by eapply Ho|done].
Qed.

(** ** PinBuffer *)

Lemma pinned_content x (p : gset Z) : (∀ y, y ≠ t → y ∈ p ↔ y ∈ pinners d) → (t ∈ pinners d → t ∈ p) → is_Some (content_lock d !! x) → x ∈ p.
Proof. intros Hp Hi [m Hm]. destruct (ok_content _ _ Hd _ _ Hm) as [Hx _]. destruct (decide (x = t)) as [->|]; [auto|by apply Hp]. Qed.

Lemma pinned_io x b (p : gset Z) : (∀ y, y ≠ t → y ∈ p ↔ y ∈ pinners d) → (t ∈ pinners d → t ∈ p) → io d = Some (x, b) → x ∈ p.
Proof. intros Hp Hi Hx. apply (ok_io _ _ Hd) in Hx. destruct (decide (x = t)) as [->|]; [auto|by apply Hp]. Qed.

(** A pin that [PinBuffer] keeps is added when nobody holds the header lock. *)
Lemma pin_ok s p : pc w = BPinAdd p → s = state d + 1 → has BM_LOCKED s = false →
  good n t d (with_pins (pinners d ∪ {[t]}) (counted d ∪ {[t]}) (with_state s d)) (go_priv (BPinUsage p s) 1 w).
Proof.
  intros Hpc Es Hl. open_worker Hw Hpc. assert (t ∉ counted d) as Hnt by (rewrite Wcounted; intros [|]; [lia|done]).
  destruct (plus_pin Hnt) as [Ep Hb]. rewrite <- Es in Ep, Hb. assert (owner d = None) as Ho.
  { rewrite has_locked, Hb, <- has_locked in Hl by done. destruct (owner d) eqn:E; [|done]. by rewrite (proj2 (ok_locked _ _ Hd)) in Hl. }
  assert (has BM_VALID s = true → loaded d = true) as Hv by (rewrite has_valid, Hb, <- has_valid by done; intros Hv; by rewrite <- (link_valid _ _ (ok_link _ _ Hd Ho))).
  split; [|split].
  - apply repin_ok; try done; [intros k Hk; apply Hb; lia| | | | |].
    + pose proof (ok_counted _ _ Hd). set_solver.
    + intros x [Hx| ->%elem_of_singleton]%elem_of_union; [by apply (ok_range _ _ Hd)|done].
    + intros x. apply pinned_content; set_solver.
    + intros x b. apply pinned_io; set_solver.
    + rewrite has_valid, <- (Hb 56), <- has_valid by done. auto.
  - assert (held w = None) as Eh by (destruct (held w) eqn:E; [|done]; destruct (Wheld _ eq_refl); lia).
    split; cbn; try done; try set_solver.
  - apply repin_guar; [intros k Hk; apply Hb; lia|set_solver|set_solver|naive_solver].
Qed.

(** An attempt that met the header lock counts until it is taken back. *)
Lemma count_ok s c p : (∀ x, x ≠ t → x ∈ c ↔ x ∈ counted d) → pins s = Z.of_nat (size c) → (∀ k, 32 ≤ k → Z.testbit s k = Z.testbit (state d) k) → t ∉ pinners d →
  (t ∈ c ↔ pc_extra p = true) → next_ok p = true → pc_own p = pc_own (pc w) → pc_dirtying p = pc_dirtying (pc w) → pc_error p = false → pc_error (pc w) = false →
  pc_io p = pc_io (pc w) → pc_flush p = pc_flush (pc w) →
  pc_ok t (with_pins (pinners d) c (with_state s d)) w p → good n t d (with_pins (pinners d) c (with_state s d)) (go p w).
Proof.
  intros Hc Ep Hb Hnp Htc En E1 E2 E3 E4 E5 E6 Hp. destruct Hw as [Wpc Wnext Wpriv Wpin Wcounted Wown Wdirtying Wio Winp Wcontent Wheld]. split; [|split].
  - apply repin_ok; try done; [intros k Hk; apply Hb; lia| | | | |].
    + intros x Hx. apply Hc; [by intros ->|by apply (ok_counted _ _ Hd)].
    + intros x Hx. destruct (decide (x = t)) as [->|]; [done|]. by apply (ok_range _ _ Hd), Hc.
    + intros x. by apply pinned_content.
    + intros x b. by apply pinned_io.
    + apply (ok_valid _ _ Hd).
  - split; [by apply (pc_ok_local _ _ w)| ..]; cbn; rewrite ?E1, ?E2, ?E3, ?E4, ?E5, ?E6 in *; try done; [rewrite Htc, <- Wpin; tauto|auto..].
  - apply repin_guar; [intros k Hk; apply Hb; lia|done|done|done].
Qed.

(** A pin is given up: the backend counts until it has subtracted one. *)
Lemma unpin_ok : 0 < priv w → content_lock d !! t = None → InProgress w = None → pc_own (pc w) = false → pc_dirtying (pc w) = false →
  good n t d (with_pins (pinners d ∖ {[t]}) (counted d) d) (go_free BUnpinSub w).
Proof.
  intros Hp Hc Hi Eo Eg. destruct Hw as [Wpc Wnext Wpriv Wpin Wcounted Wown Wdirtying Wio Winp Wcontent Wheld]. rewrite Eo, Eg in *.
  change (with_pins (pinners d ∖ {[t]}) (counted d) d) with (with_pins (pinners d ∖ {[t]}) (counted d) (with_state (state d) d)).
  split; [|split].
  - apply repin_ok; try done; [apply (ok_pins _ _ Hd)| | | | |].
    + pose proof (ok_counted _ _ Hd). set_solver.
    + apply (ok_range _ _ Hd).
    + intros x [m Hm]. destruct (ok_content _ _ Hd _ _ Hm). assert (x ≠ t) by naive_solver. set_solver.
    + intros x b Hx. pose proof (ok_io _ _ Hd _ _ Hx). assert (x ≠ t) by (intros ->; apply Wio in Hx; congruence). set_solver.
    + intros Hv. destruct (ok_valid _ _ Hd Hv) as [|(u & Ho & Hs)]; [by left|]. right. exists u. split; [done|]. set_solver.
  - split; cbn; try done.
    + split; [by intros [_ []%not_elem_of_singleton]%elem_of_difference|lia].
    + rewrite Wcounted. split; [by right|by left].
    + rewrite Hc. by intros _ [].
  - apply repin_guar; try done; set_solver.
Qed.

(** ** The header lock *)

Lemma lock_ok h : pc w = BHdr h → has BM_LOCKED (state d) = false →
  good n t d (with_owner (Some t) (with_state (Z.lor (state d) BM_LOCKED) d)) (go (BHdrHeld (Z.lor (state d) BM_LOCKED) h) w).
Proof.
  intros Hpc Hl. open_worker Hw Hpc. open_buffer Hd. assert (owner d = None) as Ho by (destruct (owner d) eqn:E; [|done]; by rewrite (proj2 Blocked) in Hl).
  assert (∀ s, link d s → link (with_owner (Some t) (with_state (Z.lor (state d) BM_LOCKED) d)) s) as Hls by (intros s; by apply link_same).
  assert (link d (Z.lor (state d) BM_LOCKED)) as Hlk by (apply (link_bits _ (state d)); [intros k Hk; apply lock_bit; lia|auto]).
  split; [|split].
  - split; cbn; try done.
    + by rewrite lock_pins.
    + rewrite has_locked, lock_set. done.
    + rewrite has_valid, lock_bit, <- has_valid by done. rewrite (link_valid _ _ (Blink Ho)). by left.
  - split; cbn; try done. split; [|split; [done|split; [by apply Hls|]]].
    + revert Wpc. destruct h as [| | |[]|[[]|]| |? ? []| | | | | | | |]; done.
    + rewrite lock_pins, Bpins. apply subseteq_size in Bcounted. lia.
  - split; cbn; intros; try done; try (by left); naive_solver.
Qed.

Lemma unlock_ok s k : pc w = BUnlock s k → pc_ok t (with_owner None (with_state (UnlockBufHdr s (state d)) d)) w k →
  good n t d (with_owner None (with_state (UnlockBufHdr s (state d)) d)) (go k w).
Proof.
  intros Hpc Hk. open_worker Hw Hpc. open_buffer Hd. destruct Wpc as [Hlk _]. apply negb_true_iff in Wnext. rewrite !orb_false_iff in Wnext. destruct Wnext as [[Eo Ee] Eg].
  assert (link d (UnlockBufHdr s (state d))) as Hl by (apply (link_bits _ s); [intros j Hj; apply unlock_bit; lia|done]).
  split; [|split].
  - split; cbn; try done.
    + by rewrite unlock_pins.
    + rewrite has_locked, unlock_clear. split; [done|by intros []].
    + intros _. by apply (link_same d).
    + rewrite (link_valid _ _ Hl). by left.
  - split; [by apply (pc_ok_local _ _ w)|by destruct k| ..]; cbn; rewrite ?Eo, ?Ee, ?Eg; try done.
  - assert (owner d = Some t) as Ho by (by apply Wown). split; cbn; intros; try done; try (by left); naive_solver.
Qed.

Lemma pin_locked_ok k : pc w = BPinLocked k →
  good n t d (with_pins (pinners d ∪ {[t]}) (counted d ∪ {[t]}) (with_state (state d + 1) d)) (go_priv (BUnlock (state d + 1) k) 1 w).
Proof.
  intros Hpc. open_worker Hw Hpc. destruct Wpc as (Ep & Hl & Hk). assert (t ∉ counted d) as Hnt by (rewrite Wcounted; intros [|]; [lia|done]).
  destruct (plus_pin Hnt) as [Es Hb]. assert (owner d = Some t) as Ho by (by apply Wown).
  assert (held w = None) as Eh by (destruct (held w) eqn:E; [|done]; destruct (Wheld _ eq_refl); lia). split; [|split].
  - apply repin_ok; try done; [intros j Hj; apply Hb; lia| | | | |].
    + pose proof (ok_counted _ _ Hd). set_solver.
    + intros x [Hx| ->%elem_of_singleton]%elem_of_union; [by apply (ok_range _ _ Hd)|done].
    + intros x. apply pinned_content; set_solver.
    + intros x b. apply pinned_io; set_solver.
    + rewrite (link_valid _ _ Hl). by left.
  - assert (link (with_pins (pinners d ∪ {[t]}) (counted d ∪ {[t]}) (with_state (state d + 1) d)) (state d + 1)) as Hl'
      by (apply (link_bits _ (state d)); [intros j Hj; apply Hb; lia|by apply (link_same d)]).
    split; cbn; try done; destruct k; try done; cbn; rewrite ?elem_of_union, ?elem_of_singleton; try done; try (split; [lia|by right]).
    all: by rewrite Eh.
  - apply repin_guar; [intros j Hj; apply Hb; lia|set_solver|set_solver|naive_solver].
Qed.

(** ** An exchange of the word that only the use count or a mark is changed by *)

Lemma cas_ok s p : pins s = pins (state d) → (∀ k, 54 ≤ k → Z.testbit s k = Z.testbit (state d) k) →
  worker_ok t d (go p w) → pc_own p = false → pc_ok t (with_state s d) w p → good n t d (with_state s d) (go p w).
Proof.
  intros Ep Hb Hw' Eo Hp. change (with_state s d) with (with_pins (pinners d) (counted d) (with_state s d)). split; [|split].
  - apply repin_ok; try done; [by rewrite Ep, (ok_pins _ _ Hd)|apply Hd|apply Hd| | |apply Hd].
    + intros x. by apply pinned_content.
    + intros x b. by apply pinned_io.
  - destruct Hw' as [Wpc Wnext Wpriv Wpin Wcounted Wown Wdirtying Wio Winp Wcontent Wheld]. by split.
  - by apply repin_guar.
Qed.

End pins.
