(* ===== verification/BufPage.v ===== *)
(** * The content lock, the page and the file

    The steps that take or give up the content lock, change the page in the buffer, or read
    or write the file keep the invariant. *)

From S2P Require Import Prelude BufWord BufDefs BufMgr BufInv BufPin.

Section page.
Context (n t : Z) (d : buffer) (Hd : buffer_ok n d).

(** ** Lightweight locks *)

Lemma io_lock_ok l : buffer_ok n (with_io_lock l d).
Proof. open_buffer Hd. split; cbn; try done. intros Ho. by apply (link_same d), Blink. Qed.

Lemma io_lock_guar l : guar t d (with_io_lock l d).
Proof. split; cbn; intros; try done; try (by left). split_and!; try done. intros. by apply (link_same d). Qed.

Lemma waiter_ok x : buffer_ok n (with_waiter x d).
Proof. open_buffer Hd. split; cbn; try done. intros Ho. by apply (link_same d), Blink. Qed.

Lemma waiter_guar x : guar t d (with_waiter x d).
Proof. split; cbn; intros; try done; try (by left). split_and!; try done. intros. by apply (link_same d). Qed.

Lemma content_acquire_ok m : can_acquire m (content_lock d) = true → t ∈ pinners d → loaded d = true → buffer_ok n (with_content (<[t := m]> (content_lock d)) d).
Proof.
  intros Hm Hp Hl. open_buffer Hd. assert (∀ u m', u ≠ t → content_lock d !! u = Some m' → m = BUFFER_LOCK_SHARE ∧ m' = BUFFER_LOCK_SHARE) as Hs.
  { intros u m' Hu Hc. destruct m; cbn in Hm; apply bool_decide_eq_true in Hm; [|rewrite Hm in Hc; by apply lookup_empty_Some in Hc]. split; [done|]. by apply (Hm u m'). }
  split; cbn; try done.
  - intros Ho. by apply (link_same d), Blink.
  - intros x u m'. rewrite !lookup_insert_Some. intros [[<- ->]|[Hx Hcx]] [[<- _]|[Hu Hcu]]; try done.
    + by destruct (Hs _ _ (not_eq_sym Hu) Hcu).
    + by destruct (Hs _ _ (not_eq_sym Hx) Hcx).
    + by eapply Bexclusive.
  - intros x m'. rewrite lookup_insert_Some. intros [[<- _]|[_ Hc]]; [done|by eapply Bcontent].
  - intros x Hx. apply Bdirtying in Hx. rewrite lookup_insert_Some. destruct (decide (t = x)) as [->|Hne]; [|by right].
    left. split; [done|]. destruct m; [|done]. cbn in Hm. apply bool_decide_eq_true in Hm. by apply Hm in Hx.
Qed.

Lemma content_release_ok : dirtying d ≠ Some t → buffer_ok n (with_content (delete t (content_lock d)) d).
Proof.
  intros Hg. open_buffer Hd. split; cbn; try done.
  - intros Ho. by apply (link_same d), Blink.
  - intros x u m'. rewrite !lookup_delete_Some. intros [_ ?] [_ ?]. by eapply Bexclusive.
  - intros x m'. rewrite lookup_delete_Some. intros [_ ?]. by eapply Bcontent.
  - intros x Hx. rewrite lookup_delete_Some. split; [by intros ->|auto].
Qed.

Lemma content_guar l : (∀ x, x ≠ t → l !! x = content_lock d !! x) → guar t d (with_content l d).
Proof. intros Hl. split; cbn; intros; try done; try (by left); [|by apply Hl]. split_and!; try done. intros. by apply (link_same d). Qed.

(** ** The page *)

(** Its LSN or its hints. *)
Lemma touch_ok p : pd_data p = pd_data (bufBlock d) → buffer_ok n (with_block p (dirtying d) (store d) d).
Proof. intros Ep. open_buffer Hd. split; cbn; rewrite ?Ep; try done. intros Ho. by apply (link_same d), Blink. Qed.

Lemma touch_guar p : pd_data p = pd_data (bufBlock d) →
  (∀ x, x ≠ t → io d = Some (x, false) → content_lock d !! x = Some BUFFER_LOCK_SHARE → pd_lsn p = pd_lsn (bufBlock d)) →
  guar t d (with_block p (dirtying d) (store d) d).
Proof. intros Ep Hl. split; cbn; intros; try done; try (by left); [|by eapply Hl]. split_and!; try done. intros. by apply (link_same d). Qed.

(** What the client writes. *)
Lemma modify_link x s : link d s → content_lock d !! t = Some BUFFER_LOCK_EXCLUSIVE → link (with_block (set_data x (bufBlock d)) (Some t) (<[tag d := x]> (store d)) d) s.
Proof. intros [Hv Hdi Hi Ho Hc] Hm. split; cbn; try done. intros _. by right; right. Qed.

Lemma modify_ok x : content_lock d !! t = Some BUFFER_LOCK_EXCLUSIVE → buffer_ok n (with_block (set_data x (bufBlock d)) (Some t) (<[tag d := x]> (store d)) d).
Proof.
  intros Hm. open_buffer Hd. destruct (Bcontent _ _ Hm) as [Hp Hl]. split; cbn; try done.
  - intros Ho. apply modify_link; auto.
  - by intros y [= <-].
  - intros _. by rewrite fn_lookup_insert.
  - by rewrite Hl.
  - intros tg Ht. rewrite fn_lookup_insert_ne by done. auto.
Qed.

Lemma modify_guar x : content_lock d !! t = Some BUFFER_LOCK_EXCLUSIVE → guar t d (with_block (set_data x (bufBlock d)) (Some t) (<[tag d := x]> (store d)) d).
Proof.
  intros Hm. open_buffer Hd. split; cbn; intros; try done; try (by left); try (by right; left).
  - split_and!; try done. intros. by apply modify_link.
  - split; [by intros [= <-]|]. intros Hx%Bdirtying. by pose proof (Bexclusive _ _ _ Hx Hm).
Qed.

(** What is read from the file. *)
Lemma read_link s : link d s → io d = Some (t, true) → link (with_block (disk d (tag d)) (dirtying d) (store d) d) s.
Proof. intros [Hv Hdi Hi Ho Hc] Hm. split; cbn; try done. intros _. by left. Qed.

Lemma read_ok : io d = Some (t, true) → buffer_ok n (with_block (disk d (tag d)) (dirtying d) (store d) d).
Proof.
  intros Hm. open_buffer Hd. pose proof (Binput _ Hm) as Hl. split; cbn; try done; rewrite ?Hl; try done. intros Ho. apply read_link; auto.
Qed.

Lemma read_guar : io d = Some (t, true) → guar t d (with_block (disk d (tag d)) (dirtying d) (store d) d).
Proof.
  intros Hm. split; cbn; intros; try done; try (by left); try (by right; right); [|congruence].
  split_and!; try done. intros. by apply read_link.
Qed.

(** ** The file *)

Section write.
Context (p : page) (Hm : io d = Some (t, false)) (Hc : content_lock d !! t = Some BUFFER_LOCK_SHARE).
Context (Hp : pd_data p = pd_data (bufBlock d)) (Hlsn : pd_lsn p ≤ flushed d).
Abbreviation d' := (with_disk (<[tag d := p]> (disk d)) (flushed d) (store d) d).

Lemma write_link s : link d s → link d' s.
Proof. intros [Hv Hdi Hi Ho Hcl]. split; cbn; try done. intros _. left. by rewrite fn_lookup_insert. Qed.

Lemma write_ok : buffer_ok n d'.
Proof.
  open_buffer Hd. destruct (Bcontent _ _ Hc) as [Hpin Hl]. split; cbn; try done; rewrite ?Hl; try done.
  - intros Ho. apply write_link; auto.
  - intros tg Ht. rewrite fn_lookup_insert_ne by done. auto.
  - intros tg. destruct (decide (tg = tag d)) as [->|]; [by rewrite fn_lookup_insert|by rewrite fn_lookup_insert_ne].
Qed.

Lemma write_guar : guar t d d'.
Proof. split; cbn; intros; try done; try (by left); try (by right). split_and!; try done. intros. by apply write_link. Qed.
End write.

End page.
