(* ===== verification/BufHeader.v ===== *)
(** * Under the header lock

    What the holder of the header lock does keeps the invariant. *)

From S2P Require Import Prelude BufWord BufDefs BufMgr BufInv BufPin BufPage.

(** One pin. *)
Lemma pinned_alone t d : Z.of_nat (size (pinners d)) ≤ 1 → t ∈ pinners d → pinners d = {[t]}.
Proof.
  intros Hs Hp. apply set_eq. intros x. rewrite elem_of_singleton. split; [|by intros ->]. intros Hx. destruct (decide (x = t)) as [|Hne]; [done|].
  assert ({[t; x]} ⊆ pinners d) as Hsub by set_solver. apply subseteq_size in Hsub. rewrite size_union, !size_singleton in Hsub by set_solver. lia.
Qed.

Section header.
Context `{BufEnv} (n t : Z) (o : oracle) (d : buffer) (w : worker) (s : Z).
Context (Ht : 0 ≤ t < n) (Hd : buffer_ok n d) (Hw : worker_ok t d w).

(** Nothing but the word is going to change. *)
Lemma unlock_same h s' k : pc w = BHdrHeld s h → (∀ j, j ∈ [55; 56; 58] → Z.testbit s' j = Z.testbit s j) →
  next_ok (BUnlock s' k) = true → pc_dirtying (BHdr h) = false → (pc_error k = false → pc_io k = hdr_io h ∧ pc_flush k = hdr_flush h) → pc_ok t d w k →
  good n t d d (go (BUnlock s' k) w).
Proof.
  intros Hpc Hb En Eg Ek Hk. pose proof (wk_pc _ _ _ Hw) as Wpc. rewrite Hpc in Wpc. destruct Wpc as (_ & _ & Hl & _).
  apply (move n t d w); rewrite ?Hpc; try done; [intros E; split; [done|by apply Ek]|]. split; [by apply (link_flags d s)|done].
Qed.

Lemma header_facts h : pc w = BHdrHeld s h → owner d = Some t ∧ hdr_ok t d w h ∧ link d s ∧ Z.of_nat (size (pinners d)) ≤ BUF_STATE_GET_REFCOUNT s.
Proof.
  intros Hpc. open_worker Hw Hpc. rewrite refcount_pins. destruct Wpc as (Hh & _ & Hl & Hs). split_and!; try done. by apply Wown.
Qed.

(** ** One pin, or none *)

(** Who has the only pin and no lock finds nobody at the page. *)
Lemma alone_idle : pinners d ⊆ {[t]} → content_lock d !! t = None → InProgress w = None → (∀ x, content_lock d !! x = None) ∧ io d = None ∧ dirtying d = None.
Proof.
  intros Hp Hc Hi. open_buffer Hd. assert (∀ x, content_lock d !! x = None) as Hn.
  { intros x. destruct (content_lock d !! x) as [m|] eqn:E; [|done]. destruct (Bcontent _ _ E) as [Hx _]. assert (x = t) as -> by set_solver. congruence. }
  split; [done|]. split.
  - destruct (io d) as [[x b]|] eqn:E; [|done]. pose proof (Bio _ _ eq_refl) as Hx. assert (x = t) as -> by set_solver. apply (wk_io _ _ _ Hw) in E. congruence.
  - destruct (dirtying d) as [x|] eqn:E; [|done]. pose proof (Bdirtying _ eq_refl). congruence.
Qed.

Lemma none_pinned : Z.of_nat (size (pinners d)) ≤ 0 → pinners d = ∅.
Proof. intros Hs. apply leibniz_equiv, size_empty_iff. lia. Qed.

(** ** The buffer is given another block *)

(** Nobody is at the page and the file has what the clients have written. *)
Lemma retag_ok tg st : owner d = Some t → pinners d ⊆ {[t]} → (∀ x, content_lock d !! x = None) → io d = None → dirtying d = None →
  (∀ x, pd_data (disk d x) = st x) → buffer_ok n (with_tag tg false st d).
Proof.
  intros Ho Hp Hc Hi Hg Hs. open_buffer Hd. split; cbn; try done; rewrite ?Hi, ?Hg; try done.
  - by rewrite Ho.
  - intros _. right. by exists t.
  - intros x m. by rewrite Hc.
Qed.

Lemma retag_guar tg st : owner d = Some t → pinners d ⊆ {[t]} → guar t d (with_tag tg false st d).
Proof. intros Ho Hp. split; cbn; intros; try done; try (by left); try (by right). congruence. Qed.

Lemma written : dirtying d = None → link d s → has BM_DIRTY s = false → pd_data (disk d (tag d)) = store d (tag d).
Proof.
  intros Hg Hl Hc. open_buffer Hd. destruct (loaded d) eqn:E; [|auto]. rewrite <- Bblock by done.
  destruct (link_clean _ _ Hl E) as [->|[|[]]]; [done|congruence|congruence].
Qed.

Lemma recyclable_spec : recyclable s = (BUF_STATE_GET_REFCOUNT s =? 1) && negb (has BM_DIRTY s).
Proof. unfold recyclable. flag_bits. done. Qed.

Lemma rename_ok tg : pc w = BHdrHeld s (HRename tg) → recyclable s = true →
  good n t d (with_tag tg false (store d) d) (go (BUnlock (rename_state tg s) (BStartIO (IRead tg))) w).
Proof.
  rewrite recyclable_spec. intros Hpc [Hr%Z.eqb_eq Hnd%negb_true_iff]%andb_true_iff. destruct (header_facts _ Hpc) as (Ho & [Hp1 Hh] & Hl & Hs). rewrite Hr in Hs.
  open_worker Hw Hpc. assert (pinners d = {[t]}) as Hal by (apply pinned_alone; [done|apply Wpin; lia]).
  assert (content_lock d !! t = None) as Hc by (destruct (content_lock d !! t) eqn:E; [|done]; destruct (Wcontent eq_refl); [done|congruence]).
  destruct alone_idle as (Hca & Hi & Hg); [by rewrite Hal|done|auto|]. split; [|split].
  - apply retag_ok; try done; [by rewrite Hal|]. intros x. destruct (decide (x = tag d)) as [->|]; [by apply written|by apply (ok_others _ _ Hd)].
  - split; cbn; try done; [|by rewrite Hh]. split; [|done]. unfold rename_state. destruct Hl as [Hv Hdi Hio Hout Hcl].
    split; cbn; try done; [| |revert Hio|by rewrite Hi]; destruct (is_permanent tg); flag_bits; done.
  - apply retag_guar; [done|by rewrite Hal].
Qed.

Lemma invalidate_ok tg : pc w = BHdrHeld s (HInvalidate tg) → BUF_STATE_GET_REFCOUNT s = 0 →
  good n t d (with_tag cleared_tag false (<[tag d := pd_data (disk d (tag d))]> (store d)) d)
    (go (BUnlock (without (Z.lor BUF_FLAG_MASK BUF_USAGECOUNT_MASK) s) BIdle) w).
Proof.
  intros Hpc Hr. destruct (header_facts _ Hpc) as (Ho & Hcl & Hl & Hs). rewrite Hr in Hs. open_worker Hw Hpc. pose proof (none_pinned Hs) as Hno.
  assert (t ∉ pinners d) as Hnt by (rewrite Hno; set_solver). assert (content_lock d !! t = None) as Hc.
  { destruct (content_lock d !! t) eqn:E; [|done]. by destruct (ok_content _ _ Hd _ _ E). }
  destruct alone_idle as (Hca & Hi & Hg); [by rewrite Hno|done|auto|]. split; [|split].
  - apply retag_ok; try done; [by rewrite Hno|]. intros x. destruct (decide (x = tag d)) as [->|]; [by rewrite fn_lookup_insert|].
    rewrite fn_lookup_insert_ne by done. by apply (ok_others _ _ Hd).
  - split; cbn; try done; [|intros tg' Htg; destruct (Wheld _ Htg) as [Hp _]; by apply Wpin in Hp]. split; [|done].
    split; cbn; try done; rewrite ?Hi; flag_bits; try done.
  - apply retag_guar; [done|by rewrite Hno].
Qed.

(** ** Input and output *)

Lemma io_guar x l : owner d = Some t → (∀ u b, u ≠ t → x = Some (u, b) ↔ io d = Some (u, b)) → (loaded d = true → l = true) → guar t d (with_io x l d).
Proof. intros Ho Hx Hl. split; cbn; intros; try done; try (by left); [congruence|left; auto|by apply Hx]. Qed.

Lemma start_ok i : pc w = BHdrHeld s (HStart i) → has BM_IO_IN_PROGRESS s = false → io_done i s = false →
  good n t d (with_io (Some (t, for_input i)) (loaded d) d) (go_io (BUnlock (Z.lor s BM_IO_IN_PROGRESS) (io_start i)) (Some (for_input i)) w).
Proof.
  intros Hpc Hni Hnd. destruct (header_facts _ Hpc) as (Ho & Hio & Hl & _). open_worker Hw Hpc. open_buffer Hd.
  assert (io d = None) as Hi by (destruct (io d) eqn:E; [|done]; by rewrite (proj2 (link_io _ _ Hl)) in Hni; [|rewrite E]).
  assert (priv w = 1 ∧ held w = None) as [Hp Hh] by (destruct i; cbn in Hio; tauto).
  assert (io_flush i = negb (for_input i)) as Ef by (by destruct i). split; [|split].
  - split; cbn; try done; [by rewrite Ho|intros x b [= <- <-]; apply Wpin; lia|]. intros x [= <- Hf]. destruct i; [|done]. cbn in Hnd. by rewrite <- (link_valid _ _ Hl).
  - split; cbn; try done; [|by destruct i|intros b; split; congruence|by destruct i|by destruct i]. destruct Hl as [Hv Hdi Hlo Hout Hcl]. split.
    + split; cbn; [revert Hv|revert Hdi| |intros x [= <- Hf]; destruct i; [done|]; cbn in Hnd; apply negb_false_iff in Hnd; revert Hnd|revert Hcl]; flag_bits; done.
    + by destruct i; cbn in *.
  - apply io_guar; [done| |done]. intros u b Hu. rewrite Hi. naive_solver.
Qed.

Lemma term_link cd bits k : link d s → term_ok t d w cd bits k → (term_flush k = true → loaded d = true) →
  link (with_io None (loaded d || has BM_VALID bits) d) (TerminateBufferIO_common cd bits s).
Proof.
  intros [Hv Hdi Hlo Hout Hcl] Hk Hlf. unfold TerminateBufferIO_common. destruct k; cbn in Hk.
  - destruct Hk as (-> & -> & _ & _ & Hb). split; cbn; flag_bits; try done. intros _. by left.
  - destruct Hk as (-> & -> & _ & Hb). specialize (Hlf eq_refl). rewrite Hlf in *.
    split; cbn; destruct (negb _); flag_bits; try done; try (by left); revert Hv; flag_bits; done.
  - destruct Hk as (-> & -> & _). split; cbn; [revert Hv|revert Hdi| | |revert Hcl]; flag_bits; try done.
Qed.

Lemma terminate_ok cd bits k : pc w = BHdrHeld s (HTerm cd bits k) →
  good n t d (with_io None (loaded d || has BM_VALID bits) d) (go_io (BUnlock (TerminateBufferIO_common cd bits s) (BTermRelease k)) None w).
Proof.
  intros Hpc. destruct (header_facts _ Hpc) as (Ho & Hk & Hl & _). open_worker Hw Hpc. open_buffer Hd. specialize (Winp eq_refl). specialize (Wcontent eq_refl).
  apply Wio in Winp as Hi. assert (term_flush k = true → loaded d = true) as Hlf by (destruct k; try done; intros _; by eapply Bcontent, Wcontent).
  assert (has BM_VALID bits = true → ∃ tg, k = TRead tg ∧ pd_data (bufBlock d) = store d (tag d)) as Hbits.
  { destruct k as [tg|f|b]; cbn in Hk; destruct Hk as (_ & -> & Hk); [|done..]. intros _. exists tg. split; [done|]. destruct Hk as (_ & _ & ->). apply Babsent. by eapply Binput. }
  split; [|split].
  - split; cbn; try done; [by rewrite Ho| | | |].
    + intros Hv. destruct (Bvalid Hv) as [-> |Hu]; [by left|by right].
    + intros x m Hm. destruct (Bcontent _ _ Hm) as [? ->]. done.
    + destruct (loaded d); [auto|]. intros Hb. by destruct (Hbits Hb) as (tg & _ & ?).
    + destruct (loaded d); [done|auto].
  - split; cbn; try done.
    + split; [by apply (term_link cd bits k)|]. destruct k; cbn in *; destruct Hk as (_ & -> & Hk); [|tauto..]. destruct Hk as (? & ? & _). rewrite orb_true_r. done.
    + intros tg Htg. destruct (Wheld _ Htg) as (? & ? & ->). done.
  - apply io_guar; [done| |by intros ->]. intros u b Hu. rewrite Hi. naive_solver.
Qed.

(** ** The page is marked *)

Lemma mark_link d' : loaded d' = true → io d' = io d → has BM_VALID s = true → link d s → link d' (Z.lor s (Z.lor BM_DIRTY BM_JUST_DIRTIED)).
Proof. intros El Ei Hvs [Hv Hdi Hlo Hout Hcl]. split; rewrite ?El, ?Ei; [revert Hvs|revert Hdi|revert Hlo|revert Hout|]; flag_bits; try done. intros _. by right; left. Qed.

Lemma dirty_ok lsn : pc w = BHdrHeld s (HDirty lsn) →
  good n t d (with_block (bufBlock d) None (store d) d) (go (BUnlock (Z.lor s (Z.lor BM_DIRTY BM_JUST_DIRTIED)) (BModLSN lsn)) w).
Proof.
  intros Hpc. destruct (header_facts _ Hpc) as (Ho & Hc & Hl & _). open_worker Hw Hpc. open_buffer Hd. destruct (Bcontent _ _ Hc) as [Hp Hld].
  assert (dirtying d = Some t) as Hg by (by apply Wdirtying). split; [|split].
  - split; cbn; try done. by rewrite Ho.
  - split; cbn; try done. split; [|done]. apply mark_link; try done. by rewrite (link_valid _ _ Hl).
  - split; cbn; intros; try done; try (by left); [congruence|]. rewrite Hg. naive_solver.
Qed.

Lemma hint_ok lsn p : pc w = BHdrHeld s (HHint lsn) → pd_data p = pd_data (bufBlock d) → (has BM_DIRTY s = true → pd_lsn p = pd_lsn (bufBlock d)) →
  good n t d (with_block p (dirtying d) (store d) d) (go (BUnlock (Z.lor s (Z.lor BM_DIRTY BM_JUST_DIRTIED)) BIdle) w).
Proof.
  intros Hpc Ep Els. destruct (header_facts _ Hpc) as (Ho & [m Hc] & Hl & _). open_worker Hw Hpc. destruct (ok_content _ _ Hd _ _ Hc) as [Hp Hld]. split; [|split].
  - by apply touch_ok.
  - split; cbn; try done. split; [apply mark_link; try done; by rewrite (link_valid _ _ Hl)|]. intros _. apply Wcontent; [done|]. by rewrite Hc.
  - apply touch_guar; [done|]. intros x Hx Hi _. apply Els. by eapply link_out.
Qed.

(** ** Victims and waiters *)

Lemma fresh_unlocked : pc_error (pc w) = false → pc_flush (pc w) = false → held w = None → content_lock d !! t = None.
Proof.
  intros Ee Ef Hh. pose proof (wk_content _ _ _ Hw Ee) as Hc. rewrite Ef in Hc. destruct (content_lock d !! t) eqn:E; [|done]. destruct Hc; [done|congruence].
Qed.

Lemma pin_locked_next h k : pc w = BHdrHeld s h → hdr_io h = None → hdr_flush h = false → pc_dirtying (BHdr h) = false → priv w = 0 →
  match k with BVictim _ old_flags => has BM_DIRTY old_flags = true → loaded d = true | BFlushLock _ => loaded d = true | _ => False end →
  good n t d d (go (BPinLocked k) w).
Proof.
  intros Hpc Ei Ef Eg Hp Hk. pose proof (wk_pc _ _ _ Hw) as Wpc. rewrite Hpc in Wpc. destruct Wpc as (_ & Hb & Hl & _).
  apply (move n t d w); rewrite ?Hpc; try done. split; [done|]. split; [|done]. apply (link_bits _ s); [|done]. intros j Hj. by rewrite Hb.
Qed.

Lemma waiting_ok : pc w = BHdrHeld s HClean → good n t d (with_waiter t d) (go (BUnlock (Z.lor s BM_PIN_COUNT_WAITER) (BCleanRelease false)) w).
Proof.
  intros Hpc. destruct (header_facts _ Hpc) as (Ho & Hc & Hl & _). open_worker Hw Hpc. split; [by apply waiter_ok|split; [|by apply waiter_guar]].
  split; cbn; try done. split; [|apply Wcontent; [done|by rewrite Hc]]. apply (link_flags _ s); [|by apply (link_same d)].
  intros j Hj. set_unfold. destruct Hj as [->|[->|[->|[]]]]; flag_bits; done.
Qed.

(** ** Every use of the header lock *)

Ltac flags_kept := intros j Hj; set_unfold; destruct Hj as [->|[->|[->|[]]]]; repeat case_match; flag_bits; done.

Lemma victim_ok tg : pc w = BHdrHeld s (HVictim tg) → good n t d (hdr_held o t s (HVictim tg) d w).1 (hdr_held o t s (HVictim tg) d w).2.
Proof.
  intros Hpc. destruct (header_facts _ Hpc) as (Ho & Hcl & Hl & Hs). unfold_held. cbn. destruct (usable s) eqn:Hu; [|by apply (unlock_same (HVictim tg))].
  unfold usable in Hu. rewrite !andb_true_iff in Hu. destruct Hu as [[Hr%Z.eqb_eq _] _]. rewrite Hr in Hs.
  apply (pin_locked_next (HVictim tg)); try done.
  - pose proof (wk_priv _ _ _ Hw). pose proof (none_pinned Hs). destruct (decide (0 < priv w)) as [Hp|]; [|lia]. apply (wk_pin _ _ _ Hw) in Hp. set_solver.
  - intros Hdi. apply (link_dirty _ _ Hl). revert Hdi. flag_bits. done.
Qed.

Lemma hdr_held_ok h : pc w = BHdrHeld s h → good n t d (hdr_held o t s h d w).1 (hdr_held o t s h d w).2.
Proof.
  intros Hpc. destruct (header_facts _ Hpc) as (Ho & Hh & Hl & Hs). pose proof (wk_content _ _ _ Hw) as Wc. rewrite Hpc in Wc. cbn in Wc.
  destruct h as [|tg|tg|i|k|f|cd bits k|fi|lsn|lsn|sk|tg|tg| |c]; try (by apply victim_ok); unfold_held; cbn [fst snd]; cbn in Hh.
  - apply (unlock_same HUnpin); try done; [flags_kept|cbn; lia].
  - assert (good n t d d (go (BUnlock s BUnpin) w)) as Hu.
    { apply (unlock_same (HRename tg)); try done. split; [lia|]. split; [by intros; apply Hh|]. intros _. apply fresh_unlocked; rewrite ?Hpc; [done|done|apply Hh]. }
    destruct (bad o); [done|]. destruct (recyclable s) eqn:Hr; [|done]. by apply rename_ok.
  - destruct (has BM_IO_IN_PROGRESS s) eqn:Hi; [by apply (unlock_same (HStart i))|]. destruct (io_done i s) eqn:Hdn; [|by apply start_ok].
    apply (unlock_same (HStart i)); try done. split; [done|]. destruct i; [|done]. by rewrite <- (link_valid _ _ Hl).
  - apply (unlock_same (HWait k)); try done; destruct (has _ _); destruct k; done.
  - apply (unlock_same (HFlush f)); try done. flags_kept.
  - by apply terminate_ok.
  - apply (unlock_same (HAbort fi)); try done. flags_kept.
  - by apply dirty_ok.
  - apply (hint_ok lsn); try done; destruct (has BM_DIRTY s); cbn; repeat case_match; done.
  - assert (good n t d d (go (BUnlock s BIdle) w)) as Hu by (apply (unlock_same (HSync sk)); try done; cbn; lia).
    destruct (_ && sk); [done|]. destruct (_ || _) eqn:E; [done|].
    apply (pin_locked_next (HSync sk)); try done. apply orb_false_iff in E as [_ E%negb_false_iff]. by apply (link_dirty _ _ Hl).
  - apply (unlock_same (HDrop tg)); try done; destruct (BUFFERTAGS_EQUAL _ _); done.
  - destruct (negb _); [by apply (unlock_same (HInvalidate tg))|]. destruct (_ =? 0) eqn:E; cbn [negb].
    + apply Z.eqb_eq in E. by apply (invalidate_ok tg).
    + apply (unlock_same (HInvalidate tg)); try done; destruct (0 <? priv w); done.
  - assert (is_Some (held w)) as Hhe by (apply Wc; [done|by rewrite Hh]). destruct (_ =? 1); [apply (unlock_same HClean); try done; by intros _|].
    destruct (has BM_PIN_COUNT_WAITER s); [by apply (unlock_same HClean)|by apply waiting_ok].
  - apply (unlock_same (HCleanEnd c)); try done; [flags_kept|destruct c; done..].
Qed.

End header.
