(* ===== verification/BufStep.v ===== *)
(** * Every step keeps the invariant *)

From S2P Require Import Prelude BufWord BufDefs BufMgr BufInv BufPin BufPage BufHeader.

(** What is true of a backend is not about the I/O lock or the waiter. *)
Lemma pc_ok_same t d d' w p : tag d' = tag d → bufBlock d' = bufBlock d → content_lock d' !! t = content_lock d !! t → disk d' = disk d → flushed d' = flushed d → loaded d' = loaded d →
  match p with BHdrHeld _ _ | BPinLocked _ | BUnlock _ _ => False | _ => True end → pc_ok t d w p → pc_ok t d' w p.
Proof.
  intros E1 E2 E3 E4 E5 E6 Hp. destruct p as [| | | | | | | | | | | |h|s h| |s k| | |i|i|i|k|k| | | | |k| | | | | | | | | | |]; cbn; rewrite ?E1, ?E2, ?E3, ?E4, ?E5, ?E6; try done;
    try (destruct h as [| | |[]|[[]|]| |? ? []| | | | | | | |]; cbn; by rewrite ?E1, ?E2, ?E3, ?E4);
    try (destruct i; cbn; by rewrite ?E1); try (destruct k as [[]|]; cbn; by rewrite ?E1, ?E6).
Qed.

Section step.
Context `{BufEnv} (n t : Z) (o : oracle) (d : buffer) (w : worker).
Context (Hn : n < 2 ^ 32) (Ht : 0 ≤ t < n) (Hd : buffer_ok n d) (Hw : worker_ok t d w).

(** Taking or giving back the I/O lock besides. *)
Lemma io_lock_also l w' : good n t d d w' → pc_own (pc w') = false →
  good n t d (with_io_lock l d) w'.
Proof.
  intros (_ & Hw' & _) Eo. split; [by apply io_lock_ok|split; [|by apply io_lock_guar]]. destruct Hw' as [Wpc Wnext Wpriv Wpin Wcounted Wown Wdirtying Wio Winp Wcontent Wheld].
  split; try done. apply (pc_ok_same t d); try done. by destruct (pc w').
Qed.

(** The page, the content lock or the file has been changed, and the backend goes on at [p]. *)
Lemma page_step d' p : buffer_ok n d' → guar t d d' → pinners d' = pinners d → counted d' = counted d → owner d' = owner d → io d' = io d → tag d' = tag d → loaded d' = loaded d →
  (dirtying d' = Some t ↔ pc_dirtying p = true) → next_ok p = true → pc_own p = pc_own (pc w) → pc_extra p = pc_extra (pc w) → pc_error (pc w) = false →
  (pc_error p = false → pc_io p = pc_io (pc w) ∧ if pc_flush p then content_lock d' !! t = Some BUFFER_LOCK_SHARE ∧ held w = None else is_Some (content_lock d' !! t) → is_Some (held w)) →
  pc_ok t d' w p → good n t d d' (go p w).
Proof.
  intros Hd' Hg E1 E2 E3 E4 E5 E6 Edg En Eo Ee Er Hc Hp. destruct Hw as [Wpc Wnext Wpriv Wpin Wcounted Wown Wdirtying Wio Winp Wcontent Wheld].
  split; [done|split; [|done]]. split; [by apply (pc_ok_local _ _ w)| ..]; cbn; rewrite ?E1, ?E2, ?E3, ?E4, ?E5, ?E6, ?Eo, ?Ee; try done; intros Er'; destruct (Hc Er') as [Ei Hc']; [|done].
  rewrite Ei. by apply Winp.
Qed.

(** ** PinBuffer and UnpinBuffer *)

Lemma count_minus p : t ∈ counted d → t ∉ pinners d → pc_extra p = false → next_ok p = true → pc_own p = pc_own (pc w) → pc_dirtying p = pc_dirtying (pc w) → pc_error p = false →
  pc_error (pc w) = false → pc_io p = pc_io (pc w) → pc_flush p = pc_flush (pc w) → pc_ok t (with_pins (pinners d) (counted d ∖ {[t]}) (with_state (state d - 1) d)) w p →
  good n t d (with_pins (pinners d) (counted d ∖ {[t]}) (with_state (state d - 1) d)) (go p w).
Proof.
  intros Hc Hp Ee. intros. destruct (minus_pin n t d Hd Hc) as [Ep Hb]. apply (count_ok n t d w Ht Hd Hw); try done; [set_solver|]. rewrite Ee. set_solver.
Qed.

Lemma count_plus p : t ∉ counted d → t ∉ pinners d → pc_extra p = true → next_ok p = true → pc_own p = pc_own (pc w) → pc_dirtying p = pc_dirtying (pc w) → pc_error p = false →
  pc_error (pc w) = false → pc_io p = pc_io (pc w) → pc_flush p = pc_flush (pc w) → pc_ok t (with_pins (pinners d) (counted d ∪ {[t]}) (with_state (state d + 1) d)) w p →
  good n t d (with_pins (pinners d) (counted d ∪ {[t]}) (with_state (state d + 1) d)) (go p w).
Proof.
  intros Hc Hp Ee. intros. destruct (plus_pin n t d Hn Ht Hd Hc) as [Ep Hb]. apply (count_ok n t d w Ht Hd Hw); try done; [set_solver|]. rewrite Ee. set_solver.
Qed.

(** ** Local progress with another pin count or block *)

Lemma priv_ok p m : 0 < priv w → 0 < m → pc_own p = false → pc_own (pc w) = false → pc_extra p = false → pc_dirtying p = false → pc_dirtying (pc w) = false → next_ok p = true →
  pc_error p = false → pc_error (pc w) = false → pc_io p = pc_io (pc w) → pc_flush p = pc_flush (pc w) → pc_ok t d (go_priv p m w) p → good n t d d (go_priv p m w).
Proof.
  intros Hp Hm E1 E1' E2 E3 E3' En E4 E4' E5 E6 Hk. destruct Hw as [Wpc Wnext Wpriv Wpin Wcounted Wown Wdirtying Wio Winp Wcontent Wheld].
  split; [done|split; [|apply guar_refl]]. rewrite E1', E3', E4' in *. split; cbn; rewrite ?E1, ?E2, ?E3, ?E4, ?E5, ?E6; try done; auto.
  - lia.
  - rewrite Wpin. tauto.
  - rewrite Wcounted. tauto.
  - intros tg Htg. destruct (Wheld _ Htg). tauto.
Qed.

(** The client is given the block. *)
Lemma given_ok tg : 0 < priv w → tag d = tg → loaded d = true → pc_own (pc w) = false → pc_dirtying (pc w) = false → pc_error (pc w) = false → pc_io (pc w) = None →
  good n t d d (go_held BIdle (Some tg) w).
Proof.
  intros Hp Etg Hl E1 E2 E3 E4. destruct Hw as [Wpc Wnext Wpriv Wpin Wcounted Wown Wdirtying Wio Winp Wcontent Wheld].
  split; [done|split; [|apply guar_refl]]. rewrite E1, E2, E3, E4 in *. split; cbn; try done.
  - rewrite Wcounted. tauto.
  - intros tg' [= <-]. done.
Qed.

(** ** Pinning and unpinning *)

(** Where the content lock cannot be held. *)
Lemma no_lock : priv w = 0 → content_lock d !! t = None.
Proof.
  intros Hp. destruct (content_lock d !! t) eqn:E; [|done]. destruct (ok_content _ _ Hd _ _ E) as [Hin _]. apply (wk_pin _ _ _ Hw) in Hin. lia.
Qed.

Lemma not_pinned : priv w = 0 → t ∉ pinners d.
Proof. intros Hp Hin. apply (wk_pin _ _ _ Hw) in Hin. lia. Qed.

Lemma not_owner : pc_own (pc w) = false → owner d ≠ Some t.
Proof. intros E Ho. apply (wk_own _ _ _ Hw) in Ho. congruence. Qed.

(** The word a pinned backend reads is not ahead of the buffer. *)
Lemma pinned_valid : 0 < priv w → pc_own (pc w) = false → has BM_VALID (state d) = true → loaded d = true.
Proof.
  intros Hp Eo Hv. destruct (ok_valid _ _ Hd Hv) as [|(u & Ho & Hs)]; [done|]. apply (wk_pin _ _ _ Hw) in Hp. assert (u = t) as -> by set_solver.
  by destruct (not_owner Eo).
Qed.

Abbreviation step_good := (∀ d' w', run o t d w = Some (d', w') → good n t d d' w').
Ltac start Hpc := intros d' w'; unfold_run; rewrite Hpc; pose proof (wk_pc _ _ _ Hw) as Wpc; rewrite Hpc in Wpc; cbn in Wpc.
Ltac go_to Hpc := apply (move n t d w); rewrite ?Hpc; try done.

Lemma pin_add_step tg : pc w = BPinAdd tg → step_good.
Proof.
  intros Hpc. start Hpc. destruct (has BM_LOCKED (state d + 1)) eqn:El; intros [= <- <-]; [|by apply (pin_ok n t d w)].
  apply (count_plus (BPinBack tg)); rewrite ?Hpc; try done; [|by apply not_pinned]. rewrite (wk_counted _ _ _ Hw), Hpc. cbn. intros [|]; [lia|done].
Qed.

Lemma pin_back_step tg : pc w = BPinBack tg → step_good.
Proof.
  intros Hpc. start Hpc. intros [= <- <-]. apply (count_minus (BPinWait tg)); rewrite ?Hpc; try done; [|by apply not_pinned].
  rewrite (wk_counted _ _ _ Hw), Hpc. by right.
Qed.

Lemma pin_usage_step tg s : pc w = BPinUsage tg s → step_good.
Proof.
  intros Hpc. start Hpc. destruct Wpc as [[Hp Hh] Hv]. assert (pc_ok t d w (BPinned tg (has BM_VALID s))) as Hok by (cbn; split; [lia|]; split; [by split|]; destruct (has _ _); auto).
  destruct (_ =? BM_MAX_USAGE_COUNT) eqn:Eu; [intros [= <- <-]; by go_to Hpc|]. destruct (has BM_LOCKED s) eqn:El; [intros [= <- <-]; by go_to Hpc|]. apply Z.eqb_neq in Eu.
  destruct (state d =? s) eqn:Es; intros [= <- <-].
  - apply Z.eqb_eq in Es. subst s. apply (cas_ok n t d w Hd); try done; [apply usage_pins|intros; by apply usage_bit|].
    apply (move_ok t d w); rewrite ?Hpc; done.
  - go_to Hpc. split; [done|]. apply pinned_valid; [lia|by rewrite Hpc].
Qed.

Lemma pinned_step tg v : pc w = BPinned tg v → step_good.
Proof.
  intros Hpc. start Hpc. destruct Wpc as (Hp & Hh & Hv). destruct (BUFFERTAGS_EQUAL (tag d) tg) eqn:Et; cbn [negb]; [apply BUFFERTAGS_EQUAL_spec in Et|].
  - destruct v; intros [= <- <-]; [by apply given_ok; rewrite ?Hpc|]. go_to Hpc. split; [|done]. split; [by apply Hh|done].
  - intros [= <- <-]. go_to Hpc. split; [done|]. split; [apply Hh|]. intros Hp1%Hh. pose proof (wk_content _ _ _ Hw) as Hc. rewrite Hpc in Hc. destruct (content_lock d !! t); [|done]. destruct Hc; [done|done|congruence].
Qed.

Lemma unpin_step : pc w = BUnpin → step_good.
Proof.
  intros Hpc. start Hpc. destruct Wpc as (Hp & Hh & Hc). destruct (priv w <=? 0) eqn:E; [apply Z.leb_le in E; lia|]. destruct (_ =? 0) eqn:E2; intros [= <- <-].
  - apply (unpin_ok n t d w); rewrite ?Hpc; try done; [apply Hc; lia|]. by rewrite (wk_inprogress _ _ _ Hw), Hpc by (by rewrite Hpc).
  - apply priv_ok; rewrite ?Hpc; try done; [lia|]. cbn. intros _. destruct (held w); [done|]. specialize (Hh eq_refl). lia.
Qed.

Lemma unpin_sub_step : pc w = BUnpinSub → step_good.
Proof.
  intros Hpc. start Hpc. assert (t ∈ counted d) as Hin by (rewrite (wk_counted _ _ _ Hw), Hpc; by right). pose proof (not_pinned Wpc) as Hnp.
  destruct (has BM_LOCKED _); [|destruct (has BM_PIN_COUNT_WAITER _)]; intros [= <- <-].
  - by apply (count_minus BUnpinAdd); rewrite ?Hpc.
  - by apply (count_minus (BHdr HUnpin)); rewrite ?Hpc.
  - apply (count_minus BIdle); rewrite ?Hpc; try done. cbn. lia.
Qed.

Lemma unpin_add_step : pc w = BUnpinAdd → step_good.
Proof.
  intros Hpc. start Hpc. intros [= <- <-]. apply (count_plus BUnpinWait); rewrite ?Hpc; try done; [|by apply not_pinned].
  rewrite (wk_counted _ _ _ Hw), Hpc. cbn. intros [|]; [lia|done].
Qed.

(** ** Waiting for the header lock *)

Lemma stay : good n t d d w.
Proof. split; [done|]. split; [done|apply guar_refl]. Qed.

Lemma waits_step p : pc w = p → match p with BPinWait _ | BPinUsageWait _ | BUnpinWait | BMetaRead _ => True | _ => False end → step_good.
Proof.
  intros Hpc Hp. destruct p; try done; start Hpc; destruct (has BM_LOCKED (state d)) eqn:El; intros [= <- <-]; try apply stay; try (by go_to Hpc).
  go_to Hpc. split; [done|]. apply pinned_valid; [lia|by rewrite Hpc].
Qed.

Lemma meta_step b s : pc w = BMetaCas b s → step_good.
Proof.
  intros Hpc. start Hpc. destruct (state d =? s) eqn:Es; intros [= <- <-]; [|by go_to Hpc]. apply Z.eqb_eq in Es. subst s.
  apply (cas_ok n t d w Hd); try done; [apply meta_pins|intros k Hk; apply meta_bit; lia|]. apply (move_ok t d w); rewrite ?Hpc; done.
Qed.

Lemma header_step h : pc w = BHdr h → step_good.
Proof.
  intros Hpc. start Hpc. destruct (has BM_LOCKED (state d)) eqn:El; intros [= <- <-]; [|by apply (lock_ok n t d w)].
  destruct h; try apply stay. destruct (bad o); [|apply stay]. by go_to Hpc.
Qed.

Lemma unlock_step s k : pc w = BUnlock s k → step_good.
Proof.
  intros Hpc. start Hpc. intros [= <- <-]. apply (unlock_ok n t d w); try done. destruct Wpc as [_ Hk].
  pose proof (wk_next _ _ _ Hw) as En. rewrite Hpc in En. cbn in En. apply (pc_ok_same t d); try done. destruct k; done.
Qed.

End step.
