(* ===== verification/BufIO.v ===== *)
(** * Reading, writing and errors

    The remaining steps of [run], and the beginnings of the requests. *)

From S2P Require Import Prelude BufWord BufDefs BufMgr BufInv BufPin BufPage BufHeader BufStep.

(** After a change that the others cannot see. *)
Lemma guar_after t d d1 d2 : owner d1 = owner d → state d1 = state d → pinners d1 = pinners d → counted d1 = counted d → tag d1 = tag d → loaded d1 = loaded d → io d1 = io d →
  dirtying d1 = dirtying d → bufBlock d1 = bufBlock d → disk d1 = disk d → flushed d1 = flushed d →
  (∀ x, x ≠ t → content_lock d1 !! x = content_lock d !! x) → (∀ m, content_lock d1 !! t = Some m → content_lock d !! t = Some m) →
  guar t d1 d2 → guar t d d2.
Proof.
  intros E1 E2 E3 E4 E5 E6 E7 E8 E9 E10 E11 Ec Ec' [G1 G2 G3 G4 G5 G6 G7 G8 G9 G10 G11 G12 G13].
  rewrite E1, E2, E3, E4, E5, E6, E7, E8, E9, E10, E11 in *. split; try done.
  - intros x Hx Ho. destruct (G1 x Hx Ho) as (? & ? & Hl & ? & ?). split_and!; try done. intros s Hs. apply Hl. by apply (link_same d); rewrite ?E5, ?E9, ?E10.
  - intros x Hx. by rewrite G7, Ec.
  - destruct G10 as [|[|]]; auto.
  - intros x Hx Hi Hc. apply (G11 x); try done. by rewrite Ec.
Qed.

Section io.
Context `{BufEnv} (n t : Z) (o : oracle) (d : buffer) (w : worker).
Context (Hn : n < 2 ^ 32) (Ht : 0 ≤ t < n) (Hd : buffer_ok n d) (Hw : worker_ok t d w).
Abbreviation step_good := (∀ d' w', run o t d w = Some (d', w') → good n t d d' w').
Ltac start Hpc := intros d' w'; unfold_run; rewrite Hpc; pose proof (wk_pc _ _ _ Hw) as Wpc; rewrite Hpc in Wpc; cbn in Wpc.
Ltac go_to Hpc := apply (move n t d w); rewrite ?Hpc; try done.

Lemma my_lock p : pc w = p → pc_error p = false → pc_flush p = false → held w = None → content_lock d !! t = None.
Proof. intros <- Ee Ef Hh. by apply (fresh_unlocked t d w). Qed.

Lemma my_share p : pc w = p → pc_error p = false → pc_flush p = true → content_lock d !! t = Some BUFFER_LOCK_SHARE ∧ held w = None.
Proof. intros <- Ee Ef. pose proof (wk_content _ _ _ Hw Ee) as Hc. by rewrite Ef in Hc. Qed.

Lemma my_io p b : pc w = p → pc_error p = false → pc_io p = Some b → io d = Some (t, b).
Proof. intros <- Ee Ei. apply (wk_io _ _ _ Hw). by rewrite (wk_inprogress _ _ _ Hw Ee). Qed.

Lemma not_dirtying p : pc w = p → pc_dirtying p = false → dirtying d ≠ Some t.
Proof. intros <- Eg Hg. apply (wk_dirtying _ _ _ Hw) in Hg. congruence. Qed.

(** ** Victims *)

Lemma victim_step tg s : pc w = BVictim tg s → step_good.
Proof.
  intros Hpc. start Hpc. destruct Wpc as [[Hp Hh] Hl]. destruct (has BM_DIRTY s); [destruct backend_can_flush_dirty_page|]; intros [= <- <-]; go_to Hpc.
  - split; [done|auto].
  - split; [lia|]. split; [done|]. intros _. by apply (my_lock _ Hpc).
Qed.

Lemma flush_lock_step f : pc w = BFlushLock f → step_good.
Proof.
  intros Hpc. start Hpc. destruct Wpc as [[Hp Hh] Hl]. destruct (can_acquire _ _) eqn:Ec.
  - intros [= <- <-]. assert (t ∈ pinners d) as Hin by (apply (wk_pin _ _ _ Hw); lia).
    apply (page_step n t d w Hw); rewrite ?Hpc; cbn; try done; [by apply content_acquire_ok|apply content_guar; intros x Hx; by rewrite lookup_insert_ne| |].
    + split; [|done]. by intros Hg%(not_dirtying _ Hpc).
    + intros _. by rewrite lookup_insert_eq.
  - destruct f; intros [= <- <-]. go_to Hpc. split; [lia|]. split; [done|]. intros _. by apply (my_lock _ Hpc).
Qed.

(** ** StartBufferIO and WaitIO *)

Lemma start_io_step i : pc w = BStartIO i → step_good.
Proof.
  intros Hpc. start Hpc. rewrite (wk_inprogress _ _ _ Hw), Hpc by (by rewrite Hpc). cbn. destruct (bool_decide _); intros [= <- <-].
  apply (io_lock_also n t d); try done. by go_to Hpc.
Qed.

Lemma start_done_step i : pc w = BStartDone i → step_good.
Proof.
  intros Hpc. start Hpc. intros [= <- <-]. destruct Wpc as [Hi Hl]. destruct i as [tg|f]; cbn in *; apply (io_lock_also n t d); try done.
  - destruct Hi as [[Hp Hh] Etg]. apply given_ok; rewrite ?Hpc; try done. lia.
  - by go_to Hpc.
Qed.

Lemma io_lock_steps p : pc w = p → match p with BStartBusy _ | BWaitLock _ | BWaitRelease _ | BAbortLock _ => True | _ => False end → step_good.
Proof.
  intros Hpc Hp. destruct p; try done; start Hpc; try (destruct (can_acquire _ _); [|done]); intros [= <- <-]; apply (io_lock_also n t d); try done; by go_to Hpc.
Qed.

(** ** FlushBuffer *)

Lemma flush_steps p : pc w = p → match p with BFlushXLog _ _ | BFlushCopy _ => True | _ => False end → step_good.
Proof.
  intros Hpc Hp. destruct p; try done; start Hpc.
  - destruct (bad o); [intros [= <- <-]; by go_to Hpc|]. destruct (flushed d <? lsn) eqn:El; intros [= <- <-]. go_to Hpc. cbn. split; [apply Wpc|]. destruct Wpc as [_ ->].
    apply Z.ltb_ge in El. done.
  - intros [= <- <-]. go_to Hpc. split; [apply Wpc|]. split; [apply Wpc|done].
Qed.

Lemma flush_write_step f p : pc w = BFlushWrite f p → step_good.
Proof.
  intros Hpc. start Hpc. destruct Wpc as (Hf & Hlsn & Hp). destruct (bad o); intros [= <- <-]; [by go_to Hpc|].
  destruct (my_share _ Hpc) as [Hc Hh]; [done|done|]. pose proof (my_io _ false Hpc eq_refl eq_refl) as Hi.
  apply (page_step n t d w Hw); rewrite ?Hpc; cbn; try done; [by apply (write_ok n t d)|by apply write_guar| |].
  - split; [|done]. by intros Hg%(not_dirtying _ Hpc).
  - rewrite fn_lookup_insert. done.
Qed.

Lemma flush_unlock_step f : pc w = BFlushUnlock f → step_good.
Proof.
  intros Hpc. start Hpc. intros [= <- <-]. destruct Wpc as [Hp Hh]. assert (dirtying d ≠ Some t) as Hg by (by apply (not_dirtying _ Hpc)).
  apply (page_step n t d w Hw); rewrite ?Hpc; cbn; try done;
    [by apply content_release_ok|apply content_guar; intros x Hx; by rewrite lookup_delete_ne|by destruct f|by destruct f|by destruct f|by destruct f| |].
  - rewrite lookup_delete_eq. destruct f; cbn; intros _; (split; [done|by intros []]).
  - destruct f; cbn; rewrite ?lookup_delete_eq; [done|]. split; [lia|done].
Qed.

Lemma read_step tg : pc w = BReadPage tg → step_good.
Proof.
  intros Hpc. start Hpc. destruct Wpc as [Hf Etg]. destruct (bad o); intros [= <- <-]; [by go_to Hpc|]. pose proof (my_io _ true Hpc eq_refl eq_refl) as Hi.
  apply (page_step n t d w Hw); rewrite ?Hpc; cbn; try done; [by apply (read_ok n t d)|by apply read_guar| |].
  - split; [|done]. by intros Hg%(not_dirtying _ Hpc).
  - intros _. split; [done|]. pose proof (wk_content _ _ _ Hw) as Hc. rewrite Hpc in Hc. by apply Hc.
Qed.

(** ** Errors *)

Lemma unpin_all_ok d1 : buffer_ok n d1 → worker_ok t d1 w → (∀ d2, guar t d1 d2 → guar t d d2) → content_lock d1 !! t = None → InProgress w = None →
  pc_own (pc w) = false → pc_extra (pc w) = false → pc_dirtying (pc w) = false → good n t d (unpin_all t d1 w).1 (unpin_all t d1 w).2.
Proof.
  intros Hd1 Hw1 Hg Hc Hi Eo Ee Eg. unfold unpin_all. destruct (0 <? priv w) eqn:Ep; cbn.
  - apply Z.ltb_lt in Ep. destruct (unpin_ok n t d1 w) as (? & ? & ?); try done. split; [done|]. split; [done|by apply Hg].
  - apply Z.ltb_ge in Ep. destruct Hw1 as [Wpc Wnext Wpriv Wpin Wcounted Wown Wdirtying Wio Winp Wcontent Wheld]. rewrite Eo, Ee, Eg in *.
    split; [done|split; [|apply Hg, guar_refl]]. split; cbn; try done; [lia|]. rewrite Hc. by intros _ [].
Qed.

Lemma term_release_step k : pc w = BTermRelease k → step_good.
Proof.
  intros Hpc. start Hpc. set (d1 := with_io_lock (delete t (io_in_progress_lock d)) d). destruct k as [tg|f|b]; intros E; simplify_eq.
  - apply (io_lock_also n t d); try done. apply given_ok; rewrite ?Hpc; try done; [lia|tauto..].
  - apply (io_lock_also n t d); try done. by go_to Hpc.
  - assert (InProgress w = None) as Hi by (by rewrite (wk_inprogress _ _ _ Hw), Hpc by (by rewrite Hpc)).
    rewrite (surjective_pairing (unpin_all t d1 w)) in E. simplify_eq. apply unpin_all_ok; rewrite ?Hpc; try done.
    + by apply io_lock_ok.
    + assert (good n t d d w) as Hs by (split; [done|]; split; [done|apply guar_refl]). apply (io_lock_also n t d Hd (delete t (io_in_progress_lock d))) in Hs as (_ & ? & _); [done|by rewrite Hpc].
    + intros d2. by apply guar_after.
    + apply Wpc.
Qed.

(** [LWLockReleaseAll]. *)
Abbreviation released := (with_content (delete t (content_lock d)) (with_io_lock (delete t (io_in_progress_lock d)) d)).

Lemma released_guar d2 : guar t released d2 → guar t d d2.
Proof.
  apply guar_after; try done; [intros x Hx; cbn; by rewrite lookup_delete_ne|intros m; cbn; by rewrite lookup_delete_eq].
Qed.

Lemma error_step : pc w = BError → step_good.
Proof.
  intros Hpc. start Hpc. assert (dirtying d ≠ Some t) as Hg by (by apply (not_dirtying _ Hpc)).
  assert (buffer_ok n released) as Hd1 by (by apply (content_release_ok n t (with_io_lock (delete t (io_in_progress_lock d)) d)), Hg; apply io_lock_ok).
  assert (worker_ok t released w) as Hw1.
  { pose proof Hw as [Wpc' Wnext Wpriv Wpin Wcounted Wown Wdirtying Wio Winp Wcontent Wheld]. rewrite Hpc in *. by split; rewrite ?Hpc. }
  destruct (InProgress w) as [b|] eqn:Ei; intros E.
  - simplify_eq. split; [done|split; [|apply released_guar, guar_refl]]. assert (0 < priv w) as Hp by (apply (wk_pin _ _ _ Hw), (ok_io _ _ Hd _ b), (wk_io _ _ _ Hw); done).
    destruct Hw1 as [Wpc' Wnext Wpriv Wpin Wcounted Wown Wdirtying Wio Winp Wcontent Wheld]. rewrite Hpc in *.
    split; cbn; try done; rewrite ?lookup_delete_eq; try done.
  - rewrite (surjective_pairing (unpin_all t released w)) in E. injection E as [= <- <-]. apply unpin_all_ok; rewrite ?Hpc; try done; [apply released_guar|cbn; by rewrite lookup_delete_eq].
Qed.

(** ** The client's page, hints and cleanup *)

Lemma mod_lsn_step lsn : pc w = BModLSN lsn → step_good.
Proof.
  intros Hpc. start Hpc. intros [= <- <-]. pose proof (wk_content _ _ _ Hw) as Hc. rewrite Hpc in Hc. specialize (Hc eq_refl). cbn in Hc.
  apply (page_step n t d w Hw); rewrite ?Hpc; cbn; try done; [by apply touch_ok| | |].
  - apply touch_guar; [done|]. intros x Hx _ Hs. by pose proof (ok_exclusive _ _ Hd _ _ _ Wpc Hs).
  - split; [|done]. by intros Hg%(not_dirtying _ Hpc).
  - intros _. apply Hc. by rewrite Wpc.
Qed.

Lemma hint_steps p : pc w = p → match p with BHintCheck | BHintPermanent => True | _ => False end → step_good.
Proof.
  intros Hpc Hp. destruct p; try done; start Hpc; [destruct (_ =? _)|]; intros [= <- <-]; go_to Hpc.
  intros _. pose proof (wk_content _ _ _ Hw) as Hc. rewrite Hpc in Hc. by apply Hc.
Qed.

Lemma clean_lock_step : pc w = BCleanLock → step_good.
Proof.
  intros Hpc. start Hpc. destruct (can_acquire _ _) eqn:Ec; [|done]; intros [= <- <-]. destruct Wpc as [[tg Hh] Hm]. destruct (wk_held _ _ _ Hw tg Hh) as (Hp & Etg & Hl).
  assert (t ∈ pinners d) as Hin by (by apply (wk_pin _ _ _ Hw)).
  apply (page_step n t d w Hw); rewrite ?Hpc; cbn; try done; [by apply content_acquire_ok|apply content_guar; intros x Hx; by rewrite lookup_insert_ne| |by rewrite lookup_insert_eq].
  split; [|done]. by intros Hg%(not_dirtying _ Hpc).
Qed.

Lemma clean_release_step e : pc w = BCleanRelease e → step_good.
Proof.
  intros Hpc. start Hpc. intros [= <- <-]. assert (dirtying d ≠ Some t) as Hg by (by apply (not_dirtying _ Hpc)).
  apply (page_step n t d w Hw); rewrite ?Hpc; cbn; try done;
    [by apply content_release_ok|apply content_guar; intros x Hx; by rewrite lookup_delete_ne|by destruct e|by destruct e|by destruct e|by destruct e| |].
  - destruct e; [done|]. intros _. split; [done|]. cbn. by rewrite lookup_delete_eq; intros [].
  - destruct e; [done|]. cbn. by rewrite lookup_delete_eq.
Qed.

(** ** Every step *)

Theorem run_ok : step_good.
Proof.
  destruct (pc w) as [| |tg|tg|tg|tg s|tg|tg v| | | | |h|s h|k|s k|tg s|f|i|i|i|k|k|f l|f|f p|f|k|tg| |b|l| | | |e| |b|b s] eqn:Hpc.
  1-2: intros d' w'; unfold_run; by rewrite Hpc.
  - by apply (pin_add_step n t o d w) with tg.
  - by apply (pin_back_step n t o d w) with tg.
  - by apply (waits_step n t o d w) with (BPinWait tg).
  - by apply (pin_usage_step n t o d w) with tg s.
  - by apply (waits_step n t o d w) with (BPinUsageWait tg).
  - by apply (pinned_step n t o d w) with tg v.
  - by apply (unpin_step n t o d w).
  - by apply (unpin_sub_step n t o d w).
  - by apply (unpin_add_step n t o d w).
  - by apply (waits_step n t o d w) with BUnpinWait.
  - by apply (header_step n t o d w) with h.
  - intros d' w'. unfold_run. rewrite Hpc. intros E. rewrite (surjective_pairing (hdr_held o t s h d w)) in E. injection E as [= <- <-]. by apply hdr_held_ok.
  - intros d' w'. unfold_run. rewrite Hpc. intros [= <- <-]. by apply (pin_locked_ok n t d w).
  - by apply (unlock_step n t o d w) with s k.
  - by apply victim_step with tg s.
  - by apply flush_lock_step with f.
  - by apply start_io_step with i.
  - by apply io_lock_steps with (BStartBusy i).
  - by apply start_done_step with i.
  - by apply io_lock_steps with (BWaitLock k).
  - by apply io_lock_steps with (BWaitRelease k).
  - by apply flush_steps with (BFlushXLog f l).
  - by apply flush_steps with (BFlushCopy f).
  - by apply flush_write_step with f p.
  - by apply flush_unlock_step with f.
  - by apply term_release_step with k.
  - by apply read_step with tg.
  - by apply error_step.
  - by apply io_lock_steps with (BAbortLock b).
  - by apply mod_lsn_step with l.
  - by apply hint_steps with BHintCheck.
  - by apply hint_steps with BHintPermanent.
  - by apply clean_lock_step.
  - by apply clean_release_step with e.
  - intros d' w'. unfold_run. pose proof (wk_pc _ _ _ Hw) as Wpc. rewrite Hpc in *. intros [= <- <-]. by go_to Hpc.
  - by apply (waits_step n t o d w) with (BMetaRead b).
  - by apply (meta_step n t o d w) with b s.
Qed.

End io.
