(* ===== verification/BufReach.v ===== *)
(** * Every reachable state of a shared buffer

    Any number of backends work with the buffer, one step at a time and in any order; the
    log is flushed further, and the other blocks are changed by the rest of the server.
    [buffer_inv] holds from the start of the server on. *)

From S2P Require Import Prelude BufWord BufDefs BufMgr BufInv BufPin BufPage BufHeader BufStep BufIO.

Record buf_config := { buf : buffer; workers : Z → worker }.

(** What happens next: a step of a backend, a new request of an idle one, or the world. *)
Inductive buf_event : Type :=
| EvRun (t : Z) (o : oracle)
| EvBegin (t : Z) (r : request)
| EvFlushed (lsn : Z)
| EvOtherBlock (tg : BufferTag) (p : page).

Section reach.
Context `{BufEnv}.

Definition worker_at (t : Z) (r : option (buffer * worker)) (σ : buf_config) : option buf_config :=
  match r with Some (d, w) => Some {| buf := d; workers := <[t := w]> (workers σ) |} | None => None end.

Definition buf_next (e : buf_event) (σ : buf_config) : option buf_config :=
  let d := buf σ in
  match e with
  | EvRun t o => if (0 <=? t) && (t <? nthreads) then worker_at t (run o t d (workers σ t)) σ else None
  | EvBegin t r =>
      if (0 <=? t) && (t <? nthreads) then
        match pc (workers σ t) with BIdle => worker_at t (begin t r d (workers σ t)) σ | _ => None end
      else None
  | EvFlushed lsn => if flushed d <=? lsn then Some {| buf := with_disk (disk d) lsn (store d) d; workers := workers σ |} else None
  | EvOtherBlock tg p =>
      if negb (BUFFERTAGS_EQUAL tg (tag d)) && (pd_lsn p <=? flushed d) then
        Some {| buf := with_disk (<[tg := p]> (disk d)) (flushed d) (<[tg := pd_data p]> (store d)) d; workers := workers σ |}
      else None
  end.

Definition buf_step (σ σ' : buf_config) : Prop := ∃ e, buf_next e σ = Some σ'.
Definition buf_reachable : buf_config → buf_config → Prop := rtc buf_step.

(** [InitBufferPool]; the backends have yet to start. *)
Definition idle_worker : worker := {| pc := BIdle; priv := 0; InProgress := None; held := None |}.
Definition InitBufferPool (p : page) (files : BufferTag → page) (lsn : Z) : buffer :=
  {| state := 0; tag := cleared_tag; bufBlock := p; io_in_progress_lock := ∅; content_lock := ∅; wait_backend_pid := 0;
     disk := files; flushed := lsn; owner := None; loaded := false; pinners := ∅; counted := ∅; io := None; dirtying := None;
     store := λ tg, pd_data (files tg) |}.
Definition buf_start (p : page) (files : BufferTag → page) (lsn : Z) : buf_config :=
  {| buf := InitBufferPool p files lsn; workers := λ _, idle_worker |}.

Record buffer_inv (σ : buf_config) : Prop := {
  bi_buffer : buffer_ok nthreads (buf σ);
  bi_worker t : 0 ≤ t < nthreads → worker_ok t (buf σ) (workers σ t) }.

Lemma start_inv p files lsn : (∀ tg, pd_lsn (files tg) ≤ lsn) → buffer_inv (buf_start p files lsn).
Proof.
  intros Hl. split.
  - split; cbn; try done. intros _. split; cbn; try done.
  - intros t Ht. split; cbn; try done; [by split; [|intros [|]]|]. rewrite lookup_empty. by intros _ [].
Qed.

(** ** Requests *)

Section requests.
Variables (t : Z) (d : buffer) (w : worker).
Hypothesis (Ht : 0 ≤ t < nthreads) (Hd : buffer_ok nthreads d) (Hw : worker_ok t d w) (Hpc : pc w = BIdle).
Abbreviation good := (good nthreads t d).
Ltac go_to := apply (move nthreads t d w Hd Hw); rewrite ?Hpc; try done.

Lemma idle_client : 0 < priv w → is_Some (held w).
Proof. pose proof (wk_pc _ _ _ Hw) as Wpc. by rewrite Hpc in Wpc. Qed.

Lemma idle_mine : is_Some (content_lock d !! t) → is_Some (held w).
Proof. pose proof (wk_content _ _ _ Hw) as Hc. rewrite Hpc in Hc. by apply Hc. Qed.

Lemma idle_not_dirtying : dirtying d ≠ Some t.
Proof. by apply (not_dirtying t d w Hw _ Hpc). Qed.

Lemma begin_lock m : 0 < priv w → can_acquire m (content_lock d) = true → good (with_content (<[t := m]> (content_lock d)) d) (go BIdle w).
Proof.
  intros Hp Hc. destruct (idle_client Hp) as [tg Hh]. destruct (wk_held _ _ _ Hw tg Hh) as (_ & Etg & Hl). apply (wk_pin _ _ _ Hw) in Hp as Hin.
  apply (page_step nthreads t d w Hw); rewrite ?Hpc; cbn; try done; [by apply content_acquire_ok|apply content_guar; intros x Hx; by rewrite lookup_insert_ne|].
  split; [|done]. by intros Hg%idle_not_dirtying.
Qed.

Lemma begin_unlock : good (with_content (delete t (content_lock d)) d) (go BIdle w).
Proof.
  pose proof idle_not_dirtying as Hg.
  apply (page_step nthreads t d w Hw); rewrite ?Hpc; cbn; try done; [by apply content_release_ok|apply content_guar; intros x Hx; by rewrite lookup_delete_ne| |].
  - intros _. rewrite lookup_delete_eq. split; [done|by intros []].
  - apply idle_client.
Qed.

Lemma begin_modify x lsn : content_lock d !! t = Some BUFFER_LOCK_EXCLUSIVE →
  good (with_block (set_data x (bufBlock d)) (Some t) (<[tag d := x]> (store d)) d) (go (BHdr (HDirty lsn)) w).
Proof.
  intros Hc. apply (page_step nthreads t d w Hw); rewrite ?Hpc; cbn; try done; [by apply modify_ok|by apply (modify_guar nthreads)|].
  intros _. split; [done|]. apply idle_mine.
Qed.

Lemma begin_hint x : is_Some (content_lock d !! t) → good (with_block (set_hint x (bufBlock d)) (dirtying d) (store d) d) (go BHintCheck w).
Proof.
  intros Hc. apply (page_step nthreads t d w Hw); rewrite ?Hpc; cbn; try done; [by apply touch_ok|by apply touch_guar| |].
  - split; [|done]. by intros Hg%idle_not_dirtying.
  - intros _. split; [done|]. apply idle_mine.
Qed.

Lemma begin_ok r d' w' : begin t r d w = Some (d', w') → good d' w'.
Proof.
  pose proof idle_client as Hcl. pose proof idle_mine as Hmi. pose proof (wk_priv _ _ _ Hw) as Hp0.
  destruct r as [tg|tg| | |m| |x lsn|x|sk|tg| |b]; unfold begin.
  - destruct (0 <? priv w) eqn:Ep; intros [= <- <-]; [|apply Z.ltb_ge in Ep; go_to; cbn; lia]. apply Z.ltb_lt in Ep. destruct (Hcl Ep) as [tg' Hh].
    apply (priv_ok nthreads t d w); rewrite ?Hpc; try done; [lia|]. cbn. split; [lia|]. split; [rewrite Hh; split; [done|lia]|]. by destruct (wk_held _ _ _ Hw tg' Hh) as (_ & _ & ?).
  - intros [= <- <-]. by go_to.
  - destruct (0 <? priv w) eqn:Ep; intros [= <- <-]. apply Z.ltb_lt in Ep. apply (priv_ok nthreads t d w); rewrite ?Hpc; try done; [lia|]. cbn. auto.
  - destruct (_ && _) eqn:E; intros [= <- <-]. apply andb_true_iff in E as [Ep%Z.ltb_lt E]. go_to. cbn. split; [done|].
    split; [intros Hh; destruct (Hcl Ep); congruence|]. intros Hp1. rewrite Hp1 in E. by apply bool_decide_eq_true in E.
  - destruct (_ && _) eqn:E; intros [= <- <-]. rewrite !andb_true_iff in E. destruct E as [[Ep%Z.ltb_lt _] Ec]. by apply begin_lock.
  - destruct (bool_decide _); intros [= <- <-]. apply begin_unlock.
  - destruct (bool_decide _) eqn:E; intros [= <- <-]. apply bool_decide_eq_true in E. by apply begin_modify.
  - destruct (bool_decide _) eqn:E; intros [= <- <-]. apply bool_decide_eq_false, not_eq_None_Some in E. by apply begin_hint.
  - destruct (priv w =? 0) eqn:E; intros [= <- <-]. apply Z.eqb_eq in E. by go_to.
  - intros [= <- <-]. by go_to.
  - destruct (_ && _) eqn:E; intros [= <- <-]. apply andb_true_iff in E as [Ep%Z.ltb_lt E%bool_decide_eq_true]. destruct (priv w =? 1); [|by go_to]. go_to. cbn. auto.
  - intros [= <- <-]. by go_to.
Qed.

End requests.

(** ** The rest of the server *)

Lemma world_ok n d f l st : buffer_ok n d → flushed d ≤ l → f (tag d) = disk d (tag d) → st (tag d) = store d (tag d) →
  (∀ tg, tg ≠ tag d → pd_data (f tg) = st tg) → (∀ tg, pd_lsn (f tg) ≤ l) → buffer_ok n (with_disk f l st d).
Proof.
  intros Hd Hl Ef Es Ho Hw. open_buffer Hd. split; cbn; rewrite ?Ef, ?Es; try done. intros Hown. apply (link_same d); cbn; rewrite ?Ef; auto.
Qed.

Lemma world_guar d f l st : flushed d ≤ l → f (tag d) = disk d (tag d) → guar (-1) d (with_disk f l st d).
Proof.
  intros Hl Ef. split; cbn; intros; try done; try (by left). split_and!; try done. intros s. apply link_same; cbn; by rewrite ?Ef.
Qed.

(** ** Every step keeps the invariant *)

Hypothesis few_threads : nthreads < 2 ^ 32.

Lemma world_step σ d' : buffer_inv σ → buffer_ok nthreads d' → guar (-1) (buf σ) d' → buffer_inv {| buf := d'; workers := workers σ |}.
Proof. intros [Hb Hw] Hd' Hg. split; [done|]. intros t Ht. cbn. apply (stable_worker nthreads t (-1) (buf σ)); auto. lia. Qed.

Lemma good_step σ t d' w' : buffer_inv σ → 0 ≤ t < nthreads → good nthreads t (buf σ) d' w' → buffer_inv {| buf := d'; workers := <[t := w']> (workers σ) |}.
Proof.
  intros [Hb Hw] Ht (Hd' & Hw' & Hg). split; [done|]. cbn. intros u Hu. destruct (decide (u = t)) as [->|Hne]; [by rewrite fn_lookup_insert|].
  rewrite fn_lookup_insert_ne by done. apply (stable_worker nthreads u t (buf σ)); auto.
Qed.

Lemma buf_step_inv σ σ' : buffer_inv σ → buf_step σ σ' → buffer_inv σ'.
Proof.
  intros Hi [e He]. pose proof Hi as [Hb Hw]. destruct e as [t o|t r|lsn|tg p]; cbn in He.
  - destruct (_ && _) eqn:Et; [|done]. assert (0 ≤ t < nthreads) as Ht by lia. unfold worker_at in He. destruct (run _ _ _ _) as [[d' w']|] eqn:Er; simplify_eq.
    apply good_step; [done|done|]. apply (run_ok nthreads t o (buf σ) (workers σ t)); auto.
  - destruct (_ && _) eqn:Et; [|done]. assert (0 ≤ t < nthreads) as Ht by lia. destruct (pc (workers σ t)) eqn:Hpc; try done. unfold worker_at in He.
    destruct (begin _ _ _ _) as [[d' w']|] eqn:Er; simplify_eq. apply good_step; [done|done|]. by apply (begin_ok t (buf σ) (workers σ t)) in Er; auto.
  - destruct (_ <=? _) eqn:El; simplify_eq. apply Z.leb_le in El. apply world_step; [done|apply world_ok|by apply world_guar]; try done; [apply Hb|].
    intros tg. pose proof (ok_wal _ _ Hb tg). lia.
  - destruct (_ && _) eqn:E; simplify_eq. apply andb_true_iff in E as [E%negb_true_iff El%Z.leb_le]. assert (tg ≠ tag (buf σ)) as Hne.
    { intros ->. by rewrite (proj2 (BUFFERTAGS_EQUAL_spec _ _)) in E. }
    apply world_step; [done|apply world_ok|apply world_guar]; rewrite ?fn_lookup_insert_ne by done; try done.
    + intros x Hx. destruct (decide (x = tg)) as [->|]; [by rewrite !fn_lookup_insert|]. rewrite !fn_lookup_insert_ne by done. by apply (ok_others _ _ Hb).
    + intros x. destruct (decide (x = tg)) as [->|]; [by rewrite fn_lookup_insert|]. rewrite fn_lookup_insert_ne by done. apply (ok_wal _ _ Hb).
Qed.

Lemma buf_reach_inv p files lsn σ : (∀ tg, pd_lsn (files tg) ≤ lsn) → buf_reachable (buf_start p files lsn) σ → buffer_inv σ.
Proof. intros Hl. revert σ. apply rtc_ind_r; [by apply start_inv|]. intros σ1 σ2 _ Hs Hi. by apply (buf_step_inv σ1). Qed.

End reach.
