(* ===== verification/BufCorrect.v ===== *)
(** * What the buffer manager promises

    The theorems on a shared buffer, for every state that any number of backends can bring
    it into. *)

From S2P Require Import Prelude BufWord BufDefs BufMgr BufInv BufPin BufPage BufHeader BufStep BufIO BufReach.

(** What a reader of the block [tg] is to see: the page in the buffer if it is there, the
    file otherwise. *)
Definition current (d : buffer) (tg : BufferTag) : list Z :=
  if bool_decide (tag d = tg) && loaded d then pd_data (bufBlock d) else pd_data (disk d tg).

Lemma current_store n d tg : buffer_ok n d → current d tg = store d tg.
Proof.
  intros Hd. unfold current. destruct (bool_decide (tag d = tg)) eqn:E; cbn.
  - apply bool_decide_eq_true in E as <-. destruct (loaded d) eqn:El; [by apply (ok_block _ _ Hd)|by apply (ok_absent _ _ Hd)].
  - apply bool_decide_eq_false in E. apply (ok_others _ _ Hd). congruence.
Qed.

Section correct.
Context `{BufEnv}.

(** ** The abstract store

    A map from blocks to contents, with three operations: a client writes the block it has
    locked, the rest of the server writes another block, and a block of a dropped relation
    falls back to what its file has. *)
Definition store_next (e : buf_event) (σ : buf_config) (s : BufferTag → list Z) : BufferTag → list Z :=
  match e with
  | EvBegin _ (RqModifyPage x _) => <[tag (buf σ) := x]> s
  | EvOtherBlock tg p => <[tg := pd_data p]> s
  | EvRun t _ =>
      match pc (workers σ t) with
      | BHdrHeld b (HInvalidate tg) =>
          if BUFFERTAGS_EQUAL (tag (buf σ)) tg && (BUF_STATE_GET_REFCOUNT b =? 0) then <[tg := pd_data (disk (buf σ) tg)]> s else s
      | _ => s
      end
  | _ => s
  end.

Lemma unpin_all_store t d w : store (unpin_all t d w).1 = store d.
Proof. unfold unpin_all. by destruct (0 <? priv w). Qed.

Lemma hdr_held_store o t b h d w : store (hdr_held o t b h d w).1 =
  match h with
  | HInvalidate tg => if BUFFERTAGS_EQUAL (tag d) tg && (BUF_STATE_GET_REFCOUNT b =? 0) then <[tg := pd_data (disk d tg)]> (store d) else store d
  | _ => store d
  end.
Proof.
  destruct h as [| | | | | | | | | | | |tg| |]; unfold_held; cbn; try done; try (repeat case_match; done).
  destruct (BUFFERTAGS_EQUAL (tag d) tg) eqn:E; cbn; [|done]. apply BUFFERTAGS_EQUAL_spec in E as <-. by destruct (_ =? 0).
Qed.

Lemma begin_store t r d w d' w' : begin t r d w = Some (d', w') → store d' = match r with RqModifyPage x _ => <[tag d := x]> (store d) | _ => store d end.
Proof. destruct r; unfold begin; repeat case_match; intros; by simplify_eq. Qed.

Lemma run_store o t d w d' w' : run o t d w = Some (d', w') → store d' =
  match pc w with
  | BHdrHeld b (HInvalidate tg) => if BUFFERTAGS_EQUAL (tag d) tg && (BUF_STATE_GET_REFCOUNT b =? 0) then <[tg := pd_data (disk d tg)]> (store d) else store d
  | _ => store d
  end.
Proof.
  unfold_run. destruct (pc w) as [| | | | | | | | | | | | |b h| | | | | | | | | | | | | |k| | | | | | | | | | |]; try (repeat case_match; intros; by simplify_eq).
  - intros E. rewrite (surjective_pairing (hdr_held o t b h d w)) in E. injection E as [= <- <-]. rewrite hdr_held_store. by destruct h.
  - destruct k; intros E; [by simplify_eq..|]. rewrite (surjective_pairing (unpin_all _ _ _)) in E. injection E as [= <- <-]. by rewrite unpin_all_store.
  - case_match; intros E; [by simplify_eq|]. rewrite (surjective_pairing (unpin_all _ _ _)) in E. injection E as [= <- <-]. by rewrite unpin_all_store.
Qed.

Lemma next_store e σ σ' : buf_next e σ = Some σ' → store (buf σ') = store_next e σ (store (buf σ)).
Proof.
  destruct e as [t o|t r|lsn|tg p]; cbn.
  - destruct (_ && _); [|done]. unfold worker_at. destruct (run _ _ _ _) as [[d' w']|] eqn:E; intros; simplify_eq. cbn. by apply run_store in E.
  - destruct (_ && _); [|done]. destruct (pc (workers σ t)); try done. unfold worker_at. destruct (begin _ _ _ _) as [[d' w']|] eqn:E; intros; simplify_eq. cbn.
    by apply begin_store in E.
  - destruct (_ <=? _); intros; by simplify_eq.
  - destruct (_ && _); intros; by simplify_eq.
Qed.

Lemma store_next_ext e σ s s' : (∀ tg, s tg = s' tg) → ∀ tg, store_next e σ s tg = store_next e σ s' tg.
Proof.
  intros Hs tg. assert (∀ x v, (<[x := v]> s) tg = (<[x := v]> s') tg) as Hi.
  { intros x v. destruct (decide (x = tg)) as [->|]; [by rewrite !fn_lookup_insert|by rewrite !fn_lookup_insert_ne]. }
  unfold store_next. repeat case_match; auto.
Qed.

Section reachable.
Variables (p : page) (files : BufferTag → page) (lsn : Z).
Hypothesis few_threads : nthreads < 2 ^ 32.
Hypothesis files_logged : ∀ tg, pd_lsn (files tg) ≤ lsn.
Abbreviation reachable := (buf_reachable (buf_start p files lsn)).

Lemma buf_reachable_inv σ : reachable σ → buffer_inv σ.
Proof. by apply buf_reach_inv. Qed.

(** C10: In every state that any number of backends can bring a buffer into, by reading, pinning, locking, changing, writing out, recycling and dropping it and with
    errors at any point, a backend that has been given a block and has not released it finds in the buffer that block (the tag is its tag) and the contents that were last
    written to it. *)
Theorem buffer_holds_block σ t tg : reachable σ → 0 ≤ t < nthreads → held (workers σ t) = Some tg →
  tag (buf σ) = tg ∧ pd_data (bufBlock (buf σ)) = store (buf σ) tg.
Proof.
  intros Hr Ht Hh. destruct (buf_reachable_inv σ Hr) as [Hb Hw]. destruct (wk_held _ _ _ (Hw t Ht) tg Hh) as (_ & <- & Hl). split; [done|by apply (ok_block _ _ Hb)].
Qed.

(** C9: A buffer with its file refines a map of blocks to contents: what a reader of any block is to see (the page in the buffer if it is there, the file otherwise)
    changes only by the client's writes, by writes to other blocks, and when a block of a dropped relation is given up; reading a page in, writing it out, recycling the
    buffer for another block and failing in any of these leave the contents of all blocks as they were. *)
Theorem buffer_refines_store σ e σ' : reachable σ → buf_next e σ = Some σ' → ∀ tg, current (buf σ') tg = store_next e σ (current (buf σ)) tg.
Proof.
  intros Hr He tg. pose proof (buf_reachable_inv σ Hr) as Hi. assert (buffer_inv σ') as Hi' by (apply (buf_step_inv few_threads σ); [done|by exists e]).
  rewrite (current_store _ _ _ (bi_buffer _ Hi')), (next_store _ _ _ He). apply store_next_ext. intros x. symmetry. apply (current_store nthreads), Hi.
Qed.

(** C18: No page is in a file with an LSN that the log on disk has not reached, also when a hint bit is set, with a full page image in the log, while the page is being
    written. *)
Theorem buffer_wal_before_data σ tg : reachable σ → pd_lsn (disk (buf σ) tg) ≤ flushed (buf σ).
Proof. intros Hr. apply (ok_wal nthreads), buf_reachable_inv, Hr. Qed.

(** A backend that is in the reference count: it has a pin, or is taking back an attempt. *)
Definition counts (w : worker) : Prop := 0 < priv w ∨ pc_extra (pc w) = true.
#[global] Instance counts_dec w : Decision (counts w).
Proof. unfold counts. apply _. Defined.

(** C20: The reference count in the state word is, at every moment, the number of backends that have a pin or are about to take back an attempt to add or to remove one: it
    neither overflows into the flags nor loses a pin, although pins are added and removed without the header lock. *)
Theorem buffer_refcount_exact σ : reachable σ →
  BUF_STATE_GET_REFCOUNT (state (buf σ)) = Z.of_nat (length (filter (λ t, counts (workers σ t)) (seqZ 0 nthreads))).
Proof.
  intros Hr. destruct (buf_reachable_inv σ Hr) as [Hb Hw]. rewrite refcount_pins, (ok_pins _ _ Hb). f_equal.
  rewrite <- (size_list_to_set (C := gset Z)) by apply list_relations.list.NoDup_filter, NoDup_seqZ. f_equal. apply set_eq. intros t.
  rewrite elem_of_list_to_set, list_elem_of_filter, elem_of_seqZ. split.
  - intros Hc. pose proof (ok_range _ _ Hb t Hc) as Ht. split; [|lia]. by apply (wk_counted _ _ _ (Hw t Ht)).
  - intros [Hc Ht]. assert (0 ≤ t < nthreads) as Ht' by lia. by apply (wk_counted _ _ _ (Hw t Ht')).
Qed.

(** C19: When LockBufferForCleanup has seen a reference count of one under the header lock, no other backend has a pin, and none gets one before the header lock is
    released; nobody else holds the content lock. *)
Theorem buffer_cleanup_alone σ t s : reachable σ → 0 ≤ t < nthreads → pc (workers σ t) = BHdrHeld s HClean → BUF_STATE_GET_REFCOUNT s = 1 →
  content_lock (buf σ) !! t = Some BUFFER_LOCK_EXCLUSIVE ∧ ∀ u, 0 ≤ u < nthreads → u ≠ t → priv (workers σ u) = 0 ∧ content_lock (buf σ) !! u = None.
Proof.
  intros Hr Ht Hpc Hs. destruct (buf_reachable_inv σ Hr) as [Hb Hw]. destruct (header_facts t (buf σ) _ s (Hw t Ht) _ Hpc) as (_ & Hc & _ & Hsz). cbn in Hc. split; [done|].
  intros u Hu Hne. rewrite Hs in Hsz. destruct (ok_content _ _ Hb _ _ Hc) as [Hin _]. pose proof (pinned_alone t (buf σ) Hsz Hin) as Hal.
  assert (u ∉ pinners (buf σ)) as Hn by (rewrite Hal; set_solver). split.
  - pose proof (wk_priv _ _ _ (Hw u Hu)). destruct (decide (0 < priv (workers σ u))) as [Hp|]; [|lia]. by apply (wk_pin _ _ _ (Hw u Hu)) in Hp.
  - destruct (content_lock (buf σ) !! u) eqn:E; [|done]. by destruct (ok_content _ _ Hb _ _ E).
Qed.

(** At most one backend reads or writes the page, and it has a pin. *)
Theorem buffer_io_exclusive σ t u b b' : reachable σ → 0 ≤ t < nthreads → 0 ≤ u < nthreads →
  InProgress (workers σ t) = Some b → InProgress (workers σ u) = Some b' → t = u ∧ 0 < priv (workers σ t).
Proof.
  intros Hr Ht Hu Hi Hj. destruct (buf_reachable_inv σ Hr) as [Hb Hw]. apply (wk_io _ _ _ (Hw t Ht)) in Hi. apply (wk_io _ _ _ (Hw u Hu)) in Hj. split; [congruence|].
  by apply (wk_pin _ _ _ (Hw t Ht)), (ok_io _ _ Hb) with b.
Qed.

(** UnpinBuffer and StartBufferIO never raise their PANICs. *)
Theorem buffer_no_panic σ t : reachable σ → 0 ≤ t < nthreads → pc (workers σ t) ≠ BPanic.
Proof. intros Hr Ht Hpc. destruct (buf_reachable_inv σ Hr) as [_ Hw]. pose proof (wk_pc _ _ _ (Hw t Ht)) as Wpc. by rewrite Hpc in Wpc. Qed.

End reachable.
End correct.

(** ** Two backends at work *)

Definition play `{BufEnv} (es : list buf_event) (σ : buf_config) : buf_config :=
  foldl (λ σ e, match buf_next e σ with Some σ' => σ' | None => σ end) σ es.

Lemma play_reachable `{BufEnv} es σ : buf_reachable σ (play es σ).
Proof.
  revert σ. induction es as [|e es IH]; intros σ; [done|]. cbn. destruct (buf_next e σ) as [σ'|] eqn:E; [|apply IH].
  apply rtc_l with σ'; [by exists e|apply IH].
Qed.

Definition can_play `{BufEnv} (e : buf_event) (σ : buf_config) : bool := match buf_next e σ with Some _ => true | None => false end.

Lemma play_next `{BufEnv} e σ : can_play e σ = true → buf_next e σ = Some (play [e] σ).
Proof. unfold can_play. cbn. by destruct (buf_next e σ). Qed.

Definition demo_env : BufEnv := {| nthreads := 2; backend_can_flush_dirty_page := true; is_permanent := λ _, true; XLogHintBitIsNeeded := true |}.
Definition demo_page : page := {| pd_lsn := 3; pd_data := [1; 2]; pd_hint := [] |}.
Definition demo_disk (tg : BufferTag) : page := demo_page.
Definition demo_start : buf_config := buf_start demo_page demo_disk 10.
Definition demo_tag (b : Z) : BufferTag := {| rnode := {| spcNode := 1663; dbNode := 5; relNode := 16384; bucketNode := -1 |}; forkNum := 0; blockNum := b |}.
Definition ok_oracle : oracle := {| bad := false; fpi_lsn := 12 |}.
Definition demo_runs (t : Z) (k : nat) : list buf_event := replicate k (EvRun t ok_oracle).
Definition demo (es : list buf_event) : buf_config := @play demo_env es demo_start.

(** Backend 0 reads block 7 into the buffer, locks and changes it; then backend 1 looks for the block, too. *)
Definition demo_read : list buf_event := EvBegin 0 (RqAllocBuffer (demo_tag 7)) :: demo_runs 0 20.
Definition demo_modify : list buf_event := demo_read ++ [EvBegin 0 (RqLockBuffer BUFFER_LOCK_EXCLUSIVE); EvBegin 0 (RqModifyPage [9; 9] 11)].
Definition demo_two : list buf_event := demo_modify ++ demo_runs 0 4 ++ EvBegin 1 (RqReadBuffer (demo_tag 7)) :: demo_runs 1 3.

Lemma demo_files tg : pd_lsn (demo_disk tg) ≤ 10.
Proof. done. Qed.

Lemma buf_demo_reachable es : @buf_reachable demo_env demo_start (demo es).
Proof. apply (@play_reachable demo_env). Qed.

(** After backend 0 has unlocked and released the page, backend 1 writes it out; backend 0 asks for a cleanup lock. *)
Definition demo_flush : list buf_event :=
  demo_modify ++ demo_runs 0 4 ++ [EvBegin 0 RqUnlockBuffer; EvFlushed 20; EvBegin 1 (RqSyncOneBuffer false)] ++ demo_runs 1 24.
Definition demo_clean : list buf_event := demo_flush ++ [EvBegin 0 RqLockBufferForCleanup] ++ demo_runs 0 2.

Lemma buffer_holds_block_witness :
  held (workers (demo demo_two) 1) = Some (demo_tag 7) ∧
  (tag (buf (demo demo_two)) = demo_tag 7 ∧ pd_data (bufBlock (buf (demo demo_two))) = store (buf (demo demo_two)) (demo_tag 7)) ∧ store (buf (demo demo_two)) (demo_tag 7) = [9; 9].
Proof.
  split; [vm_compute; reflexivity|]. split; [|vm_compute; reflexivity].
  apply (@buffer_holds_block demo_env demo_page demo_disk 10 ltac:(done) demo_files _ 1); [apply buf_demo_reachable|done|vm_compute; reflexivity].
Defined.

Lemma buffer_refines_store_witness :
  current (buf (demo demo_read)) (demo_tag 7) = [1; 2] ∧
  ∀ tg, current (buf (@play demo_env [EvBegin 0 (RqLockBuffer BUFFER_LOCK_EXCLUSIVE)] (demo demo_read))) tg
    = @store_next (EvBegin 0 (RqLockBuffer BUFFER_LOCK_EXCLUSIVE)) (demo demo_read) (current (buf (demo demo_read))) tg.
Proof.
  split; [vm_compute; reflexivity|]. apply (@buffer_refines_store demo_env demo_page demo_disk 10 ltac:(done) demo_files); [apply buf_demo_reachable|].
  apply (@play_next demo_env). vm_compute. reflexivity.
Defined.

Lemma buffer_wal_before_data_witness :
  pd_lsn (disk (buf (demo demo_flush)) (demo_tag 7)) = 11 ∧ pd_lsn (disk (buf (demo demo_flush)) (demo_tag 7)) ≤ flushed (buf (demo demo_flush)).
Proof.
  split; [vm_compute; reflexivity|]. apply (@buffer_wal_before_data demo_env demo_page demo_disk 10 ltac:(done) demo_files), buf_demo_reachable.
Defined.

Lemma buffer_refcount_exact_witness :
  BUF_STATE_GET_REFCOUNT (state (buf (demo demo_two))) = 2 ∧
  BUF_STATE_GET_REFCOUNT (state (buf (demo demo_two))) = Z.of_nat (length (filter (λ t, counts (workers (demo demo_two) t)) (seqZ 0 (@nthreads demo_env)))).
Proof.
  split; [vm_compute; reflexivity|]. apply (@buffer_refcount_exact demo_env demo_page demo_disk 10 ltac:(done) demo_files), buf_demo_reachable.
Defined.

Lemma buffer_cleanup_alone_witness :
  pc (workers (demo demo_clean) 0) = BHdrHeld (state (buf (demo demo_clean))) HClean ∧
  content_lock (buf (demo demo_clean)) !! 0 = Some BUFFER_LOCK_EXCLUSIVE ∧ priv (workers (demo demo_clean) 1) = 0.
Proof.
  split; [vm_compute; reflexivity|]. destruct (@buffer_cleanup_alone demo_env demo_page demo_disk 10 ltac:(done) demo_files (demo demo_clean) 0 (state (buf (demo demo_clean)))) as [Hc Hu].
  - apply buf_demo_reachable.
  - done.
  - vm_compute. reflexivity.
  - vm_compute. reflexivity.
  - split; [exact Hc|]. refine (proj1 (Hu 1 _ _)); [by split|discriminate].
Defined.

(** ** The mark of undo metadata does not keep a buffer

    Backend 0 gives block 7 back and takes the buffer for block 8; before it locks the header to rename it, backend 1 reads block 7, marks the buffer and releases it. *)
Definition demo_meta : list buf_event :=
  demo_read ++ EvBegin 0 RqReleaseBuffer :: demo_runs 0 2 ++ EvBegin 0 (RqAllocBuffer (demo_tag 8)) :: demo_runs 0 5 ++
  EvBegin 1 (RqReadBuffer (demo_tag 7)) :: demo_runs 1 3 ++ EvBegin 1 (RqMarkBufferMetaFlag true) :: demo_runs 1 2 ++ EvBegin 1 RqReleaseBuffer :: demo_runs 1 2 ++ demo_runs 0 1.

(** BufferAlloc tests BM_IS_META in flags that have been masked with BUF_FLAG_MASK, which the mark is not in: a buffer that is marked when BufferAlloc looks at it under
    the header lock gets another block all the same. *)
Theorem meta_buffer_recycled : ∃ σ σ' s, @buf_reachable demo_env demo_start σ ∧ pc (workers σ 0) = BHdrHeld s (HRename (demo_tag 8)) ∧ has BM_IS_META s = true ∧
  tag (buf σ) = demo_tag 7 ∧ @buf_step demo_env σ σ' ∧ tag (buf σ') = demo_tag 8.
Proof.
  exists (demo demo_meta), (@play demo_env [EvRun 0 ok_oracle] (demo demo_meta)), (state (buf (demo demo_meta))). split; [apply buf_demo_reachable|].
  split; [vm_compute; reflexivity|]. split; [vm_compute; reflexivity|]. split; [vm_compute; reflexivity|]. split; [|vm_compute; reflexivity].
  exists (EvRun 0 ok_oracle). apply (@play_next demo_env). vm_compute. reflexivity.
Qed.
